(* ===== verification/_CoqProject ===== *)
-Q . S2P
Prelude.v
Binary.v
Bits.v
BitReader.v
Simple8b.v
Simple8bStream.v
Codec.v
Timestamp.v
Integer.v
Boolean.v
StringCodec.v
Float.v
FloatLaws.v
FloatArray.v
FloatArrayLaws.v
Values.v
ArrayValues.v
Block.v
Bytes.v
Util.v
SSTIndex.v
IndirectIndex.v
IndexLaws.v
IndexDelete.v
Tombstone.v
Discard.v
Entry.v
Cache.v
CacheLaws.v
CachePut.v
CacheRuns.v
CacheReads.v
Wal.v
WalFile.v
MemTable.v
MemTableLaws.v
MemManager.v
Checksum.v
VFile.v
VFileLaws.v
VFileManager.v
SSTWriter.v
SSTWriterLaws.v
SSTAccess.v
SSTReader.v
SSTReaderLaws.v
SSTIter.v
Planner.v
PlannerLaws.v
GoSort.v
MergeBlocks.v
MergeLaws.v
BatchIter.v
BatchLaws.v
Samples.v
Compaction.v
KeyCursor.v
KeyCursorLaws.v
KeyCursorRuns.v
ArrayCursor.v
ArrayCursorLaws.v
CursorRuns.v
