(* ===== verification/Prelude.v ===== *)
(** * EquinoxDB, a time-series storage engine

    A model in Rocq of the storage engine under src/, and proofs of what its
    parts do.  EquinoxDB keeps series of timestamped values: they are written to
    a log and to memory tables, flushed as compressed blocks to sorted files
    (SST), merged by compaction, and read back through cursors; large string
    values move to value files.

    ** Parts and files

    - [Prelude]: outcomes of Go calls (a value, an error, a panic), slices with
      a capacity, machine integers, lemmas on lists, the automation ([gomod],
      [len], the databases [go] and [golen]).
    - [Binary]: encoding/binary of the Go library: big-endian words and varints.
    - [Simple8b], [Simple8bStream]: src/pkg/encoding/simple8b/encoding.go, the
      packing of words; the second file has the streaming [Encoder] and
      [Decoder].
    - [Bits]: numbers and bytes as lists of bits; [BitReader]: bit_reader.go.
    - [Codec]: what the codecs share: the sizing of output buffers (module
      [Buffer]) and the interface between a codec and the block functions (module
      [Codec]: the methods as classes, their laws as [CodecLaws]).
    - [Timestamp], [Integer], [Boolean], [StringCodec]: the files timestamp.go,
      int.go, bool.go and string.go of src/storage/codec, each with its streaming
      and its batch codec.  Snappy is the parameter [snappy] of [StringCodec],
      with its documented round trip in [snappy_laws].
    - [Float]: float.go, the streaming codec of floats, each of them its 64 bits, over
      the parameter [bitstream] for github.com/dgryski/go-bitstream; [FloatLaws] has the
      bits it writes and that they are read.  [FloatArray]: the batch codec in the same
      file, with the sums of floats from SpecFloat; [FloatArrayLaws] shows that it writes
      and reads the same bits.
    - [Values]: src/storage/types/values.gen.go and value.go, slices of values.
      The generated file has six copies of the same code; the model has it once,
      over the class [Timestamped], and names the instances after the copies.
    - [ArrayValues]: src/storage/types/arrayvalues.gen.go and arrayvalues.go, the
      columnar arrays, treated in the same way.
    - [Block]: utils.go, pool.go and values.go of src/storage/codec and the block
      functions of its codec files: the pools (module [Pool], from
      src/pkg/pool/generic.go), the format of a block and the dispatch on its
      type.  It uses the codecs through the interface of [Codec]; the float codec
      is a parameter of that interface, which [FloatLaws] implements.
    - [Bytes]: the order of byte strings, bytes.Compare of the Go library.
    - [Util]: src/storage/store/util.go, sorted sets of keys, searches, packing.
    - [SSTIndex]: the index part of src/storage/store/sst_writer.go, the sections of
      an SST file's index and their writer.  [IndirectIndex]: sst_index.go, the index
      read in its bytes through the offsets of its keys.  [IndexLaws] has the
      lookups against the list of sections, [IndexDelete] deletion of keys and of
      ranges of time.  The sort of the library is a parameter with the contract of
      an unstable sort ([sorts]).
    - [Tombstone]: tombstone.go, the file of deletions beside an SST file; gzip is the
      parameter [gzip].
    - [Discard]: vfile_discard.go, the bytes of garbage in each value file.
    - [Checksum]: hash/crc32 of the Go library.
    - [VFile]: vfile_ptr.go, vfile_footer.go, vfile_file.go and vfile_reader.go, the
      value files; the goroutine of a write makes one copy per step.  [VFileLaws] has
      their interleavings and recovery, [VFileManager] vfile_manager.go and
      vfile_region_manager.go.  xxhash is the parameter [Sum64].
    - [SSTWriter]: the rest of sst_writer.go, the writer of data files, over the
      interface [BlockCodec] that [Block] implements; its laws in [SSTWriterLaws].
      [SSTAccess]: sst_block_accessor.go and its generated copies, the blocks of a
      mapped file, of values or of pointers into value files.  [SSTReader]:
      sst_reader.go and sst_batch_deleter.go, the reader with its tombstones and
      iterator; its laws in [SSTReaderLaws] and, for iteration and copies, [SSTIter].
    - [Entry]: src/storage/types/entry.go, the values of one key in memory.
    - [Cache]: src/storage/memory/cache.go, the lock-free skip list of a memory
      table.  A [Put] is a thread with one atomic access to the shared list, or one
      act of [Entry.Add] on its mutex, per step.  [CacheLaws] has the shape of the list and the map it stands for,
      [CachePut] what each step does, [CacheRuns] whole runs of threads,
      [CacheReads] the operations that run alone.
    - [Wal]: the entries of the write-ahead log and their formats, and [WalFile]:
      the log over its mapped file and the reader; wal_file.go, wal_reader.go and
      mmap_file.go of src/storage/store.
    - [MemTable]: src/storage/memory/memtable.go, a cache over its log, with its
      laws in [MemTableLaws]; [MemManager]: memtable_manager.go, the tables of an
      engine and the flusher's queue.
    - [Planner]: planner.go and type_generation.go of src/storage/compactor, which
      files are compacted together; its laws in [PlannerLaws].
    - [GoSort]: [sort.Stable] of the Go library, runs sorted by insertion and merged in
      place, and where it can be relied on.
    - [MergeBlocks]: compact.gen.go of src/storage/compactor, the merge of the blocks
      of a key (the five copies over one class of operations) with the blocks and errors
      of compactor.go and type_errs.go; [MergeLaws] has what one merge gives.
      [BatchIter]: iterator_batch_key.go, the iterator over several files, over the
      interface [BlockSource] that the reader of a file implements; [BatchLaws] has
      what it gives of files in general, [Compaction] of data files, and the inputs on
      which it does not end.  [Samples]: small data files for the witnesses.
    - [KeyCursor]: sst_file_key_cursor.go, its generated readers and the locations of
      sst_file.go, the cursor over the blocks of a key, over the interface [SSTFile];
      [KeyCursorLaws] has its windows and blocks, [KeyCursorRuns] whole readings.
      [ArrayCursor]: array_cursor.gen.go of src/storage/cursor, the cursors over the
      values in memory and in files; laws in [ArrayCursorLaws], and [CursorRuns] puts
      the two together.

    ** What is proved

    - Round trips: every codec, streaming and batch, and across the two; blocks of
      values and of arrays through the pools; the packing of words.
    - Floats: the batch and the streaming codec are the same on all floats but NaN and
      lists that sum up to one, and the batch decoder returns on any input.
    - [Values]: [Deduplicate] against a canonical form, the searches against the
      partition point, [Include] and [Exclude] against filters, [Merge] against
      the overlay of finite maps, and its algebra.  [ArrayValues] refines [Values]
      through the row view of an array.
    - The skip list: every interleaving of [Put]s that do not race for the type of an
      entry is linearizable and keeps the list sorted; every thread returns when it runs
      alone unless another holds the mutex of its entry, and some order of steps makes
      all return; the other operations act as on a finite map.
    - The index of a file: written and read back whole, every lookup against the
      list of its sections, and after any deletions a key holds exactly the times no
      deletion of it covers.
    - Data files: what the writer was given is read back, over any index order and
      value files; a deletion hides exactly its range, in any sequence of deletions;
      a copy block by block holds the same.
    - The log and the tables: entries round-trip, a log cut anywhere is recovered
      up to the cut, a table is durable although it rewrites its log while it reads it
      (as long as no entry grows by that), and the manager loses no table.
    - Value files: any interleaving of writes and of their goroutines keeps every block
      and ends, a file is recovered, and the region manager reads every block back when
      every file is flushed after its copies and before the next is made.
    - The planner: in any history of calls no file is in two plans, what is planned
      together is adjacent, and where its cache and its windows go wrong.
    - Compaction: the overlay of the files, later over earlier, for each key once and in
      order; blocks on which the merge goes round for ever; and 21 blocks of which an
      older one wins, because the order of blocks is no weak order.
    - Cursors: what is given, either way, is what memory holds, else the newest file;
      where blocks are repeated, and where nothing is given at the ends of time.
    - Errors and limits: when packing fails, which inputs panic, and the cases
      where two parts of the code disagree (each a theorem on its own).

    ** Conventions

    A Go function becomes a function on its arguments and the state it changes,
    with result [outcome] when it can fail or panic.  Bytes, [uint64] and [int64]
    are [Z]s with wrap-around written out ([u64], [i64]).  A slice is a list, or a
    [slice] (backing array and length) where the code looks at the capacity or
    writes past the length.  Two slices never share an array in the model unless
    the code depends on it ([EncodeAll] writes over the slice it reads).  Error
    values are strings without the formatted arguments.

    Loops are structural where the code counts; the others take a fuel, computed
    from the input: a round of [encode_all_loop] or [decode_bytes_loop] consumes
    at least one element, so the length plus one is enough; a binary search
    halves its interval, so the length is; a [Put] alone takes at most sixty steps
    per node and a constant ([put_fuel], by the measure of [CachePut]); a search
    passes each node once; and running out is a panic, which the theorems exclude.
    [put_fuel] counts the values of the call too, and a thread that waits for a mutex
    makes no step.  The compaction's loops return the error [no_fuel] when they run out:
    the theorem on its result takes any fuel above the number of blocks, and that a loop
    does not end is stated as [no_fuel] for every fuel, with the states it goes through.

    [sort.Stable] is modelled as it is written where an order that is no weak order
    matters ([GoSort]); [sort.Sort] and [sort.Slice], of which Go documents only the
    result, are parameters with that contract, and the orders of the code are shown to
    meet its condition or the condition is stated on the data ([untangled]).

    What Go leaves open is an argument: the order of a [range] over a map, what
    [rand] draws, what a pool returns.  A file is its content; what another process
    could do to it is not in the model.

    ** Not modelled

    System calls, metrics, configuration, the web console and the benchmarks; locks
    other than the mutex of an entry (an operation under a lock is one step).  A flush of
    a value file that maps it anew while blocks are still copied to it is a panic of the
    model, where the code can write to memory that is no longer mapped.  The store of
    open data files, the garbage collection of value files, the marks of deleted values,
    the snapshot iterator of the compactor and the writing of its new files are not
    modelled; in [SSTIter], copying block by block composes the modelled operations as
    that writing does. *)
From stdpp Require Export base tactics numbers list strings sorting.
From Stdlib Require Export ZArith Lia.

Declare Scope go_scope.
Delimit Scope go_scope with go.
#[global] Open Scope Z_scope.

(** ** Outcomes of Go calls

    A Go function of the storage engine returns a value, returns a non-nil
    [error], or panics (an index out of range, an explicit [panic]). *)
Inductive outcome (A : Type) : Type :=
| Ok (a : A)
| Err (e : string)
| Panic.
Arguments Ok {A} a.
Arguments Err {A} e.
Arguments Panic {A}.

#[global] Instance outcome_ret : MRet outcome := fun A a => Ok a.
#[global] Instance outcome_bind : MBind outcome := fun A B f m =>
  match m with Ok a => f a | Err e => Err e | Panic => Panic end.
#[global] Instance outcome_fmap : FMap outcome := fun A B f m =>
  match m with Ok a => Ok (f a) | Err e => Err e | Panic => Panic end.

Lemma bind_Ok {A B} (m : outcome A) (f : A -> outcome B) b :
  (m ≫= f) = Ok b <-> exists a, m = Ok a /\ f a = Ok b.
Proof.
  destruct m as [a|e|]; cbn; naive_solver.
Qed.

Lemma fmap_Ok {A B} (m : outcome A) (f : A -> B) b :
  (f <$> m) = Ok b <-> exists a, m = Ok a /\ f a = b.
Proof.
  destruct m as [a|e|]; cbn; naive_solver.
Qed.

(** [ok_inv]: what a computation that succeeded went through. *)
Ltac ok_inv :=
  repeat (match goal with
    | H : (_ ≫= _) = Ok _ |- _ => apply bind_Ok in H as (? & ? & H); cbv beta in H
    | H : (_ <$> _) = Ok _ |- _ => apply fmap_Ok in H as (? & ? & H); cbv beta in H
    | H : Ok _ = Ok _ |- _ => injection H; clear H; intros; subst
    | H : Some _ = None |- _ => discriminate H
    | H : None = Some _ |- _ => discriminate H
    | H : Panic = Ok _ |- _ => discriminate H
    | H : Err _ = Ok _ |- _ => discriminate H
    | H : (_, _) = (_, _) |- _ => injection H; clear H; intros; subst
    | H : (let _ := _ in _) = Ok _ |- _ => cbv zeta in H
    | H : match ?x with _ => _ end = Ok _ |- _ => destruct x eqn:?
    end).

(** Indexing a slice panics out of range. *)
Definition index {A} (l : list A) (i : nat) : outcome A :=
  match l !! i with Some x => Ok x | None => Panic end.

(** Assigning to an element panics out of range. *)
Definition store {A} (l : list A) (i : nat) (x : A) : outcome (list A) :=
  if decide (i < length l)%nat then Ok (<[i := x]> l) else Panic.

(** [l[i:j]] (within the length) and [l[i:]]. *)
Definition subslice {A} (l : list A) (i j : nat) : outcome (list A) :=
  if decide (i <= j <= length l)%nat then Ok (drop i (take j l)) else Panic.

Definition tail_from {A} (l : list A) (i : nat) : outcome (list A) :=
  subslice l i (length l).

Lemma index_lookup {A} (l : list A) i x : l !! i = Some x -> index l i = Ok x.
Proof. unfold index. by intros ->. Qed.

Lemma index_app_r {A} (l1 l2 : list A) x :
  index (l1 ++ x :: l2) (length l1) = Ok x.
Proof. apply index_lookup. by apply list_lookup_middle. Qed.

Lemma store_in_range {A} (l : list A) i x :
  (i < length l)%nat -> store l i x = Ok (<[i := x]> l).
Proof. intros H. unfold store. by rewrite decide_True. Qed.

Lemma tail_from_Ok {A} (l : list A) i :
  (i <= length l)%nat -> tail_from l i = Ok (drop i l).
Proof.
  intros H. unfold tail_from, subslice.
  rewrite decide_True by lia. by rewrite take_ge by lia.
Qed.

Lemma subslice_prefix {A} (l r : list A) :
  subslice (l ++ r) 0 (length l) = Ok l.
Proof.
  unfold subslice. rewrite decide_True by (rewrite length_app; lia).
  by rewrite take_app_length.
Qed.

Lemma subslice_app {A} (p l r : list A) i j :
  i = length p -> j = (length p + length l)%nat -> subslice (p ++ l ++ r) i j = Ok l.
Proof.
  intros -> ->. unfold subslice. rewrite decide_True by (rewrite !length_app; lia).
  rewrite app_assoc, take_app_le by (rewrite length_app; lia). rewrite take_ge by (rewrite length_app; lia).
  by rewrite drop_app_length.
Qed.

(** [l[i:j]] with machine integers for bounds.  Slicing into the capacity past the
    length, which only a damaged file does, counts as a panic. *)
Definition zslice {A} (l : list A) (i j : Z) : outcome (list A) :=
  if (0 <=? i) && (i <=? j) && (j <=? Z.of_nat (length l))
  then Ok (drop (Z.to_nat i) (take (Z.to_nat j) l)) else Panic.
Definition ztail {A} (l : list A) (i : Z) : outcome (list A) := zslice l i (Z.of_nat (length l)).

Lemma zslice_app {A} (p l r : list A) i j :
  i = Z.of_nat (length p) -> j = Z.of_nat (length p + length l) -> zslice (p ++ l ++ r) i j = Ok l.
Proof.
  intros -> ->. unfold zslice. rewrite (proj2 (Z.leb_le 0 _)), (proj2 (Z.leb_le (Z.of_nat _) _)), (proj2 (Z.leb_le _ (Z.of_nat (length (p ++ _)))))
    by (rewrite ?length_app; lia). cbn [andb]. rewrite !Nat2Z.id. f_equal.
  rewrite app_assoc, take_app_le by (rewrite length_app; lia). rewrite take_ge by (rewrite length_app; lia).
  by rewrite drop_app_length.
Qed.

Lemma zslice_head {A} (l r : list A) j : j = Z.of_nat (length l) -> zslice (l ++ r) 0 j = Ok l.
Proof. intros ->. by apply (zslice_app [] l r). Qed.

Lemma ztail_app {A} (p r : list A) i : i = Z.of_nat (length p) -> ztail (p ++ r) i = Ok r.
Proof.
  intros ->. unfold ztail. rewrite <- (app_nil_r r) at 1. apply zslice_app; [done|]. by rewrite length_app.
Qed.

(** ** Slices with a capacity

    [backing] is the backing array from the start of the slice to its
    capacity; the slice itself is its first [slen] elements.  The model is used
    where the code looks at [cap] or re-slices past the length. *)
Record slice (A : Type) := Slice { backing : list A; slen : nat }.
Arguments Slice {A} backing slen.
Arguments backing {A} s.
Arguments slen {A} s.

Definition scap {A} (s : slice A) : nat := length (backing s).
Definition contents {A} (s : slice A) : list A := take (slen s) (backing s).
Definition nil_slice {A} : slice A := Slice [] 0.
(** [make([]A, n, c)]. *)
Definition make_slice {A} (zero : A) (n c : nat) : slice A :=
  Slice (replicate c zero) n.
(** [s[:n]]. *)
Definition reslice {A} (s : slice A) (n : nat) : outcome (slice A) :=
  if decide (n <= scap s)%nat then Ok (Slice (backing s) n) else Panic.
(** [append(s, l...)]: in place when the capacity suffices; otherwise a fresh
    array (whose extra capacity, if any, the code never relies on). *)
Definition append {A} (s : slice A) (l : list A) : slice A :=
  let n := (slen s + length l)%nat in
  if decide (n <= scap s)%nat
  then Slice (contents s ++ l ++ drop n (backing s)) n
  else Slice (contents s ++ l) n.
(** Overwriting the elements from [i] with [l] ([copy(s[i:], l)] when [l]
    fits). *)
Definition splice {A} (l : list A) (i : nat) (new : list A) : list A :=
  take i l ++ new ++ drop (i + length new) l.

Definition slice_ok {A} (s : slice A) : Prop := (slen s <= scap s)%nat.

Lemma contents_length {A} (s : slice A) :
  slice_ok s -> length (contents s) = slen s.
Proof. unfold slice_ok, scap, contents. intros H. rewrite length_take. lia. Qed.

Lemma contents_append {A} (s : slice A) l :
  slice_ok s -> contents (append s l) = contents s ++ l.
Proof.
  intros H. pose proof (contents_length s H) as HL. unfold append.
  case_decide; unfold contents at 1; cbn [backing slen].
  - rewrite app_assoc, take_app_le by (rewrite length_app; lia).
    apply take_ge. rewrite length_app. lia.
  - apply take_ge. rewrite length_app. lia.
Qed.

Lemma append_ok {A} (s : slice A) l : slice_ok s -> slice_ok (append s l).
Proof.
  intros H. pose proof (contents_length s H) as HL.
  unfold slice_ok, scap, append in *.
  case_decide; unfold scap in *; cbn [backing slen] in *;
    rewrite ?length_app, ?length_drop; lia.
Qed.

Lemma append_cap {A} (s : slice A) l :
  slice_ok s -> (scap s <= scap (append s l))%nat.
Proof.
  intros H. pose proof (contents_length s H) as HL.
  unfold slice_ok, scap, append in *.
  case_decide; unfold scap in *; cbn [backing slen] in *;
    rewrite ?length_app, ?length_drop; lia.
Qed.

Lemma splice_length {A} (l : list A) i new :
  (i + length new <= length l)%nat -> length (splice l i new) = length l.
Proof.
  intros H. unfold splice. rewrite !length_app, length_take, length_drop. lia.
Qed.

Lemma splice_take {A} (l : list A) i new :
  (i <= length l)%nat ->
  take (i + length new) (splice l i new) = take i l ++ new.
Proof.
  intros H. unfold splice. rewrite app_assoc.
  rewrite take_app_le by (rewrite length_app, length_take; lia).
  apply take_ge. rewrite length_app, length_take. lia.
Qed.

(** ** Machine integers

    A [uint64] is an integer in [[0, 2^64)], an [int64] one in
    [[-2^63, 2^63)]; [u64] and [i64] are the conversions, which also wrap the
    results of arithmetic. *)
Definition u64 (x : Z) : Z := x mod 2 ^ 64.
Definition i64 (x : Z) : Z := (x + 2 ^ 63) mod 2 ^ 64 - 2 ^ 63.
Definition u8 (x : Z) : Z := x mod 2 ^ 8.

Definition is_u64 (x : Z) : Prop := 0 <= x < 2 ^ 64.
Definition is_i64 (x : Z) : Prop := - 2 ^ 63 <= x < 2 ^ 63.
Definition is_byte (x : Z) : Prop := 0 <= x < 256.

#[global] Instance is_u64_dec x : Decision (is_u64 x).
Proof. unfold is_u64. apply _. Defined.
#[global] Instance is_i64_dec x : Decision (is_i64 x).
Proof. unfold is_i64. apply _. Defined.
#[global] Instance is_byte_dec x : Decision (is_byte x).
Proof. unfold is_byte. apply _. Defined.

Notation "a +64 b" := (u64 (a + b)) (at level 50, left associativity) : go_scope.
Notation "a -64 b" := (u64 (a - b)) (at level 50, left associativity) : go_scope.
Notation "a *64 b" := (u64 (a * b)) (at level 40, left associativity) : go_scope.
Notation "a <<64 n" := (u64 (Z.shiftl a n)) (at level 40, left associativity) : go_scope.
#[global] Open Scope go_scope.

(** [gomod]: linear arithmetic with the wrap-around functions unfolded. *)
Ltac gomod :=
  unfold u64, i64, u8, is_u64, is_i64, is_byte in *;
  Z.div_mod_to_equations; lia.

Lemma u64_range x : is_u64 (u64 x).
Proof. gomod. Qed.
Lemma i64_range x : is_i64 (i64 x).
Proof. gomod. Qed.
Lemma u64_small x : is_u64 x -> u64 x = x.
Proof. gomod. Qed.
Lemma i64_small x : is_i64 x -> i64 x = x.
Proof. gomod. Qed.
Lemma i64_u64 x : i64 (u64 x) = i64 x.
Proof. gomod. Qed.
Lemma u64_i64 x : u64 (i64 x) = u64 x.
Proof. gomod. Qed.
Lemma u64_add_idem_l x y : u64 (u64 x + y) = u64 (x + y).
Proof. unfold u64. by rewrite Zplus_mod_idemp_l. Qed.
Lemma u64_add_idem_r x y : u64 (x + u64 y) = u64 (x + y).
Proof. unfold u64. by rewrite Zplus_mod_idemp_r. Qed.
Lemma u64_sub_idem_l x y : u64 (u64 x - y) = u64 (x - y).
Proof. unfold u64. by rewrite Zminus_mod_idemp_l. Qed.
Lemma u64_sub_idem_r x y : u64 (x - u64 y) = u64 (x - y).
Proof. unfold u64. by rewrite Zminus_mod_idemp_r. Qed.
Lemma i64_add_idem_l x y : i64 (i64 x + y) = i64 (x + y).
Proof. rewrite <- (i64_u64 (i64 x + y)), <- (i64_u64 (x + y)).
  rewrite <- u64_add_idem_l, u64_i64, u64_add_idem_l. done. Qed.
Lemma i64_add_idem_r x y : i64 (x + i64 y) = i64 (x + y).
Proof. rewrite !(Z.add_comm x). apply i64_add_idem_l. Qed.

Create HintDb go discriminated.
#[export] Hint Resolve u64_range i64_range : go.
Create Rewrite HintDb golen.
#[export] Hint Rewrite @length_app @length_take @length_drop @length_replicate
  @length_fmap @length_insert @length_seq @length_cons @length_nil : golen.
(** [len]: linear arithmetic over list lengths. *)
Ltac len := autorewrite with golen in *; cbn [length] in *; lia.

(** ** Lists *)
Lemma Forall_take_drop {A} (P : A -> Prop) n l :
  Forall P l <-> Forall P (take n l) /\ Forall P (drop n l).
Proof. rewrite <- Forall_app, take_drop. done. Qed.

Lemma drop_app_ge' {A} (l r : list A) n :
  (length l <= n)%nat -> drop n (l ++ r) = drop (n - length l) r.
Proof. intros H. by rewrite drop_app, (drop_ge l). Qed.

Lemma splice_after {A} (p q new : list A) :
  splice (p ++ q) (length p) new = p ++ new ++ drop (length new) q.
Proof.
  unfold splice. rewrite take_app_length, drop_app_ge' by lia. by rewrite Nat.add_comm, Nat.add_sub.
Qed.

Lemma fmap_sublist {A B} (f : A -> B) l k : l `sublist_of` k -> (f <$> l) `sublist_of` (f <$> k).
Proof. induction 1; cbn; by constructor. Qed.

Lemma concat_sublist {A} (R P : list (list A)) : R `sublist_of` P -> concat R `sublist_of` concat P.
Proof. induction 1; cbn [concat]; [done|by apply sublist_app|by apply sublist_inserts_l]. Qed.

(** Induction on the length of a list. *)
Lemma list_len_ind {A} (P : list A -> Prop) :
  (forall l, (forall l', (length l' < length l)%nat -> P l') -> P l) ->
  forall l, P l.
Proof.
  intros H l. remember (length l) as n eqn:Hn. revert l Hn.
  induction n as [n IH] using lt_wf_ind. intros l ->. apply H.
  intros l' Hl. by apply (IH (length l')).
Qed.

Lemma filter_all {A} (P : A -> Prop) `{forall x, Decision (P x)} l : Forall P l -> filter P l = l.
Proof. induction 1 as [|x l Hx _ IH]; [done|]. by rewrite filter_cons_True, IH. Qed.

Lemma StronglySorted_filter {A} (R : A -> A -> Prop) (P : A -> Prop) `{forall x, Decision (P x)} l :
  StronglySorted R l -> StronglySorted R (filter P l).
Proof.
  induction 1 as [|x l Hl IH Hx]; [constructor|]. rewrite filter_cons. case_decide; [|done].
  constructor; [done|]. rewrite Forall_forall in *. intros y [_ Hy]%list_elem_of_filter. auto.
Qed.
