(* ===== verification/Binary.v ===== *)
(** The part of Go's [encoding/binary] the storage engine uses: big-endian
    fixed-width integers and unsigned varints, with their round trips.
    Standard library code, modelled from its documented behaviour. *)
From S2P Require Import Prelude.

(** ** Bytes *)
Definition bytes_ok (l : list Z) : Prop := Forall is_byte l.

#[export] Hint Unfold bytes_ok : go.

Lemma bytes_ok_app l1 l2 : bytes_ok (l1 ++ l2) <-> bytes_ok l1 /\ bytes_ok l2.
Proof. apply Forall_app. Qed.

(** ** Big-endian integers *)

(** The [n] bytes [PutUint<8n>] writes. *)
Fixpoint be_encode (n : nat) (v : Z) : list Z :=
  match n with
  | O => []
  | S k => Z.land (Z.shiftr v (8 * Z.of_nat k)) 255 :: be_encode k v
  end.

Definition be_decode (l : list Z) : Z :=
  foldl (fun acc b => Z.lor (Z.shiftl acc 8) b) 0 l.

(** [binary.BigEndian.Uint64(b)], [Uint32], [Uint16]: they read a prefix and
    panic when it is short. *)
Definition be_uint (n : nat) (b : list Z) : outcome Z :=
  if decide (n <= length b)%nat then Ok (be_decode (take n b)) else Panic.

Abbreviation Uint64 := (be_uint 8).
Abbreviation Uint32 := (be_uint 4).
Abbreviation Uint16 := (be_uint 2).

Lemma length_be_encode n v : length (be_encode n v) = n.
Proof. induction n; cbn; congruence. Qed.

Lemma drop_be n v r : drop n (be_encode n v ++ r) = r.
Proof. by rewrite drop_app_length' by (by rewrite length_be_encode). Qed.

Lemma drop_be_eq n v r k : k = n -> drop k (be_encode n v ++ r) = r.
Proof. intros ->. apply drop_be. Qed.
#[export] Hint Rewrite length_be_encode : golen.

Lemma land_255 v : Z.land v 255 = v mod 256.
Proof. change 255 with (Z.ones 8). by rewrite Z.land_ones. Qed.

Lemma be_encode_ok n v : bytes_ok (be_encode n v).
Proof.
  induction n as [|n IH]; constructor; [|exact IH].
  rewrite land_255. unfold is_byte. apply Z.mod_pos_bound. lia.
Qed.

(** Disjoint bit ranges: [lor] of a shifted word and a small one is a sum. *)
Lemma lor_shiftl_add a b n :
  0 <= n -> 0 <= b < 2 ^ n -> Z.lor (Z.shiftl a n) b = a * 2 ^ n + b.
Proof.
  intros Hn Hb. rewrite <- Z.shiftl_mul_pow2 by lia.
  destruct (decide (b = 0)) as [->|Hb0]; [by rewrite Z.lor_0_r, Z.add_0_r|].
  assert (Z.land (Z.shiftl a n) b = 0) as Hand.
  { apply Z.bits_inj'. intros i Hi. rewrite Z.land_spec, Z.bits_0.
    destruct (Z.lt_ge_cases i n) as [Hlt|Hge].
    - by rewrite Z.shiftl_spec_low.
    - rewrite (Z.bits_above_log2 b i); [by rewrite andb_false_r|lia|].
      apply Z.log2_lt_pow2; [lia|]. eapply Z.lt_le_trans; [apply Hb|].
      apply Z.pow_le_mono_r; lia. }
  symmetry. by apply Z.add_nocarry_lor.
Qed.

Lemma be_decode_app l b : be_decode (l ++ [b]) = Z.lor (Z.shiftl (be_decode l) 8) b.
Proof. unfold be_decode. by rewrite foldl_app. Qed.

Lemma foldl_be_decode l acc :
  bytes_ok l -> 0 <= acc ->
  foldl (fun acc b => Z.lor (Z.shiftl acc 8) b) acc l =
  acc * 256 ^ Z.of_nat (length l) + be_decode l.
Proof.
  unfold be_decode. revert acc. induction l as [|b l IH]; intros acc Hl Hacc.
  - cbn. lia.
  - inversion Hl as [|? ? Hb Hl']; subst. unfold is_byte in Hb. cbn [foldl length].
    assert (forall a, Z.lor (Z.shiftl a 8) b = a * 256 + b) as E
      by (intros a; apply (lor_shiftl_add a b 8); lia).
    rewrite !E. rewrite (IH (acc * 256 + b)), (IH (0 * 256 + b)) by (done || lia).
    rewrite Nat2Z.inj_succ, Z.pow_succ_r by lia. ring.
Qed.

Lemma be_decode_cons b l :
  is_byte b -> bytes_ok l ->
  be_decode (b :: l) = b * 256 ^ Z.of_nat (length l) + be_decode l.
Proof.
  intros Hb Hl. unfold be_decode at 1. cbn [foldl].
  rewrite Z.shiftl_0_l, Z.lor_0_l. rewrite foldl_be_decode; [done|done|].
  unfold is_byte in Hb. lia.
Qed.

Lemma be_decode_range l :
  bytes_ok l -> 0 <= be_decode l < 256 ^ Z.of_nat (length l).
Proof.
  induction 1 as [|b l Hb Hl IH]; [cbn; lia|].
  rewrite be_decode_cons by done. cbn [length].
  rewrite Nat2Z.inj_succ, Z.pow_succ_r by lia. unfold is_byte in Hb. nia.
Qed.

Lemma be_decode_encode n v :
  be_decode (be_encode n v) = v mod 256 ^ Z.of_nat n.
Proof.
  induction n as [|n IH]; [cbn; by rewrite Z.mod_1_r|].
  cbn [be_encode]. rewrite be_decode_cons, length_be_encode, IH.
  - rewrite land_255, Z.shiftr_div_pow2 by lia.
    replace (2 ^ (8 * Z.of_nat n)) with (256 ^ Z.of_nat n)
      by (rewrite Z.pow_mul_r by lia; done).
    rewrite Nat2Z.inj_succ, Z.pow_succ_r by lia.
    assert (0 < 256 ^ Z.of_nat n) by (apply Z.pow_pos_nonneg; lia).
    rewrite (Z.mul_comm 256), Z.rem_mul_r by lia. lia.
  - rewrite land_255. apply Z.mod_pos_bound. lia.
  - apply be_encode_ok.
Qed.

Lemma be_uint_encode n v r :
  0 <= v < 256 ^ Z.of_nat n -> be_uint n (be_encode n v ++ r) = Ok v.
Proof.
  intros Hv. unfold be_uint. rewrite decide_True by len.
  rewrite take_app_length' by (by rewrite length_be_encode).
  by rewrite be_decode_encode, Z.mod_small.
Qed.

Lemma Uint64_encode v r : is_u64 v -> Uint64 (be_encode 8 v ++ r) = Ok v.
Proof. intros Hv. apply (be_uint_encode 8). exact Hv. Qed.
Lemma Uint64_encode_nil v : is_u64 v -> Uint64 (be_encode 8 v) = Ok v.
Proof. intros H. rewrite <- (app_nil_r (be_encode 8 v)). by apply Uint64_encode. Qed.

Lemma be_uint_Ok n b v :
  bytes_ok b -> be_uint n b = Ok v ->
  (n <= length b)%nat /\ 0 <= v < 256 ^ Z.of_nat n.
Proof.
  intros Hb. unfold be_uint. case_decide as Hn; [|done]. intros [= <-].
  split; [done|].
  pose proof (be_decode_range (take n b) (Forall_take _ n b Hb)) as H.
  by rewrite length_take, Nat.min_l in H.
Qed.

(** ** Varints *)

(** [binary.PutUvarint]: the bytes written. Ten bytes carry 70 bits, so fuel
    10 suffices for a [uint64] ([Uvarint_PutUvarint]). *)
Fixpoint put_uvarint_loop (fuel : nat) (x : Z) : list Z :=
  match fuel with
  | O => []
  | S k => if 128 <=? x
           then Z.lor (u8 x) 128 :: put_uvarint_loop k (Z.shiftr x 7)
           else [u8 x]
  end.
Definition PutUvarint (x : Z) : list Z := put_uvarint_loop 10 x.

(** [binary.Uvarint]: the value and the number of bytes read; the count is 0
    when the buffer is too short and negative on overflow. *)
Fixpoint uvarint_loop (buf : list Z) (i : Z) (x s : Z) : Z * Z :=
  match buf with
  | [] => (0, 0)
  | b :: rest =>
      if i =? 10 then (0, - (i + 1))
      else if b <? 128 then
        if (i =? 9) && (1 <? b) then (0, - (i + 1))
        else (Z.lor x (b <<64 s), i + 1)
      else uvarint_loop rest (i + 1) (Z.lor x ((Z.land b 127) <<64 s)) (s + 7)
  end.
Definition Uvarint (buf : list Z) : Z * Z := uvarint_loop buf 0 0 0.

Lemma put_uvarint_step x :
  128 <= x -> Z.lor (u8 x) 128 = 128 + x mod 128.
Proof.
  intros Hx. unfold u8. change (2 ^ 8) with (2 ^ 7 * 2 ^ 1).
  rewrite Z.rem_mul_r by lia.
  rewrite (Z.add_comm (x mod 2 ^ 7)), (Z.mul_comm (2 ^ 7)).
  rewrite <- lor_shiftl_add by (first [lia | apply Z.mod_pos_bound; lia]).
  rewrite <- Z.lor_assoc, (Z.lor_comm _ 128), Z.lor_assoc.
  replace (Z.lor (Z.shiftl ((x / 2 ^ 7) mod 2 ^ 1) 7) 128) with (Z.shiftl 1 7).
  - rewrite lor_shiftl_add by (first [lia | apply Z.mod_pos_bound; lia]). done.
  - pose proof (Z.mod_pos_bound (x / 2 ^ 7) (2 ^ 1)).
    assert ((x / 2 ^ 7) mod 2 ^ 1 = 0 \/ (x / 2 ^ 7) mod 2 ^ 1 = 1) as [-> | ->] by lia; done.
Qed.

Lemma u8_small x : 0 <= x < 256 -> u8 x = x.
Proof. intros. unfold u8. by rewrite Z.mod_small. Qed.

Lemma put_uvarint_loop_ok fuel x : bytes_ok (put_uvarint_loop fuel x).
Proof.
  revert x. induction fuel as [|k IH]; intros x; [constructor|].
  cbn. destruct (Z.leb_spec 128 x).
  - constructor; [|apply IH]. rewrite put_uvarint_step by done.
    pose proof (Z.mod_pos_bound x 128). unfold is_byte. lia.
  - repeat constructor; unfold u8; pose proof (Z.mod_pos_bound x (2 ^ 8)); lia.
Qed.

Lemma PutUvarint_ok x : bytes_ok (PutUvarint x).
Proof. apply put_uvarint_loop_ok. Qed.

Lemma PutUvarint_length x : (1 <= length (PutUvarint x) <= 10)%nat.
Proof.
  unfold PutUvarint.
  assert (forall k x, (1 <= length (put_uvarint_loop (S k) x) <= S k)%nat) as H.
  { induction k as [|k IH]; intros y; cbn [put_uvarint_loop];
      destruct (Z.leb_spec 128 y); cbn [length]; [cbn; lia|lia| |lia].
    specialize (IH (Z.shiftr y 7)). cbn [put_uvarint_loop] in IH. lia. }
  apply H.
Qed.

(** Reading back what was written, from the middle of a varint. *)
Lemma uvarint_loop_put fuel v i x rest :
  0 <= i -> i + Z.of_nat fuel = 10 -> 0 <= x < 2 ^ (7 * i) ->
  0 <= v -> v * 2 ^ (7 * i) < 2 ^ 64 -> (0 < fuel)%nat ->
  uvarint_loop (put_uvarint_loop fuel v ++ rest) i x (7 * i) =
  (x + v * 2 ^ (7 * i), i + Z.of_nat (length (put_uvarint_loop fuel v))).
Proof.
  revert v i x. induction fuel as [|k IH]; intros v i x Hi Hf Hx Hv Hvb Hk; [lia|].
  assert (0 < 2 ^ (7 * i)) as Hp by (apply Z.pow_pos_nonneg; lia).
  assert (forall a, 0 <= a -> a * 2 ^ (7 * i) < 2 ^ 64 ->
    Z.lor x (a <<64 (7 * i)) = x + a * 2 ^ (7 * i)) as Hlor.
  { intros a Ha Hab. rewrite u64_small.
    - rewrite Z.lor_comm, lor_shiftl_add by lia. lia.
    - rewrite Z.shiftl_mul_pow2 by lia. unfold is_u64. nia. }
  cbn [put_uvarint_loop]. destruct (Z.leb_spec 128 v) as [Hge|Hlt];
    cbn [app uvarint_loop]; rewrite (proj2 (Z.eqb_neq i 10)) by lia.
  - rewrite put_uvarint_step by done.
    pose proof (Z.mod_pos_bound v 128 ltac:(lia)) as Hm.
    rewrite (proj2 (Z.ltb_ge _ 128)) by lia.
    replace (Z.land (128 + v mod 128) 127) with (v mod 128).
    2:{ change 127 with (Z.ones 7). rewrite Z.land_ones by lia.
        change (2 ^ 7) with 128. rewrite <- (Z.mul_1_l 128) at 2.
        by rewrite Z.add_comm, Z_mod_plus_full, Zmod_mod. }
    rewrite Hlor by (pose proof (Z.mod_le v 128); nia).
    assert (2 ^ (7 * (i + 1)) = 128 * 2 ^ (7 * i)) as Hs
      by (replace (7 * (i + 1)) with (7 + 7 * i) by lia; by rewrite Z.pow_add_r by lia).
    replace (7 * i + 7) with (7 * (i + 1)) by lia.
    assert (v = 128 * (v / 128) + v mod 128) as Hdm by (apply Z.div_mod; lia).
    assert (Z.shiftr v 7 = v / 128) as Hsr by (by rewrite Z.shiftr_div_pow2 by lia).
    assert (k <> 0%nat) as Hk0.
    { intros ->. assert (i = 9) as -> by lia. change (2 ^ (7 * 9)) with (2 ^ 63) in *. lia. }
    rewrite IH; rewrite ?Hsr, ?Hs; try lia; try nia.
    cbn [length]. f_equal; [nia|lia].
  - rewrite (u8_small v) by lia.
    rewrite (proj2 (Z.ltb_lt v 128)) by lia.
    rewrite Hlor by lia. cbn [length].
    destruct (Z.eqb_spec i 9) as [->|]; cbn [andb].
    + change (2 ^ (7 * 9)) with (2 ^ 63) in *.
      rewrite (proj2 (Z.ltb_ge 1 v)) by lia. f_equal; lia.
    + f_equal; lia.
Qed.

Lemma Uvarint_PutUvarint v rest :
  is_u64 v ->
  Uvarint (PutUvarint v ++ rest) = (v, Z.of_nat (length (PutUvarint v))).
Proof.
  intros [H0 H1]. unfold Uvarint, PutUvarint.
  change (uvarint_loop ?b 0 0 0) with (uvarint_loop b 0 0 (7 * 0)).
  rewrite (uvarint_loop_put 10 v 0 0 rest) by lia.
  f_equal; lia.
Qed.

Lemma Uvarint_PutUvarint_nil v :
  is_u64 v -> Uvarint (PutUvarint v) = (v, Z.of_nat (length (PutUvarint v))).
Proof. intros H. rewrite <- (app_nil_r (PutUvarint v)) at 1. by apply Uvarint_PutUvarint. Qed.

(** A value of [7k] bits takes at most [k] bytes. *)
Lemma PutUvarint_short k v :
  (1 <= k <= 10)%nat -> v < 2 ^ (7 * Z.of_nat k) -> (length (PutUvarint v) <= k)%nat.
Proof.
  unfold PutUvarint. assert (forall k fuel v, (1 <= k <= fuel)%nat -> v < 2 ^ (7 * Z.of_nat k) ->
    (length (put_uvarint_loop fuel v) <= k)%nat) as H; [|intros; by apply H].
  clear k v. induction k as [|k IH]; intros fuel v Hk Hv; [lia|].
  destruct fuel as [|fuel]; [lia|]. cbn [put_uvarint_loop].
  destruct (Z.leb_spec 128 v) as [Hle|]; cbn [length]; [|lia].
  destruct k as [|k]; [change (2 ^ (7 * Z.of_nat 1)) with 128 in Hv; lia|].
  enough (length (put_uvarint_loop fuel (Z.shiftr v 7)) <= S k)%nat by lia.
  apply IH; [lia|]. rewrite Z.shiftr_div_pow2 by lia. apply Z.div_lt_upper_bound; [lia|].
  rewrite <- Z.pow_add_r by lia. by replace (7 + 7 * Z.of_nat (S k)) with (7 * Z.of_nat (S (S k))) by lia.
Qed.

#[export] Hint Resolve be_encode_ok PutUvarint_ok : go.
