(* ===== verification/Bits.v ===== *)
(** Numbers and byte slices as lists of bits, the highest bit first: what the codecs
    that write single bits are specified with. *)
From S2P Require Import Prelude Binary.

Module Bits.

(** The [k] low bits of [v], the highest first. *)
Fixpoint lowbits (k : nat) (v : Z) : list bool :=
  match k with
  | O => []
  | S k' => Z.testbit v (Z.of_nat k') :: lowbits k' v
  end.

Definition bits (b : list Z) : list bool := b ≫= lowbits 8.

(** The number a list of bits stands for. *)
Definition number (l : list bool) : Z := foldl (fun v x => 2 * v + Z.b2z x) 0 l.

Definition zeros (n : nat) : list bool := replicate n false.

(** * Lemmas *)

Lemma length_lowbits k v : length (lowbits k v) = k.
Proof. induction k; cbn; congruence. Qed.

Lemma length_bits b : length (bits b) = (8 * length b)%nat.
Proof.
  unfold bits. induction b as [|v b IH]; [done|]. cbn [mbind list_bind].
  rewrite length_app, length_lowbits. cbn [mbind] in IH. rewrite IH. cbn. lia.
Qed.

Lemma bits_app b1 b2 : bits (b1 ++ b2) = bits b1 ++ bits b2.
Proof. apply bind_app. Qed.

Lemma bits_cons v b : bits (v :: b) = lowbits 8 v ++ bits b.
Proof. done. Qed.

Lemma lowbits_ext k v w :
  (forall i, 0 <= i < Z.of_nat k -> Z.testbit v i = Z.testbit w i) -> lowbits k v = lowbits k w.
Proof.
  induction k as [|k IH]; intros H; [done|]. cbn. rewrite H by lia. f_equal.
  apply IH. intros i Hi. apply H. lia.
Qed.

Lemma lowbits_lookup k v i : (i < k)%nat -> lowbits k v !! i = Some (Z.testbit v (Z.of_nat (k - 1 - i))).
Proof.
  revert i. induction k as [|k IH]; intros i Hi; [lia|]. destruct i as [|i]; cbn.
  - do 3 f_equal. lia.
  - rewrite IH by lia. do 3 f_equal. lia.
Qed.

Lemma bits_lookup b i v :
  b !! (i / 8)%nat = Some v -> bits b !! i = Some (Z.testbit v (7 - Z.of_nat (i mod 8))).
Proof.
  intros Hv. rewrite <- (take_drop_middle _ _ _ Hv). rewrite bits_app, bits_cons.
  pose proof (Nat.div_mod i 8 ltac:(lia)). pose proof (Nat.mod_upper_bound i 8 ltac:(lia)).
  apply lookup_lt_Some in Hv.
  assert (length (bits (take (i / 8) b)) = 8 * (i / 8))%nat as Hlen
    by (rewrite length_bits, length_take; lia).
  rewrite lookup_app_r, Hlen by lia.
  rewrite lookup_app_l by (rewrite length_lowbits; lia).
  rewrite lowbits_lookup by lia. do 2 f_equal. lia.
Qed.

(** ** Numbers *)

Lemma length_zeros n : length (zeros n) = n.
Proof. apply length_replicate. Qed.

Lemma number_snoc l x : number (l ++ [x]) = 2 * number l + Z.b2z x.
Proof. unfold number. by rewrite foldl_app. Qed.

Lemma number_app l r : number (l ++ r) = number l * 2 ^ Z.of_nat (length r) + number r.
Proof.
  induction r as [|x r IH] using rev_ind; [rewrite app_nil_r; cbn; lia|].
  rewrite app_assoc, !number_snoc, IH, length_app. cbn [length]. rewrite Nat2Z.inj_add, Z.pow_add_r by lia.
  change (2 ^ Z.of_nat 1) with 2. ring.
Qed.

Lemma number_range l : 0 <= number l < 2 ^ Z.of_nat (length l).
Proof.
  induction l as [|x l IH] using rev_ind; [done|]. rewrite number_snoc, length_app. cbn [length].
  rewrite Nat2Z.inj_add, Z.pow_add_r by lia. change (2 ^ Z.of_nat 1) with 2. destruct x; cbn [Z.b2z]; lia.
Qed.

Lemma lowbits_app n m v : lowbits (n + m) v = lowbits n (Z.shiftr v (Z.of_nat m)) ++ lowbits m v.
Proof.
  induction n as [|n IH]; [done|]. cbn [lowbits app Nat.add]. rewrite IH. f_equal.
  rewrite Z.shiftr_spec by lia. f_equal. lia.
Qed.

Lemma number_lowbits k v : number (lowbits k v) = v mod 2 ^ Z.of_nat k.
Proof.
  revert v. induction k as [|k IH]; intros v; [by rewrite Z.mod_1_r|]. replace (S k) with (k + 1)%nat by lia.
  rewrite lowbits_app. cbn [lowbits]. rewrite number_snoc, IH. change (Z.of_nat 1) with 1. rewrite Z.shiftr_div_pow2 by lia.
  change (2 ^ 1) with 2. change (Z.testbit v (Z.of_nat 0)) with (Z.testbit v 0). rewrite Z.bit0_odd.
  rewrite Nat2Z.inj_add, Z.pow_add_r by lia. change (2 ^ Z.of_nat 1) with 2.
  rewrite (Z.mul_comm (2 ^ Z.of_nat k)), Z.rem_mul_r by lia. rewrite Zmod_odd. destruct (Z.odd v); cbn [Z.b2z]; lia.
Qed.

Lemma number_lowbits_small k v : 0 <= v < 2 ^ Z.of_nat k -> number (lowbits k v) = v.
Proof. intros H. rewrite number_lowbits. by apply Z.mod_small. Qed.

Lemma lowbits_inj k v w : 0 <= v < 2 ^ Z.of_nat k -> 0 <= w < 2 ^ Z.of_nat k -> lowbits k v = lowbits k w -> v = w.
Proof. intros Hv Hw E. rewrite <- (number_lowbits_small k v Hv), <- (number_lowbits_small k w Hw). by rewrite E. Qed.

Lemma testbit_add_low a x n : 0 <= n -> Z.testbit (2 * a + Z.b2z x) (n + 1) = Z.testbit a n.
Proof. intros Hn. rewrite Z.add_1_r. by apply Z.testbit_succ_r. Qed.

Lemma lowbits_number l : lowbits (length l) (number l) = l.
Proof.
  induction l as [|x l IH] using rev_ind; [done|]. rewrite number_snoc, length_app. cbn [length].
  rewrite lowbits_app. cbn [lowbits]. f_equal.
  - etrans; [|exact IH]. apply lowbits_ext. intros i Hi. rewrite Z.shiftr_spec by lia. apply testbit_add_low. lia.
  - f_equal. change (Z.of_nat 0) with 0. apply Z.testbit_0_r.
Qed.

Lemma lowbits_number_eq k l : length l = k -> lowbits k (number l) = l.
Proof. intros <-. apply lowbits_number. Qed.

Lemma number_zeros_l n l : number (zeros n ++ l) = number l.
Proof.
  rewrite number_app. assert (number (zeros n) = 0) as ->; [|lia]. induction n as [|n IH]; [done|].
  unfold zeros in *. rewrite replicate_S_end, number_snoc, IH. done.
Qed.

Lemma lowbits_0 k : lowbits k 0 = zeros k.
Proof. induction k as [|k IH]; [done|]. cbn. by rewrite Z.testbit_0_l, IH. Qed.

(** ** Operations on machine words *)

Lemma lowbits_mod k n v : (k <= n)%nat -> lowbits k (v mod 2 ^ Z.of_nat n) = lowbits k v.
Proof. intros H. apply lowbits_ext. intros i Hi. apply Z.mod_pow2_bits_low. lia. Qed.

Lemma lowbits_lor k v w : lowbits k (Z.lor v w) = zip_with orb (lowbits k v) (lowbits k w).
Proof. induction k as [|k IH]; [done|]. cbn. by rewrite Z.lor_spec, IH. Qed.

Lemma lowbits_shiftl k v m : (m <= k)%nat -> lowbits k (Z.shiftl v (Z.of_nat m)) = lowbits (k - m) v ++ zeros m.
Proof.
  intros H. replace k with ((k - m) + m)%nat at 1 by lia. rewrite lowbits_app, Z.shiftr_shiftl_l, Z.sub_diag, Z.shiftl_0_r by lia.
  f_equal. rewrite <- lowbits_0. apply lowbits_ext. intros i Hi. rewrite Z.shiftl_spec_low, Z.testbit_0_l by lia. done.
Qed.

Lemma lowbits_take k n v : (n <= k)%nat -> take n (lowbits k v) = lowbits n (Z.shiftr v (Z.of_nat (k - n))).
Proof.
  intros H. replace k with (n + (k - n))%nat at 1 by lia. rewrite lowbits_app. apply take_app_length'. by rewrite length_lowbits.
Qed.

Lemma lowbits_drop k n v : (n <= k)%nat -> drop n (lowbits k v) = lowbits (k - n) v.
Proof.
  intros H. replace k with (n + (k - n))%nat at 1 by lia. rewrite lowbits_app. apply drop_app_length'. by rewrite length_lowbits.
Qed.

Lemma lowbits_shiftr k v m : 0 <= v < 2 ^ Z.of_nat k -> (m <= k)%nat ->
  lowbits k (Z.shiftr v (Z.of_nat m)) = zeros m ++ take (k - m) (lowbits k v).
Proof.
  intros Hv H. rewrite lowbits_take by lia. replace (k - (k - m))%nat with m by lia.
  replace k with (m + (k - m))%nat at 1 by lia. rewrite lowbits_app. f_equal.
  rewrite Z.shiftr_shiftr by lia. rewrite <- lowbits_0. apply lowbits_ext. intros i Hi.
  rewrite Z.shiftr_spec, Z.testbit_0_l by lia. apply Z.bits_above_log2; [lia|].
  destruct (decide (v = 0)) as [->|]; [cbn; lia|]. pose proof (proj1 (Z.log2_lt_pow2 v (Z.of_nat k) ltac:(lia)) ltac:(lia)). lia.
Qed.

(** The highest bits of a word, by a shift. *)
Lemma shiftr_number k n v : 0 <= v < 2 ^ Z.of_nat k -> (n <= k)%nat ->
  Z.shiftr v (Z.of_nat (k - n)) = number (take n (lowbits k v)).
Proof.
  intros Hv H. rewrite lowbits_take by done. symmetry. apply number_lowbits_small. rewrite Z.shiftr_div_pow2 by lia.
  split; [apply Z.div_pos; lia|]. apply Z.div_lt_upper_bound; [lia|]. rewrite <- Z.pow_add_r by lia.
  replace (Z.of_nat (k - n) + Z.of_nat n) with (Z.of_nat k) by lia. lia.
Qed.

Lemma land_pow2 v k : 0 <= k -> Z.land v (2 ^ k) = if Z.testbit v k then 2 ^ k else 0.
Proof.
  intros Hk. apply Z.bits_inj'. intros i Hi. rewrite Z.land_spec, Z.pow2_bits_eqb by done.
  destruct (Z.eqb_spec k i) as [->|Hne].
  - rewrite andb_true_r. destruct (Z.testbit v i) eqn:E; [by rewrite Z.pow2_bits_true|by rewrite Z.bits_0].
  - rewrite andb_false_r. destruct (Z.testbit v k); [by rewrite Z.pow2_bits_false by lia|by rewrite Z.bits_0].
Qed.

Lemma testbit_high k v i : 0 <= v < 2 ^ k -> 0 <= k <= i -> Z.testbit v i = false.
Proof. intros Hv Hi. rewrite <- (Z.mod_small v (2 ^ k)) by done. apply Z.mod_pow2_bits_high. lia. Qed.

Lemma lor_range k v w : 0 <= k -> 0 <= v < 2 ^ k -> 0 <= w < 2 ^ k -> 0 <= Z.lor v w < 2 ^ k.
Proof.
  intros Hk Hv Hw. assert (Z.lor v w = Z.lor v w mod 2 ^ k) as ->; [|apply Z.mod_pos_bound; lia].
  apply Z.bits_inj'. intros i Hi. destruct (decide (i < k)) as [Hik|Hik]; [by rewrite Z.mod_pow2_bits_low|].
  rewrite Z.mod_pow2_bits_high, Z.lor_spec, (testbit_high k v), (testbit_high k w) by lia. done.
Qed.

Lemma shiftr_range k v m : 0 <= m -> 0 <= v < 2 ^ k -> 0 <= Z.shiftr v m < 2 ^ k.
Proof.
  intros Hm Hv. rewrite Z.shiftr_div_pow2 by done. split; [apply Z.div_pos; lia|].
  apply Z.le_lt_trans with v; [|lia]. apply Z.div_le_upper_bound; [lia|]. nia.
Qed.

Lemma orb_zeros_r l n : length l = n -> zip_with orb l (zeros n) = l.
Proof. intros <-. unfold zeros. induction l as [|x l IH]; [done|]. cbn. by rewrite orb_false_r, IH. Qed.
Lemma orb_zeros_l l n : length l = n -> zip_with orb (zeros n) l = l.
Proof. intros <-. unfold zeros. induction l as [|x l IH]; [done|]. cbn. by rewrite IH. Qed.

Lemma orb_app a b c d : length a = length c -> zip_with orb (a ++ b) (c ++ d) = zip_with orb a c ++ zip_with orb b d.
Proof. intros. by apply zip_with_app. Qed.

(** Two words that do not overlap. *)
Lemma orb_disjoint l r n m : length l = n -> length r = m -> zip_with orb (l ++ zeros m) (zeros n ++ r) = l ++ r.
Proof.
  intros Hl Hr. rewrite orb_app by (by rewrite length_zeros). by rewrite orb_zeros_r, orb_zeros_l.
Qed.

(** ** Words in bytes *)

Lemma bits_be_encode n v : bits (be_encode n v) = lowbits (8 * n) v.
Proof.
  induction n as [|n IH]; [done|]. cbn [be_encode]. rewrite bits_cons, IH. replace (8 * S n)%nat with (8 + 8 * n)%nat by lia.
  rewrite lowbits_app. f_equal. rewrite land_255. change 256 with (2 ^ Z.of_nat 8).
  rewrite lowbits_mod by done. do 2 f_equal. lia.
Qed.

Lemma lowbits_be_decode b : bytes_ok b -> lowbits (8 * length b) (be_decode b) = bits b.
Proof.
  induction b as [|x b IH] using rev_ind; intros H; [done|]. apply bytes_ok_app in H as [Hb Hx]. pose proof (Forall_inv Hx) as Hx1. clear Hx. rename Hx1 into Hx.
  rewrite be_decode_app, bits_app, length_app. cbn [length]. replace (8 * (length b + 1))%nat with (8 * length b + 8)%nat by lia.
  unfold is_byte in Hx. rewrite lor_shiftl_add by lia. rewrite lowbits_app. f_equal.
  - rewrite <- IH by done. f_equal. rewrite Z.shiftr_div_pow2 by lia. change (2 ^ Z.of_nat 8) with 256. change (2 ^ 8) with 256.
    rewrite Z.div_add_l by lia. rewrite Z.div_small by lia. lia.
  - rewrite bits_cons. cbn [bits]. rewrite app_nil_r. etrans; [symmetry; apply (lowbits_mod 8 8); lia|].
    change (2 ^ Z.of_nat 8) with (2 ^ 8). rewrite Z.add_comm, Z_mod_plus_full, Z.mod_small by lia. done.
Qed.

Lemma be_decode_number b : bytes_ok b -> be_decode b = number (bits b).
Proof.
  intros H. rewrite <- lowbits_be_decode by done. symmetry. apply number_lowbits_small.
  pose proof (be_decode_range b H). replace (Z.of_nat (8 * length b)) with (8 * Z.of_nat (length b)) by lia. by rewrite Z.pow_mul_r by lia.
Qed.

(** Byte slices with the same bits are equal. *)
Lemma bits_inj a b : bytes_ok a -> bytes_ok b -> bits a = bits b -> a = b.
Proof.
  revert b. induction a as [|x a IH]; intros [|y b] Ha Hb E; [done|done|done|]. apply Forall_cons in Ha as [Hx Ha], Hb as [Hy Hb].
  rewrite !bits_cons in E. apply app_inj_1 in E as [E1 E2]; [|by rewrite !length_lowbits]. f_equal; [|by apply IH].
  apply (lowbits_inj 8); [exact Hx|exact Hy|exact E1].
Qed.

End Bits.
