(* ===== verification/BitReader.v ===== *)
(** The reader of single bits: src/storage/codec/bit_reader.go. *)
From S2P Require Import Prelude Binary Bits.
Import Bits.

Module BitReader.

(** [v] holds [n] bits of the data, highest first. *)
Record BitReader := MkReader { data : list Z; v : Z; n : Z }.

(** The bytes appended to the buffer one by one. *)
Fixpoint append_bytes (bs : list Z) (v n : Z) : Z * Z :=
  match bs with
  | [] => (v, n)
  | b :: bs => let n := n + 8 in append_bytes bs (Z.lor v (Z.shiftl b (64 - n))) n
  end.

Definition readBuf (r : BitReader) : BitReader :=
  let byteN := Nat.min (Z.to_nat (8 - n r / 8)) (length (data r)) in
  if bool_decide (byteN = 8)%nat then MkReader (drop 8 (data r)) (be_decode (take 8 (data r))) 64
  else let '(v, n) := append_bytes (take byteN (data r)) (v r) (n r) in MkReader (drop byteN (data r)) v n.

Definition Reset (data : list Z) : BitReader := readBuf (MkReader data 0 0).

Definition CanReadBitFast (r : BitReader) : bool := 1 <? n r.

Definition ReadBitFast (r : BitReader) : BitReader * bool :=
  (MkReader (data r) (u64 (Z.shiftl (v r) 1)) (n r - 1), negb (Z.land (v r) (2 ^ 63) =? 0)).

(** [None] is [io.EOF]. *)
Definition ReadBits (r : BitReader) (nbits : Z) : BitReader * option Z :=
  if n r =? 0 then (r, None) else
  if nbits <=? n r then
    if nbits =? 64 then (readBuf (MkReader (data r) 0 0), Some (v r)) else
    let x := Z.shiftr (v r) (64 - nbits) in
    let r := MkReader (data r) (u64 (Z.shiftl (v r) nbits)) (n r - nbits) in
    (if n r =? 0 then readBuf r else r, Some x)
  else
    let '(v0, n0) := (v r, n r) in
    let r := readBuf (MkReader (data r) 0 0) in
    let x := Z.shiftr (Z.lor v0 (Z.shiftr (v r) n0)) (64 - nbits) in
    let bufN := if n r <? nbits - n0 then n r else nbits - n0 in
    let r := MkReader (data r) (u64 (Z.shiftl (v r) bufN)) (n r - bufN) in
    (if n r =? 0 then readBuf r else r, Some x).

Definition ReadBit (r : BitReader) : BitReader * option bool :=
  let '(r, x) := ReadBits r 1 in (r, (fun x => negb (x =? 0)) <$> x).

(** ** Specification *)

(** The word whose highest bits are [l], the others zero. *)
Definition word (l : list bool) : Z := number (take 64 (l ++ zeros 64)).

(** A reader that has the bits [l] before it. *)
Definition reads (r : BitReader) (l : list bool) : Prop :=
  exists buffered, l = buffered ++ bits (data r) /\ n r = Z.of_nat (length buffered) /\ v r = word buffered /\
    (length buffered <= 64)%nat /\ bytes_ok (data r) /\ (buffered = [] -> data r = []).

(** * Lemmas *)

Lemma length_word_bits l : length (take 64 (l ++ zeros 64)) = 64%nat.
Proof. rewrite length_take, length_app, length_zeros. lia. Qed.

Lemma word_range l : 0 <= word l < 2 ^ Z.of_nat 64.
Proof. pose proof (number_range (take 64 (l ++ zeros 64))) as H. by rewrite length_word_bits in H. Qed.

Lemma lowbits_word l : lowbits 64 (word l) = take 64 (l ++ zeros 64).
Proof. apply lowbits_number_eq, length_word_bits. Qed.

Lemma word_eq w l : 0 <= w < 2 ^ Z.of_nat 64 -> lowbits 64 w = take 64 (l ++ zeros 64) -> w = word l.
Proof. intros Hw E. apply (lowbits_inj 64); [done|apply word_range|]. by rewrite E, lowbits_word. Qed.

Lemma u64_word_range x : 0 <= u64 x < 2 ^ Z.of_nat 64.
Proof. apply u64_range. Qed.

Lemma zeros_app a b : zeros a ++ zeros b = zeros (a + b).
Proof. unfold zeros. by rewrite replicate_add. Qed.

Lemma take_zeros k m : (k <= m)%nat -> take k (zeros m) = zeros k.
Proof. intros H. unfold zeros. rewrite take_replicate. f_equal. lia. Qed.

Lemma take_padded l k m : (length l <= k)%nat -> (k <= length l + m)%nat -> take k (l ++ zeros m) = l ++ zeros (k - length l).
Proof. intros H1 H2. rewrite take_app, take_ge, take_zeros by lia. done. Qed.

(** Shifting a word left drops its first bits. *)
Lemma word_shiftl l m : (m <= 64)%nat -> u64 (Z.shiftl (word l) (Z.of_nat m)) = word (drop m (take 64 l)).
Proof.
  intros Hm. apply word_eq; [apply u64_word_range|]. unfold u64. change 64 with (Z.of_nat 64).
  rewrite lowbits_mod, lowbits_shiftl by lia. replace (64 - m)%nat with (64 - m)%nat by lia.
  rewrite <- (lowbits_drop 64 m) by lia. rewrite lowbits_word.
  destruct (decide (length l <= 64)%nat) as [Hl|Hl].
  - rewrite (take_ge l) by lia. rewrite take_padded by lia.
    destruct (decide (m <= length l)%nat).
    + rewrite drop_app_le by lia. rewrite take_padded by (rewrite length_drop; lia).
      rewrite <- app_assoc, zeros_app, length_drop. do 2 f_equal. lia.
    + rewrite (drop_ge l) by lia. rewrite drop_app_ge' by lia. unfold zeros. rewrite drop_replicate. cbn [app]. rewrite take_replicate.
      fold (zeros (64 - length l - (m - length l))) (zeros m). rewrite zeros_app. unfold zeros. f_equal. lia.
  - rewrite take_app_le by lia. rewrite (take_padded (drop m (take 64 l))) by (rewrite length_drop, length_take; lia).
    do 2 f_equal. rewrite length_drop, length_take. lia.
Qed.

(** The highest bits of a word. *)
Lemma word_shiftr_number l m : (m <= 64)%nat -> Z.shiftr (word l) (Z.of_nat (64 - m)) = number (take m (l ++ zeros 64)).
Proof.
  intros Hm. rewrite shiftr_number by (apply word_range || done). rewrite lowbits_word, take_take. do 2 f_equal. lia.
Qed.

(** A word after another one. *)
Lemma word_lor l r : (length l <= 64)%nat -> Z.lor (word l) (Z.shiftr (word r) (Z.of_nat (length l))) = word (l ++ r).
Proof.
  intros Hl. apply word_eq.
  - apply lor_range; [lia|apply word_range|]. apply shiftr_range; [lia|apply word_range].
  - rewrite lowbits_lor, lowbits_shiftr by (apply word_range || lia). rewrite !lowbits_word, take_take, Nat.min_l by lia.
    rewrite take_padded by lia. rewrite <- app_assoc, (take_app_ge l) by lia. apply orb_disjoint; [done|].
    rewrite length_take, length_app, length_zeros. lia.
Qed.

Lemma word_nil : word [] = 0.
Proof. by vm_compute. Qed.

Lemma word_bits b : bytes_ok b -> (length b <= 8)%nat -> word (bits b) = be_decode b * 2 ^ (64 - 8 * Z.of_nat (length b)).
Proof.
  intros Hb Hl. unfold word. rewrite take_padded by (rewrite length_bits; lia). rewrite number_app, length_zeros, length_bits.
  rewrite <- be_decode_number by done.
  rewrite <- (app_nil_r (zeros _)), number_zeros_l. replace (Z.of_nat (64 - 8 * length b)) with (64 - 8 * Z.of_nat (length b)) by lia. cbn. lia.
Qed.

Lemma word_byte b : is_byte b -> Z.shiftl b 56 = word (lowbits 8 b).
Proof.
  intros Hb. assert (bytes_ok [b]) as Hbs by (constructor; [done|constructor]). rewrite <- (app_nil_r (lowbits 8 b)). change (lowbits 8 b ++ []) with (bits [b]).
  rewrite word_bits by (done || (cbn; lia)). cbn [length]. rewrite Z.shiftl_mul_pow2 by lia. done.
Qed.

Lemma append_bytes_ok bs : forall l, bytes_ok bs -> (length l + 8 * length bs <= 64)%nat ->
  append_bytes bs (word l) (Z.of_nat (length l)) = (word (l ++ bits bs), Z.of_nat (length l + 8 * length bs)).
Proof.
  induction bs as [|b bs IH]; intros l Hb Hl; cbn [append_bytes]; [cbn; by rewrite app_nil_r, Nat.add_0_r|].
  apply Forall_cons in Hb as [Hb Hbs]. cbn [length] in Hl.
  assert (Z.shiftl b (64 - (Z.of_nat (length l) + 8)) = Z.shiftr (word (lowbits 8 b)) (Z.of_nat (length l))) as ->.
  { rewrite <- word_byte by done. rewrite Z.shiftr_shiftl_l by lia. f_equal. lia. }
  rewrite word_lor by lia. replace (Z.of_nat (length l) + 8) with (Z.of_nat (length (l ++ lowbits 8 b))) by (rewrite length_app, length_lowbits; lia).
  rewrite IH; [|done|rewrite length_app, length_lowbits; lia]. rewrite bits_cons, <- app_assoc. f_equal.
  rewrite length_app, length_lowbits. cbn [length]. lia.
Qed.

(** ** The reader *)

(** A new buffer is full, or all of the data. *)
Definition fresh (r : BitReader) (l buffered : list bool) : Prop :=
  l = buffered ++ bits (data r) /\ n r = Z.of_nat (length buffered) /\ v r = word buffered /\
  (length buffered <= 64)%nat /\ bytes_ok (data r) /\ (data r = [] \/ length buffered = 64%nat).

Lemma readBuf_fresh d : bytes_ok d -> exists b, fresh (readBuf (MkReader d 0 0)) (bits d) b.
Proof.
  intros Hd. unfold fresh, readBuf. cbn [n data v]. change (Z.to_nat (8 - 0 / 8)) with 8%nat. case_bool_decide as H8.
  - exists (bits (take 8 d)). cbn [data n v]. rewrite <- bits_app, take_drop. split; [done|]. rewrite length_bits, length_take. split; [lia|].
    rewrite word_bits by (by apply Forall_take || (rewrite length_take; lia)). rewrite length_take.
    replace (8 `min` length d)%nat with 8%nat by lia. split; [change (64 - 8 * Z.of_nat 8) with 0; lia|]. split; [lia|]. split; [by apply Forall_drop|]. right. lia.
  - assert (length d < 8)%nat as Hl by lia. replace (8 `min` length d)%nat with (length d) by lia. rewrite firstn_all, drop_all.
    pose proof (append_bytes_ok d [] Hd) as HA. rewrite word_nil in HA. change (Z.of_nat (@length bool [])) with 0 in HA. cbn [length Nat.add app] in HA. rewrite HA by lia.
    exists (bits d). cbn [n v data app length Nat.add bits]. rewrite app_nil_r, length_bits. split; [done|]. split; [done|]. split; [done|].
    split; [lia|]. split; [constructor|by left].
Qed.

Lemma readBuf_ok d : bytes_ok d -> reads (readBuf (MkReader d 0 0)) (bits d).
Proof.
  intros Hd. destruct (readBuf_fresh d Hd) as (b & E & En & Ev & Hl & Hb & Hf). exists b. split_and!; try done.
  intros ->. by destruct Hf.
Qed.

Lemma reads_nil_iff r l : reads r l -> n r = 0 <-> l = [].
Proof.
  intros (buffered & El & En & _ & _ & _ & Hnil). split.
  - intros Hz. assert (buffered = []) as -> by (destruct buffered; [done|cbn in *; lia]). by rewrite El, Hnil.
  - intros ->. destruct buffered; [done|discriminate El].
Qed.

(** After [k] of the buffered bits are taken. *)
Lemma taken_ok d buffered k :
  (length buffered <= 64)%nat -> bytes_ok d -> (k <= length buffered)%nat ->
  reads (let r := MkReader d (u64 (Z.shiftl (word buffered) (Z.of_nat k))) (Z.of_nat (length buffered) - Z.of_nat k) in
         if n r =? 0 then readBuf r else r) (drop k buffered ++ bits d).
Proof.
  intros Hb Hd Hk. rewrite word_shiftl, (take_ge buffered) by lia. cbn [n].
  replace (Z.of_nat (length buffered) - Z.of_nat k) with (Z.of_nat (length (drop k buffered))) by (rewrite length_drop; lia).
  destruct (drop k buffered) as [|x rest] eqn:E.
  - rewrite word_nil. by apply readBuf_ok.
  - rewrite (proj2 (Z.eqb_neq _ 0)) by (cbn; lia). exists (x :: rest). cbn [n v data]. split; [done|]. split; [done|]. split; [done|].
    split; [rewrite <- E, length_drop; lia|]. by split.
Qed.

(** [ReadBits] takes the next bits; past the end it gives zeros, as long as there is one. *)
Lemma ReadBits_ok r l k :
  reads r l -> l <> [] -> (1 <= k <= 64)%nat ->
  exists r', ReadBits r (Z.of_nat k) = (r', Some (number (take k (l ++ zeros 64)))) /\ reads r' (drop k l).
Proof.
  intros Hr Hl Hk. unfold ReadBits. rewrite (proj2 (Z.eqb_neq _ 0)) by (rewrite (reads_nil_iff r l); done).
  destruct Hr as (buffered & -> & En & Ev & Hb & Hd & Hnil). rewrite En, Ev.
  destruct (Z.leb_spec (Z.of_nat k) (Z.of_nat (length buffered))) as [Hle|Hgt].
  - destruct (Z.eqb_spec (Z.of_nat k) 64) as [E64|Hne].
    + assert (k = 64%nat) as -> by lia. eexists. rewrite drop_app_le, (drop_ge buffered) by lia. split; [|by apply readBuf_ok].
      rewrite <- app_assoc, take_app_le, (take_ge buffered) by lia. do 2 f_equal. unfold word. f_equal.
      rewrite take_app_le, take_ge by lia. done.
    + eexists. rewrite drop_app_le by lia. split; [|by apply taken_ok; try lia].
      replace (64 - Z.of_nat k) with (Z.of_nat (64 - k)) by lia. rewrite word_shiftr_number by lia.
      do 3 f_equal. rewrite <- app_assoc, !take_app_le by lia. done.
  - destruct (readBuf_fresh (data r) Hd) as (b2 & Eb & En2 & Ev2 & Hb2 & Hd2 & Hf).
    set (r1 := readBuf (MkReader (data r) 0 0)) in *. rewrite En2, Ev2, word_lor by lia.
    replace (64 - Z.of_nat k) with (Z.of_nat (64 - k)) by lia. rewrite word_shiftr_number by lia.
    set (m := Nat.min (k - length buffered) (length b2)).
    assert ((if Z.of_nat (length b2) <? Z.of_nat k - Z.of_nat (length buffered) then Z.of_nat (length b2)
      else Z.of_nat k - Z.of_nat (length buffered)) = Z.of_nat m) as ->.
    { unfold m. destruct (Z.ltb_spec (Z.of_nat (length b2)) (Z.of_nat k - Z.of_nat (length buffered))); lia. }
    assert (drop k (buffered ++ bits (data r)) = drop m b2 ++ bits (data r1)) as ->.
    { rewrite drop_app_ge', Eb by lia. unfold m. destruct Hf as [->|H64]; [|rewrite drop_app_le by lia; do 2 f_equal; lia].
      cbn [bits]. change (bits []) with (@nil bool). rewrite !app_nil_r. destruct (decide (k - length buffered <= length b2)%nat).
      - f_equal. lia.
      - rewrite (drop_ge b2), (drop_ge b2) by lia. done. }
    eexists. split; [|by apply taken_ok; try (unfold m; lia)].
    do 3 f_equal. rewrite Eb. destruct Hf as [->|H64]; [by rewrite app_nil_r|].
    rewrite <- !app_assoc, !(take_app buffered). f_equal. rewrite !(take_app_le b2) by lia. done.
Qed.

Lemma ReadBits_eof r k : reads r [] -> ReadBits r k = (r, None).
Proof. intros H. unfold ReadBits. by rewrite (proj2 (Z.eqb_eq _ 0)) by by apply (reads_nil_iff r []). Qed.

Lemma ReadBit_ok r x l : reads r (x :: l) -> exists r', ReadBit r = (r', Some x) /\ reads r' l.
Proof.
  intros H. destruct (ReadBits_ok r (x :: l) 1 H) as (r' & E & Hr'); [done|lia|]. exists r'. split; [|exact Hr'].
  unfold ReadBit. change 1 with (Z.of_nat 1). rewrite E. cbn. by destruct x.
Qed.

(** A bit read the fast way. *)
Lemma ReadBitFast_ok r x l : reads r (x :: l) -> CanReadBitFast r = true -> exists r', ReadBitFast r = (r', x) /\ reads r' l.
Proof.
  intros (buffered & El & En & Ev & Hb & Hd & Hnil) Hc%Z.ltb_lt. destruct buffered as [|y buffered]; [cbn in En; lia|].
  injection El as <- ->. eexists. split.
  - unfold ReadBitFast. f_equal. rewrite Ev, land_pow2 by lia.
    assert (Z.testbit (word (x :: buffered)) 63 = x) as ->; [|by destruct x].
    pose proof (lowbits_lookup 64 (word (x :: buffered)) 0 ltac:(lia)) as H. rewrite lowbits_word in H. by injection H.
  - rewrite Ev, En. change 1 with (Z.of_nat 1) at 1. rewrite word_shiftl, take_ge by lia. cbn [drop].
    exists buffered. cbn [n v data]. split; [done|]. split; [cbn [length]; lia|]. split; [done|]. cbn [length] in *. split; [lia|]. split; [done|].
    intros ->. cbn in En. lia.
Qed.

End BitReader.
