(* ===== verification/Simple8b.v ===== *)
(** Simple8b words (src/pkg/encoding/simple8b/encoding.go): the packing table,
    [Encode], [Decode] and the in-place batch encoder [EncodeAll].

    A 64-bit word holds a 4-bit selector and up to 60 bits of payload.
    [word_values w] is the abstract contents of a word; the theorems say that
    the packers produce a word with the values they were given, that [Encode]
    is total below [MaxValue] and greedy, and that [EncodeAll], which overwrites
    its own input, loses nothing. *)
From S2P Require Import Prelude Binary.

Module Simple8b.

Definition MaxValue : Z := Z.shiftl 1 60 - 1.

(** ** Packing and unpacking *)

(** [src[0] | src[1]<<bits | ...], from position [k]. *)
Fixpoint pack_from (bits : Z) (k : nat) (src : list Z) : Z :=
  match src with
  | [] => 0
  | v :: r => Z.lor (v <<64 (Z.of_nat k * bits)) (pack_from bits (S k) r)
  end.

(** [sel<<60 | src[0] | src[1]<<bits | ... | src[n-1]<<((n-1)*bits)]; reading
    [src[n-1]] panics on a short slice. *)
Definition pack_word (sel bits : Z) (n : nat) (src : list Z) : outcome Z :=
  if decide (n <= length src)%nat
  then Ok (Z.lor (Z.shiftl sel 60) (pack_from bits 0 (take n src)))
  else Panic.

(** [dst[i] = (v >> (i*bits)) & (1<<bits - 1)] for [i < n]. *)
Definition unpack_word (bits : Z) (n : nat) (v : Z) (dst : list Z) : list Z :=
  ((fun i : nat => Z.land (Z.shiftr v (Z.of_nat i * bits)) (Z.ones bits)) <$> seq 0 n)
  ++ drop n dst.

Definition pack240 (src : list Z) : outcome Z := Ok 0.
Definition pack120 (src : list Z) : outcome Z := Ok 0.
Definition pack60 (src : list Z) : outcome Z := pack_word 2 1 60 src.
Definition pack30 (src : list Z) : outcome Z := pack_word 3 2 30 src.
Definition pack20 (src : list Z) : outcome Z := pack_word 4 3 20 src.
Definition pack15 (src : list Z) : outcome Z := pack_word 5 4 15 src.
Definition pack12 (src : list Z) : outcome Z := pack_word 6 5 12 src.
Definition pack10 (src : list Z) : outcome Z := pack_word 7 6 10 src.
Definition pack8 (src : list Z) : outcome Z := pack_word 8 7 8 src.
Definition pack7 (src : list Z) : outcome Z := pack_word 9 8 7 src.
Definition pack6 (src : list Z) : outcome Z := pack_word 10 10 6 src.
Definition pack5 (src : list Z) : outcome Z := pack_word 11 12 5 src.
Definition pack4 (src : list Z) : outcome Z := pack_word 12 15 4 src.
Definition pack3 (src : list Z) : outcome Z := pack_word 13 20 3 src.
Definition pack2 (src : list Z) : outcome Z := pack_word 14 30 2 src.
Definition pack1 (src : list Z) : outcome Z := pack_word 15 60 1 src.

Definition unpack240 (v : Z) (dst : list Z) : list Z := replicate 240 1 ++ drop 240 dst.
Definition unpack120 (v : Z) (dst : list Z) : list Z := replicate 120 1 ++ drop 120 dst.
Definition unpack60 (v : Z) (dst : list Z) : list Z := unpack_word 1 60 v dst.
Definition unpack30 (v : Z) (dst : list Z) : list Z := unpack_word 2 30 v dst.
Definition unpack20 (v : Z) (dst : list Z) : list Z := unpack_word 3 20 v dst.
Definition unpack15 (v : Z) (dst : list Z) : list Z := unpack_word 4 15 v dst.
Definition unpack12 (v : Z) (dst : list Z) : list Z := unpack_word 5 12 v dst.
Definition unpack10 (v : Z) (dst : list Z) : list Z := unpack_word 6 10 v dst.
Definition unpack8 (v : Z) (dst : list Z) : list Z := unpack_word 7 8 v dst.
Definition unpack7 (v : Z) (dst : list Z) : list Z := unpack_word 8 7 v dst.
Definition unpack6 (v : Z) (dst : list Z) : list Z := unpack_word 10 6 v dst.
Definition unpack5 (v : Z) (dst : list Z) : list Z := unpack_word 12 5 v dst.
Definition unpack4 (v : Z) (dst : list Z) : list Z := unpack_word 15 4 v dst.
Definition unpack3 (v : Z) (dst : list Z) : list Z := unpack_word 20 3 v dst.
Definition unpack2 (v : Z) (dst : list Z) : list Z := unpack_word 30 2 v dst.
Definition unpack1 (v : Z) (dst : list Z) : list Z := unpack_word 60 1 v dst.

Record packing := Packing {
  pk_n : nat;
  pk_bit : Z;
  pk_unpack : Z -> list Z -> list Z;
  pk_pack : list Z -> outcome Z
}.

Definition selector : list packing := [
  Packing 240 0 unpack240 pack240;
  Packing 120 0 unpack120 pack120;
  Packing 60 1 unpack60 pack60;
  Packing 30 2 unpack30 pack30;
  Packing 20 3 unpack20 pack20;
  Packing 15 4 unpack15 pack15;
  Packing 12 5 unpack12 pack12;
  Packing 10 6 unpack10 pack10;
  Packing 8 7 unpack8 pack8;
  Packing 7 8 unpack7 pack7;
  Packing 6 10 unpack6 pack6;
  Packing 5 12 unpack5 pack5;
  Packing 4 15 unpack4 pack4;
  Packing 3 20 unpack3 pack3;
  Packing 2 30 unpack2 pack2;
  Packing 1 60 unpack1 pack1
].

(** ** Encode and Decode of one word *)

(** [canPack]: for [bits = 0] the loop ranges over all of [src]. *)
Definition canPack (src : list Z) (n : nat) (bits : Z) : bool :=
  if bool_decide (length src < n)%nat then false
  else if bits =? 0 then forallb (fun v => v =? 1) src
  else forallb (fun s => s <=? u64 (Z.shiftl 1 bits - 1)) (take n src).

Definition Encode (src : list Z) : outcome (Z * nat) :=
  if canPack src 240 0 then Ok (0, 240%nat)
  else if canPack src 120 0 then Ok (Z.shiftl 1 60, 120%nat)
  else if canPack src 60 1 then w ← pack60 (take 60 src); Ok (w, 60%nat)
  else if canPack src 30 2 then w ← pack30 (take 30 src); Ok (w, 30%nat)
  else if canPack src 20 3 then w ← pack20 (take 20 src); Ok (w, 20%nat)
  else if canPack src 15 4 then w ← pack15 (take 15 src); Ok (w, 15%nat)
  else if canPack src 12 5 then w ← pack12 (take 12 src); Ok (w, 12%nat)
  else if canPack src 10 6 then w ← pack10 (take 10 src); Ok (w, 10%nat)
  else if canPack src 8 7 then w ← pack8 (take 8 src); Ok (w, 8%nat)
  else if canPack src 7 8 then w ← pack7 (take 7 src); Ok (w, 7%nat)
  else if canPack src 6 10 then w ← pack6 (take 6 src); Ok (w, 6%nat)
  else if canPack src 5 12 then w ← pack5 (take 5 src); Ok (w, 5%nat)
  else if canPack src 4 15 then w ← pack4 (take 4 src); Ok (w, 4%nat)
  else if canPack src 3 20 then w ← pack3 (take 3 src); Ok (w, 3%nat)
  else if canPack src 2 30 then w ← pack2 (take 2 src); Ok (w, 2%nat)
  else if canPack src 1 60 then w ← pack1 (take 1 src); Ok (w, 1%nat)
  else if bool_decide (0 < length src)%nat then Err "value out of bounds"
  else Ok (0, 0%nat).

(** [Decode(dst, v)]: the new contents of [dst] and the number of values. *)
Definition Decode (dst : list Z) (v : Z) : outcome (list Z * nat) :=
  let sel := Z.shiftr v 60 in
  if 16 <=? sel then Err "invalid selector value"
  else p ← index selector (Z.to_nat sel); Ok (pk_unpack p v dst, pk_n p).

Definition Count (v : Z) : outcome nat :=
  let sel := Z.shiftr v 60 in
  if 16 <=? sel then Err "invalid selector value"
  else p ← index selector (Z.to_nat sel); Ok (pk_n p).

(** ** EncodeAll

    The words are written back into the input: [dst] and [src] are one array,
    the state [arr] of the loop. *)
Definition numBits : list (nat * Z) :=
  [(60%nat, 1); (30%nat, 2); (20%nat, 3); (15%nat, 4); (12%nat, 5); (10%nat, 6); (8%nat, 7); (7%nat, 8); (6%nat, 10); (5%nat, 12); (4%nat, 15); (3%nat, 20); (2%nat, 30); (1%nat, 60)].

(** [for k = range a { if a[k] != 1 { k--; break } }]. *)
Fixpoint last_one (k : Z) (a : list Z) : Z :=
  match a with
  | [] => k - 1
  | v :: r => if v =? 1 then last_one (k + 1) r else k - 1
  end.

(** The inner loop of CODES: [None] is [continue CODES]. *)
Fixpoint code_loop (k : nat) (intN : nat) (bitN maxVal val : Z) (remaining : list Z)
  : option Z :=
  match remaining with
  | [] => Some val
  | inV :: r =>
      if bool_decide (k < intN)%nat then
        if maxVal <=? inV then None
        else code_loop (S k) intN bitN maxVal
               (Z.lor val (inV <<64 (Z.land (u8 (u8 (Z.of_nat k) * bitN)) 63))) r
      else Some val
  end.

Fixpoint codes_loop (codes : list (nat * Z)) (code : Z) (remaining : list Z)
  : option (Z * nat) :=
  match codes with
  | [] => None
  | (intN, bitN) :: rest =>
      if bool_decide (length remaining < intN)%nat then codes_loop rest (code + 1) remaining
      else
        let maxVal := u64 (Z.shiftl 1 (Z.land bitN 63)) in
        match code_loop 0 intN bitN maxVal ((code + 2) <<64 60) remaining with
        | Some val => Some (val, intN)
        | None => codes_loop rest (code + 1) remaining
        end
  end.

(** One word: the packed word and the number of values it takes. *)
Definition next_word (remaining : list Z) : option (Z * nat) :=
  let codes := codes_loop numBits 0 remaining in
  if bool_decide (120 <= length remaining)%nat then
    let a := if bool_decide (240 <= length remaining)%nat
             then take 240 remaining else take 120 remaining in
    let k := last_one 0 a in
    if k =? 239 then Some (0, 240%nat)
    else if 119 <=? k then Some (Z.shiftl 1 60, 120%nat)
    else codes
  else codes.

(** Every round consumes a value, so [length src + 1] rounds suffice
    ([EncodeAll_spec]). *)
Fixpoint encode_all_loop (fuel : nat) (arr : list Z) (i j : nat) : outcome (list Z) :=
  match fuel with
  | O => Panic
  | S fuel' =>
      if bool_decide (i < length arr)%nat then
        match next_word (drop i arr) with
        | None => Err "value out of bounds"
        | Some (v, n) =>
            arr' ← store arr j v;
            encode_all_loop fuel' arr' (i + n) (j + 1)
        end
      else Ok (take j arr)
  end.

Definition EncodeAll (src : list Z) : outcome (list Z) :=
  encode_all_loop (S (length src)) src 0 0.

(** ** Batch decoding

    [unpack] writes through a [*[240]uint64] aimed at [&dst[j]]; taking the
    address panics at the end of [dst], and writing past it is undefined: the
    model panics in both cases. *)
Definition unpack_at (dst : list Z) (j : nat) (p : packing) (v : Z) : outcome (list Z) :=
  if bool_decide (j < length dst /\ j + pk_n p <= length dst)%nat
  then Ok (take j dst ++ pk_unpack p v (drop j dst)) else Panic.

Fixpoint decode_all_loop (dst src : list Z) (j : nat) : outcome (list Z * nat) :=
  match src with
  | [] => Ok (dst, j)
  | v :: rest =>
      p ← index selector (Z.to_nat (Z.land (Z.shiftr v 60) 15));
      dst' ← unpack_at dst j p v;
      decode_all_loop dst' rest (j + pk_n p)
  end.

(** [DecodeAll(dst, src)]: the new [dst] and the number of values written. *)
Definition DecodeAll (dst src : list Z) : outcome (list Z * nat) :=
  decode_all_loop dst src 0.

Fixpoint decode_bytes_loop (fuel : nat) (dst src : list Z) (i j : nat)
  : outcome (list Z * nat) :=
  match fuel with
  | O => Panic
  | S fuel' =>
      if bool_decide (i < length src)%nat then
        v ← Uint64 (drop i src);
        p ← index selector (Z.to_nat (Z.land (Z.shiftr v 60) 15));
        dst' ← unpack_at dst j p v;
        decode_bytes_loop fuel' dst' src (i + 8) (j + pk_n p)
      else Ok (dst, j)
  end.

Definition DecodeBytesBigEndian (dst src : list Z) : outcome (list Z * nat) :=
  if negb (Z.land (Z.of_nat (length src)) 7 =? 0)
  then Err "src length is not multiple of 8"
  else decode_bytes_loop (S (length src)) dst src 0 0.

(** ** Counting and iterating over encoded bytes *)
Fixpoint count_bytes_loop (fuel : nat) (b : list Z) (count : Z) : outcome Z :=
  match fuel with
  | O => Panic
  | S fuel' =>
      if bool_decide (8 <= length b)%nat then
        v ← Uint64 (take 8 b);
        let sel := Z.shiftr v 60 in
        if 16 <=? sel then Err "invalid selector value"
        else p ← index selector (Z.to_nat sel);
             count_bytes_loop fuel' (drop 8 b) (count + Z.of_nat (pk_n p))
      else if bool_decide (0 < length b)%nat then Err "invalid slice len remaining"
      else Ok count
  end.

Definition CountBytes (b : list Z) : outcome Z := count_bytes_loop (S (length b)) b 0.

(** [ForEach]: the callback threads a state and answers whether to go on. *)
Section ForEach.
Context {St : Type} (fn : St -> Z -> St * bool).

Fixpoint for_word (n : nat) (bits mask : Z) (v : Z) (st : St) : St * bool :=
  match n with
  | O => (st, true)
  | S n' =>
      let '(st', more) := fn st (Z.land v mask) in
      if more then for_word n' bits mask (Z.shiftr v bits) st' else (st', false)
  end.

Fixpoint for_each_loop (fuel : nat) (b : list Z) (st : St) : outcome St :=
  match fuel with
  | O => Panic
  | S fuel' =>
      if bool_decide (8 <= length b)%nat then
        v ← Uint64 (take 8 b);
        let sel := Z.shiftr v 60 in
        if 16 <=? sel then Err "invalid selector value"
        else
          p ← index selector (Z.to_nat sel);
          let bits := pk_bit p in
          let mask := u64 (Z.lnot (i64 (Z.shiftl (-1) bits))) in
          let '(st', more) := for_word (pk_n p) bits mask v st in
          if more then for_each_loop fuel' (drop 8 b) st' else Ok st'
      else Ok st
  end.

Definition ForEach (b : list Z) (st : St) : outcome St :=
  for_each_loop (S (length b)) b st.
End ForEach.

(** The inner loop of [CountBytesBetween]: it stops at the first value above
    [max]. *)
Fixpoint between_word (n : nat) (bits mask min max v count : Z) : Z :=
  match n with
  | O => count
  | S n' =>
      let val := Z.land v mask in
      if (min <=? val) && (val <? max)
      then between_word n' bits mask min max (Z.shiftr v bits) (count + 1)
      else if max <? val then count
      else between_word n' bits mask min max (Z.shiftr v bits) count
  end.

Fixpoint count_between_loop (fuel : nat) (b : list Z) (min max count : Z) : outcome Z :=
  match fuel with
  | O => Panic
  | S fuel' =>
      if bool_decide (8 <= length b)%nat then
        v ← Uint64 (take 8 b);
        let sel := Z.shiftr v 60 in
        if 16 <=? sel then Err "invalid selector value"
        else
          p ← index selector (Z.to_nat sel);
          if u64 (Z.shiftl 1 (pk_bit p) - 1) <? min
          then count_between_loop fuel' (drop 8 b) min max count
          else
            let mask := u64 (Z.lnot (i64 (Z.shiftl (-1) (pk_bit p)))) in
            count_between_loop fuel' (drop 8 b) min max
              (between_word (pk_n p) (pk_bit p) mask min max v count)
      else if bool_decide (0 < length b)%nat then Err "invalid slice len remaining"
      else Ok count
  end.

Definition CountBytesBetween (b : list Z) (min max : Z) : outcome Z :=
  count_between_loop (S (length b)) b min max 0.

(** ** Abstract contents of a word and of a list of words *)
Definition word_packing (w : Z) : packing :=
  default (Packing 0 0 (fun _ d => d) (fun _ => Ok 0)) (selector !! Z.to_nat (Z.shiftr w 60)).

Definition word_count (w : Z) : nat := pk_n (word_packing w).

Definition word_values (w : Z) : list Z :=
  take (word_count w) (pk_unpack (word_packing w) w (replicate 240 0)).

Definition words_values (ws : list Z) : list Z := ws ≫= word_values.

Definition words_bytes (ws : list Z) : list Z := ws ≫= be_encode 8.

(** A packed word: well-formed, and holding [l]. *)
Definition word_of (w : Z) (l : list Z) : Prop := is_u64 w /\ word_values w = l.

(** * Lemmas *)

(** ** The table *)
Lemma selector_lookup_lt i : (i < 16)%nat -> is_Some (selector !! i).
Proof. intros H. by apply lookup_lt_is_Some. Qed.

Lemma shiftr_60_range w : is_u64 w -> 0 <= Z.shiftr w 60 < 16.
Proof.
  intros H. rewrite Z.shiftr_div_pow2 by lia. unfold is_u64 in H.
  split; [apply Z.div_pos; lia|apply Z.div_lt_upper_bound; lia].
Qed.

Lemma word_packing_lookup w :
  is_u64 w -> selector !! Z.to_nat (Z.shiftr w 60) = Some (word_packing w).
Proof.
  intros H%shiftr_60_range. unfold word_packing.
  destruct (selector_lookup_lt (Z.to_nat (Z.shiftr w 60))) as [p Hp]; [lia|].
  by rewrite Hp.
Qed.

(** Every entry of the table writes exactly its [n] values. *)
Definition packing_ok (p : packing) : Prop :=
  (1 <= pk_n p <= 240)%nat /\ 0 <= pk_bit p /\
  forall v, exists l, length l = pk_n p /\
    forall dst', pk_unpack p v dst' = l ++ drop (pk_n p) dst'.

Lemma unpack_word_shape bits n v :
  exists l, length l = n /\ forall dst, unpack_word bits n v dst = l ++ drop n dst.
Proof. eexists. split; [|by intros dst]. by rewrite length_fmap, length_seq. Qed.

Lemma selector_ok i p : selector !! i = Some p -> packing_ok p.
Proof.
  intros Hp. apply list_elem_of_lookup_2 in Hp.
  repeat (apply elem_of_cons in Hp as [->|Hp];
    [split; [cbn; lia|]; split; [cbn; lia|]; intros v; cbn [pk_unpack pk_n];
     first [ apply unpack_word_shape
           | eexists; split; [|intros dst; reflexivity]; by rewrite length_replicate ]|]).
  by apply elem_of_nil in Hp.
Qed.

Lemma word_packing_ok w : is_u64 w -> packing_ok (word_packing w).
Proof. intros H. eapply selector_ok, word_packing_lookup, H. Qed.

Lemma word_values_unpack w dst :
  is_u64 w ->
  pk_unpack (word_packing w) w dst = word_values w ++ drop (word_count w) dst.
Proof.
  intros H. destruct (word_packing_ok w H) as (_ & _ & Hu).
  destruct (Hu w) as (l & Hl & E). unfold word_values, word_count.
  rewrite !E. by rewrite <- Hl, take_app_length.
Qed.

Lemma word_values_length w : is_u64 w -> length (word_values w) = word_count w.
Proof.
  intros H. destruct (word_packing_ok w H) as (_ & _ & Hu).
  destruct (Hu w) as (l & Hl & E). unfold word_values, word_count.
  rewrite !E, <- Hl, take_app_length. done.
Qed.

Lemma word_count_range w : is_u64 w -> (1 <= word_count w <= 240)%nat.
Proof. intros H. apply (word_packing_ok w H). Qed.

Lemma Decode_values w dst :
  is_u64 w -> Decode dst w = Ok (word_values w ++ drop (word_count w) dst, word_count w).
Proof.
  intros H. unfold Decode. pose proof (shiftr_60_range w H).
  rewrite (proj2 (Z.leb_gt 16 _)) by lia.
  unfold index. rewrite word_packing_lookup by done. cbn.
  by rewrite word_values_unpack.
Qed.

(** ** Packing as arithmetic *)
Fixpoint pack_sum (bits : Z) (src : list Z) : Z :=
  match src with
  | [] => 0
  | v :: r => pack_sum bits r * 2 ^ bits + v
  end.

Definition fits (bits : Z) (v : Z) : Prop := 0 <= v < 2 ^ bits.

Lemma pack_sum_range bits src :
  0 <= bits -> Forall (fits bits) src ->
  0 <= pack_sum bits src < 2 ^ (Z.of_nat (length src) * bits).
Proof.
  intros Hb. induction 1 as [|v r Hv _ IH]; [cbn; lia|].
  cbn [pack_sum length]. rewrite Nat2Z.inj_succ, Z.mul_succ_l, Z.pow_add_r by lia.
  unfold fits in Hv. nia.
Qed.

Lemma pack_from_sum bits k src :
  0 <= bits -> Forall (fits bits) src ->
  Z.of_nat (k + length src) * bits <= 64 ->
  pack_from bits k src = pack_sum bits src * 2 ^ (Z.of_nat k * bits).
Proof.
  intros Hb Hs. revert k. induction Hs as [|v r Hv Hr IH]; intros k Hk; [done|].
  cbn [pack_from pack_sum length] in *.
  rewrite IH by (replace (S k + length r)%nat with (k + S (length r))%nat by lia; lia).
  set (m := Z.of_nat k * bits) in *.
  assert (0 <= m) by (unfold m; lia).
  assert (0 < 2 ^ m) by (apply Z.pow_pos_nonneg; lia).
  assert (Z.of_nat (S k) * bits = m + bits) as Ek by (unfold m; lia).
  assert (v * 2 ^ m < 2 ^ (m + bits)) as Hlt
    by (unfold fits in Hv; rewrite Z.pow_add_r by lia; nia).
  assert (2 ^ (m + bits) <= 2 ^ 64) as Hle.
  { apply Z.pow_le_mono_r; [lia|]. rewrite <- Ek. nia. }
  unfold fits in Hv.
  rewrite Z.shiftl_mul_pow2, u64_small by (unfold is_u64; nia || lia).
  rewrite Ek, <- (Z.shiftl_mul_pow2 (pack_sum bits r)), Z.lor_comm by lia.
  rewrite lor_shiftl_add by nia. rewrite Z.pow_add_r by lia. ring.
Qed.

Lemma land_ones_div bits w i :
  0 <= bits ->
  Z.land (Z.shiftr w (Z.of_nat i * bits)) (Z.ones bits) =
  (w / 2 ^ (Z.of_nat i * bits)) mod 2 ^ bits.
Proof. intros H. by rewrite Z.land_ones, Z.shiftr_div_pow2 by lia. Qed.

(** Unpacking a sum of packed values, whatever lies above them. *)
Lemma unpack_sum bits src hi :
  0 <= bits -> Forall (fits bits) src ->
  (fun i : nat => (hi * 2 ^ (Z.of_nat (length src) * bits) + pack_sum bits src)
     / 2 ^ (Z.of_nat i * bits) mod 2 ^ bits) <$> seq 0 (length src) = src.
Proof.
  intros Hb Hs. induction Hs as [|v r Hv Hr IH]; [done|].
  cbn [length seq fmap list_fmap pack_sum]. f_equal.
  - rewrite Z.mul_0_l, Z.pow_0_r, Z.div_1_r.
    rewrite Nat2Z.inj_succ, Z.mul_succ_l, Z.pow_add_r by lia.
    rewrite Z.mul_assoc, Z.add_assoc, <- Z.mul_add_distr_r, Z.add_comm.
    rewrite Z_mod_plus_full. by apply Z.mod_small.
  - rewrite <- IH at 2. rewrite <- (fmap_S_seq 0), <- list_fmap_compose.
    apply list_fmap_ext. intros _ i _. cbn [compose].
    replace (Z.of_nat (S i) * bits) with (bits + Z.of_nat i * bits) by lia.
    rewrite Nat2Z.inj_succ, Z.mul_succ_l, !Z.pow_add_r by lia.
    set (m := 2 ^ (Z.of_nat (length r) * bits)).
    replace (hi * (m * 2 ^ bits) + (pack_sum bits r * 2 ^ bits + v))
      with ((hi * m + pack_sum bits r) * 2 ^ bits + v) by ring.
    assert (0 < 2 ^ bits) by (apply Z.pow_pos_nonneg; lia).
    assert (0 < 2 ^ (Z.of_nat i * bits)) by (apply Z.pow_pos_nonneg; lia).
    rewrite <- Z.div_div, Z.div_add_l, (Z.div_small v) by (done || lia).
    by rewrite Z.add_0_r.
Qed.

(** A packer and its unpacker are inverse. *)
Lemma pack_word_of sel bits n src :
  2 <= sel < 16 -> 0 < bits -> Z.of_nat n * bits <= 60 ->
  selector !! Z.to_nat sel =
    Some (Packing n bits (unpack_word bits n) (pack_word sel bits n)) ->
  length src = n -> Forall (fits bits) src ->
  exists w, pack_word sel bits n src = Ok w /\ word_of w src /\ word_count w = n.
Proof.
  intros Hsel Hb Hn Hlk Hlen Hs. unfold pack_word. rewrite decide_True by lia.
  eexists; split; [done|]. rewrite take_ge by lia.
  pose proof (pack_sum_range bits src ltac:(lia) Hs) as Hr. rewrite Hlen in Hr.
  assert (2 ^ (Z.of_nat n * bits) <= 2 ^ 60) by (apply Z.pow_le_mono_r; lia).
  rewrite pack_from_sum by (rewrite ?Hlen; cbn; done || lia).
  rewrite Z.mul_1_r, lor_shiftl_add by lia.
  set (w := sel * 2 ^ 60 + pack_sum bits src).
  assert (Z.shiftr w 60 = sel) as Ew.
  { unfold w. rewrite Z.shiftr_div_pow2, Z.div_add_l, Z.div_small by lia. lia. }
  assert (word_packing w = Packing n bits (unpack_word bits n) (pack_word sel bits n)) as Ep
    by (unfold word_packing; by rewrite Ew, Hlk).
  split; [split|].
  - unfold w, is_u64. lia.
  - unfold word_values, word_count. rewrite Ep. cbn [pk_n pk_unpack].
    unfold unpack_word. rewrite take_app_le, take_ge by len.
    rewrite <- (unpack_sum bits src (sel * 2 ^ (60 - Z.of_nat n * bits))) at 1 by (done || lia).
    rewrite Hlen. apply list_fmap_ext. intros _ i _. rewrite land_ones_div by lia.
    unfold w. do 3 f_equal. rewrite <- Z.mul_assoc, <- Z.pow_add_r by lia. do 2 f_equal. lia.
  - unfold word_count. by rewrite Ep.
Qed.

(** ** Encode *)
Definition in_range (v : Z) : Prop := v <= MaxValue.

Lemma MaxValue_pow : MaxValue = 2 ^ 60 - 1.
Proof. reflexivity. Qed.

Lemma word_values_in_range w : is_u64 w -> Forall in_range (word_values w).
Proof.
  intros H. pose proof (word_packing_lookup w H) as Hp.
  unfold word_values, word_count. generalize dependent (word_packing w). intros p Hp.
  apply list_elem_of_lookup_2 in Hp. unfold in_range.
  repeat (apply elem_of_cons in Hp as [->|Hp];
    [cbn [pk_unpack pk_n];
     first
       [ apply Forall_take; unfold unpack240, unpack120;
         apply Forall_app; split; [apply Forall_replicate; done|];
         apply Forall_drop, Forall_replicate; done
       | apply Forall_take; apply Forall_app; split;
         [ apply Forall_fmap, Forall_true; intros i; cbn; rewrite Z.land_ones by lia;
           rewrite MaxValue_pow;
           match goal with |- ?a mod ?m <= _ =>
             pose proof (Z.mod_pos_bound a m ltac:(lia)); lia end
         | apply Forall_drop, Forall_replicate; done ] ]|]).
  by apply elem_of_nil in Hp.
Qed.

Lemma canPack_length src n bits : canPack src n bits = true -> (n <= length src)%nat.
Proof. unfold canPack. case_bool_decide; [done|lia]. Qed.

Lemma canPack_ones src n :
  canPack src n 0 = true -> src = replicate (length src) 1.
Proof.
  unfold canPack. case_bool_decide; [done|]. cbn [Z.eqb].
  intros Hf. clear H. induction src as [|v r IH]; [done|].
  cbn in *. apply andb_true_iff in Hf as [->%Z.eqb_eq Hr]. f_equal. auto.
Qed.

Lemma canPack_fits src n bits :
  0 < bits <= 60 -> Forall is_u64 src -> canPack src n bits = true ->
  Forall (fits bits) (take n src).
Proof.
  intros Hb Hs. unfold canPack. case_bool_decide; [done|].
  rewrite (proj2 (Z.eqb_neq bits 0)) by lia.
  generalize (Forall_take _ n src Hs).
  generalize (take n src). clear -Hb.
  rewrite u64_small.
  2:{ rewrite Z.shiftl_1_l. pose proof (Z.pow_le_mono_r 2 bits 60).
      assert (0 < 2 ^ bits) by (apply Z.pow_pos_nonneg; lia). unfold is_u64. lia. }
  rewrite Z.shiftl_1_l. intros l Hl. induction Hl as [|v r Hv Hr IH]; [done|].
  cbn. intros [Hle%Z.leb_le Hrest]%andb_true_iff. constructor; [|auto].
  unfold fits, is_u64 in *. lia.
Qed.

Lemma word_of_run240 l : (240 <= length l)%nat -> l = replicate (length l) 1 ->
  word_of 0 (take 240 l).
Proof.
  intros Hn ->. rewrite take_replicate, Nat.min_l by lia.
  split; [unfold is_u64; lia|reflexivity].
Qed.

Lemma word_of_run120 l : (120 <= length l)%nat -> l = replicate (length l) 1 ->
  word_of (Z.shiftl 1 60) (take 120 l).
Proof.
  intros Hn ->. rewrite take_replicate, Nat.min_l by lia.
  split; [split; by vm_compute|reflexivity].
Qed.

(** One branch of the chain of [Encode]. *)
Lemma Encode_branch src (sel bits : Z) (n : nat) pack :
  Forall is_u64 src -> canPack src n bits = true ->
  2 <= sel < 16 -> 0 < bits <= 60 -> Z.of_nat n * bits <= 60 ->
  (forall l, pack l = pack_word sel bits n l) ->
  selector !! Z.to_nat sel =
    Some (Packing n bits (unpack_word bits n) (pack_word sel bits n)) ->
  exists w, (w ← pack (take n src); Ok (w, n)) = Ok (w, n) /\ word_of w (take n src).
Proof.
  intros Hs Hc Hsel Hb Hn Hp Hlk. pose proof (canPack_length _ _ _ Hc).
  destruct (pack_word_of sel bits n (take n src)) as (w & Hw & Hof & _);
    try (done || lia).
  - rewrite length_take. lia.
  - by eapply canPack_fits.
  - exists w. by rewrite Hp, Hw.
Qed.

(** What one call of [Encode] does on every input. *)
Lemma Encode_cases src :
  Forall is_u64 src ->
  match Encode src with
  | Ok (w, n) => (src = [] /\ w = 0 /\ n = 0%nat) \/
                 ((1 <= n <= length src)%nat /\ word_of w (take n src))
  | Err _ => exists v r, src = v :: r /\ MaxValue < v
  | Panic => False
  end.
Proof.
  intros Hs. unfold Encode.
  destruct (canPack src 240 0) eqn:E240.
  { pose proof (canPack_length _ _ _ E240). right. split; [lia|].
    apply word_of_run240; [done|by eapply canPack_ones]. }
  destruct (canPack src 120 0) eqn:E120.
  { pose proof (canPack_length _ _ _ E120). right. split; [lia|].
    apply word_of_run120; [done|by eapply canPack_ones]. }
  do 14 (match goal with
    |- context [if canPack src ?n ?b then (_ ← ?pk _; _) else _] =>
      let E := fresh "E" in
      destruct (canPack src n b) eqn:E;
      [ pose proof (canPack_length _ _ _ E);
        let sel := eval cbv in (Z.of_nat (default 0%nat (fst <$> list_find (fun p => pk_n p = n) selector))) in
        destruct (Encode_branch src sel b n pk Hs E) as (w & -> & Hw);
          [lia|lia|lia|done|done|right; split; [lia|done]]
      | ]
    end).
  destruct src as [|v r]; [left; done|].
  rewrite bool_decide_true by (cbn; lia).
  exists v, r. split; [done|].
  match goal with H : canPack _ 1 60 = false |- _ => revert H end.
  unfold canPack. rewrite bool_decide_false by (cbn; lia). cbn.
  rewrite andb_true_r. intros HH%Z.leb_gt. exact HH.
Qed.

(** ** EncodeAll *)

(** A table row [(n, b)] of [numBits] at position [code] agrees with the
    selector [code + 2]. *)
Definition code_ok (code : Z) (nb : nat * Z) : Prop :=
  let '(n, b) := nb in
  2 <= code + 2 < 16 /\ 0 < b <= 60 /\ Z.of_nat n * b <= 60 /\ (1 <= n)%nat /\
  selector !! Z.to_nat (code + 2) =
    Some (Packing n b (unpack_word b n) (pack_word (code + 2) b n)).

Lemma numBits_ok i nb : numBits !! i = Some nb -> code_ok (Z.of_nat i) nb.
Proof.
  intros H. do 14 (destruct i as [|i];
    [injection H as <-; repeat split; reflexivity || (cbn; lia)|]).
  discriminate H.
Qed.

(** The inner loop of CODES accumulates the packed payload. *)
Lemma code_loop_spec intN bitN maxVal rem k val :
  0 < bitN -> Z.of_nat intN * bitN <= 60 -> (k <= intN <= k + length rem)%nat ->
  match code_loop k intN bitN maxVal val rem with
  | Some val' => Forall (fun v => v < maxVal) (take (intN - k) rem) /\
                 val' = Z.lor val (pack_from bitN k (take (intN - k) rem))
  | None => Exists (fun v => maxVal <= v) (take (intN - k) rem)
  end.
Proof.
  intros Hb Hn. revert k val. induction rem as [|v r IH]; intros k val Hk.
  - cbn [code_loop]. rewrite take_nil. cbn. by rewrite Z.lor_0_r.
  - cbn [code_loop]. case_bool_decide as Hlt.
    + replace (intN - k)%nat with (S (intN - S k)) by lia. cbn [take].
      destruct (Z.leb_spec maxVal v) as [Hge|Hlt']; [by left|].
      assert (Z.land (u8 (u8 (Z.of_nat k) * bitN)) 63 = Z.of_nat k * bitN) as ->.
      { assert (Z.of_nat k * bitN <= 60) by nia.
        rewrite (u8_small (Z.of_nat k)), u8_small by nia.
        change 63 with (Z.ones 6). rewrite Z.land_ones, Z.mod_small by (cbn; nia). done. }
      cbn [length] in Hk. specialize (IH (S k)
        (Z.lor val (v <<64 (Z.of_nat k * bitN))) ltac:(lia)).
      destruct code_loop as [val'|]; [|by right].
      destruct IH as [IH1 IH2]. split; [by constructor|].
      rewrite IH2. cbn [pack_from]. by rewrite Z.lor_assoc.
    + replace (intN - k)%nat with 0%nat by lia. cbn. by rewrite Z.lor_0_r.
Qed.

Lemma codes_loop_spec codes code rem :
  Forall is_u64 rem ->
  (forall i nb, codes !! i = Some nb -> code_ok (code + Z.of_nat i) nb) ->
  match codes_loop codes code rem with
  | Some (w, n) => (1 <= n <= length rem)%nat /\ word_of w (take n rem)
  | None => forall n b, (n, b) ∈ codes -> (n <= length rem)%nat ->
      Exists (fun v => 2 ^ b <= v) (take n rem)
  end.
Proof.
  intros Hrem. revert code. induction codes as [|[n b] rest IH]; intros code Hok.
  { intros n b []%elem_of_nil. }
  assert (forall i nb, rest !! i = Some nb -> code_ok (code + 1 + Z.of_nat i) nb) as Hok'.
  { intros i nb Hi. specialize (Hok (S i) nb Hi).
    by replace (code + 1 + Z.of_nat i) with (code + Z.of_nat (S i)) by lia. }
  specialize (IH (code + 1) Hok'). cbn [codes_loop].
  destruct (Hok 0%nat (n, b) eq_refl) as (Hsel & Hb & Hnb & Hn1 & Hlk).
  rewrite Z.add_0_r in Hsel, Hlk.
  case_bool_decide as Hlen.
  { destruct codes_loop as [[]|]; [done|].
    intros n' b' [[= -> ->]|Hin]%elem_of_cons Hle; [lia|by apply (IH n' b')]. }
  replace (Z.land b 63) with b.
  2:{ change 63 with (Z.ones 6). rewrite Z.land_ones, Z.mod_small by (cbn; lia). done. }
  assert (u64 (Z.shiftl 1 b) = 2 ^ b) as ->.
  { rewrite Z.shiftl_1_l. apply u64_small.
    pose proof (Z.pow_le_mono_r 2 b 60). unfold is_u64.
    assert (0 < 2 ^ b) by (apply Z.pow_pos_nonneg; lia). lia. }
  rewrite (u64_small (Z.shiftl (code + 2) 60))
    by (rewrite Z.shiftl_mul_pow2 by lia; unfold is_u64; lia).
  pose proof (code_loop_spec n b (2 ^ b) rem 0 (Z.shiftl (code + 2) 60)) as Hcl.
  specialize (Hcl ltac:(lia) ltac:(lia) ltac:(lia)). rewrite Nat.sub_0_r in Hcl.
  destruct code_loop as [w|].
  - destruct Hcl as [Hlt ->]. split; [lia|].
    destruct (pack_word_of (code + 2) b n (take n rem)) as (w & Hw & Hof & _);
      try (done || lia).
    + rewrite length_take. lia.
    + apply Forall_and. split; [|done].
      eapply Forall_impl; [by apply Forall_take|]. unfold is_u64. lia.
    + unfold pack_word in Hw. rewrite decide_True in Hw by (rewrite length_take; lia).
      rewrite take_take, Nat.min_id in Hw. injection Hw as ->. done.
  - destruct codes_loop as [[]|]; [done|].
    intros n' b' [[= -> ->]|Hin]%elem_of_cons Hle; [done|by apply (IH n' b')].
Qed.

(** The length of the leading run of ones. *)
Fixpoint ones_prefix (a : list Z) : nat :=
  match a with
  | v :: r => if v =? 1 then S (ones_prefix r) else 0
  | [] => 0
  end.

Lemma last_one_prefix k a : last_one k a = k + Z.of_nat (ones_prefix a) - 1.
Proof.
  revert k. induction a as [|v r IH]; intros k; cbn [last_one ones_prefix]; [lia|].
  destruct (v =? 1); [rewrite IH|]; lia.
Qed.

Lemma ones_prefix_length a : (ones_prefix a <= length a)%nat.
Proof. induction a as [|v r IH]; cbn; [lia|]. destruct (v =? 1); lia. Qed.

Lemma ones_prefix_take a n :
  (n <= ones_prefix a)%nat -> take n a = replicate n 1.
Proof.
  revert n. induction a as [|v r IH]; intros [|n] Hn; cbn in *; try (done || lia).
  destruct (Z.eqb_spec v 1) as [->|]; [|lia]. f_equal. apply IH. lia.
Qed.

Lemma next_word_spec rem :
  Forall is_u64 rem ->
  match next_word rem with
  | Some (w, n) => (1 <= n <= length rem)%nat /\ word_of w (take n rem)
  | None => forall v r, rem = v :: r -> MaxValue < v
  end.
Proof.
  intros Hrem.
  assert (match codes_loop numBits 0 rem with
    | Some (w, n) => (1 <= n <= length rem)%nat /\ word_of w (take n rem)
    | None => forall v r, rem = v :: r -> MaxValue < v end) as Hcodes.
  { pose proof (codes_loop_spec numBits 0 rem Hrem numBits_ok) as H.
    destruct codes_loop as [[]|]; [done|]. intros v r ->.
    specialize (H 1%nat 60). cbn [take length] in H.
    assert (Exists (fun v => 2 ^ 60 <= v) (take 1 (v :: r))) as Hex.
    { apply H; [|lia]. unfold numBits. do 13 right. left. }
    cbn in Hex. inversion Hex as [? ? Hv|? ? Hnil]; subst; [|inversion Hnil].
    rewrite MaxValue_pow. lia. }
  unfold next_word. case_bool_decide as H120; [|done].
  set (a := if bool_decide _ then _ else _).
  rewrite last_one_prefix. pose proof (ones_prefix_length a) as Hpl.
  assert (forall n, (n <= ones_prefix a)%nat -> (n <= length rem)%nat /\ take n rem = replicate n 1)
    as Hones.
  { intros n Hn. pose proof (ones_prefix_take a n Hn) as Ht. unfold a in *.
    case_bool_decide; rewrite length_take in Hpl;
      (split; [lia|]); rewrite take_take, Nat.min_l in Ht by lia; done. }
  destruct (Z.eqb_spec (0 + Z.of_nat (ones_prefix a) - 1) 239) as [E|E].
  { destruct (Hones 240%nat ltac:(lia)) as [Hl Ht]. split; [lia|]. rewrite Ht.
    split; [split; by vm_compute|reflexivity]. }
  destruct (Z.leb_spec 119 (0 + Z.of_nat (ones_prefix a) - 1)) as [E'|E'].
  { destruct (Hones 120%nat ltac:(lia)) as [Hl Ht]. split; [lia|]. rewrite Ht.
    split; [split; by vm_compute|reflexivity]. }
  done.
Qed.

Lemma words_values_snoc ws w : words_values (ws ++ [w]) = words_values ws ++ word_values w.
Proof. unfold words_values. by rewrite bind_app, bind_singleton. Qed.

Lemma words_values_cons w ws : words_values (w :: ws) = word_values w ++ words_values ws.
Proof. done. Qed.

Lemma words_values_in_range ws :
  Forall is_u64 ws -> Forall in_range (words_values ws).
Proof.
  induction 1 as [|w ws Hw _ IH]; [constructor|].
  rewrite words_values_cons. apply Forall_app. by split; [apply word_values_in_range|].
Qed.

Lemma words_values_length ws :
  Forall is_u64 ws -> (length ws <= length (words_values ws))%nat.
Proof.
  induction 1 as [|w ws Hw _ IH]; [done|]. rewrite words_values_cons. cbn [length].
  rewrite length_app, word_values_length by done. pose proof (word_count_range w Hw). lia.
Qed.

(** The state of the in-place loop: [ws] written so far, the rest untouched. *)
Lemma encode_all_loop_spec src fuel arr i j ws :
  Forall is_u64 src -> length arr = length src -> (j <= i <= length src)%nat ->
  take j arr = ws -> Forall is_u64 ws -> words_values ws = take i src ->
  drop i arr = drop i src -> (length src - i < fuel)%nat ->
  match encode_all_loop fuel arr i j with
  | Ok ws' => Forall is_u64 ws' /\ words_values ws' = src
  | Err e => e = "value out of bounds"%string /\ ~ Forall in_range src
  | Panic => False
  end.
Proof.
  intros Hsrc. revert arr i j ws.
  induction fuel as [|fuel IH]; intros arr i j ws Hlen Hij Htake Hws Hvals Hdrop Hfuel; [lia|].
  cbn [encode_all_loop]. case_bool_decide as Hi.
  - rewrite Hdrop. pose proof (next_word_spec (drop i src) (Forall_drop _ i src Hsrc)) as Hnw.
    destruct (next_word (drop i src)) as [[w n]|].
    + destruct Hnw as [Hn [Hw Hwv]]. rewrite length_drop in Hn.
      rewrite store_in_range by lia. cbn [mbind outcome_bind].
      apply (IH _ _ _ (ws ++ [w])).
      * by rewrite length_insert.
      * lia.
      * rewrite Nat.add_1_r, (take_S_r _ _ w), take_insert_ge by (lia || (apply list_lookup_insert_eq; lia)).
        by rewrite Htake.
      * apply Forall_app. by split; [|constructor].
      * rewrite words_values_snoc, Hvals, Hwv. apply take_take_drop.
      * rewrite drop_insert_lt by lia. rewrite <- !drop_drop. by rewrite Hdrop.
      * lia.
    + split; [done|]. intros Hall. destruct (drop i src) as [|v r] eqn:Ed.
      { apply (f_equal length) in Ed. rewrite length_drop in Ed. cbn in Ed. lia. }
      specialize (Hnw v r eq_refl). apply (Forall_drop _ i) in Hall. rewrite Ed in Hall.
      inversion Hall as [|? ? Hv ?]; subst. unfold in_range in Hv. lia.
  - rewrite Htake. split; [done|]. rewrite Hvals. apply take_ge. lia.
Qed.

Lemma EncodeAll_spec src :
  Forall is_u64 src ->
  match EncodeAll src with
  | Ok ws => Forall is_u64 ws /\ words_values ws = src
  | Err e => e = "value out of bounds"%string /\ ~ Forall in_range src
  | Panic => False
  end.
Proof.
  intros H. apply (encode_all_loop_spec src _ _ _ _ []); try (done || lia).
Qed.

Lemma EncodeAll_Ok src :
  Forall is_u64 src -> Forall in_range src ->
  exists ws, EncodeAll src = Ok ws /\ Forall is_u64 ws /\ words_values ws = src.
Proof.
  intros H Hr. pose proof (EncodeAll_spec src H) as Hs.
  destruct (EncodeAll src) as [ws|e|]; [|by destruct Hs as [_ []]|done].
  exists ws. naive_solver.
Qed.

(** ** Batch decoding *)
Lemma land_15_shiftr w : is_u64 w -> Z.land (Z.shiftr w 60) 15 = Z.shiftr w 60.
Proof.
  intros H%shiftr_60_range. change 15 with (Z.ones 4).
  by rewrite Z.land_ones, Z.mod_small by lia.
Qed.

Lemma unpack_at_Ok dst j w :
  is_u64 w -> (j + word_count w <= length dst)%nat ->
  unpack_at dst j (word_packing w) w =
    Ok (take j dst ++ word_values w ++ drop (j + word_count w) dst).
Proof.
  intros Hw Hl. unfold unpack_at. pose proof (word_count_range w Hw) as Hc.
  unfold word_count in *. rewrite bool_decide_true by lia.
  rewrite word_values_unpack by done. by rewrite drop_drop.
Qed.

Lemma decode_all_loop_spec ws dst j :
  Forall is_u64 ws -> (j + length (words_values ws) <= length dst)%nat ->
  decode_all_loop dst ws j =
    Ok (take j dst ++ words_values ws ++ drop (j + length (words_values ws)) dst,
        (j + length (words_values ws))%nat).
Proof.
  intros Hws. revert dst j. induction Hws as [|w ws Hw Hws IH]; intros dst j Hl.
  - cbn. by rewrite Nat.add_0_r, take_drop.
  - rewrite words_values_cons in *. rewrite length_app, word_values_length in * by done.
    cbn [decode_all_loop]. rewrite land_15_shiftr by done.
    unfold index. rewrite word_packing_lookup by done. cbn [mbind outcome_bind].
    rewrite unpack_at_Ok by (done || lia). cbn [mbind outcome_bind].
    fold (word_count w). rewrite IH.
    + f_equal. f_equal; [|lia].
      rewrite (app_assoc (take j dst)). rewrite take_app_le, take_ge, drop_app_ge';
        rewrite ?length_app, ?length_take, ?word_values_length by done; try lia.
      rewrite drop_drop, <- !app_assoc. do 3 f_equal. f_equal. lia.
    + rewrite !length_app, length_take, length_drop, word_values_length by done. lia.
Qed.

Lemma length_words_bytes ws : length (words_bytes ws) = (8 * length ws)%nat.
Proof.
  unfold words_bytes. induction ws as [|w ws IH]; [done|].
  cbn [mbind list_bind]. rewrite length_app, length_be_encode. cbn [mbind] in IH. rewrite IH. cbn; lia.
Qed.

Lemma words_bytes_cons w ws : words_bytes (w :: ws) = be_encode 8 w ++ words_bytes ws.
Proof. done. Qed.

Lemma words_bytes_snoc ws w : words_bytes (ws ++ [w]) = words_bytes ws ++ be_encode 8 w.
Proof. unfold words_bytes. by rewrite bind_app, bind_singleton. Qed.

Lemma words_bytes_ok ws : bytes_ok (words_bytes ws).
Proof.
  induction ws as [|w ws IH]; [constructor|]. rewrite words_bytes_cons.
  apply bytes_ok_app. split; [apply be_encode_ok|done].
Qed.

Lemma decode_bytes_loop_spec pre ws fuel dst j :
  Forall is_u64 ws -> (j + length (words_values ws) <= length dst)%nat ->
  (length ws < fuel)%nat ->
  decode_bytes_loop fuel dst (pre ++ words_bytes ws) (length pre) j =
  decode_all_loop dst ws j.
Proof.
  intros Hws. revert pre fuel dst j.
  induction Hws as [|w ws Hw Hws IH]; intros pre fuel dst j Hl Hf;
    (destruct fuel as [|fuel]; [cbn in *; lia|]); cbn [decode_bytes_loop].
  - rewrite app_nil_r. rewrite bool_decide_false by lia. done.
  - rewrite words_bytes_cons. rewrite bool_decide_true by (rewrite !length_app; cbn; lia).
    rewrite drop_app_length. rewrite Uint64_encode by done. cbn [mbind outcome_bind].
    cbn [decode_all_loop]. rewrite words_values_cons, length_app, word_values_length in Hl by done.
    rewrite land_15_shiftr by done.
    unfold index. rewrite word_packing_lookup by done. cbn [mbind outcome_bind].
    rewrite unpack_at_Ok by (done || lia). cbn [mbind outcome_bind].
    rewrite (app_assoc pre). replace (length pre + 8)%nat with (length (pre ++ be_encode 8 w)).
    + apply IH; [|cbn in Hf; lia]. unfold word_count in *.
      rewrite !length_app, length_take, length_drop, word_values_length by done.
      unfold word_count. lia.
    + by rewrite length_app, length_be_encode.
Qed.

Lemma DecodeBytesBigEndian_spec ws dst :
  Forall is_u64 ws -> (length (words_values ws) <= length dst)%nat ->
  DecodeBytesBigEndian dst (words_bytes ws) =
    Ok (words_values ws ++ drop (length (words_values ws)) dst, length (words_values ws)).
Proof.
  intros Hws Hl. unfold DecodeBytesBigEndian. rewrite length_words_bytes.
  replace (Z.land (Z.of_nat (8 * length ws)) 7) with 0.
  2:{ change 7 with (Z.ones 3). rewrite Z.land_ones by lia.
      rewrite Nat2Z.inj_mul, Z.mul_comm. symmetry. by apply Z_mod_mult. }
  cbn [Z.eqb negb]. change (words_bytes ws) with ([] ++ words_bytes ws).
  change 0%nat with (length (@nil Z)) at 1.
  rewrite decode_bytes_loop_spec by (done || lia).
  by rewrite decode_all_loop_spec by done.
Qed.

(** ** Counting *)
Lemma count_bytes_loop_spec ws fuel count :
  Forall is_u64 ws -> (length ws < fuel)%nat ->
  count_bytes_loop fuel (words_bytes ws) count =
    Ok (count + Z.of_nat (length (words_values ws))).
Proof.
  intros Hws. revert fuel count.
  induction Hws as [|w ws Hw Hws IH]; intros fuel count Hf;
    (destruct fuel as [|fuel]; [cbn in *; lia|]); cbn [count_bytes_loop].
  - cbn. f_equal. lia.
  - rewrite words_bytes_cons.
    rewrite bool_decide_true by (rewrite length_app, length_be_encode; lia).
    rewrite take_app_length', drop_app_length' by (by rewrite length_be_encode).
    rewrite Uint64_encode_nil by done. cbn [mbind outcome_bind].
    pose proof (shiftr_60_range w Hw). rewrite (proj2 (Z.leb_gt 16 _)) by lia.
    unfold index. rewrite word_packing_lookup by done. cbn [mbind outcome_bind].
    rewrite IH by (cbn in Hf; lia). rewrite words_values_cons, length_app, word_values_length by done.
    unfold word_count. f_equal. lia.
Qed.

Lemma CountBytes_spec ws :
  Forall is_u64 ws -> CountBytes (words_bytes ws) = Ok (Z.of_nat (length (words_values ws))).
Proof.
  intros H. unfold CountBytes. rewrite count_bytes_loop_spec; [done|done|].
  rewrite length_words_bytes. lia.
Qed.

(** ** Iterating *)
Lemma for_word_values {St} (fn : St -> Z -> St * bool) (g : St -> Z -> St) n bits v st :
  0 <= bits -> (forall st x, fn st x = (g st x, true)) ->
  for_word fn n bits (Z.ones bits) v st =
  (foldl g st ((fun i : nat => Z.land (Z.shiftr v (Z.of_nat i * bits)) (Z.ones bits)) <$> seq 0 n),
   true).
Proof.
  intros Hb Hfn. revert v st. induction n as [|n IH]; intros v st; [done|].
  cbn [for_word]. rewrite Hfn, IH. cbn [seq fmap list_fmap foldl].
  rewrite Z.mul_0_l, Z.shiftr_0_r. do 2 f_equal.
  rewrite <- (fmap_S_seq 0), <- list_fmap_compose. apply list_fmap_ext.
  intros _ i _. cbn [compose]. rewrite Z.shiftr_shiftr by lia. do 2 f_equal. lia.
Qed.

Lemma mask_ones bits : 0 <= bits <= 60 -> u64 (Z.lnot (i64 (Z.shiftl (-1) bits))) = Z.ones bits.
Proof.
  intros Hb. rewrite Z.shiftl_mul_pow2, Z.ones_equiv by lia.
  assert (0 < 2 ^ bits) by (apply Z.pow_pos_nonneg; lia).
  pose proof (Z.pow_le_mono_r 2 bits 60 ltac:(lia) ltac:(lia)).
  rewrite i64_small by (unfold is_i64; lia). unfold Z.lnot.
  rewrite u64_small by (unfold is_u64; lia). lia.
Qed.

(** The words of a run (selectors 0 and 1) and the others. *)
Definition is_run (w : Z) : Prop := pk_bit (word_packing w) = 0.
#[global] Instance is_run_dec w : Decision (is_run w).
Proof. unfold is_run. apply _. Defined.

Lemma selector_packed i p :
  selector !! i = Some p -> pk_bit p <> 0 ->
  0 < pk_bit p <= 60 /\ (forall v dst, pk_unpack p v dst = unpack_word (pk_bit p) (pk_n p) v dst).
Proof.
  intros Hp Hb. apply list_elem_of_lookup_2 in Hp.
  repeat (apply elem_of_cons in Hp as [->|Hp];
    [first [by destruct Hb | split; [cbn; lia|done]]|]).
  by apply elem_of_nil in Hp.
Qed.

(** What [ForEach] delivers for a word: the values, except that a run of ones
    is delivered as zeros. *)
Definition for_each_values (w : Z) : list Z :=
  if decide (is_run w) then replicate (word_count w) 0 else word_values w.

Lemma for_word_word {St} (fn : St -> Z -> St * bool) (g : St -> Z -> St) w st :
  is_u64 w -> (forall st x, fn st x = (g st x, true)) ->
  for_word fn (word_count w) (pk_bit (word_packing w))
    (u64 (Z.lnot (i64 (Z.shiftl (-1) (pk_bit (word_packing w)))))) w st =
  (foldl g st (for_each_values w), true).
Proof.
  intros Hw Hfn. pose proof (word_packing_lookup w Hw) as Hlk.
  unfold for_each_values. case_decide as Hr; unfold is_run in Hr.
  - rewrite Hr, mask_ones, (for_word_values fn g) by (done || lia).
    f_equal. f_equal. apply list_eq. intros i. rewrite list_lookup_fmap.
    destruct (decide (i < word_count w)%nat).
    + rewrite lookup_seq_lt by done. cbn. rewrite lookup_replicate_2 by done.
      by rewrite Z.land_0_r.
    + rewrite lookup_seq_ge by lia. by rewrite lookup_ge_None_2 by (rewrite length_replicate; lia).
  - destruct (selector_packed _ _ Hlk Hr) as [Hb Hu].
    rewrite mask_ones, (for_word_values fn g) by (done || lia).
    f_equal. f_equal. unfold word_values, word_count. rewrite Hu.
    unfold unpack_word. by rewrite take_app_le, take_ge by len.
Qed.

Lemma for_each_loop_spec {St} (fn : St -> Z -> St * bool) (g : St -> Z -> St) ws fuel st :
  (forall st x, fn st x = (g st x, true)) -> Forall is_u64 ws -> (length ws < fuel)%nat ->
  for_each_loop fn fuel (words_bytes ws) st = Ok (foldl g st (ws ≫= for_each_values)).
Proof.
  intros Hfn Hws. revert fuel st.
  induction Hws as [|w ws Hw Hws IH]; intros fuel st Hf;
    (destruct fuel as [|fuel]; [cbn in *; lia|]); cbn [for_each_loop]; [done|].
  rewrite words_bytes_cons.
  rewrite bool_decide_true by (rewrite length_app, length_be_encode; lia).
  rewrite take_app_length', drop_app_length' by (by rewrite length_be_encode).
  rewrite Uint64_encode_nil by done. cbn [mbind outcome_bind].
  pose proof (shiftr_60_range w Hw). rewrite (proj2 (Z.leb_gt 16 _)) by lia.
  unfold index. rewrite word_packing_lookup by done. cbn [mbind outcome_bind].
  fold (word_count w). rewrite (for_word_word fn g) by done.
  rewrite IH by (cbn in Hf; lia). cbn [mbind list_bind]. by rewrite foldl_app.
Qed.

Lemma Ok_le (m n : nat) (w v : Z) k :
  (k <=? m)%nat = true -> @Ok (Z * nat) (v, m) = Ok (w, n) -> (k <= n)%nat.
Proof. intros H%Nat.leb_le [= _ <-]. done. Qed.

Lemma bind_Ok_le (m n : nat) (w : Z) (x : outcome Z) k :
  (k <=? m)%nat = true -> (v ← x; Ok (v, m)) = Ok (w, n) -> (k <= n)%nat.
Proof. intros H (v & _ & Hv)%bind_Ok. by eapply Ok_le. Qed.

(** * Theorems *)

(** One call of [Encode] packs a nonempty prefix of its input, and [Decode]
    gives exactly that prefix back, in the first cells of the buffer; it fails
    exactly when the first value exceeds [MaxValue] and never panics. *)
Theorem Encode_Decode_roundtrip src dst :
  Forall is_u64 src -> src <> [] ->
  match Encode src with
  | Ok (w, n) => (1 <= n <= length src)%nat /\
                 Decode dst w = Ok (take n src ++ drop n dst, n)
  | Err _ => exists v r, src = v :: r /\ MaxValue < v
  | Panic => False
  end.
Proof.
  intros Hs Hne. pose proof (Encode_cases src Hs) as H.
  destruct (Encode src) as [[w n]|e|]; [|done|done].
  destruct H as [[-> _]|[Hn [Hw Hv]]]; [done|]. split; [done|].
  pose proof (word_values_length w Hw) as Hl. rewrite Hv, length_take, Nat.min_l in Hl by lia.
  by rewrite Decode_values, Hv, <- Hl.
Qed.

Lemma Encode_Decode_roundtrip_witness :
  Forall is_u64 [5; 6; 7] /\ [5; 6; 7] <> [] /\
  match Encode [5; 6; 7] with
  | Ok (w, n) => (1 <= n <= 3)%nat /\
                 Decode (replicate 240 0) w = Ok (take n [5; 6; 7] ++ drop n (replicate 240 0), n)
  | Err _ => exists v r, [5; 6; 7] = v :: r /\ MaxValue < v
  | Panic => False
  end.
Proof.
  assert (Forall is_u64 [5; 6; 7]) as H by (by apply (bool_decide_unpack _); vm_compute).
  split; [exact H|]. split; [discriminate|].
  apply (Encode_Decode_roundtrip [5; 6; 7] (replicate 240 0) H). discriminate.
Defined.

(** [Encode] is greedy: no row of the packing table that could pack a prefix
    of the input takes more values than the row chosen. *)
Theorem Encode_greedy src w n p :
  Encode src = Ok (w, n) -> p ∈ selector -> canPack src (pk_n p) (pk_bit p) = true ->
  (pk_n p <= n)%nat.
Proof.
  intros HE Hp Hc. revert HE. unfold Encode.
  repeat (apply elem_of_cons in Hp as [->|Hp];
    [cbn [pk_n pk_bit] in *;
     repeat match goal with
       | H : canPack src ?a ?b = true |- context [if canPack src ?a ?b then _ else _] =>
         rewrite H
       | |- context [if canPack src ?a ?b then _ else _] =>
         destruct (canPack src a b); [first [by apply Ok_le | by apply bind_Ok_le]|]
       end; first [by apply Ok_le | by apply bind_Ok_le]|]).
  by apply elem_of_nil in Hp.
Qed.

Lemma Encode_greedy_witness :
  Encode [5; 6; 7] = Ok (Z.lor (Z.shiftl 13 60) (5 + 6 * 2 ^ 20 + 7 * 2 ^ 40), 3%nat) /\
  (pk_n (Packing 2 30 unpack2 pack2) <= 3)%nat.
Proof.
  split; [by vm_compute|].
  apply (Encode_greedy [5; 6; 7] (Z.lor (Z.shiftl 13 60) (5 + 6 * 2 ^ 20 + 7 * 2 ^ 40)) 3
           (Packing 2 30 unpack2 pack2)).
  - by vm_compute.
  - unfold selector. do 14 right. left.
  - by vm_compute.
Defined.

(** C29: [EncodeAll] packs a whole slice in place, although it overwrites the
    slice it is still reading: [DecodeAll] recovers the original values, and so
    does [DecodeBytesBigEndian] from the words' bytes, whose values [CountBytes]
    counts. *)
Theorem EncodeAll_roundtrip src :
  Forall is_u64 src -> Forall in_range src ->
  exists ws, EncodeAll src = Ok ws /\ (length ws <= length src)%nat /\
    DecodeAll (replicate (length src) 0) ws = Ok (src, length src) /\
    DecodeBytesBigEndian (replicate (length src) 0) (words_bytes ws) = Ok (src, length src) /\
    CountBytes (words_bytes ws) = Ok (Z.of_nat (length src)).
Proof.
  intros Hs Hr. destruct (EncodeAll_Ok src Hs Hr) as (ws & HE & Hws & <-).
  exists ws. split; [done|]. split; [by apply words_values_length|].
  unfold DecodeAll.
  rewrite decode_all_loop_spec, DecodeBytesBigEndian_spec, CountBytes_spec
    by (done || (rewrite length_replicate; cbn; lia)).
  rewrite !drop_ge by (rewrite length_replicate; cbn; lia). by rewrite !app_nil_r.
Qed.

Lemma EncodeAll_roundtrip_witness :
  let src := replicate 121 1 ++ [7; 8; 1000000] in
  Forall is_u64 src /\ Forall in_range src /\
  exists ws, EncodeAll src = Ok ws /\ (length ws <= length src)%nat /\
    DecodeAll (replicate (length src) 0) ws = Ok (src, length src) /\
    DecodeBytesBigEndian (replicate (length src) 0) (words_bytes ws) = Ok (src, length src) /\
    CountBytes (words_bytes ws) = Ok (Z.of_nat (length src)).
Proof.
  intros src.
  assert (Forall is_u64 src) as H1 by (by apply (bool_decide_unpack _); vm_compute).
  assert (Forall in_range src) as H2.
  { apply Forall_app. split; [apply Forall_replicate; by vm_compute|].
    repeat constructor; by vm_compute. }
  split; [exact H1|]. split; [exact H2|]. apply (EncodeAll_roundtrip src H1 H2).
Defined.

(** [EncodeAll] fails, with its out-of-bounds error, exactly on the slices
    that hold a value above [MaxValue]; it never panics. *)
Theorem EncodeAll_error src :
  Forall is_u64 src ->
  (EncodeAll src = Err "value out of bounds" <-> exists v, v ∈ src /\ MaxValue < v).
Proof.
  intros Hs. pose proof (EncodeAll_spec src Hs) as H. split.
  - intros HE. rewrite HE in H. destruct H as [_ Hn].
    apply not_Forall_Exists in Hn; [|intros x; unfold in_range; apply _].
    apply Exists_exists in Hn as (v & Hv & Hlt). exists v.
    split; [done|]. apply Z.lt_nge. exact Hlt.
  - intros (v & Hv & Hlt). destruct (EncodeAll src) as [ws|e|]; [|by destruct H as [-> _]|done].
    destruct H as [Hws <-]. pose proof (words_values_in_range ws Hws) as Hr.
    rewrite Forall_forall in Hr. specialize (Hr v Hv). unfold in_range in Hr. lia.
Qed.

Lemma EncodeAll_error_witness :
  Forall is_u64 [3; 2 ^ 60] /\
  (EncodeAll [3; 2 ^ 60] = Err "value out of bounds" <->
   exists v, v ∈ [3; 2 ^ 60] /\ MaxValue < v).
Proof.
  assert (Forall is_u64 [3; 2 ^ 60]) as H by (by apply (bool_decide_unpack _); vm_compute).
  split; [exact H|]. apply (EncodeAll_error [3; 2 ^ 60] H).
Defined.

(** [ForEach] with a callback that never stops visits, word after word, the
    values [Decode] gives, except that a word holding a run of ones is visited
    as a run of zeros: its mask is built from the 0 bits of selectors 0 and 1. *)
Theorem ForEach_visits {St} (fn : St -> Z -> St * bool) (g : St -> Z -> St) ws st :
  (forall st x, fn st x = (g st x, true)) -> Forall is_u64 ws ->
  ForEach fn (words_bytes ws) st =
    Ok (foldl g st
         (ws ≫= fun w => if decide (is_run w) then replicate (word_count w) 0
                         else word_values w)).
Proof.
  intros Hfn Hws. unfold ForEach.
  rewrite (for_each_loop_spec fn g); [done..|]. rewrite length_words_bytes. lia.
Qed.

Lemma ForEach_visits_witness :
  let fn := fun (st : list Z) x => (st ++ [x], true) in
  let g := fun (st : list Z) x => st ++ [x] in
  word_values (Z.shiftl 1 60) = replicate 120 1 /\
  ForEach fn (words_bytes [Z.shiftl 1 60]) [] =
    Ok (foldl g []
         ([Z.shiftl 1 60] ≫= fun w => if decide (is_run w) then replicate (word_count w) 0
                                    else word_values w)) /\
  ForEach fn (words_bytes [Z.shiftl 1 60]) [] = Ok (replicate 120 0).
Proof.
  intros fn g. split; [reflexivity|]. split; [|by vm_compute].
  apply (ForEach_visits fn g); [done|].
  constructor; [split; by vm_compute|constructor].
Defined.

End Simple8b.
