(* ===== verification/Simple8bStream.v ===== *)
(** The streaming encoder and decoder of
    src/pkg/encoding/simple8b/encoding.go, as state machines.

    [Encoder] buffers values in [buf[h:t]] and flushes whole words into
    [bytes[:bp]]; [Decoder] refills its 240-cell buffer one word at a time.
    The abstraction of an encoder is the list of values written since its last
    reset ([encoder_log]). *)
From S2P Require Import Prelude Binary Simple8b.
Import Simple8b.

Module Stream.

(** ** Encoder *)
Record Encoder := MkEncoder {
  e_buf : slice Z;
  e_h : nat;
  e_t : nat;
  e_bp : nat;
  e_bytes : slice Z;
  e_b : list Z
}.

Definition NewEncoder : Encoder :=
  MkEncoder (make_slice 0 240 240) 0 0 0 (make_slice 0 128 128) (replicate 8 0).

Definition SetValues (e : Encoder) (v : slice Z) : outcome Encoder :=
  bytes ← reslice (e_bytes e) 0;
  Ok (MkEncoder v 0 (slen v) (e_bp e) bytes (e_b e)).

Definition Reset (e : Encoder) : outcome Encoder :=
  buf ← reslice (e_buf e) 240;
  bytes ← reslice (e_bytes e) 128;
  Ok (MkEncoder buf 0 0 0 bytes (e_b e)).

(** On an error the encoder is left as it was. *)
Definition flush (e : Encoder) : outcome Encoder :=
  if (e_t e =? 0)%nat then Ok e
  else
    pending ← subslice (contents (e_buf e)) (e_h e) (e_t e);
    '(encoded, n) ← Encode pending;
    let b := be_encode 8 encoded in
    let '(bytes, bp) :=
      if bool_decide (slen (e_bytes e) < e_bp e + 8)%nat
      then let bytes := append (e_bytes e) b in (bytes, slen bytes)
      else (Slice (splice (backing (e_bytes e)) (e_bp e) b) (slen (e_bytes e)),
            (e_bp e + 8)%nat) in
    let h := (e_h e + n)%nat in
    if (h =? e_t e)%nat then Ok (MkEncoder (e_buf e) 0 0 bp bytes b)
    else Ok (MkEncoder (e_buf e) h (e_t e) bp bytes b).

(** [copy(e.buf, e.buf[e.h:])]: the tail moves to the front, the cells past it
    keep their contents. *)
Definition shift_down (s : slice Z) (h : nat) : slice Z :=
  Slice (splice (backing s) 0 (drop h (contents s))) (slen s).

Definition Write (e : Encoder) (v : Z) : outcome Encoder :=
  e1 ← (if bool_decide (slen (e_buf e) <= e_t e)%nat then flush e else Ok e);
  let e2 := if bool_decide (slen (e_buf e1) <= e_t e1)%nat
            then MkEncoder (shift_down (e_buf e1) (e_h e1)) 0 (e_t e1 - e_h e1)
                   (e_bp e1) (e_bytes e1) (e_b e1)
            else e1 in
  if decide (e_t e2 < slen (e_buf e2))%nat
  then Ok (MkEncoder (Slice (<[e_t e2 := v]> (backing (e_buf e2))) (slen (e_buf e2)))
             (e_h e2) (e_t e2 + 1) (e_bp e2) (e_bytes e2) (e_b e2))
  else Panic.

(** Every flush takes at least one of the [t - h] pending values
    ([flush_all_spec]). *)
Fixpoint flush_all (fuel : nat) (e : Encoder) : outcome Encoder :=
  match fuel with
  | O => Panic
  | S fuel' => if bool_decide (0 < e_t e)%nat then e' ← flush e; flush_all fuel' e' else Ok e
  end.

Definition Bytes (e : Encoder) : outcome (Encoder * list Z) :=
  e' ← flush_all (S (e_t e)) e;
  b ← reslice (e_bytes e') (e_bp e');
  Ok (e', contents b).

Fixpoint write_all (e : Encoder) (vs : list Z) : outcome Encoder :=
  match vs with
  | [] => Ok e
  | v :: r => e' ← Write e v; write_all e' r
  end.

(** ** Decoder *)
Record Decoder := MkDecoder {
  d_bytes : list Z;
  d_buf : list Z;
  d_i : nat;
  d_n : nat
}.

Definition NewDecoder (b : list Z) : Decoder := MkDecoder b (replicate 240 0) 0 0.

Definition SetBytes (d : Decoder) (b : list Z) : Decoder := MkDecoder b (d_buf d) 0 0.

(** [d.n, _ = Decode(&d.buf, v)]: on an error [d.n] becomes 0. *)
Definition read (d : Decoder) : outcome Decoder :=
  if bool_decide (length (d_bytes d) < 8)%nat then Ok d
  else
    v ← Uint64 (take 8 (d_bytes d));
    match Decode (d_buf d) v with
    | Ok (buf, n) => Ok (MkDecoder (drop 8 (d_bytes d)) buf 0 n)
    | Err _ => Ok (MkDecoder (drop 8 (d_bytes d)) (d_buf d) 0 0)
    | Panic => Panic
    end.

Definition Next (d : Decoder) : outcome (Decoder * bool) :=
  let d1 := MkDecoder (d_bytes d) (d_buf d) (d_i d + 1) (d_n d) in
  d2 ← (if bool_decide (d_n d1 <= d_i d1)%nat then read d1 else Ok d1);
  Ok (d2, bool_decide (8 <= length (d_bytes d2))%nat || bool_decide (d_i d2 < d_n d2)%nat).

Definition Read (d : Decoder) : outcome Z := index (d_buf d) (d_i d).

(** [for d.Next() { deltas = append(deltas, d.Read()) }]. *)
Fixpoint drain (fuel : nat) (d : Decoder) : outcome (Decoder * list Z) :=
  match fuel with
  | O => Panic
  | S fuel' =>
      '(d', more) ← Next d;
      if (more : bool) then
        v ← Read d';
        '(d'', vs) ← drain fuel' d';
        Ok (d'', v :: vs)
      else Ok (d', [])
  end.

(** 240 values per 8 bytes, and the values still in the buffer. *)
Definition drain_fuel (d : Decoder) : nat := S (d_n d + 30 * length (d_bytes d)).
Definition DecodeStream (d : Decoder) : outcome (Decoder * list Z) :=
  drain (drain_fuel d) d.

(** ** Invariant and abstraction *)
Definition pending (e : Encoder) : list Z :=
  drop (e_h e) (take (e_t e) (backing (e_buf e))).

Record encoder_inv (e : Encoder) (ws : list Z) : Prop := EncoderInv {
  inv_buf : (0 < slen (e_buf e) <= scap (e_buf e))%nat;
  inv_caps : (240 <= scap (e_buf e))%nat /\ (128 <= scap (e_bytes e))%nat;
  inv_range : (e_h e < e_t e <= slen (e_buf e))%nat \/ (e_h e = 0 /\ e_t e = 0)%nat;
  inv_bytes : slice_ok (e_bytes e) /\ (e_bp e <= slen (e_bytes e))%nat;
  inv_align : exists a b, (e_bp e = 8 * a /\ slen (e_bytes e) = 8 * b)%nat;
  inv_words : Forall is_u64 ws;
  inv_written : take (e_bp e) (backing (e_bytes e)) = words_bytes ws;
  inv_pending : Forall is_u64 (pending e) /\ Forall in_range (pending e)
}.

(** The values written since the last reset: flushed, then pending. *)
Definition encoder_log (ws : list Z) (e : Encoder) : list Z := words_values ws ++ pending e.

(** The memory an encoder keeps across resets. *)
Definition encoder_ok (e : Encoder) : Prop := exists ws, encoder_inv e ws.

Lemma NewEncoder_inv : encoder_inv NewEncoder [].
Proof.
  split; cbn; unfold slice_ok, scap, pending; cbn; rewrite ?length_replicate;
    try lia; try (by constructor).
  - exists 0%nat, 16%nat. lia.
Qed.

Lemma Reset_spec e :
  encoder_ok e ->
  exists e', Reset e = Ok e' /\ encoder_inv e' [] /\ e_t e' = 0%nat /\ slen (e_buf e') = 240%nat.
Proof.
  intros (ws & []). destruct inv_caps0 as [Hb Hy]. unfold Reset, reslice, scap in *.
  rewrite !decide_True by lia. cbn [mbind outcome_bind]. eexists. split; [done|].
  split; [|done]. split; unfold slice_ok, scap, pending; cbn; try done; try lia.
  exists 0%nat, 16%nat. lia.
Qed.

Lemma flush_spec e ws :
  encoder_inv e ws -> (0 < e_t e)%nat ->
  exists e' w, flush e = Ok e' /\ encoder_inv e' (ws ++ [w]) /\
    encoder_log (ws ++ [w]) e' = encoder_log ws e /\
    (length (pending e') < length (pending e))%nat /\
    slen (e_buf e') = slen (e_buf e) /\
    ((0 < e_h e')%nat \/ e_t e' = 0%nat) /\ (e_t e' <= e_t e)%nat.
Proof.
  intros [] Ht. destruct inv_range0 as [Hr|]; [|lia].
  destruct inv_bytes0 as [Hbo Hbp], inv_pending0 as [Hp64 Hprange], inv_caps0 as [Hc1 Hc2].
  destruct inv_align0 as (a & b & Ha & Hb).
  unfold flush. rewrite (proj2 (Nat.eqb_neq _ _)) by lia.
  unfold subslice. rewrite contents_length by (unfold slice_ok; lia).
  rewrite decide_True by lia. cbn [mbind outcome_bind].
  unfold contents at 1. rewrite take_take, Nat.min_l by lia.
  fold (pending e). pose proof (Encode_cases (pending e) Hp64) as HE.
  assert (length (pending e) = e_t e - e_h e)%nat as Hpl.
  { unfold pending. unfold scap in *. rewrite length_drop, length_take. lia. }
  destruct (Encode (pending e)) as [[w n]|s|]; [| |done].
  2:{ destruct HE as (v & r & Ep & Hv). rewrite Ep in Hprange.
      inversion Hprange; subst. unfold in_range in *. lia. }
  destruct HE as [(Ep & _)|(Hn & Hw & Hwv)]; [by rewrite Ep in Hpl; cbn in Hpl; lia|].
  cbn [mbind outcome_bind].
  set (bb := be_encode 8 w).
  assert (length bb = 8%nat) as Hbb by apply length_be_encode.
  set (pr := if bool_decide _ then _ else _).
  assert (exists bytes bp, pr = (bytes, bp) /\ slice_ok bytes /\ (128 <= scap bytes)%nat /\
     (bp <= slen bytes)%nat /\ (exists a b, (bp = 8 * a /\ slen bytes = 8 * b)%nat) /\
     take bp (backing bytes) = words_bytes (ws ++ [w])) as
     (bytes & bp & Epr & Hok & Hcap & Hbpl & Hal & Htk).
  { unfold pr. rewrite words_bytes_snoc, <- inv_written0. case_bool_decide as Hfull.
    - do 2 eexists. split; [done|].
      assert (e_bp e = slen (e_bytes e)) as Ebp by lia.
      assert (slen (append (e_bytes e) bb) = slen (e_bytes e) + 8)%nat as Hsl.
      { unfold append. case_decide; cbn; lia. }
      split; [by apply append_ok|].
      split; [pose proof (append_cap (e_bytes e) bb Hbo); lia|].
      split; [lia|]. split; [exists (b + 1)%nat, (b + 1)%nat; lia|].
      fold (contents (append (e_bytes e) bb)). rewrite contents_append by done.
      unfold contents. by rewrite Ebp.
    - do 2 eexists. split; [done|]. unfold slice_ok, scap in *. cbn [backing slen].
      rewrite splice_length by lia. split; [lia|]. split; [lia|]. split; [lia|].
      split; [exists (a + 1)%nat, b; lia|].
      rewrite <- Hbb. apply splice_take. lia. }
  rewrite Epr. clear pr Epr.
  assert (Forall is_u64 (ws ++ [w])) as Hws
    by (apply Forall_app; split; [done|]; constructor; [apply Hw|constructor]).
  assert (drop n (pending e) = drop (e_h e + n) (take (e_t e) (backing (e_buf e)))) as Edrop
    by (unfold pending; by rewrite drop_drop).
  destruct (Nat.eqb_spec (e_h e + n) (e_t e)) as [Eall|Hne].
  - eexists _, w. split; [done|]. split; [split; cbn; try done; try lia|].
    cbn. split; [|split; [change (0 < length (pending e))%nat; lia|split; [done|split; [by right|lia]]]].
    unfold encoder_log. rewrite words_values_snoc, Hwv. unfold pending at 2. cbn.
    rewrite app_nil_r. f_equal. apply take_ge. lia.
  - eexists _, w. split; [done|]. split; [split; cbn; try done; try lia|].
    + unfold pending. cbn. rewrite <- Edrop. by split; apply Forall_drop.
    + cbn. split; [|split; [|split; [done|split; [left; lia|lia]]]].
      * unfold encoder_log. rewrite words_values_snoc, Hwv. unfold pending at 2. cbn.
        by rewrite <- Edrop, <- app_assoc, take_drop.
      * match goal with |- (length ?p < _)%nat =>
          change p with (drop (e_h e + n) (take (e_t e) (backing (e_buf e)))) end.
        rewrite <- Edrop, length_drop. lia.
Qed.

Lemma pending_length e ws : encoder_inv e ws -> length (pending e) = (e_t e - e_h e)%nat.
Proof.
  intros []. unfold pending, scap in *. rewrite length_drop, length_take. lia.
Qed.

Lemma flush_all_spec fuel e ws :
  encoder_inv e ws -> (length (pending e) < fuel)%nat ->
  exists e' ws', flush_all fuel e = Ok e' /\ encoder_inv e' ws' /\ e_t e' = 0%nat /\
    words_values ws' = encoder_log ws e.
Proof.
  revert e ws. induction fuel as [|fuel IH]; intros e ws Hinv Hf; [lia|].
  cbn [flush_all]. case_bool_decide as Ht.
  - destruct (flush_spec e ws Hinv Ht) as (e' & w & -> & Hinv' & Hlog & Hlt & _).
    cbn [mbind outcome_bind]. destruct (IH e' _ Hinv' ltac:(lia)) as (e'' & ws' & HE & Hi & H0 & Hv).
    exists e'', ws'. split; [done|]. split; [done|]. split; [done|]. by rewrite Hv.
  - exists e, ws. split; [done|]. split; [done|]. split; [lia|].
    unfold encoder_log, pending. replace (e_t e) with 0%nat by lia.
    by rewrite take_0, drop_nil, app_nil_r.
Qed.

(** [Bytes] flushes everything and returns the bytes of the words. *)
Lemma Bytes_spec e ws :
  encoder_inv e ws ->
  exists e' ws', Bytes e = Ok (e', words_bytes ws') /\ encoder_inv e' ws' /\
    Forall is_u64 ws' /\ words_values ws' = encoder_log ws e.
Proof.
  intros Hinv. unfold Bytes. pose proof (pending_length e ws Hinv) as Hpl.
  destruct (flush_all_spec (S (e_t e)) e ws Hinv ltac:(lia)) as (e' & ws' & -> & Hinv' & _ & Hv).
  cbn [mbind outcome_bind]. exists e', ws'. destruct Hinv' as [].
  unfold reslice. destruct inv_bytes0. unfold slice_ok in *. rewrite decide_True by lia.
  cbn [mbind outcome_bind]. unfold contents. cbn [slen backing]. rewrite inv_written0.
  split; [done|]. split; [|done]. split; done.
Qed.

(** Moving the pending values to the front of a full buffer. *)
Lemma shift_down_inv e ws :
  encoder_inv e ws -> (slen (e_buf e) <= e_t e)%nat -> (0 < e_h e)%nat ->
  let e' := MkEncoder (shift_down (e_buf e) (e_h e)) 0 (e_t e - e_h e)
              (e_bp e) (e_bytes e) (e_b e) in
  encoder_inv e' ws /\ encoder_log ws e' = encoder_log ws e /\ (e_t e' < slen (e_buf e'))%nat.
Proof.
  intros Hinv Hfull Hh e'. pose proof (pending_length e ws Hinv) as Hpl. destruct Hinv.
  destruct inv_range0 as [Hr|]; [|lia]. unfold scap in *.
  assert (e_t e = slen (e_buf e)) as Et by lia.
  assert (drop (e_h e) (contents (e_buf e)) = pending e) as Ed
    by (unfold contents, pending; by rewrite Et).
  assert (pending e' = pending e) as Ep.
  { unfold pending at 1. unfold e', shift_down. cbn [e_h e_t e_buf backing]. rewrite drop_0, Ed.
    rewrite <- Hpl. apply (splice_take _ 0). lia. }
  split; [|split].
  - split; try done.
    + unfold e', shift_down, scap. cbn [e_buf slen backing]. rewrite Ed, splice_length by lia. lia.
    + unfold e', shift_down, scap. cbn [e_buf e_bytes backing]. rewrite Ed, splice_length by lia. done.
    + unfold e', shift_down. cbn [e_h e_t e_buf slen]. left. lia.
    + by rewrite Ep.
  - unfold encoder_log. by rewrite Ep.
  - unfold e', shift_down. cbn [e_t e_buf slen]. lia.
Qed.

(** Storing a value in the next free cell. *)
Lemma push_inv e ws v :
  encoder_inv e ws -> is_u64 v -> in_range v -> (e_t e < slen (e_buf e))%nat ->
  let e' := MkEncoder (Slice (<[e_t e := v]> (backing (e_buf e))) (slen (e_buf e)))
              (e_h e) (e_t e + 1) (e_bp e) (e_bytes e) (e_b e) in
  encoder_inv e' ws /\ encoder_log ws e' = encoder_log ws e ++ [v].
Proof.
  intros Hinv Hv Hr Hroom e'. destruct Hinv. unfold scap in *.
  assert (pending e' = pending e ++ [v]) as Ep.
  { unfold pending, e'. cbn [e_h e_t e_buf backing].
    rewrite Nat.add_1_r, (take_S_r _ _ v) by (apply list_lookup_insert_eq; lia).
    rewrite take_insert_ge by lia.
    rewrite drop_app_le by (rewrite length_take; lia). done. }
  split.
  - split; try done.
    + unfold e', scap. cbn [e_buf slen backing]. by rewrite length_insert.
    + unfold e', scap. cbn [e_buf e_bytes slen backing]. by rewrite length_insert.
    + unfold e'. cbn [e_h e_t e_buf slen]. left. lia.
    + rewrite Ep, !Forall_app. destruct inv_pending0.
      split; (split; [done|]); by constructor.
  - unfold encoder_log. by rewrite Ep, app_assoc.
Qed.

(** Writing a value appends it to the log. *)
Lemma Write_spec e ws v :
  encoder_inv e ws -> is_u64 v -> in_range v ->
  exists e' ws', Write e v = Ok e' /\ encoder_inv e' ws' /\
    encoder_log ws' e' = encoder_log ws e ++ [v].
Proof.
  intros Hinv Hv Hr. unfold Write.
  assert (exists e1 ws1, (if bool_decide (slen (e_buf e) <= e_t e)%nat then flush e else Ok e) = Ok e1 /\
    encoder_inv e1 ws1 /\ encoder_log ws1 e1 = encoder_log ws e /\
    ((e_t e1 < slen (e_buf e1))%nat \/ (0 < e_h e1)%nat)) as (e1 & ws1 & -> & Hinv1 & Hlog1 & Hroom).
  { case_bool_decide as Hfull.
    - pose proof (inv_buf _ _ Hinv).
      destruct (flush_spec e ws Hinv ltac:(lia)) as (e' & w & -> & Hinv' & Hlog & _ & Hsl & Hh & _).
      exists e', (ws ++ [w]). split; [done|]. split; [done|]. split; [done|].
      destruct Hh as [Hh|Ht]; [by right|left; lia].
    - exists e, ws. split; [done|]. split; [done|]. split; [done|left; lia]. }
  cbn [mbind outcome_bind]. set (e2 := if bool_decide _ then _ else _).
  assert (encoder_inv e2 ws1 /\ encoder_log ws1 e2 = encoder_log ws1 e1 /\
          (e_t e2 < slen (e_buf e2))%nat) as (Hinv2 & Hlog2 & Hroom2).
  { unfold e2. case_bool_decide as Hfull; [|split; [done|split; [done|lia]]].
    by apply shift_down_inv; [|lia|lia]. }
  rewrite decide_True by done. eexists _, ws1. split; [done|].
  rewrite <- Hlog1, <- Hlog2. by apply push_inv.
Qed.

Lemma write_all_spec vs e ws :
  encoder_inv e ws -> Forall is_u64 vs -> Forall in_range vs ->
  exists e' ws', write_all e vs = Ok e' /\ encoder_inv e' ws' /\
    encoder_log ws' e' = encoder_log ws e ++ vs.
Proof.
  intros Hinv Hvs Hr. revert e ws Hinv.
  induction Hvs as [|v vs Hv _ IH]; intros e ws Hinv; cbn [write_all].
  - exists e, ws. by rewrite app_nil_r.
  - inversion Hr as [|? ? Hrv Hrvs]; subst.
    destruct (Write_spec e ws v Hinv Hv Hrv) as (e1 & ws1 & -> & Hinv1 & Hlog1).
    cbn [mbind outcome_bind].
    destruct (IH Hrvs e1 ws1 Hinv1) as (e2 & ws2 & -> & Hinv2 & Hlog2).
    exists e2, ws2. split; [done|]. split; [done|]. by rewrite Hlog2, Hlog1, <- app_assoc.
Qed.

(** ** Decoder *)
Definition decoder_rest (d : Decoder) : list Z := drop (S (d_i d)) (take (d_n d) (d_buf d)).

Definition decoder_ok (d : Decoder) : Prop :=
  length (d_buf d) = 240%nat /\ (d_n d <= 240)%nat /\ (d_i d <= d_n d)%nat.

Lemma read_word d w ws tl :
  d_bytes d = words_bytes (w :: ws) ++ tl -> is_u64 w ->
  read d = Ok (MkDecoder (words_bytes ws ++ tl)
                 (word_values w ++ drop (word_count w) (d_buf d)) 0 (word_count w)).
Proof.
  intros Hb Hw. unfold read. rewrite Hb, words_bytes_cons, <- app_assoc.
  rewrite bool_decide_false by (rewrite length_app, length_be_encode; lia).
  rewrite take_app_length', drop_app_length' by (by rewrite length_be_encode).
  rewrite Uint64_encode_nil by done. cbn [mbind outcome_bind].
  by rewrite Decode_values.
Qed.

Lemma drain_spec fuel d ws tl :
  decoder_ok d -> d_bytes d = words_bytes ws ++ tl -> (length tl < 8)%nat ->
  Forall is_u64 ws -> (length (decoder_rest d ++ words_values ws) < fuel)%nat ->
  exists d', drain fuel d = Ok (d', decoder_rest d ++ words_values ws) /\
    length (d_buf d') = 240%nat.
Proof.
  revert d ws. induction fuel as [|fuel IH]; intros d ws (Hbuf & Hn & Hi) Hb Htl Hws Hf; [lia|].
  cbn [drain]. unfold Next. cbn [d_i d_n d_bytes d_buf].
  case_bool_decide as Hdone.
  - assert (decoder_rest d = []) as Hrest
      by (unfold decoder_rest; apply drop_ge; rewrite length_take; lia).
    rewrite Hrest in *. cbn [app] in *. destruct Hws as [|w ws Hw Hws].
    + unfold read. cbn [d_bytes]. rewrite Hb. rewrite bool_decide_true by done.
      cbn [mbind outcome_bind d_bytes d_i d_n].
      rewrite !bool_decide_false by (cbn [words_bytes mbind list_bind app]; rewrite ?Hb; cbn; lia).
      eexists. split; [done|]. done.
    + rewrite (read_word _ w ws tl) by done. cbn [mbind outcome_bind d_bytes d_i d_n d_buf].
      pose proof (word_count_range w Hw) as Hc. pose proof (word_values_length w Hw) as Hwl.
      rewrite (bool_decide_true (0 < word_count w)%nat) by lia. rewrite orb_true_r.
      unfold Read. cbn [d_i d_buf].
      destruct (word_values w) as [|v0 vs] eqn:Ewv; [cbn in Hwl; lia|].
      cbn [app]. unfold index. cbn [lookup list_lookup mbind outcome_bind].
      set (d' := MkDecoder _ _ 0 _).
      assert (decoder_rest d' = vs) as Hr'.
      { unfold decoder_rest, d'. cbn [d_i d_n d_buf]. rewrite <- Hwl. cbn [length take drop].
        rewrite drop_0. cbn [app]. by rewrite take_app_length. }
      rewrite words_values_cons, Ewv in *.
      destruct (IH d' ws) as (d'' & HE & Hb''); try done.
      * unfold decoder_ok, d'. cbn [d_i d_n d_buf length].
        rewrite length_app, length_drop. cbn in Hwl. lia.
      * rewrite Hr'. cbn [app length] in Hf. lia.
      * rewrite HE, Hr'. eauto.
  - cbn [mbind outcome_bind d_i d_n d_bytes d_buf].
    rewrite (bool_decide_true (_ < d_n d)%nat) by lia. rewrite orb_true_r.
    unfold Read. cbn [d_i d_buf].
    destruct (lookup_lt_is_Some_2 (d_buf d) (d_i d + 1)) as [v Hv]; [lia|].
    rewrite (index_lookup _ _ v) by done. cbn [mbind outcome_bind].
    set (d' := MkDecoder _ _ _ _).
    assert (decoder_rest d = v :: decoder_rest d') as Hr.
    { unfold decoder_rest, d'. cbn [d_i d_n d_buf].
      rewrite (drop_S _ v) by (rewrite lookup_take_lt by lia; by rewrite <- Nat.add_1_r).
      by rewrite Nat.add_1_r. }
    rewrite Hr in *. destruct (IH d' ws) as (d'' & HE & Hb''); try done.
    + unfold decoder_ok, d'. cbn [d_i d_n d_buf]. split; [done|lia].
    + cbn [app length] in Hf. lia.
    + rewrite HE. eauto.
Qed.

Lemma DecodeStream_words d ws tl :
  length (d_buf d) = 240%nat -> (length tl < 8)%nat -> Forall is_u64 ws ->
  exists d', DecodeStream (SetBytes d (words_bytes ws ++ tl)) = Ok (d', words_values ws) /\
    length (d_buf d') = 240%nat.
Proof.
  intros Hb Htl Hws. unfold DecodeStream.
  assert (decoder_rest (SetBytes d (words_bytes ws ++ tl)) = []) as Hr by done.
  destruct (drain_spec (drain_fuel (SetBytes d (words_bytes ws ++ tl)))
              (SetBytes d (words_bytes ws ++ tl)) ws tl) as (d' & HE & Hb'); try done.
  - unfold decoder_ok. cbn. lia.
  - rewrite Hr. cbn [app]. unfold drain_fuel. cbn [d_n d_bytes SetBytes].
    rewrite length_app, length_words_bytes.
    assert (length (words_values ws) <= 240 * length ws)%nat; [|lia].
    clear -Hws. induction Hws as [|w ws Hw _ IH]; [cbn; lia|].
    rewrite words_values_cons, length_app, word_values_length by done.
    pose proof (word_count_range w Hw). cbn [length]. lia.
  - rewrite Hr in HE. eauto.
Qed.

(** * Theorems *)

(** the streaming coder round-trips: after a reset, writing any values up to
    [MaxValue] and taking the bytes succeeds, the decoder returns exactly those
    values in order and then stops, and the encoder is ready for another reset. *)
Theorem stream_roundtrip e d vs :
  encoder_ok e -> length (d_buf d) = 240%nat -> Forall is_u64 vs -> Forall in_range vs ->
  exists e0 e1 e2 b d',
    Reset e = Ok e0 /\ write_all e0 vs = Ok e1 /\ Bytes e1 = Ok (e2, b) /\
    DecodeStream (SetBytes d b) = Ok (d', vs) /\ encoder_ok e2.
Proof.
  intros He Hd Hvs Hr. destruct (Reset_spec e He) as (e0 & -> & Hinv0 & Ht & _).
  destruct (write_all_spec vs e0 [] Hinv0 Hvs Hr) as (e1 & ws1 & Hw & Hinv1 & Hlog1).
  destruct (Bytes_spec e1 ws1 Hinv1) as (e2 & ws2 & Hb & Hinv2 & Hws2 & Hv2).
  destruct (DecodeStream_words d ws2 [] Hd ltac:(cbn; lia) Hws2) as (d' & HD & _).
  rewrite app_nil_r in HD. exists e0, e1, e2, (words_bytes ws2), d'.
  split; [done|]. split; [done|]. split; [done|]. split; [|by exists ws2].
  rewrite HD, Hv2, Hlog1. unfold encoder_log, pending. by rewrite Ht, take_0, drop_nil.
Qed.

Lemma stream_roundtrip_witness :
  encoder_ok NewEncoder /\ Forall is_u64 (1 :: 2 :: replicate 300 9) /\
  exists e0 e1 e2 b d',
    Reset NewEncoder = Ok e0 /\ write_all e0 (1 :: 2 :: replicate 300 9) = Ok e1 /\
    Bytes e1 = Ok (e2, b) /\
    DecodeStream (SetBytes (NewDecoder []) b) = Ok (d', 1 :: 2 :: replicate 300 9) /\
    encoder_ok e2.
Proof.
  assert (encoder_ok NewEncoder) as H1 by (exists []; apply NewEncoder_inv).
  assert (Forall is_u64 (1 :: 2 :: replicate 300 9)) as H2
    by (by apply (bool_decide_unpack _); vm_compute).
  split; [exact H1|]. split; [exact H2|].
  apply (stream_roundtrip NewEncoder (NewDecoder []) _ H1); [reflexivity|exact H2|].
  constructor; [by vm_compute|]. constructor; [by vm_compute|].
  apply Forall_replicate. by vm_compute.
Defined.

End Stream.
