(* ===== verification/Codec.v ===== *)
(** What the value codecs of src/storage/codec share: the way the batch encoders
    grow and fill the buffer they are given ([ensure], [emit], [sized]), and the
    interfaces the block layer (Block.v) is written against: an encoder and a
    decoder of a type of values, what it means that a decoder delivers a list
    ([yields]), and the laws that make a pair of them a codec. *)
From S2P Require Import Prelude Binary Simple8b.
Import Simple8b.

Module Buffer.

(** [if len(b) < sz && cap(b) >= sz { b = b[:sz] } else if len(b) < sz {
    b = append(b, make([]byte, sz-len(b))...) }]. *)
Definition ensure (b : slice Z) (sz : nat) : slice Z :=
  if bool_decide (slen b < sz)%nat && bool_decide (sz <= scap b)%nat
  then Slice (backing b) sz
  else if bool_decide (slen b < sz)%nat then append b (replicate (sz - slen b) 0)
  else b.

(** Write [out] at the start of [b] and return [b[:len(out)]]. *)
Definition emit (b : slice Z) (out : list Z) : slice Z :=
  Slice (splice (backing b) 0 out) (length out).

(** [if cap(dst) < count { dst = make(...) } else { dst = dst[:count] }]. *)
Definition sized {A} (zero : A) (dst : slice A) (count : nat) : list A :=
  if bool_decide (scap dst < count)%nat then replicate count zero else take count (backing dst).

(** The 8-byte words of [b]. *)
Fixpoint raw_words (n : nat) (b : list Z) : list Z :=
  match n with
  | O => []
  | S k => be_decode (take 8 b) :: raw_words k (drop 8 b)
  end.

Lemma contents_emit b out : contents (emit b out) = out.
Proof.
  unfold emit, contents. cbn [slen backing].
  pose proof (splice_take (backing b) 0 out ltac:(lia)) as H. by rewrite take_0 in H.
Qed.

Lemma ensure_slen b sz : slice_ok b -> slen (ensure b sz) = Nat.max (slen b) sz.
Proof.
  intros Hb. unfold ensure, slice_ok, append, scap in *.
  repeat case_bool_decide; cbn [andb slen] in *; try lia; case_decide; cbn [slen];
    rewrite ?length_replicate in *; lia.
Qed.

Lemma ensure_ok b sz : slice_ok b -> slice_ok (ensure b sz).
Proof.
  intros Hb. unfold ensure. repeat case_bool_decide; cbn [andb]; try done.
  by apply append_ok.
Qed.

(** Growing the buffer keeps what it already held. *)
Lemma contents_ensure b sz : slice_ok b -> take (slen b) (contents (ensure b sz)) = contents b.
Proof.
  intros Hb. unfold ensure.
  assert (take (slen b) (contents (append b (replicate (sz - slen b) 0))) = contents b) as Ha.
  { rewrite contents_append by done. rewrite take_app_le by (by rewrite contents_length).
    apply take_ge. by rewrite contents_length. }
  assert (take (slen b) (contents b) = contents b) as Hs by (apply take_ge; by rewrite contents_length).
  repeat case_bool_decide; cbn [andb]; try done.
  unfold contents. cbn [slen backing]. rewrite take_take. f_equal. lia.
Qed.

Lemma length_sized {A} (z : A) dst n : length (sized z dst n) = n.
Proof.
  unfold sized. case_bool_decide; [by rewrite length_replicate|].
  unfold scap in *. rewrite length_take. lia.
Qed.

Lemma sized_tail {A} (z : A) dst n : length (drop 1 (sized z dst (n + 1))) = n.
Proof. rewrite length_drop, length_sized. lia. Qed.

Lemma raw_words_bytes ws : Forall is_u64 ws -> raw_words (length ws) (words_bytes ws) = ws.
Proof.
  induction 1 as [|w ws Hw _ IH]; [done|]. cbn [length raw_words]. rewrite words_bytes_cons.
  rewrite take_app_length', drop_app_length' by (by rewrite length_be_encode).
  rewrite be_decode_encode, Z.mod_small by exact Hw. by rewrite IH.
Qed.

Lemma length_words_bytes_div ws : (length (words_bytes ws) / 8)%nat = length ws.
Proof. rewrite length_words_bytes, Nat.mul_comm. by apply Nat.div_mul. Qed.

Lemma words_bytes_aligned ws : Z.land (Z.of_nat (length (words_bytes ws))) 7 = 0.
Proof.
  rewrite length_words_bytes. change 7 with (Z.ones 3). rewrite Z.land_ones by lia.
  rewrite Nat2Z.inj_mul, Z.mul_comm. by apply Z_mod_mult.
Qed.

End Buffer.

(** ** Interfaces

    The five streaming codecs have the same two faces in the code; the block
    layer uses them by these methods only. *)
Module Codec.

Class ValueEncoder (E V : Type) := {
  reset : E -> outcome E;
  write : E -> V -> E;
  bytes : E -> outcome (E * list Z)
}.

Class ValueDecoder (D V : Type) := {
  set_bytes : D -> list Z -> outcome D;
  next : D -> outcome (D * bool);
  read : D -> outcome (D * V);
  error : D -> option string
}.

Definition write_values {E V} `{ValueEncoder E V} (e : E) (l : list V) : E := foldl write e l.

(** [d] delivers exactly the values [l], then stops; it is usable ([ok]) and
    without an error throughout. *)
Fixpoint yields {D V} `{ValueDecoder D V} (ok : D -> Prop) (d : D) (l : list V) : Prop :=
  ok d /\ error d = None /\
  match l with
  | [] => exists d', next d = Ok (d', false) /\ error d' = None /\ ok d'
  | x :: r => exists d' d'', next d = Ok (d', true) /\ read d' = Ok (d'', x) /\ yields ok d'' r
  end.

Lemma yields_start {D V} `{ValueDecoder D V} (ok : D -> Prop) (d : D) (l : list V) :
  yields ok d l -> ok d /\ error d = None.
Proof. destruct l; intros (H1 & H2 & _); by split. Qed.

(** A codec for lists of values satisfying [valid]: what the encoder writes for a
    nonempty list, from any usable state once reset, is delivered by a decoder
    in any usable state. *)
Class CodecLaws (E D V : Type) `{ValueEncoder E V, ValueDecoder D V} := {
  valid : list V -> Prop;
  enc_usable : E -> Prop;
  dec_usable : D -> Prop;
  reset_usable : forall e, enc_usable e -> exists e0, reset e = Ok e0 /\ enc_usable e0;
  codec_roundtrip : forall e d l,
    enc_usable e -> dec_usable d -> l <> [] -> valid l ->
    Z.of_nat (length l) < 2 ^ 56 ->
    exists e0 e1 b d', reset e = Ok e0 /\ bytes (write_values e0 l) = Ok (e1, b) /\
      enc_usable e1 /\ bytes_ok b /\ set_bytes d b = Ok d' /\ yields dec_usable d' l
}.

End Codec.
