(* ===== verification/Timestamp.v ===== *)
(** Timestamp codec (src/storage/codec/timestamp.go): the streaming
    [encoder] and [TimeDecoder], and the batch pair [TimeArrayEncodeAll] and
    [TimeArrayDecodeAll].

    A block of timestamps is delta-encoded and stored in one of three formats,
    named by the high nibble of its first byte: raw 8-byte words, simple8b words
    scaled by a power of ten, or a run length.  The low nibble is the exponent
    of the scale.  [yields d l] says that a decoder delivers exactly [l]. *)
From S2P Require Import Prelude Binary Simple8b Simple8bStream Codec.
Import Simple8b Buffer.

Module Timestamp.

Definition timeUncompressed : Z := 0.
Definition timeCompressedPackedSimple : Z := 1.
Definition timeCompressedRLE : Z := 2.

(** ** math.Log10 and math.Pow10

    [byte(math.Log10(float64(div)))] on the powers of ten up to [1e12], and
    [uint64(math.Pow10(n))] for [n <= 15]: both are exact there. *)
Fixpoint ilog10 (fuel : nat) (x : Z) : Z :=
  match fuel with
  | O => 0
  | S k => if x <? 10 then 0 else 1 + ilog10 k (x / 10)
  end.
Definition Log10 (div : Z) : Z := ilog10 13 div.
Definition Pow10 (n : Z) : Z := 10 ^ n.

(** ** Encoder *)
Record encoder := MkTimeEncoder {
  ts : list Z;
  bytes : slice Z;
  enc : Stream.Encoder
}.

Definition NewTimeEncoder (sz : nat) : encoder :=
  MkTimeEncoder [] nil_slice Stream.NewEncoder.

Definition Reset (e : encoder) : outcome encoder :=
  b ← reslice (bytes e) 0;
  s ← Stream.Reset (enc e);
  Ok (MkTimeEncoder [] b s).

Definition Write (e : encoder) (t : Z) : encoder :=
  MkTimeEncoder (ts e ++ [u64 t]) (bytes e) (enc e).

(** [for divisor > 1 && v%divisor != 0 { divisor /= 10 }]: at most twelve
    rounds from [1e12]. *)
Fixpoint shrink (fuel : nat) (divisor v : Z) : Z :=
  match fuel with
  | O => divisor
  | S k => if (1 <? divisor) && negb (v mod divisor =? 0)
           then shrink k (divisor / 10) v else divisor
  end.
Definition shrink_divisor (divisor v : Z) : Z := shrink 13 divisor v.

(** The loop of [reduce], from index [i] down to 1, on the array it
    differentiates in place. *)
Fixpoint reduce_loop (i : nat) (deltas : list Z) (max divisor : Z) (rle : bool)
  : Z * Z * bool * list Z :=
  match i with
  | O => (max, divisor, rle, deltas)
  | S i' =>
      let v := (deltas !!! i) -64 (deltas !!! i') in
      let deltas := <[i := v]> deltas in
      let max := if max <? v then v else max in
      let divisor := shrink_divisor divisor v in
      let rle := (i =? length deltas - 1)%nat
                 || rle && ((deltas !!! S i) =? (deltas !!! i)) in
      reduce_loop i' deltas max divisor rle
  end.

Definition reduce (e : encoder) : Z * Z * bool * list Z :=
  reduce_loop (length (ts e) - 1) (ts e) 0 (10 ^ 12) true.

(** [b := e.bytes[:len(out)]], grown when the capacity is short, then filled. *)
Definition fill (s : slice Z) (out : list Z) : slice Z :=
  let s := if bool_decide (scap s < length out)%nat
           then make_slice 0 (length out) (length out) else s in
  Slice (splice (backing s) 0 out) (slen s).

Definition encodeRaw (e : encoder) : encoder * list Z :=
  let out := Z.shiftl timeUncompressed 4 :: words_bytes (ts e) in
  (MkTimeEncoder (ts e) (fill (bytes e) out) (enc e), out).

(** The buffer has 31 bytes: a header, 8 bytes and two varints of at most 10. *)
Definition encodeRLE (e : encoder) (first delta div : Z) (n : nat) : encoder * list Z :=
  let out := Z.lor (Z.shiftl timeCompressedRLE 4) (Log10 div) :: be_encode 8 first
             ++ PutUvarint (delta / div) ++ PutUvarint (Z.of_nat n) in
  (MkTimeEncoder (ts e) (fill (bytes e) (out ++ replicate (31 - length out) 0)) (enc e), out).

Definition encodePacked (e : encoder) (div : Z) (dts : list Z) : outcome (encoder * list Z) :=
  rest ← tail_from dts 1;
  s ← (if 1 <? div then Stream.write_all (enc e) ((fun v => v / div) <$> rest)
       else Stream.write_all (enc e) rest);
  '(s', deltas) ← Stream.Bytes s;
  first ← index dts 0;
  let out := Z.lor (Z.shiftl timeCompressedPackedSimple 4) (Log10 div)
             :: be_encode 8 first ++ deltas in
  Ok (MkTimeEncoder (ts e) (fill (bytes e) out) s', out).

Definition Bytes (e : encoder) : outcome (encoder * list Z) :=
  if (length (ts e) =? 0)%nat then Ok (e, [])
  else
    let '(m, div, rle, dts) := reduce e in
    let e := MkTimeEncoder dts (bytes e) (enc e) in
    if rle && bool_decide (1 < length (ts e))%nat then
      first ← index (ts e) 0;
      delta ← index (ts e) 1;
      Ok (encodeRLE e first delta div (length (ts e)))
    else if MaxValue <? m then Ok (encodeRaw e)
    else encodePacked e div dts.

Definition RawBytes (e : encoder) : encoder * list Z :=
  if (length (ts e) =? 0)%nat then (e, []) else encodeRaw e.

Definition write_times (e : encoder) (l : list Z) : encoder := foldl Write e l.

(** ** Decoder *)
Record TimeDecoder := MkTimeDecoder {
  d_v : Z;
  d_i : Z;
  d_n : Z;
  d_ts : list Z;
  d_dec : Stream.Decoder;
  d_err : option string;
  d_rleDelta : Z;
  d_encoding : Z
}.

(** The zero [TimeDecoder]. *)
Definition NewTimeDecoder : TimeDecoder :=
  MkTimeDecoder 0 0 0 [] (Stream.NewDecoder []) None 0 0.

Definition fail (d : TimeDecoder) (e : string) : TimeDecoder :=
  MkTimeDecoder (d_v d) (d_i d) (d_n d) (d_ts d) (d_dec d) (Some e) (d_rleDelta d) (d_encoding d).

(** The prefix sum over [deltas[1:]], starting from [last = deltas[0]]. *)
Fixpoint sum_scaled (div last : Z) (deltas : list Z) : list Z :=
  match deltas with
  | [] => []
  | g :: r => let x := last +64 (g *64 div) in x :: sum_scaled div x r
  end.

Fixpoint sum_plain (last : Z) (deltas : list Z) : list Z :=
  match deltas with
  | [] => []
  | g :: r => let x := g +64 last in x :: sum_plain x r
  end.

Definition decodePacked (d : TimeDecoder) (b : list Z) : outcome TimeDecoder :=
  if bool_decide (length b < 9)%nat
  then Ok (fail d "TimeDecoder: not enough data to decode packed timestamps")
  else
    b0 ← index b 0;
    let div := u64 (Pow10 (Z.land b0 15)) in
    first ← Uint64 (take 8 (drop 1 b));
    '(dec, rest) ← Stream.DecodeStream (Stream.SetBytes (d_dec d) (drop 9 b));
    let deltas := if 1 <? div then first :: sum_scaled div first rest
                  else first :: sum_plain first rest in
    Ok (MkTimeDecoder (d_v d) 0 (d_n d) deltas dec (d_err d) (d_rleDelta d) (d_encoding d)).

Definition decodeRLE (d : TimeDecoder) (b : list Z) : outcome TimeDecoder :=
  if bool_decide (length b < 9)%nat
  then Ok (fail d "TimeDecoder: not enough data for initial RLE timestamp")
  else
    b0 ← index b 0;
    let scale := i64 (Pow10 (Z.land b0 15)) in
    first ← Uint64 (take 8 (drop 1 b));
    let '(value, n) := Uvarint (drop 9 b) in
    if n <=? 0 then Ok (fail d "TimeDecoder: invalid run length in decodeRLE")
    else
      let value := value *64 u64 scale in
      let '(count, n') := Uvarint (drop (9 + Z.to_nat n) b) in
      if n' <=? 0 then Ok (fail d "TimeDecoder: invalid repeat value in decodeRLE")
      else Ok (MkTimeDecoder (i64 (first -64 value)) (-1) (i64 count) (d_ts d) (d_dec d)
                 (d_err d) (i64 value) (d_encoding d)).

(** [d.ts[i] = d.ts[i-1] + delta] over the 8-byte words of [b]; a trailing
    partial word is ignored. *)
Definition decodeRaw (d : TimeDecoder) (b : list Z) : TimeDecoder :=
  let words := raw_words (length b / 8) b in
  let ts := match words with
            | [] => []
            | first :: rest => first :: sum_plain first rest
            end in
  MkTimeDecoder (d_v d) 0 (d_n d) ts (d_dec d) (d_err d) (d_rleDelta d) (d_encoding d).

Definition decode (d : TimeDecoder) (b : list Z) : outcome TimeDecoder :=
  match b with
  | [] => Ok d
  | _ :: rest =>
      if d_encoding d =? timeUncompressed then Ok (decodeRaw d rest)
      else if d_encoding d =? timeCompressedRLE then decodeRLE d b
      else if d_encoding d =? timeCompressedPackedSimple then decodePacked d b
      else Ok (fail d "unknown encoding")
  end.

(** [Init]: with an empty [b] the encoding of the previous use is kept. *)
Definition Init (d : TimeDecoder) (b : list Z) : outcome TimeDecoder :=
  let encoding := match b with [] => d_encoding d | b0 :: _ => Z.shiftr b0 4 end in
  decode (MkTimeDecoder 0 0 (d_n d) [] (d_dec d) None (d_rleDelta d) encoding) b.

Definition Next (d : TimeDecoder) : TimeDecoder * bool :=
  match d_err d with
  | Some _ => (d, false)
  | None =>
      if d_encoding d =? timeCompressedRLE then
        if d_n d <=? d_i d then (d, false)
        else
          let d' := MkTimeDecoder (i64 (d_v d + d_rleDelta d)) (d_i d + 1) (d_n d) (d_ts d)
                      (d_dec d) None (d_rleDelta d) (d_encoding d) in
          (d', d_i d' <? d_n d')
      else
        if Z.of_nat (length (d_ts d)) <=? d_i d then (d, false)
        else (MkTimeDecoder (i64 (d_ts d !!! Z.to_nat (d_i d))) (d_i d + 1) (d_n d) (d_ts d)
                (d_dec d) None (d_rleDelta d) (d_encoding d), true)
  end.

Definition Read (d : TimeDecoder) : Z := d_v d.
Definition Error (d : TimeDecoder) : option string := d_err d.

Definition CountTimestamps (b : list Z) : outcome Z :=
  match b with
  | [] => Ok 0
  | b0 :: rest =>
      let encoding := Z.shiftr b0 4 in
      if encoding =? timeUncompressed then Ok (Z.of_nat (length rest / 8))
      else if encoding =? timeCompressedRLE then
        b9 ← tail_from b 9;
        let '(_, n) := Uvarint b9 in
        let i := 9 + n in
        if i <? 0 then Panic
        else bi ← tail_from b (Z.to_nat i);
             let '(count, _) := Uvarint bi in Ok (i64 count)
      else if encoding =? timeCompressedPackedSimple then
        b9 ← tail_from b 9;
        match CountBytes b9 with
        | Ok count => Ok (count + 1)
        | Err _ => Ok 1
        | Panic => Panic
        end
      else Ok 0
  end.

(** ** Batch encoder *)

(** The differences in place, from index [i] down to 1, and their maximum. *)
Fixpoint delta_max_loop (i : nat) (deltas : list Z) (max : Z) : list Z * Z :=
  match i with
  | O => (deltas, max)
  | S i' =>
      let v := (deltas !!! i) -64 (deltas !!! i') in
      delta_max_loop i' (<[i := v]> deltas) (if max <? v then v else max)
  end.

(** [for i := 2; ...; { if deltas[1] != deltas[i] { rle = false; break } }]. *)
Definition all_equal (d1 : Z) (rest : list Z) : bool := forallb (fun d => d1 =? d) rest.

(** [for i := 1; i < len(deltas) && div > 1; i++ { shrink }]. *)
Fixpoint divisor_loop (div : Z) (rest : list Z) : Z :=
  match rest with
  | [] => div
  | v :: r => if 1 <? div then divisor_loop (shrink_divisor div v) r else div
  end.

Definition encode_rle_bytes (first d1 : Z) (n : nat) : list Z :=
  let div := shrink_divisor (10 ^ 12) d1 in
  if 1 <? div
  then Z.lor (Z.shiftl timeCompressedRLE 4) (Log10 div) :: be_encode 8 first
       ++ PutUvarint (d1 / div) ++ PutUvarint (Z.of_nat n)
  else Z.shiftl timeCompressedRLE 4 :: be_encode 8 first
       ++ PutUvarint d1 ++ PutUvarint (Z.of_nat n).

(** The part of [TimeArrayEncodeAll] after the run-length case. *)
Definition encode_words (deltas : list Z) (max : Z) (b : slice Z) : outcome (slice Z) :=
  if MaxValue <? max then
    let out := Z.shiftl timeUncompressed 4 :: words_bytes deltas in
    Ok (emit (ensure b (length out)) out)
  else
    rest ← tail_from deltas 1;
    let div := divisor_loop (10 ^ 12) rest in
    let rest := if 1 <? div then (fun v => v / div) <$> rest else rest in
    encoded ← EncodeAll rest;
    first ← index deltas 0;
    let out := Z.lor (Z.shiftl timeCompressedPackedSimple 4) (Log10 div)
               :: be_encode 8 first ++ words_bytes encoded in
    Ok (emit (ensure b (length out)) out).

Definition TimeArrayEncodeAll (src : list Z) (b : slice Z) : outcome (slice Z) :=
  match src with
  | [] => Ok nil_slice
  | _ =>
      let deltas := u64 <$> src in
      if bool_decide (1 < length deltas)%nat then
        let '(deltas, max) := delta_max_loop (length deltas - 1) deltas 0 in
        d0 ← index deltas 0;
        d1 ← index deltas 1;
        if all_equal d1 (drop 2 deltas)
        then Ok (emit (ensure b 31) (encode_rle_bytes d0 d1 (length deltas)))
        else encode_words deltas max b
      else encode_words deltas 0 b
  end.

(** ** Batch decoder *)

Definition timeBatchDecodeAllUncompressed (b : list Z) (dst : slice Z) : outcome (list Z) :=
  b ← tail_from b 1;
  if negb (Z.land (Z.of_nat (length b)) 7 =? 0)
  then Err "TimeArrayDecodeAll: expected multiple of 8 bytes"
  else Ok (i64 <$> raw_words (length b / 8) b).

Definition timeBatchDecodeAllSimple (b : list Z) (dst : slice Z) : outcome (list Z) :=
  if bool_decide (length b < 9)%nat
  then Err "TimeArrayDecodeAll: not enough data to decode packed timestamps"
  else
    b0 ← index b 0;
    let div := u64 (Pow10 (Z.land b0 15)) in
    count ← CountBytes (drop 9 b);
    let buf := sized 0 dst (Z.to_nat count + 1) in
    first ← Uint64 (take 8 (drop 1 b));
    '(rest, n) ← DecodeBytesBigEndian (drop 1 buf) (drop 9 b);
    if negb (Z.of_nat n =? count)
    then Err "TimeArrayDecodeAll: unexpected number of values decoded"
    else Ok (i64 <$> (if 1 <? div then first :: sum_scaled div first rest
                      else first :: sum_plain first rest)).

(** [dst[i] = int64(acc); acc += delta] for [count] cells. *)
Fixpoint arith_loop (count : nat) (acc delta : Z) : list Z :=
  match count with
  | O => []
  | S k => i64 acc :: arith_loop k (acc +64 delta) delta
  end.

(** A count beyond [int] is negative there, and the reslice panics. *)
Definition timeBatchDecodeAllRLE (b : list Z) (dst : slice Z) : outcome (list Z) :=
  if bool_decide (length b < 9)%nat
  then Err "TimeArrayDecodeAll: not enough data to decode RLE starting value"
  else
    b0 ← index b 0;
    let scale := i64 (Pow10 (Z.land b0 15)) in
    first ← Uint64 (drop 1 b);
    let '(delta, n) := Uvarint (drop 9 b) in
    if n <=? 0 then Err "TimeArrayDecodeAll: invalid run length in decodeRLE"
    else
      let delta := delta *64 u64 scale in
      let '(count, n') := Uvarint (drop (9 + Z.to_nat n) b) in
      if n' <=? 0 then Err "TimeDecoder: invalid repeat value in decodeRLE"
      else if i64 count <? 0 then Panic
      else Ok (arith_loop (Z.to_nat count) first delta).

Definition timeBatchDecodeAllInvalid (b : list Z) (dst : slice Z) : outcome (list Z) :=
  Err "unknown encoding".

Definition timeBatchDecoderFunc : list (list Z -> slice Z -> outcome (list Z)) :=
  [timeBatchDecodeAllUncompressed; timeBatchDecodeAllSimple;
   timeBatchDecodeAllRLE; timeBatchDecodeAllInvalid].

Definition TimeArrayDecodeAll (b : list Z) (dst : slice Z) : outcome (list Z) :=
  match b with
  | [] => Ok []
  | b0 :: _ =>
      let encoding := Z.shiftr b0 4 in
      let encoding := if timeCompressedRLE <? encoding then 3 else encoding in
      f ← index timeBatchDecoderFunc (Z.to_nat (Z.land encoding 3));
      f b dst
  end.

(** ** Specification of a decoder *)

(** [d] delivers exactly the values [l], then stops without an error. *)
Fixpoint yields (d : TimeDecoder) (l : list Z) : Prop :=
  match l with
  | [] => snd (Next d) = false /\ Error (fst (Next d)) = None
  | t :: r => snd (Next d) = true /\ Read (fst (Next d)) = t /\ yields (fst (Next d)) r
  end.

Definition encoder_ok (e : encoder) : Prop := Stream.encoder_ok (enc e).

(** Differences and sums. *)
Fixpoint diffs (prev : Z) (l : list Z) : list Z :=
  match l with
  | [] => []
  | x :: r => (x -64 prev) :: diffs x r
  end.

(** * Lemmas *)

(** ** Differences *)
Lemma length_diffs p l : length (diffs p l) = length l.
Proof. revert p. induction l; intros p; cbn; [done|]. by rewrite IHl. Qed.

Lemma diffs_u64 p l : Forall is_u64 (diffs p l).
Proof. revert p. induction l; intros p; constructor; [apply u64_range|auto]. Qed.

Lemma diffs_lookup p l i x y :
  (p :: l) !! i = Some x -> l !! i = Some y -> diffs p l !! i = Some (y -64 x).
Proof.
  revert p i. induction l as [|z r IH]; intros p i Hx Hy; [done|].
  destruct i as [|i]; cbn in *; [congruence|]. by apply IH.
Qed.

Lemma sum_plain_diffs p l : Forall is_u64 l -> sum_plain p (diffs p l) = l.
Proof.
  intros H. revert p. induction H as [|x r Hx _ IH]; intros p; [done|].
  cbn [diffs sum_plain].
  assert (u64 (u64 (x - p) + p) = x) as ->.
  { rewrite u64_add_idem_l. replace (x - p + p) with x by lia. by apply u64_small. }
  by rewrite IH.
Qed.

Lemma sum_scaled_diffs k p l :
  0 < k -> Forall is_u64 l -> Forall (Z.divide k) (diffs p l) ->
  sum_scaled k p ((fun v => v / k) <$> diffs p l) = l.
Proof.
  intros Hk H. revert p. induction H as [|x r Hx _ IH]; intros p Hd; [done|].
  cbn [diffs fmap list_fmap sum_scaled] in *. inversion Hd as [|? ? Hdx Hdr]; subst.
  rewrite (Z.mul_comm (_ / k)), <- (Z.divide_div_mul_exact _ k k), (Z.mul_comm k), Z.div_mul
    by (done || lia).
  rewrite u64_add_idem_r, u64_add_idem_r. replace (p + (x - p)) with x by lia.
  rewrite u64_small by done. by rewrite IH.
Qed.

Lemma fmap_div_1 (l : list Z) : (fun v => v / 1) <$> l = l.
Proof. induction l as [|x r IH]; [done|]. cbn. by rewrite Z.div_1_r, IH. Qed.

(** ** Powers of ten *)
Definition pow10 (div : Z) : Prop := exists k, 0 <= k <= 12 /\ div = 10 ^ k.

Lemma pow10_max : pow10 (10 ^ 12).
Proof. exists 12. split; [lia|done]. Qed.

Lemma pow10_range d : pow10 d -> 1 <= d <= 10 ^ 12.
Proof.
  intros (k & Hk & ->). split.
  - change 1 with (10 ^ 0). apply Z.pow_le_mono_r; lia.
  - apply Z.pow_le_mono_r; lia.
Qed.

Lemma shrink_spec fuel k v :
  0 <= k < Z.of_nat fuel -> exists j, 0 <= j <= k /\ shrink fuel (10 ^ k) v = 10 ^ j /\
    (10 ^ j | v).
Proof.
  revert k. induction fuel as [|fuel IH]; intros k Hk; [lia|]. cbn [shrink].
  assert (0 < 10 ^ k) by (apply Z.pow_pos_nonneg; lia).
  destruct (Z.ltb_spec 1 (10 ^ k)) as [Hgt|Hle]; cbn [andb].
  - destruct (Z.eqb_spec (v mod 10 ^ k) 0) as [E|E]; cbn [negb].
    + exists k. split; [lia|]. split; [done|]. apply Z.mod_divide; [lia|done].
    + assert (0 < k).
      { destruct (decide (k = 0)) as [->|]; [cbn in Hgt; lia|lia]. }
      replace (10 ^ k / 10) with (10 ^ (k - 1)).
      2:{ rewrite <- (Z.div_mul (10 ^ (k - 1)) 10) by lia. f_equal.
          rewrite Z.mul_comm, <- Z.pow_succ_r by lia. f_equal. lia. }
      destruct (IH (k - 1) ltac:(lia)) as (j & Hj & HE & Hd). exists j.
      split; [lia|done].
  - exists k. split; [lia|]. split; [done|]. replace (10 ^ k) with 1 by lia. apply Z.divide_1_l.
Qed.

Lemma shrink_divisor_spec d v :
  pow10 d -> pow10 (shrink_divisor d v) /\ (shrink_divisor d v | v) /\ (shrink_divisor d v | d).
Proof.
  intros (k & Hk & ->). destruct (shrink_spec 13 k v ltac:(cbn; lia)) as (j & Hj & HE & Hd).
  unfold shrink_divisor. rewrite HE. split; [exists j; split; [lia|done]|]. split; [done|].
  exists (10 ^ (k - j)). rewrite <- Z.pow_add_r by lia. f_equal. lia.
Qed.

(** The first byte of a block: the format and the exponent come back out. *)
Lemma header_spec t d :
  t = 1 \/ t = 2 -> pow10 d ->
  let b0 := Z.lor (Z.shiftl t 4) (Log10 d) in
  is_byte b0 /\ Z.shiftr b0 4 = t /\ u64 (Pow10 (Z.land b0 15)) = d /\
  i64 (Pow10 (Z.land b0 15)) = d.
Proof.
  intros Ht (k & Hk & ->).
  assert (k = 0 \/ k = 1 \/ k = 2 \/ k = 3 \/ k = 4 \/ k = 5 \/ k = 6 \/ k = 7 \/ k = 8 \/
          k = 9 \/ k = 10 \/ k = 11 \/ k = 12) as Hc by lia. clear Hk.
  destruct Ht as [-> | ->]; repeat (destruct Hc as [-> | Hc]; [by vm_compute|]);
    rewrite Hc; by vm_compute.
Qed.

(** ** The in-place loops *)

(** The array after the indices above [i] were differentiated. *)
Definition partial (us D : list Z) (i : nat) : list Z := take (S i) us ++ drop i D.

Section InPlace.
Context (a : Z) (r : list Z).
Let us := a :: r.
Let D := diffs a r.

Lemma us_length : length us = S (length r).
Proof. done. Qed.

Lemma D_length : length D = length r.
Proof. apply length_diffs. Qed.

Lemma partial_start : partial us D (length us - 1) = us.
Proof.
  unfold partial, us. cbn [length]. rewrite Nat.sub_1_r. cbn [Nat.pred].
  rewrite drop_ge by (unfold D; rewrite length_diffs; lia).
  rewrite app_nil_r. apply take_ge. cbn. lia.
Qed.

Lemma partial_end : partial us D 0 = a :: D.
Proof. unfold partial. cbn. by rewrite drop_0. Qed.

Lemma partial_length i : (i < length us)%nat -> length (partial us D i) = length us.
Proof.
  intros H. rewrite us_length in *. unfold partial.
  rewrite length_app, length_take, length_drop, D_length, us_length. lia.
Qed.

(** One round: the difference written at [S i] is [D !! i]. *)
Lemma partial_step i :
  (S i < length us)%nat ->
  exists v, D !! i = Some v /\
    (partial us D (S i) !!! S i) -64 (partial us D (S i) !!! i) = v /\
    <[S i := v]> (partial us D (S i)) = partial us D i /\
    drop i D = v :: drop (S i) D.
Proof.
  intros Hi. rewrite us_length in Hi.
  destruct (lookup_lt_is_Some_2 r i) as [y Hy]; [lia|].
  destruct (lookup_lt_is_Some_2 us i) as [x Hx]; [rewrite us_length; lia|].
  pose proof (diffs_lookup a r i x y Hx Hy) as HD. exists (y -64 x).
  assert (us !! S i = Some y) as Hy' by done.
  assert (partial us D (S i) !! S i = Some y) as E1.
  { unfold partial. rewrite lookup_app_l by (rewrite length_take, us_length; lia).
    by rewrite lookup_take_lt by lia. }
  assert (partial us D (S i) !! i = Some x) as E2.
  { unfold partial. rewrite lookup_app_l by (rewrite length_take, us_length; lia).
    by rewrite lookup_take_lt by lia. }
  apply list_lookup_total_correct in E1, E2.
  split; [done|]. split; [by rewrite E1, E2|].
  assert (drop i D = (y -64 x) :: drop (S i) D) as Ed by by apply drop_S.
  split; [|done]. unfold partial. rewrite Ed.
  rewrite (take_S_r us (S i) y) by done. rewrite <- app_assoc.
  replace (S i) with (length (take (S i) us) + 0)%nat at 1
    by (rewrite length_take, us_length; lia).
  by rewrite insert_app_r.
Qed.

(** What the loop of [reduce] knows about the processed differences. *)
Definition reduced (max div : Z) (rle : bool) (P : list Z) : Prop :=
  Forall (fun v => v <= max) P /\ pow10 div /\ Forall (Z.divide div) P /\
  (rle = true -> forall x, x ∈ P -> head P = Some x).

Lemma reduce_loop_spec i max div rle :
  (i < length us)%nat -> reduced max div rle (drop i D) ->
  exists max' div' rle', reduce_loop i (partial us D i) max div rle = (max', div', rle', a :: D) /\
    reduced max' div' rle' D.
Proof.
  revert max div rle. induction i as [|i IH]; intros max div rle Hi Hred.
  - rewrite partial_end. exists max, div, rle. rewrite drop_0 in Hred. done.
  - cbn [reduce_loop]. destruct (partial_step i Hi) as (v & HDi & Hv & Hins & Hdrop).
    rewrite Hv, Hins.
    apply IH; [lia|]. destruct Hred as (Hmax & Hp & Hdiv & Hrle).
    destruct (shrink_divisor_spec div v Hp) as (Hp' & Hdv & Hdd).
    rewrite Hdrop. split; [|split; [done|split]].
    + constructor; [destruct (Z.ltb_spec max v); lia|].
      eapply Forall_impl; [exact Hmax|]. cbn. intros z Hz. destruct (Z.ltb_spec max v); lia.
    + constructor; [done|]. eapply Forall_impl; [exact Hdiv|]. cbn. intros z Hz.
      by eapply Z.divide_trans.
    + intros Hr x [->|Hx]%elem_of_cons; [done|]. cbn.
      apply orb_true_iff in Hr as [Hlast%Nat.eqb_eq|[Hr Heq%Z.eqb_eq]%andb_true_iff].
      * exfalso. rewrite drop_ge in Hx by (rewrite D_length; rewrite partial_length, us_length in Hlast by lia; lia).
        by apply elem_of_nil in Hx.
      * specialize (Hrle Hr x Hx).
        assert (D !! S i = Some x) as HDx by by rewrite head_lookup, lookup_drop, Nat.add_0_r in Hrle.
        assert (partial us D i !! S (S i) = Some x) as E1.
        { unfold partial. rewrite lookup_app_r by (rewrite length_take, us_length; lia).
          rewrite lookup_drop, <- HDx. f_equal. rewrite length_take, us_length.
          apply lookup_lt_Some in HDx. rewrite D_length in HDx. lia. }
        assert (partial us D i !! S i = Some v) as E2.
        { rewrite <- Hins. apply list_lookup_insert_eq. rewrite partial_length; lia. }
        apply list_lookup_total_correct in E1, E2. congruence.
Qed.

Lemma delta_max_loop_spec i max :
  (i < length us)%nat -> Forall (fun v => v <= max) (drop i D) ->
  exists max', delta_max_loop i (partial us D i) max = (a :: D, max') /\
    Forall (fun v => v <= max') D /\ (max' = max \/ max' ∈ D).
Proof.
  revert max. induction i as [|i IH]; intros max Hi Hmax.
  - rewrite partial_end. exists max. rewrite drop_0 in Hmax. cbn. auto.
  - cbn [delta_max_loop]. destruct (partial_step i Hi) as (v & HDi & Hv & Hins & Hdrop).
    rewrite Hv, Hins.
    destruct (IH (if max <? v then v else max)) as (m & HE & Hm & Hor); [lia| |].
    + rewrite Hdrop. constructor; [destruct (Z.ltb_spec max v); lia|].
      eapply Forall_impl; [exact Hmax|]. cbn. intros z Hz. destruct (Z.ltb_spec max v); lia.
    + exists m. split; [done|]. split; [done|]. destruct Hor as [->|]; [|by right].
      destruct (max <? v); [right|by left]. by eapply list_elem_of_lookup_2.
Qed.
End InPlace.

(** ** The three formats *)

(** The simple8b decoder embedded in a [TimeDecoder] has a 240-cell buffer. *)
Definition decoder_ok (d : TimeDecoder) : Prop := length (Stream.d_buf (d_dec d)) = 240%nat.

(** [b] is a block whose timestamps are [l], for the streaming decoder in any
    previous state and for [CountTimestamps]. *)
Definition time_block (b : list Z) (l : list Z) : Prop :=
  b <> [] /\ bytes_ok b /\ CountTimestamps b = Ok (Z.of_nat (length l)) /\
  forall d, decoder_ok d -> exists d', Init d b = Ok d' /\ yields d' l /\ decoder_ok d'.

Lemma yields_list d l j :
  d_err d = None -> d_encoding d <> 2 -> d_ts d = u64 <$> l -> Forall is_i64 l ->
  d_i d = Z.of_nat j -> (j <= length l)%nat -> yields d (drop j l).
Proof.
  intros He Henc Hts Hl. remember (length l - j)%nat as n eqn:En.
  revert d j He Henc Hts En. induction n as [|n IH]; intros d j He Henc Hts En Hi Hj.
  - rewrite drop_ge by lia. cbn. unfold Next.
    rewrite He, (proj2 (Z.eqb_neq _ _)) by done. rewrite Hts, length_fmap.
    rewrite (proj2 (Z.leb_le _ _)) by lia. done.
  - destruct (lookup_lt_is_Some_2 l j) as [t Ht]; [lia|].
    rewrite (drop_S l t j) by done. cbn [yields]. unfold Next.
    rewrite He, (proj2 (Z.eqb_neq _ _)) by done. rewrite Hts, length_fmap.
    rewrite (proj2 (Z.leb_gt _ _)) by lia. cbn [fst snd].
    split; [done|]. unfold Read. cbn [d_v]. rewrite Hi, Nat2Z.id. split.
    + rewrite (list_lookup_total_correct _ _ (u64 t)) by (by rewrite list_lookup_fmap, Ht).
      rewrite i64_u64. apply i64_small. by eapply Forall_lookup_1.
    + apply IH; cbn; try done; lia.
Qed.

(** The values of an arithmetic progression, as the run-length decoders step
    through it. *)
Fixpoint progression (n : nat) (v delta : Z) : list Z :=
  match n with
  | O => []
  | S k => i64 v :: progression k (v + delta) delta
  end.

Lemma yields_run d n v :
  d_err d = None -> d_encoding d = 2 -> d_n d = d_i d + 1 + Z.of_nat n ->
  i64 (d_v d + d_rleDelta d) = i64 v ->
  yields d (progression n v (d_rleDelta d)).
Proof.
  revert d v. induction n as [|n IH]; intros d v He Henc Hn Hv.
  - cbn. unfold Next. rewrite He, Henc. cbn [Z.eqb timeCompressedRLE Pos.eqb].
    destruct (Z.leb_spec (d_n d) (d_i d)); [done|]. cbn [d_n d_i fst snd Error d_err].
    rewrite (proj2 (Z.ltb_ge _ _)) by lia. done.
  - cbn [progression yields]. unfold Next. rewrite He, Henc.
    cbn [Z.eqb timeCompressedRLE Pos.eqb].
    rewrite (proj2 (Z.leb_gt _ _)) by lia. cbn [d_n d_i fst snd].
    rewrite (proj2 (Z.ltb_lt _ _)) by lia. split; [done|]. split; [done|].
    apply (IH (MkTimeDecoder _ _ _ _ _ _ _ _) (v + d_rleDelta d)); cbn; try done; [lia|].
    by rewrite i64_add_idem_l, <- (i64_add_idem_l (d_v d + _)), Hv, i64_add_idem_l.
Qed.

Lemma yields_nonempty_run d n v :
  (0 < n)%nat -> d_err d = None -> d_encoding d = 2 -> d_i d = -1 -> d_n d = Z.of_nat n ->
  i64 (d_v d + d_rleDelta d) = i64 v -> yields d (progression n v (d_rleDelta d)).
Proof. intros. apply yields_run; try done. lia. Qed.

Lemma arith_progression n v delta :
  arith_loop n (u64 v) delta = progression n v delta.
Proof.
  revert v. induction n as [|n IH]; intros v; [done|]. cbn.
  by rewrite i64_u64, u64_add_idem_l, IH.
Qed.

Lemma progression_ext n v delta delta' :
  u64 delta = u64 delta' -> progression n v delta = progression n v delta'.
Proof.
  intros Hd. assert (forall w, i64 w = i64 v -> progression n w delta = progression n v delta') as H;
    [|by apply H].
  revert v. induction n as [|n IH]; intros v w Hw; [done|]. cbn. rewrite Hw. f_equal.
  apply IH. rewrite <- (i64_u64 (w + _)), <- (i64_u64 (v + _)).
  rewrite <- (u64_add_idem_r w), <- (u64_add_idem_r v), Hd, <- u64_add_idem_l, <- (u64_add_idem_l v).
  by rewrite <- (u64_i64 w), Hw, u64_i64.
Qed.

(** Equal differences make an arithmetic progression. *)
Lemma diffs_progression delta l :
  Forall is_i64 l ->
  match l with
  | [] => True
  | t :: r => (forall x, x ∈ diffs (u64 t) (u64 <$> r) -> x = delta) ->
      l = progression (length l) (u64 t) delta
  end.
Proof.
  destruct l as [|t r]; [done|]. revert t.
  induction r as [|t' r IH]; intros t Hl Hd; inversion Hl as [|? ? Ht Hr]; subst.
  - cbn. by rewrite i64_u64, i64_small.
  - change (length (t :: t' :: r)) with (S (length (t' :: r))). cbn [progression].
    rewrite i64_u64, i64_small by done. f_equal.
    cbn [diffs fmap list_fmap] in Hd.
    assert (u64 t' -64 u64 t = delta) as E by (apply Hd; left).
    rewrite (IH t') at 1; [|done|intros x Hx; apply Hd; by right].
    assert (forall n w v, u64 w = u64 v -> progression n w delta = progression n v delta) as Hext.
    { clear. induction n as [|n IH]; intros w v E; [done|]. cbn.
      rewrite <- (i64_u64 w), E, i64_u64. f_equal. apply IH.
      by rewrite <- u64_add_idem_l, E, u64_add_idem_l. }
    apply Hext. rewrite <- E, u64_add_idem_r. f_equal. lia.
Qed.

Lemma rle_value div delta :
  pow10 div -> (div | delta) -> is_u64 delta -> u64 (delta / div * div) = delta.
Proof.
  intros Hp Hd Hu. pose proof (pow10_range div Hp).
  rewrite Z.mul_comm, <- Z.divide_div_mul_exact, Z.mul_comm, Z.div_mul by (done || lia).
  by apply u64_small.
Qed.

Lemma rle_quotient div delta : pow10 div -> is_u64 delta -> is_u64 (delta / div).
Proof.
  intros Hp Hu. pose proof (pow10_range div Hp). unfold is_u64 in *.
  split; [apply Z.div_pos; lia|]. apply Z.div_lt_upper_bound; nia.
Qed.

Section Formats.
Context (t : Z) (l' : list Z).
Let l := t :: l'.
Let a := u64 t.
Let D := diffs (u64 t) (u64 <$> l').
Hypothesis Hl : Forall is_i64 l.

Lemma us_u64 : Forall is_u64 (u64 <$> l').
Proof. apply Forall_fmap, Forall_true. intros x. apply u64_range. Qed.

Lemma aD_u64 : Forall is_u64 (a :: D).
Proof. constructor; [apply u64_range|apply diffs_u64]. Qed.

Lemma length_aD : length (a :: D) = length l.
Proof. cbn. unfold D. by rewrite length_diffs, length_fmap. Qed.

Lemma init_yields ts v n dec rle e :
  ts = u64 <$> l -> e <> 2 -> yields (MkTimeDecoder v 0 n ts dec None rle e) l.
Proof.
  intros -> He. rewrite <- (drop_0 l). apply (yields_list _ l 0); cbn; try done. lia.
Qed.

Lemma raw_format : time_block (Z.shiftl timeUncompressed 4 :: words_bytes (a :: D)) l.
Proof.
  split; [done|]. split; [constructor; [by vm_compute|apply words_bytes_ok]|]. split.
  - unfold CountTimestamps. cbn [Z.shiftl Z.shiftr timeUncompressed Z.eqb].
    change (Z.shiftr (Z.shiftl 0 4) 4 =? 0) with true. cbn [andb].
    by rewrite length_words_bytes_div, length_aD.
  - intros d Hd. eexists. split; [reflexivity|]. split; [|done].
    apply init_yields; [|done].
    rewrite length_words_bytes_div, raw_words_bytes by apply aD_u64.
    unfold D. by rewrite sum_plain_diffs by apply us_u64.
Qed.

Lemma packed_format div ws :
  pow10 div -> Forall (Z.divide div) D -> Forall is_u64 ws ->
  words_values ws = (fun v => v / div) <$> D ->
  time_block (Z.lor (Z.shiftl timeCompressedPackedSimple 4) (Log10 div)
              :: be_encode 8 a ++ words_bytes ws) l.
Proof.
  intros Hp Hdiv Hws Hv.
  destruct (header_spec timeCompressedPackedSimple div (or_introl eq_refl) Hp)
    as (Hb & Hsh & Hdu & _).
  set (hd := Z.lor _ _) in *. pose proof (pow10_range div Hp) as Hdr.
  assert (drop 1 (hd :: be_encode 8 a ++ words_bytes ws) = be_encode 8 a ++ words_bytes ws)
    as Ed1 by done.
  assert (drop 9 (hd :: be_encode 8 a ++ words_bytes ws) = words_bytes ws) as Ed9.
  { change 9%nat with (1 + 8)%nat. rewrite <- drop_drop, Ed1.
    by rewrite drop_app_length' by (by rewrite length_be_encode). }
  assert (length (words_values ws) = length l') as Hlen
    by (rewrite Hv, length_fmap; unfold D; by rewrite length_diffs, length_fmap).
  split; [done|]. split.
  { constructor; [done|]. apply bytes_ok_app. split; [apply be_encode_ok|apply words_bytes_ok]. }
  split.
  - unfold CountTimestamps. rewrite Hsh. cbn [Z.eqb timeCompressedPackedSimple timeUncompressed timeCompressedRLE Pos.eqb].
    rewrite tail_from_Ok by (cbn [length]; rewrite length_app, length_be_encode; lia).
    rewrite Ed9. cbn [mbind outcome_bind].
    rewrite CountBytes_spec by done. rewrite Hlen. cbn [length l]. f_equal. unfold l. cbn [length]. lia.
  - intros d Hd. unfold Init. cbn [decode]. rewrite Hsh. unfold decode. cbn [d_encoding].
    cbn [Z.eqb timeCompressedPackedSimple timeUncompressed timeCompressedRLE Pos.eqb].
    unfold decodePacked.
    rewrite bool_decide_false by (cbn [length]; rewrite length_app, length_be_encode; lia).
    rewrite (index_lookup _ 0 hd) by done. cbn [mbind outcome_bind]. rewrite Hdu.
    rewrite Ed1, Ed9. rewrite take_app_length' by (by rewrite length_be_encode).
    rewrite Uint64_encode_nil by apply u64_range. cbn [mbind outcome_bind].
    rewrite <- (app_nil_r (words_bytes ws)).
    destruct (Stream.DecodeStream_words (d_dec d) ws [] Hd ltac:(cbn; lia) Hws)
      as (dec & HD & Hdec).
    cbn [d_dec]. rewrite HD. cbn [mbind outcome_bind]. eexists. split; [reflexivity|].
    split; [|done]. cbn [d_v d_n d_err d_rleDelta d_encoding]. 
    apply init_yields; [|done].
    rewrite Hv. unfold l. cbn [fmap list_fmap].
    destruct (Z.ltb_spec 1 div) as [Hgt|Hle].
    + unfold D. by rewrite sum_scaled_diffs by (done || lia || apply us_u64).
    + replace div with 1 by lia. rewrite fmap_div_1. unfold D.
      by rewrite sum_plain_diffs by apply us_u64.
Qed.

Lemma rle_format div delta :
  pow10 div -> (div | delta) -> is_u64 delta -> (forall x, x ∈ D -> x = delta) ->
  Z.of_nat (length l) < 2 ^ 63 ->
  time_block (Z.lor (Z.shiftl timeCompressedRLE 4) (Log10 div) :: be_encode 8 a
              ++ PutUvarint (delta / div) ++ PutUvarint (Z.of_nat (length l))) l.
Proof.
  intros Hp Hdvd Hu HD Hlen.
  destruct (header_spec timeCompressedRLE div (or_intror eq_refl) Hp) as (Hb & Hsh & Hdu & Hdi).
  set (hd := Z.lor _ _) in *. pose proof (pow10_range div Hp) as Hdr.
  pose proof (rle_quotient div delta Hp Hu) as Hq.
  set (n := Z.of_nat (length l)) in *.
  assert (is_u64 n) as Hn by (unfold is_u64, n in *; lia).
  pose proof (PutUvarint_length (delta / div)) as Hl1.
  pose proof (PutUvarint_length n) as Hl2.
  assert (drop 9 (hd :: be_encode 8 a ++ PutUvarint (delta / div) ++ PutUvarint n) =
          PutUvarint (delta / div) ++ PutUvarint n) as Ed9.
  { cbn [drop]. rewrite drop_app_length' by (by rewrite length_be_encode). done. }
  assert (drop (9 + length (PutUvarint (delta / div)))
            (hd :: be_encode 8 a ++ PutUvarint (delta / div) ++ PutUvarint n) = PutUvarint n) as Ed.
  { rewrite <- drop_drop, Ed9. by rewrite drop_app_length. }
  assert (i64 n = n) as Hin by (apply i64_small; unfold is_i64; lia).
  split; [done|]. split.
  { constructor; [done|]. rewrite !bytes_ok_app.
    split; [apply be_encode_ok|]. split; apply PutUvarint_ok. }
  split.
  - unfold CountTimestamps. rewrite Hsh.
    cbn [Z.eqb timeUncompressed timeCompressedRLE Pos.eqb].
    rewrite tail_from_Ok by (cbn [length]; rewrite !length_app, length_be_encode; lia).
    rewrite Ed9. cbn [mbind outcome_bind]. rewrite Uvarint_PutUvarint by done.
    rewrite (proj2 (Z.ltb_ge _ _)) by lia.
    replace (Z.to_nat (9 + Z.of_nat (length (PutUvarint (delta / div)))))
      with (9 + length (PutUvarint (delta / div)))%nat by lia.
    rewrite tail_from_Ok by (cbn [length]; rewrite !length_app, length_be_encode; lia).
    rewrite Ed. cbn [mbind outcome_bind]. rewrite Uvarint_PutUvarint_nil by done.
    by rewrite Hin.
  - intros d Hd. unfold Init, decode. rewrite Hsh. cbn [d_encoding].
    cbn [Z.eqb timeUncompressed timeCompressedRLE Pos.eqb]. unfold decodeRLE.
    rewrite bool_decide_false by (cbn [length]; rewrite !length_app, length_be_encode; lia).
    rewrite (index_lookup _ 0 hd) by done. cbn [mbind outcome_bind]. rewrite Hdi.
    replace (take 8 (drop 1 (hd :: be_encode 8 a ++ PutUvarint (delta / div) ++ PutUvarint n)))
      with (be_encode 8 a)
      by (change (drop 1 (hd :: ?x)) with x; by rewrite take_app_length' by (by rewrite length_be_encode)).
    rewrite Uint64_encode_nil by apply u64_range. cbn [mbind outcome_bind].
    rewrite Ed9, Uvarint_PutUvarint by done.
    rewrite (proj2 (Z.leb_gt _ 0)) by lia.
    rewrite Nat2Z.id, Ed, Uvarint_PutUvarint_nil by done.
    rewrite (proj2 (Z.leb_gt _ 0)) by lia.
    eexists. split; [reflexivity|]. split; [|done].
    rewrite Hin, (u64_small div) by (unfold is_u64; lia).
    rewrite (rle_value div delta) by done.
    pose proof (diffs_progression delta l Hl HD) as ->.
    rewrite (progression_ext _ _ delta (i64 delta)) by (by rewrite u64_i64).
    apply (yields_nonempty_run (MkTimeDecoder _ _ _ _ _ _ (i64 delta) _)); cbn; try done; try lia.
    rewrite i64_add_idem_r, i64_add_idem_l.
    rewrite <- (i64_u64 (u64 _ + _)), u64_add_idem_l.
    rewrite i64_u64. f_equal. unfold a. lia.
Qed.
End Formats.

(** ** What the encoders produce *)

(** The three shapes of a block for the timestamps [t :: l']. *)
Inductive time_format (t : Z) (l' : list Z) : list Z -> Prop :=
| fmt_raw :
    ~ Forall in_range (diffs (u64 t) (u64 <$> l')) ->
    time_format t l'
      (Z.shiftl timeUncompressed 4 :: words_bytes (u64 t :: diffs (u64 t) (u64 <$> l')))
| fmt_packed div ws :
    Forall in_range (diffs (u64 t) (u64 <$> l')) ->
    pow10 div -> Forall (Z.divide div) (diffs (u64 t) (u64 <$> l')) -> Forall is_u64 ws ->
    words_values ws = (fun v => v / div) <$> diffs (u64 t) (u64 <$> l') ->
    time_format t l'
      (Z.lor (Z.shiftl timeCompressedPackedSimple 4) (Log10 div)
       :: be_encode 8 (u64 t) ++ words_bytes ws)
| fmt_rle div delta :
    pow10 div -> (div | delta) -> is_u64 delta ->
    (forall x, x ∈ diffs (u64 t) (u64 <$> l') -> x = delta) ->
    time_format t l'
      (Z.lor (Z.shiftl timeCompressedRLE 4) (Log10 div) :: be_encode 8 (u64 t)
       ++ PutUvarint (delta / div) ++ PutUvarint (Z.of_nat (length (t :: l')))).

Lemma time_format_block t l' b :
  Forall is_i64 (t :: l') -> Z.of_nat (length (t :: l')) < 2 ^ 63 ->
  time_format t l' b -> time_block b (t :: l').
Proof.
  intros Hl Hlen []; [by apply raw_format|by apply packed_format|by apply rle_format].
Qed.

Lemma in_range_div div D :
  pow10 div -> Forall is_u64 D -> Forall in_range D ->
  Forall is_u64 ((fun v => v / div) <$> D) /\ Forall in_range ((fun v => v / div) <$> D).
Proof.
  intros Hp HD HR. pose proof (pow10_range div Hp) as Hd.
  rewrite !Forall_fmap. split.
  - eapply Forall_impl; [exact HD|]. intros v Hv. by apply rle_quotient.
  - apply Forall_forall. intros v Hv. rewrite Forall_forall in HD, HR.
    specialize (HD v Hv). specialize (HR v Hv). unfold in_range, is_u64 in *. cbn.
    apply Z.div_le_upper_bound; nia.
Qed.

Lemma not_in_range_max m D :
  Forall (fun v => v <= m) D -> m <= MaxValue -> Forall in_range D.
Proof. intros H Hm. eapply Forall_impl; [exact H|]. unfold in_range. cbn. lia. Qed.

Lemma reduced_start a r :
  reduced 0 (10 ^ 12) true (drop (length (a :: r) - 1) (diffs a r)).
Proof.
  rewrite drop_ge by (rewrite length_diffs; cbn; lia).
  split; [constructor|]. split; [apply pow10_max|]. split; [constructor|].
  intros _ x Hx. by apply elem_of_nil in Hx.
Qed.

(** The maximum [reduce] returns is 0 or one of the differences. *)
Lemma reduce_loop_max a r i max div rle m dv rl ds :
  (i < length (a :: r))%nat ->
  reduce_loop i (partial (a :: r) (diffs a r) i) max div rle = (m, dv, rl, ds) ->
  m = max \/ m ∈ diffs a r.
Proof.
  revert max div rle. induction i as [|i IH]; intros max div rle Hi.
  - cbn. intros [= <- _ _ _]. by left.
  - cbn [reduce_loop]. destruct (partial_step a r i Hi) as (v & HDi & Hv & Hins & _).
    rewrite Hv, Hins. intros [->|Hm]%IH; [|by right|lia].
    destruct (max <? v); [right|by left]. by eapply list_elem_of_lookup_2.
Qed.

Lemma reduce_spec e a r :
  ts e = a :: r ->
  exists m div rle, reduce e = (m, div, rle, a :: diffs a r) /\
    reduced m div rle (diffs a r) /\ (m = 0 \/ m ∈ diffs a r).
Proof.
  intros Hts. unfold reduce. rewrite Hts.
  destruct (reduce_loop_spec a r (length (a :: r) - 1) 0 (10 ^ 12) true
    ltac:(cbn; lia) (reduced_start a r)) as (m & div & rle & HE & Hred).
  pose proof (reduce_loop_max a r (length (a :: r) - 1) _ _ _ _ _ _ _ ltac:(cbn; lia) HE) as Hm.
  rewrite partial_start in HE. rewrite HE. by exists m, div, rle.
Qed.

Lemma encodePacked_format e div t l' :
  pow10 div -> Forall (Z.divide div) (diffs (u64 t) (u64 <$> l')) ->
  Forall in_range (diffs (u64 t) (u64 <$> l')) ->
  Stream.encoder_inv (enc e) [] -> Stream.e_t (enc e) = 0%nat ->
  exists e' b, encodePacked e div (u64 t :: diffs (u64 t) (u64 <$> l')) = Ok (e', b) /\
    encoder_ok e' /\ time_format t l' b.
Proof.
  intros Hp Hdiv HR Hinv Ht. set (D := diffs (u64 t) (u64 <$> l')) in *.
  assert (Forall is_u64 D) as Hu by apply diffs_u64.
  destruct (in_range_div div D Hp Hu HR) as [Hqu Hqr].
  pose proof (pow10_range div Hp) as Hdr.
  assert ((if 1 <? div then Stream.write_all (enc e) ((fun v => v / div) <$> D)
           else Stream.write_all (enc e) D) =
          Stream.write_all (enc e) ((fun v => v / div) <$> D)) as Eif.
  { destruct (Z.ltb_spec 1 div); [done|]. replace div with 1 by lia. by rewrite fmap_div_1. }
  destruct (Stream.write_all_spec _ _ _ Hinv Hqu Hqr) as (s1 & ws1 & Hw & Hinv1 & Hlog).
  destruct (Stream.Bytes_spec s1 ws1 Hinv1) as (s2 & ws2 & HB & Hinv2 & Hws2 & Hv2).
  unfold encodePacked. rewrite tail_from_Ok by (cbn; lia).
  cbn [drop mbind outcome_bind]. change (drop 0 D) with D. rewrite Eif, Hw.
  cbn [mbind outcome_bind]. rewrite HB. cbn [mbind outcome_bind index lookup list_lookup].
  do 2 eexists. split; [reflexivity|]. split; [by exists ws2|].
  apply fmt_packed; try done. rewrite Hv2, Hlog.
  unfold Stream.encoder_log, Stream.pending. by rewrite Ht, take_0, drop_nil.
Qed.

Lemma time_Bytes_format e t l' :
  ts e = u64 <$> (t :: l') -> Stream.encoder_inv (enc e) [] -> Stream.e_t (enc e) = 0%nat ->
  exists e' b, Bytes e = Ok (e', b) /\ encoder_ok e' /\ time_format t l' b.
Proof.
  intros Hts Hinv Ht. cbn [fmap list_fmap] in Hts.
  destruct (reduce_spec e _ _ Hts) as (m & div & rle & HE & (Hmax & Hp & Hdiv & Hrle) & Hm).
  pose proof (diffs_u64 (u64 t) (u64 <$> l')) as Hu.
  unfold Bytes. rewrite Hts. cbn [length Nat.eqb]. rewrite HE. cbn [ts].
  set (D := diffs (u64 t) (u64 <$> l')) in *.
  assert (length D = length l') as HlD by (unfold D; by rewrite length_diffs, length_fmap).
  destruct (rle && bool_decide (1 < length (u64 t :: D))%nat) eqn:Erle.
  - apply andb_true_iff in Erle as [-> Hlen%bool_decide_eq_true].
    destruct D as [|delta D'] eqn:ED; [cbn in Hlen; lia|].
    cbn [index lookup list_lookup mbind outcome_bind].
    do 2 eexists. split; [reflexivity|]. split; [by exists []|].
    replace (length (u64 t :: delta :: D')) with (length (t :: l')) by (cbn in *; lia).
    inversion Hdiv; inversion Hu; subst. apply fmt_rle; try done.
    intros x Hx. fold D in Hx. rewrite ED in Hx.
    specialize (Hrle eq_refl x Hx). cbn in Hrle. congruence.
  - destruct (Z.ltb_spec MaxValue m) as [Hbig|Hsmall].
    + do 2 eexists. split; [reflexivity|]. split; [by exists []|].
      apply fmt_raw. intros HR. destruct Hm as [->|Hm]; [by vm_compute in Hbig|].
      rewrite Forall_forall in HR. specialize (HR m Hm). unfold in_range in HR. lia.
    + apply encodePacked_format; try done. by eapply not_in_range_max.
Qed.

Lemma write_times_spec e l :
  write_times e l = MkTimeEncoder (ts e ++ (u64 <$> l)) (bytes e) (enc e).
Proof.
  unfold write_times. revert e. induction l as [|t l IH]; intros e; cbn [foldl].
  - rewrite fmap_nil, app_nil_r. by destruct e.
  - rewrite IH. cbn. by rewrite <- app_assoc.
Qed.

Lemma Reset_inv e :
  encoder_ok e ->
  exists e0, Reset e = Ok e0 /\ ts e0 = [] /\ Stream.encoder_inv (enc e0) [] /\
    Stream.e_t (enc e0) = 0%nat.
Proof.
  intros He. destruct (Stream.Reset_spec (enc e) He) as (s & Hs & Hinv & Ht & _).
  unfold Reset, reslice. rewrite decide_True by lia. cbn [mbind outcome_bind].
  rewrite Hs. cbn [mbind outcome_bind]. eexists. split; [reflexivity|]. done.
Qed.

(** A reset encoder, fed [l], produces a block for [l] and stays usable. *)
Lemma time_format_length t l' b :
  time_format t l' b -> (length b <= 30 + 8 * length (t :: l'))%nat.
Proof.
  destruct 1 as [_|div ws HR _ _ Hws Hv|div delta _ _ _ _]; cbn [length];
    rewrite ?length_words_bytes, ?length_app, ?length_be_encode, ?length_words_bytes; cbn [length].
  - rewrite length_diffs, length_fmap. lia.
  - pose proof (words_values_length ws Hws) as Hl.
    rewrite Hv, length_fmap, length_diffs, length_fmap in Hl. lia.
  - pose proof (PutUvarint_length (delta / div)).
    pose proof (PutUvarint_length (Z.of_nat (S (length l')))). lia.
Qed.

Lemma encode_times e l :
  encoder_ok e -> l <> [] -> Forall is_i64 l -> Z.of_nat (length l) < 2 ^ 63 ->
  exists e0 e1 b, Reset e = Ok e0 /\ Bytes (write_times e0 l) = Ok (e1, b) /\
    encoder_ok e1 /\ (length b <= 30 + 8 * length l)%nat /\ time_block b l.
Proof.
  intros He Hne Hl Hlen. destruct (Reset_inv e He) as (e0 & -> & Hts & Hinv & Ht).
  destruct l as [|t l']; [done|].
  destruct (time_Bytes_format (write_times e0 (t :: l')) t l') as (e1 & b & HB & He1 & Hf).
  - rewrite write_times_spec. cbn [ts]. by rewrite Hts.
  - by rewrite write_times_spec.
  - by rewrite write_times_spec.
  - exists e0, e1, b. split; [done|]. split; [done|]. split; [done|].
    split; [by eapply time_format_length|by apply time_format_block].
Qed.

(** ** The batch encoder produces the same shapes *)
Lemma all_equal_spec d1 l : all_equal d1 l = true -> forall x, x ∈ d1 :: l -> x = d1.
Proof.
  intros H x [->|Hx]%elem_of_cons; [done|]. unfold all_equal in H.
  rewrite forallb_forall in H. specialize (H x). apply list_elem_of_In in Hx.
  specialize (H Hx). by apply Z.eqb_eq in H.
Qed.

Lemma all_equal_complete d1 l : (forall x, x ∈ d1 :: l -> x = d1) -> all_equal d1 l = true.
Proof.
  intros H. unfold all_equal. apply forallb_forall. intros x Hx%list_elem_of_In.
  rewrite (H x) by (by right). apply Z.eqb_refl.
Qed.

Lemma divisor_loop_spec div D :
  pow10 div -> pow10 (divisor_loop div D) /\ Forall (Z.divide (divisor_loop div D)) D /\
  (divisor_loop div D | div).
Proof.
  revert div. induction D as [|v D IH]; intros div Hp; cbn [divisor_loop].
  - split; [done|]. split; [constructor|apply Z.divide_refl].
  - destruct (Z.ltb_spec 1 div) as [Hgt|Hle].
    + destruct (shrink_divisor_spec div v Hp) as (Hp' & Hv & Hd).
      destruct (IH _ Hp') as (H1 & H2 & H3). split; [done|]. split.
      * constructor; [by eapply Z.divide_trans|done].
      * by eapply Z.divide_trans.
    + pose proof (pow10_range div Hp). replace div with 1 in * by lia.
      split; [done|]. split; [|apply Z.divide_refl].
      apply Forall_forall. intros x _. apply Z.divide_1_l.
Qed.

Lemma encode_words_format t l' max b :
  let D := diffs (u64 t) (u64 <$> l') in
  Forall (fun v => v <= max) D -> max = 0 \/ max ∈ D ->
  exists s, encode_words (u64 t :: D) max b = Ok s /\ time_format t l' (contents s).
Proof.
  intros D Hmax Hm. unfold encode_words.
  destruct (Z.ltb_spec MaxValue max) as [Hbig|Hsmall].
  - eexists. split; [reflexivity|]. rewrite contents_emit. apply fmt_raw. intros HR.
    destruct Hm as [->|Hm]; [by vm_compute in Hbig|].
    rewrite Forall_forall in HR. specialize (HR max Hm). unfold in_range in HR. lia.
  - rewrite tail_from_Ok by (cbn; lia). cbn [mbind outcome_bind].
    change (drop 1 (u64 t :: D)) with D.
    destruct (divisor_loop_spec (10 ^ 12) D pow10_max) as (Hp & Hdiv & _).
    set (div := divisor_loop (10 ^ 12) D) in *. pose proof (pow10_range div Hp).
    pose proof (not_in_range_max _ _ Hmax Hsmall) as HR.
    destruct (in_range_div div D Hp (diffs_u64 _ _) HR) as [Hqu Hqr].
    assert ((if 1 <? div then (fun v => v / div) <$> D else D) = (fun v => v / div) <$> D) as ->.
    { destruct (Z.ltb_spec 1 div); [done|]. replace div with 1 by lia. by rewrite fmap_div_1. }
    destruct (EncodeAll_Ok _ Hqu Hqr) as (ws & -> & Hws & Hv).
    cbn [mbind outcome_bind index lookup list_lookup]. eexists. split; [reflexivity|].
    rewrite contents_emit. by apply fmt_packed.
Qed.

Lemma encode_rle_bytes_eq first d1 n :
  encode_rle_bytes first d1 n =
  Z.lor (Z.shiftl timeCompressedRLE 4) (Log10 (shrink_divisor (10 ^ 12) d1))
    :: be_encode 8 first ++ PutUvarint (d1 / shrink_divisor (10 ^ 12) d1) ++ PutUvarint (Z.of_nat n).
Proof.
  unfold encode_rle_bytes.
  destruct (shrink_divisor_spec (10 ^ 12) d1 pow10_max) as (Hp & _).
  pose proof (pow10_range _ Hp).
  destruct (Z.ltb_spec 1 (shrink_divisor (10 ^ 12) d1)); [done|].
  replace (shrink_divisor (10 ^ 12) d1) with 1 by lia. by rewrite Z.div_1_r.
Qed.

Lemma TimeArrayEncodeAll_format t l' b :
  exists s, TimeArrayEncodeAll (t :: l') b = Ok s /\ time_format t l' (contents s) /\
    ((forall x y, x ∈ diffs (u64 t) (u64 <$> l') -> y ∈ diffs (u64 t) (u64 <$> l') -> x = y) ->
     Z.shiftr (contents s !!! 0%nat) 4 <> timeUncompressed).
Proof.
  unfold TimeArrayEncodeAll. cbn [fmap list_fmap].
  set (r := u64 <$> l'). set (a := u64 t).
  case_bool_decide as Hlen.
  - destruct (delta_max_loop_spec a r (length (a :: r) - 1) 0) as (max & HE & Hmax & Hor).
    { cbn. lia. }
    { rewrite drop_ge by (rewrite length_diffs; cbn; lia). constructor. }
    rewrite partial_start in HE. rewrite HE.
    destruct (diffs a r) as [|d1 D'] eqn:ED.
    { apply (f_equal length) in ED. rewrite length_diffs in ED. cbn in *. lia. }
    cbn [index lookup list_lookup mbind outcome_bind drop].
    change (drop 0 D') with D'.
    destruct (all_equal d1 D') eqn:Eall.
    + eexists. split; [reflexivity|]. rewrite contents_emit, encode_rle_bytes_eq.
      destruct (shrink_divisor_spec (10 ^ 12) d1 pow10_max) as (Hp & Hdv & _).
      pose proof (diffs_u64 a r) as Hu. rewrite ED in Hu. inversion Hu; subst.
      replace (length (a :: d1 :: D')) with (length (t :: l')).
      2:{ rewrite <- ED. cbn. unfold r. by rewrite length_diffs, length_fmap. }
      split.
      * apply fmt_rle; try done. fold a r. rewrite ED. by apply all_equal_spec.
      * intros _. cbn.
        destruct (header_spec timeCompressedRLE _ (or_intror eq_refl) Hp) as (_ & Hsh & _).
        cbn in Hsh. by rewrite Hsh.
    + rewrite <- ED in *. destruct (encode_words_format t l' max b Hmax Hor) as (s & Hs & Hf).
      exists s. split; [done|]. split; [done|]. intros Hsame. exfalso.
      rewrite all_equal_complete in Eall; [done|]. intros x Hx.
      rewrite ED in Hsame. apply Hsame; [done|left].
  - assert (l' = []) as -> by (destruct l'; [done|cbn in Hlen; lia]).
    destruct (encode_words_format t [] 0 b) as (s & Hs & Hf); [constructor|by left|].
    exists s. split; [done|]. split; [done|]. intros _ E0.
    inversion Hf as [Hn|? ? HR0 Hp|? ? Hp]; [by apply Hn|..];
      match goal with H : _ = contents s |- _ => rewrite <- H in E0 end; cbn in E0.
    + destruct (header_spec timeCompressedPackedSimple _ (or_introl eq_refl) Hp) as (_ & Hsh & _).
      cbn in Hsh. by rewrite Hsh in E0.
    + destruct (header_spec timeCompressedRLE _ (or_intror eq_refl) Hp) as (_ & Hsh & _).
      cbn in Hsh. by rewrite Hsh in E0.
Qed.

(** ** Batch decoding *)
Lemma i64_fmap_u64 l : Forall is_i64 l -> i64 <$> (u64 <$> l) = l.
Proof.
  induction 1 as [|t l Ht _ IH]; [done|]. cbn. by rewrite i64_u64, i64_small, IH.
Qed.

Section BatchFormats.
Context (t : Z) (l' : list Z).
Let l := t :: l'.
Let D := diffs (u64 t) (u64 <$> l').
Hypothesis Hl : Forall is_i64 l.

(** The raw format stores differences, and the batch decoder returns them. *)
Lemma batch_raw dst :
  TimeArrayDecodeAll (Z.shiftl timeUncompressed 4 :: words_bytes (u64 t :: D)) dst =
    Ok (i64 <$> u64 t :: D).
Proof.
  unfold TimeArrayDecodeAll.
  change (Z.shiftr (Z.shiftl timeUncompressed 4) 4) with 0.
  cbn [Z.ltb Z.compare timeCompressedRLE].
  change (index timeBatchDecoderFunc (Z.to_nat (Z.land 0 3)))
    with (Ok timeBatchDecodeAllUncompressed).
  cbn [mbind outcome_bind]. unfold timeBatchDecodeAllUncompressed.
  rewrite tail_from_Ok by (cbn; lia). cbn [mbind outcome_bind].
  change (drop 1 (?x :: ?y)) with y.
  rewrite length_words_bytes_div, raw_words_bytes by apply aD_u64.
  rewrite length_words_bytes.
  replace (Z.land _ 7) with 0; [done|].
  change 7 with (Z.ones 3). rewrite Z.land_ones by lia.
  rewrite Nat2Z.inj_mul, Z.mul_comm. symmetry. by apply Z_mod_mult.
Qed.

Lemma batch_dispatch hd rest dst e f :
  Z.shiftr hd 4 = e -> 0 <= e <= 2 -> timeBatchDecoderFunc !! Z.to_nat e = Some f ->
  TimeArrayDecodeAll (hd :: rest) dst = f (hd :: rest) dst.
Proof.
  intros He Hr Hf. unfold TimeArrayDecodeAll. rewrite He.
  unfold timeCompressedRLE. rewrite (proj2 (Z.ltb_ge 2 e)) by lia.
  change 3 with (Z.ones 2). rewrite Z.land_ones, Z.mod_small by lia.
  by rewrite (index_lookup _ _ f).
Qed.

Lemma batch_packed div ws dst :
  pow10 div -> Forall (Z.divide div) D -> Forall is_u64 ws ->
  words_values ws = (fun v => v / div) <$> D ->
  TimeArrayDecodeAll (Z.lor (Z.shiftl timeCompressedPackedSimple 4) (Log10 div)
              :: be_encode 8 (u64 t) ++ words_bytes ws) dst = Ok l.
Proof.
  intros Hp Hdiv Hws Hv.
  destruct (header_spec timeCompressedPackedSimple div (or_introl eq_refl) Hp)
    as (Hb & Hsh & Hdu & _).
  pose proof (pow10_range div Hp) as Hdr.
  rewrite (batch_dispatch _ _ dst 1 timeBatchDecodeAllSimple) by (done || lia).
  set (hd := Z.lor _ _) in *.
  assert (drop 1 (hd :: be_encode 8 (u64 t) ++ words_bytes ws) =
          be_encode 8 (u64 t) ++ words_bytes ws) as Ed1 by done.
  assert (drop 9 (hd :: be_encode 8 (u64 t) ++ words_bytes ws) = words_bytes ws) as Ed9.
  { change 9%nat with (1 + 8)%nat. rewrite <- drop_drop, Ed1.
    by rewrite drop_app_length' by (by rewrite length_be_encode). }
  unfold timeBatchDecodeAllSimple.
  rewrite bool_decide_false by (cbn [length]; rewrite length_app, length_be_encode; lia).
  rewrite (index_lookup _ 0 hd) by done. cbn [mbind outcome_bind]. rewrite Hdu, Ed1, Ed9.
  rewrite CountBytes_spec by done. cbn [mbind outcome_bind].
  rewrite take_app_length' by (by rewrite length_be_encode).
  rewrite Uint64_encode_nil by apply u64_range. cbn [mbind outcome_bind].
  rewrite Nat2Z.id, DecodeBytesBigEndian_spec by (rewrite ?sized_tail; done).
  cbn [mbind outcome_bind]. rewrite Z.eqb_refl. cbn [negb].
  rewrite drop_ge by (by rewrite sized_tail). rewrite app_nil_r, Hv.
  f_equal. rewrite <- (i64_fmap_u64 l Hl) at 1. unfold l. cbn [fmap list_fmap].
  destruct (Z.ltb_spec 1 div) as [Hgt|Hle].
  - unfold D. by rewrite sum_scaled_diffs by (done || lia || apply us_u64).
  - replace div with 1 by lia. rewrite fmap_div_1. unfold D.
    by rewrite sum_plain_diffs by apply us_u64.
Qed.

Lemma batch_rle div delta dst :
  pow10 div -> (div | delta) -> is_u64 delta -> (forall x, x ∈ D -> x = delta) ->
  Z.of_nat (length l) < 2 ^ 63 ->
  TimeArrayDecodeAll (Z.lor (Z.shiftl timeCompressedRLE 4) (Log10 div) :: be_encode 8 (u64 t)
              ++ PutUvarint (delta / div) ++ PutUvarint (Z.of_nat (length l))) dst = Ok l.
Proof.
  intros Hp Hdvd Hu HD Hlen.
  destruct (header_spec timeCompressedRLE div (or_intror eq_refl) Hp) as (Hb & Hsh & _ & Hdi).
  pose proof (pow10_range div Hp) as Hdr. pose proof (rle_quotient div delta Hp Hu) as Hq.
  rewrite (batch_dispatch _ _ dst 2 timeBatchDecodeAllRLE) by (done || lia).
  set (hd := Z.lor _ _) in *. set (n := Z.of_nat (length l)) in *.
  assert (is_u64 n) as Hn by (unfold is_u64, n in *; lia).
  assert (i64 n = n) as Hin by (apply i64_small; unfold is_i64; lia).
  pose proof (PutUvarint_length (delta / div)) as Hl1. pose proof (PutUvarint_length n) as Hl2.
  set (b := hd :: _).
  assert (drop 1 b = be_encode 8 (u64 t) ++ PutUvarint (delta / div) ++ PutUvarint n) as Ed1 by done.
  assert (drop 9 b = PutUvarint (delta / div) ++ PutUvarint n) as Ed9.
  { change 9%nat with (1 + 8)%nat. rewrite <- drop_drop, Ed1.
    by rewrite drop_app_length' by (by rewrite length_be_encode). }
  assert (drop (9 + length (PutUvarint (delta / div))) b = PutUvarint n) as Ed.
  { rewrite <- drop_drop, Ed9. by rewrite drop_app_length. }
  assert (length b = 9 + length (PutUvarint (delta / div)) + length (PutUvarint n))%nat as Hlb.
  { unfold b. cbn [length]. rewrite !length_app, length_be_encode. lia. }
  unfold timeBatchDecodeAllRLE. rewrite bool_decide_false by lia.
  rewrite (index_lookup _ 0 hd) by done. cbn [mbind outcome_bind].
  rewrite Hdi, Ed1, Uint64_encode by apply u64_range. cbn [mbind outcome_bind].
  rewrite Ed9, Uvarint_PutUvarint by done. rewrite (proj2 (Z.leb_gt _ 0)) by lia.
  rewrite Nat2Z.id, Ed, Uvarint_PutUvarint_nil by done.
  rewrite (proj2 (Z.leb_gt _ 0)), Hin, (proj2 (Z.ltb_ge n 0)) by lia.
  rewrite (u64_small div), (rle_value div delta) by (done || (unfold is_u64; lia)).
  rewrite <- (u64_small (u64 t)) by apply u64_range. rewrite arith_progression.
  unfold n. rewrite Nat2Z.id. f_equal. symmetry. by apply (diffs_progression delta l Hl).
Qed.
End BatchFormats.

(** ** RawBytes *)
Lemma sum_plain_u64 p l : Forall is_u64 (sum_plain p l).
Proof. revert p. induction l as [|g r IH]; intros p; constructor; [apply u64_range|apply IH]. Qed.

Lemma fmap_u64_i64 l : Forall is_u64 l -> u64 <$> (i64 <$> l) = l.
Proof.
  induction 1 as [|x l Hx _ IH]; [done|]. cbn [fmap list_fmap].
  by rewrite u64_i64, (u64_small x), IH.
Qed.

Lemma RawBytes_written e l :
  ts e = u64 <$> l -> l <> [] ->
  exists e', RawBytes e = (e', Z.shiftl timeUncompressed 4 :: words_bytes (u64 <$> l)) /\ ts e' = ts e.
Proof.
  intros He Hne. unfold RawBytes. rewrite He, length_fmap. destruct l as [|t l]; [done|].
  cbn [length Nat.eqb]. unfold encodeRaw. rewrite He. by eexists.
Qed.

Lemma write_times_ts e l : ts (write_times e l) = ts e ++ (u64 <$> l).
Proof.
  unfold write_times. revert e. induction l as [|t l IH]; intros e; cbn [foldl].
  - by rewrite app_nil_r.
  - rewrite IH. cbn [Write ts]. by rewrite <- app_assoc.
Qed.

(** ** The interface of the block layer *)
#[global] Instance TimeEncoder_methods : Codec.ValueEncoder encoder Z := {
  Codec.reset := Reset;
  Codec.write := Write;
  Codec.bytes := Bytes
}.

#[global] Instance TimeDecoder_methods : Codec.ValueDecoder TimeDecoder Z := {
  Codec.set_bytes := Init;
  Codec.next d := Ok (Next d);
  Codec.read d := Ok (d, Read d);
  Codec.error := Error
}.

Lemma Next_ok d : decoder_ok d -> decoder_ok (fst (Next d)).
Proof.
  unfold decoder_ok, Next. destruct (d_err d); [done|]. by repeat case_match.
Qed.

Lemma Next_no_error d : snd (Next d) = true -> Error (fst (Next d)) = None.
Proof.
  unfold Next, Error. destruct (d_err d) eqn:E; [done|]. by repeat case_match.
Qed.

Lemma Next_keeps_error d e : Error d = Some e -> Error (fst (Next d)) = Some e /\ snd (Next d) = false.
Proof. intros He. unfold Next, Error in *. rewrite He. cbn [fst snd]. by rewrite He. Qed.

Lemma yields_interface d l : decoder_ok d -> yields d l -> Codec.yields decoder_ok d l.
Proof.
  revert d. induction l as [|t l IH]; intros d Hd; cbn [yields Codec.yields];
    pose proof (Next_ok d Hd) as Hok; pose proof (Next_no_error d) as He0;
    pose proof (Next_keeps_error d) as Hk;
    cbn [Codec.next Codec.read Codec.error TimeDecoder_methods];
    destruct (Next d) as [d0 b]; cbn [fst snd] in *;
    destruct (Error d) as [e|] eqn:Ee; try (destruct (Hk e eq_refl) as [Hk1 Hk2]).
  - intros [_ He]. congruence.
  - intros [-> He]. split; [done|]. split; [done|]. by exists d0.
  - intros (Ht & _). congruence.
  - intros (-> & <- & Hy). split; [done|]. split; [done|]. exists d0, d0.
    split; [done|]. split; [done|]. by apply IH.
Qed.

(** * Theorems *)

(** C28: the streaming timestamp codec round-trips: for every nonempty list of
    int64 timestamps, sorted or not, an encoder in any usable state, once reset,
    encodes it without error, and a decoder in any previous state delivers
    exactly that list, whichever of the three formats was chosen;
    [CountTimestamps] is its length and the encoder can be used again. *)
Theorem time_stream_roundtrip e d l :
  encoder_ok e -> decoder_ok d -> l <> [] -> Forall is_i64 l ->
  Z.of_nat (length l) < 2 ^ 63 ->
  exists e0 e1 b d',
    Reset e = Ok e0 /\ Bytes (write_times e0 l) = Ok (e1, b) /\ encoder_ok e1 /\
    Init d b = Ok d' /\ yields d' l /\ CountTimestamps b = Ok (Z.of_nat (length l)).
Proof.
  intros He Hd Hne Hl Hlen.
  destruct (encode_times e l He Hne Hl Hlen) as (e0 & e1 & b & H0 & H1 & Hok & _ & _ & _ & Hc & Hb).
  destruct (Hb d Hd) as (d' & HI & Hy & _). by exists e0, e1, b, d'.
Qed.

Lemma time_stream_roundtrip_witness :
  encoder_ok (NewTimeEncoder 0) /\ Forall is_i64 [1000; 3000; 4000; -5] /\
  exists e0 e1 b d',
    Reset (NewTimeEncoder 0) = Ok e0 /\
    Bytes (write_times e0 [1000; 3000; 4000; -5]) = Ok (e1, b) /\ encoder_ok e1 /\
    Init NewTimeDecoder b = Ok d' /\ yields d' [1000; 3000; 4000; -5] /\
    CountTimestamps b = Ok 4.
Proof.
  assert (encoder_ok (NewTimeEncoder 0)) as H1 by (exists []; apply Stream.NewEncoder_inv).
  assert (Forall is_i64 [1000; 3000; 4000; -5]) as H2
    by (by apply (bool_decide_unpack _); vm_compute).
  split; [exact H1|]. split; [exact H2|].
  apply (time_stream_roundtrip _ NewTimeDecoder [1000; 3000; 4000; -5] H1); [reflexivity|discriminate|exact H2|].
  vm_compute. reflexivity.
Defined.

(** blocks written by the batch encoder [TimeArrayEncodeAll], whatever the
    buffer it was given, are read back exactly by the streaming decoder. *)
Theorem time_batch_encode_stream_decode l b d :
  l <> [] -> Forall is_i64 l -> Z.of_nat (length l) < 2 ^ 63 -> decoder_ok d ->
  exists s d', TimeArrayEncodeAll l b = Ok s /\ Init d (contents s) = Ok d' /\ yields d' l /\
    CountTimestamps (contents s) = Ok (Z.of_nat (length l)).
Proof.
  intros Hne Hl Hlen Hd. destruct l as [|t l']; [done|].
  destruct (TimeArrayEncodeAll_format t l' b) as (s & Hs & Hf & _).
  destruct (time_format_block t l' _ Hl Hlen Hf) as (_ & _ & Hc & Hb).
  destruct (Hb d Hd) as (d' & HI & Hy & _). by exists s, d'.
Qed.

Lemma time_batch_encode_stream_decode_witness :
  Forall is_i64 [1; 5; 2 ^ 62] /\
  exists s d', TimeArrayEncodeAll [1; 5; 2 ^ 62] nil_slice = Ok s /\
    Init NewTimeDecoder (contents s) = Ok d' /\ yields d' [1; 5; 2 ^ 62] /\
    CountTimestamps (contents s) = Ok 3.
Proof.
  assert (Forall is_i64 [1; 5; 2 ^ 62]) as H by (by apply (bool_decide_unpack _); vm_compute).
  split; [exact H|].
  apply (time_batch_encode_stream_decode [1; 5; 2 ^ 62] nil_slice NewTimeDecoder);
    [discriminate|exact H|vm_compute; reflexivity|reflexivity].
Defined.

(** What the batch pair does on compressible timestamps. *)
Lemma time_array_codec t l' b dst :
  Forall is_i64 (t :: l') -> Z.of_nat (length (t :: l')) < 2 ^ 63 ->
  (let D := diffs (u64 t) (u64 <$> l') in
   Forall in_range D \/ (forall x y, x ∈ D -> y ∈ D -> x = y)) ->
  exists s, TimeArrayEncodeAll (t :: l') b = Ok s /\
    TimeArrayDecodeAll (contents s) dst = Ok (t :: l') /\
    (length (contents s) <= 30 + 8 * length (t :: l'))%nat /\
    CountTimestamps (contents s) = Ok (Z.of_nat (length (t :: l'))).
Proof.
  intros Hl Hlen HD. destruct (TimeArrayEncodeAll_format t l' b) as (s & Hs & Hf & Hsame).
  exists s. split; [done|]. split; [|split; [by eapply time_format_length|]].
  - destruct Hf as [Hn| |].
    + exfalso. destruct HD as [HD|HD]; [done|]. by apply (Hsame HD).
    + by apply batch_packed.
    + by apply batch_rle.
  - by destruct (time_format_block t l' _ Hl Hlen Hf) as (_ & _ & Hc & _).
Qed.

(** The batch pair round-trips whenever the timestamps are compressible:
    every difference at most [MaxValue], or all differences equal. *)
Theorem time_batch_roundtrip t l' b dst :
  Forall is_i64 (t :: l') -> Z.of_nat (length (t :: l')) < 2 ^ 63 ->
  (let D := diffs (u64 t) (u64 <$> l') in
   Forall in_range D \/ (forall x y, x ∈ D -> y ∈ D -> x = y)) ->
  exists s, TimeArrayEncodeAll (t :: l') b = Ok s /\
    TimeArrayDecodeAll (contents s) dst = Ok (t :: l').
Proof.
  intros Hl Hlen HD. destruct (time_array_codec t l' b dst Hl Hlen HD) as (s & Hs & Hd & _).
  by exists s.
Qed.

Lemma time_batch_roundtrip_witness :
  Forall is_i64 [1000; 3000; 4000] /\
  exists s, TimeArrayEncodeAll [1000; 3000; 4000] nil_slice = Ok s /\
    TimeArrayDecodeAll (contents s) nil_slice = Ok [1000; 3000; 4000].
Proof.
  assert (Forall is_i64 [1000; 3000; 4000]) as H by (by apply (bool_decide_unpack _); vm_compute).
  split; [exact H|].
  apply (time_batch_roundtrip 1000 [3000; 4000] nil_slice nil_slice H);
    [vm_compute; reflexivity|].
  left; cbv zeta. by apply (bool_decide_unpack _); vm_compute.
Defined.

(** the batch pair does not round-trip on the raw format: the encoder
    stores the differences and [timeBatchDecodeAllUncompressed] returns them
    without summing them, while the streaming decoder sums them. *)
Theorem time_batch_raw_returns_differences t l' b dst s :
  TimeArrayEncodeAll (t :: l') b = Ok s -> ~ Forall in_range (diffs (u64 t) (u64 <$> l')) ->
  Z.shiftr (contents s !!! 0%nat) 4 <> timeCompressedRLE ->
  TimeArrayDecodeAll (contents s) dst = Ok (i64 <$> u64 t :: diffs (u64 t) (u64 <$> l')).
Proof.
  intros Hs Hn Hr. destruct (TimeArrayEncodeAll_format t l' b) as (s' & Hs' & Hf & _).
  assert (s' = s) as -> by congruence. destruct Hf as [_|div ws HR|div delta Hp _ _ _].
  - by apply batch_raw.
  - done.
  - destruct (header_spec timeCompressedRLE _ (or_intror eq_refl) Hp) as (_ & Hsh & _).
    by cbn in Hr, Hsh.
Qed.

Lemma time_batch_raw_returns_differences_witness :
  exists s, TimeArrayEncodeAll [1; 5; 2 ^ 62] nil_slice = Ok s /\
    TimeArrayDecodeAll (contents s) nil_slice = Ok [1; 4; 2 ^ 62 - 5].
Proof.
  eexists. split; [vm_compute; reflexivity|].
  apply (time_batch_raw_returns_differences 1 [5; 2 ^ 62] nil_slice nil_slice).
  - vm_compute. reflexivity.
  - intros H. rewrite Forall_forall in H. specialize (H (2 ^ 62 - 5)).
    vm_compute in H. apply H; [right; left|reflexivity].
  - vm_compute. discriminate.
Defined.

(** The two decoders read the block of [RawBytes] differently: the batch
    decoder returns the timestamps written, the streaming decoder their prefix
    sums, since [RawBytes] stores the timestamps where [Bytes] stores their
    differences. *)
Theorem time_raw_bytes_decoders_disagree e t l' e' b d dst :
  Reset e = Ok e' -> Forall is_i64 (t :: l') -> decoder_ok d ->
  b = snd (RawBytes (write_times e' (t :: l'))) ->
  TimeArrayDecodeAll b dst = Ok (t :: l') /\
  exists d', Init d b = Ok d' /\ yields d' (t :: (i64 <$> sum_plain (u64 t) (u64 <$> l'))).
Proof.
  intros He Hl Hd Hb. apply bind_Ok in He as (bs & _ & (s & _ & [= <-])%bind_Ok).
  destruct (RawBytes_written (write_times (MkTimeEncoder [] bs s) (t :: l')) (t :: l')) as (e'' & HR & _);
    [by rewrite write_times_ts|done|].
  rewrite HR in Hb. cbn [snd] in Hb. subst b. set (us := u64 <$> t :: l').
  assert (Forall is_u64 us) as Hus by (apply Forall_fmap, Forall_true; intros; apply u64_range).
  split.
  - unfold TimeArrayDecodeAll.
    change (Z.shiftr (Z.shiftl timeUncompressed 4) 4) with 0.
    cbn [Z.ltb Z.compare timeCompressedRLE].
    change (index timeBatchDecoderFunc (Z.to_nat (Z.land 0 3)))
      with (Ok timeBatchDecodeAllUncompressed).
    cbn [mbind outcome_bind]. unfold timeBatchDecodeAllUncompressed.
    rewrite tail_from_Ok by (cbn; lia). cbn [mbind outcome_bind].
    change (drop 1 (?x :: ?y)) with y. rewrite words_bytes_aligned. cbn [Z.eqb negb].
    rewrite length_words_bytes_div, raw_words_bytes by done. f_equal. by apply i64_fmap_u64.
  - eexists. split; [reflexivity|]. unfold decodeRaw.
    change (Z.shiftr (Z.shiftl timeUncompressed 4) 4) with 0.
    rewrite length_words_bytes_div, raw_words_bytes by done. cbn [d_v d_n d_dec d_err d_rleDelta d_encoding].
    inversion Hl as [|? ? Ht _]; subst.
    rewrite <- (drop_0 (t :: _)). apply (yields_list _ _ 0); cbn [d_err d_encoding d_ts d_i]; try done; [| |lia].
    + unfold us. cbn [fmap list_fmap]. f_equal. symmetry. apply fmap_u64_i64, sum_plain_u64.
    + constructor; [done|]. apply Forall_fmap, Forall_true. intros x. apply i64_range.
Qed.

Lemma time_raw_bytes_decoders_disagree_witness :
  exists e' b, Reset (NewTimeEncoder 0) = Ok e' /\ b = snd (RawBytes (write_times e' [100; 200])) /\
  TimeArrayDecodeAll b nil_slice = Ok [100; 200] /\
  exists d', Init NewTimeDecoder b = Ok d' /\ yields d' (100 :: (i64 <$> [300])).
Proof.
  eexists. eexists. split; [vm_compute; reflexivity|]. split; [vm_compute; reflexivity|].
  apply (time_raw_bytes_decoders_disagree (NewTimeEncoder 0) 100 [200] _ _ NewTimeDecoder nil_slice eq_refl);
    [by apply (bool_decide_unpack _); vm_compute|reflexivity|vm_compute; reflexivity].
Defined.

End Timestamp.
