(* ===== verification/Integer.v ===== *)
(** Integer codec (src/storage/codec/int.go, with the zig-zag functions of
    utils.go): the streaming [IntegerEncoder] and [IntegerDecoder] and the batch
    pair [IntegerArrayEncodeAll] and [IntegerArrayDecodeAll], with their unsigned
    variants.

    Values are delta-encoded, each delta is zig-zag encoded, and the result is
    stored raw, packed by simple8b behind its first value, or as a run length;
    the high nibble of the first byte says which ([int_format]). *)
From stdpp Require Import sets.
From S2P Require Import Prelude Binary Simple8b Codec.
Import Simple8b Buffer.

Module Integer.

Definition intUncompressed : Z := 0.
Definition intCompressedSimple : Z := 1.
Definition intCompressedRLE : Z := 2.

(** ** Zig-zag *)
Definition ZigZagEncode (x : Z) : Z :=
  Z.lxor (u64 (i64 (Z.shiftl x 1))) (u64 (Z.shiftr x 63)).

Definition ZigZagDecode (v : Z) : Z :=
  i64 (Z.lxor (Z.shiftr v 1) (u64 (Z.shiftr (i64 (Z.shiftl (Z.land v 1) 63)) 63))).

(** ** Streaming encoder *)
Record IntegerEncoder := MkIntegerEncoder {
  prev : Z;
  rle : bool;
  values : list Z
}.

Definition NewIntegerEncoder (sz : nat) : IntegerEncoder := MkIntegerEncoder 0 true [].

Definition Reset (e : IntegerEncoder) : IntegerEncoder := MkIntegerEncoder 0 true [].

Definition Write (e : IntegerEncoder) (v : Z) : IntegerEncoder :=
  let delta := i64 (v - prev e) in
  let enc := ZigZagEncode delta in
  let rle := if bool_decide (1 < length (values e))%nat
             then rle e && (values e !!! (length (values e) - 1)%nat =? enc) else rle e in
  MkIntegerEncoder v rle (values e ++ [enc]).

(** The 31-byte buffer holds the header, 8 bytes and two varints. *)
Definition encodeRLE (e : IntegerEncoder) : outcome (list Z) :=
  first ← index (values e) 0;
  delta ← index (values e) 1;
  Ok (Z.shiftl intCompressedRLE 4 :: be_encode 8 first ++ PutUvarint delta
      ++ PutUvarint (Z.of_nat (length (values e)) - 1)).

(** [EncodeAll] writes the packed words over [e.values[1:]]. *)
Definition encodePacked (e : IntegerEncoder) : outcome (IntegerEncoder * list Z) :=
  match values e with
  | [] => Ok (e, [])
  | first :: rest =>
      encoded ← EncodeAll rest;
      Ok (MkIntegerEncoder (prev e) (rle e) (first :: encoded ++ drop (length encoded) rest),
          Z.shiftl intCompressedSimple 4 :: be_encode 8 first ++ words_bytes encoded)
  end.

Definition encodeUncompressed (e : IntegerEncoder) : list Z :=
  match values e with
  | [] => []
  | _ => Z.shiftl intUncompressed 4 :: words_bytes (values e)
  end.

Definition Bytes (e : IntegerEncoder) : outcome (IntegerEncoder * list Z) :=
  if rle e && bool_decide (2 < length (values e))%nat
  then b ← encodeRLE e; Ok (e, b)
  else if existsb (fun v => MaxValue <? v) (values e) then Ok (e, encodeUncompressed e)
  else encodePacked e.

(** ** Streaming decoder *)
Record IntegerDecoder := MkIntegerDecoder {
  d_values : list Z;
  d_bytes : list Z;
  d_i : Z;
  d_n : Z;
  d_prev : Z;
  d_first : bool;
  d_rleFirst : Z;
  d_rleDelta : Z;
  d_encoding : Z;
  d_err : option string
}.

(** [&IntegerDecoder{}]. *)
Definition NewIntegerDecoder : IntegerDecoder :=
  MkIntegerDecoder (replicate 240 0) [] 0 0 0 false 0 0 0 None.

Definition SetBytes (d : IntegerDecoder) (b : list Z) : IntegerDecoder :=
  let '(encoding, bytes) := match b with [] => (0, []) | b0 :: r => (Z.shiftr b0 4, r) end in
  MkIntegerDecoder (d_values d) bytes 0 0 0 true 0 0 encoding None.

Definition fail (d : IntegerDecoder) (e : string) : IntegerDecoder :=
  MkIntegerDecoder (d_values d) (d_bytes d) (d_i d) (d_n d) (d_prev d) (d_first d)
    (d_rleFirst d) (d_rleDelta d) (d_encoding d) (Some e).

Definition decodeRLE (d : IntegerDecoder) : outcome IntegerDecoder :=
  if bool_decide (length (d_bytes d) = 0)%nat then Ok d
  else if bool_decide (length (d_bytes d) < 8)%nat
  then Ok (fail d "IntegerDecoder: not enough data to decode RLE starting value")
  else
    first ← Uint64 (take 8 (d_bytes d));
    let '(value, n) := Uvarint (drop 8 (d_bytes d)) in
    if n <=? 0 then Ok (fail d "IntegerDecoder: invalid RLE delta value")
    else
      let '(count, n') := Uvarint (drop (8 + Z.to_nat n) (d_bytes d)) in
      if n' <=? 0 then Ok (fail d "IntegerDecoder: invalid RLE repeat value")
      else Ok (MkIntegerDecoder (d_values d) [] 0 (i64 (i64 count + 1)) (d_prev d) (d_first d)
                 first value (d_encoding d) (d_err d)).

Definition decodePacked (d : IntegerDecoder) : outcome IntegerDecoder :=
  if bool_decide (length (d_bytes d) = 0)%nat then Ok d
  else if bool_decide (length (d_bytes d) < 8)%nat
  then Ok (fail d "IntegerDecoder: not enough data to decode packed value")
  else
    v ← Uint64 (take 8 (d_bytes d));
    let step := fun vals n first err =>
      MkIntegerDecoder vals (drop 8 (d_bytes d)) 0 n (d_prev d) first
        (d_rleFirst d) (d_rleDelta d) (d_encoding d) err in
    if d_first d
    then vals ← store (d_values d) 0 v; Ok (step vals 1 false (d_err d))
    else match Decode (d_values d) v with
         | Ok (vals, n) => Ok (step vals (Z.of_nat n) false (d_err d))
         | Err e => Ok (step (d_values d) 0 false (Some "failed to decode value"%string))
         | Panic => Panic
         end.

Definition decodeUncompressed (d : IntegerDecoder) : outcome IntegerDecoder :=
  if bool_decide (length (d_bytes d) = 0)%nat then Ok d
  else if bool_decide (length (d_bytes d) < 8)%nat
  then Ok (fail d "IntegerDecoder: not enough data to decode uncompressed value")
  else
    v ← Uint64 (take 8 (d_bytes d));
    vals ← store (d_values d) 0 v;
    Ok (MkIntegerDecoder vals (drop 8 (d_bytes d)) 0 1 (d_prev d) (d_first d)
          (d_rleFirst d) (d_rleDelta d) (d_encoding d) (d_err d)).

Definition advance (d : IntegerDecoder) : IntegerDecoder :=
  MkIntegerDecoder (d_values d) (d_bytes d) (d_i d + 1) (d_n d) (d_prev d) (d_first d)
    (d_rleFirst d) (d_rleDelta d) (d_encoding d) (d_err d).

Definition Next (d : IntegerDecoder) : outcome (IntegerDecoder * bool) :=
  if (d_n d <=? d_i d) && bool_decide (length (d_bytes d) = 0)%nat then Ok (d, false)
  else
    let d := advance d in
    d ← (if d_n d <=? d_i d then
           if d_encoding d =? intUncompressed then decodeUncompressed d
           else if d_encoding d =? intCompressedSimple then decodePacked d
           else if d_encoding d =? intCompressedRLE then decodeRLE d
           else Ok (fail d "unknown encoding")
         else Ok d);
    Ok (d, bool_decide (d_err d = None) && (d_i d <? d_n d)).

Definition Error (d : IntegerDecoder) : option string := d_err d.

Definition Read (d : IntegerDecoder) : outcome (IntegerDecoder * Z) :=
  if d_encoding d =? intCompressedRLE
  then Ok (d, i64 (ZigZagDecode (d_rleFirst d) + i64 (d_i d * ZigZagDecode (d_rleDelta d))))
  else
    w ← index (d_values d) (Z.to_nat (d_i d));
    let v := i64 (ZigZagDecode w + d_prev d) in
    Ok (MkIntegerDecoder (d_values d) (d_bytes d) (d_i d) (d_n d) v (d_first d)
          (d_rleFirst d) (d_rleDelta d) (d_encoding d) (d_err d), v).

#[global] Instance IntegerEncoder_methods : Codec.ValueEncoder IntegerEncoder Z := {
  Codec.reset e := Ok (Reset e);
  Codec.write := Write;
  Codec.bytes := Bytes
}.

#[global] Instance IntegerDecoder_methods : Codec.ValueDecoder IntegerDecoder Z := {
  Codec.set_bytes d b := Ok (SetBytes d b);
  Codec.next := Next;
  Codec.read := Read;
  Codec.error := Error
}.

(** ** Batch encoder *)

(** [deltas[i] = ZigZagEncode(int64(deltas[i] - deltas[i-1]))] from index [i]
    down to 1, in place, with the maximum. *)
Fixpoint zigzag_loop (i : nat) (deltas : list Z) (max : Z) : list Z * Z :=
  match i with
  | O => (deltas, max)
  | S i' =>
      let v := ZigZagEncode (i64 ((deltas !!! i) -64 (deltas !!! i'))) in
      zigzag_loop i' (<[i := v]> deltas) (if max <? v then v else max)
  end.

(** [for i := 2; ...; { if deltas[1] != deltas[i] { rle = false; break } }]. *)
Definition all_equal (deltas : list Z) : bool :=
  forallb (fun d => deltas !!! 1%nat =? d) (drop 2 deltas).

(** The packed case returns [b], not [b[:sz]]. *)
Definition IntegerArrayEncodeAll (src : list Z) (b : slice Z) : outcome (slice Z) :=
  match src with
  | [] => Ok nil_slice
  | _ =>
      let '(deltas, max) := zigzag_loop (length src - 1) (u64 <$> src) 0 in
      first ← index deltas 0;
      let first := ZigZagEncode (i64 first) in
      deltas ← store deltas 0 first;
      if bool_decide (2 < length deltas)%nat && all_equal deltas then
        delta ← index deltas 1;
        Ok (emit (ensure b 31) (Z.shiftl intCompressedRLE 4 :: be_encode 8 first
              ++ PutUvarint delta ++ PutUvarint (Z.of_nat (length deltas) - 1)))
      else if MaxValue <? max then
        let out := Z.shiftl intUncompressed 4 :: words_bytes deltas in
        Ok (emit (ensure b (length out)) out)
      else
        rest ← tail_from deltas 1;
        encoded ← EncodeAll rest;
        let out := Z.shiftl intCompressedSimple 4 :: be_encode 8 first ++ words_bytes encoded in
        let b := ensure b (length out) in
        Ok (Slice (splice (backing b) 0 out) (slen b))
  end.

Definition UnsignedArrayEncodeAll (src : list Z) (b : slice Z) : outcome (slice Z) :=
  IntegerArrayEncodeAll (i64 <$> src) b.

(** ** Batch decoder *)

(** [prev += ZigZagDecode(...); dst[i] = prev]. *)
Fixpoint zigzag_sum (prev : Z) (l : list Z) : list Z :=
  match l with
  | [] => []
  | g :: r => let x := i64 (prev + ZigZagDecode g) in x :: zigzag_sum x r
  end.

Definition integerBatchDecodeAllUncompressed (b : list Z) (dst : slice Z) : outcome (list Z) :=
  b ← tail_from b 1;
  if negb (Z.land (Z.of_nat (length b)) 7 =? 0)
  then Err "IntegerArrayDecodeAll: expected multiple of 8 bytes"
  else Ok (zigzag_sum 0 (raw_words (length b / 8) b)).

Definition integerBatchDecodeAllSimple (b : list Z) (dst : slice Z) : outcome (list Z) :=
  b ← tail_from b 1;
  if bool_decide (length b < 8)%nat
  then Err "IntegerArrayDecodeAll: not enough data to decode packed value"
  else
    count ← CountBytes (drop 8 b);
    let buf := sized 0 dst (Z.to_nat count + 1) in
    first ← Uint64 b;
    let first := ZigZagDecode first in
    '(rest, n) ← DecodeBytesBigEndian (drop 1 buf) (drop 8 b);
    if negb (Z.of_nat n =? count)
    then Err "IntegerArrayDecodeAll: unexpected number of values decoded"
    else Ok (first :: zigzag_sum first rest).

(** [dst[i] = acc; acc += delta]. *)
Fixpoint run_loop (n : nat) (acc delta : Z) : list Z :=
  match n with
  | O => []
  | S k => acc :: run_loop k (i64 (acc + delta)) delta
  end.

(** A count beyond [int] makes [make] or the reslice panic. *)
Definition integerBatchDecodeAllRLE (b : list Z) (dst : slice Z) : outcome (list Z) :=
  b ← tail_from b 1;
  if bool_decide (length b < 8)%nat
  then Err "IntegerArrayDecodeAll: not enough data to decode RLE starting value"
  else
    first ← Uint64 (take 8 b);
    let first := ZigZagDecode first in
    let '(value, n) := Uvarint (drop 8 b) in
    if n <=? 0 then Err "IntegerArrayDecodeAll: invalid RLE delta value"
    else
      let delta := ZigZagDecode value in
      let '(count, n') := Uvarint (drop (8 + Z.to_nat n) b) in
      if n' <=? 0 then Err "IntegerArrayDecodeAll: invalid RLE repeat value"
      else
        let count := count +64 1 in
        if i64 count <? 0 then Panic
        else if delta =? 0 then Ok (replicate (Z.to_nat count) first)
        else Ok (run_loop (Z.to_nat count) first delta).

Definition integerBatchDecodeAllInvalid (b : list Z) (dst : slice Z) : outcome (list Z) :=
  Err "unknown encoding".

Definition integerBatchDecoderFunc : list (list Z -> slice Z -> outcome (list Z)) :=
  [integerBatchDecodeAllUncompressed; integerBatchDecodeAllSimple;
   integerBatchDecodeAllRLE; integerBatchDecodeAllInvalid].

Definition IntegerArrayDecodeAll (b : list Z) (dst : slice Z) : outcome (list Z) :=
  match b with
  | [] => Ok []
  | b0 :: _ =>
      let encoding := Z.shiftr b0 4 in
      let encoding := if intCompressedRLE <? encoding then 3 else encoding in
      f ← index integerBatchDecoderFunc (Z.to_nat (Z.land encoding 3));
      f b dst
  end.

Definition UnsignedArrayDecodeAll (b : list Z) (dst : slice Z) : outcome (list Z) :=
  match b with
  | [] => Ok []
  | b0 :: _ =>
      let encoding := Z.shiftr b0 4 in
      let encoding := if intCompressedRLE <? encoding then 3 else encoding in
      index integerBatchDecoderFunc (Z.to_nat (Z.land encoding 3)) ≫=
      fun f : list Z -> slice Z -> outcome (list Z) =>
      f b (Slice (i64 <$> backing dst) (slen dst)) ≫= fun res : list Z => Ok (u64 <$> res)
  end.

(** ** Specification *)

(** The zig-zag encoded differences of [l], the first one from [prev]. *)
Fixpoint zigzag_diffs (prev : Z) (l : list Z) : list Z :=
  match l with
  | [] => []
  | x :: r => ZigZagEncode (i64 (x - prev)) :: zigzag_diffs x r
  end.

(** The three shapes of a block that stores [z :: zs], the differences. *)
Inductive int_format (z : Z) (zs : list Z) : list Z -> Prop :=
| fmt_raw :
    int_format z zs (Z.shiftl intUncompressed 4 :: words_bytes (z :: zs))
| fmt_packed ws :
    Forall is_u64 ws -> words_values ws = zs ->
    int_format z zs (Z.shiftl intCompressedSimple 4 :: be_encode 8 z ++ words_bytes ws)
| fmt_rle delta :
    zs <> [] -> (forall x, x ∈ zs -> x = delta) ->
    int_format z zs (Z.shiftl intCompressedRLE 4 :: be_encode 8 z ++ PutUvarint delta
                     ++ PutUvarint (Z.of_nat (length zs))).

(** * Lemmas *)

(** ** Zig-zag *)
Lemma lxor_ones a n : 0 <= n -> 0 <= a < 2 ^ n -> Z.lxor a (Z.ones n) = Z.ones n - a.
Proof.
  intros Hn Ha. assert (Z.ldiff a (Z.ones n) = 0) as H0.
  { destruct (decide (a = 0)) as [->|]; [apply Z.ldiff_0_l|].
    apply Z.ldiff_ones_r_low; [lia|]. apply Z.log2_lt_pow2; lia. }
  rewrite Z.sub_nocarry_ldiff by done. apply Z.bits_inj'. intros i Hi.
  apply (f_equal (fun z => Z.testbit z i)) in H0. rewrite Z.ldiff_spec, Z.bits_0 in H0.
  rewrite Z.lxor_spec, Z.ldiff_spec. by destruct (Z.testbit a i), (Z.testbit (Z.ones n) i).
Qed.

Lemma shiftr_63 x : is_i64 x -> u64 (Z.shiftr x 63) = if x <? 0 then 2 ^ 64 - 1 else 0.
Proof.
  intros Hx. rewrite Z.shiftr_div_pow2 by lia. unfold is_i64 in Hx.
  destruct (Z.ltb_spec x 0).
  - replace (x / 2 ^ 63) with (-1) by (Z.div_mod_to_equations; lia). done.
  - rewrite Z.div_small by lia. done.
Qed.

Lemma ZigZagEncode_value x : is_i64 x -> ZigZagEncode x = if x <? 0 then - 2 * x - 1 else 2 * x.
Proof.
  intros Hx. unfold ZigZagEncode. rewrite shiftr_63, u64_i64, Z.shiftl_mul_pow2 by (done || lia).
  unfold is_i64 in Hx. destruct (Z.ltb_spec x 0).
  - change (2 ^ 64 - 1) with (Z.ones 64). rewrite lxor_ones by (lia || apply u64_range).
    assert (u64 (x * 2 ^ 1) = 2 * x + 2 ^ 64) as ->; [|change (Z.ones 64) with (2 ^ 64 - 1); lia].
    gomod.
  - rewrite Z.lxor_0_r. gomod.
Qed.

Lemma land_1_shift v : Z.land v 1 = v mod 2.
Proof. change 1 with (Z.ones 1). by rewrite Z.land_ones. Qed.

Lemma ZigZagDecode_value v :
  is_u64 v -> ZigZagDecode v = if v mod 2 =? 0 then v / 2 else - (v / 2) - 1.
Proof.
  intros Hv. unfold ZigZagDecode. rewrite land_1_shift, Z.shiftr_div_pow2 by lia.
  change (2 ^ 1) with 2. unfold is_u64 in Hv.
  assert (0 <= v / 2 < 2 ^ 63) as Hd by (split; [apply Z.div_pos; lia|apply Z.div_lt_upper_bound; lia]).
  destruct (Z.eqb_spec (v mod 2) 0) as [->|Hne].
  - change (u64 _) with 0. rewrite Z.lxor_0_r. apply i64_small. unfold is_i64. lia.
  - assert (v mod 2 = 1) as -> by (pose proof (Z.mod_pos_bound v 2); lia).
    change (u64 _) with (Z.ones 64). rewrite lxor_ones by lia.
    change (Z.ones 64) with (2 ^ 64 - 1). gomod.
Qed.

Lemma ZigZagEncode_u64 x : is_i64 x -> is_u64 (ZigZagEncode x).
Proof.
  intros Hx. rewrite ZigZagEncode_value by done. unfold is_i64, is_u64 in *.
  destruct (Z.ltb_spec x 0); lia.
Qed.

Lemma ZigZagDecode_i64 v : is_i64 (ZigZagDecode v).
Proof. apply i64_range. Qed.

Lemma ZigZag_decode_encode x : is_i64 x -> ZigZagDecode (ZigZagEncode x) = x.
Proof.
  intros Hx. rewrite ZigZagDecode_value by (by apply ZigZagEncode_u64).
  rewrite ZigZagEncode_value by done.
  destruct (Z.ltb_spec x 0); (case_match; [rewrite Z.eqb_eq in *|rewrite Z.eqb_neq in *]);
    Z.div_mod_to_equations; lia.
Qed.

Lemma ZigZag_encode_decode v : is_u64 v -> ZigZagEncode (ZigZagDecode v) = v.
Proof.
  intros Hv. rewrite ZigZagEncode_value by apply ZigZagDecode_i64.
  rewrite ZigZagDecode_value by done. unfold is_u64 in Hv.
  destruct (Z.eqb_spec (v mod 2) 0);
    (case_match; [rewrite Z.ltb_lt in *|rewrite Z.ltb_ge in *]); Z.div_mod_to_equations; lia.
Qed.

(** ** Differences *)
Lemma length_zigzag_diffs p l : length (zigzag_diffs p l) = length l.
Proof. revert p. induction l; intros p; cbn; [done|]. by rewrite IHl. Qed.

Lemma zigzag_diffs_u64 p l : Forall is_u64 (zigzag_diffs p l).
Proof.
  revert p. induction l as [|x r IH]; intros p; constructor; [|done].
  apply ZigZagEncode_u64, i64_range.
Qed.

Lemma zigzag_sum_diffs p l : Forall is_i64 l -> zigzag_sum p (zigzag_diffs p l) = l.
Proof.
  intros H. revert p. induction H as [|x r Hx _ IH]; intros p; [done|].
  cbn [zigzag_diffs zigzag_sum]. rewrite ZigZag_decode_encode by apply i64_range.
  rewrite i64_add_idem_r. replace (p + (x - p)) with x by lia.
  rewrite i64_small by done. by rewrite IH.
Qed.

Lemma zigzag_diffs_snoc p l y :
  zigzag_diffs p (l ++ [y]) =
  zigzag_diffs p l ++ [ZigZagEncode (i64 (y - default p (last l)))].
Proof.
  revert p. induction l as [|x r IH]; intros p; [done|]. cbn [app zigzag_diffs].
  rewrite IH. cbn [app]. do 3 f_equal. rewrite last_cons. by destruct (last r).
Qed.

(** ** What the streaming decoder delivers *)
Definition dec_ok (d : IntegerDecoder) : Prop := length (d_values d) = 240%nat.

Abbreviation delivers := (Codec.yields dec_ok).

Ltac dsimp := cbn [d_values d_bytes d_i d_n d_prev d_first d_rleFirst d_rleDelta
  d_encoding d_err mbind outcome_bind andb].

Lemma Next_pending vals b i n p f rf rd enc :
  i + 1 < n ->
  Next (MkIntegerDecoder vals b i n p f rf rd enc None) =
    Ok (MkIntegerDecoder vals b (i + 1) n p f rf rd enc None, true).
Proof.
  intros H. unfold Next, advance. dsimp. rewrite (proj2 (Z.leb_gt n i)) by lia. dsimp.
  rewrite (proj2 (Z.leb_gt n (i + 1))) by lia. dsimp.
  by rewrite (proj2 (Z.ltb_lt (i + 1) n)) by lia.
Qed.

Lemma Read_value vals b i n p f rf rd enc e x :
  enc <> 2 -> vals !! Z.to_nat i = Some x ->
  Read (MkIntegerDecoder vals b i n p f rf rd enc e) =
    Ok (MkIntegerDecoder vals b i n (i64 (p + ZigZagDecode x)) f rf rd enc e,
        i64 (p + ZigZagDecode x)).
Proof.
  intros He Hx. unfold Read. dsimp. rewrite (proj2 (Z.eqb_neq enc _)) by done.
  rewrite (index_lookup _ _ x) by done. dsimp. by rewrite (Z.add_comm p).
Qed.

Lemma Next_end vals i n p f rf rd enc :
  n <= i + 1 -> enc = 0 \/ enc = 1 \/ enc = 2 -> length vals = 240%nat ->
  delivers (MkIntegerDecoder vals [] i n p f rf rd enc None) [].
Proof.
  intros H He Hl. split; [exact Hl|]. split; [done|].
  cbn [Codec.next Codec.error IntegerDecoder_methods]. unfold Next, advance. dsimp. destruct (Z.leb_spec n i); cbn [andb].
  - by eexists.
  - rewrite (proj2 (Z.leb_le n (i + 1))) by lia.
    set (d := MkIntegerDecoder vals [] (i + 1) n p f rf rd enc None).
    assert ((if enc =? intUncompressed then decodeUncompressed d
             else if enc =? intCompressedSimple then decodePacked d
             else if enc =? intCompressedRLE then decodeRLE d
             else Ok (fail d "unknown encoding")) = Ok d) as ->
      by by destruct He as [-> | [-> | ->]].
    exists d. split; [|done]. unfold d. dsimp. by rewrite (proj2 (Z.ltb_ge (i + 1) n)) by lia.
Qed.

(** The next word of the packed or raw format, when none is pending. *)
Lemma Next_word vals ws w i n p f rf rd :
  is_u64 w -> length vals = 240%nat -> n <= i + 1 ->
  Next (MkIntegerDecoder vals (words_bytes (w :: ws)) i n p f rf rd 1 None) =
    Ok (if f then MkIntegerDecoder (<[0%nat := w]> vals) (words_bytes ws) 0 1 p false rf rd 1 None
        else MkIntegerDecoder (word_values w ++ drop (word_count w) vals) (words_bytes ws) 0
               (Z.of_nat (word_count w)) p false rf rd 1 None, true).
Proof.
  intros Hw Hl Hn. unfold Next, advance. dsimp.
  rewrite words_bytes_cons.
  assert (length (be_encode 8 w ++ words_bytes ws) = 8 + length (words_bytes ws))%nat as Hb
    by (by rewrite length_app, length_be_encode).
  rewrite (bool_decide_false (length (_ ++ _) = 0)%nat) by lia. rewrite andb_false_r.
  rewrite (proj2 (Z.leb_le n (i + 1))) by lia.
  change (1 =? intUncompressed) with false. change (1 =? intCompressedSimple) with true. cbn iota.
  unfold decodePacked. dsimp. rewrite !bool_decide_false by lia.
  rewrite take_app_length', drop_app_length' by (by rewrite length_be_encode).
  rewrite Uint64_encode_nil by done. dsimp. destruct f.
  - rewrite store_in_range by lia. by dsimp.
  - rewrite Decode_values by done. dsimp. pose proof (word_count_range w Hw).
    by rewrite (proj2 (Z.ltb_lt 0 _)) by lia.
Qed.

Lemma delivers_cons d x r d' d'' :
  Next d = Ok (d', true) -> Read d' = Ok (d'', x) -> dec_ok d /\ Error d = None ->
  delivers d'' r -> delivers d (x :: r).
Proof. intros H1 H2 [H3 H4] H5. split; [done|]. split; [done|]. by exists d', d''. Qed.

Lemma delivers_packed ws l vals i n p rf rd :
  Forall is_u64 ws -> length vals = 240%nat -> 0 <= i -> (n <= 240)%nat ->
  drop (Z.to_nat (i + 1)) (take n vals) = l ->
  delivers (MkIntegerDecoder vals (words_bytes ws) i (Z.of_nat n) p false rf rd 1 None)
    (zigzag_sum p (l ++ words_values ws)).
Proof.
  intros Hws. revert l vals i n p. induction Hws as [|w ws Hw Hws IHw];
    intros l; induction l as [|x l IHl]; intros vals i n p Hlen Hi Hn Hp.
  1, 3: apply (f_equal length) in Hp as Hpl; rewrite length_drop, length_take in Hpl; cbn in Hpl.
  3, 4: assert (drop (Z.to_nat (i + 1)) (take n vals) !! 0%nat = Some x) as Hx by (by rewrite Hp);
    rewrite lookup_drop, Nat.add_0_r in Hx; apply lookup_take_Some in Hx as [Hx Hlt];
    cbn [app zigzag_sum];
    (eapply delivers_cons; [apply Next_pending; lia|by apply Read_value|done|]);
    apply IHl; try done; try lia;
    replace (Z.to_nat (i + 1 + 1)) with (Z.to_nat (i + 1) + 1)%nat by lia;
    by rewrite <- drop_drop, Hp.
  - apply Next_end; [lia|auto|done].
  - rewrite words_values_cons. pose proof (word_values_length w Hw) as Hwl.
    pose proof (word_count_range w Hw) as Hc. cbn [app].
    destruct (word_values w) as [|y r] eqn:Ew; [cbn in Hwl; lia|].
    cbn [app zigzag_sum].
    eapply delivers_cons; [by apply Next_word; [..|lia]|by rewrite Ew; apply Read_value|done|].
    apply IHw; rewrite ?length_app, ?length_drop; try done; try lia.
    change (Z.to_nat (0 + 1)) with 1%nat. rewrite <- Hwl. by rewrite take_app_length.
Qed.

Lemma Next_raw vals ws w i n p f rf rd :
  is_u64 w -> length vals = 240%nat -> n <= i + 1 ->
  Next (MkIntegerDecoder vals (words_bytes (w :: ws)) i n p f rf rd 0 None) =
    Ok (MkIntegerDecoder (<[0%nat := w]> vals) (words_bytes ws) 0 1 p f rf rd 0 None, true).
Proof.
  intros Hw Hl Hn. unfold Next, advance. dsimp. rewrite words_bytes_cons.
  assert (length (be_encode 8 w ++ words_bytes ws) = 8 + length (words_bytes ws))%nat as Hb
    by (by rewrite length_app, length_be_encode).
  rewrite (bool_decide_false (length (_ ++ _) = 0)%nat) by lia. rewrite andb_false_r.
  rewrite (proj2 (Z.leb_le n (i + 1))) by lia.
  change (0 =? intUncompressed) with true. cbn iota.
  unfold decodeUncompressed. dsimp. rewrite !bool_decide_false by lia.
  rewrite take_app_length', drop_app_length' by (by rewrite length_be_encode).
  rewrite Uint64_encode_nil by done. dsimp. rewrite store_in_range by lia. by dsimp.
Qed.

Lemma delivers_raw ws vals i n p f rf rd :
  Forall is_u64 ws -> length vals = 240%nat -> n <= i + 1 ->
  delivers (MkIntegerDecoder vals (words_bytes ws) i n p f rf rd 0 None) (zigzag_sum p ws).
Proof.
  intros Hws. revert vals i n p. induction Hws as [|w ws Hw Hws IH]; intros vals i n p Hl Hn.
  - apply Next_end; [lia|auto|done].
  - cbn [zigzag_sum].
    eapply delivers_cons; [by apply Next_raw|apply Read_value; [done|]|done|].
    + change (Z.to_nat 0) with 0%nat. apply list_lookup_insert_eq. lia.
    + apply IH; [by rewrite length_insert|lia].
Qed.

(** The value at index [i] of a run. *)
Definition run_at (z delta i : Z) : Z :=
  i64 (ZigZagDecode z + i64 (i * ZigZagDecode delta)).

Lemma run_at_0 z delta : run_at z delta 0 = i64 (0 + ZigZagDecode z).
Proof. unfold run_at. rewrite i64_add_idem_r. f_equal. lia. Qed.

Lemma run_at_succ z delta i :
  i64 (run_at z delta i + ZigZagDecode delta) = run_at z delta (i + 1).
Proof.
  unfold run_at. rewrite i64_add_idem_l, i64_add_idem_r.
  rewrite <- Z.add_assoc, Z.add_comm, <- Z.add_assoc, i64_add_idem_l. f_equal. lia.
Qed.

Lemma delivers_run m vals i p f z delta :
  length vals = 240%nat ->
  delivers (MkIntegerDecoder vals [] i (i + 1 + Z.of_nat m) p f z delta 2 None)
    (zigzag_sum (run_at z delta i) (replicate m delta)).
Proof.
  intros Hl. revert i. induction m as [|m IH]; intros i.
  - apply Next_end; [lia|auto|done].
  - cbn [replicate zigzag_sum]. rewrite run_at_succ.
    eapply delivers_cons; [apply Next_pending; lia|reflexivity|done|].
    replace (i + 1 + Z.of_nat (S m)) with (i + 1 + 1 + Z.of_nat m) by lia. apply IH.
Qed.

Lemma elem_replicate {A} (x : A) l : (forall y, y ∈ l -> y = x) -> l = replicate (length l) x.
Proof. intros H. symmetry. by apply replicate_as_elem_of. Qed.

Lemma PutUvarint_split z delta n :
  is_u64 z -> is_u64 delta -> is_u64 n ->
  let b := be_encode 8 z ++ PutUvarint delta ++ PutUvarint n in
  (8 <= length b)%nat /\ Uint64 (take 8 b) = Ok z /\ Uint64 b = Ok z /\
  Uvarint (drop 8 b) = (delta, Z.of_nat (length (PutUvarint delta))) /\
  Uvarint (drop (8 + length (PutUvarint delta)) b) = (n, Z.of_nat (length (PutUvarint n))) /\
  0 < Z.of_nat (length (PutUvarint delta)) /\ 0 < Z.of_nat (length (PutUvarint n)).
Proof.
  intros Hz Hd Hn b. pose proof (PutUvarint_length delta). pose proof (PutUvarint_length n).
  assert (drop 8 b = PutUvarint delta ++ PutUvarint n) as E8
    by (apply drop_app_length'; by rewrite length_be_encode).
  split; [unfold b; rewrite length_app, length_be_encode; lia|].
  split; [unfold b; rewrite take_app_length' by (by rewrite length_be_encode); by apply Uint64_encode_nil|].
  split; [by apply Uint64_encode|]. rewrite <- drop_drop, E8.
  rewrite Uvarint_PutUvarint, drop_app_length, Uvarint_PutUvarint_nil by done.
  repeat split; lia.
Qed.

Lemma delivers_rle vals z delta m rf rd :
  length vals = 240%nat -> is_u64 z -> is_u64 delta -> Z.of_nat m < 2 ^ 62 ->
  delivers (MkIntegerDecoder vals (be_encode 8 z ++ PutUvarint delta ++ PutUvarint (Z.of_nat m))
              0 0 0 true rf rd 2 None)
    (zigzag_sum 0 (z :: replicate m delta)).
Proof.
  intros Hl Hz Hd Hm.
  destruct (PutUvarint_split z delta (Z.of_nat m)) as (Hb & Hu & _ & H1 & H2 & Hp1 & Hp2);
    [done|done|unfold is_u64; lia|].
  set (b := _ ++ _) in *. cbn [zigzag_sum]. rewrite <- (run_at_0 z delta).
  eapply (delivers_cons _ _ _ (MkIntegerDecoder vals [] 0 (0 + 1 + Z.of_nat m) 0 true z delta 2 None));
    [|reflexivity|done|by apply delivers_run].
  unfold Next, advance. dsimp.
  rewrite (bool_decide_false (length b = 0)%nat) by lia. rewrite andb_false_r.
  rewrite (proj2 (Z.leb_le 0 (0 + 1))) by lia.
  change (2 =? intUncompressed) with false. change (2 =? intCompressedSimple) with false.
  change (2 =? intCompressedRLE) with true. cbn iota.
  unfold decodeRLE. dsimp. rewrite !bool_decide_false by lia.
  rewrite Hu. dsimp. rewrite H1, (proj2 (Z.leb_gt _ 0)) by lia. rewrite Nat2Z.id.
  rewrite H2, (proj2 (Z.leb_gt _ 0)) by lia. dsimp.
  rewrite (i64_small (Z.of_nat m)), i64_small by (unfold is_i64; lia).
  replace (Z.of_nat m + 1) with (0 + 1 + Z.of_nat m) by lia.
  by rewrite (proj2 (Z.ltb_lt 0 _)) by lia.
Qed.

(** A block in one of the three formats, in any decoder. *)
Lemma format_delivers z zs b d :
  dec_ok d -> Forall is_u64 (z :: zs) -> Z.of_nat (length zs) < 2 ^ 62 -> int_format z zs b ->
  delivers (SetBytes d b) (zigzag_sum 0 (z :: zs)).
Proof.
  intros Hd Hu Hlen. inversion Hu as [|? ? Hz Hzs]; subst.
  intros [|ws Hws Hv|delta Hne Hsame].
  - by apply delivers_raw.
  - rewrite <- Hv. cbn [zigzag_sum]. rewrite <- (app_nil_l (words_values ws)).
    unfold SetBytes. change (Z.shiftr (Z.shiftl intCompressedSimple 4) 4) with 1.
    change (be_encode 8 z ++ words_bytes ws) with (words_bytes (z :: ws)).
    pose proof (Next_word (d_values d) ws z 0 0 0 true 0 0 Hz Hd ltac:(lia)) as HN. cbn iota in HN.
    eapply delivers_cons; [exact HN|apply Read_value; [done|]|done|].
    + change (Z.to_nat 0) with 0%nat. apply list_lookup_insert_eq. unfold dec_ok in Hd. lia.
    + apply (delivers_packed ws [] _ 0 1); rewrite ?length_insert; try done; try lia.
      apply drop_ge. rewrite length_take. lia.
  - rewrite (elem_replicate delta zs Hsame) at 2. apply delivers_rle; try done.
    destruct zs as [|y zs]; [done|]. rewrite <- (Hsame y) by left. by inversion Hzs.
Qed.

(** ** What the streaming encoder writes *)
Definition same (l : list Z) : Prop := forall x y, x ∈ l -> y ∈ l -> x = y.

Lemma same_snoc l x y : last l = Some y -> (same (l ++ [x]) <-> same l /\ y = x).
Proof.
  intros Hy. assert (y ∈ l) as Hin by (apply last_Some in Hy as [l' ->]; set_solver).
  unfold same. split.
  - intros H. split; [intros a b Ha Hb; apply H; set_solver|apply H; set_solver].
  - intros [H ->] a b. rewrite !elem_of_app, !list_elem_of_singleton.
    intros [Ha| ->] [Hb| ->]; auto.
Qed.

(** The encoder after writing [l] since its last reset. *)
Definition wrote (e : IntegerEncoder) (l : list Z) : Prop :=
  values e = zigzag_diffs 0 l /\ prev e = default 0 (last l) /\
  (rle e = true <-> same (drop 1 (values e))).

Lemma Reset_wrote e : wrote (Reset e) [].
Proof. split; [done|]. split; [done|]. split; [|done]. intros _ x y Hx. by apply elem_of_nil in Hx. Qed.

Lemma int_Write_wrote e l x : wrote e l -> wrote (Write e x) (l ++ [x]).
Proof.
  intros (Hv & Hp & Hr). unfold Write, wrote. cbn [values prev rle].
  rewrite zigzag_diffs_snoc, <- Hv, <- Hp, last_snoc.
  split; [done|]. split; [done|]. set (enc := ZigZagEncode _).
  destruct (values e) as [|z zs] eqn:Ez.
  { cbn. rewrite Hr. cbn. done. }
  destruct zs as [|d r] using rev_ind; cbn [length app drop].
  { cbn. rewrite Hr. cbn. split; [|by intros _ x' y' Hx%elem_of_nil].
    intros _ a b. rewrite !list_elem_of_singleton. congruence. }
  clear IHr. rewrite bool_decide_true by (rewrite length_app; cbn; lia).
  replace (S (length (r ++ [d])) - 1)%nat with (length (z :: r)) by (rewrite length_app; cbn; lia).
  assert ((z :: r ++ [d]) !!! length (z :: r) = d) as ->
    by (apply list_lookup_total_correct; by apply (list_lookup_middle (z :: r) [])).
  cbn [app drop] in Hr |- *. rewrite andb_true_iff, Hr, Z.eqb_eq.
  rewrite (same_snoc (r ++ [d]) enc d) by apply last_snoc. done.
Qed.

Lemma int_write_values_wrote e l : wrote (Codec.write_values (Reset e) l) l.
Proof.
  unfold Codec.write_values.
  induction l as [|x l IH] using rev_ind; [apply Reset_wrote|].
  rewrite foldl_app. by apply int_Write_wrote.
Qed.

Lemma existsb_large l : existsb (fun v => MaxValue <? v) l = false -> Forall in_range l.
Proof.
  intros H. apply Forall_forall. intros x Hx. unfold in_range.
  destruct (Z.le_gt_cases x MaxValue) as [|Hgt]; [done|].
  assert (existsb (fun v => MaxValue <? v) l = true) as E.
  { apply existsb_exists. exists x. rewrite <- list_elem_of_In, Z.ltb_lt. by split. }
  congruence.
Qed.

Lemma int_Bytes_format e l z zs :
  wrote e l -> zigzag_diffs 0 l = z :: zs ->
  exists e' b, Bytes e = Ok (e', b) /\ int_format z zs b /\
    ((2 < length l)%nat /\ same zs <-> exists r, b = Z.shiftl intCompressedRLE 4 :: r).
Proof.
  intros (Hv & _ & Hr) Hz. rewrite Hz in Hv. rewrite Hv in Hr. cbn [drop] in Hr.
  pose proof (zigzag_diffs_u64 0 l) as Hu. rewrite Hz in Hu.
  inversion Hu as [|? ? Hzu Hzs]; subst.
  assert (length l = length (z :: zs)) as Hll by (by rewrite <- Hz, length_zigzag_diffs).
  unfold Bytes. rewrite Hv.
  destruct (rle e && bool_decide (2 < length (z :: zs))%nat) eqn:Eb.
  - apply andb_true_iff in Eb as [Hs%Hr Hlen%bool_decide_eq_true].
    unfold encodeRLE. rewrite Hv. destruct zs as [|d zs]; [cbn in Hlen; lia|].
    cbn [index lookup list_lookup mbind outcome_bind]. do 2 eexists. split; [reflexivity|].
    replace (Z.of_nat (length (z :: d :: zs)) - 1) with (Z.of_nat (length (d :: zs))) by (cbn; lia).
    split; [|split; [by eexists|split; [by rewrite Hll|done]]].
    apply fmt_rle; [done|]. intros x Hx. apply Hs; [done|left].
  - assert (~ ((2 < length l)%nat /\ same zs)) as Hno.
    { rewrite Hll, <- Hr. intros [Hlen Hs]. rewrite Hs, bool_decide_true in Eb; done. }
    destruct (existsb _ _) eqn:Ex.
    + unfold encodeUncompressed. rewrite Hv. do 2 eexists. split; [reflexivity|].
      split; [constructor|]. split; [done|by intros [r [=]]].
    + apply existsb_large in Ex. inversion Ex; subst. unfold encodePacked. rewrite Hv.
      destruct (EncodeAll_Ok zs) as (ws & -> & Hws & Hw); [done..|]. cbn [mbind outcome_bind].
      do 2 eexists. split; [reflexivity|]. split; [by constructor|].
      split; [done|by intros [r [=]]].
Qed.

Lemma int_format_bytes z zs b : int_format z zs b -> bytes_ok b /\ b <> [].
Proof.
  intros [|ws|delta]; (split; [|done]); constructor; (try by vm_compute);
    change (Forall is_byte) with bytes_ok; rewrite ?bytes_ok_app; split_and?;
    auto using words_bytes_ok, be_encode_ok, PutUvarint_ok.
Qed.

(** ** The batch encoder *)
Lemma zigzag_loop_spec r : forall a suf max,
  let T := tail (zigzag_diffs 0 (a :: r)) in
  exists max', zigzag_loop (length r) ((u64 <$> a :: r) ++ suf) max = (u64 a :: T ++ suf, max') /\
    max <= max' /\ Forall (fun v => v <= max') T /\ (max' = max \/ max' ∈ T).
Proof.
  induction r as [|y r IH] using rev_ind; intros a suf max T.
  { exists max. split; [done|]. split; [lia|]. split; [constructor|by left]. }
  destruct (last (a :: r)) as [x|] eqn:Ex; [|by apply last_None in Ex].
  assert (T = tail (zigzag_diffs 0 (a :: r)) ++ [ZigZagEncode (i64 (y - x))]) as ->.
  { unfold T. rewrite app_comm_cons, zigzag_diffs_snoc, Ex. done. }
  rewrite length_app, Nat.add_1_r. cbn [zigzag_loop].
  rewrite app_comm_cons, fmap_app, <- app_assoc. cbn [fmap list_fmap app].
  set (us := u64 a :: (u64 <$> r) ++ u64 y :: suf).
  assert (us = (u64 <$> a :: r) ++ u64 y :: suf) as Eus by done.
  assert (us !!! S (length r) = u64 y) as ->.
  { apply list_lookup_total_correct. rewrite Eus, <- (length_cons a r), <- (length_fmap u64).
    by apply list_lookup_middle. }
  assert (us !!! length r = u64 x) as ->.
  { apply list_lookup_total_correct. rewrite Eus, lookup_app_l by (rewrite length_fmap; cbn; lia).
    rewrite list_lookup_fmap. rewrite last_lookup in Ex. cbn [length Nat.pred] in Ex. by rewrite Ex. }
  rewrite i64_u64. set (v := ZigZagEncode (i64 (u64 y - u64 x))).
  assert (ZigZagEncode (i64 (y - x)) = v) as ->.
  { unfold v. f_equal. rewrite <- (i64_u64 (u64 y - _)), u64_sub_idem_l, u64_sub_idem_r. by rewrite i64_u64. }
  assert (<[S (length r) := v]> us = (u64 <$> a :: r) ++ v :: suf) as ->.
  { rewrite Eus. rewrite insert_app_r_alt by (by rewrite length_fmap). f_equal.
    by rewrite length_fmap, Nat.sub_diag. }
  destruct (IH a (v :: suf) (if max <? v then v else max)) as (m & HE & Hm & HF & Hor).
  rewrite HE. exists m. assert (max <= m /\ v <= m) as [] by (destruct (Z.ltb_spec max v); lia).
  split; [by rewrite <- app_assoc|]. split; [done|]. split.
  - apply Forall_app. split; [done|]. constructor; [done|constructor].
  - rewrite elem_of_app, list_elem_of_singleton. destruct Hor as [->|]; [|by auto].
    destruct (max <? v); auto.
Qed.

Lemma all_equal_same z d r : all_equal (z :: d :: r) = true <-> same (d :: r).
Proof.
  unfold all_equal. cbn [drop]. change (drop 0 r) with r.
  change ((z :: d :: r) !!! 1%nat) with d. rewrite forallb_forall. split.
  - intros H. assert (forall x, x ∈ d :: r -> x = d) as Hd.
    { intros x [->|Hx%list_elem_of_In%H]%elem_of_cons; [done|]. symmetry. by apply Z.eqb_eq. }
    intros x y Hx%Hd Hy%Hd. congruence.
  - intros H x Hx%list_elem_of_In. apply Z.eqb_eq. apply H; [left|by right].
Qed.

Lemma zigzag_diffs_split l x r : l = x :: r -> is_i64 x ->
  zigzag_diffs 0 l = ZigZagEncode x :: tail (zigzag_diffs 0 l).
Proof. intros -> Hx. cbn. by rewrite Z.sub_0_r, i64_small. Qed.

(** The result of the batch encoder: one of the three formats, followed in the
    packed case by what the given buffer already held beyond it. *)
Lemma IntegerArrayEncodeAll_format l b z zs :
  slice_ok b -> Forall is_i64 l -> zigzag_diffs 0 l = z :: zs ->
  exists s out tl, IntegerArrayEncodeAll l b = Ok s /\ int_format z zs out /\
    contents s = out ++ tl /\
    ((slen b <= length out)%nat -> tl = []) /\
    ((exists r, out = Z.shiftl intCompressedSimple 4 :: r) -> tl = drop (length out) (contents b)).
Proof.
  intros Hb Hl Hz. destruct l as [|x r]; [done|]. inversion Hl as [|? ? Hx Hr]; subst.
  pose proof (zigzag_diffs_split _ x r eq_refl Hx) as Hsplit. rewrite Hz in Hsplit.
  injection Hsplit as Hzx.
  pose proof (zigzag_diffs_u64 0 (x :: r)) as Hu. rewrite Hz in Hu.
  inversion Hu as [|? ? Hzu Hzsu]; subst z.
  destruct (zigzag_loop_spec r x [] 0) as (m & HE & _ & HF & Hor).
  rewrite Hz in HE, HF, Hor. cbn [tail] in HE, HF, Hor. rewrite !app_nil_r in HE.
  unfold IntegerArrayEncodeAll. replace (length (x :: r) - 1)%nat with (length r) by (cbn; lia).
  rewrite HE. cbn [index lookup list_lookup mbind outcome_bind].
  rewrite store_in_range by (cbn; lia). cbn [mbind outcome_bind].
  cbn [insert list_insert]. rewrite i64_u64, (i64_small x) by done.
  destruct (bool_decide _ && all_equal _) eqn:Eb.
  - apply andb_true_iff in Eb as [Hlen%bool_decide_eq_true Hall].
    destruct zs as [|d zs']; [cbn in Hlen; lia|].
    cbn [index lookup list_lookup mbind outcome_bind].
    replace (Z.of_nat (length (ZigZagEncode x :: d :: zs')) - 1)
      with (Z.of_nat (length (d :: zs'))) by (cbn; lia).
    do 2 eexists. exists []. split; [reflexivity|]. split.
    { apply fmt_rle; [done|]. intros y Hy. apply all_equal_same in Hall. apply Hall; [done|left]. }
    rewrite contents_emit, app_nil_r. split; [done|]. split; [done|]. by intros [? [=]].
  - destruct (Z.ltb_spec MaxValue m) as [Hbig|Hsmall].
    + do 2 eexists. exists []. split; [reflexivity|]. split; [constructor|].
      rewrite contents_emit, app_nil_r. split; [done|]. split; [done|]. by intros [? [=]].
    + rewrite tail_from_Ok by (cbn; lia). cbn [drop mbind outcome_bind].
      change (drop 0 zs) with zs.
      destruct (EncodeAll_Ok zs) as (ws & -> & Hws & Hw); [done| |].
      { eapply Forall_impl; [exact HF|]. unfold in_range. cbn. lia. }
      cbn [mbind outcome_bind]. set (out := _ :: be_encode 8 _ ++ _).
      pose proof (ensure_slen b (length out) Hb) as Hs. pose proof (ensure_ok b (length out) Hb) as Hok.
      unfold slice_ok, scap in Hok.
      exists (Slice (splice (backing (ensure b (length out))) 0 out) (slen (ensure b (length out)))), out,
        (drop (length out) (contents (ensure b (length out)))).
      split; [done|]. split; [by apply fmt_packed|]. split; [|split].
      * unfold contents. cbn [backing slen]. unfold splice. rewrite take_0. cbn [app Nat.add].
        rewrite take_app, (take_ge out) by lia. f_equal. by rewrite take_drop_commute, Nat.add_comm, Nat.sub_add by lia.
      * intros Hle. apply drop_ge. rewrite contents_length by done. lia.
      * intros _. destruct (Nat.le_gt_cases (slen b) (length out)) as [Hle|Hgt].
        -- rewrite !drop_ge; [done|rewrite contents_length by done; lia..].
        -- f_equal. rewrite <- (contents_ensure b (length out)) by done.
           symmetry. apply take_ge. rewrite contents_length by done. lia.
Qed.

(** ** The batch decoder *)
Lemma run_loop_sum m a delta :
  a = i64 a -> a :: zigzag_sum a (replicate m delta) = run_loop (S m) a (ZigZagDecode delta).
Proof.
  revert a. induction m as [|m IH]; intros a Ha; [done|].
  cbn [replicate zigzag_sum run_loop]. f_equal.
  rewrite IH by (symmetry; apply i64_small, i64_range). done.
Qed.

Lemma run_loop_0 n a : is_i64 a -> run_loop n a 0 = replicate n a.
Proof.
  intros Ha. induction n as [|n IH]; [done|]. cbn.
  by rewrite Z.add_0_r, i64_small, IH.
Qed.

Lemma int_batch_dispatch hd rest dst e f :
  Z.shiftr hd 4 = e -> 0 <= e <= 2 -> integerBatchDecoderFunc !! Z.to_nat e = Some f ->
  IntegerArrayDecodeAll (hd :: rest) dst = f (hd :: rest) dst.
Proof.
  intros He Hr Hf. unfold IntegerArrayDecodeAll. rewrite He.
  unfold intCompressedRLE. rewrite (proj2 (Z.ltb_ge 2 e)) by lia.
  change 3 with (Z.ones 2). rewrite Z.land_ones, Z.mod_small by lia.
  by rewrite (index_lookup _ _ f).
Qed.

Lemma format_batch z zs b dst :
  Forall is_u64 (z :: zs) -> Z.of_nat (length zs) < 2 ^ 62 -> int_format z zs b ->
  IntegerArrayDecodeAll b dst = Ok (zigzag_sum 0 (z :: zs)).
Proof.
  intros Hu Hlen. inversion Hu as [|? ? Hz Hzs]; subst. intros [|ws Hws Hv|delta Hne Hsame].
  - rewrite (int_batch_dispatch _ _ dst 0 integerBatchDecodeAllUncompressed) by (done || lia).
    unfold integerBatchDecodeAllUncompressed. rewrite tail_from_Ok by (cbn; lia).
    cbn [mbind outcome_bind drop]. rewrite drop_0, words_bytes_aligned. cbn [Z.eqb negb].
    by rewrite length_words_bytes_div, raw_words_bytes.
  - rewrite (int_batch_dispatch _ _ dst 1 integerBatchDecodeAllSimple) by (done || lia).
    unfold integerBatchDecodeAllSimple. rewrite tail_from_Ok by (cbn; lia).
    cbn [mbind outcome_bind drop]. rewrite drop_0.
    rewrite bool_decide_false by (rewrite length_app, length_be_encode; lia).
    rewrite drop_app_length' by (by rewrite length_be_encode).
    rewrite CountBytes_spec by done. cbn [mbind outcome_bind].
    rewrite Uint64_encode by done. cbn [mbind outcome_bind].
    rewrite Nat2Z.id, DecodeBytesBigEndian_spec by (rewrite ?sized_tail; done).
    cbn [mbind outcome_bind]. rewrite Z.eqb_refl. cbn [negb].
    rewrite drop_ge by (by rewrite sized_tail). rewrite app_nil_r, Hv.
    cbn [zigzag_sum]. by rewrite Z.add_0_l, (i64_small (ZigZagDecode z)) by apply ZigZagDecode_i64.
  - rewrite (int_batch_dispatch _ _ dst 2 integerBatchDecodeAllRLE) by (done || lia).
    assert (is_u64 delta) as Hd.
    { destruct zs as [|y zs]; [done|]. rewrite <- (Hsame y) by left. by inversion Hzs. }
    set (m := length zs) in *.
    destruct (PutUvarint_split z delta (Z.of_nat m)) as (Hb & Hu1 & _ & H1 & H2 & Hp1 & Hp2);
      [done|done|unfold is_u64; lia|].
    set (bb := _ ++ _) in *. unfold integerBatchDecodeAllRLE.
    rewrite tail_from_Ok by (cbn; lia). cbn [mbind outcome_bind drop]. rewrite drop_0.
    rewrite bool_decide_false by lia. rewrite Hu1. cbn [mbind outcome_bind].
    rewrite H1, (proj2 (Z.leb_gt _ 0)) by lia. rewrite Nat2Z.id.
    rewrite H2, (proj2 (Z.leb_gt _ 0)) by lia.
    rewrite (u64_small (Z.of_nat m + 1)), (i64_small (Z.of_nat m + 1))
      by (unfold is_u64, is_i64; lia).
    rewrite (proj2 (Z.ltb_ge _ 0)) by lia.
    replace (Z.to_nat (Z.of_nat m + 1)) with (S m) by lia.
    pose proof (elem_replicate delta zs Hsame) as Er. fold m in Er. rewrite Er.
    cbn [zigzag_sum]. rewrite Z.add_0_l, (i64_small (ZigZagDecode z)) by apply ZigZagDecode_i64.
    rewrite run_loop_sum by (symmetry; apply i64_small, ZigZagDecode_i64).
    destruct (Z.eqb_spec (ZigZagDecode delta) 0) as [E0|]; [|done].
    by rewrite E0, run_loop_0 by apply ZigZagDecode_i64.
Qed.

Lemma zigzag_diffs_cons x r : exists z zs, zigzag_diffs 0 (x :: r) = z :: zs /\
  length zs = length r /\ Forall is_u64 (z :: zs).
Proof.
  do 2 eexists. split; [reflexivity|]. split; [by rewrite length_zigzag_diffs|].
  exact (zigzag_diffs_u64 0 (x :: r)).
Qed.

(** The codec, as the block layer uses it. *)
Lemma int_codec e d l :
  dec_ok d -> l <> [] -> Forall is_i64 l -> Z.of_nat (length l) < 2 ^ 56 ->
  exists e1 b, Bytes (Codec.write_values (Reset e) l) = Ok (e1, b) /\ bytes_ok b /\
    delivers (SetBytes d b) l.
Proof.
  intros Hd Hne Hl Hlen. destruct l as [|x r]; [done|].
  destruct (zigzag_diffs_cons x r) as (z & zs & Hz & Hzl & Hu).
  destruct (int_Bytes_format _ _ _ _ (int_write_values_wrote e (x :: r)) Hz) as (e1 & b & HB & Hf & _).
  exists e1, b. split; [done|]. split; [by eapply int_format_bytes|].
  rewrite <- (zigzag_sum_diffs 0 (x :: r)), Hz by done.
  apply format_delivers; [done|done|cbn in Hlen; lia|done].
Qed.

#[global, refine] Instance Integer_codec : Codec.CodecLaws IntegerEncoder IntegerDecoder Z := {
  Codec.valid := Forall is_i64;
  Codec.enc_usable _ := True;
  Codec.dec_usable := dec_ok;
  Codec.reset_usable := _;
  Codec.codec_roundtrip := _
}.
Proof.
  - intros e _. by exists (Reset e).
  - intros e d l _ Hd Hne Hl Hlen.
    destruct (int_codec e d l Hd Hne Hl Hlen) as (e1 & b & HB & Hok & Hdel).
    exists (Reset e), e1, b, (SetBytes d b). done.
Defined.

Lemma batch_encode_ok l b :
  slice_ok b -> (slen b <= 9)%nat -> l <> [] -> Forall is_i64 l ->
  exists s z zs, IntegerArrayEncodeAll l b = Ok s /\ int_format z zs (contents s) /\
    zigzag_diffs 0 l = z :: zs /\ Forall is_u64 (z :: zs).
Proof.
  intros Hb Hs Hne Hl. destruct l as [|x r]; [done|].
  destruct (zigzag_diffs_cons x r) as (z & zs & Hz & _ & Hu).
  destruct (IntegerArrayEncodeAll_format _ b z zs Hb Hl Hz) as (s & out & tl & HE & Hf & Hc & Ht & _).
  assert (9 <= length out)%nat as H9.
  { destruct Hf; cbn [length]; rewrite ?length_words_bytes, ?length_app, ?length_be_encode; cbn [length]; lia. }
  rewrite Ht, app_nil_r in Hc by lia. exists s, z, zs. by rewrite Hc.
Qed.

Lemma int_array_codec l b dst d :
  slice_ok b -> (slen b <= 9)%nat -> l <> [] -> Z.of_nat (length l) < 2 ^ 62 -> dec_ok d ->
  (Forall is_i64 l -> exists s, IntegerArrayEncodeAll l b = Ok s /\
     IntegerArrayDecodeAll (contents s) dst = Ok l /\
     Codec.yields dec_ok (SetBytes d (contents s)) l) /\
  (Forall is_u64 l -> exists s, UnsignedArrayEncodeAll l b = Ok s /\
     UnsignedArrayDecodeAll (contents s) dst = Ok l).
Proof.
  intros Hb Hs Hne Hlen Hd. split; intros Hl.
  - destruct (batch_encode_ok l b) as (s & z & zs & HE & Hf & Hz & Hu); [done..|].
    assert (length l = S (length zs)) as Hll by (rewrite <- (length_zigzag_diffs 0), Hz; done).
    exists s. split; [done|]. rewrite <- (zigzag_sum_diffs 0 l), Hz by done.
    split; [apply format_batch|apply format_delivers]; (done || lia).
  - assert (Forall is_i64 (i64 <$> l)) as Hi by (apply Forall_fmap, Forall_true; apply i64_range).
    destruct (batch_encode_ok (i64 <$> l) b) as (s & z & zs & HE & Hf & Hz & Hu);
      [done|done|by destruct l|done|].
    assert (length l = S (length zs)) as Hll
      by (rewrite <- (length_fmap i64 l), <- (length_zigzag_diffs 0), Hz; done).
    exists s. split; [done|].
    set (dst' := Slice (i64 <$> backing dst) (slen dst)).
    pose proof (format_batch z zs (contents s) dst' Hu ltac:(lia) Hf) as HD.
    rewrite <- Hz, zigzag_sum_diffs in HD by done.
    destruct (int_format_bytes _ _ _ Hf) as [_ Hn]. unfold UnsignedArrayDecodeAll, IntegerArrayDecodeAll in *.
    destruct (contents s) as [|b0 rest]; [done|]. fold dst'.
    destruct (index _ _) as [f|e|]; [|done..]. cbn [mbind outcome_bind] in *. rewrite HD.
    cbn [mbind outcome_bind]. f_equal. clear -Hl. induction Hl as [|x r Hx _ IH]; [done|].
    cbn [fmap list_fmap]. rewrite u64_i64, (u64_small x) by done. by rewrite <- IH at 2.
Qed.

(** * Theorems *)

(** The zig-zag map is a bijection between [int64] and [uint64]: each
    direction stays in range and undoes the other, and a value of magnitude [k]
    is sent to at most [2k]. *)
Theorem ZigZag_bijection x v :
  is_i64 x -> is_u64 v ->
  is_u64 (ZigZagEncode x) /\ ZigZagEncode x <= 2 * Z.abs x /\ ZigZagDecode (ZigZagEncode x) = x /\
  is_i64 (ZigZagDecode v) /\ ZigZagEncode (ZigZagDecode v) = v.
Proof.
  intros Hx Hv. split; [by apply ZigZagEncode_u64|].
  split; [rewrite ZigZagEncode_value by done; destruct (Z.ltb_spec x 0); lia|].
  split; [by apply ZigZag_decode_encode|]. split; [apply ZigZagDecode_i64|].
  by apply ZigZag_encode_decode.
Qed.

Lemma ZigZag_bijection_witness :
  is_u64 (ZigZagEncode (-3)) /\ ZigZagEncode (-3) <= 2 * Z.abs (-3) /\
  ZigZagDecode (ZigZagEncode (-3)) = -3 /\
  is_i64 (ZigZagDecode (2 ^ 64 - 1)) /\ ZigZagEncode (ZigZagDecode (2 ^ 64 - 1)) = 2 ^ 64 - 1.
Proof. apply (ZigZag_bijection (-3) (2 ^ 64 - 1)); by apply (bool_decide_unpack _); vm_compute. Defined.

(** the streaming integer codec round-trips: every nonempty list of int64
    values, written to a reset encoder, is delivered by a decoder in any previous
    state, whichever format was chosen; and the run-length format is chosen
    exactly when there are at least three values with one common difference. *)
Theorem int_stream_roundtrip e d l :
  dec_ok d -> l <> [] -> Forall is_i64 l -> Z.of_nat (length l) < 2 ^ 62 ->
  exists e' b, Bytes (Codec.write_values (Reset e) l) = Ok (e', b) /\
    Codec.yields dec_ok (SetBytes d b) l /\
    ((2 < length l)%nat /\ same (tail (zigzag_diffs 0 l)) <->
       exists r, b = Z.shiftl intCompressedRLE 4 :: r).
Proof.
  intros Hd Hne Hl Hlen. destruct l as [|x r]; [done|].
  destruct (zigzag_diffs_cons x r) as (z & zs & Hz & Hzl & Hu).
  destruct (int_Bytes_format _ _ _ _ (int_write_values_wrote e (x :: r)) Hz) as (e1 & b & HB & Hf & Hr).
  exists e1, b. split; [done|]. rewrite Hz. split; [|done].
  rewrite <- (zigzag_sum_diffs 0 (x :: r)), Hz by done.
  apply format_delivers; [done|done|cbn in Hlen; lia|done].
Qed.

Lemma int_stream_roundtrip_witness :
  Forall is_i64 [7; -2; 2 ^ 62] /\
  exists e' b, Bytes (Codec.write_values (Reset (NewIntegerEncoder 0)) [7; -2; 2 ^ 62]) = Ok (e', b) /\
    Codec.yields dec_ok (SetBytes NewIntegerDecoder b) [7; -2; 2 ^ 62] /\
    ((2 < 3)%nat /\ same (tail (zigzag_diffs 0 [7; -2; 2 ^ 62])) <->
       exists r, b = Z.shiftl intCompressedRLE 4 :: r).
Proof.
  assert (Forall is_i64 [7; -2; 2 ^ 62]) as H by (by apply (bool_decide_unpack _); vm_compute).
  split; [exact H|].
  apply (int_stream_roundtrip (NewIntegerEncoder 0) NewIntegerDecoder [7; -2; 2 ^ 62]);
    [reflexivity|discriminate|exact H|vm_compute; reflexivity].
Defined.

(** The batch pair round-trips, for int64 and for uint64 values, with any
    destination buffer and any source buffer no longer than nine bytes, and the
    streaming decoder reads the same block. *)
Theorem int_batch_roundtrip l b dst d :
  slice_ok b -> (slen b <= 9)%nat -> l <> [] -> Z.of_nat (length l) < 2 ^ 62 -> dec_ok d ->
  (Forall is_i64 l -> exists s, IntegerArrayEncodeAll l b = Ok s /\
     IntegerArrayDecodeAll (contents s) dst = Ok l /\
     Codec.yields dec_ok (SetBytes d (contents s)) l) /\
  (Forall is_u64 l -> exists s, UnsignedArrayEncodeAll l b = Ok s /\
     UnsignedArrayDecodeAll (contents s) dst = Ok l).
Proof. apply int_array_codec. Qed.

Lemma int_batch_roundtrip_witness :
  (exists s, IntegerArrayEncodeAll [5; 4; 3; 2] nil_slice = Ok s /\
     IntegerArrayDecodeAll (contents s) nil_slice = Ok [5; 4; 3; 2] /\
     Codec.yields dec_ok (SetBytes NewIntegerDecoder (contents s)) [5; 4; 3; 2]) /\
  exists s, UnsignedArrayEncodeAll [5; 4; 3; 2] nil_slice = Ok s /\
     UnsignedArrayDecodeAll (contents s) nil_slice = Ok [5; 4; 3; 2].
Proof.
  destruct (int_batch_roundtrip [5; 4; 3; 2] nil_slice nil_slice NewIntegerDecoder) as [H1 H2];
    [vm_compute; lia|vm_compute; lia|discriminate|vm_compute; reflexivity|reflexivity|].
  split; [apply H1|apply H2]; by apply (bool_decide_unpack _); vm_compute.
Defined.

(** The packed case of the batch encoder returns the whole buffer: when the
    buffer it was given is longer than the block, the bytes beyond the block are
    the buffer's old ones. *)
Theorem int_batch_packed_keeps_tail l b z zs s :
  slice_ok b -> Forall is_i64 l -> zigzag_diffs 0 l = z :: zs ->
  IntegerArrayEncodeAll l b = Ok s -> (exists r, contents s = Z.shiftl intCompressedSimple 4 :: r) ->
  exists ws, words_values ws = zs /\
    let out := Z.shiftl intCompressedSimple 4 :: be_encode 8 z ++ words_bytes ws in
    contents s = out ++ drop (length out) (contents b).
Proof.
  intros Hb Hl Hz HE [r Hr].
  destruct (IntegerArrayEncodeAll_format l b z zs Hb Hl Hz) as (s' & out & tl & HE' & Hf & Hc & _ & Ht).
  assert (s' = s) as -> by congruence. rewrite Hc in Hr.
  destruct Hf as [|ws Hws Hv|]; [discriminate Hr| |discriminate Hr].
  exists ws. split; [done|]. cbv zeta. rewrite Hc. f_equal. apply Ht. by eexists.
Qed.

Lemma int_batch_packed_keeps_tail_witness :
  let b := make_slice 9 24 24 in
  exists s, IntegerArrayEncodeAll [1; 2] b = Ok s /\ length (contents s) = 24%nat /\
  exists ws, words_values ws = [2] /\
    let out := Z.shiftl intCompressedSimple 4 :: be_encode 8 2 ++ words_bytes ws in
    contents s = out ++ drop (length out) (contents b).
Proof.
  intros b. eexists. split; [vm_compute; reflexivity|]. split; [vm_compute; reflexivity|].
  apply (int_batch_packed_keeps_tail [1; 2] b 2 [2]).
  - vm_compute. lia.
  - by apply (bool_decide_unpack _); vm_compute.
  - reflexivity.
  - vm_compute. reflexivity.
  - eexists. vm_compute. reflexivity.
Defined.

End Integer.
