(* ===== verification/Boolean.v ===== *)
(** Boolean codec (src/storage/codec/bool.go): the streaming [BooleanEncoder] and
    [BooleanDecoder] and the batch pair [BooleanArrayEncodeAll] and
    [BooleanArrayDecodeAll].

    One bit per value, the first value in the highest bit of the first byte,
    behind a header byte and the number of values as a varint.  [bits] is the
    abstract content of the packed bytes. *)
From S2P Require Import Prelude Binary Bits Codec.
Import Buffer Bits.

Module Boolean.

Definition booleanCompressedBitPacked : Z := 1.

(** ** Streaming encoder *)
Record BooleanEncoder := MkBooleanEncoder {
  e_bytes : list Z;
  e_b : Z;
  e_i : nat;
  e_n : nat
}.

Definition NewBooleanEncoder (sz : nat) : BooleanEncoder := MkBooleanEncoder [] 0 0 0.

Definition Reset (e : BooleanEncoder) : BooleanEncoder := MkBooleanEncoder [] 0 0 0.

(** [for e.i < 8 { e.b = e.b << 1; e.i++ }], [k] rounds. *)
Fixpoint pad (k : nat) (b : Z) : Z :=
  match k with
  | O => b
  | S k' => pad k' (u8 (Z.shiftl b 1))
  end.

Definition flush (e : BooleanEncoder) : BooleanEncoder :=
  let b := pad (8 - e_i e) (e_b e) in
  let i := Nat.max (e_i e) 8 in
  if bool_decide (0 < i)%nat then MkBooleanEncoder (e_bytes e ++ [b]) 0 0 (e_n e)
  else MkBooleanEncoder (e_bytes e) b i (e_n e).

Definition Write (e : BooleanEncoder) (b : bool) : BooleanEncoder :=
  let e := if bool_decide (8 <= e_i e)%nat then flush e else e in
  let eb := u8 (Z.shiftl (e_b e) 1) in
  let eb := if b then Z.lor eb 1 else eb in
  MkBooleanEncoder (e_bytes e) eb (S (e_i e)) (S (e_n e)).

Definition Bytes (e : BooleanEncoder) : BooleanEncoder * list Z :=
  let e := flush e in
  (e, Z.shiftl booleanCompressedBitPacked 4 :: PutUvarint (Z.of_nat (e_n e)) ++ e_bytes e).

(** ** Streaming decoder *)
Record BooleanDecoder := MkBooleanDecoder {
  d_b : list Z;
  d_i : Z;
  d_n : Z;
  d_err : option string
}.

(** [&BooleanDecoder{}]. *)
Definition NewBooleanDecoder : BooleanDecoder := MkBooleanDecoder [] 0 0 None.

(** Neither the early return nor the success path touches [err]. *)
Definition SetBytes (d : BooleanDecoder) (b : list Z) : BooleanDecoder :=
  match b with
  | [] => d
  | _ :: b =>
      let '(count, n) := Uvarint b in
      if n <=? 0
      then MkBooleanDecoder (d_b d) (d_i d) (d_n d) (Some "BooleanDecoder: invalid count"%string)
      else
        let rest := drop (Z.to_nat n) b in
        let min := Z.of_nat (length rest) * 8 in
        MkBooleanDecoder rest (-1) (if min <? i64 count then min else i64 count) (d_err d)
  end.

Definition Next (d : BooleanDecoder) : BooleanDecoder * bool :=
  match d_err d with
  | Some _ => (d, false)
  | None => (MkBooleanDecoder (d_b d) (d_i d + 1) (d_n d) None, d_i d + 1 <? d_n d)
  end.

Definition Read (d : BooleanDecoder) : outcome bool :=
  let idx := Z.shiftr (d_i d) 3 in
  let pos := 7 - Z.land (d_i d) 7 in
  let mask := u8 (Z.shiftl 1 pos) in
  if idx <? 0 then Panic
  else v ← index (d_b d) (Z.to_nat idx); Ok (Z.land v mask =? mask).

Definition Error (d : BooleanDecoder) : option string := d_err d.

#[global] Instance BooleanEncoder_methods : Codec.ValueEncoder BooleanEncoder bool := {
  Codec.reset e := Ok (Reset e);
  Codec.write := Write;
  Codec.bytes e := Ok (Bytes e)
}.

#[global] Instance BooleanDecoder_methods : Codec.ValueDecoder BooleanDecoder bool := {
  Codec.set_bytes d b := Ok (SetBytes d b);
  Codec.next d := Ok (Next d);
  Codec.read d := (fun x => (d, x)) <$> Read d;
  Codec.error := Error
}.

(** ** Batch encoder *)

(** [b[n>>3] |= 128 >> (n & 7)], or [&^=], for each value. *)
Fixpoint set_bits (src : list bool) (n : Z) (b : list Z) : outcome (list Z * Z) :=
  match src with
  | [] => Ok (b, n)
  | v :: r =>
      let i := Z.to_nat (Z.shiftr n 3) in
      let mask := Z.shiftr 128 (Z.land n 7) in
      old ← index b i;
      b' ← store b i (if v then Z.lor old mask else Z.ldiff old mask);
      set_bits r (n + 1) b'
  end.

Definition BooleanArrayEncodeAll (src : list bool) (b : slice Z) : outcome (slice Z) :=
  let sz := (1 + 8 + (length src + 7) / 8)%nat in
  let b := if bool_decide (slen b < sz)%nat && bool_decide (sz < scap b)%nat
           then Slice (backing b) sz
           else if bool_decide (slen b < sz)%nat then append b (replicate sz 0)
           else b in
  let count := PutUvarint (Z.of_nat (length src)) in
  let cells := splice (contents b) 0 (Z.shiftl booleanCompressedBitPacked 4 :: count) in
  '(cells, n) ← set_bits src (8 + Z.of_nat (length count) * 8) cells;
  let len := Z.shiftr n 3 + (if 0 <? Z.land n 7 then 1 else 0) in
  reslice (Slice (cells ++ drop (slen b) (backing b)) (slen b)) (Z.to_nat len).

(** ** Batch decoder *)

(** [for i := byte(128); i > 0 && j < len(dst); i >>= 1 { dst[j] = v&i != 0; j++ }]:
    eight rounds and the test that ends the loop. *)
Fixpoint mask_loop (fuel : nat) (i v : Z) (j : nat) (dst : list bool) : nat * list bool :=
  match fuel with
  | O => (j, dst)
  | S f =>
      if (0 <? i) && bool_decide (j < length dst)%nat
      then mask_loop f (Z.shiftr i 1) v (S j) (<[j := negb (Z.land v i =? 0)]> dst)
      else (j, dst)
  end.

Fixpoint bytes_loop (b : list Z) (j : nat) (dst : list bool) : list bool :=
  match b with
  | [] => dst
  | v :: r => let '(j, dst) := mask_loop 9 128 v j dst in bytes_loop r j dst
  end.

Definition BooleanArrayDecodeAll (b : list Z) (dst : slice bool) : outcome (list bool) :=
  match b with
  | [] => Ok []
  | _ :: b =>
      let '(val, n) := Uvarint b in
      if n <=? 0 then Err "BooleanBatchDecoder: invalid count"
      else
        let count := i64 val in
        let b := drop (Z.to_nat n) b in
        let min := Z.of_nat (length b) * 8 in
        let count := if min <? count then min else count in
        if count <? 0 then Panic
        else Ok (bytes_loop b 0 (sized false dst (Z.to_nat count)))
  end.

(** * Lemmas *)

(** ** Bits *)
Lemma testbit_u8 v i : 0 <= i < 8 -> Z.testbit (u8 v) i = Z.testbit v i.
Proof. intros H. unfold u8. by rewrite Z.mod_pow2_bits_low by lia. Qed.

Lemma lowbits_shift k v w x :
  (k < 8)%nat -> Z.testbit w 0 = x ->
  (forall i, 1 <= i < 8 -> Z.testbit w i = Z.testbit v (i - 1)) ->
  lowbits (S k) w = lowbits k v ++ [x].
Proof.
  intros Hk H0 Hs. induction k as [|k IH].
  { cbn [lowbits app]. change (Z.of_nat 0) with 0. by rewrite H0. }
  cbn [lowbits] in IH |- *. rewrite Hs by lia. cbn [app]. f_equal.
  - f_equal. lia.
  - apply IH. lia.
Qed.

Lemma testbit_shift1 b i : 1 <= i < 8 -> Z.testbit (u8 (Z.shiftl b 1)) i = Z.testbit b (i - 1).
Proof. intros Hi. rewrite testbit_u8 by lia. by rewrite Z.shiftl_spec by lia. Qed.

Lemma testbit_shift0 b : Z.testbit (u8 (Z.shiftl b 1)) 0 = false.
Proof. rewrite testbit_u8 by lia. by rewrite Z.shiftl_spec_low. Qed.

Lemma lowbits_pad k b j :
  (j + k = 8)%nat -> lowbits 8 (pad k b) = lowbits j b ++ replicate k false.
Proof.
  revert b j. induction k as [|k IH]; intros b j Hj.
  - cbn [pad replicate]. rewrite app_nil_r. by replace j with 8%nat by lia.
  - cbn [pad replicate]. rewrite (IH _ (S j)) by lia.
    rewrite (lowbits_shift j b _ false); [by rewrite <- app_assoc|lia|apply testbit_shift0|].
    apply testbit_shift1.
Qed.

Lemma pad_byte k b : is_byte b -> is_byte (pad k b).
Proof.
  revert b. induction k as [|k IH]; intros b Hb; [done|]. apply IH.
  unfold u8, is_byte. apply Z.mod_pos_bound. lia.
Qed.

(** ** The encoder *)

(** The encoder after writing [l] since its last reset: full bytes, then the
    byte in progress. *)
Definition wrote (e : BooleanEncoder) (l : list bool) : Prop :=
  l = bits (e_bytes e) ++ lowbits (e_i e) (e_b e) /\ (e_i e <= 8)%nat /\
  e_n e = length l /\ bytes_ok (e_bytes e) /\ is_byte (e_b e).

Lemma bits_flush_spec e l : wrote e l ->
  let e' := flush e in
  bits (e_bytes e') = l ++ replicate (8 - e_i e) false /\ e_i e' = 0%nat /\ e_b e' = 0 /\
  e_n e' = length l /\ bytes_ok (e_bytes e').
Proof.
  intros (Hl & Hi & Hn & Hb & Hby). unfold flush. rewrite bool_decide_true by lia.
  cbn [e_bytes e_i e_b e_n]. rewrite bits_app, bits_cons.
  rewrite (lowbits_pad (8 - e_i e) (e_b e) (e_i e)) by lia.
  split; [by rewrite Hl, app_nil_r, app_assoc|]. split; [done|]. split; [done|].
  split; [done|]. apply bytes_ok_app. split; [done|]. constructor; [by apply pad_byte|constructor].
Qed.

Lemma byte_lor_1 w : is_byte w -> is_byte (Z.lor w 1).
Proof.
  unfold is_byte. intros Hu. assert (0 <= Z.lor w 1) by (apply Z.lor_nonneg; lia).
  split; [done|]. apply Z.log2_lt_cancel. rewrite Z.log2_lor by lia.
  change (Z.log2 1) with 0. change (Z.log2 256) with 8. apply Z.max_lub_lt; [|lia].
  destruct (decide (w = 0)) as [->|]; [done|]. apply Z.log2_lt_pow2; [lia|].
  change (2 ^ 8) with 256. lia.
Qed.

Lemma bits_Write_wrote e l x : wrote e l -> wrote (Write e x) (l ++ [x]).
Proof.
  intros Hw. assert (exists e0, wrote e0 l /\ (e_i e0 < 8)%nat /\
    Write e x = MkBooleanEncoder (e_bytes e0)
      (if x then Z.lor (u8 (Z.shiftl (e_b e0) 1)) 1 else u8 (Z.shiftl (e_b e0) 1))
      (S (e_i e0)) (S (e_n e0))) as (e0 & (Hl & _ & Hn & Hb & Hby) & Hi & ->).
  { unfold Write. case_bool_decide as H8; [|exists e; split; [done|split; [lia|done]]].
    exists (flush e). destruct (bits_flush_spec e l Hw) as (Hbits & Hi & Hb & Hn & Hok).
    split; [|by rewrite Hi; split; [lia|]]. destruct Hw as (_ & Hle & _).
    split; [|rewrite Hi, Hb; by split_and!; try lia; try done].
    rewrite Hbits, Hi. cbn [lowbits]. replace (8 - e_i e)%nat with 0%nat by lia. cbn.
    by rewrite !app_nil_r. }
  split; [|split; [|split; [|split]]]; cbn [e_bytes e_b e_i e_n].
  - rewrite (lowbits_shift (e_i e0) (e_b e0) _ x); [by rewrite app_assoc, <- Hl|done| |].
    + destruct x; [|apply testbit_shift0]. by rewrite Z.lor_spec, testbit_shift0.
    + intros i Hi'. destruct x; [|by apply testbit_shift1].
      rewrite Z.lor_spec, testbit_shift1 by lia.
      replace (Z.testbit 1 i) with false; [by rewrite orb_false_r|].
      symmetry. apply Z.bits_above_log2; [lia|change (Z.log2 1) with 0; lia].
  - lia.
  - rewrite length_app, Hn. cbn. lia.
  - done.
  - assert (is_byte (u8 (Z.shiftl (e_b e0) 1))) as Hu by (apply Z.mod_pos_bound; lia).
    destruct x; [by apply byte_lor_1|done].
Qed.

Lemma bits_write_values_wrote e l : wrote (Codec.write_values (Reset e) l) l.
Proof.
  unfold Codec.write_values. induction l as [|x l IH] using rev_ind.
  - split; [done|]. split; [cbn; lia|]. by split; [|split; [constructor|]].
  - rewrite foldl_app. by apply bits_Write_wrote.
Qed.

(** ** Decoding a packed array *)
Definition header (b0 n : Z) (b : list Z) : list Z := b0 :: PutUvarint n ++ b.

Lemma SetBytes_header d b0 n b :
  0 <= n <= Z.of_nat (length b) * 8 -> n < 2 ^ 63 ->
  SetBytes d (header b0 n b) = MkBooleanDecoder b (-1) n (d_err d).
Proof.
  intros Hn Hb. unfold SetBytes, header.
  rewrite Uvarint_PutUvarint by (unfold is_u64; lia). pose proof (PutUvarint_length n).
  rewrite (proj2 (Z.leb_gt _ 0)) by lia. rewrite Nat2Z.id, drop_app_length.
  rewrite i64_small by (unfold is_i64; lia). by rewrite (proj2 (Z.ltb_ge _ n)) by lia.
Qed.

Lemma Read_bits b i n e x :
  0 <= i -> bits b !! Z.to_nat i = Some x -> Read (MkBooleanDecoder b i n e) = Ok x.
Proof.
  intros Hi Hx. unfold Read. cbn [d_i d_b].
  pose proof (Z.mod_pos_bound i 8 ltac:(lia)).
  assert (u8 (Z.shiftl 1 (7 - Z.land i 7)) = 2 ^ (7 - i mod 8)) as ->.
  { change 7 with (Z.ones 3) at 2. rewrite Z.land_ones, Z.shiftl_1_l by lia.
    apply u8_small. split; [apply Z.pow_nonneg; lia|]. change 256 with (2 ^ 8).
    apply Z.pow_lt_mono_r; lia. }
  rewrite Z.shiftr_div_pow2 by lia. change (2 ^ 3) with 8.
  rewrite (proj2 (Z.ltb_ge (i / 8) 0)) by (apply Z.div_pos; lia).
  pose proof (lookup_lt_Some _ _ _ Hx) as Hlt. rewrite length_bits in Hlt.
  destruct (lookup_lt_is_Some_2 b (Z.to_nat i / 8)) as [v Hv].
  { apply Nat.Div0.div_lt_upper_bound. lia. }
  assert (Z.to_nat (i / 8) = (Z.to_nat i / 8)%nat) as -> by (rewrite Z2Nat.inj_div by lia; done).
  rewrite (index_lookup _ _ v) by done. cbn [mbind outcome_bind].
  assert (x = Z.testbit v (7 - Z.of_nat (Z.to_nat i mod 8))) as ->
    by (rewrite (bits_lookup _ _ _ Hv) in Hx; congruence).
  rewrite Nat2Z.inj_mod, Z2Nat.id by lia. change (Z.of_nat 8) with 8. f_equal.
  set (k := 7 - i mod 8) in *. rewrite land_pow2 by lia.
  assert (0 < 2 ^ k) by (apply Z.pow_pos_nonneg; lia).
  destruct (Z.testbit v k); [apply Z.eqb_refl|]. apply Z.eqb_neq. lia.
Qed.

Definition dec_ok (d : BooleanDecoder) : Prop := d_err d = None.

Lemma delivers_bits m b i :
  -1 <= i -> (Z.to_nat (i + 1) + m <= length (bits b))%nat ->
  Codec.yields dec_ok (MkBooleanDecoder b i (i + 1 + Z.of_nat m) None)
    (take m (drop (Z.to_nat (i + 1)) (bits b))).
Proof.
  revert i. induction m as [|m IH]; intros i Hi Hm.
  - rewrite take_0. split; [done|]. split; [done|].
    cbn [Codec.next Codec.error BooleanDecoder_methods]. unfold Next. cbn [d_err d_i d_n d_b].
    rewrite (proj2 (Z.ltb_ge (i + 1) _)) by lia. by eexists.
  - destruct (lookup_lt_is_Some_2 (bits b) (Z.to_nat (i + 1))) as [x Hx]; [lia|].
    rewrite (drop_S _ x), firstn_cons by done. cbn [Codec.yields].
    pose proof (Read_bits b (i + 1) (i + 1 + Z.of_nat (S m)) None x ltac:(lia) Hx) as HR.
    set (d' := MkBooleanDecoder b (i + 1) (i + 1 + Z.of_nat (S m)) None) in *.
    split; [done|]. split; [done|].
    exists d', d'. cbn [Codec.next Codec.read Codec.error BooleanDecoder_methods]. rewrite HR.
    split; [|split; [done|]].
    + unfold Next. cbn [d_err d_i d_n d_b]. by rewrite (proj2 (Z.ltb_lt (i + 1) _)) by lia.
    + unfold d'. replace (i + 1 + Z.of_nat (S m)) with (i + 1 + 1 + Z.of_nat m) by lia.
      replace (S (Z.to_nat (i + 1))) with (Z.to_nat (i + 1 + 1)) by lia. apply IH; lia.
Qed.

(** ** The batch loops *)
Lemma bits_insert b i v old x j :
  b !! i = Some old -> (j < 8)%nat ->
  v = (if (x : bool) then Z.lor old (2 ^ (7 - Z.of_nat j)) else Z.ldiff old (2 ^ (7 - Z.of_nat j))) ->
  bits (<[i := v]> b) = <[(8 * i + j)%nat := x]> (bits b).
Proof.
  intros Hold Hj Hv. pose proof (lookup_lt_Some _ _ _ Hold) as Hi.
  apply (list_eq_same_length _ _ (8 * length b)); [by rewrite ?length_insert, ?length_bits, ?length_insert..|].
  intros k y z Hk Hy Hz.
  destruct (lookup_lt_is_Some_2 b (k / 8)) as [w Hw]; [apply Nat.Div0.div_lt_upper_bound; lia|].
  pose proof (Nat.div_mod k 8 ltac:(lia)) as Hk8. pose proof (Nat.mod_upper_bound k 8 ltac:(lia)).
  destruct (decide (k / 8 = i)%nat) as [Ei|Ei].
  - assert (w = old) as -> by congruence.
    rewrite (bits_lookup _ _ v) in Hy by (rewrite Ei; by apply list_lookup_insert_eq).
    assert (y = Z.testbit v (7 - Z.of_nat (k mod 8))) as -> by congruence.
    destruct (decide (k mod 8 = j)%nat) as [Ej|Ej].
    + rewrite <- Ei, <- Ej, <- Hk8, list_lookup_insert_eq in Hz by (rewrite length_bits; lia).
      assert (z = x) as -> by congruence. rewrite Hv, Ej.
      destruct x; rewrite ?Z.lor_spec, ?Z.ldiff_spec, Z.pow2_bits_true by lia;
        [apply orb_true_r|apply andb_false_r].
    + rewrite list_lookup_insert_ne, (bits_lookup _ _ old) in Hz by (done || lia).
      assert (z = Z.testbit old (7 - Z.of_nat (k mod 8))) as -> by congruence. rewrite Hv.
      destruct x; rewrite ?Z.lor_spec, ?Z.ldiff_spec, Z.pow2_bits_false by lia;
        [apply orb_false_r|apply andb_true_r].
  - rewrite (bits_lookup _ _ w) in Hy by (by rewrite list_lookup_insert_ne).
    rewrite list_lookup_insert_ne, (bits_lookup _ _ w) in Hz by (done || lia). congruence.
Qed.

Lemma set_bits_spec src n b :
  (n + length src <= length (bits b))%nat ->
  exists b', set_bits src (Z.of_nat n) b = Ok (b', Z.of_nat (n + length src)) /\
    length b' = length b /\ take (n / 8) b' = take (n / 8) b /\
    bits b' = take n (bits b) ++ src ++ drop (n + length src) (bits b).
Proof.
  revert n b. induction src as [|x r IH]; intros n b Hn; cbn [set_bits length] in *.
  { exists b. rewrite Nat.add_0_r. cbn [app]. by rewrite take_drop. }
  pose proof (Nat.div_mod n 8 ltac:(lia)) as Hdm. pose proof (Nat.mod_upper_bound n 8 ltac:(lia)).
  rewrite length_bits in Hn.
  destruct (lookup_lt_is_Some_2 b (n / 8)) as [old Hold]; [apply Nat.Div0.div_lt_upper_bound; lia|].
  rewrite Z.shiftr_div_pow2 by lia. change (2 ^ 3) with (Z.of_nat 8).
  rewrite <- Nat2Z.inj_div, Nat2Z.id, (index_lookup _ _ old) by done.
  cbn [mbind outcome_bind]. change 7 with (Z.ones 3). rewrite Z.land_ones by lia.
  change (2 ^ 3) with (Z.of_nat 8). rewrite <- Nat2Z.inj_mod.
  assert (Z.shiftr 128 (Z.of_nat (n mod 8)) = 2 ^ (7 - Z.of_nat (n mod 8))) as ->.
  { rewrite Z.shiftr_div_pow2 by lia. change 128 with (2 ^ 7). by rewrite <- Z.pow_sub_r by lia. }
  apply lookup_lt_Some in Hold as Hlt. rewrite store_in_range by done. cbn [mbind outcome_bind].
  set (v := if x then _ else _).
  pose proof (bits_insert b (n / 8) v old x (n mod 8) Hold ltac:(lia) eq_refl) as Hb.
  rewrite <- Hdm in Hb. set (b1 := <[(n / 8)%nat := v]> b) in *.
  assert (length b1 = length b) as Hl1 by apply length_insert.
  replace (Z.of_nat n + 1) with (Z.of_nat (S n)) by lia.
  destruct (IH (S n) b1) as (b' & -> & Hl & Ht & Hbits); [rewrite length_bits; lia|].
  exists b'. split; [do 2 f_equal; lia|]. split; [lia|]. split.
  - assert (n / 8 <= S n / 8)%nat as Hle by (apply Nat.Div0.div_le_mono; lia).
    apply (f_equal (take (n / 8))) in Ht. rewrite !take_take, Nat.min_l in Ht by done.
    rewrite Ht. unfold b1. by rewrite take_insert_ge by lia.
  - rewrite Hbits, Hb. rewrite drop_insert_lt by lia.
    rewrite (take_S_r _ n x) by (apply list_lookup_insert_eq; rewrite length_bits; lia).
    rewrite take_insert_ge by lia. rewrite <- app_assoc. cbn [app].
    by replace (S n + length r)%nat with (n + S (length r))%nat by lia.
Qed.

Lemma bits_take k b : bits (take k b) = take (8 * k) (bits b).
Proof.
  destruct (Nat.le_gt_cases k (length b)).
  - rewrite <- (take_drop k b) at 2. rewrite bits_app.
    rewrite take_app_le by (rewrite length_bits, length_take; lia).
    symmetry. apply take_ge. rewrite length_bits, length_take. lia.
  - rewrite !take_ge; [done|rewrite length_bits; lia|lia].
Qed.

Lemma bits_drop k b : bits (drop k b) = drop (8 * k) (bits b).
Proof.
  destruct (Nat.le_gt_cases k (length b)).
  - rewrite <- (take_drop k b) at 2. rewrite bits_app.
    rewrite drop_app_length'; [done|]. rewrite length_bits, length_take. lia.
  - rewrite !drop_ge; [done|rewrite length_bits; lia|lia].
Qed.

Lemma mask_loop_spec k fuel v j dst :
  (k < fuel)%nat -> (j <= length dst)%nat ->
  let bs := take (length dst - j) (lowbits k v) in
  mask_loop fuel (Z.shiftr (2 ^ Z.of_nat k) 1) v j dst =
    ((j + length bs)%nat, take j dst ++ bs ++ drop (j + length bs) dst).
Proof.
  revert fuel j dst. induction k as [|k IH]; intros fuel j dst Hf Hj; cbv zeta;
    (destruct fuel as [|fuel]; [lia|]).
  { cbn -[take drop]. rewrite take_nil. cbn. rewrite Nat.add_0_r. by rewrite take_drop. }
  assert (Z.shiftr (2 ^ Z.of_nat (S k)) 1 = 2 ^ Z.of_nat k) as ->.
  { rewrite Z.shiftr_div_pow2 by lia. rewrite Nat2Z.inj_succ, Z.pow_succ_r by lia.
    rewrite Z.mul_comm. by apply Z.div_mul. }
  assert (0 < 2 ^ Z.of_nat k) by (apply Z.pow_pos_nonneg; lia).
  cbn [mask_loop]. rewrite (proj2 (Z.ltb_lt 0 _)) by done. cbn [andb].
  case_bool_decide as Hlt.
  - rewrite IH by (rewrite ?length_insert; lia). cbn [lowbits].
    replace (length dst - j)%nat with (S (length dst - S j)) by lia. rewrite firstn_cons.
    rewrite length_insert. set (bs := take _ (lowbits k v)). cbn [length].
    replace (S j + length bs)%nat with (j + S (length bs))%nat by lia. f_equal.
    rewrite land_pow2 by lia. rewrite drop_insert_lt by lia.
    rewrite (take_S_r _ j (Z.testbit v (Z.of_nat k))).
    + rewrite take_insert_ge by lia. by rewrite <- app_assoc.
    + rewrite list_lookup_insert_eq by done. f_equal. destruct (Z.testbit v _); [|done].
      apply negb_true_iff, Z.eqb_neq. lia.
  - replace (length dst - j)%nat with 0%nat by lia. rewrite take_0. cbn [length app].
    by rewrite Nat.add_0_r, take_drop.
Qed.

Lemma bytes_loop_spec b j dst :
  (j <= length dst)%nat -> (length dst <= j + length (bits b))%nat ->
  bytes_loop b j dst = take j dst ++ take (length dst - j) (bits b).
Proof.
  revert j dst. induction b as [|v b IH]; intros j dst Hj Hl; cbn [bytes_loop].
  - change (bits []) with (@nil bool) in *. cbn [length] in Hl.
    rewrite take_nil, app_nil_r. symmetry. apply take_ge. lia.
  - change 128 with (Z.shiftr (2 ^ Z.of_nat 8) 1). rewrite mask_loop_spec by lia. cbv zeta.
    rewrite bits_cons in *. set (bs := take (length dst - j) (lowbits 8 v)).
    assert (length bs = Nat.min (length dst - j) 8) as Hbs
      by (unfold bs; by rewrite length_take, length_lowbits).
    rewrite length_app, length_lowbits in Hl.
    assert (length (take j dst ++ bs ++ drop (j + length bs) dst) = length dst) as Hd
      by (rewrite !length_app, length_take, length_drop; lia).
    rewrite IH by lia. rewrite Hd.
    rewrite app_assoc, take_app_le by (rewrite length_app, length_take; lia).
    rewrite take_ge by (rewrite length_app, length_take; lia).
    rewrite <- app_assoc. f_equal. rewrite take_app. f_equal. f_equal.
    rewrite length_lowbits. lia.
Qed.

Lemma BooleanArrayEncodeAll_spec src b :
  slice_ok b -> Z.of_nat (length src) < 2 ^ 56 ->
  exists s body, BooleanArrayEncodeAll src b = Ok s /\
    contents s = header (Z.shiftl booleanCompressedBitPacked 4) (Z.of_nat (length src)) body /\
    length body = ((length src + 7) / 8)%nat /\ take (length src) (bits body) = src.
Proof.
  intros Hb Hlen. unfold BooleanArrayEncodeAll. set (sz := (1 + 8 + (length src + 7) / 8)%nat).
  set (b1 := if _ && _ then _ else _).
  assert (slice_ok b1 /\ (sz <= slen b1)%nat) as [Hok Hsz].
  { unfold b1. repeat case_bool_decide; cbn [andb]; try (split; [done|lia]).
    - unfold slice_ok. unfold scap in *. cbn [slen backing]. lia.
    - split; [by apply append_ok|]. unfold append. case_decide; cbn [slen]; rewrite length_replicate; lia. }
  clearbody b1. set (count := PutUvarint _). set (hdr := _ :: count).
  pose proof (PutUvarint_short 8 (Z.of_nat (length src)) ltac:(lia) Hlen) as Hc. fold count in Hc.
  pose proof (contents_length b1 Hok) as Hcl.
  pose proof (Nat.div_mod (length src + 7) 8 ltac:(lia)) as Hdm.
  pose proof (Nat.mod_upper_bound (length src + 7) 8 ltac:(lia)).
  set (h := length hdr). assert (h = S (length count)) as Hh by done.
  assert (length (splice (contents b1) 0 hdr) = slen b1) as Hsl by (rewrite splice_length; lia).
  assert (take h (splice (contents b1) 0 hdr) = hdr) as Hsh.
  { pose proof (splice_take (contents b1) 0 hdr ltac:(lia)) as E. by rewrite take_0 in E. }
  replace (8 + Z.of_nat (length count) * 8) with (Z.of_nat (8 * h)) by lia.
  destruct (set_bits_spec src (8 * h) (splice (contents b1) 0 hdr)) as (cells & -> & Hl & Ht & Hbits).
  { rewrite length_bits, Hsl. lia. }
  cbn [mbind outcome_bind]. rewrite (Nat.mul_comm 8 h), Nat.div_mul, Hsh in Ht by lia.
  set (n := (8 * h + length src)%nat). set (k := (h + (length src + 7) / 8)%nat).
  assert (Z.to_nat (Z.shiftr (Z.of_nat n) 3 + (if 0 <? Z.land (Z.of_nat n) 7 then 1 else 0)) = k) as ->.
  { change 7 with (Z.ones 3). rewrite Z.land_ones, Z.shiftr_div_pow2 by lia. change (2 ^ 3) with 8.
    unfold n, k. clear -Hdm H. destruct (Z.ltb_spec 0 (Z.of_nat (8 * h + length src) mod 8));
      Z.div_mod_to_equations; lia. }
  unfold reslice, scap. cbn [backing slen]. rewrite decide_True by (rewrite length_app; lia).
  set (body := drop h (take k cells)).
  assert (take k cells = hdr ++ body) as Hk.
  { unfold body. rewrite <- (take_drop h (take k cells)) at 1. f_equal.
    rewrite take_take, Nat.min_l by lia. by rewrite (Nat.mul_comm 8) in Ht || rewrite <- Ht. }
  exists (Slice (cells ++ drop (slen b1) (backing b1)) k), body. split; [done|]. split; [|split].
  - unfold contents. cbn [backing slen]. rewrite take_app_le by lia. done.
  - unfold body. rewrite length_drop, length_take. lia.
  - unfold body. rewrite bits_drop, bits_take, Hbits.
    assert (length (take (8 * h) (bits (splice (contents b1) 0 hdr))) = 8 * h)%nat as Hl8
      by (rewrite length_take, length_bits; lia).
    rewrite take_drop_commute, take_take, Nat.min_l by lia.
    rewrite take_app_ge, Hl8 by lia. rewrite drop_app_length' by done.
    replace (8 * h + length src - 8 * h)%nat with (length src) by lia. apply take_app_length.
Qed.

(** The codec, as the block layer uses it. *)
Lemma bool_codec e d l :
  dec_ok d -> Z.of_nat (length l) < 2 ^ 62 ->
  exists e1 b, Bytes (Codec.write_values (Reset e) l) = (e1, b) /\ bytes_ok b /\
    Codec.yields dec_ok (SetBytes d b) l.
Proof.
  intros Hd Hlen. set (e0 := Codec.write_values (Reset e) l).
  destruct (bits_flush_spec e0 l (bits_write_values_wrote e l)) as (Hbits & _ & _ & Hn & Hok).
  unfold Bytes. do 2 eexists. split; [reflexivity|]. split.
  { constructor; [by vm_compute|]. apply bytes_ok_app. split; [apply PutUvarint_ok|done]. }
  set (body := e_bytes (flush e0)) in *. rewrite Hn.
  assert (length (bits body) = length l + (8 - e_i e0))%nat as Hbl
    by (rewrite Hbits, length_app, length_replicate; done).
  pose proof (length_bits body) as Hl8.
  change (_ :: PutUvarint ?n ++ body) with (header (Z.shiftl booleanCompressedBitPacked 4) n body).
  rewrite SetBytes_header by lia. unfold dec_ok in Hd. rewrite Hd.
  pose proof (delivers_bits (length l) body (-1) ltac:(lia) ltac:(cbn; lia)) as Hdel.
  change (Z.to_nat (-1 + 1)) with 0%nat in Hdel. rewrite drop_0, Hbits, take_app_length in Hdel.
  by replace (-1 + 1 + Z.of_nat (length l)) with (Z.of_nat (length l)) in Hdel by lia.
Qed.

#[global, refine] Instance Boolean_codec : Codec.CodecLaws BooleanEncoder BooleanDecoder bool := {
  Codec.valid _ := True;
  Codec.enc_usable _ := True;
  Codec.dec_usable := dec_ok;
  Codec.reset_usable := _;
  Codec.codec_roundtrip := _
}.
Proof.
  - intros e _. by exists (Reset e).
  - intros e d l _ Hd _ _ Hlen. destruct (bool_codec e d l Hd ltac:(lia)) as (e1 & b & HB & Hok & Hdel).
    exists (Reset e), e1, b, (SetBytes d b). cbn [Codec.bytes BooleanEncoder_methods]. by rewrite HB.
Defined.

Lemma bool_array_codec src b dst d :
  slice_ok b -> Z.of_nat (length src) < 2 ^ 56 -> d_err d = None ->
  exists s, BooleanArrayEncodeAll src b = Ok s /\
    BooleanArrayDecodeAll (contents s) dst = Ok src /\
    Codec.yields dec_ok (SetBytes d (contents s)) src.
Proof.
  intros Hb Hlen Hd.
  destruct (BooleanArrayEncodeAll_spec src b Hb Hlen) as (s & body & HE & Hc & Hl & Hbits).
  exists s. split; [done|]. rewrite Hc.
  pose proof (Nat.div_mod (length src + 7) 8 ltac:(lia)) as Hdm.
  pose proof (Nat.mod_upper_bound (length src + 7) 8 ltac:(lia)).
  pose proof (length_bits body) as Hl8. split.
  - unfold BooleanArrayDecodeAll, header. rewrite Uvarint_PutUvarint by (unfold is_u64; lia).
    pose proof (PutUvarint_length (Z.of_nat (length src))).
    rewrite (proj2 (Z.leb_gt _ 0)) by lia. rewrite Nat2Z.id, drop_app_length.
    rewrite i64_small by (unfold is_i64; lia). rewrite (proj2 (Z.ltb_ge _ (Z.of_nat _))) by lia.
    rewrite (proj2 (Z.ltb_ge _ 0)), Nat2Z.id by lia. f_equal.
    rewrite bytes_loop_spec; rewrite ?length_sized; try lia.
    cbn [firstn app]. rewrite take_0, Nat.sub_0_r. done.
  - rewrite SetBytes_header, Hd by lia.
    pose proof (delivers_bits (length src) body (-1) ltac:(lia) ltac:(cbn; lia)) as Hdel.
    change (Z.to_nat (-1 + 1)) with 0%nat in Hdel. rewrite drop_0, Hbits in Hdel.
    by replace (-1 + 1 + Z.of_nat (length src)) with (Z.of_nat (length src)) in Hdel by lia.
Qed.

(** * Theorems *)

(** The streaming boolean codec round-trips: every list of booleans, written
    to a reset encoder, is delivered exactly, without the padding bits, by a
    decoder that has not failed before. *)
Theorem bool_stream_roundtrip e d l :
  d_err d = None -> Z.of_nat (length l) < 2 ^ 62 ->
  exists e1 b, Bytes (Codec.write_values (Reset e) l) = (e1, b) /\ bytes_ok b /\
    Codec.yields dec_ok (SetBytes d b) l.
Proof. apply bool_codec. Qed.

Lemma bool_stream_roundtrip_witness :
  exists e1 b, Bytes (Codec.write_values (Reset (NewBooleanEncoder 0))
      [true; false; true; true; false; false; true; false; true]) = (e1, b) /\ bytes_ok b /\
    Codec.yields dec_ok (SetBytes NewBooleanDecoder b)
      [true; false; true; true; false; false; true; false; true].
Proof.
  apply (bool_stream_roundtrip (NewBooleanEncoder 0) NewBooleanDecoder
           [true; false; true; true; false; false; true; false; true]);
    [reflexivity|vm_compute; reflexivity].
Defined.

(** The batch pair round-trips with any source and destination buffers,
    whatever bits they held, and the streaming decoder reads the same block. *)
Theorem bool_batch_roundtrip src b dst d :
  slice_ok b -> Z.of_nat (length src) < 2 ^ 56 -> d_err d = None ->
  exists s, BooleanArrayEncodeAll src b = Ok s /\
    BooleanArrayDecodeAll (contents s) dst = Ok src /\
    Codec.yields dec_ok (SetBytes d (contents s)) src.
Proof. apply bool_array_codec. Qed.

Lemma bool_batch_roundtrip_witness :
  let b := make_slice 255 12 12 in
  exists s, BooleanArrayEncodeAll [true; false; true] b = Ok s /\
    BooleanArrayDecodeAll (contents s) nil_slice = Ok [true; false; true] /\
    Codec.yields dec_ok (SetBytes NewBooleanDecoder (contents s)) [true; false; true].
Proof.
  intros b. apply (bool_batch_roundtrip [true; false; true] b nil_slice NewBooleanDecoder);
    [vm_compute; lia|vm_compute; reflexivity|reflexivity].
Defined.

(** A boolean decoder that has failed once delivers nothing ever after:
    [SetBytes] does not clear the error, unlike the other decoders' reset. *)
Theorem bool_decoder_error_sticky d bs err :
  d_err d = Some err ->
  exists err', d_err (foldl SetBytes d bs) = Some err' /\
    Next (foldl SetBytes d bs) = (foldl SetBytes d bs, false).
Proof.
  revert d err. induction bs as [|b bs IH]; intros d err Hd; cbn [foldl].
  - exists err. split; [done|]. unfold Next. by rewrite Hd.
  - assert (exists err', d_err (SetBytes d b) = Some err') as [err' He']; [|by eapply IH].
    unfold SetBytes. destruct b as [|b0 r]; [by eexists|].
    destruct (Uvarint r) as [c n]. destruct (n <=? 0); by eexists.
Qed.

Lemma bool_decoder_error_sticky_witness :
  let d := SetBytes NewBooleanDecoder [16] in
  let good := snd (Bytes (Write (NewBooleanEncoder 0) true)) in
  Codec.yields dec_ok (SetBytes NewBooleanDecoder good) [true] /\
  exists err', d_err (foldl SetBytes d [good]) = Some err' /\
    Next (foldl SetBytes d [good]) = (foldl SetBytes d [good], false).
Proof.
  intros d good. split.
  - split; [reflexivity|]. split; [reflexivity|].
    eexists. eexists. split; [vm_compute; reflexivity|]. split; [vm_compute; reflexivity|].
    split; [reflexivity|]. split; [reflexivity|]. eexists. split; [vm_compute; reflexivity|].
    split; reflexivity.
  - apply (bool_decoder_error_sticky d [good] "BooleanDecoder: invalid count"). vm_compute. reflexivity.
Defined.

End Boolean.
