(* ===== verification/StringCodec.v ===== *)
(** String codec (src/storage/codec/string.go): the streaming [StringEncoder] and
    [StringDecoder] and the batch pair [StringArrayEncodeAll] and
    [StringArrayDecodeAll].

    Strings are lists of bytes, each written behind its length as a varint; the
    whole is compressed by the snappy library, which is a parameter of the model
    with its documented laws ([snappy_laws]). *)
From S2P Require Import Prelude Binary Codec.
Import Buffer.

Module StringCodec.

Definition stringCompressedSnappy : Z := 1.
Definition stringUnCompressedSnappy : Z := 0.
Definition MaxVarintLen32 : Z := 5.
Definition MaxUint32 : Z := 2 ^ 32 - 1.

(** ** The snappy library *)
Record snappy := Snappy {
  snappy_encode : list Z -> list Z;
  snappy_decode : list Z -> option (list Z);
  MaxEncodedLen : Z -> Z
}.

(** [MaxEncodedLen] is negative for inputs that are too large; otherwise it
    bounds the encoding, and grows with the input. *)
Record snappy_laws (sn : snappy) : Prop := {
  snappy_decode_encode b :
    0 <= MaxEncodedLen sn (Z.of_nat (length b)) -> snappy_decode sn (snappy_encode sn b) = Some b;
  snappy_encode_length b :
    0 <= MaxEncodedLen sn (Z.of_nat (length b)) ->
    Z.of_nat (length (snappy_encode sn b)) <= MaxEncodedLen sn (Z.of_nat (length b));
  MaxEncodedLen_limit n : 0 <= n -> 0 <= MaxEncodedLen sn n -> n <= MaxUint32;
  snappy_encode_bytes b : bytes_ok b -> bytes_ok (snappy_encode sn b);
  MaxEncodedLen_mono m n :
    0 <= m <= n -> 0 <= MaxEncodedLen sn n -> 0 <= MaxEncodedLen sn m <= MaxEncodedLen sn n
}.

Section String.
Context (sn : snappy).

(** [snappy.Encode(dst, src)] panics on an input that is too large; the result is
    in [dst] when that is long enough. *)
Definition Encode (src : list Z) : outcome (list Z) :=
  if MaxEncodedLen sn (Z.of_nat (length src)) <? 0 then Panic else Ok (snappy_encode sn src).

(** ** Streaming encoder *)
Record StringEncoder := MkStringEncoder { e_bytes : list Z }.

(** [make([]byte, 1, sz)] panics when [sz < 1]. *)
Definition NewStringEncoder (sz : Z) : outcome StringEncoder :=
  if sz <? 1 then Panic else Ok (MkStringEncoder [0]).

Definition Reset (e : StringEncoder) : outcome StringEncoder :=
  b ← store (e_bytes e) 0 0;
  Ok (MkStringEncoder (take 1 b)).

Definition Write (e : StringEncoder) (s : list Z) : StringEncoder :=
  MkStringEncoder (e_bytes e ++ PutUvarint (Z.of_nat (length s)) ++ s).

Definition Bytes (e : StringEncoder) : outcome (StringEncoder * list Z) :=
  rest ← tail_from (e_bytes e) 1;
  data ← Encode rest;
  Ok (e, Z.shiftl stringCompressedSnappy 4 :: data).

Definition RawBytes (e : StringEncoder) : outcome (StringEncoder * list Z) :=
  b ← store (e_bytes e) 0 (Z.shiftl stringUnCompressedSnappy 4);
  Ok (MkStringEncoder b, b).

(** ** Streaming decoder *)
Record StringDecoder := MkStringDecoder {
  d_b : list Z;
  d_l : Z;
  d_i : Z;
  d_err : option string
}.

Definition NewStringDecoder : StringDecoder := MkStringDecoder [] 0 0 None.

Definition SetBytes (d : StringDecoder) (b : list Z) : outcome StringDecoder :=
  match b with
  | [] => Ok (MkStringDecoder [] 0 0 None)
  | b0 :: r =>
      if Z.shiftr b0 4 =? stringCompressedSnappy then
        match snappy_decode sn r with
        | None => Err "failed to decode string block"
        | Some data => Ok (MkStringDecoder data 0 0 None)
        end
      else Ok (MkStringDecoder r 0 0 None)
  end.

Definition Next (d : StringDecoder) : StringDecoder * bool :=
  match d_err d with
  | Some _ => (d, false)
  | None =>
      let i := i64 (d_i d + d_l d) in
      (MkStringDecoder (d_b d) (d_l d) i None, i <? Z.of_nat (length (d_b d)))
  end.

Definition fail (d : StringDecoder) (l : Z) (e : string) : StringDecoder :=
  MkStringDecoder (d_b d) l (d_i d) (Some e).

Definition Read (d : StringDecoder) : outcome (StringDecoder * list Z) :=
  if d_i d <? 0 then Panic
  else
    rest ← tail_from (d_b d) (Z.to_nat (d_i d));
    let '(length_, n) := Uvarint rest in
    if n <=? 0 then Ok (fail d (d_l d) "StringDecoder: invalid encoded string length", [])
    else
      let l := i64 (i64 length_ + n) in
      let lower := i64 (d_i d + n) in
      let upper := i64 (lower + i64 length_) in
      if upper <? lower then Ok (fail d l "StringDecoder: length overflow", [])
      else if Z.of_nat (length (d_b d)) <? upper
      then Ok (fail d l "StringDecoder: not enough data to represent encoded string", [])
      else
        s ← subslice (d_b d) (Z.to_nat lower) (Z.to_nat upper);
        Ok (MkStringDecoder (d_b d) l (d_i d) (d_err d), s).

Definition Error (d : StringDecoder) : option string := d_err d.

#[local] Instance StringEncoder_methods : Codec.ValueEncoder StringEncoder (list Z) := {
  Codec.reset := Reset;
  Codec.write := Write;
  Codec.bytes := Bytes
}.

#[local] Instance StringDecoder_methods : Codec.ValueDecoder StringDecoder (list Z) := {
  Codec.set_bytes := SetBytes;
  Codec.next d := Ok (Next d);
  Codec.read := Read;
  Codec.error := Error
}.

(** ** Batch encoder *)

(** [dta] after the loop: every string behind its length. *)
Definition encode_strings (src : list (list Z)) : list Z :=
  src ≫= fun s => PutUvarint (Z.of_nat (length s)) ++ s.

(** The strings are laid out after the [compressedSz] bytes reserved for the
    result; writing past the buffer panics.  [Encode] writes into the reserved
    bytes when they are enough for the worst case, and elsewhere otherwise. *)
Definition StringArrayEncodeAll (src : list (list Z)) (b : slice Z) : outcome (list Z) :=
  let srcSz := 2 + Z.of_nat (length src) * MaxVarintLen32
               + foldr Z.add 0 ((fun s => Z.of_nat (length s)) <$> src) in
  if MaxUint32 <? srcSz then Err "StringArrayEncodeAll: source length too large"
  else
    let mle := MaxEncodedLen sn srcSz in
    if negb (bool_decide (src = [])) && (mle =? -1)
    then Err "StringArrayEncodeAll: source length too large"
    else
      let compressedSz := match src with [] => 0 | _ => mle + 1 end in
      let totSz := srcSz + compressedSz in
      let cells := sized 0 b (Z.to_nat totSz) in
      match src with
      | [] => cells ← store cells 0 (Z.shiftl stringCompressedSnappy 4); Ok (take 2 cells)
      | _ =>
          let dta := encode_strings src in
          if srcSz <? Z.of_nat (length dta) then Panic
          else
            res ← Encode dta;
            if compressedSz - 1 <? MaxEncodedLen sn (Z.of_nat (length dta))
            then reslice (Slice (<[0%nat := Z.shiftl stringCompressedSnappy 4]>
                                   (splice cells (Z.to_nat compressedSz) dta)) 0)
                   (S (length res)) ≫= fun s => Ok (contents s)
            else Ok (Z.shiftl stringCompressedSnappy 4 :: res)
      end.

(** ** Batch decoder *)
Fixpoint decode_strings (fuel : nat) (b : list Z) (i : Z) : outcome (list (list Z)) :=
  match fuel with
  | O => Panic
  | S fuel' =>
      if i <? Z.of_nat (length b) then
        rest ← tail_from b (Z.to_nat i);
        let '(length_, n) := Uvarint rest in
        if n <=? 0 then Err "StringArrayDecodeAll: invalid encoded string length"
        else
          let l := i64 (i64 length_ + n) in
          let lower := i64 (i + n) in
          let upper := i64 (lower + i64 length_) in
          if upper <? lower then Err "StringArrayDecodeAll: length overflow"
          else if Z.of_nat (length b) <? upper then Err "StringArrayDecodeAll: short buffer"
          else
            s ← subslice b (Z.to_nat lower) (Z.to_nat upper);
            r ← decode_strings fuel' b (i + l);
            Ok (s :: r)
      else Ok []
  end.

(** Every round consumes at least one byte. *)
Definition StringArrayDecodeAll (b : list Z) (dst : slice (list Z)) : outcome (list (list Z)) :=
  match b with
  | [] => Ok []
  | b0 :: r =>
      if Z.shiftr b0 4 =? stringCompressedSnappy then
        match snappy_decode sn r with
        | None => Err "failed to decode string block"
        | Some data => decode_strings (S (length data)) data 0
        end
      else decode_strings (S (length r)) r 0
  end.

(** * Lemmas *)

Lemma encode_strings_cons x r :
  encode_strings (x :: r) = PutUvarint (Z.of_nat (length x)) ++ x ++ encode_strings r.
Proof. unfold encode_strings. cbn. by rewrite <- app_assoc. Qed.

Lemma encode_strings_app l1 l2 : encode_strings (l1 ++ l2) = encode_strings l1 ++ encode_strings l2.
Proof. apply bind_app. Qed.

(** The entry of [x] inside [pre ++ _ ++ post]. *)
Lemma string_entry pre x post :
  let ux := PutUvarint (Z.of_nat (length x)) in
  let b := pre ++ ux ++ x ++ post in
  Z.of_nat (length b) < 2 ^ 62 ->
  let i := Z.of_nat (length pre) in
  let len := Z.of_nat (length x) in
  let n := Z.of_nat (length ux) in
  tail_from b (length pre) = Ok (ux ++ x ++ post) /\
  Uvarint (ux ++ x ++ post) = (len, n) /\ 0 < n /\
  i64 (i64 len + n) = len + n /\ i64 (i + n) = i + n /\ i64 (i + n + i64 len) = i + n + len /\
  i + n + len <= Z.of_nat (length b) /\
  subslice b (Z.to_nat (i + n)) (Z.to_nat (i + n + len)) = Ok x.
Proof.
  intros ux b Hb i len n. pose proof (PutUvarint_length (Z.of_nat (length x))) as Hu. fold ux in Hu.
  assert (length b = length pre + length ux + length x + length post)%nat as Hlb
    by (unfold b; rewrite !length_app; lia).
  assert (drop (length pre) b = ux ++ x ++ post) as Hd by apply drop_app_length.
  assert (is_u64 len) as Hlen by (unfold is_u64, len; lia).
  split; [rewrite tail_from_Ok by lia; by rewrite Hd|].
  split; [unfold ux; by rewrite Uvarint_PutUvarint|]. split; [lia|].
  rewrite (i64_small len) by (unfold is_i64; lia).
  split; [apply i64_small; unfold is_i64; lia|]. split; [apply i64_small; unfold is_i64; lia|].
  split; [apply i64_small; unfold is_i64; lia|]. split; [lia|].
  unfold subslice. rewrite decide_True by lia. f_equal.
  replace (Z.to_nat (i + n)) with (length (pre ++ ux)) by (rewrite length_app; lia).
  replace (Z.to_nat (i + n + len)) with (length (pre ++ ux ++ x)) by (rewrite !length_app; lia).
  replace b with ((pre ++ ux ++ x) ++ post) by (unfold b; by rewrite <- !app_assoc).
  rewrite take_app_length. replace (pre ++ ux ++ x) with ((pre ++ ux) ++ x) by (by rewrite app_assoc).
  apply drop_app_length.
Qed.

(** ** Streaming *)
Lemma write_values_bytes e l : e_bytes (Codec.write_values e l) = e_bytes e ++ encode_strings l.
Proof.
  unfold Codec.write_values. revert e. induction l as [|x l IH]; intros e; cbn [foldl].
  - cbn. by rewrite app_nil_r.
  - rewrite IH. cbn [Codec.write StringEncoder_methods Write e_bytes].
    by rewrite encode_strings_cons, <- !app_assoc.
Qed.

Lemma delivers_strings l pre dl di :
  di + dl = Z.of_nat (length pre) ->
  Z.of_nat (length (pre ++ encode_strings l)) < 2 ^ 62 ->
  Codec.yields (fun _ => True) (MkStringDecoder (pre ++ encode_strings l) dl di None) l.
Proof.
  revert pre dl di. induction l as [|x l IH]; intros pre dl di Hi Hlen.
  - split; [done|]. split; [done|].
    cbn [Codec.next Codec.error StringDecoder_methods]. unfold Next. cbn [d_err d_b d_l d_i].
    change (encode_strings []) with (@nil Z) in *. rewrite app_nil_r in *.
    rewrite Hi, i64_small by (unfold is_i64; lia).
    rewrite Z.ltb_irrefl. by eexists.
  - rewrite encode_strings_cons in *. set (ux := PutUvarint _) in *.
    destruct (string_entry pre x (encode_strings l) Hlen) as (Ht & Hu & Hn & H1 & H2 & H3 & H4 & Hs).
    fold ux in Ht, Hu, Hn, H1, H2, H3, H4, Hs. set (b := pre ++ ux ++ x ++ encode_strings l) in *.
    split; [done|]. split; [done|].
    exists (MkStringDecoder b dl (Z.of_nat (length pre)) None),
      (MkStringDecoder b (Z.of_nat (length x) + Z.of_nat (length ux)) (Z.of_nat (length pre)) None).
    cbn [Codec.next Codec.read Codec.error StringDecoder_methods]. split; [|split].
    + unfold Next. cbn [d_err d_b d_l d_i]. rewrite Hi, i64_small by (unfold is_i64; lia).
      by rewrite (proj2 (Z.ltb_lt _ _)) by lia.
    + unfold Read. cbn [d_err d_b d_l d_i]. rewrite (proj2 (Z.ltb_ge _ 0)) by lia.
      rewrite Nat2Z.id, Ht. cbn [mbind outcome_bind]. rewrite Hu.
      rewrite (proj2 (Z.leb_gt _ 0)) by lia. rewrite H1, H2, H3.
      rewrite !(proj2 (Z.ltb_ge _ _)) by lia. by rewrite Hs.
    + replace b with ((pre ++ ux ++ x) ++ encode_strings l) by (unfold b; by rewrite <- !app_assoc).
      apply IH; [rewrite !length_app; lia|]. rewrite <- !app_assoc. exact Hlen.
Qed.

(** ** Batch *)
Lemma decode_strings_spec l pre fuel :
  Z.of_nat (length (pre ++ encode_strings l)) < 2 ^ 62 -> (length l < fuel)%nat ->
  decode_strings fuel (pre ++ encode_strings l) (Z.of_nat (length pre)) = Ok l.
Proof.
  revert pre fuel. induction l as [|x l IH]; intros pre fuel Hlen Hf;
    (destruct fuel as [|fuel]; [cbn in Hf; lia|]); cbn [decode_strings].
  - change (encode_strings []) with (@nil Z). by rewrite app_nil_r, Z.ltb_irrefl.
  - rewrite encode_strings_cons in *. set (ux := PutUvarint _) in *.
    destruct (string_entry pre x (encode_strings l) Hlen) as (Ht & Hu & Hn & H1 & H2 & H3 & H4 & Hs).
    fold ux in Ht, Hu, Hn, H1, H2, H3, H4, Hs. set (b := pre ++ ux ++ x ++ encode_strings l) in *.
    rewrite (proj2 (Z.ltb_lt _ _)) by lia. rewrite Nat2Z.id, Ht. cbn [mbind outcome_bind].
    rewrite Hu, (proj2 (Z.leb_gt _ 0)) by lia. rewrite H1, H2, H3.
    rewrite !(proj2 (Z.ltb_ge _ _)) by lia. rewrite Hs. cbn [mbind outcome_bind].
    assert (b = (pre ++ ux ++ x) ++ encode_strings l) as Eb by (unfold b; by rewrite <- !app_assoc).
    replace (Z.of_nat (length pre) + (Z.of_nat (length x) + Z.of_nat (length ux)))
      with (Z.of_nat (length (pre ++ ux ++ x))) by (rewrite !length_app; lia).
    rewrite Eb in Hlen |- *. rewrite IH; [done|done|cbn in Hf; lia].
Qed.

Lemma length_encode_strings l : (length l <= length (encode_strings l))%nat.
Proof.
  induction l as [|x l IH]; [done|]. rewrite encode_strings_cons, !length_app. cbn [length].
  pose proof (PutUvarint_length (Z.of_nat (length x))). lia.
Qed.

Lemma encode_strings_ok l : Forall bytes_ok l -> bytes_ok (encode_strings l).
Proof.
  induction 1 as [|x l Hx _ IH]; [constructor|]. rewrite encode_strings_cons, !bytes_ok_app.
  split; [apply PutUvarint_ok|done].
Qed.

(** With short strings, a length takes at most five bytes. *)
Lemma encode_strings_bound l :
  Forall (fun s => Z.of_nat (length s) < 2 ^ 35) l ->
  Z.of_nat (length (encode_strings l)) <=
    Z.of_nat (length l) * MaxVarintLen32 + foldr Z.add 0 ((fun s => Z.of_nat (length s)) <$> l).
Proof.
  unfold MaxVarintLen32. induction 1 as [|x l Hx _ IH]; [done|].
  rewrite encode_strings_cons, !length_app. cbn [fmap list_fmap foldr length] in *.
  pose proof (PutUvarint_short 5 (Z.of_nat (length x)) ltac:(lia) Hx). lia.
Qed.

Lemma sum_lengths_bound (x : list Z) (l : list (list Z)) :
  x ∈ l -> Z.of_nat (length x) <= foldr Z.add 0 ((fun s => Z.of_nat (length s)) <$> l).
Proof.
  assert (forall l : list (list Z), 0 <= foldr Z.add 0 ((fun s => Z.of_nat (length s)) <$> l)) as Hp.
  { intros k. induction k; cbn [fmap list_fmap foldr]; lia. }
  induction 1 as [y l|y z l _ IH]; cbn [fmap list_fmap foldr]; [specialize (Hp l)|]; lia.
Qed.

(** ** The codec *)
Context (Hsn : snappy_laws sn).

Definition fits (n : Z) : Prop := 0 <= MaxEncodedLen sn n.

Definition enc_ok (e : StringEncoder) : Prop := e_bytes e <> [].

Definition strings_ok (l : list (list Z)) : Prop :=
  Forall bytes_ok l /\ fits (Z.of_nat (length (encode_strings l))).

Lemma SetBytes_packed d data :
  fits (Z.of_nat (length data)) ->
  SetBytes d (Z.shiftl stringCompressedSnappy 4 :: snappy_encode sn data) =
    Ok (MkStringDecoder data 0 0 None).
Proof.
  intros Hf. unfold SetBytes. change (Z.shiftr (Z.shiftl stringCompressedSnappy 4) 4) with 1.
  cbn [Z.eqb stringCompressedSnappy Pos.eqb]. by rewrite snappy_decode_encode.
Qed.

Lemma string_codec e d l :
  enc_ok e -> strings_ok l ->
  exists e0 e1 b d', Reset e = Ok e0 /\ Bytes (Codec.write_values e0 l) = Ok (e1, b) /\
    enc_ok e1 /\ bytes_ok b /\ SetBytes d b = Ok d' /\ Codec.yields (fun _ => True) d' l.
Proof.
  intros He [Hl Hf]. unfold Reset, enc_ok in *. destruct (e_bytes e) as [|c r] eqn:Ee; [done|].
  rewrite store_in_range by (cbn; lia). cbn [mbind outcome_bind insert list_insert firstn].
  rewrite take_0.
  set (e0 := MkStringEncoder [0]). set (data := encode_strings l) in *.
  exists e0, (Codec.write_values e0 l), (Z.shiftl stringCompressedSnappy 4 :: snappy_encode sn data),
    (MkStringDecoder data 0 0 None).
  pose proof (write_values_bytes e0 l) as Hw. cbn [e_bytes e0 app] in Hw.
  split; [done|]. split; [|split; [|split; [|split]]].
  - unfold Bytes. rewrite Hw, tail_from_Ok by (cbn; lia). cbn [mbind outcome_bind drop].
    rewrite drop_0. unfold Encode. unfold fits in Hf. by rewrite (proj2 (Z.ltb_ge _ 0)) by done.
  - rewrite Hw. done.
  - constructor; [by vm_compute|]. apply (snappy_encode_bytes sn Hsn). by apply encode_strings_ok.
  - by apply SetBytes_packed.
  - pose proof (MaxEncodedLen_limit sn Hsn _ (Nat2Z.is_nonneg _) Hf) as Hlim.
    unfold MaxUint32 in Hlim. apply (delivers_strings l [] 0 0); [done|]. cbn [app]. fold data. lia.
Qed.

#[local, refine] Instance String_codec : Codec.CodecLaws StringEncoder StringDecoder (list Z) := {
  Codec.valid := strings_ok;
  Codec.enc_usable := enc_ok;
  Codec.dec_usable _ := True;
  Codec.reset_usable := _;
  Codec.codec_roundtrip := _
}.
Proof.
  - intros e He. unfold enc_ok in *. cbn [Codec.reset StringEncoder_methods]. unfold Reset.
    destruct (e_bytes e) as [|c r]; [done|]. rewrite store_in_range by (cbn; lia). by eexists.
  - intros e d l He _ _ Hl _. by apply string_codec.
Defined.

(** The size [StringArrayEncodeAll] budgets for its input. *)
Definition source_size (src : list (list Z)) : Z :=
  2 + Z.of_nat (length src) * MaxVarintLen32
  + foldr Z.add 0 ((fun s => Z.of_nat (length s)) <$> src).

Lemma encode_strings_fit src :
  source_size src <= MaxUint32 -> Z.of_nat (length (encode_strings src)) <= source_size src.
Proof.
  intros Hs. unfold source_size in *.
  assert (Forall (fun s : list Z => Z.of_nat (length s) < 2 ^ 35) src) as HF.
  { apply Forall_forall. intros x Hx%sum_lengths_bound. unfold MaxUint32, MaxVarintLen32 in *. lia. }
  pose proof (encode_strings_bound src HF). lia.
Qed.

Lemma string_array_codec src b dst d :
  src <> [] -> source_size src <= MaxUint32 -> fits (source_size src) ->
  exists out d', StringArrayEncodeAll src b = Ok out /\
    StringArrayDecodeAll out dst = Ok src /\
    SetBytes d out = Ok d' /\ Codec.yields (fun _ => True) d' src.
Proof.
  intros Hne Hmax Hfits. pose proof (encode_strings_fit src Hmax) as Hlen.
  pose proof (MaxEncodedLen_mono sn Hsn _ _ (conj (Nat2Z.is_nonneg _) Hlen) Hfits) as [Hf Hle].
  set (data := encode_strings src) in *.
  assert (Z.of_nat (length data) < 2 ^ 62) as H62 by (unfold MaxUint32 in Hmax; lia).
  exists (Z.shiftl stringCompressedSnappy 4 :: snappy_encode sn data), (MkStringDecoder data 0 0 None).
  split; [|split; [|split; [by apply SetBytes_packed|]]].
  - unfold StringArrayEncodeAll. fold (source_size src). unfold fits in Hfits.
    rewrite (proj2 (Z.ltb_ge _ (source_size src))) by done.
    rewrite (proj2 (Z.eqb_neq _ (-1))), andb_false_r by lia.
    assert (forall A (u w : A), match src with [] => u | _ :: _ => w end = w) as Hm by by destruct src.
    rewrite !Hm. fold data.
    rewrite (proj2 (Z.ltb_ge _ (Z.of_nat (length data)))) by done.
    unfold Encode. rewrite (proj2 (Z.ltb_ge _ 0)) by done. cbn [mbind outcome_bind].
    by rewrite (proj2 (Z.ltb_ge _ _)) by lia.
  - unfold StringArrayDecodeAll. change (Z.shiftr (Z.shiftl stringCompressedSnappy 4) 4) with 1.
    cbn [Z.eqb stringCompressedSnappy Pos.eqb]. rewrite snappy_decode_encode by done.
    apply (decode_strings_spec src []); [done|]. cbn [app].
    pose proof (length_encode_strings src). unfold data. lia.
  - by apply (delivers_strings src [] 0 0).
Qed.

(** * Theorems *)

(** the batch pair round-trips: every nonempty list of strings whose size is
    within snappy's limit is encoded, whatever the buffers, into a block that
    both the batch and the streaming decoder read back. *)
Theorem string_batch_roundtrip src b dst d :
  src <> [] -> source_size src <= MaxUint32 -> fits (source_size src) ->
  exists out d', StringArrayEncodeAll src b = Ok out /\
    StringArrayDecodeAll out dst = Ok src /\
    SetBytes d out = Ok d' /\ Codec.yields (fun _ => True) d' src.
Proof. apply string_array_codec. Qed.

End String.

(** A concrete stand-in for the library: no compression. *)
Definition identity_snappy : snappy :=
  Snappy (fun b => b) (fun b => Some b) (fun n => if n <=? MaxUint32 then n else -1).

Lemma identity_snappy_laws : snappy_laws identity_snappy.
Proof.
  split; cbn; intros.
  - done.
  - destruct (Z.leb_spec (Z.of_nat (length b)) MaxUint32); lia.
  - destruct (Z.leb_spec n MaxUint32); lia.
  - done.
  - destruct (Z.leb_spec n MaxUint32), (Z.leb_spec m MaxUint32); lia.
Qed.

Lemma string_batch_roundtrip_witness :
  exists out d', StringArrayEncodeAll identity_snappy [[104; 105]; []; [33]] nil_slice = Ok out /\
    StringArrayDecodeAll identity_snappy out nil_slice = Ok [[104; 105]; []; [33]] /\
    SetBytes identity_snappy NewStringDecoder out = Ok d' /\
    @Codec.yields _ _ (StringDecoder_methods identity_snappy) (fun _ => True) d' [[104; 105]; []; [33]].
Proof.
  apply (string_batch_roundtrip identity_snappy identity_snappy_laws [[104; 105]; []; [33]]
           nil_slice nil_slice NewStringDecoder).
  - discriminate.
  - vm_compute. discriminate.
  - vm_compute. discriminate.
Defined.

End StringCodec.
