(* ===== verification/Float.v ===== *)
(** The float codec: the streaming encoder and decoder of src/storage/codec/float.go.

    A float is its 64 bits.  Each value is written as its difference, bit by bit, from
    the one before it; a NaN ends the stream.  The writer of single bits is the library
    github.com/dgryski/go-bitstream, a parameter with its documented behaviour. *)
From S2P Require Import Prelude Binary Bits BitReader Codec.
Import Bits BitReader.

Module Float.

Definition floatCompressedGorilla : Z := 1.
Definition uvnan : Z := 9221120237041090561. (* 0x7FF8000000000001 *)

(** ** The Go library *)

(** [math.IsNaN]: all bits of the exponent and one of the fraction. *)
Definition IsNaN (x : Z) : bool := (Z.land (Z.shiftr x 52) 2047 =? 2047) && negb (Z.land x (2 ^ 52 - 1) =? 0).

Definition LeadingZeros64 (x : Z) : Z := if x =? 0 then 64 else 63 - Z.log2 x.

Fixpoint trailing_loop (fuel : nat) (x i : Z) : Z :=
  match fuel with O => i | S fuel => if Z.testbit x i then i else trailing_loop fuel x (i + 1) end.
Definition TrailingZeros64 (x : Z) : Z := trailing_loop 64 x 0.

(** [x << s] on 64 bits. *)
Definition shl64 (x s : Z) : Z := if s <? 64 then u64 (Z.shiftl x s) else 0.

(** ** The library of bit streams

    A writer holds the bits that do not make a byte yet; the others are in the buffer it
    writes to. *)
Record bitstream := MkBitstream {
  BitWriter : Type;
  NewWriter : BitWriter;
  Resume : BitWriter -> Z -> Z -> BitWriter;
  WriteBit : BitWriter -> list Z -> bool -> BitWriter * list Z;
  WriteBits : BitWriter -> list Z -> Z -> Z -> BitWriter * list Z;
  FlushBits : BitWriter -> list Z -> bool -> BitWriter * list Z
}.

Class bitstream_laws (bs : bitstream) := {
  pending : BitWriter bs -> list bool -> Prop;
  pending_new : pending (NewWriter bs) [];
  pending_resume w : pending (Resume bs w 0 8) [];
  WriteBit_law w buf p b : pending w p -> bytes_ok buf ->
    exists w' buf' p', WriteBit bs w buf b = (w', buf') /\ pending w' p' /\ bytes_ok buf' /\ bits buf' ++ p' = bits buf ++ p ++ [b];
  WriteBits_law w buf p x n : pending w p -> bytes_ok buf -> (n <= 64)%nat ->
    exists w' buf' p', WriteBits bs w buf x (Z.of_nat n) = (w', buf') /\ pending w' p' /\ bytes_ok buf' /\
      bits buf' ++ p' = bits buf ++ p ++ lowbits n x;
  FlushBits_law w buf p : pending w p -> bytes_ok buf ->
    exists w' buf' k, FlushBits bs w buf false = (w', buf') /\ bytes_ok buf' /\ (k < 8)%nat /\ bits buf' = bits buf ++ p ++ zeros k
}.

(** ** The encoder *)
Section Encoder.
Context (bs : bitstream).

Record FloatEncoder := MkFloatEncoder {
  e_val : Z; e_err : option string; e_leading : Z; e_trailing : Z; e_buf : list Z; e_bw : BitWriter bs;
  e_first : bool; e_finished : bool }.

Definition NewFloatEncoder : FloatEncoder :=
  MkFloatEncoder 0 None (2 ^ 64 - 1) 0 [Z.shiftl floatCompressedGorilla 4] (NewWriter bs) true false.

Definition Reset (s : FloatEncoder) : FloatEncoder :=
  MkFloatEncoder 0 None (2 ^ 64 - 1) 0 [Z.shiftl floatCompressedGorilla 4] (Resume bs (e_bw s) 0 8) true false.

Definition Bytes (s : FloatEncoder) : outcome (list Z) :=
  match e_err s with None => Ok (e_buf s) | Some e => Err e end.

(** What is written goes to the buffer and the writer. *)
Definition with_out (s : FloatEncoder) (r : BitWriter bs * list Z) : FloatEncoder :=
  MkFloatEncoder (e_val s) (e_err s) (e_leading s) (e_trailing s) (snd r) (fst r) (e_first s) (e_finished s).
Definition put_bit (s : FloatEncoder) (b : bool) : FloatEncoder := with_out s (WriteBit bs (e_bw s) (e_buf s) b).
Definition put_bits (s : FloatEncoder) (x n : Z) : FloatEncoder := with_out s (WriteBits bs (e_bw s) (e_buf s) x n).

Definition with_val (s : FloatEncoder) (x : Z) : FloatEncoder :=
  MkFloatEncoder x (e_err s) (e_leading s) (e_trailing s) (e_buf s) (e_bw s) false (e_finished s).
Definition with_window (s : FloatEncoder) (l t : Z) : FloatEncoder :=
  MkFloatEncoder (e_val s) (e_err s) l t (e_buf s) (e_bw s) (e_first s) (e_finished s).
Definition with_err (s : FloatEncoder) (e : string) : FloatEncoder :=
  MkFloatEncoder (e_val s) (Some e) (e_leading s) (e_trailing s) (e_buf s) (e_bw s) (e_first s) (e_finished s).
Definition with_finished (s : FloatEncoder) : FloatEncoder :=
  MkFloatEncoder (e_val s) (e_err s) (e_leading s) (e_trailing s) (e_buf s) (e_bw s) (e_first s) true.

(** The leading zeros as they are written: five bits of them. *)
Definition clamp (leading : Z) : Z := let l := Z.land leading 31 in if 32 <=? l then 31 else l.

Definition Write (s : FloatEncoder) (x : Z) : FloatEncoder :=
  if IsNaN x && negb (e_finished s) then with_err s "unsupported value: NaN" else
  if e_first s then put_bits (with_val s x) x 64 else
  let vDelta := Z.lxor x (e_val s) in
  let s :=
    if vDelta =? 0 then put_bit s false else
    let s := put_bit s true in
    let leading := clamp (LeadingZeros64 vDelta) in
    let trailing := TrailingZeros64 vDelta in
    if negb (e_leading s =? 2 ^ 64 - 1) && (e_leading s <=? leading) && (e_trailing s <=? trailing) then
      put_bits (put_bit s false) (Z.shiftr vDelta (e_trailing s)) (64 - e_leading s - e_trailing s)
    else
      let s := put_bit (with_window s leading trailing) true in
      let s := put_bits s leading 5 in
      let sigbits := u64 (64 - leading - trailing) in
      put_bits (put_bits s sigbits 6) (Z.shiftr vDelta trailing) sigbits in
  with_val s x.

(** [math.NaN()] is the value with the bits [uvnan]. *)
Definition Flush (s : FloatEncoder) : FloatEncoder :=
  if e_finished s then s else
  let s := Write (with_finished s) uvnan in
  with_out s (FlushBits bs (e_bw s) (e_buf s) false).

End Encoder.

(** ** The decoder *)

Record FloatDecoder := MkFloatDecoder {
  d_val : Z; d_leading : Z; d_trailing : Z; d_br : BitReader; d_b : list Z; d_first : bool; d_finished : bool;
  d_err : option string }.

Definition NewFloatDecoder : FloatDecoder := MkFloatDecoder 0 0 0 (MkReader [] 0 0) [] false false None.

Definition EOF : string := "EOF".

Definition SetBytes (it : FloatDecoder) (b : list Z) : outcome FloatDecoder :=
  '(br, v) ← (match b with
              | [] => Ok (d_br it, uvnan)
              | _ :: b => match ReadBits (BitReader.Reset b) 64 with
                          | (br, Some v) => Ok (br, v)
                          | (_, None) => Err EOF
                          end
              end);
  Ok (MkFloatDecoder v 0 0 br b true false None).

Definition with_br (it : FloatDecoder) (br : BitReader) : FloatDecoder :=
  MkFloatDecoder (d_val it) (d_leading it) (d_trailing it) br (d_b it) (d_first it) (d_finished it) (d_err it).
Definition d_with_val (it : FloatDecoder) (v : Z) : FloatDecoder :=
  MkFloatDecoder v (d_leading it) (d_trailing it) (d_br it) (d_b it) (d_first it) (d_finished it) (d_err it).
Definition d_with_window (it : FloatDecoder) (l t : Z) : FloatDecoder :=
  MkFloatDecoder (d_val it) l t (d_br it) (d_b it) (d_first it) (d_finished it) (d_err it).
Definition d_started (it : FloatDecoder) : FloatDecoder :=
  MkFloatDecoder (d_val it) (d_leading it) (d_trailing it) (d_br it) (d_b it) false (d_finished it) (d_err it).
Definition finish (it : FloatDecoder) : FloatDecoder * bool :=
  (MkFloatDecoder (d_val it) (d_leading it) (d_trailing it) (d_br it) (d_b it) (d_first it) true (d_err it), false).
Definition fail (it : FloatDecoder) : FloatDecoder * bool :=
  (MkFloatDecoder (d_val it) (d_leading it) (d_trailing it) (d_br it) (d_b it) (d_first it) (d_finished it) (Some EOF), false).

Definition next_bit (it : FloatDecoder) : FloatDecoder * option bool :=
  if CanReadBitFast (d_br it) then let '(br, b) := ReadBitFast (d_br it) in (with_br it br, Some b)
  else let '(br, b) := ReadBit (d_br it) in (with_br it br, b).
Definition next_bits (it : FloatDecoder) (n : Z) : FloatDecoder * option Z :=
  let '(br, v) := ReadBits (d_br it) n in (with_br it br, v).

(** New numbers of leading and trailing zeros. *)
Definition read_window (it : FloatDecoder) : FloatDecoder * bool :=
  match next_bits it 5 with
  | (it, None) => fail it
  | (it, Some leading) =>
      let it := d_with_window it leading (d_trailing it) in
      match next_bits it 6 with
      | (it, None) => fail it
      | (it, Some mbits) =>
          let mbits := if mbits =? 0 then 64 else mbits in
          (d_with_window it leading (u64 (64 - leading - mbits)), true)
      end
  end.

(** The bits in which the next value differs. *)
Definition read_delta (it : FloatDecoder) : FloatDecoder * bool :=
  match next_bits it (u64 (64 - d_leading it - d_trailing it)) with
  | (it, None) => fail it
  | (it, Some x) =>
      let vbits := Z.lxor (d_val it) (shl64 x (d_trailing it)) in
      if vbits =? uvnan then finish it else (d_with_val it vbits, true)
  end.

Definition Next (it : FloatDecoder) : FloatDecoder * bool :=
  if (match d_err it with Some _ => true | None => d_finished it end) then (it, false) else
  if d_first it then
    let it := d_started it in
    if d_val it =? uvnan then finish it else (it, true)
  else
    match next_bit it with
    | (it, None) => fail it
    | (it, Some false) => (it, true)
    | (it, Some true) =>
        match next_bit it with
        | (it, None) => fail it
        | (it, Some false) => read_delta it
        | (it, Some true) => match read_window it with (it, true) => read_delta it | (it, false) => (it, false) end
        end
    end.

Definition Value (it : FloatDecoder) : Z := d_val it.
Definition Error (it : FloatDecoder) : option string := d_err it.

(** ** The methods the blocks use; what is written is flushed before its bytes are taken *)

#[global] Instance FloatEncoder_methods (bs : bitstream) : Codec.ValueEncoder (FloatEncoder bs) Z := {
  reset s := Ok (Reset bs s);
  write s x := Write bs s x;
  bytes s := let s := Flush bs s in b ← Bytes bs s; Ok (s, b)
}.

#[global] Instance FloatDecoder_methods : Codec.ValueDecoder FloatDecoder Z := {
  set_bytes it b := SetBytes it b;
  next it := Ok (Next it);
  read it := Ok (it, Value it);
  error it := Error it
}.

End Float.
