(* ===== verification/FloatLaws.v ===== *)
(** The laws of the streaming float codec: what its bits are, and that they are read back. *)
From S2P Require Import Prelude Binary Bits BitReader Codec Float.
Import Bits BitReader Float.

Module FloatLaws.

(** ** Specification: the bits of a list of floats *)

(** The leading and trailing zeros of the last difference written with its own. *)
Definition window : Type := option (Z * Z).

Definition delta (w : window) (prev cur : Z) : window * list bool :=
  let x := Z.lxor cur prev in
  if x =? 0 then (w, [false]) else
  let l := clamp (LeadingZeros64 x) in
  let t := TrailingZeros64 x in
  let own := (Some (l, t), [true; true] ++ lowbits 5 l ++ lowbits 6 (64 - l - t) ++ lowbits (Z.to_nat (64 - l - t)) (Z.shiftr x t)) in
  match w with
  | Some (l0, t0) =>
      if (l0 <=? l) && (t0 <=? t) then (w, [true; false] ++ lowbits (Z.to_nat (64 - l0 - t0)) (Z.shiftr x t0)) else own
  | None => own
  end.

Fixpoint stream (w : window) (prev : Z) (xs : list Z) : list bool :=
  match xs with
  | [] => []
  | x :: xs => let '(w, b) := delta w prev x in b ++ stream w x xs
  end.

Definition format (xs : list Z) : list bool :=
  match xs ++ [uvnan] with x :: xs => lowbits 64 x ++ stream None x xs | [] => [] end.

(** The bytes of a list of floats: a header, and the bits filled up to a byte. *)
Definition encodes (b : list Z) (xs : list Z) : Prop :=
  exists k, (k < 8)%nat /\ bytes_ok b /\ bits b = lowbits 8 16 ++ format xs ++ zeros k.

(** Floats that can be written. *)
Definition number_ok (x : Z) : Prop := is_u64 x /\ IsNaN x = false.

Definition window_ok (w : window) : Prop :=
  match w with Some (l, t) => 0 <= l <= 31 /\ 0 <= t /\ l + t <= 63 | None => True end.

(** * Lemmas *)

(** ** Leading and trailing zeros *)

Lemma trailing_loop_ok fuel x i :
  0 <= i -> (exists j, i <= j < i + Z.of_nat fuel /\ Z.testbit x j = true) ->
  let t := trailing_loop fuel x i in i <= t < i + Z.of_nat fuel /\ Z.testbit x t = true /\ (forall j, i <= j < t -> Z.testbit x j = false).
Proof.
  revert i. induction fuel as [|fuel IH]; intros i Hi (j & Hj & Hx); [lia|]. cbn [trailing_loop].
  destruct (Z.testbit x i) eqn:E; [split; [lia|]; split; [done|]; intros; lia|].
  destruct (IH (i + 1)) as (H1 & H2 & H3); [lia| |].
  { exists j. split; [|done]. destruct (decide (j = i)); [congruence|lia]. }
  split; [lia|]. split; [done|]. intros k Hk. destruct (decide (k = i)) as [->|]; [done|]. apply H3. lia.
Qed.

Lemma leading_range x : 0 < x < 2 ^ 64 ->
  0 <= LeadingZeros64 x <= 63 /\ x < 2 ^ (64 - LeadingZeros64 x) /\ 2 ^ (63 - LeadingZeros64 x) <= x.
Proof.
  intros Hx. unfold LeadingZeros64. rewrite (proj2 (Z.eqb_neq x 0)) by lia. pose proof (Z.log2_spec x ltac:(lia)).
  assert (Z.log2 x < 64) by (apply Z.log2_lt_pow2; lia). pose proof (Z.log2_nonneg x).
  replace (64 - (63 - Z.log2 x)) with (Z.succ (Z.log2 x)) by lia. replace (63 - (63 - Z.log2 x)) with (Z.log2 x) by lia. lia.
Qed.

Lemma trailing_range x : 0 < x < 2 ^ 64 ->
  let t := TrailingZeros64 x in 0 <= t <= 63 - LeadingZeros64 x /\ (forall j, 0 <= j < t -> Z.testbit x j = false).
Proof.
  intros Hx. unfold TrailingZeros64, LeadingZeros64. rewrite (proj2 (Z.eqb_neq x 0)) by lia.
  pose proof (Z.log2_nonneg x). assert (Z.log2 x < 64) by (apply Z.log2_lt_pow2; lia).
  destruct (trailing_loop_ok 64 x 0) as (H1 & H2 & H3); [lia|exists (Z.log2 x); split; [lia|apply Z.bit_log2; lia]|].
  split; [|done]. destruct (decide (trailing_loop 64 x 0 <= Z.log2 x)); [lia|]. rewrite Z.bits_above_log2 in H2 by lia. done.
Qed.

Lemma clamp_range l : 0 <= l -> 0 <= clamp l <= 31 /\ clamp l <= l.
Proof.
  intros Hl. unfold clamp. assert (Z.land l 31 = l mod 32) as -> by exact (Z.land_ones l 5 ltac:(lia)).
  pose proof (Z.mod_pos_bound l 32 ltac:(lia)). pose proof (Z.mod_le l 32 ltac:(lia) ltac:(lia)).
  cbv zeta. rewrite (proj2 (Z.leb_gt 32 _)) by lia. lia.
Qed.

(** A difference is in its window: it is recovered from the bits within. *)
Lemma in_window x l t :
  0 < x < 2 ^ 64 -> 0 <= l <= LeadingZeros64 x -> 0 <= t <= TrailingZeros64 x ->
  shl64 (number (lowbits (Z.to_nat (64 - l - t)) (Z.shiftr x t))) t = x /\ (1 <= Z.to_nat (64 - l - t) <= 64)%nat /\ l + t <= 63.
Proof.
  intros Hx Hl Ht. pose proof (leading_range x Hx) as (HL & HL1 & _). pose proof (trailing_range x Hx) as (HT & Hlow).
  split; [|lia]. rewrite number_lowbits_small.
  - unfold shl64. rewrite (proj2 (Z.ltb_lt t 64)) by lia.
    assert (Z.shiftl (Z.shiftr x t) t = x) as ->; [|apply u64_small; unfold is_u64; lia].
    apply Z.bits_inj'. intros i Hi. destruct (decide (i < t)) as [Hit|Hit].
    + rewrite Z.shiftl_spec_low by done. symmetry. apply Hlow. lia.
    + rewrite Z.shiftl_spec, Z.shiftr_spec by lia. f_equal. lia.
  - rewrite Z2Nat.id by lia. rewrite Z.shiftr_div_pow2 by lia. split; [apply Z.div_pos; lia|]. apply Z.div_lt_upper_bound; [lia|].
    rewrite <- Z.pow_add_r by lia. apply Z.lt_le_trans with (1 := HL1). apply Z.pow_le_mono_r; lia.
Qed.

Lemma xor_range a b : is_u64 a -> is_u64 b -> is_u64 (Z.lxor a b).
Proof.
  intros Ha Hb. unfold is_u64 in *. assert (Z.lxor a b = Z.lxor a b mod 2 ^ 64) as ->; [|apply Z.mod_pos_bound; lia].
  apply Z.bits_inj'. intros i Hi. destruct (decide (i < 64)); [by rewrite Z.mod_pow2_bits_low|].
  rewrite Z.mod_pow2_bits_high, Z.lxor_spec, (testbit_high 64 a), (testbit_high 64 b) by lia. done.
Qed.

Lemma xor_back a b : Z.lxor b (Z.lxor a b) = a.
Proof. by rewrite (Z.lxor_comm a), <- Z.lxor_assoc, Z.lxor_nilpotent, Z.lxor_0_l. Qed.

(** What is written of a difference that is not zero. *)
Inductive written (w : window) (x : Z) : window -> list bool -> Prop :=
| w_again l t : w = Some (l, t) -> 0 <= l <= LeadingZeros64 x -> 0 <= t <= TrailingZeros64 x ->
    written w x w ([true; false] ++ lowbits (Z.to_nat (64 - l - t)) (Z.shiftr x t))
| w_own l t : 0 <= l <= 31 -> l <= LeadingZeros64 x -> 0 <= t <= TrailingZeros64 x ->
    written w x (Some (l, t)) ([true; true] ++ lowbits 5 l ++ lowbits 6 (64 - l - t) ++ lowbits (Z.to_nat (64 - l - t)) (Z.shiftr x t)).

Lemma delta_written w prev cur : window_ok w -> is_u64 prev -> is_u64 cur -> cur <> prev ->
  written w (Z.lxor cur prev) (fst (delta w prev cur)) (snd (delta w prev cur)) /\ window_ok (fst (delta w prev cur)) /\
  0 < Z.lxor cur prev < 2 ^ 64.
Proof.
  intros Hw Hp Hc Hne. pose proof (xor_range cur prev Hc Hp) as Hx. set (x := Z.lxor cur prev) in *.
  assert (x <> 0) as Hx0 by (by intros E%Z.lxor_eq). assert (0 < x < 2 ^ 64) as Hx2 by (unfold is_u64 in Hx; lia).
  pose proof (leading_range x Hx2) as (HL & _). pose proof (trailing_range x Hx2) as (HT & _).
  pose proof (clamp_range (LeadingZeros64 x) ltac:(lia)) as (HC1 & HC2).
  unfold delta. fold x. rewrite (proj2 (Z.eqb_neq x 0)) by done.
  destruct w as [[l0 t0]|]; [destruct (Z.leb_spec l0 (clamp (LeadingZeros64 x))); [destruct (Z.leb_spec t0 (TrailingZeros64 x))|]|]; cbn [andb fst snd window_ok] in *.
  - split; [apply (w_again _ _ l0 t0); [done|lia..]|]. by split.
  - split; [apply w_own; lia|]. split; [lia|done].
  - split; [apply w_own; lia|]. split; [lia|done].
  - split; [apply w_own; lia|]. split; [lia|done].
Qed.

(** ** Encoding *)
Section Encoding.
Context (bs : bitstream) `{!bitstream_laws bs}.

(** [e] has written the bits [l]. *)
Definition wrote (e : FloatEncoder bs) (l : list bool) : Prop :=
  exists p, pending (e_bw bs e) p /\ bytes_ok (e_buf bs e) /\ bits (e_buf bs e) ++ p = l.

Lemma put_bit_ok e l b : wrote e l -> wrote (put_bit bs e b) (l ++ [b]).
Proof.
  intros (p & Hp & Hb & <-). destruct (WriteBit_law (e_bw bs e) (e_buf bs e) p b Hp Hb) as (w' & buf' & p' & E & Hp' & Hb' & Hbits).
  unfold put_bit. rewrite E. exists p'. split; [done|]. split; [done|]. cbn [with_out e_bw e_buf fst snd]. by rewrite Hbits, app_assoc.
Qed.

Lemma put_bits_ok e l x n : wrote e l -> (n <= 64)%nat -> wrote (put_bits bs e x (Z.of_nat n)) (l ++ lowbits n x).
Proof.
  intros (p & Hp & Hb & <-) Hn. destruct (WriteBits_law (e_bw bs e) (e_buf bs e) p x n Hp Hb Hn) as (w' & buf' & p' & E & Hp' & Hb' & Hbits).
  unfold put_bits. rewrite E. exists p'. split; [done|]. split; [done|]. cbn [with_out e_bw e_buf fst snd]. by rewrite Hbits, app_assoc.
Qed.

Lemma put_bits_z e l x k n : wrote e l -> k = Z.of_nat n -> (n <= 64)%nat -> wrote (put_bits bs e x k) (l ++ lowbits n x).
Proof. intros H -> Hn. by apply put_bits_ok. Qed.

(** The encoder after a value. *)
Definition window_is (e : FloatEncoder bs) (w : window) : Prop :=
  match w with Some (l, t) => e_leading bs e = l /\ e_trailing bs e = t | None => e_leading bs e = 2 ^ 64 - 1 end.

Definition at_value (e : FloatEncoder bs) (fin : bool) (w : window) (prev : Z) (l : list bool) : Prop :=
  wrote e l /\ e_err bs e = None /\ e_first bs e = false /\ e_finished bs e = fin /\ e_val bs e = prev /\ window_is e w.

Lemma Write_next e fin w prev l x :
  at_value e fin w prev l -> window_ok w -> is_u64 prev -> is_u64 x -> IsNaN x = false \/ fin = true ->
  at_value (Write bs e x) fin (fst (delta w prev x)) x (l ++ snd (delta w prev x)).
Proof.
  intros (Hl & He & Hf & Hfin & Hv & Hwin) Hw Hp Hx Hn. unfold Write.
  assert (IsNaN x && negb (e_finished bs e) = false) as ->.
  { rewrite Hfin. destruct Hn as [->| ->]; [done|apply andb_false_r]. }
  rewrite Hf, Hv. unfold delta. set (y := Z.lxor x prev). destruct (Z.eqb_spec y 0) as [Hy|Hy].
  { split; [exact (put_bit_ok e l false Hl)|]. by split_and!. }
  assert (0 < y < 2 ^ 64) as Hy2 by (pose proof (xor_range x prev Hx Hp) as H; unfold is_u64 in H; fold y in H; lia).
  pose proof (leading_range y Hy2) as (HL & _). pose proof (trailing_range y Hy2) as (HT & _).
  pose proof (clamp_range (LeadingZeros64 y) ltac:(lia)) as (HC1 & HC2).
  set (cl := clamp (LeadingZeros64 y)) in *. set (ct := TrailingZeros64 y) in *. pose proof (put_bit_ok e l true Hl) as H1.
  assert (wrote (put_bits bs (put_bits bs (put_bits bs (put_bit bs (with_window bs (put_bit bs e true) cl ct) true) cl 5) (u64 (64 - cl - ct)) 6)
     (Z.shiftr y ct) (u64 (64 - cl - ct)))
     (l ++ [true; true] ++ lowbits 5 cl ++ lowbits 6 (64 - cl - ct) ++ lowbits (Z.to_nat (64 - cl - ct)) (Z.shiftr y ct))) as Hown.
  { rewrite u64_small by (unfold is_u64; lia).
    pose proof (put_bit_ok (with_window bs (put_bit bs e true) cl ct) _ true H1) as H2.
    pose proof (put_bits_z _ _ cl 5 5 H2 eq_refl ltac:(lia)) as H3.
    pose proof (put_bits_z _ _ (64 - cl - ct) 6 6 H3 eq_refl ltac:(lia)) as H4.
    pose proof (put_bits_z _ _ (Z.shiftr y ct) (64 - cl - ct) (Z.to_nat (64 - cl - ct)) H4 ltac:(lia) ltac:(lia)) as H5.
    by rewrite <- !app_assoc in H5. }
  cbn [put_bit with_out e_leading e_trailing].
  destruct w as [[l0 t0]|]; cbn [window_is window_ok] in *.
  - destruct Hwin as [HwL HwT]. rewrite HwL, HwT, (proj2 (Z.eqb_neq l0 _)) by lia. cbn [negb andb].
    destruct ((l0 <=? cl) && (t0 <=? ct)); cbn [fst snd]; (split; [|split_and!; try done; exact (conj HwL HwT)]); [|exact Hown].
    pose proof (put_bit_ok _ _ false H1) as H2.
    pose proof (put_bits_z _ _ (Z.shiftr y t0) (64 - l0 - t0) (Z.to_nat (64 - l0 - t0)) H2 ltac:(lia) ltac:(lia)) as H3.
    by rewrite <- !app_assoc in H3.
  - rewrite Hwin, Z.eqb_refl. cbn [negb andb fst snd]. split; [exact Hown|]. by split_and!.
Qed.

Lemma delta_window_ok w prev x : window_ok w -> is_u64 prev -> is_u64 x -> window_ok (fst (delta w prev x)).
Proof.
  intros Hw Hp Hx. destruct (decide (x = prev)) as [->|Hne]; [unfold delta; rewrite Z.lxor_nilpotent; exact Hw|]. exact (proj1 (proj2 (delta_written w prev x Hw Hp Hx Hne))).
Qed.

Lemma Write_all xs : forall e w prev l,
  at_value e false w prev l -> window_ok w -> is_u64 prev -> Forall number_ok xs ->
  exists w' prev', at_value (foldl (Write bs) e xs) false w' prev' (l ++ stream w prev xs) /\ window_ok w' /\ is_u64 prev' /\
    stream w prev (xs ++ [uvnan]) = stream w prev xs ++ stream w' prev' [uvnan].
Proof.
  induction xs as [|x xs IH]; intros e w prev l H Hw Hp Hxs; cbn [foldl stream app]; [exists w, prev; by rewrite app_nil_r|].
  apply Forall_cons in Hxs as [[Hx Hnan] Hxs].
  pose proof (Write_next e false w prev l x H Hw Hp Hx (or_introl Hnan)) as H1.
  pose proof (delta_window_ok w prev x Hw Hp Hx) as Hw1. destruct (delta w prev x) as [w1 b]. cbn [fst snd] in *.
  destruct (IH _ w1 x (l ++ b) H1 Hw1 Hx Hxs) as (w' & prev' & H2 & H3 & H4 & H5). exists w', prev'.
  rewrite H5, !app_assoc. by rewrite <- app_assoc in H2 |- *.
Qed.

Lemma uvnan_u64 : is_u64 uvnan.
Proof. by apply (bool_decide_unpack _); vm_compute. Qed.

Lemma Reset_wrote_header e : wrote (Reset bs e) (lowbits 8 16).
Proof. exists []. split; [apply pending_resume|]. split; [by apply (bool_decide_unpack _); vm_compute|done]. Qed.

Lemma first_value e x : wrote e (lowbits 8 16) -> e_first bs e = true -> e_err bs e = None -> e_leading bs e = 2 ^ 64 - 1 ->
  IsNaN x && negb (e_finished bs e) = false ->
  at_value (Write bs e x) (e_finished bs e) None x (lowbits 8 16 ++ lowbits 64 x).
Proof.
  intros Hw Hf He Hl Hn. unfold Write. rewrite Hn, Hf. split; [|by split_and!].
  exact (put_bits_z (with_val bs e x) _ x 64 64 Hw eq_refl ltac:(lia)).
Qed.

Lemma stream_nan w prev : stream w prev [uvnan] = snd (delta w prev uvnan).
Proof. cbn. destruct (delta w prev uvnan). by rewrite app_nil_r. Qed.

Lemma Flush_encodes e w prev l xs : at_value e false w prev l -> window_ok w -> is_u64 prev ->
  l ++ stream w prev [uvnan] = lowbits 8 16 ++ format xs ->
  exists b, Codec.bytes e = Ok (Flush bs e, b) /\ encodes b xs.
Proof.
  intros H Hw Hp E. cbn [Codec.bytes FloatEncoder_methods]. unfold Flush. pose proof H as (_ & _ & _ & Hfin & _). rewrite Hfin.
  assert (at_value (with_finished bs e) true w prev l) as H0 by (destruct H as (H1 & H2 & H3 & H4 & H5 & H6); by split_and!).
  pose proof (Write_next (with_finished bs e) true w prev l uvnan H0 Hw Hp uvnan_u64 (or_intror eq_refl)) as H1.
  rewrite <- stream_nan, E in H1. destruct H1 as ((p & Hpd & Hb & Hbits) & He & _).
  destruct (FlushBits_law _ _ p Hpd Hb) as (w' & buf' & k & EF & Hb' & Hk & Hbits'). rewrite EF.
  exists buf'. split; [unfold Bytes; cbn [with_out e_err e_buf fst snd]; by rewrite He|]. exists k. split; [done|]. split; [done|].
  by rewrite Hbits', app_assoc, Hbits, <- app_assoc.
Qed.

(** What is written after a reset, of any floats that are numbers. *)
Lemma encode_ok e xs : Forall number_ok xs ->
  exists b, Codec.bytes (Codec.write_values (Reset bs e) xs) = Ok (Flush bs (Codec.write_values (Reset bs e) xs), b) /\ encodes b xs.
Proof.
  intros Hxs. unfold Codec.write_values. cbn [Codec.write FloatEncoder_methods]. destruct xs as [|x xs].
  - (* the sentinel is the first value *)
    cbn [foldl Codec.bytes FloatEncoder_methods]. unfold Flush. cbn [Reset e_finished].
    pose proof (first_value (with_finished bs (Reset bs e)) uvnan (Reset_wrote_header e) eq_refl eq_refl eq_refl eq_refl) as ((p & Hpd & Hb & Hbits) & He & _).
    destruct (FlushBits_law _ _ p Hpd Hb) as (w' & buf' & k & EF & Hb' & Hk & Hbits'). rewrite EF.
    exists buf'. split; [unfold Bytes; cbn [with_out e_err e_buf fst snd]; by rewrite He|]. exists k. split; [done|]. split; [done|].
    rewrite Hbits', app_assoc, Hbits, <- app_assoc. unfold format. cbn [app stream]. by rewrite app_nil_r.
  - apply Forall_cons in Hxs as [[Hx Hnan] Hxs]. cbn [foldl].
    pose proof (first_value (Reset bs e) x (Reset_wrote_header e) eq_refl eq_refl eq_refl ltac:(by rewrite Hnan)) as H1.
    destruct (Write_all xs _ None x _ H1 I Hx Hxs) as (w' & prev' & H2 & Hw' & Hp' & E).
    apply (Flush_encodes _ w' prev' _ (x :: xs) H2 Hw' Hp'). unfold format. cbn [app]. by rewrite E, <- !app_assoc.
Qed.

End Encoding.

(** ** Decoding *)

Lemma next_bit_ok it x l : reads (d_br it) (x :: l) -> exists br, next_bit it = (with_br it br, Some x) /\ reads br l.
Proof.
  intros H. unfold next_bit. destruct (CanReadBitFast (d_br it)) eqn:E.
  - destruct (ReadBitFast_ok _ _ _ H E) as (br & -> & Hr). by exists br.
  - destruct (ReadBit_ok _ _ _ H) as (br & -> & Hr). by exists br.
Qed.

Lemma next_bits_ok it b l k : reads (d_br it) (b ++ l) -> k = Z.of_nat (length b) -> (1 <= length b <= 64)%nat ->
  exists br, next_bits it k = (with_br it br, Some (number b)) /\ reads br l.
Proof.
  intros H -> Hb. unfold next_bits. destruct (ReadBits_ok _ _ (length b) H) as (br & -> & Hr); [by destruct b; [cbn in Hb; lia|]|done|].
  exists br. rewrite drop_app_length in Hr. split; [|done]. by rewrite <- app_assoc, take_app_length.
Qed.

(** The decoder after a value, with the bits [l] before it. *)
Definition after_value (it : FloatDecoder) (w : window) (prev : Z) (l : list bool) : Prop :=
  reads (d_br it) l /\ d_err it = None /\ d_first it = false /\ d_finished it = false /\ d_val it = prev /\
  match w with Some (a, b) => d_leading it = a /\ d_trailing it = b | None => True end.

(** What [Next] does at the value [x]: it ends at the sentinel. *)
Definition arrives (r : FloatDecoder * bool) (w : window) (x : Z) (l : list bool) : Prop :=
  if x =? uvnan then snd r = false /\ d_err (fst r) = None else snd r = true /\ after_value (fst r) w x l.

Lemma read_delta_ok it l t prev x rest :
  let y := Z.lxor x prev in
  0 < y < 2 ^ 64 -> 0 <= l <= LeadingZeros64 y -> 0 <= t <= TrailingZeros64 y ->
  after_value it (Some (l, t)) prev (lowbits (Z.to_nat (64 - l - t)) (Z.shiftr y t) ++ rest) ->
  arrives (read_delta it) (Some (l, t)) x rest.
Proof.
  intros y Hy Hl Ht (Hr & He & Hf & Hfin & Hv & HwL & HwT). destruct (in_window y l t Hy Hl Ht) as (Hx & Hn & Hlt).
  unfold read_delta. destruct (next_bits_ok it _ _ (u64 (64 - d_leading it - d_trailing it)) Hr) as (br & -> & Hr'); rewrite ?length_lowbits; [|done|].
  { rewrite HwL, HwT, u64_small by (unfold is_u64; lia). lia. }
  cbn [with_br d_trailing d_val]. rewrite HwT, Hx, Hv. unfold y. rewrite xor_back. unfold arrives. destruct (Z.eqb_spec x uvnan); [by split|].
  split; [done|]. by split_and!.
Qed.

Lemma Next_delta it w prev x rest :
  after_value it w prev (snd (delta w prev x) ++ rest) -> window_ok w -> is_u64 prev -> is_u64 x -> prev <> uvnan ->
  arrives (Next it) (fst (delta w prev x)) x rest.
Proof.
  intros H Hw Hp Hx Hnan. pose proof H as (Hr & He & Hf & Hfin & Hv & Hwin). unfold Next. rewrite He, Hfin, Hf.
  destruct (decide (x = prev)) as [->|Hne].
  { unfold delta in *. rewrite Z.lxor_nilpotent in *. cbn [Z.eqb fst snd app] in *.
    destruct (next_bit_ok it false rest Hr) as (br & -> & Hr'). unfold arrives. rewrite (proj2 (Z.eqb_neq prev uvnan)) by done.
    split; [done|]. by split_and!. }
  destruct (delta_written w prev x Hw Hp Hx Hne) as (Hwr & _ & Hy). destruct (delta w prev x) as [w' b]. cbn [fst snd] in *.
  inversion Hwr as [l t Ew Hl Ht|l t Hl1 Hl Ht]; subst w' b; clear Hwr; cbn [app] in Hr;
    destruct (next_bit_ok it true _ Hr) as (br1 & -> & Hr1); destruct (next_bit_ok (with_br it br1) _ _ Hr1) as (br2 & -> & Hr2).
  - subst w. apply (read_delta_ok _ l t prev); try done; try lia.
  - unfold read_window. cbn [with_br] in *. rewrite <- !app_assoc in Hr2.
    set (it2 := with_br (with_br it br1) br2).
    destruct (next_bits_ok it2 _ _ 5 Hr2) as (br3 & -> & Hr3); [by rewrite length_lowbits|rewrite length_lowbits; lia|].
    rewrite number_lowbits_small by (cbn; lia).
    destruct (next_bits_ok (d_with_window (with_br it2 br3) l (d_trailing (with_br it2 br3))) _ _ 6 Hr3) as (br4 & -> & Hr4);
      [by rewrite length_lowbits|rewrite length_lowbits; lia|].
    assert (number (lowbits 6 (64 - l - t)) = (64 - l - t) mod 64) as -> by apply number_lowbits.
    destruct (in_window _ l t Hy ltac:(lia) Ht) as (_ & Hn & Hlt).
    assert ((if (64 - l - t) mod 64 =? 0 then 64 else (64 - l - t) mod 64) = 64 - l - t) as ->.
    { destruct (decide (l = 0 /\ t = 0)) as [[-> ->]|]; [done|]. rewrite Z.mod_small by lia. by rewrite (proj2 (Z.eqb_neq _ 0)) by lia. }
    replace (64 - l - (64 - l - t)) with t by lia. rewrite u64_small by (unfold is_u64; lia).
    apply (read_delta_ok _ l t prev); try done; try lia.
Qed.

Lemma number_not_nan x : number_ok x -> x <> uvnan.
Proof. intros [_ H] ->. by vm_compute in H. Qed.

Lemma decode_stream xs : forall it w prev rest,
  after_value it w prev (stream w prev (xs ++ [uvnan]) ++ rest) -> window_ok w -> number_ok prev -> Forall number_ok xs ->
  Codec.yields (fun _ : FloatDecoder => True) it xs.
Proof.
  induction xs as [|x xs IH]; intros it w prev rest H Hw Hp Hxs; cbn [Codec.yields]; (split; [exact I|]); (split; [apply H|]).
  - cbn [app] in H. rewrite stream_nan in H.
    pose proof (Next_delta it w prev uvnan rest H Hw (proj1 Hp) uvnan_u64 (number_not_nan _ Hp)) as [H1 H2].
    exists (fst (Next it)). split; [|by split]. cbn [Codec.next FloatDecoder_methods]. rewrite <- H1. by destruct (Next it).
  - apply Forall_cons in Hxs as [Hx Hxs]. cbn [app stream] in H. pose proof (delta_window_ok w prev x Hw (proj1 Hp) (proj1 Hx)) as Hw1.
    pose proof (Next_delta it w prev x (stream (fst (delta w prev x)) x (xs ++ [uvnan]) ++ rest)) as HN.
    destruct (delta w prev x) as [w1 b]. cbn [fst snd] in *. rewrite <- app_assoc in H.
    specialize (HN H Hw (proj1 Hp) (proj1 Hx) (number_not_nan _ Hp)). unfold arrives in HN.
    rewrite (proj2 (Z.eqb_neq x uvnan)) in HN by (by apply number_not_nan). destruct HN as [H1 H2].
    exists (fst (Next it)), (fst (Next it)). split; [cbn [Codec.next FloatDecoder_methods]; rewrite <- H1; by destruct (Next it)|].
    split; [|by apply (IH _ w1 x rest)]. cbn [Codec.read FloatDecoder_methods]. do 2 f_equal. apply H2.
Qed.

(** A decoder given the bytes of some floats delivers them. *)
Lemma decode_ok it b xs : encodes b xs -> Forall number_ok xs ->
  exists it', SetBytes it b = Ok it' /\ Codec.yields (fun _ : FloatDecoder => True) it' xs.
Proof.
  intros (k & Hk & Hb & E) Hxs. destruct b as [|b0 b]; [apply (f_equal length) in E; rewrite !length_app, length_lowbits in E; cbn in E; lia|].
  rewrite bits_cons in E. apply app_inj_1 in E as [_ E]; [|by rewrite !length_lowbits]. apply Forall_cons in Hb as [_ Hb].
  assert (exists x0 r0, xs ++ [uvnan] = x0 :: r0) as (x0 & r0 & E0) by (destruct xs; by do 2 eexists).
  unfold format in E. rewrite E0, <- app_assoc in E. pose proof (readBuf_ok b Hb) as Hr. rewrite E in Hr.
  destruct (ReadBits_ok _ _ 64 Hr) as (br & ER & Hr'); [done|lia|]. rewrite <- app_assoc, take_app_length' in ER by (by rewrite length_lowbits).
  rewrite drop_app_length' in Hr' by (by rewrite length_lowbits).
  assert (is_u64 x0) as Hx0 by (destruct xs; injection E0 as <- _; [exact uvnan_u64|by apply Forall_cons in Hxs as [[? _] _]]).
  rewrite number_lowbits_small in ER by exact Hx0. unfold SetBytes, BitReader.Reset. change 64 with (Z.of_nat 64). rewrite ER.
  cbn [mbind outcome_bind]. eexists. split; [done|]. destruct xs as [|x xs]; injection E0 as <- <-; cbn [Codec.yields]; (split; [exact I|]); (split; [done|]).
  - eexists. split; [done|]. by split.
  - apply Forall_cons in Hxs as [Hx Hxs]. do 2 eexists. cbn [Codec.next Codec.read FloatDecoder_methods]. unfold Next.
    cbn [d_err d_finished d_first d_val d_started]. rewrite (proj2 (Z.eqb_neq x uvnan)) by (by apply number_not_nan).
    split; [done|]. split; [done|]. apply (decode_stream xs _ None x (zeros k)); [|exact I|done|done]. by split_and!.
Qed.

(** ** NaN *)

Lemma Write_err (bs : bitstream) e x : e_finished bs (Write bs e x) = e_finished bs e /\
  e_err bs (Write bs e x) = if IsNaN x && negb (e_finished bs e) then Some "unsupported value: NaN"%string else e_err bs e.
Proof.
  unfold Write. destruct (IsNaN x && _); [done|]. destruct (e_first bs e); [done|]. destruct (Z.lxor x (e_val bs e) =? 0); [done|].
  cbn [put_bit with_out e_leading e_trailing]. by destruct (_ && _ && _).
Qed.

Lemma write_values_err (bs : bitstream) xs : forall e, e_finished bs e = false ->
  e_finished bs (Codec.write_values e xs) = false /\
  (e_err bs e = Some "unsupported value: NaN"%string \/ existsb IsNaN xs = true -> e_err bs (Codec.write_values e xs) = Some "unsupported value: NaN"%string).
Proof.
  unfold Codec.write_values. cbn [Codec.write FloatEncoder_methods]. induction xs as [|x xs IH]; intros e He; cbn [foldl existsb]; [by split; [|intros []]|].
  destruct (Write_err bs e x) as [H1 H2]. rewrite He in H1, H2. destruct (IH (Write bs e x) H1) as [H3 H4]. split; [done|].
  intros [H|[H|H]%orb_true_iff]; apply H4; [left; rewrite H2; by destruct (IsNaN x)|left; by rewrite H2, H|by right].
Qed.

Lemma stream_NaN (bs : bitstream) e xs : existsb IsNaN xs = true ->
  Codec.bytes (Codec.write_values (Reset bs e) xs) = Err "unsupported value: NaN".
Proof.
  intros H. destruct (write_values_err bs xs (Reset bs e) eq_refl) as [Hf He]. specialize (He (or_intror H)).
  set (s := Codec.write_values _ xs) in *. cbn [Codec.bytes FloatEncoder_methods]. unfold Flush. rewrite Hf. unfold Bytes. cbn [with_out e_err].
  destruct (Write_err bs (with_finished bs s) uvnan) as [_ ->]. cbn [with_finished e_finished e_err negb andb]. by rewrite andb_false_r, He.
Qed.

#[global] Instance Float_codec (bs : bitstream) `{!bitstream_laws bs} : Codec.CodecLaws (FloatEncoder bs) FloatDecoder Z.
Proof.
  refine {| Codec.valid := Forall number_ok; Codec.enc_usable := fun _ => True; Codec.dec_usable := fun _ => True |}.
  - intros e _. by eexists.
  - intros e d l _ _ _ Hl _. destruct (encode_ok bs e l Hl) as (b & Hb & He). destruct (decode_ok d b l He Hl) as (d' & Hd & Hy).
    eexists _, _, b, d'. split; [done|]. split; [exact Hb|]. split; [done|]. split; [|by split]. by destruct He as (k & _ & ? & _).
Defined.

(** ** A library of bit streams *)

Definition push (r : list bool * list Z) (b : bool) : list bool * list Z :=
  let p := fst r ++ [b] in if bool_decide (length p = 8)%nat then ([], snd r ++ [number p]) else (p, snd r).

Definition simple_stream : bitstream := {|
  BitWriter := list bool;
  NewWriter := [];
  Resume _ _ _ := [];
  WriteBit w buf b := push (w, buf) b;
  WriteBits w buf x n := foldl push (w, buf) (lowbits (Z.to_nat n) x);
  FlushBits w buf b := match w with [] => ([], buf) | _ => ([], buf ++ [number (w ++ replicate (8 - length w) b)]) end
|}.

Lemma bits_snoc_number buf l : length l = 8%nat -> bytes_ok buf ->
  bytes_ok (buf ++ [number l]) /\ bits (buf ++ [number l]) = bits buf ++ l.
Proof.
  intros Hl Hb. split.
  - apply bytes_ok_app. split; [done|]. constructor; [|constructor]. pose proof (number_range l) as H. rewrite Hl in H. exact H.
  - rewrite bits_app, bits_cons, lowbits_number_eq by done. cbn [bits]. change (bits []) with (@nil bool). by rewrite app_nil_r.
Qed.

Lemma push_ok p buf b : (length p < 8)%nat -> bytes_ok buf ->
  (length (fst (push (p, buf) b)) < 8)%nat /\ bytes_ok (snd (push (p, buf) b)) /\
  bits (snd (push (p, buf) b)) ++ fst (push (p, buf) b) = bits buf ++ p ++ [b].
Proof.
  intros Hp Hb. unfold push. cbn [fst snd]. case_bool_decide as H8; cbn [fst snd].
  - destruct (bits_snoc_number buf (p ++ [b]) H8 Hb) as [H1 H2]. split; [cbn; lia|]. split; [done|]. by rewrite H2, app_nil_r.
  - rewrite length_app in *. cbn [length] in *. split; [lia|]. by split.
Qed.

Lemma push_all_ok l : forall p buf, (length p < 8)%nat -> bytes_ok buf ->
  (length (fst (foldl push (p, buf) l)) < 8)%nat /\ bytes_ok (snd (foldl push (p, buf) l)) /\
  bits (snd (foldl push (p, buf) l)) ++ fst (foldl push (p, buf) l) = bits buf ++ p ++ l.
Proof.
  induction l as [|b l IH]; intros p buf Hp Hb; cbn [foldl]; [by rewrite app_nil_r|].
  destruct (push_ok p buf b Hp Hb) as (H1 & H2 & H3). destruct (push (p, buf) b) as [p' buf']. cbn [fst snd] in *.
  destruct (IH p' buf' H1 H2) as (H4 & H5 & H6). split; [done|]. split; [done|].
  rewrite H6. change (b :: l) with ([b] ++ l). by rewrite !app_assoc, H3, <- !app_assoc.
Qed.

#[global] Instance simple_stream_laws : bitstream_laws simple_stream.
Proof.
  refine {| pending := fun (w : BitWriter simple_stream) p => w = p /\ (length p < 8)%nat |}.
  - split; [done|cbn; lia].
  - split; [done|cbn; lia].
  - intros w buf p b [-> Hp] Hb. destruct (push_ok p buf b Hp Hb) as (H1 & H2 & H3). eexists _, _, _. cbn [WriteBit simple_stream].
    split; [apply surjective_pairing|]. by split.
  - intros w buf p x n [-> Hp] Hb Hn. destruct (push_all_ok (lowbits n x) p buf Hp Hb) as (H1 & H2 & H3). eexists _, _, _. cbn [WriteBits simple_stream].
    rewrite Nat2Z.id. split; [apply surjective_pairing|]. by split.
  - intros w buf p [-> Hp] Hb. cbn [FlushBits simple_stream]. destruct p as [|x p]; [exists [], buf, 0%nat; cbn; by rewrite app_nil_r; auto with lia|].
    set (l := x :: p) in *. assert (length (l ++ replicate (8 - length l) false) = 8%nat) as H8 by (rewrite length_app, length_replicate; lia).
    destruct (bits_snoc_number buf _ H8 Hb) as [H1 H2]. eexists [], _, (8 - length l)%nat. split; [done|]. split; [done|]. split; [unfold l; cbn; lia|]. by rewrite H2.
Defined.

End FloatLaws.
