(* ===== verification/FloatArray.v ===== *)
(** The batch float codec: [FloatArrayEncodeAll] and [FloatArrayDecodeAll] of
    src/storage/codec/float.go, which write and read the bits of the stream in place. *)
From Stdlib Require Import SpecFloat.
From S2P Require Import Prelude Binary Bits Float.
Import Bits Float.

Module FloatArray.

(** ** The Go library *)

(** The value of a float, by its bits, and the sum of two. *)
Definition float_of (x : Z) : spec_float :=
  let sign := Z.testbit x 63 in
  let e := Z.land (Z.shiftr x 52) 2047 in
  let m := Z.land x (2 ^ 52 - 1) in
  if e =? 2047 then if m =? 0 then S754_infinity sign else S754_nan
  else if e =? 0 then match m with Z.pos p => S754_finite sign p (-1074) | _ => S754_zero sign end
  else match m + 2 ^ 52 with Z.pos p => S754_finite sign p (e - 1075) | _ => S754_nan end.
Definition float_add (a b : spec_float) : spec_float := SFadd 53 1024 a b.
Definition float_zero : spec_float := S754_zero false.
Definition is_nan (f : spec_float) : bool := match f with S754_nan => true | _ => false end.

Definition RotateLeft64 (x k : Z) : Z := let s := Z.land k 63 in Z.lor (u64 (Z.shiftl x s)) (Z.shiftr x (64 - s)).

(** ** Encoding

    [b] is the output so far, of which [n] bits are written; it fits in memory, so [n]
    does not overflow. *)

(** [b[n>>3] |= x]. *)
Definition or_byte (b : list Z) (n x : Z) : outcome (list Z) :=
  let k := Z.to_nat (Z.shiftr n 3) in
  y ← index b k; store b k (Z.lor y (u8 x)).

(** [b] grows until the bit [n] is in it; or once. *)
Definition grow (b : list Z) (n : Z) : list Z := b ++ replicate (S (Z.to_nat (Z.shiftr n 3)) - length b) 0.
Definition grow_once (b : list Z) (n : Z) : list Z :=
  if Z.of_nat (length b) <=? Z.shiftr n 3 then b ++ [0] else b.

Definition PutUint64 (b : list Z) (k v : Z) : outcome (list Z) :=
  if k + 8 <=? Z.of_nat (length b) then Ok (splice b (Z.to_nat k) (be_encode 8 v)) else Panic.

(** The [l] highest bits of [v], at most 8, in the current byte and the next. *)
Definition put_small (b : list Z) (n v l : Z) : outcome (list Z * Z) :=
  let m := Z.land n 7 in
  let mask := Z.shiftr v 56 in
  if m <=? 8 - l then b ← or_byte b n (Z.shiftr mask m); Ok (b, n + l)
  else
    let written := 8 - m in
    b ← or_byte b n (Z.shiftr mask m);
    let n := n + written in
    let mask := Z.shiftr (u64 (Z.shiftl v written)) 56 in
    let m := Z.land n 7 in
    b ← or_byte b n (Z.shiftr mask m);
    Ok (b, n + (l - written)).

(** The [l] highest bits of [v]: what the current byte has room for, then a word. *)
Definition put_value (b : list Z) (n v l : Z) : outcome (list Z * Z) :=
  let b := grow b (n + l) in
  let m := Z.land n 7 in
  '(b, n, written) ← (if 0 <? m then
      let written := if l <? 8 - m then l else 8 - m in
      b ← or_byte b n (Z.shiftr (Z.shiftr v 56) m);
      Ok (b, n + written, written)
    else Ok (b, n, 0));
  if l - written =? 0 then Ok (b, n) else
  let vv := u64 (Z.shiftl v written) in
  let b := if Z.of_nat (length b) <=? Z.shiftr n 3 + 8 then b ++ replicate 8 0 else b in
  b ← PutUint64 b (Z.shiftr n 3) vv;
  Ok (b, n + (l - written)).

Definition no_window : Z := 2 ^ 64 - 1.

(** One value, [cur] after [prev]; [pl] and [pt] are the leading and trailing zeros of the window. *)
Definition put_delta (b : list Z) (n prev cur pl pt : Z) : outcome (list Z * Z * Z * Z) :=
  let vDelta := Z.lxor cur prev in
  if vDelta =? 0 then Ok (b, n + 1, pl, pt) else
  let b := grow b n in
  b ← or_byte b n (Z.shiftr 128 (Z.land n 7));
  let n := n + 1 in
  let leading := clamp (LeadingZeros64 vDelta) in
  let trailing := TrailingZeros64 vDelta in
  let b := grow_once b (n + 2) in
  if negb (pl =? no_window) && (pl <=? leading) && (pt <=? trailing) then
    let l := 64 - pl - pt in
    '(b, n) ← put_value b (n + 1) (u64 (Z.shiftl (Z.shiftr vDelta pt) (64 - l))) l;
    Ok (b, n, pl, pt)
  else
    b ← or_byte b n (Z.shiftr 128 (Z.land n 7));
    let n := n + 1 in
    '(b, n) ← put_small (grow_once b (n + 5)) n (u64 (Z.shiftl leading 59)) 5;
    let sigbits := u64 (64 - leading - trailing) in
    '(b, n) ← put_small (grow_once b (n + 6)) n (u64 (Z.shiftl sigbits 58)) 6;
    '(b, n) ← put_value b n (u64 (Z.shiftl (Z.shiftr vDelta trailing) (64 - sigbits))) sigbits;
    Ok (b, n, leading, trailing).

(** The remaining values and the sentinel. *)
Fixpoint encode_loop (src : list Z) (b : list Z) (n prev pl pt : Z) (sum : spec_float) : outcome (list Z * Z * spec_float) :=
  match src with
  | [] => '(b, n, _, _) ← put_delta b n prev uvnan pl pt; Ok (b, n, sum)
  | x :: src =>
      let sum := float_add sum (float_of x) in
      '(b, n, pl, pt) ← put_delta b n prev x pl pt;
      encode_loop src b n x pl pt sum
  end.

Definition unsupported : string := "unsupported value: NaN".

Definition FloatArrayEncodeAll (src : list Z) (b : slice Z) : outcome (list Z) :=
  let b := if bool_decide (scap b < 9)%nat then replicate 9 0 else take 9 (backing b) in
  b ← store b 0 (Z.shiftl floatCompressedGorilla 4);
  '(b, n, sum) ← (match src with
    | [] => b ← PutUint64 b 1 uvnan; Ok (b, 72, float_zero)
    | first :: src =>
        if IsNaN first then Err unsupported else
        b ← PutUint64 b 1 first; encode_loop src b 72 first no_window 0 float_zero
    end);
  if is_nan sum then Err unsupported else
  let length := Z.shiftr n 3 in
  let length := if 0 <? Z.land n 7 then length + 1 else length in
  subslice b 0 (Z.to_nat length).

(** ** Decoding *)

(** [bitMask], as [init] fills it. *)
Definition bitMask (i : Z) : Z := if i =? 0 then 2 ^ 64 - 1 else 2 ^ i - 1.

(** [brCachedVal], [brValidBits] and what is left of [b]. *)
Record cache := MkCache { c_val : Z; c_valid : Z; c_rest : list Z }.

(** [None] is the jump to ERROR. *)
Definition refill (b : list Z) : option cache :=
  if bool_decide (8 <= length b)%nat then Some (MkCache (be_decode (take 8 b)) 64 (drop 8 b))
  else if bool_decide (0 < length b)%nat then
    let valid := u8 (Z.of_nat (length b * 8)) in
    Some (MkCache (RotateLeft64 (be_decode b) (- valid)) valid [])
  else None.

Definition read_bit (c : cache) : option (cache * bool) :=
  c ← (if 0 <? c_valid c then Some c else refill (c_rest c));
  let v := RotateLeft64 (c_val c) 1 in
  Some (MkCache v (u8 (c_valid c - 1)) (c_rest c), 0 <? Z.land v 1).

(** [m] bits, from one word or across two. *)
Definition read_bits (c : cache) (m : Z) : option (cache * Z) :=
  '(c, x) ← (if m <=? c_valid c then
      let v := RotateLeft64 (c_val c) m in
      Some (MkCache v (u8 (c_valid c - m)) (c_rest c), v)
    else
      let '(mBits, x) := if 0 <? c_valid c then (u8 (m - c_valid c), RotateLeft64 (c_val c) m) else (m, 0) in
      c ← refill (c_rest c);
      let v := RotateLeft64 (c_val c) mBits in
      let mask := bitMask (Z.land mBits 63) in
      Some (MkCache v (u8 (c_valid c - mBits)) (c_rest c), Z.lor (Z.ldiff x mask) (Z.land v mask)));
  Some (c, Z.land x (bitMask (Z.land m 63))).

(** A value: the same again, or one that differs in [meaningful] bits before [trailing]
    others, which may be the sentinel. *)
Definition decode_value (c : cache) (val trailing meaningful : Z) : option (cache * Z * Z * Z * bool) :=
  '(c, bit) ← read_bit c;
  if negb bit then Some (c, val, trailing, meaningful, false) else
  '(c, bit) ← read_bit c;
  '(c, trailing, meaningful) ← (if negb bit then Some (c, trailing, meaningful) else
      '(c, lmBits) ← read_bits c 11;
      let leading := Z.land (Z.shiftr lmBits 6) 31 in
      let meaningful := Z.land lmBits 63 in
      Some (if 0 <? meaningful then (c, u8 (64 - leading - meaningful), meaningful) else (c, 0, 64)));
  '(c, sBits) ← read_bits c meaningful;
  let val := Z.lxor val (shl64 sBits (Z.land trailing 63)) in
  Some (c, val, trailing, meaningful, val =? uvnan).

Fixpoint decode_loop (fuel : nat) (c : cache) (val trailing meaningful : Z) (dst : list Z) : outcome (list Z) :=
  match fuel with
  | O => Panic
  | S fuel =>
      match decode_value c val trailing meaningful with
      | None => Err EOF
      | Some (c, val, trailing, meaningful, ended) =>
          if ended : bool then Ok dst else decode_loop fuel c val trailing meaningful (dst ++ [val])
      end
  end.

(** Each value takes a bit at least; the bits that are counted wrong at the end of truncated
    data are less than 256. *)
Definition FloatArrayDecodeAll (b : list Z) (buf : slice Z) : outcome (list Z) :=
  if bool_decide (length b < 9)%nat then Ok [] else
  b ← tail_from b 1;
  val ← Uint64 b;
  if val =? uvnan then Ok [] else
  b ← tail_from b 8;
  match refill b with
  | None => Err EOF
  | Some c => decode_loop (8 * length b + 320) c val 0 64 [val]
  end.

End FloatArray.
