(* ===== verification/FloatArrayLaws.v ===== *)
(** The laws of the batch float codec: it writes and reads the bits of the stream. *)
From Stdlib Require Import SpecFloat.
From S2P Require Import Prelude Binary Bits BitReader Codec Float FloatLaws FloatArray.
Import Bits BitReader Float FloatLaws FloatArray.

Module FloatArrayLaws.

(** ** Specification of the output: bits, then zeros *)

(** The bits [s] are written, [k] are free. *)
Definition holds (b : list Z) (s : list bool) (k : nat) : Prop := bytes_ok b /\ bits b = s ++ zeros k.

(** The last bits of [s] may not be in [b] yet, and are zeros then. *)
Definition lags (b : list Z) (s : list bool) : Prop := bytes_ok b /\ exists j k, bits b ++ zeros j = s ++ zeros k.

(** * Lemmas *)

Lemma holds_length b s k : holds b s k -> (8 * length b = length s + k)%nat.
Proof. intros [_ E]. apply (f_equal length) in E. rewrite length_bits, length_app, length_zeros in E. done. Qed.

Lemma holds_lags b s k : holds b s k -> lags b s.
Proof. intros [Hb E]. split; [done|]. exists 0%nat, k. by rewrite app_nil_r. Qed.

Lemma bytes_zeros n : bytes_ok (replicate n 0).
Proof. apply Forall_replicate. by apply (bool_decide_unpack _); vm_compute. Qed.

Lemma bits_zeros n : bits (replicate n 0) = zeros (8 * n).
Proof.
  induction n as [|n IH]; [done|]. cbn [replicate]. rewrite bits_cons, IH, lowbits_0. rewrite zeros_app. f_equal. lia.
Qed.

Lemma holds_append b s k n : holds b s k -> holds (b ++ replicate n 0) s (k + 8 * n).
Proof.
  intros [Hb E]. split; [apply bytes_ok_app; split; [done|apply bytes_zeros]|]. by rewrite bits_app, E, bits_zeros, <- app_assoc, zeros_app.
Qed.

Lemma shiftr3 n : Z.to_nat (Z.shiftr (Z.of_nat n) 3) = (n / 8)%nat.
Proof. rewrite Z.shiftr_div_pow2 by lia. change (2 ^ 3) with (Z.of_nat 8). by rewrite <- Nat2Z.inj_div, Nat2Z.id. Qed.

Lemma land7 n : Z.land (Z.of_nat n) 7 = Z.of_nat (n mod 8).
Proof. assert (Z.land (Z.of_nat n) 7 = Z.of_nat n mod 8) as -> by exact (Z.land_ones _ 3 ltac:(lia)). by rewrite Nat2Z.inj_mod. Qed.

(** Growing makes room. *)
Lemma grow_ok b s n : lags b s -> (length s <= n)%nat -> exists k, holds (grow b (Z.of_nat n)) s k /\ (n < 8 * length (grow b (Z.of_nat n)))%nat.
Proof.
  intros (Hb & j & k & E) Hn. unfold grow. rewrite shiftr3. set (r := (S (n / 8) - length b)%nat).
  assert (n < 8 * length (b ++ replicate r 0%Z))%nat as Hlen.
  { rewrite length_app, length_replicate. pose proof (Nat.div_mod n 8 ltac:(lia)). pose proof (Nat.mod_upper_bound n 8 ltac:(lia)). unfold r. lia. }
  exists (8 * length (b ++ replicate r 0%Z) - length s)%nat. split; [|exact Hlen].
  split; [apply bytes_ok_app; split; [done|apply bytes_zeros]|]. rewrite bits_app, bits_zeros.
  rewrite length_app, length_replicate in *. set (N := (8 * (length b + r))%nat) in *.
  pose proof (f_equal (fun l => take N (l ++ zeros N)) E) as EN. cbn beta in EN. rewrite <- !app_assoc, !zeros_app in EN.
  rewrite !take_app, length_bits in EN. rewrite (take_ge (bits b)) in EN by (rewrite length_bits; lia). rewrite (take_ge s) in EN by lia.
  rewrite !take_zeros in EN by lia. etrans; [|exact EN]. do 2 f_equal. lia.
Qed.

Lemma grow_once_ok b s k n :
  holds b s k -> (n < 8 * length b + 8)%nat ->
  exists k', holds (grow_once b (Z.of_nat n)) s k' /\ (n < 8 * length (grow_once b (Z.of_nat n)))%nat.
Proof.
  intros H Hn. unfold grow_once. pose proof (Nat.div_mod n 8 ltac:(lia)). pose proof (Nat.mod_upper_bound n 8 ltac:(lia)).
  assert (Z.shiftr (Z.of_nat n) 3 = Z.of_nat (n / 8)) as -> by (rewrite <- (shiftr3 n), Z2Nat.id; [done|apply Z.shiftr_nonneg; lia]).
  destruct (Z.leb_spec (Z.of_nat (length b)) (Z.of_nat (n / 8))).
  - exists (k + 8)%nat. split; [exact (holds_append b s k 1 H)|]. rewrite length_app. cbn [length]. lia.
  - exists k. split; [done|lia].
Qed.

(** ** Writing into a byte *)

Lemma or_byte_ok b s k x r :
  holds b s k -> lowbits 8 x = zeros (length s mod 8) ++ r -> (length s < 8 * length b)%nat ->
  exists b', or_byte b (Z.of_nat (length s)) x = Ok b' /\ length b' = length b /\ holds b' (s ++ r) (k - length r).
Proof.
  intros H Hx Hl. pose proof (holds_length b s k H) as Hlen. destruct H as [Hb E].
  set (q := (length s / 8)%nat). set (m := (length s mod 8)%nat) in *.
  assert (length s = 8 * q + m)%nat as Hs by apply (Nat.div_mod_eq (length s) 8).
  assert (m < 8)%nat as Hm by (apply Nat.mod_upper_bound; lia).
  assert (length r = 8 - m)%nat as Hr by (apply (f_equal length) in Hx; rewrite length_lowbits, length_app, length_zeros in Hx; lia).
  destruct (lookup_lt_is_Some_2 b q) as [y Hy]; [lia|]. unfold or_byte. rewrite shiftr3. fold q. rewrite (index_lookup _ _ _ Hy).
  cbn [mbind outcome_bind]. rewrite store_in_range by (by eapply lookup_lt_Some). eexists. split; [done|]. rewrite length_insert. split; [done|].
  pose proof (take_drop_middle b q y Hy) as Eb. set (p := take q b) in *. set (t := drop (S q) b) in *.
  assert (length p = q) as Hp by (unfold p; rewrite length_take; lia).
  rewrite <- Eb in E, Hb. rewrite bits_app, bits_cons in E. apply Forall_app in Hb as [Hbp Hbt]. apply Forall_cons in Hbt as [Hby Hbt].
  rewrite <- (take_drop (8 * q) s), <- app_assoc in E. apply app_inj_1 in E as [E1 E2]; [|rewrite length_bits, length_take; lia].
  replace k with (8 - m + (k - (8 - m)))%nat in E2 by lia. rewrite <- zeros_app, app_assoc in E2.
  apply app_inj_1 in E2 as [E2 E3]; [|rewrite length_lowbits, length_app, length_drop, length_zeros; lia].
  rewrite <- Eb, <- Hp, insert_app_r_alt, Nat.sub_diag by lia. cbn [insert list_insert].
  assert (is_byte (Z.lor y (u8 x))) as Hyx by (apply (lor_range 8); [lia|exact Hby|unfold u8; apply Z.mod_pos_bound; lia]).
  split; [apply Forall_app; split; [done|by constructor]|].
  rewrite bits_app, bits_cons, lowbits_lor, E2, E3, E1. unfold u8. change (2 ^ 8) with (2 ^ Z.of_nat 8). rewrite lowbits_mod, Hx by lia.
  rewrite orb_disjoint by (rewrite ?length_drop; lia). rewrite Hr. rewrite !app_assoc, take_drop. done.
Qed.

(** The same of some bits that fit, followed by zeros. *)
Lemma or_byte_bits b s k x l :
  holds b s k -> (length s mod 8 + length l <= 8)%nat -> lowbits 8 x = zeros (length s mod 8) ++ l ++ zeros (8 - length s mod 8 - length l) ->
  (length s < 8 * length b)%nat ->
  exists b', or_byte b (Z.of_nat (length s)) x = Ok b' /\ length b' = length b /\ holds b' (s ++ l) (k - length l).
Proof.
  intros H Hl Hx Hlen. destruct (or_byte_ok b s k x _ H Hx Hlen) as (b' & E & El & Hb & Hbits). exists b'. split; [done|]. split; [done|].
  split; [done|]. rewrite Hbits, <- !app_assoc. do 2 f_equal. rewrite zeros_app, length_app, length_zeros. f_equal.
  pose proof (holds_length _ _ _ H). pose proof (Nat.div_mod (length s) 8 ltac:(lia)). pose proof (Nat.mod_upper_bound (length s) 8 ltac:(lia)). lia.
Qed.

(** The highest byte of a word, shifted. *)
Lemma high_byte l m : (m <= 8)%nat ->
  lowbits 8 (Z.shiftr (Z.shiftr (word l) 56) (Z.of_nat m)) = zeros m ++ take (8 - m) (l ++ zeros 64).
Proof.
  intros Hm. change 56 with (Z.of_nat (64 - 8)). rewrite word_shiftr_number by lia.
  assert (length (take 8 (l ++ zeros 64)) = 8%nat) as H8 by (rewrite length_take, length_app, length_zeros; lia).
  pose proof (number_range (take 8 (l ++ zeros 64))) as HR. rewrite H8 in HR. rewrite lowbits_shiftr by done. rewrite lowbits_number_eq, take_take by done.
  do 2 f_equal. lia.
Qed.

Lemma word_of_bits l x : (l <= 64)%nat -> u64 (Z.shiftl x (64 - Z.of_nat l)) = word (lowbits l x).
Proof.
  intros Hl. apply word_eq; [apply u64_word_range|]. unfold u64. change 64 with (Z.of_nat 64). rewrite lowbits_mod by lia.
  replace (Z.of_nat 64 - Z.of_nat l) with (Z.of_nat (64 - l)) by lia. rewrite lowbits_shiftl by lia.
  rewrite take_padded by (rewrite length_lowbits; lia). rewrite length_lowbits. do 2 f_equal. lia.
Qed.

Lemma word_shl l m : (m <= length l)%nat -> (length l <= 64)%nat -> u64 (Z.shiftl (word l) (Z.of_nat m)) = word (drop m l).
Proof. intros H1 H2. by rewrite word_shiftl, (take_ge l) by lia. Qed.

Lemma mod_aligned (s r : list bool) : (length s mod 8 + length r = 8)%nat -> (length (s ++ r) mod 8 = 0)%nat.
Proof.
  intros H. rewrite length_app. pose proof (Nat.div_mod (length s) 8 ltac:(lia)) as E.
  replace (length s + length r)%nat with (0 + (S (length s / 8)) * 8)%nat by lia. by rewrite Nat.Div0.mod_add.
Qed.

Lemma put_small_ok b s k l :
  holds b s k -> (1 <= length l <= 8)%nat -> (length s + length l < 8 * length b)%nat ->
  exists b' k', put_small b (Z.of_nat (length s)) (word l) (Z.of_nat (length l)) = Ok (b', Z.of_nat (length s + length l)) /\
    length b' = length b /\ holds b' (s ++ l) k'.
Proof.
  intros H Hl Hlen. unfold put_small. rewrite land7. pose proof (Nat.mod_upper_bound (length s) 8 ltac:(lia)) as Hm. set (m := (length s mod 8)%nat) in *.
  destruct (Z.leb_spec (Z.of_nat m) (8 - Z.of_nat (length l))).
  - destruct (or_byte_bits b s k (Z.shiftr (Z.shiftr (word l) 56) (Z.of_nat m)) l H) as (b' & -> & El & Hb'); [fold m; lia| |lia|].
    + fold m. rewrite high_byte by lia. by rewrite take_padded by lia.
    + cbn [mbind outcome_bind]. eexists b', _. split; [do 2 f_equal; lia|]. by split.
  - replace (8 - Z.of_nat m) with (Z.of_nat (8 - m)) by lia.
    destruct (or_byte_bits b s k (Z.shiftr (Z.shiftr (word l) 56) (Z.of_nat m)) (take (8 - m) l) H) as (b1 & -> & El1 & Hb1);
      [fold m; rewrite length_take; lia| |lia|].
    { fold m. rewrite high_byte, take_app_le by lia. rewrite length_take, Nat.min_l, Nat.sub_diag by lia. by rewrite app_nil_r. }
    cbn [mbind outcome_bind]. rewrite word_shl by lia.
    assert (Z.of_nat (length s) + Z.of_nat (8 - m) = Z.of_nat (length (s ++ take (8 - m) l))) as -> by (rewrite length_app, length_take; lia).
    assert (length (s ++ take (8 - m) l) mod 8 = 0)%nat as Hal by (apply mod_aligned; fold m; rewrite length_take; lia).
    rewrite land7, Hal. destruct (or_byte_bits b1 _ _ (Z.shiftr (Z.shiftr (word (drop (8 - m) l)) 56) (Z.of_nat 0)) (drop (8 - m) l) Hb1)
      as (b2 & -> & El2 & Hb2); rewrite ?Hal; [rewrite length_drop; lia| |rewrite length_app, length_take; lia|].
    { rewrite high_byte by lia. by rewrite take_padded by (rewrite length_drop; lia). }
    cbn [mbind outcome_bind]. rewrite <- app_assoc, take_drop in Hb2. eexists b2, _. split; [do 2 f_equal; rewrite length_app, length_take; lia|].
    split; [congruence|exact Hb2].
Qed.

Lemma PutUint64_ok b s k l :
  holds b s k -> (length s mod 8 = 0)%nat -> (length l <= 64)%nat -> (length s + 64 <= 8 * length b)%nat ->
  exists b', PutUint64 b (Z.of_nat (length s / 8)) (word l) = Ok b' /\ length b' = length b /\ holds b' (s ++ l) (k - length l).
Proof.
  intros H Hm Hl Hlen. pose proof (holds_length _ _ _ H) as HL. destruct H as [Hb E]. set (q := (length s / 8)%nat).
  assert (length s = 8 * q)%nat as Hs by (pose proof (Nat.div_mod (length s) 8 ltac:(lia)); lia).
  unfold PutUint64. rewrite (proj2 (Z.leb_le _ _)) by lia. eexists. split; [done|]. rewrite Nat2Z.id, splice_length by (rewrite length_be_encode; lia).
  split; [done|]. unfold splice. rewrite length_be_encode. rewrite <- (take_drop q b) in E. rewrite bits_app in E.
  apply app_inj_1 in E as [E1 E2]; [|rewrite length_bits, length_take; lia].
  split.
  - apply Forall_app. split; [by apply Forall_take|]. apply Forall_app. split; [apply be_encode_ok|by apply Forall_drop].
  - rewrite !bits_app, E1, bits_be_encode, lowbits_word, take_padded by lia. rewrite <- drop_drop.
    assert (bits (drop 8 (drop q b)) = zeros (k - 64)) as ->.
    { rewrite <- (take_drop 8 (drop q b)), bits_app in E2. replace k with (64 + (k - 64))%nat in E2 by lia. rewrite <- zeros_app in E2.
      apply app_inj_1 in E2 as [_ E2]; [done|]. rewrite length_bits, length_take, length_drop, length_zeros. lia. }
    rewrite <- !app_assoc, zeros_app. do 3 f_equal. lia.
Qed.

Lemma put_value_ok b s k l :
  holds b s k -> (1 <= length l <= 64)%nat ->
  exists b' k', put_value b (Z.of_nat (length s)) (word l) (Z.of_nat (length l)) = Ok (b', Z.of_nat (length s + length l)) /\
    holds b' (s ++ l) k' /\ (0 < k')%nat.
Proof.
  intros H Hl. unfold put_value. rewrite <- Nat2Z.inj_add.
  destruct (grow_ok b s (length s + length l) (holds_lags _ _ _ H)) as (k1 & Hg & Hlen); [lia|]. set (b1 := grow b _) in *. clearbody b1. clear H b k.
  pose proof (holds_length _ _ _ Hg) as HL. rewrite land7. pose proof (Nat.mod_upper_bound (length s) 8 ltac:(lia)) as Hm. set (m := (length s mod 8)%nat) in *.
  set (w := if decide (m = 0)%nat then 0%nat else Nat.min (length l) (8 - m)).
  set (wr := if Z.of_nat (length l) <? 8 - Z.of_nat m then Z.of_nat (length l) else 8 - Z.of_nat m).
  assert (wr = Z.of_nat (length l `min` (8 - m))) as Hwr by (unfold wr; destruct (Z.ltb_spec (Z.of_nat (length l)) (8 - Z.of_nat m)); lia).
  clearbody wr.
  assert (exists b2, (if 0 <? Z.of_nat m then
      b ← or_byte b1 (Z.of_nat (length s)) (Z.shiftr (Z.shiftr (word l) 56) (Z.of_nat m));
      Ok (b, Z.of_nat (length s) + wr, wr)
    else Ok (b1, Z.of_nat (length s), 0)) = Ok (b2, Z.of_nat (length (s ++ take w l)), Z.of_nat w) /\
    length b2 = length b1 /\ holds b2 (s ++ take w l) (k1 - w)) as (b2 & -> & El2 & Hb2).
  { unfold w. destruct (decide (m = 0)%nat) as [->|Hm0].
    - exists b1. rewrite take_0, app_nil_r, Nat.sub_0_r. done.
    - rewrite (proj2 (Z.ltb_lt 0 _)), Hwr by lia.
      destruct (or_byte_bits b1 s k1 (Z.shiftr (Z.shiftr (word l) 56) (Z.of_nat m)) (take (length l `min` (8 - m)) l) Hg) as (b2 & -> & El & Hb);
        [fold m; rewrite length_take; lia| |lia|].
      { fold m. rewrite high_byte, length_take by lia. destruct (decide (length l <= 8 - m)%nat).
        - rewrite (take_ge l) by lia. rewrite take_padded by lia. do 3 f_equal. lia.
        - rewrite take_app_le by lia. replace (length l `min` (8 - m))%nat with (8 - m)%nat by lia. rewrite Nat.min_l, Nat.sub_diag by lia. by rewrite app_nil_r. }
      cbn [mbind outcome_bind]. exists b2. rewrite length_take in Hb. replace (Nat.min (Nat.min (length l) (8 - m)) (length l)) with (length l `min` (8 - m))%nat in Hb by lia.
      split; [|done]. rewrite length_app, length_take. do 3 f_equal. lia. }
  cbn [mbind outcome_bind]. assert (w <= length l)%nat as Hw by (unfold w; destruct (decide _); lia).
  destruct (Z.eqb_spec (Z.of_nat (length l) - Z.of_nat w) 0) as [Ez|Ez].
  - assert (w = length l) as Ew by lia. rewrite Ew, firstn_all in *. eexists b2, _. split; [do 2 f_equal; rewrite length_app; lia|]. split; [exact Hb2|lia].
  - rewrite word_shl by lia.
    assert (length (s ++ take w l) mod 8 = 0)%nat as Hal.
    { unfold w in *. destruct (decide (m = 0)%nat) as [E0|E0]; [rewrite take_0, app_nil_r; exact E0|]. apply mod_aligned. fold m. rewrite length_take. lia. }
    pose proof (Nat.div_mod (length (s ++ take w l)) 8 ltac:(lia)) as Hdm.
    assert (length (s ++ take w l) = length s + w)%nat as Hlw by (rewrite length_app, length_take; lia).
    assert (Z.shiftr (Z.of_nat (length (s ++ take w l))) 3 = Z.of_nat (length (s ++ take w l) / 8)) as ->
      by (rewrite <- shiftr3, Z2Nat.id; [done|apply Z.shiftr_nonneg; lia]).
    set (b3 := if Z.of_nat (length b2) <=? _ then _ else b2).
    assert (exists k3, holds b3 (s ++ take w l) k3 /\ (length (s ++ take w l) + 64 < 8 * length b3)%nat) as (k3 & Hb3 & Hl3).
    { unfold b3. destruct (Z.leb_spec (Z.of_nat (length b2)) (Z.of_nat (length (s ++ take w l) / 8) + 8)).
      - exists (k1 - w + 8 * 8)%nat. split; [by apply holds_append|]. rewrite (length_app b2), length_replicate. lia.
      - exists (k1 - w)%nat. split; [done|lia]. }
    destruct (PutUint64_ok b3 _ k3 (drop w l) Hb3 Hal) as (b4 & -> & El4 & Hb4); [rewrite length_drop; lia|lia|].
    cbn [mbind outcome_bind]. rewrite <- app_assoc, take_drop in Hb4. eexists b4, _. split; [do 2 f_equal; lia|]. split; [exact Hb4|].
    pose proof (holds_length _ _ _ Hb4) as HL4. pose proof (holds_length _ _ _ Hb3). rewrite length_app in HL4. rewrite length_drop. lia.
Qed.

(** ** Writing a value *)

Definition window_at (w : window) (pl pt : Z) : Prop :=
  match w with Some (l, t) => pl = l /\ pt = t | None => pl = no_window end.

Lemma set_bit_ok b s k : holds b s k -> (length s < 8 * length b)%nat ->
  exists b', or_byte b (Z.of_nat (length s)) (Z.shiftr 128 (Z.land (Z.of_nat (length s)) 7)) = Ok b' /\ length b' = length b /\
    holds b' (s ++ [true]) (k - 1).
Proof.
  intros H Hl. pose proof (Nat.mod_upper_bound (length s) 8 ltac:(lia)) as Hm. apply (or_byte_bits b s k _ [true] H); [cbn; lia| |done].
  rewrite land7. change 128 with (Z.shiftr (word [true]) 56). rewrite high_byte by lia. rewrite take_padded by (cbn; lia). done.
Qed.

Lemma length_delta_again (l t : Z) y : length ([true; false] ++ lowbits (Z.to_nat (64 - l - t)) (Z.shiftr y t)) = S (S (Z.to_nat (64 - l - t))).
Proof. cbn. by rewrite length_lowbits. Qed.

(** The steps of a value that differs from the one before. *)
Lemma put_again b s k (l t y : Z) :
  holds b (s ++ [true]) k -> 0 <= l -> 0 <= t -> l + t <= 63 -> (length (s ++ [true]) < 8 * length b)%nat ->
  exists b' k', put_value b (Z.of_nat (length (s ++ [true])) + 1) (u64 (Z.shiftl (Z.shiftr y t) (64 - (64 - l - t)))) (64 - l - t)
    = Ok (b', Z.of_nat (length (s ++ [true; false] ++ lowbits (Z.to_nat (64 - l - t)) (Z.shiftr y t)))) /\
    holds b' (s ++ [true; false] ++ lowbits (Z.to_nat (64 - l - t)) (Z.shiftr y t)) k' /\ (0 < k')%nat.
Proof.
  intros H Hl Ht Hlt Hlen. set (n := Z.to_nat (64 - l - t)). assert (64 - l - t = Z.of_nat n) as -> by lia.
  rewrite word_of_bits by lia. pose proof (holds_length _ _ _ H) as HL.
  assert (holds b (s ++ [true; false]) (k - 1)) as H1.
  { destruct H as [Hb E]. split; [done|]. rewrite E. change [true; false] with ([true] ++ zeros 1). rewrite <- !app_assoc, zeros_app. do 3 f_equal. lia. }
  destruct (put_value_ok b _ _ (lowbits n (Z.shiftr y t)) H1) as (b' & k' & E & Hb' & Hk); [rewrite length_lowbits; lia|].
  rewrite length_lowbits in E. exists b', k'. rewrite <- app_assoc in Hb'. split; [|by split].
  replace (Z.of_nat (length (s ++ [true])) + 1) with (Z.of_nat (length (s ++ [true; false]))) by (rewrite !length_app; cbn; lia).
  rewrite E. do 2 f_equal. rewrite !length_app, length_lowbits. cbn [length]. lia.
Qed.

Lemma put_own b s k (l t y : Z) :
  holds b (s ++ [true]) k -> 0 <= l <= 31 -> 0 <= t -> l + t <= 63 -> (length (s ++ [true]) + 2 < 8 * length b)%nat ->
  exists b' k',
    (b ← or_byte b (Z.of_nat (length (s ++ [true]))) (Z.shiftr 128 (Z.land (Z.of_nat (length (s ++ [true]))) 7));
     let n := Z.of_nat (length (s ++ [true])) + 1 in
     '(b, n) ← put_small (grow_once b (n + 5)) n (u64 (Z.shiftl l 59)) 5;
     let sigbits := u64 (64 - l - t) in
     '(b, n) ← put_small (grow_once b (n + 6)) n (u64 (Z.shiftl sigbits 58)) 6;
     '(b, n) ← put_value b n (u64 (Z.shiftl (Z.shiftr y t) (64 - sigbits))) sigbits;
     Ok (b, n, l, t))
    = Ok (b', Z.of_nat (length (s ++ [true; true] ++ lowbits 5 l ++ lowbits 6 (64 - l - t) ++ lowbits (Z.to_nat (64 - l - t)) (Z.shiftr y t))), l, t) /\
    holds b' (s ++ [true; true] ++ lowbits 5 l ++ lowbits 6 (64 - l - t) ++ lowbits (Z.to_nat (64 - l - t)) (Z.shiftr y t)) k' /\ (0 < k')%nat.
Proof.
  intros H Hl Ht Hlt Hlen. destruct (set_bit_ok b _ k H) as (b1 & -> & El1 & H1); [lia|]. cbn [mbind outcome_bind].
  rewrite <- app_assoc in H1. cbn [app] in H1. set (s1 := s ++ [true; true]) in *.
  assert (length s1 = length (s ++ [true]) + 1)%nat as Hs1 by (unfold s1; rewrite !length_app; cbn; lia).
  replace (Z.of_nat (length (s ++ [true])) + 1) with (Z.of_nat (length s1)) by lia. cbv zeta.
  replace (Z.of_nat (length s1) + 5) with (Z.of_nat (length s1 + 5)) by lia.
  destruct (grow_once_ok b1 s1 _ (length s1 + 5) H1) as (k2 & H2 & Hl2); [lia|].
  change 59 with (64 - Z.of_nat 5). rewrite word_of_bits by lia.
  destruct (put_small_ok _ s1 k2 (lowbits 5 l) H2) as (b3 & k3 & E3 & El3 & H3); [rewrite length_lowbits; lia|rewrite length_lowbits; lia|].
  rewrite length_lowbits in E3. change 5 with (Z.of_nat 5). rewrite E3. cbn [mbind outcome_bind].
  rewrite !(u64_small (64 - l - t)) by (unfold is_u64; lia). set (s2 := s1 ++ lowbits 5 l) in *.
  assert (length s2 = length s1 + 5)%nat as Hs2 by (unfold s2; rewrite length_app, length_lowbits; lia). rewrite <- Hs2.
  replace (Z.of_nat (length s2) + 6) with (Z.of_nat (length s2 + 6)) by lia.
  destruct (grow_once_ok b3 s2 _ (length s2 + 6) H3) as (k4 & H4 & Hl4); [lia|].
  change 58 with (64 - Z.of_nat 6). rewrite word_of_bits by lia.
  destruct (put_small_ok _ s2 k4 (lowbits 6 (64 - l - t)) H4) as (b5 & k5 & E5 & El5 & H5); [rewrite length_lowbits; lia|rewrite length_lowbits; lia|].
  rewrite length_lowbits in E5. change 6 with (Z.of_nat 6). rewrite E5. cbn [mbind outcome_bind].
  set (s3 := s2 ++ lowbits 6 (64 - l - t)) in *.
  assert (length s3 = length s2 + 6)%nat as Hs3 by (unfold s3; rewrite length_app, length_lowbits; lia). rewrite <- Hs3.
  set (n := Z.to_nat (64 - l - t)). assert (64 - (64 - l - t) = 64 - Z.of_nat n) as -> by lia. rewrite word_of_bits by lia.
  destruct (put_value_ok b5 s3 _ (lowbits n (Z.shiftr y t)) H5) as (b6 & k6 & E6 & H6 & Hk6); [rewrite length_lowbits; lia|].
  rewrite length_lowbits in E6. assert (Z.of_nat n = 64 - l - t) as En by lia. rewrite En in E6. rewrite E6. cbn [mbind outcome_bind].
  exists b6, k6. unfold s3, s2, s1 in H6. rewrite <- !app_assoc in H6. split; [|by split]. do 4 f_equal.
  unfold s3, s2, s1. rewrite !length_app, !length_lowbits. lia.
Qed.

Lemma put_delta_ok b s w prev cur pl pt :
  lags b s -> window_at w pl pt -> window_ok w -> is_u64 prev -> is_u64 cur ->
  exists b' pl' pt', put_delta b (Z.of_nat (length s)) prev cur pl pt = Ok (b', Z.of_nat (length (s ++ snd (delta w prev cur))), pl', pt') /\
    window_at (fst (delta w prev cur)) pl' pt' /\ lags b' (s ++ snd (delta w prev cur)) /\
    (cur <> prev -> exists k, holds b' (s ++ snd (delta w prev cur)) k).
Proof.
  intros H Hat Hw Hp Hc. unfold put_delta, delta. set (y := Z.lxor cur prev). destruct (Z.eqb_spec y 0) as [Hy|Hy]; cbn [fst snd].
  { eexists _, _, _. split; [do 4 f_equal; rewrite length_app; cbn; lia|]. split; [exact Hat|]. split; [|by intros []; apply Z.lxor_eq].
    destruct H as (Hb & j & k & E). split; [done|]. exists (j + 1)%nat, k. rewrite <- zeros_app, app_assoc, E, <- !app_assoc. f_equal.
    change [false] with (zeros 1). rewrite !zeros_app. f_equal. lia. }
  assert (0 < y < 2 ^ 64) as Hy2 by (pose proof (xor_range cur prev Hc Hp) as H0; unfold is_u64 in H0; fold y in H0; lia).
  pose proof (leading_range y Hy2) as (HL & _). pose proof (trailing_range y Hy2) as (HT & _).
  pose proof (clamp_range (LeadingZeros64 y) ltac:(lia)) as (HC1 & HC2).
  set (cl := clamp (LeadingZeros64 y)) in *. set (ct := TrailingZeros64 y) in *.
  destruct (grow_ok b s (length s) H) as (k0 & H0 & Hl0); [done|]. destruct (set_bit_ok _ s k0 H0 Hl0) as (b1 & -> & El1 & H1). cbn [mbind outcome_bind].
  replace (Z.of_nat (length s) + 1) with (Z.of_nat (length (s ++ [true]))) by (rewrite length_app; cbn; lia).
  assert (length (s ++ [true]) = length s + 1)%nat as Hs1 by (rewrite length_app; done).
  replace (Z.of_nat (length (s ++ [true])) + 2) with (Z.of_nat (length (s ++ [true]) + 2)) by lia.
  destruct (grow_once_ok b1 _ _ (length (s ++ [true]) + 2) H1) as (k2 & H2 & Hl2); [lia|]. set (b2 := grow_once b1 _) in *. clearbody b2.
  assert (exists b' k', (b ← or_byte b2 (Z.of_nat (length (s ++ [true]))) (Z.shiftr 128 (Z.land (Z.of_nat (length (s ++ [true]))) 7));
     let n := Z.of_nat (length (s ++ [true])) + 1 in
     '(b, n) ← put_small (grow_once b (n + 5)) n (u64 (Z.shiftl cl 59)) 5;
     let sigbits := u64 (64 - cl - ct) in
     '(b, n) ← put_small (grow_once b (n + 6)) n (u64 (Z.shiftl sigbits 58)) 6;
     '(b, n) ← put_value b n (u64 (Z.shiftl (Z.shiftr y ct) (64 - sigbits))) sigbits;
     Ok (b, n, cl, ct)) = Ok (b', Z.of_nat (length (s ++ [true; true] ++ lowbits 5 cl ++ lowbits 6 (64 - cl - ct) ++ lowbits (Z.to_nat (64 - cl - ct)) (Z.shiftr y ct))), cl, ct) /\
    holds b' (s ++ [true; true] ++ lowbits 5 cl ++ lowbits 6 (64 - cl - ct) ++ lowbits (Z.to_nat (64 - cl - ct)) (Z.shiftr y ct)) k' /\ (0 < k')%nat) as Hown
    by (apply (put_own b2 s k2 cl ct y H2); lia).
  destruct w as [[l0 t0]|]; cbn [window_at window_ok] in *.
  - destruct Hat as [-> ->]. rewrite (proj2 (Z.eqb_neq l0 no_window)) by (unfold no_window; lia). cbn [negb andb].
    destruct ((l0 <=? cl) && (t0 <=? ct)); cbn [fst snd].
    + destruct (put_again b2 s k2 l0 t0 y H2) as (b' & k' & -> & Hb' & _); [lia..|]. cbn [mbind outcome_bind].
      eexists b', _, _. split; [done|]. split; [done|]. split; [by eapply holds_lags|]. intros _. by exists k'.
    + destruct Hown as (b' & k' & E & Hb' & _). eexists b', _, _. split; [exact E|]. split; [done|]. split; [by eapply holds_lags|]. intros _. by exists k'.
  - rewrite Hat, Z.eqb_refl. cbn [negb andb fst snd]. destruct Hown as (b' & k' & E & Hb' & _). eexists b', _, _. split; [exact E|].
    split; [done|]. split; [by eapply holds_lags|]. intros _. by exists k'.
Qed.

(** ** Encoding a slice *)

(** The sum the encoder looks at, of all values but the first. *)
Definition sum_from (acc : spec_float) (xs : list Z) : spec_float := foldl (fun acc x => float_add acc (float_of x)) acc xs.

Lemma add_nan a b : is_nan a = true \/ is_nan b = true -> is_nan (float_add a b) = true.
Proof. intros [H|H]; [by destruct a|]. destruct b; try done. by destruct a. Qed.

Lemma float_of_nan x : IsNaN x = true -> is_nan (float_of x) = true.
Proof. unfold IsNaN, float_of. intros [-> H]%andb_true_iff. apply negb_true_iff in H. by rewrite H. Qed.

Lemma sum_nan xs : forall acc, is_nan acc = true \/ existsb IsNaN xs = true -> is_nan (sum_from acc xs) = true.
Proof.
  induction xs as [|x xs IH]; intros acc [H|H]; cbn [existsb sum_from foldl] in *; try done; apply IH.
  - left. apply add_nan. by left.
  - apply orb_true_iff in H as [H|H]; [left; apply add_nan; right; by apply float_of_nan|by right].
Qed.

Lemma encode_loop_ok xs : forall b s w prev pl pt sum,
  lags b s -> window_at w pl pt -> window_ok w -> is_u64 prev -> Forall is_u64 xs ->
  exists b', encode_loop xs b (Z.of_nat (length s)) prev pl pt sum =
      Ok (b', Z.of_nat (length (s ++ stream w prev (xs ++ [uvnan]))), sum_from sum xs) /\
    (Forall number_ok (prev :: xs) -> exists k, holds b' (s ++ stream w prev (xs ++ [uvnan])) k).
Proof.
  induction xs as [|x xs IH]; intros b s w prev pl pt sum H Hat Hw Hp Hxs; cbn [encode_loop].
  - destruct (put_delta_ok b s w prev uvnan pl pt H Hat Hw Hp uvnan_u64) as (b' & pl' & pt' & -> & _ & _ & Hk). cbn [mbind outcome_bind app].
    rewrite stream_nan. exists b'. split; [done|]. intros [Hn _]%Forall_cons. apply Hk. intros E. by apply (number_not_nan prev).
  - apply Forall_cons in Hxs as [Hx Hxs]. destruct (put_delta_ok b s w prev x pl pt H Hat Hw Hp Hx) as (b1 & pl1 & pt1 & -> & Hat1 & H1 & _).
    cbn [mbind outcome_bind app stream]. pose proof (delta_window_ok w prev x Hw Hp Hx) as Hw1. destruct (delta w prev x) as [w1 d]. cbn [fst snd] in *.
    destruct (IH b1 (s ++ d) w1 x pl1 pt1 (float_add sum (float_of x)) H1 Hat1 Hw1 Hx Hxs) as (b' & -> & Hk). exists b'. rewrite <- app_assoc in *.
    split; [done|]. intros [_ Hn]%Forall_cons. by apply Hk.
Qed.

(** The output is cut to the bits that are written. *)
Lemma cut_bits b s k : holds b s k ->
  exists out, subslice b 0 (Z.to_nat (if 0 <? Z.land (Z.of_nat (length s)) 7 then Z.shiftr (Z.of_nat (length s)) 3 + 1 else Z.shiftr (Z.of_nat (length s)) 3)) = Ok out /\
    exists j, (j < 8)%nat /\ bytes_ok out /\ bits out = s ++ zeros j.
Proof.
  intros H. pose proof (holds_length _ _ _ H) as HL. destruct H as [Hb E]. rewrite land7.
  pose proof (Nat.div_mod (length s) 8 ltac:(lia)) as Hdm. pose proof (Nat.mod_upper_bound (length s) 8 ltac:(lia)).
  assert (Z.shiftr (Z.of_nat (length s)) 3 = Z.of_nat (length s / 8)) as -> by (rewrite <- (shiftr3 (length s)), Z2Nat.id; [done|apply Z.shiftr_nonneg; lia]).
  set (n := Z.to_nat _). assert (length s <= 8 * n < length s + 8)%nat as Hn.
  { unfold n. destruct (Z.ltb_spec 0 (Z.of_nat (length s mod 8))); lia. }
  clearbody n. unfold subslice. rewrite decide_True by lia. rewrite drop_0. eexists. split; [done|]. exists (8 * n - length s)%nat. split; [lia|].
  split; [by apply Forall_take|]. rewrite <- (take_drop n b), bits_app in E.
  assert (length (bits (take n b)) = 8 * n)%nat as Hlt by (rewrite length_bits, length_take; lia).
  apply (f_equal (take (8 * n))) in E. rewrite take_app_length' in E by done. rewrite E, take_app, take_ge, take_zeros by lia. done.
Qed.

Lemma first_nine v k : k = 0%nat -> holds (16 :: be_encode 8 v) (lowbits 8 16 ++ lowbits 64 v) k.
Proof.
  intros ->. split; [constructor; [by apply (bool_decide_unpack _); vm_compute|apply be_encode_ok]|].
  by rewrite bits_cons, bits_be_encode, app_nil_r.
Qed.

(** The slice the encoder starts from. *)
Lemma header_ok (b : slice Z) v :
  (b ← store (if bool_decide (scap b < 9)%nat then replicate 9 0 else take 9 (backing b)) 0 (Z.shiftl floatCompressedGorilla 4); PutUint64 b 1 v)
    = Ok (16 :: be_encode 8 v).
Proof.
  set (b0 := if bool_decide _ then _ else _). assert (length b0 = 9%nat) as Hl.
  { unfold b0. case_bool_decide; [done|]. rewrite length_take. unfold scap in *. lia. }
  clearbody b0. do 10 (destruct b0 as [|? b0]; [try done|]); try done.
Qed.

(** The encoder, but for the sum. *)
Lemma array_encode xs (b : slice Z) :
  Forall is_u64 xs ->
  (existsb IsNaN xs = true \/ is_nan (sum_from float_zero (tail xs)) = true -> FloatArrayEncodeAll xs b = Err unsupported) /\
  (Forall number_ok xs -> is_nan (sum_from float_zero (tail xs)) = false -> exists out, FloatArrayEncodeAll xs b = Ok out /\ encodes out xs).
Proof.
  intros Hxs. unfold FloatArrayEncodeAll. destruct xs as [|x xs].
  - destruct (proj1 (bind_Ok _ _ _) (header_ok b uvnan)) as (b1 & -> & HP). cbn [mbind outcome_bind]. rewrite HP. cbn [mbind outcome_bind].
    split; [by intros [H|H]|]. intros _ _. destruct (cut_bits _ _ _ (first_nine uvnan 0 eq_refl)) as (out & E & j & Hj & Hb & Hbits).
    exists out. split; [exact E|]. exists j. split; [done|]. split; [done|]. rewrite Hbits, <- app_assoc. unfold format. cbn [app stream]. by rewrite app_nil_r.
  - apply Forall_cons in Hxs as [Hx Hxs]. destruct (proj1 (bind_Ok _ _ _) (header_ok b x)) as (b1 & -> & HP). cbn [mbind outcome_bind tail].
    destruct (IsNaN x) eqn:Ex; [split; [done|]; intros [[_ Hn] _]%Forall_cons; congruence|]. rewrite HP. cbn [mbind outcome_bind].
    pose proof (first_nine x 0 eq_refl) as H0. destruct (encode_loop_ok xs _ _ None x no_window 0 float_zero (holds_lags _ _ _ H0) eq_refl I Hx Hxs) as (b2 & E2 & Hk).
    change (length (lowbits 8 16 ++ lowbits 64 x)) with 72%nat in E2. change (Z.of_nat 72) with 72 in E2. rewrite E2. cbn [mbind outcome_bind].
    split.
    + intros [H|H].
      * cbn [existsb] in H. rewrite Ex in H. by rewrite sum_nan by by right.
      * by rewrite H.
    + intros Hn ->. destruct (Hk Hn) as (k & Hh). destruct (cut_bits _ _ _ Hh) as (out & E & j & Hj & Hb & Hbits). exists out. split; [exact E|].
      exists j. split; [done|]. split; [done|]. rewrite Hbits, <- !app_assoc. done.
Qed.

(** Bytes of the same floats are the same. *)
Lemma encodes_unique a b xs : encodes a xs -> encodes b xs -> a = b.
Proof.
  intros (j & Hj & Ha & Ea) (k & Hk & Hb & Eb). apply bits_inj; [done|done|]. rewrite Ea, Eb. do 3 f_equal.
  apply (f_equal length) in Ea, Eb. rewrite length_bits, !length_app, length_zeros in Ea, Eb. lia.
Qed.

(** ** Decoding *)

(** The cache and the rest hold the bits [l]; the low bits of the cache are of no matter. *)
Definition cached (c : cache) (l : list bool) : Prop :=
  exists lc g, l = lc ++ bits (c_rest c) /\ c_valid c = Z.of_nat (length lc) /\ lowbits 64 (c_val c) = lc ++ g /\ is_u64 (c_val c) /\ bytes_ok (c_rest c).

Lemma rotate_ok v k : is_u64 v -> (k <= 64)%nat ->
  is_u64 (RotateLeft64 v (Z.of_nat k)) /\ lowbits 64 (RotateLeft64 v (Z.of_nat k)) = drop k (lowbits 64 v) ++ take k (lowbits 64 v).
Proof.
  intros Hv Hk. unfold RotateLeft64. assert (Z.land (Z.of_nat k) 63 = Z.of_nat k mod 64) as -> by exact (Z.land_ones _ 6 ltac:(lia)).
  set (s := (k mod 64)%nat). assert (Z.of_nat k mod 64 = Z.of_nat s) as -> by (unfold s; by rewrite Nat2Z.inj_mod).
  assert (s < 64)%nat as Hs by (apply Nat.mod_upper_bound; lia). replace (64 - Z.of_nat s) with (Z.of_nat (64 - s)) by lia.
  split.
  - apply (lor_range 64); [lia|apply u64_range|]. apply shiftr_range; [lia|exact Hv].
  - rewrite lowbits_lor. unfold u64. change (2 ^ 64) with (2 ^ Z.of_nat 64). rewrite lowbits_mod, lowbits_shiftl, lowbits_shiftr by (exact Hv || lia).
    rewrite <- (lowbits_drop 64 s) by lia. replace (64 - (64 - s))%nat with s by lia.
    rewrite orb_disjoint by (rewrite ?length_drop, ?length_take, length_lowbits; lia).
    destruct (decide (k = 64)%nat) as [->|]; [|unfold s; by rewrite Nat.mod_small by lia]. change s with 0%nat.
    rewrite drop_0, take_0, app_nil_r, (drop_ge (lowbits 64 v)), take_ge by (rewrite length_lowbits; lia). done.
Qed.

Lemma rotate_back v k : is_u64 v -> (0 < k < 64)%nat ->
  is_u64 (RotateLeft64 v (- Z.of_nat k)) /\ lowbits 64 (RotateLeft64 v (- Z.of_nat k)) = drop (64 - k) (lowbits 64 v) ++ take (64 - k) (lowbits 64 v).
Proof.
  intros Hv Hk. assert (RotateLeft64 v (- Z.of_nat k) = RotateLeft64 v (Z.of_nat (64 - k))) as ->; [|apply rotate_ok; [done|lia]].
  unfold RotateLeft64. assert (Z.land (- Z.of_nat k) 63 = Z.land (Z.of_nat (64 - k)) 63) as ->; [|done].
  change 63 with (Z.ones 6). rewrite !Z.land_ones by lia. change (2 ^ 6) with 64. rewrite (Z.mod_small (Z.of_nat (64 - k))) by lia.
  symmetry. apply (Z.mod_unique _ _ (-1)); lia.
Qed.

Lemma refill_some b l : bits b = l -> l <> [] -> bytes_ok b -> exists c, refill b = Some c /\ cached c l /\
  (Z.of_nat (length l) <= c_valid c \/ c_valid c = 64).
Proof.
  intros E Hl Hb. unfold refill. case_bool_decide as H8.
  - eexists. split; [done|]. split; [|by right]. exists (bits (take 8 b)), []. cbn [c_rest c_valid c_val].
    assert (length (take 8 b) = 8%nat) as H8' by (rewrite length_take; lia).
    rewrite <- bits_app, take_drop, app_nil_r, length_bits, H8'. split; [done|]. split; [done|].
    assert (bytes_ok (take 8 b)) as Hb8 by by apply Forall_take.
    split; [pose proof (lowbits_be_decode (take 8 b) Hb8) as HD; by rewrite H8' in HD|]. split; [|by apply Forall_drop].
    pose proof (be_decode_range (take 8 b) Hb8) as HR. rewrite H8' in HR. exact HR.
  - assert (length b <> 0)%nat as Hb0 by (destruct b; [by subst l|done]). rewrite bool_decide_true by lia.
    assert (u8 (Z.of_nat (length b * 8)) = Z.of_nat (8 * length b)) as -> by (unfold u8; rewrite Z.mod_small by lia; lia).
    pose proof (be_decode_range b Hb) as HR.
    assert (is_u64 (be_decode b)) as Hu.
    { unfold is_u64. split; [lia|]. apply Z.lt_le_trans with (1 := proj2 HR). change 256 with (2 ^ 8). rewrite <- Z.pow_mul_r by lia. apply Z.pow_le_mono_r; lia. }
    destruct (rotate_back (be_decode b) (8 * length b) Hu) as (Hr & Hrb); [lia|]. eexists. split; [done|]. cbn [c_valid].
    split; [|left; rewrite <- E, length_bits; lia]. eexists (bits b), _. cbn [c_rest c_valid c_val]. rewrite app_nil_r, length_bits. split; [done|]. split; [done|].
    split; [|split; [exact Hr|constructor]]. rewrite Hrb, lowbits_drop by lia. replace (64 - (64 - 8 * length b))%nat with (8 * length b)%nat by lia.
    by rewrite lowbits_be_decode.
Qed.

Lemma cached_le c l : cached c l -> 0 <= c_valid c <= 64.
Proof.
  intros (lc & g & _ & -> & E & _). apply (f_equal length) in E. rewrite length_lowbits, length_app in E. lia.
Qed.

(** Rotated by [m], the first [m] bits are the last ones. *)
Lemma rotated v lc g m : is_u64 v -> lowbits 64 v = lc ++ g -> (m <= 64)%nat ->
  is_u64 (RotateLeft64 v (Z.of_nat m)) /\ lowbits 64 (RotateLeft64 v (Z.of_nat m)) = drop m (lc ++ g) ++ take m (lc ++ g) /\
  lowbits m (RotateLeft64 v (Z.of_nat m)) = take m (lc ++ g).
Proof.
  intros Hv E Hm. destruct (rotate_ok v m Hv Hm) as [Hu Hb]. rewrite E in Hb. split; [done|]. split; [done|].
  pose proof (f_equal length E) as HL. rewrite length_lowbits in HL.
  replace m with (64 - (64 - m))%nat at 1 by lia. rewrite <- lowbits_drop by lia. rewrite Hb. apply drop_app_length'. rewrite length_drop. lia.
Qed.

(** The cache after [m] of its bits. *)
Lemma cache_advance c d l m : cached c (d ++ l) -> m = length d -> Z.of_nat m <= c_valid c ->
  cached (MkCache (RotateLeft64 (c_val c) (Z.of_nat m)) (u8 (c_valid c - Z.of_nat m)) (c_rest c)) l /\
  lowbits m (RotateLeft64 (c_val c) (Z.of_nat m)) = d.
Proof.
  intros Hc -> Hm. pose proof (cached_le _ _ Hc) as Hle. destruct Hc as (lc & g & E & Ev & Eb & Hu & Hr).
  destruct (rotated (c_val c) lc g (length d) Hu Eb) as (Hu' & Hb & Hlow); [lia|].
  pose proof (f_equal (take (length d)) E) as Ed. rewrite take_app_length, take_app_le in Ed by lia.
  pose proof (f_equal (drop (length d)) E) as El. rewrite drop_app_length, drop_app_le in El by lia. rewrite drop_app_le, take_app_le in Hb by lia.
  split; [|rewrite Hlow, take_app_le by lia; done].
  exists (drop (length d) lc), (g ++ d). cbn [c_rest c_valid c_val]. split; [done|]. split; [rewrite u8_small, length_drop by lia; lia|].
  split; [|by split]. rewrite Hb, <- Ed, <- app_assoc. done.
Qed.

Lemma refill_cached c l : cached c l -> c_valid c = 0 -> l <> [] ->
  exists c1, refill (c_rest c) = Some c1 /\ cached c1 l /\ (Z.of_nat (length l) <= c_valid c1 \/ c_valid c1 = 64).
Proof.
  intros (lc & g & E & Ev & _ & _ & Hr) Hz Hl. assert (lc = []) as -> by (destruct lc; [done|cbn in *; lia]).
  by apply refill_some.
Qed.

Lemma read_bit_ok c x l : cached c (x :: l) -> exists c', read_bit c = Some (c', x) /\ cached c' l.
Proof.
  intros Hc. pose proof (cached_le _ _ Hc) as Hle. unfold read_bit.
  assert (exists c1, (if 0 <? c_valid c then Some c else refill (c_rest c)) = Some c1 /\ cached c1 (x :: l) /\ 1 <= c_valid c1) as (c1 & -> & Hc1 & Hv1).
  { destruct (Z.ltb_spec 0 (c_valid c)); [exists c; split; [done|]; split; [done|lia]|].
    destruct (refill_cached c _ Hc ltac:(lia) ltac:(done)) as (c1 & -> & Hc1 & Hv). exists c1. split; [done|]. split; [done|]. cbn [length] in Hv. lia. }
  cbn [mbind option_bind]. destruct (cache_advance c1 [x] l 1 Hc1 eq_refl Hv1) as [Hc2 Hlow]. change (Z.of_nat 1) with 1 in *.
  eexists. split; [|exact Hc2]. do 2 f_equal.
  assert (Z.testbit (RotateLeft64 (c_val c1) 1) 0 = x) as Hx by by injection Hlow.
  change 1 with (2 ^ 0) at 2. rewrite land_pow2, Hx by done. by destruct x.
Qed.

Lemma bitMask_ones m : (1 <= m <= 64)%nat -> bitMask (Z.land (Z.of_nat m) 63) = Z.ones (Z.of_nat m).
Proof.
  intros Hm. assert (Z.land (Z.of_nat m) 63 = Z.of_nat m mod 64) as -> by exact (Z.land_ones _ 6 ltac:(lia)). unfold bitMask.
  destruct (decide (m = 64)%nat) as [->|]; [done|]. rewrite Z.mod_small, (proj2 (Z.eqb_neq _ 0)) by lia. rewrite Z.ones_equiv. lia.
Qed.

Lemma masked m x : (1 <= m <= 64)%nat -> Z.land x (bitMask (Z.land (Z.of_nat m) 63)) = number (lowbits m x).
Proof. intros Hm. rewrite bitMask_ones by done. rewrite Z.land_ones by lia. by rewrite number_lowbits. Qed.

(** The low [j] bits of one word, the others of another. *)
Lemma mixed k j x v : (1 <= j <= 64)%nat ->
  lowbits (k + j) (Z.lor (Z.ldiff x (bitMask (Z.land (Z.of_nat j) 63))) (Z.land v (bitMask (Z.land (Z.of_nat j) 63)))) =
    take k (lowbits (k + j) x) ++ lowbits j v.
Proof.
  intros Hj. rewrite bitMask_ones by done. rewrite lowbits_take by lia. replace (k + j - k)%nat with j by lia. rewrite lowbits_app. f_equal; apply lowbits_ext; intros i Hi.
  - rewrite !Z.shiftr_spec, Z.lor_spec, Z.ldiff_spec, Z.land_spec, Z.ones_spec_high by lia. by rewrite andb_true_r, andb_false_r, orb_false_r.
  - rewrite Z.lor_spec, Z.ldiff_spec, Z.land_spec, Z.ones_spec_low by lia. by rewrite andb_false_r, andb_true_r.
Qed.

Lemma read_bits_ok c d l m : cached c (d ++ l) -> m = Z.of_nat (length d) -> (1 <= length d <= 64)%nat ->
  exists c', read_bits c m = Some (c', number d) /\ cached c' l.
Proof.
  intros Hc -> Hd. pose proof (cached_le _ _ Hc) as Hle. unfold read_bits.
  destruct (Z.leb_spec (Z.of_nat (length d)) (c_valid c)) as [Hm|Hm].
  - cbn [mbind option_bind]. destruct (cache_advance c d l (length d) Hc eq_refl Hm) as [Hc1 Hlow]. rewrite masked, Hlow by done. by eexists.
  - pose proof Hc as (lc & g & E & Ev & Eb & Hu & Hr). set (k := length lc) in *. set (j := (length d - k)%nat).
    assert ((if 0 <? c_valid c then (u8 (Z.of_nat (length d) - c_valid c), RotateLeft64 (c_val c) (Z.of_nat (length d))) else (Z.of_nat (length d), 0))
      = (Z.of_nat j, if 0 <? c_valid c then RotateLeft64 (c_val c) (Z.of_nat (length d)) else 0)) as ->.
    { destruct (Z.ltb_spec 0 (c_valid c)); [rewrite u8_small by lia|]; f_equal; unfold j; lia. }
    set (x := if 0 <? c_valid c then _ else 0).
    assert (take k (lowbits (length d) x) = lc) as Hx.
    { unfold x. destruct (Z.ltb_spec 0 (c_valid c)) as [Hv|Hv]; [|assert (lc = []) as El by (apply nil_length_inv; fold k; lia); unfold k; by rewrite El].
      destruct (rotated (c_val c) lc g (length d) Hu Eb) as (_ & _ & ->); [lia|]. rewrite take_take, Nat.min_l by lia. apply take_app_length. }
    clearbody x. assert (take k d = lc) as Ed by (rewrite <- (take_app_le d l), E by lia; apply take_app_length).
    assert (drop k d ++ l = bits (c_rest c)) as Er by (rewrite <- drop_app_le, E by lia; apply drop_app_length).
    destruct (refill_some (c_rest c) (drop k d ++ l)) as (c1 & -> & Hc1 & Hv1); [by symmetry| |done|].
    { intros Hn%(f_equal length). rewrite length_app, length_drop in Hn. cbn in Hn. lia. }
    cbn [mbind option_bind]. rewrite length_app, length_drop in Hv1.
    destruct (cache_advance c1 (drop k d) l j Hc1) as [Hc2 Hlow]; [by rewrite length_drop|unfold j; lia|].
    eexists. split; [|exact Hc2]. do 2 f_equal. rewrite masked by done. f_equal. replace (length d) with (k + j)%nat by (unfold j; lia).
    rewrite mixed by (unfold j; lia). replace (k + j)%nat with (length d) by (unfold j; lia). rewrite Hx, Hlow, <- Ed. apply take_drop.
Qed.

(** ** Decoding a slice *)

Definition window_read (w : window) (trailing meaningful : Z) : Prop :=
  match w with Some (l, t) => trailing = t /\ meaningful = 64 - l - t | None => True end.

Lemma read_last c l t prev x rest :
  let y := Z.lxor x prev in
  0 < y < 2 ^ 64 -> 0 <= l <= LeadingZeros64 y -> 0 <= t <= TrailingZeros64 y ->
  cached c (lowbits (Z.to_nat (64 - l - t)) (Z.shiftr y t) ++ rest) ->
  exists c', ('(c, sBits) ← read_bits c (64 - l - t);
    let val := Z.lxor prev (shl64 sBits (Z.land t 63)) in Some (c, val, t, 64 - l - t, val =? uvnan)) = Some (c', x, t, 64 - l - t, x =? uvnan) /\ cached c' rest.
Proof.
  intros y Hy Hl Ht Hc. destruct (in_window y l t Hy Hl Ht) as (Hx & Hn & Hlt).
  destruct (read_bits_ok c _ _ (64 - l - t) Hc) as (c' & -> & Hc'); [rewrite length_lowbits; lia|by rewrite length_lowbits|].
  cbn [mbind option_bind]. exists c'. split; [|done]. assert (Z.land t 63 = t) as ->.
  { assert (Z.land t 63 = t mod 64) as -> by exact (Z.land_ones _ 6 ltac:(lia)). apply Z.mod_small. lia. }
  cbv zeta. rewrite Hx. unfold y. by rewrite xor_back.
Qed.

Lemma decode_value_ok c w prev x t m rest :
  cached c (snd (delta w prev x) ++ rest) -> window_ok w -> window_read w t m -> is_u64 prev -> is_u64 x -> prev <> uvnan ->
  exists c' t' m', decode_value c prev t m = Some (c', x, t', m', x =? uvnan) /\ cached c' rest /\ window_read (fst (delta w prev x)) t' m'.
Proof.
  intros Hc Hw Hwr Hp Hx Hnan. unfold decode_value. destruct (decide (x = prev)) as [->|Hne].
  { unfold delta in *. rewrite Z.lxor_nilpotent in *. cbn [Z.eqb fst snd app] in *.
    destruct (read_bit_ok c false rest Hc) as (c1 & -> & Hc1). cbn [mbind option_bind negb].
    exists c1, t, m. by rewrite (proj2 (Z.eqb_neq prev uvnan)). }
  destruct (delta_written w prev x Hw Hp Hx Hne) as (Hwrt & _ & Hy). destruct (delta w prev x) as [w' b]. cbn [fst snd] in *.
  inversion Hwrt as [l0 t0 Ew Hl Ht|l0 t0 Hl1 Hl Ht]; subst w' b; clear Hwrt; cbn [app] in Hc;
    destruct (read_bit_ok c true _ Hc) as (c1 & -> & Hc1); cbn [mbind option_bind negb];
    destruct (read_bit_ok c1 _ _ Hc1) as (c2 & -> & Hc2); cbn [mbind option_bind negb].
  - subst w. destruct Hwr as [-> ->]. destruct (read_last c2 l0 t0 prev x rest Hy Hl Ht Hc2) as (c3 & E & Hc3).
    exists c3, t0, (64 - l0 - t0). split; [exact E|]. by split.
  - destruct (in_window _ l0 t0 Hy ltac:(lia) Ht) as (_ & Hn & Hlt). rewrite <- !app_assoc, app_assoc in Hc2.
    destruct (read_bits_ok c2 _ _ 11 Hc2) as (c3 & -> & Hc3); [by rewrite length_app, !length_lowbits|rewrite length_app, !length_lowbits; lia|].
    cbn [mbind option_bind]. set (s6 := number (lowbits 6 (64 - l0 - t0))).
    assert (number (lowbits 5 l0 ++ lowbits 6 (64 - l0 - t0)) = l0 * 64 + s6) as ->.
    { rewrite number_app, length_lowbits, number_lowbits_small by (cbn; lia). done. }
    assert (s6 = (64 - l0 - t0) mod 64) as Es6 by apply number_lowbits.
    assert (0 <= s6 < 64) as Hs6 by (rewrite Es6; apply Z.mod_pos_bound; lia).
    assert (Z.land (Z.shiftr (l0 * 64 + s6) 6) 31 = l0) as ->.
    { rewrite Z.shiftr_div_pow2 by lia. change (2 ^ 6) with 64. rewrite Z.div_add_l, Z.div_small, Z.add_0_r by lia.
      assert (Z.land l0 31 = l0 mod 32) as -> by exact (Z.land_ones _ 5 ltac:(lia)). apply Z.mod_small. lia. }
    assert (Z.land (l0 * 64 + s6) 63 = s6) as ->.
    { assert (Z.land (l0 * 64 + s6) 63 = (l0 * 64 + s6) mod 64) as -> by exact (Z.land_ones _ 6 ltac:(lia)).
      rewrite Z.add_comm, Z_mod_plus_full. by apply Z.mod_small. }
    assert ((if 0 <? s6 then (c3, u8 (64 - l0 - s6), s6) else (c3, 0, 64)) = (c3, t0, 64 - l0 - t0)) as ->.
    { destruct (decide (l0 = 0 /\ t0 = 0)) as [[-> ->]|]; [by rewrite Es6|].
      rewrite Z.mod_small in Es6 by lia. rewrite (proj2 (Z.ltb_lt 0 s6)) by lia. do 2 f_equal; [|done]. rewrite Es6, u8_small by lia. lia. }
    destruct (read_last c3 l0 t0 prev x rest Hy ltac:(lia) Ht Hc3) as (c4 & E & Hc4). exists c4, t0, (64 - l0 - t0). split; [exact E|]. by split.
Qed.

Lemma decode_loop_ok xs : forall fuel c w prev t m rest dst,
  cached c (stream w prev (xs ++ [uvnan]) ++ rest) -> window_ok w -> window_read w t m -> number_ok prev -> Forall number_ok xs ->
  (length xs < fuel)%nat -> decode_loop fuel c prev t m dst = Ok (dst ++ xs).
Proof.
  induction xs as [|x xs IH]; intros [|fuel] c w prev t m rest dst Hc Hw Hwr Hp Hxs Hf; try (cbn in Hf; lia); cbn [decode_loop].
  - cbn [app] in Hc. rewrite stream_nan in Hc.
    destruct (decode_value_ok c w prev uvnan t m rest Hc Hw Hwr (proj1 Hp) uvnan_u64 (number_not_nan _ Hp)) as (c' & t' & m' & -> & _).
    by rewrite app_nil_r.
  - apply Forall_cons in Hxs as [Hx Hxs]. cbn [app stream] in Hc. pose proof (delta_window_ok w prev x Hw (proj1 Hp) (proj1 Hx)) as Hw1.
    pose proof (decode_value_ok c w prev x t m (stream (fst (delta w prev x)) x (xs ++ [uvnan]) ++ rest)) as HD.
    destruct (delta w prev x) as [w1 b]. cbn [fst snd] in *. rewrite <- app_assoc in Hc.
    destruct (HD Hc Hw Hwr (proj1 Hp) (proj1 Hx) (number_not_nan _ Hp)) as (c' & t' & m' & -> & Hc' & Hwr').
    rewrite (proj2 (Z.eqb_neq x uvnan)) by by apply number_not_nan. rewrite (IH fuel c' w1 x t' m' rest) by (done || (cbn in Hf; lia)).
    by rewrite <- app_assoc.
Qed.

Lemma delta_not_nil w prev x : (1 <= length (snd (delta w prev x)))%nat.
Proof.
  unfold delta. destruct (_ =? 0); [cbn; lia|]. destruct w as [[l t]|]; [destruct (_ && _)|]; cbn [snd app length]; lia.
Qed.

Lemma length_stream xs : forall w prev, (length xs <= length (stream w prev xs))%nat.
Proof.
  induction xs as [|x xs IH]; intros w prev; [done|]. cbn [stream]. pose proof (delta_not_nil w prev x). destruct (delta w prev x) as [w1 b].
  rewrite length_app. specialize (IH w1 x). cbn in *. lia.
Qed.

Lemma array_decode_ok xs b buf : encodes b xs -> Forall number_ok xs -> FloatArrayDecodeAll b buf = Ok xs.
Proof.
  intros (k & Hk & Hb & E) Hxs. pose proof (f_equal length E) as HL. rewrite length_bits, !length_app, length_lowbits, length_zeros in HL.
  assert (exists x0 r0, xs ++ [uvnan] = x0 :: r0) as (x0 & r0 & E0) by (destruct xs; by do 2 eexists).
  unfold format in E, HL. rewrite E0 in E, HL. rewrite length_app, length_lowbits in HL.
  destruct b as [|b0 b]; [cbn in HL; lia|]. rewrite bits_cons in E. apply app_inj_1 in E as [_ E]; [|by rewrite !length_lowbits].
  apply Forall_cons in Hb as [_ Hb]. unfold FloatArrayDecodeAll. rewrite bool_decide_false by (cbn [length] in *; lia).
  rewrite tail_from_Ok by (cbn; lia). cbn [drop mbind outcome_bind]. rewrite drop_0. cbn [length] in HL.
  rewrite <- (take_drop 8 b), bits_app, <- app_assoc in E.
  assert (length (take 8 b) = 8%nat) as H8 by (rewrite length_take; lia).
  apply app_inj_1 in E as [E1 E2]; [|by rewrite length_bits, H8, length_lowbits].
  assert (is_u64 x0) as Hx0 by (destruct xs; injection E0 as <- _; [exact uvnan_u64|by apply Forall_cons in Hxs as [[? _] _]]).
  assert (Uint64 b = Ok x0) as ->.
  { unfold be_uint. rewrite decide_True by lia. f_equal. rewrite be_decode_number, E1 by by apply Forall_take. by apply number_lowbits_small. }
  cbn [mbind outcome_bind]. destruct xs as [|x xs]; injection E0 as <- <-; [by rewrite Z.eqb_refl|]. apply Forall_cons in Hxs as [Hx Hxs].
  rewrite (proj2 (Z.eqb_neq x uvnan)) by by apply number_not_nan. rewrite tail_from_Ok by lia. cbn [mbind outcome_bind].
  pose proof (length_stream (xs ++ [uvnan]) None x) as HS. rewrite length_app in HS. cbn [length] in HS.
  destruct (refill_some (drop 8 b) _ E2) as (c & -> & Hc & _); [|by apply Forall_drop|].
  { intros Hn%(f_equal length). rewrite length_app in Hn. cbn [length] in Hn. lia. }
  rewrite (decode_loop_ok xs _ c None x 0 64 (zeros k) [x] Hc I I Hx Hxs); [done|]. apply (f_equal length) in E2.
  rewrite length_bits, length_app in E2. lia.
Qed.

(** ** Decoding any bytes *)

Definition measure (c : cache) : Z := c_valid c + 8 * Z.of_nat (length (c_rest c)) + (if bool_decide (c_rest c = []) then 0 else 256).

Lemma u8_range x : 0 <= u8 x < 256.
Proof. unfold u8. apply Z.mod_pos_bound. lia. Qed.

Lemma refill_measure b c : refill b = Some c -> 1 <= c_valid c <= 64 /\ (c_valid c = 64 \/ c_rest c = []) /\ measure c <= 8 * Z.of_nat (length b) + 256 /\ b <> [] /\
  8 * Z.of_nat (length (c_rest c)) + c_valid c = 8 * Z.of_nat (length b).
Proof.
  unfold refill, measure. case_bool_decide as H8; [|case_bool_decide as H0; [|done]]; intros [= <-]; cbn [c_valid c_rest].
  - rewrite length_drop. split; [lia|]. split; [by left|]. split; [case_bool_decide; lia|]. split; [intros ->; cbn in H8; lia|]. lia.
  - rewrite u8_small by lia. cbn [length]. rewrite bool_decide_true by done. split; [lia|]. split; [by right|]. split; [lia|]. split; [intros ->; cbn in H0; lia|]. lia.
Qed.

Lemma read_bit_measure c c' x : read_bit c = Some (c', x) -> 0 <= c_valid c < 256 -> 0 <= c_valid c' < 256 /\ measure c' < measure c.
Proof.
  unfold read_bit. destruct (Z.ltb_spec 0 (c_valid c)) as [Hv|Hv]; cbn [mbind option_bind].
  - intros [= <- _] H. cbn [c_valid]. unfold measure. cbn [c_valid c_rest]. rewrite u8_small by lia. lia.
  - destruct (refill (c_rest c)) as [c1|] eqn:E; [|done]. cbn [mbind option_bind]. intros [= <- _] H. cbn [c_valid].
    destruct (refill_measure _ _ E) as (H1 & _ & H2 & H3 & _). unfold measure in *. cbn [c_valid c_rest]. rewrite u8_small by lia.
    rewrite (bool_decide_false (c_rest c = [])) by done. lia.
Qed.

Lemma read_bits_measure c m c' x : read_bits c m = Some (c', x) -> 0 <= c_valid c < 256 -> 1 <= m <= 64 ->
  0 <= c_valid c' < 256 /\ measure c' <= measure c.
Proof.
  unfold read_bits. destruct (Z.leb_spec m (c_valid c)) as [Hv|Hv]; cbn [mbind option_bind].
  - intros [= <- _] H Hm. cbn [c_valid]. unfold measure. cbn [c_valid c_rest]. rewrite u8_small by lia. lia.
  - set (mx := if 0 <? c_valid c then (u8 (m - c_valid c), RotateLeft64 (c_val c) m) else (m, 0)).
    assert (0 <= c_valid c -> 1 <= m <= 64 -> 1 <= fst mx <= 64) as Hmx.
    { unfold mx. intros. destruct (Z.ltb_spec 0 (c_valid c)); cbn [fst]; [rewrite u8_small by lia|]; lia. }
    destruct mx as [mb y]. cbn [fst] in Hmx. destruct (refill (c_rest c)) as [c1|] eqn:E; [|done]. cbn [mbind option_bind].
    intros [= <- _] H Hm. cbn [c_valid]. split; [apply u8_range|].
    destruct (refill_measure _ _ E) as (H1 & H64 & H2 & H3 & H4). unfold measure in *. cbn [c_valid c_rest].
    rewrite (bool_decide_false (c_rest c = [])) by done. specialize (Hmx ltac:(lia) Hm). destruct H64 as [H64|H64].
    + rewrite u8_small by lia. lia.
    + rewrite H64 in *. rewrite bool_decide_true by done. cbn [length] in *. pose proof (u8_range (c_valid c1 - mb)). lia.
Qed.

Lemma decode_value_measure c v t m c' v' t' m' e : decode_value c v t m = Some (c', v', t', m', e) -> 0 <= c_valid c < 256 -> 1 <= m <= 64 ->
  0 <= c_valid c' < 256 /\ measure c' < measure c /\ 1 <= m' <= 64.
Proof.
  unfold decode_value. destruct (read_bit c) as [[c1 b1]|] eqn:E1; [|done]. cbn [mbind option_bind].
  intros H Hv Hm. destruct (read_bit_measure _ _ _ E1 Hv) as [Hv1 Hm1]. destruct b1; cbn [negb] in H; [|injection H as <- <- <- <- <-; done].
  destruct (read_bit c1) as [[c2 b2]|] eqn:E2; [|done]. cbn [mbind option_bind] in H. destruct (read_bit_measure _ _ _ E2 Hv1) as [Hv2 Hm2].
  set (r := if negb b2 then Some (c2, t, m) else _) in H. 
  assert (match r with Some (c3, t3, m3) => 0 <= c_valid c3 < 256 /\ measure c3 <= measure c2 /\ 1 <= m3 <= 64 | None => True end) as Hr.
  { unfold r. destruct b2; cbn [negb]; [|done]. destruct (read_bits c2 11) as [[c3 lm]|] eqn:E3; [|done]. cbn [mbind option_bind].
    destruct (read_bits_measure _ _ _ _ E3 Hv2 ltac:(lia)) as [Hv3 Hm3].
    assert (0 <= Z.land lm 63 < 64) as Hl by (change 63 with (Z.ones 6); rewrite Z.land_ones by lia; apply Z.mod_pos_bound; lia).
    destruct (Z.ltb_spec 0 (Z.land lm 63)); split_and!; lia || done. }
  clearbody r. destruct r as [[[c3 t3] m3]|]; [|done]. cbn [mbind option_bind] in H. destruct Hr as (Hv3 & Hm3 & Hm3').
  destruct (read_bits c3 m3) as [[c4 s4]|] eqn:E4; [|done]. cbn [mbind option_bind] in H. injection H as <- _ _ <- _.
  destruct (read_bits_measure _ _ _ _ E4 Hv3 Hm3') as [Hv4 Hm4]. split; [done|]. split; [lia|done].
Qed.

Lemma decode_loop_total fuel : forall c v t m dst, measure c < Z.of_nat fuel -> 0 <= c_valid c < 256 -> 1 <= m <= 64 ->
  (exists xs, decode_loop fuel c v t m dst = Ok xs) \/ decode_loop fuel c v t m dst = Err EOF.
Proof.
  induction fuel as [|fuel IH]; intros c v t m dst Hf Hv Hm.
  { unfold measure in Hf. case_bool_decide; lia. }
  cbn [decode_loop]. destruct (decode_value c v t m) as [[[[[c' v'] t'] m'] e]|] eqn:E; [|by right].
  destruct (decode_value_measure _ _ _ _ _ _ _ _ _ E Hv Hm) as (Hv' & Hlt & Hm'). destruct e; [left; by eexists|]. apply IH; [lia|done|done].
Qed.

(** * Theorems *)

(** C26: The two encoders of floats write the same bytes, and the two decoders read them: for any floats that are not NaN (and do not sum up to one), [FloatArrayEncodeAll] into any buffer and the streaming encoder from any state give the same bytes, which both decoders take back to the floats. *)
Theorem float_codecs_agree (bs : bitstream) `{!bitstream_laws bs} xs (b buf : slice Z) (e : FloatEncoder bs) (d : FloatDecoder) :
  Forall number_ok xs -> is_nan (sum_from float_zero (tail xs)) = false ->
  exists out d', FloatArrayEncodeAll xs b = Ok out /\
    Codec.bytes (Codec.write_values (Reset bs e) xs) = Ok (Flush bs (Codec.write_values (Reset bs e) xs), out) /\
    FloatArrayDecodeAll out buf = Ok xs /\
    SetBytes d out = Ok d' /\ Codec.yields (fun _ => True) d' xs.
Proof.
  intros Hn Hs. assert (Forall is_u64 xs) as Hu by (eapply Forall_impl; [exact Hn|by intros ? []]).
  destruct (proj2 (array_encode xs b Hu) Hn Hs) as (out & HE & Hout). destruct (encode_ok bs e xs Hn) as (out' & HS & Hout').
  rewrite (encodes_unique _ _ _ Hout' Hout) in HS. destruct (decode_ok d out xs Hout Hn) as (d' & HD & Hy).
  exists out, d'. split; [done|]. split; [done|]. split; [by apply array_decode_ok|]. by split.
Qed.

(** C24: [FloatArrayDecodeAll] returns on every input, damaged or cut anywhere: it gives floats or the error of an early end, and it does not panic, although it counts the unread bits modulo 256 and passes below zero at the end of the data. *)
Theorem FloatArrayDecodeAll_total b buf :
  (exists xs, FloatArrayDecodeAll b buf = Ok xs) \/ FloatArrayDecodeAll b buf = Err EOF.
Proof.
  unfold FloatArrayDecodeAll. case_bool_decide as Hl; [left; by eexists|]. rewrite tail_from_Ok by lia. cbn [mbind outcome_bind].
  unfold be_uint. rewrite decide_True by (rewrite length_drop; lia). cbn [mbind outcome_bind]. destruct (_ =? uvnan); [left; by eexists|].
  rewrite tail_from_Ok by (rewrite length_drop; lia). cbn [mbind outcome_bind]. destruct (refill _) as [c|] eqn:E; [|by right].
  destruct (refill_measure _ _ E) as (H1 & _ & H2 & _). apply decode_loop_total; [|lia|lia]. lia.
Qed.

(** C38: A NaN among the values is refused by both encoders, but the batch encoder looks for it in the sum of the values: it also refuses values that are none, such as both infinities. *)
Theorem float_NaN (bs : bitstream) `{!bitstream_laws bs} (b : slice Z) x :
  (forall xs, Forall is_u64 xs -> existsb IsNaN xs = true -> FloatArrayEncodeAll xs b = Err unsupported /\
     forall e, Codec.bytes (Codec.write_values (Reset bs e) xs) = Err unsupported) /\
  (number_ok x -> let xs := [x; 9218868437227405312; 18442240474082181120] in
     Forall number_ok xs /\ FloatArrayEncodeAll xs b = Err unsupported /\
     forall e, exists out, Codec.bytes (Codec.write_values (Reset bs e) xs) = Ok (Flush bs (Codec.write_values (Reset bs e) xs), out) /\
       FloatArrayDecodeAll out nil_slice = Ok xs).
Proof.
  split; [intros xs Hu H; split; [apply (array_encode xs b Hu); by left|intros e; by apply stream_NaN]|]. intros Hx xs.
  assert (Forall number_ok xs) as Hn.
  { constructor; [done|]. constructor; [|constructor; [|done]]; (split; [by apply (bool_decide_unpack _); vm_compute|by vm_compute]). }
  split; [done|]. split.
  - apply (array_encode xs b); [eapply Forall_impl; [exact Hn|by intros ? []]|]. right. by vm_compute.
  - intros e. destruct (encode_ok bs e xs Hn) as (out & HS & Hout). exists out. split; [done|]. by apply array_decode_ok.
Qed.

(** * Witnesses: 1, 1, 2, pi, 0, and the smallest number *)

Definition floats1 : list Z := [4607182418800017408; 4607182418800017408; 4611686018427387904; 4614256656552045848; 0; 1].

Lemma floats1_ok : Forall number_ok floats1.
Proof. repeat (constructor; [split; [by apply (bool_decide_unpack _); vm_compute|by vm_compute]|]). constructor. Qed.

Lemma float_codecs_agree_witness :
  is_nan (sum_from float_zero (tail floats1)) = false /\
  exists out d', FloatArrayEncodeAll floats1 nil_slice = Ok out /\
    Codec.bytes (Codec.write_values (Reset simple_stream (NewFloatEncoder simple_stream)) floats1) =
      Ok (Flush simple_stream (Codec.write_values (Reset simple_stream (NewFloatEncoder simple_stream)) floats1), out) /\
    FloatArrayDecodeAll out nil_slice = Ok floats1 /\
    SetBytes NewFloatDecoder out = Ok d' /\ Codec.yields (fun _ => True) d' floats1.
Proof.
  split; [by vm_compute|]. apply (float_codecs_agree simple_stream floats1 nil_slice nil_slice); [exact floats1_ok|by vm_compute].
Defined.

Lemma float_NaN_witness :
  FloatArrayEncodeAll [4607182418800017408; 9221120237041090561] nil_slice = Err unsupported /\
  FloatArrayEncodeAll [4607182418800017408; 9218868437227405312; 18442240474082181120] nil_slice = Err unsupported.
Proof.
  destruct (float_NaN simple_stream nil_slice 4607182418800017408) as [H1 H2]. split.
  - apply H1; [by apply (bool_decide_unpack _); vm_compute|by vm_compute].
  - apply H2. split; [by apply (bool_decide_unpack _); vm_compute|by vm_compute].
Defined.

End FloatArrayLaws.
