(* ===== verification/Values.v ===== *)
(** Time-stamped values and slices of them (src/storage/types/value.go and
    values.gen.go).

    The generated file repeats one set of functions for [Values] and for the slices
    of the five value types; here they are written once, over the class
    [Timestamped], and instantiated at the end.  The abstract content of a slice is
    the finite map [series] from timestamps to values, the last value of a
    timestamp winning; a slice whose timestamps strictly increase is its canonical
    form.  The results are values of lists: that [Deduplicate], [Exclude] and
    [Include] reuse the array of their argument is not modelled. *)
From stdpp Require Import gmap sorting.
From S2P Require Import Prelude.

Module Values.

Class Timestamped (V : Type) := {
  UnixNano : V -> Z;
  Size : V -> Z
}.

(** ** Operations *)
Section Ops.
Context {V : Type} `{Timestamped V}.
Implicit Types a b : list V.

Definition MinTime a : outcome Z := UnixNano <$> index a 0.

Definition MaxTime a : outcome Z :=
  match a with [] => Panic | _ => UnixNano <$> index a (length a - 1) end.

Definition SizeOf a : Z := foldl (fun sz v => sz + Size v) 0 a.

(** [for i := 1; i < len(a); i++ { if a[i-1] >= a[i] ... }]. *)
Fixpoint ordered_from (prev : V) a : bool :=
  match a with
  | [] => true
  | v :: r => if UnixNano v <=? UnixNano prev then false else ordered_from v r
  end.

Definition ordered a : bool := match a with [] => true | v :: r => ordered_from v r end.

Definition assertOrdered a : outcome unit := if ordered a then Ok tt else Panic.

Definition Less a (i j : nat) : outcome bool :=
  x ← index a i; y ← index a j; Ok (UnixNano x <? UnixNano y).

Definition Swap a (i j : nat) : outcome (list V) :=
  x ← index a i; y ← index a j; Ok (<[j := x]> (<[i := y]> a)).

(** [sort.Stable]: the stable sort by timestamp. *)
Fixpoint insert_stable (x : V) a : list V :=
  match a with
  | [] => [x]
  | y :: r => if UnixNano x <=? UnixNano y then x :: y :: r else y :: insert_stable x r
  end.
Definition sort_stable a : list V := foldr insert_stable [] a.

(** [for j := 1; j < len(a); j++ { v := a[j]; if v.UnixNano() != a[i].UnixNano()
    { i++ }; a[i] = v }], [n] rounds left. *)
Fixpoint dedup_loop (n j i : nat) a : outcome (nat * list V) :=
  match n with
  | O => Ok (i, a)
  | S n' =>
      v ← index a j;
      ai ← index a i;
      let i := if negb (UnixNano v =? UnixNano ai) then S i else i in
      a ← store a i v;
      dedup_loop n' (S j) i a
  end.

Definition Deduplicate a : outcome (list V) :=
  if bool_decide (length a <= 1)%nat then Ok a
  else if ordered a then Ok a
  else
    '(i, a) ← dedup_loop (length a - 1) 1 0 (sort_stable a);
    subslice a 0 (i + 1).

(** The binary search; every round shrinks [hi - lo]. *)
Fixpoint search_loop (fuel : nat) a (v : Z) (lo hi : nat) : outcome nat :=
  match fuel with
  | O => Panic
  | S fuel' =>
      if bool_decide (lo < hi)%nat then
        let mid := ((lo + hi) / 2)%nat in
        x ← index a mid;
        if UnixNano x <? v then search_loop fuel' a v (mid + 1) hi
        else search_loop fuel' a v lo mid
      else Ok lo
  end.
Definition search a (v : Z) : outcome nat := search_loop (S (length a)) a v 0 (length a).

Definition FindRange a (min max : Z) : outcome (Z * Z) :=
  if bool_decide (length a = 0)%nat || (max <? min) then Ok (-1, -1)
  else
    minVal ← MinTime a;
    maxVal ← MaxTime a;
    if (maxVal <? min) || (max <? minVal) then Ok (-1, -1)
    else
      i ← search a min;
      j ← search a max;
      Ok (Z.of_nat i, Z.of_nat j).

Definition Exclude a (min max : Z) : outcome (list V) :=
  '(rmin, rmax) ← FindRange a min max;
  if (rmin =? -1) && (rmax =? -1) then Ok a
  else
    let rmin := Z.to_nat rmin in
    let rmax := Z.to_nat rmax in
    if bool_decide (rmax < length a)%nat then
      x ← index a rmax;
      let rmax := if UnixNano x =? max then S rmax else rmax in
      let rest := (length a - rmax)%nat in
      if bool_decide (0 < rest)%nat then
        b ← subslice a 0 (rmin + rest);
        tl ← tail_from a rmax;
        Ok (splice b rmin tl)
      else subslice a 0 rmin
    else subslice a 0 rmin.

Definition Include a (min max : Z) : outcome (list V) :=
  '(rmin, rmax) ← FindRange a min max;
  if (rmin =? -1) && (rmax =? -1) then Ok []
  else
    let rmin := Z.to_nat rmin in
    let rmax := Z.to_nat rmax in
    rmax ← (if bool_decide (rmax < length a)%nat then
              x ← index a rmax; Ok (if UnixNano x =? max then S rmax else rmax)
            else Ok rmax);
    if bool_decide (rmax < rmin)%nat then Panic
    else
      b ← subslice a 0 (rmax - rmin);
      s ← subslice a rmin rmax;
      Ok (splice b 0 s).

Fixpoint merge_loop (fuel : nat) a b (out : list V) : outcome (list V) :=
  match fuel with
  | O => Panic
  | S fuel' =>
      match a, b with
      | x :: a', y :: b' =>
          if UnixNano x <? UnixNano y then merge_loop fuel' a' b (out ++ [x])
          else if UnixNano x =? UnixNano y then merge_loop fuel' a' b out
          else merge_loop fuel' a b' (out ++ [y])
      | _ :: _, [] => Ok (out ++ a)
      | [], _ => Ok (out ++ b)
      end
  end.

Definition Merge a b : outcome (list V) :=
  match a, b with
  | [], _ => Ok b
  | _, [] => Ok a
  | _, _ =>
      a ← Deduplicate a;
      b ← Deduplicate b;
      amax ← MaxTime a;
      bmin ← MinTime b;
      if amax <? bmin then Ok (a ++ b)
      else
        bmax ← MaxTime b;
        amin ← MinTime a;
        if bmax <? amin then Ok (b ++ a)
        else merge_loop (S (length a + length b)) a b []
  end.

(** ** Specification *)

(** The content of a slice. *)
Definition series a : gmap Z V := foldl (fun m v => <[UnixNano v := v]> m) ∅ a.

(** The canonical slices. *)
Definition sorted a : Prop := StronglySorted (fun x y => UnixNano x < UnixNano y) a.

End Ops.

(** * Lemmas *)
Section Lemmas.
Context {V : Type} `{Timestamped V}.
Implicit Types a b : list V.

(** ** The content of a slice *)
Lemma series_fold m a : foldl (fun m v => <[UnixNano v := v]> m) m a = series a ∪ m.
Proof.
  unfold series. revert m. induction a as [|v r IH]; intros m; cbn [foldl].
  - by rewrite map_empty_union.
  - rewrite IH, (IH (<[_ := v]> ∅)), <- map_union_assoc. f_equal.
    by rewrite insert_empty, insert_union_singleton_l.
Qed.

Lemma series_cons v r : series (v :: r) = series r ∪ {[UnixNano v := v]}.
Proof. unfold series at 1. cbn [foldl]. by rewrite series_fold, insert_empty. Qed.

Lemma series_app a b : series (a ++ b) = series b ∪ series a.
Proof. unfold series at 1. rewrite foldl_app. apply series_fold. Qed.

Lemma series_nil : series ([] : list V) = ∅.
Proof. done. Qed.

Lemma series_lookup_Some a t v : series a !! t = Some v -> UnixNano v = t /\ v ∈ a.
Proof.
  induction a as [|x r IH]; [by rewrite series_nil, lookup_empty|].
  rewrite series_cons, lookup_union_Some_raw. intros [Hv|[_ [<- <-]%lookup_singleton_Some]].
  - destruct (IH Hv). split; [done|by right].
  - split; [done|left].
Qed.

Lemma series_lookup_None a t : series a !! t = None <-> forall v, v ∈ a -> UnixNano v <> t.
Proof.
  induction a as [|x r IH].
  - rewrite series_nil, lookup_empty. split; [|done]. intros _ v Hv. by apply elem_of_nil in Hv.
  - rewrite series_cons, lookup_union_None, lookup_singleton_None, IH. split.
    + intros [Hr Hx] v [->|Hv]%elem_of_cons; auto.
    + intros Hv. split; [intros v Hr; apply Hv; by right|apply Hv; left].
Qed.

Lemma sorted_cons x a : sorted (x :: a) <-> sorted a /\ forall y, y ∈ a -> UnixNano x < UnixNano y.
Proof.
  unfold sorted. split.
  - intros Hs. inversion Hs; subst. split; [done|]. by rewrite <- Forall_forall.
  - intros [Hs Hx]. constructor; [done|]. by rewrite Forall_forall.
Qed.

Lemma sorted_nil : sorted ([] : list V).
Proof. constructor. Qed.

Lemma series_sorted a t v : sorted a -> (series a !! t = Some v <-> v ∈ a /\ UnixNano v = t).
Proof.
  intros Hs. split; [intros Hv; apply series_lookup_Some in Hv; tauto|]. intros [Hv <-].
  induction a as [|x r IH]; [by apply elem_of_nil in Hv|].
  apply sorted_cons in Hs as [Hs Hx]. rewrite series_cons, lookup_union_Some_raw.
  apply elem_of_cons in Hv as [->|Hv]; [right|left; auto].
  split; [|by rewrite lookup_singleton_eq]. apply series_lookup_None. intros y Hy E.
  specialize (Hx y Hy). lia.
Qed.

(** Canonical slices are determined by their content. *)
Lemma sorted_ext a b : sorted a -> sorted b -> series a = series b -> a = b.
Proof.
  intros Ha Hb E. assert (forall v, v ∈ a <-> v ∈ b) as Hm.
  { intros v. pose proof (series_sorted a (UnixNano v) v Ha).
    pose proof (series_sorted b (UnixNano v) v Hb). rewrite E in *. tauto. }
  clear E. revert b Hb Hm. induction a as [|x a IH]; intros b Hb Hm.
  - destruct b as [|y b]; [done|]. exfalso. apply (not_elem_of_nil y), Hm. left.
  - destruct b as [|y b]; [exfalso; apply (not_elem_of_nil x), Hm; left|].
    apply sorted_cons in Ha as [Ha Hx], Hb as [Hb Hy].
    assert (x = y) as ->.
    { assert (x ∈ y :: b) as Hxb by (apply Hm; left). assert (y ∈ x :: a) as Hya by (apply Hm; left).
      apply elem_of_cons in Hxb as [|Hxb]; [done|]. apply elem_of_cons in Hya as [|Hya]; [done|].
      specialize (Hx y Hya). specialize (Hy x Hxb). lia. }
    f_equal. apply IH; [done|done|]. intros v. specialize (Hm v). rewrite !elem_of_cons in Hm.
    split; intros Hv.
    + destruct (proj1 Hm (or_intror Hv)) as [->|]; [|done]. specialize (Hx y Hv). lia.
    + destruct (proj2 Hm (or_intror Hv)) as [->|]; [|done]. specialize (Hy y Hv). lia.
Qed.

Lemma ordered_from_spec p a :
  ordered_from p a = true <-> sorted (p :: a).
Proof.
  revert p. induction a as [|v r IH]; intros p; cbn [ordered_from].
  - split; [|done]. intros _. apply sorted_cons. split; [apply sorted_nil|].
    intros y Hy. by apply elem_of_nil in Hy.
  - destruct (Z.leb_spec (UnixNano v) (UnixNano p)) as [Hle|Hlt].
    + split; [done|]. intros [_ Hs]%sorted_cons. specialize (Hs v ltac:(left)). lia.
    + rewrite IH. split; [|intros [Hs _]%sorted_cons; done]. intros Hs.
      apply sorted_cons. split; [done|]. intros y [->|Hy]%elem_of_cons; [done|].
      apply sorted_cons in Hs as [_ Hv]. specialize (Hv y Hy). lia.
Qed.

Lemma ordered_spec a : ordered a = true <-> sorted a.
Proof. destruct a as [|v r]; [split; [intros; apply sorted_nil|done]|]. apply ordered_from_spec. Qed.

(** ** Deduplicate *)
Definition weakly a : Prop := StronglySorted (fun x y => UnixNano x <= UnixNano y) a.

Lemma weakly_cons x a : weakly (x :: a) <-> weakly a /\ forall y, y ∈ a -> UnixNano x <= UnixNano y.
Proof.
  unfold weakly. split.
  - intros Hs. inversion Hs; subst. split; [done|]. by rewrite <- Forall_forall.
  - intros [Hs Hx]. constructor; [done|]. by rewrite Forall_forall.
Qed.

Lemma insert_stable_perm x a : insert_stable x a ≡ₚ x :: a.
Proof.
  induction a as [|y r IH]; [done|]. cbn [insert_stable].
  destruct (_ <=? _); [done|]. rewrite IH. apply Permutation_swap.
Qed.

Lemma sort_stable_perm a : sort_stable a ≡ₚ a.
Proof. induction a as [|x r IH]; [done|]. cbn. by rewrite insert_stable_perm, IH. Qed.

Lemma insert_stable_weakly x a : weakly a -> weakly (insert_stable x a).
Proof.
  induction a as [|y r IH]; intros Ha; cbn [insert_stable].
  - apply weakly_cons. split; [constructor|]. intros z Hz. by apply elem_of_nil in Hz.
  - apply weakly_cons in Ha as [Hr Hy]. destruct (Z.leb_spec (UnixNano x) (UnixNano y)).
    + apply weakly_cons. split; [by apply weakly_cons|].
      intros z [->|Hz]%elem_of_cons; [done|]. specialize (Hy z Hz). lia.
    + apply weakly_cons. split; [by apply IH|]. intros z Hz. rewrite insert_stable_perm in Hz.
      apply elem_of_cons in Hz as [->|Hz]; [lia|auto].
Qed.

Lemma sort_stable_weakly a : weakly (sort_stable a).
Proof. induction a as [|x r IH]; [constructor|]. by apply insert_stable_weakly. Qed.

Lemma union_singletons_comm (m : gmap Z V) x y :
  UnixNano x <> UnixNano y ->
  (m ∪ {[UnixNano x := x]}) ∪ {[UnixNano y := y]} = (m ∪ {[UnixNano y := y]}) ∪ {[UnixNano x := x]}.
Proof.
  intros Hne. rewrite <- !map_union_assoc. f_equal. apply map_union_comm.
  by apply map_disjoint_singleton_l, lookup_singleton_ne.
Qed.

(** The sort is stable: the last value of a timestamp stays the last one. *)
Lemma series_insert_stable x a : series (insert_stable x a) = series (x :: a).
Proof.
  induction a as [|y r IH]; [done|]. cbn [insert_stable].
  destruct (Z.leb_spec (UnixNano x) (UnixNano y)); [done|].
  rewrite series_cons, IH, !series_cons. apply union_singletons_comm. lia.
Qed.

Lemma series_sort_stable a : series (sort_stable a) = series a.
Proof.
  induction a as [|x r IH]; [done|]. cbn [sort_stable foldr].
  rewrite series_insert_stable, !series_cons. by rewrite <- IH.
Qed.

(** What the loop computes on a sorted slice. *)
Fixpoint compress (cur : V) (rest : list V) : list V :=
  match rest with
  | [] => [cur]
  | v :: r => if UnixNano v =? UnixNano cur then compress v r else cur :: compress v r
  end.

Lemma compress_spec cur rest :
  weakly (cur :: rest) ->
  sorted (compress cur rest) /\ series (compress cur rest) = series (cur :: rest) /\
  (forall y, y ∈ compress cur rest -> UnixNano cur <= UnixNano y).
Proof.
  revert cur. induction rest as [|v r IH]; intros cur Hw; cbn [compress].
  - split; [apply sorted_cons; split; [apply sorted_nil|intros y Hy; by apply elem_of_nil in Hy]|].
    split; [done|]. intros y ->%list_elem_of_singleton. lia.
  - apply weakly_cons in Hw as [Hr Hc]. destruct (IH v Hr) as (Hs & Hse & Hv).
    pose proof (Hc v ltac:(left)) as Hcv.
    destruct (Z.eqb_spec (UnixNano v) (UnixNano cur)) as [E|E].
    + split; [done|]. split; [|intros y Hy; specialize (Hv y Hy); lia].
      rewrite Hse, !series_cons, <- map_union_assoc. f_equal.
      apply map_eq. intros t. rewrite lookup_union, <- E.
      destruct (decide (UnixNano v = t)) as [->|Hne].
      * by rewrite !lookup_singleton_eq.
      * by rewrite !lookup_singleton_ne.
    + split; [apply sorted_cons; split; [done|]; intros y Hy; specialize (Hv y Hy); lia|].
      split; [by rewrite series_cons, Hse, <- series_cons|].
      intros y [->|Hy]%elem_of_cons; [lia|]. specialize (Hv y Hy). lia.
Qed.

Lemma dedup_loop_spec R P cur junk :
  exists a', dedup_loop (length R) (length (P ++ cur :: junk)) (length P) (P ++ cur :: junk ++ R) =
      Ok ((length (P ++ compress cur R) - 1)%nat, a') /\
    take (length (P ++ compress cur R)) a' = P ++ compress cur R /\
    (length (P ++ compress cur R) <= length a')%nat.
Proof.
  revert P cur junk. induction R as [|v R IH]; intros P cur junk; cbn [length dedup_loop compress].
  - eexists. rewrite app_nil_r. split; [do 3 f_equal; rewrite length_app; cbn; lia|].
    split; [|rewrite !length_app; cbn; lia].
    change (P ++ cur :: junk) with (P ++ [cur] ++ junk). rewrite app_assoc. apply take_app_length.
  - assert (P ++ cur :: junk ++ v :: R = (P ++ cur :: junk) ++ v :: R) as E
      by (by rewrite <- app_assoc).
    rewrite (index_lookup _ (length (P ++ cur :: junk)) v) by (rewrite E; by apply list_lookup_middle).
    cbn [mbind outcome_bind].
    rewrite (index_lookup _ (length P) cur) by (by apply list_lookup_middle). cbn [mbind outcome_bind].
    destruct (Z.eqb_spec (UnixNano v) (UnixNano cur)) as [Ev|Ev]; cbn [negb].
    + rewrite store_in_range by (rewrite !length_app; cbn; lia). cbn [mbind outcome_bind].
      rewrite insert_app_r_alt, Nat.sub_diag by lia. cbn [insert list_insert].
      replace (S (length (P ++ cur :: junk))) with (length (P ++ v :: junk ++ [v]))
        by (rewrite !length_app; cbn; rewrite ?length_app; cbn; lia).
      destruct (IH P v (junk ++ [v])) as (a' & HE & Ht & Hl). rewrite <- app_assoc in HE. by exists a'.
    + rewrite store_in_range by (rewrite !length_app; cbn; rewrite ?length_app; cbn; lia).
      cbn [mbind outcome_bind].
      assert (<[S (length P) := v]> (P ++ cur :: junk ++ v :: R) =
              (P ++ [cur]) ++ v :: (match junk with [] => [] | _ :: j => j ++ [v] end) ++ R) as ->.
      { rewrite insert_app_r_alt by lia. replace (S (length P) - length P)%nat with 1%nat by lia.
        rewrite <- app_assoc. f_equal. cbn [insert list_insert app]. f_equal.
        destruct junk as [|j0 j]; [done|]. cbn. by rewrite <- app_assoc. }
      replace (S (length P)) with (length (P ++ [cur])) by (rewrite length_app; cbn; lia).
      set (jk := match junk with [] => [] | _ :: j => j ++ [v] end).
      replace (S (length (P ++ cur :: junk))) with (length ((P ++ [cur]) ++ v :: jk)).
      2:{ unfold jk. destruct junk; rewrite !length_app; cbn; rewrite ?length_app; cbn; lia. }
      destruct (IH (P ++ [cur]) v jk) as (a' & HE & Ht & Hl). exists a'.
      rewrite <- (app_assoc P [cur]) in Ht, Hl. rewrite <- (app_assoc P [cur] (compress v R)) in HE. done.
Qed.

Lemma Deduplicate_spec a : exists r, Deduplicate a = Ok r /\ sorted r /\ series r = series a.
Proof.
  unfold Deduplicate. case_bool_decide as Hlen.
  - exists a. split; [done|]. split; [|done]. destruct a as [|x [|y a]]; [apply sorted_nil| |cbn in Hlen; lia].
    apply sorted_cons. split; [apply sorted_nil|]. intros z Hz. by apply elem_of_nil in Hz.
  - destruct (ordered a) eqn:Eo; [apply ordered_spec in Eo; by exists a|].
    pose proof (sort_stable_perm a) as Hp. pose proof (sort_stable_weakly a) as Hw.
    pose proof (series_sort_stable a) as Hs. apply Permutation_length in Hp.
    destruct (sort_stable a) as [|x R] eqn:Ea; [cbn in Hp; lia|].
    destruct (dedup_loop_spec R [] x []) as (a' & HE & Ht & Hl). cbn [app length] in *.
    replace (length a - 1)%nat with (length R) by lia. rewrite HE. cbn [mbind outcome_bind].
    destruct (compress_spec x R Hw) as (Hso & Hse & _).
    assert (0 < length (compress x R))%nat as Hpos.
    { clear. revert x. induction R as [|v R IH]; intros x; cbn; [lia|]. case_match; cbn; [apply IH|lia]. }
    replace (length (compress x R) - 1 + 1)%nat with (length (compress x R)) by lia.
    unfold subslice. rewrite decide_True by lia. rewrite drop_0, Ht.
    exists (compress x R). by rewrite Hse.
Qed.

(** ** Search *)

(** [i] splits [a] at [v]: everything before is below, everything from it is not. *)
Definition split_at a (v : Z) (i : nat) : Prop :=
  (i <= length a)%nat /\ (forall x, x ∈ take i a -> UnixNano x < v) /\
  (forall x, x ∈ drop i a -> v <= UnixNano x).

Lemma weakly_lookup a i j x y :
  weakly a -> (i <= j)%nat -> a !! i = Some x -> a !! j = Some y -> UnixNano x <= UnixNano y.
Proof.
  intros Hw. revert i j. induction a as [|z r IH]; intros i j Hij Hx Hy; [done|].
  apply weakly_cons in Hw as [Hr Hz]. destruct i as [|i], j as [|j]; cbn in *; try lia.
  - injection Hx as ->. injection Hy as ->. lia.
  - injection Hx as ->. apply Hz. by eapply list_elem_of_lookup_2.
  - apply (IH Hr i j); [lia|done..].
Qed.

Lemma search_loop_spec fuel a v lo hi :
  weakly a -> (lo <= hi <= length a)%nat -> (hi - lo < fuel)%nat ->
  (forall x, x ∈ take lo a -> UnixNano x < v) -> (forall x, x ∈ drop hi a -> v <= UnixNano x) ->
  exists i, search_loop fuel a v lo hi = Ok i /\ split_at a v i.
Proof.
  intros Hw. revert lo hi. induction fuel as [|fuel IH]; intros lo hi Hr Hf Hlo Hhi; [lia|].
  cbn [search_loop]. case_bool_decide as Hlt.
  - pose proof (Nat.div_mod (lo + hi) 2 ltac:(lia)). pose proof (Nat.mod_upper_bound (lo + hi) 2 ltac:(lia)).
    set (mid := ((lo + hi) / 2)%nat) in *.
    destruct (lookup_lt_is_Some_2 a mid) as [x Hx]; [lia|].
    rewrite (index_lookup _ _ x) by done. cbn [mbind outcome_bind].
    destruct (Z.ltb_spec (UnixNano x) v).
    + apply IH; try done; try lia. intros y (k & Hk)%list_elem_of_lookup.
      apply lookup_take_Some in Hk as [Hk Hkm].
      pose proof (weakly_lookup a k mid y x Hw ltac:(lia) Hk Hx). lia.
    + apply IH; try done; try lia. intros y (k & Hk)%list_elem_of_lookup.
      rewrite lookup_drop in Hk. pose proof (weakly_lookup a mid (mid + k) x y Hw ltac:(lia) Hx Hk). lia.
  - assert (lo = hi) as -> by lia. exists hi. split; [done|]. split; [lia|done].
Qed.

Lemma search_spec a v : weakly a -> exists i, search a v = Ok i /\ split_at a v i.
Proof.
  intros Hw. unfold search. apply search_loop_spec; try done; try lia.
  - rewrite take_0. intros x Hx. by apply elem_of_nil in Hx.
  - rewrite drop_ge by lia. intros x Hx. by apply elem_of_nil in Hx.
Qed.

Lemma sorted_weakly a : sorted a -> weakly a.
Proof.
  induction a as [|x r IH]; [constructor|]. intros [Hr Hx]%sorted_cons.
  apply weakly_cons. split; [auto|]. intros y Hy. specialize (Hx y Hy). lia.
Qed.

(** ** Ranges *)
Definition in_span (min max : Z) (v : V) : Prop := min <= UnixNano v <= max.
#[global] Instance in_span_dec min max v : Decision (in_span min max v).
Proof. unfold in_span. apply _. Defined.

Lemma filter_in (P : V -> Prop) `{forall x, Decision (P x)} a :
  (forall x, x ∈ a -> P x) -> filter P a = a.
Proof. intros Hp. by apply filter_all, Forall_forall. Qed.

Lemma filter_none (P : V -> Prop) `{forall x, Decision (P x)} a :
  (forall x, x ∈ a -> ~ P x) -> filter P a = [].
Proof.
  intros Hp. induction a as [|x r IH]; [done|].
  rewrite filter_cons_False by (apply Hp; left). apply IH. intros y Hy. apply Hp. by right.
Qed.

(** The three parts of a slice split at [i <= j]. *)
Lemma split_three a i j : (i <= j)%nat -> a = take i a ++ drop i (take j a) ++ drop j a.
Proof.
  intros Hij. rewrite app_assoc.
  assert (take i a ++ drop i (take j a) = take j a) as ->; [|by rewrite take_drop].
  rewrite <- (take_drop i (take j a)) at 2. by rewrite take_take, Nat.min_l by done.
Qed.

Lemma filter_span a min max i j :
  (i <= j)%nat -> (forall x, x ∈ take i a -> UnixNano x < min) ->
  (forall x, x ∈ drop i a -> min <= UnixNano x) ->
  (forall x, x ∈ take j a -> UnixNano x <= max) -> (forall x, x ∈ drop j a -> max < UnixNano x) ->
  filter (in_span min max) a = drop i (take j a) /\
  filter (fun v => ~ in_span min max v) a = take i a ++ drop j a.
Proof.
  intros Hij H1 H2 H3 H4. unfold in_span.
  assert (forall x, x ∈ drop i (take j a) -> min <= UnixNano x <= max) as Hm.
  { intros x Hx. split.
    - apply H2. apply list_elem_of_lookup in Hx as [k Hk]. apply list_elem_of_lookup. exists k.
      rewrite lookup_drop in Hk |- *. by apply lookup_take_Some in Hk as [Hk _].
    - apply H3. eapply subseteq_drop. exact Hx. }
  split; rewrite (split_three a i j Hij) at 1; rewrite !filter_app.
  - rewrite (filter_none _ (take i a)) by (intros x Hx; specialize (H1 x Hx); lia).
    rewrite (filter_none _ (drop j a)) by (intros x Hx; specialize (H4 x Hx); lia).
    rewrite (filter_in _ (drop i (take j a))) by done. by rewrite app_nil_r.
  - rewrite (filter_in _ (take i a)) by (intros x Hx; specialize (H1 x Hx); lia).
    rewrite (filter_none _ (drop i (take j a))) by (intros x Hx; specialize (Hm x Hx); lia).
    by rewrite (filter_in _ (drop j a)) by (intros x Hx; specialize (H4 x Hx); lia).
Qed.

Lemma MinTime_cons x r : MinTime (x :: r) = Ok (UnixNano x).
Proof. done. Qed.

Lemma MaxTime_last a x : last a = Some x -> MaxTime a = Ok (UnixNano x).
Proof.
  intros Hx. destruct a as [|y r]; [done|]. unfold MaxTime.
  rewrite last_lookup in Hx. cbn [length Nat.pred] in Hx.
  replace (length (y :: r) - 1)%nat with (length r) by (cbn; lia).
  by rewrite (index_lookup _ _ x).
Qed.

Lemma weakly_last a x y : weakly a -> last a = Some x -> y ∈ a -> UnixNano y <= UnixNano x.
Proof.
  intros Hw Hx [k Hk]%list_elem_of_lookup. rewrite last_lookup in Hx.
  apply lookup_lt_Some in Hk as Hlt. eapply (weakly_lookup a k (pred (length a))); try done. lia.
Qed.

Lemma weakly_head x r y : weakly (x :: r) -> y ∈ x :: r -> UnixNano x <= UnixNano y.
Proof. intros [_ Hx]%weakly_cons [->|Hy]%elem_of_cons; [lia|auto]. Qed.

Lemma FindRange_cases a min max :
  weakly a ->
  (FindRange a min max = Ok (-1, -1) /\ forall x, x ∈ a -> ~ in_span min max x) \/
  (exists i j, FindRange a min max = Ok (Z.of_nat i, Z.of_nat j) /\ min <= max /\
     split_at a min i /\ split_at a max j).
Proof.
  intros Hw. unfold FindRange, in_span.
  destruct a as [|x0 r]; [left; split; [done|]; intros x Hx; by apply elem_of_nil in Hx|].
  rewrite bool_decide_false by (cbn; lia). cbn [orb].
  destruct (Z.ltb_spec max min); [left; split; [done|]; intros; lia|].
  destruct (last (x0 :: r)) as [xl|] eqn:El; [|by apply last_None in El].
  rewrite MinTime_cons, (MaxTime_last _ xl) by done. cbn [mbind outcome_bind].
  destruct (Z.ltb_spec (UnixNano xl) min); cbn [orb].
  { left. split; [done|]. intros x Hx. pose proof (weakly_last _ _ x Hw El Hx). lia. }
  destruct (Z.ltb_spec max (UnixNano x0)).
  { left. split; [done|]. intros x Hx. pose proof (weakly_head _ _ x Hw Hx). lia. }
  right. destruct (search_spec _ min Hw) as (i & -> & Hi), (search_spec _ max Hw) as (j & -> & Hj).
  by exists i, j.
Qed.

(** The end of the range: past an element equal to [max]. *)
Definition past a (max : Z) (j : nat) : nat :=
  match a !! j with Some x => if UnixNano x =? max then S j else j | None => j end.

Lemma past_spec a min max i j :
  sorted a -> min <= max -> split_at a min i -> split_at a max j ->
  let j' := past a max j in
  (i <= j' <= length a)%nat /\ (forall x, x ∈ take j' a -> UnixNano x <= max) /\
  (forall x, x ∈ drop j' a -> max < UnixNano x).
Proof.
  intros Hs Hm (Hil & Hi1 & Hi2) (Hjl & Hj1 & Hj2) j'.
  assert ((j' <= length a)%nat /\ (forall x, x ∈ take j' a -> UnixNano x <= max) /\
          (forall x, x ∈ drop j' a -> max < UnixNano x)) as (Hl & H1 & H2).
  { unfold j', past. destruct (a !! j) as [x|] eqn:Ex.
    - apply lookup_lt_Some in Ex as Hlt. pose proof (drop_S a x j Ex) as Ed.
      assert (forall y, y ∈ drop (S j) a -> UnixNano x < UnixNano y) as Hgt.
      { rewrite <- (take_drop j a), Ed in Hs. clear -Hs. induction (take j a) as [|z l IH]; cbn in Hs.
        - by apply sorted_cons in Hs as [_ Hs].
        - apply IH. by apply sorted_cons in Hs as [Hs _]. }
      destruct (Z.eqb_spec (UnixNano x) max) as [E|E].
      + split; [lia|]. split.
        * intros y Hy. rewrite (take_S_r _ _ x Ex) in Hy.
          apply elem_of_app in Hy as [Hy| ->%list_elem_of_singleton]; [specialize (Hj1 y Hy)|]; lia.
        * intros y Hy. specialize (Hgt y Hy). lia.
      + split; [lia|]. split; [intros y Hy; specialize (Hj1 y Hy); lia|].
        rewrite Ed. assert (max <= UnixNano x) by (apply Hj2; rewrite Ed; left).
        intros y [->|Hy]%elem_of_cons; [lia|]. specialize (Hgt y Hy). lia.
    - apply lookup_ge_None in Ex. split; [lia|].
      split; [intros y Hy; specialize (Hj1 y Hy); lia|].
      intros y Hy. rewrite drop_ge in Hy by lia. by apply elem_of_nil in Hy. }
  split; [|done]. split; [|done].
  destruct (Nat.le_gt_cases i j') as [|Hgt]; [done|]. exfalso.
  destruct (lookup_lt_is_Some_2 a j') as [x Hx]; [lia|].
  assert (UnixNano x < min).
  { apply Hi1. apply list_elem_of_lookup. exists j'. by rewrite lookup_take_lt. }
  assert (max < UnixNano x); [|lia].
  apply H2. apply list_elem_of_lookup. exists 0%nat. by rewrite lookup_drop, Nat.add_0_r.
Qed.

Lemma Include_spec a min max :
  sorted a -> Include a min max = Ok (filter (in_span min max) a).
Proof.
  intros Hs. unfold Include.
  destruct (FindRange_cases a min max (sorted_weakly a Hs)) as [[-> Hno]|(i & j & -> & Hm & Hi & Hj)];
    cbn [mbind outcome_bind].
  { cbn [Z.eqb andb Pos.eqb]. by rewrite filter_none. }
  rewrite (proj2 (Z.eqb_neq _ (-1))) by lia. cbn [andb]. rewrite !Nat2Z.id.
  destruct (past_spec a min max i j Hs Hm Hi Hj) as (Hij & H3 & H4).
  assert ((if bool_decide (j < length a)%nat
           then x ← index a j; Ok (if UnixNano x =? max then S j else j) else Ok j) =
          Ok (past a max j)) as ->.
  { unfold past. case_bool_decide as Hlt.
    - destruct (lookup_lt_is_Some_2 a j Hlt) as [x Hx]. by rewrite Hx, (index_lookup _ _ x).
    - by rewrite lookup_ge_None_2 by lia. }
  cbn [mbind outcome_bind]. destruct Hi as (_ & H1 & H2). set (j' := past a max j) in *.
  destruct (filter_span a min max i j' ltac:(lia) H1 H2 H3 H4) as [-> _].
  rewrite bool_decide_false by lia. unfold subslice. rewrite !decide_True by lia.
  cbn [mbind outcome_bind]. unfold splice. rewrite take_0. cbn [app Nat.add].
  rewrite drop_0, (drop_ge (take (j' - i) a)) by (rewrite !length_take, !length_drop, length_take; lia).
  by rewrite app_nil_r.
Qed.

Lemma Exclude_spec a min max :
  sorted a -> Exclude a min max = Ok (filter (fun v => ~ in_span min max v) a).
Proof.
  intros Hs. unfold Exclude.
  destruct (FindRange_cases a min max (sorted_weakly a Hs)) as [[-> Hno]|(i & j & -> & Hm & Hi & Hj)];
    cbn [mbind outcome_bind].
  { cbn [Z.eqb andb Pos.eqb]. by rewrite filter_in. }
  rewrite (proj2 (Z.eqb_neq _ (-1))) by lia. cbn [andb]. rewrite !Nat2Z.id.
  destruct (past_spec a min max i j Hs Hm Hi Hj) as (Hij & H3 & H4).
  destruct Hi as (Hil & H1 & H2).
  destruct (filter_span a min max i (past a max j) ltac:(lia) H1 H2 H3 H4) as [_ ->].
  unfold subslice. case_bool_decide as Hlt.
  - destruct (lookup_lt_is_Some_2 a j Hlt) as [x Hx]. rewrite (index_lookup _ _ x) by done.
    cbn [mbind outcome_bind]. unfold past in *. rewrite Hx in *.
    set (j' := if UnixNano x =? max then S j else j) in *.
    case_bool_decide as Hrest.
    + rewrite decide_True by lia. rewrite tail_from_Ok by lia. cbn [mbind outcome_bind].
      unfold splice. rewrite drop_0, take_take, Nat.min_l by lia.
      rewrite (drop_ge (take _ a)) by (rewrite length_take, length_drop; lia). by rewrite app_nil_r.
    + rewrite decide_True by lia. rewrite (drop_ge a j') by lia. by rewrite app_nil_r, drop_0.
  - rewrite decide_True by lia. unfold past. rewrite lookup_ge_None_2 by lia.
    rewrite (drop_ge a j) by lia. by rewrite app_nil_r, drop_0.
Qed.

(** ** Merge *)
Lemma sorted_app a b :
  sorted a -> sorted b -> (forall x y, x ∈ a -> y ∈ b -> UnixNano x < UnixNano y) -> sorted (a ++ b).
Proof.
  intros Ha Hb Hab. induction a as [|x r IH]; [done|]. apply sorted_cons in Ha as [Hr Hx].
  apply sorted_cons. split; [apply IH; [done|]; intros; apply Hab; [by right|done]|].
  intros y [Hy|Hy]%elem_of_app; [auto|]. apply Hab; [left|done].
Qed.

Lemma series_disjoint a b :
  (forall x y, x ∈ a -> y ∈ b -> UnixNano x < UnixNano y) -> series a ##ₘ series b.
Proof.
  intros Hab. apply map_disjoint_spec. intros t x y Hx Hy.
  apply series_lookup_Some in Hx as [Hx1 Hx2], Hy as [Hy1 Hy2]. specialize (Hab x y Hx2 Hy2). lia.
Qed.

Lemma merge_loop_spec fuel a b out :
  sorted a -> sorted b -> (length a + length b < fuel)%nat ->
  exists M, merge_loop fuel a b out = Ok (out ++ M) /\ sorted M /\
    (forall v, v ∈ M -> v ∈ a \/ v ∈ b) /\ series M = series b ∪ series a.
Proof.
  revert a b out. induction fuel as [|fuel IH]; intros a b out Ha Hb Hf; [lia|].
  destruct a as [|x a]; cbn [merge_loop].
  { exists b. split; [done|]. split; [done|]. split; [auto|]. by rewrite series_nil, map_union_empty. }
  destruct b as [|y b].
  { exists (x :: a). split; [done|]. split; [done|]. split; [auto|].
    by rewrite series_nil, map_empty_union. }
  apply sorted_cons in Ha as Ha'. destruct Ha' as [Ha1 Hx].
  apply sorted_cons in Hb as Hb'. destruct Hb' as [Hb1 Hy]. cbn [length] in Hf.
  destruct (Z.ltb_spec (UnixNano x) (UnixNano y)) as [Hlt|Hge].
  - destruct (IH a (y :: b) (out ++ [x]) Ha1 Hb ltac:(cbn; lia)) as (M & HE & HM & Hin & Hse).
    exists (x :: M). rewrite HE, <- app_assoc. split; [done|]. split; [|split].
    + apply sorted_cons. split; [done|]. intros v Hv.
      apply Hin in Hv as [Hv|[->|Hv]%elem_of_cons]; [auto|lia|]. specialize (Hy v Hv). lia.
    + intros v [->|Hv]%elem_of_cons; [left; left|]. apply Hin in Hv as [|]; [left; by right|by right].
    + by rewrite series_cons, Hse, (series_cons x a), map_union_assoc.
  - destruct (Z.eqb_spec (UnixNano x) (UnixNano y)) as [E|E].
    + destruct (IH a (y :: b) out Ha1 Hb ltac:(cbn; lia)) as (M & HE & HM & Hin & Hse).
      exists M. split; [done|]. split; [done|]. split.
      * intros v Hv. apply Hin in Hv as [|]; [left; by right|by right].
      * rewrite Hse, (series_cons x a), map_union_assoc. apply map_eq. intros t.
        rewrite (lookup_union (_ ∪ _)), !lookup_union.
        destruct (series (y :: b) !! t) as [v|] eqn:Ev; [by destruct (series a !! t), ({[UnixNano x := x]} !! t)|].
        assert ({[UnixNano x := x]} !! t = @None V) as ->.
        { apply lookup_singleton_None. rewrite series_lookup_None in Ev. rewrite E. apply Ev. left. }
        by destruct (series a !! t).
    + destruct (IH (x :: a) b (out ++ [y]) Ha Hb1 ltac:(cbn; lia)) as (M & HE & HM & Hin & Hse).
      assert (forall v, v ∈ x :: a -> UnixNano y < UnixNano v) as Hya.
      { intros v [->|Hv]%elem_of_cons; [lia|]. specialize (Hx v Hv). lia. }
      exists (y :: M). rewrite HE, <- app_assoc. split; [done|]. split; [|split].
      * apply sorted_cons. split; [done|]. intros v Hv. apply Hin in Hv as [Hv|Hv]; auto.
      * intros v [->|Hv]%elem_of_cons; [right; left|]. apply Hin in Hv as [|]; [by left|right; by right].
      * rewrite series_cons, Hse, (series_cons y b), <- !map_union_assoc. f_equal.
        apply map_union_comm. apply map_disjoint_singleton_r.
        apply series_lookup_None. intros v Hv. specialize (Hya v Hv). lia.
Qed.

Lemma Merge_spec a b :
  exists r, Merge a b = Ok r /\ series r = series b ∪ series a /\
    ((a = [] -> sorted b) -> (b = [] -> sorted a) -> sorted r).
Proof.
  unfold Merge. destruct a as [|x0 a0] eqn:Ea.
  { exists b. rewrite series_nil, map_union_empty. split; [done|]. split; [done|]. auto. }
  destruct b as [|y0 b0] eqn:Eb.
  { exists a. subst a. rewrite series_nil, map_empty_union. split; [done|]. split; [done|]. auto. }
  rewrite <- Ea, <- Eb in *. destruct (Deduplicate_spec a) as (a' & -> & Ha & Hsa).
  destruct (Deduplicate_spec b) as (b' & -> & Hb & Hsb). cbn [mbind outcome_bind].
  rewrite <- Hsa, <- Hsb.
  assert (a' <> []) as Hna.
  { intros ->. rewrite series_nil in Hsa. symmetry in Hsa. rewrite Ea, series_cons in Hsa.
    apply (f_equal (.!! UnixNano x0)) in Hsa. rewrite lookup_empty in Hsa.
    apply lookup_union_None in Hsa as [_ Hc]. by rewrite lookup_singleton_eq in Hc. }
  assert (b' <> []) as Hnb.
  { intros ->. rewrite series_nil in Hsb. symmetry in Hsb. rewrite Eb, series_cons in Hsb.
    apply (f_equal (.!! UnixNano y0)) in Hsb. rewrite lookup_empty in Hsb.
    apply lookup_union_None in Hsb as [_ Hc]. by rewrite lookup_singleton_eq in Hc. }
  destruct (last a') as [xl|] eqn:Exl; [|by apply last_None in Exl].
  destruct (last b') as [yl|] eqn:Eyl; [|by apply last_None in Eyl].
  rewrite (MaxTime_last a' xl) by done. cbn [mbind outcome_bind].
  destruct a' as [|x at'] eqn:Ea'; [done|]. destruct b' as [|y bt'] eqn:Eb'; [done|].
  rewrite !MinTime_cons. cbn [mbind outcome_bind]. rewrite <- Ea', <- Eb' in *.
  assert (forall v, v ∈ a' -> UnixNano x <= UnixNano v <= UnixNano xl) as Hva.
  { intros v Hv. apply sorted_weakly in Ha. split; [|by apply (weakly_last a')].
    rewrite Ea' in Ha, Hv. by eapply weakly_head. }
  assert (forall v, v ∈ b' -> UnixNano y <= UnixNano v <= UnixNano yl) as Hvb.
  { intros v Hv. apply sorted_weakly in Hb. split; [|by apply (weakly_last b')].
    rewrite Eb' in Hb, Hv. by eapply weakly_head. }
  destruct (Z.ltb_spec (UnixNano xl) (UnixNano y)).
  { exists (a' ++ b'). split; [done|]. split; [apply series_app|]. intros _ _.
    apply sorted_app; [done..|]. intros u v Hu Hv. specialize (Hva u Hu). specialize (Hvb v Hv). lia. }
  rewrite (MaxTime_last b' yl) by done. cbn [mbind outcome_bind].
  cbn [mbind outcome_bind].
  destruct (Z.ltb_spec (UnixNano yl) (UnixNano x)).
  { assert (forall u v, u ∈ b' -> v ∈ a' -> UnixNano u < UnixNano v) as Hlt
      by (intros u v Hu Hv; specialize (Hva v Hv); specialize (Hvb u Hu); lia).
    exists (b' ++ a'). split; [done|]. split; [|intros _ _; by apply sorted_app].
    rewrite series_app. apply map_union_comm, map_disjoint_sym. by apply series_disjoint. }
  destruct (merge_loop_spec (S (length a' + length b')) a' b' []) as (M & HE & HM & _ & Hse);
    [done|done|lia|]. exists M. by rewrite HE.
Qed.

End Lemmas.

(** ** The value types of value.go

    A typed value is a pair of a timestamp and a raw value: an [int64] or a
    [uint64] (an integer), a [float64] (its 64 bits as an integer), a boolean, or
    the bytes of a string. *)
#[global] Instance word_value : Timestamped (Z * Z) := { UnixNano := fst; Size _ := 16 }.
#[global] Instance bool_value : Timestamped (Z * bool) := { UnixNano := fst; Size _ := 9 }.
#[global] Instance string_value : Timestamped (Z * list Z) :=
  { UnixNano := fst; Size v := 8 + Z.of_nat (length (snd v)) }.

(** The interface [types.Value] and its implementations. *)
Inductive Value :=
| FloatValue (unixNano value : Z)
| IntegerValue (unixNano value : Z)
| UnsignedValue (unixNano value : Z)
| BooleanValue (unixNano : Z) (value : bool)
| StringValue (unixNano : Z) (value : list Z)
| PtrValue (unixNano : Z) (value : list Z) (MinTime MaxTime : Z).

#[global] Instance any_value : Timestamped Value := {
  UnixNano v := match v with
    | FloatValue t _ | IntegerValue t _ | UnsignedValue t _ | BooleanValue t _ | StringValue t _ | PtrValue t _ _ _ => t
    end;
  Size v := match v with
    | FloatValue t x | IntegerValue t x | UnsignedValue t x => Size (t, x)
    | BooleanValue t x => Size (t, x)
    | StringValue t x => Size (t, x)
    | PtrValue _ x _ _ => Z.of_nat (length x) + 8
    end
}.

(** value_ptr.go *)
Definition NewPtrValueValue (min max : Z) (v : list Z) : Value := PtrValue min v min max.

(** The dynamic types [NewValue] accepts; it returns nil for any other. *)
Inductive raw :=
| raw_int64 (x : Z) | raw_uint64 (x : Z) | raw_float64 (x : Z) | raw_bool (x : bool)
| raw_string (x : list Z) | raw_bytes (x : list Z) | raw_other.

Definition NewValue (t : Z) (value : raw) : option Value :=
  match value with
  | raw_int64 v => Some (IntegerValue t v)
  | raw_uint64 v => Some (UnsignedValue t v)
  | raw_float64 v => Some (FloatValue t v)
  | raw_bool v => Some (BooleanValue t v)
  | raw_string v => Some (StringValue t v)
  | raw_bytes _ | raw_other => None
  end.

(** [Value()]. *)
Definition raw_of (v : Value) : raw :=
  match v with
  | FloatValue _ x => raw_float64 x
  | IntegerValue _ x => raw_int64 x
  | UnsignedValue _ x => raw_uint64 x
  | BooleanValue _ x => raw_bool x
  | StringValue _ x => raw_string x
  | PtrValue _ x _ _ => raw_bytes x
  end.

(** ** The generated copies of values.gen.go *)
Definition FloatValues_MinTime : list (Z * Z) -> outcome Z := MinTime.
Definition FloatValues_MaxTime : list (Z * Z) -> outcome Z := MaxTime.
Definition FloatValues_Size : list (Z * Z) -> Z := SizeOf.
Definition FloatValues_ordered : list (Z * Z) -> bool := ordered.
Definition FloatValues_assertOrdered : list (Z * Z) -> outcome unit := assertOrdered.
Definition FloatValues_Deduplicate : list (Z * Z) -> outcome (list (Z * Z)) := Deduplicate.
Definition FloatValues_Exclude : list (Z * Z) -> Z -> Z -> outcome (list (Z * Z)) := Exclude.
Definition FloatValues_Include : list (Z * Z) -> Z -> Z -> outcome (list (Z * Z)) := Include.
Definition FloatValues_search : list (Z * Z) -> Z -> outcome nat := search.
Definition FloatValues_FindRange : list (Z * Z) -> Z -> Z -> outcome (Z * Z) := FindRange.
Definition FloatValues_Merge : list (Z * Z) -> list (Z * Z) -> outcome (list (Z * Z)) := Merge.
Definition FloatValues_Swap : list (Z * Z) -> nat -> nat -> outcome (list (Z * Z)) := Swap.
Definition FloatValues_Less : list (Z * Z) -> nat -> nat -> outcome bool := Less.

Definition IntegerValues_MinTime : list (Z * Z) -> outcome Z := MinTime.
Definition IntegerValues_MaxTime : list (Z * Z) -> outcome Z := MaxTime.
Definition IntegerValues_Size : list (Z * Z) -> Z := SizeOf.
Definition IntegerValues_ordered : list (Z * Z) -> bool := ordered.
Definition IntegerValues_assertOrdered : list (Z * Z) -> outcome unit := assertOrdered.
Definition IntegerValues_Deduplicate : list (Z * Z) -> outcome (list (Z * Z)) := Deduplicate.
Definition IntegerValues_Exclude : list (Z * Z) -> Z -> Z -> outcome (list (Z * Z)) := Exclude.
Definition IntegerValues_Include : list (Z * Z) -> Z -> Z -> outcome (list (Z * Z)) := Include.
Definition IntegerValues_search : list (Z * Z) -> Z -> outcome nat := search.
Definition IntegerValues_FindRange : list (Z * Z) -> Z -> Z -> outcome (Z * Z) := FindRange.
Definition IntegerValues_Merge : list (Z * Z) -> list (Z * Z) -> outcome (list (Z * Z)) := Merge.
Definition IntegerValues_Swap : list (Z * Z) -> nat -> nat -> outcome (list (Z * Z)) := Swap.
Definition IntegerValues_Less : list (Z * Z) -> nat -> nat -> outcome bool := Less.

Definition UnsignedValues_MinTime : list (Z * Z) -> outcome Z := MinTime.
Definition UnsignedValues_MaxTime : list (Z * Z) -> outcome Z := MaxTime.
Definition UnsignedValues_Size : list (Z * Z) -> Z := SizeOf.
Definition UnsignedValues_ordered : list (Z * Z) -> bool := ordered.
Definition UnsignedValues_assertOrdered : list (Z * Z) -> outcome unit := assertOrdered.
Definition UnsignedValues_Deduplicate : list (Z * Z) -> outcome (list (Z * Z)) := Deduplicate.
Definition UnsignedValues_Exclude : list (Z * Z) -> Z -> Z -> outcome (list (Z * Z)) := Exclude.
Definition UnsignedValues_Include : list (Z * Z) -> Z -> Z -> outcome (list (Z * Z)) := Include.
Definition UnsignedValues_search : list (Z * Z) -> Z -> outcome nat := search.
Definition UnsignedValues_FindRange : list (Z * Z) -> Z -> Z -> outcome (Z * Z) := FindRange.
Definition UnsignedValues_Merge : list (Z * Z) -> list (Z * Z) -> outcome (list (Z * Z)) := Merge.
Definition UnsignedValues_Swap : list (Z * Z) -> nat -> nat -> outcome (list (Z * Z)) := Swap.
Definition UnsignedValues_Less : list (Z * Z) -> nat -> nat -> outcome bool := Less.

Definition StringValues_MinTime : list (Z * list Z) -> outcome Z := MinTime.
Definition StringValues_MaxTime : list (Z * list Z) -> outcome Z := MaxTime.
Definition StringValues_Size : list (Z * list Z) -> Z := SizeOf.
Definition StringValues_ordered : list (Z * list Z) -> bool := ordered.
Definition StringValues_assertOrdered : list (Z * list Z) -> outcome unit := assertOrdered.
Definition StringValues_Deduplicate : list (Z * list Z) -> outcome (list (Z * list Z)) := Deduplicate.
Definition StringValues_Exclude : list (Z * list Z) -> Z -> Z -> outcome (list (Z * list Z)) := Exclude.
Definition StringValues_Include : list (Z * list Z) -> Z -> Z -> outcome (list (Z * list Z)) := Include.
Definition StringValues_search : list (Z * list Z) -> Z -> outcome nat := search.
Definition StringValues_FindRange : list (Z * list Z) -> Z -> Z -> outcome (Z * Z) := FindRange.
Definition StringValues_Merge : list (Z * list Z) -> list (Z * list Z) -> outcome (list (Z * list Z)) := Merge.
Definition StringValues_Swap : list (Z * list Z) -> nat -> nat -> outcome (list (Z * list Z)) := Swap.
Definition StringValues_Less : list (Z * list Z) -> nat -> nat -> outcome bool := Less.

Definition BooleanValues_MinTime : list (Z * bool) -> outcome Z := MinTime.
Definition BooleanValues_MaxTime : list (Z * bool) -> outcome Z := MaxTime.
Definition BooleanValues_Size : list (Z * bool) -> Z := SizeOf.
Definition BooleanValues_ordered : list (Z * bool) -> bool := ordered.
Definition BooleanValues_assertOrdered : list (Z * bool) -> outcome unit := assertOrdered.
Definition BooleanValues_Deduplicate : list (Z * bool) -> outcome (list (Z * bool)) := Deduplicate.
Definition BooleanValues_Exclude : list (Z * bool) -> Z -> Z -> outcome (list (Z * bool)) := Exclude.
Definition BooleanValues_Include : list (Z * bool) -> Z -> Z -> outcome (list (Z * bool)) := Include.
Definition BooleanValues_search : list (Z * bool) -> Z -> outcome nat := search.
Definition BooleanValues_FindRange : list (Z * bool) -> Z -> Z -> outcome (Z * Z) := FindRange.
Definition BooleanValues_Merge : list (Z * bool) -> list (Z * bool) -> outcome (list (Z * bool)) := Merge.
Definition BooleanValues_Swap : list (Z * bool) -> nat -> nat -> outcome (list (Z * bool)) := Swap.
Definition BooleanValues_Less : list (Z * bool) -> nat -> nat -> outcome bool := Less.

(** * Theorems *)

(** [Deduplicate] puts any slice in canonical form: strictly increasing
    timestamps and the same content, the last value of each timestamp; a slice
    already in that form is returned as it is. *)
Theorem Deduplicate_canonical {V} `{Timestamped V} (a : list V) :
  exists r, Deduplicate a = Ok r /\ sorted r /\ series r = series a /\ (sorted a -> r = a).
Proof.
  destruct (Deduplicate_spec a) as (r & HE & Hs & Hse). exists r.
  split; [done|]. split; [done|]. split; [done|]. intros Ha. by apply sorted_ext.
Qed.

(** On a sorted slice the binary search terminates at the partition point of
    the timestamp: every value before it is earlier, none from it on is. *)
Theorem search_partition {V} `{Timestamped V} (a : list V) v :
  sorted a -> exists i, search a v = Ok i /\ (i <= length a)%nat /\
    (forall x, x ∈ take i a -> UnixNano x < v) /\ (forall x, x ∈ drop i a -> v <= UnixNano x).
Proof. intros Hs. apply search_spec. by apply sorted_weakly. Qed.

Lemma search_partition_witness :
  exists i, search [(1, 10); (5, 50); (9, 90)] 5 = Ok i /\ (i <= 3)%nat /\
    (forall x, x ∈ take i [(1, 10); (5, 50); (9, 90)] -> UnixNano x < 5) /\
    (forall x, x ∈ drop i [(1, 10); (5, 50); (9, 90)] -> 5 <= UnixNano x).
Proof.
  apply (search_partition [(1, 10); (5, 50); (9, 90)] 5). apply ordered_spec. reflexivity.
Defined.

(** on a sorted slice [Include] keeps exactly the values of the closed time
    range and [Exclude] exactly the others, in order, for every pair of bounds. *)
Theorem Include_Exclude_filter {V} `{Timestamped V} (a : list V) min max :
  sorted a ->
  Include a min max = Ok (filter (fun v => min <= UnixNano v <= max) a) /\
  Exclude a min max = Ok (filter (fun v => ~ (min <= UnixNano v <= max)) a).
Proof. intros Hs. split; [by apply Include_spec|by apply Exclude_spec]. Qed.

Lemma Include_Exclude_filter_witness :
  let a := [(1, true); (5, false); (9, true)] in
  Include a 2 9 = Ok (filter (fun v => 2 <= UnixNano v <= 9) a) /\
  Exclude a 2 9 = Ok (filter (fun v => ~ (2 <= UnixNano v <= 9)) a).
Proof.
  intros a. apply (Include_Exclude_filter a 2 9). apply ordered_spec. reflexivity.
Defined.

(** C30: [Merge] overlays its second argument on its first: the content of the
    result is the left-biased union, duplicates resolved, and the result is
    sorted whenever it was built from two nonempty slices or from sorted ones. *)
Theorem Merge_overlays {V} `{Timestamped V} (a b : list V) :
  exists r, Merge a b = Ok r /\ series r = series b ∪ series a /\
    ((a = [] -> sorted b) -> (b = [] -> sorted a) -> sorted r).
Proof. apply Merge_spec. Qed.

(** Merging sorted slices is associative and idempotent: the order in which
    overlapping blocks are merged does not matter as long as later ones stay on
    top, and merging a block twice changes nothing. *)
Theorem Merge_associative {V} `{Timestamped V} (a b c : list V) :
  sorted a -> sorted b -> sorted c ->
  (exists r, (ab ← Merge a b; Merge ab c) = Ok r /\ (bc ← Merge b c; Merge a bc) = Ok r) /\
  Merge a a = Ok a.
Proof.
  intros Ha Hb Hc. destruct (Merge_spec a b) as (ab & -> & Sab & Oab).
  destruct (Merge_spec b c) as (bc & -> & Sbc & Obc). cbn [mbind outcome_bind].
  destruct (Merge_spec ab c) as (r1 & -> & S1 & O1), (Merge_spec a bc) as (r2 & -> & S2 & O2).
  destruct (Merge_spec a a) as (r3 & -> & S3 & O3). split.
  - exists r1. split; [done|]. f_equal. apply sorted_ext; [auto..|].
    by rewrite S1, S2, Sab, Sbc, map_union_assoc.
  - f_equal. apply sorted_ext; [auto..|]. by rewrite S3, map_union_idemp.
Qed.

Lemma Merge_associative_witness :
  let a := [(1, 10); (3, 30)] in let b := [(2, 21); (3, 31)] in let c := [(3, 32); (4, 42)] in
  (exists r, (ab ← Merge a b; Merge ab c) = Ok r /\ (bc ← Merge b c; Merge a bc) = Ok r) /\
  Merge a a = Ok a.
Proof.
  intros a b c. apply (Merge_associative a b c); apply ordered_spec; reflexivity.
Defined.

End Values.
