(* ===== verification/ArrayValues.v ===== *)
(** Columns of time-stamped values (src/storage/types/arrayvalues.gen.go and
    arrayvalues.go): a [FloatArray] and the like are two slices of one length,
    the timestamps and the values; a [TimestampArray] has the timestamps only.

    The generated copies are instances of one set of definitions.  [rows] relates
    an array to the slice of its pairs, and the theorems show that the operations
    on sorted arrays implement those of Values.v on their rows. *)
From stdpp Require Import gmap sorting.
From S2P Require Import Prelude Values.
Import Values.

Module ArrayValues.

(** A bare timestamp, as the binary search sees it. *)
#[local] Instance time_value : Timestamped Z := { UnixNano t := t; Size _ := 8 }.

Record Array (A : Type) := MkArray { Timestamps : list Z; Values : list A }.
Arguments MkArray {A} Timestamps Values.
Arguments Timestamps {A} a.
Arguments Values {A} a.

(** ** Operations *)
Section Ops.
Context {A : Type} (zero : A).
Implicit Types a b : Array A.

Definition NewArrayLen (sz : nat) : Array A := MkArray (replicate sz 0) (replicate sz zero).

(** [New*ArrayFromValues]. *)
Definition NewArrayFromValues (v : list (Z * A)) : Array A := MkArray v.*1 v.*2.

Definition MinTime a : outcome Z := Values.MinTime (Timestamps a).
Definition MaxTime a : outcome Z := Values.MaxTime (Timestamps a).
Definition Len a : nat := length (Timestamps a).
Definition search a (v : Z) : outcome nat := Values.search (Timestamps a) v.
Definition FindRange a (min max : Z) : outcome (Z * Z) := Values.FindRange (Timestamps a) min max.

(** [xs := col[:rmin+rest]; copy(xs[rmin:], col[rmax:])]. *)
Definition cut_out {B} (col : list B) (rmin rmax rest : nat) : outcome (list B) :=
  xs ← subslice col 0 (rmin + rest);
  tl ← tail_from col rmax;
  Ok (splice xs rmin (take rest tl)).

(** [xs := col[:rmax-rmin]; copy(xs, col[rmin:rmax])]. *)
Definition keep {B} (col : list B) (rmin rmax : nat) : outcome (list B) :=
  xs ← subslice col 0 (rmax - rmin);
  s ← subslice col rmin rmax;
  Ok (splice xs 0 s).

Definition Exclude a (min max : Z) : outcome (Array A) :=
  '(rmin, rmax) ← FindRange a min max;
  if (rmin =? -1) && (rmax =? -1) then Ok a
  else
    let rmin := Z.to_nat rmin in
    let rmax := Z.to_nat rmax in
    let shorten := (ts ← subslice (Timestamps a) 0 rmin;
                    vs ← subslice (Values a) 0 rmin;
                    Ok (MkArray ts vs)) in
    if bool_decide (rmax < Len a)%nat then
      x ← index (Timestamps a) rmax;
      let rmax := if x =? max then S rmax else rmax in
      let rest := (Len a - rmax)%nat in
      if bool_decide (0 < rest)%nat then
        ts ← cut_out (Timestamps a) rmin rmax rest;
        vs ← cut_out (Values a) rmin rmax rest;
        Ok (MkArray ts vs)
      else shorten
    else shorten.

Definition Include a (min max : Z) : outcome (Array A) :=
  '(rmin, rmax) ← FindRange a min max;
  if (rmin =? -1) && (rmax =? -1) then Ok (MkArray [] [])
  else
    let rmin := Z.to_nat rmin in
    let rmax := Z.to_nat rmax in
    rmax ← (if bool_decide (rmax < Len a)%nat then
              x ← index (Timestamps a) rmax; Ok (if x =? max then S rmax else rmax)
            else Ok rmax);
    if bool_decide (rmax < rmin)%nat then Panic
    else
      ts ← keep (Timestamps a) rmin rmax;
      vs ← keep (Values a) rmin rmax;
      Ok (MkArray ts vs).

(** The merge loop, writing [out] at [k], and the copies that follow it. *)
Fixpoint merge_loop (fuel : nat) a b (out : Array A) (i j k : nat) : outcome (Array A) :=
  match fuel with
  | O => Panic
  | S fuel' =>
      let put x v i j :=
        ts ← store (Timestamps out) k x;
        vs ← store (Values out) k v;
        merge_loop fuel' a b (MkArray ts vs) i j (S k) in
      if bool_decide (i < length (Timestamps a))%nat && bool_decide (j < length (Timestamps b))%nat then
        ta ← index (Timestamps a) i;
        tb ← index (Timestamps b) j;
        if ta <? tb then va ← index (Values a) i; put ta va (S i) j
        else if ta =? tb then vb ← index (Values b) j; put tb vb (S i) (S j)
        else vb ← index (Values b) j; put tb vb i (S j)
      else
        let '(ts, vs) :=
          if bool_decide (i < length (Timestamps a))%nat
          then (drop i (Timestamps a), drop i (Values a))
          else if bool_decide (j < length (Timestamps b))%nat
          then (drop j (Timestamps b), drop j (Values b)) else ([], []) in
        let n := Nat.min (length ts) (length (Timestamps out) - k) in
        let outT := splice (Timestamps out) k (take n ts) in
        let outV := splice (Values out) k (take (length (Values out) - k) vs) in
        ts ← subslice outT 0 (k + n);
        vs ← subslice outV 0 (k + n);
        Ok (MkArray ts vs)
  end.

Definition Merge a b : outcome (Array A) :=
  if bool_decide (Len a = 0)%nat then Ok b
  else if bool_decide (Len b = 0)%nat then Ok a
  else
    amax ← MaxTime a;
    bmin ← MinTime b;
    if amax <? bmin
    then Ok (MkArray (Timestamps a ++ Timestamps b) (Values a ++ Values b))
    else
      bmax ← MaxTime b;
      amin ← MinTime a;
      if bmax <? amin
      then Ok (MkArray (Timestamps b ++ Timestamps a) (Values b ++ Values a))
      else merge_loop (S (Len a + Len b)) a b (NewArrayLen (Len a + Len b)) 0 0 0.

(** arrayvalues.go: [value_size] is the size of a value: 8 bytes, 1 for a boolean,
    the length of a string. *)
Definition SizeOf (value_size : A -> Z) a : Z :=
  foldl (fun sz v => sz + value_size v) (Z.of_nat (length (Timestamps a)) * 8) (Values a).

(** ** Specification *)
Definition rows a : list (Z * A) := zip (Timestamps a) (Values a).

(** Two columns of one length. *)
Definition array_ok a : Prop := length (Timestamps a) = length (Values a).

End Ops.

(** [TimestampArray]. *)
Definition TimestampArray_search (a : list Z) (v : Z) : outcome nat := Values.search a v.
Definition TimestampArray_FindRange (a : list Z) (min max : Z) : outcome (Z * Z) :=
  Values.FindRange a min max.
Definition TimestampArray_Exclude (a : list Z) (min max : Z) : outcome (list Z) :=
  Values.Exclude a min max.

Definition TimestampArray_Contains (a : list Z) (min max : Z) : outcome bool :=
  '(rmin, rmax) ← TimestampArray_FindRange a min max;
  if (rmin =? -1) && (rmax =? -1) then Ok false
  else
    x ← index a (Z.to_nat rmin);
    if x =? min then Ok true
    else if bool_decide (Z.to_nat rmax < length a)%nat then
      y ← index a (Z.to_nat rmax);
      if y =? max then Ok true else Ok (0 <? rmax - rmin)
    else Ok (0 <? rmax - rmin).

(** * Lemmas *)

(** ** Columns of rows *)
#[local] Instance row_value {A} : Timestamped (Z * A) := { UnixNano := fst; Size _ := 16 }.

Section Rows.
Context {A : Type}.
Implicit Types r s : list (Z * A).

Lemma rows_columns (a : Array A) : array_ok a -> NewArrayFromValues (rows a) = a.
Proof.
  unfold array_ok, NewArrayFromValues, rows. destruct a as [ts vs]. cbn. intros H.
  rewrite fst_zip, snd_zip by lia. done.
Qed.

Lemma index_fmap {B C} (f : B -> C) (l : list B) i : index (f <$> l) i = f <$> index l i.
Proof. unfold index. rewrite list_lookup_fmap. by destruct (l !! i). Qed.

Lemma subslice_fmap {B C} (f : B -> C) (l : list B) i j :
  subslice (f <$> l) i j = fmap (M:=list) f <$> subslice l i j.
Proof.
  unfold subslice. rewrite length_fmap. case_decide; [|done]. cbn.
  by rewrite fmap_drop, fmap_take.
Qed.

Lemma tail_from_fmap {B C} (f : B -> C) (l : list B) i :
  tail_from (f <$> l) i = fmap (M:=list) f <$> tail_from l i.
Proof. unfold tail_from. rewrite length_fmap. apply subslice_fmap. Qed.

Lemma splice_fmap {B C} (f : B -> C) (l new : list B) i :
  splice (f <$> l) i (f <$> new) = f <$> splice l i new.
Proof. unfold splice. by rewrite !fmap_app, fmap_take, fmap_drop, length_fmap. Qed.

Lemma MinTime_columns r : Values.MinTime r.*1 = Values.MinTime r.
Proof. unfold Values.MinTime. rewrite index_fmap. by destruct (index r 0). Qed.

Lemma MaxTime_columns r : Values.MaxTime r.*1 = Values.MaxTime r.
Proof.
  destruct r as [|x r]; [done|]. unfold Values.MaxTime. cbn [fmap list_fmap].
  change (x.1 :: r.*1) with ((x :: r).*1). rewrite length_fmap, index_fmap.
  by destruct (index (x :: r) _).
Qed.

Lemma search_loop_columns fuel r v lo hi :
  search_loop fuel r.*1 v lo hi = search_loop fuel r v lo hi.
Proof.
  revert lo hi. induction fuel as [|fuel IH]; intros lo hi; [done|]. cbn [search_loop].
  case_bool_decide; [|done]. rewrite index_fmap.
  destruct (index r _) as [x|e|]; [|done..]. cbn. by rewrite !IH.
Qed.

Lemma search_columns r v : Values.search r.*1 v = Values.search r v.
Proof. unfold Values.search. by rewrite length_fmap, search_loop_columns. Qed.

Lemma FindRange_columns r min max : Values.FindRange r.*1 min max = Values.FindRange r min max.
Proof.
  unfold Values.FindRange. by rewrite length_fmap, MinTime_columns, MaxTime_columns, !search_columns.
Qed.

Lemma cut_out_columns {B} (f : Z * A -> B) r rmin rmax :
  cut_out (f <$> r) rmin rmax (length r - rmax) =
    (b ← subslice r 0 (rmin + (length r - rmax)); tl ← tail_from r rmax; Ok (f <$> splice b rmin tl)).
Proof.
  unfold cut_out. rewrite subslice_fmap, tail_from_fmap.
  destruct (subslice r 0 _) as [b|e|]; [|done..]. cbn [mbind outcome_bind fmap outcome_fmap].
  unfold tail_from, subslice. case_decide; [|done]. cbn [mbind outcome_bind fmap outcome_fmap].
  rewrite <- fmap_take, take_ge by (rewrite length_drop, length_take; lia). by rewrite splice_fmap.
Qed.

Lemma keep_columns {B} (f : Z * A -> B) r rmin rmax :
  keep (f <$> r) rmin rmax =
    (b ← subslice r 0 (rmax - rmin); s ← subslice r rmin rmax; Ok (f <$> splice b 0 s)).
Proof.
  unfold keep. rewrite !subslice_fmap. destruct (subslice r 0 _) as [b|e|]; [|done..].
  cbn [mbind outcome_bind fmap outcome_fmap]. destruct (subslice r rmin rmax) as [s|e|]; [|done..].
  cbn [mbind outcome_bind fmap outcome_fmap]. by rewrite splice_fmap.
Qed.

Lemma Exclude_rows r min max :
  Exclude (NewArrayFromValues r) min max = NewArrayFromValues <$> Values.Exclude r min max.
Proof.
  unfold Exclude, Values.Exclude, FindRange. cbn [NewArrayFromValues Timestamps Values].
  rewrite FindRange_columns. destruct (Values.FindRange r min max) as [[rmin rmax]|e|]; [|done..].
  cbn [mbind outcome_bind]. destruct (_ && _); [done|]. unfold Len. change (Timestamps (NewArrayFromValues r)) with r.*1.
  rewrite length_fmap, !subslice_fmap.
  case_bool_decide.
  - rewrite index_fmap. destruct (index r _) as [x|e|]; [|done..].
    cbn [mbind outcome_bind fmap outcome_fmap]. change (UnixNano x) with x.1.
    set (rm := if x.1 =? max then _ else _). case_bool_decide.
    + rewrite !cut_out_columns. destruct (subslice r 0 (_ + _)) as [b|e|]; [|done..].
      cbn [mbind outcome_bind]. by destruct (tail_from r rm) as [tl|e|].
    + by destruct (subslice r 0 _).
  - by destruct (subslice r 0 _).
Qed.

Lemma Include_rows r min max :
  Include (NewArrayFromValues r) min max = NewArrayFromValues <$> Values.Include r min max.
Proof.
  unfold Include, Values.Include, FindRange. cbn [NewArrayFromValues Timestamps Values].
  rewrite FindRange_columns. destruct (Values.FindRange r min max) as [[rmin rmax]|e|]; [|done..].
  cbn [mbind outcome_bind]. destruct (_ && _); [done|]. unfold Len. change (Timestamps (NewArrayFromValues r)) with r.*1.
  rewrite length_fmap. set (rm := if bool_decide _ then x ← index r _; _ else _).
  assert ((if bool_decide (Z.to_nat rmax < length r)%nat
           then x ← index r.*1 (Z.to_nat rmax); Ok (if x =? max then S (Z.to_nat rmax) else Z.to_nat rmax)
           else Ok (Z.to_nat rmax)) = rm) as ->.
  { unfold rm. case_bool_decide; [|done]. rewrite index_fmap. by destruct (index r _). }
  destruct rm as [rm'|e|]; [|done..]. cbn [mbind outcome_bind]. case_bool_decide; [done|].
  rewrite !keep_columns. destruct (subslice r 0 _) as [b|e|]; [|done..].
  cbn [mbind outcome_bind]. by destruct (subslice r _ rm') as [s|e|].
Qed.

(** ** Merge *)
Fixpoint merged r : list (Z * A) -> list (Z * A) :=
  match r with
  | [] => fun s => s
  | x :: r' =>
      fix go s := match s with
        | [] => x :: r'
        | y :: s' =>
            if x.1 <? y.1 then x :: merged r' s
            else if x.1 =? y.1 then y :: merged r' s'
            else y :: go s'
        end
  end.

Lemma merged_nil_r r : merged r [] = r.
Proof. by destruct r. Qed.

Lemma merged_cons x r y s :
  merged (x :: r) (y :: s) =
    if x.1 <? y.1 then x :: merged r (y :: s)
    else if x.1 =? y.1 then y :: merged r s else y :: merged (x :: r) s.
Proof. done. Qed.

Lemma merged_spec r s :
  sorted r -> sorted s ->
  sorted (merged r s) /\ (forall v, v ∈ merged r s -> v ∈ r \/ v ∈ s) /\
  series (merged r s) = series s ∪ series r.
Proof.
  remember (length r + length s)%nat as n eqn:Hn. revert r s Hn.
  induction n as [n IH] using lt_wf_ind. intros r s Hn Hr Hs.
  destruct r as [|x r]; [cbn; rewrite map_union_empty; by auto|].
  destruct s as [|y s]; [rewrite merged_nil_r, series_nil, map_empty_union; by auto|].
  rewrite merged_cons. apply sorted_cons in Hr as Hr'. destruct Hr' as [Hr1 Hx].
  apply sorted_cons in Hs as Hs'. destruct Hs' as [Hs1 Hy]. cbn [length] in Hn.
  change (UnixNano x) with x.1 in Hx. change (UnixNano y) with y.1 in Hy.
  destruct (Z.ltb_spec x.1 y.1) as [Hlt|Hge]; [|destruct (Z.eqb_spec x.1 y.1) as [E|E]].
  - destruct (IH (length r + length (y :: s))%nat ltac:(cbn; lia) r (y :: s) eq_refl Hr1 Hs)
      as (H1 & H2 & H3). split; [|split].
    + apply sorted_cons. split; [done|]. intros v [Hv|[->|Hv]%elem_of_cons]%H2; [auto|done|].
      specialize (Hy v Hv). change (UnixNano ?z) with z.1. change (UnixNano v) with v.1 in Hy. lia.
    + intros v [->|Hv]%elem_of_cons; [left; left|]. apply H2 in Hv as [|]; [left; by right|by right].
    + by rewrite series_cons, H3, (series_cons x r), map_union_assoc.
  - destruct (IH (length r + length s)%nat ltac:(cbn; lia) r s eq_refl Hr1 Hs1) as (H1 & H2 & H3).
    split; [|split].
    + apply sorted_cons. split; [done|]. intros v [Hv|Hv]%H2; [|auto].
      specialize (Hx v Hv). change (UnixNano y) with y.1. lia.
    + intros v [->|Hv]%elem_of_cons; [right; left|]. apply H2 in Hv as [|]; [left|right]; by right.
    + rewrite series_cons, H3, (series_cons y s), (series_cons x r). apply map_eq. intros t.
      rewrite !lookup_union. change (UnixNano ?z) with z.1. rewrite E.
      destruct (decide (y.1 = t)) as [<-|Hne].
      * rewrite !lookup_singleton_eq.
        assert (series r !! y.1 = None) as ->.
        { apply series_lookup_None. intros v Hv. specialize (Hx v Hv). change (UnixNano v) with v.1 in *. lia. }
        by destruct (series s !! y.1).
      * rewrite !lookup_singleton_ne by done. by destruct (series s !! t), (series r !! t).
  - assert (forall v, v ∈ x :: r -> y.1 < v.1) as Hyr.
    { intros v [->|Hv]%elem_of_cons; [lia|]. specialize (Hx v Hv). change (UnixNano v) with v.1 in Hx. lia. }
    destruct (IH (length (x :: r) + length s)%nat ltac:(cbn; lia) (x :: r) s eq_refl Hr Hs1)
      as (H1 & H2 & H3). split; [|split].
    + apply sorted_cons. split; [done|]. intros v [Hv|Hv]%H2; [by apply Hyr|auto].
    + intros v [->|Hv]%elem_of_cons; [right; left|]. apply H2 in Hv as [|]; [by left|right; by right].
    + rewrite series_cons, H3, (series_cons y s), <- !map_union_assoc. f_equal.
      apply map_union_comm, map_disjoint_singleton_r, series_lookup_None.
      intros v Hv. specialize (Hyr v Hv). change (UnixNano ?z) with z.1. lia.
Qed.

(** One step of the loop. *)
Lemma put_prefix {B} (out : list B) k v :
  (k < length out)%nat ->
  store out k v = Ok (<[k := v]> out) /\ length (<[k := v]> out) = length out /\
  take (S k) (<[k := v]> out) = take k out ++ [v].
Proof.
  intros Hk. split; [by apply store_in_range|]. split; [apply length_insert|].
  rewrite (take_S_r _ k v) by (by apply list_lookup_insert_eq). by rewrite take_insert_ge.
Qed.

Lemma tail_copy {B} (out l : list B) k :
  (k + length l <= length out)%nat ->
  subslice (splice out k (take (length l) l)) 0 (k + length l) = Ok (take k out ++ l).
Proof.
  intros H. rewrite take_ge by lia. unfold subslice.
  rewrite decide_True by (rewrite splice_length by lia; lia). rewrite drop_0.
  by rewrite splice_take by lia.
Qed.

Lemma merge_loop_rows fuel r s (out : Array A) i j k :
  (i <= length r)%nat -> (j <= length s)%nat -> (length r - i + (length s - j) < fuel)%nat ->
  length (Timestamps out) = length (Values out) ->
  (k + (length r - i) + (length s - j) <= length (Timestamps out))%nat ->
  let M := merged (drop i r) (drop j s) in
  merge_loop fuel (NewArrayFromValues r) (NewArrayFromValues s) out i j k =
    Ok (MkArray (take k (Timestamps out) ++ M.*1) (take k (Values out) ++ M.*2)).
Proof.
  revert out i j k. induction fuel as [|fuel IH]; intros [outT outV] i j k Hi Hj Hf Hl Hk M; [lia|].
  cbn [Timestamps Values] in *. cbn [merge_loop NewArrayFromValues Timestamps Values].
  rewrite !length_fmap.
  destruct (decide (i < length r)%nat) as [Hir|Hir], (decide (j < length s)%nat) as [Hjs|Hjs].
  - rewrite !bool_decide_true by done. cbn [andb].
    destruct (lookup_lt_is_Some_2 r i Hir) as [x Hx], (lookup_lt_is_Some_2 s j Hjs) as [y Hy].
    rewrite !index_fmap, (index_lookup r i x), (index_lookup s j y) by done.
    cbn [mbind outcome_bind fmap outcome_fmap].
    unfold M. rewrite (drop_S r x i), (drop_S s y j), merged_cons by done.
    destruct (put_prefix outT k x.1) as (T1 & T2 & T3); [lia|].
    destruct (put_prefix outT k y.1) as (T1' & T2' & T3'); [lia|].
    destruct (put_prefix outV k x.2) as (V1 & V2 & V3); [lia|].
    destruct (put_prefix outV k y.2) as (V1' & V2' & V3'); [lia|].
    destruct (x.1 <? y.1); [|destruct (Z.eqb_spec x.1 y.1) as [E|E]].
    + rewrite T1, V1. cbn [mbind outcome_bind]. rewrite IH; cbn [Timestamps Values]; try lia.
      rewrite T3, V3, (drop_S s y j) by done. cbn [fmap list_fmap]. by rewrite <- !app_assoc.
    + rewrite T1', V1'. cbn [mbind outcome_bind]. rewrite IH; cbn [Timestamps Values]; try lia.
      rewrite T3', V3'. cbn [fmap list_fmap]. by rewrite <- !app_assoc.
    + rewrite T1', V1'. cbn [mbind outcome_bind]. rewrite IH; cbn [Timestamps Values]; try lia.
      rewrite T3', V3', (drop_S r x i) by done. cbn [fmap list_fmap]. by rewrite <- !app_assoc.
  - rewrite (bool_decide_true (i < _)%nat), (bool_decide_false (j < _)%nat) by done. cbn [andb].
    unfold M. rewrite (drop_ge s j), merged_nil_r by lia.
    rewrite <- !fmap_drop. set (l := drop i r). assert (length l = length r - i)%nat as Hll by apply length_drop.
    rewrite length_fmap, Nat.min_l by lia.
    rewrite <- (length_fmap fst l) at 1 2. rewrite tail_copy by (rewrite length_fmap; lia).
    cbn [mbind outcome_bind]. rewrite (take_ge _ (length outV - k)) by (rewrite length_fmap; lia).
    pose proof (tail_copy outV l.*2 k) as Ht. rewrite length_fmap, take_ge in Ht by (rewrite length_fmap; lia).
    by rewrite Ht by lia.
  - rewrite (bool_decide_false (i < _)%nat), (bool_decide_true (j < _)%nat) by done. cbn [andb].
    unfold M. rewrite (drop_ge r i) by lia. cbn [merged].
    rewrite <- !fmap_drop. set (l := drop j s). assert (length l = length s - j)%nat as Hll by apply length_drop.
    rewrite length_fmap, Nat.min_l by lia.
    rewrite <- (length_fmap fst l) at 1 2. rewrite tail_copy by (rewrite length_fmap; lia).
    cbn [mbind outcome_bind]. rewrite (take_ge _ (length outV - k)) by (rewrite length_fmap; lia).
    pose proof (tail_copy outV l.*2 k) as Ht. rewrite length_fmap, take_ge in Ht by (rewrite length_fmap; lia).
    by rewrite Ht by lia.
  - rewrite !bool_decide_false by done. cbn [andb length Nat.min].
    unfold M. rewrite (drop_ge r i), (drop_ge s j) by lia. cbn [merged fmap list_fmap].
    pose proof (tail_copy outT [] k) as H1. pose proof (tail_copy outV [] k) as H2.
    cbn [length] in H1, H2. rewrite take_nil in *. rewrite H1, H2 by lia. done.
Qed.

Lemma Deduplicate_sorted r : sorted r -> Deduplicate r = Ok r.
Proof.
  intros Hr. destruct (Deduplicate_spec r) as (r' & -> & Hs & Hse). f_equal. by apply sorted_ext.
Qed.

Lemma Merge_rows zero r s :
  sorted r -> sorted s ->
  Merge zero (NewArrayFromValues r) (NewArrayFromValues s) = NewArrayFromValues <$> Values.Merge r s.
Proof.
  intros Hr Hs. unfold Merge, Len, MaxTime, MinTime. cbn [NewArrayFromValues Timestamps].
  rewrite !length_fmap.
  destruct r as [|x r]; [done|]. rewrite bool_decide_false by (cbn; lia).
  destruct s as [|y s]; [done|]. rewrite bool_decide_false by (cbn; lia).
  set (R := x :: r) in *. set (S_ := y :: s) in *.
  change (Values.Merge R S_) with
    (a ← Deduplicate R; b ← Deduplicate S_; amax ← Values.MaxTime a; bmin ← Values.MinTime b;
     if amax <? bmin then Ok (a ++ b)
     else bmax ← Values.MaxTime b; amin ← Values.MinTime a;
          if bmax <? amin then Ok (b ++ a)
          else Values.merge_loop (S (length a + length b)) a b []).
  rewrite !Deduplicate_sorted by done. cbn [mbind outcome_bind].
  rewrite !MaxTime_columns, !MinTime_columns.
  destruct (Values.MaxTime R) as [amax|e|]; [|done..]. destruct (Values.MinTime S_) as [bmin|e|]; [|done..].
  cbn [mbind outcome_bind]. destruct (amax <? bmin).
  { cbn [fmap outcome_fmap]. unfold NewArrayFromValues. cbn [Timestamps Values]. by rewrite !fmap_app. }
  destruct (Values.MaxTime S_) as [bmax|e|]; [|done..]. destruct (Values.MinTime R) as [amin|e|]; [|done..].
  cbn [mbind outcome_bind]. destruct (bmax <? amin).
  { cbn [fmap outcome_fmap]. unfold NewArrayFromValues. cbn [Timestamps Values]. by rewrite !fmap_app. }
  rewrite merge_loop_rows; cbn [NewArrayLen Timestamps Values]; rewrite ?length_replicate; try lia.
  rewrite !take_0, !drop_0. cbn [app].
  destruct (merge_loop_spec (S (length R + length S_)) R S_ []) as (M & -> & HM & _ & HMs);
    [done|done|lia|]. destruct (merged_spec R S_ Hr Hs) as (Hg & _ & Hgs).
  cbn [app]. assert (merged R S_ = M) as ->; [|done]. apply sorted_ext; [done..|]. by rewrite Hgs, HMs.
Qed.
End Rows.

(** ** The generated copies *)
Definition NewFloatArrayLen : nat -> Array Z := NewArrayLen 0.
Definition NewFloatArrayFromValues : list (Z * Z) -> Array Z := NewArrayFromValues.
Definition FloatArray_MinTime : Array Z -> outcome Z := MinTime.
Definition FloatArray_MaxTime : Array Z -> outcome Z := MaxTime.
Definition FloatArray_Len : Array Z -> nat := Len.
Definition FloatArray_search : Array Z -> Z -> outcome nat := search.
Definition FloatArray_FindRange : Array Z -> Z -> Z -> outcome (Z * Z) := FindRange.
Definition FloatArray_Exclude : Array Z -> Z -> Z -> outcome (Array Z) := Exclude.
Definition FloatArray_Include : Array Z -> Z -> Z -> outcome (Array Z) := Include.
Definition FloatArray_Merge : Array Z -> Array Z -> outcome (Array Z) := Merge 0.
Definition FloatArray_Size : Array Z -> Z := SizeOf (fun _ => 8).

Definition NewIntegerArrayLen : nat -> Array Z := NewArrayLen 0.
Definition NewIntegerArrayFromValues : list (Z * Z) -> Array Z := NewArrayFromValues.
Definition IntegerArray_MinTime : Array Z -> outcome Z := MinTime.
Definition IntegerArray_MaxTime : Array Z -> outcome Z := MaxTime.
Definition IntegerArray_Len : Array Z -> nat := Len.
Definition IntegerArray_search : Array Z -> Z -> outcome nat := search.
Definition IntegerArray_FindRange : Array Z -> Z -> Z -> outcome (Z * Z) := FindRange.
Definition IntegerArray_Exclude : Array Z -> Z -> Z -> outcome (Array Z) := Exclude.
Definition IntegerArray_Include : Array Z -> Z -> Z -> outcome (Array Z) := Include.
Definition IntegerArray_Merge : Array Z -> Array Z -> outcome (Array Z) := Merge 0.
Definition IntegerArray_Size : Array Z -> Z := SizeOf (fun _ => 8).

Definition NewUnsignedArrayLen : nat -> Array Z := NewArrayLen 0.
Definition NewUnsignedArrayFromValues : list (Z * Z) -> Array Z := NewArrayFromValues.
Definition UnsignedArray_MinTime : Array Z -> outcome Z := MinTime.
Definition UnsignedArray_MaxTime : Array Z -> outcome Z := MaxTime.
Definition UnsignedArray_Len : Array Z -> nat := Len.
Definition UnsignedArray_search : Array Z -> Z -> outcome nat := search.
Definition UnsignedArray_FindRange : Array Z -> Z -> Z -> outcome (Z * Z) := FindRange.
Definition UnsignedArray_Exclude : Array Z -> Z -> Z -> outcome (Array Z) := Exclude.
Definition UnsignedArray_Include : Array Z -> Z -> Z -> outcome (Array Z) := Include.
Definition UnsignedArray_Merge : Array Z -> Array Z -> outcome (Array Z) := Merge 0.
Definition UnsignedArray_Size : Array Z -> Z := SizeOf (fun _ => 8).

Definition NewStringArrayLen : nat -> Array (list Z) := NewArrayLen [].
Definition NewStringArrayFromValues : list (Z * list Z) -> Array (list Z) := NewArrayFromValues.
Definition StringArray_MinTime : Array (list Z) -> outcome Z := MinTime.
Definition StringArray_MaxTime : Array (list Z) -> outcome Z := MaxTime.
Definition StringArray_Len : Array (list Z) -> nat := Len.
Definition StringArray_search : Array (list Z) -> Z -> outcome nat := search.
Definition StringArray_FindRange : Array (list Z) -> Z -> Z -> outcome (Z * Z) := FindRange.
Definition StringArray_Exclude : Array (list Z) -> Z -> Z -> outcome (Array (list Z)) := Exclude.
Definition StringArray_Include : Array (list Z) -> Z -> Z -> outcome (Array (list Z)) := Include.
Definition StringArray_Merge : Array (list Z) -> Array (list Z) -> outcome (Array (list Z)) := Merge [].
Definition StringArray_Size : Array (list Z) -> Z := SizeOf (fun s => Z.of_nat (length s)).

Definition NewBooleanArrayLen : nat -> Array bool := NewArrayLen false.
Definition NewBooleanArrayFromValues : list (Z * bool) -> Array bool := NewArrayFromValues.
Definition BooleanArray_MinTime : Array bool -> outcome Z := MinTime.
Definition BooleanArray_MaxTime : Array bool -> outcome Z := MaxTime.
Definition BooleanArray_Len : Array bool -> nat := Len.
Definition BooleanArray_search : Array bool -> Z -> outcome nat := search.
Definition BooleanArray_FindRange : Array bool -> Z -> Z -> outcome (Z * Z) := FindRange.
Definition BooleanArray_Exclude : Array bool -> Z -> Z -> outcome (Array bool) := Exclude.
Definition BooleanArray_Include : Array bool -> Z -> Z -> outcome (Array bool) := Include.
Definition BooleanArray_Merge : Array bool -> Array bool -> outcome (Array bool) := Merge false.
Definition BooleanArray_Size : Array bool -> Z := SizeOf (fun _ => 1).

(** * Theorems *)

(** C31: on two columns of one length, sorted or not, the searches, [Include] and
    [Exclude] of an array do to its rows what the functions on slices of values
    do, panics included; on sorted rows so does [Merge]. *)
Theorem array_implements_values {A} (zero : A) (a b : Array A) min max :
  array_ok a -> array_ok b ->
  search a min = Values.search (rows a) min /\
  FindRange a min max = Values.FindRange (rows a) min max /\
  Include a min max = NewArrayFromValues <$> Values.Include (rows a) min max /\
  Exclude a min max = NewArrayFromValues <$> Values.Exclude (rows a) min max /\
  (sorted (rows a) -> sorted (rows b) ->
   Merge zero a b = NewArrayFromValues <$> Values.Merge (rows a) (rows b)).
Proof.
  intros Ha Hb. split_and!;
    [rewrite <- (rows_columns a Ha) at 1; apply search_columns
    |rewrite <- (rows_columns a Ha) at 1; apply FindRange_columns
    |rewrite <- (rows_columns a Ha) at 1; apply Include_rows
    |rewrite <- (rows_columns a Ha) at 1; apply Exclude_rows|].
  intros Hra Hrb. rewrite <- (rows_columns a Ha) at 1. rewrite <- (rows_columns b Hb) at 1.
  by apply Merge_rows.
Qed.

Lemma array_implements_values_witness :
  let a := MkArray [1; 4; 9] [10; 40; 90] in
  let b := MkArray [4; 5] [41; 51] in
  search a 4 = Values.search (rows a) 4 /\
  FindRange a 4 8 = Values.FindRange (rows a) 4 8 /\
  Include a 4 8 = NewArrayFromValues <$> Values.Include (rows a) 4 8 /\
  Exclude a 4 8 = NewArrayFromValues <$> Values.Exclude (rows a) 4 8 /\
  (sorted (rows a) -> sorted (rows b) ->
   Merge 0 a b = NewArrayFromValues <$> Values.Merge (rows a) (rows b)).
Proof. intros a b. apply (array_implements_values 0 a b 4 8); reflexivity. Defined.

(** On sorted timestamps [Contains] says whether one of them is in the closed
    range. *)
Theorem Contains_spec (a : list Z) min max :
  sorted a ->
  exists c, TimestampArray_Contains a min max = Ok c /\
    (c = true <-> exists t, t ∈ a /\ min <= t <= max).
Proof.
  intros Hs. unfold TimestampArray_Contains, TimestampArray_FindRange.
  pose proof (sorted_weakly a Hs) as Hw.
  destruct (FindRange_cases a min max Hw) as [[-> Hno]|(i & j & HF & Hm & Hi & Hj)].
  { exists false. split; [done|]. split; [done|]. intros (t & Ht & Hr). by destruct (Hno t Ht). }
  assert (i < length a)%nat as Hil.
  { destruct (Nat.le_gt_cases (length a) i) as [Hge|]; [|done]. exfalso.
    destruct Hi as (_ & Hi & _). rewrite take_ge in Hi by done. revert HF. unfold Values.FindRange.
    destruct (last a) as [x|] eqn:El; [|apply last_None in El; subst a; cbn; intros [=]; lia].
    case_bool_decide; [cbn; intros [=]; lia|]. rewrite (proj2 (Z.ltb_ge max min)) by done. cbn [orb].
    rewrite (MaxTime_last a x El). destruct (Values.MinTime a); [|done..]. cbn [mbind outcome_bind].
    rewrite (proj2 (Z.ltb_lt _ min)); [cbn; intros [=]; lia|].
    apply Hi. rewrite last_lookup in El. by eapply list_elem_of_lookup_2. }
  rewrite HF. cbn [mbind outcome_bind]. rewrite (proj2 (Z.eqb_neq _ (-1))) by lia. cbn [andb].
  rewrite !Nat2Z.id. destruct (lookup_lt_is_Some_2 a i Hil) as [x Hx].
  rewrite (index_lookup a i x) by done. cbn [mbind outcome_bind].
  destruct (past_spec a min max i j Hs Hm Hi Hj) as (Hij & H3 & H4).
  destruct Hi as (_ & H1 & H2).
  assert ((i < past a max j)%nat <-> exists t, t ∈ a /\ min <= t <= max) as Hiff.
  { split.
    - intros Hlt. exists x. split; [by eapply list_elem_of_lookup_2|]. split.
      + apply H2. rewrite (drop_S a x i) by done. left.
      + apply H3. apply list_elem_of_lookup. exists i. by rewrite lookup_take_lt.
    - intros (t & Ht & Hr). destruct (Nat.lt_ge_cases i (past a max j)) as [|Hge]; [done|].
      rewrite <- (take_drop i a) in Ht. apply elem_of_app in Ht as [Ht|Ht].
      + specialize (H1 t Ht). change (UnixNano t) with t in H1. lia.
      + replace i with (past a max j) in Ht by lia. specialize (H4 t Ht).
        change (UnixNano t) with t in H4. lia. }
  assert (i <= j)%nat as Hijj.
  { destruct (Nat.le_gt_cases i j) as [|Hgt]; [done|]. exfalso. destruct Hj as (_ & _ & Hj).
    destruct (lookup_lt_is_Some_2 a j) as [z Hz]; [lia|].
    assert (max <= z) by (apply (Hj z); rewrite (drop_S a z j) by done; left).
    assert (z < min); [|lia]. apply (H1 z). apply list_elem_of_lookup. exists j. by rewrite lookup_take_lt. }
  assert (min <= x) as Hmx by (apply (H2 x); rewrite (drop_S a x i) by done; left).
  unfold past in *. destruct (Z.eqb_spec x min) as [->|Hne].
  { exists true. split; [done|]. split; [|done]. intros _. exists min.
    split; [by eapply list_elem_of_lookup_2|lia]. }
  case_bool_decide as Hjl.
  - destruct (lookup_lt_is_Some_2 a j Hjl) as [y Hy]. rewrite (index_lookup a j y) by done.
    rewrite Hy in Hiff. cbn [mbind outcome_bind]. change (UnixNano y) with y in Hiff.
    destruct (y =? max).
    + exists true. split; [done|]. rewrite <- Hiff. split; [lia|done].
    + eexists. split; [done|]. rewrite <- Hiff, Z.ltb_lt. lia.
  - rewrite lookup_ge_None_2 in Hiff by lia. eexists. split; [done|].
    rewrite <- Hiff, Z.ltb_lt. lia.
Qed.

Lemma Contains_spec_witness :
  exists c, TimestampArray_Contains [2; 7] 3 8 = Ok c /\
    (c = true <-> exists t, t ∈ [2; 7] /\ 3 <= t <= 8).
Proof. apply (Contains_spec [2; 7] 3 8). by apply ordered_spec. Defined.

End ArrayValues.
