(* ===== verification/Block.v ===== *)
(** Blocks (src/storage/codec/utils.go, pool.go, values.go, the block functions of
    int.go, bool.go and string.go, and src/pkg/pool/generic.go).

    A block is a type byte, the length of the encoded timestamps as a varint, the
    encoded timestamps and the encoded values.  The encoders and decoders come from
    pools and are used by the methods of [Codec.ValueEncoder] and
    [Codec.ValueDecoder] only; [block_codec] is proved once against
    [Codec.CodecLaws] and instantiated per type.  The float codec is a parameter of
    that interface, which [FloatLaws.Float_codec] implements over any library of bit
    streams. *)
From S2P Require Import Prelude Binary Simple8b Simple8bStream Codec Timestamp Integer Boolean StringCodec Float FloatLaws FloatArray FloatArrayLaws Values.
Import Buffer Values.

(** ** src/pkg/pool/generic.go

    The pool is a channel with room for [capacity] objects: [Get] takes the oldest
    one or calls [fn]; [Put] drops the object when the channel is full. *)
Module Pool.

Record Generic (A : Type) := MkGeneric { items : list A; capacity : nat }.
Arguments MkGeneric {A} items capacity.
Arguments items {A} g.
Arguments capacity {A} g.

Definition NewGeneric {A} (max : nat) : Generic A := MkGeneric [] max.

Definition Get {A} (fn : Z -> outcome A) (p : Generic A) (sz : Z) : outcome (A * Generic A) :=
  match items p with
  | x :: r => Ok (x, MkGeneric r (capacity p))
  | [] => x ← fn sz; Ok (x, p)
  end.

Definition Put {A} (p : Generic A) (x : A) : Generic A :=
  if bool_decide (length (items p) < capacity p)%nat
  then MkGeneric (items p ++ [x]) (capacity p) else p.

(** A pool all of whose objects satisfy [P]. *)
Definition all_ok {A} (P : A -> Prop) (p : Generic A) : Prop := Forall P (items p).

Lemma Get_ok {A} (P : A -> Prop) fn (p : Generic A) sz :
  all_ok P p -> (items p = [] -> exists x, fn sz = Ok x /\ P x) ->
  exists x p', Get fn p sz = Ok (x, p') /\ P x /\ all_ok P p'.
Proof.
  intros Hp Hfn. unfold Get, all_ok in *. destruct (items p) as [|x r] eqn:E.
  - destruct (Hfn eq_refl) as (y & Hy & HP). rewrite Hy. exists y, p. by rewrite E.
  - inversion Hp; subst. by exists x, (MkGeneric r (capacity p)).
Qed.

Lemma Put_ok {A} (P : A -> Prop) (p : Generic A) x : all_ok P p -> P x -> all_ok P (Put p x).
Proof.
  intros Hp Hx. unfold Put, all_ok in *. case_bool_decide; [|done]. cbn.
  apply Forall_app. by repeat constructor.
Qed.

Lemma Put_capacity {A} (p : Generic A) x :
  (length (items p) <= capacity p)%nat -> (length (items (Put p x)) <= capacity (Put p x))%nat.
Proof. intros H. unfold Put. case_bool_decide; cbn; rewrite ?length_app; cbn; lia. Qed.

End Pool.

Module Block.

Definition BlockFloat64 : Z := 0.
Definition BlockInteger : Z := 1.
Definition BlockBoolean : Z := 2.
Definition BlockString : Z := 3.
Definition BlockUnsigned : Z := 4.
Definition BlockValuePtrMask : Z := 128.
Definition encodedBlockHeaderSize : nat := 1.
Definition MaxVarintLen64 : nat := 10.

(** ** The type byte *)
Definition GetBaseType (b : Z) : Z := Z.ldiff b BlockValuePtrMask.
Definition WithPtrFlag (b : Z) : Z := Z.lor b BlockValuePtrMask.

Definition BlockType (block : list Z) : outcome Z :=
  b ← index block 0;
  let blockType := Z.ldiff b BlockValuePtrMask in
  if bool_decide (blockType ∈ [BlockFloat64; BlockInteger; BlockUnsigned; BlockBoolean; BlockString])
  then Ok blockType else Err "unknown block type".

Definition IsPtrBlock (block : list Z) : outcome bool :=
  b ← index block 0; Ok (negb (Z.land b BlockValuePtrMask =? 0)).

Definition PtrBlockCount (block : list Z) : outcome Z :=
  b ← index block 0; Ok (Z.ldiff b BlockValuePtrMask).

(** ** Packing *)
Definition packBlock (buf : slice Z) (typ : Z) (ts values : list Z) : slice Z :=
  let sz := (1 + MaxVarintLen64 + length ts + length values)%nat in
  let buf := if bool_decide (scap buf < sz)%nat then make_slice 0 sz sz else buf in
  let out := typ :: PutUvarint (Z.of_nat (length ts)) ++ ts ++ values in
  Slice (splice (backing buf) 0 out) (length out).

(** The index arithmetic is [int]'s: a huge length wraps. *)
Definition unpackBlock (buf : list Z) : outcome (list Z * list Z) :=
  let '(tsLen, i) := Uvarint buf in
  if i <=? 0 then Err "unpackBlock: unable to read timestamp block length"
  else
    let tsIdx := i64 (i + i64 tsLen) in
    if Z.of_nat (length buf) <? tsIdx then Err "unpackBlock: not enough data for timestamp"
    else if tsIdx <? 0 then Panic
    else
      ts ← subslice buf (Z.to_nat i) (Z.to_nat tsIdx);
      values ← tail_from buf (Z.to_nat tsIdx);
      Ok (ts, values).

Definition BlockCount (block : list Z) : outcome Z :=
  if bool_decide (length block <= encodedBlockHeaderSize)%nat then Err "count of short block"
  else
    rest ← tail_from block 1;
    match unpackBlock rest with
    | Ok (tb, _) => Timestamp.CountTimestamps tb
    | Err e => Err "BlockCount: error unpacking block"
    | Panic => Panic
    end.

(** ** Encoding and decoding with given encoders and decoders

    The block functions of the five types are the same code over the methods of
    their codec; [to_raw] and [of_raw] are the conversions of the unsigned ones. *)
Section Using.
Context {E D V W : Type} `{Codec.ValueEncoder E W, Codec.ValueDecoder D W}.
Context (to_raw : V -> W) (of_raw : W -> V).

Definition write_all (values : list (Z * V)) (st : Timestamp.encoder * E) : Timestamp.encoder * E :=
  foldl (fun '(te, ve) '(t, v) => (Codec.write te t, Codec.write ve (to_raw v))) st values.

Definition EncodeBlockUsing (typ : Z) (buf : slice Z) (values : list (Z * V))
    (tenc : Timestamp.encoder) (venc : E)
  : outcome (slice Z * Timestamp.encoder * E) :=
  tenc ← Codec.reset tenc;
  venc ← Codec.reset venc;
  let '(tenc, venc) := write_all values (tenc, venc) in
  '(tenc, tb) ← Codec.bytes tenc;
  '(venc, vb) ← Codec.bytes venc;
  Ok (packBlock buf typ tb vb, tenc, venc).

(** [for j < len(a) && tdec.Next() && vdec.Next() { a[j] = ...; j++ }]. *)
Fixpoint decode_loop (n : nat) (tdec : Timestamp.TimeDecoder) (vdec : D)
  : outcome (list (Z * V) * Timestamp.TimeDecoder * D) :=
  match n with
  | O => Ok ([], tdec, vdec)
  | S n' =>
      '(tdec, tok) ← Codec.next tdec;
      if tok : bool then
        '(vdec, vok) ← Codec.next vdec;
        if vok : bool then
          '(tdec, t) ← Codec.read tdec;
          '(vdec, v) ← Codec.read vdec;
          '(r, tdec, vdec) ← decode_loop n' tdec vdec;
          Ok ((t, of_raw v) :: r, tdec, vdec)
        else Ok ([], tdec, vdec)
      else Ok ([], tdec, vdec)
  end.

(** The type check and the split of a block. *)
Definition open_block (typ : Z) (block : list Z) : outcome (list Z * list Z) :=
  blockType ← index block 0;
  if negb (blockType =? typ) then Err "invalid block type"
  else rest ← tail_from block 1; unpackBlock rest.

(** The decoding of an opened block: the values and the first error. *)
Definition decode_values (tb vb : list Z) (sz : Z) (tdec : Timestamp.TimeDecoder) (vdec : D)
  : outcome (list (Z * V) * option string * Timestamp.TimeDecoder * D) :=
  tdec ← Codec.set_bytes tdec tb;
  vdec ← Codec.set_bytes vdec vb;
  '(a, tdec, vdec) ← decode_loop (Z.to_nat sz) tdec vdec;
  let err := match Codec.error tdec with Some e => Some e | None => Codec.error vdec end in
  Ok (a, err, tdec, vdec).

End Using.

(** * Lemmas *)
(** ** Packing *)
Lemma contents_packBlock buf typ ts values :
  contents (packBlock buf typ ts values) =
    typ :: PutUvarint (Z.of_nat (length ts)) ++ ts ++ values.
Proof.
  unfold packBlock, contents. cbn [slen backing].
  pose proof (splice_take (backing (if bool_decide
    (scap buf < 1 + MaxVarintLen64 + length ts + length values)%nat
    then make_slice 0 (1 + MaxVarintLen64 + length ts + length values)
           (1 + MaxVarintLen64 + length ts + length values) else buf)) 0
    (typ :: PutUvarint (Z.of_nat (length ts)) ++ ts ++ values) ltac:(lia)) as E.
  by rewrite take_0 in E.
Qed.

Lemma unpackBlock_packed ts values :
  Z.of_nat (length ts) < 2 ^ 62 ->
  unpackBlock (PutUvarint (Z.of_nat (length ts)) ++ ts ++ values) = Ok (ts, values).
Proof.
  intros Hlen. unfold unpackBlock. rewrite Uvarint_PutUvarint by (unfold is_u64; lia).
  set (u := PutUvarint _). pose proof (PutUvarint_length (Z.of_nat (length ts))) as Hu. fold u in Hu.
  rewrite (proj2 (Z.leb_gt _ 0)) by lia.
  rewrite (i64_small (Z.of_nat (length ts))), i64_small by (unfold is_i64; lia).
  rewrite (proj2 (Z.ltb_ge _ _)) by (rewrite !length_app; lia).
  rewrite (proj2 (Z.ltb_ge _ 0)) by lia.
  replace (Z.to_nat (Z.of_nat (length u) + Z.of_nat (length ts))) with (length (u ++ ts))
    by (rewrite length_app; lia).
  rewrite Nat2Z.id. unfold subslice. rewrite decide_True by (rewrite !length_app; lia).
  cbn [mbind outcome_bind]. rewrite app_assoc, take_app_length, drop_app_length.
  rewrite tail_from_Ok by (rewrite !length_app; lia). by rewrite drop_app_length.
Qed.

Lemma open_block_packed typ ts values :
  Z.of_nat (length ts) < 2 ^ 62 ->
  open_block typ (typ :: PutUvarint (Z.of_nat (length ts)) ++ ts ++ values) = Ok (ts, values).
Proof.
  intros H. unfold open_block. cbn [index lookup list_lookup mbind outcome_bind].
  rewrite Z.eqb_refl. cbn [negb]. rewrite tail_from_Ok by (cbn; lia).
  cbn [mbind outcome_bind drop]. rewrite drop_0. by apply unpackBlock_packed.
Qed.

Lemma BlockCount_packed typ ts values :
  Z.of_nat (length ts) < 2 ^ 62 ->
  BlockCount (typ :: PutUvarint (Z.of_nat (length ts)) ++ ts ++ values) =
    Timestamp.CountTimestamps ts.
Proof.
  intros H. unfold BlockCount. pose proof (PutUvarint_length (Z.of_nat (length ts))).
  rewrite bool_decide_false by (cbn [length]; rewrite length_app; unfold encodedBlockHeaderSize; lia).
  rewrite tail_from_Ok by (cbn; lia). cbn [mbind outcome_bind drop]. rewrite drop_0.
  by rewrite unpackBlock_packed.
Qed.

(** ** The generic block codec *)
Section UsingLaws.
Context {E D V W : Type} `{Codec.CodecLaws E D W}.
Context (to_raw : V -> W) (of_raw : W -> V).

Lemma write_all_split values te ve :
  write_all to_raw values (te, ve) =
    (Timestamp.write_times te values.*1, Codec.write_values ve (to_raw <$> values.*2)).
Proof.
  unfold write_all, Timestamp.write_times, Codec.write_values.
  revert te ve. induction values as [|[t v] r IH]; intros te ve; [done|]. cbn. by rewrite IH.
Qed.

Lemma decode_loop_yields values td vd :
  Codec.yields Timestamp.decoder_ok td values.*1 ->
  Codec.yields Codec.dec_usable vd (to_raw <$> values.*2) ->
  Forall (fun v => of_raw (to_raw v) = v) values.*2 ->
  exists td' vd', decode_loop of_raw (length values) td vd = Ok (values, td', vd') /\
    (Timestamp.decoder_ok td' /\ Codec.error td' = None) /\
    (Codec.dec_usable vd' /\ Codec.error vd' = None).
Proof.
  revert td vd. induction values as [|[t v] r IH]; intros td vd Ht Hv Hr.
  - apply Codec.yields_start in Ht, Hv. by exists td, vd.
  - cbn [fmap list_fmap fst snd] in Ht, Hv, Hr. inversion Hr as [|? ? Hr1 Hr2]; subst.
    destruct Ht as (_ & _ & td1 & td2 & Hn & Hrd & Hy), Hv as (_ & _ & vd1 & vd2 & Hnv & Hrv & Hyv).
    destruct (IH td2 vd2 Hy Hyv Hr2) as (td' & vd' & HE & Hok).
    exists td', vd'. split; [|done]. cbn [decode_loop length].
    rewrite Hn. cbn [mbind outcome_bind]. rewrite Hnv. cbn [mbind outcome_bind].
    rewrite Hrd. cbn [mbind outcome_bind]. rewrite Hrv. cbn [mbind outcome_bind].
    rewrite HE. cbn [mbind outcome_bind]. by rewrite Hr1.
Qed.

(** Lists of values a block of this codec can hold. *)
Definition block_values_ok (values : list (Z * V)) : Prop :=
  values <> [] /\ Forall is_i64 values.*1 /\ Codec.valid (to_raw <$> values.*2) /\
  Forall (fun v => of_raw (to_raw v) = v) values.*2 /\ Z.of_nat (length values) < 2 ^ 56.

Lemma block_codec typ buf values tenc venc tdec vdec :
  block_values_ok values -> Timestamp.encoder_ok tenc -> Codec.enc_usable venc ->
  Timestamp.decoder_ok tdec -> Codec.dec_usable vdec ->
  exists s tenc' venc' tb vb tdec' vdec',
    EncodeBlockUsing to_raw typ buf values tenc venc = Ok (s, tenc', venc') /\
    Timestamp.encoder_ok tenc' /\ Codec.enc_usable venc' /\
    contents s = typ :: PutUvarint (Z.of_nat (length tb)) ++ tb ++ vb /\
    Z.of_nat (length tb) < 2 ^ 62 /\
    Timestamp.CountTimestamps tb = Ok (Z.of_nat (length values)) /\
    decode_values of_raw tb vb (Z.of_nat (length values)) tdec vdec =
      Ok (values, None, tdec', vdec') /\
    Timestamp.decoder_ok tdec' /\ Codec.dec_usable vdec'.
Proof.
  intros (Hne & Ht & Hv & Hr & Hlen) Hte Hve Htd Hvd.
  assert (values.*1 <> []) as Hne1 by (by destruct values).
  assert (to_raw <$> values.*2 <> []) as Hne2 by (by destruct values).
  destruct (Timestamp.encode_times tenc values.*1 Hte Hne1 Ht) as
    (te0 & te1 & tb & HR & HB & Hok & Hlb & _ & _ & Hc & Hdec); [rewrite length_fmap; lia|].
  destruct (Codec.codec_roundtrip venc vdec (to_raw <$> values.*2) Hve Hvd Hne2 Hv) as
    (ve0 & ve1 & vb & vd' & HRv & HBv & Hokv & _ & HSv & Hyv); [rewrite !length_fmap; lia|].
  destruct (Hdec tdec Htd) as (td' & HI & Hy & Htd').
  destruct (decode_loop_yields values td' vd' (Timestamp.yields_interface _ _ Htd' Hy) Hyv Hr)
    as (td'' & vd'' & HL & [Hok1 He1] & [Hok2 He2]).
  eexists _, te1, ve1, tb, vb, td'', vd''. split.
  - unfold EncodeBlockUsing. cbn [Codec.reset Codec.bytes Timestamp.TimeEncoder_methods].
    rewrite HR. cbn [mbind outcome_bind]. rewrite HRv. cbn [mbind outcome_bind].
    rewrite write_all_split, HB. cbn [mbind outcome_bind]. rewrite HBv.
    cbn [mbind outcome_bind]. reflexivity.
  - split; [done|]. split; [done|]. split; [apply contents_packBlock|].
    rewrite length_fmap in Hc, Hlb. split; [lia|]. split; [done|]. split; [|done].
    unfold decode_values. cbn [Codec.set_bytes Timestamp.TimeDecoder_methods].
    rewrite HI. cbn [mbind outcome_bind]. rewrite HSv. cbn [mbind outcome_bind].
    rewrite Nat2Z.id, HL. cbn [mbind outcome_bind]. by rewrite He1, He2.
Qed.

End UsingLaws.

(** ** Pools of src/storage/codec/pool.go *)
Section Pools.
Context {FE FD : Type} {FloatE : Codec.ValueEncoder FE Z} {FloatD : Codec.ValueDecoder FD Z}.
Context (NewFloatEncoder : FE) (NewFloatDecoder : FD).
Context (sn : StringCodec.snappy).

#[local] Instance string_encoder : Codec.ValueEncoder StringCodec.StringEncoder (list Z) :=
  StringCodec.StringEncoder_methods sn.
#[local] Instance string_decoder : Codec.ValueDecoder StringCodec.StringDecoder (list Z) :=
  StringCodec.StringDecoder_methods sn.

Record pools := MkPools {
  timeEncoderPool : Pool.Generic Timestamp.encoder;
  integerEncoderPool : Pool.Generic Integer.IntegerEncoder;
  floatEncoderPool : Pool.Generic FE;
  stringEncoderPool : Pool.Generic StringCodec.StringEncoder;
  booleanEncoderPool : Pool.Generic Boolean.BooleanEncoder;
  timeDecoderPool : Pool.Generic Timestamp.TimeDecoder;
  integerDecoderPool : Pool.Generic Integer.IntegerDecoder;
  floatDecoderPool : Pool.Generic FD;
  stringDecoderPool : Pool.Generic StringCodec.StringDecoder;
  booleanDecoderPool : Pool.Generic Boolean.BooleanDecoder
}.

(** The pools at start-up, for [ncpu] processors. *)
Definition init_pools (ncpu : nat) : pools :=
  let p {A} : Pool.Generic A := Pool.NewGeneric ncpu in
  MkPools p p p p p p p p p p.

(** [Get*Encoder]: an object of the pool, reset. *)
Definition get_encoder {A W} `{Codec.ValueEncoder A W} (fn : Z -> outcome A)
    (p : Pool.Generic A) (sz : Z) : outcome (A * Pool.Generic A) :=
  '(x, p) ← Pool.Get fn p sz;
  x ← Codec.reset x;
  Ok (x, p).

Definition GetTimeEncoder := get_encoder (fun sz => Ok (Timestamp.NewTimeEncoder (Z.to_nat sz))).
Definition GetIntegerEncoder := get_encoder (fun sz => Ok (Integer.NewIntegerEncoder (Z.to_nat sz))).
Definition GetUnsignedEncoder := GetIntegerEncoder.
Definition GetFloatEncoder := get_encoder (fun _ => Ok NewFloatEncoder).
Definition GetStringEncoder := get_encoder StringCodec.NewStringEncoder.
Definition GetBooleanEncoder := get_encoder (fun sz => Ok (Boolean.NewBooleanEncoder (Z.to_nat sz))).

(** The block functions, over the pools of their value encoder and decoder.  The
    value encoders are structs passed by value: what goes back to the pool is the
    reset object, not the one written to.  A block function that returns an error
    also returns its objects to the pools; the model keeps no pools then. *)
Section Typed.
Context {E D V W : Type} `{Codec.ValueEncoder E W, Codec.ValueDecoder D W}.
Context (typ : Z) (of_raw : W -> V).
Context (newE : Z -> outcome E) (newD : D).

Definition encode_block
    (encode_using : slice Z -> list Value -> Timestamp.encoder -> E -> outcome (slice Z * Timestamp.encoder * E))
    (byvalue : bool) (szv : Z) (buf : slice Z) (values : list Value)
    (pt : Pool.Generic Timestamp.encoder) (pv : Pool.Generic E)
  : outcome (slice Z * Pool.Generic Timestamp.encoder * Pool.Generic E) :=
  '(tenc, pt) ← GetTimeEncoder pt (Z.of_nat (length values));
  '(venc, pv) ← get_encoder newE pv szv;
  '(b, tenc', venc') ← encode_using buf values tenc venc;
  Ok (b, Pool.Put pt tenc', Pool.Put pv (if byvalue then venc else venc')).

Definition decode_block (block : list Z)
    (pt : Pool.Generic Timestamp.TimeDecoder) (pv : Pool.Generic D)
  : outcome (list (Z * V) * option string * Pool.Generic Timestamp.TimeDecoder * Pool.Generic D) :=
  '(tb, vb) ← open_block typ block;
  sz ← Timestamp.CountTimestamps tb;
  if sz <? 0 then Panic
  else
    '(tdec, pt) ← Pool.Get (fun _ => Ok Timestamp.NewTimeDecoder) pt 0;
    '(vdec, pv) ← Pool.Get (fun _ => Ok newD) pv 0;
    '(a, err, tdec, vdec) ← decode_values of_raw tb vb sz tdec vdec;
    Ok (a, err, Pool.Put pt tdec, Pool.Put pv vdec).

End Typed.

(** ** The five types *)

(** [v.(types.IntegerValue)] and the like panic on another type. *)
Definition as_float (v : Value) : outcome (Z * Z) :=
  match v with FloatValue t x => Ok (t, x) | _ => Panic end.
Definition as_integer (v : Value) : outcome (Z * Z) :=
  match v with IntegerValue t x => Ok (t, x) | _ => Panic end.
Definition as_unsigned (v : Value) : outcome (Z * Z) :=
  match v with UnsignedValue t x => Ok (t, x) | _ => Panic end.
Definition as_boolean (v : Value) : outcome (Z * bool) :=
  match v with BooleanValue t x => Ok (t, x) | _ => Panic end.
Definition as_string (v : Value) : outcome (Z * list Z) :=
  match v with StringValue t x => Ok (t, x) | _ => Panic end.

Definition EncodeIntegerBlockUsing (buf : slice Z) (values : list Value)
    (tenc : Timestamp.encoder) (venc : Integer.IntegerEncoder)
  : outcome (slice Z * Timestamp.encoder * Integer.IntegerEncoder) :=
  vs ← mapM as_integer values; EncodeBlockUsing (fun v => v) BlockInteger buf vs tenc venc.

Definition EncodeUnsignedBlockUsing (buf : slice Z) (values : list Value)
    (tenc : Timestamp.encoder) (venc : Integer.IntegerEncoder)
  : outcome (slice Z * Timestamp.encoder * Integer.IntegerEncoder) :=
  vs ← mapM as_unsigned values; EncodeBlockUsing i64 BlockUnsigned buf vs tenc venc.

Definition EncodeBooleanBlockUsing (buf : slice Z) (values : list Value)
    (tenc : Timestamp.encoder) (venc : Boolean.BooleanEncoder)
  : outcome (slice Z * Timestamp.encoder * Boolean.BooleanEncoder) :=
  vs ← mapM as_boolean values; EncodeBlockUsing (fun v => v) BlockBoolean buf vs tenc venc.

Definition EncodeStringBlockUsing (buf : slice Z) (values : list Value)
    (tenc : Timestamp.encoder) (venc : StringCodec.StringEncoder)
  : outcome (slice Z * Timestamp.encoder * StringCodec.StringEncoder) :=
  vs ← mapM as_string values; EncodeBlockUsing (fun v => v) BlockString buf vs tenc venc.

Definition EncodeFloatBlockUsing (buf : slice Z) (values : list Value)
    (tenc : Timestamp.encoder) (venc : FE)
  : outcome (slice Z * Timestamp.encoder * FE) :=
  vs ← mapM as_float values; EncodeBlockUsing (fun v => v) BlockFloat64 buf vs tenc venc.

(** The raw variant of the compactor: neither column is compressed. *)
Definition EncodeRawStringBlockUsing (buf : slice Z) (values : list Value)
    (tenc : Timestamp.encoder) (venc : StringCodec.StringEncoder)
  : outcome (slice Z * Timestamp.encoder * StringCodec.StringEncoder) :=
  vs ← mapM as_string values;
  tenc ← Codec.reset tenc;
  venc ← Codec.reset venc;
  let '(tenc, venc) := write_all (fun v => v) vs (tenc, venc) in
  let '(tenc, tb) := Timestamp.RawBytes tenc in
  '(venc, vb) ← StringCodec.RawBytes venc;
  Ok (packBlock buf BlockString tb vb, tenc, venc).

Definition EncodeIntegerBlock (buf : slice Z) (values : list Value) (ps : pools)
  : outcome (slice Z * pools) :=
  '(b, pt, pv) ← encode_block (fun sz => Ok (Integer.NewIntegerEncoder (Z.to_nat sz)))
      EncodeIntegerBlockUsing true
    (Z.of_nat (length values)) buf values (timeEncoderPool ps) (integerEncoderPool ps);
  Ok (b, MkPools pt pv (floatEncoderPool ps) (stringEncoderPool ps) (booleanEncoderPool ps)
    (timeDecoderPool ps) (integerDecoderPool ps) (floatDecoderPool ps) (stringDecoderPool ps)
    (booleanDecoderPool ps)).

Definition EncodeUnsignedBlock (buf : slice Z) (values : list Value) (ps : pools)
  : outcome (slice Z * pools) :=
  '(b, pt, pv) ← encode_block (fun sz => Ok (Integer.NewIntegerEncoder (Z.to_nat sz)))
      EncodeUnsignedBlockUsing true
    (Z.of_nat (length values)) buf values (timeEncoderPool ps) (integerEncoderPool ps);
  Ok (b, MkPools pt pv (floatEncoderPool ps) (stringEncoderPool ps) (booleanEncoderPool ps)
    (timeDecoderPool ps) (integerDecoderPool ps) (floatDecoderPool ps) (stringDecoderPool ps)
    (booleanDecoderPool ps)).

Definition EncodeBooleanBlock (buf : slice Z) (values : list Value) (ps : pools)
  : outcome (slice Z * pools) :=
  if bool_decide (length values = 0)%nat then Ok (nil_slice, ps)
  else
    '(b, pt, pv) ← encode_block (fun sz => Ok (Boolean.NewBooleanEncoder (Z.to_nat sz)))
      EncodeBooleanBlockUsing true
      (Z.of_nat (length values)) buf values (timeEncoderPool ps) (booleanEncoderPool ps);
    Ok (b, MkPools pt (integerEncoderPool ps) (floatEncoderPool ps) (stringEncoderPool ps) pv
      (timeDecoderPool ps) (integerDecoderPool ps) (floatDecoderPool ps) (stringDecoderPool ps)
      (booleanDecoderPool ps)).

Definition EncodeStringBlock (buf : slice Z) (values : list Value) (ps : pools)
  : outcome (slice Z * pools) :=
  v0 ← index values 0;
  '(_, s0) ← as_string v0;
  '(b, pt, pv) ← encode_block StringCodec.NewStringEncoder
      EncodeStringBlockUsing true
    (Z.of_nat (length values) * Z.of_nat (length s0)) buf values
    (timeEncoderPool ps) (stringEncoderPool ps);
  Ok (b, MkPools pt (integerEncoderPool ps) (floatEncoderPool ps) pv (booleanEncoderPool ps)
    (timeDecoderPool ps) (integerDecoderPool ps) (floatDecoderPool ps) (stringDecoderPool ps)
    (booleanDecoderPool ps)).

Definition EncodeFloatBlock (buf : slice Z) (values : list Value) (ps : pools)
  : outcome (slice Z * pools) :=
  if bool_decide (length values = 0)%nat then Ok (nil_slice, ps)
  else
    '(b, pt, pv) ← encode_block (fun _ => Ok NewFloatEncoder)
      EncodeFloatBlockUsing false
      (Z.of_nat (length values)) buf values (timeEncoderPool ps) (floatEncoderPool ps);
    Ok (b, MkPools pt (integerEncoderPool ps) pv (stringEncoderPool ps) (booleanEncoderPool ps)
      (timeDecoderPool ps) (integerDecoderPool ps) (floatDecoderPool ps) (stringDecoderPool ps)
      (booleanDecoderPool ps)).

(** src/storage/codec/values.go *)
Definition EncodeValues (a : list Value) (buf : slice Z) (ps : pools)
  : outcome (slice Z * pools) :=
  match a with
  | [] => Panic
  | FloatValue _ _ :: _ => EncodeFloatBlock buf a ps
  | IntegerValue _ _ :: _ => EncodeIntegerBlock buf a ps
  | UnsignedValue _ _ :: _ => EncodeUnsignedBlock buf a ps
  | BooleanValue _ _ :: _ => EncodeBooleanBlock buf a ps
  | StringValue _ _ :: _ => EncodeStringBlock buf a ps
  | PtrValue _ _ _ _ :: _ => Err "unsupported value type"
  end.

Definition DecodeFloatBlock (block : list Z) (ps : pools)
  : outcome (list (Z * Z) * option string * pools) :=
  '(a, err, pt, pv) ← decode_block BlockFloat64 (fun v => v) NewFloatDecoder block
    (timeDecoderPool ps) (floatDecoderPool ps);
  Ok (a, err, MkPools (timeEncoderPool ps) (integerEncoderPool ps) (floatEncoderPool ps)
    (stringEncoderPool ps) (booleanEncoderPool ps) pt (integerDecoderPool ps) pv
    (stringDecoderPool ps) (booleanDecoderPool ps)).

Definition DecodeIntegerBlock (block : list Z) (ps : pools)
  : outcome (list (Z * Z) * option string * pools) :=
  '(a, err, pt, pv) ← decode_block BlockInteger (fun v => v) Integer.NewIntegerDecoder block
    (timeDecoderPool ps) (integerDecoderPool ps);
  Ok (a, err, MkPools (timeEncoderPool ps) (integerEncoderPool ps) (floatEncoderPool ps)
    (stringEncoderPool ps) (booleanEncoderPool ps) pt pv (floatDecoderPool ps)
    (stringDecoderPool ps) (booleanDecoderPool ps)).

Definition DecodeUnsignedBlock (block : list Z) (ps : pools)
  : outcome (list (Z * Z) * option string * pools) :=
  '(a, err, pt, pv) ← decode_block BlockUnsigned u64 Integer.NewIntegerDecoder block
    (timeDecoderPool ps) (integerDecoderPool ps);
  Ok (a, err, MkPools (timeEncoderPool ps) (integerEncoderPool ps) (floatEncoderPool ps)
    (stringEncoderPool ps) (booleanEncoderPool ps) pt pv (floatDecoderPool ps)
    (stringDecoderPool ps) (booleanDecoderPool ps)).

Definition DecodeBooleanBlock (block : list Z) (ps : pools)
  : outcome (list (Z * bool) * option string * pools) :=
  '(a, err, pt, pv) ← decode_block BlockBoolean (fun v => v) Boolean.NewBooleanDecoder block
    (timeDecoderPool ps) (booleanDecoderPool ps);
  Ok (a, err, MkPools (timeEncoderPool ps) (integerEncoderPool ps) (floatEncoderPool ps)
    (stringEncoderPool ps) (booleanEncoderPool ps) pt (integerDecoderPool ps)
    (floatDecoderPool ps) (stringDecoderPool ps) pv).

Definition DecodeStringBlock (block : list Z) (ps : pools)
  : outcome (list (Z * list Z) * option string * pools) :=
  '(a, err, pt, pv) ← decode_block BlockString (fun v => v) StringCodec.NewStringDecoder block
    (timeDecoderPool ps) (stringDecoderPool ps);
  Ok (a, err, MkPools (timeEncoderPool ps) (integerEncoderPool ps) (floatEncoderPool ps)
    (stringEncoderPool ps) (booleanEncoderPool ps) pt (integerDecoderPool ps)
    (floatDecoderPool ps) pv (booleanDecoderPool ps)).

Definition values_of {V} (mk : Z -> V -> Value) (r : list (Z * V) * option string * pools)
  : list Value * option string * pools :=
  let '(a, err, ps) := r in ((fun '(t, v) => mk t v) <$> a, err, ps).

(** src/storage/codec/utils.go: the result is what [vals] holds up to the number
    of decoded values. *)
Definition DecodeBlock (block : list Z) (ps : pools)
  : outcome (list Value * option string * pools) :=
  if bool_decide (length block <= encodedBlockHeaderSize)%nat then Err "decode of short block"
  else
    match BlockType block with
    | Panic => Panic
    | Err _ => Err "error decoding block type"
    | Ok blockType =>
        if blockType =? BlockFloat64 then values_of FloatValue <$> DecodeFloatBlock block ps
        else if blockType =? BlockInteger then values_of IntegerValue <$> DecodeIntegerBlock block ps
        else if blockType =? BlockUnsigned then values_of UnsignedValue <$> DecodeUnsignedBlock block ps
        else if blockType =? BlockBoolean then values_of BooleanValue <$> DecodeBooleanBlock block ps
        else if blockType =? BlockString then values_of StringValue <$> DecodeStringBlock block ps
        else Err "unknown block type"
    end.

(** ** Blocks and pools *)
Section PoolLaws.
Context {E D V W : Type} `{Codec.CodecLaws E D W}.
Context (to_raw : V -> W) (of_raw : W -> V).

Lemma get_encoder_ok fn (p : Pool.Generic E) sz :
  Pool.all_ok Codec.enc_usable p ->
  (Pool.items p = [] -> exists x, fn sz = Ok x /\ Codec.enc_usable x) ->
  exists x p', get_encoder fn p sz = Ok (x, p') /\ Codec.enc_usable x /\
    Pool.all_ok Codec.enc_usable p'.
Proof.
  intros Hp Hf. destruct (Pool.Get_ok _ fn p sz Hp Hf) as (x & p' & HG & Hx & Hp').
  destruct (Codec.reset_usable x Hx) as (x0 & HR & Hx0). exists x0, p'.
  unfold get_encoder. rewrite HG. cbn [mbind outcome_bind]. by rewrite HR.
Qed.

Lemma GetTimeEncoder_ok (p : Pool.Generic Timestamp.encoder) sz :
  Pool.all_ok Timestamp.encoder_ok p ->
  exists x p', GetTimeEncoder p sz = Ok (x, p') /\ Timestamp.encoder_ok x /\
    Pool.all_ok Timestamp.encoder_ok p'.
Proof.
  intros Hp. unfold GetTimeEncoder, get_encoder.
  destruct (Pool.Get_ok _ (fun sz => Ok (Timestamp.NewTimeEncoder (Z.to_nat sz))) p sz Hp)
    as (x & p' & HG & Hx & Hp').
  { intros _. eexists. split; [reflexivity|]. exists []. apply Stream.NewEncoder_inv. }
  destruct (Timestamp.Reset_inv x Hx) as (x0 & HR & _ & Hinv & _). exists x0, p'. rewrite HG.
  cbn [mbind outcome_bind Codec.reset Timestamp.TimeEncoder_methods]. rewrite HR.
  split; [done|]. split; [by exists []|done].
Qed.

Lemma block_pools typ newE (newD : D) encode_using byvalue szv buf vals values pt pv :
  block_values_ok to_raw of_raw values ->
  (forall te ve, encode_using buf vals te ve = EncodeBlockUsing to_raw typ buf values te ve) ->
  Pool.all_ok Timestamp.encoder_ok pt -> Pool.all_ok Codec.enc_usable pv ->
  (Pool.items pv = [] -> exists x, newE szv = Ok x /\ Codec.enc_usable x) ->
  Codec.dec_usable newD ->
  exists s pt' pv',
    encode_block newE encode_using byvalue szv buf vals pt pv = Ok (s, pt', pv') /\
    Pool.all_ok Timestamp.encoder_ok pt' /\ Pool.all_ok Codec.enc_usable pv' /\
    head (contents s) = Some typ /\ (1 < length (contents s))%nat /\
    BlockCount (contents s) = Ok (Z.of_nat (length values)) /\
    forall ptd pvd,
      Pool.all_ok Timestamp.decoder_ok ptd -> Pool.all_ok Codec.dec_usable pvd ->
      exists ptd' pvd', decode_block typ of_raw newD (contents s) ptd pvd =
        Ok (values, None, ptd', pvd') /\
        Pool.all_ok Timestamp.decoder_ok ptd' /\ Pool.all_ok Codec.dec_usable pvd'.
Proof.
  intros Hok Hu Hpt Hpv HE HD. unfold encode_block.
  destruct (GetTimeEncoder_ok pt (Z.of_nat (length vals)) Hpt) as (te & pt' & -> & Hte & Hpt').
  cbn [mbind outcome_bind].
  destruct (get_encoder_ok newE pv szv Hpv HE) as (ve & pv' & -> & Hve & Hpv'). cbn [mbind outcome_bind].
  destruct (block_codec to_raw of_raw typ buf values te ve Timestamp.NewTimeDecoder newD Hok Hte Hve
    eq_refl HD) as (s & te' & ve' & tb & vb & _ & _ & HEnc & Hte' & Hve' & Hc & Hlen & Hcount & _).
  rewrite Hu, HEnc. cbn [mbind outcome_bind]. eexists s, _, _. split; [reflexivity|].
  split; [by apply Pool.Put_ok|]. split; [apply Pool.Put_ok; [done|by destruct byvalue]|].
  rewrite Hc. pose proof (PutUvarint_length (Z.of_nat (length tb))).
  split; [done|]. split; [cbn [length]; rewrite length_app; lia|].
  split; [by rewrite BlockCount_packed|]. intros ptd pvd Hptd Hpvd.
  unfold decode_block. rewrite open_block_packed by done. cbn [mbind outcome_bind].
  rewrite Hcount. cbn [mbind outcome_bind]. rewrite (proj2 (Z.ltb_ge _ 0)) by lia.
  destruct (Pool.Get_ok _ (fun _ => Ok Timestamp.NewTimeDecoder) ptd 0 Hptd)
    as (td & ptd' & -> & Htd & Hptd'); [by eexists|].
  cbn [mbind outcome_bind].
  destruct (Pool.Get_ok _ (fun _ => Ok newD) pvd 0 Hpvd) as (vd & pvd' & -> & Hvd & Hpvd');
    [by eexists|]. cbn [mbind outcome_bind].
  destruct (block_codec to_raw of_raw typ buf values te ve td vd Hok Hte Hve Htd Hvd)
    as (s2 & te2 & ve2 & tb2 & vb2 & td' & vd' & HEnc2 & _ & _ & Hc2 & Hlen2 & _ & HDec & Htd' & Hvd').
  rewrite HEnc in HEnc2. injection HEnc2 as <- <- <-.
  pose proof (open_block_packed typ tb vb Hlen) as Ho. rewrite <- Hc, Hc2, open_block_packed in Ho by done.
  injection Ho as <- <-. rewrite HDec. cbn [mbind outcome_bind]. do 2 eexists.
  split; [reflexivity|]. split; by apply Pool.Put_ok.
Qed.

End PoolLaws.

(** ** Typed blocks *)
Context (Hsn : StringCodec.snappy_laws sn).
Context {FloatCodec : Codec.CodecLaws FE FD Z}.
Context (HnewE : Codec.enc_usable NewFloatEncoder) (HnewD : Codec.dec_usable NewFloatDecoder).
#[local] Instance string_codec_laws : Codec.CodecLaws StringCodec.StringEncoder StringCodec.StringDecoder (list Z) :=
  StringCodec.String_codec sn Hsn.

(** Every pooled object can be used again: the decoders have their buffers, and
    the boolean decoders have not failed. *)
Definition pools_ok (ps : pools) : Prop :=
  Pool.all_ok Timestamp.encoder_ok (timeEncoderPool ps) /\
  Pool.all_ok StringCodec.enc_ok (stringEncoderPool ps) /\
  Pool.all_ok Timestamp.decoder_ok (timeDecoderPool ps) /\
  Pool.all_ok Integer.dec_ok (integerDecoderPool ps) /\
  Pool.all_ok Boolean.dec_ok (booleanDecoderPool ps) /\
  Pool.all_ok Codec.enc_usable (floatEncoderPool ps) /\
  Pool.all_ok Codec.dec_usable (floatDecoderPool ps).

Lemma init_pools_ok n : pools_ok (init_pools n).
Proof. by repeat constructor. Qed.

(** The lists of values that [EncodeValues] can encode: one type, int64
    timestamps, values in range; and a string encoder can be created. *)
Inductive encodable (ps : pools) : list Value -> Prop :=
| enc_float vs :
    block_values_ok (fun v => v) (fun v => v) vs (W := Z) (E := FE) ->
    encodable ps ((fun '(t, v) => FloatValue t v) <$> vs)
| enc_integer vs :
    block_values_ok (fun v => v) (fun v => v) vs (W := Z) (E := Integer.IntegerEncoder) ->
    encodable ps ((fun '(t, v) => IntegerValue t v) <$> vs)
| enc_unsigned vs :
    block_values_ok i64 u64 vs (E := Integer.IntegerEncoder) ->
    encodable ps ((fun '(t, v) => UnsignedValue t v) <$> vs)
| enc_boolean vs :
    block_values_ok (fun v => v) (fun v => v) vs (W := bool) (E := Boolean.BooleanEncoder) ->
    encodable ps ((fun '(t, v) => BooleanValue t v) <$> vs)
| enc_string vs :
    block_values_ok (fun v => v) (fun v => v) vs (W := list Z) (E := StringCodec.StringEncoder) ->
    Pool.items (stringEncoderPool ps) <> [] \/ (exists t c s r, vs = (t, c :: s) :: r) ->
    encodable ps ((fun '(t, v) => StringValue t v) <$> vs).

Lemma mapM_typed {V} (as_ : Value -> outcome (Z * V)) (mk : Z -> V -> Value) vs :
  (forall t v, as_ (mk t v) = Ok (t, v)) -> mapM as_ ((fun '(t, v) => mk t v) <$> vs) = Ok vs.
Proof.
  intros H. induction vs as [|[t v] vs IH]; [done|].
  cbn [fmap list_fmap mapM]. rewrite H. cbn [mbind outcome_bind].
  change (list_fmap _ _ ?f vs) with (f <$> vs). by rewrite IH.
Qed.

Lemma using_typed {E V W} `{Codec.ValueEncoder E W} (as_ : Value -> outcome (Z * V)) mk
    (to_raw : V -> W) typ buf vs te (ve : E) :
  (forall t v, as_ (mk t v) = Ok (t, v)) ->
  (vs' ← mapM as_ ((fun '(t, v) => mk t v) <$> vs); EncodeBlockUsing to_raw typ buf vs' te ve)
  = EncodeBlockUsing to_raw typ buf vs te ve.
Proof. intros Hm. by rewrite mapM_typed. Qed.

Lemma BlockType_head typ b :
  head b = Some typ -> typ ∈ [0; 1; 2; 3; 4] -> BlockType b = Ok typ.
Proof.
  destruct b as [|x b]; [done|]. intros [= ->] H.
  repeat (apply elem_of_cons in H as [->|H]; [by vm_compute|]). by apply elem_of_nil in H.
Qed.

(** A block with one of the five types and something after it. *)
Definition shaped (b : list Z) : Prop :=
  exists typ, head b = Some typ /\ typ ∈ [0; 1; 2; 3; 4] /\ (1 < length b)%nat.

(** A block decodes to [values], whatever usable objects the pools hold. *)
Definition decodes (b : list Z) (values : list Value) : Prop :=
  BlockCount b = Ok (Z.of_nat (length values)) /\
  forall ps, pools_ok ps -> exists ps', DecodeBlock b ps = Ok (values, None, ps') /\ pools_ok ps'.

Lemma DecodeBlock_dispatch b typ ps :
  (1 < length b)%nat -> head b = Some typ -> typ ∈ [0; 1; 2; 3; 4] ->
  DecodeBlock b ps =
    if typ =? BlockFloat64 then values_of FloatValue <$> DecodeFloatBlock b ps
    else if typ =? BlockInteger then values_of IntegerValue <$> DecodeIntegerBlock b ps
    else if typ =? BlockUnsigned then values_of UnsignedValue <$> DecodeUnsignedBlock b ps
    else if typ =? BlockBoolean then values_of BooleanValue <$> DecodeBooleanBlock b ps
    else if typ =? BlockString then values_of StringValue <$> DecodeStringBlock b ps
    else Err "unknown block type".
Proof.
  intros Hl Hh Ht. unfold DecodeBlock.
  rewrite bool_decide_false by (unfold encodedBlockHeaderSize; lia).
  by rewrite (BlockType_head typ b Hh Ht).
Qed.

(** The common steps of the five typed round trips. *)
Ltac typed_encode Hp := destruct Hp as (Hpt & Hps & Hptd & Hpid & Hpbd & Hpfe & Hpfd).
Ltac typed_encoded HE Hpools :=
  rewrite HE; cbn [mbind outcome_bind]; do 2 eexists; split; [reflexivity|];
  split; [by split_and!|];
  split; [eexists; split; [eassumption|split; [apply (bool_decide_unpack _); by vm_compute|eassumption]]|];
  split; [by rewrite length_fmap|];
  intros ps2 Hpools.
Ltac typed_decode b typ Hdec Htd Hvd :=
  rewrite (DecodeBlock_dispatch b typ) by (done || (apply (bool_decide_unpack _); by vm_compute));
  cbv beta iota delta [Z.eqb BlockFloat64 BlockInteger BlockUnsigned BlockBoolean BlockString Pos.eqb];
  let ptd' := fresh "ptd" in let pvd' := fresh "pvd" in let HD := fresh "HD" in
  destruct (Hdec _ _ Htd Hvd) as (ptd' & pvd' & HD & ? & ?);
  unfold DecodeFloatBlock, DecodeIntegerBlock, DecodeUnsignedBlock, DecodeBooleanBlock, DecodeStringBlock;
  rewrite HD; cbn [mbind outcome_bind fmap outcome_fmap values_of];
  eexists; split; [reflexivity|]; by split_and!.

Lemma integer_block vs buf ps :
  block_values_ok (fun v => v) (fun v => v) vs (W := Z) (E := Integer.IntegerEncoder) -> pools_ok ps ->
  exists s ps', EncodeIntegerBlock buf ((fun '(t, v) => IntegerValue t v) <$> vs) ps = Ok (s, ps') /\
    pools_ok ps' /\ shaped (contents s) /\ decodes (contents s) ((fun '(t, v) => IntegerValue t v) <$> vs).
Proof.
  intros Hok Hp. unfold EncodeIntegerBlock. typed_encode Hp.
  destruct (block_pools (fun v => v) (fun v => v) BlockInteger
      (fun sz => Ok (Integer.NewIntegerEncoder (Z.to_nat sz))) Integer.NewIntegerDecoder
      EncodeIntegerBlockUsing true
      (Z.of_nat (length ((fun '(t, v) => IntegerValue t v) <$> vs))) buf _ vs _ _ Hok
      (fun te ve => using_typed as_integer IntegerValue _ _ _ _ _ _ (fun _ _ => eq_refl)) Hpt
      (Forall_true _ (Pool.items (integerEncoderPool ps)) (fun _ => I)))
    as (s & pt' & pv' & HE & Hpt' & _ & Hh & Hl & Hc & Hdec); [by eexists|done|].
  typed_encoded HE Hp2. destruct Hp2 as (? & ? & Hptd2 & Hpid2 & Hpbd2 & ? & Hpfd2).
  typed_decode (contents s) BlockInteger Hdec Hptd2 Hpid2.
Qed.

Lemma float_block vs buf ps :
  block_values_ok (fun v => v) (fun v => v) vs (W := Z) (E := FE) -> pools_ok ps ->
  exists s ps', EncodeFloatBlock buf ((fun '(t, v) => FloatValue t v) <$> vs) ps = Ok (s, ps') /\
    pools_ok ps' /\ shaped (contents s) /\ decodes (contents s) ((fun '(t, v) => FloatValue t v) <$> vs).
Proof.
  intros Hok Hp. unfold EncodeFloatBlock.
  rewrite bool_decide_false by (destruct Hok; by destruct vs).
  typed_encode Hp.
  destruct (block_pools (fun v => v) (fun v => v) BlockFloat64
      (fun _ => Ok NewFloatEncoder) NewFloatDecoder EncodeFloatBlockUsing false
      (Z.of_nat (length ((fun '(t, v) => FloatValue t v) <$> vs))) buf _ vs _ _ Hok
      (fun te ve => using_typed as_float FloatValue _ _ _ _ _ _ (fun _ _ => eq_refl)) Hpt Hpfe)
    as (s & pt' & pv' & HE & Hpt' & Hpv' & Hh & Hl & Hc & Hdec); [by eexists|exact HnewD|].
  typed_encoded HE Hp2. destruct Hp2 as (? & ? & Hptd2 & Hpid2 & Hpbd2 & ? & Hpfd2).
  typed_decode (contents s) BlockFloat64 Hdec Hptd2 Hpfd2.
Qed.

Lemma unsigned_block vs buf ps :
  block_values_ok i64 u64 vs (E := Integer.IntegerEncoder) -> pools_ok ps ->
  exists s ps', EncodeUnsignedBlock buf ((fun '(t, v) => UnsignedValue t v) <$> vs) ps = Ok (s, ps') /\
    pools_ok ps' /\ shaped (contents s) /\ decodes (contents s) ((fun '(t, v) => UnsignedValue t v) <$> vs).
Proof.
  intros Hok Hp. unfold EncodeUnsignedBlock. typed_encode Hp.
  destruct (block_pools i64 u64 BlockUnsigned
      (fun sz => Ok (Integer.NewIntegerEncoder (Z.to_nat sz))) Integer.NewIntegerDecoder
      EncodeUnsignedBlockUsing true
      (Z.of_nat (length ((fun '(t, v) => UnsignedValue t v) <$> vs))) buf _ vs _ _ Hok
      (fun te ve => using_typed as_unsigned UnsignedValue _ _ _ _ _ _ (fun _ _ => eq_refl)) Hpt
      (Forall_true _ (Pool.items (integerEncoderPool ps)) (fun _ => I)))
    as (s & pt' & pv' & HE & Hpt' & _ & Hh & Hl & Hc & Hdec); [by eexists|done|].
  typed_encoded HE Hp2. destruct Hp2 as (? & ? & Hptd2 & Hpid2 & Hpbd2 & ? & Hpfd2).
  typed_decode (contents s) BlockUnsigned Hdec Hptd2 Hpid2.
Qed.

Lemma boolean_block vs buf ps :
  block_values_ok (fun v => v) (fun v => v) vs (W := bool) (E := Boolean.BooleanEncoder) -> pools_ok ps ->
  exists s ps', EncodeBooleanBlock buf ((fun '(t, v) => BooleanValue t v) <$> vs) ps = Ok (s, ps') /\
    pools_ok ps' /\ shaped (contents s) /\ decodes (contents s) ((fun '(t, v) => BooleanValue t v) <$> vs).
Proof.
  intros Hok Hp. unfold EncodeBooleanBlock.
  rewrite bool_decide_false by (destruct Hok; by destruct vs).
  typed_encode Hp.
  destruct (block_pools (fun v => v) (fun v => v) BlockBoolean
      (fun sz => Ok (Boolean.NewBooleanEncoder (Z.to_nat sz))) Boolean.NewBooleanDecoder
      EncodeBooleanBlockUsing true
      (Z.of_nat (length ((fun '(t, v) => BooleanValue t v) <$> vs))) buf _ vs _ _ Hok
      (fun te ve => using_typed as_boolean BooleanValue _ _ _ _ _ _ (fun _ _ => eq_refl)) Hpt
      (Forall_true _ (Pool.items (booleanEncoderPool ps)) (fun _ => I)))
    as (s & pt' & pv' & HE & Hpt' & _ & Hh & Hl & Hc & Hdec); [by eexists|done|].
  typed_encoded HE Hp2. destruct Hp2 as (? & ? & Hptd2 & Hpid2 & Hpbd2 & ? & Hpfd2).
  typed_decode (contents s) BlockBoolean Hdec Hptd2 Hpbd2.
Qed.

Lemma string_block vs buf ps :
  block_values_ok (fun v => v) (fun v => v) vs (W := list Z) (E := StringCodec.StringEncoder) ->
  Pool.items (stringEncoderPool ps) <> [] \/ (exists t c s r, vs = (t, c :: s) :: r) -> pools_ok ps ->
  exists s ps', EncodeStringBlock buf ((fun '(t, v) => StringValue t v) <$> vs) ps = Ok (s, ps') /\
    pools_ok ps' /\ shaped (contents s) /\ decodes (contents s) ((fun '(t, v) => StringValue t v) <$> vs).
Proof.
  intros Hok Hnew Hp. unfold EncodeStringBlock.
  destruct vs as [|[t0 s0] vs0] eqn:Evs; [by destruct Hok|]. rewrite <- Evs in *.
  assert (index ((fun '(t, v) => StringValue t v) <$> vs) 0 = Ok (StringValue t0 s0)) as -> by by subst vs.
  cbn [mbind outcome_bind as_string].
  typed_encode Hp.
  destruct (block_pools (fun v => v) (fun v => v) BlockString StringCodec.NewStringEncoder
      StringCodec.NewStringDecoder EncodeStringBlockUsing true
      (Z.of_nat (length ((fun '(t, v) => StringValue t v) <$> vs)) * Z.of_nat (length s0))
      buf _ vs _ _ Hok (fun te ve => using_typed as_string StringValue _ _ _ _ _ _ (fun _ _ => eq_refl))
      Hpt Hps)
    as (s & pt' & pv' & HE & Hpt' & Hpv' & Hh & Hl & Hc & Hdec).
  { intros E. destruct Hnew as [|(t & c & s & r & Ev)]; [done|].
    assert (s0 = c :: s) as -> by congruence. unfold StringCodec.NewStringEncoder.
    rewrite (proj2 (Z.ltb_ge _ 1)) by (rewrite length_fmap, Evs; cbn; lia). by eexists. }
  { exact I. }
  typed_encoded HE Hp2. destruct Hp2 as (? & ? & Hptd2 & Hpid2 & Hpbd2 & ? & Hpfd2).
  typed_decode (contents s) BlockString Hdec Hptd2 (Forall_true (fun _ => True) (Pool.items (stringDecoderPool ps2)) (fun _ => I)).
Qed.

(** The round trip of [EncodeValues] and [DecodeBlock]. *)
Lemma encode_decode values buf ps :
  pools_ok ps -> encodable ps values ->
  exists s ps', EncodeValues values buf ps = Ok (s, ps') /\ pools_ok ps' /\
    shaped (contents s) /\ decodes (contents s) values.
Proof.
  intros Hp [vs Hok|vs Hok|vs Hok|vs Hok|vs Hok Hnew];
    (assert (vs <> []) as Hne by apply Hok); destruct vs as [|[t v] r]; try done.
  - by apply float_block.
  - by apply integer_block.
  - by apply unsigned_block.
  - by apply boolean_block.
  - by apply string_block.
Qed.

(** ** Array blocks

    The batch codecs applied to the columns of a [types.IntegerArray] and the
    like.  Decoding is given the two columns to reuse. *)
Definition EncodeFloatArrayBlock (ts vs : list Z) (b : slice Z) : outcome (slice Z) :=
  if bool_decide (length ts = 0)%nat then Ok nil_slice
  else
    vb ← FloatArray.FloatArrayEncodeAll vs nil_slice;
    tb ← Timestamp.TimeArrayEncodeAll ts nil_slice;
    Ok (packBlock b BlockFloat64 (contents tb) vb).

Definition DecodeFloatArrayBlock (block : list Z) (ts vs : slice Z) : outcome (list Z * list Z) :=
  '(tb, vb) ← open_block BlockFloat64 block;
  ts ← Timestamp.TimeArrayDecodeAll tb ts;
  vs ← FloatArray.FloatArrayDecodeAll vb vs;
  Ok (ts, vs).

Definition EncodeIntegerArrayBlock (ts vs : list Z) (b : slice Z) : outcome (slice Z) :=
  if bool_decide (length ts = 0)%nat then Ok nil_slice
  else
    vb ← Integer.IntegerArrayEncodeAll vs nil_slice;
    tb ← Timestamp.TimeArrayEncodeAll ts nil_slice;
    Ok (packBlock b BlockInteger (contents tb) (contents vb)).

Definition DecodeIntegerArrayBlock (block : list Z) (ts vs : slice Z) : outcome (list Z * list Z) :=
  '(tb, vb) ← open_block BlockInteger block;
  ts ← Timestamp.TimeArrayDecodeAll tb ts;
  vs ← Integer.IntegerArrayDecodeAll vb vs;
  Ok (ts, vs).

Definition EncodeUnsignedArrayBlock (ts vs : list Z) (b : slice Z) : outcome (slice Z) :=
  if bool_decide (length ts = 0)%nat then Ok nil_slice
  else
    vb ← Integer.UnsignedArrayEncodeAll vs nil_slice;
    tb ← Timestamp.TimeArrayEncodeAll ts nil_slice;
    Ok (packBlock b BlockUnsigned (contents tb) (contents vb)).

Definition DecodeUnsignedArrayBlock (block : list Z) (ts vs : slice Z) : outcome (list Z * list Z) :=
  '(tb, vb) ← open_block BlockUnsigned block;
  ts ← Timestamp.TimeArrayDecodeAll tb ts;
  vs ← Integer.UnsignedArrayDecodeAll vb vs;
  Ok (ts, vs).

Definition EncodeBooleanArrayBlock (ts : list Z) (vs : list bool) (b : slice Z) : outcome (slice Z) :=
  if bool_decide (length ts = 0)%nat then Ok nil_slice
  else
    vb ← Boolean.BooleanArrayEncodeAll vs nil_slice;
    tb ← Timestamp.TimeArrayEncodeAll ts nil_slice;
    Ok (packBlock b BlockBoolean (contents tb) (contents vb)).

Definition DecodeBooleanArrayBlock (block : list Z) (ts : slice Z) (vs : slice bool)
  : outcome (list Z * list bool) :=
  '(tb, vb) ← open_block BlockBoolean block;
  ts ← Timestamp.TimeArrayDecodeAll tb ts;
  vs ← Boolean.BooleanArrayDecodeAll vb vs;
  Ok (ts, vs).

Definition EncodeStringArrayBlock (ts : list Z) (vs : list (list Z)) (b : slice Z) : outcome (slice Z) :=
  if bool_decide (length ts = 0)%nat then Ok nil_slice
  else
    vb ← StringCodec.StringArrayEncodeAll sn vs nil_slice;
    tb ← Timestamp.TimeArrayEncodeAll ts nil_slice;
    Ok (packBlock b BlockString (contents tb) vb).

Definition DecodeStringArrayBlock (block : list Z) (ts : slice Z) (vs : slice (list Z))
  : outcome (list Z * list (list Z)) :=
  '(tb, vb) ← open_block BlockString block;
  ts ← Timestamp.TimeArrayDecodeAll tb ts;
  vs ← StringCodec.StringArrayDecodeAll sn vb vs;
  Ok (ts, vs).

Definition array_times_ok (ts : list Z) : Prop :=
  match ts with
  | [] => False
  | t :: r =>
      let D := Timestamp.diffs (u64 t) (u64 <$> r) in
      Forall is_i64 ts /\ Z.of_nat (length ts) < 2 ^ 56 /\
      (Forall Simple8b.in_range D \/ (forall x y, x ∈ D -> y ∈ D -> x = y))
  end.

Lemma packed_array typ buf ts vb :
  array_times_ok ts ->
  exists tb, Timestamp.TimeArrayEncodeAll ts nil_slice = Ok tb /\
    (forall dst, Timestamp.TimeArrayDecodeAll (contents tb) dst = Ok ts) /\
    open_block typ (contents (packBlock buf typ (contents tb) vb)) = Ok (contents tb, vb) /\
    BlockCount (contents (packBlock buf typ (contents tb) vb)) = Ok (Z.of_nat (length ts)).
Proof.
  destruct ts as [|t r]; [done|]. intros (Hi & Hlen & HD).
  destruct (Timestamp.time_array_codec t r nil_slice nil_slice Hi) as (tb & HE & _ & Hl & Hc); [lia|done|].
  exists tb. split; [done|]. split.
  - intros dst.
    destruct (Timestamp.time_array_codec t r nil_slice dst Hi) as (tb' & HE' & HD' & _); [lia|done|].
    congruence.
  - assert (Z.of_nat (length (contents tb)) < 2 ^ 62) as H62 by lia.
    rewrite contents_packBlock, BlockCount_packed, open_block_packed by done. done.
Qed.

Lemma IsPtrBlock_packed typ buf ts vb : 0 <= typ < 128 -> IsPtrBlock (contents (packBlock buf typ ts vb)) = Ok false.
Proof.
  intros Ht. rewrite contents_packBlock. unfold IsPtrBlock, index. cbn [lookup list_lookup mbind outcome_bind]. unfold BlockValuePtrMask.
  assert (Z.land typ 128 = 0) as ->; [|done]. apply Z.bits_inj'. intros n Hn. rewrite Z.land_spec, Z.bits_0.
  change 128 with (2 ^ 7). destruct (decide (n = 7)) as [->|Hne]; [|rewrite Z.pow2_bits_false by lia; apply andb_false_r].
  apply andb_false_iff. left. apply Z.testbit_false; [lia|]. rewrite Z.div_small by lia. done.
Qed.

Lemma array_blocks ts b dts :
  array_times_ok ts ->
  (forall vs dvs, length vs = length ts -> Forall FloatLaws.number_ok vs ->
     FloatArray.is_nan (FloatArrayLaws.sum_from FloatArray.float_zero (tail vs)) = false ->
     exists s, EncodeFloatArrayBlock ts vs b = Ok s /\
       DecodeFloatArrayBlock (contents s) dts dvs = Ok (ts, vs) /\
       BlockCount (contents s) = Ok (Z.of_nat (length ts)) /\ IsPtrBlock (contents s) = Ok false) /\
  (forall vs dvs, length vs = length ts -> Forall is_i64 vs ->
     exists s, EncodeIntegerArrayBlock ts vs b = Ok s /\
       DecodeIntegerArrayBlock (contents s) dts dvs = Ok (ts, vs) /\
       BlockCount (contents s) = Ok (Z.of_nat (length ts)) /\ IsPtrBlock (contents s) = Ok false) /\
  (forall vs dvs, length vs = length ts -> Forall is_u64 vs ->
     exists s, EncodeUnsignedArrayBlock ts vs b = Ok s /\
       DecodeUnsignedArrayBlock (contents s) dts dvs = Ok (ts, vs) /\
       BlockCount (contents s) = Ok (Z.of_nat (length ts)) /\ IsPtrBlock (contents s) = Ok false) /\
  (forall vs dvs, length vs = length ts ->
     exists s, EncodeBooleanArrayBlock ts vs b = Ok s /\
       DecodeBooleanArrayBlock (contents s) dts dvs = Ok (ts, vs) /\
       BlockCount (contents s) = Ok (Z.of_nat (length ts)) /\ IsPtrBlock (contents s) = Ok false) /\
  (forall vs dvs, length vs = length ts ->
     StringCodec.source_size vs <= StringCodec.MaxUint32 ->
     StringCodec.fits sn (StringCodec.source_size vs) ->
     exists s, EncodeStringArrayBlock ts vs b = Ok s /\
       DecodeStringArrayBlock (contents s) dts dvs = Ok (ts, vs) /\
       BlockCount (contents s) = Ok (Z.of_nat (length ts)) /\ IsPtrBlock (contents s) = Ok false).
Proof.
  intros Ht. assert (ts <> [] /\ Z.of_nat (length ts) < 2 ^ 56) as [Hne Hlen]
    by (by destruct ts as [|t r]; [|destruct Ht as (_ & ? & _)]).
  assert (forall {A} (vs : list A), length vs = length ts -> vs <> []) as Hvs
    by (intros A vs Hl ->; by destruct ts).
  assert (slice_ok (@nil_slice Z)) as Hnil by (unfold slice_ok; cbn; lia).
  split_and!.
  - intros vs dvs Hl Hv Hs. unfold EncodeFloatArrayBlock, DecodeFloatArrayBlock.
    rewrite bool_decide_false by (by destruct ts).
    assert (Forall is_u64 vs) as Hu by (eapply Forall_impl; [exact Hv|by intros ? []]).
    destruct (proj2 (FloatArrayLaws.array_encode vs nil_slice Hu) Hv Hs) as (vb & -> & HE).
    destruct (packed_array BlockFloat64 b ts vb Ht) as (tb & -> & HT & HO & HC).
    eexists. split; [reflexivity|]. rewrite HO. cbn [mbind outcome_bind]. rewrite HT, HC, IsPtrBlock_packed by done. cbn [mbind outcome_bind].
    by rewrite (FloatArrayLaws.array_decode_ok vs vb dvs HE Hv).
  - intros vs dvs Hl Hv. unfold EncodeIntegerArrayBlock, DecodeIntegerArrayBlock.
    rewrite bool_decide_false by (by destruct ts).
    destruct (Integer.int_array_codec vs nil_slice dvs Integer.NewIntegerDecoder) as [Hc _];
      [done|cbn; lia|by apply Hvs|lia|done|]. destruct (Hc Hv) as (vb & -> & HD & _).
    destruct (packed_array BlockInteger b ts (contents vb) Ht) as (tb & -> & HT & HO & HC).
    eexists. split; [reflexivity|]. rewrite HO. cbn [mbind outcome_bind]. by rewrite HT, HC, IsPtrBlock_packed by done; cbn; rewrite HD.
  - intros vs dvs Hl Hv. unfold EncodeUnsignedArrayBlock, DecodeUnsignedArrayBlock.
    rewrite bool_decide_false by (by destruct ts).
    destruct (Integer.int_array_codec vs nil_slice dvs Integer.NewIntegerDecoder) as [_ Hc];
      [done|cbn; lia|by apply Hvs|lia|done|]. destruct (Hc Hv) as (vb & -> & HD).
    destruct (packed_array BlockUnsigned b ts (contents vb) Ht) as (tb & -> & HT & HO & HC).
    eexists. split; [reflexivity|]. rewrite HO. cbn [mbind outcome_bind]. by rewrite HT, HC, IsPtrBlock_packed by done; cbn; rewrite HD.
  - intros vs dvs Hl. unfold EncodeBooleanArrayBlock, DecodeBooleanArrayBlock.
    rewrite bool_decide_false by (by destruct ts).
    destruct (Boolean.bool_array_codec vs nil_slice dvs Boolean.NewBooleanDecoder)
      as (vb & -> & HD & _); [done|lia|done|].
    destruct (packed_array BlockBoolean b ts (contents vb) Ht) as (tb & -> & HT & HO & HC).
    eexists. split; [reflexivity|]. rewrite HO. cbn [mbind outcome_bind]. by rewrite HT, HC, IsPtrBlock_packed by done; cbn; rewrite HD.
  - intros vs dvs Hl Hs Hf. unfold EncodeStringArrayBlock, DecodeStringArrayBlock.
    rewrite bool_decide_false by (by destruct ts).
    destruct (StringCodec.string_array_codec sn Hsn vs nil_slice dvs StringCodec.NewStringDecoder
      (Hvs _ vs Hl) Hs Hf) as (vb & _ & -> & HD & _).
    destruct (packed_array BlockString b ts vb Ht) as (tb & -> & HT & HO & HC).
    eexists. split; [reflexivity|]. rewrite HO. cbn [mbind outcome_bind]. by rewrite HT, HC, IsPtrBlock_packed by done; cbn; rewrite HD.
Qed.

(** * Theorems *)

(** C27: [EncodeValues] and [DecodeBlock] round-trip for float, integer,
    unsigned, boolean and string values: whatever usable objects the pools hold and whatever the
    buffer, the block has the length [BlockCount] says, decodes to the values
    without an error, and leaves the pools usable. *)
Theorem EncodeValues_DecodeBlock values buf ps :
  pools_ok ps -> encodable ps values ->
  exists s ps', EncodeValues values buf ps = Ok (s, ps') /\ pools_ok ps' /\
    BlockCount (contents s) = Ok (Z.of_nat (length values)) /\
    forall ps2, pools_ok ps2 ->
      exists ps3, DecodeBlock (contents s) ps2 = Ok (values, None, ps3) /\ pools_ok ps3.
Proof.
  intros Hp He. destruct (encode_decode values buf ps Hp He) as (s & ps' & H1 & H2 & _ & H3). by exists s, ps'.
Qed.

(** the array blocks of the five types round-trip into any columns, for
    compressible timestamps, [BlockCount] counts their values and [IsPtrBlock] tells them from pointers. *)
Theorem array_block_roundtrip ts b dts :
  array_times_ok ts ->
  (forall vs dvs, length vs = length ts -> Forall FloatLaws.number_ok vs ->
     FloatArray.is_nan (FloatArrayLaws.sum_from FloatArray.float_zero (tail vs)) = false ->
     exists s, EncodeFloatArrayBlock ts vs b = Ok s /\
       DecodeFloatArrayBlock (contents s) dts dvs = Ok (ts, vs) /\
       BlockCount (contents s) = Ok (Z.of_nat (length ts)) /\ IsPtrBlock (contents s) = Ok false) /\
  (forall vs dvs, length vs = length ts -> Forall is_i64 vs ->
     exists s, EncodeIntegerArrayBlock ts vs b = Ok s /\
       DecodeIntegerArrayBlock (contents s) dts dvs = Ok (ts, vs) /\
       BlockCount (contents s) = Ok (Z.of_nat (length ts)) /\ IsPtrBlock (contents s) = Ok false) /\
  (forall vs dvs, length vs = length ts -> Forall is_u64 vs ->
     exists s, EncodeUnsignedArrayBlock ts vs b = Ok s /\
       DecodeUnsignedArrayBlock (contents s) dts dvs = Ok (ts, vs) /\
       BlockCount (contents s) = Ok (Z.of_nat (length ts)) /\ IsPtrBlock (contents s) = Ok false) /\
  (forall vs dvs, length vs = length ts ->
     exists s, EncodeBooleanArrayBlock ts vs b = Ok s /\
       DecodeBooleanArrayBlock (contents s) dts dvs = Ok (ts, vs) /\
       BlockCount (contents s) = Ok (Z.of_nat (length ts)) /\ IsPtrBlock (contents s) = Ok false) /\
  (forall vs dvs, length vs = length ts ->
     StringCodec.source_size vs <= StringCodec.MaxUint32 ->
     StringCodec.fits sn (StringCodec.source_size vs) ->
     exists s, EncodeStringArrayBlock ts vs b = Ok s /\
       DecodeStringArrayBlock (contents s) dts dvs = Ok (ts, vs) /\
       BlockCount (contents s) = Ok (Z.of_nat (length ts)) /\ IsPtrBlock (contents s) = Ok false).
Proof. apply array_blocks. Qed.

(** Encoding a string block whose first string is empty panics when the pool
    has no string encoder: the encoder's size is estimated from that string, and
    an encoder of size 0 cannot be made. *)
Theorem EncodeStringBlock_empty_first buf t r ps :
  Pool.items (stringEncoderPool ps) = [] -> pools_ok ps ->
  EncodeStringBlock buf (StringValue t [] :: r) ps = Panic.
Proof.
  intros Hp (Hpt & _). unfold EncodeStringBlock. cbn [index lookup list_lookup mbind outcome_bind as_string].
  unfold encode_block.
  destruct (GetTimeEncoder_ok _ (Z.of_nat (length (StringValue t [] :: r))) Hpt) as (te & pt' & -> & _).
  cbn [mbind outcome_bind]. unfold get_encoder, Pool.Get. rewrite Hp.
  unfold StringCodec.NewStringEncoder. rewrite Z.mul_0_r. done.
Qed.

End Pools.

(** [packBlock] and [unpackBlock] are inverse whatever the buffer; and whatever
    [unpackBlock] accepts is a split of its input. *)
Theorem packBlock_unpackBlock buf typ ts values b :
  Z.of_nat (length ts) < 2 ^ 62 ->
  (exists r, contents (packBlock buf typ ts values) = typ :: r /\ unpackBlock r = Ok (ts, values)) /\
  (forall ts' values', unpackBlock b = Ok (ts', values') -> exists p, b = p ++ ts' ++ values').
Proof.
  intros Hlen. split.
  - rewrite contents_packBlock. eexists. split; [reflexivity|]. by apply unpackBlock_packed.
  - intros ts' values'. unfold unpackBlock. destruct (Uvarint b) as [tsLen i].
    destruct (i <=? 0); [done|]. destruct (Z.of_nat (length b) <? _); [done|].
    destruct (_ <? 0); [done|]. set (j := Z.to_nat (i64 _)). set (k := Z.to_nat i).
    intros (ts1 & H1 & (vs1 & H2 & [= <- <-])%bind_Ok)%bind_Ok.
    unfold tail_from, subslice in *. case_decide as Hj; [|done]. case_decide as Hk; [|done].
    injection H1 as <-. injection H2 as <-. exists (take k b).
    rewrite (take_ge b (length b)) by lia. rewrite app_assoc.
    assert (take k b ++ drop k (take j b) = take j b) as ->.
    { rewrite <- (take_drop k (take j b)) at 2. by rewrite take_take, Nat.min_l by lia. }
    symmetry. apply take_drop.
Qed.

Lemma packBlock_unpackBlock_witness :
  (exists r, contents (packBlock (make_slice 7 0 40) 1 [5; 6] [9]) = 1 :: r /\
     unpackBlock r = Ok ([5; 6], [9])) /\
  (forall ts' values', unpackBlock [1; 2; 3] = Ok (ts', values') -> exists p, [1; 2; 3] = p ++ ts' ++ values').
Proof. apply packBlock_unpackBlock. vm_compute. reflexivity. Defined.

(** The pointer flag is the top bit of the type byte: it is set and cleared
    without touching the type, [IsPtrBlock] and [BlockType] see through it, but
    [DecodeBlock] refuses every block that carries it. *)
Theorem ptr_flag {FE FD} {FloatE : Codec.ValueEncoder FE Z} {FloatD : Codec.ValueDecoder FD Z}
    (newF : FD) sn typ rest (ps : @pools FE FD) :
  typ ∈ [BlockFloat64; BlockInteger; BlockBoolean; BlockString; BlockUnsigned] -> rest <> [] ->
  GetBaseType (WithPtrFlag typ) = typ /\
  IsPtrBlock (typ :: rest) = Ok false /\ IsPtrBlock (WithPtrFlag typ :: rest) = Ok true /\
  BlockType (WithPtrFlag typ :: rest) = Ok typ /\
  DecodeBlock newF sn (WithPtrFlag typ :: rest) ps = Err "invalid block type".
Proof.
  intros Ht Hr. destruct rest as [|r0 rest]; [done|].
  repeat (apply elem_of_cons in Ht as [->|Ht]; [by split_and!; vm_compute|]).
  by apply elem_of_nil in Ht.
Qed.

Lemma ptr_flag_witness :
  GetBaseType (WithPtrFlag 1) = 1 /\ IsPtrBlock [1; 0] = Ok false /\
  IsPtrBlock [129; 0] = Ok true /\ BlockType [129; 0] = Ok 1 /\
  DecodeBlock Integer.NewIntegerDecoder StringCodec.identity_snappy [129; 0]
    (@init_pools Integer.IntegerEncoder Integer.IntegerDecoder 2) = Err "invalid block type".
Proof.
  apply (ptr_flag Integer.NewIntegerDecoder StringCodec.identity_snappy 1 [0]);
    [apply (bool_decide_unpack _); vm_compute; reflexivity|discriminate].
Defined.

(** In the witnesses the library of bit streams is [FloatLaws.simple_stream]. *)
Abbreviation test_encoder := (Float.FloatEncoder FloatLaws.simple_stream).
Definition test_pools : @pools test_encoder Float.FloatDecoder := init_pools 2.

Lemma EncodeValues_DecodeBlock_witness :
  let values := [FloatValue 1000 4607182418800017408; FloatValue 2000 4614256656552045848] in
  let sn := StringCodec.identity_snappy in
  exists s ps', EncodeValues (Float.NewFloatEncoder FloatLaws.simple_stream) sn values nil_slice test_pools = Ok (s, ps') /\
    pools_ok ps' /\ BlockCount (contents s) = Ok (Z.of_nat (length values)) /\
    forall ps2 : @pools test_encoder Float.FloatDecoder, pools_ok ps2 ->
      exists ps3, DecodeBlock Float.NewFloatDecoder sn (contents s) ps2 = Ok (values, None, ps3) /\
        pools_ok ps3.
Proof.
  intros values sn.
  apply (EncodeValues_DecodeBlock (FloatCodec := FloatLaws.Float_codec FloatLaws.simple_stream) (Float.NewFloatEncoder FloatLaws.simple_stream) Float.NewFloatDecoder
    sn StringCodec.identity_snappy_laws I I values nil_slice test_pools (init_pools_ok 2)).
  apply (enc_float _ _ _ [(1000, 4607182418800017408); (2000, 4614256656552045848)]). split; [discriminate|].
  split; [by apply (bool_decide_unpack _); vm_compute|].
  split; [by repeat (constructor; [split; [by apply (bool_decide_unpack _); vm_compute|by vm_compute]|])|].
  split; [by repeat constructor|vm_compute; reflexivity].
Defined.

Lemma array_block_roundtrip_witness :
  array_times_ok [10; 20; 40] /\
  exists s, EncodeBooleanArrayBlock [10; 20; 40] [true; true; false] nil_slice = Ok s /\
    DecodeBooleanArrayBlock (contents s) nil_slice nil_slice = Ok ([10; 20; 40], [true; true; false]) /\
    BlockCount (contents s) = Ok 3 /\ IsPtrBlock (contents s) = Ok false.
Proof.
  assert (array_times_ok [10; 20; 40]) as H.
  { split; [by apply (bool_decide_unpack _); vm_compute|]. split; [vm_compute; reflexivity|].
    left. by apply (bool_decide_unpack _); vm_compute. }
  split; [exact H|].
  destruct (array_block_roundtrip StringCodec.identity_snappy StringCodec.identity_snappy_laws
    [10; 20; 40] nil_slice nil_slice H) as (_ & _ & _ & Hb & _).
  apply (Hb [true; true; false] nil_slice). reflexivity.
Defined.

Lemma EncodeStringBlock_empty_first_witness :
  EncodeStringBlock StringCodec.identity_snappy nil_slice [StringValue 1 []; StringValue 2 [104]] test_pools
    = Panic.
Proof.
  apply (EncodeStringBlock_empty_first StringCodec.identity_snappy);
    [reflexivity|exact (init_pools_ok 2)].
Defined.

End Block.
