(* ===== verification/Bytes.v ===== *)
(** Package bytes of the Go library: the lexicographic order on byte slices that
    orders keys everywhere in the engine. *)
From S2P Require Import Prelude.

(** [bytes.Compare]: -1, 0 or 1. *)
Fixpoint Compare (a b : list Z) : Z :=
  match a, b with
  | [], [] => 0
  | [], _ :: _ => -1
  | _ :: _, [] => 1
  | x :: a', y :: b' => if x <? y then -1 else if y <? x then 1 else Compare a' b'
  end.

(** [a] is before [b]. *)
Definition before (a b : list Z) : Prop := Compare a b < 0.

#[global] Instance before_dec a b : Decision (before a b).
Proof. unfold before. apply _. Defined.

Lemma Compare_refl a : Compare a a = 0.
Proof. induction a as [|x a IH]; cbn [Compare]; [done|]. by rewrite Z.ltb_irrefl. Qed.

Lemma Compare_eq a b : Compare a b = 0 <-> a = b.
Proof.
  split; [|intros ->; apply Compare_refl].
  revert b. induction a as [|x a IH]; intros [|y b]; cbn [Compare]; [done..|].
  destruct (Z.ltb_spec x y); [done|]. destruct (Z.ltb_spec y x); [done|].
  intros E%IH. subst b. f_equal. lia.
Qed.

Lemma Compare_swap a b : Compare b a = - Compare a b.
Proof.
  revert b. induction a as [|x a IH]; intros [|y b]; cbn [Compare]; [done..|].
  destruct (Z.ltb_spec x y), (Z.ltb_spec y x); try done; lia.
Qed.

Lemma Compare_range a b : Compare a b = -1 \/ Compare a b = 0 \/ Compare a b = 1.
Proof.
  revert b. induction a as [|x a IH]; intros [|y b]; cbn [Compare]; [auto..|].
  destruct (x <? y); [auto|]. destruct (y <? x); auto.
Qed.

Lemma before_trans a b c : before a b -> before b c -> before a c.
Proof.
  unfold before. revert b c. induction a as [|x a IH]; intros [|y b] [|z c]; cbn [Compare]; try done.
  destruct (Z.ltb_spec x y), (Z.ltb_spec y x), (Z.ltb_spec y z), (Z.ltb_spec z y), (Z.ltb_spec x z),
    (Z.ltb_spec z x); try done; try lia. apply IH.
Qed.

Lemma before_irrefl a : ~ before a a.
Proof. unfold before. rewrite Compare_refl. lia. Qed.

Lemma before_total a b : before a b \/ a = b \/ before b a.
Proof.
  unfold before. rewrite (Compare_swap a b), <- Compare_eq. lia.
Qed.

Lemma not_before a b : ~ before a b <-> a = b \/ before b a.
Proof.
  split; [destruct (before_total a b); tauto|]. intros [->|H] Hb; [by apply before_irrefl in Hb|].
  by apply (before_irrefl a), (before_trans _ b).
Qed.

#[global] Instance before_transitive : Transitive before.
Proof. exact before_trans. Qed.
#[global] Instance before_irreflexive : Irreflexive before.
Proof. exact before_irrefl. Qed.
