(* ===== verification/Util.v ===== *)
(** Helpers of the store: src/storage/store/util.go, with [TimeRange] of
    sst_index.go.  Slices of keys as sorted sets, the searches over them, the
    packing of sparse arrays and the names of data files. *)
From stdpp Require Import sets.
From S2P Require Import Prelude Binary Bytes.

Module Util.

(** ** Slices of byte slices *)

(** [not_after a b]: [b] is not less than [a], the order of [byteSlices]. *)
Definition not_after (a b : list Z) : Prop := ~ before b a.

#[global] Instance not_after_dec a b : Decision (not_after a b).
Proof. unfold not_after. apply _. Defined.

(** [sort.Sort(byteSlices(a))]: slices that compare equal are equal, so the
    order decides the result. *)
Definition Sort (a : list (list Z)) : list (list Z) := merge_sort not_after a.

(** [sort.IsSorted]: from the end, no element is less than the one before it. *)
Definition IsSorted (a : list (list Z)) : bool :=
  forallb (fun i =>
    match a !! i, a !! S i with
    | Some x, Some y => negb (Compare y x =? -1)
    | _, _ => true
    end) (rev (seq 0 (length a - 1))).

(** The loop of [SortDedup] over the sorted slice. *)
Fixpoint dedup_loop (fuel i j : nat) (a : list (list Z)) : outcome (list (list Z)) :=
  match fuel with
  | O => Panic
  | S fuel =>
      if bool_decide (j < length a)%nat then
        x ← index a (j - 1);
        y ← index a j;
        if bool_decide (x = y) then dedup_loop fuel i (S j) a
        else a ← store a i x; dedup_loop fuel (S i) (S j) a
      else
        x ← index a (j - 1);
        a ← store a i x;
        subslice a 0 (S i)
  end.

Definition SortDedup (a : list (list Z)) : outcome (list (list Z)) :=
  if bool_decide (length a < 2)%nat then Ok a
  else dedup_loop (length a) 0 1 (Sort a).

(** The binary search: the interval halves, so its length is enough fuel. *)
Fixpoint search_loop (fuel i j : nat) (a : list (list Z)) (x : list Z) : outcome nat :=
  if bool_decide (i < j)%nat then
    match fuel with
    | O => Panic
    | S fuel =>
        let h := ((i + j) / 2)%nat in
        y ← index a h;
        if Compare y x <? 0 then search_loop fuel (h + 1) j a x
        else search_loop fuel i h a x
    end
  else Ok i.

Definition SearchBytes (a : list (list Z)) (x : list Z) : outcome nat :=
  search_loop (length a) 0 (length a) a x.

Definition Contains (a : list (list Z)) (x : list Z) : outcome bool :=
  n ← SearchBytes a x;
  Ok (match a !! n with Some y => bool_decide (y = x) | None => false end).

(** [SearchBytesFixed]: the slice is an array of words of [sz] bytes.  On an
    empty slice [j] is [-sz], and the loop is not entered either way. *)
Fixpoint fixed_loop (fuel i j sz : nat) (a : list Z) (fn : list Z -> outcome bool) : outcome nat :=
  if bool_decide (i < j)%nat then
    match fuel with
    | O => Panic
    | S fuel =>
        let h := ((i + j) / 2)%nat in
        let h := (h - h mod sz)%nat in
        w ← subslice a h (h + sz);
        b ← fn w;
        if b : bool then fixed_loop fuel i h sz a fn
        else fixed_loop fuel (h + sz) j sz a fn
    end
  else Ok i.

Definition SearchBytesFixed (a : list Z) (sz : nat) (fn : list Z -> outcome bool) : outcome nat :=
  if bool_decide (sz = 0)%nat then Panic
  else if negb (length a mod sz =? 0)%nat then Panic
  else fixed_loop (length a) 0 (length a - sz) sz a fn.

(** Every round takes an element of [a] or of [b], or both. *)
Fixpoint union_loop (fuel : nat) (a b : list (list Z)) : list (list Z) :=
  match fuel with
  | O => []
  | S fuel =>
      match a, b with
      | x :: a', y :: b' =>
          if Compare x y =? 0 then x :: union_loop fuel a' b'
          else if Compare x y =? -1 then x :: union_loop fuel a' b
          else y :: union_loop fuel a b'
      | x :: a', [] => x :: union_loop fuel a' []
      | [], y :: b' => y :: union_loop fuel [] b'
      | [], [] => []
      end
  end.
Definition Union (a b : list (list Z)) : list (list Z) := union_loop (length a + length b) a b.

Fixpoint intersect_loop (fuel : nat) (a b : list (list Z)) : list (list Z) :=
  match fuel with
  | O => []
  | S fuel =>
      match a, b with
      | x :: a', y :: b' =>
          if Compare x y =? 0 then x :: intersect_loop fuel a' b'
          else if Compare x y =? -1 then intersect_loop fuel a' b
          else intersect_loop fuel a b'
      | _, _ => []
      end
  end.
Definition Intersect (a b : list (list Z)) : list (list Z) := intersect_loop (length a + length b) a b.

(** ** Pack

    The index moves by [width], so the length is enough fuel for each loop. *)
Fixpoint skip_while (f : Z -> bool) (fuel i width : nat) (a : list Z) : nat :=
  match fuel, a !! i with
  | S fuel, Some x => if f x then skip_while f fuel (i + width) width a else i
  | _, _ => i
  end.
Definition skip_kept (val : Z) (i width : nat) (a : list Z) : nat :=
  skip_while (fun x => negb (x =? val)) (length a) i width a.
Definition skip_gap (val : Z) (i width : nat) (a : list Z) : nat :=
  skip_while (fun x => x =? val) (length a) i width a.

Fixpoint pack_loop (fuel i fin width : nat) (val : Z) (a : list Z) : outcome (list Z * nat) :=
  match fuel with
  | O => Panic
  | S fuel =>
      if bool_decide (i < length a)%nat then
        let jStart := skip_gap val i width a in
        let j := skip_kept val jStart width a in
        if bool_decide (jStart = length a) then Ok (a, fin)
        else
          run ← subslice a jStart j;
          pack_loop fuel j (fin + (j - jStart)) width val (splice a fin run)
      else Ok (a, fin)
  end.

Definition Pack (a : list Z) (width : nat) (val : Z) : outcome (list Z) :=
  if bool_decide (width = 0)%nat then Panic else
  let i := skip_kept val 0 width a in
  '(a, fin) ← pack_loop (S (length a)) i i width val a;
  subslice a 0 fin.

(** ** Time ranges *)
Record TimeRange := MkRange { Min : Z; Max : Z }.

#[global] Instance TimeRange_eq_dec : EqDecision TimeRange.
Proof. solve_decision. Defined.

Definition Overlaps (t : TimeRange) (min max : Z) : bool :=
  (Min t <=? max) && (min <=? Max t).

Fixpoint IsOverlapAny (r : TimeRange) (ranges : list TimeRange) : bool :=
  match ranges with
  | [] => false
  | tr :: ranges =>
      if Max tr <? Max r then IsOverlapAny r ranges
      else if (Min tr <=? Min r) && (Max r <=? Max tr) then true
      else if Min r <? Min tr then false
      else IsOverlapAny r ranges
  end.

(** ** Specification *)

(** Strictly sorted keys: what the index takes and keeps. *)
Definition sorted_keys (a : list (list Z)) : Prop := StronglySorted before a.

(** An array of words of [sz] bytes. *)
Definition words (sz : nat) (ws : list (list Z)) : Prop := Forall (fun w => length w = sz) ws.

(** Where a monotone predicate turns true among [n] words, the last one being the
    answer when it never does. *)
Definition turns (p : list Z -> bool) (ws : list (list Z)) (k : nat) : Prop :=
  (forall i w, (i < k)%nat -> ws !! i = Some w -> p w = false) /\
  (S k = length ws \/ exists w, ws !! k = Some w /\ p w = true).

(** A sorted slice without its repetitions. *)
Fixpoint uniq (a : list (list Z)) : list (list Z) :=
  match a with
  | x :: (y :: _) as a' => if bool_decide (x = y) then uniq a' else x :: uniq a'
  | _ => a
  end.

(** [r] covers what [IsOverlapAny] looks for. *)
Definition covers (r tr : TimeRange) : bool := (Min tr <=? Min r) && (Max r <=? Max tr).

(** * Lemmas *)

(** ** Sorting *)

Lemma not_after_total : Total not_after.
Proof. intros x y. unfold not_after. rewrite !not_before. destruct (before_total x y); naive_solver. Qed.

Lemma not_after_iff a b : not_after a b <-> before a b \/ a = b.
Proof. unfold not_after. rewrite not_before. naive_solver. Qed.

#[global] Instance not_after_trans : Transitive not_after.
Proof.
  intros x y z. rewrite !not_after_iff. intros [H1| ->] [H2| ->]; auto. left. by transitivity y.
Qed.

#[global] Instance not_after_antisymm : AntiSymm (=) not_after.
Proof.
  intros x y. rewrite !not_after_iff. intros [H1|] [H2|]; try done.
  by destruct (before_irrefl x (before_trans _ _ _ H1 H2)).
Qed.

Lemma Sort_perm a : Sort a ≡ₚ a.
Proof. apply merge_sort_Permutation. Qed.

Lemma Sort_sorted a : StronglySorted not_after (Sort a).
Proof. pose proof not_after_total. apply StronglySorted_merge_sort; apply _. Qed.

(** Sorting what is sorted changes nothing: testing first is an optimisation. *)
Lemma Sort_id a : StronglySorted not_after a -> Sort a = a.
Proof. intros H. apply (StronglySorted_unique not_after); [apply Sort_sorted|done|apply Sort_perm]. Qed.

Lemma StronglySorted_adjacent (R : list Z -> list Z -> Prop) `{!Transitive R} l :
  (forall i x y, l !! i = Some x -> l !! S i = Some y -> R x y) -> StronglySorted R l.
Proof.
  intros H. apply Sorted_StronglySorted; [done|]. induction l as [|x l IH]; [constructor|].
  constructor; [apply IH; intros i y z H1 H2; by apply (H (S i))|].
  destruct l as [|y l]; constructor. by apply (H 0%nat).
Qed.

Lemma IsSorted_true a : IsSorted a = true <-> StronglySorted not_after a.
Proof.
  unfold IsSorted. rewrite forallb_forall. split.
  - intros H. apply StronglySorted_adjacent; [apply _|]. intros i x y Hx Hy.
    assert (In i (rev (seq 0 (length a - 1)))) as Hin.
    { rewrite <- in_rev, in_seq. apply lookup_lt_Some in Hy. lia. }
    specialize (H i Hin). cbn in H. rewrite Hx, Hy in H.
    unfold not_after, before. destruct (Compare_range y x) as [E|[E|E]]; rewrite E in *; done || lia.
  - intros H i _. destruct (a !! i) as [x|] eqn:Hx; [|done]. destruct (a !! S i) as [y|] eqn:Hy; [|done].
    destruct (Z.eqb_spec (Compare y x) (-1)) as [E|]; [|done]. exfalso.
    assert (not_after x y) as Hxy; [|by apply Hxy; unfold before; lia].
    clear E. revert i Hx Hy. induction H as [|z l Hl IH Hz]; intros i Hx Hy; [done|].
    destruct i as [|i]; [|by apply (IH i)]. injection Hx as ->. cbn in Hy.
    rewrite Forall_forall in Hz. apply Hz. by eapply list_elem_of_lookup_2.
Qed.

(** ** Arrays of words *)

Lemma concat_words_length sz ws : words sz ws -> length (concat ws) = (sz * length ws)%nat.
Proof.
  induction 1 as [|w ws Hw _ IH]; [cbn; lia|]. cbn [concat length]. rewrite length_app, IH, Hw. lia.
Qed.

Lemma words_lookup sz ws k w : words sz ws -> ws !! k = Some w -> length w = sz.
Proof. intros H. exact (Forall_lookup_1 _ _ _ _ H). Qed.

Lemma drop_words sz ws k :
  words sz ws -> drop (sz * k) (concat ws) = concat (drop k ws).
Proof.
  intros H. revert ws H. induction k as [|k IH]; intros ws H; [by rewrite Nat.mul_0_r|].
  destruct H as [|w ws Hw H]; [cbn [concat drop]; by rewrite drop_nil|]. cbn [concat drop].
  rewrite drop_app_ge' by lia. rewrite <- IH by done. f_equal. lia.
Qed.

Lemma take_words sz ws k :
  words sz ws -> take (sz * k) (concat ws) = concat (take k ws).
Proof.
  intros H. revert ws H. induction k as [|k IH]; intros ws H; [by rewrite Nat.mul_0_r|].
  destruct H as [|w ws Hw H]; [cbn [concat take]; by rewrite take_nil|]. cbn [concat take].
  rewrite take_app, <- IH by done. rewrite take_ge by lia. do 2 f_equal. lia.
Qed.

Lemma subslice_words sz ws i j :
  words sz ws -> (i <= j <= length ws)%nat ->
  subslice (concat ws) (sz * i) (sz * j) = Ok (concat (drop i (take j ws))).
Proof.
  intros H Hij. unfold subslice. rewrite (concat_words_length sz) by done.
  rewrite decide_True by nia. rewrite (take_words sz) by done. rewrite (drop_words sz); [done|].
  by apply Forall_take.
Qed.

Lemma subslice_word sz ws k w :
  words sz ws -> ws !! k = Some w -> subslice (concat ws) (sz * k) (sz * k + sz) = Ok w.
Proof.
  intros H Hw. pose proof (lookup_lt_Some _ _ _ Hw) as Hk.
  replace (sz * k + sz)%nat with (sz * S k)%nat by lia.
  rewrite (subslice_words sz) by (done || lia). f_equal.
  rewrite (take_S_r ws k w) by done. rewrite drop_app_ge' by (rewrite length_take; lia).
  rewrite length_take, Nat.min_l by lia. rewrite Nat.sub_diag. cbn. by rewrite app_nil_r.
Qed.

Lemma round_half sz m : (sz <> 0 -> (sz * m) / 2 - (sz * m / 2) mod sz = sz * (m / 2))%nat.
Proof.
  intros H. pose proof (Nat.div_mod_eq (sz * m / 2) sz) as E.
  rewrite Nat.Div0.div_div, (Nat.mul_comm 2), Nat.Div0.div_mul_cancel_l in E by done. lia.
Qed.

(** ** Pack *)

Definition is_gap (val : Z) (w : list Z) : bool := bool_decide (head w = Some val).
Definition kept (val : Z) (ws : list (list Z)) : list (list Z) :=
  filter (fun w => is_gap val w = false) ws.

Lemma lookup_words sz ws k w :
  sz <> 0%nat -> words sz ws -> ws !! k = Some w -> concat ws !! (sz * k)%nat = head w.
Proof.
  intros Hsz H Hw. pose proof (drop_words sz ws k H) as E. rewrite (drop_S ws w k) in E by done.
  rewrite <- (Nat.add_0_r (sz * k)), <- lookup_drop, E. cbn [concat].
  pose proof (words_lookup _ _ _ _ H Hw) as Hl.
  by destruct w.
Qed.

Section pack.
Context (sz : nat) (val : Z) (Hsz : sz <> 0%nat).

Lemma skip_while_words f ws fuel k :
  words sz ws -> (k <= length ws)%nat -> (length ws - k <= fuel)%nat ->
  exists k', skip_while f fuel (sz * k) sz (concat ws) = (sz * k')%nat /\ (k <= k' <= length ws)%nat /\
    (forall i w, (k <= i < k')%nat -> ws !! i = Some w -> exists x, head w = Some x /\ f x = true) /\
    (forall w, ws !! k' = Some w -> exists x, head w = Some x /\ f x = false).
Proof.
  intros H. revert k. induction fuel as [|fuel IH]; intros k Hk Hf; cbn [skip_while].
  - exists k. split_and!; [done|lia|lia|lia|].
    intros w Hw%lookup_lt_Some. lia.
  - destruct (ws !! k) as [w|] eqn:Hw.
    + pose proof (words_lookup _ _ _ _ H Hw) as Hl.
      pose proof (lookup_lt_Some _ _ _ Hw) as Hlt.
      rewrite (lookup_words sz ws k w) by done. destruct w as [|x w]; [cbn in Hl; lia|]. cbn [head].
      destruct (f x) eqn:Hx.
      * destruct (IH (S k)) as (k' & E & Hk' & Hin & Hout); [lia..|]. exists k'.
        replace (sz * k + sz)%nat with (sz * S k)%nat by lia. split_and!; [done|lia|lia| |done].
        intros i v Hi Hv. destruct (decide (i = k)) as [->|]; [|apply (Hin i); [lia|done]].
        rewrite Hw in Hv. injection Hv as <-. by exists x.
      * exists k. split_and!; [done|lia|lia|lia|]. rewrite Hw. intros v [= <-]. by exists x.
    + apply lookup_ge_None_1 in Hw. rewrite lookup_ge_None_2 by (rewrite (concat_words_length sz) by done; nia).
      exists k. split_and!; [done|lia|lia|lia|]. intros w Hw'%lookup_lt_Some. lia.
Qed.

Lemma skip_gap_words ws k :
  words sz ws -> (k <= length ws)%nat ->
  exists k', skip_gap val (sz * k) sz (concat ws) = (sz * k')%nat /\ (k <= k' <= length ws)%nat /\
    kept val (drop k (take k' ws)) = [] /\ (forall w, ws !! k' = Some w -> is_gap val w = false).
Proof.
  intros H Hk. unfold skip_gap. destruct (skip_while_words (fun x => x =? val) ws (length (concat ws)) k)
    as (k' & E & Hk' & Hin & Hout); [done|done|rewrite (concat_words_length sz) by done; nia|].
  exists k'. split_and!; [exact E|lia|lia| |].
  - apply elem_of_nil_inv. intros w [Hg (i & Hi)%list_elem_of_lookup]%list_elem_of_filter.
    rewrite lookup_drop in Hi. pose proof (lookup_lt_Some _ _ _ Hi) as Hlt. rewrite length_take in Hlt.
    rewrite lookup_take_lt in Hi by lia. destruct (Hin (k + i)%nat w) as (x & Hx & Hv); [lia|done|].
    unfold is_gap in Hg. rewrite Hx in Hg. apply Z.eqb_eq in Hv as ->. by rewrite bool_decide_true in Hg.
  - intros w Hw. destruct (Hout w Hw) as (x & Hx & Hv). unfold is_gap. rewrite Hx.
    apply bool_decide_eq_false. intros [= ->]. by rewrite Z.eqb_refl in Hv.
Qed.

Lemma skip_kept_words ws k :
  words sz ws -> (k <= length ws)%nat ->
  exists k', skip_kept val (sz * k) sz (concat ws) = (sz * k')%nat /\ (k <= k' <= length ws)%nat /\
    kept val (drop k (take k' ws)) = drop k (take k' ws) /\
    (forall w, ws !! k = Some w -> is_gap val w = false -> (k < k')%nat).
Proof.
  intros H Hk. unfold skip_kept.
  destruct (skip_while_words (fun x => negb (x =? val)) ws (length (concat ws)) k)
    as (k' & E & Hk' & Hin & Hout); [done|done|rewrite (concat_words_length sz) by done; nia|].
  exists k'. split_and!; [exact E|lia|lia| |].
  - unfold kept. apply filter_all, Forall_lookup. intros i w Hi.
    rewrite lookup_drop in Hi. pose proof (lookup_lt_Some _ _ _ Hi) as Hlt. rewrite length_take in Hlt.
    rewrite lookup_take_lt in Hi by lia. destruct (Hin (k + i)%nat w) as (x & Hx & Hv); [lia|done|].
    unfold is_gap. rewrite Hx. apply bool_decide_eq_false. intros [= ->]. by rewrite Z.eqb_refl in Hv.
  - intros w Hw Hg. destruct (decide (k' = k)) as [->|]; [|lia].
    destruct (Hout w Hw) as (x & Hx & Hv). unfold is_gap in Hg. rewrite Hx in Hg.
    apply negb_false_iff, Z.eqb_eq in Hv as ->. by rewrite bool_decide_true in Hg.
Qed.
Lemma splice_words ws m run :
  words sz ws -> words sz run -> (m + length run <= length ws)%nat ->
  splice (concat ws) (sz * m) (concat run) = concat (splice ws m run) /\ words sz (splice ws m run).
Proof.
  intros H Hr Hm. unfold splice. rewrite (concat_words_length sz run) by done.
  rewrite (take_words sz) by done. rewrite <- Nat.mul_add_distr_l, (drop_words sz) by done.
  rewrite !concat_app. split; [done|]. unfold words in *. rewrite !Forall_app. split_and!; [by apply Forall_take|done|by apply Forall_drop].
Qed.

Lemma kept_take ws k k' : (k <= k')%nat -> kept val (take k' ws) = kept val (take k ws) ++ kept val (drop k (take k' ws)).
Proof.
  intros Hk. unfold kept. rewrite <- filter_app. f_equal.
  rewrite <- (take_drop k (take k' ws)) at 1. by rewrite take_take, Nat.min_l by lia.
Qed.

(** The packed part grows, the part after [k] is still the original one. *)
Lemma pack_loop_ok fuel ws a k m :
  words sz a -> length a = length ws -> drop k a = drop k ws -> (m <= k <= length ws)%nat ->
  take m a = kept val (take k ws) -> m = length (kept val (take k ws)) -> (length ws - k < fuel)%nat ->
  exists b, pack_loop fuel (sz * k) (sz * m) sz val (concat a) = Ok (concat b, (sz * length (kept val ws))%nat) /\
    words sz b /\ length b = length ws /\ take (length (kept val ws)) b = kept val ws.
Proof.
  revert a k m. induction fuel as [|fuel IH]; intros a k m Ha Hla Hd Hm Ht Hlm Hf; [lia|]. cbn [pack_loop].
  rewrite (concat_words_length sz) by done. case_bool_decide as Hlt.
  2: { assert (k = length ws) as -> by nia. rewrite firstn_all in *. exists a. by rewrite Hlm in Ht |- *. }
  destruct (skip_gap_words a k) as (k1 & E1 & Hk1 & Hgap & Hnot); [done|lia|]. rewrite E1.
  destruct (skip_kept_words a k1) as (k2 & E2 & Hk2 & Hrun & Hmore); [done|lia|]. rewrite E2.
  assert (forall j, drop k (take j a) = drop k (take j ws)) as Hdt.
  { intros j. destruct (decide (j <= k)%nat); [by rewrite !drop_ge by (rewrite length_take; lia)|].
    replace j with (k + (j - k))%nat by lia. by rewrite <- !take_drop_commute, Hd. }
  case_bool_decide as Hend.
  - assert (k1 = length ws) as -> by nia. exists a.
    assert (kept val ws = kept val (take k ws)) as Hk.
    { rewrite <- (firstn_all ws) at 1. rewrite (kept_take ws k), <- Hdt, Hgap by lia. by rewrite app_nil_r. }
    rewrite Hk, <- Hlm. done.
  - assert (k1 < length ws)%nat as Hk1' by nia.
    destruct (lookup_lt_is_Some_2 a k1) as [w Hw]; [lia|]. specialize (Hmore w Hw (Hnot w Hw)).
    rewrite (subslice_words sz) by (done || lia). cbn [mbind outcome_bind]. set (run := drop k1 (take k2 a)) in *.
    assert (length run = k2 - k1)%nat as Hrl by (unfold run; rewrite length_drop, length_take; lia).
    assert (words sz run) as Hrw by (by apply Forall_drop, Forall_take).
    destruct (splice_words a m run) as [-> Hsp]; [done|done|lia|].
    replace (sz * m + (sz * k2 - sz * k1))%nat with (sz * (m + (k2 - k1)))%nat by nia.
    assert (run = drop k1 (take k2 ws)) as Hrun'.
    { unfold run. specialize (Hdt k2). apply (f_equal (drop (k1 - k))) in Hdt. rewrite !drop_drop in Hdt.
      by replace (k + (k1 - k))%nat with k1 in Hdt by lia. }
    assert (kept val (take k2 ws) = kept val (take k ws) ++ run) as Hkept.
    { rewrite (kept_take ws k1), (kept_take ws k k1), <- (Hdt k1), Hgap, app_nil_r, <- Hrun', Hrun by lia. done. }
    apply IH.
    + done.
    + rewrite splice_length; lia.
    + unfold splice. rewrite app_assoc, drop_app_ge' by (rewrite length_app, length_take; lia).
      rewrite length_app, length_take, Nat.min_l, drop_drop by lia.
      replace (m + length run + (k2 - (m + length run)))%nat with k2 by lia.
      apply (f_equal (drop (k2 - k))) in Hd. rewrite !drop_drop in Hd. by replace (k + (k2 - k))%nat with k2 in Hd by lia.
    + lia.
    + rewrite <- Hrl, splice_take by lia. by rewrite Hkept, Ht.
    + rewrite Hkept, length_app. lia.
    + lia.
Qed.

Lemma Pack_words ws : words sz ws -> Pack (concat ws) sz val = Ok (concat (kept val ws)).
Proof.
  intros H. unfold Pack. rewrite bool_decide_false by done.
  destruct (skip_kept_words ws 0) as (k & E & Hk & Hrun & _); [done|lia|]. rewrite Nat.mul_0_r in E. rewrite E.
  cbv zeta. rewrite drop_0 in Hrun.
  destruct (pack_loop_ok (S (length (concat ws))) ws ws k k) as (b & -> & Hb & Hlb & Htb); try done; try lia.
  { rewrite Hrun, length_take. lia. }
  { rewrite (concat_words_length sz) by done. nia. }
  cbn [mbind outcome_bind]. pose proof (length_filter (fun w => is_gap val w = false) ws) as Hl. fold (kept val ws) in Hl.
  pose proof (subslice_words sz b 0 (length (kept val ws)) Hb) as Hs. rewrite Nat.mul_0_r in Hs.
  rewrite Hs by lia. by rewrite drop_0, Htb.
Qed.
End pack.

Section search.
Context (sz : nat) (ws : list (list Z)) (p : list Z -> bool) (fn : list Z -> outcome bool).
Context (Hsz : sz <> 0%nat) (Hws : words sz ws) (Hfn : forall i w, ws !! i = Some w -> fn w = Ok (p w)).
(** Once true, it stays true. *)
Context (Hmono : forall i j v w, (i <= j)%nat -> ws !! i = Some v -> ws !! j = Some w -> p v = true -> p w = true).

Lemma fixed_loop_turns fuel i j :
  (i <= j)%nat -> (S j <= length ws)%nat -> (j - i <= fuel)%nat ->
  (forall k w, (k < i)%nat -> ws !! k = Some w -> p w = false) ->
  (S j = length ws \/ exists w, ws !! j = Some w /\ p w = true) ->
  exists k, fixed_loop fuel (sz * i) (sz * j) sz (concat ws) fn = Ok (sz * k)%nat /\
    (k < length ws)%nat /\ turns p ws k.
Proof.
  revert i j. induction fuel as [|fuel IH]; intros i j Hij Hj Hf Hlow Hhigh; cbn [fixed_loop].
  - assert (j = i) as -> by lia. rewrite bool_decide_false by lia. exists i. split_and!; [done|lia|done].
  - case_bool_decide as Hlt.
    2: { assert (j = i) as -> by nia. exists i. split_and!; [done|lia|done]. }
    rewrite <- Nat.mul_add_distr_l, round_half by done. set (h := ((i + j) / 2)%nat).
    assert (i <= h < j)%nat as Hh.
    { assert (i < j)%nat by nia. unfold h. pose proof (Nat.div_mod_eq (i + j) 2).
      pose proof (Nat.mod_upper_bound (i + j) 2). lia. }
    destruct (lookup_lt_is_Some_2 ws h) as [w Hw]; [lia|].
    rewrite (subslice_word sz ws h w) by done. cbn [mbind outcome_bind]. rewrite (Hfn h) by done. cbn [mbind outcome_bind].
    destruct (p w) eqn:Hp.
    + apply IH; [lia..|done|eauto].
    + replace (sz * h + sz)%nat with (sz * S h)%nat by lia. apply IH; [lia..| |done].
      intros k v Hk Hv. destruct (p v) eqn:Hpv; [|done]. rewrite (Hmono k h v w) in Hp; [done|lia|done..].
Qed.

Lemma SearchBytesFixed_turns :
  ws <> [] ->
  exists k, SearchBytesFixed (concat ws) sz fn = Ok (sz * k)%nat /\ (k < length ws)%nat /\ turns p ws k.
Proof.
  intros Hne. unfold SearchBytesFixed. rewrite bool_decide_false by done.
  rewrite (concat_words_length sz) by done. rewrite Nat.mul_comm, Nat.Div0.mod_mul. cbn [negb Nat.eqb].
  assert (length ws <> 0%nat) as Hn by (intros E%length_zero_iff_nil; done).
  rewrite (Nat.mul_comm (length ws)). replace (sz * length ws - sz)%nat with (sz * (length ws - 1))%nat by (rewrite Nat.mul_sub_distr_l; lia).
  pose proof (fixed_loop_turns (sz * length ws) 0 (length ws - 1)) as H. rewrite Nat.mul_0_r in H.
  apply H; [lia|lia|nia|lia|left; lia].
Qed.
End search.

(** A monotone predicate turns at one place. *)
Lemma turns_unique p ws k w :
  turns p ws k -> ws !! k = Some w -> p w = true ->
  forall i v, ws !! i = Some v -> p v = true -> (k <= i)%nat.
Proof.
  intros [Hlow _] Hw Hp i v Hv Hpv. destruct (decide (k <= i)%nat) as [|Hlt]; [done|].
  rewrite (Hlow i v) in Hpv; [done|lia|done].
Qed.

(** ** Sets of keys *)

Lemma sorted_lookup {A} (R : A -> A -> Prop) l i j x y :
  StronglySorted R l -> (i < j)%nat -> l !! i = Some x -> l !! j = Some y -> R x y.
Proof.
  intros H. revert i j. induction H as [|z l Hl IH Hz]; intros i j Hij Hx Hy; [done|].
  destruct j as [|j]; [lia|]. destruct i as [|i]; [|by apply (IH i j); [lia|..]].
  injection Hx as ->. rewrite Forall_forall in Hz. apply Hz. by apply (list_elem_of_lookup_2 _ j).
Qed.

Lemma search_loop_ok a x fuel i j :
  StronglySorted not_after a -> (i <= j <= length a)%nat -> (j - i <= fuel)%nat ->
  (forall k y, (k < i)%nat -> a !! k = Some y -> before y x) ->
  (forall k y, (j <= k)%nat -> a !! k = Some y -> ~ before y x) ->
  exists n, search_loop fuel i j a x = Ok n /\ (n <= length a)%nat /\
    (forall k y, a !! k = Some y -> before y x <-> (k < n)%nat).
Proof.
  intros Ha. revert i j. induction fuel as [|fuel IH]; intros i j Hij Hf Hlo Hhi; cbn [search_loop];
    (case_bool_decide as Hlt;
      [|exists i; split_and!; [done|lia|]; intros k y Hk; split;
        [intros Hb; destruct (decide (k < i)%nat); [done|]; destruct (Hhi k y); [lia|done..]|by intros; apply (Hlo k)]]).
  { lia. }
  set (h := ((i + j) / 2)%nat).
  assert (i <= h < j)%nat as Hh.
  { unfold h. pose proof (Nat.div_mod_eq (i + j) 2). pose proof (Nat.mod_upper_bound (i + j) 2). lia. }
  destruct (lookup_lt_is_Some_2 a h) as [y Hy]; [lia|]. rewrite (index_lookup _ _ _ Hy). cbn [mbind outcome_bind].
  destruct (Z.ltb_spec (Compare y x) 0) as [Hb|Hb].
  - apply IH; [lia..| |done]. intros k z Hk Hz. destruct (decide (k = h)) as [->|].
    + rewrite Hy in Hz. by injection Hz as <-.
    + assert (not_after z y) as Hzy by (apply (sorted_lookup _ a k h); [done|lia|done..]).
      apply not_after_iff in Hzy as [Hzy| ->]; [by transitivity y|done].
  - apply IH; [lia..|done|]. intros k z Hk Hz Hzx. destruct (decide (k = h)) as [->|].
    + rewrite Hy in Hz. injection Hz as <-. unfold before in Hzx. lia.
    + assert (not_after y z) as Hyz by (apply (sorted_lookup _ a h k); [done|lia|done..]).
      assert (before y x); [|unfold before in *; lia].
      apply not_after_iff in Hyz as [Hyz| ->]; [by transitivity z|done].
Qed.

Lemma SearchBytes_ok a x :
  StronglySorted not_after a ->
  exists n, SearchBytes a x = Ok n /\ (n <= length a)%nat /\
    (forall k y, a !! k = Some y -> before y x <-> (k < n)%nat).
Proof.
  intros Ha. apply search_loop_ok; [done|lia|lia|lia|].
  intros k y Hk Hy%lookup_lt_Some. lia.
Qed.

Lemma Contains_ok a x :
  StronglySorted not_after a -> Contains a x = Ok (bool_decide (x ∈ a)).
Proof.
  intros Ha. destruct (SearchBytes_ok a x Ha) as (n & E & Hn & Hspec). unfold Contains. rewrite E.
  cbn [mbind outcome_bind]. f_equal. destruct (a !! n) as [y|] eqn:Hy.
  - apply bool_decide_ext. split; [intros ->; by apply (list_elem_of_lookup_2 _ n)|].
    intros (k & Hk)%list_elem_of_lookup. destruct (Nat.lt_trichotomy k n) as [Hlt|[->|Hlt]].
    + apply (Hspec k x Hk), before_irrefl in Hlt. done.
    + congruence.
    + assert (not_after y x) as Hyx by (apply (sorted_lookup _ a n k); done).
      apply not_after_iff in Hyx as [Hyx| ->]; [|done]. apply (Hspec n y Hy) in Hyx. lia.
  - symmetry. apply bool_decide_eq_false. intros (k & Hk)%list_elem_of_lookup.
    apply lookup_ge_None_1 in Hy. pose proof (lookup_lt_Some _ _ _ Hk).
    apply (before_irrefl x), (Hspec k x Hk). lia.
Qed.

Lemma uniq_cons x y a : uniq (x :: y :: a) = if bool_decide (x = y) then uniq (y :: a) else x :: uniq (y :: a).
Proof. done. Qed.

Lemma dedup_loop_ok fuel i j a :
  (0 < j <= length a)%nat -> (i < j)%nat -> (length a - j < fuel)%nat ->
  dedup_loop fuel i j a = Ok (take i a ++ uniq (drop (j - 1) a)).
Proof.
  revert i j a. induction fuel as [|fuel IH]; intros i j a Hj Hi Hf; [lia|]. cbn [dedup_loop].
  destruct (lookup_lt_is_Some_2 a (j - 1)) as [x Hx]; [lia|]. rewrite (index_lookup _ _ _ Hx).
  rewrite (drop_S a x) by done. replace (S (j - 1)) with j by lia.
  assert (forall b, take (S i) (<[i:=x]> a) ++ b = take i a ++ x :: b) as Htake.
  { intros b. rewrite (take_S_r _ i x) by (apply list_lookup_insert_eq; lia).
    rewrite take_insert_ge by lia. by rewrite <- app_assoc. }
  case_bool_decide as Hlt.
  - destruct (lookup_lt_is_Some_2 a j) as [y Hy]; [lia|]. rewrite (index_lookup _ _ _ Hy).
    cbn [mbind outcome_bind]. rewrite (drop_S a y j), uniq_cons by done. rewrite <- (drop_S a y j) by done.
    case_bool_decide as He.
    + rewrite IH by lia. by replace (S j - 1)%nat with j by lia.
    + rewrite store_in_range by lia. cbn [mbind outcome_bind]. rewrite IH by (rewrite ?length_insert; lia).
      rewrite Htake. replace (S j - 1)%nat with j by lia. by rewrite drop_insert_lt by lia.
  - cbn [mbind outcome_bind]. rewrite store_in_range by lia. cbn [mbind outcome_bind].
    unfold subslice. rewrite decide_True by (rewrite length_insert; lia). rewrite drop_0, (drop_ge a j) by lia.
    f_equal. rewrite <- (app_nil_r (take (S i) _)). apply Htake.
Qed.

Lemma elem_of_uniq x a : x ∈ uniq a <-> x ∈ a.
Proof.
  induction a as [|y [|z a] IH]; [done..|]. rewrite uniq_cons. case_bool_decide as E; set_solver.
Qed.

Lemma uniq_sorted a : StronglySorted not_after a -> sorted_keys (uniq a).
Proof.
  unfold sorted_keys. induction 1 as [|x [|y a] Ha IH Hx]; [constructor|repeat constructor|]. rewrite uniq_cons.
  case_bool_decide as E; [done|]. constructor; [done|]. rewrite Forall_forall in *. intros z Hz.
  rewrite elem_of_uniq in Hz. inversion_clear Ha as [|? ? ? Hy]. rewrite Forall_forall in Hy.
  assert (before x y) as Hxy by (specialize (Hx y); rewrite not_after_iff in Hx; set_solver).
  apply elem_of_cons in Hz as [-> |Hz]; [done|]. apply Hy, not_after_iff in Hz as [Hz| <-]; [by transitivity y|done].
Qed.

Lemma SortDedup_ok a : exists b, SortDedup a = Ok b /\ sorted_keys b /\ forall x, x ∈ b <-> x ∈ a.
Proof.
  unfold SortDedup. case_bool_decide as Hl.
  - exists a. split_and!; [done| |done]. destruct a as [|x [|y a]]; [constructor|repeat constructor|cbn in Hl; lia].
  - assert (length (Sort a) = length a) as Hs by (by rewrite Sort_perm).
    exists (uniq (Sort a)). rewrite dedup_loop_ok by lia. rewrite drop_0. split_and!; [done|apply uniq_sorted, Sort_sorted|].
    intros x. by rewrite elem_of_uniq, Sort_perm.
Qed.

(** Both merges of sorted sets: what comes out, in order. *)
Lemma sorted_keys_cons x a : sorted_keys (x :: a) <-> sorted_keys a /\ forall y, y ∈ a -> before x y.
Proof.
  unfold sorted_keys. rewrite <- Forall_forall. split; [apply StronglySorted_inv|]. intros [? ?]. by constructor.
Qed.

Lemma sorted_keys_tail x a : sorted_keys (x :: a) -> sorted_keys a.
Proof. by intros [? _]%sorted_keys_cons. Qed.

Lemma union_loop_ok fuel a b :
  sorted_keys a -> sorted_keys b -> (length a + length b <= fuel)%nat ->
  sorted_keys (union_loop fuel a b) /\ forall x, x ∈ union_loop fuel a b <-> x ∈ a \/ x ∈ b.
Proof.
  revert a b. induction fuel as [|fuel IH]; intros a b Ha Hb Hf.
  { destruct a, b; cbn in Hf; try lia. cbn. set_solver. }
  destruct a as [|x a], b as [|y b]; cbn [union_loop]; cbn [length] in Hf.
  - set_solver.
  - destruct (IH [] b) as [Hs He]; [done|by eapply sorted_keys_tail|cbn; lia|].
    rewrite sorted_keys_cons in Hb |- *. set_solver.
  - destruct (IH a []) as [Hs He]; [by eapply sorted_keys_tail|done|cbn; lia|].
    rewrite sorted_keys_cons in Ha |- *. set_solver.
  - pose proof Ha as Ha'. pose proof Hb as Hb'. apply sorted_keys_cons in Ha' as [Ha1 Ha2], Hb' as [Hb1 Hb2].
    destruct (Z.eqb_spec (Compare x y) 0) as [->%Compare_eq|Hne];
      [|destruct (Z.eqb_spec (Compare x y) (-1)) as [E|Hne']].
    + destruct (IH a b) as [Hs He]; [done|done|lia|]. rewrite sorted_keys_cons. set_solver.
    + assert (before x y) as Hxy by (unfold before; lia).
      destruct (IH a (y :: b)) as [Hs He]; [done|done|cbn; lia|]. rewrite sorted_keys_cons.
      split; [|set_solver]. split; [done|]. intros z [Hz|[-> |Hz]%elem_of_cons]%He; [auto|done|].
      transitivity y; auto.
    + assert (before y x) as Hxy by (unfold before; rewrite Compare_swap; pose proof (Compare_range x y); lia).
      destruct (IH (x :: a) b) as [Hs He]; [done|done|cbn; lia|]. rewrite sorted_keys_cons.
      split; [|set_solver]. split; [done|]. intros z [[-> |Hz]%elem_of_cons|Hz]%He; [done| |auto].
      transitivity x; auto.
Qed.

Lemma intersect_loop_ok fuel a b :
  sorted_keys a -> sorted_keys b -> (length a + length b <= fuel)%nat ->
  sorted_keys (intersect_loop fuel a b) /\ forall x, x ∈ intersect_loop fuel a b <-> x ∈ a /\ x ∈ b.
Proof.
  revert a b. induction fuel as [|fuel IH]; intros a b Ha Hb Hf.
  { destruct a; [|cbn in Hf; lia]. cbn. split; [constructor|set_solver]. }
  destruct a as [|x a], b as [|y b]; cbn [intersect_loop]; cbn [length] in Hf;
    try (split; [constructor|set_solver]).
  pose proof Ha as Ha'. pose proof Hb as Hb'. apply sorted_keys_cons in Ha' as [Ha1 Ha2], Hb' as [Hb1 Hb2].
  destruct (Z.eqb_spec (Compare x y) 0) as [->%Compare_eq|Hne];
    [|destruct (Z.eqb_spec (Compare x y) (-1)) as [E|Hne']].
  - destruct (IH a b) as [Hs He]; [done|done|lia|]. rewrite sorted_keys_cons.
    split; [set_solver|]. intros z. rewrite !elem_of_cons, He.
    split; [tauto|]. intros [[-> |H1] [H2|H2]]; auto.
  - assert (before x y) as Hxy by (unfold before; lia).
    destruct (IH a (y :: b)) as [Hs He]; [done|done|cbn; lia|]. split; [done|]. intros z.
    rewrite He, (elem_of_cons a). split; [tauto|]. intros [[-> |Hz] Hz2]; [|done]. exfalso.
    apply elem_of_cons in Hz2 as [-> |Hz2]; [by apply (before_irrefl y)|].
    apply (before_irrefl x). transitivity y; auto.
  - assert (before y x) as Hxy by (unfold before; rewrite Compare_swap; pose proof (Compare_range x y); lia).
    destruct (IH (x :: a) b) as [Hs He]; [done|done|cbn; lia|]. split; [done|]. intros z.
    rewrite He, (elem_of_cons b). split; [tauto|]. intros [Hz1 [-> |Hz]]; [|done]. exfalso.
    apply elem_of_cons in Hz1 as [-> |Hz1]; [by apply (before_irrefl x)|].
    apply (before_irrefl y). transitivity x; auto.
Qed.

(** ** Time ranges *)

Lemma IsOverlapAny_ok r ranges :
  StronglySorted (fun a b => Min a <= Min b) ranges -> IsOverlapAny r ranges = existsb (covers r) ranges.
Proof.
  induction 1 as [|tr l Hl IH Htr]; [done|]. cbn [IsOverlapAny existsb]. unfold covers at 1.
  destruct (Z.ltb_spec (Max tr) (Max r)) as [H1|H1].
  - rewrite (proj2 (Z.leb_gt (Max r) (Max tr))) by done. by rewrite andb_false_r.
  - rewrite (proj2 (Z.leb_le (Max r) (Max tr))) by lia. rewrite andb_true_r.
    destruct (Z.leb_spec (Min tr) (Min r)) as [H2|H2]; [done|].
    rewrite (proj2 (Z.ltb_lt _ _)) by lia. destruct (existsb (covers r) l) eqn:E; [|done].
    apply existsb_exists in E as (x & Hx%list_elem_of_In & Hc). rewrite Forall_forall in Htr. specialize (Htr x Hx).
    unfold covers in Hc. apply andb_true_iff in Hc as [Hc%Z.leb_le _]. lia.
Qed.

(** * Properties *)

(** slices of keys as sets.  [SortDedup] of any slice is the sorted slice of the
    same keys without repetitions; on such slices [Contains] decides membership,
    and [Union] and [Intersect] are again such slices, of exactly the keys of
    either and of both. *)
Theorem key_sets (c : list (list Z)) (a b : list (list Z)) (k : list Z) :
  sorted_keys a -> sorted_keys b ->
  (exists d, SortDedup c = Ok d /\ sorted_keys d /\ forall x, x ∈ d <-> x ∈ c) /\
  Contains a k = Ok (bool_decide (k ∈ a)) /\
  (sorted_keys (Union a b) /\ forall x, x ∈ Union a b <-> x ∈ a \/ x ∈ b) /\
  (sorted_keys (Intersect a b) /\ forall x, x ∈ Intersect a b <-> x ∈ a /\ x ∈ b).
Proof.
  intros Ha Hb. split_and!; [apply SortDedup_ok| |by apply union_loop_ok..|by apply intersect_loop_ok|by apply intersect_loop_ok].
  apply Contains_ok. clear -Ha. induction Ha as [|x l Hl IH Hx]; constructor; [done|].
  eapply Forall_impl; [exact Hx|]. intros y Hy. apply not_after_iff. by left.
Qed.

Lemma key_sets_witness :
  let a := [[97]; [97; 98]; [99]] in let b := [[97; 98]; [100]] in
  SortDedup [[99]; [97]; [99]] = Ok [[97]; [99]] /\
  Contains a [99] = Ok true /\ Union a b = [[97]; [97; 98]; [99]; [100]] /\ Intersect a b = [[97; 98]].
Proof.
  intros a b.
  assert (sorted_keys a) as Ha by (repeat constructor).
  assert (sorted_keys b) as Hb by (repeat constructor).
  destruct (key_sets [[99]; [97]; [99]] a b [99] Ha Hb) as (_ & -> & _). done.
Defined.

End Util.
