(* ===== verification/SSTIndex.v ===== *)
(** The index of a data file as it is written: the index entries and [directIndex]
    of src/storage/store/sst_writer.go, with the constants of sst_file.go. *)
From stdpp Require Import sets.
From S2P Require Import Prelude Binary Bytes Util.

Import Util.

Module SSTIndex.

Definition MagicNumber : Z := 0x16D216D2.
Definition Version : Z := 1.
Definition indexEntrySize : nat := 28.
Definition indexCountSize : nat := 2.
Definition indexTypeSize : nat := 1.
Definition maxIndexEntries : Z := 65535.
Definition maxKeyLength : Z := 65535.
Definition fsyncEvery : Z := 25 * 1024 * 1024.

Definition u32 (x : Z) : Z := x mod 2 ^ 32.

(** ** Index entries *)
Record IndexEntry := MkIndexEntry { MinTime : Z; MaxTime : Z; Offset : Z; Size : Z }.

#[global] Instance IndexEntry_eq_dec : EqDecision IndexEntry.
Proof. solve_decision. Defined.

Definition short_buf : string := "unmarshalBinary: short buf".

Definition entry_UnmarshalBinary (b : list Z) : outcome IndexEntry :=
  if bool_decide (length b < indexEntrySize)%nat then Err short_buf else
  min ← Uint64 b;
  max ← Uint64 (drop 8 b);
  off ← Uint64 (drop 16 b);
  sz ← Uint32 (drop 24 b);
  Ok (MkIndexEntry (i64 min) (i64 max) (i64 off) sz).

(** The returned slice shares its array with [b] when the capacity is enough. *)
Definition AppendTo (e : IndexEntry) (b : slice Z) : slice Z :=
  let b := if bool_decide (slen b < indexEntrySize)%nat
           then if bool_decide (scap b < indexEntrySize)%nat then make_slice 0 indexEntrySize indexEntrySize
                else Slice (backing b) indexEntrySize
           else b in
  let a := backing b in
  let a := splice a 0 (be_encode 8 (u64 (MinTime e))) in
  let a := splice a 8 (be_encode 8 (u64 (MaxTime e))) in
  let a := splice a 16 (be_encode 8 (u64 (Offset e))) in
  let a := splice a 24 (be_encode 4 (Size e)) in
  Slice a (slen b).

Definition entry_Contains (e : IndexEntry) (t : Z) : bool := (MinTime e <=? t) && (t <=? MaxTime e).
Definition entry_OverlapsTimeRange (e : IndexEntry) (min max : Z) : bool :=
  (MinTime e <=? max) && (min <=? MaxTime e).

(** [indexEntries] and its methods. *)
Record indexEntries := MkEntries { Type_ : Z; entries : list IndexEntry }.

(** [sort.IsSorted] over [Less]. *)
Definition entries_sorted (l : list IndexEntry) : bool :=
  forallb (fun i =>
    match l !! i, l !! S i with
    | Some x, Some y => negb (MinTime y <? MinTime x)
    | _, _ => true
    end) (rev (seq 0 (length l - 1))).

(** [entry.AppendTo(buf[indexEntrySize*i:])] writes into [buf]. *)
Fixpoint marshal_loop (i : nat) (l : list IndexEntry) (buf : list Z) : list Z :=
  match l with
  | [] => buf
  | e :: l =>
      let b := drop (indexEntrySize * i) buf in
      marshal_loop (S i) l (take (indexEntrySize * i) buf ++ backing (AppendTo e (Slice b (length b))))
  end.
Definition MarshalBinary (a : indexEntries) : list Z :=
  marshal_loop 0 (entries a) (replicate (length (entries a) * indexEntrySize) 0).

(** The bytes [WriteTo] passes on, from one array it writes again and again. *)
Fixpoint write_loop (l : list IndexEntry) (buf : slice Z) : list Z :=
  match l with
  | [] => []
  | e :: l => let buf := AppendTo e buf in contents buf ++ write_loop l buf
  end.
Definition entries_WriteTo (a : indexEntries) : list Z :=
  write_loop (entries a) (make_slice 0 indexEntrySize indexEntrySize).

(** ** The writer of an index

    [disk] says whether the index is buffered in a file ([fd]); [buf] is what went
    through the buffered writer and was not taken out yet. A nil [indexEntries] is an
    empty one of type 0. *)
Record directIndex := MkIndex {
  keyCount : Z; size : Z; lastSync : Z; disk : bool; buf : list Z;
  key : list Z; ies : indexEntries }.

Definition NewIndexWriter : directIndex := MkIndex 0 0 0 false [] [] (MkEntries 0 []).
Definition NewDiskIndexWriter : directIndex := MkIndex 0 0 0 true [] [] (MkEntries 0 []).

Definition too_many : string := "key exceeds max index entries".

Section writer.
(** [sort.Sort] leaves open the order of entries with the same [MinTime]. *)
Context (resort : list IndexEntry -> list IndexEntry).

(** The file system does not fail here; an error changes nothing. *)
Definition flush (d : directIndex) : outcome (directIndex * Z) :=
  match key d with
  | [] => Ok (d, 0)
  | k =>
      let es := entries (ies d) in
      if maxIndexEntries <? Z.of_nat (length es) then Err too_many else
      let es := if entries_sorted es then es else resort es in
      let out := be_encode 2 (Z.of_nat (length k)) ++ k ++ [Type_ (ies d)]
        ++ be_encode 2 (Z.of_nat (length es)) ++ entries_WriteTo (MkEntries (Type_ (ies d)) es) in
      let sync := disk d && (fsyncEvery <? u32 (size d - lastSync d)) in
      Ok (MkIndex (keyCount d) (size d) (if sync then size d else lastSync d) (disk d)
            (buf d ++ out) [] (MkEntries 0 []), Z.of_nat (length out))
  end.

(** The first entry of a new key. *)
Definition first_entry (d : directIndex) (k : list Z) (ty : Z) (e : IndexEntry) : directIndex :=
  MkIndex (keyCount d + 1)
    (u32 (u32 (u32 (size d + u32 (2 + Z.of_nat (length k))) + Z.of_nat indexCountSize) + Z.of_nat indexEntrySize))
    (lastSync d) (disk d) (buf d) k (MkEntries ty (entries (ies d) ++ [e])).

Definition Add (d : directIndex) (k : list Z) (ty minTime maxTime offset sz : Z) : outcome directIndex :=
  let e := MkIndexEntry minTime maxTime offset sz in
  match key d with
  | [] => Ok (first_entry d k ty e)
  | dk =>
      let cmp := Compare dk k in
      if cmp =? 0 then
        Ok (MkIndex (keyCount d) (u32 (size d + Z.of_nat indexEntrySize)) (lastSync d) (disk d) (buf d) dk
              (MkEntries (Type_ (ies d)) (entries (ies d) ++ [e])))
      else if cmp <? 0 then
        let d := match flush d with Ok (d, _) => d | _ => d end in
        Ok (first_entry d k ty e)
      else Panic
  end.

Definition index_Entries (d : directIndex) (k : list Z) : list IndexEntry :=
  match key d with
  | [] => []
  | dk => if bool_decide (dk = k) then entries (ies d) else []
  end.

Definition index_Entry (d : directIndex) (k : list Z) (t : Z) : option IndexEntry :=
  List.find (fun e => entry_Contains e t) (index_Entries d k).

Definition KeyCount (d : directIndex) : Z := keyCount d.

(** A buffer in memory is emptied by the copy, a file is not. *)
Definition WriteTo (d : directIndex) : outcome (directIndex * list Z) :=
  '(d, _) ← flush d;
  Ok (MkIndex (keyCount d) (size d) (lastSync d) (disk d) (if disk d then buf d else []) (key d) (ies d), buf d).
End writer.

(** ** Specification *)

(** The order of the entries of a key. *)
Definition starts_before (a b : IndexEntry) : Prop := MinTime a <= MinTime b.

(** What [sort.Sort] promises. *)
Definition sorts (resort : list IndexEntry -> list IndexEntry) : Prop :=
  forall l, resort l ≡ₚ l /\ StronglySorted starts_before (resort l).

(** The section of a key: its type and entries. *)
Record section := MkSection { s_key : list Z; s_type : Z; s_entries : list IndexEntry }.

#[global] Instance section_eq_dec : EqDecision section.
Proof. solve_decision. Defined.

Definition entry_bytes (e : IndexEntry) : list Z :=
  be_encode 8 (u64 (MinTime e)) ++ be_encode 8 (u64 (MaxTime e)) ++ be_encode 8 (u64 (Offset e)) ++ be_encode 4 (Size e).
Definition section_bytes (s : section) : list Z :=
  be_encode 2 (Z.of_nat (length (s_key s))) ++ s_key s ++ [s_type s]
  ++ be_encode 2 (Z.of_nat (length (s_entries s))) ++ concat (entry_bytes <$> s_entries s).
Definition index_bytes (l : list section) : list Z := concat (section_bytes <$> l).

Definition entry_ok (e : IndexEntry) : Prop :=
  is_i64 (MinTime e) /\ is_i64 (MaxTime e) /\ is_i64 (Offset e) /\ 0 <= Size e < 2 ^ 32.

(** What the index of a file holds: keys in order, each with entries in order. *)
Definition section_ok (s : section) : Prop :=
  s_key s <> [] /\ Z.of_nat (length (s_key s)) <= maxKeyLength /\ is_byte (s_type s) /\
  s_entries s <> [] /\ Z.of_nat (length (s_entries s)) <= maxIndexEntries /\
  Forall entry_ok (s_entries s) /\ StronglySorted starts_before (s_entries s).
Definition index_ok (l : list section) : Prop := Forall section_ok l /\ sorted_keys (s_key <$> l).

(** The blocks added for one key: each has its type, the first one counts. *)
Abbreviation group := (list Z * list (Z * IndexEntry))%type.
Definition in_order (resort : list IndexEntry -> list IndexEntry) (l : list IndexEntry) : list IndexEntry :=
  if entries_sorted l then l else resort l.
Definition section_of (resort : list IndexEntry -> list IndexEntry) (g : group) : section :=
  MkSection (fst g) (match snd g with (ty, _) :: _ => ty | [] => 0 end) (in_order resort (snd <$> snd g)).
Definition group_ok (g : group) : Prop :=
  fst g <> [] /\ Z.of_nat (length (fst g)) <= maxKeyLength /\ snd g <> [] /\
  Z.of_nat (length (snd g)) <= maxIndexEntries /\ Forall (fun te => is_byte (fst te) /\ entry_ok (snd te)) (snd g).

(** The calls of [Add] for a group, one after the other. *)
Fixpoint Add_all (resort : list IndexEntry -> list IndexEntry) (d : directIndex) (k : list Z)
    (l : list (Z * IndexEntry)) : outcome directIndex :=
  match l with
  | [] => Ok d
  | (ty, e) :: l =>
      d ← Add resort d k ty (MinTime e) (MaxTime e) (Offset e) (Size e);
      Add_all resort d k l
  end.
Fixpoint Add_groups (resort : list IndexEntry -> list IndexEntry) (d : directIndex) (gs : list group) : outcome directIndex :=
  match gs with
  | [] => Ok d
  | g :: gs => d ← Add_all resort d (fst g) (snd g); Add_groups resort d gs
  end.

(** * Lemmas *)

(** ** The format of entries *)

Lemma length_entry_bytes e : length (entry_bytes e) = indexEntrySize.
Proof. unfold entry_bytes, indexEntrySize. len. Qed.
#[export] Hint Rewrite length_entry_bytes : golen.

Lemma AppendTo_full e a n :
  (indexEntrySize <= n <= length a)%nat ->
  AppendTo e (Slice a n) = Slice (entry_bytes e ++ drop indexEntrySize a) n.
Proof.
  unfold indexEntrySize. intros Hn. unfold AppendTo, indexEntrySize. cbn [slen backing].
  rewrite bool_decide_false by lia. f_equal. cbn [backing].
  set (b0 := be_encode 8 (u64 (MinTime e))). set (b1 := be_encode 8 (u64 (MaxTime e))).
  set (b2 := be_encode 8 (u64 (Offset e))). set (b3 := be_encode 4 (Size e)).
  pose proof (length_be_encode 8 (u64 (MinTime e))) as H0. pose proof (length_be_encode 8 (u64 (MaxTime e))) as H1.
  pose proof (length_be_encode 8 (u64 (Offset e))) as H2. pose proof (length_be_encode 4 (Size e)) as H3.
  fold b0 in H0. fold b1 in H1. fold b2 in H2. fold b3 in H3.
  pose proof (splice_after [] a b0) as E0. cbn [length app] in E0. rewrite E0, H0.
  pose proof (splice_after b0 (drop 8 a) b1) as E1. rewrite H0, H1, drop_drop in E1. rewrite E1.
  pose proof (splice_after (b0 ++ b1) (drop 16 a) b2) as E2. rewrite length_app, H0, H1, H2, drop_drop, <- !app_assoc in E2.
  cbn [Nat.add] in *. rewrite E2.
  pose proof (splice_after (b0 ++ b1 ++ b2) (drop 24 a) b3) as E3.
  rewrite !length_app, H0, H1, H2, H3, drop_drop, <- !app_assoc in E3. cbn [Nat.add] in *. rewrite E3.
  unfold entry_bytes. fold b0 b1 b2 b3. by rewrite <- !app_assoc.
Qed.

Lemma write_loop_ok l a :
  length a = indexEntrySize -> write_loop l (Slice a indexEntrySize) = concat (entry_bytes <$> l).
Proof.
  revert a. induction l as [|e l IH]; intros a Ha; [done|]. cbn [write_loop]. rewrite AppendTo_full by lia.
  rewrite (drop_ge a) by lia. rewrite app_nil_r, IH by apply length_entry_bytes. rewrite fmap_cons. cbn [concat].
  unfold contents. cbn [slen backing]. by rewrite take_ge by (by rewrite length_entry_bytes).
Qed.

Lemma entries_WriteTo_ok a : entries_WriteTo a = concat (entry_bytes <$> entries a).
Proof. unfold entries_WriteTo, make_slice. by apply write_loop_ok. Qed.

Lemma marshal_entries_ok l i p q :
  length p = (indexEntrySize * i)%nat -> length q = (indexEntrySize * length l)%nat ->
  marshal_loop i l (p ++ q) = p ++ concat (entry_bytes <$> l).
Proof.
  revert i p q. induction l as [|e l IH]; intros i p q Hp Hq; cbn [marshal_loop].
  - destruct q; [done|cbn in Hq; lia].
  - rewrite <- Hp, drop_app_length, take_app_length, AppendTo_full by (cbn [length] in Hq; lia). cbn [backing].
    rewrite app_assoc, IH; [|len|len]. rewrite fmap_cons. cbn [concat]. by rewrite <- app_assoc.
Qed.

(** Marshalling and streaming write the same bytes. *)
Lemma MarshalBinary_ok a : MarshalBinary a = concat (entry_bytes <$> entries a).
Proof.
  unfold MarshalBinary. rewrite <- (app_nil_l (replicate _ _)), marshal_entries_ok; [done|cbn; lia|].
  rewrite length_replicate. lia.
Qed.

Lemma entry_roundtrip e r : entry_ok e -> entry_UnmarshalBinary (entry_bytes e ++ r) = Ok e.
Proof.
  destruct e as [t0 t1 o s]. intros (H0 & H1 & H2 & H3). cbn [MinTime MaxTime Offset Size] in *.
  unfold entry_UnmarshalBinary. rewrite bool_decide_false by len. unfold entry_bytes. cbn [MinTime MaxTime Offset Size].
  rewrite <- !app_assoc. change 24%nat with (8 + (8 + 8))%nat. change 16%nat with (8 + 8)%nat.
  rewrite <- !drop_drop, !drop_be_eq by done.
  rewrite !Uint64_encode by apply u64_range. cbn [mbind outcome_bind].
  rewrite be_uint_encode by (change (256 ^ Z.of_nat 4) with (2 ^ 32); lia). cbn [mbind outcome_bind].
  by rewrite !i64_u64, !i64_small.
Qed.

(** ** Sections *)

Lemma entries_sorted_true l : entries_sorted l = true <-> StronglySorted starts_before l.
Proof.
  unfold entries_sorted. rewrite forallb_forall. split.
  - intros H. apply Sorted_StronglySorted; [intros a b c; unfold starts_before; lia|].
    assert (forall i x y, l !! i = Some x -> l !! S i = Some y -> starts_before x y) as Hadj.
    { intros i x y Hx Hy. assert (In i (rev (seq 0 (length l - 1)))) as Hin.
      { rewrite <- in_rev, in_seq. apply lookup_lt_Some in Hy. lia. }
      specialize (H i Hin). cbn in H. rewrite Hx, Hy in H. unfold starts_before. lia. }
    clear H. induction l as [|x l IH]; [constructor|]. constructor; [apply IH; intros i; apply (Hadj (S i))|].
    destruct l as [|y l]; constructor. by apply (Hadj 0%nat).
  - intros H i _. destruct (l !! i) as [x|] eqn:Hx; [|done]. destruct (l !! S i) as [y|] eqn:Hy; [|done].
    enough (starts_before x y) by (unfold starts_before in *; lia).
    revert i Hx Hy. induction H as [|z l Hl IH Hz]; intros i Hx Hy; [done|].
    destruct i as [|i]; [|by apply (IH i)]. injection Hx as ->. cbn in Hy.
    rewrite Forall_forall in Hz. apply Hz. by eapply list_elem_of_lookup_2.
Qed.

Section written.
Context (resort : list IndexEntry -> list IndexEntry) (Hsort : sorts resort).

Lemma in_order_perm l : in_order resort l ≡ₚ l.
Proof. unfold in_order. destruct (entries_sorted l); [done|apply Hsort]. Qed.

Lemma in_order_sorted l : StronglySorted starts_before (in_order resort l).
Proof.
  unfold in_order. destruct (entries_sorted l) eqn:E; [by apply entries_sorted_true|apply Hsort].
Qed.

Lemma section_of_ok g : group_ok g -> section_ok (section_of resort g).
Proof.
  destruct g as [k l]. intros (Hk & Hk2 & Hl & Hl2 & Hf). cbn [fst snd] in *.
  assert (length (in_order resort (snd <$> l)) = length l) as Hn by (by rewrite in_order_perm, length_fmap).
  split_and!; cbn [section_of s_key s_type s_entries fst snd]; try done.
  - destruct l as [|[ty e] l]; [done|]. inversion_clear Hf as [|? ? [Hty _]]. exact Hty.
  - intros E. rewrite E in Hn. destruct l; [done|discriminate].
  - by rewrite Hn.
  - rewrite in_order_perm. apply Forall_fmap. eapply Forall_impl; [exact Hf|]. by intros [ty e] [_ He].
  - apply in_order_sorted.
Qed.
(** ** The states of the writer *)

Definition closed (d : directIndex) (prev : list section) : Prop :=
  buf d = index_bytes prev /\ key d = [] /\ ies d = MkEntries 0 [] /\ keyCount d = Z.of_nat (length prev) /\
  size d = u32 (Z.of_nat (length (index_bytes prev)) - Z.of_nat (length prev)).
Definition opened (d : directIndex) (prev : list section) (k : list Z) (ty : Z) (es : list IndexEntry) : Prop :=
  buf d = index_bytes prev /\ key d = k /\ ies d = MkEntries ty es /\ keyCount d = Z.of_nat (length prev) + 1 /\
  size d = u32 (Z.of_nat (length (index_bytes prev)) - Z.of_nat (length prev)
    + (4 + Z.of_nat (length k) + 28 * Z.of_nat (length es))).

(** What is written before a key [k] comes. *)
Definition ready (d : directIndex) (prev : list section) (k : list Z) : Prop :=
  closed d prev \/ exists d0 k0 ty es, prev = d0 ++ [MkSection k0 ty (in_order resort es)] /\ k0 <> [] /\
    before k0 k /\ Z.of_nat (length es) <= maxIndexEntries /\ opened d d0 k0 ty es.

Lemma length_section_bytes s :
  length (section_bytes s) = (5 + length (s_key s) + 28 * length (s_entries s))%nat.
Proof.
  unfold section_bytes. rewrite !length_app, !length_be_encode. cbn [length].
  enough (length (concat (entry_bytes <$> s_entries s)) = 28 * length (s_entries s))%nat by lia.
  induction (s_entries s) as [|e l IH]; [done|]. rewrite fmap_cons. cbn [concat length].
  rewrite length_app, length_entry_bytes, IH. unfold indexEntrySize. lia.
Qed.

Lemma index_bytes_snoc l s : index_bytes (l ++ [s]) = index_bytes l ++ section_bytes s.
Proof. unfold index_bytes. rewrite fmap_app, concat_app. cbn. by rewrite app_nil_r. Qed.

Lemma u32_idem_l x y : u32 (u32 x + y) = u32 (x + y).
Proof. unfold u32. by rewrite Zplus_mod_idemp_l. Qed.
Lemma u32_idem_r x y : u32 (x + u32 y) = u32 (x + y).
Proof. unfold u32. by rewrite Zplus_mod_idemp_r. Qed.

Lemma flush_opened d prev k ty es :
  opened d prev k ty es -> k <> [] -> Z.of_nat (length es) <= maxIndexEntries ->
  exists d' n, flush resort d = Ok (d', n) /\ closed d' (prev ++ [MkSection k ty (in_order resort es)]) /\
    disk d' = disk d /\ size d' = size d /\ keyCount d' = keyCount d.
Proof.
  intros (Hb & Hk & Hi & Hc & Hs) Hne Hl. unfold flush. rewrite Hk, Hi. cbn [entries Type_].
  destruct k as [|x k0] eqn:Ek; [done|]. rewrite <- Ek in *. clear Ek.
  rewrite (proj2 (Z.ltb_ge _ _)) by done. fold (in_order resort es). rewrite entries_WriteTo_ok. cbn [entries].
  eexists _, _. split; [done|]. split; [|done].
  cbn [size keyCount]. assert (length (in_order resort es) = length es) as Hn by (by rewrite in_order_perm).
  unfold closed. cbn [buf key ies keyCount size].
  rewrite index_bytes_snoc, Hb, Hc, Hs, !length_app, length_section_bytes. unfold section_bytes.
  cbn [length s_key s_entries s_type]. rewrite Hn. split_and!; [done..|lia|]. f_equal. lia.
Qed.

Lemma first_entry_opened d prev k ty e :
  closed d prev -> opened (first_entry d k ty e) prev k ty [e].
Proof.
  intros (Hb & _ & Hi & Hc & Hs). unfold opened, first_entry. cbn [buf key ies keyCount size]. rewrite Hi, Hc.
  split_and!; [done..|]. rewrite Hs, !u32_idem_l, u32_idem_r, <- !Z.add_assoc, u32_idem_l. f_equal.
  unfold indexCountSize, indexEntrySize. cbn [length]. lia.
Qed.

Lemma Add_first d prev k ty e :
  ready d prev k ->
  exists d', Add resort d k ty (MinTime e) (MaxTime e) (Offset e) (Size e) = Ok d' /\
    opened d' prev k ty [e] /\ disk d' = disk d.
Proof.
  assert (MkIndexEntry (MinTime e) (MaxTime e) (Offset e) (Size e) = e) as He by (by destruct e).
  intros [H|(d0 & k0 & ty0 & es & -> & Hne & Hb & Hl & H)]; unfold Add; rewrite He.
  - rewrite (proj1 (proj2 H)). eexists. split; [done|]. split; [by apply first_entry_opened|done].
  - rewrite (proj1 (proj2 H)). destruct k0 as [|x k1] eqn:Ek; [done|]. rewrite <- Ek in *. clear Ek.
    unfold before in Hb. rewrite (proj2 (Z.eqb_neq _ 0)), (proj2 (Z.ltb_lt _ 0)) by lia.
    destruct (flush_opened d d0 k0 ty0 es H Hne Hl) as (d' & n & -> & Hcl & Hd & _). eexists. split; [done|].
    split; [by apply first_entry_opened|done].
Qed.

Lemma Add_more d prev k ty0 ty es e :
  k <> [] -> opened d prev k ty0 es ->
  exists d', Add resort d k ty (MinTime e) (MaxTime e) (Offset e) (Size e) = Ok d' /\
    opened d' prev k ty0 (es ++ [e]) /\ disk d' = disk d.
Proof.
  assert (MkIndexEntry (MinTime e) (MaxTime e) (Offset e) (Size e) = e) as He by (by destruct e).
  intros Hne (Hb & Hk & Hi & Hc & Hs). unfold Add. rewrite Hk, He. destruct k as [|x k1] eqn:Ek; [done|].
  rewrite <- Ek in *. clear Ek. rewrite Compare_refl. eexists. split; [done|]. split; [|done].
  unfold opened. cbn [buf key ies keyCount size]. rewrite Hi. split_and!; [done..|].
  rewrite Hs, u32_idem_l, length_app. f_equal. unfold indexEntrySize. cbn [length]. lia.
Qed.

Lemma Add_all_more l d prev k ty es :
  k <> [] -> opened d prev k ty es ->
  exists d', Add_all resort d k l = Ok d' /\ opened d' prev k ty (es ++ (snd <$> l)) /\ disk d' = disk d.
Proof.
  intros Hne. revert d es. induction l as [|[ty' e] l IH]; intros d es H; cbn [Add_all].
  - exists d. by rewrite fmap_nil, app_nil_r.
  - destruct (Add_more d prev k ty ty' es e Hne H) as (d1 & -> & H1 & Hd). cbn [mbind outcome_bind].
    destruct (IH d1 _ H1) as (d2 & -> & H2 & Hd2). exists d2. rewrite fmap_cons, cons_middle, app_assoc. by rewrite <- Hd.
Qed.

Lemma Add_all_ok g d prev :
  group_ok g -> ready d prev (fst g) ->
  exists d', Add_all resort d (fst g) (snd g) = Ok d' /\ disk d' = disk d /\
    opened d' prev (fst g) (s_type (section_of resort g)) (snd <$> snd g).
Proof.
  destruct g as [k [|[ty e] l]]; intros (Hk & _ & Hl & _) Hr; [done|]. cbn [fst snd Add_all section_of s_type] in *.
  destruct (Add_first d prev k ty e Hr) as (d1 & -> & H1 & Hd). cbn [mbind outcome_bind].
  destruct (Add_all_more l d1 prev k ty [e] Hk H1) as (d2 & -> & H2 & Hd2). exists d2. by rewrite <- Hd.
Qed.

Lemma Add_groups_ok gs : forall d prev,
  Forall group_ok gs -> sorted_keys (fst <$> gs) -> (forall g, head gs = Some g -> ready d prev (fst g)) -> gs <> [] ->
  exists d' prev' g, Add_groups resort d gs = Ok d' /\ disk d' = disk d /\ group_ok g /\
    prev ++ (section_of resort <$> gs) = prev' ++ [section_of resort g] /\
    opened d' prev' (fst g) (s_type (section_of resort g)) (snd <$> snd g).
Proof.
  induction gs as [|g gs IH]; intros d prev Hok Hs Hr Hne; [done|]. cbn [Add_groups]. inversion_clear Hok as [|? ? Hg Hok'].
  destruct (Add_all_ok g d prev Hg (Hr g eq_refl)) as (d1 & -> & Hd1 & H1). cbn [mbind outcome_bind].
  change (sorted_keys (fst g :: (fst <$> gs))) in Hs. apply sorted_keys_cons in Hs as [Hs Hb]. rewrite fmap_cons. destruct gs as [|g2 gs].
  - exists d1, prev, g. done.
  - destruct (IH d1 (prev ++ [section_of resort g])) as (d2 & prev2 & g3 & -> & Hd2 & Hg3 & Hdone & H2); [done..| |done|].
    { intros g' [= <-]. right. exists prev, (fst g), (s_type (section_of resort g)), (snd <$> snd g).
      destruct Hg as (Hk & _ & _ & Hl & _). split_and!; [done|done|apply Hb; set_solver|by rewrite length_fmap|done]. }
    exists d2, prev2, g3. rewrite Hd2. split_and!; [done..| |done]. by rewrite <- Hdone, <- app_assoc.
Qed.

Lemma index_written_lemma dk gs :
  let d0 := if dk : bool then NewDiskIndexWriter else NewIndexWriter in
  Forall group_ok gs -> sorted_keys (fst <$> gs) ->
  let ss := section_of resort <$> gs in
  exists d d', Add_groups resort d0 gs = Ok d /\ WriteTo resort d = Ok (d', index_bytes ss) /\
    KeyCount d = Z.of_nat (length gs) /\
    size d = u32 (Z.of_nat (length (index_bytes ss)) - Z.of_nat (length gs)) /\ index_ok ss.
Proof.
  intros d0 Hok Hs ss.
  assert (index_ok ss) as Hss.
  { split; [|by unfold ss; rewrite <- list_fmap_compose].
    unfold ss. apply Forall_fmap. eapply Forall_impl; [exact Hok|]. intros g. apply section_of_ok. }
  assert (closed d0 []) as H0 by (unfold d0; by destruct dk).
  destruct gs as [|g gs].
  { exists d0, d0. split_and!; try done; unfold d0; by destruct dk. }
  destruct (Add_groups_ok (g :: gs) d0 [] Hok Hs) as (d & prev' & g' & E & Hd & Hg' & Hdone & H); [by left|done|].
  exists d. rewrite app_nil_l in Hdone. fold ss in Hdone. pose proof Hg' as (Hk & _ & _ & Hl & _).
  destruct (flush_opened _ _ _ _ _ H Hk) as (d1 & n & Hf & Hc & Hd1 & Hz & Hkc); [by rewrite length_fmap|].
  eexists. unfold WriteTo. rewrite Hf. cbn [mbind outcome_bind]. rewrite (proj1 Hc).
  assert (length ss = length (g :: gs)) as Hn by (unfold ss; by rewrite length_fmap).
  change (MkSection (fst g') _ _) with (section_of resort g') in Hc |- *. rewrite <- Hdone in Hc |- *.
  destruct Hc as (_ & _ & _ & Hc & Hc2). unfold KeyCount. rewrite <- Hz, <- Hkc, <- Hn. done.
Qed.
End written.

#[global] Instance starts_before_dec a b : Decision (starts_before a b).
Proof. unfold starts_before. apply _. Defined.

(** A sort that keeps the order of equals is one of those the library may use. *)
Lemma merge_sort_sorts : sorts (merge_sort starts_before).
Proof.
  intros l. split; [apply merge_sort_Permutation|].
  apply StronglySorted_merge_sort; [intros a b c; unfold starts_before; lia|intros a b; unfold starts_before; lia].
Qed.

(** * Properties *)

(** the index writer.  Blocks added key after key, in the order of the keys, come
    out of [WriteTo] as one section per key, with the type of its first block and
    its entries sorted by time, whether the index is buffered in memory or in a
    file; the keys are counted, and [Size] is the length in bytes but for the type
    byte of each key, which it forgets. *)
Theorem index_written resort (on_disk : bool) (gs : list group) :
  sorts resort -> Forall group_ok gs -> sorted_keys (fst <$> gs) ->
  let ss := section_of resort <$> gs in
  exists d d', Add_groups resort (if on_disk then NewDiskIndexWriter else NewIndexWriter) gs = Ok d /\
    WriteTo resort d = Ok (d', index_bytes ss) /\ index_ok ss /\
    KeyCount d = Z.of_nat (length gs) /\
    size d = u32 (Z.of_nat (length (index_bytes ss)) - Z.of_nat (length gs)).
Proof.
  intros Hsort Hok Hs ss.
  destruct (index_written_lemma resort Hsort on_disk gs Hok Hs) as (d & d' & H1 & H2 & H3 & H4 & H5).
  exists d, d'. done.
Qed.

Lemma index_written_witness :
  let e1 := MkIndexEntry 30 40 100 20 in let e2 := MkIndexEntry 10 20 5 95 in
  let gs := [([97], [(1, e1); (1, e2)]); ([98], [(2, e1)])] in
  let ss := [MkSection [97] 1 [e2; e1]; MkSection [98] 2 [e1]] in
  exists d d', Add_groups (merge_sort starts_before) NewIndexWriter gs = Ok d /\
    WriteTo (merge_sort starts_before) d = Ok (d', index_bytes ss) /\ index_ok ss /\
    KeyCount d = 2 /\ size d = u32 (Z.of_nat (length (index_bytes ss)) - 2).
Proof.
  intros e1 e2 gs ss. apply (index_written (merge_sort starts_before) false gs merge_sort_sorts).
  - repeat constructor; cbn; lia || done.
  - repeat constructor.
Defined.

(** The empty key.  The writer takes it for "no key yet": its entries are counted as
    a key of their own and then handed to the next key, of whatever type, and alone
    they are never written. *)
Theorem index_empty_key resort ty e k ty2 e2 :
  k <> [] -> MinTime e <= MinTime e2 ->
  (exists d, Add_groups resort NewIndexWriter [([], [(ty, e)])] = Ok d /\ KeyCount d = 1 /\
    exists d', WriteTo resort d = Ok (d', [])) /\
  (exists d, Add_groups resort NewIndexWriter [([], [(ty, e)]); (k, [(ty2, e2)])] = Ok d /\ KeyCount d = 2 /\
    exists d', WriteTo resort d = Ok (d', index_bytes [MkSection k ty2 [e; e2]])).
Proof.
  destruct e as [t0 t1 o sz], e2 as [t0' t1' o' sz']. cbn [MinTime]. intros Hk He. split.
  - eexists. split; [done|]. split; [done|]. eexists. done.
  - exists (first_entry (first_entry NewIndexWriter [] ty (MkIndexEntry t0 t1 o sz)) k ty2 (MkIndexEntry t0' t1' o' sz')).
    destruct k as [|x k1]; [done|]. split; [done|]. split; [done|]. eexists. unfold WriteTo, flush, first_entry.
    cbn [key ies entries Type_ buf app NewIndexWriter disk].
    change (maxIndexEntries <? Z.of_nat _) with false. cbv iota. rewrite (proj2 (entries_sorted_true _)).
    2: { repeat constructor. exact He. }
    rewrite entries_WriteTo_ok. cbn [mbind outcome_bind buf app]. unfold index_bytes. cbn [fmap list_fmap concat].
    by rewrite app_nil_r.
Qed.

Lemma index_empty_key_witness :
  let e := MkIndexEntry 1 2 5 10 in let e2 := MkIndexEntry 3 4 15 10 in
  exists d, Add_groups (merge_sort starts_before) NewIndexWriter [([], [(1, e)]); ([97], [(2, e2)])] = Ok d /\
    KeyCount d = 2 /\
    exists d', WriteTo (merge_sort starts_before) d = Ok (d', index_bytes [MkSection [97] 2 [e; e2]]).
Proof. intros e e2. apply (index_empty_key (merge_sort starts_before) 1 e [97] 2 e2); [done|cbn; lia]. Defined.

End SSTIndex.
