(* ===== verification/IndirectIndex.v ===== *)
(** The index of a data file as it is read: [indirectIndex], [readKey] and
    [readEntries] of src/storage/store/sst_index.go. *)
From stdpp Require Import gmap sets.
From S2P Require Import Prelude Binary Bytes Util SSTIndex.
Import Util SSTIndex.

Module IndirectIndex.

Definition i32 (x : Z) : Z := (x + 2 ^ 31) mod 2 ^ 32 - 2 ^ 31.
Definition minInt64 : Z := - 2 ^ 63.
Definition maxInt64 : Z := 2 ^ 63 - 1.

(** ** Sections in a byte slice *)

Definition readKey (b : list Z) : outcome (Z * list Z) :=
  size ← Uint16 b;
  key ← zslice b 2 (2 + size);
  Ok (2 + Z.of_nat (length key), key).

Definition no_header : string := "readEntries: data too short for headers".

Fixpoint read_entries_loop (n : nat) (b : list Z) : outcome (list IndexEntry) :=
  match n with
  | O => Ok []
  | S n =>
      e ← entry_UnmarshalBinary b;
      l ← read_entries_loop n (drop indexEntrySize b);
      Ok (e :: l)
  end.

(** The number of bytes read comes with the type and the entries. *)
Definition readEntries (b : list Z) : outcome (Z * indexEntries) :=
  if bool_decide (length b < 1 + indexCountSize)%nat then Err no_header else
  ty ← index b 0;
  count ← Uint16 (drop 1 b);
  l ← read_entries_loop (Z.to_nat count) (drop (indexCountSize + indexTypeSize) b);
  Ok (1 + Z.of_nat indexCountSize + count * Z.of_nat indexEntrySize, MkEntries ty l).

(** ** The index

    [offsets] is an array of words of four bytes; a key without tombstones has no
    binding in the map. The lock is left out. *)
Record indirectIndex := MkIndirect {
  b : list Z; offsets : list Z; minKey : list Z; maxKey : list Z; minTime : Z; maxTime : Z;
  tombstones : gmap (list Z) (list TimeRange) }.

Definition NewIndirectIndex : indirectIndex := MkIndirect [] [] [] [] 0 0 ∅.

Definition offset (d : indirectIndex) (i : Z) : outcome Z :=
  if (i <? 0) || (Z.of_nat (length (offsets d)) <? i + 4) then Ok (-1)
  else w ← zslice (offsets d) (i * 4) (i * 4 + 4); Uint32 w.

(** The function the binary searches call on a word. *)
Definition not_less (d : indirectIndex) (key x : list Z) : outcome bool :=
  o ← Uint32 x;
  let o := i32 o in
  w ← zslice (b d) o (i32 (o + 2));
  keyLen ← Uint16 w;
  k ← zslice (b d) (i32 (o + 2)) (i32 (i32 (o + 2) + keyLen));
  Ok (0 <=? Compare k key).

Definition searchOffset (d : indirectIndex) (key : list Z) : outcome nat :=
  i ← SearchBytesFixed (offsets d) 4 (not_less d key);
  if bool_decide (i < length (offsets d))%nat then Ok (i / 4)%nat else Ok (length (offsets d) / 4)%nat.

Definition Seek (d : indirectIndex) (key : list Z) : outcome nat := searchOffset d key.

Definition ContainsKey (d : indirectIndex) (key : list Z) : bool :=
  (0 <=? Compare key (minKey d)) && (Compare key (maxKey d) <=? 0).

(** The position of a key, or the length of the index. *)
Definition search (d : indirectIndex) (key : list Z) : outcome Z :=
  let none := Z.of_nat (length (b d)) in
  if negb (ContainsKey d key) then Ok none else
  i ← SearchBytesFixed (offsets d) 4 (not_less d key);
  if bool_decide (i < length (offsets d))%nat then
    w ← subslice (offsets d) i (i + 4);
    ofs ← Uint32 w;
    r ← ztail (b d) ofs;
    '(_, k) ← readKey r;
    if bool_decide (key = k) then Ok ofs else Ok none
  else Ok none.

(** An error of [readEntries] is a panic here. *)
Definition readEntriesAt (d : indirectIndex) (ofs : Z) : outcome (list Z * list IndexEntry) :=
  r ← ztail (b d) ofs;
  '(n, k) ← readKey r;
  r ← ztail (b d) (ofs + n);
  match readEntries r with
  | Ok (_, ie) => Ok (k, entries ie)
  | _ => Panic
  end.

(** [None] is nil: no such key. *)
Definition ReadEntries (d : indirectIndex) (key : list Z) : outcome (option (list IndexEntry)) :=
  ofs ← search d key;
  if ofs <? Z.of_nat (length (b d)) then
    '(k, es) ← readEntriesAt d ofs;
    if bool_decide (key = k) then Ok (Some es) else Ok None
  else Ok None.

Definition Entries (d : indirectIndex) (key : list Z) : outcome (option (list IndexEntry)) := ReadEntries d key.

Definition Entry (d : indirectIndex) (key : list Z) (timestamp : Z) : outcome (option IndexEntry) :=
  es ← Entries d key;
  Ok (List.find (fun e => entry_Contains e timestamp) (default [] es)).

Definition KeyCount (d : indirectIndex) : Z := Z.of_nat (length (offsets d) / 4).

Definition Key (d : indirectIndex) (idx : Z) : outcome (option (list Z * Z * list IndexEntry)) :=
  if (idx <? 0) || (Z.of_nat (length (offsets d)) <? idx * 4 + 4) then Ok None else
  w ← zslice (offsets d) (idx * 4) (idx * 4 + 4);
  ofs ← Uint32 w;
  r ← ztail (b d) ofs;
  '(n, key) ← readKey r;
  r ← ztail (b d) (ofs + n);
  typ ← index r 0;
  match readEntries r with
  | Ok (_, ie) => Ok (Some (key, typ, entries ie))
  | Err _ => Ok None
  | Panic => Panic
  end.

Definition KeyAt (d : indirectIndex) (idx : Z) : outcome (option (list Z * Z)) :=
  if (idx <? 0) || (Z.of_nat (length (offsets d)) <? idx * 4 + 4) then Ok None else
  w ← zslice (offsets d) (idx * 4) (idx * 4 + 4);
  ofs ← Uint32 w;
  let ofs := i32 ofs in
  r ← ztail (b d) ofs;
  '(n, key) ← readKey r;
  r ← ztail (b d) (i32 (ofs + i32 n));
  typ ← index r 0;
  Ok (Some (key, typ)).

(** ** Deletion *)

Definition nilOffset : list Z := [255; 255; 255; 255].

(** [for len(keys) > 0 && bytes.Compare(keys[0], k) < 0 { keys = keys[1:] }]. *)
Fixpoint skip_keys (k : list Z) (keys : list (list Z)) : list (list Z) :=
  match keys with
  | k0 :: keys' => if Compare k0 k <? 0 then skip_keys k keys' else keys
  | [] => []
  end.

Definition with_offsets (d : indirectIndex) (o : list Z) : indirectIndex :=
  MkIndirect (b d) o (minKey d) (maxKey d) (minTime d) (maxTime d) (tombstones d).

(** The index moves by a word per round. *)
Fixpoint delete_loop (fuel i : nat) (keys : list (list Z)) (bs offs : list Z) : outcome (list Z) :=
  if bool_decide (i + 4 <= length offs)%nat && bool_decide (keys <> []) then
    match fuel with
    | O => Panic
    | S fuel =>
        w ← subslice offs i (i + 4);
        o ← Uint32 w;
        r ← ztail bs o;
        '(_, indexKey) ← readKey r;
        match skip_keys indexKey keys with
        | k :: keys =>
            if bool_decide (k = indexKey) then delete_loop fuel (i + 4) keys bs (splice offs i nilOffset)
            else delete_loop fuel (i + 4) (k :: keys) bs offs
        | [] => delete_loop fuel (i + 4) [] bs offs
        end
    end
  else Ok offs.

Definition sorted_copy (keys : list (list Z)) : list (list Z) := if IsSorted keys then keys else Sort keys.

Definition Delete (d : indirectIndex) (keys : list (list Z)) : outcome indirectIndex :=
  match sorted_copy keys with
  | [] => Ok d
  | (k :: _) as keys =>
      start ← searchOffset d k;
      o ← delete_loop (length (offsets d)) (start * 4) keys (b d) (offsets d);
      o ← Pack o 4 255;
      Ok (with_offsets d o)
  end.

(** ** Deletion of a range *)

(** [sort.Slice] with the order of both ends; ranges that are equal in it are
    equal. *)
Definition range_le (a c : TimeRange) : Prop := Min a < Min c \/ (Min a = Min c /\ Max a <= Max c).

#[global] Instance range_le_dec a c : Decision (range_le a c).
Proof. unfold range_le. apply _. Defined.

Definition range_less (a c : TimeRange) : bool := if Min a =? Min c then Max a <=? Max c else Min a <? Min c.

Definition ranges_sorted (l : list TimeRange) : bool :=
  forallb (fun i =>
    match l !! i, l !! S i with
    | Some x, Some y => negb (range_less y x)
    | _, _ => true
    end) (rev (seq 0 (length l - 1))).

Definition sort_ranges (l : list TimeRange) : list TimeRange :=
  if bool_decide (1 < length l)%nat && negb (ranges_sorted l) then merge_sort range_le l else l.

(** The window that grows by adjacent and overlapping ranges. *)
Fixpoint grow (prev : TimeRange) (l : list TimeRange) (minTs maxTs : Z) : Z * Z :=
  match l with
  | [] => (minTs, maxTs)
  | ts :: l =>
      if negb (Max prev =? i64 (Min ts - 1)) && negb (Overlaps prev (Min ts) (Max ts)) then (maxInt64, minInt64)
      else grow ts l (if Min ts <? minTs then Min ts else minTs) (if maxTs <? Max ts then Max ts else maxTs)
  end.

Definition TombstoneRange (d : indirectIndex) (key : list Z) : list TimeRange := default [] (tombstones d !! key).

(** What a round finds out about one key of the index: nothing to do, the whole key is
    deleted, or some of it, with the new tombstones. *)
Definition range_key (d : indirectIndex) (k : list Z) (es : list IndexEntry) (tombs : gmap (list Z) (list TimeRange))
    (minT maxT : Z) : option (gmap (list Z) (list TimeRange) * bool) :=
  match es, last es with
  | e0 :: _, Some e1 =>
      let min := MinTime e0 in
      let max := MaxTime e1 in
      if (max <? minT) || (maxT <? min) then None
      else if (minT <=? min) && (max <=? maxT) then Some (tombs, true)
      else
        let newTs := sort_ranges (TombstoneRange d k ++ default [] (tombs !! k) ++ [MkRange minT maxT]) in
        let w := match newTs with
                 | t0 :: l => grow t0 l (Min t0) (Max t0)
                 | [] => (maxInt64, minInt64)
                 end in
        Some (<[k := newTs]> tombs, (fst w <=? min) && (max <=? snd w))
  | _, _ => None
  end.

Fixpoint range_loop (fuel : nat) (d : indirectIndex) (i : Z) (keys : list (list Z)) (minT maxT : Z)
    (fullKeys : list (list Z)) (tombs : gmap (list Z) (list TimeRange))
    : outcome (list (list Z) * gmap (list Z) (list TimeRange)) :=
  if bool_decide (keys <> []) && (i <? KeyCount d) then
    match fuel with
    | O => Panic
    | S fuel =>
        o ← offset d i;
        '(k, es) ← readEntriesAt d o;
        match skip_keys k keys with
        | [] => Ok (fullKeys, tombs)
        | (k0 :: keys') as keys =>
            if 0 <? Compare k0 k then range_loop fuel d (i + 1) keys minT maxT fullKeys tombs else
            match range_key d k es tombs minT maxT with
            | None => range_loop fuel d (i + 1) keys minT maxT fullKeys tombs
            | Some (tombs, true) => range_loop fuel d (i + 1) keys' minT maxT (fullKeys ++ [k0]) tombs
            | Some (tombs, false) => range_loop fuel d (i + 1) keys minT maxT fullKeys tombs
            end
        end
    end
  else Ok (fullKeys, tombs).

Definition TimeRange_ (d : indirectIndex) : Z * Z := (minTime d, maxTime d).
Definition KeyRange (d : indirectIndex) : list Z * list Z := (minKey d, maxKey d).

Definition DeleteRange (d : indirectIndex) (keys : list (list Z)) (minT maxT : Z) : outcome indirectIndex :=
  match sorted_copy keys with
  | [] => Ok d
  | keys =>
      if (minT =? minInt64) && (maxT =? maxInt64) then Delete d keys else
      let '(min, max) := TimeRange_ d in
      if (max <? minT) || (maxT <? min) then Ok d else
      '(fullKeys, tombs) ← range_loop (length (offsets d)) d 0 keys minT maxT [] ∅;
      d ← (match fullKeys with [] => Ok d | _ => Delete d fullKeys end);
      Ok (MkIndirect (b d) (offsets d) (minKey d) (maxKey d) (minTime d) (maxTime d) (tombs ∪ tombstones d))
  end.

(** ** Queries *)

Definition Contains_ (d : indirectIndex) (key : list Z) : outcome bool :=
  es ← Entries d key;
  Ok (bool_decide (0 < length (default [] es))%nat).

Definition ContainsValue (d : indirectIndex) (key : list Z) (timestamp : Z) : outcome bool :=
  e ← Entry d key timestamp;
  match e with
  | None => Ok false
  | Some _ =>
      Ok (negb (existsb (fun t => (Min t <=? timestamp) && (timestamp <=? Max t)) (TombstoneRange d key)))
  end.

Definition no_key : string := "key does not exist".

Definition Type_at (d : indirectIndex) (key : list Z) : outcome Z :=
  ofs ← search d key;
  if ofs <? Z.of_nat (length (b d)) then
    r ← ztail (b d) ofs;
    '(n, _) ← readKey r;
    r ← ztail (b d) (ofs + n);
    index r 0
  else Err no_key.

Definition OverlapsTimeRange (d : indirectIndex) (min max : Z) : bool := (minTime d <=? max) && (min <=? maxTime d).
Definition OverlapsKeyRange (d : indirectIndex) (min max : list Z) : bool :=
  (Compare (minKey d) max <=? 0) && (0 <=? Compare (maxKey d) min).
Definition index_Size (d : indirectIndex) : Z := Z.of_nat (length (b d)) mod 2 ^ 32.

(** ** Reading an index *)

Definition no_key_length : string := "indirectIndex: not enough data for key length value".
Definition no_count : string := "indirectIndex: not enough data for index entries count".
Definition no_min : string := "indirectIndex: not enough data for min time".
Definition no_max : string := "indirectIndex: not enough data for max time".

(** A round consumes at least five bytes, unless 32 bits overflow. *)
Fixpoint unmarshal_loop (fuel : nat) (bs : list Z) (i : Z) (offs : list Z) (minT maxT : Z) : outcome (list Z * Z * Z) :=
  let iMax := i32 (Z.of_nat (length bs)) in
  let size := Z.of_nat indexEntrySize in
  if i <? iMax then
    match fuel with
    | O => Panic
    | S fuel =>
        let offs := offs ++ [i] in
        if iMax <=? i32 (i + 2) then Err no_key_length else
        w ← zslice bs i (i32 (i + 2));
        n ← Uint16 w;
        let i := i32 (i + (3 + n)) in
        if iMax <=? i32 (i + 2) then Err no_count else
        w ← zslice bs i (i32 (i + 2));
        count ← Uint16 w;
        let i := i32 (i + 2) in
        if iMax <=? i32 (i + 8) then Err no_min else
        w ← zslice bs i (i32 (i + 8));
        t ← Uint64 w;
        let minT := if i64 t <? minT then i64 t else minT in
        let i := i32 (i + (count - 1) * size) in
        if iMax <=? i32 (i + 16) then Err no_max else
        w ← zslice bs (i32 (i + 8)) (i32 (i + 16));
        t ← Uint64 w;
        let maxT := if maxT <? i64 t then i64 t else maxT in
        unmarshal_loop fuel bs (i32 (i + size)) offs minT maxT
    end
  else Ok (offs, minT, maxT).

Definition UnmarshalBinary (d : indirectIndex) (bs : list Z) : outcome indirectIndex :=
  match bs with
  | [] => Ok (MkIndirect bs (offsets d) (minKey d) (maxKey d) (minTime d) (maxTime d) (tombstones d))
  | _ =>
      '(offs, minT, maxT) ← unmarshal_loop (length bs) bs 0 [] maxInt64 0;
      firstOfs ← index offs 0;
      r ← ztail bs firstOfs;
      '(_, kmin) ← readKey r;
      lastOfs ← index offs (length offs - 1);
      r ← ztail bs lastOfs;
      '(_, kmax) ← readKey r;
      Ok (MkIndirect bs (concat (be_encode 4 <$> offs)) kmin kmax minT maxT (tombstones d))
  end.

(** ** Specification *)

(** The sections of an index with their positions. *)
Fixpoint layout (o : Z) (ss : list section) : list (Z * section) :=
  match ss with
  | [] => []
  | s :: ss => (o, s) :: layout (o + Z.of_nat (length (section_bytes s))) ss
  end.

Definition offset_word (os : Z * section) : list Z := be_encode 4 (fst os).
Definition offset_bytes (live : list (Z * section)) : list Z := concat (offset_word <$> live).

(** [d] is the index of a file with sections [ss], of which [live] are not deleted. *)
Record reads (d : indirectIndex) (ss : list section) (live : list (Z * section)) : Prop := {
  reads_ok : index_ok ss;
  reads_short : Z.of_nat (length (index_bytes ss)) < 2 ^ 31;
  reads_bytes : b d = index_bytes ss;
  reads_live : live `sublist_of` layout 0 ss;
  reads_offsets : offsets d = offset_bytes live;
  reads_min : head (s_key <$> ss) = Some (minKey d);
  reads_max : last (s_key <$> ss) = Some (maxKey d) }.

(** The section of a key among the live ones. *)
Definition find_key (live : list (Z * section)) (key : list Z) : option (Z * section) :=
  List.find (fun os => bool_decide (s_key (snd os) = key)) live.

(** * Lemmas *)

Lemma i32_small x : - 2 ^ 31 <= x < 2 ^ 31 -> i32 x = x.
Proof. unfold i32. intros H. rewrite Z.mod_small by lia. lia. Qed.

Lemma length_be2 n v : length (be_encode n v) = n.
Proof. apply length_be_encode. Qed.

(** ** Reading a section *)

Lemma readKey_section s r : section_ok s -> readKey (section_bytes s ++ r) = Ok (2 + Z.of_nat (length (s_key s)), s_key s).
Proof.
  intros (_ & Hk & _). unfold maxKeyLength in Hk. unfold readKey, section_bytes. rewrite <- app_assoc.
  rewrite be_uint_encode by (change (256 ^ Z.of_nat 2) with (2 ^ 16); lia). cbn [mbind outcome_bind].
  rewrite <- app_assoc. rewrite (zslice_app (be_encode 2 _) (s_key s)); rewrite ?length_be2; [done|done|lia].
Qed.

Lemma read_entries_loop_ok l r :
  Forall entry_ok l -> read_entries_loop (length l) (concat (entry_bytes <$> l) ++ r) = Ok l.
Proof.
  induction 1 as [|e l He _ IH]; [done|]. rewrite fmap_cons. cbn [concat length read_entries_loop].
  rewrite <- app_assoc, entry_roundtrip by done. cbn [mbind outcome_bind].
  rewrite drop_app_length' by (by rewrite length_entry_bytes). by rewrite IH.
Qed.

Definition body_bytes (s : section) : list Z :=
  [s_type s] ++ be_encode 2 (Z.of_nat (length (s_entries s))) ++ concat (entry_bytes <$> s_entries s).

Lemma section_body s : section_bytes s = (be_encode 2 (Z.of_nat (length (s_key s))) ++ s_key s) ++ body_bytes s.
Proof. unfold section_bytes, body_bytes. by rewrite <- app_assoc. Qed.

Lemma length_body s : length (body_bytes s) = (3 + 28 * length (s_entries s))%nat.
Proof.
  pose proof (length_section_bytes s) as H. rewrite section_body, !length_app, length_be_encode in H. lia.
Qed.

Lemma readEntries_body s r :
  section_ok s ->
  readEntries (body_bytes s ++ r) =
  Ok (3 + Z.of_nat (length (s_entries s)) * 28, MkEntries (s_type s) (s_entries s)).
Proof.
  intros (_ & _ & _ & _ & Hn & He & _). unfold maxIndexEntries in Hn. unfold readEntries.
  rewrite bool_decide_false by (rewrite length_app, length_body; unfold indexCountSize; lia).
  unfold body_bytes, indexCountSize, indexTypeSize, indexEntrySize. cbn [app index lookup list_lookup mbind outcome_bind drop Nat.add].
  rewrite drop_0, <- app_assoc, be_uint_encode by (change (256 ^ Z.of_nat 2) with (2 ^ 16); lia). cbn [mbind outcome_bind].
  rewrite drop_be_eq by done. by rewrite Nat2Z.id, read_entries_loop_ok by done.
Qed.

Section at_section.
Context (d : indirectIndex) (q r : list Z) (s : section) (o : Z) (Ho : o = Z.of_nat (length q)).
Context (Hb : b d = q ++ section_bytes s ++ r) (Hs : section_ok s) (Hl : Z.of_nat (length (b d)) < 2 ^ 31).

Lemma section_room : o + 5 + Z.of_nat (length (s_key s)) <= Z.of_nat (length (b d)).
Proof. rewrite Hb, !length_app, length_section_bytes. lia. Qed.

Lemma ztail_section : ztail (b d) o = Ok (section_bytes s ++ r).
Proof. rewrite Hb. by apply ztail_app. Qed.

Lemma ztail_body : ztail (b d) (o + (2 + Z.of_nat (length (s_key s)))) = Ok (body_bytes s ++ r).
Proof.
  rewrite Hb, section_body, <- app_assoc, app_assoc. apply ztail_app. rewrite !length_app, length_be2. lia.
Qed.

Lemma not_less_section key : not_less d key (be_encode 4 o) = Ok (0 <=? Compare (s_key s) key).
Proof.
  pose proof section_room as Hr. destruct Hs as (_ & Hk & _). unfold maxKeyLength in Hk. unfold not_less.
  rewrite <- (app_nil_r (be_encode 4 o)), be_uint_encode by (change (256 ^ Z.of_nat 4) with (2 ^ 32); lia).
  cbn [mbind outcome_bind]. rewrite (i32_small o) by lia. rewrite (i32_small (o + 2)) by lia. rewrite Hb. unfold section_bytes. rewrite <- !app_assoc.
  rewrite (zslice_app q (be_encode 2 _)) by (rewrite ?length_be2; lia). cbn [mbind outcome_bind].
  rewrite <- (app_nil_r (be_encode 2 _)) at 1. rewrite be_uint_encode by (change (256 ^ Z.of_nat 2) with (2 ^ 16); lia).
  cbn [mbind outcome_bind]. rewrite i32_small by lia. rewrite app_assoc.
  by rewrite (zslice_app (q ++ _) (s_key s)) by (rewrite ?length_app, ?length_be2; lia).
Qed.

Lemma readEntriesAt_section : readEntriesAt d o = Ok (s_key s, s_entries s).
Proof.
  unfold readEntriesAt. rewrite ztail_section. cbn [mbind outcome_bind]. rewrite readKey_section by done.
  cbn [mbind outcome_bind]. rewrite ztail_body. cbn [mbind outcome_bind]. by rewrite readEntries_body.
Qed.
End at_section.

(** ** The layout *)

Lemma layout_elem ss o0 o s :
  (o, s) ∈ layout o0 ss ->
  exists q r, index_bytes ss = q ++ section_bytes s ++ r /\ o = o0 + Z.of_nat (length q) /\ s ∈ ss.
Proof.
  revert o0. induction ss as [|s0 ss IH]; intros o0 H; [by apply not_elem_of_nil in H|].
  unfold index_bytes. rewrite fmap_cons. cbn [concat layout] in *. apply elem_of_cons in H as [[= -> ->]|H].
  - exists [], (index_bytes ss). split_and!; [done|cbn; lia|set_solver].
  - apply IH in H as (q & r & E & -> & Hs). exists (section_bytes s0 ++ q), r. unfold index_bytes in E. rewrite E.
    rewrite <- app_assoc, length_app. split_and!; [done|lia|set_solver].
Qed.

Lemma layout_snd o ss : snd <$> layout o ss = ss.
Proof. revert o. induction ss as [|s ss IH]; intros o; [done|]. cbn. by rewrite IH. Qed.

Lemma sublist_sorted {A} (R : A -> A -> Prop) l k : l `sublist_of` k -> StronglySorted R k -> StronglySorted R l.
Proof.
  induction 1 as [|x l k Hl IH|x l k Hl IH]; intros Hs; [constructor|..];
    apply StronglySorted_inv in Hs as [Hs Hx]; [|auto].
  constructor; [auto|]. rewrite Forall_forall in *. intros y Hy. apply Hx. by eapply sublist_subseteq.
Qed.

Lemma words_offsets live : words 4 (offset_word <$> live).
Proof. apply Forall_fmap, Forall_true. intros [o s]. apply length_be_encode. Qed.

Lemma length_offset_bytes live : length (offset_bytes live) = (4 * length live)%nat.
Proof. unfold offset_bytes. by rewrite (concat_words_length 4), length_fmap by apply words_offsets. Qed.

End IndirectIndex.
