(* ===== verification/IndexLaws.v ===== *)
(** The laws of the index of a data file: it is read back as it was written, and its
    searches find exactly the keys it holds.  The index of [IndirectIndex] refines the
    list of its live sections. *)
From stdpp Require Import gmap sets.
From S2P Require Import Prelude Binary Bytes Util SSTIndex IndirectIndex.
Import Util SSTIndex IndirectIndex.

Module IndexLaws.

(** The times of a section are in order: what blocks of one key without overlap give. *)
Definition in_time (e : IndexEntry) : Prop := MinTime e <= MaxTime e.
Definition ends_before (a b : IndexEntry) : Prop := MaxTime a <= MaxTime b.
Definition times_ok (s : section) : Prop :=
  Forall in_time (s_entries s) /\ StronglySorted ends_before (s_entries s).

Definition first_time (s : section) : Z := match s_entries s with e :: _ => MinTime e | [] => 0 end.
Definition last_time (s : section) : Z := match last (s_entries s) with Some e => MaxTime e | None => 0 end.

(** The time range of a file; the last one starts at 0. *)
Definition file_min (ss : list section) : Z := foldl (fun m s => if first_time s <? m then first_time s else m) maxInt64 ss.
Definition file_max (ss : list section) : Z := foldl (fun m s => if m <? last_time s then last_time s else m) 0 ss.

(** * Lemmas *)

Section searches.
Context (d : indirectIndex) (ss : list section) (live : list (Z * section)) (H : reads d ss live).

Lemma live_elem o s :
  (o, s) ∈ live ->
  exists q r, b d = q ++ section_bytes s ++ r /\ o = Z.of_nat (length q) /\ section_ok s /\ s ∈ ss.
Proof.
  intros Hin. assert ((o, s) ∈ layout 0 ss) as Hl by (eapply sublist_subseteq; [apply (reads_live _ _ _ H)|done]).
  apply layout_elem in Hl as (q & r & E & -> & Hs). exists q, r. rewrite (reads_bytes _ _ _ H).
  split_and!; [done|lia| |done]. destruct (reads_ok _ _ _ H) as [Hok _]. rewrite Forall_forall in Hok. auto.
Qed.

Lemma index_short : Z.of_nat (length (b d)) < 2 ^ 31.
Proof. rewrite (reads_bytes _ _ _ H). apply (reads_short _ _ _ H). Qed.

Lemma not_less_live key o s :
  (o, s) ∈ live -> not_less d key (offset_word (o, s)) = Ok (0 <=? Compare (s_key s) key).
Proof.
  intros (q & r & Hb & Ho & Hs & _)%live_elem. unfold offset_word. cbn [fst].
  by apply (not_less_section d q r s o Ho Hb Hs index_short).
Qed.

Lemma live_sorted : StronglySorted (fun x y => before (s_key (snd x)) (s_key (snd y))) live.
Proof.
  eapply sublist_sorted; [apply (reads_live _ _ _ H)|]. destruct (reads_ok _ _ _ H) as [_ Hs].
  revert Hs. generalize 0 as o0. generalize ss as l. clear. induction l as [|s l IH]; intros o0 Hs; [constructor|].
  change (sorted_keys (s_key s :: (s_key <$> l))) in Hs. apply sorted_keys_cons in Hs as [Hs Hb]. cbn [layout]. constructor; [auto|].
  apply Forall_forall. intros [o s'] Hin%(list_elem_of_fmap_2 snd). rewrite layout_snd in Hin.
  cbn [snd] in *. apply Hb, list_elem_of_fmap. eauto.
Qed.

Lemma live_before i j x y : (i < j)%nat -> live !! i = Some x -> live !! j = Some y -> before (s_key (snd x)) (s_key (snd y)).
Proof. apply (sorted_lookup _ live i j x y live_sorted). Qed.

Lemma live_inj i j x y : live !! i = Some x -> live !! j = Some y -> s_key (snd x) = s_key (snd y) -> i = j.
Proof.
  intros Hx Hy E. destruct (Nat.lt_trichotomy i j) as [Hl|[|Hl]]; [|done|]; exfalso.
  - apply (before_irrefl (s_key (snd x))). rewrite E at 2. by apply (live_before i j).
  - apply (before_irrefl (s_key (snd x))). rewrite E at 1. by apply (live_before j i).
Qed.

(** The predicate of the searches, as a total function. *)
Definition at_least (key w : list Z) : bool := match not_less d key w with Ok r => r | _ => false end.

Lemma at_least_live key o s : (o, s) ∈ live -> at_least key (offset_word (o, s)) = (0 <=? Compare (s_key s) key).
Proof. intros Hin. unfold at_least. by rewrite not_less_live. Qed.

Lemma SearchBytesFixed_live key :
  live <> [] ->
  exists k os, SearchBytesFixed (offsets d) 4 (not_less d key) = Ok (4 * k)%nat /\ live !! k = Some os /\
    (forall i x, (i < k)%nat -> live !! i = Some x -> before (s_key (snd x)) key) /\
    (S k = length live \/ ~ before (s_key (snd os)) key).
Proof.
  intros Hne. rewrite (reads_offsets _ _ _ H).
  assert (forall i w, (offset_word <$> live) !! i = Some w ->
    exists o s, live !! i = Some (o, s) /\ w = offset_word (o, s) /\ (o, s) ∈ live) as Hw.
  { intros i w Hi. rewrite list_lookup_fmap in Hi. destruct (live !! i) as [[o s]|] eqn:E; [|done]. injection Hi as <-.
    exists o, s. split_and!; [done..|by eapply list_elem_of_lookup_2]. }
  destruct (SearchBytesFixed_turns 4 (offset_word <$> live) (at_least key) (not_less d key)) as (k & E & Hk & Hlow & Hhigh).
  - done.
  - apply words_offsets.
  - intros i w (o & s & _ & -> & Hin)%Hw. rewrite at_least_live by done. by apply not_less_live.
  - intros i j v w Hij (o & s & Hi & -> & Hin)%Hw (o' & s' & Hj & -> & Hin')%Hw.
    rewrite !at_least_live, !Z.leb_le by done. intros Hc. destruct (decide (i = j)) as [->|]; [congruence|].
    pose proof (live_before i j _ _ ltac:(lia) Hi Hj) as Hb. cbn [snd] in Hb.
    assert (~ before (s_key s') key); [|unfold before in *; lia]. intros Hs'.
    assert (before (s_key s) key) by (by transitivity (s_key s')). unfold before in *. lia.
  - intros E%(fmap_nil_inv offset_word). done.
  - rewrite length_fmap in Hk. destruct (lookup_lt_is_Some_2 live k Hk) as [[o s] Hos]. exists k, (o, s).
    split_and!; [done|done| |].
    + intros i [o' s'] Hi Hx. specialize (Hlow i (offset_word (o', s')) Hi). rewrite list_lookup_fmap, Hx in Hlow.
      specialize (Hlow eq_refl). rewrite at_least_live in Hlow by (by eapply list_elem_of_lookup_2).
      apply Z.leb_gt in Hlow. unfold before. cbn [snd]. lia.
    + rewrite length_fmap in Hhigh. destruct Hhigh as [|(w & Hkw & Hp)]; [by left|right].
      rewrite list_lookup_fmap, Hos in Hkw. injection Hkw as <-.
      rewrite at_least_live in Hp by (by eapply list_elem_of_lookup_2). unfold before. cbn [snd]. lia.
Qed.

Lemma searchOffset_live key :
  live <> [] ->
  exists k os, searchOffset d key = Ok k /\ live !! k = Some os /\
    (forall i x, (i < k)%nat -> live !! i = Some x -> before (s_key (snd x)) key) /\
    (S k = length live \/ ~ before (s_key (snd os)) key).
Proof.
  intros Hne. destruct (SearchBytesFixed_live key Hne) as (k & os & E & Hk & Hlow & Hhigh). exists k, os.
  unfold searchOffset. rewrite E. cbn [mbind outcome_bind]. pose proof (lookup_lt_Some _ _ _ Hk) as Hlt.
  rewrite bool_decide_true by (rewrite (reads_offsets _ _ _ H), length_offset_bytes; lia).
  rewrite Nat.mul_comm, Nat.div_mul by done. done.
Qed.

Lemma find_key_Some key os : find_key live key = Some os -> exists k, live !! k = Some os /\ s_key (snd os) = key.
Proof.
  intros [Hin Hk%bool_decide_eq_true]%find_some. apply list_elem_of_In, list_elem_of_lookup in Hin as [k Hk'].
  eauto.
Qed.

Lemma find_key_lookup k os : live !! k = Some os -> find_key live (s_key (snd os)) = Some os.
Proof.
  intros Hk. destruct (find_key live (s_key (snd os))) as [os'|] eqn:E.
  - apply find_key_Some in E as (k' & Hk' & Hkey). assert (k' = k) as -> by (by eapply live_inj). congruence.
  - unfold find_key in E. apply find_none with (x := os) in E; [by apply bool_decide_eq_false in E|].
    apply list_elem_of_In. by eapply list_elem_of_lookup_2.
Qed.

Lemma live_range k os : live !! k = Some os -> ContainsKey d (s_key (snd os)) = true.
Proof.
  destruct os as [o s]. intros (q & r & _ & _ & _ & Hs)%list_elem_of_lookup_2%live_elem. cbn [snd].
  destruct (reads_ok _ _ _ H) as [_ Hsort]. pose proof (reads_min _ _ _ H) as Hmin. pose proof (reads_max _ _ _ H) as Hmax.
  unfold ContainsKey. apply (list_elem_of_fmap_2 s_key) in Hs. revert Hsort Hmin Hmax Hs. generalize (s_key <$> ss) as l.
  generalize (s_key s) as k0. clear. intros k0 l Hsort Hmin Hmax (i & Hi)%list_elem_of_lookup.
  rewrite last_lookup in Hmax.
  assert (not_after (minKey d) k0) as H1.
  { destruct i as [|i]; (destruct l as [|x l]; [done|]); injection Hmin as <-; apply not_after_iff.
    - injection Hi as <-. by right.
    - left. by apply (sorted_lookup before (x :: l) 0 (S i)); [|lia|..]. }
  assert (not_after k0 (maxKey d)) as H2.
  { apply not_after_iff. destruct (decide (i = pred (length l))) as [->|]; [right; congruence|left].
    pose proof (lookup_lt_Some _ _ _ Hi). apply (sorted_lookup before l i (pred (length l))); [done|lia|done..]. }
  unfold not_after, before in *. rewrite Compare_swap in H1. pose proof (Compare_swap k0 (maxKey d)).
  apply andb_true_iff. rewrite !Z.leb_le. rewrite (Compare_swap k0) in H1. lia.
Qed.

Lemma search_live key :
  search d key = Ok (match find_key live key with Some (o, _) => o | None => Z.of_nat (length (b d)) end).
Proof.
  unfold search. destruct (ContainsKey d key) eqn:Hc; cbn [negb].
  2: { destruct (find_key live key) as [os|] eqn:E; [|done]. apply find_key_Some in E as (k & Hk & <-).
    rewrite (live_range k os) in Hc by done. done. }
  destruct (decide (live = [])) as [Hnil|Hne].
  { rewrite (reads_offsets _ _ _ H), Hnil. done. }
  destruct (SearchBytesFixed_live key Hne) as (k & [o s] & -> & Hk & Hlow & Hhigh). cbn [mbind outcome_bind].
  pose proof (lookup_lt_Some _ _ _ Hk) as Hlt. pose proof (list_elem_of_lookup_2 _ _ _ Hk) as Hin.
  rewrite bool_decide_true by (rewrite (reads_offsets _ _ _ H), length_offset_bytes; lia).
  rewrite (reads_offsets _ _ _ H). unfold offset_bytes.
  rewrite (subslice_word 4 _ k (offset_word (o, s))); [|apply words_offsets|by rewrite list_lookup_fmap, Hk].
  cbn [mbind outcome_bind]. destruct (live_elem o s Hin) as (q & r & Hb & Ho & Hs & _). unfold offset_word. cbn [fst].
  pose proof (section_room d q r s o Ho Hb) as Hroom. pose proof index_short as Hshort.
  rewrite <- (app_nil_r (be_encode 4 o)), be_uint_encode by (change (256 ^ Z.of_nat 4) with (2 ^ 32); lia).
  cbn [mbind outcome_bind]. rewrite (ztail_section d q r s o Ho Hb). cbn [mbind outcome_bind].
  rewrite readKey_section by done. cbn [mbind outcome_bind]. case_bool_decide as Ek.
  - subst key. pose proof (find_key_lookup k (o, s) Hk) as Hf. cbn [snd] in Hf. by rewrite Hf.
  - destruct (find_key live key) as [os|] eqn:E; [|done]. apply find_key_Some in E as (k' & Hk' & <-). exfalso.
    destruct (Nat.lt_trichotomy k' k) as [Hl|[->|Hl]].
    + by apply (Hlow k' os Hl), before_irrefl in Hk'.
    + rewrite Hk in Hk'. by injection Hk' as <-.
    + pose proof (lookup_lt_Some _ _ _ Hk'). destruct Hhigh as [|Hhigh]; [lia|].
      apply Hhigh. by apply (live_before k k' (o, s) os).
Qed.

(** What the index says about a key is what its live section says. *)
Lemma ReadEntries_live key : ReadEntries d key = Ok (s_entries ∘ snd <$> find_key live key).
Proof.
  unfold ReadEntries. rewrite search_live. cbn [mbind outcome_bind].
  destruct (find_key live key) as [[o s]|] eqn:E; [|by rewrite Z.ltb_irrefl].
  apply find_key_Some in E as (k & Hk & <-). pose proof (list_elem_of_lookup_2 _ _ _ Hk) as Hin.
  destruct (live_elem o s Hin) as (q & r & Hb & Ho & Hs & _). pose proof (section_room d q r s o Ho Hb) as Hroom.
  rewrite (proj2 (Z.ltb_lt _ _)) by lia. rewrite (readEntriesAt_section d q r s o Ho Hb Hs). cbn [mbind outcome_bind snd].
  by rewrite bool_decide_true.
Qed.

Lemma Type_at_live key :
  Type_at d key = match find_key live key with Some (_, s) => Ok (s_type s) | None => Err no_key end.
Proof.
  unfold Type_at. rewrite search_live. cbn [mbind outcome_bind].
  destruct (find_key live key) as [[o s]|] eqn:E; [|by rewrite Z.ltb_irrefl].
  apply find_key_Some in E as (k & Hk & <-). pose proof (list_elem_of_lookup_2 _ _ _ Hk) as Hin.
  destruct (live_elem o s Hin) as (q & r & Hb & Ho & Hs & _). pose proof (section_room d q r s o Ho Hb) as Hroom.
  rewrite (proj2 (Z.ltb_lt _ _)) by lia. rewrite (ztail_section d q r s o Ho Hb). cbn [mbind outcome_bind].
  rewrite readKey_section by done. cbn [mbind outcome_bind]. by rewrite (ztail_body d q r s o Ho Hb).
Qed.

Lemma Entry_live key t :
  Entry d key t = Ok (os ← find_key live key; List.find (fun e => entry_Contains e t) (s_entries (snd os))).
Proof.
  unfold Entry, Entries. rewrite ReadEntries_live. cbn [mbind outcome_bind]. by destruct (find_key live key).
Qed.

Lemma find_key_nonempty key os : find_key live key = Some os -> s_entries (snd os) <> [].
Proof.
  intros (k & Hk & _)%find_key_Some. destruct os as [o s]. pose proof (list_elem_of_lookup_2 _ _ _ Hk) as Hin.
  by destruct (live_elem o s Hin) as (q & r & _ & _ & (_ & _ & _ & Hne & _) & _).
Qed.

Lemma Contains_live key : Contains_ d key = Ok (bool_decide (is_Some (find_key live key))).
Proof.
  unfold Contains_, Entries. rewrite ReadEntries_live. cbn [mbind outcome_bind]. f_equal.
  destruct (find_key live key) as [os|] eqn:E; cbn [fmap option_fmap option_map default].
  - apply bool_decide_ext. apply find_key_nonempty in E. cbn. destruct (s_entries (snd os)); [done|]. cbn.
    split; [eauto|intros _; lia].
  - rewrite !bool_decide_false; [done|by intros []|cbn; lia].
Qed.

Lemma ContainsValue_find key t :
  exists r, ContainsValue d key t = Ok r /\
    (r = true <-> (exists os e, find_key live key = Some os /\ e ∈ s_entries (snd os) /\ MinTime e <= t <= MaxTime e) /\
      forall w, w ∈ TombstoneRange d key -> ~ (Min w <= t <= Max w)).
Proof.
  unfold ContainsValue. rewrite Entry_live. cbn [mbind outcome_bind].
  destruct (_ ≫= _) as [e|] eqn:E.
  - eexists. split; [done|]. rewrite negb_true_iff, <- not_true_iff_false, existsb_exists. split.
    + intros Hno. split.
      * destruct (find_key live key) as [os|]; [|done]. apply find_some in E as [Hin Hc]. exists os, e.
        split; [done|]. split; [by apply list_elem_of_In|]. unfold entry_Contains in Hc. lia.
      * intros w Hw Hin. apply Hno. exists w. split; [by apply list_elem_of_In|]. lia.
    + intros [_ Hno] (w & Hw%list_elem_of_In & Hin). apply (Hno w Hw). lia.
  - exists false. split; [done|]. split; [done|]. intros [(os & e & Hf & He & Ht) _]. exfalso. rewrite Hf in E. cbn in E.
    apply find_none with (x := e) in E; [|by apply list_elem_of_In]. unfold entry_Contains in E. lia.
Qed.

Lemma KeyCount_live : KeyCount d = Z.of_nat (length live).
Proof.
  unfold KeyCount. by rewrite (reads_offsets _ _ _ H), length_offset_bytes, Nat.mul_comm, Nat.div_mul.
Qed.

Lemma offset_word_at k o s :
  live !! k = Some (o, s) ->
  zslice (offsets d) (Z.of_nat k * 4) (Z.of_nat k * 4 + 4) = Ok (offset_word (o, s)).
Proof.
  intros Hk. rewrite (reads_offsets _ _ _ H). unfold offset_bytes.
  pose proof (list_elem_of_split_length _ _ _ Hk) as (l1 & l2 & -> & ->). rewrite fmap_app, fmap_cons, concat_app. cbn [concat].
  assert (length (concat (offset_word <$> l1)) = 4 * length l1)%nat as Hn.
  { rewrite (concat_words_length 4), length_fmap; [done|apply words_offsets]. }
  apply zslice_app; rewrite Hn; [lia|]. unfold offset_word. rewrite length_be_encode. lia.
Qed.

Lemma offset_at k o s : live !! k = Some (o, s) -> offset d (Z.of_nat k) = Ok o.
Proof.
  intros Hk. pose proof (lookup_lt_Some _ _ _ Hk) as Hlt. unfold offset.
  rewrite (proj2 (Z.ltb_ge _ 0)) by lia.
  rewrite (proj2 (Z.ltb_ge _ _)) by (rewrite (reads_offsets _ _ _ H), length_offset_bytes; lia). cbn [orb].
  rewrite (offset_word_at k o s) by done. cbn [mbind outcome_bind]. unfold offset_word. cbn [fst].
  destruct (live_elem o s) as (q & r & Hb & Ho & Hs & _); [by eapply list_elem_of_lookup_2|].
  pose proof (section_room d q r s o Ho Hb) as Hroom. pose proof index_short as Hshort.
  rewrite <- (app_nil_r (be_encode 4 o)), be_uint_encode by (change (256 ^ Z.of_nat 4) with (2 ^ 32); lia). done.
Qed.

Lemma Key_live k o s :
  live !! k = Some (o, s) ->
  Key d (Z.of_nat k) = Ok (Some (s_key s, s_type s, s_entries s)) /\ KeyAt d (Z.of_nat k) = Ok (Some (s_key s, s_type s)).
Proof.
  intros Hk. pose proof (lookup_lt_Some _ _ _ Hk) as Hlt. unfold Key, KeyAt.
  rewrite (proj2 (Z.ltb_ge _ 0)) by lia.
  rewrite (proj2 (Z.ltb_ge _ _)) by (rewrite (reads_offsets _ _ _ H), length_offset_bytes; lia). cbn [orb].
  rewrite (offset_word_at k o s) by done. cbn [mbind outcome_bind]. unfold offset_word. cbn [fst].
  destruct (live_elem o s) as (q & r & Hb & Ho & Hs & _); [by eapply list_elem_of_lookup_2|].
  pose proof (section_room d q r s o Ho Hb) as Hroom. pose proof index_short as Hshort.
  rewrite <- (app_nil_r (be_encode 4 o)), be_uint_encode by (change (256 ^ Z.of_nat 4) with (2 ^ 32); lia).
  cbn [mbind outcome_bind]. rewrite (i32_small o) by lia. rewrite (ztail_section d q r s o Ho Hb). cbn [mbind outcome_bind].
  rewrite readKey_section by done. cbn [mbind outcome_bind]. rewrite (i32_small (2 + _)) by lia. rewrite (i32_small (o + _)) by lia.
  rewrite (ztail_body d q r s o Ho Hb). cbn [mbind outcome_bind]. rewrite readEntries_body by done. done.
Qed.

Lemma Key_outside i : i < 0 \/ KeyCount d <= i -> Key d i = Ok None /\ KeyAt d i = Ok None.
Proof.
  rewrite KeyCount_live. intros Hi. unfold Key, KeyAt. rewrite (reads_offsets _ _ _ H), length_offset_bytes.
  assert ((i <? 0) || (Z.of_nat (4 * length live) <? i * 4 + 4) = true) as ->; [|done].
  rewrite orb_true_iff, !Z.ltb_lt. lia.
Qed.
End searches.

(** ** Reading an index back *)

Lemma concat_entries_length l : length (concat (entry_bytes <$> l)) = (28 * length l)%nat.
Proof.
  induction l as [|e l IH]; [done|]. rewrite fmap_cons. cbn [concat length].
  rewrite length_app, length_entry_bytes, IH. unfold indexEntrySize. lia.
Qed.

Lemma last_snoc_entries (l : list IndexEntry) : l <> [] -> exists l' e, l = l' ++ [e] /\ last l = Some e.
Proof.
  intros Hne. destruct (last l) as [e|] eqn:E.
  - apply last_Some in E as [l' ->]. eauto.
  - by apply last_None in E.
Qed.

Lemma Uint64_i64 v r : is_i64 v -> exists w, Uint64 (be_encode 8 (u64 v) ++ r) = Ok w /\ i64 w = v.
Proof.
  intros Hv. exists (u64 v). rewrite Uint64_encode by apply u64_range. by rewrite i64_u64, i64_small.
Qed.

(** Where the loop looks inside a section: the length of the key, the number of
    entries, the start of the first entry and the end of the last one. *)
Lemma section_slices q s r e0 l0 l' e1 :
  s_entries s = e0 :: l0 -> s_entries s = l' ++ [e1] ->
  let tot := q ++ section_bytes s ++ r in
  let i0 := Z.of_nat (length q) in
  let i1 := i0 + (3 + Z.of_nat (length (s_key s))) in
  let i3 := i1 + 2 + Z.of_nat (length l') * 28 in
  zslice tot i0 (i0 + 2) = Ok (be_encode 2 (Z.of_nat (length (s_key s)))) /\
  zslice tot i1 (i1 + 2) = Ok (be_encode 2 (Z.of_nat (length (s_entries s)))) /\
  zslice tot (i1 + 2) (i1 + 2 + 8) = Ok (be_encode 8 (u64 (MinTime e0))) /\
  zslice tot (i3 + 8) (i3 + 16) = Ok (be_encode 8 (u64 (MaxTime e1))).
Proof.
  intros H0 H1 tot i0 i1 i3.
  set (kb := be_encode 2 (Z.of_nat (length (s_key s)))). set (n := Z.of_nat (length (s_entries s))).
  assert (tot = q ++ kb ++ (s_key s ++ [s_type s]) ++ be_encode 2 n ++ concat (entry_bytes <$> s_entries s) ++ r) as ->.
  { unfold tot, section_bytes, kb, n. by rewrite <- !app_assoc. }
  split_and!.
  - apply zslice_app; unfold kb, i0; rewrite ?length_be_encode; lia.
  - rewrite 2!app_assoc. apply zslice_app; unfold kb, i1, i0; rewrite !length_app, ?length_be_encode; cbn [length]; lia.
  - rewrite H0, fmap_cons. cbn [concat]. unfold entry_bytes at 1.
    rewrite 3!app_assoc, <- !(app_assoc (be_encode 8 (u64 (MinTime e0)))).
    apply zslice_app; unfold kb, i1, i0; rewrite !length_app, ?length_be_encode; cbn [length]; lia.
  - rewrite H1, fmap_app, concat_app. cbn [fmap list_fmap concat]. unfold entry_bytes at 2.
    rewrite app_nil_r, !app_assoc. rewrite <- (app_assoc _ (be_encode 4 _)), <- (app_assoc _ (be_encode 8 (u64 (Offset e1)))).
    rewrite <- (app_assoc _ (be_encode 8 (u64 (MaxTime e1)))).
    apply zslice_app; unfold kb, i3, i1, i0; rewrite !length_app, concat_entries_length, ?length_be_encode; cbn [length]; lia.
Qed.

(** A round of the loop reads one section. *)
Lemma unmarshal_step fuel q s r offs minT maxT :
  section_ok s -> Z.of_nat (length (q ++ section_bytes s ++ r)) < 2 ^ 31 ->
  unmarshal_loop (S fuel) (q ++ section_bytes s ++ r) (Z.of_nat (length q)) offs minT maxT =
  unmarshal_loop fuel (q ++ section_bytes s ++ r) (Z.of_nat (length (q ++ section_bytes s)))
    (offs ++ [Z.of_nat (length q)]) (if first_time s <? minT then first_time s else minT)
    (if maxT <? last_time s then last_time s else maxT).
Proof.
  intros (_ & Hk & _ & Hne & Hn & He & _) Hl. unfold maxKeyLength, maxIndexEntries in *.
  destruct (last_snoc_entries _ Hne) as (l' & e1 & Hl' & Hlast). destruct (s_entries s) as [|e0 l0] eqn:Ees; [done|].
  rewrite <- Ees in *. pose proof (section_slices q s r e0 l0 l' e1 Ees Hl') as (S0 & S1 & S2 & S3).
  assert (entry_ok e0) as (He0 & _) by (rewrite Ees in He; by inversion He).
  assert (entry_ok e1) as (_ & He1 & _) by (rewrite Hl' in He; apply Forall_app in He as [_ He]; by inversion He).
  assert (first_time s = MinTime e0) as -> by (unfold first_time; by rewrite Ees).
  assert (last_time s = MaxTime e1) as -> by (unfold last_time; by rewrite Hlast).
  pose proof (length_section_bytes s) as Hlen. rewrite !length_app, Hlen in Hl.
  assert (length (s_entries s) = S (length l')) as Hnl by (rewrite Hl', length_app; cbn; lia).
  set (tot := q ++ section_bytes s ++ r) in *. set (n := Z.of_nat (length (s_entries s))) in *.
  assert (Z.of_nat (length tot) = Z.of_nat (length q) + (5 + Z.of_nat (length (s_key s)) + 28 * n) + Z.of_nat (length r)) as Htot
    by (unfold tot; rewrite !length_app, Hlen; lia).
  cbn [unmarshal_loop]. change (Z.of_nat indexEntrySize) with 28. rewrite (i32_small (Z.of_nat (length tot))) by lia.
  rewrite (proj2 (Z.ltb_lt (Z.of_nat (length q)) _)), (i32_small (Z.of_nat (length q) + 2)), (proj2 (Z.leb_gt _ _)), S0 by lia.
  cbn [mbind outcome_bind]. rewrite <- (app_nil_r (be_encode 2 _)), be_uint_encode by (change (256 ^ Z.of_nat 2) with (2 ^ 16); lia).
  cbn [mbind outcome_bind]. set (i1 := Z.of_nat (length q) + (3 + Z.of_nat (length (s_key s)))) in *.
  rewrite (i32_small i1), (i32_small (i1 + 2)), (proj2 (Z.leb_gt _ (i1 + 2))), S1 by lia.
  cbn [mbind outcome_bind]. rewrite <- (app_nil_r (be_encode 2 _)), be_uint_encode by (change (256 ^ Z.of_nat 2) with (2 ^ 16); lia).
  cbn [mbind outcome_bind]. rewrite (i32_small (i1 + 2 + 8)), (proj2 (Z.leb_gt _ (i1 + 2 + 8))), S2 by lia.
  destruct (Uint64_i64 (MinTime e0) [] He0) as (w0 & Hw0 & Hi0). rewrite app_nil_r in Hw0.
  cbn [mbind outcome_bind]. rewrite Hw0. cbn [mbind outcome_bind]. rewrite Hi0.
  replace ((n - 1) * 28) with (Z.of_nat (length l') * 28) by lia. set (i3 := i1 + 2 + Z.of_nat (length l') * 28) in *.
  rewrite (i32_small i3), (i32_small (i3 + 16)), (proj2 (Z.leb_gt _ (i3 + 16))), (i32_small (i3 + 8)), S3 by lia.
  destruct (Uint64_i64 (MaxTime e1) [] He1) as (w1 & Hw1 & Hi1). rewrite app_nil_r in Hw1.
  cbn [mbind outcome_bind]. rewrite Hw1. cbn [mbind outcome_bind]. rewrite Hi1, (i32_small (i3 + 28)) by lia.
  f_equal. rewrite length_app, Hlen. lia.
Qed.

Lemma unmarshal_loop_ok ss : forall fuel q offs minT maxT,
  Forall section_ok ss -> Z.of_nat (length (q ++ index_bytes ss)) < 2 ^ 31 -> (length ss < fuel)%nat ->
  unmarshal_loop fuel (q ++ index_bytes ss) (Z.of_nat (length q)) offs minT maxT =
  Ok (offs ++ (fst <$> layout (Z.of_nat (length q)) ss),
    foldl (fun m s => if first_time s <? m then first_time s else m) minT ss,
    foldl (fun m s => if m <? last_time s then last_time s else m) maxT ss).
Proof.
  induction ss as [|s ss IH]; intros fuel q offs minT maxT Hok Hl Hf; (destruct fuel as [|fuel]; [cbn in Hf; lia|]).
  - unfold index_bytes. cbn [fmap list_fmap concat layout foldl unmarshal_loop]. rewrite !app_nil_r in *.
    rewrite i32_small by lia. by rewrite Z.ltb_irrefl.
  - inversion_clear Hok as [|? ? Hs Hok']. unfold index_bytes in *. rewrite fmap_cons in *. cbn [concat] in *.
    rewrite unmarshal_step by done. rewrite app_assoc, IH; [|done|by rewrite <- app_assoc|cbn in Hf; lia].
    cbn [layout foldl]. rewrite length_app, Nat2Z.inj_add, fmap_cons. cbn [fst]. by rewrite <- app_assoc.
Qed.

Lemma length_layout o ss : length (layout o ss) = length ss.
Proof. revert o. induction ss as [|s ss IH]; intros o; cbn [layout length]; [done|]. by rewrite IH. Qed.

Lemma readKey_at bs ss os :
  Forall section_ok ss -> os ∈ layout 0 ss -> bs = index_bytes ss ->
  exists r, ztail bs (fst os) = Ok r /\ readKey r = Ok (2 + Z.of_nat (length (s_key (snd os))), s_key (snd os)).
Proof.
  destruct os as [o s]. intros Hok (q & r & E & -> & Hs)%layout_elem ->. exists (section_bytes s ++ r). cbn [fst snd].
  rewrite E. split; [by apply ztail_app|]. apply readKey_section. rewrite Forall_forall in Hok. auto.
Qed.

Lemma UnmarshalBinary_index d ss :
  index_ok ss -> ss <> [] -> Z.of_nat (length (index_bytes ss)) < 2 ^ 31 ->
  exists d', UnmarshalBinary d (index_bytes ss) = Ok d' /\ reads d' ss (layout 0 ss) /\
    tombstones d' = tombstones d /\ minTime d' = file_min ss /\ maxTime d' = file_max ss.
Proof.
  intros [Hok Hs] Hne Hl. unfold UnmarshalBinary.
  assert (exists x l, index_bytes ss = x :: l) as (x & l & E).
  { destruct ss as [|s ss]; [done|]. unfold index_bytes. cbn. eauto. }
  rewrite E, <- E. pose proof (unmarshal_loop_ok ss (length (index_bytes ss)) [] [] maxInt64 0 Hok) as Hloop.
  cbn [app length] in Hloop. change (Z.of_nat 0) with 0 in Hloop. rewrite Hloop; [|done|].
  2: { clear -Hok Hne. destruct ss as [|s ss]; [done|]. clear Hne. revert s Hok. induction ss as [|s2 ss IH]; intros s Hok.
       - unfold index_bytes. cbn [fmap list_fmap concat length]. rewrite app_nil_r, length_section_bytes. lia.
       - inversion_clear Hok as [|? ? _ Hok']. specialize (IH s2 Hok'). unfold index_bytes in *. rewrite fmap_cons. cbn [concat].
         rewrite length_app, length_section_bytes. cbn [length] in *. lia. }
  cbn [mbind outcome_bind]. set (offs := fst <$> layout 0 ss).
  pose proof (length_layout 0 ss) as Hn'. assert (length offs = length ss) as Hn by (unfold offs; by rewrite length_fmap).
  assert (forall i, (i < length ss)%nat -> exists os, layout 0 ss !! i = Some os /\ index offs i = Ok (fst os) /\
    (s_key <$> ss) !! i = Some (s_key (snd os)) /\ exists r, ztail (index_bytes ss) (fst os) = Ok r /\
    readKey r = Ok (2 + Z.of_nat (length (s_key (snd os))), s_key (snd os))) as Hat.
  { intros i Hi. destruct (lookup_lt_is_Some_2 (layout 0 ss) i) as [os Hos]; [lia|]. exists os. split_and!.
    - done.
    - apply index_lookup. unfold offs. by rewrite list_lookup_fmap, Hos.
    - rewrite <- (layout_snd 0 ss), !list_lookup_fmap, Hos. done.
    - apply (readKey_at _ ss); [done|by eapply list_elem_of_lookup_2|done]. }
  assert (0 < length ss)%nat as Hpos by (destruct ss; [done|cbn; lia]).
  destruct (Hat 0%nat) as (os0 & H0 & -> & Hk0 & r0 & Hr0 & Hrk0); [done|]. cbn [mbind outcome_bind].
  rewrite Hr0. cbn [mbind outcome_bind]. rewrite Hrk0. cbn [mbind outcome_bind]. rewrite Hn.
  destruct (Hat (length ss - 1)%nat) as (os1 & H1 & -> & Hk1 & r1 & Hr1 & Hrk1); [lia|]. cbn [mbind outcome_bind].
  rewrite Hr1. cbn [mbind outcome_bind]. rewrite Hrk1. cbn [mbind outcome_bind].
  eexists. split; [done|]. split_and!; [|done..]. split; cbn [b offsets minKey maxKey]; try done.
  - unfold offset_bytes, offs. rewrite <- list_fmap_compose. reflexivity.
  - by rewrite head_lookup.
  - rewrite last_lookup, length_fmap. by replace (pred (length ss)) with (length ss - 1)%nat by lia.
Qed.

(** ** Times *)

Lemma foldl_min ss m :
  foldl (fun m s => if first_time s <? m then first_time s else m) m ss <= m /\
  forall s, s ∈ ss -> foldl (fun m s => if first_time s <? m then first_time s else m) m ss <= first_time s.
Proof.
  revert m. induction ss as [|s0 ss IH]; intros m; cbn [foldl]; [split; [lia|set_solver]|].
  destruct (IH (if first_time s0 <? m then first_time s0 else m)) as [H1 H2].
  destruct (Z.ltb_spec (first_time s0) m); (split; [lia|]); intros s [-> |Hs]%elem_of_cons; [lia|auto|lia|auto].
Qed.

Lemma foldl_max ss m :
  m <= foldl (fun m s => if m <? last_time s then last_time s else m) m ss /\
  (forall s, s ∈ ss -> last_time s <= foldl (fun m s => if m <? last_time s then last_time s else m) m ss) /\
  (forall t, m <= t -> (forall s, s ∈ ss -> last_time s <= t) ->
    foldl (fun m s => if m <? last_time s then last_time s else m) m ss <= t).
Proof.
  revert m. induction ss as [|s0 ss IH]; intros m; cbn [foldl]; [split_and!; [lia|set_solver|auto]|].
  destruct (IH (if m <? last_time s0 then last_time s0 else m)) as (H1 & H2 & H3).
  destruct (Z.ltb_spec m (last_time s0)); split_and!.
  1, 4: lia.
  1, 3: intros s [-> |Hs]%elem_of_cons; [lia|auto].
  all: intros t Ht Hs; apply H3; [|intros s Hin; apply Hs; by right].
  - apply Hs. by left.
  - done.
Qed.

(** In order, the first entry starts first and the last one ends last. *)
Lemma section_times s e :
  section_ok s -> times_ok s -> e ∈ s_entries s -> first_time s <= MinTime e /\ MinTime e <= MaxTime e /\ MaxTime e <= last_time s.
Proof.
  intros (_ & _ & _ & _ & _ & _ & Hs) [Hin He] (i & Hi)%list_elem_of_lookup.
  assert (in_time e) as Hie by (eapply Forall_lookup_1; [exact Hin|exact Hi]). unfold in_time in Hie.
  split_and!; [|done|].
  - unfold first_time. destruct (s_entries s) as [|e0 l] eqn:E; [done|]. destruct i as [|i]; [injection Hi as <-; lia|].
    apply (sorted_lookup starts_before (e0 :: l) 0 (S i) e0 e Hs ltac:(lia) eq_refl Hi).
  - unfold last_time. destruct (last (s_entries s)) as [e1|] eqn:E.
    2: { apply last_None in E. by rewrite E in Hi. }
    rewrite last_lookup in E. pose proof (lookup_lt_Some _ _ _ Hi).
    destruct (decide (i = pred (length (s_entries s)))) as [->|]; [assert (e = e1) by congruence; subst; lia|].
    apply (sorted_lookup ends_before _ i (pred (length (s_entries s))) e e1 He ltac:(lia) Hi E).
Qed.

(** * Properties *)

(** C15: an index is read back as it was written.  The bytes the writer gives for
    blocks added key after key are read into an index that has, for every key, the
    entries that were added for it, ordered by time, and the type of its first
    block, at the position of the key, and for any other key nothing; its key range
    is from the first key to the last. *)
Theorem index_roundtrip resort (on_disk : bool) (gs : list group) :
  sorts resort -> Forall group_ok gs -> sorted_keys (fst <$> gs) -> gs <> [] ->
  Z.of_nat (length (index_bytes (section_of resort <$> gs))) < 2 ^ 31 ->
  exists w w' bs d, Add_groups resort (if on_disk then NewDiskIndexWriter else NewIndexWriter) gs = Ok w /\
    WriteTo resort w = Ok (w', bs) /\ UnmarshalBinary NewIndirectIndex bs = Ok d /\
    KeyCount d = Z.of_nat (length gs) /\
    (forall k g, gs !! k = Some g -> exists es, es ≡ₚ (snd <$> snd g) /\ StronglySorted starts_before es /\
      ReadEntries d (fst g) = Ok (Some es) /\ Type_at d (fst g) = Ok (s_type (section_of resort g)) /\
      Key d (Z.of_nat k) = Ok (Some (fst g, s_type (section_of resort g), es))) /\
    (forall key, key ∉ (fst <$> gs) -> ReadEntries d key = Ok None /\ Type_at d key = Err no_key) /\
    head (fst <$> gs) = Some (fst (KeyRange d)) /\ last (fst <$> gs) = Some (snd (KeyRange d)).
Proof.
  intros Hsort Hok Hs Hne Hl. set (ss := section_of resort <$> gs) in *.
  destruct (index_written_lemma resort Hsort on_disk gs Hok Hs) as (w & w' & H1 & H2 & _ & _ & Hss). fold ss in H2, Hss.
  destruct (UnmarshalBinary_index NewIndirectIndex ss) as (d & H3 & Hd & _); [done| |done|].
  { unfold ss. by intros E%fmap_nil_inv. }
  assert (s_key <$> ss = fst <$> gs) as Ekeys by (unfold ss; by rewrite <- list_fmap_compose).
  exists w, w', (index_bytes ss), d. split_and!; try done.
  - rewrite (KeyCount_live d ss _ Hd), length_layout. unfold ss. by rewrite length_fmap.
  - intros k g Hg. exists (in_order resort (snd <$> snd g)).
    assert (exists o, layout 0 ss !! k = Some (o, section_of resort g)) as [o Ho].
    { assert (ss !! k = Some (section_of resort g)) as E by (unfold ss; by rewrite list_lookup_fmap, Hg).
      rewrite <- (layout_snd 0 ss), list_lookup_fmap in E. destruct (layout 0 ss !! k) as [[o s]|]; [|done].
      injection E as ->. by exists o. }
    pose proof (find_key_lookup d ss _ Hd k _ Ho) as Hf. cbn [snd] in Hf.
    split_and!; [by apply in_order_perm|by apply in_order_sorted| | |].
    + rewrite (ReadEntries_live d ss _ Hd). change (fst g) with (s_key (section_of resort g)). by rewrite Hf.
    + rewrite (Type_at_live d ss _ Hd). change (fst g) with (s_key (section_of resort g)). by rewrite Hf.
    + by destruct (Key_live d ss _ Hd k o _ Ho) as [-> _].
  - intros key Hkey. rewrite (ReadEntries_live d ss _ Hd), (Type_at_live d ss _ Hd).
    destruct (find_key (layout 0 ss) key) as [[o s]|] eqn:E; [|done]. exfalso. apply Hkey.
    apply find_key_Some in E as (k & Hk & <-). assert (ss !! k = Some s) as Hs'.
    { by rewrite <- (layout_snd 0 ss), list_lookup_fmap, Hk. }
    unfold ss in Hs'. rewrite list_lookup_fmap in Hs'. destruct (gs !! k) as [g|] eqn:Hg; [|done]. injection Hs' as <-.
    apply list_elem_of_fmap. exists g. split; [done|by eapply list_elem_of_lookup_2].
  - rewrite <- Ekeys. exact (reads_min _ _ _ Hd).
  - rewrite <- Ekeys. exact (reads_max _ _ _ Hd).
Qed.

Lemma index_roundtrip_witness :
  let e1 := MkIndexEntry 30 40 100 20 in let e2 := MkIndexEntry (-10) 20 5 95 in
  let gs := [([97], [(1, e1); (1, e2)]); ([98], [(2, e1)])] in
  exists w w' bs d, Add_groups (merge_sort starts_before) NewDiskIndexWriter gs = Ok w /\
    WriteTo (merge_sort starts_before) w = Ok (w', bs) /\ UnmarshalBinary NewIndirectIndex bs = Ok d /\
    KeyCount d = 2 /\ ReadEntries d [97] = Ok (Some [e2; e1]) /\ ReadEntries d [97; 98] = Ok None.
Proof.
  intros e1 e2 gs.
  destruct (index_roundtrip (merge_sort starts_before) true gs merge_sort_sorts) as (w & w' & bs & d & H1 & H2 & H3 & H4 & H5 & H6 & _).
  - repeat constructor; cbn; lia || done.
  - repeat constructor.
  - done.
  - vm_compute. reflexivity.
  - exists w, w', bs, d. split_and!; [done..| |].
    + destruct (H5 0%nat _ eq_refl) as (es & Hp & Hs & Hr & _). change (ReadEntries d [97] = Ok (Some es)) in Hr. rewrite Hr. do 2 f_equal.
      symmetry in Hp.
      apply Permutation_length_2_inv in Hp as [-> | ->]; [|done].
      inversion_clear Hs as [|? ? _ Hf]. inversion_clear Hf as [|? ? Hlt _]. unfold starts_before in Hlt. cbn in Hlt. lia.
    + apply H6. apply (bool_decide_unpack _). vm_compute. exact I.
Defined.

(** C16: what an open index says is what its live sections say, whatever has been deleted
    from it.  For any key: [search] gives the offset of the live section with that key,
    or the length of the index; [ReadEntries] and [Entries] its entries, [Entry] the
    first of them that contains a time, [Type] its type; [Contains] is whether there is
    one, and [ContainsValue] whether one of its entries contains the time and no
    deleted range of the key does.  [KeyCount] is the number of live sections; [Key]
    and [KeyAt] give the one at a position, in the order of the keys, and nothing
    outside of them; [Seek] gives the position of the first key not below the one
    sought, but of the last key, and not the end, when all are below. *)
Theorem index_refines_sections (d : indirectIndex) ss live (key : list Z) (t : Z) :
  reads d ss live ->
  search d key = Ok (match find_key live key with Some (o, _) => o | None => Z.of_nat (length (b d)) end) /\
  ReadEntries d key = Ok (s_entries ∘ snd <$> find_key live key) /\
  Entries d key = Ok (s_entries ∘ snd <$> find_key live key) /\
  Entry d key t = Ok (os ← find_key live key; List.find (fun e => entry_Contains e t) (s_entries (snd os))) /\
  Type_at d key = match find_key live key with Some (_, s) => Ok (s_type s) | None => Err no_key end /\
  Contains_ d key = Ok (bool_decide (is_Some (find_key live key))) /\
  (exists r, ContainsValue d key t = Ok r /\
    (r = true <-> (exists os e, find_key live key = Some os /\ e ∈ s_entries (snd os) /\ MinTime e <= t <= MaxTime e) /\
      forall w, w ∈ TombstoneRange d key -> ~ (Min w <= t <= Max w))) /\
  KeyCount d = Z.of_nat (length live) /\
  sorted_keys (s_key ∘ snd <$> live) /\
  (forall k o s, live !! k = Some (o, s) ->
    Key d (Z.of_nat k) = Ok (Some (s_key s, s_type s, s_entries s)) /\
    KeyAt d (Z.of_nat k) = Ok (Some (s_key s, s_type s))) /\
  (forall i, i < 0 \/ KeyCount d <= i -> Key d i = Ok None /\ KeyAt d i = Ok None) /\
  (live <> [] -> exists k os, Seek d key = Ok k /\ live !! k = Some os /\
    (forall i x, (i < k)%nat -> live !! i = Some x -> before (s_key (snd x)) key) /\
    (S k = length live \/ ~ before (s_key (snd os)) key)).
Proof.
  intros H. split_and!.
  - by apply (search_live d ss).
  - by apply (ReadEntries_live d ss).
  - by apply (ReadEntries_live d ss).
  - by apply (Entry_live d ss).
  - by apply (Type_at_live d ss).
  - by apply (Contains_live d ss).
  - by apply (ContainsValue_find d ss).
  - by apply (KeyCount_live d ss).
  - pose proof (live_sorted d ss live H) as Hs. unfold sorted_keys. clear H. induction Hs as [|x l Hl IH Hx]; [constructor|].
    rewrite fmap_cons. constructor; [done|]. by apply Forall_fmap.
  - intros k o s. by apply (Key_live d ss).
  - intros i. by apply (Key_outside d ss live).
  - by apply (searchOffset_live d ss).
Qed.

(** An index of two keys, the first of which is deleted. *)
Definition sample_sections : list section :=
  [MkSection [97] 1 [MkIndexEntry (-20) (-10) 5 20]; MkSection [99] 4 [MkIndexEntry (-30) (-5) 25 7]].
Definition sample : indirectIndex :=
  match UnmarshalBinary NewIndirectIndex (index_bytes sample_sections) with
  | Ok d => with_offsets d (drop 4 (offsets d))
  | _ => NewIndirectIndex
  end.

Lemma sample_reads : reads sample sample_sections [(34, MkSection [99] 4 [MkIndexEntry (-30) (-5) 25 7])].
Proof.
  split.
  - split; repeat constructor; cbn; try lia; done.
  - vm_compute. reflexivity.
  - vm_compute. reflexivity.
  - unfold sample_sections, layout. apply sublist_cons. reflexivity.
  - vm_compute. reflexivity.
  - vm_compute. reflexivity.
  - vm_compute. reflexivity.
Qed.

Lemma index_refines_sections_witness :
  ReadEntries sample [97] = Ok None /\ Type_at sample [99] = Ok 4 /\ KeyCount sample = 1 /\
  exists k os, Seek sample [100] = Ok k /\ [(34, MkSection [99] 4 [MkIndexEntry (-30) (-5) 25 7])] !! k = Some os.
Proof.
  destruct (index_refines_sections sample sample_sections _ [97] 0 sample_reads) as (_ & H1 & _ & _ & _ & _ & _ & H2 & _).
  destruct (index_refines_sections sample sample_sections _ [99] 0 sample_reads) as (_ & _ & _ & _ & H3 & _).
  destruct (index_refines_sections sample sample_sections _ [100] 0 sample_reads) as (_ & _ & _ & _ & _ & _ & _ & _ & _ & _ & _ & H4).
  split_and!; [exact H1|exact H3|exact H2|]. destruct (H4 ltac:(done)) as (k & os & Hk & Hos & _). eauto.
Defined.

(** the time range of a file.  It is the least first and the greatest last time of
    the keys, so that a file is never passed over for a range that one of its
    blocks overlaps; but it starts from 0, so a file of negative times claims to
    reach up to 0. *)
Theorem index_TimeRange ss :
  index_ok ss -> ss <> [] -> Z.of_nat (length (index_bytes ss)) < 2 ^ 31 -> Forall times_ok ss ->
  exists d, UnmarshalBinary NewIndirectIndex (index_bytes ss) = Ok d /\
    (forall s e min max, s ∈ ss -> e ∈ s_entries s -> entry_OverlapsTimeRange e min max = true ->
      OverlapsTimeRange d min max = true) /\
    ((forall s, s ∈ ss -> last_time s <= 0) -> snd (TimeRange_ d) = 0).
Proof.
  intros Hok Hne Hl Ht. destruct (UnmarshalBinary_index NewIndirectIndex ss Hok Hne Hl) as (d & E & _ & _ & Hmin & Hmax).
  exists d. split_and!; [done| |].
  - intros s e min max Hs He. unfold entry_OverlapsTimeRange, OverlapsTimeRange. rewrite !andb_true_iff, !Z.leb_le.
    destruct Hok as [Hok _]. rewrite Forall_forall in Hok, Ht. pose proof (section_times s e (Hok s Hs) (Ht s Hs) He).
    pose proof (proj2 (foldl_min ss maxInt64) s Hs). pose proof (proj1 (proj2 (foldl_max ss 0)) s Hs).
    rewrite Hmin, Hmax. unfold file_min, file_max. lia.
  - intros Hneg. unfold TimeRange_. cbn [snd]. rewrite Hmax. unfold file_max.
    pose proof (proj1 (foldl_max ss 0)). pose proof (proj2 (proj2 (foldl_max ss 0)) 0 ltac:(lia) Hneg). lia.
Qed.

Lemma index_TimeRange_witness :
  exists d, UnmarshalBinary NewIndirectIndex (index_bytes sample_sections) = Ok d /\ snd (TimeRange_ d) = 0 /\
    OverlapsTimeRange d (-15) (-12) = true.
Proof.
  destruct (index_TimeRange sample_sections) as (d & E & H1 & H2).
  - apply (reads_ok _ _ _ sample_reads).
  - done.
  - vm_compute. reflexivity.
  - repeat constructor; cbn; unfold in_time; cbn; lia.
  - exists d. split_and!; [exact E| |].
    + apply H2. apply Forall_forall. repeat constructor; unfold last_time; cbn [s_entries last MaxTime]; lia.
    + apply (H1 (MkSection [97] 1 [MkIndexEntry (-20) (-10) 5 20]) (MkIndexEntry (-20) (-10) 5 20)); [left|left|done].
Defined.

End IndexLaws.
