(* ===== verification/IndexDelete.v ===== *)
(** Deletion in the index of a data file: [Delete] and [DeleteRange] of
    src/storage/store/sst_index.go take out exactly what they are told to, and keep
    the index well-formed. *)
From stdpp Require Import gmap sets.
From S2P Require Import Prelude Binary Bytes Util SSTIndex IndirectIndex IndexLaws.
Import Util SSTIndex IndirectIndex IndexLaws.

Module IndexDelete.

(** ** Specification *)

Definition valid_range (t : TimeRange) : Prop := is_i64 (Min t) /\ is_i64 (Max t) /\ Min t <= Max t.

(** The invariant of an open index: its file is well-formed, with times in order and
    within the range of the file, and its tombstones are proper ranges. *)
Record index_inv (d : indirectIndex) (ss : list section) (live : list (Z * section)) : Prop := {
  inv_reads : reads d ss live;
  inv_times : Forall times_ok ss;
  inv_bounds : forall s, s ∈ ss -> minTime d <= first_time s /\ last_time s <= maxTime d;
  inv_tombs : forall k l, tombstones d !! k = Some l -> Forall valid_range l }.

Definition covered (l : list TimeRange) (t : Z) : bool := existsb (fun r => (Min r <=? t) && (t <=? Max r)) l.
Definition some_entry (s : section) (t : Z) : bool := existsb (fun e => entry_Contains e t) (s_entries s).

(** * Lemmas *)

Lemma sorted_copy_ok keys :
  StronglySorted not_after (sorted_copy keys) /\ forall x, x ∈ sorted_copy keys <-> x ∈ keys.
Proof.
  unfold sorted_copy. destruct (IsSorted keys) eqn:E; [by rewrite IsSorted_true in E|].
  split; [apply Sort_sorted|]. intros x. by rewrite Sort_perm.
Qed.

(** What skipping keeps: the keys that are not before [k]. *)
Lemma skip_keys_ok k keys :
  StronglySorted not_after keys ->
  StronglySorted not_after (skip_keys k keys) /\
  (forall x, ~ before x k -> x ∈ skip_keys k keys <-> x ∈ keys) /\
  Forall (fun x => ~ before x k) (skip_keys k keys).
Proof.
  induction 1 as [|k0 keys Hs IH Hk0]; cbn [skip_keys]; [split_and!; [constructor|done|constructor]|].
  destruct (Z.ltb_spec (Compare k0 k) 0) as [Hb|Hb].
  - destruct IH as (H1 & H2 & H3). split_and!; [done| |done]. intros x Hx. rewrite H2, elem_of_cons by done.
    split; [by right|]. intros [-> |]; [|done]. by destruct Hx.
  - assert (~ before k0 k) as Hn by (unfold before; lia). split_and!; [by constructor|done|].
    constructor; [done|]. eapply Forall_impl; [exact Hk0|]. intros x Hx Hxk. apply not_after_iff in Hx as [Hx| ->]; [|done].
    apply Hn. by transitivity x.
Qed.

(** ** Marking and packing the offsets *)

Definition mark (keys : list (list Z)) (os : Z * section) : list Z :=
  if bool_decide (s_key (snd os) ∈ keys) then nilOffset else offset_word os.

(** The sections of [l] are where the offsets say, in the order of their keys. *)
Definition placed (bs : list Z) (l : list (Z * section)) : Prop :=
  Forall (fun os => exists r, ztail bs (fst os) = Ok (section_bytes (snd os) ++ r) /\ section_ok (snd os) /\
    0 <= fst os < 2 ^ 31) l /\
  StronglySorted (fun x y => before (s_key (snd x)) (s_key (snd y))) l.

Lemma placed_cons bs os l : placed bs (os :: l) -> placed bs l.
Proof. intros [H1 H2]. inversion H1. inversion H2. by split. Qed.

Lemma placed_drop bs l n : placed bs l -> placed bs (drop n l).
Proof.
  revert l. induction n as [|n IH]; intros l H; [done|]. destruct l as [|os l]; [done|]. by apply IH, (placed_cons _ os).
Qed.

Lemma mark_ext keys keys' (l : list (Z * section)) :
  (forall os, os ∈ l -> s_key (snd os) ∈ keys <-> s_key (snd os) ∈ keys') -> mark keys <$> l = mark keys' <$> l.
Proof.
  intros H. apply list_fmap_ext. intros i os Hi. unfold mark. by rewrite (bool_decide_ext _ _ (H os (list_elem_of_lookup_2 _ _ _ Hi))).
Qed.

Lemma mark_none keys (l : list (Z * section)) : (forall os, os ∈ l -> s_key (snd os) ∉ keys) -> mark keys <$> l = offset_word <$> l.
Proof.
  intros H. apply list_fmap_ext. intros i os Hi. unfold mark. rewrite bool_decide_false; [done|].
  apply H. by eapply list_elem_of_lookup_2.
Qed.

Lemma mark_in keys o s : s_key s ∈ keys -> mark keys (o, s) = nilOffset.
Proof. intros H. unfold mark. cbn [snd]. by rewrite bool_decide_true. Qed.

Lemma mark_out keys o s : s_key s ∉ keys -> mark keys (o, s) = offset_word (o, s).
Proof. intros H. unfold mark. cbn [snd]. by rewrite bool_decide_false. Qed.

Lemma length_mark keys os : length (mark keys os) = 4%nat.
Proof. unfold mark. case_bool_decide; [done|]. apply length_be_encode. Qed.

Lemma words_mark keys (l : list (Z * section)) : words 4 (mark keys <$> l).
Proof. apply Forall_fmap, Forall_true. intros os. apply length_mark. Qed.

Lemma Uint32_offset_word o s : 0 <= o < 2 ^ 31 -> Uint32 (offset_word (o, s)) = Ok o.
Proof.
  intros Ho. unfold offset_word. cbn [fst]. rewrite <- (app_nil_r (be_encode 4 o)).
  apply be_uint_encode. change (256 ^ Z.of_nat 4) with (2 ^ 32). lia.
Qed.

Lemma delete_loop_ok bs rest : forall fuel pre keys,
  placed bs rest -> words 4 pre -> StronglySorted not_after keys -> (length rest <= fuel)%nat ->
  delete_loop fuel (4 * length pre) keys bs (concat (pre ++ (offset_word <$> rest))) =
  Ok (concat (pre ++ (mark keys <$> rest))).
Proof.
  induction rest as [|os rest IH]; intros fuel pre keys Hp Hw Hs Hf.
  { rewrite !fmap_nil, !app_nil_r. destruct fuel; cbn [delete_loop]; rewrite bool_decide_false; try done;
      rewrite (concat_words_length 4) by done; lia. }
  destruct (decide (keys = [])) as [->|Hne].
  { rewrite (mark_none [] (os :: rest)) by (intros ? _; apply not_elem_of_nil).
    destruct fuel; cbn [delete_loop]; by rewrite (bool_decide_false (@nil (list Z) <> [])), andb_false_r by (intros Hn; by apply Hn). }
  destruct fuel as [|fuel]; [cbn in Hf; lia|]. cbn [delete_loop].
  assert (words 4 (pre ++ (offset_word <$> os :: rest))) as Hwords by (apply Forall_app; split; [done|apply words_offsets]).
  rewrite (bool_decide_true (keys <> [])), andb_true_r by done.
  rewrite bool_decide_true by (rewrite (concat_words_length 4), length_app, fmap_cons by done; cbn [length]; lia).
  rewrite (subslice_word 4 _ (length pre) (offset_word os)); [|done|by rewrite fmap_cons, list_lookup_middle].
  cbn [mbind outcome_bind]. destruct os as [o s]. destruct Hp as [Hp Hsort].
  apply Forall_cons_1 in Hp as [(r & Hr & Hok & Ho) Hrest]. cbn [fst snd] in Hr, Hok, Ho.
  rewrite Uint32_offset_word by done.
  cbn [mbind outcome_bind]. rewrite Hr. cbn [mbind outcome_bind]. rewrite readKey_section by done. cbn [mbind outcome_bind].
  apply StronglySorted_inv in Hsort as [Hsort Hafter]. cbn [snd] in Hafter. rewrite Forall_forall in Hafter.
  destruct (skip_keys_ok (s_key s) keys Hs) as (Hs' & Hmem & Hge).
  assert (forall keys', (forall x, x ∈ rest -> s_key (snd x) ∈ keys <-> s_key (snd x) ∈ keys') -> StronglySorted not_after keys' ->
    forall w, length w = 4%nat -> delete_loop fuel (4 * length pre + 4) keys' bs (concat (pre ++ w :: (offset_word <$> rest))) =
      Ok (concat (pre ++ w :: (mark keys <$> rest)))) as Hgo.
  { intros keys' Hk' Hsk' w Hlw. rewrite (mark_ext keys keys') by done.
    replace (4 * length pre + 4)%nat with (4 * length (pre ++ [w]))%nat by (rewrite length_app; cbn; lia).
    assert (forall l, pre ++ w :: l = (pre ++ [w]) ++ l) as E by (intros l0; by rewrite <- app_assoc). rewrite (E (offset_word <$> rest)), (E (mark keys' <$> rest)). apply IH; [by split|apply Forall_app; split; [done|by constructor]|done|cbn in Hf; lia]. }
  assert (forall x, x ∈ rest -> s_key (snd x) ∈ keys <-> s_key (snd x) ∈ skip_keys (s_key s) keys) as Hrest_mem.
  { intros x Hx. rewrite Hmem; [done|]. intros Hb. apply (before_irrefl (s_key s)). transitivity (s_key (snd x)); auto. }
  rewrite !fmap_cons. assert (s_key s ∈ keys <-> s_key s ∈ skip_keys (s_key s) keys) as Hself.
  { rewrite Hmem; [done|]. apply before_irrefl. }
  destruct (skip_keys (s_key s) keys) as [|k0 keys'] eqn:Esk.
  - rewrite mark_out by (rewrite Hself; apply not_elem_of_nil).
    apply Hgo; [done|constructor|apply length_be_encode].
  - apply StronglySorted_inv in Hs' as [Hs' Hk0]. case_bool_decide as E.
    + subst k0. rewrite mark_in by (rewrite Hself; by left).
      assert (splice (concat (pre ++ offset_word (o, s) :: (offset_word <$> rest))) (4 * length pre) nilOffset =
        concat (pre ++ nilOffset :: (offset_word <$> rest))) as ->.
      { rewrite !concat_app. cbn [concat]. rewrite <- (concat_words_length 4 pre) by done. rewrite splice_after.
        change (length nilOffset) with 4%nat. by rewrite drop_app_length' by (symmetry; apply length_be_encode). }
      apply Hgo; [|done|done]. intros x Hx. rewrite Hrest_mem, elem_of_cons by done. split; [|auto]. intros [E|]; [|done].
      exfalso. apply (before_irrefl (s_key s)). rewrite <- E at 2. by apply Hafter.
    + assert (mark keys (o, s) = offset_word (o, s)) as ->.
      { apply mark_out. rewrite Hself, elem_of_cons. intros [E'|Hin]; [congruence|].
        rewrite Forall_forall in Hk0. specialize (Hk0 _ Hin). apply not_after_iff in Hk0 as [Hk0| ->]; [|done].
        inversion Hge as [|? ? Hn _]. by apply Hn. }
      apply Hgo; [done|by constructor|apply length_be_encode].
Qed.

Lemma is_gap_offset o : 0 <= o < 2 ^ 31 -> is_gap 255 (be_encode 4 o) = false.
Proof.
  intros Ho. unfold is_gap. cbn [be_encode head]. apply bool_decide_eq_false. intros [= E].
  rewrite land_255, Z.shiftr_div_pow2 in E by lia. change (2 ^ (8 * Z.of_nat 3)) with (2 ^ 24) in E.
  assert (o / 2 ^ 24 < 128) by (apply Z.div_lt_upper_bound; lia).
  assert (0 <= o / 2 ^ 24) by (apply Z.div_pos; lia). rewrite Z.mod_small in E by lia. lia.
Qed.

Lemma kept_mark bs keys l :
  placed bs l -> kept 255 (mark keys <$> l) = offset_word <$> filter (fun os => s_key (snd os) ∉ keys) l.
Proof.
  intros [Hp _]. unfold kept. induction Hp as [|[o s] l (r & _ & _ & Ho) _ IH]; [done|].
  rewrite fmap_cons, !filter_cons. cbn [snd fst] in *. destruct (decide (s_key s ∈ keys)) as [Hin|Hout].
  - rewrite mark_in by done. rewrite (decide_False (P := s_key s ∉ keys)) by (intros Hn; by apply Hn).
    by rewrite decide_False by (by vm_compute).
  - rewrite mark_out by done. rewrite (decide_True (P := s_key s ∉ keys)) by done.
    rewrite decide_True by (by apply is_gap_offset). by rewrite fmap_cons, IH.
Qed.

Section delete.
Context (d : indirectIndex) (ss : list section) (live : list (Z * section)) (H : reads d ss live).

Lemma live_placed : placed (b d) live.
Proof.
  split; [|apply (live_sorted d ss live H)]. apply Forall_forall. intros [o s] Hin.
  destruct (live_elem d ss live H o s Hin) as (q & r & Hb & Ho & Hs & _). exists r. cbn [fst snd].
  pose proof (section_room d q r s o Ho Hb). pose proof (index_short d ss live H).
  split_and!; [by apply (ztail_section d q r s o Ho Hb)|done|lia|lia].
Qed.

Definition not_in (keys : list (list Z)) : list (Z * section) := filter (fun os => s_key (snd os) ∉ keys) live.

Lemma with_offsets_reads keys : reads (with_offsets d (offset_bytes (not_in keys))) ss (not_in keys).
Proof.
  destruct H as [H1 H2 H3 H4 H5 H6 H7]. split; cbn [b offsets minKey maxKey with_offsets]; try done.
  transitivity live; [|done]. apply sublist_filter.
Qed.

Lemma Delete_live keys :
  exists d', Delete d keys = Ok d' /\ reads d' ss (not_in keys) /\ tombstones d' = tombstones d /\
    minTime d' = minTime d /\ maxTime d' = maxTime d.
Proof.
  destruct (sorted_copy_ok keys) as [Hs Hmem]. unfold Delete.
  assert (forall k, k ∈ keys <-> k ∈ sorted_copy keys) as Hmem' by (intros; by rewrite Hmem).
  assert (not_in keys = not_in (sorted_copy keys)) as Hni.
  { unfold not_in. apply list_filter_iff. intros os. by rewrite Hmem'. }
  destruct (sorted_copy keys) as [|k0 ks] eqn:Esc.
  { exists d. split_and!; try done. rewrite Hni. unfold not_in. rewrite filter_all; [done|].
    apply Forall_true. intros os. apply not_elem_of_nil. }
  assert (exists start, searchOffset d k0 = Ok start /\ (start <= length live)%nat /\
    forall os, os ∈ take start live -> before (s_key (snd os)) k0) as (start & -> & Hstart & Hlow).
  { destruct (decide (live = [])) as [Hnil|Hne].
    - exists 0%nat. unfold searchOffset. rewrite (reads_offsets _ _ _ H), Hnil. split_and!; [done|lia|set_solver].
    - destruct (searchOffset_live d ss live H k0 Hne) as (k & os & E & Hk & Hlow & _). exists k.
      pose proof (lookup_lt_Some _ _ _ Hk). split_and!; [done|lia|]. intros x (i & Hi)%list_elem_of_lookup.
      pose proof (lookup_lt_Some _ _ _ Hi) as Hlt. rewrite length_take in Hlt. rewrite lookup_take_lt in Hi by lia.
      apply (Hlow i x); [lia|done]. }
  cbn [mbind outcome_bind]. rewrite (reads_offsets _ _ _ H).
  assert (offset_bytes live = concat ((offset_word <$> take start live) ++ (offset_word <$> drop start live))) as Hsplit.
  { unfold offset_bytes. by rewrite <- fmap_app, take_drop. }
  pose proof (length_offset_bytes live) as Hn. set (n := length (offset_bytes live)) in *. rewrite Hsplit.
  pose proof (delete_loop_ok (b d) (drop start live) n (offset_word <$> take start live)
    (k0 :: ks)) as Hloop. rewrite length_fmap, length_take, Nat.min_l, (Nat.mul_comm 4) in Hloop by lia.
  rewrite Hloop; [|apply placed_drop, live_placed|apply words_offsets|done|].
  2: { rewrite length_drop. lia. }
  cbn [mbind outcome_bind]. rewrite <- (mark_none (k0 :: ks) (take start live)), <- fmap_app, take_drop.
  2: { intros os Hos Hin. specialize (Hlow os Hos). apply elem_of_cons in Hin as [E|Hin]; [rewrite E in Hlow; by apply before_irrefl in Hlow|].
       apply StronglySorted_inv in Hs as [_ Hk0]. rewrite Forall_forall in Hk0. by destruct (Hk0 _ Hin). }
  rewrite (Pack_words 4 255) by (done || apply words_mark). rewrite (kept_mark (b d)) by apply live_placed.
  cbn [mbind outcome_bind]. eexists. split; [done|]. rewrite Hni. split_and!; [|done..]. apply with_offsets_reads.
Qed.
End delete.

(** ** Ranges *)

Lemma range_le_total : Total range_le.
Proof. intros a c. unfold range_le. lia. Qed.

#[global] Instance range_le_trans : Transitive range_le.
Proof. intros a c e. unfold range_le. lia. Qed.

Definition starts_first (a c : TimeRange) : Prop := Min a <= Min c.

Lemma sort_ranges_perm l : sort_ranges l ≡ₚ l.
Proof. unfold sort_ranges. destruct (_ && _); [apply merge_sort_Permutation|done]. Qed.

Lemma sort_ranges_sorted l : StronglySorted starts_first (sort_ranges l).
Proof.
  assert (Transitive starts_first) as Ht by (intros a c e; unfold starts_first; lia).
  unfold sort_ranges. destruct (bool_decide (1 < length l)%nat && negb (ranges_sorted l)) eqn:E.
  - pose proof range_le_total. assert (StronglySorted range_le (merge_sort range_le l)) as Hs by (apply StronglySorted_merge_sort; apply _).
    induction Hs as [|x l' Hl IH Hx]; constructor; [done|]. eapply Forall_impl; [exact Hx|].
    intros y. unfold range_le, starts_first. lia.
  - apply andb_false_iff in E as [E|E].
    + apply bool_decide_eq_false in E. destruct l as [|x [|y l]]; [constructor|repeat constructor|cbn in E; lia].
    + apply negb_false_iff in E. unfold ranges_sorted in E. rewrite forallb_forall in E. apply Sorted_StronglySorted; [done|].
      assert (forall i x y, l !! i = Some x -> l !! S i = Some y -> starts_first x y) as Hadj.
      { intros i x y Hx Hy. assert (In i (rev (seq 0 (length l - 1)))) as Hin.
        { rewrite <- in_rev, in_seq. apply lookup_lt_Some in Hy. lia. }
        specialize (E i Hin). cbn in E. rewrite Hx, Hy in E. unfold range_less in E. unfold starts_first.
        destruct (Z.eqb_spec (Min y) (Min x)); lia. }
      clear E. induction l as [|x l IH]; [constructor|]. constructor; [apply IH; intros i; apply (Hadj (S i))|].
      destruct l as [|y l]; constructor. by apply (Hadj 0%nat).
Qed.

Lemma covered_elem l t : covered l t = true <-> exists r, r ∈ l /\ Min r <= t <= Max r.
Proof.
  unfold covered. rewrite existsb_exists. split; intros (r & Hr & Ht); exists r.
  - rewrite andb_true_iff, !Z.leb_le in Ht. by rewrite <- list_elem_of_In in Hr.
  - rewrite andb_true_iff, !Z.leb_le. by rewrite <- list_elem_of_In.
Qed.

Lemma covered_perm l k t : l ≡ₚ k -> covered l t = covered k t.
Proof.
  intros H. apply eq_true_iff_eq. rewrite !covered_elem. by setoid_rewrite H.
Qed.

(** The window has no hole. *)
Lemma grow_covered all prev l lo hi :
  Forall valid_range (prev :: l) -> StronglySorted starts_first (prev :: l) ->
  (forall r, r ∈ l -> r ∈ all) -> lo <= Min prev -> Max prev <= hi ->
  (forall t, lo <= t <= hi -> covered all t = true) ->
  forall t, fst (grow prev l lo hi) <= t <= snd (grow prev l lo hi) -> covered all t = true.
Proof.
  revert prev lo hi. induction l as [|ts l IH]; intros prev lo hi Hv Hs Hall Hlo Hhi Hc t Ht; cbn [grow fst snd] in Ht; [auto|].
  apply Forall_cons_1 in Hv as [(Hp1 & Hp2 & Hp3) Hv]. pose proof Hv as Hv'. apply Forall_cons_1 in Hv as [(Ht1 & Ht2 & Ht3) Hv].
  apply StronglySorted_inv in Hs as [Hs Hps]. apply Forall_cons_1 in Hps as [Hps _]. unfold starts_first in Hps.
  destruct (negb _ && negb _) eqn:Hgap; cbn [fst snd] in Ht.
  { unfold maxInt64, minInt64 in *. lia. }
  apply andb_false_iff in Hgap. rewrite !negb_false_iff, Z.eqb_eq in Hgap. unfold Overlaps in Hgap. rewrite andb_true_iff, !Z.leb_le in Hgap.
  assert (Min ts <= hi + 1) as Hadj.
  { destruct Hgap as [Hgap|[_ Hgap]]; [|lia]. unfold i64, is_i64 in *. destruct (decide (Min ts = - 2 ^ 63)) as [E|].
    - lia.
    - rewrite Z.mod_small in Hgap by lia. lia. }
  destruct (Z.ltb_spec (Min ts) lo); [lia|]. apply (IH ts lo (if hi <? Max ts then Max ts else hi)); [done|done|set_solver|lia| | |exact Ht].
  - destruct (Z.ltb_spec hi (Max ts)); lia.
  - intros u Hu. destruct (decide (u <= hi)) as [|Hgt]; [apply Hc; lia|].
    apply covered_elem. exists ts. split; [apply Hall; by left|]. destruct (Z.ltb_spec hi (Max ts)); lia.
Qed.

(** ** One key *)

Section key.
Context (d : indirectIndex) (s : section) (minT maxT : Z).
Context (Hs : section_ok s) (Ht : times_ok s) (Hr : valid_range (MkRange minT maxT)).
Context (Htombs : Forall valid_range (TombstoneRange d (s_key s))).

(** Every time of an entry is within the first and the last one of the section. *)
Lemma some_entry_range t : some_entry s t = true -> first_time s <= t <= last_time s /\ is_i64 t.
Proof.
  unfold some_entry. rewrite existsb_exists. intros (e & He & Hc). apply list_elem_of_In in He.
  unfold entry_Contains in Hc. rewrite andb_true_iff, !Z.leb_le in Hc.
  pose proof (section_times s e Hs Ht He) as H. destruct Hs as (_ & _ & _ & _ & _ & Hf & _).
  rewrite Forall_forall in Hf. destruct (Hf e He) as (H1 & H2 & _). unfold is_i64 in *. lia.
Qed.

(** What a round does to a key, in terms of the times that remain. *)
Lemma range_key_ok :
  match range_key d (s_key s) (s_entries s) ∅ minT maxT with
  | None => forall t, some_entry s t = true -> ~ (minT <= t <= maxT)
  | Some (tombs, full) =>
      (full = true -> forall t, some_entry s t = true -> covered (TombstoneRange d (s_key s)) t = true \/ minT <= t <= maxT) /\
      (tombs = ∅ /\ full = true \/
       exists newTs, tombs = {[s_key s := newTs]} /\ newTs ≡ₚ TombstoneRange d (s_key s) ++ [MkRange minT maxT])
  end.
Proof.
  unfold range_key. pose proof Hs as (_ & _ & _ & Hne & _ & He & _). destruct (last_snoc_entries _ Hne) as (l' & e1 & Hl' & Hlast).
  pose proof some_entry_range as Hrange. unfold first_time, last_time in Hrange. rewrite Hlast in Hrange.
  destruct (s_entries s) as [|e0 l0] eqn:Ees; [done|]. rewrite Hlast. set (min := MinTime e0) in *. set (max := MaxTime e1) in *.
  destruct ((max <? minT) || (maxT <? min)) eqn:Hout.
  { rewrite orb_true_iff, !Z.ltb_lt in Hout. intros t Hte Hin. apply Hrange in Hte. lia. }
  destruct ((minT <=? min) && (max <=? maxT)) eqn:Hall.
  { rewrite andb_true_iff, !Z.leb_le in Hall. split; [|by left]. intros _ t Hte. apply Hrange in Hte. right. lia. }
  rewrite lookup_empty. cbn [default id app]. set (newTs := sort_ranges _).
  assert (newTs ≡ₚ TombstoneRange d (s_key s) ++ [MkRange minT maxT]) as Hperm by apply sort_ranges_perm.
  split; [|right; exists newTs; split; [apply insert_empty|done]].
  assert (Forall valid_range newTs) as Hv by (rewrite Hperm; apply Forall_app; by auto using Forall_cons, Forall_nil).
  assert (StronglySorted starts_first newTs) as Hsort by apply sort_ranges_sorted.
  rewrite andb_true_iff, !Z.leb_le. intros [Hf1 Hf2] t Hte. pose proof (Hrange t Hte) as [Htr Hti].
  assert (covered newTs t = true) as Hcov; [|].
  2: { rewrite (covered_perm _ _ t Hperm) in Hcov. apply covered_elem in Hcov as (r & [Hr'|Hr']%elem_of_app & Hrt).
       - left. apply covered_elem. eauto.
       - apply list_elem_of_singleton in Hr' as ->. by right. }
  clearbody newTs. destruct newTs as [|t0 l] eqn:En.
  { exfalso. unfold maxInt64, minInt64, is_i64 in *. cbn [fst snd] in *. lia. }
  apply (grow_covered (t0 :: l) t0 l (Min t0) (Max t0)); try done; try lia; [set_solver|].
  intros u Hu. apply covered_elem. exists t0. split; [by left|done].
Qed.
End key.

(** ** All the keys *)

(** What the loop finds out about a live section. *)
Definition verdict (d : indirectIndex) (keys : list (list Z)) (minT maxT : Z) (s : section)
    : option (gmap (list Z) (list TimeRange) * bool) :=
  if bool_decide (s_key s ∈ keys) then range_key d (s_key s) (s_entries s) ∅ minT maxT else None.

(** The result of the loop from the sections [rest] on. *)
Definition loop_result (d : indirectIndex) (keys : list (list Z)) (minT maxT : Z) (rest : list (Z * section))
    (full full' : list (list Z)) (tombs tombs' : gmap (list Z) (list TimeRange)) : Prop :=
  (forall k, k ∈ full' <-> k ∈ full \/ exists os T, os ∈ rest /\ s_key (snd os) = k /\ verdict d keys minT maxT (snd os) = Some (T, true)) /\
  (forall k, (forall os, os ∈ rest -> s_key (snd os) <> k) -> tombs' !! k = tombs !! k) /\
  (forall os, os ∈ rest -> tombs' !! s_key (snd os) =
     match verdict d keys minT maxT (snd os) with Some (T, _) => T !! s_key (snd os) | None => None end).

Lemma range_key_tombs d k es tombs minT maxT :
  tombs !! k = None ->
  range_key d k es tombs minT maxT =
  match range_key d k es ∅ minT maxT with Some (T, f) => Some (T ∪ tombs, f) | None => None end.
Proof.
  intros Hk. unfold range_key. destruct es as [|e0 l]; [done|]. destruct (last (e0 :: l)) as [e1|]; [|done].
  destruct (_ || _); [done|]. destruct (_ && _); [by rewrite map_empty_union|]. rewrite Hk, lookup_empty. cbn [default id].
  by rewrite <- insert_union_l, map_empty_union.
Qed.

Section loop.
Context (d : indirectIndex) (ss : list section) (live : list (Z * section)) (H : index_inv d ss live).
Context (minT maxT : Z).

Lemma verdict_ext keys keys' (rest : list (Z * section)) :
  (forall os, os ∈ rest -> s_key (snd os) ∈ keys <-> s_key (snd os) ∈ keys') ->
  forall os, os ∈ rest -> verdict d keys minT maxT (snd os) = verdict d keys' minT maxT (snd os).
Proof. intros He os Hos. unfold verdict. by rewrite (bool_decide_ext _ _ (He os Hos)). Qed.

Lemma loop_result_ext keys keys' rest full full' tombs tombs' :
  (forall os, os ∈ rest -> s_key (snd os) ∈ keys <-> s_key (snd os) ∈ keys') ->
  loop_result d keys minT maxT rest full full' tombs tombs' -> loop_result d keys' minT maxT rest full full' tombs tombs'.
Proof.
  intros He (H1 & H2 & H3). pose proof (verdict_ext keys keys' rest He) as Hv. split_and!; [|done|].
  - intros k. rewrite H1. split; (intros [|(os & T & Hos & Hk & Hvd)]; [by left|right; exists os, T; split_and!; [done|done|]]).
    + by rewrite <- Hv. + by rewrite Hv.
  - intros os Hos. by rewrite <- Hv, H3.
Qed.

(** One more section before the rest. *)
Lemma loop_result_cons keys o s rest full full' tombs T f tombs' :
  (forall os, os ∈ rest -> s_key (snd os) <> s_key s) -> tombs !! s_key s = None ->
  verdict d keys minT maxT s = Some (T, f) -> (forall k, k <> s_key s -> T !! k = None) ->
  loop_result d keys minT maxT rest (if f : bool then full ++ [s_key s] else full) full' (T ∪ tombs) tombs' ->
  loop_result d keys minT maxT ((o, s) :: rest) full full' tombs tombs'.
Proof.
  intros Hfresh Hn Hv HT (H1 & H2 & H3). split_and!.
  - intros k. rewrite H1. split.
    + intros [Hk|(os & T' & Hos & Hk & Hvd)]; [|right; exists os, T'; split_and!; [by right|done..]].
      destruct f; [|by left]. apply elem_of_app in Hk as [|Hk]; [by left|]. apply list_elem_of_singleton in Hk as ->.
      right. exists (o, s), T. split_and!; [by left|done|done].
    + intros [Hk|(os & T' & [-> |Hos]%elem_of_cons & Hk & Hvd)].
      * left. destruct f; [|done]. apply elem_of_app. by left.
      * left. cbn [snd] in *. rewrite Hv in Hvd. injection Hvd as <- ->. apply elem_of_app. right. subst. by left.
      * right. by exists os, T'.
  - intros k Hk. rewrite H2 by (intros os Hos; apply Hk; by right).
    rewrite lookup_union, HT; [by rewrite option_union_left_id|]. intros ->. by apply (Hk (o, s)); [left|].
  - intros os [-> |Hos]%elem_of_cons; [|by apply H3]. cbn [snd]. rewrite Hv, H2 by done.
    rewrite lookup_union, Hn. by rewrite option_union_right_id.
Qed.

Lemma loop_result_skip keys o s rest full full' tombs tombs' :
  (forall os, os ∈ rest -> s_key (snd os) <> s_key s) -> tombs !! s_key s = None ->
  verdict d keys minT maxT s = None ->
  loop_result d keys minT maxT rest full full' tombs tombs' ->
  loop_result d keys minT maxT ((o, s) :: rest) full full' tombs tombs'.
Proof.
  intros Hfresh Hn Hv (H1 & H2 & H3). split_and!.
  - intros k. rewrite H1. split; (intros [|(os & T & Hos & Hk & Hvd)]; [by left|right]).
    + exists os, T. split_and!; [by right|done..].
    + apply elem_of_cons in Hos as [-> |Hos]; [cbn [snd] in Hvd; congruence|]. by exists os, T.
  - intros k Hk. apply H2. intros os Hos. apply Hk. by right.
  - intros os [-> |Hos]%elem_of_cons; [|by apply H3]. cbn [snd]. by rewrite Hv, H2.
Qed.

Lemma loop_result_none keys rest full tombs :
  (forall os, os ∈ rest -> s_key (snd os) ∉ keys) -> (forall os, os ∈ rest -> tombs !! s_key (snd os) = None) ->
  loop_result d keys minT maxT rest full full tombs tombs.
Proof.
  intros Hk Ht. assert (forall os, os ∈ rest -> verdict d keys minT maxT (snd os) = None) as Hv.
  { intros os Hos. unfold verdict. by rewrite bool_decide_false by auto. }
  split_and!; [|done|].
  - intros k. split; [by left|]. intros [|(os & T & Hos & _ & Hvd)]; [done|]. by rewrite Hv in Hvd.
  - intros os Hos. rewrite Hv by done. by apply Ht.
Qed.

Lemma range_loop_ok fuel : forall n keys full tombs,
  StronglySorted not_after keys -> (n <= length live)%nat -> (length live - n <= fuel)%nat ->
  (forall os, os ∈ drop n live -> tombs !! s_key (snd os) = None) ->
  (forall os, os ∈ live -> range_key d (s_key (snd os)) (s_entries (snd os)) ∅ minT maxT = None \/
     exists T f, range_key d (s_key (snd os)) (s_entries (snd os)) ∅ minT maxT = Some (T, f) /\
       forall k, k <> s_key (snd os) -> T !! k = None) ->
  exists full' tombs', range_loop fuel d (Z.of_nat n) keys minT maxT full tombs = Ok (full', tombs') /\
    loop_result d keys minT maxT (drop n live) full full' tombs tombs'.
Proof.
  induction fuel as [|fuel IH]; intros n keys full tombs Hs Hn Hf Ht Hkey; cbn [range_loop];
    rewrite (KeyCount_live d ss live (inv_reads _ _ _ H));
    (destruct (decide (keys = [])) as [->|Hne];
      [rewrite (bool_decide_false (@nil (list Z) <> [])) by (intros Hx; by apply Hx); cbn [andb]; exists full, tombs; split; [done|];
       apply loop_result_none; [intros; apply not_elem_of_nil|done]|]);
    rewrite (bool_decide_true (keys <> [])) by done; cbn [andb];
    (destruct (Z.ltb_spec (Z.of_nat n) (Z.of_nat (length live))) as [Hlt|Hge];
      [|exists full, tombs; split; [done|]; rewrite drop_ge by lia; apply loop_result_none; set_solver]).
  { lia. }
  destruct (lookup_lt_is_Some_2 live n) as [[o s] Hos]; [lia|]. pose proof (list_elem_of_lookup_2 _ _ _ Hos) as Hin.
  rewrite (offset_at d ss live (inv_reads _ _ _ H) n o s Hos). cbn [mbind outcome_bind].
  destruct (live_elem d ss live (inv_reads _ _ _ H) o s Hin) as (q & r & Hb & Ho & Hok & _).
  rewrite (readEntriesAt_section d q r s o Ho Hb Hok). cbn [mbind outcome_bind].
  rewrite (drop_S live (o, s) n Hos) in *. set (rest := drop (S n) live) in *.
  assert (forall os, os ∈ rest -> before (s_key s) (s_key (snd os))) as Hafter.
  { intros os (i & Hi)%list_elem_of_lookup. unfold rest in Hi. rewrite lookup_drop in Hi.
    apply (live_before d ss live (inv_reads _ _ _ H) n (S n + i) (o, s) os); [lia|done..]. }
  assert (forall os, os ∈ rest -> s_key (snd os) <> s_key s) as Hfresh.
  { intros os Hx E. apply Hafter in Hx. rewrite E in Hx. by apply before_irrefl in Hx. }
  assert (tombs !! s_key s = None) as Hts by (apply (Ht (o, s)); by left).
  destruct (skip_keys_ok (s_key s) keys Hs) as (Hs' & Hmem & Hge).
  assert (forall x, x ∈ rest -> s_key (snd x) ∈ keys <-> s_key (snd x) ∈ skip_keys (s_key s) keys) as Hrest.
  { intros x Hx. rewrite Hmem; [done|]. intros Hbx. apply (before_irrefl (s_key s)). transitivity (s_key (snd x)); auto. }
  assert (s_key s ∈ keys <-> s_key s ∈ skip_keys (s_key s) keys) as Hself by (rewrite Hmem; [done|apply before_irrefl]).
  (* the rest of the loop, from a set of keys that agrees on the rest *)
  assert (forall keys' full1 tombs1, StronglySorted not_after keys' ->
    (forall x, x ∈ rest -> s_key (snd x) ∈ keys' <-> s_key (snd x) ∈ keys) ->
    (forall os, os ∈ rest -> tombs1 !! s_key (snd os) = None) ->
    exists full' tombs', range_loop fuel d (Z.of_nat n + 1) keys' minT maxT full1 tombs1 = Ok (full', tombs') /\
      loop_result d keys minT maxT rest full1 full' tombs1 tombs') as Hgo.
  { intros keys' full1 tombs1 Hk' He Ht1. destruct (IH (S n) keys' full1 tombs1) as (full' & tombs' & E & Hr); [done|lia|lia|done|done|].
    exists full', tombs'. replace (Z.of_nat n + 1) with (Z.of_nat (S n)) by lia. split; [done|]. by apply (loop_result_ext keys'). }
  destruct (skip_keys (s_key s) keys) as [|k0 keys'] eqn:Esk.
  { exists full, tombs. split; [done|]. apply loop_result_none; [|done]. intros os [-> |Hx]%elem_of_cons; cbn [snd].
    - rewrite Hself. apply not_elem_of_nil.
    - rewrite Hrest by done. apply not_elem_of_nil. }
  pose proof Hs' as Hs2. apply StronglySorted_inv in Hs2 as [Hs2 Hk0]. rewrite Forall_forall in Hk0.
  assert (forall x, x ∈ rest -> s_key (snd x) ∈ k0 :: keys' <-> s_key (snd x) ∈ keys) as Hrest' by (intros; by rewrite Hrest).
  destruct (Z.ltb_spec 0 (Compare k0 (s_key s))) as [Hgt|Hle].
  { assert (verdict d keys minT maxT s = None) as Hv.
    { unfold verdict. rewrite bool_decide_false; [done|]. rewrite Hself.
      assert (before (s_key s) k0) as Hsk by (unfold before; rewrite Compare_swap; lia).
      intros [E|Hx]%elem_of_cons; [rewrite <- E in Hsk; by apply before_irrefl in Hsk|].
      specialize (Hk0 _ Hx). by apply Hk0. }
    destruct (Hgo (k0 :: keys') full tombs) as (full' & tombs' & E & Hr); [done|done|intros; apply Ht; by right|].
    exists full', tombs'. split; [done|]. by apply loop_result_skip. }
  assert (k0 = s_key s) as ->.
  { apply Forall_cons_1 in Hge as [Hge _]. apply Compare_eq. unfold before in Hge. lia. }
  assert (verdict d keys minT maxT s = range_key d (s_key s) (s_entries s) ∅ minT maxT) as Hv.
  { unfold verdict. rewrite bool_decide_true; [done|]. rewrite Hself. by left. }
  rewrite range_key_tombs by done. specialize (Hkey (o, s) Hin). cbn [snd] in Hkey.
  destruct Hkey as [Hnone|(T & f & Hsome & HT)].
  { rewrite Hnone in Hv |- *. destruct (Hgo (s_key s :: keys') full tombs) as (full' & tombs' & E & Hr); [done|done|intros; apply Ht; by right|].
    exists full', tombs'. split; [done|]. by apply loop_result_skip. }
  rewrite Hsome in Hv |- *.
  assert (forall os, os ∈ rest -> (T ∪ tombs) !! s_key (snd os) = None) as Ht1.
  { intros os Hx. rewrite lookup_union, HT, Ht; [done|by right|by apply Hfresh]. }
  destruct f.
  - destruct (Hgo keys' (full ++ [s_key s]) (T ∪ tombs)) as (full' & tombs' & E & Hr); [done| |done|].
    { intros x Hx. rewrite Hrest, elem_of_cons by done. split; [auto|]. intros [E|]; [|done]. by destruct (Hfresh x Hx). }
    exists full', tombs'. split; [done|]. by apply (loop_result_cons keys o s rest full full' tombs T true).
  - destruct (Hgo (s_key s :: keys') full (T ∪ tombs)) as (full' & tombs' & E & Hr); [done|done|done|].
    exists full', tombs'. split; [done|]. by apply (loop_result_cons keys o s rest full full' tombs T false).
Qed.
End loop.

(** ** Queries after a deletion *)

Lemma find_key_filter live (full : list (list Z)) key :
  find_key (filter (fun os => s_key (snd os) ∉ full) live) key =
  if bool_decide (key ∈ full) then None else find_key live key.
Proof.
  unfold find_key. induction live as [|os live IH]; [by case_bool_decide|]. rewrite filter_cons. cbn [List.find].
  destruct (decide (s_key (snd os) ∈ full)) as [Hin|Hout].
  - rewrite (decide_False (P := s_key (snd os) ∉ full)) by (intros Hn; by apply Hn). rewrite IH.
    case_bool_decide as Hk; [done|]. rewrite bool_decide_false; [done|]. intros <-. done.
  - rewrite (decide_True (P := s_key (snd os) ∉ full)) by done. cbn [List.find]. rewrite IH.
    destruct (decide (s_key (snd os) = key)) as [<-|Hne].
    + by rewrite (bool_decide_true (s_key (snd os) = s_key (snd os))), bool_decide_false.
    + by rewrite bool_decide_false.
Qed.

Definition holds (d : indirectIndex) (live : list (Z * section)) (key : list Z) (t : Z) : bool :=
  match find_key live key with Some (_, s) => some_entry s t && negb (covered (TombstoneRange d key) t) | None => false end.

Lemma ContainsValue_live d ss live key t : reads d ss live -> ContainsValue d key t = Ok (holds d live key t).
Proof.
  intros H. unfold ContainsValue, Entry, Entries, holds. rewrite (ReadEntries_live d ss live H). cbn [mbind outcome_bind].
  destruct (find_key live key) as [[o s]|]; [|done]. cbn [fmap option_fmap option_map default id compose snd].
  destruct (List.find _ (s_entries s)) as [e|] eqn:E.
  - apply find_some in E as [Hin Hc]. assert (some_entry s t = true) as -> by (apply existsb_exists; eauto). done.
  - assert (some_entry s t = false) as ->; [|done]. apply not_true_iff_false. intros (e & Hin & Hc)%existsb_exists.
    by rewrite (find_none _ _ E e Hin) in Hc.
Qed.

Lemma not_in_inv d ss live full d' :
  index_inv d ss live -> reads d' ss (not_in live full) -> minTime d' = minTime d -> maxTime d' = maxTime d ->
  (forall k l, tombstones d' !! k = Some l -> Forall valid_range l) -> index_inv d' ss (not_in live full).
Proof.
  intros H Hr Hmin Hmax Ht. split; [done|apply (inv_times _ _ _ H)| |done]. rewrite Hmin, Hmax. apply (inv_bounds _ _ _ H).
Qed.

Lemma TombstoneRange_valid d ss live key : index_inv d ss live -> Forall valid_range (TombstoneRange d key).
Proof.
  intros H. unfold TombstoneRange. destruct (tombstones d !! key) eqn:E; [|constructor]. by apply (inv_tombs _ _ _ H key).
Qed.

Section range.
Context (d : indirectIndex) (ss : list section) (live : list (Z * section)) (H : index_inv d ss live).
Context (keys : list (list Z)) (minT maxT : Z) (Hr : valid_range (MkRange minT maxT)).

Lemma live_section k os : live !! k = Some os -> section_ok (snd os) /\ times_ok (snd os) /\ snd os ∈ ss.
Proof.
  destruct os as [o s]. intros Hk%list_elem_of_lookup_2.
  destruct (live_elem d ss live (inv_reads _ _ _ H) o s Hk) as (_ & _ & _ & _ & Hs & Hin).
  pose proof (inv_times _ _ _ H) as Ht. rewrite Forall_forall in Ht. auto.
Qed.

(** What remains of the points of the index. *)
Definition left (key : list Z) (t : Z) : bool :=
  holds d live key t && negb (bool_decide (key ∈ keys) && ((minT <=? t) && (t <=? maxT))).

Lemma loop_keys : forall os, os ∈ live ->
  range_key d (s_key (snd os)) (s_entries (snd os)) ∅ minT maxT = None \/
  exists T f, range_key d (s_key (snd os)) (s_entries (snd os)) ∅ minT maxT = Some (T, f) /\
    forall k, k <> s_key (snd os) -> T !! k = None.
Proof.
  intros os (k & Hk)%list_elem_of_lookup. destruct (live_section k os Hk) as (Hs & Ht & _).
  pose proof (range_key_ok d (snd os) minT maxT Hs Ht Hr (TombstoneRange_valid d ss live _ H)) as Hok.
  destruct (range_key d _ _ ∅ minT maxT) as [[T f]|]; [right|by left]. exists T, f. split; [done|].
  destruct Hok as [_ [[-> _]|(newTs & -> & _)]]; intros k' Hne; [apply lookup_empty|by apply lookup_singleton_ne].
Qed.

Lemma range_left full' tombs' d' :
  loop_result d keys minT maxT live [] full' ∅ tombs' -> tombstones d' = tombs' ∪ tombstones d ->
  (forall key t, holds d' (not_in live full') key t = left key t) /\
  (forall k l, tombstones d' !! k = Some l -> Forall valid_range l).
Proof.
  intros (H1 & H2 & H3) Htd. split.
  - intros key t. unfold holds, left, holds. unfold not_in. rewrite find_key_filter.
    destruct (find_key live key) as [[o s]|] eqn:Ef; [|by case_bool_decide].
    apply find_key_Some in Ef as (k & Hk & <-). cbn [snd]. destruct (live_section k (o, s) Hk) as (Hs & Ht & Hin). cbn [snd] in *.
    pose proof (range_key_ok d s minT maxT Hs Ht Hr (TombstoneRange_valid d ss live _ H)) as Hok.
    pose proof (H3 (o, s) (list_elem_of_lookup_2 _ _ _ Hk)) as Htk. cbn [snd] in Htk.
    assert (s_key s ∈ full' <-> exists T, verdict d keys minT maxT s = Some (T, true)) as Hfull.
    { rewrite H1. split.
      - intros [Hx|(os & T & Hos & E & Hv)]; [by apply not_elem_of_nil in Hx|]. apply list_elem_of_lookup in Hos as (k' & Hk').
        assert (k' = k) as -> by (by eapply (live_inj d ss live (inv_reads _ _ _ H)); [done|done|]). rewrite Hk in Hk'. injection Hk' as <-. eauto.
      - intros [T Hv]. right. exists (o, s), T. split_and!; [by eapply list_elem_of_lookup_2|done|done]. }
    unfold TombstoneRange at 1. rewrite Htd, lookup_union, Htk. unfold verdict in *.
    destruct (decide (s_key s ∈ keys)) as [Hkeys|Hkeys].
    + rewrite (bool_decide_true (s_key s ∈ keys)) in * by done. cbn [andb].
      destruct (range_key d (s_key s) (s_entries s) ∅ minT maxT) as [[T f]|].
      * destruct Hok as [Hcov HT]. destruct f.
        -- rewrite bool_decide_true by (rewrite Hfull; eauto). destruct (some_entry s t) eqn:He; [|done].
           destruct (Hcov eq_refl t He) as [-> |Hin']; [by rewrite andb_false_r|].
           rewrite (proj2 (Z.leb_le _ _)), (proj2 (Z.leb_le t _)) by lia. by rewrite andb_false_r.
        -- rewrite bool_decide_false by (rewrite Hfull; intros [T' E]; discriminate).
           destruct HT as [[_ ?]|(newTs & -> & Hp)]; [done|]. rewrite lookup_singleton_eq, union_Some_l. cbn [default id].
           rewrite (covered_perm _ _ t Hp). unfold covered. rewrite existsb_app. cbn [existsb Min Max]. rewrite orb_false_r, negb_orb.
           by rewrite andb_assoc.
      * rewrite bool_decide_false by (rewrite Hfull; intros [T' E]; discriminate). rewrite option_union_left_id.
        fold (TombstoneRange d (s_key s)). destruct (some_entry s t) eqn:He; [|done]. specialize (Hok t He). cbn [andb].
        assert ((minT <=? t) && (t <=? maxT) = false) as ->; [|by rewrite andb_true_r].
        apply not_true_iff_false. rewrite andb_true_iff, !Z.leb_le. done.
    + rewrite (bool_decide_false (s_key s ∈ keys)) in * by done. cbn [andb negb]. rewrite andb_true_r.
      rewrite bool_decide_false by (rewrite Hfull; intros [T' E]; discriminate). by rewrite option_union_left_id.
  - intros k l. rewrite Htd, lookup_union_Some_raw. intros [Hl|[_ Hl]]; [|by apply (inv_tombs _ _ _ H k)].
    destruct (decide (Exists (fun os => s_key (snd os) = k) live)) as [Hex|Hnex].
    + apply Exists_exists in Hex as (os & Hos & <-). rewrite H3 in Hl by done. apply list_elem_of_lookup in Hos as (k' & Hk').
      destruct (live_section k' os Hk') as (Hs & Ht & _). unfold verdict in Hl. case_bool_decide; [|done].
      pose proof (range_key_ok d (snd os) minT maxT Hs Ht Hr (TombstoneRange_valid d ss live _ H)) as Hok.
      destruct (range_key d _ _ ∅ minT maxT) as [[T f]|]; [|done]. destruct Hok as [_ [[-> _]|(newTs & -> & Hp)]]; [by rewrite lookup_empty in Hl|].
      rewrite lookup_singleton_eq in Hl. injection Hl as <-. rewrite Hp. apply Forall_app. split; [by eapply TombstoneRange_valid|by auto using Forall_cons, Forall_nil].
    + rewrite H2, lookup_empty in Hl; [done|]. intros os Hos E. apply Hnex, Exists_exists. eauto.
Qed.
End range.

Lemma DeleteRange_live d ss live keys minT maxT :
  index_inv d ss live -> valid_range (MkRange minT maxT) ->
  exists d' live', DeleteRange d keys minT maxT = Ok d' /\ index_inv d' ss live' /\ live' `sublist_of` live /\
    forall key t, holds d' live' key t = left d live keys minT maxT key t.
Proof.
  intros H Hr. pose proof (inv_reads _ _ _ H) as Hd. destruct (sorted_copy_ok keys) as [Hs Hmem]. unfold DeleteRange.
  (* deleting nothing, or nothing of what the index holds *)
  assert ((forall key t, holds d live key t = true -> key ∈ keys -> ~ (minT <= t <= maxT)) ->
    exists d' live', Ok d = Ok d' /\ index_inv d' ss live' /\ live' `sublist_of` live /\
      forall key t, holds d' live' key t = left d live keys minT maxT key t) as Hsame.
  { intros Hno. exists d, live. split_and!; [done..|]. intros key t. unfold left.
    destruct (holds d live key t) eqn:E; [|done]. case_bool_decide as Hk; [|done]. specialize (Hno key t E Hk). cbn [andb].
    assert ((minT <=? t) && (t <=? maxT) = false) as ->; [|done]. apply not_true_iff_false. rewrite andb_true_iff, !Z.leb_le. done. }
  assert (forall key t, holds d live key t = true -> exists o s, find_key live key = Some (o, s) /\ s ∈ ss /\
    first_time s <= t <= last_time s /\ is_i64 t) as Hholds.
  { intros key t. unfold holds. destruct (find_key live key) as [[o s]|] eqn:E; [|done]. rewrite andb_true_iff. intros [He _].
    exists o, s. split; [done|]. apply find_key_Some in E as (k & Hk & _). destruct (live_section d ss live H k _ Hk) as (Hok & Ht & Hin).
    split; [done|]. by apply some_entry_range. }
  assert (forall k, k ∈ keys <-> k ∈ sorted_copy keys) as Hmem' by (intros; by rewrite Hmem).
  destruct (sorted_copy keys) as [|k0 ks] eqn:Esc; [apply Hsame; intros key t _ Hk%Hmem'; by apply not_elem_of_nil in Hk|].
  rewrite <- Esc in *. clear Esc.
  destruct ((minT =? minInt64) && (maxT =? maxInt64)) eqn:Hall.
  { rewrite andb_true_iff, !Z.eqb_eq in Hall. destruct Hall as [-> ->].
    destruct (Delete_live d ss live Hd (sorted_copy keys)) as (d' & -> & Hr' & Ht & Hmin & Hmax). exists d', (not_in live (sorted_copy keys)).
    split_and!; [done| |apply sublist_filter|].
    - apply (not_in_inv d); try done. rewrite Ht. apply (inv_tombs _ _ _ H).
    - intros key t. unfold left. destruct (holds d live key t) eqn:E.
      + pose proof E as (o & s & _ & _ & _ & Hi)%Hholds. unfold holds, not_in in *. rewrite find_key_filter, (bool_decide_ext _ _ (Hmem key)).
        unfold TombstoneRange in *. rewrite Ht. case_bool_decide; [|by rewrite E]. cbn [andb]. unfold is_i64, minInt64, maxInt64 in *.
        by rewrite (proj2 (Z.leb_le _ _)), (proj2 (Z.leb_le t _)) by lia.
      + unfold holds, not_in in *. rewrite find_key_filter. unfold TombstoneRange in *. rewrite Ht. case_bool_decide; [done|]. by rewrite E. }
  cbn [TimeRange_]. destruct ((maxTime d <? minT) || (maxT <? minTime d)) eqn:Hout.
  { rewrite orb_true_iff, !Z.ltb_lt in Hout. apply Hsame. intros key t (o & s & _ & Hin & Ht & _)%Hholds _.
    destruct (inv_bounds _ _ _ H s Hin). lia. }
  destruct (range_loop_ok d ss live H minT maxT (length (offsets d)) 0 (sorted_copy keys) [] ∅ Hs) as (full' & tombs' & E & Hres);
    [lia|rewrite (reads_offsets _ _ _ Hd), length_offset_bytes; lia|intros; apply lookup_empty|by apply (loop_keys d ss live H)|].
  change (Z.of_nat 0) with 0 in E. rewrite E. cbn [mbind outcome_bind]. rewrite drop_0 in Hres.
  apply (loop_result_ext d minT maxT _ keys) in Hres; [|intros; by rewrite Hmem].
  assert (exists d1, (match full' with [] => Ok d | _ => Delete d full' end) = Ok d1 /\ reads d1 ss (not_in live full') /\
    tombstones d1 = tombstones d /\ minTime d1 = minTime d /\ maxTime d1 = maxTime d) as (d1 & -> & Hr1 & Ht1 & Hmin & Hmax).
  { destruct full' as [|k full2] eqn:Ef; [|by apply Delete_live]. exists d. split_and!; try done.
    unfold not_in. by rewrite filter_all by (apply Forall_true; intros os; apply not_elem_of_nil). }
  cbn [mbind outcome_bind]. eexists _, (not_in live full'). split; [done|].
  destruct (range_left d ss live H keys minT maxT Hr full' tombs'
    (MkIndirect (b d1) (offsets d1) (minKey d1) (maxKey d1) (minTime d1) (maxTime d1) (tombs' ∪ tombstones d1)) Hres) as [Hleft Hval].
  { cbn [tombstones]. by rewrite Ht1. }
  split_and!; [|apply sublist_filter|exact Hleft].
  apply (not_in_inv d); [done| |done|done|done]. destruct Hr1 as [R1 R2 R3 R4 R5 R6 R7]. by split.
Qed.

(** * Properties *)

(** C17: deleting keys from an index.  [Delete] takes exactly the keys it is given out of
    the index, sorted or not, there or not: afterwards [ReadEntries] knows nothing of
    them and everything else as before, the tombstones are the same, and the
    index keeps its invariant. *)
Theorem index_Delete d ss live keys :
  index_inv d ss live ->
  exists d', Delete d keys = Ok d' /\ index_inv d' ss (not_in live keys) /\ tombstones d' = tombstones d /\
    forall key, ReadEntries d' key = if bool_decide (key ∈ keys) then Ok None else ReadEntries d key.
Proof.
  intros H. destruct (Delete_live d ss live (inv_reads _ _ _ H) keys) as (d' & E & Hr & Ht & Hmin & Hmax). exists d'.
  split_and!; [done| |done|].
  - apply (not_in_inv d); try done. rewrite Ht. apply (inv_tombs _ _ _ H).
  - intros key. rewrite (ReadEntries_live d' ss _ Hr), (ReadEntries_live d ss live (inv_reads _ _ _ H)).
    unfold not_in. rewrite find_key_filter. by case_bool_decide.
Qed.

Lemma sample_inv : index_inv sample sample_sections [(34, MkSection [99] 4 [MkIndexEntry (-30) (-5) 25 7])].
Proof.
  split; [apply sample_reads| | |intros k l Hl; assert (tombstones sample = ∅) as E by (vm_compute; reflexivity); rewrite E, lookup_empty in Hl; discriminate Hl].
  - repeat constructor; cbn; unfold in_time; cbn; lia.
  - apply Forall_forall. assert (minTime sample = -30 /\ maxTime sample = 0) as [-> ->] by (vm_compute; done).
    repeat constructor; unfold first_time, last_time; cbn [s_entries last MinTime MaxTime]; lia.
Qed.

Lemma index_Delete_witness :
  exists d', Delete sample [[100]; [99]] = Ok d' /\ KeyCount d' = 0 /\ ReadEntries d' [99] = Ok None.
Proof.
  destruct (index_Delete sample sample_sections _ [[100]; [99]] sample_inv) as (d' & E & Hinv & _ & Hr). exists d'.
  split_and!; [exact E| |].
  - rewrite (KeyCount_live d' _ _ (inv_reads _ _ _ Hinv)). vm_compute. reflexivity.
  - rewrite Hr. vm_compute. reflexivity.
Defined.

(** C14: deleting a range of times.  After [DeleteRange] the index may contain a point
    ([ContainsValue]) exactly when it could before and the point is not of one of the
    keys within the range: whether a key disappears altogether, even because several
    tombstones together cover it, or is kept with a tombstone, no point outside the
    range is lost and none inside survives.  The index keeps its invariant, so that
    this holds of any sequence of deletions. *)
Theorem index_DeleteRange d ss live keys minT maxT :
  index_inv d ss live -> is_i64 minT -> is_i64 maxT -> minT <= maxT ->
  exists d' live', DeleteRange d keys minT maxT = Ok d' /\ index_inv d' ss live' /\ live' `sublist_of` live /\
    forall key t, exists c, ContainsValue d key t = Ok c /\
      ContainsValue d' key t = Ok (c && negb (bool_decide (key ∈ keys) && ((minT <=? t) && (t <=? maxT)))).
Proof.
  intros H H1 H2 H3. destruct (DeleteRange_live d ss live keys minT maxT H) as (d' & live' & E & Hinv & Hsub & Hh); [done|].
  exists d', live'. split_and!; [done..|]. intros key t. exists (holds d live key t).
  rewrite (ContainsValue_live d ss live key t (inv_reads _ _ _ H)), (ContainsValue_live d' ss live' key t (inv_reads _ _ _ Hinv)).
  by rewrite Hh.
Qed.

(** Two ranges that meet take the key out. *)
Lemma index_DeleteRange_witness :
  exists d1 d2, DeleteRange sample [[99]] (-30) (-20) = Ok d1 /\ ContainsValue d1 [99] (-25) = Ok false /\
    ContainsValue d1 [99] (-10) = Ok true /\
    DeleteRange d1 [[99]] (-19) 5 = Ok d2 /\ ContainsValue d2 [99] (-10) = Ok false /\ KeyCount d2 = 0.
Proof.
  destruct (index_DeleteRange sample sample_sections _ [[99]] (-30) (-20) sample_inv) as (d1 & live1 & E1 & Hinv1 & _ & H1);
    [unfold is_i64; lia..|].
  destruct (index_DeleteRange d1 sample_sections _ [[99]] (-19) 5 Hinv1) as (d2 & live2 & E2 & Hinv2 & _ & H2);
    [unfold is_i64; lia..|].
  assert (ContainsValue sample [99] (-25) = Ok true /\ ContainsValue sample [99] (-10) = Ok true) as [C1 C2] by (split; vm_compute; reflexivity).
  exists d1, d2. split_and!; [exact E1| | |exact E2| |].
  - destruct (H1 [99] (-25)) as (c & Hc & ->). rewrite C1 in Hc. injection Hc as <-. reflexivity.
  - destruct (H1 [99] (-10)) as (c & Hc & ->). rewrite C2 in Hc. injection Hc as <-. reflexivity.
  - destruct (H2 [99] (-10)) as (c & Hc & ->). destruct (H1 [99] (-10)) as (c' & Hc' & Hx). rewrite C2 in Hc'. injection Hc' as <-.
    rewrite Hx in Hc. injection Hc as <-. reflexivity.
  - assert (KeyCount <$> (DeleteRange sample [[99]] (-30) (-20) ≫= fun d => DeleteRange d [[99]] (-19) 5) = Ok 0) as Ek
      by (vm_compute; reflexivity).
    rewrite E1 in Ek. cbn [mbind outcome_bind] in Ek. rewrite E2 in Ek. by injection Ek.
Defined.

End IndexDelete.
