(* ===== verification/Tombstone.v ===== *)
(** Tombstones: src/storage/store/tombstone.go.  The deletions of a data file are kept
    in a file of their own beside it. *)
From stdpp Require Import sets.
From S2P Require Import Prelude Binary Bytes Util SSTIndex.

Module Tombstone.

(** Package compress/gzip of the Go library: a stream and its compressed form. *)
Record gzip := Gzip { compress : list Z -> list Z; decompress : list Z -> outcome (list Z) }.
Definition gzip_laws (gz : gzip) : Prop := forall l, decompress gz (compress gz l) = Ok l.

Definition identity_gzip : gzip := Gzip (fun l => l) Ok.
Lemma identity_gzip_laws : gzip_laws identity_gzip.
Proof. done. Qed.

Definition headerSize : nat := 4.
Definition tombHeader : Z := 0x1503.
Definition minInt64 : Z := - 2 ^ 63.
Definition maxInt64 : Z := 2 ^ 63 - 1.

Record Tombstone := MkTombstone { Key : list Z; TMin : Z; TMax : Z }.

#[global] Instance Tombstone_eq_dec : EqDecision Tombstone.
Proof. solve_decision. Defined.

(** [file] is the tombstone file on disk, [pendingFile] the temporary file of a write
    that has not been committed; a Tombstoner without a path writes nothing. *)
Record Tombstoner := MkTombstoner {
  has_path : bool; FilterFn : option (list Z -> bool); tombstones : list Tombstone;
  statsLoaded : bool; TombstoneExists : bool; lastAppliedOffset : Z;
  pendingFile : option (list Z); file : option (list Z) }.

(** The tombstones of the file at a path. *)
Definition NewTombstoner (has_path : bool) (filterFn : option (list Z -> bool)) (on_disk : option (list Z)) : Tombstoner :=
  MkTombstoner has_path filterFn [] false false 0 None on_disk.

(** How the file system behaves during a call. *)
Inductive io := Works | NoTemp | NoCommit.

Definition no_temp : string := "create temporary file".
Definition no_commit : string := "commit".

Definition passes (t : Tombstoner) (k : list Z) : bool := match FilterFn t with Some f => f k | None => true end.

(** [doWriteTombstone]. *)
Definition doWriteTombstone (ts : Tombstone) : list Z :=
  be_encode 4 (Z.of_nat (length (Key ts))) ++ Key ts ++ be_encode 8 (u64 (TMin ts)) ++ be_encode 8 (u64 (TMax ts)).

Definition with_pending (t : Tombstoner) (p : option (list Z)) : Tombstoner :=
  MkTombstoner (has_path t) (FilterFn t) (tombstones t) (statsLoaded t) (TombstoneExists t) (lastAppliedOffset t) p (file t).

(** A failure leaves the temporary file pending. *)
Definition commit (fs : io) (t : Tombstoner) : Tombstoner * option string :=
  match pendingFile t with
  | None => (t, None)
  | Some c =>
      match fs with
      | NoCommit => (t, Some no_commit)
      | _ => (MkTombstoner (has_path t) (FilterFn t) (tombstones t) (statsLoaded t) (TombstoneExists t)
                (lastAppliedOffset t) None (Some c), None)
      end
  end.

Definition rollback (t : Tombstoner) : Tombstoner := with_pending t None.

Definition writeTombstone (gz : gzip) (fs : io) (t : Tombstoner) (ts : list Tombstone) : Tombstoner * option string :=
  match fs with
  | NoTemp => (t, Some no_temp)
  | _ =>
      let content := be_encode 4 tombHeader ++ compress gz (concat (doWriteTombstone <$> ts)) in
      commit fs (MkTombstoner (has_path t) (FilterFn t) [] (statsLoaded t) (TombstoneExists t) (lastAppliedOffset t)
        (Some content) (file t))
  end.

(** [for t.FilterFn != nil && len(keys) > 0 && !t.FilterFn(keys[0])]. *)
Fixpoint skip_filtered (t : Tombstoner) (keys : list (list Z)) : list (list Z) :=
  match keys with
  | k :: keys' => if passes t k then keys else skip_filtered t keys'
  | [] => []
  end.

Definition AddRange (gz : gzip) (fs : io) (t : Tombstoner) (keys : list (list Z)) (min max : Z) : Tombstoner * option string :=
  match skip_filtered t keys with
  | [] => (t, None)
  | keys =>
      if negb (has_path t) then (t, None) else
      let ts := tombstones t ++ ((fun k => MkTombstone k min max) <$> filter (fun k => passes t k = true) keys) in
      let t := MkTombstoner (has_path t) (FilterFn t) ts false (TombstoneExists t) (lastAppliedOffset t)
        (pendingFile t) (file t) in
      writeTombstone gz fs t ts
  end.

Definition Add (gz : gzip) (fs : io) (t : Tombstoner) (keys : list (list Z)) : Tombstoner * option string :=
  AddRange gz fs t keys minInt64 maxInt64.

Definition Flush (fs : io) (t : Tombstoner) : Tombstoner * option string :=
  match commit fs t with
  | (t, Some e) => (rollback t, Some e)
  | r => r
  end.

Definition Rollback (t : Tombstoner) : Tombstoner := rollback t.

(** [Delete]: the file is removed. *)
Definition Delete (t : Tombstoner) : Tombstoner :=
  MkTombstoner (has_path t) (FilterFn t) (tombstones t) false (TombstoneExists t) 0 (pendingFile t) None.

Definition HasTombstones (t : Tombstoner) : bool := bool_decide (0 < length (tombstones t))%nat.

(** [io.ReadFull]. *)
Definition ReadFull (n : nat) (b : list Z) : outcome (list Z * list Z) :=
  if bool_decide (length b < n)%nat then Err "unexpected EOF" else Ok (take n b, drop n b).

(** A round reads at least twenty bytes; fewer than four end the stream. *)
Fixpoint read_loop {A} (fuel : nat) (fn : A -> Tombstone -> outcome A) (st : A) (b : list Z) : outcome A :=
  if bool_decide (length b < 4)%nat then Ok st else
  match fuel with
  | O => Panic
  | S fuel =>
      keyLen ← Uint32 b;
      '(key, b) ← ReadFull (Z.to_nat keyLen) (drop 4 b);
      '(w, b) ← ReadFull 8 b;
      min ← Uint64 w;
      '(w, b) ← ReadFull 8 b;
      max ← Uint64 w;
      st ← fn st (MkTombstone key (i64 min) (i64 max));
      read_loop fuel fn st b
  end.

(** The tombstones a round has read before the stream ends or cannot be read further. *)
Fixpoint read_visited (fuel : nat) (b : list Z) : list Tombstone :=
  match fuel with
  | O => []
  | S fuel =>
      match
        keyLen ← Uint32 b;
        '(key, b) ← ReadFull (Z.to_nat keyLen) (drop 4 b);
        '(w, b) ← ReadFull 8 b;
        min ← Uint64 w;
        '(w, b) ← ReadFull 8 b;
        max ← Uint64 w;
        Ok (MkTombstone key (i64 min) (i64 max), b)
      with
      | Ok (t, b) => t :: read_visited fuel b
      | _ => []
      end
  end.

(** The tombstones not yet written come after those of the file. *)
Fixpoint fold_tombstones {A} (fn : A -> Tombstone -> outcome A) (st : A) (l : list Tombstone) : outcome A :=
  match l with
  | [] => Ok st
  | t :: l => st ← fn st t; fold_tombstones fn st l
  end.

Definition readTombstone {A} (gz : gzip) (t : Tombstoner) (content : list Z) (fn : A -> Tombstone -> outcome A) (st : A) : outcome A :=
  s ← decompress gz (drop headerSize content);
  st ← read_loop (length s) fn st s;
  fold_tombstones fn st (tombstones t).

Definition Walk {A} (gz : gzip) (t : Tombstoner) (fn : A -> Tombstone -> outcome A) (st : A) : outcome A :=
  match file t with
  | None => Ok st
  | Some content => readTombstone gz t content fn st
  end.

(** The tombstones of the file that [Walk] visits before an error; of a stream that
    cannot be decompressed, none. *)
Definition visited (gz : gzip) (t : Tombstoner) : list Tombstone :=
  match file t with
  | None => []
  | Some content => match decompress gz (drop headerSize content) with Ok s => read_visited (length s) s | _ => [] end
  end.

(** [TombstoneStats], the part that does not come from the file system. *)
Definition TombstoneStats (t : Tombstoner) : Tombstoner * bool :=
  if statsLoaded t then (t, TombstoneExists t) else
  let e := match file t with Some _ => true | None => false end in
  (MkTombstoner (has_path t) (FilterFn t) (tombstones t) true e (lastAppliedOffset t) (pendingFile t) (file t), e).

(** ** Specification *)

Definition tombstone_ok (ts : Tombstone) : Prop :=
  Z.of_nat (length (Key ts)) < 2 ^ 32 /\ is_i64 (TMin ts) /\ is_i64 (TMax ts).

(** What a tombstone file says. *)
Definition stream (ts : list Tombstone) : list Z := concat (doWriteTombstone <$> ts).
Definition content (gz : gzip) (ts : list Tombstone) : list Z := be_encode 4 tombHeader ++ compress gz (stream ts).
Definition collect (l : list Tombstone) (ts : Tombstone) : outcome (list Tombstone) := Ok (l ++ [ts]).
Definition of_keys (t : Tombstoner) (keys : list (list Z)) (min max : Z) : list Tombstone :=
  (fun k => MkTombstone k min max) <$> filter (fun k => passes t k = true) keys.

(** * Lemmas *)

Lemma length_doWrite ts : length (doWriteTombstone ts) = (20 + length (Key ts))%nat.
Proof. unfold doWriteTombstone. len. Qed.

Lemma ReadFull_exact l r : ReadFull (length l) (l ++ r) = Ok (l, r).
Proof. unfold ReadFull. rewrite bool_decide_false by len. by rewrite take_app_length, drop_app_length. Qed.

Lemma ReadFull_be8 v r : ReadFull 8 (be_encode 8 v ++ r) = Ok (be_encode 8 v, r).
Proof. rewrite <- (length_be_encode 8 v) at 1. apply ReadFull_exact. Qed.

Lemma read_loop_ok {A} (fn : A -> Tombstone -> outcome A) ts : forall fuel st,
  Forall tombstone_ok ts -> (length (stream ts) <= fuel)%nat ->
  read_loop fuel fn st (stream ts) = fold_tombstones fn st ts.
Proof.
  induction ts as [|t ts IH]; intros fuel st Hok Hf.
  { destruct fuel; done. }
  apply Forall_cons_1 in Hok as [(Hk & Hmin & Hmax) Hok]. unfold stream in *. rewrite fmap_cons in *. cbn [concat] in *.
  rewrite length_app, length_doWrite in Hf. destruct fuel as [|fuel]; [lia|]. cbn [read_loop fold_tombstones].
  rewrite bool_decide_false by (rewrite length_app, length_doWrite; lia). set (rest := concat (doWriteTombstone <$> ts)) in *.
  unfold doWriteTombstone. rewrite <- !app_assoc.
  rewrite be_uint_encode by (change (256 ^ Z.of_nat 4) with (2 ^ 32); lia). cbn [mbind outcome_bind].
  rewrite drop_be_eq, Nat2Z.id, ReadFull_exact by done. cbn [mbind outcome_bind].
  rewrite ReadFull_be8. cbn [mbind outcome_bind]. rewrite Uint64_encode_nil by apply u64_range. cbn [mbind outcome_bind].
  rewrite ReadFull_be8. cbn [mbind outcome_bind]. rewrite Uint64_encode_nil by apply u64_range. cbn [mbind outcome_bind].
  rewrite !i64_u64, !i64_small by done. destruct t as [k mn mx]. cbn [Key TMin TMax].
  destruct (fn st (MkTombstone k mn mx)) as [st'| |]; [|done..]. cbn [mbind outcome_bind]. apply IH; [done|lia].
Qed.

Lemma fold_collect ts l : fold_tombstones collect l ts = Ok (l ++ ts).
Proof.
  revert l. induction ts as [|t ts IH]; intros l; cbn [fold_tombstones]; [by rewrite app_nil_r|].
  cbn [collect mbind outcome_bind]. by rewrite IH, <- app_assoc.
Qed.

Lemma skip_filtered_filter t keys :
  filter (fun k => passes t k = true) (skip_filtered t keys) = filter (fun k => passes t k = true) keys /\
  (skip_filtered t keys = [] <-> filter (fun k => passes t k = true) keys = []).
Proof.
  induction keys as [|k keys IH]; [done|]. cbn [skip_filtered]. rewrite filter_cons.
  destruct (decide (passes t k = true)) as [E|E]; [rewrite E, filter_cons_True by done; done|].
  apply not_true_is_false in E. by rewrite E.
Qed.

Section walk.
Context (gz : gzip) (Hgz : gzip_laws gz).

Lemma Walk_content {A} t (fn : A -> Tombstone -> outcome A) st ts :
  Forall tombstone_ok ts -> file t = Some (content gz ts) ->
  Walk gz t fn st = fold_tombstones fn st (ts ++ tombstones t).
Proof.
  intros Hok Hf. unfold Walk. rewrite Hf. unfold readTombstone, content, headerSize. rewrite drop_be_eq by done.
  rewrite Hgz. cbn [mbind outcome_bind]. rewrite read_loop_ok by done. clear Hok Hf. revert st.
  induction ts as [|x ts IH]; intros st; [done|]. cbn [fold_tombstones app]. destruct (fn st x); [|done..].
  cbn [mbind outcome_bind]. apply IH.
Qed.

(** What [AddRange] does to the file. *)
Lemma AddRange_works t keys min max :
  has_path t = true ->
  exists t', AddRange gz Works t keys min max = (t', None) /\ FilterFn t' = FilterFn t /\ has_path t' = true /\
    (of_keys t keys min max = [] /\ t' = t \/
     of_keys t keys min max <> [] /\ tombstones t' = [] /\ pendingFile t' = None /\
     file t' = Some (content gz (tombstones t ++ of_keys t keys min max))).
Proof.
  intros Hp. unfold AddRange. destruct (skip_filtered_filter t keys) as [Hs Hnil].
  destruct (skip_filtered t keys) as [|k ks] eqn:Esk.
  { exists t. split_and!; try done. left. split; [|done]. unfold of_keys. by rewrite (proj1 Hnil). }
  rewrite Hp. cbn [negb]. eexists. split; [done|]. split_and!; try done. right. rewrite Hs. split_and!; try done.
  intros E%fmap_nil_inv. apply Hnil in E. done.
Qed.
End walk.

(** * Properties *)

(** C21: tombstones on disk.  When the file system works, [AddRange] leaves a file that
    [Walk] reads back as exactly the tombstones of this call: one for every key
    that passes the filter, in order, with the range.  Whatever the file held before
    is gone, and [HasTombstones] says there are none; a call of which no key passes
    changes nothing. *)
Theorem tombstone_file gz t keys min max :
  gzip_laws gz -> has_path t = true -> tombstones t = [] -> is_i64 min -> is_i64 max ->
  Forall (fun k => Z.of_nat (length k) < 2 ^ 32) keys ->
  exists t', AddRange gz Works t keys min max = (t', None) /\ HasTombstones t' = false /\
    (of_keys t keys min max = [] -> t' = t) /\
    (of_keys t keys min max <> [] -> Walk gz t' collect [] = Ok (of_keys t keys min max)).
Proof.
  intros Hgz Hp Ht Hmin Hmax Hk. destruct (AddRange_works gz t keys min max Hp) as (t' & E & _ & _ & [[Hnil ->]|(Hne & Ht' & _ & Hf)]).
  - exists t. split_and!; [done| |done|done]. unfold HasTombstones. by rewrite Ht.
  - exists t'. split_and!; [done| |done|]; [unfold HasTombstones; by rewrite Ht'|]. intros _. rewrite Ht in Hf.
    rewrite (Walk_content gz Hgz t' collect [] (of_keys t keys min max)); [by rewrite Ht', app_nil_r, fold_collect| |done].
    unfold of_keys. apply Forall_fmap, Forall_forall. intros k [_ Hkl]%list_elem_of_filter. rewrite Forall_forall in Hk.
    split_and!; [by apply Hk|done..].
Qed.

Lemma tombstone_file_witness :
  let t := NewTombstoner true (Some (fun k => bool_decide (k <> [99]))) (Some (content identity_gzip [MkTombstone [97] 1 2])) in
  exists t', AddRange identity_gzip Works t [[98]; [99]] 5 9 = (t', None) /\ HasTombstones t' = false /\
    Walk identity_gzip t' collect [] = Ok [MkTombstone [98] 5 9].
Proof.
  intros t. destruct (tombstone_file identity_gzip t [[98]; [99]] 5 9 identity_gzip_laws) as (t' & H1 & H2 & _ & H3).
  - done.
  - done.
  - unfold is_i64; lia.
  - unfold is_i64; lia.
  - repeat constructor.
  - exists t'. split_and!; [exact H1|exact H2|]. apply H3. vm_compute. discriminate.
Defined.

End Tombstone.
