(* ===== verification/Discard.v ===== *)
(** The discard statistics of the value files, src/storage/store/vfile_discard.go: how
    many bytes of each file are garbage, in a mapped file. *)
From stdpp Require Import gmap sets.
From S2P Require Import Prelude Binary Bytes Util SSTIndex.

Import Util.

Module Discard.

Definition initDiscardSize : nat := Nat.pow 2 20.
Definition entrySize : nat := 16.

(** [Data] is the mapped file; a mapping does not fail. *)
Record discard := MkDiscard { Data : list Z; next : nat }.

Definition cap (d : discard) : nat := (length (Data d) / entrySize)%nat.

Definition get (d : discard) (offset : nat) : outcome Z :=
  w ← subslice (Data d) offset (offset + 8); Uint64 w.

Definition set_ (d : discard) (offset : nat) (v : Z) : outcome discard :=
  if bool_decide (offset + 8 <= length (Data d))%nat
  then Ok (MkDiscard (splice (Data d) offset (be_encode 8 v)) (next d)) else Panic.

Definition zeroNextEntry (d : discard) : outcome discard :=
  d ← set_ d (next d * entrySize) 0;
  set_ d (next d * entrySize + 8) 0.

(** [sort.Sort(d)] swaps whole entries; the file numbers are distinct. *)
Definition chunk (d : discard) (i : nat) : list Z := take entrySize (drop (i * entrySize) (Data d)).
Definition fid_of (c : list Z) : Z := be_decode (take 8 c).
Definition fid_le (a b : list Z) : Prop := fid_of a <= fid_of b.
#[global] Instance fid_le_dec a b : Decision (fid_le a b).
Proof. unfold fid_le. apply _. Defined.

Definition Sort_ (d : discard) : discard :=
  MkDiscard (concat (merge_sort fid_le (chunk d <$> seq 0 (next d))) ++ drop (next d * entrySize) (Data d)) (next d).

(** [sort.Search]: the first index at which [f] holds, of a function that turns true
    once; the interval halves. *)
Fixpoint Search_loop (fuel i j : nat) (f : nat -> outcome bool) : outcome nat :=
  if bool_decide (i < j)%nat then
    match fuel with
    | O => Panic
    | S fuel =>
        let h := ((i + j) / 2)%nat in
        b ← f h;
        if b : bool then Search_loop fuel i h f else Search_loop fuel (h + 1) j f
    end
  else Ok i.
Definition Search (n : nat) (f : nat -> outcome bool) : outcome nat := Search_loop n 0 n f.

(** The first free entry of a file just opened. *)
Fixpoint find_next (n i : nat) (d : discard) : outcome nat :=
  match n with
  | O => Ok (next d)
  | S n => x ← get d (i * entrySize); if x =? 0 then Ok i else find_next n (S i) d
  end.

(** A new file is one of [initDiscardSize] zeros. *)
Definition newDiscard (on_disk : list Z) : outcome discard :=
  d ← (match on_disk with
       | [] => zeroNextEntry (MkDiscard (replicate initDiscardSize 0) 0)
       | _ => Ok (MkDiscard on_disk 0)
       end);
  n ← find_next (cap d) 0 d;
  Ok (Sort_ (MkDiscard (Data d) n)).

Definition grow (d : discard) : discard :=
  MkDiscard (Data d ++ replicate (length (Data d)) 0) (next d).

(** The part of [_update] that adds a file. *)
Definition add_entry (d : discard) (fid count : Z) : outcome (discard * Z) :=
  let count := if count <? 0 then 0 else count in
  d ← set_ d (next d * entrySize) fid;
  d ← set_ d (next d * entrySize + 8) (u64 count);
  let d := MkDiscard (Data d) (S (next d)) in
  let d := if bool_decide (cap d < next d)%nat then grow d else d in
  d ← zeroNextEntry d;
  Ok (Sort_ d, u64 count).

Definition update (d : discard) (fid count : Z) : outcome (discard * Z) :=
  i ← Search (next d) (fun i => x ← get d (i * entrySize); Ok (fid <=? x));
  found ← (if bool_decide (i < next d)%nat then x ← get d (i * entrySize); Ok (x =? fid) else Ok false);
  if found : bool then
    let coffset := (i * entrySize + 8)%nat in
    if count <? 0 then d ← set_ d coffset 0; Ok (d, 0)
    else
      x ← get d coffset;
      let ncount := x +64 u64 count in
      if count =? 0 then Ok (d, ncount)
      else d ← set_ d coffset ncount; Ok (d, ncount)
  else add_entry d fid count.

Definition Update (d : discard) (fid count : Z) : outcome (discard * Z) := update d fid (i64 count).
Definition Get (d : discard) (fid : Z) : outcome (discard * Z) := update d fid 0.
Definition Reset (d : discard) (fid : Z) : outcome (discard * Z) := update d fid (-1).

Fixpoint iterate {A} (n i : nat) (d : discard) (f : A -> Z -> Z -> A) (st : A) : outcome A :=
  match n with
  | O => Ok st
  | S n =>
      fid ← get d (i * entrySize);
      count ← get d (i * entrySize + 8);
      iterate n (S i) d f (f st fid count)
  end.
Definition Iterate {A} (d : discard) (f : A -> Z -> Z -> A) (st : A) : outcome A := iterate (next d) 0 d f st.

Definition Max (d : discard) : outcome (Z * Z) :=
  '(maxFid, maxCount) ← Iterate d (fun '(mf, mc) fid count => if mc <? count then (fid, count) else (mf, mc)) (0, 0);
  Ok (maxFid mod 2 ^ 32, maxCount).

(** ** Specification *)

Definition pair_bytes (p : Z * Z) : list Z := be_encode 8 (fst p) ++ be_encode 8 (snd p).
Definition pair_ok (p : Z * Z) : Prop := 0 < fst p < 2 ^ 64 /\ is_u64 (snd p).

(** [d] holds the pairs [l], ordered by file, with room for one more and its first free
    entry cleared. *)
Record holds (d : discard) (l : list (Z * Z)) : Prop := {
  holds_next : next d = length l;
  holds_data : exists r, Data d = concat (pair_bytes <$> l) ++ replicate 16 0 ++ r;
  holds_pairs : Forall pair_ok l;
  holds_sorted : StronglySorted (fun a b => fst a < fst b) l }.

(** The statistics as a map. *)
Definition counts (l : list (Z * Z)) : gmap Z Z := list_to_map l.

(** * Lemmas *)

Lemma length_pair_bytes p : length (pair_bytes p) = entrySize.
Proof. unfold pair_bytes. by rewrite length_app, !length_be_encode. Qed.

Lemma words_pairs (l : list (Z * Z)) : words entrySize (pair_bytes <$> l).
Proof. apply Forall_fmap, Forall_true. intros p. apply length_pair_bytes. Qed.

Lemma length_pairs (l : list (Z * Z)) : length (concat (pair_bytes <$> l)) = (length l * entrySize)%nat.
Proof. rewrite (concat_words_length entrySize), length_fmap by apply words_pairs. lia. Qed.

Lemma fid_of_pair p : pair_ok p -> fid_of (pair_bytes p) = fst p.
Proof.
  intros [H _]. unfold fid_of, pair_bytes. rewrite take_app_length' by (by rewrite length_be_encode).
  rewrite be_decode_encode. apply Z.mod_small. change (256 ^ Z.of_nat 8) with (2 ^ 64). lia.
Qed.

(** Reading and writing an entry between others. *)
Section entry.
Context (d : discard) (l1 : list (Z * Z)) (p : Z * Z) (r : list Z).
Context (Hd : Data d = concat (pair_bytes <$> l1) ++ pair_bytes p ++ r) (Hp : pair_ok p).

Lemma get_entry : get d (length l1 * entrySize) = Ok (fst p) /\ get d (length l1 * entrySize + 8) = Ok (snd p).
Proof.
  pose proof (length_pairs l1) as Hl. destruct Hp as [H1 H2]. unfold get. rewrite Hd. unfold pair_bytes at 2 4.
  rewrite <- !app_assoc. split.
  - rewrite (subslice_app _ (be_encode 8 (fst p))) by (rewrite ?length_be_encode; lia). cbn [mbind outcome_bind].
    apply Uint64_encode_nil. unfold is_u64. lia.
  - rewrite (app_assoc (concat _)), (subslice_app _ (be_encode 8 (snd p))) by (rewrite ?length_app, ?length_be_encode; lia).
    cbn [mbind outcome_bind]. by apply Uint64_encode_nil.
Qed.

Lemma set_count v :
  set_ d (length l1 * entrySize + 8) v = Ok (MkDiscard (concat (pair_bytes <$> l1) ++ pair_bytes (fst p, v) ++ r) (next d)).
Proof.
  pose proof (length_pairs l1) as Hl. unfold set_. rewrite Hd.
  rewrite bool_decide_true by (rewrite !length_app, Hl, length_pair_bytes; unfold entrySize; lia). do 2 f_equal.
  unfold pair_bytes at 2 3. cbn [fst snd]. rewrite <- !app_assoc, (app_assoc (concat _) (be_encode 8 (fst p))).
  replace (length l1 * entrySize + 8)%nat with (length (concat (pair_bytes <$> l1) ++ be_encode 8 (fst p)))
    by (rewrite length_app, Hl, length_be_encode; done).
  rewrite splice_after, <- !app_assoc, length_be_encode. by rewrite drop_be_eq.
Qed.
End entry.

Lemma Search_loop_ok f k fuel i j :
  (forall h, (i <= h < j)%nat -> f h = Ok (bool_decide (k <= h)%nat)) -> (i <= k <= j)%nat -> (j - i <= fuel)%nat ->
  Search_loop fuel i j f = Ok k.
Proof.
  revert i j. induction fuel as [|fuel IH]; intros i j Hf Hk Hl; cbn [Search_loop]; case_bool_decide as Hlt;
    try lia; try (f_equal; lia).
  set (h := ((i + j) / 2)%nat).
  assert (i <= h < j)%nat as Hh.
  { unfold h. pose proof (Nat.div_mod_eq (i + j) 2). pose proof (Nat.mod_upper_bound (i + j) 2). lia. }
  rewrite Hf by lia. cbn [mbind outcome_bind]. case_bool_decide; apply IH; try lia; intros h' Hh'; apply Hf; lia.
Qed.

Section holding.
Context (d : discard) (l : list (Z * Z)) (H : holds d l).

Lemma split_at i p : l !! i = Some p ->
  exists l1 l2, l = l1 ++ p :: l2 /\ length l1 = i /\ pair_ok p /\
    exists r, Data d = concat (pair_bytes <$> l1) ++ pair_bytes p ++ (concat (pair_bytes <$> l2) ++ replicate 16 0 ++ r).
Proof.
  intros Hi. pose proof (list_elem_of_split_length _ _ _ Hi) as (l1 & l2 & E & Hl). exists l1, l2.
  destruct (holds_data _ _ H) as [r Hr]. split_and!; [done|done| |].
  - pose proof (holds_pairs _ _ H) as Hp. rewrite E, Forall_app, Forall_cons in Hp. tauto.
  - exists r. rewrite Hr, E, fmap_app, fmap_cons, concat_app. cbn [concat]. by rewrite <- !app_assoc.
Qed.

Lemma get_at i p : l !! i = Some p -> get d (i * entrySize) = Ok (fst p) /\ get d (i * entrySize + 8) = Ok (snd p).
Proof. intros (l1 & l2 & _ & <- & Hp & r & Hd)%split_at. by apply (get_entry d l1 p _ Hd). Qed.

(** Where a file is, or would be. *)
Lemma update_search fid :
  exists k, Search (next d) (fun i => x ← get d (i * entrySize); Ok (fid <=? x)) = Ok k /\ (k <= length l)%nat /\
    (forall i p, l !! i = Some p -> (i < k)%nat <-> fst p < fid).
Proof.
  assert (exists k, (k <= length l)%nat /\ forall i p, l !! i = Some p -> (i < k)%nat <-> fst p < fid) as (k & Hk & Hspec).
  { pose proof (holds_sorted _ _ H) as Hs. clear H. induction Hs as [|p l Hl (k & Hk & IH) Hp]; [exists 0%nat; split; [cbn; lia|done]|].
    rewrite Forall_forall in Hp. destruct (Z.lt_ge_cases (fst p) fid) as [Hlt|Hge].
    - exists (S k). split; [cbn; lia|]. intros [|i] q Hq; [injection Hq as <-; lia|]. specialize (IH i q Hq). lia.
    - exists 0%nat. split; [lia|]. intros [|i] q Hq; [injection Hq as <-; lia|].
      pose proof (Hp q (list_elem_of_lookup_2 l i q Hq)). lia. }
  exists k. split_and!; [|done|done]. rewrite (holds_next _ _ H). apply Search_loop_ok; [|lia|lia].
  intros h Hh. destruct (lookup_lt_is_Some_2 l h) as [p Hp]; [lia|]. destruct (get_at h p Hp) as [-> _]. cbn [mbind outcome_bind].
  f_equal. specialize (Hspec h p Hp). case_bool_decide; [apply Z.leb_le|apply Z.leb_gt]; lia.
Qed.
End holding.

Lemma keys_NoDup (l : list (Z * Z)) : StronglySorted (fun a b => fst a < fst b) l -> NoDup l.*1.
Proof.
  induction 1 as [|p l Hl IH Hp]; [constructor|]. cbn. constructor; [|done]. intros (q & E & Hq)%list_elem_of_fmap.
  rewrite Forall_forall in Hp. specialize (Hp q Hq). lia.
Qed.

Lemma update_found d l fid old count :
  holds d l -> (fid, old) ∈ l -> 0 <= count < 2 ^ 63 ->
  exists d' l', Update d fid count = Ok (d', u64 (old + count)) /\ holds d' l' /\ counts l' = <[fid := u64 (old + count)]> (counts l).
Proof.
  intros H (i & Hi)%list_elem_of_lookup Hc. destruct (update_search d l H fid) as (k & E & Hk & Hspec).
  assert (k = i) as ->.
  { pose proof (Hspec i _ Hi) as Hsi. cbn [fst] in Hsi. destruct (decide (k < i)%nat) as [Hlt|]; [|lia].
    destruct (lookup_lt_is_Some_2 l k) as [q Hq]; [apply lookup_lt_Some in Hi; lia|].
    pose proof (sorted_lookup _ l k i q _ (holds_sorted _ _ H) Hlt Hq Hi) as Hs. cbn in Hs. apply (Hspec k q Hq) in Hs. lia. }
  unfold Update, update. rewrite E. cbn [mbind outcome_bind]. rewrite bool_decide_true by (rewrite (holds_next _ _ H); by eapply lookup_lt_Some).
  destruct (get_at d l H i _ Hi) as [-> Hg]. cbn [mbind outcome_bind fst]. rewrite Z.eqb_refl, i64_small by (unfold is_i64; lia).
  rewrite (proj2 (Z.ltb_ge count 0)), Hg by lia. cbn [mbind outcome_bind snd]. rewrite u64_add_idem_r.
  destruct (split_at d l H i _ Hi) as (l1 & l2 & El & Hl1 & [Hp1 Hp2] & r & Hd).
  destruct (Z.eqb_spec count 0) as [->|Hne].
  - exists d, l. rewrite Z.add_0_r, u64_small by done. split_and!; [done|done|]. symmetry. apply insert_id. unfold counts.
    apply elem_of_list_to_map; [apply keys_NoDup, (holds_sorted _ _ H)|by eapply list_elem_of_lookup_2].
  - rewrite <- Hl1, (set_count d l1 (fid, old) _ Hd). cbn [mbind outcome_bind]. eexists _, (l1 ++ (fid, u64 (old + count)) :: l2).
    split; [done|]. split.
    + split; cbn [Data next].
      * rewrite (holds_next _ _ H), El, !length_app. done.
      * exists r. rewrite fmap_app, fmap_cons, concat_app. cbn [concat fst]. by rewrite <- !app_assoc.
      * pose proof (holds_pairs _ _ H) as Hp. rewrite El, Forall_app, Forall_cons in Hp. rewrite Forall_app, Forall_cons.
        destruct Hp as (? & ? & ?). split_and!; [done| |done]. split; [done|apply u64_range].
      * pose proof (holds_sorted _ _ H) as Hs. rewrite El in Hs. clear -Hs.
        induction l1 as [|q l1 IH]; cbn in *; apply StronglySorted_inv in Hs as [Hs Hf]; constructor; [done|done|auto|].
        rewrite !Forall_app, !Forall_cons in *. done.
    + pose proof (keys_NoDup _ (holds_sorted _ _ H)) as Hn. unfold counts. rewrite El in Hn |- *.
      clear -Hn. induction l1 as [|[f c] l1 IH]; cbn [app list_to_map foldr fst snd] in *.
      * unfold uncurry. cbn. by rewrite insert_insert_eq.
      * rewrite fmap_cons in Hn. apply NoDup_cons in Hn as [Hf Hn]. cbn in *. rewrite IH by done. apply insert_insert_ne.
        intros ->. apply Hf. rewrite fmap_app, fmap_cons. set_solver.
Qed.

(** ** A new file *)

Lemma set_app d p q r off v :
  Data d = p ++ q ++ r -> length p = off -> length q = 8%nat ->
  set_ d off v = Ok (MkDiscard (p ++ be_encode 8 v ++ r) (next d)).
Proof.
  intros Hd <- Hq. unfold set_. rewrite Hd, bool_decide_true by (rewrite !length_app; lia).
  by rewrite splice_after, length_be_encode, <- Hq, drop_app_length.
Qed.

Lemma set_short d off v : (length (Data d) < off + 8)%nat -> set_ d off v = Panic.
Proof. intros H. unfold set_. by rewrite bool_decide_false by lia. Qed.

Lemma zeroNextEntry_app d p q r :
  Data d = p ++ q ++ r -> length p = (next d * entrySize)%nat -> length q = 16%nat ->
  zeroNextEntry d = Ok (MkDiscard (p ++ replicate 16 0 ++ r) (next d)).
Proof.
  intros Hd Hp Hq. rewrite <- (take_drop 8 q) in Hd. unfold zeroNextEntry.
  rewrite (set_app d p (take 8 q) (drop 8 q ++ r)); [|by rewrite Hd, <- !app_assoc|done|rewrite length_take; lia].
  cbn [mbind outcome_bind next]. rewrite (set_app _ (p ++ be_encode 8 0) (drop 8 q) r); cbn [Data next].
  - rewrite <- !app_assoc. done.
  - by rewrite <- app_assoc.
  - by rewrite length_app, length_be_encode, Hp.
  - rewrite length_drop. lia.
Qed.

Lemma chunks_pairs n d (l : list (Z * Z)) r :
  Data d = concat (pair_bytes <$> l) ++ r -> n = length l -> chunk d <$> seq 0 n = pair_bytes <$> l.
Proof.
  intros Hd ->. apply list_eq. intros i. rewrite !list_lookup_fmap. destruct (decide (i < length l)%nat) as [Hi|Hi].
  - rewrite lookup_seq_lt by done. destruct (lookup_lt_is_Some_2 l i Hi) as [p Hp]. rewrite Hp. cbn [fmap option_fmap option_map].
    f_equal. pose proof (list_elem_of_split_length _ _ _ Hp) as (l1 & l2 & E & Hl). unfold chunk. rewrite Hd, E, fmap_app, fmap_cons, concat_app.
    cbn [concat Nat.add]. rewrite <- app_assoc, drop_app_length' by (rewrite length_pairs; lia). rewrite <- app_assoc.
    by rewrite take_app_length' by (by rewrite length_pair_bytes).
  - rewrite lookup_seq_ge by lia. by rewrite (proj2 (lookup_ge_None l i)) by lia.
Qed.

Definition pair_le (a b : Z * Z) : Prop := fst a <= fst b.
#[global] Instance pair_le_dec a b : Decision (pair_le a b).
Proof. unfold pair_le. apply _. Defined.

Lemma pairs_inj (l : list (Z * Z)) p q : NoDup l.*1 -> p ∈ l -> q ∈ l -> fst p = fst q -> p = q.
Proof.
  intros Hn (i & Hi)%list_elem_of_lookup (j & Hj)%list_elem_of_lookup E.
  assert (i = j) as ->; [|congruence].
  apply (proj1 (NoDup_alt _) Hn i j (fst p)); rewrite list_lookup_fmap; [by rewrite Hi|by rewrite Hj, E].
Qed.

Lemma pairs_strict l : NoDup l.*1 -> StronglySorted pair_le l -> StronglySorted (fun a b => fst a < fst b) l.
Proof.
  intros Hn Hs. induction Hs as [|p l Hs IH Hp]; [constructor|]. cbn in Hn. apply NoDup_cons in Hn as [Hin Hn].
  constructor; [auto|]. rewrite Forall_forall in *. intros q Hq. specialize (Hp q Hq). unfold pair_le in Hp.
  assert (fst p <> fst q); [|lia]. intros E. apply Hin. rewrite E. by apply list_elem_of_fmap_2.
Qed.

Lemma fid_le_pairs l : Forall pair_ok l -> StronglySorted pair_le l -> StronglySorted fid_le (pair_bytes <$> l).
Proof.
  intros Hok Hs. induction Hs as [|p l Hs IH Hp]; [constructor|]. apply Forall_cons in Hok as [Hop Hok]. rewrite fmap_cons.
  constructor; [auto|]. rewrite Forall_fmap. rewrite Forall_forall in *. intros q Hq. unfold compose, fid_le.
  rewrite !fid_of_pair by auto. by apply Hp.
Qed.

(** Sorting the entries is sorting the pairs. *)
Lemma Sort_pairs d l r :
  Data d = concat (pair_bytes <$> l) ++ r -> next d = length l -> Forall pair_ok l -> NoDup l.*1 ->
  exists l', Sort_ d = MkDiscard (concat (pair_bytes <$> l') ++ r) (next d) /\ l' ≡ₚ l /\
    StronglySorted (fun a b => fst a < fst b) l'.
Proof.
  intros Hd Hn Hok Hnd. exists (merge_sort pair_le l).
  assert (merge_sort pair_le l ≡ₚ l) as Hp by apply merge_sort_Permutation.
  assert (StronglySorted pair_le (merge_sort pair_le l)) as Hs
    by (apply StronglySorted_merge_sort; [intros a b c; unfold pair_le; lia|intros a b; unfold pair_le; lia]).
  split_and!; [|done|].
  - unfold Sort_. rewrite (chunks_pairs _ d l r Hd Hn). f_equal. rewrite Hd, Hn, drop_app_length' by (by rewrite length_pairs).
    do 2 f_equal. apply (StronglySorted_unique_strong fid_le).
    + intros x y Hx Hy. rewrite merge_sort_Permutation in Hx. rewrite Hp in Hy.
      apply list_elem_of_fmap_1 in Hx as (p & -> & Hx). apply list_elem_of_fmap_1 in Hy as (q & -> & Hy).
      rewrite Forall_forall in Hok. unfold fid_le. rewrite !fid_of_pair by auto. intros. f_equal.
      apply (pairs_inj l); [done..|lia].
    + apply StronglySorted_merge_sort; [intros a b c; unfold fid_le; lia|intros a b; unfold fid_le; lia].
    + apply fid_le_pairs; [|done]. by rewrite Hp.
    + rewrite merge_sort_Permutation. by rewrite Hp.
  - apply pairs_strict; [by rewrite Hp|done].
Qed.

Lemma counts_insert l l' fid c : NoDup l.*1 -> fid ∉ l.*1 -> l' ≡ₚ l ++ [(fid, c)] -> counts l' = <[fid := c]> (counts l).
Proof.
  intros Hn Hin Hp. unfold counts. rewrite <- list_to_map_snoc by done. apply list_to_map_proper; [|done].
  rewrite Hp, fmap_app. apply NoDup_app. split_and!; [done| |apply NoDup_singleton].
  intros x Hx. cbn. rewrite list_elem_of_singleton. congruence.
Qed.

(** Where a file that is not there is not found. *)
Lemma update_missing d l fid count :
  holds d l -> fid ∉ l.*1 -> update d fid count = add_entry d fid count.
Proof.
  intros H Hin. destruct (update_search d l H fid) as (k & E & Hk & Hspec). unfold update. rewrite E. cbn [mbind outcome_bind].
  case_bool_decide as Hlt; [|done]. rewrite (holds_next _ _ H) in Hlt. destruct (lookup_lt_is_Some_2 l k Hlt) as [p Hp].
  destruct (get_at d l H k p Hp) as [-> _]. cbn [mbind outcome_bind].
  rewrite (proj2 (Z.eqb_neq (fst p) fid)); [done|]. intros <-. apply Hin, list_elem_of_fmap_2. by eapply list_elem_of_lookup_2.
Qed.

(** The two stores of a new entry, in the entry that is kept cleared. *)
Lemma store_entry d l r fid c :
  Data d = concat (pair_bytes <$> l) ++ replicate 16 0 ++ r -> next d = length l ->
  (d' ← set_ d (next d * entrySize) fid; set_ d' (next d' * entrySize + 8) c) =
    Ok (MkDiscard (concat (pair_bytes <$> l ++ [(fid, c)]) ++ r) (next d)).
Proof.
  intros Hd Hn. pose proof (length_pairs l) as Hl. change (replicate 16 0) with (replicate 8 0 ++ replicate 8 0) in Hd.
  rewrite (set_app d (concat (pair_bytes <$> l)) (replicate 8 0) (replicate 8 0 ++ r)); [|by rewrite Hd, <- !app_assoc|lia|done].
  cbn [mbind outcome_bind next].
  rewrite (set_app _ (concat (pair_bytes <$> l) ++ be_encode 8 fid) (replicate 8 0) r); cbn [Data next];
    [|by rewrite <- !app_assoc|rewrite length_app, length_be_encode; lia|done].
  do 2 f_equal. rewrite fmap_app, fmap_cons, concat_app. cbn [concat fmap list_fmap]. rewrite app_nil_r, <- !app_assoc. reflexivity.
Qed.

Section adding.
Context (d : discard) (l : list (Z * Z)) (fid count : Z).
Context (H : holds d l) (Hin : fid ∉ l.*1) (Hf : 0 < fid < 2 ^ 64) (Hc : 0 <= count < 2 ^ 63).

Let ok' : Forall pair_ok (l ++ [(fid, count)]).
Proof. apply Forall_app. split; [apply (holds_pairs _ _ H)|]. repeat constructor; cbn; unfold is_u64; lia. Qed.

Let nodup' : NoDup (l ++ [(fid, count)]).*1.
Proof.
  rewrite fmap_app. apply NoDup_app. split_and!; [apply keys_NoDup, (holds_sorted _ _ H)| |apply NoDup_singleton].
  intros x Hx. cbn. rewrite list_elem_of_singleton. congruence.
Qed.

(** A file is added where another entry is left after it. *)
Lemma add_entry_room : (S (length l) < cap d)%nat ->
  exists d' l', add_entry d fid count = Ok (d', count) /\ holds d' l' /\ counts l' = <[fid := count]> (counts l).
Proof.
  intros Hroom. destruct (holds_data _ _ H) as [r Hr]. pose proof (holds_next _ _ H) as Hn. pose proof (length_pairs l) as Hl.
  pose proof (length_pairs (l ++ [(fid, count)])) as Hl1. rewrite length_app in Hl1. cbn [length] in Hl1.
  assert (32 <= length (replicate 16 0%Z ++ r))%nat as Hlen.
  { unfold cap in Hroom. rewrite Hr, length_app, Hl in Hroom. unfold entrySize in *.
    pose proof (Nat.div_mod_eq (length l * 16 + length (replicate 16 0%Z ++ r)) 16). lia. }
  rewrite length_app, length_replicate in Hlen. unfold add_entry. rewrite (proj2 (Z.ltb_ge count 0)), u64_small by (unfold is_u64; lia).
  pose proof (store_entry d l r fid count Hr Hn) as E.
  destruct (set_ d (next d * entrySize) fid) as [d1| |]; cbn [mbind outcome_bind] in E |- *; try discriminate E.
  rewrite E. cbn [mbind outcome_bind Data next].
  rewrite bool_decide_false.
  2:{ unfold cap in *. cbn [Data next]. revert Hroom. rewrite Hr, !length_app, Hl, Hl1, length_replicate, Hn.
      replace (length l * entrySize + (16 + length r))%nat with ((length l + 1) * entrySize + length r)%nat by (unfold entrySize; lia). lia. }
  rewrite (zeroNextEntry_app _ (concat (pair_bytes <$> l ++ [(fid, count)])) (take 16 r) (drop 16 r)); cbn [Data next];
    [|by rewrite take_drop|rewrite Hl1, Hn; lia|rewrite length_take; lia].
  cbn [mbind outcome_bind].
  destruct (Sort_pairs (MkDiscard (concat (pair_bytes <$> l ++ [(fid, count)]) ++ replicate 16 0 ++ drop 16 r) (S (next d)))
    (l ++ [(fid, count)]) (replicate 16 0 ++ drop 16 r)) as (l' & -> & Hp & Hs); cbn [Data next];
    [done|rewrite length_app, Hn; cbn; lia|exact ok'|exact nodup'|].
  eexists _, l'. split; [done|]. split.
  - split; cbn [Data next]; [rewrite Hp, length_app, Hn; cbn; lia|by exists (drop 16 r)|by rewrite Hp; exact ok'|done].
  - apply counts_insert; [apply keys_NoDup, (holds_sorted _ _ H)|done|done].
Qed.
End adding.

(** At the last entry the file is not grown, and the entry after it is cleared. *)
Lemma add_entry_full d l fid count :
  holds d l -> (length (Data d) = S (length l) * entrySize)%nat -> add_entry d fid count = Panic.
Proof.
  intros H Hfull. destruct (holds_data _ _ H) as [r Hr]. pose proof (holds_next _ _ H) as Hn. pose proof (length_pairs l) as Hl.
  assert (length r = 0%nat) as Hr0. { rewrite Hr, !length_app, Hl, length_replicate in Hfull. unfold entrySize in Hfull. lia. }
  unfold add_entry. set (c := u64 _). pose proof (store_entry d l r fid c Hr Hn) as E.
  destruct (set_ d (next d * entrySize) fid) as [d1| |] eqn:E1; cbn [mbind outcome_bind] in E |- *; try discriminate E.
  rewrite E. cbn [mbind outcome_bind Data next].
  assert (length (concat (pair_bytes <$> l ++ [(fid, c)]) ++ r) = S (length l) * entrySize)%nat as Hlen
    by (rewrite length_app, length_pairs, length_app, Hr0; cbn [length]; lia).
  rewrite bool_decide_false by (unfold cap; cbn [Data next]; rewrite Hlen, Hn, Nat.div_mul by done; lia).
  unfold zeroNextEntry. rewrite set_short; [done|]. cbn [Data next]. rewrite Hlen, Hn. unfold entrySize. lia.
Qed.

(** the discard statistics are the map of the bytes thrown away by file: adding to a
    file that is there, or to one that is not while an entry is left after it, replaces
    the count of that file alone by its sum, keeps the entries ordered by file and the next
    entry cleared, and returns the sum; asking for a file that is not there adds it with
    zero. The file is grown one entry late: filling the last entry panics. *)
Theorem discard_update d l fid count :
  holds d l -> 0 < fid < 2 ^ 32 -> 0 <= count < 2 ^ 63 ->
  (fid ∈ l.*1 \/ (S (length l) < cap d)%nat ->
   exists d' l', Update d fid count = Ok (d', u64 (default 0 (counts l !! fid) + count)) /\ holds d' l' /\
     counts l' = <[fid := u64 (default 0 (counts l !! fid) + count)]> (counts l)) /\
  (fid ∉ l.*1 -> (length (Data d) = S (length l) * entrySize)%nat -> Update d fid count = Panic).
Proof.
  intros H Hf Hc. assert (i64 count = count) as Hi by (apply i64_small; unfold is_i64; lia). split.
  - intros Hroom. destruct (decide (fid ∈ l.*1)) as [Hin|Hin].
    + apply list_elem_of_fmap in Hin as ((f & old) & -> & Hin). cbn [fst].
      assert (counts l !! f = Some old) as -> by (apply elem_of_list_to_map_1; [apply keys_NoDup, (holds_sorted _ _ H)|done]).
      by apply update_found.
    + destruct Hroom as [?|Hroom]; [done|]. unfold Update. rewrite Hi, (update_missing d l) by done.
      assert (counts l !! fid = None) as -> by (by apply not_elem_of_list_to_map_1). cbn [default]. rewrite Z.add_0_l, u64_small by (unfold is_u64; lia).
      apply add_entry_room; (done || lia).
  - intros Hin Hfull. unfold Update. rewrite (update_missing d l) by done. by apply (add_entry_full d l).
Qed.

Definition two_entries : discard := MkDiscard (pair_bytes (7, 100) ++ replicate 16 0) 1.
Definition three_entries : discard := MkDiscard (pair_bytes (7, 100) ++ replicate 32 0) 1.

Lemma discard_update_witness :
  (exists d' l', Update three_entries 5 30 = Ok (d', 30) /\ holds d' l' /\ counts l' = {[5 := 30; 7 := 100]}) /\
  Update two_entries 5 30 = Panic.
Proof.
  assert (forall n, holds (MkDiscard (pair_bytes (7, 100) ++ replicate 16 0 ++ replicate n 0) 1) [(7, 100)]) as Hh.
  { intros n. split; [reflexivity|by exists (replicate n 0)|repeat constructor; cbn; unfold is_u64; lia|repeat constructor]. }
  assert (5 ∉ [(7, 100)].*1) as Hni by (cbn; rewrite list_elem_of_singleton; discriminate).
  split.
  - assert (exists d' l', Update three_entries 5 30 = Ok (d', u64 (default 0 (counts [(7, 100)] !! 5) + 30)) /\ holds d' l' /\
      counts l' = <[5 := u64 (default 0 (counts [(7, 100)] !! 5) + 30)]> (counts [(7, 100)])) as (d' & l' & E & Hd & Hl).
    { apply (discard_update three_entries [(7, 100)] 5 30 (Hh 16%nat)); [lia|lia|right; vm_compute; lia]. }
    exists d', l'. split; [exact E|]. split; [exact Hd|]. rewrite Hl. reflexivity.
  - apply (discard_update two_entries [(7, 100)] 5 30 (Hh 0%nat)); [lia|lia|exact Hni|reflexivity].
Defined.

End Discard.
