(* ===== verification/Entry.v ===== *)
(** Entries of a memory table: src/storage/types/entry.go, with [valueType] and
    [LifeCycleToUnixNano] of utils.go. *)
From stdpp Require Import gmap.
From S2P Require Import Prelude Values.
Import Values.

Module Entry.

Definition valueType (v : Value) : Z :=
  match v with
  | FloatValue _ _ => 1
  | IntegerValue _ _ => 2
  | StringValue _ _ => 3
  | BooleanValue _ _ => 4
  | UnsignedValue _ _ => 5
  | PtrValue _ _ _ _ => 0
  end.

(** The lock is not part of the record: [Cache.step] keeps the set of the locked
    entries and runs [Add] in its steps, the check of the types without the lock;
    here a method is called alone, from its beginning to its end. *)
Record Entry := MkEntry { values : list Value; vType : Z }.

Definition conflict : string := "field type conflict".

Definition NewEntryValues (vs : list Value) : outcome Entry :=
  match vs with
  | [] => Ok (MkEntry [] 0)
  | v0 :: _ =>
      let et := valueType v0 in
      if forallb (fun v => et =? valueType v) vs then Ok (MkEntry vs et) else Err conflict
  end.

(** The part of [Add] under the lock. *)
Definition Add_locked (e : Entry) (vs : list Value) : outcome Entry :=
  match values e with
  | [] => v0 ← index vs 0; Ok (MkEntry vs (valueType v0))
  | _ => Ok (MkEntry (values e ++ vs) (vType e))
  end.

Definition Add (e : Entry) (vs : list Value) : outcome Entry :=
  match vs with
  | [] => Ok e
  | _ =>
      if negb (vType e =? 0) && negb (forallb (fun v => vType e =? valueType v) vs)
      then Err conflict
      else Add_locked e vs
  end.

Definition Deduplicate (e : Entry) : outcome Entry :=
  if bool_decide (length (values e) <= 1)%nat then Ok e
  else vs ← Values.Deduplicate (values e); Ok (MkEntry vs (vType e)).

Definition Count (e : Entry) : nat := length (values e).

Definition Filter (e : Entry) (min max : Z) : outcome Entry :=
  vs ← (if bool_decide (1 < length (values e))%nat then Values.Deduplicate (values e)
        else Ok (values e));
  vs ← Exclude vs min max;
  Ok (MkEntry vs (vType e)).

Definition Size (e : Entry) : Z := SizeOf (values e).

Definition Clean (e : Entry) : Entry := MkEntry [] (vType e).

(** [time.Duration] counts nanoseconds. *)
Definition LifeCycleToUnixNano (l : Z) : Z :=
  let day := 24 * 3600 * 10 ^ 9 in
  if l =? 1 then 7 * day
  else if l =? 2 then 14 * day
  else if l =? 3 then 30 * day
  else if l =? 4 then 6 * 30 * day
  else if l =? 5 then 12 * 30 * day
  else -1.

(** ** Specification *)

(** All the values of an entry have its type. *)
Definition same_type (ty : Z) (vs : list Value) : Prop := Forall (fun v => valueType v = ty) vs.
Definition entry_ok (e : Entry) : Prop := same_type (vType e) (values e).
(** What an entry says, by timestamp. *)
Definition content (e : Entry) : gmap Z Value := series (values e).

(** * Lemmas *)
Lemma same_type_forallb ty vs : forallb (fun v => ty =? valueType v) vs = true <-> same_type ty vs.
Proof.
  rewrite forallb_forall. unfold same_type. rewrite Forall_forall. setoid_rewrite Z.eqb_eq.
  setoid_rewrite list_elem_of_In. naive_solver.
Qed.

Lemma short_sorted {V} `{Timestamped V} (a : list V) : (length a <= 1)%nat -> sorted a.
Proof. destruct a as [|x [|y r]]; cbn [length]; [intros; repeat constructor..|lia]. Qed.

Lemma dedup_short {V} `{Timestamped V} (a : list V) :
  exists r, (if bool_decide (1 < length a)%nat then Values.Deduplicate a else Ok a) = Ok r /\
    sorted r /\ series r = series a.
Proof.
  case_bool_decide; [apply Deduplicate_spec|].
  exists a. split; [done|]. split; [apply short_sorted; lia|done].
Qed.

Lemma series_subset (a r : list Value) : sorted r -> series r = series a -> r ⊆ a.
Proof.
  intros Hr Hs v Hv. assert (series a !! UnixNano v = Some v) as E.
  { rewrite <- Hs. by apply series_sorted. }
  by apply series_lookup_Some in E as [_ ?].
Qed.

Lemma same_type_subset ty (a r : list Value) : r ⊆ a -> same_type ty a -> same_type ty r.
Proof. unfold same_type. rewrite !Forall_forall. auto. Qed.

Lemma Deduplicate_content e :
  exists e', Deduplicate e = Ok e' /\ content e' = content e /\ vType e' = vType e /\ sorted (values e') /\
    (entry_ok e -> entry_ok e').
Proof.
  unfold Deduplicate, content, entry_ok. case_bool_decide as Hl.
  - exists e. split_and!; try done. by apply short_sorted.
  - destruct (Deduplicate_spec (values e)) as (r & -> & Hs & Hc). cbn [mbind outcome_bind].
    eexists. split_and!; try done. cbn [values vType]. by apply same_type_subset, series_subset.
Qed.

Lemma Filter_content e min max :
  exists e', Filter e min max = Ok e' /\ vType e' = vType e /\ sorted (values e') /\
    content e' = filter (fun '(t, _) => ~ (min <= t <= max)) (content e) /\
    (entry_ok e -> entry_ok e').
Proof.
  unfold Filter, content, entry_ok. destruct (dedup_short (values e)) as (r & -> & Hs & Hc).
  cbn [mbind outcome_bind]. rewrite Exclude_spec by done. eexists. split; [done|].
  split; [done|]. split; [by apply @StronglySorted_filter|]. cbn [values vType]. split.
  - rewrite <- Hc. apply map_eq. intros t. apply option_eq. intros v.
    rewrite series_sorted by (by apply @StronglySorted_filter).
    rewrite map_lookup_filter_Some, series_sorted, list_elem_of_filter by done.
    unfold in_span. naive_solver.
  - apply same_type_subset. intros v [_ Hv]%list_elem_of_filter.
    by apply (series_subset (values e) r).
Qed.

Lemma same_type_head ty v r : same_type ty (v :: r) -> same_type (valueType v) (v :: r).
Proof. intros H. assert (valueType v = ty) as -> by (by inversion H). done. Qed.
#[local] Hint Resolve same_type_head : core.

(** What is allowed to reach the part under the lock. *)
Definition passes (e : Entry) (vs : list Value) : Prop := vType e = 0 \/ same_type (vType e) vs.

Lemma passes_forallb e vs :
  negb (vType e =? 0) && negb (forallb (fun v => vType e =? valueType v) vs) = false <-> passes e vs.
Proof.
  unfold passes. rewrite andb_false_iff, !negb_false_iff, Z.eqb_eq, same_type_forallb. tauto.
Qed.

Lemma Add_passes e vs : vs <> [] -> passes e vs -> Add e vs = Add_locked e vs.
Proof. intros Hv Hp%passes_forallb. unfold Add. destruct vs; [done|]. by rewrite Hp. Qed.

Lemma Add_refuses e vs : vs <> [] -> vType e <> 0 -> ~ same_type (vType e) vs -> Add e vs = Err conflict.
Proof.
  intros Hv Ht Hn. unfold Add. destruct vs as [|v0 r]; [done|].
  assert (negb (vType e =? 0) && negb (forallb (fun v => vType e =? valueType v) (v0 :: r)) <> false) as Hb
    by (rewrite passes_forallb; unfold passes; tauto).
  by destruct (_ && _).
Qed.

(** What [Add_locked] leaves; an entry with a type keeps it. *)
Lemma Add_locked_spec e vs :
  vs <> [] -> passes e vs ->
  exists e', Add_locked e vs = Ok e' /\ content e' = series vs ∪ content e /\ values e' <> [] /\
    (vType e <> 0 \/ values e <> [] -> vType e' = vType e) /\
    (values e = [] -> exists v, v ∈ vs /\ vType e' = valueType v).
Proof.
  intros Hv Hp. unfold Add_locked, content. destruct (values e) as [|w l] eqn:El.
  - destruct vs as [|v0 r]; [done|]. cbn [index mbind outcome_bind].
    eexists. split; [reflexivity|]. cbn [values vType]. rewrite series_nil, map_union_empty.
    split_and!; [done|done| |exists v0; split; [by left|done]].
    intros [H|]; [|done]. destruct Hp as [|Hp]; [done|]. by inversion Hp.
  - eexists. split; [reflexivity|]. cbn [values vType]. rewrite series_app. by split_and!.
Qed.

Lemma NewEntryValues_spec vs :
  match NewEntryValues vs with
  | Ok e => entry_ok e /\ values e = vs /\ (exists ty, same_type ty vs)
  | Err _ => ~ exists ty, same_type ty vs
  | Panic => False
  end.
Proof.
  unfold NewEntryValues. destruct vs as [|v0 r].
  { split; [apply Forall_nil_2|]. split; [done|]. exists 0. apply Forall_nil_2. }
  destruct (forallb _ (v0 :: r)) eqn:Hall.
  - apply same_type_forallb in Hall. eauto.
  - intros [ty Hty]. apply not_true_iff_false in Hall. apply Hall, same_type_forallb.
    eauto.
Qed.

Lemma Add_cases e vs : Add e vs = Err conflict <-> vs <> [] /\ vType e <> 0 /\ ~ same_type (vType e) vs.
Proof.
  split; [|intros (? & ? & ?); by apply Add_refuses]. intros Ha.
  assert (vs <> []) as Hv by (intros ->; done). split; [done|].
  assert (~ passes e vs) as Hp; [|unfold passes in Hp; tauto]. intros Hp.
  rewrite Add_passes in Ha by done. by destruct (Add_locked_spec e vs Hv Hp) as (? & ? & _); congruence.
Qed.

Lemma Add_typed e vs :
  entry_ok e -> Add e vs <> Err conflict -> exists e', Add e vs = Ok e' /\ content e' = series vs ∪ content e /\
    (vType e <> 0 -> entry_ok e' /\ vType e' = vType e) /\
    (vType e = 0 -> entry_ok e' <-> same_type (vType e') vs).
Proof.
  intros He Hn. destruct (decide (vs = [])) as [->|Hv].
  { exists e. rewrite series_nil, map_empty_union. split_and!; try done. intros _.
    split; [intros _; apply Forall_nil_2|done]. }
  assert (passes e vs) as Hp.
  { apply passes_forallb. destruct (_ && _) eqn:E; [|done]. exfalso. apply Hn. unfold Add.
    destruct vs; [done|]. by rewrite E. }
  rewrite Add_passes by done. destruct (Add_locked_spec e vs Hv Hp) as (e' & Ha & Hc & _ & Ht & _).
  exists e'. split_and!; [done|done|..].
  - intros H0. rewrite Ht by auto. split; [|done]. destruct Hp as [|Hp]; [done|]. unfold entry_ok.
    rewrite Ht by auto. unfold Add_locked in Ha. destruct (values e) as [|w l] eqn:El; ok_inv; [done|].
    cbn [values]. rewrite app_comm_cons, <- El. apply Forall_app. unfold entry_ok in He. rewrite El in *. done.
  - intros H0. unfold entry_ok, Add_locked in *. destruct (values e) as [|w l] eqn:El; ok_inv; [done|].
    cbn [values vType] in *.
    unfold same_type in *. rewrite app_comm_cons, Forall_app. tauto.
Qed.

(** * Properties *)

(** C40: the methods of an entry, each called alone.  An entry is created exactly from
    values of one type, and then holds them and has their type.  [Add] refuses
    exactly values not all of the type of an entry that has one; otherwise it
    overlays the new values on the old ones by timestamp, and an entry that had a
    type keeps it, and stays well-typed, also after [Clean].  [Deduplicate] keeps
    what the entry says, [Filter] forgets exactly the closed range, and both keep
    the entry well-typed and of its type.  An entry without a type, never filled or
    filled with pointers, takes any values, mixtures too. *)
Theorem entry_laws (e : Entry) (vs : list Value) (min max : Z) :
  entry_ok e ->
  (forall e', NewEntryValues vs = Ok e' -> entry_ok e' /\ values e' = vs) /\
  ((exists e', NewEntryValues vs = Ok e') <-> (exists ty, same_type ty vs)) /\
  (Add e vs = Err conflict <-> vs <> [] /\ vType e <> 0 /\ ~ same_type (vType e) vs) /\
  (Add e vs <> Err conflict -> exists e', Add e vs = Ok e' /\ content e' = series vs ∪ content e /\
    (vType e <> 0 -> entry_ok e' /\ vType e' = vType e) /\
    (vType e = 0 -> entry_ok e' <-> same_type (vType e') vs)) /\
  (exists e', Deduplicate e = Ok e' /\ content e' = content e /\ sorted (values e') /\
    entry_ok e' /\ vType e' = vType e) /\
  (exists e', Filter e min max = Ok e' /\ sorted (values e') /\
    content e' = filter (fun '(t, _) => ~ (min <= t <= max)) (content e) /\
    entry_ok e' /\ vType e' = vType e) /\
  entry_ok (Clean e) /\ content (Clean e) = ∅ /\ vType (Clean e) = vType e.
Proof.
  intros He. pose proof (NewEntryValues_spec vs) as Hn. split_and!.
  - intros e' Hok. rewrite Hok in Hn. tauto.
  - destruct (NewEntryValues vs) as [e'|err|].
    + split; [intros _; apply Hn|eauto].
    + split; [by intros [? [=]]|done].
    + done.
  - apply Add_cases.
  - apply Add_typed, He.
  - destruct (Deduplicate_content e) as (e' & ? & ? & ? & ? & ?). eauto 10.
  - destruct (Filter_content e min max) as (e' & ? & ? & ? & ? & ?). eauto 10.
  - apply Forall_nil_2.
  - apply series_nil.
  - done.
Qed.

Lemma entry_laws_witness :
  let e := MkEntry [IntegerValue 5 1; IntegerValue 3 2] 2 in
  let vs := [IntegerValue 5 7] in
  (forall e', NewEntryValues vs = Ok e' -> entry_ok e' /\ values e' = vs) /\
  ((exists e', NewEntryValues vs = Ok e') <-> (exists ty, same_type ty vs)) /\
  (Add e vs = Err conflict <-> vs <> [] /\ vType e <> 0 /\ ~ same_type (vType e) vs) /\
  (Add e vs <> Err conflict -> exists e', Add e vs = Ok e' /\ content e' = series vs ∪ content e /\
    (vType e <> 0 -> entry_ok e' /\ vType e' = vType e) /\
    (vType e = 0 -> entry_ok e' <-> same_type (vType e') vs)) /\
  (exists e', Deduplicate e = Ok e' /\ content e' = content e /\ sorted (values e') /\
    entry_ok e' /\ vType e' = vType e) /\
  (exists e', Filter e 1 4 = Ok e' /\ sorted (values e') /\
    content e' = filter (fun '(t, _) => ~ (1 <= t <= 4)) (content e) /\
    entry_ok e' /\ vType e' = vType e) /\
  entry_ok (Clean e) /\ content (Clean e) = ∅ /\ vType (Clean e) = vType e.
Proof. intros e vs. apply (entry_laws e vs 1 4). by repeat constructor. Defined.

End Entry.
