(* ===== verification/Cache.v ===== *)
(** The memory table's index: src/storage/memory/cache.go, a skip list from keys
    to entries whose insertions are lock-free.

    Nodes live in a heap and point to each other by number; node 0 is the head.
    [Put] is a thread: a program counter and local variables, with one access to
    the shared cache per step, so that any interleaving of several [Put]s is a
    schedule of steps.  [Add] on the entry of a key that exists is part of it
    (src/storage/types/entry.go): it reads the type of the entry without the lock,
    value after value, then takes the mutex, writes and gives it back.  The other
    operations run alone. *)
From stdpp Require Import gmap.
From S2P Require Import Prelude Bytes Values Entry.
Import Values.

Module Cache.

Definition maxHeight : nat := 20.

(** [mask]: a node reaches the next level with odds of one in four. *)
Definition mask : Z := 3.

Definition u32 (x : Z) : Z := x mod 2 ^ 32.

Record Node := MkNode {
  key : list Z;
  lifeCycle : Z;
  entry : option Entry.Entry;
  height : nat;
  tower : list (option nat)
}.

(** [closed]: the head is nil, after the last [Deref]. *)
Record Cache := MkCache {
  nodes : list Node;
  c_height : nat;
  ref : Z;
  size : Z;
  closed : bool
}.

(** The error of [NewEntryValues] is dropped, the entry is nil then. *)
Definition newNode (k : list Z) (vs : list Value) (h : nat) (lifecycle : Z) : Node :=
  MkNode k lifecycle
    (match Entry.NewEntryValues vs with Ok e => Some e | _ => None end)
    h (replicate maxHeight None).

Definition NewCache : Cache := MkCache [newNode [] [] maxHeight 0] 1 1 0 false.

(** Every use of a nil head panics. *)
Definition head (c : Cache) : outcome nat := if closed c then Panic else Ok 0%nat.

Definition GetNext (c : Cache) (node : nat) (level : nat) : outcome (option nat) :=
  n ← index (nodes c) node; index (tower n) level.

Definition set_tower (c : Cache) (node level : nat) (v : option nat) : outcome Cache :=
  n ← index (nodes c) node;
  t ← store (tower n) level v;
  Ok (MkCache (<[node := MkNode (key n) (lifeCycle n) (entry n) (height n) t]> (nodes c))
        (c_height c) (ref c) (size c) (closed c)).

Definition set_entry (c : Cache) (node : nat) (e : Entry.Entry) : outcome Cache :=
  n ← index (nodes c) node;
  Ok (MkCache (<[node := MkNode (key n) (lifeCycle n) (Some e) (height n) (tower n)]> (nodes c))
        (c_height c) (ref c) (size c) (closed c)).

Definition add_size (c : Cache) (delta : Z) : Cache :=
  MkCache (nodes c) (c_height c) (ref c) (u32 (size c + delta)) (closed c).

(** The compare-and-swap of a tower's cell. *)
Definition setNexNode (c : Cache) (node level : nat) (old new : option nat) : outcome (Cache * bool) :=
  cur ← GetNext c node level;
  if bool_decide (cur = old) then c ← set_tower c node level new; Ok (c, true) else Ok (c, false).

(** ** [Put] as a thread *)

(** One constructor per shared access, named after what comes next. *)
Inductive pc :=
| Start
| LoadHeight
| Down (i from : nat)
| LoadHeight2
| RaiseHeight (oldHeight : nat)
| ReloadHeight
| Alloc
| Link (i : nat)
| Search (i from : nat) (retry : bool)
| Cas (i : nat)
| AddTo (n : nat)
| CheckType (n j : nat)
| Lock (n : nat)
| Locked (n : nat)
| Unlock (n : nat)
| Done (err : option string).

(** [t_height] is what [randomHeight] returns. *)
Record thread := MkThread {
  t_key : list Z;
  t_values : list Value;
  t_lifecycle : Z;
  t_height : nat;
  t_prev : list (option nat);
  t_next : list (option nat);
  t_x : nat;
  t_pc : pc
}.

Definition start (k : list Z) (vs : list Value) (lifecycle : Z) (h : nat) : thread :=
  MkThread k vs lifecycle h [] [] 0 Start.

Definition goto (t : thread) (p : pc) : thread :=
  MkThread (t_key t) (t_values t) (t_lifecycle t) (t_height t) (t_prev t) (t_next t) (t_x t) p.

(** [prev[i], next[i] = p, n]. *)
Definition splice_at (t : thread) (i : nat) (p n : option nat) : outcome thread :=
  prev ← store (t_prev t) i p;
  next ← store (t_next t) i n;
  Ok (MkThread (t_key t) (t_values t) (t_lifecycle t) (t_height t) prev next (t_x t) (t_pc t)).

(** One round of [getSplices]. *)
Inductive splice_round :=
| Forward (n : nat)
| Between (n : option nat)
| Found (n : nat).

Definition getSplices_round (c : Cache) (k : list Z) (from level : nat) : outcome splice_round :=
  next ← GetNext c from level;
  match next with
  | None => Ok (Between None)
  | Some n =>
      nd ← index (nodes c) n;
      let comp := Compare (key nd) k in
      if comp <? 0 then Ok (Forward n)
      else if 0 <? comp then Ok (Between (Some n))
      else Ok (Found n)
  end.

Definition entry_of (c : Cache) (n : nat) : outcome Entry.Entry :=
  nd ← index (nodes c) n; match entry nd with Some e => Ok e | None => Panic end.

(** The mutexes held: the nodes whose entry is locked.  A thread at a mutex that is
    held does not move.  The values of an entry are only touched with its mutex
    held, and a thread without it reads only the type, which it finds as it was before
    or after: so the two assignments of [Add] are one step. *)
Definition mutexes : Type := gset nat.

Definition step (lk : mutexes) (c : Cache) (t : thread) : outcome (mutexes * Cache * thread) :=
  match t_pc t with
  | Start =>
      Ok (lk, add_size c (Z.of_nat (length (t_key t)) + SizeOf (t_values t)), goto t LoadHeight)
  | LoadHeight =>
      let oldHeight := c_height c in
      h ← head c;
      let none := replicate (S maxHeight) None in
      prev ← store none oldHeight (Some h);
      let t' := MkThread (t_key t) (t_values t) (t_lifecycle t) (t_height t) prev none (t_x t) (t_pc t) in
      Ok (lk, c, goto t' (match oldHeight with O => LoadHeight2 | S i => Down i h end))
  | Down i from =>
      r ← getSplices_round c (t_key t) from i;
      match r with
      | Forward n => Ok (lk, c, goto t (Down i n))
      | Between n =>
          t' ← splice_at t i (Some from) n;
          Ok (lk, c, goto t' (match i with O => LoadHeight2 | S i' => Down i' from end))
      | Found n =>
          t' ← splice_at t i (Some n) (Some n);
          Ok (lk, c, goto t' (AddTo n))
      end
  | LoadHeight2 => Ok (lk, c, goto t (RaiseHeight (c_height c)))
  | RaiseHeight oldHeight =>
      if bool_decide (oldHeight < t_height t)%nat then
        if bool_decide (c_height c = oldHeight)
        then Ok (lk, MkCache (nodes c) (t_height t) (ref c) (size c) (closed c), goto t Alloc)
        else Ok (lk, c, goto t ReloadHeight)
      else Ok (lk, c, goto t Alloc)
  | ReloadHeight => Ok (lk, c, goto t (RaiseHeight (c_height c)))
  | Alloc =>
      let x := newNode (t_key t) (t_values t) (t_height t) (t_lifecycle t) in
      Ok (lk, MkCache (nodes c ++ [x]) (c_height c) (ref c) (size c) (closed c),
          MkThread (t_key t) (t_values t) (t_lifecycle t) (t_height t) (t_prev t) (t_next t)
            (length (nodes c)) (Link 0))
  | Link i =>
      if bool_decide (i < t_height t)%nat then
        p ← index (t_prev t) i;
        match p with
        | None => h ← head c; Ok (lk, c, goto t (Search i h false))
        | Some _ => Ok (lk, c, goto t (Cas i))
        end
      else Ok (lk, c, goto t (Done None))
  | Search i from retry =>
      r ← getSplices_round c (t_key t) from i;
      match r with
      | Forward n => Ok (lk, c, goto t (Search i n retry))
      | Between n => t' ← splice_at t i (Some from) n; Ok (lk, c, goto t' (Cas i))
      | Found n =>
          t' ← splice_at t i (Some n) (Some n);
          Ok (lk, c, goto t' (if retry : bool then AddTo n else Cas i))
      end
  | Cas i =>
      p ← index (t_prev t) i;
      n ← index (t_next t) i;
      c ← set_tower c (t_x t) i n;
      match p with
      | None => Panic
      | Some p =>
          '(c, ok) ← setNexNode c p i n (Some (t_x t));
          Ok (lk, c, goto t (if ok : bool then Link (S i) else Search i p true))
      end
  | AddTo n =>
      match t_values t with
      | [] => Ok (lk, c, goto t (Done None))
      | _ => e ← entry_of c n; Ok (lk, c, goto t (if Entry.vType e =? 0 then Lock n else CheckType n 0))
      end
  | CheckType n j =>
      match t_values t !! j with
      | None => Ok (lk, c, goto t (Lock n))
      | Some v =>
          e ← entry_of c n;
          Ok (lk, c, goto t (if Entry.vType e =? Entry.valueType v then CheckType n (S j)
                         else Done (Some Entry.conflict)))
      end
  | Lock n =>
      if decide (n ∈ lk) then Ok (lk, c, t) else Ok ({[n]} ∪ lk, c, goto t (Locked n))
  | Locked n =>
      e ← entry_of c n;
      e' ← Entry.Add_locked e (t_values t);
      c ← set_entry c n e';
      Ok (lk, c, goto t (Unlock n))
  | Unlock n =>
      if decide (n ∈ lk) then Ok (lk ∖ {[n]}, c, goto t (Done None)) else Panic
  | Done _ => Ok (lk, c, t)
  end.

(** A schedule of the threads [ts]: the numbers of the threads that step. *)
Fixpoint run (sched : list nat) (lk : mutexes) (c : Cache) (ts : list thread)
  : outcome (mutexes * Cache * list thread) :=
  match sched with
  | [] => Ok (lk, c, ts)
  | k :: r => t ← index ts k; '(lk, c, t) ← step lk c t; run r lk c (<[k := t]> ts)
  end.

(** [Put] running alone; [fuel] steps at most. *)
Fixpoint run_alone (fuel : nat) (lk : mutexes) (c : Cache) (t : thread)
  : outcome (Cache * option string) :=
  match fuel with
  | O => Panic
  | S fuel' =>
      match t_pc t with
      | Done err => Ok (c, err)
      | _ => '(lk, c, t) ← step lk c t; run_alone fuel' lk c t
      end
  end.

Definition put_fuel (c : Cache) (vs : list Value) : nat := 60 * length (nodes c) + length vs + 505.
Definition Put (c : Cache) (k : list Z) (vs : list Value) (lifecycle : Z) (h : nat)
  : outcome (Cache * option string) :=
  run_alone (put_fuel c vs) ∅ c (start k vs lifecycle h).

(** [randomHeight], [draws] being what [rand.Uint32] returns next. *)
Fixpoint randomHeight_loop (fuel : nat) (draws : nat -> Z) (h : nat) : nat :=
  match fuel with
  | O => h
  | S fuel' =>
      if bool_decide (h < maxHeight)%nat && (Z.land (draws h) mask =? 0)
      then randomHeight_loop fuel' draws (S h) else h
  end.
Definition randomHeight (draws : nat -> Z) : nat := randomHeight_loop maxHeight draws 1.

(** ** Reading *)

(** The leftmost node whose key is at or after [target]. *)
Fixpoint seek (fuel : nat) (c : Cache) (target : list Z) (curr level : nat) : outcome (option nat) :=
  match fuel with
  | O => Panic
  | S fuel' =>
      next ← GetNext c curr level;
      let down := match level with O => Ok next | S l => seek fuel' c target curr l end in
      match next with
      | None => down
      | Some n =>
          nd ← index (nodes c) n;
          if Compare (key nd) target <? 0 then seek fuel' c target n level else down
      end
  end.
Definition read_fuel (c : Cache) : nat := length (nodes c) + maxHeight + 1.
Definition findGreaterOrEqual (c : Cache) (target : list Z) : outcome (option nat) :=
  h ← head c; seek (read_fuel c) c target h (c_height c - 1).

(** [findLessThan] and [findLast] stop at [curr], nil for the head. *)
Fixpoint seek_last (fuel : nat) (c : Cache) (below : list Z -> bool) (curr level : nat) : outcome (option nat) :=
  match fuel with
  | O => Panic
  | S fuel' =>
      next ← GetNext c curr level;
      let down := match level with
        | O => Ok (if bool_decide (curr = 0%nat) then None else Some curr)
        | S l => seek_last fuel' c below curr l
        end in
      match next with
      | None => down
      | Some n => nd ← index (nodes c) n; if below (key nd) then seek_last fuel' c below n level else down
      end
  end.
Definition findLessThan (c : Cache) (target : list Z) : outcome (option nat) :=
  h ← head c; seek_last (read_fuel c) c (fun k => Compare k target <? 0) h (c_height c - 1).
Definition findLast (c : Cache) : outcome (option nat) :=
  h ← head c; seek_last (read_fuel c) c (fun _ => true) h (c_height c - 1).

(** [Get]: the number of the node whose entry is returned. *)
Definition Get (c : Cache) (k : list Z) : outcome (option nat) := findGreaterOrEqual c k.

Definition DecreaseSize (c : Cache) (delta : Z) : Cache := add_size c (- delta).

Definition Delete (c : Cache) (k : list Z) : outcome Cache :=
  n ← findGreaterOrEqual c k;
  match n with
  | None => Ok c
  | Some n =>
      nd ← index (nodes c) n;
      match entry nd with
      | None => Panic
      | Some e => set_entry (DecreaseSize c (u32 (Entry.Size e))) n (Entry.Clean e)
      end
  end.

Definition Empty (c : Cache) : outcome bool := l ← findLast c; Ok (bool_decide (l = None)).

Definition Ref (c : Cache) : Cache := MkCache (nodes c) (c_height c) (ref c + 1) (size c) (closed c).

(** Whether the handler ran, too. *)
Definition Deref (c : Cache) : Cache * bool :=
  let n := ref c - 1 in
  if 0 <? n then (MkCache (nodes c) (c_height c) n (size c) (closed c), false)
  else (MkCache (nodes c) (c_height c) n (size c) true, true).

Fixpoint walk (fuel : nat) (c : Cache) (next : option nat) : outcome (list nat) :=
  match fuel, next with
  | _, None => Ok []
  | O, Some _ => Panic
  | S fuel', Some n => next ← GetNext c n 0; r ← walk fuel' c next; Ok (n :: r)
  end.
Definition GetAllNodes (c : Cache) : outcome (list nat) :=
  h ← head c; next ← GetNext c h 0; walk (length (nodes c)) c next.

Definition Count (c : Cache) : outcome nat := ns ← GetAllNodes c; Ok (length ns).

(** [Deduplicate] of every entry, in the order of the list. *)
Fixpoint dedup_all (c : Cache) (ns : list nat) : outcome Cache :=
  match ns with
  | [] => Ok c
  | n :: r =>
      nd ← index (nodes c) n;
      match entry nd with
      | None => Panic
      | Some e => e' ← Entry.Deduplicate e; c ← set_entry c n e'; dedup_all c r
      end
  end.
Definition Deduplicate (c : Cache) : outcome Cache := ns ← GetAllNodes c; dedup_all c ns.

(** [Split]: the node ranges of the [n] readable parts; each takes a reference. *)
Fixpoint split_loop (left i : nat) (n total : nat) (ns : list nat) (c : Cache)
  : outcome (Cache * list (list nat)) :=
  match left with
  | O => Ok (c, [])
  | S left' =>
      part ← subslice ns (i * total / n) ((i + 1) * total / n);
      '(c, r) ← split_loop left' (S i) n total ns (Ref c);
      Ok (c, part :: r)
  end.
Definition Split (c : Cache) (n : nat) : outcome (Cache * list (list nat)) :=
  ns ← GetAllNodes c; split_loop n 0 n (length ns) ns c.

End Cache.
