(* ===== verification/CacheLaws.v ===== *)
(** The laws of [Cache]: the shape of the skip list, kept by every step of every
    interleaving of [Put]s; the map from keys to entries it stands for, and the
    one step of a [Put] that changes it; what the reading operations return. *)
From stdpp Require Import gmap.
From S2P Require Import Prelude Bytes Values Entry Cache.
Import Values Cache.

Module CacheLaws.

(** ** The shape of the list *)

Definition tower_at (ns : list Node) (id level : nat) : option (option nat) :=
  n ← ns !! id; tower n !! level.
Definition keyof (ns : list Node) (id : nat) : list Z := default [] (key <$> ns !! id).
Definition entry_at (ns : list Node) (id : nat) : option Entry.Entry := n ← ns !! id; entry n.

(** [ids] are the nodes after [from] at [level], to the end. *)
Definition chain (ns : list Node) (level from : nat) (ids : list nat) : Prop :=
  forall k id, (from :: ids) !! k = Some id -> tower_at ns id level = Some (ids !! k).

Definition key_sorted (ns : list Node) (ids : list nat) : Prop :=
  StronglySorted (fun a b => before (keyof ns a) (keyof ns b)) ids.

(** [L level] lists the nodes of a level. *)
Record heap_ok (ns : list Node) (L : nat -> list nat) : Prop := {
  ok_head : is_Some (ns !! 0%nat);
  ok_towers : forall id n, ns !! id = Some n -> length (tower n) = maxHeight;
  ok_chain : forall l, (l < maxHeight)%nat -> chain ns l 0 (L l);
  ok_sorted : forall l, (l < maxHeight)%nat -> key_sorted ns (L l);
  ok_ids : forall l id, id ∈ L l -> (0 < id < length ns)%nat;
  ok_sub : forall l, (S l < maxHeight)%nat -> L (S l) ⊆ L l;
  ok_entries : forall id, id ∈ L 0%nat -> is_Some (entry_at ns id)
}.

(** [ns'] is [ns] with towers and entries changed and nodes added. *)
Record extends (ns ns' : list Node) : Prop := {
  ext_length : (length ns <= length ns')%nat;
  ext_key : forall id, (id < length ns)%nat -> keyof ns' id = keyof ns id;
  ext_entry : forall id, (id < length ns)%nat -> is_Some (entry_at ns id) -> is_Some (entry_at ns' id)
}.

#[global] Instance extends_refl : Reflexive extends.
Proof. intros ns. by split. Qed.
#[global] Instance extends_trans : Transitive extends.
Proof.
  intros a b c [H1 H2 H3] [H4 H5 H6]. split; [lia|..]; intros id Hid.
  - rewrite H5 by lia. auto.
  - intros. apply H6; [lia|]. auto.
Qed.

Lemma key_sorted_nodup ns ids : key_sorted ns ids -> NoDup ids.
Proof.
  induction 1 as [|x ids _ IH Hx]; constructor; [|done].
  intros Hin. rewrite Forall_forall in Hx. by apply Hx, before_irrefl in Hin.
Qed.

Lemma key_sorted_lt ns ids i j a b :
  key_sorted ns ids -> (i < j)%nat -> ids !! i = Some a -> ids !! j = Some b ->
  before (keyof ns a) (keyof ns b).
Proof.
  intros Hs Hij Ha Hb. apply (StronglySorted_app_1_elem_of (fun a b => before (keyof ns a) (keyof ns b))
    (take j ids) (drop j ids) a b).
  - by rewrite take_drop.
  - apply list_elem_of_lookup. exists i. by rewrite lookup_take_lt by done.
  - apply list_elem_of_lookup. exists 0%nat. by rewrite lookup_drop, Nat.add_0_r.
Qed.

Lemma key_sorted_unique ns ids a b :
  key_sorted ns ids -> a ∈ ids -> b ∈ ids -> keyof ns a = keyof ns b -> a = b.
Proof.
  intros Hs [i Hi]%list_elem_of_lookup [j Hj]%list_elem_of_lookup E.
  destruct (Nat.lt_total i j) as [Hl|[->|Hl]]; [|congruence|].
  - pose proof (key_sorted_lt _ _ _ _ _ _ Hs Hl Hi Hj) as H. rewrite E in H. by apply before_irrefl in H.
  - pose proof (key_sorted_lt _ _ _ _ _ _ Hs Hl Hj Hi) as H. rewrite E in H. by apply before_irrefl in H.
Qed.

(** ** Changes of the heap *)

Lemma extends_alter ns id n n' :
  ns !! id = Some n -> key n' = key n -> (is_Some (entry n) -> is_Some (entry n')) ->
  extends ns (<[id := n']> ns).
Proof.
  intros Hn Hk He. pose proof (lookup_lt_Some _ _ _ Hn) as Hlt. split; [by rewrite length_insert|..].
  - intros j Hj. unfold keyof. destruct (decide (j = id)) as [->|Hne].
    + rewrite list_lookup_insert_eq, Hn by done. cbn. by rewrite Hk.
    + by rewrite list_lookup_insert_ne by done.
  - intros j Hj. unfold entry_at. destruct (decide (j = id)) as [->|Hne].
    + rewrite list_lookup_insert_eq, Hn by done. cbn. auto.
    + by rewrite list_lookup_insert_ne by done.
Qed.

Lemma extends_app ns n : extends ns (ns ++ [n]).
Proof.
  split; [rewrite length_app; lia|..]; intros id Hid; unfold keyof, entry_at;
    by rewrite lookup_app_l by done.
Qed.

Lemma key_sorted_extends ns ns' ids :
  extends ns ns' -> (forall id, id ∈ ids -> (id < length ns)%nat) ->
  key_sorted ns ids -> key_sorted ns' ids.
Proof.
  intros Hx Hids Hs. induction Hs as [|x ids Hs IH Hx0]; [constructor|].
  constructor; [apply IH; intros; apply Hids; by right|].
  rewrite Forall_forall in *. intros y Hy.
  rewrite !(ext_key ns ns') by (done || (apply Hids; (by left) || by right)). auto.
Qed.

(** The invariant after a change of the heap that keeps every level. *)
Lemma heap_ok_frame ns ns' L :
  heap_ok ns L -> extends ns ns' ->
  (forall id n, ns' !! id = Some n -> length (tower n) = maxHeight) ->
  (forall l id, (l < maxHeight)%nat -> id = 0%nat \/ id ∈ L l -> tower_at ns' id l = tower_at ns id l) ->
  heap_ok ns' L.
Proof.
  intros [H1 H2 H3 H4 H5 H6 H7] Hx Ht Hf. split.
  - apply lookup_lt_is_Some. apply lookup_lt_is_Some in H1. pose proof (ext_length _ _ Hx). lia.
  - done.
  - intros l Hl k id Hk. rewrite Hf; [by apply H3|done|].
    apply list_elem_of_lookup_2, elem_of_cons in Hk. naive_solver.
  - intros l Hl. apply (key_sorted_extends ns); [done| |auto]. intros id Hid. by apply (H5 l).
  - intros l id Hid%H5. pose proof (ext_length _ _ Hx). lia.
  - done.
  - intros id Hid. apply (ext_entry ns); [done| |auto]. by apply (H5 0%nat).
Qed.

Lemma tower_at_insert_ne ns id n j l :
  j <> id -> tower_at (<[id := n]> ns) j l = tower_at ns j l.
Proof. intros Hne. unfold tower_at. by rewrite list_lookup_insert_ne. Qed.

Lemma tower_at_insert_eq ns id n l :
  (id < length ns)%nat -> tower_at (<[id := n]> ns) id l = tower n !! l.
Proof. intros Hlt. unfold tower_at. by rewrite list_lookup_insert_eq. Qed.

(** Writing one cell of a tower. *)
Definition upd (ns : list Node) (id level : nat) (v : option nat) : list Node :=
  match ns !! id with
  | Some n => <[id := MkNode (key n) (lifeCycle n) (entry n) (height n) (<[level := v]> (tower n))]> ns
  | None => ns
  end.

Lemma upd_length ns id l v : length (upd ns id l v) = length ns.
Proof. unfold upd. destruct (ns !! id); [by rewrite length_insert|done]. Qed.

Lemma upd_extends ns id l v : extends ns (upd ns id l v).
Proof. unfold upd. destruct (ns !! id) as [n|] eqn:E; [by apply (extends_alter _ _ n)|done]. Qed.

Lemma upd_tower_ne ns id l v j m :
  j <> id \/ m <> l -> tower_at (upd ns id l v) j m = tower_at ns j m.
Proof.
  intros H. unfold upd, tower_at. destruct (ns !! id) as [n|] eqn:E; [|done].
  destruct (decide (j = id)) as [->|Hne]; [|by rewrite list_lookup_insert_ne].
  rewrite list_lookup_insert_eq by (by eapply lookup_lt_Some). rewrite E. cbn.
  rewrite list_lookup_insert_ne; [done|]. naive_solver.
Qed.

Lemma upd_tower_eq ns id l v w :
  tower_at ns id l = Some w -> tower_at (upd ns id l v) id l = Some v.
Proof.
  unfold upd, tower_at. destruct (ns !! id) as [n|] eqn:E; [|done]. cbn. intros Hw.
  rewrite list_lookup_insert_eq by (by eapply lookup_lt_Some). cbn.
  apply list_lookup_insert_eq. by eapply lookup_lt_Some.
Qed.

Lemma upd_towers ns id l v :
  (forall j n, ns !! j = Some n -> length (tower n) = maxHeight) ->
  forall j n, upd ns id l v !! j = Some n -> length (tower n) = maxHeight.
Proof.
  intros H j n. unfold upd. destruct (ns !! id) as [m|] eqn:E; [|apply H].
  destruct (decide (j = id)) as [->|Hne]; [|rewrite list_lookup_insert_ne by done; apply H].
  rewrite list_lookup_insert_eq by (by eapply lookup_lt_Some). intros [= <-]. cbn.
  rewrite length_insert. by apply (H id).
Qed.

(** Writing to a node that is not on the level changes nothing. *)
Lemma heap_ok_private ns L x i v :
  heap_ok ns L -> x <> 0%nat -> x ∉ L i -> heap_ok (upd ns x i v) L.
Proof.
  intros H Hx0 Hx. apply (heap_ok_frame ns); [done|apply upd_extends|apply upd_towers, H|].
  intros l id Hl Hid. apply upd_tower_ne.
  destruct (decide (l = i)) as [->|]; [left; naive_solver|by right].
Qed.

Lemma lookup_S {A} (x : A) l j : (x :: l) !! S j = l !! j.
Proof. done. Qed.

(** Linking a node between two neighbours of a level. *)
Definition link (L : nat -> list nat) (i k x : nat) : nat -> list nat :=
  fun l => if decide (l = i) then take k (L i) ++ x :: drop k (L i) else L l.

Lemma elem_of_link L i k x l id : id ∈ link L i k x l <-> (l = i /\ id = x) \/ id ∈ L l.
Proof.
  unfold link. case_decide as E; [subst l|naive_solver].
  assert (id ∈ L i <-> id ∈ take k (L i) \/ id ∈ drop k (L i)) as ->.
  { by rewrite <- elem_of_app, take_drop. }
  rewrite elem_of_app, elem_of_cons. naive_solver.
Qed.

Lemma chain_link ns ns' i p k x nx ids :
  chain ns i 0 ids -> (0%nat :: ids) !! k = Some p -> x ∉ 0%nat :: ids -> NoDup (0%nat :: ids) ->
  tower_at ns' p i = Some (Some x) -> tower_at ns' x i = Some nx -> nx = ids !! k ->
  (forall id, id <> p -> id <> x -> tower_at ns' id i = tower_at ns id i) ->
  chain ns' i 0 (take k ids ++ x :: drop k ids).
Proof.
  intros Hc Hk Hx Hnd Hp Hxt -> Hf j id Hj.
  assert (k <= length ids)%nat as Hkl by (apply lookup_lt_Some in Hk; cbn in Hk; lia).
  assert (length (take k ids) = k) as Htk by (rewrite length_take; lia).
  destruct (decide (j <= k)%nat) as [Hle|Hgt].
  - assert ((0%nat :: ids) !! j = Some id) as Hj'.
    { destruct j as [|j]; [done|]. rewrite lookup_S in Hj |- *. rewrite lookup_app_l in Hj by lia.
      by rewrite lookup_take_lt in Hj by lia. }
    destruct (decide (j = k)) as [->|Hne].
    + assert (id = p) as -> by congruence. rewrite Hp. f_equal.
      rewrite lookup_app_r by lia. by rewrite Htk, Nat.sub_diag.
    + rewrite Hf.
      * rewrite (Hc j id Hj'), lookup_app_l by lia. by rewrite lookup_take_lt by lia.
      * intros ->. apply Hne. by apply (NoDup_lookup _ _ _ p Hnd).
      * intros ->. apply Hx. by apply list_elem_of_lookup_2 in Hj'.
  - destruct j as [|j]; [lia|]. rewrite lookup_S in Hj. rewrite lookup_app_r in Hj by lia.
    rewrite lookup_app_r by lia. rewrite Htk in *.
    destruct (decide (j = k)) as [->|Hne].
    + rewrite Nat.sub_diag in Hj. injection Hj as <-. rewrite Hxt. f_equal.
      replace (S k - k)%nat with 1%nat by lia. rewrite lookup_S. by rewrite lookup_drop, Nat.add_0_r.
    + replace (j - k)%nat with (S (j - k - 1)) in Hj by lia. rewrite lookup_S, lookup_drop in Hj.
      replace (k + (j - k - 1))%nat with (j - 1)%nat in Hj by lia.
      assert ((0%nat :: ids) !! j = Some id) as Hj' by (destruct j as [|j]; [lia|]; rewrite lookup_S; replace (S j - 1)%nat with j in Hj by lia; done).
      rewrite Hf.
      * rewrite (Hc j id Hj'). f_equal. replace (S j - k)%nat with (S (j - k)) by lia.
        rewrite lookup_S, lookup_drop. f_equal. lia.
      * intros ->. pose proof (NoDup_lookup _ _ _ p Hnd Hk Hj'). lia.
      * intros ->. apply Hx. by apply list_elem_of_lookup_2 in Hj'.
Qed.

Lemma sorted_link ns k x ids :
  key_sorted ns ids ->
  (forall j id, (j < k)%nat -> ids !! j = Some id -> before (keyof ns id) (keyof ns x)) ->
  (forall id, ids !! k = Some id -> before (keyof ns x) (keyof ns id)) ->
  key_sorted ns (take k ids ++ x :: drop k ids).
Proof.
  intros Hs Hb Ha. pose proof Hs as Hs'. rewrite <- (take_drop k ids) in Hs'.
  assert (forall id, id ∈ drop k ids -> before (keyof ns x) (keyof ns id)) as Hd.
  { intros id [j Hj]%list_elem_of_lookup. rewrite lookup_drop in Hj.
    destruct (ids !! k) as [m|] eqn:Ek.
    - destruct j as [|j]; [rewrite Nat.add_0_r in Hj; apply Ha; congruence|].
      transitivity (keyof ns m); [by apply Ha|]. by apply (key_sorted_lt ns ids k (k + S j)); [..|lia| |].
    - apply lookup_ge_None in Ek. apply lookup_lt_Some in Hj. lia. }
  assert (forall id, id ∈ take k ids -> before (keyof ns id) (keyof ns x)) as Ht.
  { intros id [j Hj]%list_elem_of_lookup. apply lookup_take_Some in Hj as [Hj Hlt]. by apply (Hb j). }
  apply StronglySorted_app_2.
  - intros a b Hina [->|Hinb]%elem_of_cons; [auto|]. transitivity (keyof ns x); auto.
  - by apply StronglySorted_app_1_l in Hs'.
  - constructor; [by apply StronglySorted_app_1_r in Hs'|]. by apply Forall_forall.
Qed.

(** A place on a level where the key [kx] belongs: [p] is before it, [nx] is not. *)
Definition left_of (ns : list Node) (L : nat -> list nat) (kx : list Z) (i p : nat) : Prop :=
  p = 0%nat \/ p ∈ L i /\ before (keyof ns p) kx.
Definition right_of (ns : list Node) (kx : list Z) (nx : option nat) : Prop :=
  forall n, nx = Some n -> before kx (keyof ns n).

Lemma heap_ok_link ns L i k p x :
  heap_ok ns L -> (i < maxHeight)%nat -> (0%nat :: L i) !! k = Some p ->
  left_of ns L (keyof ns x) i p -> right_of ns (keyof ns x) (L i !! k) ->
  (0 < x < length ns)%nat -> x ∉ L i -> (forall j, i = S j -> x ∈ L j) -> is_Some (entry_at ns x) ->
  tower_at ns x i = Some (L i !! k) ->
  heap_ok (upd ns p i (Some x)) (link L i k x).
Proof.
  intros H Hi Hk Hl Hr Hx Hxi Hsub He Hxt.
  assert (NoDup (0%nat :: L i)) as Hnd.
  { constructor; [intros Hin; apply (ok_ids _ _ H) in Hin; lia|].
    by apply (key_sorted_nodup ns), (ok_sorted _ _ H). }
  assert (p <> x) as Hpx.
  { intros ->. destruct Hl as [->|[Hin _]]; [lia|done]. }
  assert (tower_at ns p i = Some (L i !! k)) as Hpt by (by apply (ok_chain _ _ H)).
  pose proof (upd_extends ns p i (Some x)) as Hex. split.
  - apply lookup_lt_is_Some. rewrite upd_length. apply lookup_lt_is_Some, H.
  - apply upd_towers, H.
  - intros l Hlt. unfold link. case_decide as E; [subst l|].
    + apply (chain_link ns _ i p k x (L i !! k)); try done; [by apply H|..].
      * rewrite not_elem_of_cons. split; [lia|done].
      * by apply (upd_tower_eq _ _ _ _ (L i !! k)).
      * rewrite upd_tower_ne by (left; congruence). done.
      * intros. apply upd_tower_ne. by left.
    + intros j id Hj. rewrite upd_tower_ne by (by right). by apply H.
  - intros l Hlt. apply (key_sorted_extends ns); [done|..].
    { intros id [[_ ->]|Hin]%elem_of_link; [lia|]. by apply (ok_ids _ _ H l). }
    unfold link. case_decide as E; [subst l|by apply H].
    apply sorted_link; [by apply H| |done].
    intros j id Hj Hid. destruct k as [|k]; [lia|]. rewrite lookup_S in Hk.
    destruct Hl as [->|[_ Hl]]; [apply list_elem_of_lookup_2, (ok_ids _ _ H) in Hk; lia|].
    destruct (decide (j = k)) as [->|Hne]; [congruence|].
    transitivity (keyof ns p); [|done]. apply (key_sorted_lt ns (L i) j k); [by apply H|lia|done..].
  - intros l id Hin. rewrite upd_length. apply elem_of_link in Hin as [[_ ->]|Hin]; [done|].
    by apply (ok_ids _ _ H l).
  - intros l Hlt id [[E ->]|Hin]%elem_of_link; apply elem_of_link.
    + right. apply Hsub. by rewrite E.
    + right. by apply (ok_sub _ _ H l).
  - intros id [[E ->]|Hin]%elem_of_link; apply (ext_entry ns); try done; [lia| |by apply H].
    by apply (ok_ids _ _ H 0%nat).
Qed.

Lemma level_sub ns L i : heap_ok ns L -> (i < maxHeight)%nat -> L i ⊆ L 0%nat.
Proof.
  intros H Hi. induction i as [|i IH]; [done|].
  etransitivity; [by apply (ok_sub _ _ H)|]. apply IH. lia.
Qed.

(** ** What a cache stands for *)

(** The map of the nodes [ids]. *)
Definition view (ns : list Node) (ids : list nat) : gmap (list Z) Entry.Entry :=
  list_to_map (omap (fun id => e ← entry_at ns id; Some (keyof ns id, e)) ids).

Definition contents (c : Cache) : gmap (list Z) Entry.Entry :=
  match GetAllNodes c with Ok ids => view (nodes c) ids | _ => ∅ end.

(** [Put] on the map, with its error. *)
Definition put_spec (k : list Z) (vs : list Value) (m : gmap (list Z) Entry.Entry)
  : gmap (list Z) Entry.Entry * option string :=
  match m !! k with
  | None => match Entry.NewEntryValues vs with Ok e => (<[k := e]> m, None) | _ => (m, None) end
  | Some e =>
      match Entry.Add e vs with
      | Ok e' => (<[k := e']> m, None)
      | Err err => (m, Some err)
      | Panic => (m, None)
      end
  end.

Record cache_ok (c : Cache) (L : nat -> list nat) : Prop := {
  cache_heap : heap_ok (nodes c) L;
  cache_height : (1 <= c_height c <= maxHeight)%nat;
  cache_open : closed c = false
}.

Lemma view_lookup ns ids k e :
  key_sorted ns ids ->
  view ns ids !! k = Some e <-> exists id, id ∈ ids /\ keyof ns id = k /\ entry_at ns id = Some e.
Proof.
  intros Hs. unfold view. rewrite <- elem_of_list_to_map.
  - rewrite list_elem_of_omap. split.
    + intros (id & Hid & Hb). destruct (entry_at ns id) as [e'|] eqn:E; [|done].
      cbn in Hb. injection Hb as <- ->. eauto.
    + intros (id & Hid & <- & E). exists id. rewrite E. done.
  - induction Hs as [|x ids Hs IH Hx]; cbn; [constructor|].
    destruct (entry_at ns x) as [e'|]; cbn; [|done]. constructor; [|done].
    rewrite list_elem_of_fmap. intros ([k' e''] & Ek & Hin). cbn in Ek.
    apply list_elem_of_omap in Hin as (id & Hid & Hb). rewrite Forall_forall in Hx.
    destruct (entry_at ns id); [|done]. cbn in Hb. injection Hb as Hb _.
    apply (before_irrefl (keyof ns x)). rewrite Ek at 2. rewrite <- Hb. by apply Hx.
Qed.

Lemma view_None ns ids k :
  key_sorted ns ids -> (forall id, id ∈ ids -> is_Some (entry_at ns id)) ->
  view ns ids !! k = None <-> forall id, id ∈ ids -> keyof ns id <> k.
Proof.
  intros Hs He. split.
  - intros Hn id Hid Hk. destruct (He id Hid) as [e E].
    assert (view ns ids !! k = Some e) by (apply view_lookup; eauto). congruence.
  - intros Hn. destruct (view ns ids !! k) as [e|] eqn:E; [|done].
    apply view_lookup in E as (id & Hid & Hk & _); [|done]. by apply Hn in Hid.
Qed.

Lemma GetNext_tower c id l v : tower_at (nodes c) id l = Some v -> GetNext c id l = Ok v.
Proof.
  unfold tower_at, GetNext, index. destruct (nodes c !! id) as [n|]; [|done]. cbn.
  by intros ->.
Qed.

Lemma tower_at_Some ns L id l :
  heap_ok ns L -> (id < length ns)%nat -> (l < maxHeight)%nat -> is_Some (tower_at ns id l).
Proof.
  intros H Hid Hl. apply lookup_lt_is_Some in Hid as [n Hn]. unfold tower_at. rewrite Hn. cbn.
  apply lookup_lt_is_Some. by rewrite (ok_towers _ _ H id n).
Qed.

Lemma walk_chain c ids : forall fuel from,
  chain (nodes c) 0 from ids -> (length ids <= fuel)%nat ->
  (next ← GetNext c from 0; walk fuel c next) = Ok ids.
Proof.
  induction ids as [|x ids IH]; intros fuel from Hc Hf.
  - rewrite (GetNext_tower c from 0 None) by (by apply (Hc 0%nat)). by destruct fuel.
  - rewrite (GetNext_tower c from 0 (Some x)) by (by apply (Hc 0%nat)).
    destruct fuel as [|fuel]; [cbn in Hf; lia|]. cbn [mbind outcome_bind walk].
    assert (chain (nodes c) 0 x ids) as Hx.
    { intros k id Hk. apply (Hc (S k)). by rewrite lookup_S. }
    pose proof (IH fuel x Hx ltac:(cbn in Hf; lia)) as Hw.
    destruct (GetNext c x 0) as [nx|err|]; cbn [mbind outcome_bind] in *; [|done..].
    by rewrite Hw.
Qed.

Lemma level_length ns L l : heap_ok ns L -> (l < maxHeight)%nat -> (S (length (L l)) <= length ns)%nat.
Proof.
  intros H Hl. assert (NoDup (0%nat :: L l)) as Hnd.
  { constructor; [intros Hin; apply (ok_ids _ _ H) in Hin; lia|].
    by apply (key_sorted_nodup ns), (ok_sorted _ _ H). }
  change (length (0%nat :: L l) <= length ns)%nat. rewrite <- (length_seq (length ns) 0).
  apply submseteq_length, NoDup_submseteq; [done|]. intros id Hid. apply elem_of_seq.
  apply elem_of_cons in Hid as [->|Hid]; [|apply (ok_ids _ _ H) in Hid; lia].
  pose proof (lookup_lt_is_Some_1 _ _ (ok_head _ _ H)). lia.
Qed.

Lemma GetAllNodes_ok c L : cache_ok c L -> GetAllNodes c = Ok (L 0%nat).
Proof.
  intros [H Hh Hc]. unfold GetAllNodes, head. rewrite Hc. cbn [mbind outcome_bind].
  apply walk_chain; [apply H; unfold maxHeight; lia|].
  pose proof (level_length _ _ 0 H). unfold maxHeight in *. lia.
Qed.

Lemma contents_view c L : cache_ok c L -> contents c = view (nodes c) (L 0%nat).
Proof. intros H. unfold contents. by rewrite (GetAllNodes_ok c L). Qed.

Lemma level0 : (0 < maxHeight)%nat.
Proof. unfold maxHeight. lia. Qed.
#[export] Hint Resolve level0 : core.

Lemma contents_lookup c L k e :
  cache_ok c L ->
  contents c !! k = Some e <->
  exists id, id ∈ L 0%nat /\ keyof (nodes c) id = k /\ entry_at (nodes c) id = Some e.
Proof. intros H. rewrite (contents_view c L H). apply view_lookup. by apply (cache_heap _ _ H). Qed.

Lemma contents_None c L k :
  cache_ok c L -> contents c !! k = None <-> forall id, id ∈ L 0%nat -> keyof (nodes c) id <> k.
Proof.
  intros H. rewrite (contents_view c L H). apply view_None; apply (cache_heap _ _ H); auto.
Qed.

Lemma upd_keyof ns id l v j : keyof (upd ns id l v) j = keyof ns j.
Proof.
  unfold upd, keyof. destruct (ns !! id) as [n|] eqn:E; [|done].
  destruct (decide (j = id)) as [->|Hne]; [|by rewrite list_lookup_insert_ne].
  rewrite list_lookup_insert_eq by (by eapply lookup_lt_Some). by rewrite E.
Qed.

Lemma upd_entry ns id l v j : entry_at (upd ns id l v) j = entry_at ns j.
Proof.
  unfold upd, entry_at. destruct (ns !! id) as [n|] eqn:E; [|done].
  destruct (decide (j = id)) as [->|Hne]; [|by rewrite list_lookup_insert_ne].
  rewrite list_lookup_insert_eq by (by eapply lookup_lt_Some). by rewrite E.
Qed.

Lemma view_ext ns ns' ids :
  (forall id, id ∈ ids -> keyof ns' id = keyof ns id /\ entry_at ns' id = entry_at ns id) ->
  view ns' ids = view ns ids.
Proof.
  intros H. unfold view. f_equal. induction ids as [|x ids IH]; [done|]. cbn.
  destruct (H x) as [-> ->]; [by left|]. rewrite IH; [done|]. intros; apply H; by right.
Qed.

Lemma contents_ext c c' L L' :
  cache_ok c L -> cache_ok c' L' -> L' 0%nat = L 0%nat ->
  (forall id, id ∈ L 0%nat -> keyof (nodes c') id = keyof (nodes c) id /\
    entry_at (nodes c') id = entry_at (nodes c) id) ->
  contents c' = contents c.
Proof.
  intros H H' E He. rewrite (contents_view c L H), (contents_view c' L' H'), E. by apply view_ext.
Qed.

Lemma contents_link c c' L k x e :
  cache_ok c L -> cache_ok c' (link L 0 k x) ->
  (forall id, keyof (nodes c') id = keyof (nodes c) id /\ entry_at (nodes c') id = entry_at (nodes c) id) ->
  x ∉ L 0%nat -> entry_at (nodes c) x = Some e ->
  contents c' = <[keyof (nodes c) x := e]> (contents c) /\ contents c !! keyof (nodes c) x = None.
Proof.
  intros H H' Hf Hx He.
  assert (forall id, id ∈ L 0%nat -> keyof (nodes c) id <> keyof (nodes c) x) as Hno.
  { intros id Hid E. assert (id = x) as ->; [|done].
    apply (key_sorted_unique (nodes c') (link L 0 k x 0)).
    - by apply (cache_heap _ _ H').
    - apply elem_of_link. by right.
    - apply elem_of_link. by left.
    - destruct (Hf id) as [-> _], (Hf x) as [-> _]. done. }
  split; [|by apply (contents_None c L)].
  apply map_eq. intros kx. apply option_eq. intros v.
  rewrite (contents_lookup c' _ kx v H'). destruct (decide (kx = keyof (nodes c) x)) as [->|Hne].
  - rewrite lookup_insert_eq. split.
    + intros (id & Hid & Hk & Hv). destruct (Hf id) as [Hk1 Hv1]. rewrite Hk1 in Hk. rewrite Hv1 in Hv.
      apply elem_of_link in Hid as [[_ ->]|Hid]; [congruence|by apply Hno in Hid].
    + intros [= <-]. exists x. destruct (Hf x) as [-> ->]. split; [|done]. apply elem_of_link. by left.
  - rewrite lookup_insert_ne by done. rewrite (contents_lookup c L kx v H). split.
    + intros (id & Hid & Hk & Hv). destruct (Hf id) as [Hk1 Hv1]. rewrite Hk1 in Hk. rewrite Hv1 in Hv.
      apply elem_of_link in Hid as [[_ ->]|Hid]; [congruence|eauto].
    + intros (id & Hid & Hk & Hv). exists id. destruct (Hf id) as [-> ->]. split; [|done].
      apply elem_of_link. by right.
Qed.

Lemma set_entry_ok c L n e :
  cache_ok c L -> n ∈ L 0%nat ->
  exists c', set_entry c n e = Ok c' /\ cache_ok c' L /\ extends (nodes c) (nodes c') /\
    c_height c' = c_height c /\ size c' = size c /\
    contents c' = <[keyof (nodes c) n := e]> (contents c) /\
    (forall id, id <> n -> entry_at (nodes c') id = entry_at (nodes c) id).
Proof.
  intros H Hn. pose proof (ok_ids _ _ (cache_heap _ _ H) _ _ Hn) as Hlt.
  destruct (lookup_lt_is_Some_2 (nodes c) n ltac:(lia)) as [nd Hnd].
  unfold set_entry. rewrite (index_lookup _ _ nd) by done. cbn [mbind outcome_bind].
  eexists. split; [reflexivity|].
  set (ns' := <[n := _]> (nodes c)).
  assert (extends (nodes c) ns') as Hx by (apply (extends_alter _ _ nd); cbn; eauto).
  assert (heap_ok ns' L) as Hh.
  { apply (heap_ok_frame (nodes c)); [apply H|done|..].
    - intros j m. unfold ns'. destruct (decide (j = n)) as [->|Hne].
      + rewrite list_lookup_insert_eq by lia. intros [= <-]. cbn. by apply (ok_towers _ _ (cache_heap _ _ H) n).
      + rewrite list_lookup_insert_ne by done. apply (ok_towers _ _ (cache_heap _ _ H)).
    - intros l j Hl Hj. unfold tower_at, ns'. destruct (decide (j = n)) as [->|Hne].
      + by rewrite list_lookup_insert_eq, Hnd by lia.
      + by rewrite list_lookup_insert_ne. }
  assert (cache_ok (MkCache ns' (c_height c) (ref c) (size c) (closed c)) L) as H'
    by (split; [done|apply H|apply H]).
  split; [done|]. split; [done|]. split; [done|]. split; [done|].
  assert (forall id, keyof ns' id = keyof (nodes c) id) as Hk.
  { intros id. unfold keyof, ns'. destruct (decide (id = n)) as [->|Hne].
    - by rewrite list_lookup_insert_eq, Hnd by lia.
    - by rewrite list_lookup_insert_ne. }
  assert (entry_at ns' n = Some e) as He by (unfold entry_at, ns'; by rewrite list_lookup_insert_eq by lia).
  assert (forall id, id <> n -> entry_at ns' id = entry_at (nodes c) id) as Hne.
  { intros id Hid. unfold entry_at, ns'. by rewrite list_lookup_insert_ne. }
  split; [|done]. apply map_eq. intros kx. apply option_eq. intros v. rewrite (contents_lookup _ L kx v H'). cbn [nodes].
  destruct (decide (kx = keyof (nodes c) n)) as [->|Hkx].
  - rewrite lookup_insert_eq. split.
    + intros (id & Hid & Hkid & Hv). rewrite Hk in Hkid.
      assert (id = n) as -> by (apply (key_sorted_unique (nodes c) (L 0%nat)); try done; by apply H).
      congruence.
    + intros [= <-]. exists n. rewrite Hk. done.
  - rewrite lookup_insert_ne by done. rewrite (contents_lookup c L kx v H). setoid_rewrite Hk. split.
    + intros (id & Hid & Hkid & Hv). exists id. rewrite Hne in Hv; [done|]. congruence.
    + intros (id & Hid & Hkid & Hv). exists id. rewrite Hne; [done|]. congruence.
Qed.

End CacheLaws.
