(* ===== verification/CachePut.v ===== *)
(** [Put] of [Cache], step by step: the invariant of a thread, what one step does to
    the cache and to the other threads, interleavings of several threads, and a
    single thread running to its end. *)
From stdpp Require Import gmap.
From S2P Require Import Prelude Bytes Values Entry Cache CacheLaws.
Import Values Cache CacheLaws.

Module CachePut.

(** ** The invariant of a thread *)

(** A pointer to a node of the heap, or nil. *)
Definition known (ns : list Node) (nx : option nat) : Prop :=
  forall n, nx = Some n -> (n < length ns)%nat.

(** The splices found so far enclose the key, on their levels. *)
Record splices_ok (ns : list Node) (L : nat -> list nat) (t : thread) : Prop := {
  sp_prev : length (t_prev t) = S maxHeight;
  sp_next : length (t_next t) = S maxHeight;
  sp_left : forall j p, t_prev t !! j = Some (Some p) -> left_of ns L (t_key t) j p;
  sp_right : forall j nx, t_next t !! j = Some nx -> right_of ns (t_key t) nx /\ known ns nx
}.

(** Level 0 has its splice. *)
Definition based (t : thread) : Prop := exists p, t_prev t !! 0%nat = Some (Some p).

(** The thread's own node is on the levels below [i] and not yet on the others. *)
Record own_ok (ns : list Node) (L : nat -> list nat) (t : thread) (i : nat) : Prop := {
  own_id : (0 < t_x t < length ns)%nat;
  own_key : keyof ns (t_x t) = t_key t;
  own_entry : exists e, entry_at ns (t_x t) = Some e /\ (i = 0%nat -> Entry.NewEntryValues (t_values t) = Ok e);
  own_below : forall j, (j < i)%nat -> t_x t ∈ L j;
  own_above : forall j, (i <= j)%nat -> t_x t ∉ L j
}.

Definition pc_ok (ns : list Node) (L : nat -> list nat) (t : thread) : Prop :=
  match t_pc t with
  | Start | LoadHeight | Done _ => True
  | Down i from => splices_ok ns L t /\ (i < maxHeight)%nat /\ left_of ns L (t_key t) i from
  | LoadHeight2 | RaiseHeight _ | ReloadHeight | Alloc => splices_ok ns L t /\ based t
  | Link i => splices_ok ns L t /\ based t /\ own_ok ns L t i /\ (i <= t_height t)%nat
  | Search i from retry =>
      splices_ok ns L t /\ based t /\ own_ok ns L t i /\ (i < t_height t)%nat /\
      left_of ns L (t_key t) i from /\ (retry = false -> 0 < i)%nat
  | Cas i =>
      splices_ok ns L t /\ based t /\ own_ok ns L t i /\ (i < t_height t)%nat /\
      (exists p, t_prev t !! i = Some (Some p))
  | AddTo n => n ∈ L 0%nat /\ keyof ns n = t_key t
  | CheckType n _ | Lock n | Locked n | Unlock n =>
      n ∈ L 0%nat /\ keyof ns n = t_key t /\ t_values t <> []
  end.

(** What a thread has found out about the type of the entry of its key. *)
Definition checked (m : gmap (list Z) Entry.Entry) (t : thread) : Prop :=
  match t_pc t with
  | CheckType _ j => exists e, m !! t_key t = Some e /\ Entry.vType e <> 0 /\
      Entry.same_type (Entry.vType e) (take j (t_values t))
  | Lock _ | Locked _ => exists e, m !! t_key t = Some e /\ Entry.passes e (t_values t)
  | _ => True
  end.

(** The node whose mutex a thread holds. *)
Definition holds (t : thread) : option nat :=
  match t_pc t with Locked n | Unlock n => Some n | _ => None end.

Record thread_ok (ns : list Node) (L : nat -> list nat) (t : thread) : Prop := {
  th_height : (1 <= t_height t <= maxHeight)%nat;
  th_values : exists ty, Entry.same_type ty (t_values t);
  th_pc : pc_ok ns L t
}.

(** The node a thread is linking. *)
Definition owner (t : thread) : option nat :=
  match t_pc t with Link _ | Search _ _ _ | Cas _ => Some (t_x t) | _ => None end.

(** The result of a thread that has done its work on the map, before it returns. *)
Definition result (t : thread) : option (option string) :=
  match t_pc t with
  | Done r => Some r
  | Unlock _ => Some None
  | Link i | Search i _ _ | Cas i => if decide (i = 0%nat) then None else Some None
  | _ => None
  end.

(** ** Stability *)

(** The list grows; only [own] is new. *)
Record grows (ns : list Node) (L : nat -> list nat) (ns' : list Node) (L' : nat -> list nat)
    (own : option nat) : Prop := {
  gr_ext : extends ns ns';
  gr_sub : forall l, L l ⊆ L' l;
  gr_new : forall l id, id ∈ L' l -> id ∈ L l \/ own = Some id;
  gr_entry : forall id, (id < length ns)%nat -> id ∉ L 0%nat -> entry_at ns' id = entry_at ns id
}.

Lemma grows_refl ns L own : grows ns L ns L own.
Proof. split; auto; done. Qed.

Lemma left_of_grows ns L ns' L' own k i p :
  heap_ok ns L -> grows ns L ns' L' own -> left_of ns L k i p -> left_of ns' L' k i p.
Proof.
  intros H [Hx Hs _ _] [->|[Hin Hb]]; [by left|]. right. split; [by apply Hs|].
  rewrite (ext_key ns ns'); [done|done|]. by apply (ok_ids _ _ H i).
Qed.

Lemma right_of_grows ns ns' k nx : extends ns ns' -> known ns nx -> right_of ns k nx -> right_of ns' k nx.
Proof. intros Hx Hk Hr n E. rewrite (ext_key ns ns'); [by apply Hr|done|by apply Hk]. Qed.

Lemma known_extends ns ns' nx : extends ns ns' -> known ns nx -> known ns' nx.
Proof. intros Hx Hk n E. pose proof (Hk n E). pose proof (ext_length _ _ Hx). lia. Qed.

Lemma splices_grows ns L ns' L' own t :
  heap_ok ns L -> grows ns L ns' L' own -> splices_ok ns L t -> splices_ok ns' L' t.
Proof.
  intros H Hg [H1 H2 H3 H4]. pose proof (gr_ext _ _ _ _ _ Hg). split; [done|done|..].
  - intros j p Hp. by apply (left_of_grows ns L ns' L' own); [..|apply H3].
  - intros j nx Hn. apply H4 in Hn as [Hr Hk].
    split; [by apply (right_of_grows ns)|by apply (known_extends ns)].
Qed.

Lemma own_grows ns L ns' L' own t i :
  heap_ok ns L -> grows ns L ns' L' own -> own <> Some (t_x t) -> own_ok ns L t i -> own_ok ns' L' t i.
Proof.
  intros H [Hx Hs Hn He] Ho [H1 H2 (e & H3 & H3') H4 H5]. split.
  - pose proof (ext_length _ _ Hx). lia.
  - by rewrite (ext_key ns ns') by (done || lia).
  - destruct (ext_entry ns ns' Hx (t_x t)) as [e' E']; [lia|by eexists|]. exists e'. split; [done|].
    intros ->. rewrite He in E' by (lia || (apply H5; lia)). assert (e' = e) as -> by congruence. auto.
  - intros j Hj. by apply Hs, H4.
  - intros j Hj [Hin|E]%Hn; [by apply (H5 j)|done].
Qed.

Lemma thread_grows ns L ns' L' own t :
  heap_ok ns L -> grows ns L ns' L' own -> (forall x, owner t = Some x -> own <> Some x) ->
  thread_ok ns L t -> thread_ok ns' L' t.
Proof.
  intros H Hg Ho [H1 H2 H3]. split; [done|done|]. unfold pc_ok, owner in *.
  destruct (t_pc t); try done;
    repeat match goal with H : _ /\ _ |- _ => destruct H end;
    split_and!; eauto using splices_grows, left_of_grows, own_grows.
  all: try (by apply (gr_sub _ _ _ _ _ Hg)).
  all: rewrite (ext_key ns ns'); [done|apply Hg|]; by apply (ok_ids _ _ H 0%nat).
Qed.

(** ** One step *)

Lemma left_of_index ns L k i p : left_of ns L k i p -> exists j, (0%nat :: L i) !! j = Some p.
Proof. intros H. apply list_elem_of_lookup, elem_of_cons. destruct H as [->|[]]; auto. Qed.

Lemma left_of_lt ns L k i p : heap_ok ns L -> left_of ns L k i p -> (p < length ns)%nat.
Proof.
  intros H [->|[Hin _]]; [|by apply (ok_ids _ _ H i)].
  by apply (lookup_lt_is_Some_1 _ _ (ok_head _ _ H)).
Qed.

(** The nodes of a level still ahead of [from]. *)
Definition rem (ns : list Node) (ids : list nat) (from : nat) : nat :=
  if decide (from = 0%nat) then length ids
  else length (filter (fun id => before (keyof ns from) (keyof ns id)) ids).

Lemma rem_bound ns L i from :
  heap_ok ns L -> (i < maxHeight)%nat -> (rem ns (L i) from <= length ns)%nat.
Proof.
  intros H Hi. pose proof (level_length ns L i H Hi). unfold rem. case_decide; [lia|].
  pose proof (length_filter (fun id => before (keyof ns from) (keyof ns id)) (L i)). lia.
Qed.

Lemma filter_strict {A} (P Q : A -> Prop) `{forall x, Decision (P x), forall x, Decision (Q x)} l x :
  (forall y, P y -> Q y) -> x ∈ l -> Q x -> ~ P x -> (length (filter P l) < length (filter Q l))%nat.
Proof.
  intros Hpq. assert (forall l', (length (filter P l') <= length (filter Q l'))%nat) as Hle.
  { induction l' as [|y l' IH]; [done|]. rewrite !filter_cons.
    repeat case_decide; cbn; try lia. by exfalso; auto. }
  induction l as [|y l IH]; [by intros ?%elem_of_nil|].
  intros [->|Hin]%elem_of_cons Hq Hp; rewrite !filter_cons.
  - rewrite (decide_False (P := P y)), (decide_True (P := Q y)) by done. cbn. specialize (Hle l). lia.
  - specialize (IH Hin Hq Hp). repeat case_decide; cbn; try lia. by exfalso; auto.
Qed.

Lemma rem_next ns L l j from n :
  heap_ok ns L -> (l < maxHeight)%nat -> (0%nat :: L l) !! j = Some from -> L l !! j = Some n ->
  (rem ns (L l) n < rem ns (L l) from)%nat.
Proof.
  intros H Hl Hj Hn. pose proof (list_elem_of_lookup_2 _ _ _ Hn) as Hin.
  pose proof (ok_ids _ _ H _ _ Hin) as Hid. unfold rem. rewrite (decide_False (P := n = 0%nat)) by lia.
  case_decide as E; [apply (length_filter_lt _ _ n); [done|apply before_irrefl]|].
  destruct j as [|j]; [injection Hj as <-; done|]. rewrite lookup_S in Hj.
  assert (before (keyof ns from) (keyof ns n)) as Hb.
  { apply (key_sorted_lt ns (L l) j (S j)); [by apply (ok_sorted _ _ H)|lia|done..]. }
  apply (filter_strict _ _ _ n); [|done|done|apply before_irrefl].
  intros y Hy. by transitivity (keyof ns n).
Qed.

Lemma keyof_lookup ns id n : ns !! id = Some n -> keyof ns id = key n.
Proof. unfold keyof. by intros ->. Qed.

Lemma round_spec c L k l from :
  heap_ok (nodes c) L -> (l < maxHeight)%nat -> left_of (nodes c) L k l from ->
  exists r, getSplices_round c k from l = Ok r /\
    match r with
    | Forward n => n ∈ L l /\ before (keyof (nodes c) n) k /\
        (rem (nodes c) (L l) n < rem (nodes c) (L l) from)%nat
    | Between nx => right_of (nodes c) k nx /\ known (nodes c) nx /\
        tower_at (nodes c) from l = Some nx
    | Found n => n ∈ L l /\ keyof (nodes c) n = k
    end.
Proof.
  intros H Hl Hf. destruct (left_of_index _ _ _ _ _ Hf) as [j Hj].
  unfold getSplices_round. pose proof (ok_chain _ _ H l Hl j from Hj) as Htw. rewrite (GetNext_tower c from l _ Htw).
  cbn [mbind outcome_bind]. destruct (L l !! j) as [n|] eqn:E.
  - pose proof (rem_next _ _ _ _ _ _ H Hl Hj E) as Hrem. apply list_elem_of_lookup_2 in E. pose proof (ok_ids _ _ H _ _ E) as Hn.
    destruct (lookup_lt_is_Some_2 (nodes c) n ltac:(lia)) as [nd Hnd].
    rewrite (index_lookup _ _ nd Hnd). cbn [mbind outcome_bind].
    pose proof (keyof_lookup _ _ _ Hnd) as Hk. unfold before.
    destruct (Z.ltb_spec (Compare (key nd) k) 0); [eexists; split; [done|]; cbn; rewrite Hk; auto|].
    destruct (Z.ltb_spec 0 (Compare (key nd) k)); eexists; (split; [done|cbn]).
    + split; [intros m [= <-]|split; [intros m [= <-]; lia|done]]. unfold before. rewrite Hk, (Compare_swap (key nd)). lia.
    + split; [done|]. rewrite Hk. apply Compare_eq. lia.
  - exists (Between None). by split_and!.
Qed.

Definition with_splice (t : thread) (i : nat) (p n : option nat) : thread :=
  MkThread (t_key t) (t_values t) (t_lifecycle t) (t_height t) (<[i := p]> (t_prev t))
    (<[i := n]> (t_next t)) (t_x t) (t_pc t).

Lemma splice_at_ok ns L t i p n :
  splices_ok ns L t -> (i < maxHeight)%nat -> splice_at t i p n = Ok (with_splice t i p n).
Proof.
  intros [H1 H2 _ _] Hi. unfold splice_at.
  rewrite (store_in_range (t_prev t)) by (rewrite H1; lia). cbn [mbind outcome_bind].
  by rewrite (store_in_range (t_next t)) by (rewrite H2; lia).
Qed.

Lemma with_splice_ok ns L t i p n :
  splices_ok ns L t -> left_of ns L (t_key t) i p -> right_of ns (t_key t) n -> known ns n ->
  splices_ok ns L (with_splice t i (Some p) n).
Proof.
  intros [H1 H2 H3 H4] Hp Hn Hk. split; cbn; [by rewrite length_insert..| |].
  - intros j q Hq. destruct (decide (j = i)) as [->|Hne].
    + apply list_lookup_insert_Some in Hq as [(_ & [= <-] & _)|[]]; done.
    + rewrite list_lookup_insert_ne in Hq by done. auto.
  - intros j q Hq. destruct (decide (j = i)) as [->|Hne].
    + apply list_lookup_insert_Some in Hq as [(_ & <- & _)|[]]; done.
    + rewrite list_lookup_insert_ne in Hq by done. exact (H4 j q Hq).
Qed.

Lemma with_splice_at ns L t i p n :
  splices_ok ns L t -> (i < maxHeight)%nat -> t_prev (with_splice t i (Some p) n) !! i = Some (Some p).
Proof. intros [H1 _ _ _] Hi. cbn. apply list_lookup_insert_eq. lia. Qed.

Lemma with_splice_based ns L t i p n :
  splices_ok ns L t -> (i < maxHeight)%nat -> i = 0%nat \/ based t -> based (with_splice t i (Some p) n).
Proof.
  intros Hs Hi [->|[q Hq]]; [exists p; by apply (with_splice_at ns L)|].
  destruct (decide (i = 0%nat)) as [->|Hne]; [exists p; by apply (with_splice_at ns L)|].
  exists q. cbn. by rewrite list_lookup_insert_ne.
Qed.

(** The cell the compare-and-swap of level [i] looks at holds the expected value. *)
Definition adjacent (c : Cache) (t : thread) (i : nat) : bool :=
  match t_prev t !! i, t_next t !! i with
  | Some (Some p), Some nx => bool_decide (tower_at (nodes c) p i = Some nx)
  | _, _ => false
  end.

(** The steps a thread has left, if nobody else runs; [B] bounds the heap. *)
Definition linking (B i : nat) : nat := (maxHeight - i) * (2 * B + 20).
Definition adding (t : thread) : nat := length (t_values t) + 5.
Definition measure (B : nat) (c : Cache) (L : nat -> list nat) (t : thread) : nat :=
  match t_pc t with
  | Done _ => 0
  | Unlock _ => 1
  | Locked _ => 2
  | Lock _ => 3
  | CheckType _ j => 4 + (length (t_values t) - j)
  | AddTo _ => adding t
  | Link i => linking B i + 1 + adding t
  | Cas i => linking B (S i) + (if adjacent c t i then 2 else B + 7) + adding t
  | Search i from _ => linking B (S i) + 3 + rem (nodes c) (L i) from + adding t
  | Alloc => linking B 0 + 2 + adding t
  | RaiseHeight old => linking B 0 + (if decide (c_height c = old) then 3 else 5) + adding t
  | ReloadHeight => linking B 0 + 4 + adding t
  | LoadHeight2 => linking B 0 + 6 + adding t
  | Down i from => linking B 0 + 7 + i * (B + 1) + rem (nodes c) (L i) from + adding t
  | LoadHeight => linking B 0 + 8 + maxHeight * (B + 1) + adding t
  | Start => linking B 0 + 9 + maxHeight * (B + 1) + adding t
  end.

Lemma linking_step B i : (i < maxHeight)%nat -> linking B i = (linking B (S i) + 2 * B + 20)%nat.
Proof.
  intros Hi. unfold linking. replace (maxHeight - i)%nat with (S (maxHeight - S i)) by lia. lia.
Qed.

(** [meas E]: the measure of a thread at the program counter [E] decreases. *)
Ltac hold E := unfold holds, checked; rewrite ?E; cbn; repeat case_match; done.
Ltac hold2 E := unfold result; rewrite E; done.
Ltac meas E :=
  right; right; intros B HB; unfold measure, adding; rewrite E;
  cbn [t_pc t_values goto with_splice nodes c_height]; try lia.

(** What one step does. *)
Record step_post (lk : mutexes) (c : Cache) (L : nat -> list nat) (t : thread)
    (lk' : mutexes) (c' : Cache) (L' : nat -> list nat) (t' : thread) : Prop := {
  po_cache : cache_ok c' L';
  po_thread : thread_ok (nodes c') L' t';
  po_checked : checked (contents c') t';
  po_grows : grows (nodes c) L (nodes c') L' (owner t);
  po_owner : forall x, owner t' = Some x -> owner t = Some x \/ x = length (nodes c) /\ (x < length (nodes c'))%nat;
  po_fixed : t_key t' = t_key t /\ t_values t' = t_values t;
  po_locks : match holds t, holds t' with
    | None, None => lk' = lk
    | Some n, Some n' => n' = n /\ lk' = lk
    | None, Some n => (n ∉ lk) /\ lk' = {[n]} ∪ lk
    | Some n, None => lk' = lk ∖ {[n]}
    end;
  po_effect : match result t, result t' with
    | Some r, Some r' => r' = r /\ contents c' = contents c
    | Some _, None => False
    | None, None => contents c' = contents c
    | None, Some r => put_spec (t_key t) (t_values t) (contents c) = (contents c', r)
    end;
  po_measure : (exists r, t_pc t = Done r) \/ (exists n, t_pc t = Lock n /\ n ∈ lk) \/
    forall B, (length (nodes c') <= B)%nat -> (measure B c' L' t' < measure B c L t)%nat
}.

(** A step that only moves the thread, outside of [Add]. *)
Lemma post_same lk c L t t' :
  cache_ok c L -> thread_ok (nodes c) L t' ->
  (forall x, owner t' = Some x -> owner t = Some x) ->
  t_key t' = t_key t /\ t_values t' = t_values t -> result t = result t' ->
  holds t = None /\ holds t' = None -> checked (contents c) t' ->
  ((exists r, t_pc t = Done r) \/ (exists n, t_pc t = Lock n /\ n ∈ lk) \/
    forall B, (length (nodes c) <= B)%nat -> (measure B c L t' < measure B c L t)%nat) ->
  step_post lk c L t lk c L t'.
Proof.
  intros H Ht Ho Hf Hr [Hh Hh'] Hk Hm. split; auto using grows_refl.
  - by rewrite Hh, Hh'.
  - rewrite <- Hr. by destruct (result t).
Qed.

Lemma set_tower_ok c L id l v :
  heap_ok (nodes c) L -> (id < length (nodes c))%nat -> (l < maxHeight)%nat ->
  set_tower c id l v = Ok (MkCache (upd (nodes c) id l v) (c_height c) (ref c) (size c) (closed c)).
Proof.
  intros H Hid Hl. destruct (lookup_lt_is_Some_2 _ _ Hid) as [n Hn].
  unfold set_tower, upd. rewrite (index_lookup _ _ n Hn), Hn. cbn [mbind outcome_bind].
  by rewrite store_in_range by (rewrite (ok_towers _ _ H id n Hn); lia).
Qed.

Lemma entry_of_ok c L n :
  cache_ok c L -> n ∈ L 0%nat ->
  exists e, entry_of c n = Ok e /\ contents c !! keyof (nodes c) n = Some e.
Proof.
  intros Hc Hn. pose proof (cache_heap _ _ Hc) as H. destruct (ok_entries _ _ H n Hn) as [e He].
  exists e. split; [|apply (contents_lookup c L); eauto]. unfold entry_at in He.
  destruct (nodes c !! n) as [nd|] eqn:Hnd; [|done]. cbn in He.
  unfold entry_of. rewrite (index_lookup _ _ _ Hnd). cbn [mbind outcome_bind]. by rewrite He.
Qed.

(** The compare-and-swap when it succeeds: the node is linked. *)
Lemma cas_links c L t i p nx :
  cache_ok c L -> (i < maxHeight)%nat -> own_ok (nodes c) L t i ->
  left_of (nodes c) L (t_key t) i p -> right_of (nodes c) (t_key t) nx ->
  GetNext c p i = Ok nx ->
  exists k c2,
    c2 = MkCache (upd (upd (nodes c) (t_x t) i nx) p i (Some (t_x t))) (c_height c) (ref c) (size c) (closed c) /\
    cache_ok c2 (link L i k (t_x t)) /\
    grows (nodes c) L (nodes c2) (link L i k (t_x t)) (Some (t_x t)) /\
    own_ok (nodes c2) (link L i k (t_x t)) t (S i) /\
    (i = 0%nat -> put_spec (t_key t) (t_values t) (contents c) = (contents c2, None)) /\
    (i <> 0%nat -> contents c2 = contents c).
Proof.
  intros Hc Hi [O1 O2 (e & O3 & O3') O4 O5] Hl Hr Hn. pose proof (cache_heap _ _ Hc) as H.
  destruct (left_of_index _ _ _ _ _ Hl) as [k Hk]. exists k. eexists. split; [reflexivity|].
  rewrite (GetNext_tower c p i (L i !! k)) in Hn by (by apply (ok_chain _ _ H)). injection Hn as Hn.
  set (x := t_x t) in *. set (ns1 := upd (nodes c) x i nx). set (ns2 := upd ns1 p i (Some x)).
  assert (forall id, keyof ns2 id = keyof (nodes c) id /\ entry_at ns2 id = entry_at (nodes c) id) as Hsame.
  { intros id. unfold ns2, ns1. by rewrite !upd_keyof, !upd_entry. }
  assert (heap_ok ns1 L) as H1 by (apply heap_ok_private; [done|lia|by apply O5]).
  assert (extends (nodes c) ns2) as Hx by (transitivity ns1; apply upd_extends).
  assert (heap_ok ns2 (link L i k x)) as H2.
  { apply heap_ok_link; try done; unfold ns1; rewrite ?upd_keyof, ?upd_length, ?upd_entry; try done.
    - destruct Hl as [->|[? Hb]]; [by left|right]. rewrite upd_keyof. split; [done|congruence].
    - intros n E. rewrite upd_keyof, O2. apply Hr. congruence.
    - by apply O5.
    - intros j ->. apply O4. lia.
    - destruct (tower_at_Some _ _ x i H) as [w Hw]; [lia|done|]. rewrite Hn.
      by apply (upd_tower_eq _ _ _ _ w). }
  assert (cache_ok (MkCache ns2 (c_height c) (ref c) (size c) (closed c)) (link L i k x)) as Hc2
    by (split; [done|apply Hc|apply Hc]).
  split; [done|]. split; [|split; [|split]].
  - split; cbn; [done|..].
    + intros l id Hin. apply elem_of_link. by right.
    + intros l id [[_ ->]|Hin]%elem_of_link; auto.
    + intros id _ _. apply Hsame.
  - split; cbn; fold x.
    + unfold ns2, ns1. by rewrite !upd_length.
    + destruct (Hsame x) as [-> _]. done.
    + exists e. destruct (Hsame x) as [_ ->]. split; [done|lia].
    + intros j Hj. apply elem_of_link. destruct (decide (j = i)); [by left|right; apply O4; lia].
    + intros j Hj [[-> _]|Hin]%elem_of_link; [lia|]. apply (O5 j); [lia|done].
  - intros ->. destruct (contents_link c _ L k x e Hc Hc2 Hsame) as [-> Hnone]; [by apply O5; lia|done|].
    rewrite O2 in *. unfold put_spec. rewrite Hnone. by rewrite O3' by done.
  - intros Hi0. apply (contents_ext c _ L (link L i k x)); [done|done| |intros; apply Hsame].
    unfold link. by rewrite decide_False by congruence.
Qed.

Lemma step_down lk c L t i from :
  cache_ok c L -> thread_ok (nodes c) L t -> t_pc t = Down i from ->
  exists t', step lk c t = Ok (lk, c, t') /\ step_post lk c L t lk c L t'.
Proof.
  intros Hc [Hh Hv Hpc] E. unfold pc_ok in Hpc. rewrite E in Hpc. destruct Hpc as (Hs & Hi & Hl).
  pose proof (cache_heap _ _ Hc) as H. unfold step. rewrite E.
  destruct (round_spec c L (t_key t) i from H Hi Hl) as (r & -> & Hr). cbn [mbind outcome_bind].
  destruct r as [n|n|n]; cbn [mbind outcome_bind].
  - destruct Hr as (Hin & Hbn & Hrem). eexists. split; [reflexivity|].
    apply post_same; [done| |done|done|by unfold result; rewrite E|hold E|hold E|meas E].
    split; [done|done|]. cbn. split; [by destruct Hs|]. split; [done|by right].
  - rewrite (splice_at_ok (nodes c) L) by done. cbn [mbind outcome_bind].
    eexists. split; [reflexivity|]. destruct Hr as (Hr & Hk & Htw).
    pose proof (with_splice_ok _ _ _ _ _ _ Hs Hl Hr Hk) as Hs'.
    pose proof (rem_bound _ _ (i - 1) from H ltac:(lia)) as Hrb.
    apply post_same; [done| |by destruct i|done|unfold result; rewrite E; by destruct i|hold E|hold E|].
    2: { destruct i as [|i]; [meas E|]. rewrite Nat.sub_1_r in Hrb. cbn [pred] in Hrb. meas E. }
    split; [done|done|]. destruct i as [|i]; cbn.
    + split; [by destruct Hs'|]. apply (with_splice_based (nodes c) L); auto.
    + split; [by destruct Hs'|]. split; [lia|]. destruct Hl as [->|[Hin Hb]]; [by left|right].
      split; [|done]. by apply (ok_sub _ _ H i).
  - rewrite (splice_at_ok (nodes c) L) by done. cbn [mbind outcome_bind].
    eexists. split; [reflexivity|]. destruct Hr as [Hr Hk].
    apply post_same; [done| |done|done|by unfold result; rewrite E|hold E|hold E|meas E].
    split; [done|done|]. cbn. split; [|done]. by apply (level_sub _ _ i H).
Qed.

Lemma step_search lk c L t i from retry :
  cache_ok c L -> thread_ok (nodes c) L t -> t_pc t = Search i from retry ->
  exists t', step lk c t = Ok (lk, c, t') /\ step_post lk c L t lk c L t'.
Proof.
  intros Hc [Hh Hv Hpc] E. unfold pc_ok in Hpc. rewrite E in Hpc.
  destruct Hpc as (Hs & Hb & Ho & Hi & Hl & Hr0). assert (i < maxHeight)%nat as Hi' by lia.
  pose proof (cache_heap _ _ Hc) as H. unfold step. rewrite E.
  destruct (round_spec c L (t_key t) i from H Hi' Hl) as (r & -> & Hr). cbn [mbind outcome_bind].
  destruct r as [n|n|n]; cbn [mbind outcome_bind].
  - destruct Hr as (Hin & Hbn & Hrem). eexists. split; [reflexivity|].
    apply post_same; [done| |unfold owner; by rewrite E|done|by unfold result; rewrite E|hold E|hold E|meas E].
    split; [done|done|]. cbn. split_and!; auto; [by destruct Hs|by destruct Ho|by right].
  - rewrite (splice_at_ok (nodes c) L) by done. cbn [mbind outcome_bind].
    eexists. split; [reflexivity|]. destruct Hr as (Hr & Hk & Htw).
    pose proof (with_splice_ok _ _ _ _ _ _ Hs Hl Hr Hk) as Hs'.
    apply post_same; [done| |unfold owner; by rewrite E|done|by unfold result; rewrite E|hold E|hold E|].
    2: { assert (adjacent c (goto (with_splice t i (Some from) n) (Cas i)) i = true) as Ha; [|meas E; rewrite Ha; lia].
         unfold adjacent. cbn. rewrite list_lookup_insert_eq by (rewrite (sp_prev _ _ _ Hs); lia).
         rewrite list_lookup_insert_eq by (rewrite (sp_next _ _ _ Hs); lia).
         by apply bool_decide_eq_true. }
    split; [done|done|]. cbn. split; [by destruct Hs'|].
    split; [apply (with_splice_based (nodes c) L t i from n); auto|]. split; [by destruct Ho|]. split; [done|].
    exists from. by apply (with_splice_at (nodes c) L t i from n).
  - destruct Hr as [Hr Hk].
    assert (n ∈ L 0%nat) as Hn0 by (by apply (level_sub _ _ i H)).
    assert (i = 0%nat) as ->.
    { destruct i as [|i]; [done|exfalso]. destruct Ho as [O1 O2 _ O4 O5].
      assert (n = t_x t) as ->; [|by apply (O5 (S i))].
      apply (key_sorted_unique (nodes c) (L 0%nat)); [by apply H|done|apply O4; lia|congruence]. }
    destruct retry; [|by specialize (Hr0 eq_refl); lia].
    rewrite (splice_at_ok (nodes c) L) by done. cbn [mbind outcome_bind].
    eexists. split; [reflexivity|]. apply post_same; [done| |done|done|by unfold result; rewrite E|hold E|hold E|meas E].
    split; [done|done|]. by cbn.
Qed.

Lemma step_cas lk c L t i :
  cache_ok c L -> thread_ok (nodes c) L t -> t_pc t = Cas i ->
  exists c' t' L', step lk c t = Ok (lk, c', t') /\ step_post lk c L t lk c' L' t'.
Proof.
  intros Hc [Hh Hv Hpc] E. unfold pc_ok in Hpc. rewrite E in Hpc.
  destruct Hpc as (Hs & Hb & Ho & Hi & (p & Hp)). assert (i < maxHeight)%nat as Hi' by lia.
  pose proof (cache_heap _ _ Hc) as H. pose proof (sp_left _ _ _ Hs _ _ Hp) as Hl.
  destruct (lookup_lt_is_Some_2 (t_next t) i) as [nx Hnx]; [rewrite (sp_next _ _ _ Hs); lia|].
  destruct (sp_right _ _ _ Hs _ _ Hnx) as [Hr Hk].
  unfold step. rewrite E, (index_lookup _ _ _ Hp). cbn [mbind outcome_bind].
  rewrite (index_lookup _ _ _ Hnx). cbn [mbind outcome_bind].
  pose proof (own_id _ _ _ _ Ho) as Hx. rewrite (set_tower_ok c L) by (done || lia).
  cbn [mbind outcome_bind]. set (c1 := MkCache _ _ _ _ _).
  assert (cache_ok c1 L) as Hc1.
  { split; [|apply Hc..]. apply heap_ok_private; [done|lia|]. by apply (own_above _ _ _ _ Ho). }
  assert (p <> t_x t) as Hpx.
  { intros ->. destruct Hl as [?|[Hin _]]; [lia|]. by apply (own_above _ _ _ _ Ho i). }
  destruct (tower_at_Some _ _ p i H) as [cur Hcur]; [by apply (left_of_lt _ _ _ _ _ H Hl)|done|].
  unfold setNexNode. rewrite (GetNext_tower c1 p i cur) by (cbn; rewrite upd_tower_ne by (by left); done).
  cbn [mbind outcome_bind]. case_bool_decide as Hcas.
  - subst cur. destruct (cas_links c L t i p nx Hc Hi' Ho Hl Hr) as (k & c2 & Ec2 & Hc2 & Hg & Ho2 & He1 & He2).
    { by apply GetNext_tower. }
    rewrite (set_tower_ok c1 L) by
      (apply Hc1 || done || (cbn; rewrite upd_length; by apply (left_of_lt _ _ _ _ _ H Hl))).
    cbn [mbind outcome_bind]. change (MkCache _ _ _ _ _) with
      (MkCache (upd (upd (nodes c) (t_x t) i nx) p i (Some (t_x t))) (c_height c) (ref c) (size c) (closed c)).
    rewrite <- Ec2. eexists c2, _, _. split; [reflexivity|].
    assert (owner t = Some (t_x t)) as Eo by (unfold owner; by rewrite E).
    split; [done| |done|by rewrite Eo|rewrite Eo; cbn; auto|done|hold E| |
      meas E; destruct (adjacent c t i); lia].
    + split; [done|done|]. cbn. split; [|split; [done|split; [by destruct Ho2|lia]]].
      pose proof (splices_grows _ _ _ _ _ _ H Hg Hs) as Hs2. by destruct Hs2.
    + unfold result. rewrite E. cbn. destruct (decide (i = 0%nat)) as [->|Hne]; [by apply He1|].
      split; [done|by apply He2].
  - eexists c1, _, L. split; [reflexivity|].
    assert (forall id, keyof (nodes c1) id = keyof (nodes c) id /\ entry_at (nodes c1) id = entry_at (nodes c) id)
      as Hsame by (intros id; cbn; by rewrite upd_keyof, upd_entry).
    assert (owner t = Some (t_x t)) as Eo by (unfold owner; by rewrite E).
    assert (grows (nodes c) L (nodes c1) L (owner t)) as Hg.
    { split; [apply upd_extends|done|auto|]. intros. apply Hsame. }
    assert (grows (nodes c) L (nodes c1) L None) as Hg'.
    { split; [apply upd_extends|done|auto|]. intros. apply Hsame. }
    split; [done| |done|done|rewrite Eo; cbn; auto|done|hold E| |].
    + split; [done|done|]. cbn.
      pose proof (splices_grows _ _ _ _ _ _ H Hg Hs) as Hs2.
      pose proof (own_grows _ _ _ _ _ _ _ H Hg' ltac:(done) Ho) as Ho2.
      split_and!; [by destruct Hs2|done|by destruct Ho2|done|by apply (left_of_grows _ _ _ _ _ _ _ _ H Hg)|done].
    + unfold result. rewrite E. cbn.
      assert (contents c1 = contents c) as Ec by (by apply (contents_ext c c1 L L)).
      by destruct (decide (i = 0%nat)).
    + assert (adjacent c t i = false) as Ha.
      { unfold adjacent. rewrite Hp, Hnx. apply bool_decide_eq_false. congruence. }
      pose proof (rem_bound _ _ i p (cache_heap _ _ Hc1) Hi'). meas E. rewrite Ha. lia.
Qed.

(** Steps that touch neither the heap nor the map. *)
Lemma cache_ok_height c L h :
  cache_ok c L -> (1 <= h <= maxHeight)%nat ->
  cache_ok (MkCache (nodes c) h (ref c) (size c) (closed c)) L.
Proof. intros [H1 H2 H3] Hh. by split. Qed.

Lemma walk_fields c h r sz cl fuel next :
  walk fuel (MkCache (nodes c) h r sz cl) next = walk fuel c next.
Proof.
  revert next. induction fuel as [|fuel IH]; intros [n|]; cbn [walk]; try done.
  change (GetNext (MkCache (nodes c) h r sz cl) n 0) with (GetNext c n 0).
  destruct (GetNext c n 0) as [nx| |]; cbn [mbind outcome_bind]; try done. by rewrite IH.
Qed.

Lemma contents_fields c h r sz : contents (MkCache (nodes c) h r sz (closed c)) = contents c.
Proof.
  unfold contents, GetAllNodes, head. cbn [closed nodes]. destruct (closed c) eqn:E; [done|].
  cbn [mbind outcome_bind]. change (GetNext (MkCache (nodes c) h r sz false) 0 0) with (GetNext c 0 0).
  destruct (GetNext c 0 0) as [nx| |]; cbn [mbind outcome_bind]; try done. by rewrite walk_fields.
Qed.

(** The steps of [Add] that only read. *)
Lemma step_check lk c L t n :
  cache_ok c L -> thread_ok (nodes c) L t -> checked (contents c) t ->
  t_pc t = AddTo n \/ (exists j, t_pc t = CheckType n j) ->
  exists t', step lk c t = Ok (lk, c, t') /\ step_post lk c L t lk c L t'.
Proof.
  intros Hc [Hh Hv Hpc] Hck E.
  assert (n ∈ L 0%nat /\ keyof (nodes c) n = t_key t) as [Hn Hk].
  { unfold pc_ok in Hpc. destruct E as [E|[j E]]; rewrite E in Hpc; tauto. }
  destruct (entry_of_ok c L n Hc Hn) as (e & He & Hm). rewrite Hk in Hm.
  assert (forall r, put_spec (t_key t) (t_values t) (contents c) = (contents c, r) ->
    step_post lk c L t lk c L (goto t (Done r))) as Hstay.
  { intros r Hr. destruct E as [E|[j E]];
      (split; [done|by split|done|apply grows_refl|done|done|hold E| |meas E]);
      unfold result; rewrite E; done. }
  unfold put_spec in Hstay. rewrite Hm in Hstay. unfold step.
  destruct E as [E|[j E]]; rewrite E.
  - destruct (t_values t) as [|v0 vs] eqn:Ev.
    { eexists. split; [reflexivity|]. apply Hstay. cbn. by rewrite insert_id. }
    rewrite He. cbn [mbind outcome_bind]. eexists. split; [reflexivity|].
    apply post_same; [done| |by destruct (_ =? 0)|by destruct (_ =? 0)|unfold result; rewrite E; by destruct (_ =? 0)
      |unfold holds; rewrite E; by destruct (_ =? 0)| |].
    + split; [done|cbn; by rewrite Ev|]. destruct (_ =? 0); cbn; by rewrite Ev.
    + unfold checked. destruct (Z.eqb_spec (Entry.vType e) 0) as [E0|E0]; cbn; exists e; split_and!; try done;
        [by left|apply Forall_nil_2].
    + destruct (_ =? 0); meas E.
  - unfold checked in Hck. rewrite E in Hck. destruct Hck as (e' & Hm' & H0 & Hty).
    rewrite Hm in Hm'. injection Hm' as <-. unfold pc_ok in Hpc. rewrite E in Hpc.
    destruct (t_values t !! j) as [v|] eqn:Ej; [rewrite He; cbn [mbind outcome_bind]|].
    + destruct (Z.eqb_spec (Entry.vType e) (Entry.valueType v)) as [Ev|Ev]; eexists; (split; [reflexivity|]).
      * apply post_same; [done|by split|done|done|hold2 E|hold E| |].
        -- unfold checked. cbn. exists e. split_and!; [done..|]. rewrite (take_S_r _ _ v) by done.
           apply Forall_app_2; [done|]. by repeat constructor.
        -- pose proof (lookup_lt_Some _ _ _ Ej). meas E.
      * apply Hstay. rewrite (Entry.Add_refuses e (t_values t)); [done|apply Hpc|done|].
        intros Hs. apply Ev. symmetry. by apply (Forall_lookup_1 _ _ j v Hs).
    + eexists. split; [reflexivity|]. apply post_same; [done|by split|done|done|hold2 E|hold E| |meas E].
      unfold checked. cbn. exists e. split; [done|right]. apply lookup_ge_None in Ej. by rewrite take_ge in Hty.
Qed.

(** The steps of [Add] around and under the mutex. *)
Lemma step_locked lk c L t n :
  cache_ok c L -> thread_ok (nodes c) L t -> checked (contents c) t -> t_pc t = Locked n ->
  exists c' t', step lk c t = Ok (lk, c', t') /\ step_post lk c L t lk c' L t'.
Proof.
  intros Hc [Hh Hv Hpc] Hck E. unfold pc_ok in Hpc. rewrite E in Hpc. destruct Hpc as (Hn & Hk & Hne).
  destruct (entry_of_ok c L n Hc Hn) as (e & He & Hm). rewrite Hk in Hm.
  unfold checked in Hck. rewrite E, Hm in Hck. destruct Hck as (? & [= <-] & Hp).
  destruct (Entry.Add_locked_spec e (t_values t) Hne Hp) as (e' & Ha & _).
  destruct (set_entry_ok c L n e' Hc Hn) as (c' & Hset & Hc' & Hx & Hch & _ & Hcont & Hother).
  unfold step. rewrite E, He. cbn [mbind outcome_bind]. rewrite Ha. cbn [mbind outcome_bind]. rewrite Hset.
  cbn [mbind outcome_bind]. eexists _, _. split; [reflexivity|].
  split; [done| |done| |done|done|hold E| |meas E].
  - split; [done|done|]. cbn. split; [done|]. split; [|done].
    rewrite (ext_key (nodes c) (nodes c')); [done|done|]. by apply (ok_ids _ _ (cache_heap _ _ Hc) 0%nat).
  - split; [done|done|auto|]. intros id _ Hni. apply Hother. by intros ->.
  - unfold result. rewrite E. cbn. unfold put_spec. by rewrite Hm, Entry.Add_passes, Ha, Hcont, Hk.
Qed.

Lemma step_mutex lk c L t n :
  cache_ok c L -> thread_ok (nodes c) L t -> checked (contents c) t ->
  (forall m, holds t = Some m -> m ∈ lk) -> t_pc t = Lock n \/ t_pc t = Unlock n ->
  exists lk' t', step lk c t = Ok (lk', c, t') /\ step_post lk c L t lk' c L t'.
Proof.
  intros Hc [Hh Hv Hpc] Hck Hlk E. unfold pc_ok in Hpc. unfold step.
  destruct E as [E|E]; rewrite E in *.
  - case_decide as Hn.
    + eexists _, _. split; [reflexivity|].
      apply post_same; [done|split; [done..|unfold pc_ok; by rewrite E]|done|done|done|hold E|done|eauto].
    + eexists _, _. split; [reflexivity|].
      split; [done|by split| |apply grows_refl|done|done|by unfold holds; rewrite E| |meas E].
      * unfold checked in *. by rewrite E in Hck.
      * unfold result. by rewrite E.
  - rewrite decide_True by (apply Hlk; unfold holds; by rewrite E). eexists _, _. split; [reflexivity|].
    split; [done|by split|done|apply grows_refl|done|done|by unfold holds; rewrite E| |meas E].
    unfold result. by rewrite E.
Qed.

Lemma step_load lk c L t :
  cache_ok c L -> thread_ok (nodes c) L t -> t_pc t = LoadHeight ->
  exists t', step lk c t = Ok (lk, c, t') /\ step_post lk c L t lk c L t'.
Proof.
  intros Hc [Hh Hv _] E. destruct (cache_height _ _ Hc) as [H1 H2].
  unfold step. rewrite E. unfold head. rewrite (cache_open _ _ Hc). cbn [mbind outcome_bind].
  rewrite store_in_range by (rewrite length_replicate; lia). cbn [mbind outcome_bind].
  eexists. split; [reflexivity|]. destruct (c_height c) as [|i] eqn:Ei; [lia|].
  apply post_same; [done| |done|done|unfold result; by rewrite E|hold E|hold E|].
  2: { pose proof (rem_bound _ _ i 0 (cache_heap _ _ Hc) ltac:(lia)). meas E. intros.
       assert (S i * (B + 1) <= maxHeight * (B + 1))%nat by (apply Nat.mul_le_mono_r; lia). lia. }
  split; [done|done|]. split; [|split; [lia|by left]].
  split; cbn [t_prev t_next t_key goto]; [by rewrite length_insert, length_replicate|by rewrite length_replicate|..].
  - intros j p Hp. left. destruct (decide (j = S i)) as [->|Hne].
    + apply list_lookup_insert_Some in Hp as [(_ & [= <-] & _)|[]]; done.
    + rewrite list_lookup_insert_ne in Hp by done. by apply lookup_replicate in Hp as [? _].
  - intros j nx Hn. apply lookup_replicate in Hn as [-> _]. by split.
Qed.

Lemma step_link lk c L t i :
  cache_ok c L -> thread_ok (nodes c) L t -> t_pc t = Link i ->
  exists t', step lk c t = Ok (lk, c, t') /\ step_post lk c L t lk c L t'.
Proof.
  intros Hc [Hh Hv Hpc] E. unfold pc_ok in Hpc. rewrite E in Hpc. destruct Hpc as (Hs & Hb & Ho & Hi).
  unfold step. rewrite E. case_bool_decide as Hlt.
  - destruct (lookup_lt_is_Some_2 (t_prev t) i) as [p Hp]; [rewrite (sp_prev _ _ _ Hs); lia|].
    rewrite (index_lookup _ _ _ Hp). cbn [mbind outcome_bind]. destruct p as [p|].
    + eexists. split; [reflexivity|].
      apply post_same; [done| |unfold owner; by rewrite E|done|by unfold result; rewrite E|hold E|hold E|].
      2: { meas E. rewrite (linking_step B i) by lia. destruct (adjacent c _ i); lia. }
      split; [done|done|]. cbn. split_and!; eauto; [by destruct Hs|by destruct Ho].
    + unfold head. rewrite (cache_open _ _ Hc). cbn [mbind outcome_bind].
      eexists. split; [reflexivity|].
      apply post_same; [done| |unfold owner; by rewrite E|done|by unfold result; rewrite E|hold E|hold E|].
      2: { pose proof (rem_bound _ _ i 0 (cache_heap _ _ Hc) ltac:(lia)).
           meas E. rewrite (linking_step B i) by lia. lia. }
      split; [done|done|]. cbn. split_and!; eauto; [by destruct Hs|by destruct Ho|by left|].
      intros _. destruct i as [|i]; [|lia]. destruct Hb as [q Hq]. congruence.
  - eexists. split; [reflexivity|]. assert (i <> 0%nat) as Hne by lia.
    split; [done|by split|done|apply grows_refl|done|done|hold E| |meas E].
    unfold result. rewrite E. cbn. by rewrite decide_False.
Qed.

Lemma step_alloc lk c L t :
  cache_ok c L -> thread_ok (nodes c) L t -> t_pc t = Alloc ->
  exists c' t', step lk c t = Ok (lk, c', t') /\ step_post lk c L t lk c' L t'.
Proof.
  intros Hc [Hh Hv Hpc] E. unfold pc_ok in Hpc. rewrite E in Hpc. destruct Hpc as (Hs & Hb).
  pose proof (cache_heap _ _ Hc) as H. unfold step. rewrite E. eexists _, _. split; [reflexivity|].
  set (x := newNode _ _ _ _). set (c' := MkCache _ _ _ _ _).
  assert (heap_ok (nodes c') L) as Hh'.
  { apply (heap_ok_frame (nodes c)); [done|apply extends_app|..]; cbn [nodes c'].
    - intros id n [Hn|[_ Hn]]%lookup_app_Some; [by apply (ok_towers _ _ H id)|].
      apply list_lookup_singleton_Some in Hn as [_ <-]. done.
    - intros l id Hl Hid. unfold tower_at. rewrite lookup_app_l; [done|].
      destruct Hid as [->|Hid]; [|by apply (ok_ids _ _ H l)].
      by apply (lookup_lt_is_Some_1 _ _ (ok_head _ _ H)). }
  assert (cache_ok c' L) as Hc' by (split; [done|apply Hc..]).
  assert (forall id, (id < length (nodes c))%nat -> keyof (nodes c') id = keyof (nodes c) id /\
    entry_at (nodes c') id = entry_at (nodes c) id) as Hsame.
  { intros id Hid. unfold keyof, entry_at. cbn. by rewrite lookup_app_l. }
  assert (grows (nodes c) L (nodes c') L None) as Hg.
  { split; [apply extends_app|done|auto|]. intros id Hid _. by apply Hsame. }
  pose proof (lookup_lt_is_Some_1 _ _ (ok_head _ _ H)) as H0.
  assert ((nodes c ++ [x]) !! length (nodes c) = Some x) as Hx by (by apply list_lookup_middle).
  split; [done| |done|unfold owner; by rewrite E| |done|hold E| |meas E].
  - split; [done|done|]. cbn.
    split; [pose proof (splices_grows _ _ _ _ _ _ H Hg Hs) as Hs'; by destruct Hs'|].
    split; [done|]. split; [|lia]. destruct Hv as [ty Hty].
    pose proof (Entry.NewEntryValues_spec (t_values t)) as Hnew. split; cbn [t_x t_key t_values].
    + cbn. rewrite length_app. cbn. lia.
    + unfold keyof, c'. cbn [nodes]. by rewrite Hx.
    + unfold entry_at, c'. cbn [nodes]. rewrite Hx. cbn. destruct (Entry.NewEntryValues (t_values t)); eauto; exfalso; eauto.
    + lia.
    + intros j _ Hin. apply (ok_ids _ _ H) in Hin. lia.
  - intros id [= <-]. right. cbn. rewrite length_app. cbn. lia.
  - unfold result. rewrite E. cbn. apply (contents_ext c c' L L); [done..|].
    intros id Hid. apply Hsame. by apply (ok_ids _ _ H 0%nat).
Qed.

(** Every step is safe, keeps the invariant, and changes the map exactly once per
    thread, as [put_spec] says. *)
Lemma step_spec lk c L t :
  cache_ok c L -> thread_ok (nodes c) L t -> checked (contents c) t -> (forall n, holds t = Some n -> n ∈ lk) ->
  exists lk' c' t' L', step lk c t = Ok (lk', c', t') /\ step_post lk c L t lk' c' L' t'.
Proof.
  intros Hc Ht Hck Hlk.
  destruct (t_pc t) as [| |i from| |old| | |i|i from retry|i|n|n j|n|n|n|r] eqn:E.
  - unfold step. rewrite E. eexists lk, _, _, L. split; [reflexivity|].
    pose proof (cache_ok_height c L (c_height c) Hc (cache_height _ _ Hc)) as [H1 H2 H3].
    split; [by split|by destruct Ht|done|apply grows_refl|done|done|hold E| |meas E].
    unfold result. rewrite E. cbn. apply contents_fields.
  - destruct (step_load lk c L t Hc Ht E) as (t' & ? & ?). by exists lk, c, t', L.
  - destruct (step_down lk c L t i from Hc Ht E) as (t' & ? & ?). by exists lk, c, t', L.
  - destruct Ht as [Hh Hv Hpc]. unfold pc_ok in Hpc. rewrite E in Hpc. unfold step. rewrite E.
    eexists lk, _, _, L. split; [reflexivity|].
    apply post_same; [done| |done|done|unfold result; by rewrite E|hold E|hold E|meas E; rewrite decide_True by done; lia].
    split; [done|done|]. cbn. by destruct Hpc as [[] ?].
  - destruct Ht as [Hh Hv Hpc]. unfold pc_ok in Hpc. rewrite E in Hpc. unfold step. rewrite E.
    assert (forall pc, pc = Alloc \/ pc = ReloadHeight -> thread_ok (nodes c) L (goto t pc)) as Ht.
    { intros pc Hp. split; [done|done|]. destruct Hp as [-> | ->]; cbn; by destruct Hpc as [[] ?]. }
    repeat case_bool_decide; eexists lk, _, _, L; (split; [reflexivity|]).
    + split; [apply cache_ok_height; [done|lia]|cbn; auto|done|apply grows_refl|done|done|hold E| |meas E; case_decide; lia].
      unfold result. rewrite E. cbn. apply contents_fields.
    + apply post_same; [done|auto|done|done|unfold result; by rewrite E|hold E|hold E|meas E; rewrite decide_False by done; lia].
    + apply post_same; [done|auto|done|done|unfold result; by rewrite E|hold E|hold E|meas E; case_decide; lia].
  - destruct Ht as [Hh Hv Hpc]. unfold pc_ok in Hpc. rewrite E in Hpc. unfold step. rewrite E.
    eexists lk, _, _, L. split; [reflexivity|].
    apply post_same; [done| |done|done|unfold result; by rewrite E|hold E|hold E|meas E; rewrite decide_True by done; lia].
    split; [done|done|]. cbn. by destruct Hpc as [[] ?].
  - destruct (step_alloc lk c L t Hc Ht E) as (c' & t' & ? & ?). by exists lk, c', t', L.
  - destruct (step_link lk c L t i Hc Ht E) as (t' & ? & ?). by exists lk, c, t', L.
  - destruct (step_search lk c L t i from retry Hc Ht E) as (t' & ? & ?). by exists lk, c, t', L.
  - destruct (step_cas lk c L t i Hc Ht E) as (c' & t' & L' & ? & ?). by exists lk, c', t', L'.
  - destruct (step_check lk c L t n Hc Ht Hck) as (t' & ? & ?); [by left|]. by exists lk, c, t', L.
  - destruct (step_check lk c L t n Hc Ht Hck) as (t' & ? & ?); [eauto|]. by exists lk, c, t', L.
  - destruct (step_mutex lk c L t n Hc Ht Hck Hlk) as (lk' & t' & ? & ?); [by left|]. by exists lk', c, t', L.
  - destruct (step_locked lk c L t n Hc Ht Hck E) as (c' & t' & ? & ?). by exists lk, c', t', L.
  - destruct (step_mutex lk c L t n Hc Ht Hck Hlk) as (lk' & t' & ? & ?); [by right|]. by exists lk', c, t', L.
  - unfold step. rewrite E. eexists lk, _, _, L. split; [reflexivity|].
    apply post_same; [done|done|done|done|done|hold E|done|eauto].
Qed.

End CachePut.
