(* ===== verification/CacheRuns.v ===== *)
(** Whole runs of [Cache]'s [Put]: any number of threads under any schedule
    (linearizability, the shape of the list), one thread left to run alone, and
    [Put] called sequentially. *)
From stdpp Require Import gmap.
From S2P Require Import Prelude Bytes Values Entry Cache CacheLaws CachePut.
Import Values Cache CacheLaws CachePut.

Module CacheRuns.

(** ** Several threads *)

Definition well_formed (c : Cache) : Prop := exists L, cache_ok c L.

(** A call of [Put] that has not begun. *)
Definition fresh (t : thread) : Prop :=
  t_pc t = Start /\ (1 <= t_height t <= maxHeight)%nat /\ exists ty, Entry.same_type ty (t_values t).

(** The type of an entry is fixed. *)
Definition settled (e : Entry.Entry) : Prop := Entry.vType e <> 0 \/ Entry.values e <> [].

(** No two calls race to give an entry its type, which [Add] reads without the
    lock: those of a key all bring values of one type, or all bring some values
    and what is stored for the key has its type. *)
Definition race_free (m : gmap (list Z) Entry.Entry) (ts : list thread) : Prop :=
  forall k,
    (exists ty, forall t, t ∈ ts -> t_key t = k -> Entry.same_type ty (t_values t)) \/
    ((forall e, m !! k = Some e -> settled e) /\ forall t, t ∈ ts -> t_key t = k -> t_values t <> []).

Record system_ok (lk : mutexes) (c : Cache) (L : nat -> list nat) (ts : list thread) : Prop := {
  sys_cache : cache_ok c L;
  sys_threads : forall k t, ts !! k = Some t -> thread_ok (nodes c) L t;
  sys_checked : forall k t, ts !! k = Some t -> checked (contents c) t;
  sys_owners : forall i j ti tj x, ts !! i = Some ti -> ts !! j = Some tj -> i <> j ->
    owner ti = Some x -> owner tj <> Some x;
  sys_locks : forall n, n ∈ lk <-> exists k t, ts !! k = Some t /\ holds t = Some n;
  sys_holders : forall i j ti tj n, ts !! i = Some ti -> ts !! j = Some tj -> i <> j ->
    holds ti = Some n -> holds tj <> Some n;
  sys_races : race_free (contents c) ts
}.

(** What [put_spec] changes. *)
Lemma put_spec_cases k vs m m' r :
  put_spec k vs m = (m', r) ->
  m' = m \/
  (exists e, m !! k = None /\ Entry.NewEntryValues vs = Ok e /\ m' = <[k := e]> m) \/
  (exists e e', m !! k = Some e /\ vs <> [] /\ Entry.passes e vs /\ Entry.Add_locked e vs = Ok e' /\
    m' = <[k := e']> m).
Proof.
  unfold put_spec. destruct (m !! k) as [e|] eqn:E.
  - destruct (decide (vs = [])) as [->|Hv].
    { cbn. intros [= <- _]. left. by rewrite insert_id. }
    destruct (Entry.Add e vs) as [e'|err|] eqn:Ea; [|by intros [= <- _]; left..].
    intros [= <- _]. right. right. exists e, e'.
    assert (Entry.passes e vs) as Hp.
    { apply Entry.passes_forallb. destruct (_ && _) eqn:Eb; [|done]. unfold Entry.Add in Ea.
      destruct vs; [done|]. by rewrite Eb in Ea. }
    by rewrite Entry.Add_passes in Ea.
  - destruct (Entry.NewEntryValues vs) as [e|err|] eqn:En; [|by intros [= <- _]; left..].
    intros [= <- _]. right. left. by exists e.
Qed.

Lemma put_spec_race m ts t m' r :
  race_free m ts -> t ∈ ts -> put_spec (t_key t) (t_values t) m = (m', r) -> race_free m' ts.
Proof.
  intros Hr Ht Hp k. destruct (Hr k) as [?|[Hm Hne]]; [by left|right]. split; [|done]. intros e He.
  destruct (put_spec_cases _ _ _ _ _ Hp) as [->|[(e1 & Hn & He1 & ->)|(e1 & e2 & Hn & Hv & Hpass & Ha & ->)]];
    [by apply Hm|..]; apply lookup_insert_Some in He as [[<- <-]|[_ He]]; try (by apply Hm).
  - right. pose proof (Entry.NewEntryValues_spec (t_values t)) as Hs. rewrite He1 in Hs.
    destruct Hs as (_ & -> & _). by apply Hne.
  - right. destruct (Entry.Add_locked_spec e1 (t_values t) Hv Hpass) as (e' & Ha' & _ & Hval & _).
    congruence.
Qed.

(** What a thread has checked stays true when another one puts its values. *)
Lemma put_spec_checked m ts t tj m' r :
  race_free m ts -> t ∈ ts -> tj ∈ ts -> put_spec (t_key t) (t_values t) m = (m', r) ->
  checked m tj -> checked m' tj.
Proof.
  intros Hr Ht Hj Hp Hc.
  assert (forall e, m !! t_key tj = Some e -> exists e', m' !! t_key tj = Some e' /\
    (settled e -> Entry.vType e' = Entry.vType e) /\
    (~ settled e -> Entry.passes e' (t_values tj))) as Hkeep.
  { intros e He.
    destruct (put_spec_cases _ _ _ _ _ Hp) as [->|[(e1 & Hn & He1 & ->)|(e1 & e2 & Hn & Hv & Hpass & Ha & ->)]].
    - exists e. split_and!; [done|done|]. intros Hs. left. destruct (decide (Entry.vType e = 0)); [done|].
      exfalso. apply Hs. by left.
    - exists e. rewrite lookup_insert_ne by congruence. split_and!; [done|done|].
      intros Hs. left. destruct (decide (Entry.vType e = 0)); [done|]. exfalso. apply Hs. by left.
    - destruct (decide (t_key t = t_key tj)) as [Ek|Ek].
      + rewrite Ek in *. rewrite lookup_insert_eq. exists e2. split; [done|].
        assert (e1 = e) as -> by congruence.
        destruct (Entry.Add_locked_spec e (t_values t) Hv Hpass) as (e' & Ha' & _ & _ & Hty & Hnew).
        assert (e' = e2) as -> by congruence. split; [exact Hty|]. intros Hs.
        destruct (Hr (t_key tj)) as [[ty Hone]|[Hset _]]; [|by destruct Hs; apply Hset].
        destruct Hnew as (v & Hin & Ev); [destruct (Entry.values e) eqn:El; [done|exfalso; apply Hs; right; by rewrite El]|].
        right. rewrite Ev. assert (Entry.valueType v = ty) as ->; [|by apply Hone].
        pose proof (Hone t Ht Ek) as Ht'. unfold Entry.same_type in Ht'. rewrite Forall_forall in Ht'. by apply Ht'.
      + exists e. rewrite lookup_insert_ne by done. split_and!; [done|done|].
        intros Hs. left. destruct (decide (Entry.vType e = 0)); [done|]. exfalso. apply Hs. by left. }
  unfold checked in *. destruct (t_pc tj); try done.
  - destruct Hc as (e & He & H0 & Hty). destruct (Hkeep e He) as (e' & He' & Hs & _).
    exists e'. rewrite Hs by (by left). done.
  - destruct Hc as (e & He & Hpass). destruct (Hkeep e He) as (e' & He' & Hs & Hn). exists e'. split; [done|].
    destruct (decide (Entry.vType e <> 0 \/ Entry.values e <> [])) as [Hd|Hd]; [|by apply Hn].
    unfold Entry.passes. by rewrite (Hs Hd).
  - destruct Hc as (e & He & Hpass). destruct (Hkeep e He) as (e' & He' & Hs & Hn). exists e'. split; [done|].
    destruct (decide (Entry.vType e <> 0 \/ Entry.values e <> [])) as [Hd|Hd]; [|by apply Hn].
    unfold Entry.passes. by rewrite (Hs Hd).
Qed.

(** The map changes by [put_spec] or not at all. *)
Lemma effect_race lk c L t lk' c' L' t' ts :
  step_post lk c L t lk' c' L' t' -> race_free (contents c) ts -> t ∈ ts -> race_free (contents c') ts.
Proof.
  intros Hp Hr Ht. pose proof (po_effect _ _ _ _ _ _ _ _ Hp) as He.
  destruct (result t), (result t') as [r'|]; [|done|eauto using put_spec_race|]; [destruct He as [_ ->]|rewrite He]; done.
Qed.

Lemma effect_checked lk c L t lk' c' L' t' ts tj :
  step_post lk c L t lk' c' L' t' -> race_free (contents c) ts -> t ∈ ts -> tj ∈ ts ->
  checked (contents c) tj -> checked (contents c') tj.
Proof.
  intros Hp Hr Ht Hj Hc. pose proof (po_effect _ _ _ _ _ _ _ _ Hp) as He.
  destruct (result t), (result t') as [r'|]; [|done|eauto using put_spec_checked|]; [destruct He as [_ ->]|rewrite He]; done.
Qed.

Lemma race_free_insert m ts k t t' :
  race_free m ts -> ts !! k = Some t -> t_key t' = t_key t -> t_values t' = t_values t ->
  race_free m (<[k := t']> ts).
Proof.
  intros Hr Hk E1 E2 key.
  assert (forall P : thread -> Prop, (P t -> P t') -> (forall x, x ∈ ts -> P x) ->
    forall x, x ∈ <[k := t']> ts -> P x) as Hall.
  { intros P Ht HP x [j Hj]%list_elem_of_lookup. apply list_lookup_insert_Some in Hj as [(_ & <- & _)|[_ Hj]].
    - by apply Ht, HP, (list_elem_of_lookup_2 _ k).
    - by apply HP, (list_elem_of_lookup_2 _ j). }
  destruct (Hr key) as [[ty Hone]|[Hm Hne]]; [left; exists ty|right; split; [done|]].
  - by apply (Hall (fun x => t_key x = key -> Entry.same_type ty (t_values x))); [rewrite E1, E2|].
  - by apply (Hall (fun x => t_key x = key -> t_values x <> [])); [rewrite E1, E2|].
Qed.

(** The calls of [h], in this order, on the map [m], each with its result. *)
Fixpoint replay (ts : list thread) (h : list (nat * option string)) (m : gmap (list Z) Entry.Entry)
  : option (gmap (list Z) Entry.Entry) :=
  match h with
  | [] => Some m
  | (k, r) :: h =>
      t ← ts !! k;
      let '(m', r') := put_spec (t_key t) (t_values t) m in
      if decide (r = r') then replay ts h m' else None
  end.

Lemma replay_app ts h h' m : replay ts (h ++ h') m = (m' ← replay ts h m; replay ts h' m').
Proof.
  revert m. induction h as [|[k r] h IH]; intros m; [done|]. cbn [replay app].
  destruct (ts !! k) as [t|]; [|done]. cbn. destruct (put_spec _ _ m) as [m' r'].
  case_decide; [apply IH|done].
Qed.

(** [h] explains how the threads [ts0] got from the map [m0] to where they are. *)
Record explains (m0 : gmap (list Z) Entry.Entry) (ts0 : list thread) (h : list (nat * option string))
    (c : Cache) (ts : list thread) : Prop := {
  ex_replay : replay ts0 h m0 = Some (contents c);
  ex_nodup : NoDup h.*1;
  ex_same : length ts = length ts0;
  ex_calls : forall k t, ts !! k = Some t -> exists t0, ts0 !! k = Some t0 /\
    t_key t = t_key t0 /\ t_values t = t_values t0;
  ex_result : forall k t r, ts !! k = Some t -> result t = Some r <-> (k, r) ∈ h
}.

Lemma owner_lt ns L t x : thread_ok ns L t -> owner t = Some x -> (x < length ns)%nat.
Proof.
  intros [_ _ H] Ho. unfold pc_ok, owner in *.
  destruct (t_pc t); try done; injection Ho as <-; destruct_and!; by apply (own_id _ _ _ _ ltac:(eassumption)).
Qed.

(** The mutexes after a step: the set, and who holds what. *)
Lemma locks_step lk c L t lk' c' L' t' ts k :
  step_post lk c L t lk' c' L' t' -> system_ok lk c L ts -> ts !! k = Some t ->
  (forall n, n ∈ lk' <-> exists j tj, <[k := t']> ts !! j = Some tj /\ holds tj = Some n) /\
  (forall j tj n, ts !! j = Some tj -> k <> j -> holds tj = Some n -> holds t' <> Some n).
Proof.
  intros Hp Hs Hk. pose proof (po_locks _ _ _ _ _ _ _ _ Hp) as Hl. pose proof (sys_locks _ _ _ _ Hs) as Hlk.
  assert (forall n, (exists j tj, <[k := t']> ts !! j = Some tj /\ holds tj = Some n) <->
    holds t' = Some n \/ (n ∈ lk /\ holds t <> Some n)) as Hiff.
  { intros n. split.
    - intros (j & tj & [(<- & <- & _)|[Hne Hj]]%list_lookup_insert_Some & Hh); [by left|right].
      split; [apply Hlk; by exists j, tj|]. intros Hh'. by apply (sys_holders _ _ _ _ Hs j k tj t n).
    - intros [Hh|[Hn Hne]].
      + exists k, t'. rewrite list_lookup_insert_eq by (by eapply lookup_lt_Some). done.
      + apply Hlk in Hn as (j & tj & Hj & Hh). exists j, tj. split; [|done].
        rewrite list_lookup_insert_ne; [done|]. intros <-. congruence. }
  split; [intros n; rewrite Hiff|].
  - destruct (holds t) as [m|] eqn:E, (holds t') as [m'|] eqn:E'.
    + destruct Hl as [-> ->]. destruct (decide (n = m)) as [->|Hne]; [|naive_solver].
      split; [by left|]. intros _. apply Hlk. eauto.
    + rewrite Hl. set_solver.
    + destruct Hl as [_ ->]. set_solver.
    + rewrite Hl. naive_solver.
  - intros j tj n Hj Hne Hh Hh'. assert (n ∈ lk) as Hn by (apply Hlk; eauto).
    rewrite Hh' in Hl. destruct (holds t) as [m|] eqn:E; [|by destruct Hl].
    destruct Hl as [<- _]. by apply (sys_holders _ _ _ _ Hs j k tj t n).
Qed.

Lemma system_step lk c L ts k t :
  system_ok lk c L ts -> ts !! k = Some t ->
  exists lk' c' t' L', step lk c t = Ok (lk', c', t') /\ step_post lk c L t lk' c' L' t' /\
    system_ok lk' c' L' (<[k := t']> ts).
Proof.
  intros Hsys Hk. pose proof Hsys as [Hc Ht Hck Ho Hlk Hh Hr].
  destruct (step_spec lk c L t Hc (Ht _ _ Hk) (Hck _ _ Hk)) as (lk' & c' & t' & L' & Hs & Hp).
  { intros n Hn. apply Hlk. eauto. }
  exists lk', c', t', L'. split; [done|]. split; [done|].
  assert (forall j tj x, ts !! j = Some tj -> k <> j -> owner tj = Some x -> owner t' <> Some x) as Hnew.
  { intros j tj x Hj Hne Hx Hx'. destruct (po_owner _ _ _ _ _ _ _ _ Hp x Hx') as [E|[-> _]].
    - by apply (Ho k j t tj x).
    - pose proof (owner_lt _ _ _ _ (Ht _ _ Hj) Hx). lia. }
  destruct (locks_step _ _ _ _ _ _ _ _ _ _ Hp Hsys Hk) as [Hlk' Hh'].
  pose proof (list_elem_of_lookup_2 _ _ _ Hk) as Hin.
  destruct (po_fixed _ _ _ _ _ _ _ _ Hp) as [F1 F2].
  split; [apply Hp|..|done| |].
  - intros j tj [(<- & <- & _)|[Hne Hj]]%list_lookup_insert_Some; [apply Hp|].
    apply (thread_grows (nodes c) L _ _ (owner t)); [apply Hc|apply Hp| |by apply (Ht j)].
    intros x Hx Hx'. by apply (Ho j k tj t x).
  - intros j tj [(<- & <- & _)|[Hne Hj]]%list_lookup_insert_Some; [apply Hp|].
    apply (effect_checked _ _ _ _ _ _ _ _ ts tj Hp); eauto using list_elem_of_lookup_2.
  - intros i j ti tj x [(<- & <- & _)|[Hi1 Hi]]%list_lookup_insert_Some
      [(<- & <- & _)|[Hj1 Hj]]%list_lookup_insert_Some Hij Hx Hx'; [done| | |].
    + by apply (Hnew j tj x).
    + by apply (Hnew i ti x).
    + by apply (Ho i j ti tj x).
  - intros i j ti tj n [(<- & <- & _)|[Hi1 Hi]]%list_lookup_insert_Some
      [(<- & <- & _)|[Hj1 Hj]]%list_lookup_insert_Some Hij Hx Hx'; [done| | |].
    + by apply (Hh' j tj n).
    + by apply (Hh' i ti n).
    + by apply (Hh i j ti tj n).
  - apply (race_free_insert _ _ _ t); [|done..]. by apply (effect_race _ _ _ _ _ _ _ _ ts Hp).
Qed.

Lemma explains_step m0 ts0 h lk c L ts k t lk' c' t' L' :
  explains m0 ts0 h c ts -> ts !! k = Some t -> step_post lk c L t lk' c' L' t' ->
  exists h', explains m0 ts0 (h ++ h') c' (<[k := t']> ts).
Proof.
  intros [Hr Hn Hl Hc Hres] Hk Hp. pose proof (po_effect _ _ _ _ _ _ _ _ Hp) as He.
  destruct (po_fixed _ _ _ _ _ _ _ _ Hp) as [Hf1 Hf2].
  assert (forall j tj, <[k:=t']> ts !! j = Some tj -> exists t0, ts0 !! j = Some t0 /\
    t_key tj = t_key t0 /\ t_values tj = t_values t0) as Hc'.
  { intros j tj [(<- & <- & _)|[Hne Hj]]%list_lookup_insert_Some; [|by apply Hc].
    rewrite Hf1, Hf2. by apply Hc. }
  assert (forall h', (forall j r, (j, r) ∈ h' -> j = k) -> (forall r, result t' = Some r <-> (k, r) ∈ h ++ h') ->
    forall j tj r, <[k:=t']> ts !! j = Some tj -> result tj = Some r <-> (j, r) ∈ h ++ h') as Hres'.
  { intros h' Hh' Hk' j tj r [(<- & <- & _)|[Hne Hj]]%list_lookup_insert_Some; [done|].
    rewrite (Hres j tj r Hj). rewrite elem_of_app. split; [auto|]. intros [?|Hin]; [done|].
    by apply Hh' in Hin. }
  destruct (result t) as [r|] eqn:E, (result t') as [r'|] eqn:E'; [|done| |].
  - destruct He as [-> He]. exists []. rewrite app_nil_r. split; [by rewrite He|done|by rewrite length_insert|done|].
    intros. rewrite <- (app_nil_r h). apply Hres'; [by intros ?? ?%elem_of_nil| |done].
    intros r'. rewrite app_nil_r, <- (Hres k t r' Hk), E. done.
  - exists [(k, r')]. split; [|..|by rewrite length_insert|done|].
    + rewrite replay_app, Hr. cbn. destruct (Hc k t Hk) as (t0 & -> & E1 & E2). cbn.
      rewrite <- E1, <- E2, He. by rewrite decide_True.
    + rewrite fmap_app, NoDup_app. split; [done|]. split; [|apply NoDup_singleton].
      intros j [[j' r] [E1 Hin]]%list_elem_of_fmap E2%list_elem_of_singleton. cbn in E1. subst j j'.
      apply (Hres k t r Hk) in Hin. congruence.
    + apply Hres'; [by intros j r [= -> ->]%list_elem_of_singleton|].
      intros r. rewrite elem_of_app, <- (Hres k t r Hk), E, list_elem_of_singleton. split; [intros [= ->]; auto|].
      by intros [|[= ->]].
  - exists []. rewrite app_nil_r. split; [by rewrite He|done|by rewrite length_insert|done|].
    intros. rewrite <- (app_nil_r h). apply Hres'; [by intros ?? ?%elem_of_nil| |done].
    intros r'. rewrite app_nil_r, <- (Hres k t r' Hk), E. done.
Qed.

Lemma run_spec sched : forall lk c L ts m0 ts0 h,
  system_ok lk c L ts -> explains m0 ts0 h c ts -> Forall (fun k => k < length ts)%nat sched ->
  exists lk' c' ts' L' h', run sched lk c ts = Ok (lk', c', ts') /\ system_ok lk' c' L' ts' /\
    explains m0 ts0 (h ++ h') c' ts'.
Proof.
  induction sched as [|k sched IH]; intros lk c L ts m0 ts0 h Hs He Hf.
  - exists lk, c, ts, L, []. by rewrite app_nil_r.
  - inversion_clear Hf as [|? ? Hk Hf']. apply lookup_lt_is_Some in Hk as [t Hk].
    destruct (system_step lk c L ts k t Hs Hk) as (lk1 & c1 & t1 & L1 & Hst & Hp & Hs1).
    destruct (explains_step _ _ _ _ _ _ _ _ _ _ _ _ _ He Hk Hp) as [h1 He1].
    destruct (IH lk1 c1 L1 _ m0 ts0 _ Hs1 He1) as (lk2 & c2 & ts2 & L2 & h2 & Hr & Hs2 & He2).
    { by rewrite length_insert. }
    exists lk2, c2, ts2, L2, (h1 ++ h2). rewrite app_assoc. split; [|done].
    cbn [run]. rewrite (index_lookup _ _ _ Hk). cbn [mbind outcome_bind]. by rewrite Hst.
Qed.

Lemma run_app s1 s2 lk c ts :
  run (s1 ++ s2) lk c ts = ('(lk', c', ts') ← run s1 lk c ts; run s2 lk' c' ts').
Proof.
  revert lk c ts. induction s1 as [|k s1 IH]; intros lk c ts; [done|]. cbn [run app].
  destruct (index ts k) as [t| |]; [|done..]. cbn.
  destruct (step lk c t) as [[[lk' c'] t']| |]; [apply IH|done..].
Qed.

(** The initial state explains itself. *)
Lemma fresh_system c L ts :
  cache_ok c L -> Forall fresh ts -> race_free (contents c) ts ->
  system_ok ∅ c L ts /\ explains (contents c) ts [] c ts.
Proof.
  intros Hc Hf Hr. rewrite Forall_lookup in Hf. split; split; try done.
  - intros k t (E & ? & ?)%Hf. split; [done|done|]. unfold pc_ok. by rewrite E.
  - intros k t (E & _)%Hf. unfold checked. by rewrite E.
  - intros i j ti tj x (E & _)%Hf _ _. unfold owner. by rewrite E.
  - intros n. split; [by intros ?%elem_of_empty|]. intros (k & t & (E & _)%Hf & Hh). unfold holds in Hh.
    by rewrite E in Hh.
  - intros i j ti tj n (E & _)%Hf _ _. unfold holds. by rewrite E.
  - constructor.
  - eauto.
  - intros k t r (E & _)%Hf. unfold result. rewrite E. split; [done|by intros ?%elem_of_nil].
Qed.

Lemma NewCache_ok : cache_ok NewCache (fun _ => []).
Proof.
  split; [|cbn; unfold maxHeight; lia|done]. split; cbn.
  - by eexists.
  - intros [|[|id]] n; [by intros [= <-]|done..].
  - intros l Hl [|k] id; [|done]. intros [= <-]. exact (lookup_replicate_2 maxHeight None l Hl).
  - constructor.
  - by intros l id ?%elem_of_nil.
  - done.
  - by intros id ?%elem_of_nil.
Qed.

(** C1: however the steps of any number of concurrent [Put]s interleave, on an open
    cache with no mutex held, none of them panics, and they are linearizable, when
    each call brings values of one type and no two calls race to give an entry its
    type ([race_free]: [Add] reads the type without the lock): some order of calls,
    which only grows as the run goes on ([h1] first, then [h2]), takes the initial
    map to the map the list holds, each call acting as [put_spec] at its place; a
    call that has returned is in the order with the error it returned, a call that
    has not begun is not.  At every moment the list's keys are strictly sorted, and
    when all calls have returned no mutex is held. *)
Theorem Put_linearizable (s1 s2 : list nat) c (ts : list thread) :
  well_formed c -> Forall fresh ts -> race_free (contents c) ts ->
  Forall (fun k => k < length ts)%nat (s1 ++ s2) ->
  exists lk1 c1 ts1 lk2 c2 ts2 h1 h2,
    run s1 ∅ c ts = Ok (lk1, c1, ts1) /\ run (s1 ++ s2) ∅ c ts = Ok (lk2, c2, ts2) /\
    replay ts h1 (contents c) = Some (contents c1) /\
    replay ts (h1 ++ h2) (contents c) = Some (contents c2) /\
    NoDup ((h1 ++ h2).*1) /\
    (forall k t r, ts1 !! k = Some t -> t_pc t = Done r -> (k, r) ∈ h1) /\
    (forall k t r, ts1 !! k = Some t -> t_pc t = Start -> (k, r) ∉ h1) /\
    (forall k t r, ts2 !! k = Some t -> t_pc t = Done r -> (k, r) ∈ h1 ++ h2) /\
    well_formed c2 /\
    (exists ids, GetAllNodes c2 = Ok ids /\ key_sorted (nodes c2) ids) /\
    ((forall k t, ts2 !! k = Some t -> exists r, t_pc t = Done r) -> lk2 = ∅).
Proof.
  intros [L Hc] Hf Hr [Hs1 Hs2]%Forall_app. destruct (fresh_system c L ts Hc Hf Hr) as [Hs He].
  destruct (run_spec s1 ∅ c L ts _ ts [] Hs He Hs1) as (lk1 & c1 & ts1 & L1 & h1 & Hr1 & Hss1 & He1).
  cbn [app] in He1.
  destruct (run_spec s2 lk1 c1 L1 ts1 _ ts h1 Hss1 He1) as (lk2 & c2 & ts2 & L2 & h2 & Hr2 & Hss2 & He2).
  { by rewrite (ex_same _ _ _ _ _ He1). }
  exists lk1, c1, ts1, lk2, c2, ts2, h1, h2. split_and!; [done| |apply He1|apply He2|apply He2|..].
  - rewrite run_app, Hr1. done.
  - intros k t r Hk E. apply (ex_result _ _ _ _ _ He1 k t r Hk). unfold result. by rewrite E.
  - intros k t r Hk E Hin. apply (ex_result _ _ _ _ _ He1 k t r Hk) in Hin. unfold result in Hin. by rewrite E in Hin.
  - intros k t r Hk E. apply (ex_result _ _ _ _ _ He2 k t r Hk). unfold result. by rewrite E.
  - exists L2. apply Hss2.
  - exists (L2 0%nat). split; [apply (GetAllNodes_ok c2 L2)|apply (cache_heap c2 L2)]; try apply Hss2. auto.
  - intros Hd. apply set_eq. intros n. rewrite (sys_locks _ _ _ _ Hss2 n). split; [|by intros ?%elem_of_empty].
    intros (k & t & Hk & Hh). destruct (Hd k t Hk) as [r E]. unfold holds in Hh. by rewrite E in Hh.
Qed.

(** ** One thread running alone *)

(** Nodes a thread still allocates. *)
Definition allocs (t : thread) : nat :=
  match t_pc t with Link _ | Search _ _ _ | Cas _ | AddTo _ | CheckType _ _ | Lock _ | Locked _ | Unlock _ | Done _ => 0 | _ => 1 end.

Lemma set_tower_frame c id l v c' :
  set_tower c id l v = Ok c' -> length (nodes c') = length (nodes c) /\ size c' = size c.
Proof.
  unfold set_tower. destruct (index (nodes c) id) as [n| |]; [|done..]. cbn.
  destruct (store (tower n) l v); [|done..]. cbn. intros [= <-]. cbn. by rewrite length_insert.
Qed.

Lemma set_entry_frame c id e c' :
  set_entry c id e = Ok c' -> length (nodes c') = length (nodes c) /\ size c' = size c.
Proof.
  unfold set_entry. destruct (index (nodes c) id) as [n| |]; [|done..]. cbn.
  intros [= <-]. cbn. by rewrite length_insert.
Qed.

Lemma splice_at_pc t i p n t' : splice_at t i p n = Ok t' -> t_pc t' = t_pc t.
Proof.
  unfold splice_at. destruct (store (t_prev t) i p); [|done..]. cbn.
  destruct (store (t_next t) i n); [|done..]. cbn. by intros [= <-].
Qed.

(** The size is charged by the first step; a node is allocated once. *)
Lemma step_frame lk c t lk' c' t' :
  step lk c t = Ok (lk', c', t') ->
  size c' = (match t_pc t with
             | Start => u32 (size c + (Z.of_nat (length (t_key t)) + SizeOf (t_values t)))
             | _ => size c end) /\
  (length (nodes c') + allocs t' <= length (nodes c) + allocs t)%nat /\ t_pc t' <> Start.
Proof.
  unfold step, setNexNode, allocs. intros Hs. destruct (t_pc t) eqn:E; ok_inv; cbn [t_pc goto nodes size add_size].
  all: repeat match goal with
    | H : set_tower _ _ _ _ = Ok _ |- _ => apply set_tower_frame in H as [? ?]
    | H : set_entry _ _ _ = Ok _ |- _ => apply set_entry_frame in H as [? ?]
    end.
  all: try match goal with retry : bool |- _ => destruct retry end.
  all: repeat match goal with |- context[if ?b =? ?d then _ else _] => destruct (b =? d) end.
  all: try rewrite E; repeat case_match; rewrite ?length_app; cbn [length].
  all: split_and!; [done || congruence|lia|congruence].
Qed.

(** The mutexes when nobody else holds one. *)
Lemma locks_alone lk c L t lk' c' L' t' :
  step_post lk c L t lk' c' L' t' -> (forall n, n ∈ lk <-> holds t = Some n) ->
  forall n, n ∈ lk' <-> holds t' = Some n.
Proof.
  intros Hp Hlk n. pose proof (po_locks _ _ _ _ _ _ _ _ Hp) as Hl. specialize (Hlk n).
  destruct (holds t) as [m|], (holds t') as [m'|]; [destruct Hl as [-> ->]|rewrite Hl|destruct Hl as [? ->]|rewrite Hl];
    set_solver.
Qed.

(** A thread alone: the measure bounds the steps it takes. *)
Lemma run_alone_ok fuel : forall lk c L t B,
  cache_ok c L -> thread_ok (nodes c) L t -> checked (contents c) t ->
  (forall n, n ∈ lk <-> holds t = Some n) -> (length (nodes c) + allocs t <= B)%nat ->
  (measure B c L t < fuel)%nat ->
  exists c' r, run_alone fuel lk c t = Ok (c', r) /\ well_formed c' /\
    (length (nodes c') <= B)%nat /\
    size c' = (match t_pc t with
               | Start => u32 (size c + (Z.of_nat (length (t_key t)) + SizeOf (t_values t)))
               | _ => size c end) /\
    match result t with
    | Some r0 => r = r0 /\ contents c' = contents c
    | None => put_spec (t_key t) (t_values t) (contents c) = (contents c', r)
    end.
Proof.
  induction fuel as [|fuel IH]; intros lk c L t B Hc Ht Hck Hlk HB Hm; [lia|]. cbn [run_alone].
  destruct (step_spec lk c L t Hc Ht Hck (fun n => proj2 (Hlk n))) as (lk1 & c1 & t1 & L1 & Hs & Hp).
  destruct (step_frame _ _ _ _ _ _ Hs) as (Hsz & Hal & Hns).
  assert ((exists r, t_pc t = Done r) \/ exists c' r, run_alone fuel lk1 c1 t1 = Ok (c', r) /\ well_formed c' /\
    (length (nodes c') <= B)%nat /\ size c' = size c1 /\
    match result t with
    | Some r0 => r = r0 /\ contents c' = contents c
    | None => put_spec (t_key t) (t_values t) (contents c) = (contents c', r)
    end) as [[r E]|(c' & r & Hrun & Hw & Hlen & Hsz' & Hres)].
  - destruct (po_measure _ _ _ _ _ _ _ _ Hp) as [?|[(n & E & Hn)|Hlt]]; [by left| |right].
    { apply Hlk in Hn. unfold holds in Hn. by rewrite E in Hn. }
    destruct (IH lk1 c1 L1 t1 B) as (c' & r & Hrun & Hw & Hlen & Hsz' & Hres);
      [apply Hp|apply Hp|apply Hp|by apply (locks_alone _ _ _ _ _ _ _ _ Hp)|lia|specialize (Hlt B ltac:(lia)); lia|].
    exists c', r. split_and!; [done|done|done| |].
    { rewrite Hsz'. by destruct (t_pc t1). }
    pose proof (po_effect _ _ _ _ _ _ _ _ Hp) as He. destruct (po_fixed _ _ _ _ _ _ _ _ Hp) as [E1 E2].
    destruct (result t) as [r0|], (result t1) as [r1|]; [|done| |].
    + destruct He as [-> <-]. done.
    + destruct Hres as [-> ->]. done.
    + by rewrite <- He, <- E1, <- E2.
  - rewrite E. exists c, r. split_and!; [done|by exists L|lia|done|]. unfold result. by rewrite E.
  - exists c', r. split_and!; [|done|done|by rewrite Hsz'|done].
    rewrite Hs. destruct (t_pc t) eqn:E; try done.
    destruct fuel; [done|]. unfold step in Hs. rewrite E in Hs. injection Hs as -> -> ->.
    cbn in Hrun. by rewrite E in Hrun.
Qed.

(** What a thread has left is linear in the list's length and in its values. *)
Lemma measure_bound B c L t :
  cache_ok c L -> thread_ok (nodes c) L t -> (length (nodes c) <= B)%nat ->
  (measure B c L t <= 60 * B + 434 + length (t_values t))%nat.
Proof.
  intros [H _ _] [Hh _ Hpc] HB. unfold measure, adding, pc_ok in *.
  assert (forall i, linking B i <= 40 * B + 400)%nat as Hl.
  { intros i. unfold linking. transitivity (maxHeight * (2 * B + 20))%nat; [|unfold maxHeight; lia].
    apply Nat.mul_le_mono_r. lia. }
  assert (forall i from, (i < maxHeight)%nat -> (rem (nodes c) (L i) from <= B)%nat) as Hr.
  { intros i from Hi. pose proof (rem_bound (nodes c) L i from H Hi). lia. }
  assert (forall i, (i < maxHeight)%nat -> (linking B (S i) + B + 10 <= linking B 0)%nat) as Hs.
  { intros i Hi. unfold linking, maxHeight in *.
    assert ((20 - S i) * (2 * B + 20) <= 19 * (2 * B + 20))%nat by (apply Nat.mul_le_mono_r; lia). lia. }
  pose proof (Hl 0%nat).
  destruct (t_pc t) as [| |i from| |old| | |i|i from retry|i|n|n j|n|n|n|r]; try case_decide; unfold maxHeight in *; try lia.
  - destruct Hpc as (_ & Hi & _). specialize (Hr i from Hi).
    assert (i * (B + 1) <= 19 * (B + 1))%nat by (apply Nat.mul_le_mono_r; lia). lia.
  - specialize (Hl i). lia.
  - assert (i < 20)%nat as Hi by (destruct_and!; lia). specialize (Hr i from Hi). specialize (Hs i Hi). lia.
  - specialize (Hl (S i)). destruct (adjacent c t i); lia.
Qed.

(** No other thread is inside [Add] on the entry of this thread's key. *)
Definition unhindered (ts : list thread) (k : nat) (t : thread) : Prop :=
  forall j tj n, j <> k -> ts !! j = Some tj -> holds tj = Some n -> t_key tj <> t_key t.

Definition returned (t : thread) : bool := match t_pc t with Done _ => true | _ => false end.

Lemma holds_node lk c L ts k t n :
  system_ok lk c L ts -> ts !! k = Some t -> holds t = Some n \/ t_pc t = Lock n ->
  n ∈ L 0%nat /\ keyof (nodes c) n = t_key t.
Proof.
  intros Hs Hk H. pose proof (th_pc _ _ _ (sys_threads _ _ _ _ Hs k t Hk)) as Hpc. unfold pc_ok, holds in *.
  destruct H as [H|H]; [|rewrite H in Hpc; tauto].
  destruct (t_pc t); try done; injection H as <-; tauto.
Qed.

Lemma unhindered_free lk c L ts k t n :
  system_ok lk c L ts -> ts !! k = Some t -> unhindered ts k t -> t_pc t = Lock n -> n ∉ lk.
Proof.
  intros Hs Hk Hu E Hn. apply (sys_locks _ _ _ _ Hs) in Hn as (j & tj & Hj & Hh).
  destruct (decide (j = k)) as [->|Hne].
  - unfold holds in Hh. assert (tj = t) as -> by congruence. by rewrite E in Hh.
  - apply (Hu j tj n Hne Hj Hh).
    destruct (holds_node _ _ _ _ j tj n Hs Hj) as [_ <-]; [by left|].
    by destruct (holds_node _ _ _ _ k t n Hs Hk) as [_ <-]; [right|].
Qed.

Lemma run_one_ok n : forall lk c L ts k t B,
  system_ok lk c L ts -> ts !! k = Some t -> unhindered ts k t -> (length (nodes c) + allocs t <= B)%nat ->
  (measure B c L t <= n)%nat ->
  exists lk' c' L' t', run (replicate n k) lk c ts = Ok (lk', c', <[k := t']> ts) /\ returned t' = true /\
    system_ok lk' c' L' (<[k := t']> ts).
Proof.
  induction n as [|n IH]; intros lk c L ts k t B Hs Hk Hu HB Hm; cbn [replicate run].
  - exists lk, c, L, t. rewrite list_insert_id by done. split; [done|]. split; [|done].
    unfold measure, adding, returned in *. destruct (t_pc t); try done; exfalso; lia.
  - destruct (system_step lk c L ts k t Hs Hk) as (lk1 & c1 & t1 & L1 & Hst & Hp & Hs1).
    destruct (step_frame _ _ _ _ _ _ Hst) as (_ & Hal & _). pose proof (lookup_lt_Some _ _ _ Hk) as Hlt.
    rewrite (index_lookup _ _ _ Hk). cbn [mbind outcome_bind]. rewrite Hst. cbn [mbind outcome_bind].
    destruct (IH lk1 c1 L1 (<[k := t1]> ts) k t1 B) as (lk' & c' & L' & t' & Hr & Hd & Hs').
    + done.
    + by apply list_lookup_insert_eq.
    + destruct (po_fixed _ _ _ _ _ _ _ _ Hp) as [E _]. intros j tj m Hne Hj. rewrite E.
      rewrite list_lookup_insert_ne in Hj by done. exact (Hu j tj m Hne Hj).
    + lia.
    + destruct (po_measure _ _ _ _ _ _ _ _ Hp) as [[r E]|[(m & E & Hin)|Hlt']].
      * unfold step in Hst. rewrite E in Hst. injection Hst as <- <- <-. unfold measure. rewrite E. lia.
      * by destruct (unhindered_free _ _ _ _ _ _ _ Hs Hk Hu E).
      * specialize (Hlt' B ltac:(lia)). lia.
    + rewrite list_insert_insert_eq in Hr, Hs'. by exists lk', c', L', t'.
Qed.

(** A thread with no other one in its way returns. *)
Lemma run_returns lk c L ts k t :
  system_ok lk c L ts -> ts !! k = Some t -> unhindered ts k t ->
  exists lk' c' L' t', run (replicate (60 * length (nodes c) + 494 + length (t_values t)) k) lk c ts =
      Ok (lk', c', <[k := t']> ts) /\ returned t' = true /\ system_ok lk' c' L' (<[k := t']> ts).
Proof.
  intros Hs Hk Hu. apply (run_one_ok _ lk c L ts k t (length (nodes c) + 1)); [done..| |].
  - unfold allocs. destruct (t_pc t); lia.
  - pose proof (measure_bound (length (nodes c) + 1) c L t (sys_cache _ _ _ _ Hs) (sys_threads _ _ _ _ Hs k t Hk)).
    lia.
Qed.

(** A thread that holds a mutex has no other one in its way. *)
Lemma holder_unhindered lk c L ts k t n :
  system_ok lk c L ts -> ts !! k = Some t -> holds t = Some n -> unhindered ts k t.
Proof.
  intros Hs Hk Hh j tj m Hne Hj Hh' Ekey.
  destruct (holds_node _ _ _ _ k t n Hs Hk) as [Hn En]; [by left|].
  destruct (holds_node _ _ _ _ j tj m Hs Hj) as [Hm Em]; [by left|].
  assert (m = n) as ->.
  { apply (key_sorted_unique (nodes c) (L 0%nat)); [|done..|congruence].
    by apply (cache_heap c L (sys_cache _ _ _ _ Hs)). }
  by apply (sys_holders _ _ _ _ Hs j k tj t n).
Qed.

Definition unreturned (ts : list thread) : nat := length (filter (fun t => returned t = false) ts).

Lemma unreturned_insert ts k t t' :
  ts !! k = Some t -> returned t = false -> returned t' = true ->
  (unreturned (<[k := t']> ts) < unreturned ts)%nat.
Proof.
  intros Hk Ht Ht'. unfold unreturned. rewrite <- (take_drop_middle ts k t Hk) at 2.
  rewrite insert_take_drop by (by eapply lookup_lt_Some). rewrite !filter_app, !filter_cons.
  rewrite (decide_False (P := returned t' = false)), (decide_True (P := returned t = false)) by congruence.
  rewrite !length_app. cbn. lia.
Qed.

(** No deadlock: holders first, then the others, everyone can return. *)
Lemma all_return m : forall lk c L ts,
  system_ok lk c L ts -> (unreturned ts <= m)%nat ->
  exists s lk' c' ts', run s lk c ts = Ok (lk', c', ts') /\ Forall (fun t => returned t = true) ts'.
Proof.
  induction m as [|m IH]; intros lk c L ts Hs Hm.
  - exists [], lk, c, ts. split; [done|]. apply Forall_forall. intros t Ht.
    destruct (returned t) eqn:E; [done|]. exfalso. assert (t ∈ filter (fun t => returned t = false) ts) as Hin.
    { by apply list_elem_of_filter. }
    unfold unreturned in Hm. destruct (filter _ ts); [by apply elem_of_nil in Hin|cbn in Hm; lia].
  - destruct (decide (Exists (fun t => returned t = false) ts)) as [Hex|Hno].
    2: { exists [], lk, c, ts. split; [done|]. apply Forall_forall. intros t Ht.
         destruct (returned t) eqn:E; [done|]. destruct Hno. apply Exists_exists. by exists t. }
    assert (exists k t, ts !! k = Some t /\ returned t = false /\ unhindered ts k t) as (k & t & Hk & Ht & Hu).
    { destruct (decide (Exists (fun t => holds t <> None) ts)) as [Hh|Hh].
      - apply Exists_exists in Hh as (t & [k Hk]%list_elem_of_lookup & Hh). exists k, t. split; [done|].
        destruct (holds t) as [n|] eqn:E; [|done]. split; [|by apply (holder_unhindered lk c L ts k t n)].
        unfold holds, returned in *. by destruct (t_pc t).
      - apply Exists_exists in Hex as (t & [k Hk]%list_elem_of_lookup & Ht). exists k, t. split_and!; [done..|].
        intros j tj n _ Hj E _. apply Hh, Exists_exists. exists tj. split; [by eapply list_elem_of_lookup_2|congruence]. }
    destruct (run_returns lk c L ts k t Hs Hk Hu) as (lk1 & c1 & L1 & t1 & Hr & Hd & Hs1).
    destruct (IH lk1 c1 L1 (<[k := t1]> ts) Hs1) as (s & lk2 & c2 & ts2 & Hr2 & Hd2).
    { pose proof (unreturned_insert ts k t t1 Hk Ht Hd). lia. }
    eexists (_ ++ s), lk2, c2, ts2. split; [|done]. rewrite run_app, Hr. exact Hr2.
Qed.

(** C23: progress of concurrent [Put]s, when their values have one type each and do not
    race for the type of an entry.  Wherever an interleaving leaves the threads, any
    one of them returns if it is let run alone, within a number of steps that is
    linear in the number of nodes and of its values, unless another thread is inside
    [Add] with the mutex of the entry of the same key: losing a compare-and-swap
    never makes it search for ever.  And there is no deadlock: some order of steps
    makes all of them return. *)
Theorem Put_progress (sched : list nat) c (ts : list thread) :
  well_formed c -> Forall fresh ts -> race_free (contents c) ts ->
  Forall (fun k => k < length ts)%nat sched ->
  exists lk1 c1 ts1, run sched ∅ c ts = Ok (lk1, c1, ts1) /\
    (forall k t, ts1 !! k = Some t -> unhindered ts1 k t ->
      exists lk2 c2 t2, run (replicate (60 * length (nodes c1) + 494 + length (t_values t)) k) lk1 c1 ts1 =
        Ok (lk2, c2, <[k := t2]> ts1) /\ returned t2 = true) /\
    (exists s lk3 c3 ts3, run s lk1 c1 ts1 = Ok (lk3, c3, ts3) /\
      Forall (fun t => returned t = true) ts3).
Proof.
  intros [L Hc] Hf Hrace Hs. destruct (fresh_system c L ts Hc Hf Hrace) as [Hsys He].
  destruct (run_spec sched ∅ c L ts _ ts [] Hsys He Hs) as (lk1 & c1 & ts1 & L1 & h & Hr & Hs1 & He1).
  exists lk1, c1, ts1. split; [done|]. split.
  - intros k t Hk Hu. destruct (run_returns lk1 c1 L1 ts1 k t Hs1 Hk Hu) as (lk2 & c2 & L2 & t2 & H1 & H2 & _).
    by exists lk2, c2, t2.
  - by apply (all_return (unreturned ts1) lk1 c1 L1).
Qed.

Lemma cache_Put_ok c L k vs lc h :
  cache_ok c L -> (1 <= h <= maxHeight)%nat -> (exists ty, Entry.same_type ty vs) ->
  exists c' r, Put c k vs lc h = Ok (c', r) /\ well_formed c' /\
    size c' = u32 (size c + (Z.of_nat (length k) + SizeOf vs)) /\
    put_spec k vs (contents c) = (contents c', r).
Proof.
  intros Hc Hh Hv. unfold Put.
  destruct (run_alone_ok (put_fuel c vs) ∅ c L (start k vs lc h) (length (nodes c) + 1) Hc)
    as (c' & r & Hr & Hw & _ & Hsz & Hres).
  - by split.
  - done.
  - intros n. split; [by intros ?%elem_of_empty|done].
  - cbn. lia.
  - pose proof (measure_bound (length (nodes c) + 1) c L (start k vs lc h) Hc) as Hm.
    unfold put_fuel. specialize (Hm ltac:(by split) ltac:(lia)). cbn [start t_values] in Hm. lia.
  - exists c', r. done.
Qed.

(** Two calls for the same key; the second starts while the first searches. *)
Definition two_puts : list thread := [start [97] [IntegerValue 1 5] 0 1; start [97] [IntegerValue 2 6] 0 2].

Lemma two_puts_fresh : Forall fresh two_puts.
Proof.
  repeat constructor; cbn; try (unfold maxHeight; lia); exists 2; repeat constructor.
Qed.

Lemma two_puts_races m : race_free m two_puts.
Proof.
  intros k. left. exists 2. intros t [-> |[-> |Hn%elem_of_nil]%elem_of_cons]%elem_of_cons _; [by repeat constructor..|done].
Qed.

(** Two calls of different types on an entry without a type: both find no type,
    and the entry ends with values of two types, as after no order of the calls. *)
Definition mixed_puts : list thread :=
  [start [97] [] 0 1; start [97] [IntegerValue 1 5] 0 1; start [97] [FloatValue 2 6] 0 1].
Definition mixed_schedule : list nat :=
  replicate 10 0%nat ++ replicate 4 1%nat ++ replicate 4 2%nat ++ replicate 3 1%nat ++ replicate 3 2%nat.

Example type_race :
  exists c ts, run mixed_schedule ∅ NewCache mixed_puts = Ok (∅, c, ts) /\
    Forall (fun t => t_pc t = Done None) ts /\
    contents c !! [97] = Some (Entry.MkEntry [IntegerValue 1 5; FloatValue 2 6] 2).
Proof.
  eexists _, _. split; [vm_compute; reflexivity|]. split; [repeat constructor|]. by vm_compute.
Qed.

Lemma Put_linearizable_witness :
  let s1 := [0; 0; 1; 0; 1; 1; 1]%nat in
  let s2 := ([0; 0; 1; 0; 1; 0; 1; 0; 1] ++ replicate 14 1 ++ replicate 14 0)%nat in
  exists lk1 c1 ts1 lk2 c2 ts2 h1 h2,
    run s1 ∅ NewCache two_puts = Ok (lk1, c1, ts1) /\ run (s1 ++ s2) ∅ NewCache two_puts = Ok (lk2, c2, ts2) /\
    replay two_puts h1 (contents NewCache) = Some (contents c1) /\
    replay two_puts (h1 ++ h2) (contents NewCache) = Some (contents c2) /\
    NoDup ((h1 ++ h2).*1) /\
    (forall k t r, ts1 !! k = Some t -> t_pc t = Done r -> (k, r) ∈ h1) /\
    (forall k t r, ts1 !! k = Some t -> t_pc t = Start -> (k, r) ∉ h1) /\
    (forall k t r, ts2 !! k = Some t -> t_pc t = Done r -> (k, r) ∈ h1 ++ h2) /\
    well_formed c2 /\
    (exists ids, GetAllNodes c2 = Ok ids /\ key_sorted (nodes c2) ids) /\
    ((forall k t, ts2 !! k = Some t -> exists r, t_pc t = Done r) -> lk2 = ∅).
Proof.
  intros s1 s2. apply (Put_linearizable s1 s2 NewCache two_puts).
  - eexists. apply NewCache_ok.
  - apply two_puts_fresh.
  - apply two_puts_races.
  - repeat constructor.
Defined.

Lemma Put_progress_witness :
  let sched := [0; 0; 1; 0; 1; 1; 1]%nat in
  exists lk1 c1 ts1, run sched ∅ NewCache two_puts = Ok (lk1, c1, ts1) /\
    (forall k t, ts1 !! k = Some t -> unhindered ts1 k t ->
      exists lk2 c2 t2, run (replicate (60 * length (nodes c1) + 494 + length (t_values t)) k) lk1 c1 ts1 =
        Ok (lk2, c2, <[k := t2]> ts1) /\ returned t2 = true) /\
    (exists s lk3 c3 ts3, run s lk1 c1 ts1 = Ok (lk3, c3, ts3) /\
      Forall (fun t => returned t = true) ts3).
Proof.
  intros sched. apply (Put_progress sched NewCache two_puts).
  - eexists. apply NewCache_ok.
  - apply two_puts_fresh.
  - apply two_puts_races.
  - repeat constructor.
Defined.

End CacheRuns.
