(* ===== verification/CacheReads.v ===== *)
(** The operations of [Cache] that run alone: searches, [Delete], [Deduplicate],
    [Split]; and the cache as a finite map from keys to entries. *)
From stdpp Require Import gmap.
From S2P Require Import Prelude Bytes Values Entry Cache CacheLaws CachePut CacheRuns.
Import Values Cache CacheLaws CachePut CacheRuns.

Module CacheReads.

(** ** Searching *)

(** On a level, every node is up to [curr] or from its successor on. *)
Lemma next_split ns L l j curr id :
  heap_ok ns L -> (l < maxHeight)%nat -> (0%nat :: L l) !! j = Some curr -> id ∈ L l ->
  (curr ∈ L l /\ (id = curr \/ before (keyof ns id) (keyof ns curr))) \/
  (exists n, L l !! j = Some n /\ (id = n \/ before (keyof ns n) (keyof ns id))).
Proof.
  intros H Hl Hj [m Hm]%list_elem_of_lookup. pose proof (ok_sorted _ _ H l Hl) as Hs.
  destruct (decide (m < j)%nat) as [Hlt|Hge].
  - left. destruct j as [|j]; [lia|]. rewrite lookup_S in Hj. split; [by eapply list_elem_of_lookup_2|].
    destruct (decide (m = j)) as [->|]; [left; congruence|right]. by apply (key_sorted_lt ns (L l) m j); [..|lia| |].
  - right. destruct (lookup_lt_is_Some_2 (L l) j) as [n Hn]; [apply lookup_lt_Some in Hm; lia|].
    exists n. split; [done|]. destruct (decide (m = j)) as [->|]; [left; congruence|right].
    by apply (key_sorted_lt ns (L l) j m); [..|lia| |].
Qed.

Lemma rem_lt ns L n from :
  heap_ok ns L -> n ∈ L 0%nat -> from = 0%nat \/ before (keyof ns from) (keyof ns n) ->
  (rem ns (L 0%nat) n < rem ns (L 0%nat) from)%nat.
Proof.
  intros H Hin Hf. pose proof (ok_ids _ _ H _ _ Hin) as Hid. unfold rem.
  rewrite (decide_False (P := n = 0%nat)) by lia.
  case_decide as E; [apply (length_filter_lt _ _ n); [done|apply before_irrefl]|].
  destruct Hf as [|Hb]; [done|]. apply (filter_strict _ _ _ n); [|done|done|apply before_irrefl].
  intros y Hy. by transitivity (keyof ns n).
Qed.

(** A place the searches pass: the head, or a node whose key is [below]. *)
Definition passed (c : Cache) (L : nat -> list nat) (below : list Z -> Prop) (l curr : nat) : Prop :=
  curr = 0%nat \/ curr ∈ L l /\ below (keyof (nodes c) curr).

(** What a search reads at [curr]. *)
Lemma search_round c L below l curr :
  cache_ok c L -> (l < maxHeight)%nat -> passed c L below l curr ->
  exists next, GetNext c curr l = Ok next /\
    match next with
    | None => forall id, id ∈ L l -> curr ∈ L l /\ (id = curr \/ before (keyof (nodes c) id) (keyof (nodes c) curr))
    | Some n =>
        n ∈ L l /\ (rem (nodes c) (L 0%nat) n < rem (nodes c) (L 0%nat) curr)%nat /\
        (exists nd, index (nodes c) n = Ok nd /\ keyof (nodes c) n = key nd) /\
        forall id, id ∈ L l ->
          (curr ∈ L l /\ (id = curr \/ before (keyof (nodes c) id) (keyof (nodes c) curr))) \/
          id = n \/ before (keyof (nodes c) n) (keyof (nodes c) id)
    end.
Proof.
  intros [H _ _] Hl Hp.
  assert (exists j, (0%nat :: L l) !! j = Some curr) as [j Hj].
  { apply list_elem_of_lookup, elem_of_cons. destruct Hp as [->|[? _]]; auto. }
  exists (L l !! j). split; [apply GetNext_tower; by apply (ok_chain _ _ H)|].
  pose proof (fun id => next_split _ _ _ _ _ id H Hl Hj) as Hsp.
  destruct (L l !! j) as [n|] eqn:En.
  - pose proof (list_elem_of_lookup_2 _ _ _ En) as Hin. pose proof (ok_ids _ _ H _ _ Hin) as Hid.
    destruct (lookup_lt_is_Some_2 (nodes c) n ltac:(lia)) as [nd Hnd].
    split; [done|]. split; [|split].
    + apply rem_lt; [done|by apply (level_sub _ _ l H)|].
      destruct j as [|j]; [left; by injection Hj|right]. rewrite lookup_S in Hj.
      by apply (key_sorted_lt _ (L l) j (S j)); [by apply (ok_sorted _ _ H)|lia|..].
    + exists nd. split; [by apply index_lookup|]. by apply keyof_lookup.
    + intros id [?|(n' & [= <-] & ?)]%Hsp; auto.
  - intros id [?|(? & ? & _)]%Hsp; [done|congruence].
Qed.

Lemma passed_down c L below l curr :
  cache_ok c L -> (S l < maxHeight)%nat -> passed c L below (S l) curr -> passed c L below l curr.
Proof. intros [H _ _] Hl [->|[Hin Hb]]; [by left|right]. split; [by apply (ok_sub _ _ H)|done]. Qed.

(** The first node of [ids] whose key is not before [target]; the last whose key is
    [below]. *)
Definition is_ceiling (ns : list Node) (ids : list nat) (target : list Z) (r : option nat) : Prop :=
  match r with
  | None => forall id, id ∈ ids -> before (keyof ns id) target
  | Some n => n ∈ ids /\ ~ before (keyof ns n) target /\
      forall id, id ∈ ids -> before (keyof ns id) target \/ id = n \/ before (keyof ns n) (keyof ns id)
  end.
Definition is_floor (ns : list Node) (ids : list nat) (below : list Z -> Prop) (r : option nat) : Prop :=
  match r with
  | None => forall id, id ∈ ids -> ~ below (keyof ns id)
  | Some n => n ∈ ids /\ below (keyof ns n) /\
      forall id, id ∈ ids -> below (keyof ns id) -> id = n \/ before (keyof ns id) (keyof ns n)
  end.

Lemma seek_spec c L target fuel : forall curr level,
  cache_ok c L -> (level < maxHeight)%nat -> passed c L (fun k => before k target) level curr ->
  (rem (nodes c) (L 0%nat) curr + level < fuel)%nat ->
  exists r, seek fuel c target curr level = Ok r /\
    is_ceiling (nodes c) (L 0%nat) target r.
Proof.
  induction fuel as [|fuel IH]; intros curr level Hc Hl Hp Hf; [lia|]. cbn [seek].
  destruct (search_round _ _ _ _ _ Hc Hl Hp) as (next & -> & Hn). cbn [mbind outcome_bind].
  assert (forall id, curr ∈ L level /\ (id = curr \/ before (keyof (nodes c) id) (keyof (nodes c) curr)) ->
    before (keyof (nodes c) id) target) as Hle.
  { intros id [Hcin Hle]. destruct Hp as [->|[_ Hb]]; [by apply (ok_ids _ _ (cache_heap _ _ Hc)) in Hcin; lia|].
    destruct Hle as [->|Hlt]; [done|by transitivity (keyof (nodes c) curr)]. }
  assert (forall l, level = S l -> exists r, seek fuel c target curr l = Ok r /\ is_ceiling (nodes c) (L 0%nat) target r) as Hdown.
  { intros l ->. apply IH; [done|lia|by apply passed_down|lia]. }
  destruct next as [n|].
  - destruct Hn as (Hin & Hrem & (nd & -> & Hk) & Hsp). cbn [mbind outcome_bind]. rewrite <- Hk.
    destruct (Z.ltb_spec (Compare (keyof (nodes c) n) target) 0) as [Hb|Hb].
    + apply IH; [done|done|by right|lia].
    + destruct level as [|l]; [|by apply Hdown]. eexists. split; [done|]. split; [done|].
      split; [unfold before; lia|]. intros id Hid. destruct (Hsp id Hid) as [Hx|Hx]; auto.
  - destruct level as [|l]; [|by apply Hdown]. eexists. split; [done|].
    intros id Hid. by apply Hle, Hn.
Qed.

Lemma read_fuel_enough c L curr level :
  cache_ok c L -> (level < maxHeight)%nat -> (rem (nodes c) (L 0%nat) curr + level < read_fuel c)%nat.
Proof.
  intros [H _ _] Hl. pose proof (rem_bound (nodes c) L 0 curr H level0). unfold read_fuel. lia.
Qed.

Lemma findGreaterOrEqual_spec c L target :
  cache_ok c L ->
  exists r, findGreaterOrEqual c target = Ok r /\
    is_ceiling (nodes c) (L 0%nat) target r.
Proof.
  intros Hc. pose proof (cache_height _ _ Hc). unfold findGreaterOrEqual, head.
  rewrite (cache_open _ _ Hc). cbn [mbind outcome_bind].
  apply seek_spec; [done|lia|by left|]. apply read_fuel_enough; [done|lia].
Qed.

Lemma seek_last_spec c L (below : list Z -> bool) fuel :
  (forall k k', before k k' -> below k' -> below k) ->
  forall curr level,
  cache_ok c L -> (level < maxHeight)%nat -> passed c L below level curr ->
  (rem (nodes c) (L 0%nat) curr + level < fuel)%nat ->
  exists r, seek_last fuel c below curr level = Ok r /\
    is_floor (nodes c) (L 0%nat) below r.
Proof.
  intros Hmono. induction fuel as [|fuel IH]; intros curr level Hc Hl Hp Hf; [lia|]. cbn [seek_last].
  destruct (search_round _ _ _ _ _ Hc Hl Hp) as (next & -> & Hn). cbn [mbind outcome_bind].
  destruct next as [n|].
  - destruct Hn as (Hin & Hrem & (nd & -> & Hk) & Hsp). cbn [mbind outcome_bind]. rewrite <- Hk.
    destruct (below (keyof (nodes c) n)) eqn:Hb.
    + apply IH; [done|done|right; by rewrite Hb|lia].
    + destruct level as [|l]; [|apply IH; [done|lia|by apply passed_down|lia]].
      eexists. split; [done|].
      assert (forall id, id ∈ L 0%nat -> below (keyof (nodes c) id) ->
        curr ∈ L 0%nat /\ (id = curr \/ before (keyof (nodes c) id) (keyof (nodes c) curr))) as Hle.
      { intros id Hid Hbid. destruct (Hsp id Hid) as [|[->|Hx]]; [done| |].
        - by rewrite Hb in Hbid.
        - apply (Hmono _ _ Hx) in Hbid. by rewrite Hb in Hbid. }
      destruct Hp as [->|[Hc0 Hbc]].
      * rewrite bool_decide_true by done. intros id Hid Hbid. destruct (Hle id Hid Hbid) as [H0 _].
        apply (ok_ids _ _ (cache_heap _ _ Hc)) in H0. lia.
      * rewrite bool_decide_false by (apply (ok_ids _ _ (cache_heap _ _ Hc)) in Hc0; lia).
        split; [done|]. split; [done|]. intros id Hid Hbid. by apply Hle.
  - destruct level as [|l]; [|apply IH; [done|lia|by apply passed_down|lia]].
    eexists. split; [done|]. destruct Hp as [->|[Hc0 Hbc]].
    + rewrite bool_decide_true by done. intros id Hid. destruct (Hn id Hid) as [H0 _].
      apply (ok_ids _ _ (cache_heap _ _ Hc)) in H0. lia.
    + rewrite bool_decide_false by (apply (ok_ids _ _ (cache_heap _ _ Hc)) in Hc0; lia).
      split; [done|]. split; [done|]. intros id Hid _. by apply Hn.
Qed.

Lemma findLast_spec c L :
  cache_ok c L ->
  exists r, findLast c = Ok r /\
    match r with
    | None => L 0%nat = []
    | Some n => n ∈ L 0%nat /\ forall id, id ∈ L 0%nat -> id = n \/ before (keyof (nodes c) id) (keyof (nodes c) n)
    end.
Proof.
  intros Hc. pose proof (cache_height _ _ Hc). unfold findLast, head.
  rewrite (cache_open _ _ Hc). cbn [mbind outcome_bind].
  destruct (seek_last_spec c L (fun _ => true) (read_fuel c) ltac:(done) 0%nat (c_height c - 1) Hc) as (r & -> & Hr);
    [lia|by left|apply read_fuel_enough; [done|lia]|].
  eexists. split; [done|]. destruct r as [n|]; [destruct Hr as (? & _ & Hr); auto|].
  destruct (L 0%nat) as [|x ids]; [done|]. exfalso. by apply (Hr x); [left|].
Qed.

(** ** Operations on the map *)

Lemma randomHeight_loop_range fuel draws : forall h,
  (1 <= h <= maxHeight)%nat -> (1 <= randomHeight_loop fuel draws h <= maxHeight)%nat.
Proof.
  induction fuel as [|fuel IH]; intros h H; cbn [randomHeight_loop]; [done|].
  case_bool_decide; cbn [andb]; [|done]. destruct (_ =? 0); [apply IH; lia|done].
Qed.

Lemma randomHeight_range draws : (1 <= randomHeight draws <= maxHeight)%nat.
Proof. apply randomHeight_loop_range. unfold maxHeight. lia. Qed.

(** Operations that leave the nodes alone. *)
Lemma cache_ok_fields c L r sz :
  cache_ok c L -> cache_ok (MkCache (nodes c) (c_height c) r sz (closed c)) L.
Proof. intros [H1 H2 H3]. by split. Qed.

Lemma node_at c L n :
  cache_ok c L -> n ∈ L 0%nat ->
  exists nd e, index (nodes c) n = Ok nd /\ entry nd = Some e /\ entry_at (nodes c) n = Some e /\
    contents c !! keyof (nodes c) n = Some e.
Proof.
  intros Hc Hn. pose proof (cache_heap _ _ Hc) as H. pose proof (ok_ids _ _ H _ _ Hn) as Hid.
  destruct (lookup_lt_is_Some_2 (nodes c) n ltac:(lia)) as [nd Hnd].
  destruct (ok_entries _ _ H n Hn) as [e He]. exists nd, e.
  split; [by apply index_lookup|]. split; [unfold entry_at in He; by rewrite Hnd in He|].
  split; [done|]. apply (contents_lookup c L); eauto.
Qed.

(** The first key of a map at or after [k]. *)
Definition ceiling {A} (m : gmap (list Z) A) (k : list Z) (r : option (list Z)) : Prop :=
  match r with
  | None => forall x, is_Some (m !! x) -> before x k
  | Some x => is_Some (m !! x) /\ ~ before x k /\
      forall y, is_Some (m !! y) -> before y k \/ y = x \/ before x y
  end.

Lemma contents_dom c L x :
  cache_ok c L -> is_Some (contents c !! x) <-> exists id, id ∈ L 0%nat /\ keyof (nodes c) id = x.
Proof.
  intros Hc. split.
  - intros [e (id & ? & ? & _)%(contents_lookup c L)]; eauto.
  - intros (id & Hid & <-). destruct (node_at c L id Hc Hid) as (nd & e & _ & _ & _ & ->). eauto.
Qed.

Lemma ceiling_contents c L k r :
  cache_ok c L -> is_ceiling (nodes c) (L 0%nat) k r ->
  ceiling (contents c) k (keyof (nodes c) <$> r).
Proof.
  intros Hc. destruct r as [n|]; cbn.
  - intros (Hn & Hb & Hall). split; [apply (contents_dom c L); eauto|]. split; [done|].
    intros y (id & Hid & <-)%(contents_dom c L); [|done]. destruct (Hall id Hid) as [|[->|]]; auto.
  - intros Hall x (id & Hid & <-)%(contents_dom c L); auto.
Qed.

Lemma cache_Get_ok c L k :
  cache_ok c L ->
  exists r, Get c k = Ok r /\ ceiling (contents c) k (keyof (nodes c) <$> r) /\
    match r with
    | None => True
    | Some n => n ∈ L 0%nat
    end.
Proof.
  intros Hc. destruct (findGreaterOrEqual_spec c L k Hc) as (r & Hr & Hcl). exists r.
  split; [done|]. split; [by apply (ceiling_contents c L)|]. destruct r; [apply Hcl|done].
Qed.

Lemma Delete_ok c L k :
  cache_ok c L ->
  exists c' r, Delete c k = Ok c' /\ cache_ok c' L /\ ceiling (contents c) k r /\
    match r with
    | None => c' = c
    | Some x => exists e, contents c !! x = Some e /\ contents c' = <[x := Entry.Clean e]> (contents c) /\
        size c' = u32 (size c - u32 (Entry.Size e))
    end.
Proof.
  intros Hc. unfold Delete. destruct (findGreaterOrEqual_spec c L k Hc) as (r & -> & Hcl).
  cbn [mbind outcome_bind]. pose proof (ceiling_contents c L k r Hc Hcl) as Hm. destruct r as [n|].
  - destruct Hcl as [Hn _]. destruct (node_at c L n Hc Hn) as (nd & e & -> & Hent & He & Hme).
    cbn [mbind outcome_bind]. rewrite Hent.
    pose proof (cache_ok_fields c L (ref c) (u32 (size c - u32 (Entry.Size e))) Hc) as Hc1.
    destruct (set_entry_ok (DecreaseSize c (u32 (Entry.Size e))) L n (Entry.Clean e) Hc1 Hn)
      as (c' & -> & Hc' & _ & _ & Hsz & Hcont & _).
    exists c', (Some (keyof (nodes c) n)). split; [done|]. split; [done|]. split; [done|].
    exists e. split; [done|]. split; [|done]. rewrite Hcont. cbn [nodes DecreaseSize add_size].
    f_equal. apply contents_fields.
  - exists c, None. done.
Qed.

(** [Deduplicate] of an entry never fails. *)
Definition dedup (e : Entry.Entry) : Entry.Entry :=
  match Entry.Deduplicate e with Ok e' => e' | _ => e end.

Lemma dedup_all_ok ids : forall c L,
  cache_ok c L -> ids ⊆ L 0%nat -> key_sorted (nodes c) ids ->
  exists c', dedup_all c ids = Ok c' /\ cache_ok c' L /\ size c' = size c /\
    forall k, contents c' !! k =
      if decide (k ∈ keyof (nodes c) <$> ids) then dedup <$> contents c !! k else contents c !! k.
Proof.
  induction ids as [|n ids IH]; intros c L Hc Hsub Hs.
  - exists c. split_and!; [done..|]. intros k. rewrite decide_False; [done|]. by intros ?%elem_of_nil.
  - cbn [dedup_all]. apply list_subseteq_cons_iff in Hsub as [Hn Hsub].
    destruct (node_at c L n Hc Hn) as (nd & e & -> & Hent & He & Hme). cbn [mbind outcome_bind]. rewrite Hent.
    destruct (Entry.Deduplicate_content e) as (e' & Hd & _). rewrite Hd. cbn [mbind outcome_bind].
    destruct (set_entry_ok c L n e' Hc Hn) as (c1 & -> & Hc1 & Hx & _ & Hsz & Hcont & _). cbn [mbind outcome_bind].
    assert (forall id, id ∈ L 0%nat -> keyof (nodes c1) id = keyof (nodes c) id) as Hkeys.
    { intros id Hid. apply (ext_key _ _ Hx). by apply (ok_ids _ _ (cache_heap _ _ Hc) 0%nat). }
    inversion_clear Hs as [|? ? Hs' Hlt]. rewrite Forall_forall in Hlt.
    destruct (IH c1 L Hc1 Hsub) as (c' & -> & Hc' & Hsz' & Hall).
    { apply (key_sorted_extends (nodes c)); [done| |done].
      intros id Hid. by apply (ok_ids _ _ (cache_heap _ _ Hc) 0%nat), Hsub. }
    assert (keyof (nodes c1) <$> ids = keyof (nodes c) <$> ids) as Ek.
    { apply list_fmap_ext. intros i id Hid. apply Hkeys, Hsub. by eapply list_elem_of_lookup_2. }
    exists c'. split_and!; [done|done|congruence|]. intros k. rewrite Hall, Ek, Hcont, fmap_cons.
    destruct (decide (k = keyof (nodes c) n)) as [->|Hne].
    + rewrite decide_False, decide_True, lookup_insert_eq, Hme.
      * cbn. unfold dedup. by rewrite Hd.
      * by left.
      * intros (id & E & Hid)%list_elem_of_fmap. apply (before_irrefl (keyof (nodes c) n)).
        rewrite E at 2. by apply Hlt.
    + rewrite lookup_insert_ne by done.
      destruct (decide (k ∈ keyof (nodes c) <$> ids)).
      * rewrite decide_True; [done|by right].
      * rewrite decide_False; [done|]. by intros [?|?]%elem_of_cons.
Qed.

Lemma Deduplicate_ok c L :
  cache_ok c L ->
  exists c', Deduplicate c = Ok c' /\ cache_ok c' L /\ size c' = size c /\
    contents c' = dedup <$> contents c.
Proof.
  intros Hc. unfold Deduplicate. rewrite (GetAllNodes_ok c L Hc). cbn [mbind outcome_bind].
  destruct (dedup_all_ok (L 0%nat) c L Hc) as (c' & -> & Hc' & Hsz & Hall); [done|by apply (cache_heap _ _ Hc)|].
  exists c'. split_and!; [done..|]. apply map_eq. intros k. rewrite Hall, lookup_fmap.
  case_decide as E; [done|]. destruct (contents c !! k) as [e|] eqn:Ee; [|done].
  exfalso. apply E. apply (contents_lookup c L) in Ee as (id & Hid & <- & _); [|done].
  apply list_elem_of_fmap. eauto.
Qed.

Lemma Count_ok c L : cache_ok c L -> Count c = Ok (base.size (contents c)).
Proof.
  intros Hc. unfold Count. rewrite (GetAllNodes_ok c L Hc). cbn [mbind outcome_bind]. f_equal.
  rewrite (contents_view c L Hc). pose proof (cache_heap _ _ Hc) as H.
  pose proof (ok_sorted _ _ H 0%nat level0) as Hs.
  assert (forall id, id ∈ L 0%nat -> is_Some (entry_at (nodes c) id)) as He by apply H.
  revert Hs He. generalize (L 0%nat) as ids. intros ids Hs He.
  induction Hs as [|x ids Hs IH Hx]; [done|].
  destruct (He x) as [e Hex]; [by left|].
  assert (view (nodes c) (x :: ids) = <[keyof (nodes c) x := e]> (view (nodes c) ids)) as ->.
  { unfold view. cbn. by rewrite Hex. }
  rewrite map_size_insert_None; [cbn; rewrite IH; [done|intros; apply He; by right]|].
  apply view_None; [done|intros; apply He; by right|].
  intros id Hid E. rewrite Forall_forall in Hx. specialize (Hx id Hid). rewrite E in Hx. by apply before_irrefl in Hx.
Qed.

Lemma Empty_ok c L : cache_ok c L -> Empty c = Ok (bool_decide (contents c = ∅)).
Proof.
  intros Hc. unfold Empty. destruct (findLast_spec c L Hc) as (r & -> & Hr). cbn [mbind outcome_bind]. f_equal.
  apply bool_decide_ext. destruct r as [n|].
  - split; [done|]. intros E. destruct Hr as [Hn _].
    destruct (node_at c L n Hc Hn) as (nd & e & _ & _ & _ & Hm). by rewrite E, lookup_empty in Hm.
  - split; [|done]. intros _. rewrite (contents_view c L Hc), Hr. done.
Qed.

(** ** Refinement *)

Inductive op :=
| OPut (k : list Z) (vs : list Value) (lifecycle : Z) (draws : nat -> Z)
| OGet (k : list Z)
| ODelete (k : list Z)
| ODeduplicate
| OCount
| OEmpty.

Inductive answer :=
| AError (err : option string)
| AEntry (e : option Entry.Entry)
| AUnit
| ACount (n : nat)
| ABool (b : bool).

Definition exec (c : Cache) (o : op) : outcome (Cache * answer) :=
  match o with
  | OPut k vs lc draws => '(c', err) ← Put c k vs lc (randomHeight draws); Ok (c', AError err)
  | OGet k =>
      n ← Get c k;
      match n with
      | None => Ok (c, AEntry None)
      | Some n => nd ← index (nodes c) n; Ok (c, AEntry (entry nd))
      end
  | ODelete k => c' ← Delete c k; Ok (c', AUnit)
  | ODeduplicate => c' ← Deduplicate c; Ok (c', AUnit)
  | OCount => n ← Count c; Ok (c, ACount n)
  | OEmpty => b ← Empty c; Ok (c, ABool b)
  end.

Fixpoint exec_all (c : Cache) (os : list op) : outcome (Cache * list answer) :=
  match os with
  | [] => Ok (c, [])
  | o :: os => '(c, a) ← exec c o; '(c, r) ← exec_all c os; Ok (c, a :: r)
  end.

(** The same operations on a map. *)
Inductive map_step (m : gmap (list Z) Entry.Entry) : op -> gmap (list Z) Entry.Entry -> answer -> Prop :=
| step_put k vs lc draws :
    map_step m (OPut k vs lc draws) (put_spec k vs m).1 (AError (put_spec k vs m).2)
| step_get k r : ceiling m k r -> map_step m (OGet k) m (AEntry (r ≫= fun x => m !! x))
| step_delete k r :
    ceiling m k r ->
    map_step m (ODelete k) (match r with Some x => alter Entry.Clean x m | None => m end) AUnit
| step_deduplicate : map_step m ODeduplicate (dedup <$> m) AUnit
| step_count : map_step m OCount m (ACount (base.size m))
| step_empty : map_step m OEmpty m (ABool (bool_decide (m = ∅))).

Inductive map_steps : gmap (list Z) Entry.Entry -> list op -> gmap (list Z) Entry.Entry -> list answer -> Prop :=
| steps_nil m : map_steps m [] m []
| steps_cons m o m1 a os m2 r :
    map_step m o m1 a -> map_steps m1 os m2 r -> map_steps m (o :: os) m2 (a :: r).

(** The values of one [Put] have one type. *)
Definition op_ok (o : op) : Prop :=
  match o with OPut _ vs _ _ => exists ty, Entry.same_type ty vs | _ => True end.

Lemma exec_ok c o :
  well_formed c -> op_ok o ->
  exists c' a, exec c o = Ok (c', a) /\ well_formed c' /\ map_step (contents c) o (contents c') a.
Proof.
  intros [L Hc] Ho. destruct o as [k vs lc draws|k|k| | |]; cbn [exec].
  - destruct (cache_Put_ok c L k vs lc _ Hc (randomHeight_range draws) Ho) as (c' & r & -> & Hw & _ & Hp).
    cbn [mbind outcome_bind]. eexists _, _. split; [done|]. split; [done|].
    pose proof (step_put (contents c) k vs lc draws) as Hs. by rewrite Hp in Hs.
  - destruct (cache_Get_ok c L k Hc) as (r & -> & Hcl & Hr). cbn [mbind outcome_bind].
    pose proof (step_get (contents c) k _ Hcl) as Hs. destruct r as [n|].
    + destruct (node_at c L n Hc Hr) as (nd & e & -> & Hent & _ & Hm). cbn [mbind outcome_bind].
      eexists _, _. split; [done|]. split; [by exists L|]. rewrite Hent. cbn in Hs. by rewrite Hm in Hs.
    + eexists _, _. split; [done|]. split; [by exists L|]. done.
  - destruct (Delete_ok c L k Hc) as (c' & r & -> & Hc' & Hcl & Hr). cbn [mbind outcome_bind].
    eexists _, _. split; [done|]. split; [by exists L|].
    pose proof (step_delete (contents c) k r Hcl) as Hs. destruct r as [x|].
    + destruct Hr as (e & He & -> & _). replace (<[x := Entry.Clean e]> (contents c)) with (alter Entry.Clean x (contents c)); [done|].
      apply map_eq. intros y. destruct (decide (x = y)) as [<-|Hne].
      * by rewrite lookup_alter_eq, lookup_insert_eq, He.
      * by rewrite lookup_alter_ne, lookup_insert_ne.
    + by subst c'.
  - destruct (Deduplicate_ok c L Hc) as (c' & -> & Hc' & _ & E). cbn [mbind outcome_bind].
    eexists _, _. split; [done|]. split; [by exists L|]. rewrite E. constructor.
  - rewrite (Count_ok c L Hc). cbn [mbind outcome_bind]. eexists _, _. split; [done|]. split; [by exists L|]. constructor.
  - rewrite (Empty_ok c L Hc). cbn [mbind outcome_bind]. eexists _, _. split; [done|]. split; [by exists L|]. constructor.
Qed.

(** C10: any sequence of operations, called one after the other, on a well-formed cache
    is safe, keeps it well-formed, and acts as on a finite map from keys to entries,
    answers included, when the values of each [Put] have one type ([op_ok]; not
    those of different [Put]s, which may be refused); a [Put] returns within its fuel.  [Get] and [Delete] act on the
    first key at or after the one they are given, even if it is another key. *)
Theorem cache_refines_map c os :
  well_formed c -> Forall op_ok os ->
  exists c' r, exec_all c os = Ok (c', r) /\ well_formed c' /\
    map_steps (contents c) os (contents c') r.
Proof.
  intros Hw Hf. revert c Hw. induction Hf as [|o os Ho Hf IH]; intros c Hw.
  - eexists _, _. split; [done|]. split; [done|]. constructor.
  - destruct (exec_ok c o Hw Ho) as (c1 & a & Hs & Hw1 & Hm).
    destruct (IH c1 Hw1) as (c2 & r & Hr & Hw2 & Hms). exists c2, (a :: r). split; [|by eauto using steps_cons].
    cbn [exec_all]. rewrite Hs. cbn [mbind outcome_bind]. by rewrite Hr.
Qed.

Lemma cache_refines_map_witness :
  let os := [OPut [97] [IntegerValue 1 5] 0 (fun _ => 3); OGet [96]; ODelete [96]; OCount] in
  exists c' r, exec_all NewCache os = Ok (c', r) /\ well_formed c' /\
    map_steps (contents NewCache) os (contents c') r.
Proof.
  intros os. apply (cache_refines_map NewCache os); [eexists; apply NewCache_ok|].
  repeat constructor. exists 2. repeat constructor.
Defined.

(** Without the condition: [newNode] drops the error of [NewEntryValues], so values of
    two types under a new key are accepted and leave a node without an entry, on
    which the next [Put] or [Deduplicate] panics. *)
Theorem mixed_put_panics :
  exists c, exec NewCache (OPut [97] [IntegerValue 1 5; FloatValue 2 6] 0 (fun _ => 3)) = Ok (c, AError None) /\
    exec c (OPut [97] [IntegerValue 1 5] 0 (fun _ => 3)) = Panic /\ exec c ODeduplicate = Panic.
Proof. eexists. split; [vm_compute; reflexivity|]. split; vm_compute; reflexivity. Qed.

(** ** Splitting *)

Lemma Ref_ok c L : cache_ok c L -> cache_ok (Ref c) L.
Proof. apply cache_ok_fields. Qed.

Lemma split_loop_ok left : forall i n total ids c,
  (i + left = n)%nat -> (0 < n)%nat -> total = length ids ->
  exists parts, split_loop left i n total ids c =
      Ok (MkCache (nodes c) (c_height c) (ref c + Z.of_nat left) (size c) (closed c), parts) /\
    length parts = left /\ concat parts = drop (i * total / n) ids /\
    Forall (fun p => total / n <= length p <= total / n + 1)%nat parts.
Proof.
  induction left as [|left IH]; intros i n total ids c Hi Hn Ht.
  - exists []. cbn [split_loop]. split_and!; [|done| |done].
    + rewrite Z.add_0_r. by destruct c.
    + replace i with n by lia. rewrite Nat.mul_comm, Nat.div_mul by lia. by rewrite Ht, drop_all.
  - cbn [split_loop].
    assert (i * total / n <= (i + 1) * total / n)%nat as H1 by (apply Nat.Div0.div_le_mono; lia).
    assert ((i + 1) * total / n <= total)%nat as H2.
    { apply Nat.Div0.div_le_upper_bound. apply Nat.mul_le_mono_r. lia. }
    unfold subslice. rewrite decide_True by lia. cbn [mbind outcome_bind].
    destruct (IH (S i) n total ids (Ref c)) as (parts & -> & Hl & Hcat & Hall); [lia|lia|done|].
    cbn [mbind outcome_bind]. eexists. split; [cbn; do 3 f_equal; lia|].
    split; [cbn; lia|]. split.
    + cbn [concat]. rewrite Hcat. replace (S i) with (i + 1)%nat by lia.
      rewrite drop_take_drop by lia. done.
    + constructor; [|done]. rewrite length_drop, length_take, Nat.min_l by lia.
      pose proof (Nat.div_mod_eq total n) as D. pose proof (Nat.mod_upper_bound total n ltac:(lia)).
      pose proof (Nat.div_mod_eq (i * total) n). pose proof (Nat.mod_upper_bound (i * total) n ltac:(lia)).
      pose proof (Nat.div_mod_eq ((i + 1) * total) n). pose proof (Nat.mod_upper_bound ((i + 1) * total) n ltac:(lia)).
      nia.
Qed.

(** [parts] cuts [ids] into [n] runs, in order, of sizes that differ by at most one. *)
Definition cuts (ids : list nat) (n : nat) (parts : list (list nat)) : Prop :=
  length parts = n /\ concat parts = ids /\
  Forall (fun p => length ids / n <= length p <= length ids / n + 1)%nat parts.

(** the readable parts of a split cache cover all its nodes, in order and
    without overlap, differ in size by at most one, and hold one reference each;
    the cache stays well-formed. *)
Theorem Split_partitions c n :
  well_formed c -> (0 < n)%nat ->
  exists c' parts ids, Split c n = Ok (c', parts) /\ GetAllNodes c = Ok ids /\ cuts ids n parts /\
    well_formed c' /\ contents c' = contents c /\ ref c' = ref c + Z.of_nat n.
Proof.
  intros [L Hc] Hn. pose proof (GetAllNodes_ok c L Hc) as Hids. unfold Split. rewrite Hids. cbn [mbind outcome_bind].
  destruct (split_loop_ok n 0 n (length (L 0%nat)) (L 0%nat) c) as (parts & -> & Hl & Hcat & Hf); [lia|done|done|].
  eexists _, parts, _. split; [done|]. split; [done|]. split.
  { split; [done|]. split; [|done]. by rewrite Hcat, Nat.mul_0_l, Nat.Div0.div_0_l. }
  split; [exists L; by apply cache_ok_fields|]. split; [apply contents_fields|done].
Qed.

Lemma Split_partitions_witness :
  exists c' parts ids, Split NewCache 3 = Ok (c', parts) /\ GetAllNodes NewCache = Ok ids /\ cuts ids 3 parts /\
    well_formed c' /\ contents c' = contents NewCache /\ ref c' = ref NewCache + Z.of_nat 3.
Proof. apply (Split_partitions NewCache 3); [eexists; apply NewCache_ok|lia]. Defined.

End CacheReads.
