(* ===== verification/Wal.v ===== *)
(** The entries of the write-ahead log: [WriteWALEntry], [DeleteWALEntry] and
    [DeleteRangeWALEntry] of src/storage/store/wal_file.go, encoded into buffers
    of the size they compute and decoded with the code's bound checks. *)
From stdpp Require Import gmap.
From S2P Require Import Prelude Binary Values.
Import Values.

Module Wal.

Definition float64EntryType : Z := 1.
Definition integerEntryType : Z := 2.
Definition booleanEntryType : Z := 3.
Definition stringEntryType : Z := 4.
Definition unsignedEntryType : Z := 5.

Definition WriteWALEntryType : Z := 1.
Definition DeleteWALEntryType : Z := 2.
Definition DeleteRangeWALEntryType : Z := 3.

Definition ErrWALCorrupt : string := "corrupted WAL entry".

(** [M] is the type of the field [Values]: the map, or, when it is written, its
    bindings in the order in which [range] visits them, which Go leaves open. *)
Inductive WALEntry (M : Type) :=
| WriteWALEntry (Values : M)
| DeleteWALEntry (Keys : list (list Z))
| DeleteRangeWALEntry (Keys : list (list Z)) (Min Max : Z).
Arguments WriteWALEntry {M} Values.
Arguments DeleteWALEntry {M} Keys.
Arguments DeleteRangeWALEntry {M} Keys Min Max.

Definition bindings : Type := list (list Z * list Value).

Definition Type_ {M} (e : WALEntry M) : Z :=
  match e with
  | WriteWALEntry _ => WriteWALEntryType
  | DeleteWALEntry _ => DeleteWALEntryType
  | DeleteRangeWALEntry _ _ _ => DeleteRangeWALEntryType
  end.

(** ** Writing into a buffer *)

(** The buffer and the offset [n]. *)
Definition writer : Type := list Z * nat.

(** [dst[n] = b] or [PutUint(dst[n:n+w], v)], and [n += w]. *)
Definition put (st : writer) (bs : list Z) : outcome writer :=
  if decide (snd st + length bs <= length (fst st))%nat
  then Ok (splice (fst st) (snd st) bs, snd st + length bs)%nat else Panic.

(** [n += copy(dst[n:], bs)]. *)
Definition copy_in (st : writer) (bs : list Z) : outcome writer :=
  if decide (snd st <= length (fst st))%nat
  then let fit := take (length (fst st) - snd st) bs in
       Ok (splice (fst st) (snd st) fit, snd st + length fit)%nat
  else Panic.

(** A buffer of at least [sz] bytes: [dst] or a new one. *)
Definition sized (dst : list Z) (sz : nat) : list Z :=
  if bool_decide (length dst < sz)%nat then replicate sz 0 else dst.

(** ** Write entries *)

Definition string_sizes (vs : list Value) : option nat :=
  foldr (fun v r => match v, r with
    | StringValue _ s, Some n => Some (4 + length s + n)%nat | _, _ => None end) (Some 0%nat) vs.

(** The bytes of the values of one key; [None] where the code returns 0. *)
Definition values_size (vs : list Value) : option nat :=
  match vs with
  | [] => None
  | FloatValue _ _ :: _ | IntegerValue _ _ :: _ | UnsignedValue _ _ :: _ => Some (8 * length vs)%nat
  | BooleanValue _ _ :: _ => Some (length vs)
  | StringValue _ _ :: _ => string_sizes vs
  | PtrValue _ _ _ _ :: _ => None
  end.

Fixpoint marshal_loop (kvs : bindings) (encLen : nat) : nat :=
  match kvs with
  | [] => encLen
  | (k, vs) :: r =>
      match values_size vs with
      | Some sz => marshal_loop r (encLen + length k + 8 * length vs + sz)
      | None => 0
      end
  end.

(** The cached size is the one a first call computes: entries do not change once
    built. *)
Definition write_MarshalSize (kvs : bindings) : nat := marshal_loop kvs (7 * length kvs).

Definition entry_type (v : Value) : option Z :=
  match v with
  | FloatValue _ _ => Some float64EntryType
  | IntegerValue _ _ => Some integerEntryType
  | UnsignedValue _ _ => Some unsignedEntryType
  | BooleanValue _ _ => Some booleanEntryType
  | StringValue _ _ => Some stringEntryType
  | PtrValue _ _ _ _ => None
  end.

Definition incorrect : string := "incorrect value found in slice".
Definition unsupported : string := "unsupported value types".

Definition put_value (curType : Z) (st : writer) (vv : Value) : outcome writer :=
  st ← put st (be_encode 8 (u64 (UnixNano vv)));
  match entry_type vv with
  | None => Err unsupported
  | Some ty =>
      if negb (curType =? ty) then Err incorrect
      else match vv with
        | FloatValue _ x => put st (be_encode 8 x)
        | IntegerValue _ x => put st (be_encode 8 (u64 x))
        | UnsignedValue _ x => put st (be_encode 8 x)
        | BooleanValue _ b => put st [if b : bool then 1 else 0]
        | StringValue _ s => st ← put st (be_encode 4 (Z.of_nat (length s))); copy_in st s
        | PtrValue _ _ _ _ => Err unsupported
        end
  end.

Fixpoint put_values (curType : Z) (st : writer) (vs : list Value) : outcome writer :=
  match vs with
  | [] => Ok st
  | v :: r => st ← put_value curType st v; put_values curType st r
  end.

Fixpoint put_keys (st : writer) (kvs : bindings) : outcome writer :=
  match kvs with
  | [] => Ok st
  | (k, vs) :: r =>
      v0 ← index vs 0;
      match entry_type v0 with
      | None => Err unsupported
      | Some curType =>
          st ← put st [curType];
          st ← put st (be_encode 2 (Z.of_nat (length k)));
          st ← copy_in st k;
          st ← put st (be_encode 4 (Z.of_nat (length vs)));
          st ← put_values curType st vs;
          put_keys st r
      end
  end.

Definition write_Encode (kvs : bindings) (dst : list Z) : outcome (list Z) :=
  let encLen := write_MarshalSize kvs in
  '(dst, n) ← put_keys (take encLen (sized dst encLen), 0%nat) kvs;
  Ok (take n dst).

(** [int64(BigEndian.Uint64(b[i:i+8]))] twice, as one value. *)
Definition get_fixed (mk : Z -> Z -> Value) (b : list Z) : outcome (Value * list Z) :=
  un ← Uint64 b; v ← Uint64 (drop 8 b); Ok (mk (i64 un) v, drop 16 b).

Definition get_bool (b : list Z) : outcome (Value * list Z) :=
  un ← Uint64 b; v ← index b 8; Ok (BooleanValue (i64 un) (v =? 1), drop 9 b).

Definition get_string (b : list Z) : outcome (Value * list Z) :=
  if bool_decide (length b < 12)%nat then Err ErrWALCorrupt
  else
    un ← Uint64 b;
    n ← Uint32 (drop 8 b);
    let length_ := Z.to_nat n in
    if bool_decide (length (drop 8 b) < length_)%nat then Err ErrWALCorrupt
    else if bool_decide (length (drop 12 b) < length_)%nat then Err ErrWALCorrupt
    else Ok (StringValue (i64 un) (take length_ (drop 12 b)), drop (12 + length_) b).

Fixpoint get_values (get : list Z -> outcome (Value * list Z)) (nvals : nat) (b : list Z)
  : outcome (list Value * list Z) :=
  match nvals with
  | O => Ok ([], b)
  | S n => '(v, b) ← get b; '(vs, b) ← get_values get n b; Ok (v :: vs, b)
  end.

(** The values of a key: [width] bytes each, checked first, when that is known. *)
Definition get_typed (typ : Z) (nvals : nat) (b : list Z) : outcome (list Value * list Z) :=
  let checked width get :=
    if bool_decide (length b < width * nvals)%nat then Err ErrWALCorrupt else get_values get nvals b in
  if typ =? float64EntryType then checked 16%nat (get_fixed FloatValue)
  else if typ =? integerEntryType then checked 16%nat (get_fixed (fun t v => IntegerValue t (i64 v)))
  else if typ =? unsignedEntryType then checked 16%nat (get_fixed UnsignedValue)
  else if typ =? booleanEntryType then checked 9%nat get_bool
  else if typ =? stringEntryType then get_values get_string nvals b
  else Err unsupported.

(** One key: what is read at the offset where [b] starts, [total] being the length
    of the whole. *)
Definition get_key (total : nat) (b : list Z) : outcome (list Z * list Value * list Z) :=
  typ ← index b 0;
  let b := drop 1 b in
  if bool_decide (length b < 2)%nat then Err ErrWALCorrupt
  else
    n ← Uint16 b;
    let length_ := Z.to_nat n in
    let b := drop 2 b in
    if bool_decide (length b < length_)%nat then Err ErrWALCorrupt
    else
      let k := take length_ b in
      let b := drop length_ b in
      if bool_decide (length b < 4)%nat then Err ErrWALCorrupt
      else
        nvals ← Uint32 b;
        if (nvals <=? 0) || (Z.of_nat total <? nvals) then Err ErrWALCorrupt
        else '(vs, b) ← get_typed typ (Z.to_nat nvals) (drop 4 b); Ok (k, vs, b).

Fixpoint get_keys (fuel total : nat) (b : list Z) (m : gmap (list Z) (list Value))
  : outcome (gmap (list Z) (list Value)) :=
  match b, fuel with
  | [], _ => Ok m
  | _, O => Panic
  | _, S fuel' => '(k, vs, b) ← get_key total b; get_keys fuel' total b (<[k := vs]> m)
  end.

(** A key takes seven bytes at least, so the length is fuel enough. *)
Definition write_UnmarshalBinary (b : list Z) : outcome (gmap (list Z) (list Value)) :=
  get_keys (length b) (length b) b ∅.

(** ** Delete entries *)

Definition newline : Z := 10.

Definition delete_MarshalSize (keys : list (list Z)) : nat :=
  length keys + sum_list (length <$> keys).

Fixpoint put_lines (st : writer) (keys : list (list Z)) : outcome writer :=
  match keys with
  | [] => Ok st
  | k :: r => st ← copy_in st k; st ← copy_in st [newline]; put_lines st r
  end.

(** [dst[:n-1]] panics when nothing was written. *)
Definition delete_Encode (keys : list (list Z)) (dst : list Z) : outcome (list Z) :=
  '(dst, n) ← put_lines (sized dst (delete_MarshalSize keys), 0%nat) keys;
  match n with O => Panic | S n' => Ok (take n' dst) end.

(** [bytes.Split(b, sep)] for a separator of one byte. *)
Fixpoint Split (b : list Z) (sep : Z) : list (list Z) :=
  match b with
  | [] => [[]]
  | x :: r =>
      if x =? sep then [] :: Split r sep
      else match Split r sep with
        | l :: ls => (x :: l) :: ls
        | [] => [[x]]
        end
  end.

Definition delete_UnmarshalBinary (b : list Z) : outcome (list (list Z)) :=
  match b with [] => Ok [] | _ => Ok (Split b newline) end.

(** ** Delete-range entries *)

Definition range_MarshalSize (keys : list (list Z)) : nat :=
  16 + length keys * 4 + sum_list (length <$> keys).

Fixpoint put_sized (st : writer) (keys : list (list Z)) : outcome writer :=
  match keys with
  | [] => Ok st
  | k :: r => st ← put st (be_encode 4 (Z.of_nat (length k))); st ← copy_in st k; put_sized st r
  end.

Definition range_Encode (keys : list (list Z)) (min max : Z) (dst : list Z) : outcome (list Z) :=
  st ← put (sized dst (range_MarshalSize keys), 0%nat) (be_encode 8 (u64 min));
  st ← put st (be_encode 8 (u64 max));
  '(dst, n) ← put_sized st keys;
  Ok (take n dst).

Fixpoint get_sized (fuel : nat) (b : list Z) : outcome (list (list Z)) :=
  match b, fuel with
  | [], _ => Ok []
  | _, O => Panic
  | _, S fuel' =>
      if bool_decide (length b < 4)%nat then Err ErrWALCorrupt
      else
        n ← Uint32 b;
        let sz := Z.to_nat n in
        let b := drop 4 b in
        if bool_decide (length b < sz)%nat then Err ErrWALCorrupt
        else ks ← get_sized fuel' (drop sz b); Ok (take sz b :: ks)
  end.

Definition range_UnmarshalBinary (b : list Z) : outcome (list (list Z) * Z * Z) :=
  if bool_decide (length b < 16)%nat then Err ErrWALCorrupt
  else
    min ← Uint64 b;
    max ← Uint64 (drop 8 b);
    ks ← get_sized (length b) (drop 16 b);
    Ok (ks, i64 min, i64 max).

(** ** The interface *)

Definition MarshalSize (e : WALEntry bindings) : nat :=
  match e with
  | WriteWALEntry kvs => write_MarshalSize kvs
  | DeleteWALEntry keys => delete_MarshalSize keys
  | DeleteRangeWALEntry keys _ _ => range_MarshalSize keys
  end.

Definition Encode (e : WALEntry bindings) (dst : list Z) : outcome (list Z) :=
  match e with
  | WriteWALEntry kvs => write_Encode kvs dst
  | DeleteWALEntry keys => delete_Encode keys dst
  | DeleteRangeWALEntry keys min max => range_Encode keys min max dst
  end.

Definition MarshalBinary (e : WALEntry bindings) : outcome (list Z) :=
  Encode e (replicate (MarshalSize e) 0).

(** The entry the reader makes for a type byte, filled from [b]. *)
Definition UnmarshalBinary (typ : Z) (b : list Z) : outcome (WALEntry (gmap (list Z) (list Value))) :=
  if typ =? WriteWALEntryType then WriteWALEntry <$> write_UnmarshalBinary b
  else if typ =? DeleteWALEntryType then DeleteWALEntry <$> delete_UnmarshalBinary b
  else if typ =? DeleteRangeWALEntryType then
    '(ks, min, max) ← range_UnmarshalBinary b; Ok (DeleteRangeWALEntry ks min max)
  else Err "unknown wal entry type".

(** ** Specification *)

(** A value the log can hold, of the type of the slice. *)
Definition value_ok (ty : Z) (v : Value) : Prop :=
  entry_type v = Some ty /\ is_i64 (UnixNano v) /\
  match v with
  | FloatValue _ x | UnsignedValue _ x => is_u64 x
  | IntegerValue _ x => is_i64 x
  | StringValue _ s => Z.of_nat (length s) < 2 ^ 32
  | _ => True
  end.

Definition binding_ok (b : list Z * list Value) : Prop :=
  Z.of_nat (length (fst b)) < 2 ^ 16 /\ Z.of_nat (length (snd b)) < 2 ^ 32 /\
  exists v0 r ty, snd b = v0 :: r /\ Forall (value_ok ty) (snd b).

(** What can be logged: keys are distinct, as in a map; those of a deletion have
    no newline, and are not one empty key alone. *)
Definition entry_ok (e : WALEntry bindings) : Prop :=
  match e with
  | WriteWALEntry kvs => NoDup kvs.*1 /\ Forall binding_ok kvs
  | DeleteWALEntry keys => keys <> [] /\ keys <> [[]] /\ Forall (fun k => newline ∉ k) keys
  | DeleteRangeWALEntry keys min max =>
      is_i64 min /\ is_i64 max /\ Forall (fun k => Z.of_nat (length k) < 2 ^ 32) keys
  end.

(** What the reader makes of an entry. *)
Definition read_back (e : WALEntry bindings) : WALEntry (gmap (list Z) (list Value)) :=
  match e with
  | WriteWALEntry kvs => WriteWALEntry (list_to_map kvs)
  | DeleteWALEntry keys => DeleteWALEntry keys
  | DeleteRangeWALEntry keys min max => DeleteRangeWALEntry keys min max
  end.

(** The formats. *)
Definition value_bytes (v : Value) : list Z :=
  be_encode 8 (u64 (UnixNano v)) ++
  match v with
  | FloatValue _ x | UnsignedValue _ x => be_encode 8 x
  | IntegerValue _ x => be_encode 8 (u64 x)
  | BooleanValue _ b => [if b : bool then 1 else 0]
  | StringValue _ s => be_encode 4 (Z.of_nat (length s)) ++ s
  | PtrValue _ _ _ _ => []
  end.

Definition key_bytes (b : list Z * list Value) : list Z :=
  default 0 (head (snd b) ≫= entry_type) :: be_encode 2 (Z.of_nat (length (fst b))) ++ fst b ++
  be_encode 4 (Z.of_nat (length (snd b))) ++ concat (value_bytes <$> snd b).

Definition lines (keys : list (list Z)) : list Z := concat ((fun k => k ++ [newline]) <$> keys).

Definition sized_keys (keys : list (list Z)) : list Z :=
  concat ((fun k => be_encode 4 (Z.of_nat (length k)) ++ k) <$> keys).

Definition entry_bytes (e : WALEntry bindings) : list Z :=
  match e with
  | WriteWALEntry kvs => concat (key_bytes <$> kvs)
  | DeleteWALEntry keys => removelast (lines keys)
  | DeleteRangeWALEntry keys min max => be_encode 8 (u64 min) ++ be_encode 8 (u64 max) ++ sized_keys keys
  end.

(** * Lemmas *)

(** ** The writer *)

(** [p] has been written into a buffer of [cap] bytes. *)
Definition wrote (cap : nat) (st : writer) (p : list Z) : Prop :=
  length (fst st) = cap /\ snd st = length p /\ take (length p) (fst st) = p.

Lemma wrote_start dst : wrote (length dst) (dst, 0%nat) [].
Proof. by unfold wrote; split_and!. Qed.

Lemma wrote_bound cap st p : wrote cap st p -> (length p <= cap)%nat.
Proof. intros (H1 & _ & H3). rewrite <- H3, length_take. lia. Qed.

Lemma put_wrote cap st p bs :
  wrote cap st p -> (length p + length bs <= cap)%nat ->
  exists st', put st bs = Ok st' /\ wrote cap st' (p ++ bs).
Proof.
  intros (H1 & H2 & H3) Hc. unfold put. rewrite H2, decide_True by lia. eexists. split; [done|].
  split; [cbn; rewrite splice_length; lia|]. split; cbn [fst snd]; [len|].
  rewrite length_app, splice_take by lia. by rewrite H3.
Qed.

Lemma copy_wrote cap st p bs :
  wrote cap st p -> (length p + length bs <= cap)%nat ->
  exists st', copy_in st bs = Ok st' /\ wrote cap st' (p ++ bs).
Proof.
  intros H Hc. destruct (put_wrote cap st p bs H Hc) as (st' & Hp & Hw). exists st'. split; [|done].
  destruct H as (H1 & H2 & H3). unfold put in Hp. rewrite H2, decide_True in Hp by lia.
  unfold copy_in. rewrite decide_True by lia. by rewrite take_ge, H2 by lia.
Qed.

(** [emit]: one write after another. *)
Ltac emit :=
  match goal with
  | H : wrote ?cap ?st ?p |- context [put ?st ?bs] =>
      let E := fresh in let st' := fresh "st" in
      destruct (put_wrote cap st p bs H) as (st' & E & ?); [rewrite ?app_nil_r in *; len|rewrite E; clear E H; cbn [mbind outcome_bind]]
  | H : wrote ?cap ?st ?p |- context [copy_in ?st ?bs] =>
      let E := fresh in let st' := fresh "st" in
      destruct (copy_wrote cap st p bs H) as (st' & E & ?); [rewrite ?app_nil_r in *; len|rewrite E; clear E H; cbn [mbind outcome_bind]]
  end.

Lemma put_value_wrote cap st p ty v :
  value_ok ty v -> wrote cap st p -> (length p + length (value_bytes v) <= cap)%nat ->
  exists st', put_value ty st v = Ok st' /\ wrote cap st' (p ++ value_bytes v).
Proof.
  intros (Ht & _ & Hv) Hw Hc. unfold put_value, value_bytes in *. rewrite length_app, length_be_encode in Hc.
  emit. rewrite Ht, Z.eqb_refl. cbn [negb]. rewrite app_assoc.
  destruct v; [emit; eauto..| |done]. rewrite length_app, length_be_encode in Hc. do 2 emit.
  rewrite app_assoc. eauto.
Qed.

Lemma put_values_wrote cap ty vs : forall st p,
  Forall (value_ok ty) vs -> wrote cap st p -> (length p + length (concat (value_bytes <$> vs)) <= cap)%nat ->
  exists st', put_values ty st vs = Ok st' /\ wrote cap st' (p ++ concat (value_bytes <$> vs)).
Proof.
  induction vs as [|v vs IH]; intros st p Hv Hw Hc; cbn [put_values fmap list_fmap concat].
  - exists st. by rewrite app_nil_r.
  - inversion_clear Hv as [|? ? H1 H2]. cbn [fmap list_fmap concat] in Hc. rewrite length_app in Hc.
    destruct (put_value_wrote cap st p ty v H1 Hw) as (st1 & -> & Hw1); [lia|]. cbn [mbind outcome_bind].
    destruct (IH st1 (p ++ value_bytes v) H2 Hw1) as (st2 & -> & Hw2); [len|]. rewrite <- app_assoc in Hw2. eauto.
Qed.

Lemma put_keys_wrote cap kvs : forall st p,
  Forall binding_ok kvs -> wrote cap st p -> (length p + length (concat (key_bytes <$> kvs)) <= cap)%nat ->
  exists st', put_keys st kvs = Ok st' /\ wrote cap st' (p ++ concat (key_bytes <$> kvs)).
Proof.
  induction kvs as [|[k vs] kvs IH]; intros st p Hv Hw Hc; cbn [put_keys fmap list_fmap concat].
  - exists st. by rewrite app_nil_r.
  - inversion_clear Hv as [|? ? (_ & _ & (v0 & r & ty & E & Hty)) H2]. cbn [snd] in E, Hty.
    assert (entry_type v0 = Some ty) as Ev0 by (subst vs; inversion_clear Hty as [|? ? Ht]; apply Ht).
    assert (index vs 0 = Ok v0) as -> by (by subst vs).
    cbn [fmap list_fmap concat] in Hc. unfold key_bytes at 1 in Hc. unfold key_bytes at 1. cbn [fst snd] in *.
    assert (default 0 (head vs ≫= entry_type) = ty) as Ety by (subst vs; cbn; by rewrite Ev0).
    rewrite Ety in *. cbn [mbind outcome_bind]. rewrite Ev0. rewrite length_app in Hc. cbn [length] in Hc.
    rewrite !length_app, !length_be_encode in Hc. do 4 emit.
    edestruct (put_values_wrote cap ty vs) as (st5 & -> & Hw5); [done..| |].
    { len. }
    cbn [mbind outcome_bind]. destruct (IH st5 _ H2 Hw5) as (st6 & -> & Hw6); [len|].
    exists st6. split; [done|]. rewrite <- app_comm_cons, <- !app_assoc. by rewrite <- !app_assoc in Hw6.
Qed.

Lemma string_sizes_ok vs :
  Forall (value_ok stringEntryType) vs ->
  exists sz, string_sizes vs = Some sz /\ (8 * length vs + sz)%nat = length (concat (value_bytes <$> vs)).
Proof.
  induction 1 as [|v vs (Ht & _ & _) _ (sz & Es & IH)]; [by exists 0%nat|].
  destruct v; try discriminate Ht. cbn [string_sizes foldr] in *. fold (string_sizes vs). rewrite Es.
  eexists. split; [done|]. rewrite fmap_cons. cbn [concat length]. rewrite length_app, <- IH. unfold value_bytes. rewrite !length_app, !length_be_encode. lia.
Qed.

Lemma fixed_sizes ty w vs :
  (forall v, value_ok ty v -> length (value_bytes v) = w) -> Forall (value_ok ty) vs ->
  length (concat (value_bytes <$> vs)) = (w * length vs)%nat.
Proof. intros Hw. induction 1 as [|v vs Hv _ IH]; [cbn; lia|].
  rewrite fmap_cons. cbn [concat length]. rewrite length_app, IH, Hw by done. lia. Qed.

Lemma value_length ty v :
  value_ok ty v -> ty <> stringEntryType -> length (value_bytes v) = if ty =? booleanEntryType then 9%nat else 16%nat.
Proof.
  intros (Ht & _) Hs. unfold value_bytes. rewrite length_app.
  destruct v; cbn in Ht; try discriminate Ht; injection Ht as <-; try done; by rewrite !length_be_encode.
Qed.

(** [MarshalSize] is exact. *)
Lemma values_size_ok v0 r ty :
  Forall (value_ok ty) (v0 :: r) ->
  exists sz, values_size (v0 :: r) = Some sz /\
    (8 * length (v0 :: r) + sz)%nat = length (concat (value_bytes <$> v0 :: r)).
Proof.
  intros H. assert (entry_type v0 = Some ty) as Ht by (inversion_clear H as [|? ? Hv]; apply Hv).
  assert (ty <> stringEntryType -> length (concat (value_bytes <$> v0 :: r)) =
    (if (ty =? booleanEntryType)%Z then 9 else 16) * length (v0 :: r))%nat as Hfix.
  { intros Hs. apply (fixed_sizes ty); [|done]. intros v Hv. rewrite (value_length ty v Hv Hs).
    by destruct (ty =? booleanEntryType)%Z. }
  destruct v0 as [t x|t x|t x|t x|t x|t x m M]; try discriminate Ht; injection Ht as <-.
  5: { apply string_sizes_ok in H as (sz & E & Hsz). by exists sz. }
  all: rewrite Hfix by done; eexists; (split; [done|]); cbn; lia.
Qed.

Lemma key_bytes_length b :
  length (key_bytes b) = (7 + length (fst b) + length (concat (value_bytes <$> snd b)))%nat.
Proof. unfold key_bytes. cbn [length]. rewrite !length_app, !length_be_encode. lia. Qed.

Lemma marshal_loop_ok kvs : forall acc,
  Forall binding_ok kvs ->
  (marshal_loop kvs acc + 7 * length kvs = acc + length (concat (key_bytes <$> kvs)))%nat.
Proof.
  induction kvs as [|[k vs] kvs IH]; intros acc H; [cbn; lia|].
  inversion_clear H as [|? ? (_ & _ & (v0 & r & ty & E & Hty)) H2]. cbn [snd] in E, Hty. subst vs.
  destruct (values_size_ok v0 r ty Hty) as (sz & Es & Hsz). cbn [marshal_loop]. rewrite Es.
  rewrite fmap_cons. cbn [concat]. rewrite length_app, key_bytes_length. cbn [fst snd].
  specialize (IH (acc + length k + 8 * length (v0 :: r) + sz)%nat H2). cbn [length] in *. lia.
Qed.

Lemma MarshalSize_exact kvs :
  Forall binding_ok kvs -> write_MarshalSize kvs = length (concat (key_bytes <$> kvs)).
Proof. intros H. pose proof (marshal_loop_ok kvs (7 * length kvs) H). unfold write_MarshalSize. lia. Qed.

Lemma sized_length dst sz : (sz <= length (sized dst sz))%nat.
Proof. unfold sized. case_bool_decide; [by rewrite length_replicate|lia]. Qed.

Lemma wrote_take cap st p : wrote cap st p -> take (snd st) (fst st) = p.
Proof. by intros (_ & -> & ->). Qed.

Lemma put_lines_wrote cap keys : forall st p,
  wrote cap st p -> (length p + length (lines keys) <= cap)%nat ->
  exists st', put_lines st keys = Ok st' /\ wrote cap st' (p ++ lines keys).
Proof.
  induction keys as [|k keys IH]; intros st p Hw Hc; cbn [put_lines].
  - exists st. unfold lines. cbn. by rewrite app_nil_r.
  - change (lines (k :: keys)) with ((k ++ [newline]) ++ lines keys) in *. rewrite !length_app in Hc. cbn [length] in Hc.
    do 2 emit. match goal with H : wrote _ ?st _ |- _ => destruct (IH st _ H) as (st2 & -> & Hw2); [len|] end.
    exists st2. split; [done|]. by rewrite !app_assoc in *.
Qed.

Lemma put_sized_wrote cap keys : forall st p,
  wrote cap st p -> (length p + length (sized_keys keys) <= cap)%nat ->
  exists st', put_sized st keys = Ok st' /\ wrote cap st' (p ++ sized_keys keys).
Proof.
  induction keys as [|k keys IH]; intros st p Hw Hc; cbn [put_sized].
  - exists st. unfold sized_keys. cbn. by rewrite app_nil_r.
  - change (sized_keys (k :: keys)) with ((be_encode 4 (Z.of_nat (length k)) ++ k) ++ sized_keys keys) in *.
    rewrite !length_app, length_be_encode in Hc.
    do 2 emit. match goal with H : wrote _ ?st _ |- _ => destruct (IH st _ H) as (st2 & -> & Hw2); [len|] end.
    exists st2. split; [done|]. by rewrite !app_assoc in *.
Qed.

Lemma lines_length keys : length (lines keys) = delete_MarshalSize keys.
Proof.
  unfold delete_MarshalSize. induction keys as [|k keys IH]; [done|].
  change (lines (k :: keys)) with ((k ++ [newline]) ++ lines keys). rewrite !length_app, IH, fmap_cons. cbn. lia.
Qed.

Lemma sized_keys_length keys : (16 + length (sized_keys keys))%nat = range_MarshalSize keys.
Proof.
  unfold range_MarshalSize. induction keys as [|k keys IH]; [done|].
  change (sized_keys (k :: keys)) with ((be_encode 4 (Z.of_nat (length k)) ++ k) ++ sized_keys keys).
  rewrite !length_app, length_be_encode, fmap_cons. cbn. cbn in IH. lia.
Qed.

Lemma delete_Encode_ok keys dst : keys <> [] -> delete_Encode keys dst = Ok (removelast (lines keys)).
Proof.
  intros H. unfold delete_Encode. rewrite <- lines_length. set (b := sized dst _).
  destruct (put_lines_wrote (length b) keys (b, 0%nat) []) as ([d m] & -> & Hw);
    [apply wrote_start|apply sized_length|].
  cbn [mbind outcome_bind]. pose proof (wrote_take _ _ _ Hw) as Ht. destruct Hw as (_ & Hm & _).
  cbn [fst snd app] in *. rewrite lines_length in Hm. destruct m as [|m].
  + destruct keys; [done|]. cbn in Hm. lia.
  + f_equal. rewrite removelast_firstn_len, lines_length, <- Hm. cbn [pred].
    rewrite <- Ht, take_take. f_equal. lia.
Qed.

(** Encoding does not depend on the buffer. *)
Lemma Encode_ok e dst : entry_ok e -> Encode e dst = Ok (entry_bytes e).
Proof.
  destruct e as [kvs|keys|keys min max]; cbn [Encode entry_ok entry_bytes].
  - intros [_ H]. unfold write_Encode. rewrite MarshalSize_exact by done.
    set (n := length (concat _)). pose proof (sized_length dst n) as Hd.
    assert (length (take n (sized dst n)) = n) as Hn by (rewrite length_take; lia).
    destruct (put_keys_wrote n kvs (take n (sized dst n), 0%nat) []) as ([d m] & -> & Hw); [done| |by cbn|].
    { rewrite <- Hn at 1. apply wrote_start. }
    cbn [mbind outcome_bind]. pose proof (wrote_take _ _ _ Hw) as Ht. cbn [fst snd app] in Ht. by rewrite Ht.
  - intros (H & _). by apply delete_Encode_ok.
  - intros _. unfold range_Encode. rewrite <- sized_keys_length. set (b := sized dst _).
    pose proof (sized_length dst (16 + length (sized_keys keys))) as Hb. fold b in Hb.
    pose proof (wrote_start b). do 2 emit.
    match goal with H : wrote _ ?st _ |- _ => destruct (put_sized_wrote _ keys st _ H) as ([d m] & -> & Hw); [len|] end.
    cbn [mbind outcome_bind]. pose proof (wrote_take _ _ _ Hw) as Ht. cbn [fst snd] in Ht. rewrite Ht.
    by rewrite app_nil_l, <- app_assoc.
Qed.

(** ** The reader *)

Lemma get_fixed_ok mk t x r :
  is_i64 t -> is_u64 x ->
  get_fixed mk (be_encode 8 (u64 t) ++ be_encode 8 x ++ r) = Ok (mk t x, r).
Proof.
  intros Ht Hx. unfold get_fixed. rewrite Uint64_encode by apply u64_range. cbn [mbind outcome_bind].
  rewrite drop_be, Uint64_encode by done. cbn [mbind outcome_bind].
  rewrite i64_u64, i64_small by done. change 16%nat with (8 + 8)%nat. by rewrite <- drop_drop, !drop_be.
Qed.

Lemma get_bool_ok t b r :
  is_i64 t -> get_bool (be_encode 8 (u64 t) ++ [if b : bool then 1 else 0] ++ r) = Ok (BooleanValue t b, r).
Proof.
  intros Ht. unfold get_bool. rewrite Uint64_encode by apply u64_range. cbn [mbind outcome_bind].
  change 9%nat with (8 + 1)%nat. rewrite <- drop_drop, drop_be.
  rewrite (index_lookup _ 8 (if b then 1 else 0)).
  2: { rewrite lookup_app_r by (rewrite length_be_encode; lia). by rewrite length_be_encode. }
  cbn. rewrite i64_u64, i64_small by done. by destruct b.
Qed.

Lemma get_string_ok t x r :
  is_i64 t -> Z.of_nat (length x) < 2 ^ 32 ->
  get_string (be_encode 8 (u64 t) ++ (be_encode 4 (Z.of_nat (length x)) ++ x) ++ r) = Ok (StringValue t x, r).
Proof.
  intros Ht Hx. unfold get_string. rewrite bool_decide_false by len.
  rewrite Uint64_encode by apply u64_range. cbn [mbind outcome_bind].
  rewrite drop_be, <- app_assoc, be_uint_encode by (change (256 ^ Z.of_nat 4) with (2 ^ 32); lia). cbn [mbind outcome_bind].
  rewrite Nat2Z.id, bool_decide_false by len.
  rewrite <- drop_drop. change 12%nat with (8 + 4)%nat. rewrite <- drop_drop, drop_be, drop_be.
  rewrite bool_decide_false by len. by rewrite i64_u64, i64_small, take_app_length, drop_app_length.
Qed.

(** The reader of a type. *)
Definition getter (ty : Z) : list Z -> outcome (Value * list Z) :=
  if ty =? float64EntryType then get_fixed FloatValue
  else if ty =? integerEntryType then get_fixed (fun t v => IntegerValue t (i64 v))
  else if ty =? unsignedEntryType then get_fixed UnsignedValue
  else if ty =? booleanEntryType then get_bool
  else get_string.

Lemma getter_ok ty v r : value_ok ty v -> getter ty (value_bytes v ++ r) = Ok (v, r).
Proof.
  intros (Ht & Hu & Hv). unfold getter, value_bytes. rewrite <- app_assoc.
  destruct v as [t x|t x|t x|t x|t x|t x m M]; cbn in Ht; try discriminate Ht; injection Ht as <-; cbn [Z.eqb Pos.eqb];
    cbn [UnixNano any_value] in *.
  - by apply get_fixed_ok.
  - change (get_fixed (fun t v => IntegerValue t (i64 v)) (be_encode 8 (u64 t) ++ be_encode 8 (u64 x) ++ r) = Ok (IntegerValue t x, r)).
    rewrite get_fixed_ok by auto using u64_range. by rewrite i64_u64, i64_small.
  - by apply get_fixed_ok.
  - by apply get_bool_ok.
  - by apply get_string_ok.
Qed.

Lemma get_values_ok ty vs r :
  Forall (value_ok ty) vs ->
  get_values (getter ty) (length vs) (concat (value_bytes <$> vs) ++ r) = Ok (vs, r).
Proof.
  induction 1 as [|v vs Hv _ IH]; [done|]. rewrite fmap_cons. cbn [concat length get_values].
  rewrite <- app_assoc, getter_ok by done. cbn [mbind outcome_bind]. by rewrite IH.
Qed.

Lemma get_typed_ok ty vs r :
  Forall (value_ok ty) vs -> vs <> [] ->
  get_typed ty (length vs) (concat (value_bytes <$> vs) ++ r) = Ok (vs, r).
Proof.
  intros H Hne. pose proof (get_values_ok ty vs r H) as Hg.
  assert (exists v, entry_type v = Some ty) as [v Ht].
  { destruct H as [|v vs Hv _]; [done|]. exists v. apply Hv. }
  assert (ty <> stringEntryType -> (if (ty =? booleanEntryType)%Z then 9 else 16) * length vs <=
    length (concat (value_bytes <$> vs)))%nat as Hl.
  { intros Hs. rewrite (fixed_sizes ty (if (ty =? booleanEntryType)%Z then 9 else 16)%nat); [lia| |done].
    intros w Hw. rewrite (value_length ty w Hw Hs). by destruct (ty =? booleanEntryType)%Z. }
  unfold get_typed. unfold getter in Hg.
  destruct v; try discriminate Ht; injection Ht as <-;
    cbn [Z.eqb Pos.eqb float64EntryType integerEntryType unsignedEntryType booleanEntryType stringEntryType] in *;
    try (specialize (Hl ltac:(done))); try rewrite bool_decide_false by len; done.
Qed.

Lemma get_key_ok total b r :
  binding_ok b -> (length (key_bytes b) <= total)%nat ->
  get_key total (key_bytes b ++ r) = Ok (fst b, snd b, r).
Proof.
  destruct b as [k vs]. intros (Hk & Hv & (v0 & r0 & ty & E & Hty)) Htot. cbn [fst snd] in *.
  rewrite key_bytes_length in Htot. cbn [fst snd] in Htot.
  assert (entry_type v0 = Some ty) as Et by (subst vs; inversion_clear Hty as [|? ? Ht]; apply Ht).
  unfold get_key, key_bytes. cbn [fst snd app]. rewrite E at 1. cbn [head mbind option_bind]. rewrite Et.
  cbn [default id index lookup list_lookup mbind outcome_bind]. rewrite skipn_cons, drop_0.
  rewrite bool_decide_false by len. rewrite <- !app_assoc.
  rewrite be_uint_encode by (change (256 ^ Z.of_nat 2) with (2 ^ 16); lia). cbn [mbind outcome_bind].
  rewrite drop_be, Nat2Z.id, bool_decide_false by len.
  rewrite drop_app_length, take_app_length, bool_decide_false by len.
  rewrite be_uint_encode by (change (256 ^ Z.of_nat 4) with (2 ^ 32); lia). cbn [mbind outcome_bind].
  assert (length vs <= length (concat (value_bytes <$> vs)))%nat as Hn.
  { clear -Hty. induction vs as [|v vs IH]; [cbn; lia|]. inversion_clear Hty. rewrite fmap_cons. cbn [concat length].
    rewrite length_app. specialize (IH ltac:(done)). unfold value_bytes at 1. len. }
  destruct (Z.leb_spec (Z.of_nat (length vs)) 0) as [Hz|_]; [subst vs; cbn in Hz; lia|].
  destruct (Z.ltb_spec (Z.of_nat total) (Z.of_nat (length vs))) as [Hz|_]; [lia|]. cbn [orb].
  rewrite Nat2Z.id, drop_be, get_typed_ok; [done|done|by subst vs].
Qed.

Lemma get_keys_ok kvs : forall fuel total m,
  Forall binding_ok kvs -> NoDup kvs.*1 -> (length (concat (key_bytes <$> kvs)) <= total)%nat ->
  (length kvs <= fuel)%nat ->
  get_keys fuel total (concat (key_bytes <$> kvs)) m = Ok (list_to_map kvs ∪ m).
Proof.
  induction kvs as [|[k vs] kvs IH]; intros fuel total m Hb Hn Ht Hf.
  - cbn. rewrite map_empty_union. by destruct fuel.
  - inversion_clear Hb as [|? ? Hkv Hb']. rewrite fmap_cons in *. cbn [concat] in *.
    cbn [fst] in Hn. apply NoDup_cons in Hn as [Hk Hn]. destruct fuel as [|fuel]; [cbn in Hf; lia|].
    rewrite length_app in Ht.
    assert (exists x l, key_bytes (k, vs) ++ concat (key_bytes <$> kvs) = x :: l) as (x & l & E) by (by eexists _, _).
    cbn [get_keys]. rewrite E, <- E, get_key_ok by (done || lia). cbn [mbind outcome_bind fst snd].
    rewrite IH by (done || cbn in Hf; lia). f_equal.
    rewrite list_to_map_cons, <- insert_union_l, insert_union_r; [done|].
    by apply not_elem_of_list_to_map_1.
Qed.

Lemma Split_line k r : newline ∉ k -> Split (k ++ newline :: r) newline = k :: Split r newline.
Proof.
  induction k as [|x k IH]; intros Hk; [done|]. apply not_elem_of_cons in Hk as [Hx Hk]. cbn [app Split].
  rewrite (proj2 (Z.eqb_neq x newline)) by congruence. by rewrite IH.
Qed.

Lemma Split_last k : newline ∉ k -> Split k newline = [k].
Proof.
  induction k as [|x k IH]; intros Hk; [done|]. apply not_elem_of_cons in Hk as [Hx Hk]. cbn [Split].
  rewrite (proj2 (Z.eqb_neq x newline)) by congruence. by rewrite IH.
Qed.

Lemma Split_lines keys :
  keys <> [] -> Forall (fun k => newline ∉ k) keys -> Split (removelast (lines keys)) newline = keys.
Proof.
  intros Hne H. induction H as [|k keys Hk H IH]; [done|].
  change (lines (k :: keys)) with ((k ++ [newline]) ++ lines keys). destruct keys as [|k2 keys].
  - unfold lines. cbn [fmap list_fmap concat]. rewrite app_nil_r, removelast_last. by apply Split_last.
  - rewrite removelast_app by (change (lines (k2 :: keys)) with ((k2 ++ [newline]) ++ lines keys); by destruct k2).
    rewrite <- app_assoc. cbn [app]. rewrite Split_line by done. by rewrite IH.
Qed.

Lemma get_sized_ok keys : forall fuel,
  Forall (fun k => Z.of_nat (length k) < 2 ^ 32) keys -> (length keys <= fuel)%nat ->
  get_sized fuel (sized_keys keys) = Ok keys.
Proof.
  induction keys as [|k keys IH]; intros fuel H Hf; [by destruct fuel|].
  inversion_clear H as [|? ? Hk H']. destruct fuel as [|fuel]; [cbn in Hf; lia|].
  change (sized_keys (k :: keys)) with ((be_encode 4 (Z.of_nat (length k)) ++ k) ++ sized_keys keys).
  rewrite <- app_assoc. cbn [get_sized]. set (rest := k ++ sized_keys keys).
  assert (exists x l, be_encode 4 (Z.of_nat (length k)) ++ rest = x :: l) as (x & l & E) by (by eexists _, _).
  rewrite E, <- E, bool_decide_false by (rewrite E, <- E; len).
  rewrite be_uint_encode by (change (256 ^ Z.of_nat 4) with (2 ^ 32); lia). cbn [mbind outcome_bind].
  rewrite Nat2Z.id, drop_be. unfold rest. rewrite bool_decide_false by len.
  rewrite drop_app_length, take_app_length, IH by (done || cbn in Hf; lia). done.
Qed.

Lemma UnmarshalBinary_ok e :
  entry_ok e -> UnmarshalBinary (Type_ e) (entry_bytes e) = Ok (read_back e).
Proof.
  destruct e as [kvs|keys|keys min max]; cbn [entry_ok entry_bytes Type_ read_back]; unfold UnmarshalBinary;
    cbn [Z.eqb Pos.eqb WriteWALEntryType DeleteWALEntryType DeleteRangeWALEntryType].
  - intros [Hn Hb]. unfold write_UnmarshalBinary.
    change (WriteWALEntry <$> get_keys (length (concat (key_bytes <$> kvs))) (length (concat (key_bytes <$> kvs)))
      (concat (key_bytes <$> kvs)) ∅ = Ok (WriteWALEntry (list_to_map kvs))).
    rewrite get_keys_ok; [by rewrite map_union_empty|done..| ].
    clear. induction kvs as [|b kvs IH]; [done|]. rewrite fmap_cons. cbn [concat length].
    rewrite length_app, key_bytes_length. lia.
  - intros (Hne & Hne1 & Hk).
    change (DeleteWALEntry <$> delete_UnmarshalBinary (removelast (lines keys)) =
      Ok (@DeleteWALEntry (gmap (list Z) (list Value)) keys)).
    unfold delete_UnmarshalBinary. pose proof (Split_lines keys Hne Hk) as Hs.
    destruct (removelast (lines keys)); [cbn in Hs; by subst|]. by rewrite Hs.
  - intros (Hmin & Hmax & Hk).
    change (('(ks, min', max') ← range_UnmarshalBinary (be_encode 8 (u64 min) ++ be_encode 8 (u64 max) ++ sized_keys keys);
      Ok (DeleteRangeWALEntry ks min' max')) = Ok (@DeleteRangeWALEntry (gmap (list Z) (list Value)) keys min max)).
    unfold range_UnmarshalBinary. rewrite bool_decide_false by len.
    rewrite Uint64_encode by apply u64_range. cbn [mbind outcome_bind]. change 16%nat with (8 + 8)%nat.
    rewrite <- drop_drop, drop_be, Uint64_encode by apply u64_range. cbn [mbind outcome_bind].
    rewrite drop_be, get_sized_ok; [|done|].
    + cbn. by rewrite !i64_u64, !i64_small.
    + pose proof (sized_keys_length keys). unfold range_MarshalSize in *. len.
Qed.

(** * Properties *)

(** C25: whatever the buffer it is given, each of the three kinds of log entry encodes
    to exactly its format, within the size it announces, and is decoded to what was
    encoded, a write to the map of its keys.  The keys of a deletion must have no
    newline; a key of a write is below 64 KB. *)
Theorem wal_entry_roundtrip (e : WALEntry bindings) (dst : list Z) :
  entry_ok e ->
  exists b, Encode e dst = Ok b /\ MarshalBinary e = Ok b /\ (length b <= MarshalSize e)%nat /\
    UnmarshalBinary (Type_ e) b = Ok (read_back e).
Proof.
  intros H. exists (entry_bytes e). split; [by apply Encode_ok|]. split; [by apply Encode_ok|].
  split; [|by apply UnmarshalBinary_ok].
  destruct e as [kvs|keys|keys min max]; cbn [entry_bytes MarshalSize] in *.
  - rewrite MarshalSize_exact; [done|apply H].
  - rewrite <- lines_length, removelast_firstn_len, length_take. lia.
  - pose proof (sized_keys_length keys). len.
Qed.

Lemma wal_entry_roundtrip_witness :
  let e := WriteWALEntry [([97], [StringValue (-5) [104; 105]; StringValue 6 []]); ([], [BooleanValue 7 true])] in
  exists b, Encode e [1; 2; 3] = Ok b /\ MarshalBinary e = Ok b /\ (length b <= MarshalSize e)%nat /\
    UnmarshalBinary (Type_ e) b = Ok (read_back e).
Proof.
  intros e. apply (wal_entry_roundtrip e [1; 2; 3]). split.
  - apply (bool_decide_unpack _). vm_compute. exact I.
  - repeat constructor; cbn; try lia.
    + exists (StringValue (-5) [104; 105]), [StringValue 6 []], stringEntryType. split; [done|].
      repeat constructor; cbn; lia.
    + exists (BooleanValue 7 true), [], booleanEntryType. split; [done|]. repeat constructor; cbn; lia.
Defined.

(** where the log entries fall short of that.  A key with a newline comes back
    as two keys, the deletion of the empty key alone as no key at all; the deletion
    of no key panics; and a write whose first value is a string and another is
    not has size 0 and panics at its first byte, instead of failing like the other
    mixtures. *)
Theorem wal_entry_gaps k1 k2 k t s v vs rest dst :
  newline ∉ k1 -> newline ∉ k2 -> entry_type v <> Some stringEntryType ->
  (exists b, Encode (DeleteWALEntry [k1 ++ newline :: k2]) dst = Ok b /\
    UnmarshalBinary DeleteWALEntryType b = Ok (DeleteWALEntry [k1; k2])) /\
  (exists b, Encode (DeleteWALEntry [[]]) dst = Ok b /\
    UnmarshalBinary DeleteWALEntryType b = Ok (DeleteWALEntry [])) /\
  Encode (DeleteWALEntry []) dst = Panic /\
  Encode (WriteWALEntry ((k, StringValue t s :: v :: vs) :: rest)) dst = Panic.
Proof.
  intros H1 H2 Hv. split_and!.
  - exists (k1 ++ newline :: k2). split.
    + cbn [Encode]. rewrite delete_Encode_ok by done. unfold lines. cbn [fmap list_fmap concat].
      by rewrite app_nil_r, removelast_last.
    + pose proof (UnmarshalBinary_ok (DeleteWALEntry [k1; k2])) as E. cbn [Type_ read_back entry_bytes] in E.
      unfold lines in E. cbn [fmap list_fmap concat] in E. rewrite app_nil_r, app_assoc, removelast_last in E.
      rewrite <- app_assoc in E. apply E. split_and!; [done|done|by repeat constructor].
  - exists []. split; [|done]. cbn [Encode]. by rewrite delete_Encode_ok.
  - cbn [Encode]. unfold delete_Encode. done.
  - cbn [Encode]. unfold write_Encode.
    assert (write_MarshalSize ((k, StringValue t s :: v :: vs) :: rest) = 0%nat) as ->.
    { unfold write_MarshalSize. cbn [marshal_loop values_size string_sizes foldr]. by destruct v. }
    rewrite take_0. done.
Qed.

Lemma wal_entry_gaps_witness :
  (exists b, Encode (DeleteWALEntry [[97] ++ newline :: [98]]) [] = Ok b /\
    UnmarshalBinary DeleteWALEntryType b = Ok (DeleteWALEntry [[97]; [98]])) /\
  (exists b, Encode (DeleteWALEntry [[]]) [] = Ok b /\
    UnmarshalBinary DeleteWALEntryType b = Ok (DeleteWALEntry [])) /\
  Encode (DeleteWALEntry []) [] = Panic /\
  Encode (WriteWALEntry (([97], StringValue 1 [98] :: IntegerValue 2 3 :: []) :: [])) [] = Panic.
Proof.
  apply (wal_entry_gaps [97] [98] [97] 1 [98] (IntegerValue 2 3) [] [] []);
    apply (bool_decide_unpack _); vm_compute; exact I.
Defined.

End Wal.
