(* ===== verification/WalFile.v ===== *)
(** The write-ahead log: [WalFile] of src/storage/store/wal_file.go over the mapped
    file of mmap_file.go, and [WALReader] of wal_reader.go.

    The mapped bytes are the file's.  Snappy is the parameter of [StringCodec]. *)
From stdpp Require Import gmap.
From S2P Require Import Prelude Binary Values StringCodec Wal.
Import Values StringCodec Wal.

Module WalFile.

Definition u32 (x : Z) : Z := x mod 2 ^ 32.

(** [Data] is the mapping; [size] is the field of that name. *)
Record WalFile := MkWalFile { Data : list Z; Pos : Z; size : Z }.

(** [OpenMmapFile]: an empty file is grown to [max], with zeros; whether it was
    empty. *)
Definition OpenMmapFile (content : list Z) (max : nat) : list Z * bool :=
  if bool_decide (0 < max)%nat && bool_decide (content = []) then (replicate max 0, true) else (content, false).

Definition Open (content : list Z) (max : nat) : WalFile * bool :=
  let '(d, new) := OpenMmapFile content max in
  (MkWalFile d 0 (if new : bool then 0 else u32 (Z.of_nat (length d))), new).

(** The file at another length: cut, or extended with zeros. *)
Definition resize (d : list Z) (n : nat) : list Z := take n d ++ replicate (n - length d) 0.

Definition Truncate (f : WalFile) (fin : Z) : WalFile :=
  if Z.of_nat (length (Data f)) =? fin then f
  else MkWalFile (resize (Data f) (Z.to_nat fin)) (Pos f) (u32 fin).

(** [CheckArgument] panics when the copy was short. *)
Definition write (f : WalFile) (data : list Z) : outcome WalFile :=
  let n := Z.of_nat (length data) in
  let newPos := u32 (Pos f + n) in
  let f := MkWalFile (Data f) newPos (size f) in
  let f := if Z.of_nat (length (Data f)) <=? newPos then Truncate f newPos else f in
  let start := newPos - n in
  if (start <? 0) || (Z.of_nat (length (Data f)) <? start) then Panic
  else if Z.of_nat (length (Data f)) - start <? n then Panic
  else Ok (MkWalFile (splice (Data f) (Z.to_nat start) data) newPos (u32 (size f + n))).

(** [CloseWithTruncate]: the content left behind. *)
Definition CloseWithTruncate (f : WalFile) (sz : Z) : list Z :=
  if 0 <=? sz then resize (Data f) (Z.to_nat sz) else Data f.

Section WithSnappy.
Context (sn : snappy).

(** [data] is the buffer [bytesPool] gives. *)
Definition writeEntryToWal (f : WalFile) (entry : WALEntry bindings) (data : list Z) : outcome WalFile :=
  b ← Wal.Encode entry data;
  compressedData ← StringCodec.Encode sn b;
  let header := Type_ entry :: be_encode 4 (Z.of_nat (length compressedData)) in
  f ← write f header;
  write f compressedData.

Definition WriteMulti (f : WalFile) (values : bindings) (data : list Z) : outcome WalFile :=
  writeEntryToWal f (WriteWALEntry values) data.

Definition Remove (f : WalFile) (keys : list (list Z)) (data : list Z) : outcome WalFile :=
  match keys with [] => Ok f | _ => writeEntryToWal f (DeleteWALEntry keys) data end.

Definition RemoveRange (f : WalFile) (keys : list (list Z)) (min max : Z) (data : list Z) : outcome WalFile :=
  match keys with [] => Ok f | _ => writeEntryToWal f (DeleteRangeWALEntry keys min max) data end.

(** ** The reader *)

Definition read_entry : Type := WALEntry (gmap (list Z) (list Value)).

(** [r] is what is left to read, [entry] nil before the first. *)
Record WALReader := MkWALReader { r : list Z; entry : option read_entry; n : Z; err : option string }.

Definition NewWALReader (rest : list Z) : WALReader := MkWALReader rest None 0 None.

(** [io.ReadFull]: with nothing to read, EOF; with too little, all is consumed. *)
Inductive read_full := EOF | UnexpectedEOF | Full (b rest : list Z).
Definition ReadFull (rest : list Z) (want : Z) : read_full :=
  if want <=? Z.of_nat (length rest) then Full (take (Z.to_nat want) rest) (drop (Z.to_nat want) rest)
  else match rest with [] => EOF | _ => UnexpectedEOF end.

Definition failed (rd : WALReader) (rest : list Z) (e : string) : WALReader :=
  MkWALReader rest (entry rd) (n rd) (Some e).

(** [snappy.DecodedLen] fails only where [snappy.Decode] does.  [nReadOK] counts the
    bytes of the entry. *)
Definition Next (rd : WALReader) : outcome (WALReader * bool) :=
  match ReadFull (r rd) 5 with
  | EOF => Ok (rd, false)
  | UnexpectedEOF => Ok (failed rd [] "unexpected EOF", true)
  | Full lv rest =>
      entryType ← index lv 0;
      len ← Uint32 (drop 1 lv);
      match ReadFull rest len with
      | EOF => Ok (failed rd [] "EOF", true)
      | UnexpectedEOF => Ok (failed rd [] "unexpected EOF", true)
      | Full b rest' =>
          match snappy_decode sn b with
          | None => Ok (failed rd rest' "snappy: corrupt input", true)
          | Some data =>
              match UnmarshalBinary entryType data with
              | Ok e => Ok (MkWALReader rest' (Some e) (n rd + (5 + len)) None, true)
              | Err e => Ok (failed rd rest' e, true)
              | Panic => Panic
              end
          end
      end
  end.

Definition Read (rd : WALReader) : outcome (option read_entry) :=
  match err rd with Some e => Err e | None => Ok (entry rd) end.

(** The loop over a reader: the entries up to the end or the first error, and the
    reader then. *)
Fixpoint read_loop (fuel : nat) (rd : WALReader) : outcome (list read_entry * WALReader) :=
  match fuel with
  | O => Panic
  | S fuel' =>
      '(rd, more) ← Next rd;
      if negb more then Ok ([], rd)
      else match Read rd with
        | Err _ => Ok ([], rd)
        | Panic => Panic
        | Ok None => Panic
        | Ok (Some e) => '(es, rd) ← read_loop fuel' rd; Ok (e :: es, rd)
        end
  end.

(** Every entry takes five bytes at least. *)
Definition read_all (content : list Z) : outcome (list read_entry * WALReader) :=
  read_loop (S (length content)) (NewWALReader content).

(** Entries logged one after the other, with the buffers the pool happens to give. *)
Fixpoint write_all (f : WalFile) (es : list (WALEntry bindings * list Z)) : outcome WalFile :=
  match es with
  | [] => Ok f
  | (e, data) :: r => f ← writeEntryToWal f e data; write_all f r
  end.

(** ** Specification *)

Definition compressed (e : WALEntry bindings) : list Z := snappy_encode sn (entry_bytes e).

(** The bytes of an entry in the log. *)
Definition record (e : WALEntry bindings) : list Z :=
  Type_ e :: be_encode 4 (Z.of_nat (length (compressed e))) ++ compressed e.

Definition records (es : list (WALEntry bindings)) : list Z := concat (record <$> es).

Definition loggable (e : WALEntry bindings) : Prop :=
  entry_ok e /\ 0 <= MaxEncodedLen sn (Z.of_nat (length (entry_bytes e))) /\
  Z.of_nat (length (compressed e)) < 2 ^ 32.

(** The log holds [p], followed by zeros. *)
Record holds (f : WalFile) (p : list Z) : Prop := {
  holds_pos : Pos f = Z.of_nat (length p);
  holds_data : exists z, Data f = p ++ replicate z 0
}.

(** * Lemmas *)

Lemma resize_grow d n : (length d <= n)%nat -> resize d n = d ++ replicate (n - length d) 0.
Proof. intros H. unfold resize. by rewrite take_ge. Qed.

Lemma write_ok f p bs :
  holds f p -> Z.of_nat (length p + length bs) < 2 ^ 32 ->
  exists f', write f bs = Ok f' /\ holds f' (p ++ bs).
Proof.
  intros [Hp [z Hd]] Hlt. unfold write. rewrite Hp.
  assert (u32 (Z.of_nat (length p) + Z.of_nat (length bs)) = Z.of_nat (length p + length bs)) as ->
    by (unfold u32; rewrite Z.mod_small; lia).
  set (f1 := MkWalFile (Data f) _ _).
  set (f2 := if Z.of_nat (length (Data f1)) <=? _ then _ else _).
  assert (exists z', Data f2 = p ++ replicate (length bs + z') 0) as [z' Hd2].
  { unfold f2. cbn [Data f1]. rewrite Hd, length_app, length_replicate.
    destruct (Z.leb_spec (Z.of_nat (length p + z)) (Z.of_nat (length p + length bs))) as [Hz|Hz].
    - exists 0%nat. unfold Truncate. cbn [Data f1]. rewrite Hd, length_app, length_replicate.
      destruct (Z.eqb_spec (Z.of_nat (length p + z)) (Z.of_nat (length p + length bs))) as [Heq|Hne]; cbn [Data f1].
      + rewrite Hd. do 2 f_equal. lia.
      + rewrite Nat2Z.id, resize_grow by len. rewrite <- app_assoc, <- replicate_add. do 2 f_equal. len.
    - exists (z - length bs)%nat. cbn [Data f1]. rewrite Hd. do 2 f_equal. lia. }
  destruct (Z.ltb_spec (Z.of_nat (length p + length bs) - Z.of_nat (length bs)) 0) as [?|_]; [lia|].
  rewrite Hd2, length_app, length_replicate. cbn [orb].
  destruct (Z.ltb_spec (Z.of_nat (length p + (length bs + z')))
    (Z.of_nat (length p + length bs) - Z.of_nat (length bs))) as [?|_]; [lia|].
  destruct (Z.ltb_spec (Z.of_nat (length p + (length bs + z')) -
    (Z.of_nat (length p + length bs) - Z.of_nat (length bs))) (Z.of_nat (length bs))) as [?|_]; [lia|].
  eexists. split; [done|]. split; cbn [Pos Data]; [len|].
  exists z'. replace (Z.to_nat _) with (length p) by lia. unfold splice.
  rewrite take_app_length, <- app_assoc, replicate_add, (app_assoc p (replicate _ _)), drop_app_length' by len. done.
Qed.

(** A write in the middle of the file. *)
Lemma write_safe f bs :
  0 <= Pos f -> Pos f + Z.of_nat (length bs) < 2 ^ 32 ->
  exists f', write f bs = Ok f' /\ Pos f' = Pos f + Z.of_nat (length bs).
Proof.
  intros H0 Hlt. unfold write.
  assert (u32 (Pos f + Z.of_nat (length bs)) = Pos f + Z.of_nat (length bs)) as ->
    by (unfold u32; rewrite Z.mod_small; lia).
  set (f2 := if Z.of_nat _ <=? _ then _ else _).
  assert (Pos f + Z.of_nat (length bs) <= Z.of_nat (length (Data f2))) as Hd.
  { unfold f2. cbn [Data]. destruct (Z.leb_spec (Z.of_nat (length (Data f))) (Pos f + Z.of_nat (length bs))) as [Hle|Hgt];
      cbn [Data]; [|lia]. unfold Truncate. cbn [Data].
    destruct (Z.eqb_spec (Z.of_nat (length (Data f))) (Pos f + Z.of_nat (length bs))) as [Heq|Hne]; cbn [Data]; [lia|].
    rewrite resize_grow by lia. len. }
  destruct (Z.ltb_spec (Pos f + Z.of_nat (length bs) - Z.of_nat (length bs)) 0); [lia|]. cbn [orb].
  destruct (Z.ltb_spec (Z.of_nat (length (Data f2))) (Pos f + Z.of_nat (length bs) - Z.of_nat (length bs))); [lia|].
  destruct (Z.ltb_spec (Z.of_nat (length (Data f2)) - (Pos f + Z.of_nat (length bs) - Z.of_nat (length bs)))
    (Z.of_nat (length bs))); [lia|].
  eexists. split; [done|]. done.
Qed.

(** A write over what the file has leaves what follows it. *)
Definition over (f f' : WalFile) : Prop :=
  length (Data f') = length (Data f) /\
  forall q, Pos f' <= Z.of_nat q -> drop q (Data f') = drop q (Data f).

Lemma write_over f bs :
  0 <= Pos f -> Pos f + Z.of_nat (length bs) <= Z.of_nat (length (Data f)) ->
  Pos f + Z.of_nat (length bs) < 2 ^ 32 ->
  exists f', write f bs = Ok f' /\ Pos f' = Pos f + Z.of_nat (length bs) /\ over f f'.
Proof.
  intros H0 Hin Hlt. unfold write.
  assert (u32 (Pos f + Z.of_nat (length bs)) = Pos f + Z.of_nat (length bs)) as ->
    by (unfold u32; rewrite Z.mod_small; lia).
  set (f2 := if Z.of_nat _ <=? _ then _ else _).
  assert (Data f2 = Data f) as ->.
  { unfold f2, Truncate. cbn [Data]. repeat case_match; [done| |done].
    rewrite Z.leb_le, Z.eqb_neq in *. lia. }
  destruct (Z.ltb_spec (Pos f + Z.of_nat (length bs) - Z.of_nat (length bs)) 0); [lia|]. cbn [orb].
  destruct (Z.ltb_spec (Z.of_nat (length (Data f))) (Pos f + Z.of_nat (length bs) - Z.of_nat (length bs))); [lia|].
  destruct (Z.ltb_spec (Z.of_nat (length (Data f)) - (Pos f + Z.of_nat (length bs) - Z.of_nat (length bs)))
    (Z.of_nat (length bs))); [lia|].
  eexists. split; [done|]. split; [done|]. unfold over. cbn [Pos Data]. unfold splice.
  set (p := Z.to_nat _). split; [len|]. intros q Hq.
  rewrite app_assoc, drop_app_ge by len. rewrite drop_drop. f_equal. len.
Qed.

Lemma record_length e : Z.of_nat (length (record e)) = 5 + Z.of_nat (length (compressed e)).
Proof. unfold record. cbn [length]. rewrite length_app, length_be_encode. lia. Qed.

Lemma writeEntryToWal_safe f e data :
  0 <= Pos f -> loggable e -> Pos f + Z.of_nat (length (record e)) < 2 ^ 32 ->
  exists f', writeEntryToWal f e data = Ok f' /\ Pos f' = Pos f + Z.of_nat (length (record e)).
Proof.
  intros H0 (He & Hm & Hc) Hlt. rewrite record_length in *. unfold writeEntryToWal. rewrite Encode_ok by done.
  cbn [mbind outcome_bind]. unfold StringCodec.Encode.
  destruct (Z.ltb_spec (MaxEncodedLen sn (Z.of_nat (length (entry_bytes e)))) 0); [lia|].
  cbn [mbind outcome_bind]. fold (compressed e).
  set (h := Type_ e :: be_encode 4 (Z.of_nat (length (compressed e)))).
  assert (length h = 5%nat) as Hh by (unfold h; cbn [length]; by rewrite length_be_encode).
  destruct (write_safe f h H0) as (f1 & -> & H1); [lia|]. cbn [mbind outcome_bind].
  destruct (write_safe f1 (compressed e)) as (f2 & -> & H2); [lia..|]. exists f2. split; [done|lia].
Qed.

Lemma writeEntryToWal_over f e data :
  0 <= Pos f -> loggable e -> Pos f + Z.of_nat (length (record e)) <= Z.of_nat (length (Data f)) ->
  Pos f + Z.of_nat (length (record e)) < 2 ^ 32 ->
  exists f', writeEntryToWal f e data = Ok f' /\ Pos f' = Pos f + Z.of_nat (length (record e)) /\ over f f'.
Proof.
  intros H0 (He & Hm & Hc) Hin Hlt. rewrite record_length in *. unfold writeEntryToWal. rewrite Encode_ok by done.
  cbn [mbind outcome_bind]. unfold StringCodec.Encode.
  destruct (Z.ltb_spec (MaxEncodedLen sn (Z.of_nat (length (entry_bytes e)))) 0); [lia|].
  cbn [mbind outcome_bind]. fold (compressed e).
  set (h := Type_ e :: be_encode 4 (Z.of_nat (length (compressed e)))).
  assert (length h = 5%nat) as Hh by (unfold h; cbn [length]; by rewrite length_be_encode).
  destruct (write_over f h H0) as (f1 & -> & H1 & Hl1 & Hd1); [lia..|]. cbn [mbind outcome_bind].
  destruct (write_over f1 (compressed e)) as (f2 & -> & H2 & Hl2 & Hd2); [lia..|]. exists f2.
  split; [done|]. split; [lia|]. split; [lia|]. intros q Hq. rewrite Hd2, Hd1 by lia. done.
Qed.

Context (laws : snappy_laws sn).

Lemma writeEntryToWal_ok f p e data :
  holds f p -> loggable e -> Z.of_nat (length p + length (record e)) < 2 ^ 32 ->
  exists f', writeEntryToWal f e data = Ok f' /\ holds f' (p ++ record e).
Proof.
  intros Hf (He & Hm & Hc) Hlt. unfold writeEntryToWal, record in *. rewrite Encode_ok by done. cbn [mbind outcome_bind].
  unfold StringCodec.Encode. destruct (Z.ltb_spec (MaxEncodedLen sn (Z.of_nat (length (entry_bytes e)))) 0); [lia|].
  cbn [mbind outcome_bind]. fold (compressed e). cbn [length] in Hlt. rewrite length_app, length_be_encode in Hlt.
  destruct (write_ok f p (Type_ e :: be_encode 4 (Z.of_nat (length (compressed e)))) Hf) as (f1 & -> & H1);
    [cbn [length]; rewrite length_be_encode; lia|cbn [mbind outcome_bind]].
  destruct (write_ok f1 _ (compressed e) H1) as (f2 & -> & H2); [len|].
  exists f2. split; [done|]. rewrite <- app_assoc in H2. done.
Qed.

Lemma records_cons e es : records (e :: es) = record e ++ records es.
Proof. done. Qed.

Lemma records_app es1 es2 : records (es1 ++ es2) = records es1 ++ records es2.
Proof. unfold records. by rewrite fmap_app, concat_app. Qed.

Lemma write_all_ok es : forall f p,
  holds f p -> Forall loggable es.*1 -> Z.of_nat (length p + length (records es.*1)) < 2 ^ 32 ->
  exists f', write_all f es = Ok f' /\ holds f' (p ++ records es.*1).
Proof.
  induction es as [|[e data] es IH]; intros f p Hf Hl Hlt.
  - exists f. split; [done|]. unfold records. cbn. by rewrite app_nil_r.
  - rewrite fmap_cons in *. cbn [fst] in *. inversion_clear Hl as [|? ? He Hl'].
    change (records (e :: es.*1)) with (record e ++ records es.*1) in *. rewrite length_app in Hlt.
    destruct (writeEntryToWal_ok f p e data Hf He) as (f1 & H1 & Hf1); [lia|].
    destruct (IH f1 (p ++ record e) Hf1 Hl') as (f2 & H2 & Hf2); [len|].
    exists f2. cbn [write_all]. rewrite H1. cbn [mbind outcome_bind]. by rewrite app_assoc.
Qed.

(** ** Reading back *)

Lemma ReadFull_app b rest want : Z.of_nat (length b) = want -> ReadFull (b ++ rest) want = Full b rest.
Proof.
  intros <-. unfold ReadFull. destruct (Z.leb_spec (Z.of_nat (length b)) (Z.of_nat (length (b ++ rest)))); [|len].
  by rewrite Nat2Z.id, take_app_length, drop_app_length.
Qed.

Lemma ReadFull_short rest want :
  Z.of_nat (length rest) < want -> ReadFull rest want = EOF \/ ReadFull rest want = UnexpectedEOF.
Proof.
  intros H. unfold ReadFull. destruct (Z.leb_spec want (Z.of_nat (length rest))); [lia|]. destruct rest; auto.
Qed.

(** The header of a record. *)
Definition header (e : WALEntry bindings) : list Z :=
  Type_ e :: be_encode 4 (Z.of_nat (length (compressed e))).

Lemma header_length e : length (header e) = 5%nat.
Proof. unfold header. cbn [length]. by rewrite length_be_encode. Qed.

Lemma record_split e rest : record e ++ rest = header e ++ compressed e ++ rest.
Proof. unfold record, header. cbn [app]. by rewrite <- app_assoc. Qed.

Lemma header_len e :
  loggable e -> Uint32 (drop 1 (header e)) = Ok (Z.of_nat (length (compressed e))).
Proof.
  intros (_ & _ & Hc). unfold header. rewrite skipn_cons, drop_0, <- (app_nil_r (be_encode 4 _)).
  apply be_uint_encode. change (256 ^ Z.of_nat 4) with (2 ^ 32). lia.
Qed.

Lemma Next_record e rest en m er :
  loggable e ->
  Next (MkWALReader (record e ++ rest) en m er) =
  Ok (MkWALReader rest (Some (read_back e)) (m + Z.of_nat (length (record e))) None, true).
Proof.
  intros Hl. pose proof Hl as (He & Hm & Hc). unfold Next. cbn [r]. rewrite record_split, ReadFull_app by (by rewrite header_length).
  change (index (header e) 0) with (Ok (Type_ e)). cbn [mbind outcome_bind]. rewrite header_len by done.
  cbn [mbind outcome_bind]. rewrite ReadFull_app by done.
  unfold compressed at 1. rewrite (snappy_decode_encode _ laws) by done.
  rewrite UnmarshalBinary_ok by done. cbn [n].
  replace (5 + Z.of_nat (length (compressed e))) with (Z.of_nat (length (record e))); [done|].
  unfold record. cbn [length]. rewrite length_app, length_be_encode. lia.
Qed.

(** Where reading stops. *)
Definition stuck (tail : list Z) : Prop :=
  forall en m er, exists rd more,
    Next (MkWALReader tail en m er) = Ok (rd, more) /\ n rd = m /\ (more = false \/ exists e, err rd = Some e).

Lemma read_loop_records es : forall tail fuel en m er,
  Forall loggable es -> stuck tail -> (length es < fuel)%nat ->
  exists rd, read_loop fuel (MkWALReader (records es ++ tail) en m er) = Ok (read_back <$> es, rd) /\
    n rd = m + Z.of_nat (length (records es)).
Proof.
  induction es as [|e es IH]; intros tail fuel en m er Hl Hst Hf; (destruct fuel as [|fuel]; [cbn in Hf; lia|]); cbn [read_loop].
  - change (records [] ++ tail) with tail. destruct (Hst en m er) as (rd & more & -> & Hn & Hs).
    cbn [mbind outcome_bind]. exists rd. split; [|cbn; lia]. destruct Hs as [->|[e He]]; [done|].
    destruct more; [|done]. cbn [negb]. unfold Read. by rewrite He.
  - inversion_clear Hl as [|? ? He Hl']. change (records (e :: es)) with (record e ++ records es).
    rewrite <- app_assoc, Next_record by done. cbn [mbind outcome_bind negb Read err entry].
    destruct (IH tail fuel (Some (read_back e)) (m + Z.of_nat (length (record e))) None) as (rd & Hrd & Hn);
      [done|done|cbn in Hf; lia|].
    rewrite Hrd. cbn [mbind outcome_bind]. exists rd. split; [done|]. rewrite Hn. len.
Qed.

Lemma records_count es : (length es <= length (records es))%nat.
Proof.
  induction es as [|e es IH]; [done|]. change (records (e :: es)) with (record e ++ records es).
  unfold record. cbn [app length]. rewrite length_app. lia.
Qed.

Lemma read_all_records es tail :
  Forall loggable es -> stuck tail ->
  exists rd, read_all (records es ++ tail) = Ok (read_back <$> es, rd) /\ n rd = Z.of_nat (length (records es)).
Proof.
  intros Hl Hst. unfold read_all, NewWALReader. apply (read_loop_records es tail _ None 0 None); [done|done|].
  pose proof (records_count es). len.
Qed.

Context (empty : snappy_decode sn [] = None).

Lemma stuck_zeros z : stuck (replicate z 0).
Proof.
  intros en m er. destruct (decide (z < 5)%nat) as [Hz|Hz].
  - destruct z as [|[|[|[|[|z]]]]]; [..|lia]; eexists _, _; (split; [done|]); cbn; eauto.
  - replace z with (5 + (z - 5))%nat by lia. rewrite replicate_add. unfold Next. cbn [r].
    rewrite ReadFull_app by done. change (index (replicate 5 0) 0) with (Ok 0 : outcome Z).
    change (Uint32 (drop 1 (replicate 5 0))) with (Ok 0 : outcome Z). cbn [mbind outcome_bind].
    change (replicate (z - 5) 0) with ([] ++ replicate (z - 5) 0).
    rewrite ReadFull_app by done. rewrite empty. eexists _, _. split; [done|]. cbn. eauto.
Qed.

(** A record cut short. *)
Lemma stuck_prefix e k : loggable e -> (k < length (record e))%nat -> stuck (take k (record e)).
Proof.
  intros Hl Hk en m er. pose proof (record_split e []) as E. rewrite !app_nil_r in E. rewrite E in *.
  pose proof (header_length e) as Hh. rewrite length_app in Hk. unfold Next. cbn [r].
  destruct (decide (k < 5)%nat) as [Hk5|Hk5].
  - destruct (ReadFull_short (take k (header e ++ compressed e)) 5) as [-> | ->];
      [rewrite length_take; lia|eexists _, _; (split; [done|]); cbn; eauto..].
  - rewrite take_app, (take_ge (header e)) by lia. rewrite ReadFull_app by lia.
    change (index (header e) 0) with (Ok (Type_ e)). cbn [mbind outcome_bind]. rewrite header_len by done.
    cbn [mbind outcome_bind].
    destruct (ReadFull_short (take (k - length (header e)) (compressed e)) (Z.of_nat (length (compressed e)))) as [-> | ->];
      [rewrite length_take; lia|eexists _, _; (split; [done|]); cbn; eauto..].
Qed.

(** The records that fit whole in [k] bytes. *)
Lemma cut_records es : forall k,
  (k <= length (records es))%nat ->
  (exists m, take k (records es) = records (take m es) /\ k = length (records (take m es)) /\ m = length es) \/
  exists m e, es !! m = Some e /\ (length (records (take m es)) <= k < length (records (take (S m) es)))%nat /\
    take k (records es) = records (take m es) ++ take (k - length (records (take m es))) (record e).
Proof.
  induction es as [|e es IH]; intros k Hk.
  - left. exists 0%nat. cbn in *. split_and!; [by rewrite take_nil|lia|done].
  - rewrite records_cons, length_app in Hk. rewrite !records_cons.
    destruct (decide (k < length (record e))%nat) as [Hlt|Hge].
    + right. exists 0%nat, e. split; [done|]. rewrite take_0, firstn_cons, take_0, records_cons.
      change (records []) with (@nil Z). rewrite app_nil_r. cbn [length app]. split; [lia|].
      rewrite take_app, Nat.sub_0_r. replace (k - length (record e))%nat with 0%nat by lia.
      by rewrite take_0, app_nil_r.
    + rewrite take_app, take_ge by lia.
      destruct (IH (k - length (record e))%nat) as [(m & -> & Hm & ->)|(m & e' & He' & Hm & ->)]; [lia|left|right].
      * exists (S (length es)). rewrite firstn_cons, records_cons, length_app. split_and!; [done|lia|done].
      * exists (S m), e'. split; [done|]. rewrite !firstn_cons, !records_cons, !length_app. split; [lia|].
        rewrite <- app_assoc. do 3 f_equal. lia.
Qed.

(** A log cut anywhere: whole records, and something reading stops at. *)
Lemma cut_split es k z :
  Forall loggable es -> (k <= length (records es) + z)%nat ->
  exists m tail, take k (records es ++ replicate z 0) = records (take m es) ++ tail /\ stuck tail /\
    (m <= length es)%nat /\ (length (records (take m es)) <= k)%nat /\
    ((m < length es)%nat -> (k < length (records (take (S m) es)))%nat).
Proof.
  intros Hl Hk. rewrite take_app. destruct (decide (k < length (records es))%nat) as [Hlt'|Hge].
  - replace (k - length (records es))%nat with 0%nat by lia. rewrite take_0, app_nil_r.
    destruct (cut_records es k) as [(m & _ & Hm & ->)|(m & e & He & Hm & ->)]; [lia| |].
    { rewrite firstn_all in Hm. lia. }
    exists m, (take (k - length (records (take m es))) (record e)). split; [done|]. split.
    + apply stuck_prefix; [by apply (Forall_lookup_1 _ _ _ _ Hl He)|].
      rewrite (take_S_r _ _ e He), records_app, length_app, records_cons, app_nil_r in Hm. lia.
    + apply lookup_lt_Some in He. split_and!; [lia|lia|intros; lia].
  - rewrite take_ge, take_replicate by lia.
    exists (length es), (replicate (Nat.min (k - length (records es)) z) 0). rewrite !take_ge by lia.
    split; [done|]. split; [apply stuck_zeros|]. split_and!; [done|lia|lia].
Qed.

Lemma cut_ok es k z :
  Forall loggable es -> (k <= length (records es) + z)%nat ->
  exists m rd, read_all (take k (records es ++ replicate z 0)) = Ok (take m (read_back <$> es), rd) /\
    (m <= length es)%nat /\ n rd = Z.of_nat (length (records (take m es))) /\ n rd <= Z.of_nat k /\
    ((m < length es)%nat -> (k < length (records (take (S m) es)))%nat).
Proof.
  intros Hl Hk. destruct (cut_split es k z Hl Hk) as (m & tail & -> & Hst & Hm & Hle & Hlast).
  destruct (read_all_records (take m es) tail) as (rd & -> & Hn); [by apply Forall_take|done|].
  exists m, rd. rewrite fmap_take. split_and!; [done|lia|done|lia|done].
Qed.

Lemma cut_whole es k m :
  (m <= length es)%nat -> (length (records es) <= k)%nat ->
  ((m < length es)%nat -> (k < length (records (take (S m) es)))%nat) -> m = length es.
Proof.
  intros Hm Hk Hlt. destruct (decide (m = length es)) as [|Hne]; [done|]. specialize (Hlt ltac:(lia)).
  rewrite <- (take_drop (S m) es), records_app, length_app in Hk. lia.
Qed.

(** * Properties *)

(** C9: the log survives a restart.  Entries appended to a log opened empty are all
    read back, in order, up to the position of the log, and reading stops at the zeros
    of the preallocated file.  If the file was cut at any length [k], exactly the
    entries that fit whole are read back, and the count of good bytes says where they
    end. *)
Theorem wal_recovery max es :
  Forall loggable es.*1 -> Z.of_nat (length (records es.*1)) < 2 ^ 32 -> (0 < max)%nat ->
  exists f, write_all (fst (Open [] max)) es = Ok f /\
    (exists rd, read_all (Data f) = Ok (read_back <$> es.*1, rd) /\ n rd = Pos f) /\
    forall k, (k <= length (Data f))%nat ->
    exists m rd, read_all (take k (Data f)) = Ok (take m (read_back <$> es.*1), rd) /\
      n rd = Z.of_nat (length (records (take m es.*1))) /\ n rd <= Z.of_nat k /\
      ((m < length es)%nat -> (k < length (records (take (S m) es.*1)))%nat).
Proof.
  intros Hl Hlt Hmax. destruct (write_all_ok es (fst (Open [] max)) []) as (f & Hw & Hp & z & Hd); [|done|done|].
  { unfold Open, OpenMmapFile. rewrite !bool_decide_true by done. split; [done|]. by exists max. }
  cbn [app] in *. exists f. split; [done|]. split.
  { rewrite Hd, Hp. apply read_all_records; [done|apply stuck_zeros]. }
  intros k Hk. rewrite Hd, length_app, length_replicate in Hk. rewrite Hd.
  destruct (cut_ok es.*1 k z Hl Hk) as (m & rd & Hrd & _ & Hn & Hle & Hlast).
  exists m, rd. rewrite length_fmap in Hlast. done.
Qed.

End WithSnappy.

(** A library with the laws that refuses the empty input. *)
Definition tagging_snappy : snappy :=
  Snappy (cons 0) (fun b => match b with [] => None | _ :: r => Some r end)
    (fun n => if n <=? MaxUint32 then n + 1 else -1).

Lemma tagging_snappy_laws : snappy_laws tagging_snappy.
Proof.
  split; cbn [snappy_encode snappy_decode MaxEncodedLen tagging_snappy].
  - done.
  - intros b. destruct (Z.leb_spec (Z.of_nat (length b)) MaxUint32); cbn [length]; lia.
  - intros n Hn. destruct (Z.leb_spec n MaxUint32); lia.
  - intros b Hb. constructor; [unfold is_byte; lia|done].
  - intros m n Hm. destruct (Z.leb_spec m MaxUint32), (Z.leb_spec n MaxUint32); lia.
Qed.

Lemma wal_recovery_witness :
  let es := [(WriteWALEntry [([97], [IntegerValue 1 5])], [9; 9]); (DeleteRangeWALEntry [[97]] 0 3, [])] in
  exists f, write_all tagging_snappy (fst (Open [] 64)) es = Ok f /\
    (exists rd, read_all tagging_snappy (Data f) = Ok (read_back <$> es.*1, rd) /\ n rd = Pos f) /\
    forall k, (k <= length (Data f))%nat ->
    exists m rd, read_all tagging_snappy (take k (Data f)) = Ok (take m (read_back <$> es.*1), rd) /\
      n rd = Z.of_nat (length (records tagging_snappy (take m es.*1))) /\ n rd <= Z.of_nat k /\
      ((m < length es)%nat -> (k < length (records tagging_snappy (take (S m) es.*1)))%nat).
Proof.
  intros es. apply (wal_recovery tagging_snappy tagging_snappy_laws eq_refl 64 es); [|vm_compute; reflexivity|lia].
  repeat constructor; cbn; try lia; try done.
  - by intros ?%elem_of_nil.
  - exists (IntegerValue 1 5), [], integerEntryType. split; [done|]. repeat constructor; cbn; lia.
Defined.

End WalFile.
