(* ===== verification/MemTable.v ===== *)
(** Memory tables: src/storage/memory/memtable.go, a [Cache] and its log.

    A table that is opened again reads its log and writes what it reads to the same
    log, from position 0: the reader ([live]) sees the mapping as it is when it
    fetches the bytes. *)
From stdpp Require Import gmap.
From S2P Require Import Prelude Binary Bytes Values Entry StringCodec Wal WalFile Cache.
Import Values.

Module MemTable.

Definition MinInt64 : Z := - 2 ^ 63.
Definition MaxInt64 : Z := 2 ^ 63 - 1.

Record MemTable := MkMemTable { cache : Cache.Cache; wal : WalFile.WalFile; maxMemTableSize : Z }.

Definition set_cache (m : MemTable) (c : Cache.Cache) : MemTable := MkMemTable c (wal m) (maxMemTableSize m).
Definition set_wal (m : MemTable) (w : WalFile.WalFile) : MemTable := MkMemTable (cache m) w (maxMemTableSize m).

(** Go leaves the order of a [range] over a map open, and [randomHeight] draws: a
    write takes the two orders of its two loops, the draws and the pool's buffer. *)
Record nondet := MkNondet {
  logged : Wal.bindings;
  stored : Wal.bindings;
  draws : nat -> nat -> Z;
  data : list Z
}.

(** The loop of [WriteMulti] over the cache; the error of the first [Put] that fails. *)
Fixpoint put_all (c : Cache.Cache) (kvs : Wal.bindings) (lifecycles : list Z -> Z)
    (draws : nat -> nat -> Z) (i : nat) : outcome (Cache.Cache * option string) :=
  match kvs with
  | [] => Ok (c, None)
  | (k, v) :: r =>
      '(c, err) ← Cache.Put c k v (lifecycles k) (Cache.randomHeight (draws i));
      match err with
      | None => put_all c r lifecycles draws (S i)
      | Some e => Ok (c, Some e)
      end
  end.

Section WithSnappy.
Context (sn : StringCodec.snappy).

(** Without a map of life cycles, and for a key not in it, the life cycle is 0. *)
Definition WriteMulti (m : MemTable) (d : nondet) (lifecycles : list Z -> Z)
  : outcome (MemTable * option string) :=
  match WalFile.WriteMulti sn (wal m) (logged d) (data d) with
  | Panic => Panic
  | Err e => Ok (m, Some e)
  | Ok w =>
      '(c, err) ← put_all (cache m) (stored d) lifecycles (draws d) 0;
      Ok (set_cache (set_wal m w) c, err)
  end.

(** [Get] returns a pointer to the entry, which is cleaned and filtered in place. *)
Definition delete_key (c : Cache.Cache) (k : list Z) (min max : Z) : outcome Cache.Cache :=
  n ← Cache.Get c k;
  match n with
  | None => Ok c
  | Some n =>
      nd ← index (Cache.nodes c) n;
      match Cache.entry nd with
      | None => Ok c
      | Some e =>
          let origSize := Cache.u32 (Entry.Size e) in
          let e := if (min =? MinInt64) && (max =? MaxInt64) then Entry.Clean e else e in
          e ← Entry.Filter e min max;
          c ← Cache.set_entry c n e;
          Ok (Cache.DecreaseSize c (Cache.u32 (origSize - Cache.u32 (Entry.Size e))))
      end
  end.

Fixpoint delete_keys (c : Cache.Cache) (keys : list (list Z)) (min max : Z) : outcome Cache.Cache :=
  match keys with
  | [] => Ok c
  | k :: r => c ← delete_key c k min max; delete_keys c r min max
  end.

Definition DeleteRange (m : MemTable) (keys : list (list Z)) (min max : Z) : outcome MemTable :=
  c ← delete_keys (cache m) keys min max; Ok (set_cache m c).

Definition Delete (m : MemTable) (keys : list (list Z)) : outcome MemTable :=
  DeleteRange m keys MinInt64 MaxInt64.

Definition IsFull (m : MemTable) : bool :=
  (Cache.u32 (maxMemTableSize m) <=? Cache.size (cache m)) ||
  (Cache.u32 (maxMemTableSize m) <=? WalFile.Pos (wal m)).

(** One entry of the log, applied again; a write logs itself again, from position 0
    of the log that is being read. *)
Definition apply_entry (m : MemTable) (e : WalFile.read_entry) (d : nondet) : outcome (MemTable * option string) :=
  match e with
  | Wal.WriteWALEntry _ => WriteMulti m d (fun _ => 0)
  | Wal.DeleteRangeWALEntry keys min max => m ← DeleteRange m keys min max; Ok (m, None)
  | Wal.DeleteWALEntry keys => m ← Delete m keys; Ok (m, None)
  end.

(** The reader of the log while the log is written: [bufio.Reader] over the mapping
    as it was at the start.  [rd] has the bytes still to be read as they are now; the
    first [ahead] of them are in the buffer and stay what they are.  When the log
    outgrew the mapping, the pages are gone: [lost]. *)
Record live := MkLive { rd : WalFile.WALReader; ahead : nat; lost : bool }.

Definition set_rest (w : WalFile.WALReader) (rest : list Z) : WalFile.WALReader :=
  WalFile.MkWALReader rest (WalFile.entry w) (WalFile.n w) (WalFile.err w).

(** What is in the buffer after [want] of [left] bytes were read: a read that the
    buffer does not cover empties it, and then goes to the mapping if it wants a
    buffer or more, and fills the buffer otherwise. *)
Definition bufferSize : nat := 4096.
Definition buffered (ahead left want : nat) : nat :=
  if bool_decide (want <= ahead)%nat then ahead - want
  else if bool_decide (bufferSize <= want - ahead)%nat then 0
  else Nat.min bufferSize (left - ahead) - (want - ahead).

(** The bytes the next entry asks for. *)
Definition demand (rest : list Z) : Z :=
  match WalFile.ReadFull rest 5 with
  | WalFile.Full lv _ => match Binary.Uint32 (drop 1 lv) with Ok len => 5 + len | _ => 5 end
  | _ => 5
  end.

Definition live_Next (l : live) : outcome (live * bool) :=
  let rest := WalFile.r (rd l) in
  if lost l && (Z.of_nat (ahead l) <? demand rest) then Panic
  else
    '(rd', more) ← WalFile.Next sn (rd l);
    let left := (length rest - 5)%nat in
    Ok (MkLive rd' (buffered (buffered (ahead l) (length rest) 5) left (left - length (WalFile.r rd'))) (lost l), more).

(** After a write: [len] is the length of the mapping at the start, [d] the log now. *)
Definition refresh (len : nat) (d : list Z) (l : live) : live :=
  let rest := WalFile.r (rd l) in
  let fetched := (len - (length rest - ahead l))%nat in
  if lost l || bool_decide (len <= fetched)%nat then l
  else if bool_decide (length d = len)
  then MkLive (set_rest (rd l) (take (ahead l) rest ++ drop fetched d)) (ahead l) false
  else MkLive (set_rest (rd l) (take (ahead l) rest)) (ahead l) true.

(** [ds]: the choices of the writes among the entries. *)
Fixpoint restore_loop (fuel len : nat) (m : MemTable) (l : live) (ds : nat -> nondet) (i : nat)
  : outcome (MemTable * live * option string) :=
  match fuel with
  | O => Panic
  | S fuel' =>
      '(l, more) ← live_Next l;
      if negb more then Ok (m, l, None)
      else match WalFile.Read (rd l) with
        | Err _ => Ok (m, l, None)
        | Panic => Panic
        | Ok None => Panic
        | Ok (Some e) =>
            '(m, err) ← apply_entry m e (ds i);
            match err with
            | Some e => Ok (m, l, Some e)
            | None => restore_loop fuel' len m (refresh len (WalFile.Data (wal m)) l) ds (S i)
            end
        end
  end.

Definition restoreFromWAL (m : MemTable) (ds : nat -> nondet) : outcome (MemTable * option string) :=
  let content := WalFile.Data (wal m) in
  '(m, l, err) ← restore_loop (S (length content)) (length content) m
    (MkLive (WalFile.NewWALReader content) 0 false) ds 0;
  match err with
  | Some e => Ok (m, Some e)
  | None =>
      let w := wal m in
      Ok (set_wal m (WalFile.MkWalFile (WalFile.Data w) (WalFile.u32 (WalFile.n (rd l))) (WalFile.size w)), None)
  end.

(** [content]: what the file holds, nothing if it was just created; whether the table
    is new. *)
Definition OpenMemTable (content : list Z) (max : nat) (ds : nat -> nondet)
  : outcome (MemTable * bool * option string) :=
  let '(w, new) := WalFile.Open content (2 * max) in
  let mt := MkMemTable Cache.NewCache w (Z.of_nat max) in
  if new : bool then Ok (mt, true, None)
  else '(mt, err) ← restoreFromWAL mt ds; Ok (mt, false, err).

Definition NewMemTable (content : list Z) (max : nat) (ds : nat -> nondet) : outcome MemTable :=
  '(mt, new, err) ← OpenMemTable content max ds;
  match err with
  | Some e => Err e
  | None => if new : bool then Ok mt else Err "file already exists"
  end.

End WithSnappy.

Definition IncrRef (m : MemTable) : MemTable := set_cache m (Cache.Ref (cache m)).
(** The handler deletes the log. *)
Definition DecrRef (m : MemTable) : MemTable * bool :=
  let '(c, closed) := Cache.Deref (cache m) in (set_cache m c, closed).

End MemTable.
