(* ===== verification/MemTableLaws.v ===== *)
(** The laws of [MemTable]: a write applies a batch to the map, a restart recovers
    what was logged, and what a deletion does. *)
From stdpp Require Import gmap.
From S2P Require Import Prelude Binary Bytes Values Entry StringCodec Wal WalFile Cache CacheLaws CachePut CacheRuns CacheReads MemTable.
Import Values StringCodec MemTable.
Import CacheLaws CacheRuns CacheReads.

Module MemTableLaws.

(** ** Batches *)

Abbreviation batch := (gmap (list Z) (list Value)).

(** A batch as the map of keys of a write; a choice of orders presents it. *)
Record presents (d : nondet) (b : batch) : Prop := {
  pr_logged : NoDup (logged d).*1 /\ list_to_map (logged d) = b;
  pr_stored : NoDup (stored d).*1 /\ list_to_map (stored d) = b
}.

(** The batch applied to the map of the table, key by key. *)
Definition apply_batch (b : batch) (m : gmap (list Z) Entry.Entry) : gmap (list Z) Entry.Entry :=
  foldl (fun m kv => (put_spec kv.1 kv.2 m).1) m (map_to_list b).

(** No key of the batch changes its type. *)
Definition accepts (m : gmap (list Z) Entry.Entry) (b : batch) : Prop :=
  forall k vs, b !! k = Some vs -> (put_spec k vs m).2 = None.

Definition batch_ok (b : batch) : Prop := forall k vs, b !! k = Some vs -> Wal.binding_ok (k, vs).

Lemma put_spec_other k vs m k' : k' <> k -> (put_spec k vs m).1 !! k' = m !! k'.
Proof.
  intros H. unfold put_spec. destruct (m !! k) as [e|].
  - destruct (Entry.Add e vs); cbn; by rewrite ?lookup_insert_ne.
  - destruct (Entry.NewEntryValues vs); cbn; by rewrite ?lookup_insert_ne.
Qed.

(** [put_spec] looks at its own key only. *)
Lemma put_spec_local k vs m m' :
  m' !! k = m !! k ->
  (put_spec k vs m').1 !! k = (put_spec k vs m).1 !! k /\ (put_spec k vs m').2 = (put_spec k vs m).2.
Proof.
  intros H. unfold put_spec. rewrite H. destruct (m !! k) as [e|] eqn:E.
  - destruct (Entry.Add e vs); cbn; by rewrite ?lookup_insert_eq, ?H, ?E.
  - destruct (Entry.NewEntryValues vs); cbn; by rewrite ?lookup_insert_eq, ?H, ?E.
Qed.

Lemma foldl_put_lookup (kvs : Wal.bindings) : forall m k,
  NoDup kvs.*1 ->
  foldl (fun m kv => (put_spec kv.1 kv.2 m).1) m kvs !! k =
  match (list_to_map kvs : batch) !! k with Some vs => (put_spec k vs m).1 !! k | None => m !! k end.
Proof.
  induction kvs as [|[k' vs'] kvs IH]; intros m k Hn; [done|].
  rewrite fmap_cons in Hn. apply NoDup_cons in Hn as [Hk Hn]. rewrite list_to_map_cons. cbn [foldl fst snd]. rewrite IH by done.
  destruct (decide (k = k')) as [->|Hne].
  - rewrite lookup_insert_eq. by rewrite (not_elem_of_list_to_map_1 kvs k' Hk).
  - rewrite lookup_insert_ne by done. pose proof (put_spec_other k' vs' m k Hne) as Ho.
    destruct (list_to_map kvs !! k) as [vs|]; [|done]. by apply put_spec_local.
Qed.

Lemma apply_batch_list (kvs : Wal.bindings) b m :
  NoDup kvs.*1 -> list_to_map kvs = b ->
  foldl (fun m kv => (put_spec kv.1 kv.2 m).1) m kvs = apply_batch b m.
Proof.
  intros Hn <-. apply map_eq. intros k. unfold apply_batch.
  rewrite !foldl_put_lookup by (done || apply NoDup_fst_map_to_list). by rewrite list_to_map_to_list.
Qed.

Lemma entry_type_valueType v w ty :
  Wal.entry_type v = Some ty -> Wal.entry_type w = Some ty -> Entry.valueType v = Entry.valueType w.
Proof. destruct v, w; cbn; intros [= <-]; (done || intros [=]). Qed.

Lemma binding_same_type b : Wal.binding_ok b -> exists ty, Entry.same_type ty (snd b).
Proof.
  intros (_ & _ & (v0 & r & ty & E & H)). exists (Entry.valueType v0). unfold Entry.same_type.
  eapply Forall_impl; [exact H|]. cbn. intros v (Hv & _). apply (entry_type_valueType v v0 ty Hv).
  rewrite E in H. inversion_clear H as [|? ? H0]. apply H0.
Qed.

Lemma put_all_ok kvs : forall c lcs dr i,
  well_formed c -> NoDup kvs.*1 -> Forall Wal.binding_ok kvs ->
  (forall k vs, (k, vs) ∈ kvs -> (put_spec k vs (contents c)).2 = None) ->
  exists c', put_all c kvs lcs dr i = Ok (c', None) /\ well_formed c' /\
    contents c' = foldl (fun m kv => (put_spec kv.1 kv.2 m).1) (contents c) kvs.
Proof.
  induction kvs as [|[k vs] kvs IH]; intros c lcs dr i [L Hc] Hn Hb Ha; cbn [put_all].
  - exists c. split; [done|]. split; [by exists L|done].
  - rewrite fmap_cons in Hn. apply NoDup_cons in Hn as [Hk Hn]. inversion_clear Hb as [|? ? Hkv Hb'].
    destruct (cache_Put_ok c L k vs (lcs k) _ Hc (randomHeight_range (dr i)) (binding_same_type _ Hkv))
      as (c1 & r & -> & Hw1 & _ & Hp). cbn [mbind outcome_bind].
    pose proof (Ha k vs ltac:(by left)) as Hr. rewrite Hp in Hr. cbn in Hr. subst r.
    destruct (IH c1 lcs dr (S i) Hw1 Hn Hb') as (c2 & H2 & Hw2 & Hc2).
    + intros k' vs' Hin. rewrite <- (Ha k' vs') by (by right). apply put_spec_local.
      replace (contents c1) with (put_spec k vs (contents c)).1 by (by rewrite Hp).
      apply put_spec_other. intros ->. apply Hk. by apply (list_elem_of_fmap_2 fst kvs (k, vs')).
    + exists c2. split; [done|]. split; [done|]. rewrite Hc2. cbn [foldl fst snd]. by rewrite Hp.
Qed.

Lemma list_to_map_binding (kvs : Wal.bindings) (b : batch) k vs :
  NoDup kvs.*1 -> list_to_map kvs = b -> (k, vs) ∈ kvs -> b !! k = Some vs.
Proof. intros Hn <- Hin. by apply elem_of_list_to_map_1. Qed.

Lemma presents_bindings (kvs : Wal.bindings) b :
  NoDup kvs.*1 -> list_to_map kvs = b -> batch_ok b -> Forall Wal.binding_ok kvs.
Proof.
  intros Hn Hb Hok. apply Forall_forall. intros [k vs] Hin. apply Hok. by apply (list_to_map_binding kvs).
Qed.

(** A write whose log succeeds. *)
Lemma WriteMulti_ok sn m d lcs b w :
  well_formed (cache m) -> presents d b -> batch_ok b -> accepts (contents (cache m)) b ->
  WalFile.WriteMulti sn (wal m) (logged d) (data d) = Ok w ->
  exists c, WriteMulti sn m d lcs = Ok (MkMemTable c w (maxMemTableSize m), None) /\ well_formed c /\
    contents c = apply_batch b (contents (cache m)).
Proof.
  intros Hw [_ [Hn Hb]] Hok Ha Hlog. unfold WriteMulti. rewrite Hlog.
  destruct (put_all_ok (stored d) (cache m) lcs (draws d) 0 Hw Hn) as (c & -> & Hwc & Hc).
  - by apply (presents_bindings _ b).
  - intros k vs Hin. apply Ha. by apply (list_to_map_binding (stored d)).
  - exists c. split; [done|]. split; [done|]. rewrite Hc. by apply apply_batch_list.
Qed.

(** ** The log of a run of writes *)

(** The writes of a table, one after the other, each with its life cycles. *)
Fixpoint write_batches (sn : snappy) (m : MemTable) (ws : list (nondet * (list Z -> Z)))
  : outcome (MemTable * option string) :=
  match ws with
  | [] => Ok (m, None)
  | (d, lcs) :: r =>
      '(m, err) ← WriteMulti sn m d lcs;
      match err with None => write_batches sn m r | Some e => Ok (m, Some e) end
  end.

Definition apply_batches (m : gmap (list Z) Entry.Entry) (bs : list batch) : gmap (list Z) Entry.Entry :=
  foldl (fun m b => apply_batch b m) m bs.

Fixpoint accepted (m : gmap (list Z) Entry.Entry) (bs : list batch) : Prop :=
  match bs with [] => True | b :: r => accepts m b /\ accepted (apply_batch b m) r end.

Section Recovery.
Context (sn : snappy) (laws : snappy_laws sn) (empty : snappy_decode sn [] = None).

Definition entry_of (d : nondet) : Wal.WALEntry Wal.bindings := Wal.WriteWALEntry (logged d).

(** The most a batch can take in the log. *)
Definition cost (b : batch) : Z :=
  5 + MaxEncodedLen sn (Z.of_nat (length (Wal.entry_bytes (Wal.WriteWALEntry (map_to_list b))))).

Definition fits (b : batch) : Prop := batch_ok b /\ 5 <= cost b < 2 ^ 32.

Definition costs (bs : list batch) : Z := foldr (fun b r => cost b + r) 0 bs.

Lemma costs_cons b bs : costs (b :: bs) = cost b + costs bs.
Proof. done. Qed.

Lemma costs_nonneg bs : Forall fits bs -> 0 <= costs bs.
Proof. induction 1 as [|b bs [_ H] _ IH]; [done|]. rewrite costs_cons. lia. Qed.

Lemma concat_length_perm (l1 l2 : list (list Z)) : l1 ≡ₚ l2 -> length (concat l1) = length (concat l2).
Proof. induction 1; cbn; rewrite ?length_app; lia. Qed.

Lemma presents_loggable d b :
  presents d b -> fits b ->
  WalFile.loggable sn (entry_of d) /\ Z.of_nat (length (WalFile.record sn (entry_of d))) <= cost b.
Proof.
  intros [[Hn Hb] _] [Hok Hc].
  assert (length (Wal.entry_bytes (entry_of d)) = length (Wal.entry_bytes (Wal.WriteWALEntry (map_to_list b)))) as E.
  { cbn [Wal.entry_bytes entry_of]. apply concat_length_perm. rewrite <- Hb.
    by rewrite map_to_list_to_map. }
  rewrite WalFile.record_length. unfold cost in *. rewrite <- E in *. unfold WalFile.loggable, WalFile.compressed.
  pose proof (snappy_encode_length sn laws (Wal.entry_bytes (entry_of d)) ltac:(lia)).
  split_and!; [|lia..]. split; [done|]. by apply (presents_bindings _ b).
Qed.

Lemma write_batches_ok ws bs : forall m p,
  Forall2 (fun w b => presents w.1 b) ws bs -> Forall fits bs -> accepted (contents (cache m)) bs ->
  well_formed (cache m) -> WalFile.holds (wal m) p -> Z.of_nat (length p) + costs bs < 2 ^ 32 ->
  exists m', write_batches sn m ws = Ok (m', None) /\
    contents (cache m') = apply_batches (contents (cache m)) bs /\
    WalFile.holds (wal m') (p ++ WalFile.records sn (entry_of ∘ fst <$> ws)) /\
    Z.of_nat (length (WalFile.records sn (entry_of ∘ fst <$> ws))) <= costs bs.
Proof.
  intros m p H. revert m p. induction H as [|[d lcs] b ws bs Hd H IH]; intros m p Hf Ha Hw Hh Hlt.
  - exists m. split; [done|]. split; [done|]. cbn. by rewrite app_nil_r.
  - cbn [fst] in Hd. inversion_clear Hf as [|? ? Hb Hf']. destruct Ha as [Ha Ha']. rewrite costs_cons in Hlt. destruct (presents_loggable d b Hd Hb) as [Hl Hc].
    pose proof (costs_nonneg bs Hf').
    destruct (WalFile.writeEntryToWal_ok sn (wal m) p (entry_of d) (data d) Hh Hl) as (w & Hlog & Hh1); [lia|].
    destruct (WriteMulti_ok sn m d lcs b w Hw Hd (proj1 Hb) Ha Hlog) as (c & Hwm & Hwc & Hcc).
    cbn [write_batches]. rewrite Hwm. cbn [mbind outcome_bind].
    destruct (IH (MkMemTable c w (maxMemTableSize m)) (p ++ WalFile.record sn (entry_of d)) Hf') as (m' & Hm & Hcm & Hhm & Hle); cbn [cache wal];
      [by rewrite Hcc|done|exact Hh1|len|].
    cbn [cache wal] in *. exists m'. split; [done|]. split; [by rewrite Hcm, Hcc|].
    rewrite fmap_cons. cbn [compose fst]. rewrite WalFile.records_cons, app_assoc, length_app.
    split; [done|]. rewrite costs_cons. lia.
Qed.

Lemma buffered_le a left want :
  (a <= left)%nat -> (want <= left)%nat -> (buffered a left want <= left - want)%nat.
Proof. intros Ha Hw. unfold buffered. repeat case_bool_decide; lia. Qed.

(** What the reader has not read is what is in the log. *)
Definition sees (len : nat) (d rest : list Z) : Prop :=
  length d = len /\ (length rest <= len)%nat /\ drop (len - length rest) d = rest.

Lemma refresh_sees len d w a :
  sees len d (WalFile.r w) -> (a <= length (WalFile.r w))%nat ->
  refresh len d (MkLive w a false) = MkLive w a false.
Proof.
  intros (Hd & Hr & Hs) Ha. unfold refresh. cbn [rd ahead lost orb].
  case_bool_decide; [done|]. rewrite bool_decide_true by done. f_equal.
  replace (drop _ d) with (drop a (WalFile.r w)).
  - rewrite take_drop. by destruct w.
  - rewrite <- Hs at 1. rewrite drop_drop. f_equal. lia.
Qed.

Lemma sees_written len f f' rest rest' :
  sees len (WalFile.Data f) (rest ++ rest') -> WalFile.over f f' ->
  WalFile.Pos f' <= Z.of_nat (len - length rest') -> sees len (WalFile.Data f') rest'.
Proof.
  intros (Hd & Hr & Hs) [Hl Ho] Hp. rewrite length_app in Hr. split; [by rewrite Hl|]. split; [lia|].
  rewrite Ho by done. rewrite length_app in Hs.
  replace (len - length rest')%nat with (len - (length rest + length rest') + length rest)%nat by lia.
  rewrite <- drop_drop, Hs. apply drop_app_length.
Qed.

(** One record is read, and the buffer never runs ahead of the log. *)
Lemma live_Next_record e rest en m er a :
  WalFile.loggable sn e -> (a <= length (WalFile.record sn e ++ rest))%nat ->
  exists a', (a' <= length rest)%nat /\
  live_Next sn (MkLive (WalFile.MkWALReader (WalFile.record sn e ++ rest) en m er) a false) =
  Ok (MkLive (WalFile.MkWALReader rest (Some (Wal.read_back e))
    (m + Z.of_nat (length (WalFile.record sn e))) None) a' false, true).
Proof.
  intros Hl Ha. unfold live_Next. cbn [rd ahead lost andb WalFile.r].
  rewrite (WalFile.Next_record sn laws) by done. cbn [mbind outcome_bind WalFile.r].
  eexists. split; [|reflexivity]. pose proof (WalFile.record_length sn e) as Hrec. rewrite length_app in *.
  set (L := (length (WalFile.record sn e) + length rest)%nat) in *.
  pose proof (buffered_le a L 5 Ha ltac:(lia)).
  pose proof (buffered_le (buffered a L 5) (L - 5) (L - 5 - length rest) ltac:(lia) ltac:(lia)). lia.
Qed.

(** The loop of a restoration whose writes stay behind what was read. *)
Lemma restore_loop_ok bs : forall es ds m i fuel len en n er a tail,
  Wal.read_back <$> es = Wal.WriteWALEntry <$> bs -> Forall (WalFile.loggable sn) es -> WalFile.stuck sn tail ->
  (forall j b, bs !! j = Some b -> presents (ds (i + j)%nat) b) ->
  (forall j e, es !! j = Some e ->
    (length (WalFile.record sn (entry_of (ds (i + j)%nat))) <= length (WalFile.record sn e))%nat) ->
  Forall fits bs -> accepted (contents (cache m)) bs -> well_formed (cache m) ->
  0 <= WalFile.Pos (wal m) -> WalFile.Pos (wal m) + costs bs < 2 ^ 32 ->
  WalFile.Pos (wal m) <= Z.of_nat (len - length (WalFile.records sn es ++ tail)) ->
  sees len (WalFile.Data (wal m)) (WalFile.records sn es ++ tail) ->
  (a <= length (WalFile.records sn es ++ tail))%nat -> (length es < fuel)%nat ->
  exists m' l', restore_loop sn fuel len m
      (MkLive (WalFile.MkWALReader (WalFile.records sn es ++ tail) en n er) a false) ds i = Ok (m', l', None) /\
    WalFile.n (rd l') = n + Z.of_nat (length (WalFile.records sn es)) /\
    contents (cache m') = apply_batches (contents (cache m)) bs.
Proof.
  induction bs as [|b bs IH]; intros es ds m i fuel len en n er a tail Ees Hl Hst Hd Hno Hf Ha Hw H0 Hlt Hpos Hsee Hah Hfuel;
    (destruct fuel as [|fuel]; [lia|]); cbn [restore_loop].
  - apply fmap_nil_inv in Ees as ->. cbn [WalFile.records fmap list_fmap concat app] in *.
    unfold live_Next. cbn [rd ahead lost andb WalFile.r].
    destruct (Hst en n er) as (rd' & more & -> & Hn & Hs). cbn [mbind outcome_bind].
    destruct Hs as [-> |[e He]]; cbn [negb]; [|destruct more; cbn [negb]; unfold WalFile.Read; cbn [rd]; rewrite ?He];
      (eexists _, _; split; [reflexivity|]); cbn [rd]; (split; [rewrite Hn; cbn; lia|done]).
  - destruct es as [|e es]; [done|]. rewrite !fmap_cons in Ees. injection Ees as Ee Ees.
    inversion_clear Hl as [|? ? He Hl']. inversion_clear Hf as [|? ? Hb Hf']. destruct Ha as [Ha Ha'].
    rewrite costs_cons in Hlt. pose proof (costs_nonneg bs Hf').
    rewrite WalFile.records_cons, <- app_assoc in *.
    destruct (live_Next_record e (WalFile.records sn es ++ tail) en n er a He Hah) as (a' & Ha'le & ->).
    cbn [mbind outcome_bind negb]. unfold WalFile.Read. cbn [rd WalFile.err WalFile.entry].
    pose proof (Hd 0%nat b eq_refl) as Hd0. pose proof (Hno 0%nat e eq_refl) as Hn0. rewrite Nat.add_0_r in Hd0, Hn0.
    destruct (presents_loggable (ds i) b Hd0 Hb) as [Hlg Hc].
    pose proof Hsee as (Hlen & Hle & _). rewrite length_app in Hle, Hpos.
    destruct (WalFile.writeEntryToWal_over sn (wal m) (entry_of (ds i)) (data (ds i)) H0 Hlg) as (w & Hlog & Hp & Hov);
      [lia|lia|].
    rewrite Ee. cbn [apply_entry].
    destruct (WriteMulti_ok sn m (ds i) (fun _ => 0) b w Hw Hd0 (proj1 Hb) Ha Hlog) as (c & -> & Hwc & Hcc).
    cbn [mbind outcome_bind wal]. pose proof (sees_written _ _ _ _ _ Hsee Hov ltac:(lia)) as Hsee'.
    rewrite refresh_sees by done.
    destruct (IH es ds (MkMemTable c w (maxMemTableSize m)) (S i) fuel len (Some (Wal.WriteWALEntry b))
      (n + Z.of_nat (length (WalFile.record sn e))) None a' tail) as (m' & l' & -> & Hn' & Hcm); cbn [cache wal]; try done.
    + intros j b' Hj. specialize (Hd (S j) b' Hj). by rewrite Nat.add_succ_r in Hd.
    + intros j e' Hj. specialize (Hno (S j) e' Hj). by rewrite Nat.add_succ_r in Hno.
    + by rewrite Hcc.
    + lia.
    + lia.
    + lia.
    + cbn [length] in Hfuel. lia.
    + cbn [cache] in Hcm. exists m', l'. split; [done|]. split; [rewrite Hn', length_app; lia|]. by rewrite Hcm, Hcc.
Qed.

Lemma NewCache_empty : contents Cache.NewCache = ∅.
Proof. by rewrite (contents_view _ _ NewCache_ok). Qed.

Lemma accepted_take bs : forall m j, accepted m bs -> accepted m (take j bs).
Proof. induction bs as [|b bs IH]; intros m [|j] H; cbn; try done. destruct H. auto. Qed.

Lemma costs_take bs j : Forall fits bs -> costs (take j bs) <= costs bs.
Proof.
  intros H. revert j. induction H as [|b bs Hb H IH]; intros [|j]; rewrite ?take_0, ?firstn_cons, ?take_nil, ?costs_cons; [lia..| |].
  - pose proof (costs_nonneg bs H). destruct Hb. change (costs []) with 0. lia.
  - specialize (IH j). lia.
Qed.

Lemma logs_loggable (ws : list (nondet * (list Z -> Z))) bs :
  Forall2 (fun w b => presents w.1 b) ws bs -> Forall fits bs ->
  Forall (WalFile.loggable sn) (entry_of ∘ fst <$> ws).
Proof.
  induction 1 as [|w b ws bs Hw Hws IH]; intros Hf; [constructor|]. inversion_clear Hf.
  constructor; [by apply (presents_loggable w.1 b)|by apply IH].
Qed.

Lemma logs_read_back (ws : list (nondet * (list Z -> Z))) bs :
  Forall2 (fun w b => presents w.1 b) ws bs ->
  Wal.read_back <$> (entry_of ∘ fst <$> ws) = Wal.WriteWALEntry <$> bs.
Proof.
  induction 1 as [|w b ws bs [[_ Hb] _] Hws IH]; [done|]. rewrite !fmap_cons, IH. f_equal. cbn. by rewrite Hb.
Qed.

(** No entry is larger when it is written again: the choices of the writes [ws] are
    those of the restoration, as far as it goes. *)
Definition no_larger (ws : list (nondet * (list Z -> Z))) (ds : nat -> nondet) : Prop :=
  forall j w, ws !! j = Some w ->
    (length (WalFile.record sn (entry_of (ds j))) <= length (WalFile.record sn (entry_of w.1)))%nat.

(** The batches whose entries end within the first [k] bytes of the log. *)
Definition whole (ws : list (nondet * (list Z -> Z))) (k j : nat) : Prop :=
  let upto i := length (WalFile.records sn (entry_of ∘ fst <$> take i ws)) in
  (j <= length ws)%nat /\ (upto j <= k)%nat /\ ((j < length ws)%nat -> (k < upto (S j))%nat).

(** What a restart makes of a log of writes, cut anywhere. *)
Lemma restore_ok max (ws : list (nondet * (list Z -> Z))) bs ds k z :
  Forall2 (fun w b => presents w.1 b) ws bs -> Forall fits bs -> accepted ∅ bs -> costs bs < 2 ^ 32 ->
  (forall j b, bs !! j = Some b -> presents (ds j) b) -> no_larger ws ds ->
  (0 < k <= length (WalFile.records sn (entry_of ∘ fst <$> ws)) + z)%nat ->
  exists m' j, OpenMemTable sn (take k (WalFile.records sn (entry_of ∘ fst <$> ws) ++ replicate z 0)) max ds =
      Ok (m', false, None) /\
    contents (cache m') = apply_batches ∅ (take j bs) /\ whole ws k j /\
    ((length (WalFile.records sn (entry_of ∘ fst <$> ws)) <= k)%nat -> j = length bs /\
      WalFile.Pos (wal m') = WalFile.u32 (Z.of_nat (length (WalFile.records sn (entry_of ∘ fst <$> ws))))).
Proof.
  intros Hws Hf Ha Hc Hds Hno Hk. set (es := entry_of ∘ fst <$> ws) in *.
  pose proof (logs_loggable _ _ Hws Hf) as Hl. fold es in Hl.
  assert (length es = length ws) as Ele by apply length_fmap. pose proof (Forall2_length _ _ _ Hws) as Elw.
  destruct (WalFile.cut_split sn empty es k z Hl) as (j & tail & Hcut & Hst & Hj & Hle & Hlast); [lia|].
  pose proof (logs_read_back _ _ Hws) as Ees. fold es in Ees.
  set (content := take k _) in *.
  assert (length content = k) as Hlen.
  { unfold content. rewrite length_take, length_app, length_replicate. lia. }
  assert (content <> []) as Hne by (intros E; rewrite E in Hlen; cbn in Hlen; lia).
  unfold OpenMemTable, WalFile.Open, WalFile.OpenMmapFile. rewrite (bool_decide_false (content = [])), andb_false_r by done.
  unfold restoreFromWAL, WalFile.NewWALReader. cbn [wal WalFile.Data].
  pose proof (costs_take bs j Hf) as Hct. pose proof (WalFile.records_count sn (take j es)) as Hcount.
  pose proof (f_equal length Hcut) as Hcutl. rewrite length_app in Hcutl.
  edestruct (restore_loop_ok (take j bs) (take j es) ds) with (tail := tail) (len := length content) (i := 0%nat)
    (a := 0%nat) (fuel := S (length content)) (en := @None WalFile.read_entry) (n := 0) (er := @None string)
    (m := MkMemTable Cache.NewCache (WalFile.MkWalFile content 0 (WalFile.u32 (Z.of_nat (length content)))) (Z.of_nat max))
    as (m' & l' & Hr & Hn & Hm).
  - by rewrite !fmap_take, Ees.
  - by apply Forall_take.
  - done.
  - intros j' b Hb. apply Hds. by apply lookup_take_Some in Hb as [? _].
  - intros j' e He. apply lookup_take_Some in He as [He _]. apply list_lookup_fmap_Some in He as (w & -> & Hw).
    by apply (Hno j' w).
  - by apply Forall_take.
  - cbn [cache]. rewrite NewCache_empty. by apply accepted_take.
  - cbn [cache]. eexists. apply NewCache_ok.
  - cbn. lia.
  - cbn [wal WalFile.Pos]. lia.
  - cbn [wal WalFile.Pos]. lia.
  - cbn [wal WalFile.Data]. rewrite <- Hcut. split_and!; [done|done|]. by rewrite Nat.sub_diag, drop_0.
  - lia.
  - lia.
  - rewrite <- Hcut in Hr. rewrite Hr. cbn [mbind outcome_bind].
    eexists _, j. split; [reflexivity|]. cbn [cache set_wal] in *. rewrite NewCache_empty in Hm. split; [done|].
    unfold whole. rewrite !fmap_take. fold es. split; [rewrite <- Ele; done|].
    intros Hge. assert (j = length es) as -> by (by apply (WalFile.cut_whole sn es k)).
    split; [lia|]. cbn [wal WalFile.Pos set_wal]. by rewrite Hn, firstn_all.
Qed.

(** C2: a memory table is durable, as long as no entry of its log gets larger when it is
    written again, in a new order of its keys ([no_larger]; a batch of one key never
    does).  A table opened on a new file takes any sequence of batches that keep the
    types of their keys, each under any order of the keys, and holds the batches
    applied in turn; opened again on its log, or on the log cut anywhere, it writes
    the batches to the log again while it reads it, and holds exactly the batches
    that fit whole, all of them if nothing that was written was cut, and goes on at
    the same position. *)
Theorem memtable_durable max (ws : list (nondet * (list Z -> Z))) bs ds :
  (0 < max)%nat -> Forall2 (fun w b => presents w.1 b) ws bs -> Forall fits bs -> accepted ∅ bs ->
  costs bs < 2 ^ 32 -> (forall j b, bs !! j = Some b -> presents (ds j) b) -> no_larger ws ds ->
  exists mt m, NewMemTable sn [] max ds = Ok mt /\ write_batches sn mt ws = Ok (m, None) /\
    contents (cache m) = apply_batches ∅ bs /\
    forall k, (0 < k <= length (WalFile.Data (wal m)))%nat ->
    exists m' j, OpenMemTable sn (take k (WalFile.Data (wal m))) max ds = Ok (m', false, None) /\
      contents (cache m') = apply_batches ∅ (take j bs) /\ whole ws k j /\
      (WalFile.Pos (wal m) <= Z.of_nat k ->
        contents (cache m') = contents (cache m) /\ WalFile.Pos (wal m') = WalFile.Pos (wal m)).
Proof.
  intros Hmax Hws Hf Ha Hc Hds Hno.
  set (mt := MkMemTable Cache.NewCache (WalFile.MkWalFile (replicate (2 * max) 0) 0 0) (Z.of_nat max)).
  destruct (write_batches_ok ws bs mt [] Hws Hf) as (m & Hm & Hcm & [Hpos [z Hd]] & Hle); cbn [mt cache wal] in *.
  - by rewrite NewCache_empty.
  - eexists. apply NewCache_ok.
  - split; [done|]. by exists (2 * max)%nat.
  - cbn. lia.
  - exists mt, m. split.
    { unfold NewMemTable, OpenMemTable, WalFile.Open, WalFile.OpenMmapFile.
      rewrite !bool_decide_true by (done || lia). done. }
    rewrite NewCache_empty in Hcm. split; [done|]. split; [done|]. intros k Hk. cbn [app] in *.
    rewrite Hd in *. rewrite length_app, length_replicate in Hk.
    destruct (restore_ok max ws bs ds k z Hws Hf Ha Hc Hds Hno Hk) as (m' & j & Ho & Hcm' & Hwh & Hfull).
    exists m', j. split; [done|]. split; [done|]. split; [done|]. intros Hpk. rewrite Hpos in *.
    destruct Hfull as [-> Hp']; [lia|]. rewrite Hcm', firstn_all. split; [done|]. rewrite Hp'.
    unfold WalFile.u32. rewrite Z.mod_small; [done|lia].
Qed.

End Recovery.

(** ** Deletions *)

(** The entry [delete_key] leaves. *)
Definition forget (e : Entry.Entry) (min max : Z) : outcome Entry.Entry :=
  Entry.Filter (if (min =? MinInt64) && (max =? MaxInt64) then Entry.Clean e else e) min max.

(** One deletion after the other: each filters the entry of the first key at or after
    its own. *)
Inductive deletes (min max : Z) : gmap (list Z) Entry.Entry -> list (list Z) -> gmap (list Z) Entry.Entry -> Prop :=
| deletes_nil m : deletes min max m [] m
| deletes_none m k ks m' : ceiling m k None -> deletes min max m ks m' -> deletes min max m (k :: ks) m'
| deletes_some m k ks m' x e e' :
    ceiling m k (Some x) -> m !! x = Some e -> forget e min max = Ok e' ->
    deletes min max (<[x := e']> m) ks m' -> deletes min max m (k :: ks) m'.

Lemma delete_key_ok c L k min max :
  cache_ok c L ->
  exists c', delete_key c k min max = Ok c' /\ cache_ok c' L /\
  exists r, ceiling (contents c) k r /\
  match r with
  | None => contents c' = contents c
  | Some x => exists e e', contents c !! x = Some e /\ forget e min max = Ok e' /\ contents c' = <[x := e']> (contents c)
  end.
Proof.
  intros Hc. unfold delete_key. destruct (cache_Get_ok c L k Hc) as (r & -> & Hcl & Hr). cbn [mbind outcome_bind].
  destruct r as [n|]; [|exists c; split; [done|]; split; [done|]; by exists None].
  destruct (node_at c L n Hc Hr) as (nd & e & -> & He & _ & Hm). cbn [mbind outcome_bind]. rewrite He.
  destruct (Entry.Filter_content (if (min =? MinInt64) && (max =? MaxInt64) then Entry.Clean e else e) min max)
    as (e' & Hf & _). cbn zeta. rewrite Hf. cbn [mbind outcome_bind].
  destruct (set_entry_ok c L n e' Hc Hr) as (c' & -> & Hc' & _ & _ & _ & Hcont & _). cbn [mbind outcome_bind].
  eexists. split; [done|]. split; [by apply cache_ok_fields|]. eexists. split; [exact Hcl|]. exists e, e'.
  split; [done|]. split; [done|]. unfold Cache.DecreaseSize, Cache.add_size. by rewrite CachePut.contents_fields.
Qed.

(** [DeleteRange] never fails and takes the range out of one entry per key, of the
    first key at or after it: for a key the table does not have, the values of the
    next key go, instead of none. *)
Theorem memtable_DeleteRange m keys min max :
  well_formed (cache m) ->
  exists m', DeleteRange m keys min max = Ok m' /\ well_formed (cache m') /\ wal m' = wal m /\
    deletes min max (contents (cache m)) keys (contents (cache m')).
Proof.
  intros Hw. unfold DeleteRange.
  assert (exists c, delete_keys (cache m) keys min max = Ok c /\ well_formed c /\
    deletes min max (contents (cache m)) keys (contents c)) as (c & -> & Hwc & Hd).
  { generalize dependent (cache m). induction keys as [|k keys IH]; intros c [L Hc]; cbn [delete_keys].
    - exists c. split; [done|]. split; [by exists L|constructor].
    - destruct (delete_key_ok c L k min max Hc) as (c1 & -> & Hc1 & r & Hcl & Hr). cbn [mbind outcome_bind].
      destruct (IH c1) as (c2 & -> & Hw2 & Hd); [by exists L|]. exists c2. split; [done|]. split; [done|].
      destruct r as [x|].
      + destruct Hr as (e & e' & He & Hf & Hcont). rewrite Hcont in Hd. by apply (deletes_some _ _ _ _ _ _ x e e').
      + rewrite Hr in Hd. by apply deletes_none. }
  cbn [mbind outcome_bind]. eexists. split; [done|]. done.
Qed.

(** ** Two restarts *)

(** Choices for a batch of one key. *)
Definition single (k : list Z) (vs : list Value) : nondet :=
  MkNondet [(k, vs)] [(k, vs)] (fun _ _ => 3) [].

(** Write key "a", delete its values up to time 10, write key "b". *)
Definition session : outcome MemTable :=
  mt ← NewMemTable WalFile.tagging_snappy [] 64 (fun _ => single [] []);
  '(mt, _) ← WriteMulti WalFile.tagging_snappy mt (single [97] [IntegerValue 1 5]) (fun _ => 0);
  mt ← DeleteRange mt [[97]] 0 10;
  w ← WalFile.RemoveRange WalFile.tagging_snappy (wal mt) [[97]] 0 10 [];
  '(mt, _) ← WriteMulti WalFile.tagging_snappy (set_wal mt w) (single [98] [IntegerValue 2 6]) (fun _ => 0);
  Ok mt.

Definition choices (i : nat) : nondet :=
  match i with 0%nat => single [97] [IntegerValue 1 5] | _ => single [98] [IntegerValue 2 6] end.
(** The writes are the first and the last entry of the first log, the first two of the
    second. *)
Definition choices1 (i : nat) : nondet := choices (i / 2).

Definition holds_values (m : MemTable) (k : list Z) (vs : list Value) : Prop :=
  Entry.values <$> contents (cache m) !! k = Some vs.

(** a deletion does not survive two restarts.  Restoring a table logs its writes
    again, from the start of the log, but not its deletions, which are overwritten: a
    table that is restored twice before it is flushed has the deleted values back. *)
Theorem memtable_restart_loses_delete :
  exists m m1 m2, session = Ok m /\
    OpenMemTable WalFile.tagging_snappy (WalFile.Data (wal m)) 64 choices1 = Ok (m1, false, None) /\
    OpenMemTable WalFile.tagging_snappy (WalFile.Data (wal m1)) 64 choices = Ok (m2, false, None) /\
    holds_values m [97] [] /\ holds_values m1 [97] [] /\ holds_values m2 [97] [IntegerValue 1 5].
Proof.
  assert (match session with
    | Ok m => match OpenMemTable WalFile.tagging_snappy (WalFile.Data (wal m)) 64 choices1 with
      | Ok (m1, false, None) => match OpenMemTable WalFile.tagging_snappy (WalFile.Data (wal m1)) 64 choices with
        | Ok (m2, false, None) => Some (Entry.values <$> contents (cache m) !! [97],
            Entry.values <$> contents (cache m1) !! [97], Entry.values <$> contents (cache m2) !! [97])
        | _ => None end
      | _ => None end
    | _ => None end = Some (Some [], Some [], Some [IntegerValue 1 5])) as H by (vm_compute; reflexivity).
  destruct session as [m| |]; [|done..]. exists m.
  destruct (OpenMemTable _ _ _ choices1) as [[[m1 []] []]| |] eqn:E1; try done. exists m1.
  destruct (OpenMemTable _ _ _ choices) as [[[m2 []] []]| |] eqn:E2; try done. exists m2.
  injection H as H1 H2 H3. unfold holds_values. rewrite H1, H2, H3. split_and!; done.
Qed.

(** ** Where an entry grows *)

(** A library with the laws that takes a byte more for some inputs. *)
Definition picky_snappy : snappy :=
  Snappy (fun b => match b with 2 :: _ => 0 :: b | _ => 0 :: 0 :: b end)
    (fun b => match b with 0 :: 2 :: r => Some (2 :: r) | 0 :: 0 :: r => Some r | _ => None end)
    (fun n => if n <=? MaxUint32 then n + 2 else -1).

Lemma picky_encode b : snappy_encode picky_snappy b = 0 :: b \/ snappy_encode picky_snappy b = 0 :: 0 :: b.
Proof. cbn. repeat case_match; auto. Qed.

Lemma picky_snappy_laws : snappy_laws picky_snappy.
Proof.
  split.
  - intros b _. cbn. repeat case_match; simplify_eq; done.
  - intros b. destruct (picky_encode b) as [-> | ->]; cbn [MaxEncodedLen picky_snappy length];
      destruct (Z.leb_spec (Z.of_nat (length b)) MaxUint32); lia.
  - intros n Hn. cbn. destruct (Z.leb_spec n MaxUint32); lia.
  - intros b Hb. destruct (picky_encode b) as [-> | ->]; repeat constructor; (unfold is_byte; lia) || done.
  - intros m n Hm. cbn. destruct (Z.leb_spec m MaxUint32), (Z.leb_spec n MaxUint32); lia.
Qed.

(** A batch of two keys, more than the buffer of the reader takes, in one order or the
    other, and a batch of one key. *)
Definition two_keys (swap : bool) : nondet :=
  let kvs := [([97], (fun i => IntegerValue (Z.of_nat i) 5) <$> seq 0 600); ([98], [FloatValue 1 1])] in
  let kvs := if swap then reverse kvs else kvs in
  MkNondet kvs kvs (fun _ _ => 3) [].
Definition growing : outcome (MemTable * MemTable) :=
  mt ← NewMemTable picky_snappy [] 64 (fun _ => single [] []);
  '(mt, _) ← WriteMulti picky_snappy mt (two_keys false) (fun _ => 0);
  '(mt, _) ← WriteMulti picky_snappy mt (single [99] [IntegerValue 2 6]) (fun _ => 0);
  '(m1, _, _) ← OpenMemTable picky_snappy (WalFile.Data (wal mt)) 64
    (fun i => match i with O => two_keys true | _ => single [99] [IntegerValue 2 6] end);
  Ok (mt, m1).

(** The condition of durability is needed: an entry that takes a byte more in another
    order of its keys is written over the entry that follows, before that is read:
    the restored table has lost it. *)
Theorem restore_clobbers :
  match growing with
  | Ok (m, m1) => holds_values m [99] [IntegerValue 2 6] /\ contents (cache m1) !! [99] = None
  | _ => False
  end.
Proof.
  assert (match growing with
    | Ok (m, m1) => Some (Entry.values <$> contents (cache m) !! [99], contents (cache m1) !! [99])
    | _ => None end = Some (Some [IntegerValue 2 6], None)) as H by (vm_compute; reflexivity).
  destruct growing as [[m m1]| |]; [|done..]. unfold holds_values. injection H as H1 H2. done.
Qed.

Lemma single_presents k vs : presents (single k vs) {[k := vs]}.
Proof. split; (split; [by apply NoDup_singleton|done]). Qed.

Lemma single_fits k vs :
  Wal.binding_ok (k, vs) -> Z.of_nat (length (Wal.key_bytes (k, vs))) <= 1000 ->
  fits WalFile.tagging_snappy {[k := vs]}.
Proof.
  intros Hb Hl. split; [by intros k' vs' [<- <-]%lookup_singleton_Some|].
  unfold cost. rewrite map_to_list_singleton. cbn [Wal.entry_bytes fmap list_fmap concat].
  rewrite app_nil_r. unfold WalFile.tagging_snappy, StringCodec.MaxUint32. cbn [StringCodec.MaxEncodedLen].
  destruct (Z.leb_spec (Z.of_nat (length (Wal.key_bytes (k, vs)))) (2 ^ 32 - 1)); lia.
Qed.

Lemma memtable_durable_witness :
  let sn := WalFile.tagging_snappy in
  let ws := [(single [97] [IntegerValue 1 5], fun _ : list Z => 0)] in
  let bs := [{[ [97] := [IntegerValue 1 5] ]} : batch] in
  let ds := fun _ : nat => single [97] [IntegerValue 1 5] in
  exists mt m, NewMemTable sn [] 64 ds = Ok mt /\ write_batches sn mt ws = Ok (m, None) /\
    contents (cache m) = apply_batches ∅ bs /\
    forall k, (0 < k <= length (WalFile.Data (wal m)))%nat ->
    exists m' j, OpenMemTable sn (take k (WalFile.Data (wal m))) 64 ds = Ok (m', false, None) /\
      contents (cache m') = apply_batches ∅ (take j bs) /\ whole sn ws k j /\
      (WalFile.Pos (wal m) <= Z.of_nat k ->
        contents (cache m') = contents (cache m) /\ WalFile.Pos (wal m') = WalFile.Pos (wal m)).
Proof.
  intros sn ws bs ds.
  assert (Wal.binding_ok ([97], [IntegerValue 1 5])) as Hb.
  { split_and!; cbn; try lia. exists (IntegerValue 1 5), [], Wal.integerEntryType. split; [done|].
    repeat constructor; cbn; lia. }
  assert (fits sn {[ [97] := [IntegerValue 1 5] ]}) as Hf by (apply single_fits; [done|cbn; lia]).
  apply (memtable_durable sn WalFile.tagging_snappy_laws eq_refl 64 ws bs ds); [lia| | | | | |].
  - constructor; [apply single_presents|constructor].
  - constructor; [done|constructor].
  - split; [|done]. by intros k vs [<- <-]%lookup_singleton_Some.
  - unfold costs, bs, cost. cbn [foldr]. rewrite map_to_list_singleton. vm_compute. reflexivity.
  - intros [|j] b; [|done]. intros [= <-]. apply single_presents.
  - intros [|j] w; [|done]. by intros [= <-].
Defined.

Lemma memtable_DeleteRange_witness :
  let c := match Cache.Put Cache.NewCache [98] [IntegerValue 2 6] 0 1 with Ok (c, _) => c | _ => Cache.NewCache end in
  let m := MkMemTable c (WalFile.MkWalFile [] 0 0) 64 in
  exists m', DeleteRange m [[97]] 0 10 = Ok m' /\ well_formed (cache m') /\ wal m' = wal m /\
    deletes 0 10 (contents (cache m)) [[97]] (contents (cache m')).
Proof.
  intros c m. apply (memtable_DeleteRange m [[97]] 0 10).
  destruct (cache_Put_ok Cache.NewCache _ [98] [IntegerValue 2 6] 0 1 NewCache_ok) as (c' & r & E & Hw & _);
    [unfold Cache.maxHeight; lia|exists 2; by repeat constructor|].
  cbn [cache m]. unfold c. by rewrite E.
Defined.

End MemTableLaws.
