(* ===== verification/MemManager.v ===== *)
(** The memory tables of an engine: src/storage/memory/memtable_manager.go.  One
    table takes the writes; full ones wait in [imm], and in the channel, until the
    flusher has written them to a file (engine_compact_snap.go).

    Tables are shared by the manager, the channel and the flusher: they live in a
    store and are named by number.  Every operation holds the manager's lock, so a
    run is a sequence of operations; metrics are left out. *)
From stdpp Require Import gmap.
From S2P Require Import Prelude Bytes Values Entry StringCodec Wal WalFile Cache CacheLaws CachePut CacheRuns CacheReads MemTable MemTableLaws.
Import Values StringCodec CacheLaws CacheRuns CacheReads MemTable.

Module MemManager.

(** [mem] is nil after a table could not be created. *)
Record MemManager := MkMemManager {
  tables : list MemTable;
  mem : option nat;
  imm : list nat;
  nextMemFid : Z;
  flushCh : list nat;
  numMemTables : nat;
  maxSize : nat
}.

Definition set_table (mm : MemManager) (i : nat) (t : MemTable) : MemManager :=
  MkMemManager (<[i := t]> (tables mm)) (mem mm) (imm mm) (nextMemFid mm) (flushCh mm) (numMemTables mm) (maxSize mm).

Definition the_mem (mm : MemManager) : outcome nat := match mem mm with Some i => Ok i | None => Panic end.

Definition ErrNoRoom : string := "no room for write".

Section WithSnappy.
Context (sn : snappy).

(** [content]: what the directory has under the next number, nothing as a rule. *)
Definition newMemTable (mm : MemManager) (content : list Z) (ds : nat -> nondet)
  : outcome (MemManager * option string) :=
  match NewMemTable sn content (maxSize mm) ds with
  | Ok t =>
      Ok (MkMemManager (tables mm ++ [t]) (Some (length (tables mm))) (imm mm) (nextMemFid mm + 1)
         (flushCh mm) (numMemTables mm) (maxSize mm), None)
  | Err e =>
      Ok (MkMemManager (tables mm) None (imm mm) (nextMemFid mm) (flushCh mm) (numMemTables mm) (maxSize mm), Some e)
  | Panic => Panic
  end.

(** The tables of the log files, in the order of their numbers; the empty ones are
    dropped. *)
Fixpoint restore_loop (mm : MemManager) (files : list (Z * list Z)) (ds : nat -> nat -> nondet) (i : nat)
  : outcome (MemManager * option string) :=
  match files with
  | [] => Ok (mm, None)
  | (_, content) :: r =>
      '(t, _, err) ← OpenMemTable sn content (maxSize mm) (ds i);
      match err with
      | Some e => Ok (mm, Some e)
      | None =>
          e ← Cache.Empty (cache t);
          let mm' := MkMemManager (tables mm ++ [t]) (mem mm) (imm mm ++ [length (tables mm)]) (nextMemFid mm)
            (flushCh mm) (numMemTables mm) (maxSize mm) in
          restore_loop (if e : bool then mm else mm') r ds (S i)
      end
  end.

Definition by_number : relation (Z * list Z) := fun a b => fst a <= fst b.
#[global] Instance by_number_dec a b : Decision (by_number a b).
Proof. unfold by_number. apply _. Defined.

Definition restoreMemTables (mm : MemManager) (files : list (Z * list Z)) (ds : nat -> nat -> nondet)
  : outcome (MemManager * option string) :=
  let files := merge_sort by_number files in
  '(mm, err) ← restore_loop mm files ds 0;
  match err with
  | Some e => Ok (mm, Some e)
  | None =>
      let fid := match last files with Some (fid, _) => fid | None => nextMemFid mm end in
      Ok (MkMemManager (tables mm) (mem mm) (imm mm) (fid + 1) (flushCh mm) (numMemTables mm) (maxSize mm), None)
  end.

(** [content]: under the number after the last. *)
Definition NewMemManager (num max : nat) (files : list (Z * list Z)) (content : list Z)
    (ds : nat -> nat -> nondet) : outcome MemManager :=
  '(mm, err) ← restoreMemTables (MkMemManager [] None [] 0 [] num max) files ds;
  match err with
  | Some e => Err e
  | None =>
      '(mm, err) ← newMemTable mm content (ds 0%nat);
      match err with None => Ok mm | Some e => Err e end
  end.

Definition WriteMulti (mm : MemManager) (d : nondet) (lifecycles : list Z -> Z)
  : outcome (MemManager * option string) :=
  i ← the_mem mm;
  t ← index (tables mm) i;
  '(t, err) ← MemTable.WriteMulti sn t d lifecycles;
  Ok (set_table mm i t, err).

(** The range leaves a table, and the removal is logged; errors of the log are
    dropped. *)
Definition delete_in (mm : MemManager) (i : nat) (keys : list (list Z)) (min max : Z) (data : list Z)
  : outcome MemManager :=
  t ← index (tables mm) i;
  t ← MemTable.DeleteRange t keys min max;
  match WalFile.RemoveRange sn (wal t) keys min max data with
  | Ok w => Ok (set_table mm i (set_wal t w))
  | Err _ => Ok (set_table mm i t)
  | Panic => Panic
  end.

Fixpoint delete_all (mm : MemManager) (ids : list nat) (keys : list (list Z)) (min max : Z) (data : list Z)
  : outcome MemManager :=
  match ids with
  | [] => Ok mm
  | i :: r => mm ← delete_in mm i keys min max data; delete_all mm r keys min max data
  end.

Definition DeleteRange (mm : MemManager) (keys : list (list Z)) (min max : Z) (data : list Z) : outcome MemManager :=
  i ← the_mem mm; delete_all mm (i :: imm mm) keys min max data.

Definition EnsureMemForWrite (mm : MemManager) (content : list Z) (ds : nat -> nondet)
  : outcome (MemManager * option string) :=
  i ← the_mem mm;
  t ← index (tables mm) i;
  if negb (IsFull t) then Ok (mm, None)
  else if bool_decide (length (flushCh mm) < numMemTables mm)%nat then
    newMemTable (MkMemManager (tables mm) (mem mm) (imm mm ++ [i]) (nextMemFid mm) (flushCh mm ++ [i])
      (numMemTables mm) (maxSize mm)) content ds
  else Ok (mm, Some ErrNoRoom).

End WithSnappy.

(** The tables of [imm] go to the flusher, in order; the sends wait for it. *)
Definition Open (mm : MemManager) : MemManager :=
  MkMemManager (tables mm) (mem mm) (imm mm) (nextMemFid mm) (flushCh mm ++ imm mm) (numMemTables mm) (maxSize mm).

(** Receiving waits while there is nothing. *)
Definition TakeFlushMemTable (mm : MemManager) : option (nat * MemManager) :=
  match flushCh mm with
  | [] => None
  | i :: r => Some (i, MkMemManager (tables mm) (mem mm) (imm mm) (nextMemFid mm) r (numMemTables mm) (maxSize mm))
  end.

Definition OnMemTableFlushed (mm : MemManager) (i : nat) : outcome MemManager :=
  first ← index (imm mm) 0;
  if negb (bool_decide (first = i)) then Ok mm
  else
    t ← index (tables mm) i;
    Ok (MkMemManager (<[i := fst (DecrRef t)]> (tables mm)) (mem mm) (drop 1 (imm mm)) (nextMemFid mm)
      (flushCh mm) (numMemTables mm) (maxSize mm)).

(** The values a table gives for a key; its entry is deduplicated in place. *)
Definition values_in (mm : MemManager) (i : nat) (key : list Z) : outcome (MemManager * list Value) :=
  t ← index (tables mm) i;
  n ← Cache.Get (cache t) key;
  match n with
  | None => Ok (mm, [])
  | Some n =>
      nd ← index (Cache.nodes (cache t)) n;
      match Cache.entry nd with
      | None => Ok (mm, [])
      | Some e =>
          e ← Entry.Deduplicate e;
          c ← Cache.set_entry (cache t) n e;
          Ok (set_table mm i (set_cache t c), Entry.values e)
      end
  end.

Fixpoint collect (mm : MemManager) (ids : list nat) (key : list Z) : outcome (MemManager * list Value) :=
  match ids with
  | [] => Ok (mm, [])
  | i :: r => '(mm, vs) ← values_in mm i key; '(mm, rest) ← collect mm r key; Ok (mm, vs ++ rest)
  end.

(** The slice made has room for everything: deduplication does not add values. *)
Definition Values_ (mm : MemManager) (key : list Z) : outcome (MemManager * list Value) :=
  i ← the_mem mm;
  '(mm, vs) ← collect mm (i :: imm mm) key;
  vs ← Deduplicate vs;
  Ok (mm, vs).

(** ** The manager, its writers and the flusher *)

(** The flusher has at most one table in hand; [done] are those it has finished. *)
Record system := MkSystem { manager : MemManager; in_hand : option nat; finished : list nat }.

(** A new table finds no file under its number. *)
Inductive mm_step (sn : snappy) : system -> system -> Prop :=
| mm_write mm h f d lcs mm' err :
    WriteMulti sn mm d lcs = Ok (mm', err) -> mm_step sn (MkSystem mm h f) (MkSystem mm' h f)
| mm_delete mm h f keys min max data mm' :
    DeleteRange sn mm keys min max data = Ok mm' -> mm_step sn (MkSystem mm h f) (MkSystem mm' h f)
| mm_values mm h f key mm' vs :
    Values_ mm key = Ok (mm', vs) -> mm_step sn (MkSystem mm h f) (MkSystem mm' h f)
| mm_ensure mm h f ds mm' err :
    EnsureMemForWrite sn mm [] ds = Ok (mm', err) -> mm_step sn (MkSystem mm h f) (MkSystem mm' h f)
| mm_take mm f i mm' :
    TakeFlushMemTable mm = Some (i, mm') -> mm_step sn (MkSystem mm None f) (MkSystem mm' (Some i) f)
| mm_flushed mm f i mm' :
    OnMemTableFlushed mm i = Ok mm' -> mm_step sn (MkSystem mm (Some i) f) (MkSystem mm' None (f ++ [i])).

(** Every table ever made is finished, waits or takes the writes, in the order in
    which they were made; the flusher has the first that waits. *)
Record system_ok (s : system) : Prop := {
  so_order : exists m, mem (manager s) = Some m /\
    finished s ++ imm (manager s) ++ [m] = seq 0 (length (tables (manager s)));
  so_flush : imm (manager s) = option_list (in_hand s) ++ flushCh (manager s);
  so_max : (0 < maxSize (manager s))%nat
}.

(** * Lemmas *)

(** An operation that changes only what is in the tables. *)
Record same_tables (mm mm' : MemManager) : Prop := {
  st_length : length (tables mm') = length (tables mm);
  st_mem : mem mm' = mem mm;
  st_imm : imm mm' = imm mm;
  st_flush : flushCh mm' = flushCh mm;
  st_max : maxSize mm' = maxSize mm
}.

#[global] Instance same_tables_refl : Reflexive same_tables.
Proof. by intros mm. Qed.
#[global] Instance same_tables_trans : Transitive same_tables.
Proof. intros a b c [] []. split; congruence. Qed.

Lemma set_table_same mm i t : same_tables mm (set_table mm i t).
Proof. split; cbn; by rewrite ?length_insert. Qed.
#[local] Hint Resolve set_table_same : core.

Lemma same_tables_ok mm mm' h f :
  same_tables mm mm' -> system_ok (MkSystem mm h f) -> system_ok (MkSystem mm' h f).
Proof.
  intros [] [(m & H1 & H2) H3 H4]. cbn in *. split; cbn; [exists m|..]; rewrite ?st_length0, ?st_imm0; split_and?; congruence.
Qed.

Lemma delete_in_same sn mm i keys min max data mm' :
  delete_in sn mm i keys min max data = Ok mm' -> same_tables mm mm'.
Proof. unfold delete_in. intros H. ok_inv; auto. Qed.

Lemma delete_all_same sn ids : forall mm keys min max data mm',
  delete_all sn mm ids keys min max data = Ok mm' -> same_tables mm mm'.
Proof.
  induction ids as [|i ids IH]; intros mm keys min max data mm' H; cbn [delete_all] in H; ok_inv; [done|].
  etransitivity; [by eapply delete_in_same|by eapply IH].
Qed.

Lemma values_in_same mm i key mm' vs : values_in mm i key = Ok (mm', vs) -> same_tables mm mm'.
Proof. unfold values_in. intros H. ok_inv; auto; done. Qed.

Lemma collect_same ids : forall mm key mm' vs, collect mm ids key = Ok (mm', vs) -> same_tables mm mm'.
Proof.
  induction ids as [|i ids IH]; intros mm key mm' vs H; cbn [collect] in H; ok_inv; [done|].
  etransitivity; [by eapply values_in_same|by eapply IH].
Qed.

Lemma NewMemTable_new sn max ds :
  (0 < max)%nat ->
  NewMemTable sn [] max ds =
  Ok (MkMemTable Cache.NewCache (WalFile.MkWalFile (replicate (2 * max) 0) 0 0) (Z.of_nat max)).
Proof.
  intros H. unfold NewMemTable, OpenMemTable, WalFile.Open, WalFile.OpenMmapFile.
  by rewrite !bool_decide_true by (done || lia).
Qed.

Lemma restore_loop_order sn files : forall mm ds i mm',
  imm mm = seq 0 (length (tables mm)) -> restore_loop sn mm files ds i = Ok (mm', None) ->
  imm mm' = seq 0 (length (tables mm')) /\ flushCh mm' = flushCh mm /\ maxSize mm' = maxSize mm.
Proof.
  induction files as [|[fid content] files IH]; intros mm ds i mm' Hi H; cbn [restore_loop] in H.
  - ok_inv. done.
  - ok_inv; match goal with H : restore_loop _ (if ?b then _ else _) _ _ _ = Ok _ |- _ => destruct b; apply IH in H end;
      try done.
    cbn [imm tables]. by rewrite length_app, Hi, seq_app.
Qed.

Lemma NewMemManager_ok sn num max files ds mm :
  (0 < max)%nat -> NewMemManager sn num max files [] ds = Ok mm -> system_ok (MkSystem (Open mm) None []).
Proof.
  intros Hm. unfold NewMemManager, restoreMemTables, newMemTable. intros H. ok_inv.
  match goal with H : restore_loop _ _ _ _ _ = Ok _ |- _ => apply restore_loop_order in H as (H1 & H2 & H3); [|done] end.
  cbn in *. split; cbn.
  - eexists. split; [done|]. by rewrite length_app, H1, seq_app.
  - by rewrite H2.
  - by rewrite H3.
Qed.

Lemma mm_step_ok sn s s' : system_ok s -> mm_step sn s s' -> system_ok s'.
Proof.
  intros Hs Hst. destruct Hst as [mm h f d lcs mm' err H|mm h f keys min max data mm' H|mm h f key mm' vs H|
    mm h f ds mm' err H|mm f i mm' H|mm f i mm' H].
  - apply (same_tables_ok mm); [|done]. unfold WriteMulti in H. ok_inv; auto.
  - apply (same_tables_ok mm); [|done]. unfold DeleteRange in H. ok_inv. by eapply delete_all_same.
  - apply (same_tables_ok mm); [|done]. unfold Values_ in H. ok_inv. by eapply collect_same.
  - destruct Hs as [(m & H1 & H2) H3 H4]. cbn in *. unfold EnsureMemForWrite, the_mem in H. rewrite H1 in H.
    ok_inv; [split; cbn; eauto| |split; cbn; eauto]. unfold newMemTable in H. rewrite NewMemTable_new in H by done.
    ok_inv. split; cbn; [|by rewrite H3, app_assoc|done]. eexists. split; [done|].
    by rewrite length_app, seq_app, <- H2, <- !app_assoc.
  - destruct Hs as [(m & H1 & H2) H3 H4]. cbn in *. unfold TakeFlushMemTable in H.
    destruct (flushCh mm) as [|j r] eqn:E; [done|]. injection H as <- <-. split; cbn; [by exists m|done|done].
  - destruct Hs as [(m & H1 & H2) H3 H4]. cbn in *. unfold OnMemTableFlushed in H. rewrite H3 in H. cbn in H.
    rewrite bool_decide_true in H by done. cbn in H. ok_inv. split; cbn; [|by rewrite drop_0|done].
    exists m. split; [done|]. rewrite length_insert, <- H2, H3, drop_0. cbn. by rewrite <- app_assoc.
Qed.

(** * Properties *)

(** C11: whatever the order in which writes, deletions, reads and the flusher take turns,
    the manager loses no table and keeps their order: all the tables ever made are, in
    the order of their making, the flushed ones, the waiting ones and the one that
    takes the writes.  Reporting a flush never fails and removes exactly that table. *)
Theorem MemManager_keeps_tables sn num max files ds mm s :
  (0 < max)%nat -> NewMemManager sn num max files [] ds = Ok mm ->
  rtc (mm_step sn) (MkSystem (Open mm) None []) s ->
  (exists m, mem (manager s) = Some m /\
    finished s ++ imm (manager s) ++ [m] = seq 0 (length (tables (manager s)))) /\
  imm (manager s) = option_list (in_hand s) ++ flushCh (manager s) /\
  forall i, in_hand s = Some i -> exists mm', OnMemTableFlushed (manager s) i = Ok mm' /\
    imm (manager s) = i :: imm mm'.
Proof.
  intros Hm Hn Hr. assert (system_ok s) as [(m & H1 & H2) H3 H4].
  { pose proof (NewMemManager_ok sn num max files ds mm Hm Hn) as H0. clear Hn. revert H0.
    induction Hr as [|x y z Hxy _ IH]; intros H0; [done|]. apply IH. by eapply mm_step_ok. }
  split; [eauto|]. split; [done|]. intros i Hi. rewrite Hi in H3. cbn in H3.
  assert (i ∈ seq 0 (length (tables (manager s)))) as Hin.
  { rewrite <- H2, H3. set_solver. }
  apply elem_of_seq in Hin. destruct (lookup_lt_is_Some_2 (tables (manager s)) i ltac:(lia)) as [t Ht].
  unfold OnMemTableFlushed. rewrite H3. cbn. rewrite bool_decide_true by done. cbn.
  rewrite (index_lookup _ _ _ Ht). cbn. eexists. split; [done|]. cbn. by rewrite drop_0.
Qed.

Lemma MemManager_keeps_tables_witness :
  exists mm, NewMemManager WalFile.tagging_snappy 1 64 [] [] (fun _ _ => MkNondet [] [] (fun _ _ => 0) []) = Ok mm /\
    let s := MkSystem (Open mm) None [] in
    (exists m, mem (manager s) = Some m /\
      finished s ++ imm (manager s) ++ [m] = seq 0 (length (tables (manager s)))) /\
    imm (manager s) = option_list (in_hand s) ++ flushCh (manager s) /\
    forall i, in_hand s = Some i -> exists mm', OnMemTableFlushed (manager s) i = Ok mm' /\
      imm (manager s) = i :: imm mm'.
Proof.
  destruct (NewMemManager WalFile.tagging_snappy 1 64 [] [] (fun _ _ => MkNondet [] [] (fun _ _ => 0) [])) as [mm| |] eqn:E;
    [|vm_compute in E; discriminate E..].
  exists mm. split; [done|]. intros s.
  apply (MemManager_keeps_tables WalFile.tagging_snappy 1 64 [] (fun _ _ => MkNondet [] [] (fun _ _ => 0) []) mm s); [lia|exact E|constructor].
Defined.

(** ** Reading *)

(** What a table says about a key: the entry of the first key at or after it. *)
Definition says (t : MemTable) (key : list Z) (s : gmap Z Value) : Prop :=
  exists r, ceiling (CacheLaws.contents (cache t)) key r /\
    s = match r ≫= fun x => CacheLaws.contents (cache t) !! x with Some e => Entry.content e | None => ∅ end.

(** The overlay of what the tables say: a later one covers the earlier ones. *)
Definition overlay (ss : list (gmap Z Value)) : gmap Z Value := foldr (fun s acc => acc ∪ s) ∅ ss.

Lemma values_in_ok mm i t key :
  tables mm !! i = Some t -> well_formed (cache t) ->
  exists mm' vs s, values_in mm i key = Ok (mm', vs) /\ says t key s /\ series vs = s /\
    forall j, j <> i -> tables mm' !! j = tables mm !! j.
Proof.
  intros Ht [L Hc]. unfold values_in. rewrite (index_lookup _ _ _ Ht). cbn [mbind outcome_bind].
  destruct (cache_Get_ok (cache t) L key Hc) as (r & -> & Hcl & Hr). cbn [mbind outcome_bind]. destruct r as [n|].
  - destruct (node_at (cache t) L n Hc Hr) as (nd & e & -> & He & _ & Hm). cbn [mbind outcome_bind]. rewrite He.
    destruct (Entry.Deduplicate_content e) as (e' & -> & Hcont & _ & _). cbn [mbind outcome_bind].
    destruct (set_entry_ok (cache t) L n e' Hc Hr) as (c' & -> & _). cbn [mbind outcome_bind].
    eexists _, _, (Entry.content e). split; [done|]. split; [|split; [done|]].
    + exists (Some (keyof (Cache.nodes (cache t)) n)). split; [done|]. cbn. by rewrite Hm.
    + intros j Hj. cbn. by rewrite list_lookup_insert_ne.
  - eexists _, _, ∅. split; [done|]. split; [by exists None|]. split; [apply series_nil|done].
Qed.

Lemma collect_ok ids : forall mm key,
  NoDup ids -> (forall i, i ∈ ids -> exists t, tables mm !! i = Some t /\ well_formed (cache t)) ->
  exists mm' vs ss, collect mm ids key = Ok (mm', vs) /\
    Forall2 (fun i s => exists t, tables mm !! i = Some t /\ says t key s) ids ss /\ series vs = overlay ss.
Proof.
  induction ids as [|i ids IH]; intros mm key Hn Ht; cbn [collect].
  - exists mm, [], []. split; [done|]. split; [constructor|apply series_nil].
  - apply NoDup_cons in Hn as [Hi Hn]. destruct (Ht i) as (t & Hti & Hw); [by left|].
    destruct (values_in_ok mm i t key Hti Hw) as (mm1 & vs & s & -> & Hs & Hvs & Hsame). cbn [mbind outcome_bind].
    assert (forall j, j ∈ ids -> tables mm1 !! j = tables mm !! j) as Hj.
    { intros j Hj. apply Hsame. by intros ->. }
    destruct (IH mm1 key Hn) as (mm2 & rest & ss & -> & Hss & Hrest); [|cbn [mbind outcome_bind]].
    { intros j Hin. rewrite Hj by done. apply Ht. by right. }
    exists mm2, (vs ++ rest), (s :: ss). split; [done|]. split; [|by rewrite series_app, Hrest, Hvs].
    constructor; [eauto|]. apply Forall2_same_length_lookup_2; [by eapply Forall2_length|].
    intros n j s' Hkj Hks. destruct (Forall2_lookup_lr _ _ _ _ _ _ Hss Hkj Hks) as (t' & Ht' & Hs').
    rewrite Hj in Ht' by (by eapply list_elem_of_lookup_2). eauto.
Qed.

(** C39: a read returns, sorted and without duplicate timestamps, what the tables say
    about the key laid over each other, the table that takes the writes first and the
    waiting ones from the oldest: so a value overwritten since its table was full is
    returned as it was before. *)
Theorem MemManager_Values mm i key :
  mem mm = Some i -> NoDup (i :: imm mm) ->
  (forall j, j ∈ i :: imm mm -> exists t, tables mm !! j = Some t /\ well_formed (cache t)) ->
  exists mm' vs s ss, Values_ mm key = Ok (mm', vs) /\ sorted vs /\
    Forall2 (fun j s => exists t, tables mm !! j = Some t /\ says t key s) (i :: imm mm) (s :: ss) /\
    series vs = overlay ss ∪ s /\
    (forall time old new, overlay ss !! time = Some old -> s !! time = Some new -> series vs !! time = Some old).
Proof.
  intros Hm Hn Ht. unfold Values_, the_mem. rewrite Hm. cbn [mbind outcome_bind].
  destruct (collect_ok (i :: imm mm) mm key Hn Ht) as (mm' & vs & ss & -> & Hss & Hvs). cbn [mbind outcome_bind].
  destruct (Deduplicate_spec vs) as (r & -> & Hsr & Hr). cbn [mbind outcome_bind].
  inversion Hss as [|? s ? ss' Hs Hss' E1 E2]; subst. exists mm', r, s, ss'. split; [done|]. split; [done|].
  split; [by constructor|]. rewrite Hr, Hvs. split; [done|]. intros time old new Ho Hnew. cbn.
  apply lookup_union_Some_raw. by left.
Qed.

(** A waiting table and the current one with another value at the same time. *)
Definition put_one (v : Z) : Cache.Cache :=
  match Cache.Put Cache.NewCache [97] [IntegerValue 1 v] 0 1 with Ok (c, _) => c | _ => Cache.NewCache end.
Definition two_tables : MemManager :=
  MkMemManager [MkMemTable (put_one 5) (WalFile.MkWalFile [] 0 0) 64; MkMemTable (put_one 6) (WalFile.MkWalFile [] 0 0) 64]
    (Some 1%nat) [0%nat] 2 [0%nat] 1 64.

Lemma put_one_ok v : well_formed (put_one v).
Proof.
  unfold put_one. destruct (cache_Put_ok Cache.NewCache _ [97] [IntegerValue 1 v] 0 1 NewCache_ok) as (c' & r & E & Hw & _);
    [unfold Cache.maxHeight; lia|exists 2; by repeat constructor|]. by rewrite E.
Qed.

Lemma MemManager_Values_witness :
  exists mm' vs s ss, Values_ two_tables [97] = Ok (mm', vs) /\ sorted vs /\
    Forall2 (fun j s => exists t, tables two_tables !! j = Some t /\ says t [97] s) (1%nat :: imm two_tables) (s :: ss) /\
    series vs = overlay ss ∪ s /\
    (forall time old new, overlay ss !! time = Some old -> s !! time = Some new -> series vs !! time = Some old).
Proof.
  apply (MemManager_Values two_tables 1 [97]); [done|by apply (bool_decide_unpack _)|].
  intros j Hj. apply elem_of_cons in Hj as [->|Hj]; [|apply list_elem_of_singleton in Hj as ->].
  - exists (MkMemTable (put_one 6) (WalFile.MkWalFile [] 0 0) 64). split; [reflexivity|apply put_one_ok].
  - exists (MkMemTable (put_one 5) (WalFile.MkWalFile [] 0 0) 64). split; [reflexivity|apply put_one_ok].
Defined.

End MemManager.
