(* ===== verification/Checksum.v ===== *)
(** hash/crc32 of the Go library: the checksum of blocks in SST files and in value
    files. *)
From S2P Require Import Prelude Binary.

Module Checksum.

(** The IEEE polynomial, bits reversed, a bit at a time. *)
Definition IEEE : Z := 0xEDB88320.
Definition crc_bit (c : Z) : Z := if Z.testbit c 0 then Z.lxor (Z.shiftr c 1) IEEE else Z.shiftr c 1.
Definition crc_byte (c b : Z) : Z := Nat.iter 8 crc_bit (Z.lxor c b).
Definition ChecksumIEEE (l : list Z) : Z := Z.lxor (foldl crc_byte 0xFFFFFFFF l) 0xFFFFFFFF.

Definition Size : nat := 4.

(** The check value of the standard, of the bytes of "123456789". *)
Example ChecksumIEEE_check : ChecksumIEEE [49; 50; 51; 52; 53; 54; 55; 56; 57] = 0xCBF43926.
Proof. reflexivity. Qed.

Definition is_u32 (x : Z) : Prop := 0 <= x < 2 ^ 32.

(** Bounds of bit operations, by the number of bits. *)
Lemma u32_bits x : is_u32 x <-> 0 <= x /\ forall i, 32 <= i -> Z.testbit x i = false.
Proof.
  unfold is_u32. split.
  - intros H. split; [lia|]. intros i Hi. apply Z.bits_above_log2; [lia|].
    destruct (Z.eq_dec x 0) as [->|]; [cbn; lia|]. apply Z.log2_lt_pow2; [lia|].
    pose proof (Z.pow_le_mono_r 2 32 i). lia.
  - intros [H0 H]. split; [done|]. destruct (Z.lt_ge_cases x (2 ^ 32)) as [|Hge]; [done|]. exfalso.
    assert (32 <= Z.log2 x) as Hl by (apply Z.log2_le_pow2; lia).
    specialize (H _ Hl). rewrite Z.bit_log2 in H by lia. discriminate H.
Qed.

Lemma u32_lxor x y : is_u32 x -> is_u32 y -> is_u32 (Z.lxor x y).
Proof.
  rewrite !u32_bits. intros [Hx Hx'] [Hy Hy']. split; [by apply Z.lxor_nonneg|].
  intros i Hi. rewrite Z.lxor_spec. by rewrite Hx', Hy'.
Qed.

Lemma u32_shiftr x n : is_u32 x -> 0 <= n -> is_u32 (Z.shiftr x n).
Proof.
  rewrite !u32_bits. intros [Hx Hx'] Hn. split; [by apply Z.shiftr_nonneg|].
  intros i Hi. rewrite Z.shiftr_spec by lia. apply Hx'. lia.
Qed.

Lemma crc_bit_u32 c : is_u32 c -> is_u32 (crc_bit c).
Proof.
  intros H. unfold crc_bit. destruct (Z.testbit c 0); [apply u32_lxor|]; try (apply u32_shiftr; [done|lia]).
  unfold is_u32, IEEE. lia.
Qed.

Lemma crc_byte_u32 c b : is_u32 c -> is_byte b -> is_u32 (crc_byte c b).
Proof.
  intros Hc Hb. unfold crc_byte.
  assert (is_u32 (Z.lxor c b)) as H0 by (apply u32_lxor; [done|unfold is_byte, is_u32 in *; lia]).
  revert H0. generalize (Z.lxor c b). intros x Hx. generalize 8%nat. intros n. induction n as [|n IH]; [done|].
  cbn. by apply crc_bit_u32.
Qed.

Lemma ChecksumIEEE_u32 l : bytes_ok l -> is_u32 (ChecksumIEEE l).
Proof.
  intros H. unfold ChecksumIEEE. apply u32_lxor; [|unfold is_u32; lia].
  assert (is_u32 0xFFFFFFFF) as H0 by (unfold is_u32; lia). revert H0. generalize 0xFFFFFFFF. intros c Hc.
  revert c Hc. induction H as [|b l Hb _ IH]; intros c Hc; [done|]. cbn. apply IH. by apply crc_byte_u32.
Qed.

End Checksum.
