(* ===== verification/VFile.v ===== *)
(** Value files, where large values live: vfile_ptr.go, vfile_footer.go, vfile_file.go
    and vfile_reader.go of src/storage/store. *)
From S2P Require Import Prelude Binary SSTIndex Checksum WalFile.

Import Checksum.

Module VFile.

Abbreviation u32 := SSTIndex.u32.
Abbreviation short_buf := SSTIndex.short_buf.

(** ** Pointers to values *)

Definition ValuePtrSize : nat := 34.

Record ValuePtr := MkPtr {
  p_MinTime : Z; p_MaxTime : Z; p_Offset : Z; p_FileNo : Z; p_Size : Z; p_LifeCycle : Z }.

#[global] Instance ValuePtr_eq_dec : EqDecision ValuePtr.
Proof. solve_decision. Defined.

Definition ptr_AppendTo (v : ValuePtr) (b : slice Z) : slice Z :=
  let b := if bool_decide (slen b < ValuePtrSize)%nat
           then if bool_decide (scap b < ValuePtrSize)%nat then make_slice 0 ValuePtrSize ValuePtrSize
                else Slice (backing b) ValuePtrSize
           else b in
  let a := backing b in
  let a := splice a 0 (be_encode 8 (u64 (p_MinTime v))) in
  let a := splice a 8 (be_encode 8 (u64 (p_MaxTime v))) in
  let a := splice a 16 (be_encode 8 (u64 (p_Offset v))) in
  let a := splice a 24 (be_encode 4 (p_FileNo v)) in
  let a := splice a 28 (be_encode 4 (p_Size v)) in
  let a := splice a 32 (be_encode 2 (p_LifeCycle v)) in
  Slice a (slen b).

Definition ptr_UnmarshalBinary (b : list Z) : outcome ValuePtr :=
  if bool_decide (length b < ValuePtrSize)%nat then Err short_buf else
  min ← Uint64 b;
  max ← Uint64 (drop 8 b);
  off ← Uint64 (drop 16 b);
  no ← Uint32 (drop 24 b);
  sz ← Uint32 (drop 28 b);
  lc ← Uint16 (drop 32 b);
  Ok (MkPtr (i64 min) (i64 max) (i64 off) no sz lc).

Fixpoint decode_loop (count : nat) (b : list Z) : outcome (list ValuePtr) :=
  match count with
  | O => Ok []
  | S count =>
      v ← ptr_UnmarshalBinary (take ValuePtrSize b);
      vs ← decode_loop count (drop ValuePtrSize b);
      Ok (v :: vs)
  end.

(** Bytes after the last whole pointer are ignored. *)
Definition DecodeValuePtrs (b : list Z) : outcome (list ValuePtr) :=
  if bool_decide (length b < ValuePtrSize)%nat then Err short_buf
  else decode_loop (length b / ValuePtrSize) b.

(** ** Headers of blocks *)

Definition VFileHeaderSize : nat := 30.

Record VFileHeader := MkHeader { KeyLen : Z; DataLen : Z; KeyHash : Z; h_MinTime : Z; h_MaxTime : Z }.

Definition empty_header : VFileHeader := MkHeader 0 0 0 0 0.

Definition header_MarshalBinary (h : VFileHeader) : list Z :=
  let b := replicate VFileHeaderSize 0 in
  let b := splice b 0 (be_encode 8 (KeyHash h)) in
  let b := splice b 8 (be_encode 8 (u64 (h_MinTime h))) in
  let b := splice b 16 (be_encode 8 (u64 (h_MaxTime h))) in
  let b := splice b 24 (be_encode 4 (DataLen h)) in
  splice b 28 (be_encode 2 (KeyLen h)).

Definition invalid_header : string := "unmarshalBinary: invalid empty header".

Definition header_UnmarshalBinary (b : list Z) : outcome VFileHeader :=
  if bool_decide (length b < VFileHeaderSize)%nat then Err short_buf else
  hash ← Uint64 b;
  min ← Uint64 (drop 8 b);
  max ← Uint64 (drop 16 b);
  dlen ← Uint32 (drop 24 b);
  klen ← Uint16 (drop 28 b);
  if (klen =? 0) && (i64 min =? 0) && (i64 max =? 0) && (dlen =? 0) && (hash =? 0) then Err invalid_header
  else Ok (MkHeader klen dlen hash (i64 min) (i64 max)).

#[global] Instance VFileHeader_eq_dec : EqDecision VFileHeader.
Proof. solve_decision. Defined.

(** ** Value files

    [running] are the goroutines started by [WriteBlock]: where the next copy goes, the
    copies left and the bytes to add to [size] at the end. *)
Record goroutine := Go { g_start : Z; g_todo : list (list Z); g_n : Z }.

Record ValueFile := MkFile {
  fid : Z; size : Z; pos : Z; lifeCycle : Z; Data : list Z; running : list goroutine }.

Definition clearEntryHeader (f : ValueFile) : ValueFile :=
  let fin := u32 (pos f + Z.of_nat VFileHeaderSize) in
  if (size f <? fin) || (fin <=? pos f) then f
  else MkFile (fid f) (size f) (pos f) (lifeCycle f)
         (splice (Data f) (Z.to_nat (pos f)) (replicate (Z.to_nat (fin - pos f)) 0)) (running f).

(** [content] is the file on disk. *)
Definition Open (no lc : Z) (content : list Z) (max : nat) : ValueFile :=
  let '(d, new) := WalFile.OpenMmapFile content max in
  if new : bool then clearEntryHeader (MkFile no 0 0 lc d [])
  else MkFile no (u32 (Z.of_nat (length d))) 0 lc d [].

Definition bad_map : string := "invalid argument".

(** Mapping no bytes is an error, after the file was cut; so is unmapping none. *)
Definition Truncate (f : ValueFile) (fin : Z) : ValueFile * option string :=
  if Z.of_nat (length (Data f)) =? fin then (f, None) else
  let with_data d := MkFile (fid f) (u32 fin) (pos f) (lifeCycle f) d (running f) in
  if bool_decide (Data f = []) then (with_data [], Some bad_map)
  else (with_data (WalFile.resize (Data f) (Z.to_nat fin)), if fin =? 0 then Some bad_map else None).

Section WithHash.
(** github.com/cespare/xxhash, [Sum64]. *)
Context (Sum64 : list Z -> Z).

Definition header_of (key : list Z) (minTime maxTime : Z) (block : list Z) : VFileHeader :=
  MkHeader (Z.of_nat (length key) mod 2 ^ 16) (u32 (Z.of_nat (length block))) (Sum64 key) minTime maxTime.

(** What the goroutine copies, one after the other. *)
Definition copies (key : list Z) (minTime maxTime : Z) (block : list Z) : list (list Z) :=
  [header_MarshalBinary (header_of key minTime maxTime block); key; be_encode 4 (ChecksumIEEE block); block].

Definition WriteBlock (f : ValueFile) (key : list Z) (minTime maxTime : Z) (block : list Z) : ValueFile * outcome Z :=
  let n := Z.of_nat (length key + 4 + length block + VFileHeaderSize) in
  let newPos := u32 (pos f + n) in
  let f := MkFile (fid f) (size f) newPos (lifeCycle f) (Data f) (running f) in
  let '(f, err) := if Z.of_nat (length (Data f)) <=? newPos then Truncate f newPos else (f, None) in
  match err with
  | Some e => (MkFile (fid f) (size f) (u32 (pos f - n)) (lifeCycle f) (Data f) (running f), Err e)
  | None =>
      (MkFile (fid f) (size f) (pos f) (lifeCycle f) (Data f)
         (running f ++ [Go (newPos - n) (copies key minTime maxTime block) n]), Ok newPos)
  end.
End WithHash.

(** The [i]-th goroutine makes its next copy, or ends. *)
Definition resume (f : ValueFile) (i : nat) : outcome ValueFile :=
  match running f !! i with
  | None => Ok f
  | Some (Go start (c :: todo) n) =>
      if (start <? 0) || (Z.of_nat (length (Data f)) <? start) then Panic else
      let k := Nat.min (length c) (length (Data f) - Z.to_nat start) in
      Ok (MkFile (fid f) (size f) (pos f) (lifeCycle f) (splice (Data f) (Z.to_nat start) (take k c))
            (<[i := Go (start + Z.of_nat k) todo n]> (running f)))
  | Some (Go _ [] n) =>
      Ok (MkFile (fid f) (u32 (size f + n)) (pos f) (lifeCycle f) (Data f) (delete i (running f)))
  end.

Definition EOF : string := "EOF".

Definition readWithValPtr (f : ValueFile) (p : ValuePtr) : outcome (list Z) :=
  let sz := Z.of_nat (length (Data f)) in
  let fin := i64 (p_Offset p + p_Size p) in
  if (sz <=? p_Offset p) || (sz <? fin) || (size f <? fin) then Err EOF
  else zslice (Data f) (p_Offset p) fin.

Definition Flush (f : ValueFile) (offset : Z) : ValueFile * option string := Truncate f offset.

(** ** Iterating over a file *)

Record ValueFileIterator := MkIter { offset : Z; lenValueBlock : Z; header : VFileHeader }.

Definition NewValueFileIterator : ValueFileIterator := MkIter 0 0 empty_header.

Definition no_next : string := "no next left".

Definition Next (f : ValueFile) (r : ValueFileIterator) : outcome ValueFileIterator :=
  if size f <? u32 (offset r + Z.of_nat VFileHeaderSize) then Err no_next else
  b ← zslice (Data f) (offset r) (u32 (offset r + Z.of_nat VFileHeaderSize));
  h ← header_UnmarshalBinary b;
  let len := u32 (KeyLen h + 4 + DataLen h) in
  Ok (MkIter (u32 (offset r + Z.of_nat VFileHeaderSize + len)) len h).

Definition ReadKey (f : ValueFile) (r : ValueFileIterator) : outcome (list Z) :=
  let start := u32 (offset r - lenValueBlock r) in
  zslice (Data f) start (u32 (start + KeyLen (header r))).

Definition IsValidateBlock (f : ValueFile) (r : ValueFileIterator) : outcome bool :=
  if size f <? offset r then Ok false else
  let start := u32 (offset r - lenValueBlock r + KeyLen (header r)) in
  c ← zslice (Data f) start (u32 (start + 4));
  crc ← Uint32 c;
  block ← zslice (Data f) (u32 (start + 4)) (offset r);
  Ok (crc =? ChecksumIEEE block).

Definition ReadValueBlock (f : ValueFile) (r : ValueFileIterator) : outcome (list Z) :=
  let start := u32 (offset r - lenValueBlock r + KeyLen (header r) + 4) in
  zslice (Data f) start (u32 (start + DataLen (header r))).

(** [for r.Next() == nil && r.IsValidateBlock()]; a round passes a header. *)
Fixpoint restore_loop (fuel : nat) (f : ValueFile) (r : ValueFileIterator) : outcome ValueFileIterator :=
  match fuel with
  | O => Panic
  | S fuel =>
      match Next f r with
      | Ok r => ok ← IsValidateBlock f r; if ok : bool then restore_loop fuel f r else Ok r
      | Err _ => Ok r
      | Panic => Panic
      end
  end.

Definition restoreValueFile (f : ValueFile) : outcome ValueFile :=
  r ← restore_loop (S (length (Data f))) f NewValueFileIterator;
  Ok (MkFile (fid f) (size f) (offset r) (lifeCycle f) (Data f) (running f)).

(** ** Specification *)

Definition ptr_bytes (v : ValuePtr) : list Z :=
  be_encode 8 (u64 (p_MinTime v)) ++ be_encode 8 (u64 (p_MaxTime v)) ++ be_encode 8 (u64 (p_Offset v))
    ++ be_encode 4 (p_FileNo v) ++ be_encode 4 (p_Size v) ++ be_encode 2 (p_LifeCycle v).

Definition ptr_ok (v : ValuePtr) : Prop :=
  is_i64 (p_MinTime v) /\ is_i64 (p_MaxTime v) /\ is_i64 (p_Offset v) /\ is_u32 (p_FileNo v) /\ is_u32 (p_Size v) /\
  0 <= p_LifeCycle v < 2 ^ 16.

Definition header_bytes (h : VFileHeader) : list Z :=
  be_encode 8 (KeyHash h) ++ be_encode 8 (u64 (h_MinTime h)) ++ be_encode 8 (u64 (h_MaxTime h))
    ++ be_encode 4 (DataLen h) ++ be_encode 2 (KeyLen h).

Definition header_ok (h : VFileHeader) : Prop :=
  is_i64 (h_MinTime h) /\ is_i64 (h_MaxTime h) /\ is_u64 (KeyHash h) /\ is_u32 (DataLen h) /\ 0 <= KeyLen h < 2 ^ 16.

(** * Lemmas *)

Lemma length_ptr_bytes v : length (ptr_bytes v) = ValuePtrSize.
Proof. unfold ptr_bytes. by rewrite !length_app, !length_be_encode. Qed.
#[export] Hint Rewrite length_ptr_bytes : golen.

Lemma Uint32_encode v r : is_u32 v -> Uint32 (be_encode 4 v ++ r) = Ok v.
Proof. intros H. apply be_uint_encode. change (256 ^ Z.of_nat 4) with (2 ^ 32). exact H. Qed.

Lemma Uint16_encode v r : 0 <= v < 2 ^ 16 -> Uint16 (be_encode 2 v ++ r) = Ok v.
Proof. intros H. apply be_uint_encode. change (256 ^ Z.of_nat 2) with (2 ^ 16). exact H. Qed.

(** Splicing the fields of a record one after the other. *)
Fixpoint put_fields (l : list (list Z)) (i : nat) (a : list Z) : list Z :=
  match l with [] => a | b :: l => put_fields l (i + length b) (splice a i b) end.

Lemma put_fields_ok l p q : put_fields l (length p) (p ++ q) = p ++ concat l ++ drop (length (concat l)) q.
Proof.
  revert p q. induction l as [|b l IH]; intros p q; [done|]. cbn [put_fields concat].
  rewrite splice_after, app_assoc, <- length_app, IH, <- !app_assoc, drop_drop, length_app. done.
Qed.

Lemma ptr_AppendTo_full v a n :
  (ValuePtrSize <= n <= length a)%nat -> ptr_AppendTo v (Slice a n) = Slice (ptr_bytes v ++ drop ValuePtrSize a) n.
Proof.
  intros Hn. unfold ptr_AppendTo. cbn [slen backing]. rewrite bool_decide_false by lia. f_equal.
  transitivity (put_fields [be_encode 8 (u64 (p_MinTime v)); be_encode 8 (u64 (p_MaxTime v)); be_encode 8 (u64 (p_Offset v));
    be_encode 4 (p_FileNo v); be_encode 4 (p_Size v); be_encode 2 (p_LifeCycle v)] 0 a).
  - cbn [put_fields]. by rewrite !length_be_encode.
  - pose proof (put_fields_ok [be_encode 8 (u64 (p_MinTime v)); be_encode 8 (u64 (p_MaxTime v)); be_encode 8 (u64 (p_Offset v));
      be_encode 4 (p_FileNo v); be_encode 4 (p_Size v); be_encode 2 (p_LifeCycle v)] [] a) as E.
    cbn [length app concat] in E. rewrite E, app_nil_r. reflexivity.
Qed.

(** Whatever buffer it is given, [AppendTo] writes the pointer at its start. *)
Lemma ptr_AppendTo_bytes v b : slice_ok b -> exists r, contents (ptr_AppendTo v b) = ptr_bytes v ++ r /\
  (slen b <= ValuePtrSize -> r = [])%nat.
Proof.
  destruct b as [a n]. unfold slice_ok, scap. cbn [backing slen]. intros Hok.
  destruct (decide (n < ValuePtrSize)%nat) as [Hn|Hn].
  - set (a' := if bool_decide (length a < ValuePtrSize)%nat then replicate ValuePtrSize 0 else a).
    assert (ptr_AppendTo v (Slice a n) = ptr_AppendTo v (Slice a' ValuePtrSize)) as ->.
    { unfold ptr_AppendTo. cbn [slen backing]. rewrite bool_decide_true by done. unfold a', scap. cbn [backing].
      case_bool_decide; reflexivity. }
    assert (ValuePtrSize <= length a')%nat as Ha by (unfold a'; case_bool_decide; [done|lia]).
    rewrite ptr_AppendTo_full by lia. exists []. rewrite app_nil_r. split; [|done].
    unfold contents. cbn [slen backing]. by rewrite take_app_length' by (by rewrite length_ptr_bytes).
  - rewrite ptr_AppendTo_full by lia. exists (take (n - ValuePtrSize) (drop ValuePtrSize a)). split.
    + unfold contents. cbn [slen backing]. by rewrite take_app, (take_ge (ptr_bytes v)), length_ptr_bytes by (rewrite length_ptr_bytes; lia).
    + intros H. by replace (n - ValuePtrSize)%nat with 0%nat by lia.
Qed.

Lemma ptr_roundtrip v r : ptr_ok v -> ptr_UnmarshalBinary (ptr_bytes v ++ r) = Ok v.
Proof.
  destruct v as [t0 t1 o no s lc]. intros (H0 & H1 & H2 & H3 & H4 & H5). cbn [p_MinTime p_MaxTime p_Offset p_FileNo p_Size p_LifeCycle] in *.
  unfold ptr_UnmarshalBinary. rewrite bool_decide_false by len. unfold ptr_bytes.
  cbn [p_MinTime p_MaxTime p_Offset p_FileNo p_Size p_LifeCycle]. rewrite <- !app_assoc.
  change 32%nat with (8 + (8 + (8 + (4 + 4))))%nat. change 28%nat with (8 + (8 + (8 + 4)))%nat.
  change 24%nat with (8 + (8 + 8))%nat. change 16%nat with (8 + 8)%nat.
  rewrite <- !drop_drop, !drop_be_eq by done. rewrite !Uint64_encode by apply u64_range. cbn [mbind outcome_bind].
  rewrite !Uint32_encode, Uint16_encode by done. cbn [mbind outcome_bind]. by rewrite !i64_u64, !i64_small.
Qed.

Lemma decode_loop_ptrs vs r : Forall ptr_ok vs -> decode_loop (length vs) (concat (ptr_bytes <$> vs) ++ r) = Ok vs.
Proof.
  induction 1 as [|v vs Hv _ IH]; [done|]. cbn [length decode_loop fmap list_fmap concat]. rewrite <- app_assoc.
  rewrite take_app_length', drop_app_length' by (by rewrite length_ptr_bytes).
  rewrite <- (app_nil_r (ptr_bytes v)), ptr_roundtrip by done. cbn [mbind outcome_bind].
  fold (ptr_bytes <$> vs). rewrite IH. done.
Qed.

Lemma header_MarshalBinary_bytes h : header_MarshalBinary h = header_bytes h.
Proof. reflexivity. Qed.

Lemma length_header_bytes h : length (header_bytes h) = VFileHeaderSize.
Proof. unfold header_bytes. by rewrite !length_app, !length_be_encode. Qed.
#[export] Hint Rewrite length_header_bytes : golen.

Lemma header_roundtrip h r :
  header_ok h -> header_UnmarshalBinary (header_bytes h ++ r) = if decide (h = empty_header) then Err invalid_header else Ok h.
Proof.
  destruct h as [kl dl hs t0 t1]. intros (H0 & H1 & H2 & H3 & H4). cbn [KeyLen DataLen KeyHash h_MinTime h_MaxTime] in *.
  unfold header_UnmarshalBinary. rewrite bool_decide_false by len. unfold header_bytes.
  cbn [KeyLen DataLen KeyHash h_MinTime h_MaxTime]. rewrite <- !app_assoc.
  change 28%nat with (8 + (8 + (8 + 4)))%nat. change 24%nat with (8 + (8 + 8))%nat. change 16%nat with (8 + 8)%nat.
  rewrite <- !drop_drop, !drop_be_eq by done. rewrite !Uint64_encode by (done || apply u64_range). cbn [mbind outcome_bind].
  rewrite Uint32_encode, Uint16_encode by done. cbn [mbind outcome_bind]. rewrite !i64_u64, !i64_small by done.
  case_decide as E.
  - injection E as -> -> -> -> ->. reflexivity.
  - destruct (Z.eqb_spec kl 0), (Z.eqb_spec t0 0), (Z.eqb_spec t1 0), (Z.eqb_spec dl 0), (Z.eqb_spec hs 0); try done.
    subst. done.
Qed.

End VFile.
