(* ===== verification/VFileLaws.v ===== *)
(** Value files under interleaved writes: what is read back, before and after the
    goroutines of [WriteBlock] have run, and after the file is opened again. *)
From stdpp Require Import list.
From S2P Require Import Prelude Binary SSTIndex Checksum WalFile VFile.

Import Checksum VFile.

Module VFileLaws.

Section laws.
Context (Sum64 : list Z -> Z).

(** ** Runs

    An operation of a run starts a write or lets one goroutine make a step; the run
    gives the positions the writes returned. *)
Record write := MkWrite { w_key : list Z; w_min : Z; w_max : Z; w_block : list Z }.

Inductive op := Write (w : write) | Resume (i : nat).

Fixpoint run (f : ValueFile) (ops : list op) : outcome (ValueFile * list Z) :=
  match ops with
  | [] => Ok (f, [])
  | Write w :: ops =>
      match WriteBlock Sum64 f (w_key w) (w_min w) (w_max w) (w_block w) with
      | (f, r) => p ← r; '(f, ps) ← run f ops; Ok (f, p :: ps)
      end
  | Resume i :: ops => f ← resume f i; run f ops
  end.

Definition writes (ops : list op) : list write := omap (fun o => match o with Write w => Some w | Resume _ => None end) ops.

Definition chunks (w : write) : list (list Z) := copies Sum64 (w_key w) (w_min w) (w_max w) (w_block w).
Definition bytes_of (w : write) : list Z := concat (chunks w).
Definition image (ws : list write) : list Z := concat (bytes_of <$> ws).

(** Where each write ends. *)
Fixpoint ends (o : Z) (ws : list write) : list Z :=
  match ws with [] => [] | w :: ws => let e := o + Z.of_nat (length (bytes_of w)) in e :: ends e ws end.

(** The pointer to a block that ends at [e]. *)
Definition ptr_to (f : ValueFile) (w : write) (e : Z) : ValuePtr :=
  MkPtr (w_min w) (w_max w) (e - Z.of_nat (length (w_block w))) (fid f) (Z.of_nat (length (w_block w))) (lifeCycle f).

(** ** The state of each write

    The bytes of a write are there as far as its goroutine came, and then what the file
    held before.  The size counts the writes that ended; a flush can set it beyond. *)
Record progress := MkProgress { done_ : list (list Z); todo : list (list Z); junk : list Z; ended : bool }.

Definition progress_ok (w : write) (s : progress) : Prop :=
  done_ s ++ todo s = chunks w /\ length (junk s) = length (concat (todo s)) /\ (ended s = true -> todo s = []).

Definition region (s : progress) : list Z := concat (done_ s) ++ junk s.
Definition span (s : progress) : Z := Z.of_nat (length (region s)).

Fixpoint goroutines (o : Z) (l : list progress) : list goroutine :=
  match l with
  | [] => []
  | s :: l =>
      (if ended s then [] else [Go (o + Z.of_nat (length (concat (done_ s)))) (todo s) (span s)]) ++ goroutines (o + span s) l
  end.

Definition settled (l : list progress) : Z := foldr (fun s n => (if ended s then span s else 0) + n) 0 l.

Record inflight (f : ValueFile) (ws : list write) (l : list progress) (rest : list Z) : Prop := {
  in_progress : Forall2 progress_ok ws l;
  in_data : Data f = concat (region <$> l) ++ rest;
  in_pos : pos f = Z.of_nat (length (concat (region <$> l)));
  in_running : running f = goroutines 0 l;
  in_size : settled l <= size f;
  in_bound : size f - settled l + Z.of_nat (length (Data f)) < 2 ^ 32 }.

(** * Lemmas *)

Lemma length_bytes_of w : length (bytes_of w) = (length (w_key w) + 4 + length (w_block w) + VFileHeaderSize)%nat.
Proof.
  unfold bytes_of, chunks, copies. cbn [concat]. rewrite !length_app, header_MarshalBinary_bytes, length_header_bytes, length_be_encode.
  cbn [length]. lia.
Qed.

Lemma progress_length w s : progress_ok w s -> length (region s) = length (bytes_of w).
Proof.
  intros (E & Hj & _). unfold region, bytes_of. rewrite <- E, concat_app, !length_app, Hj. done.
Qed.

Lemma progress_done w s : progress_ok w s -> ended s = true -> region s = bytes_of w.
Proof.
  intros (E & Hj & Hf) Hd. specialize (Hf Hd). unfold region, bytes_of. rewrite Hf in E, Hj. cbn in Hj.
  rewrite app_nil_r in E. rewrite <- E. destruct (junk s); [|done]. by rewrite app_nil_r.
Qed.

Lemma regions_length ws l : Forall2 progress_ok ws l -> length (concat (region <$> l)) = length (image ws).
Proof.
  induction 1 as [|w s ws l Hs _ IH]; [done|]. unfold image in *. cbn [fmap list_fmap concat] in *.
  rewrite !length_app, (progress_length w s) by done. f_equal. exact IH.
Qed.

Lemma goroutines_app o l1 l2 :
  goroutines o (l1 ++ l2) = goroutines o l1 ++ goroutines (o + Z.of_nat (length (concat (region <$> l1)))) l2.
Proof.
  revert o. induction l1 as [|s l1 IH]; intros o; cbn [goroutines app fmap list_fmap concat].
  - by rewrite Z.add_0_r.
  - rewrite IH, <- app_assoc, length_app. do 3 f_equal. unfold span, region. cbn [fmap list_fmap] in *. unfold region. lia.
Qed.

Lemma settled_app l1 l2 : settled (l1 ++ l2) = settled l1 + settled l2.
Proof.
  induction l1 as [|s l1 IH]; [done|]. rewrite <- app_comm_cons.
  change (settled (s :: l1 ++ l2)) with ((if ended s then span s else 0) + settled (l1 ++ l2)).
  change (settled (s :: l1)) with ((if ended s then span s else 0) + settled l1). lia.
Qed.

Lemma settled_le l : 0 <= settled l <= Z.of_nat (length (concat (region <$> l))).
Proof.
  induction l as [|s l IH]; [cbn; lia|]. rewrite fmap_cons. cbn [concat]. rewrite length_app.
  change (settled (s :: l)) with ((if ended s then span s else 0) + settled l). unfold span. destruct (ended s); lia.
Qed.

(** The goroutine at a position belongs to a write that has not ended. *)
Lemma goroutines_lookup o l i g : goroutines o l !! i = Some g ->
  exists l1 s l2, l = l1 ++ s :: l2 /\ ended s = false /\ length (goroutines o l1) = i /\
    g = Go (o + Z.of_nat (length (concat (region <$> l1))) + Z.of_nat (length (concat (done_ s)))) (todo s) (span s).
Proof.
  revert o i. induction l as [|s l IH]; intros o i Hi; cbn [goroutines] in Hi; [rewrite lookup_nil in Hi; discriminate Hi|].
  destruct (ended s) eqn:Ef; [|destruct i as [|i]]; cbn [app lookup list_lookup] in Hi.
  - apply IH in Hi as (l1 & s' & l2 & -> & Hd & Hl & ->). exists (s :: l1), s', l2. split_and!; [done|done| |].
    + cbn [goroutines]. rewrite Ef. exact Hl.
    + f_equal. cbn [fmap list_fmap concat]. rewrite length_app. unfold span. lia.
  - injection Hi as <-. exists [], s, l. split_and!; [done|done|done|]. f_equal. cbn. lia.
  - apply IH in Hi as (l1 & s' & l2 & -> & Hd & Hl & ->). exists (s :: l1), s', l2. split_and!; [done|done| |].
    + cbn [goroutines]. rewrite Ef, length_app. cbn [length]. lia.
    + f_equal. cbn [fmap list_fmap concat]. rewrite length_app. unfold span. lia.
Qed.

(** ** Steps *)

Lemma image_le f ws l rest : inflight f ws l rest -> pos f = Z.of_nat (length (image ws)) /\
  length (Data f) = (length (image ws) + length rest)%nat.
Proof.
  intros H. pose proof (regions_length _ _ (in_progress _ _ _ _ H)) as E. split; [by rewrite (in_pos _ _ _ _ H), E|].
  by rewrite (in_data _ _ _ _ H), length_app, E.
Qed.

Lemma write_step f ws l rest w :
  inflight f ws l rest -> (length (bytes_of w) <= length rest)%nat ->
  exists f', WriteBlock Sum64 f (w_key w) (w_min w) (w_max w) (w_block w) =
      (f', Ok (Z.of_nat (length (image ws) + length (bytes_of w)))) /\
    inflight f' (ws ++ [w]) (l ++ [MkProgress [] (chunks w) (take (length (bytes_of w)) rest) false]) (drop (length (bytes_of w)) rest).
Proof.
  intros H Hw. pose proof (image_le _ _ _ _ H) as [Hpos Hlen]. pose proof (in_bound _ _ _ _ H) as Hb. pose proof (in_size _ _ _ _ H) as Hs.
  unfold WriteBlock. rewrite <- length_bytes_of, Hpos.
  assert (u32 (Z.of_nat (length (image ws)) + Z.of_nat (length (bytes_of w))) = Z.of_nat (length (image ws) + length (bytes_of w))) as ->
    by (unfold u32, SSTIndex.u32; rewrite Z.mod_small; lia).
  cbn [Data]. set (f1 := MkFile _ _ _ _ _ _).
  assert ((if Z.of_nat (length (Data f)) <=? Z.of_nat (length (image ws) + length (bytes_of w))
           then Truncate f1 (Z.of_nat (length (image ws) + length (bytes_of w))) else (f1, None)) = (f1, None)) as ->.
  { destruct (Z.leb_spec (Z.of_nat (length (Data f))) (Z.of_nat (length (image ws) + length (bytes_of w)))); [|done].
    unfold Truncate. cbn [Data f1]. by rewrite (proj2 (Z.eqb_eq _ _)) by lia. }
  eexists. split; [reflexivity|].
  assert (length (take (length (bytes_of w)) rest) = length (bytes_of w)) as Ht by (rewrite length_take; lia).
  split; unfold f1; cbn [Data pos running size].
  - apply Forall2_app; [apply (in_progress _ _ _ _ H)|]. constructor; [|constructor]. split_and!; [done|exact Ht|done].
  - rewrite fmap_app, concat_app, (in_data _ _ _ _ H). cbn [fmap list_fmap concat]. unfold region at 3. cbn [done_ junk concat app].
    by rewrite app_nil_r, <- app_assoc, take_drop.
  - rewrite fmap_app, concat_app, length_app, (regions_length _ _ (in_progress _ _ _ _ H)). cbn [fmap list_fmap concat].
    rewrite app_nil_r. unfold region. cbn [done_ junk concat app]. rewrite Ht. lia.
  - rewrite goroutines_app, (in_running _ _ _ _ H), (regions_length _ _ (in_progress _ _ _ _ H)). do 2 f_equal.
    cbn [goroutines ended done_ todo app concat length]. unfold span, region. cbn [done_ junk concat app]. rewrite Ht. f_equal. f_equal; lia.
  - rewrite settled_app. cbn. lia.
  - rewrite settled_app. cbn [settled foldr ended]. lia.
Qed.

Lemma resume_none f i : running f !! i = None -> resume f i = Ok f.
Proof. unfold resume. by intros ->. Qed.

(** The goroutine at a position, its write, and the file around it. *)
Record at_work (f : ValueFile) (ws : list write) (l : list progress) (rest : list Z) (i : nat)
    (l1 : list progress) (s : progress) (l2 : list progress) (w : write) : Prop := {
  aw_list : l = l1 ++ s :: l2;
  aw_ended : ended s = false;
  aw_write : progress_ok w s;
  aw_others : forall s', progress_ok w s' -> Forall2 progress_ok ws (l1 ++ s' :: l2);
  aw_at : running f !! i = Some (Go (Z.of_nat (length (concat (region <$> l1)) + length (concat (done_ s)))) (todo s) (span s));
  aw_data : Data f = concat (region <$> l1) ++ concat (done_ s) ++ junk s ++ concat (region <$> l2) ++ rest;
  aw_index : length (goroutines 0 l1) = i;
  aw_running : running f = goroutines 0 l1 ++
    Go (Z.of_nat (length (concat (region <$> l1)) + length (concat (done_ s)))) (todo s) (span s) ::
    goroutines (Z.of_nat (length (concat (region <$> l1))) + span s) l2 }.

Lemma find_at_work f ws l rest i g :
  inflight f ws l rest -> running f !! i = Some g -> exists l1 s l2 w, at_work f ws l rest i l1 s l2 w.
Proof.
  intros H Hg. pose proof Hg as Hg'. rewrite (in_running _ _ _ _ H) in Hg'.
  apply goroutines_lookup in Hg' as (l1 & s & l2 & El & Hd & Hi & ->). pose proof (in_progress _ _ _ _ H) as Hp. rewrite El in Hp.
  apply Forall2_app_inv_r in Hp as (ws1 & ws2' & Hp1 & Hp2 & Ews). inversion Hp2 as [|w s' ws2 l2' Hw Hp3]; subst s' l2' ws2'.
  exists l1, s, l2, w. pose proof (in_running _ _ _ _ H) as HR. rewrite El, goroutines_app in HR. cbn [goroutines] in HR. rewrite Hd in HR.
  split; try done.
  - intros s' Hs'. rewrite Ews. by apply Forall2_app; [|constructor].
  - rewrite Hg. do 2 f_equal. lia.
  - rewrite (in_data _ _ _ _ H), El, fmap_app, fmap_cons, concat_app. cbn [concat]. unfold region at 2. by rewrite <- !app_assoc.
  - rewrite HR. cbn [app]. rewrite Z.add_0_l. do 3 f_equal. lia.
Qed.

Lemma resume_end f ws l rest i l1 s l2 w :
  inflight f ws l rest -> at_work f ws l rest i l1 s l2 w -> todo s = [] ->
  exists f', resume f i = Ok f' /\ inflight f' ws (l1 ++ MkProgress (done_ s) [] (junk s) true :: l2) rest /\
    fid f' = fid f /\ lifeCycle f' = lifeCycle f.
Proof.
  intros H W Htd. pose proof (aw_list _ _ _ _ _ _ _ _ _ W) as El. pose proof (aw_write _ _ _ _ _ _ _ _ _ W) as (Hch & Hj & Hf).
  unfold resume. rewrite (aw_at _ _ _ _ _ _ _ _ _ W), Htd. eexists. split; [reflexivity|]. split; [|done].
  set (s1 := MkProgress _ _ _ _).
  assert (region <$> l1 ++ s1 :: l2 = region <$> l) as Er by (by rewrite El, !fmap_app, !fmap_cons).
  assert (settled (l1 ++ s1 :: l2) = settled l + span s) as Hset.
  { rewrite El, !settled_app. change (settled (s :: l2)) with ((if ended s then span s else 0) + settled l2).
    change (settled (s1 :: l2)) with (span s + settled l2). rewrite (aw_ended _ _ _ _ _ _ _ _ _ W). lia. }
  assert (u32 (size f + span s) = size f + span s) as Hsize.
  { pose proof (in_bound _ _ _ _ H) as Hb. pose proof (in_size _ _ _ _ H). rewrite (in_data _ _ _ _ H), length_app in Hb.
    pose proof (settled_le (l1 ++ s1 :: l2)) as Hle. rewrite Er, Hset in Hle. pose proof (settled_le l). unfold span in *.
    unfold u32, SSTIndex.u32. rewrite Z.mod_small; lia. }
  split; cbn [Data pos running size].
  - apply (aw_others _ _ _ _ _ _ _ _ _ W). rewrite Htd in Hch, Hj. split_and!; done.
  - rewrite Er. apply (in_data _ _ _ _ H).
  - rewrite Er. apply (in_pos _ _ _ _ H).
  - rewrite (aw_running _ _ _ _ _ _ _ _ _ W), goroutines_app. cbn [goroutines ended s1 app].
    rewrite <- (aw_index _ _ _ _ _ _ _ _ _ W), delete_middle. done.
  - rewrite Hsize, Hset. pose proof (in_size _ _ _ _ H). lia.
  - rewrite Hsize, Hset. pose proof (in_bound _ _ _ _ H). lia.
Qed.

Lemma resume_copy f ws l rest i l1 s l2 w c td :
  inflight f ws l rest -> at_work f ws l rest i l1 s l2 w -> todo s = c :: td ->
  exists f', resume f i = Ok f' /\
    inflight f' ws (l1 ++ MkProgress (done_ s ++ [c]) td (drop (length c) (junk s)) false :: l2) rest /\
    fid f' = fid f /\ lifeCycle f' = lifeCycle f.
Proof.
  intros H W Htd. pose proof (aw_list _ _ _ _ _ _ _ _ _ W) as El. pose proof (aw_write _ _ _ _ _ _ _ _ _ W) as (Hch & Hj & Hf).
  rewrite Htd in Hch, Hj. cbn [concat] in Hj. rewrite length_app in Hj. pose proof (aw_data _ _ _ _ _ _ _ _ _ W) as HD.
  unfold resume. rewrite (aw_at _ _ _ _ _ _ _ _ _ W), Htd. set (p := concat (region <$> l1)) in *.
  assert (length p + length (concat (done_ s)) + length (junk s) <= length (Data f))%nat as Hlen by (rewrite HD, !length_app; lia).
  rewrite (proj2 (Z.ltb_ge _ 0)), (proj2 (Z.ltb_ge _ (Z.of_nat (_ + _)))) by lia. cbn [orb].
  rewrite Nat2Z.id, Nat.min_l, take_ge by lia. eexists. split; [reflexivity|]. split; [|done].
  set (s1 := MkProgress _ _ _ _).
  assert (concat (done_ s1) = concat (done_ s) ++ c) as Ed by (cbn; by rewrite concat_app; cbn; rewrite app_nil_r).
  assert (span s1 = span s) as Hsp by (unfold span, region; rewrite !length_app, Ed, length_app; cbn [junk s1]; rewrite length_drop; lia).
  assert (settled (l1 ++ s1 :: l2) = settled l) as Hset.
  { rewrite El, !settled_app. change (settled (s :: l2)) with ((if ended s then span s else 0) + settled l2).
    by rewrite (aw_ended _ _ _ _ _ _ _ _ _ W). }
  split; cbn [Data pos running size].
  - apply (aw_others _ _ _ _ _ _ _ _ _ W). split_and!; cbn [done_ todo junk ended s1]; [by rewrite <- app_assoc|rewrite length_drop; lia|done].
  - rewrite HD, (app_assoc p), <- length_app, splice_after. rewrite fmap_app, fmap_cons, concat_app. cbn [concat]. fold p. unfold region at 2.
    rewrite Ed, <- !app_assoc. cbn [junk s1]. do 3 f_equal. by rewrite drop_app_le by lia.
  - rewrite (in_pos _ _ _ _ H), El, !fmap_app, !fmap_cons, !concat_app, !length_app. cbn [concat]. rewrite !length_app.
    unfold span in Hsp. lia.
  - rewrite (aw_running _ _ _ _ _ _ _ _ _ W), goroutines_app. cbn [goroutines ended s1 app]. fold p.
    rewrite <- (aw_index _ _ _ _ _ _ _ _ _ W), insert_app_r_alt, Nat.sub_diag by lia. cbn [insert list_insert].
    rewrite Ed, length_app, Hsp. do 2 f_equal. f_equal. lia.
  - rewrite Hset. apply (in_size _ _ _ _ H).
  - rewrite splice_length, Hset by lia. apply (in_bound _ _ _ _ H).
Qed.

Lemma resume_step f ws l rest i :
  inflight f ws l rest -> exists f' l', resume f i = Ok f' /\ inflight f' ws l' rest /\ fid f' = fid f /\ lifeCycle f' = lifeCycle f.
Proof.
  intros H. destruct (running f !! i) as [g|] eqn:Hg; [|exists f, l; by rewrite resume_none].
  destruct (find_at_work f ws l rest i g H Hg) as (l1 & s & l2 & w & W). destruct (todo s) as [|c td] eqn:Htd.
  - destruct (resume_end f ws l rest i l1 s l2 w H W Htd) as (f' & ?). eauto.
  - destruct (resume_copy f ws l rest i l1 s l2 w c td H W Htd) as (f' & ?). eauto.
Qed.

(** ** Whole runs *)

Lemma image_app ws1 ws2 : image (ws1 ++ ws2) = image ws1 ++ image ws2.
Proof. unfold image. by rewrite fmap_app, concat_app. Qed.

Lemma run_inflight ops : forall f ws l rest,
  inflight f ws l rest -> (length (image (writes ops)) <= length rest)%nat ->
  exists f' l', run f ops = Ok (f', ends (Z.of_nat (length (image ws))) (writes ops)) /\
    inflight f' (ws ++ writes ops) l' (drop (length (image (writes ops))) rest) /\ fid f' = fid f /\ lifeCycle f' = lifeCycle f.
Proof.
  induction ops as [|[w|i] ops IH]; intros f ws l rest H Hlen.
  - exists f, l. rewrite app_nil_r. done.
  - change (writes (Write w :: ops)) with (w :: writes ops) in *. change (image (w :: writes ops)) with (bytes_of w ++ image (writes ops)) in *.
    rewrite length_app in Hlen. destruct (write_step f ws l rest w H) as (f1 & E1 & H1); [lia|]. cbn [run]. rewrite E1. cbn [mbind outcome_bind].
    assert (fid f1 = fid f /\ lifeCycle f1 = lifeCycle f) as [<- <-].
    { revert E1. unfold WriteBlock. destruct (_ <=? _); [|intros E1; injection E1 as <- _; done].
      unfold Truncate. destruct (_ =? _); [intros E1; injection E1 as <- _; done|].
      destruct (bool_decide _); [intros E1; discriminate E1|]. destruct (_ =? 0); intros E1; [discriminate E1|injection E1 as <- _; done]. }
    destruct (IH f1 (ws ++ [w]) _ _ H1) as (f2 & l2 & E2 & H2 & Hi2); [rewrite length_drop; lia|]. exists f2, l2. rewrite E2. cbn [mbind outcome_bind ends].
    split_and!; [|rewrite length_app, <- drop_drop, cons_middle, app_assoc; exact H2|apply Hi2|apply Hi2].
    do 2 f_equal. rewrite image_app, length_app. change (image [w]) with (bytes_of w ++ []). rewrite app_nil_r.
    f_equal; [lia|f_equal; lia].
  - destruct (resume_step f ws l rest i H) as (f1 & l1 & E1 & H1 & Hf1 & Hc1). cbn [run]. rewrite E1. cbn [mbind outcome_bind].
    destruct (IH f1 ws l1 rest H1 Hlen) as (f2 & l2 & E2 & H2 & Hf2 & Hc2). exists f2, l2. rewrite <- Hf1, <- Hc1. done.
Qed.

(** When no goroutine is left, every write is whole. *)
Lemma inflight_settled f ws l rest :
  inflight f ws l rest -> running f = [] -> Data f = image ws ++ rest /\ Z.of_nat (length (image ws)) <= size f.
Proof.
  intros H Hr. pose proof (in_progress _ _ _ _ H) as Hp. rewrite (in_running _ _ _ _ H) in Hr.
  assert (region <$> l = bytes_of <$> ws /\ settled l = Z.of_nat (length (image ws))) as [E1 E2].
  { revert Hr. generalize 0. clear H. induction Hp as [|w s ws l Hs Hp IH]; intros o Hr; [done|]. cbn [goroutines] in Hr.
    destruct (ended s) eqn:Hd; [|done]. cbn [app] in Hr. destruct (IH _ Hr) as [E1 E2]. split.
    - rewrite !fmap_cons, E1. f_equal. by apply progress_done.
    - change (settled (s :: l)) with ((if ended s then span s else 0) + settled l).
      change (image (w :: ws)) with (bytes_of w ++ image ws). rewrite Hd, E2, length_app. unfold span.
      rewrite (progress_length w s Hs). lia. }
  rewrite (in_data _ _ _ _ H), E1, <- E2. split; [done|apply (in_size _ _ _ _ H)].
Qed.

Lemma ends_lookup ws : forall o i w e, ws !! i = Some w -> ends o ws !! i = Some e ->
  exists ws1 ws2, ws = ws1 ++ w :: ws2 /\ e = o + Z.of_nat (length (image ws1) + length (bytes_of w)).
Proof.
  induction ws as [|w0 ws IH]; intros o i w e Hw He; [rewrite lookup_nil in Hw; discriminate Hw|].
  destruct i as [|i]; cbn [lookup list_lookup ends] in Hw, He.
  - assert (w0 = w) as -> by congruence. assert (e = o + Z.of_nat (length (bytes_of w))) as -> by congruence. exists [], ws. split; [done|]. change (image []) with (@nil Z). cbn [length]. lia.
  - destruct (IH _ _ _ _ Hw He) as (ws1 & ws2 & -> & ->). exists (w0 :: ws1), ws2. split; [done|].
    change (image (w0 :: ws1)) with (bytes_of w0 ++ image ws1). rewrite length_app. lia.
Qed.

Lemma bytes_of_block w : exists q, bytes_of w = q ++ w_block w.
Proof.
  unfold bytes_of, chunks, copies. cbn [concat]. rewrite app_nil_r, !app_assoc. by eexists.
Qed.

Lemma read_settled f ws rest i w e :
  Data f = image ws ++ rest -> Z.of_nat (length (image ws)) <= size f -> Z.of_nat (length (Data f)) < 2 ^ 32 ->
  ws !! i = Some w -> ends 0 ws !! i = Some e -> w_block w <> [] -> readWithValPtr f (ptr_to f w e) = Ok (w_block w).
Proof.
  intros HD HS Hb Hw He Hne. destruct (ends_lookup ws 0 i w e Hw He) as (ws1 & ws2 & -> & ->).
  destruct (bytes_of_block w) as [q Eq]. rewrite image_app in HD, HS. change (image (w :: ws2)) with (bytes_of w ++ image ws2) in HD, HS.
  rewrite !length_app, Eq, length_app in HS. rewrite Eq, <- !app_assoc in HD. assert (0 < length (w_block w))%nat by (destruct (w_block w); [done|cbn; lia]).
  pose proof (f_equal length HD) as HL. rewrite !length_app in HL. rewrite Eq, length_app.
  unfold readWithValPtr, ptr_to. cbn [p_Offset p_Size].
  rewrite i64_small by (unfold is_i64; lia). rewrite (proj2 (Z.leb_gt _ _)), !(proj2 (Z.ltb_ge _ _)) by lia. cbn [orb].
  rewrite HD, app_assoc. apply zslice_app; rewrite length_app; lia.
Qed.

(** ** The goroutines end *)

(** What is left to do, counting the last step of each goroutine. *)
Definition work (f : ValueFile) : nat := sum_list_with (fun g => S (length (g_todo g))) (running f).

Lemma resume_work f f' : resume f 0 = Ok f' -> work f' = (work f - 1)%nat /\ (work f = 0%nat <-> running f = []).
Proof.
  unfold resume, work. destruct (running f) as [|[start [|c td] n] gs] eqn:E; cbn [lookup list_lookup].
  - intros H. injection H as <-. rewrite E. done.
  - intros H. injection H as <-. cbn. split; [lia|done].
  - destruct (_ || _); intros H; [discriminate H|]. injection H as <-. cbn. split; [lia|done].
Qed.

Lemma run_resumes f ws l rest n :
  inflight f ws l rest -> exists f' l', run f (replicate n (Resume 0)) = Ok (f', []) /\ inflight f' ws l' rest /\
    work f' = (work f - n)%nat /\ fid f' = fid f /\ lifeCycle f' = lifeCycle f.
Proof.
  revert f l. induction n as [|n IH]; intros f l H; [exists f, l; split_and!; try done; lia|].
  destruct (resume_step f ws l rest 0 H) as (f1 & l1 & E1 & H1 & Hf & Hc). cbn [replicate run]. rewrite E1. cbn [mbind outcome_bind].
  destruct (IH f1 l1 H1) as (f2 & l2 & E2 & H2 & Hw & Hf2 & Hc2). exists f2, l2. rewrite E2. split_and!; try done; try congruence.
  rewrite Hw, (proj1 (resume_work f f1 E1)). lia.
Qed.

Lemma work_nil f : work f = 0%nat -> running f = [].
Proof. unfold work. destruct (running f); [done|discriminate]. Qed.

Lemma new_inflight no lc n : (0 < n)%nat -> Z.of_nat n < 2 ^ 32 -> inflight (Open no lc [] n) [] [] (replicate n 0).
Proof.
  intros Hn Hb. unfold Open, WalFile.OpenMmapFile. rewrite !bool_decide_true by done. cbn [andb].
  unfold clearEntryHeader. cbn [pos size]. change (0 <? u32 (0 + Z.of_nat VFileHeaderSize)) with true. cbn [orb].
  split; cbn [Data pos running size]; try done. by rewrite length_replicate.
Qed.

(** C20: concurrent writes to a value file.  Whatever the interleaving of writes that fit
    and of their goroutines, nothing fails, each write returns where it ends, after those
    before it, and the goroutines, once they run, end; and when none is left every block is
    read back by its pointer, and the file is the writes one after the other, then
    zeros. *)
Theorem vfile_writes no lc n ops :
  (0 < n)%nat -> Z.of_nat n < 2 ^ 32 -> (length (image (writes ops)) <= n)%nat ->
  exists f, run (Open no lc [] n) ops = Ok (f, ends 0 (writes ops)) /\
    exists f', run f (replicate (work f) (Resume 0)) = Ok (f', []) /\ running f' = [] /\
      forall f'', f'' = f' \/ (f'' = f /\ running f = []) ->
        Data f'' = image (writes ops) ++ replicate (n - length (image (writes ops))) 0 /\
        forall i w e, writes ops !! i = Some w -> ends 0 (writes ops) !! i = Some e -> w_block w <> [] ->
          readWithValPtr f'' (ptr_to f'' w e) = Ok (w_block w).
Proof.
  intros Hn Hb Hlen.
  destruct (run_inflight ops (Open no lc [] n) [] [] (replicate n 0)) as (f & l & E & H & _);
    [by apply new_inflight|by rewrite length_replicate|].
  exists f. split; [exact E|]. cbn [app] in H. rewrite drop_replicate in H.
  destruct (run_resumes f _ _ _ (work f) H) as (f' & l' & E' & H' & Hw & _). rewrite Nat.sub_diag in Hw. apply work_nil in Hw.
  exists f'. split; [exact E'|]. split; [exact Hw|]. intros f'' Hf.
  assert (exists l'', inflight f'' (writes ops) l'' (replicate (n - length (image (writes ops))) 0) /\ running f'' = []) as (l'' & H'' & Hr)
    by (destruct Hf as [->|[-> Hr]]; eauto).
  destruct (inflight_settled _ _ _ _ H'' Hr) as [HD HS]. split; [exact HD|]. intros i w e Hi He Hne.
  apply (read_settled f'' (writes ops) _ i w e HD HS); [|done..]. pose proof (in_bound _ _ _ _ H''). pose proof (in_size _ _ _ _ H''). lia.
Qed.

(** The second of two goroutines runs alone. *)
Lemma second_runs ws s1 rest : forall k f s2,
  inflight f ws [s1; s2] rest -> ended s1 = false -> ended s2 = false -> length (todo s2) = k ->
  exists f' s2', run f (replicate (S k) (Resume 1)) = Ok (f', []) /\ inflight f' ws [s1; s2'] rest /\ ended s2' = true /\
    fid f' = fid f /\ lifeCycle f' = lifeCycle f.
Proof.
  induction k as [|k IH]; intros f s2 H Hs1 Hs2 Hk;
    (assert (exists g, running f !! 1%nat = Some g) as [g Hg]
      by (rewrite (in_running _ _ _ _ H); cbn [goroutines]; rewrite Hs1, Hs2; cbn; by eexists));
    destruct (find_at_work f ws _ rest 1 g H Hg) as (l1 & s & l2 & w & W);
    (assert (l1 = [s1] /\ s = s2 /\ l2 = []) as (-> & -> & ->)
      by (pose proof (aw_list _ _ _ _ _ _ _ _ _ W) as El; pose proof (aw_index _ _ _ _ _ _ _ _ _ W) as Hi;
          destruct l1 as [|x [|y l1]]; cbn [app] in El; [discriminate Hi| |injection El as _ _ El; by destruct l1]; by simplify_eq));
    cbn [app] in *.
  - destruct (resume_end f ws _ rest 1 _ _ _ w H W) as (f' & E & H' & Hf & Hc); [by apply nil_length_inv|].
    exists f', (MkProgress (done_ s2) [] (junk s2) true). cbn [replicate run]. rewrite E. done.
  - destruct (todo s2) as [|c td] eqn:Etd; [discriminate Hk|].
    destruct (resume_copy f ws _ rest 1 _ _ _ w c td H W Etd) as (f1 & E & H1 & Hf & Hc). cbn [app] in H1.
    destruct (IH f1 _ H1 Hs1) as (f2 & s2' & E2 & H2 & Hd & Hf2 & Hc2); [done|by injection Hk|].
    exists f2, s2'. rewrite replicate_S. cbn [run]. rewrite E. cbn [mbind outcome_bind]. rewrite E2. split_and!; try done; congruence.
Qed.

Lemma run_both f ops1 ops2 f1 ps1 f2 ps2 :
  run f ops1 = Ok (f1, ps1) -> run f1 ops2 = Ok (f2, ps2) -> run f (ops1 ++ ops2) = Ok (f2, ps1 ++ ps2).
Proof.
  revert f ps1. induction ops1 as [|[w|i] ops1 IH]; intros f ps1 E1 E2; cbn [run app] in *.
  - injection E1 as -> <-. exact E2.
  - destruct (WriteBlock _ _ _ _ _ _) as [f' [p|e|]]; cbn [mbind outcome_bind] in *; try discriminate E1.
    destruct (run f' ops1) as [[f'' ps]|e|] eqn:E; cbn [mbind outcome_bind] in *; try discriminate E1. injection E1 as -> <-.
    by rewrite (IH _ _ E E2).
  - destruct (resume f i) as [f'|e|]; cbn [mbind outcome_bind] in *; try discriminate E1. by apply IH.
Qed.

(** a value can be read before it is there.  [WriteBlock] returns before its goroutine has
    copied anything, and the check of a read is on the number of bytes written in all:
    when a longer write that came later ends first, the earlier block is read, without an
    error, as the zeros the file held. *)
Theorem vfile_stale_read no lc n w1 w2 :
  (0 < n)%nat -> Z.of_nat n < 2 ^ 32 -> (length (image [w1; w2]) <= n)%nat -> (length (bytes_of w1) <= length (bytes_of w2))%nat ->
  w_block w1 <> [] ->
  exists f e1 e2, run (Open no lc [] n) ([Write w1; Write w2] ++ replicate 5 (Resume 1)) = Ok (f, [e1; e2]) /\
    readWithValPtr f (ptr_to f w1 e1) = Ok (replicate (length (w_block w1)) 0).
Proof.
  intros Hn Hb Hlen Hle Hne. change (image [w1; w2]) with (bytes_of w1 ++ bytes_of w2 ++ []) in Hlen. rewrite !length_app in Hlen. cbn [length] in Hlen.
  destruct (write_step (Open no lc [] n) [] [] (replicate n 0) w1) as (f1 & E1 & H1); [by apply new_inflight|rewrite length_replicate; lia|].
  destruct (write_step f1 [w1] _ _ w2 H1) as (f2 & E2 & H2); [rewrite length_drop, length_replicate; lia|].
  cbn [app] in H1, H2. destruct (second_runs _ _ _ 4 f2 _ H2) as (f & s2 & E & H & Hd & Hf & Hc); [done..|].
  set (s1 := MkProgress [] (chunks w1) _ false) in H.
  exists f, (Z.of_nat (length (bytes_of w1))), (Z.of_nat (length (bytes_of w1) + length (bytes_of w2))). split.
  - apply (run_both _ [Write w1; Write w2] _ f2 [_; _] f []); [|exact E]. cbn [run]. rewrite E1. cbn [mbind outcome_bind]. rewrite E2.
    cbn [mbind outcome_bind]. do 3 f_equal. change (image [w1]) with (bytes_of w1 ++ []). rewrite app_nil_r. done.
  - pose proof (in_progress _ _ _ _ H) as Hp. inversion Hp as [|? ? ? ? _ Hp2]; subst. inversion Hp2 as [|? ? ? ? Hs2 _]; subst.
    destruct (bytes_of_block w1) as [q Eq]. pose proof (f_equal length Eq) as Lq. rewrite length_app in Lq.
    assert (region s1 = replicate (length q) 0 ++ replicate (length (w_block w1)) 0) as Er1.
    { unfold region, s1. cbn [done_ junk concat app]. rewrite take_replicate, <- replicate_add. f_equal. lia. }
    pose proof (in_data _ _ _ _ H) as HD. cbn [fmap list_fmap concat] in HD. rewrite Er1, <- !app_assoc in HD.
    pose proof (in_size _ _ _ _ H) as HS. cbn [settled foldr] in HS. rewrite Hd in HS. cbn [ended s1] in HS. unfold span in HS.
    rewrite (progress_length w2 s2 Hs2) in HS. pose proof (in_bound _ _ _ _ H) as HB. pose proof (f_equal length HD) as HL.
    rewrite !length_app, !length_replicate in HL. assert (0 < length (w_block w1))%nat by (destruct (w_block w1); [done|cbn; lia]).
    unfold readWithValPtr, ptr_to. cbn [p_Offset p_Size]. rewrite i64_small by (unfold is_i64; lia).
    rewrite (proj2 (Z.leb_gt _ _)), !(proj2 (Z.ltb_ge _ _)) by lia. cbn [orb]. rewrite HD.
    apply zslice_app; rewrite !length_replicate; lia.
Qed.

(** ** Opening a file again *)

(** What a block must be for its record to be read back. *)
Definition write_ok (w : write) : Prop :=
  Z.of_nat (length (w_key w)) < 2 ^ 16 /\ w_block w <> [] /\ bytes_ok (w_block w) /\ is_i64 (w_min w) /\ is_i64 (w_max w) /\
  is_u64 (Sum64 (w_key w)).

(** The walk over the records, with what is read at each. *)
Fixpoint scan (fuel : nat) (f : ValueFile) (r : ValueFileIterator) : outcome (list write) :=
  match fuel with
  | O => Panic
  | S fuel =>
      match Next f r with
      | Ok r =>
          key ← ReadKey f r;
          block ← ReadValueBlock f r;
          ws ← scan fuel f r;
          Ok (MkWrite key (h_MinTime (header r)) (h_MaxTime (header r)) block :: ws)
      | Err _ => Ok []
      | Panic => Panic
      end
  end.

Definition header_at (w : write) : VFileHeader := header_of Sum64 (w_key w) (w_min w) (w_max w) (w_block w).

Definition past (o : nat) (w : write) : ValueFileIterator :=
  MkIter (Z.of_nat (o + length (bytes_of w))) (Z.of_nat (length (w_key w) + 4 + length (w_block w))) (header_at w).

Lemma bytes_of_parts w :
  bytes_of w = header_bytes (header_at w) ++ w_key w ++ be_encode 4 (ChecksumIEEE (w_block w)) ++ w_block w.
Proof. unfold bytes_of, chunks, copies. cbn [concat]. by rewrite app_nil_r, header_MarshalBinary_bytes. Qed.

Lemma header_at_ok w : write_ok w -> Z.of_nat (length (w_block w)) < 2 ^ 32 ->
  header_ok (header_at w) /\ KeyLen (header_at w) = Z.of_nat (length (w_key w)) /\
  DataLen (header_at w) = Z.of_nat (length (w_block w)) /\ header_at w <> empty_header.
Proof.
  intros (Hk & Hb & _ & H1 & H2 & H3) Hl. unfold header_at, header_of, u32, SSTIndex.u32.
  assert (0 < length (w_block w))%nat by (destruct (w_block w); [done|cbn; lia]).
  rewrite !Z.mod_small by lia. split_and!; [|done|done|].
  - unfold header_ok, is_u32. cbn [h_MinTime h_MaxTime KeyHash DataLen KeyLen]. split_and!; (done || lia).
  - intros E. injection E as _ E _ _ _. lia.
Qed.

Section at_record.
Context (f : ValueFile) (p : list Z) (w : write) (q : list Z) (r : ValueFileIterator).
Context (Hdata : Data f = p ++ bytes_of w ++ q) (Hsize : size f = Z.of_nat (length (Data f))) (Hbound : size f < 2 ^ 32).
Context (Hok : write_ok w) (Hr : offset r = Z.of_nat (length p)).

Lemma record_fits : Z.of_nat (length p + (length (w_key w) + 4 + length (w_block w) + 30) + length q) < 2 ^ 32.
Proof.
  pose proof Hbound as H. rewrite Hsize, Hdata, !length_app, length_bytes_of in H. unfold VFileHeaderSize in H. lia.
Qed.

Lemma u32_small x : 0 <= x < 2 ^ 32 -> u32 x = x.
Proof. intros H. by apply Z.mod_small. Qed.

Lemma Next_at_record : Next f r = Ok (past (length p) w).
Proof.
  pose proof record_fits as Hl. destruct (header_at_ok w Hok) as (Hh & Hk & Hd & Hne); [lia|].
  unfold Next. rewrite Hr, u32_small by (unfold VFileHeaderSize; lia).
  rewrite (proj2 (Z.ltb_ge _ _)) by (rewrite Hsize, Hdata, !length_app, length_bytes_of; unfold VFileHeaderSize; lia).
  rewrite Hdata, bytes_of_parts, <- !app_assoc.
  rewrite (zslice_app p (header_bytes _)) by (rewrite ?length_header_bytes; unfold VFileHeaderSize; lia). cbn [mbind outcome_bind].
  rewrite <- (app_nil_r (header_bytes _)), header_roundtrip, decide_False by done. cbn [mbind outcome_bind].
  rewrite Hk, Hd, (u32_small (Z.of_nat (length (w_key w)) + 4 + _)), u32_small by (unfold VFileHeaderSize; lia). unfold past. rewrite length_bytes_of. do 2 f_equal; unfold VFileHeaderSize; lia.
Qed.

Let parts : Data f = (p ++ header_bytes (header_at w)) ++ w_key w ++ be_encode 4 (ChecksumIEEE (w_block w)) ++ w_block w ++ q.
Proof. by rewrite Hdata, bytes_of_parts, <- !app_assoc. Qed.

Lemma record_start : u32 (offset (past (length p) w) - lenValueBlock (past (length p) w)) = Z.of_nat (length p + 30).
Proof.
  pose proof record_fits as Hl. cbn [past offset lenValueBlock]. rewrite length_bytes_of. unfold VFileHeaderSize. rewrite u32_small; lia.
Qed.

Lemma record_body k : 0 <= k <= Z.of_nat (length (w_key w)) + 4 ->
  u32 (offset (past (length p) w) - lenValueBlock (past (length p) w) + k) = Z.of_nat (length p + 30) + k.
Proof.
  intros Hk. pose proof record_fits as Hl. cbn [past offset lenValueBlock]. rewrite length_bytes_of. unfold VFileHeaderSize.
  rewrite u32_small; lia.
Qed.

Lemma ReadKey_record : ReadKey f (past (length p) w) = Ok (w_key w).
Proof.
  pose proof record_fits as Hl. destruct (header_at_ok w Hok) as (Hh & Hk & Hd & Hne); [lia|].
  unfold ReadKey. rewrite record_start. cbn [past header]. rewrite Hk, u32_small by lia.
  rewrite parts. apply zslice_app; rewrite length_app, length_header_bytes; unfold VFileHeaderSize; lia.
Qed.

Lemma ReadValueBlock_record : ReadValueBlock f (past (length p) w) = Ok (w_block w).
Proof.
  pose proof record_fits as Hl. destruct (header_at_ok w Hok) as (Hh & Hk & Hd & Hne); [lia|].
  unfold ReadValueBlock. change (header (past (length p) w)) with (header_at w). rewrite Hk, Hd.
  rewrite <- Z.add_assoc, record_body by lia. rewrite u32_small by lia.
  rewrite parts, (app_assoc (w_key w)), (app_assoc (p ++ _)).
  apply zslice_app; rewrite !length_app, length_header_bytes, length_be_encode; unfold VFileHeaderSize; lia.
Qed.

Lemma IsValidateBlock_record : IsValidateBlock f (past (length p) w) = Ok true.
Proof.
  pose proof record_fits as Hl. destruct (header_at_ok w Hok) as (Hh & Hk & Hd & Hne); [lia|].
  unfold IsValidateBlock. rewrite (proj2 (Z.ltb_ge _ _)) by (cbn [past offset]; rewrite Hsize, Hdata, !length_app; lia).
  change (header (past (length p) w)) with (header_at w). rewrite Hk, record_body, u32_small by lia.
  rewrite parts, (app_assoc (p ++ _)).
  rewrite (zslice_app _ (be_encode 4 _) _ (Z.of_nat (length p + 30) + Z.of_nat (length (w_key w)))) by (rewrite !length_app, length_header_bytes, ?length_be_encode; unfold VFileHeaderSize; lia).
  cbn [mbind outcome_bind]. rewrite <- (app_nil_r (be_encode 4 _)) at 1.
  rewrite Uint32_encode by (apply ChecksumIEEE_u32, Hok). cbn [mbind outcome_bind]. rewrite (app_assoc (_ ++ w_key w)).
  rewrite (zslice_app _ (w_block w)); [cbn [mbind outcome_bind]; by rewrite Z.eqb_refl|..];
    rewrite !length_app, length_header_bytes, length_be_encode; cbn [past offset]; rewrite ?length_bytes_of; unfold VFileHeaderSize; lia.
Qed.
End at_record.

Lemma zero_header z : header_UnmarshalBinary (replicate (30 + z) 0) = Err invalid_header.
Proof. reflexivity. Qed.

(** After the last record there are no more. *)
Lemma Next_at_end f p z r :
  Data f = p ++ replicate z 0 -> size f = Z.of_nat (length (Data f)) -> size f + 30 < 2 ^ 32 -> offset r = Z.of_nat (length p) ->
  exists e, Next f r = Err e.
Proof.
  intros Hd Hs Hb Hr. pose proof Hs as Hs'. rewrite Hd, length_app, length_replicate in Hs'. unfold Next, VFileHeaderSize. rewrite Hr, u32_small by lia.
  destruct (Z.ltb_spec (size f) (Z.of_nat (length p) + Z.of_nat 30)); [by eexists|].
  replace z with (30 + (z - 30))%nat in Hd by lia. rewrite replicate_add in Hd. rewrite Hd.
  rewrite (zslice_app p (replicate 30 0)) by (rewrite ?length_replicate; lia). cbn [mbind outcome_bind]. by eexists.
Qed.

Lemma restore_scan f z : forall ws2 p fuel r,
  Data f = p ++ image ws2 ++ replicate z 0 -> size f = Z.of_nat (length (Data f)) -> size f + 30 < 2 ^ 32 -> Forall write_ok ws2 ->
  (length ws2 < fuel)%nat -> offset r = Z.of_nat (length p) ->
  (exists r', restore_loop fuel f r = Ok r' /\ offset r' = Z.of_nat (length p + length (image ws2))) /\ scan fuel f r = Ok ws2.
Proof.
  induction ws2 as [|w ws2 IH]; intros p fuel r Hd Hs Hb Hok Hf Hr; (destruct fuel as [|fuel]; [cbn in Hf; lia|]); cbn [restore_loop scan].
  - destruct (Next_at_end f p z r Hd Hs Hb Hr) as [e ->]. split; [|done]. exists r. split; [done|]. rewrite Hr. f_equal. cbn. lia.
  - apply Forall_cons in Hok as [Hw Hok]. change (image (w :: ws2)) with (bytes_of w ++ image ws2) in *. rewrite <- app_assoc in Hd.
    rewrite (Next_at_record f p w _ r Hd Hs) by (done || lia).
    rewrite (IsValidateBlock_record f p w _ Hd Hs), (ReadKey_record f p w _ Hd Hs), (ReadValueBlock_record f p w _ Hd Hs) by (done || lia).
    cbn [mbind outcome_bind].
    destruct (IH (p ++ bytes_of w) fuel (past (length p) w)) as [(r' & -> & Hr') ->]; try done.
    { by rewrite <- app_assoc. } { cbn in Hf. lia. } { cbn [past offset]. by rewrite length_app. }
    split; [exists r'; split; [done|]; rewrite Hr', !length_app; f_equal; lia|]. cbn [mbind outcome_bind past header]. by destruct w.
Qed.

Lemma length_ws_image ws : (length ws <= length (image ws))%nat.
Proof.
  induction ws as [|w ws IH]; [done|]. change (image (w :: ws)) with (bytes_of w ++ image ws).
  rewrite length_app, length_bytes_of. unfold VFileHeaderSize. cbn [length]. lia.
Qed.

(** C32: opening a value file again.  Of a file that holds whole records and then zeros, as one
    that was closed or was not, restoring finds where the records end, and iterating
    over it gives every key, time range and block, in order. *)
Theorem vfile_restored no lc ws z max :
  Forall write_ok ws -> (0 < length (image ws) + z)%nat -> Z.of_nat (length (image ws) + z) + 30 < 2 ^ 32 ->
  exists f, restoreValueFile (Open no lc (image ws ++ replicate z 0) max) = Ok f /\
    pos f = Z.of_nat (length (image ws)) /\ Data f = image ws ++ replicate z 0 /\
    scan (S (length (Data f))) f NewValueFileIterator = Ok ws.
Proof.
  intros Hok Hpos Hb. assert (length (image ws ++ replicate z 0%Z) = length (image ws) + z)%nat as Hl by (by rewrite length_app, length_replicate).
  unfold Open, WalFile.OpenMmapFile. rewrite (bool_decide_false (image ws ++ _ = [])) by (intros E; rewrite E in Hl; cbn in Hl; lia).
  rewrite andb_false_r. cbn [fst snd]. rewrite u32_small by (rewrite Hl; lia). set (f0 := MkFile _ _ _ _ _ _).
  assert (size f0 = Z.of_nat (length (Data f0)) /\ size f0 + 30 < 2 ^ 32) as [Hs Hs2] by (cbn [f0 size Data]; rewrite Hl; lia).
  pose proof (length_ws_image ws) as Hw.
  destruct (restore_scan f0 z ws [] (S (length (Data f0))) NewValueFileIterator) as [(r & E & Hr) Hscan];
    [done|done|done|done|cbn [f0 Data]; rewrite Hl; lia|done|].
  unfold restoreValueFile. rewrite E. cbn [mbind outcome_bind]. eexists. split; [reflexivity|]. cbn [pos Data f0]. split_and!; [done|done|].
  set (f1 := MkFile _ _ _ _ _ _). destruct (restore_scan f1 z ws [] (S (length (Data f1))) NewValueFileIterator) as [_ Hscan1];
    [done|done|done|done|cbn [f1 f0 Data]; rewrite Hl; lia|done|]. exact Hscan1.
Qed.

End laws.

(** ** Witnesses *)

Definition sample1 : write := MkWrite [65] 1 2 [1; 2; 3].
Definition sample2 : write := MkWrite [66; 67] (-5) 9 [4; 5; 6; 7].
Definition no_hash (key : list Z) : Z := 7.

Lemma vfile_writes_witness :
  exists f, run no_hash (Open 1 0 [] 100) [Write sample1; Resume 0; Write sample2; Resume 1] = Ok (f, [38; 78]) /\
    exists f', run no_hash f (replicate (work f) (Resume 0)) = Ok (f', []) /\
      readWithValPtr f' (ptr_to f' sample1 38) = Ok [1; 2; 3].
Proof.
  assert ((0 < 100)%nat /\ Z.of_nat 100 < 2 ^ 32 /\
    (length (image no_hash (writes [Write sample1; Resume 0; Write sample2; Resume 1])) <= 100)%nat) as (H1 & H2 & H3)
    by (split_and!; [lia|lia|vm_compute; lia]).
  destruct (vfile_writes no_hash 1 0 100 [Write sample1; Resume 0; Write sample2; Resume 1] H1 H2 H3) as (f & E & f' & E' & Hr & H).
  exists f. split; [exact E|]. exists f'. split; [exact E'|].
  destruct (H f' (or_introl eq_refl)) as [_ Hread]. apply (Hread 0%nat sample1 38); [reflexivity|reflexivity|discriminate].
Defined.

Lemma vfile_stale_read_witness :
  exists f, run no_hash (Open 1 0 [] 100) ([Write sample1; Write sample2] ++ replicate 5 (Resume 1)) = Ok (f, [38; 78]) /\
    readWithValPtr f (ptr_to f sample1 38) = Ok [0; 0; 0].
Proof.
  assert ((0 < 100)%nat /\ Z.of_nat 100 < 2 ^ 32 /\ (length (image no_hash [sample1; sample2]) <= 100)%nat /\
    (length (bytes_of no_hash sample1) <= length (bytes_of no_hash sample2))%nat /\ w_block sample1 <> []) as (H1 & H2 & H3 & H4 & H5)
    by (split_and!; [lia|lia|vm_compute; lia|vm_compute; lia|discriminate]).
  destruct (vfile_stale_read no_hash 1 0 100 sample1 sample2 H1 H2 H3 H4 H5) as (f & e1 & e2 & E & Hread).
  assert ([e1; e2] = [38; 78]) as Ee.
  { assert (match run no_hash (Open 1 0 [] 100) ([Write sample1; Write sample2] ++ replicate 5 (Resume 1)) with
            | Ok (_, ps) => ps | _ => [] end = [38; 78]) as Ec by (vm_compute; reflexivity).
    rewrite E in Ec. exact Ec. }
  injection Ee as -> ->. exists f. split; [exact E|exact Hread].
Defined.

Lemma vfile_restored_witness :
  exists f, restoreValueFile (Open 1 0 (image no_hash [sample1; sample2] ++ replicate 40 0) 100) = Ok f /\ pos f = 78 /\
    scan (S (length (Data f))) f NewValueFileIterator = Ok [sample1; sample2].
Proof.
  assert (Forall (write_ok no_hash) [sample1; sample2]) as H1.
  { apply Forall_cons_2; [|apply Forall_cons_2; [|apply Forall_nil_2]]; unfold write_ok, bytes_ok;
      (split_and!; [reflexivity|discriminate|unfold w_block, sample1, sample2; repeat (apply Forall_cons_2 || apply Forall_nil_2); split; (discriminate || reflexivity)
        |split; (discriminate || reflexivity)..]). }
  assert ((0 < length (image no_hash [sample1; sample2]) + 40)%nat /\
    Z.of_nat (length (image no_hash [sample1; sample2]) + 40) + 30 < 2 ^ 32) as [H2 H3] by (split; vm_compute; [lia|reflexivity]).
  destruct (vfile_restored no_hash 1 0 [sample1; sample2] 40 100 H1 H2 H3) as (f & E & Hp & Hd & Hs).
  exists f. split; [exact E|]. split; [exact Hp|exact Hs].
Defined.

End VFileLaws.
