(* ===== verification/VFileManager.v ===== *)
(** The value files of a region and the regions: vfile_manager.go and
    vfile_region_manager.go of src/storage/store. *)
From stdpp Require Import gmap.
From S2P Require Import Prelude Binary SSTIndex Checksum Block WalFile VFile VFileLaws.

Import Checksum VFile VFileLaws.

Module VFileManager.

(** [flushing] are the files whose flush was started by [flush] and has not run. *)
Record VFileManager := MkManager {
  filesMap : gmap Z ValueFile; maxFid : Z; writableLogOffset : Z; numEntriesWritten : Z;
  valueFileMaxSize : Z; valueFileMaxEntries : Z; m_lifeCycle : Z; flushing : list Z }.

Definition with_file (v : VFileManager) (no : Z) (f : ValueFile) : VFileManager :=
  MkManager (<[no := f]> (filesMap v)) (maxFid v) (writableLogOffset v) (numEntriesWritten v)
    (valueFileMaxSize v) (valueFileMaxEntries v) (m_lifeCycle v) (flushing v).

Definition createValueFile (v : VFileManager) : VFileManager :=
  let no := u32 (maxFid v + 1) in
  let vf := Open no (m_lifeCycle v) [] (Z.to_nat (2 * valueFileMaxSize v)) in
  MkManager (<[no := vf]> (filesMap v)) no 0 0 (valueFileMaxSize v) (valueFileMaxEntries v) (m_lifeCycle v) (flushing v).

(** A manager of an empty directory. *)
Definition NewVFileManager (maxSize maxEntries lc : Z) : VFileManager :=
  createValueFile (MkManager ∅ 0 0 0 maxSize maxEntries lc []).

Definition validateWriteSize (v : VFileManager) (dataSize : Z) : bool :=
  dataSize + writableLogOffset v <=? valueFileMaxSize v.

(** The flush of a file that [flush] starts, at the time it runs.  [Truncate] unmaps the
    file and maps it again, and the goroutines that copy into it take no lock: a flush
    that changes the mapping while copies are under way is a fault here. *)
Definition run_flush (v : VFileManager) (no : Z) : outcome VFileManager :=
  match filesMap v !! no with
  | None => Ok v
  | Some f =>
      if bool_decide (running f = []) || (Z.of_nat (length (Data f)) =? writableLogOffset v)
      then Ok (with_file v no (fst (Flush f (writableLogOffset v))))
      else Panic
  end.

Definition RunFlush (v : VFileManager) (i : nat) : outcome VFileManager :=
  match flushing v !! i with
  | None => Ok v
  | Some no =>
      let v := MkManager (filesMap v) (maxFid v) (writableLogOffset v) (numEntriesWritten v)
                 (valueFileMaxSize v) (valueFileMaxEntries v) (m_lifeCycle v) (delete i (flushing v)) in
      run_flush v no
  end.

(** [early] says whether the flush runs before the new file is made. *)
Definition flush (v : VFileManager) (no : Z) (early : bool) : outcome (VFileManager * Z) :=
  if (writableLogOffset v <=? valueFileMaxSize v) && (numEntriesWritten v <=? valueFileMaxEntries v) then Ok (v, maxFid v)
  else
    v ← (if early then run_flush v no
         else Ok (MkManager (filesMap v) (maxFid v) (writableLogOffset v) (numEntriesWritten v)
                    (valueFileMaxSize v) (valueFileMaxEntries v) (m_lifeCycle v) (flushing v ++ [no])));
    let v := createValueFile v in
    Ok (v, maxFid v).

Section WithHash.
Context (Sum64 : list Z -> Z).

(** The result is the block that goes into the SST file: the bytes of a pointer, or an error. *)
Definition WriteBlock (v : VFileManager) (key : list Z) (minTime maxTime : Z) (block : list Z) (early : bool) :
    VFileManager * outcome (list Z) :=
  let dataSize := u32 (Z.of_nat (VFileHeaderSize + length key + 4 + length block)) in
  match (if validateWriteSize v dataSize then Ok (v, maxFid v) else flush v (maxFid v) early) with
  | Panic => (v, Panic)
  | Err e => (v, Err e)
  | Ok (v, no) =>
  match filesMap v !! no with
  | None => (v, Panic)
  | Some f =>
      let '(f, r) := VFile.WriteBlock Sum64 f key minTime maxTime block in
      let v := with_file v no f in
      match r with
      | Ok fin =>
          let v := MkManager (filesMap v) (maxFid v) fin (numEntriesWritten v) (valueFileMaxSize v)
                     (valueFileMaxEntries v) (m_lifeCycle v) (flushing v) in
          match block with
          | [] => (v, Panic)
          | b0 :: _ =>
              let p := MkPtr minTime maxTime (u32 (fin - Z.of_nat (length block))) (fid f)
                         (u32 (Z.of_nat (length block))) 0 in
              let v := MkManager (filesMap v) (maxFid v) fin (u32 (numEntriesWritten v + 1)) (valueFileMaxSize v)
                         (valueFileMaxEntries v) (m_lifeCycle v) (flushing v) in
              (v, Ok (Block.WithPtrFlag b0 :: contents (ptr_AppendTo p (make_slice 0 ValuePtrSize ValuePtrSize))))
          end
      | Err e => (v, Err e)
      | Panic => (v, Panic)
      end
  end
  end.
End WithHash.

Definition not_found : string := "file id: not found".
Definition invalid_offset : string := "invalid read offset".

Definition getValueFile (v : VFileManager) (vp : ValuePtr) : outcome ValueFile :=
  match filesMap v !! p_FileNo vp with
  | None => Err not_found
  | Some f =>
      if (p_FileNo vp =? maxFid v) && (writableLogOffset v <=? u32 (p_Offset vp)) then Err invalid_offset else Ok f
  end.

(** A file that is not there has been collected: nothing is read, and that is no error. *)
Definition Read (v : VFileManager) (vp : ValuePtr) : outcome (list Z) :=
  match getValueFile v vp with
  | Ok f => readWithValPtr f vp
  | Err _ => Ok []
  | Panic => Panic
  end.

(** A step of a goroutine that writes. *)
Definition resume_in (v : VFileManager) (no : Z) (i : nat) : outcome VFileManager :=
  match filesMap v !! no with
  | None => Ok v
  | Some f => f ← resume f i; Ok (with_file v no f)
  end.

(** ** Regions *)

Abbreviation VFileRegionManager := (gmap Z VFileManager).

Definition no_region : string := "vfile not exist for lifeCycle".
Definition read_failed : string := "error while read vfile".

Definition GetVFileManager (r : VFileRegionManager) (lc : Z) : outcome VFileManager :=
  match r !! lc with Some vm => Ok vm | None => Err no_region end.

Fixpoint read_all (r : VFileRegionManager) (ptrs : list ValuePtr) : outcome (list (list Z)) :=
  match ptrs with
  | [] => Ok []
  | p :: ptrs =>
      b ← vm ← GetVFileManager r (p_LifeCycle p); Read vm p;
      bs ← read_all r ptrs;
      Ok (b :: bs)
  end.

(** The blocks are read in parallel; one that fails makes the whole read fail. *)
Definition ReadDataBlocks (r : VFileRegionManager) (block : list Z) : outcome (list (list Z)) :=
  is_ptr ← Block.IsPtrBlock block;
  if is_ptr : bool then
    ptrs ← DecodeValuePtrs (drop 1 block);
    match read_all r ptrs with
    | Err _ => Err read_failed
    | o => o
    end
  else Ok [block].

(** ** Runs

    A run writes blocks and lets goroutines of files make steps; the flush of a full file
    runs before the next file is made. *)
Section laws.
Context (Sum64 : list Z -> Z).

Inductive mop := Put (w : write) | Step (no : Z) (i : nat).

Fixpoint run (v : VFileManager) (ops : list mop) : outcome (VFileManager * list (list Z)) :=
  match ops with
  | [] => Ok (v, [])
  | Put w :: ops =>
      match WriteBlock Sum64 v (w_key w) (w_min w) (w_max w) (w_block w) true with
      | (v, r) => pb ← r; '(v, pbs) ← run v ops; Ok (v, pb :: pbs)
      end
  | Step no i :: ops => v ← resume_in v no i; run v ops
  end.

(** Whether a write flushes the current file. *)
Definition flushes (v : VFileManager) (w : write) : bool :=
  negb (validateWriteSize v (u32 (Z.of_nat (length (bytes_of Sum64 w))))) &&
  negb ((writableLogOffset v <=? valueFileMaxSize v) && (numEntriesWritten v <=? valueFileMaxEntries v)).

(** In this run no file is flushed before the copies into it are done. *)
Fixpoint flushes_settled (v : VFileManager) (ops : list mop) : Prop :=
  match ops with
  | [] => True
  | Put w :: ops =>
      (flushes v w = true -> forall f, filesMap v !! maxFid v = Some f -> running f = []) /\
      flushes_settled (fst (WriteBlock Sum64 v (w_key w) (w_min w) (w_max w) (w_block w) true)) ops
  | Step no i :: ops => match resume_in v no i with Ok v => flushes_settled v ops | _ => True end
  end.

Definition puts (ops : list mop) : list write := omap (fun o => match o with Put w => Some w | Step _ _ => None end) ops.

Definition idle (v : VFileManager) : Prop := forall no f, filesMap v !! no = Some f -> running f = [].

(** The file of each number holds the writes [G] says. *)
Definition file_ok (v : VFileManager) (no : Z) (f : ValueFile) (ws : list write) : Prop :=
  (exists l rest, inflight Sum64 f ws l rest) /\ fid f = no /\ 0 <= no <= maxFid v.

Record mgr_inv (v : VFileManager) (G : gmap Z (list write)) : Prop := {
  mi_files : forall no, option_Forall2 (file_ok v no) (filesMap v !! no) (G !! no);
  mi_cur : exists f ws, filesMap v !! maxFid v = Some f /\ G !! maxFid v = Some ws /\
    writableLogOffset v = Z.of_nat (length (image Sum64 ws)) /\ Z.of_nat (length (Data f)) = 2 * valueFileMaxSize v;
  mi_max : 0 < valueFileMaxSize v < 2 ^ 30;
  mi_fid : 1 <= maxFid v }.

(** Where a write went, and the block that stands for it. *)
Definition ptr_at (no e : Z) (w : write) : ValuePtr :=
  MkPtr (w_min w) (w_max w) (e - Z.of_nat (length (w_block w))) no (Z.of_nat (length (w_block w))) 0.

Definition placed (G : gmap Z (list write)) (pb : list Z) (w : write) : Prop :=
  exists no ws i e b0, G !! no = Some ws /\ ws !! i = Some w /\ ends Sum64 0 ws !! i = Some e /\
    head (w_block w) = Some b0 /\ pb = Block.WithPtrFlag b0 :: ptr_bytes (ptr_at no e w) /\ is_u32 no.

Definition grows (G G' : gmap Z (list write)) : Prop :=
  forall no ws, G !! no = Some ws -> exists ws', G' !! no = Some (ws ++ ws').

(** * Lemmas *)

Lemma files_grow_refl G : grows G G.
Proof. intros no ws H. exists []. by rewrite app_nil_r. Qed.

Lemma grows_trans G1 G2 G3 : grows G1 G2 -> grows G2 G3 -> grows G1 G3.
Proof.
  intros H1 H2 no ws H. destruct (H1 no ws H) as [ws1 E1]. destruct (H2 no _ E1) as [ws2 E2]. exists (ws1 ++ ws2). by rewrite app_assoc.
Qed.

Lemma ends_app o ws ws' : ends Sum64 o (ws ++ ws') = ends Sum64 o ws ++ ends Sum64 (o + Z.of_nat (length (image Sum64 ws))) ws'.
Proof.
  revert o. induction ws as [|w ws IH]; intros o; [cbn; by rewrite Z.add_0_r|]. cbn [app ends]. rewrite IH.
  change (image Sum64 (w :: ws)) with (bytes_of Sum64 w ++ image Sum64 ws). rewrite length_app. do 3 f_equal. lia.
Qed.

Lemma ends_length o ws : length (ends Sum64 o ws) = length ws.
Proof. revert o. induction ws as [|w ws IH]; intros o; [done|]. cbn. by rewrite IH. Qed.

Lemma placed_grows G G' pb w : grows G G' -> placed G pb w -> placed G' pb w.
Proof.
  intros HG (no & ws & i & e & b0 & H1 & H2 & H3 & H). destruct (HG no ws H1) as [ws' H1'].
  exists no, (ws ++ ws'), i, e, b0. split_and!; [done|by apply lookup_app_l_Some| |apply H..].
  rewrite ends_app. by apply lookup_app_l_Some.
Qed.

Lemma Truncate_inflight f ws l rest :
  inflight Sum64 f ws l rest -> (0 < length (image Sum64 ws))%nat -> 2 * Z.of_nat (length (image Sum64 ws)) < 2 ^ 32 ->
  inflight Sum64 (fst (Truncate f (pos f))) ws l [] /\ fid (fst (Truncate f (pos f))) = fid f.
Proof.
  intros H Hpos Hb. pose proof (image_le Sum64 _ _ _ _ H) as [Hp Hl]. pose proof (in_bound _ _ _ _ _ H). pose proof (in_size _ _ _ _ _ H).
  pose proof (settled_le l) as Hs. rewrite (regions_length Sum64 _ _ (in_progress _ _ _ _ _ H)) in Hs.
  unfold Truncate. destruct (Z.eqb_spec (Z.of_nat (length (Data f))) (pos f)) as [E|E]; cbn [fst].
  - split; [|done]. destruct rest; [done|]. rewrite Hp, Hl in E. cbn [length] in E. lia.
  - rewrite bool_decide_false by (intros E'; rewrite E' in Hl; cbn in Hl; lia). cbn [fst]. split; [|done].
    assert (WalFile.resize (Data f) (Z.to_nat (pos f)) = concat (region <$> l) ++ []) as Er.
    { unfold WalFile.resize. rewrite Hp, Nat2Z.id, (in_data _ _ _ _ _ H), <- (regions_length Sum64 _ _ (in_progress _ _ _ _ _ H)).
      rewrite take_app_length, length_app. by rewrite (proj2 (Nat.sub_0_le _ _)) by lia. }
    assert (u32 (pos f) = pos f) as Eu by (rewrite Hp; apply u32_small; lia).
    split; cbn [Data pos running size]; rewrite ?Er, ?Eu; try apply H; try done.
    + lia.
    + rewrite app_nil_r, (regions_length Sum64 _ _ (in_progress _ _ _ _ _ H)). lia.
Qed.

Lemma file_ok_le v v' no f ws : maxFid v <= maxFid v' -> file_ok v no f ws -> file_ok v' no f ws.
Proof. intros Hle (H1 & H2 & H3). split_and!; (done || lia). Qed.

(** One file is replaced by another that is in order. *)
Lemma files_insert v v' (G : gmap Z (list write)) no f ws :
  maxFid v <= maxFid v' -> (forall n, option_Forall2 (file_ok v n) (filesMap v !! n) (G !! n)) -> file_ok v' no f ws ->
  filesMap v' = <[no := f]> (filesMap v) ->
  forall n, option_Forall2 (file_ok v' n) (filesMap v' !! n) (<[no := ws]> G !! n).
Proof.
  intros Hle H Hf Hm n. rewrite Hm. destruct (decide (n = no)) as [->|Hne].
  - rewrite !lookup_insert_eq. by constructor.
  - rewrite !lookup_insert_ne by done. destruct (H n) as [f' ws' Hf'|]; constructor. by eapply file_ok_le.
Qed.

Lemma create_inv v (G : gmap Z (list write)) :
  (forall n, option_Forall2 (file_ok v n) (filesMap v !! n) (G !! n)) -> 0 <= maxFid v < 2 ^ 32 - 1 ->
  0 < valueFileMaxSize v < 2 ^ 30 ->
  mgr_inv (createValueFile v) (<[maxFid v + 1 := []]> G) /\ G !! (maxFid v + 1) = None /\ maxFid (createValueFile v) = maxFid v + 1.
Proof.
  intros H Hm Hmax. assert (u32 (maxFid v + 1) = maxFid v + 1) as Eu by (apply u32_small; lia).
  assert (inflight Sum64 (Open (maxFid v + 1) (m_lifeCycle v) [] (Z.to_nat (2 * valueFileMaxSize v))) [] []
    (replicate (Z.to_nat (2 * valueFileMaxSize v)) 0)) as Hnew by (apply new_inflight; lia).
  assert (fid (Open (maxFid v + 1) (m_lifeCycle v) [] (Z.to_nat (2 * valueFileMaxSize v))) = maxFid v + 1) as Hfid.
  { unfold Open. destruct (WalFile.OpenMmapFile _ _) as [d [|]]; [|done]. unfold clearEntryHeader. by destruct (_ || _). }
  set (vf := Open (maxFid v + 1) _ _ _) in *.
  assert (createValueFile v = MkManager (<[maxFid v + 1 := vf]> (filesMap v)) (maxFid v + 1) 0 0 (valueFileMaxSize v)
    (valueFileMaxEntries v) (m_lifeCycle v) (flushing v)) as -> by (unfold createValueFile; by rewrite Eu).
  set (v' := MkManager _ _ _ _ _ _ _ _). split_and!; [split| |done].
  - apply (files_insert v v' G (maxFid v + 1) vf []); [cbn; lia|done| |done]. split_and!; [by eauto|exact Hfid|lia|cbn; lia].
  - exists vf, []. cbn [v' filesMap maxFid writableLogOffset valueFileMaxSize]. rewrite !lookup_insert_eq. split_and!; [done|done|done|].
    pose proof (in_data _ _ _ _ _ Hnew) as E. cbn [fmap list_fmap concat app] in E. rewrite E, length_replicate. lia.
  - done.
  - cbn. lia.
  - destruct (H (maxFid v + 1)) as [f ws (_ & _ & Hf)|]; [lia|done].
Qed.

Lemma run_flush_files v G : mgr_inv v G -> 0 < writableLogOffset v ->
  (forall f, filesMap v !! maxFid v = Some f -> running f = []) ->
  exists f', run_flush v (maxFid v) = Ok (with_file v (maxFid v) f') /\
    forall n, option_Forall2 (file_ok v n) (filesMap (with_file v (maxFid v) f') !! n) (G !! n).
Proof.
  intros H Hpos Hidle. destruct (mi_cur _ _ H) as (f & ws & Hf & Hws & Hwo & HD). unfold run_flush, Flush. rewrite Hf.
  rewrite (bool_decide_true (running f = [])) by (by apply Hidle). cbn [orb].
  exists (fst (Truncate f (writableLogOffset v))). split; [done|].
  pose proof (mi_files _ _ H (maxFid v)) as Hok. rewrite Hf, Hws in Hok. inversion Hok as [? ? ((l & rest & Hin) & Hfid & Hno)|]; subst.
  destruct (image_le Sum64 _ _ _ _ Hin) as [Hp Hl]. pose proof (mi_max _ _ H) as Hm. rewrite Hwo, <- Hp.
  destruct (Truncate_inflight f ws l rest Hin) as [Hin' Hfid']; [lia|lia|].
  intros n. pose proof (files_insert v v G (maxFid v) (fst (Truncate f (pos f))) ws) as Hins.
  cbn [with_file filesMap]. destruct (decide (n = maxFid v)) as [->|Hne].
  - rewrite lookup_insert_eq, Hws. constructor. split_and!; [by eauto|by rewrite Hfid'|lia|lia].
  - rewrite lookup_insert_ne by done. apply (mi_files _ _ H).
Qed.

(** Before the write: the current file has room, or a new one is made. *)
Lemma prepare v G n :
  mgr_inv v G -> maxFid v < 2 ^ 32 - 1 -> 0 <= n <= valueFileMaxSize v ->
  (negb (validateWriteSize v n) &&
    negb ((writableLogOffset v <=? valueFileMaxSize v) && (numEntriesWritten v <=? valueFileMaxEntries v)) = true ->
    forall f, filesMap v !! maxFid v = Some f -> running f = []) ->
  exists v1 G1, (if validateWriteSize v n then Ok (v, maxFid v) else flush v (maxFid v) true) = Ok (v1, maxFid v1) /\
    mgr_inv v1 G1 /\ grows G G1 /\ maxFid v <= maxFid v1 <= maxFid v + 1 /\ writableLogOffset v1 + n <= 2 * valueFileMaxSize v1 /\
    valueFileMaxSize v1 = valueFileMaxSize v.
Proof.
  intros H Hfid Hn. unfold validateWriteSize. intros Hidle. destruct (Z.leb_spec (n + writableLogOffset v) (valueFileMaxSize v)) as [Hle|Hgt].
  - exists v, G. split_and!; [done|done|apply files_grow_refl|lia|lia|lia|done].
  - unfold flush. destruct ((writableLogOffset v <=? valueFileMaxSize v) && _) eqn:Ec.
    + apply andb_prop in Ec as [Ec _]. exists v, G. split_and!; [done|done|apply files_grow_refl|lia|lia|lia|done].
    + destruct (run_flush_files v G H) as (f' & -> & Hfiles); [lia|by apply Hidle|]. cbn [mbind outcome_bind].
      destruct (create_inv (with_file v (maxFid v) f') G) as (Hinv & Hnone & Hmf); cbn [with_file maxFid valueFileMaxSize] in *;
        [done|pose proof (mi_fid _ _ H); lia|apply H|].
      eexists _, _. split; [reflexivity|]. split; [exact Hinv|]. cbn [with_file maxFid] in Hmf. rewrite Hmf. split_and!; [|lia|lia|cbn; lia|done].
      intros no ws Hno. exists []. rewrite app_nil_r, lookup_insert_ne; [done|]. intros <-. congruence.
Qed.

Lemma write_file_fid f w f' r : VFile.WriteBlock Sum64 f (w_key w) (w_min w) (w_max w) (w_block w) = (f', Ok r) ->
  fid f' = fid f /\ length (Data f') = length (Data f) \/ Z.of_nat (length (Data f)) < r.
Proof.
  unfold VFile.WriteBlock. set (np := u32 _). cbn [Data]. destruct (Z.leb_spec (Z.of_nat (length (Data f))) np) as [Hle|Hgt].
  - unfold Truncate. cbn [Data]. destruct (Z.eqb_spec (Z.of_nat (length (Data f))) np) as [->|Hne].
    + intros E. injection E as <- <-. by left.
    + destruct (bool_decide _); [intros E; discriminate E|]. destruct (np =? 0); intros E; [discriminate E|]. injection E as _ <-. right. lia.
  - intros E. injection E as <- <-. by left.
Qed.

(** The bytes handed back are a pointer to where the block went. *)
Lemma put_ok v G w b0 :
  mgr_inv v G -> maxFid v < 2 ^ 32 - 1 -> Z.of_nat (length (bytes_of Sum64 w)) <= valueFileMaxSize v -> head (w_block w) = Some b0 ->
  (flushes v w = true -> forall f, filesMap v !! maxFid v = Some f -> running f = []) ->
  exists v' G' pb, WriteBlock Sum64 v (w_key w) (w_min w) (w_max w) (w_block w) true = (v', Ok pb) /\
    mgr_inv v' G' /\ grows G G' /\ placed G' pb w /\ maxFid v' <= maxFid v + 1 /\ valueFileMaxSize v' = valueFileMaxSize v.
Proof.
  intros H Hfid Hn Hb0 Hidle. pose proof (mi_max _ _ H) as Hm. unfold WriteBlock.
  assert (u32 (Z.of_nat (VFileHeaderSize + length (w_key w) + 4 + length (w_block w))) = Z.of_nat (length (bytes_of Sum64 w))) as ->
    by (rewrite length_bytes_of in *; rewrite u32_small; lia).
  destruct (prepare v G (Z.of_nat (length (bytes_of Sum64 w)))) as (v1 & G1 & -> & H1 & HG & Hf1 & Hroom & Hmx); [done|done|lia| |].
  { unfold flushes in Hidle. rewrite u32_small in Hidle by lia. exact Hidle. }
  destruct (mi_cur _ _ H1) as (f & ws & Hf & Hws & Hwo & HD). rewrite Hf.
  pose proof (mi_files _ _ H1 (maxFid v1)) as Hok. rewrite Hf, Hws in Hok.
  inversion Hok as [? ? ((l & rest & Hin) & Hfd & Hno)|]; subst. destruct (image_le Sum64 _ _ _ _ Hin) as [Hp Hl].
  destruct (write_step Sum64 f ws l rest w Hin) as (f' & E & Hin'); [lia|]. rewrite E.
  destruct (write_file_fid f w f' _ E) as [[Hfd' HD']|Hbad]; [|lia].
  pose proof Hb0 as Hhd. revert Hb0. destruct (w_block w) as [|b bl] eqn:Eb; [intros Hb0; discriminate Hb0|]. intros Hb0.
  assert (b = b0) as -> by (cbn in Hb0; congruence). rewrite <- Eb in *. clear Hb0 Eb bl.
  set (e := Z.of_nat (length (image Sum64 ws) + length (bytes_of Sum64 w))).
  pose proof (length_bytes_of Sum64 w) as Hlb. pose proof (mi_fid _ _ H) as Hge.
  rewrite Hfd', (u32_small (e - Z.of_nat (length (w_block w)))), (u32_small (Z.of_nat (length (w_block w)))), Hfd by (unfold e; lia). set (p := MkPtr _ _ _ _ _ 0). set (v' := MkManager _ _ _ _ _ _ _ _).
  assert (contents (ptr_AppendTo p (make_slice 0 ValuePtrSize ValuePtrSize)) = ptr_bytes p) as Ep.
  { destruct (ptr_AppendTo_bytes p (make_slice 0 ValuePtrSize ValuePtrSize)) as (r & -> & Hr); [vm_compute; lia|].
    assert (r = []) as -> by (apply Hr; vm_compute; lia). by rewrite app_nil_r. }
  exists v', (<[maxFid v1 := ws ++ [w]]> G1), (Block.WithPtrFlag b0 :: ptr_bytes p). rewrite Ep. split; [done|].
  assert (grows G1 (<[maxFid v1 := ws ++ [w]]> G1)) as HG1.
  { intros no ws' Hno'. destruct (decide (no = maxFid v1)) as [->|Hne].
    - rewrite lookup_insert_eq. rewrite Hws in Hno'. injection Hno' as <-. by exists [w].
    - rewrite lookup_insert_ne by done. exists []. by rewrite app_nil_r. }
  split_and!; [|by eapply grows_trans| |cbn; lia|done].
  - split.
    + apply (files_insert v1 v' G1 (maxFid v1) f' (ws ++ [w])); [cbn; lia|apply H1| |done].
      split_and!; [by eauto|by rewrite Hfd'|lia|cbn; lia].
    + exists f', (ws ++ [w]). cbn [v' with_file filesMap maxFid writableLogOffset valueFileMaxSize]. rewrite !lookup_insert_eq.
      split_and!; [done|done| |by rewrite HD'].
      unfold e. rewrite image_app, length_app. change (image Sum64 [w]) with (bytes_of Sum64 w ++ []). by rewrite app_nil_r.
    + apply H1.
    + cbn. lia.
  - exists (maxFid v1), (ws ++ [w]), (length ws), e, b0. rewrite lookup_insert_eq. split_and!; [done|by apply list_lookup_middle| |done|done|unfold is_u32; lia].
    rewrite ends_app, lookup_app_r by (by rewrite ends_length). rewrite ends_length, Nat.sub_diag. cbn [ends lookup list_lookup]. unfold e. f_equal. lia.
Qed.

Lemma step_ok v G no i : mgr_inv v G -> exists v', resume_in v no i = Ok v' /\ mgr_inv v' G /\
  maxFid v' = maxFid v /\ valueFileMaxSize v' = valueFileMaxSize v.
Proof.
  intros H. unfold resume_in. destruct (filesMap v !! no) as [f|] eqn:Hf; [|by exists v].
  pose proof (mi_files _ _ H no) as Hok. rewrite Hf in Hok. destruct (G !! no) as [ws|] eqn:Hws; [|inversion Hok].
  inversion Hok as [? ? ((l & rest & Hin) & Hfd & Hno)|]; subst.
  destruct (resume_step Sum64 f ws l rest i Hin) as (f' & l' & -> & Hin' & Hfd' & _). cbn [mbind outcome_bind].
  eexists. split; [reflexivity|]. split; [|done]. split.
  - pose proof (files_insert v (with_file v (fid f) f') G (fid f) f' ws) as Hins. intros n.
    specialize (Hins (Z.le_refl _) (mi_files _ _ H)). rewrite (insert_id G) in Hins by done. apply Hins; [|done].
    split_and!; [by eauto|done|lia|cbn; lia].
  - destruct (mi_cur _ _ H) as (fc & wc & Hc1 & Hc2 & Hc3 & Hc4). cbn [with_file filesMap maxFid writableLogOffset valueFileMaxSize].
    destruct (decide (maxFid v = fid f)) as [E|Hne].
    + exists f', wc. rewrite E, lookup_insert_eq. rewrite E in Hc1, Hc2. split_and!; [done|done|done|].
      assert (fc = f) as -> by congruence. assert (wc = ws) as -> by congruence.
      destruct (image_le Sum64 _ _ _ _ Hin) as [_ L1]. destruct (image_le Sum64 _ _ _ _ Hin') as [_ L2]. lia.
    + exists fc, wc. by rewrite lookup_insert_ne by done.
  - apply H.
  - apply (mi_fid _ _ H).
Qed.

Definition put_fits (max : Z) (w : write) : Prop :=
  Z.of_nat (length (bytes_of Sum64 w)) <= max /\ w_block w <> [] /\ is_i64 (w_min w) /\ is_i64 (w_max w).

Lemma run_ok ops : forall v G,
  mgr_inv v G -> maxFid v + Z.of_nat (length ops) < 2 ^ 32 -> Forall (put_fits (valueFileMaxSize v)) (puts ops) ->
  flushes_settled v ops ->
  exists v' G' pbs, run v ops = Ok (v', pbs) /\ mgr_inv v' G' /\ grows G G' /\ Forall2 (placed G') pbs (puts ops).
Proof.
  induction ops as [|[w|no i] ops IH]; intros v G H Hb Hf Hq.
  - exists v, G, []. split_and!; [done|done|apply files_grow_refl|constructor].
  - change (puts (Put w :: ops)) with (w :: puts ops) in *. apply Forall_cons in Hf as [(Hw & Hne & _) Hf]. cbn [length] in Hb.
    destruct (w_block w) as [|b0 bl] eqn:Eb; [done|]. pose proof (f_equal head Eb) as Hh. cbn [head] in Hh. clear Eb Hne.
    cbn [flushes_settled] in Hq. destruct Hq as [Hq1 Hq2].
    destruct (put_ok v G w b0 H) as (v1 & G1 & pb & E & H1 & HG & Hp & Hm & Hx); [lia|done|done|done|]. cbn [run].
    rewrite E in *. cbn [mbind outcome_bind fst] in *.
    destruct (IH v1 G1 H1) as (v2 & G2 & pbs & E2 & H2 & HG2 & Hps); [lia|by rewrite Hx|done|]. rewrite E2. cbn [mbind outcome_bind].
    exists v2, G2, (pb :: pbs). split_and!; [done|done|by eapply grows_trans|]. constructor; [by eapply placed_grows|done].
  - change (puts (Step no i :: ops)) with (puts ops) in *. cbn [length] in Hb. cbn [run].
    destruct (step_ok v G no i H) as (v1 & E & H1 & Hm & Hx). cbn [flushes_settled] in Hq. rewrite E in *. cbn [mbind outcome_bind].
    destruct (IH v1 G H1) as (v2 & G2 & pbs & E2 & H2 & HG2 & Hps); [lia|by rewrite Hx|done|]. by exists v2, G2, pbs.
Qed.

Lemma IsPtrBlock_flag b0 l : Block.IsPtrBlock (Block.WithPtrFlag b0 :: l) = Ok true.
Proof.
  unfold Block.IsPtrBlock, Block.WithPtrFlag, index. cbn [lookup list_lookup mbind outcome_bind]. f_equal.
  rewrite Z.land_lor_distr_l, Z.land_diag. apply negb_true_iff, Z.eqb_neq. intros E. apply Z.lor_eq_0_iff in E as [_ E]. discriminate E.
Qed.

Lemma ptr_at_ok v G no ws i e w :
  mgr_inv v G -> is_u32 no -> G !! no = Some ws -> ws !! i = Some w -> ends Sum64 0 ws !! i = Some e -> is_i64 (w_min w) -> is_i64 (w_max w) ->
  ptr_ok (ptr_at no e w) /\ e <= Z.of_nat (length (image Sum64 ws)).
Proof.
  intros H Hno Hws Hw He H1 H2. destruct (ends_lookup Sum64 ws 0 i w e Hw He) as (ws1 & ws2 & -> & ->).
  pose proof (mi_files _ _ H no) as Hok. rewrite Hws in Hok. inversion Hok as [f ? ((l & rest & Hin) & _)|]; subst.
  destruct (image_le Sum64 _ _ _ _ Hin) as [_ Hl]. pose proof (in_bound _ _ _ _ _ Hin). pose proof (in_size _ _ _ _ _ Hin).
  rewrite image_app, length_app in *. change (image Sum64 (w :: ws2)) with (bytes_of Sum64 w ++ image Sum64 ws2) in *. rewrite length_app in *.
  pose proof (length_bytes_of Sum64 w). split; [|lia]. unfold ptr_ok, ptr_at, is_i64, is_u32 in *.
  cbn [p_MinTime p_MaxTime p_Offset p_FileNo p_Size p_LifeCycle]. lia.
Qed.

(** A block that was put, and settled, is read through its pointer. *)
Lemma read_placed v G pb w :
  mgr_inv v G -> idle v -> placed G pb w -> is_i64 (w_min w) -> is_i64 (w_max w) ->
  exists p, DecodeValuePtrs (drop 1 pb) = Ok [p] /\ p_LifeCycle p = 0 /\ Block.IsPtrBlock pb = Ok true /\ Read v p = Ok (w_block w).
Proof.
  intros H Hidle (no & ws & i & e & b0 & Hws & Hw & He & Hb0 & -> & Hno) H1 H2.
  destruct (ptr_at_ok v G no ws i e w H Hno Hws Hw He H1 H2) as [Hp Hle]. exists (ptr_at no e w).
  split_and!; [|done|apply IsPtrBlock_flag|].
  - change (drop 1 (Block.WithPtrFlag b0 :: ptr_bytes (ptr_at no e w))) with (ptr_bytes (ptr_at no e w)). unfold DecodeValuePtrs. rewrite length_ptr_bytes, bool_decide_false by lia. change (ValuePtrSize / ValuePtrSize)%nat with 1%nat.
    pose proof (decode_loop_ptrs [ptr_at no e w] []) as E. cbn [length fmap list_fmap concat] in E. rewrite !app_nil_r in E. apply E. by constructor.
  - pose proof (mi_files _ _ H no) as Hok. rewrite Hws in Hok. inversion Hok as [f ? ((l & rest & Hin) & Hfd & Hn) Hf|]; subst. symmetry in Hf.
    destruct (inflight_settled Sum64 _ _ _ _ Hin (Hidle _ _ Hf)) as [HD HS]. pose proof (in_bound _ _ _ _ _ Hin). pose proof (in_size _ _ _ _ _ Hin).
    assert (w_block w <> []) as Hne by (intros E; by rewrite E in Hb0). assert (0 < length (w_block w))%nat by (destruct (w_block w); [done|cbn; lia]).
    unfold Read, getValueFile. cbn [ptr_at p_FileNo p_Offset]. rewrite Hf.
    destruct ((fid f =? maxFid v) && _) eqn:Ec.
    + exfalso. apply andb_prop in Ec as [E1 E2]. apply Z.eqb_eq in E1. apply Z.leb_le in E2.
      destruct (mi_cur _ _ H) as (fc & wc & Hc1 & Hc2 & Hc3 & Hc4). rewrite <- E1 in Hc2. assert (wc = ws) as -> by congruence.
      destruct Hp as (_ & _ & Ho & _). destruct (image_le Sum64 _ _ _ _ Hin) as [_ Hl].
      destruct (ends_lookup Sum64 ws 0 i w e Hw He) as (ws1 & ws2 & _ & Ee). pose proof (length_bytes_of Sum64 w).
      rewrite u32_small in E2 by lia. lia.
    + pose proof (read_settled Sum64 f ws rest i w e HD HS) as Hr. unfold readWithValPtr, ptr_to in Hr. cbn [p_Offset p_Size] in Hr.
      apply Hr; [lia|done..].
Qed.

Lemma new_run maxSize maxEntries lc ops :
  0 < maxSize < 2 ^ 30 -> Z.of_nat (length ops) < 2 ^ 31 -> Forall (put_fits maxSize) (puts ops) ->
  flushes_settled (NewVFileManager maxSize maxEntries lc) ops ->
  exists v G pbs, run (NewVFileManager maxSize maxEntries lc) ops = Ok (v, pbs) /\ mgr_inv v G /\ Forall2 (placed G) pbs (puts ops).
Proof.
  intros Hmax Hlen Hf Hq.
  destruct (create_inv (MkManager ∅ 0 0 0 maxSize maxEntries lc []) ∅) as (H & _ & Hm); cbn [maxFid valueFileMaxSize] in *;
    [intros n; cbn [filesMap]; rewrite !lookup_empty; constructor|lia|done|].
  destruct (run_ok ops _ _ H) as (v & G & pbs & E & Hinv & _ & Hps); [cbn [maxFid] in Hm; rewrite Hm; lia|done|exact Hq|]. eauto 10.
Qed.

(** What the region manager does with the block of a write. *)
Lemma read_block v G pbs ops maxSize i w pb :
  mgr_inv v G -> idle v -> Forall2 (placed G) pbs (puts ops) -> Forall (put_fits maxSize) (puts ops) ->
  puts ops !! i = Some w -> pbs !! i = Some pb ->
  exists p, Read v p = Ok (w_block w) /\ forall r,
    ReadDataBlocks r pb = match r !! 0 with
                          | Some v0 => match Read v0 p with Ok b => Ok [b] | Err _ => Err read_failed | Panic => Panic end
                          | None => Err read_failed
                          end.
Proof.
  intros Hinv Hidle Hps Hf Hw Hpb. rewrite Forall2_lookup in Hps. specialize (Hps i). rewrite Hw, Hpb in Hps. inversion Hps as [? ? Hp|]; subst.
  rewrite Forall_lookup in Hf. destruct (Hf i w Hw) as (_ & _ & H1 & H2).
  destruct (read_placed v G pb w Hinv Hidle Hp H1 H2) as (p & Ed & Elc & Eptr & Eread). exists p. split; [exact Eread|]. intros r.
  unfold ReadDataBlocks. rewrite Eptr. cbn [mbind outcome_bind]. rewrite Ed. cbn [mbind outcome_bind read_all].
  unfold GetVFileManager. rewrite Elc. destruct (r !! 0) as [v0|]; cbn [mbind outcome_bind]; [|done]. by destruct (Read v0 p).
Qed.

(** C19: the value files of region 0.  Whatever blocks that fit are written and in whatever
    order the goroutines run, when each file is flushed before the next one is made and
    after the copies into it are done ([flushes_settled]: the flush unmaps the file under
    them), every write succeeds and gives a pointer, and once no goroutine is left the
    region manager that has the files as its region 0, which every pointer names, reads
    every block back through its pointer, from the full files and from the current one. *)
Theorem vfm_reads maxSize maxEntries lc ops :
  0 < maxSize < 2 ^ 30 -> Z.of_nat (length ops) < 2 ^ 31 -> Forall (put_fits maxSize) (puts ops) ->
  flushes_settled (NewVFileManager maxSize maxEntries lc) ops ->
  exists v pbs, run (NewVFileManager maxSize maxEntries lc) ops = Ok (v, pbs) /\ length pbs = length (puts ops) /\
    (idle v -> forall r i w pb, r !! 0 = Some v -> puts ops !! i = Some w -> pbs !! i = Some pb ->
       ReadDataBlocks r pb = Ok [w_block w]).
Proof.
  intros Hmax Hlen Hf Hq. destruct (new_run maxSize maxEntries lc ops Hmax Hlen Hf Hq) as (v & G & pbs & E & Hinv & Hps).
  exists v, pbs. split; [exact E|]. split; [by eapply Forall2_length|]. intros Hidle r i w pb Hr Hw Hpb.
  destruct (read_block v G pbs ops maxSize i w pb Hinv Hidle Hps Hf Hw Hpb) as (p & Ep & Hread). by rewrite Hread, Hr, Ep.
Qed.

(** every pointer says region 0.  The manager does not put its own life cycle into the
    pointers it gives out, so the region manager looks for the block of any region among
    the files of region 0: where there is no such region the read fails, though the
    manager that wrote the block would read it. *)
Theorem vfm_region maxSize maxEntries lc ops :
  0 < maxSize < 2 ^ 30 -> Z.of_nat (length ops) < 2 ^ 31 -> Forall (put_fits maxSize) (puts ops) -> lc <> 0 ->
  flushes_settled (NewVFileManager maxSize maxEntries lc) ops ->
  exists v pbs, run (NewVFileManager maxSize maxEntries lc) ops = Ok (v, pbs) /\
    (idle v -> forall i w pb, puts ops !! i = Some w -> pbs !! i = Some pb ->
       ReadDataBlocks {[lc := v]} pb = Err read_failed /\
       exists p, Read v p = Ok (w_block w) /\
         forall v0 b, Read v0 p = Ok b -> ReadDataBlocks (<[0 := v0]> {[lc := v]}) pb = Ok [b]).
Proof.
  intros Hmax Hlen Hf Hlc Hq. destruct (new_run maxSize maxEntries lc ops Hmax Hlen Hf Hq) as (v & G & pbs & E & Hinv & Hps).
  exists v, pbs. split; [exact E|]. intros Hidle i w pb Hw Hpb.
  destruct (read_block v G pbs ops maxSize i w pb Hinv Hidle Hps Hf Hw Hpb) as (p & Ep & Hr). split; [by rewrite Hr, lookup_singleton_ne|].
  exists p. split; [exact Ep|]. intros v0 b Hb. by rewrite Hr, lookup_insert_eq, Hb.
Qed.

(** a flush that runs late loses the file.  The goroutine of [flush] asks for the position
    of the current file when it runs, not for that of the file it flushes: once the next
    file has its first block, the full file is cut at the end of that block, and what
    was written beyond can no longer be read. *)
Theorem vfm_late_flush v f w :
  filesMap v !! maxFid v = Some f -> running f = [] -> 0 <= maxFid v < 2 ^ 32 - 1 -> flushing v = [] ->
  0 < valueFileMaxSize v < 2 ^ 30 -> valueFileMaxSize v < writableLogOffset v -> put_fits (valueFileMaxSize v) w ->
  (length (bytes_of Sum64 w) < length (Data f))%nat ->
  exists v' pb, WriteBlock Sum64 v (w_key w) (w_min w) (w_max w) (w_block w) false = (v', Ok pb) /\ flushing v' = [maxFid v] /\
    forall p, p_FileNo p = maxFid v -> is_i64 (p_Offset p + p_Size p) -> Z.of_nat (length (bytes_of Sum64 w)) < p_Offset p + p_Size p ->
      (v'' ← RunFlush v' 0; Read v'' p) = Err EOF.
Proof.
  intros Hf Hrun Hno Hfl Hmax Hwo (Hw & Hne & _) HD. unfold WriteBlock, validateWriteSize, flush.
  assert (u32 (Z.of_nat (VFileHeaderSize + length (w_key w) + 4 + length (w_block w))) = Z.of_nat (length (bytes_of Sum64 w))) as ->
    by (rewrite length_bytes_of in *; rewrite u32_small; lia).
  rewrite (proj2 (Z.leb_gt _ _)), (proj2 (Z.leb_gt (writableLogOffset v) _)) by lia. cbn [andb].
  rewrite Hfl. cbn [mbind outcome_bind]. unfold createValueFile. cbn [app maxFid filesMap m_lifeCycle valueFileMaxSize valueFileMaxEntries flushing].
  rewrite (u32_small (maxFid v + 1)), lookup_insert_eq by lia.
  destruct (write_step Sum64 (Open (maxFid v + 1) (m_lifeCycle v) [] (Z.to_nat (2 * valueFileMaxSize v))) [] []
    (replicate (Z.to_nat (2 * valueFileMaxSize v)) 0) w) as (f' & E & _); [apply new_inflight; lia|rewrite length_replicate; lia|].
  rewrite E. destruct (w_block w) as [|b0 bl] eqn:Eb; [done|]. rewrite <- Eb in *. clear Eb bl Hne.
  eexists _, _. split; [reflexivity|]. split; [done|]. intros p Hp Hi Hlt.
  unfold RunFlush. cbn [flushing lookup list_lookup delete list_delete filesMap maxFid writableLogOffset with_file].
  unfold run_flush, Flush. cbn [filesMap writableLogOffset]. rewrite !lookup_insert_ne, Hf by lia.
  rewrite bool_decide_true by done. cbn [orb mbind outcome_bind].
  unfold Read, getValueFile, with_file. cbn [filesMap maxFid]. rewrite Hp, lookup_insert_eq, (proj2 (Z.eqb_neq (maxFid v) _)) by lia. cbn [andb].
  unfold readWithValPtr. rewrite i64_small by done. change (image Sum64 []) with (@nil Z). cbn [length].
  unfold Truncate. rewrite (proj2 (Z.eqb_neq (Z.of_nat (length (Data f))) _)) by lia. rewrite bool_decide_false by (intros EE; rewrite EE in HD; cbn in HD; lia). cbn [fst size].
  rewrite u32_small by lia. rewrite (proj2 (Z.ltb_lt (Z.of_nat (0 + _)) _)) by lia. by rewrite !orb_true_r.
Qed.

End laws.

(** ** Witnesses *)

(** Two blocks, each in a file of its own, and their goroutines. *)
Definition sample_ops : list mop :=
  [Put sample1] ++ replicate 5 (Step 1 0) ++ [Put sample2] ++ replicate 5 (Step 2 0).

(** The same, but the second file is made while the block is copied into the first. *)
Definition hasty_ops : list mop := [Put sample1; Step 1 0; Put sample2].

Lemma sample_fits : Forall (put_fits no_hash 60) (puts sample_ops).
Proof.
  apply Forall_cons_2; [|apply Forall_cons_2; [|apply Forall_nil_2]];
    (split_and!; [vm_compute; discriminate|discriminate|split; (discriminate || reflexivity)..]).
Qed.

Lemma sample_idle lc v pbs : run no_hash (NewVFileManager 60 0 lc) sample_ops = Ok (v, pbs) -> idle v.
Proof.
  intros E no f Hf. apply elem_of_map_to_list in Hf. revert no f Hf.
  assert (Forall (fun nf => running (snd nf) = []) (map_to_list (filesMap v))) as H.
  { assert (match run no_hash (NewVFileManager 60 0 lc) sample_ops with
            | Ok (v, _) => Forall (fun nf => running (snd nf) = []) (map_to_list (filesMap v)) | _ => False end) as H
      by (vm_compute; repeat constructor).
    rewrite E in H. exact H. }
  intros no f Hf. rewrite Forall_forall in H. apply (H _ Hf).
Qed.

Lemma sample_length lc v pbs : run no_hash (NewVFileManager 60 0 lc) sample_ops = Ok (v, pbs) -> exists pb1 pb2, pbs = [pb1; pb2].
Proof.
  intros E. assert (match run no_hash (NewVFileManager 60 0 lc) sample_ops with Ok (_, pbs) => length pbs = 2%nat | _ => False end) as H
    by (vm_compute; reflexivity).
  rewrite E in H. destruct pbs as [|pb1 [|pb2 [|pb3 pbs]]]; try discriminate H. eauto.
Qed.

Lemma sample_settled lc : lc = 0 \/ lc = 3 -> flushes_settled no_hash (NewVFileManager 60 0 lc) sample_ops.
Proof.
  intros Hlc.
  destruct Hlc as [-> | ->]; vm_compute; split_and!; try done; intros _ f [= <-]; done.
Qed.

(** A flush while a copy is under way is a fault. *)
Example hasty_flush : run no_hash (NewVFileManager 60 0 0) hasty_ops = Panic.
Proof. vm_compute. reflexivity. Qed.

Lemma vfm_reads_witness :
  exists v pb1 pb2, run no_hash (NewVFileManager 60 0 0) sample_ops = Ok (v, [pb1; pb2]) /\
    ReadDataBlocks {[0 := v]} pb1 = Ok [[1; 2; 3]] /\ ReadDataBlocks {[0 := v]} pb2 = Ok [[4; 5; 6; 7]].
Proof.
  assert (0 < 60 < 2 ^ 30 /\ Z.of_nat (length sample_ops) < 2 ^ 31) as [H1 H2] by (split; [lia|vm_compute; reflexivity]).
  destruct (vfm_reads no_hash 60 0 0 sample_ops H1 H2 sample_fits (sample_settled 0 ltac:(by left))) as (v & pbs & E & _ & H). destruct (sample_length _ _ _ E) as (pb1 & pb2 & ->).
  specialize (H (sample_idle _ _ _ E) {[0 := v]}).
  exists v, pb1, pb2. split; [exact E|]. split.
  - apply (H 0%nat sample1 pb1); [apply lookup_singleton_eq|reflexivity|reflexivity].
  - apply (H 1%nat sample2 pb2); [apply lookup_singleton_eq|reflexivity|reflexivity].
Defined.

Lemma vfm_region_witness :
  exists v pb1 pb2, run no_hash (NewVFileManager 60 0 3) sample_ops = Ok (v, [pb1; pb2]) /\
    ReadDataBlocks {[3 := v]} pb1 = Err read_failed.
Proof.
  assert (0 < 60 < 2 ^ 30 /\ Z.of_nat (length sample_ops) < 2 ^ 31 /\ 3 <> 0) as (H1 & H2 & H3) by (split_and!; [lia|lia|vm_compute; reflexivity|lia]).
  destruct (vfm_region no_hash 60 0 3 sample_ops H1 H2 sample_fits H3 (sample_settled 3 ltac:(by right))) as (v & pbs & E & H). destruct (sample_length _ _ _ E) as (pb1 & pb2 & ->).
  exists v, pb1, pb2. split; [exact E|]. apply (H (sample_idle _ _ _ E) 0%nat sample1 pb1); reflexivity.
Defined.

(** A full file of which every byte is read before the flush, and none after. *)
Definition full_file : ValueFile := MkFile 1 200 200 0 (replicate 200 9) [].
Definition full_manager : VFileManager := MkManager {[1 := full_file]} 1 200 1 60 10 0 [].
Definition last_bytes : ValuePtr := MkPtr 0 0 190 1 10 0.

Lemma vfm_late_flush_witness :
  readWithValPtr full_file last_bytes = Ok (replicate 10 9) /\
  exists v pb, WriteBlock no_hash full_manager (w_key sample1) (w_min sample1) (w_max sample1) (w_block sample1) false = (v, Ok pb) /\
    (v' ← RunFlush v 0; Read v' last_bytes) = Err EOF.
Proof.
  split; [vm_compute; reflexivity|].
  assert (put_fits no_hash (valueFileMaxSize full_manager) sample1) as Hfits by (apply (Forall_inv sample_fits)).
  destruct (vfm_late_flush no_hash full_manager full_file sample1) as (v & pb & E & _ & H);
    [reflexivity|reflexivity|cbn; lia|reflexivity|cbn; lia|cbn; lia|exact Hfits|vm_compute; lia|].
  exists v, pb. split; [exact E|]. apply H; [reflexivity|split; (discriminate || reflexivity)|vm_compute; reflexivity].
Defined.

End VFileManager.
