(* ===== verification/SSTWriter.v ===== *)
(** The writer of data files (SST files): the second half of src/storage/store/sst_writer.go,
    over an interface to the block codec. *)
From stdpp Require Import gmap sorting.
From S2P Require Import Prelude Binary Checksum StringCodec Codec Timestamp Integer Boolean Values Block Bytes Util SSTIndex IndirectIndex IndexLaws.
Import Values Util IndirectIndex IndexLaws SSTIndex.

(** * The codec of blocks

    What the files need of src/storage/codec: [EncodeValues] and [DecodeBlock], which
    share a state (the pools), and that they are inverse on the lists of values that
    can be encoded. *)
Class BlockCodec (St : Type) := {
  bc_encode : list Value -> St -> outcome (list Z * St);
  bc_decode : list Z -> St -> outcome (list Value * option string * St) }.

Class BlockCodecLaws (St : Type) `{BlockCodec St} := {
  bc_ok : St -> Prop;
  bc_encodable : list Value -> Prop;
  bc_roundtrip st vs : bc_ok st -> bc_encodable vs -> exists b st',
    bc_encode vs st = Ok (b, st') /\ bc_ok st' /\ Block.shaped b /\
    forall st2, bc_ok st2 -> exists st3, bc_decode b st2 = Ok (vs, None, st3) /\ bc_ok st3;
  bc_encodable_ne vs : bc_encodable vs -> vs <> [];
  bc_encodable_times vs : bc_encodable vs -> Forall (fun v => is_i64 (UnixNano v)) vs }.

(** The pools of [Block] are such a codec. *)
Section pools.
Context {FE FD : Type} {FloatE : Codec.ValueEncoder FE Z} {FloatD : Codec.ValueDecoder FD Z}.
Context (NewFloatEncoder : FE) (NewFloatDecoder : FD) (sn : StringCodec.snappy).

#[local] Instance pools_codec : BlockCodec (Block.pools (FE := FE) (FD := FD)) := {
  bc_encode vs ps := '(s, ps) ← Block.EncodeValues NewFloatEncoder sn vs nil_slice ps; Ok (contents s, ps);
  bc_decode b ps := Block.DecodeBlock NewFloatDecoder sn b ps }.

Context (Hsn : StringCodec.snappy_laws sn) {FloatCodec : Codec.CodecLaws FE FD Z}.
Context (HnewE : Codec.enc_usable NewFloatEncoder) (HnewD : Codec.dec_usable NewFloatDecoder).

Definition pools_encodable (vs : list Value) : Prop :=
  forall ps : Block.pools (FE := FE) (FD := FD), Block.pools_ok ps -> Block.encodable sn Hsn ps vs.

Lemma pools_roundtrip ps vs :
  Block.pools_ok ps -> pools_encodable vs -> exists b ps',
    bc_encode vs ps = Ok (b, ps') /\ Block.pools_ok ps' /\ Block.shaped b /\
    forall ps2, Block.pools_ok ps2 -> exists ps3, bc_decode b ps2 = Ok (vs, None, ps3) /\ Block.pools_ok ps3.
Proof.
  intros Hp He. destruct (Block.encode_decode NewFloatEncoder NewFloatDecoder sn Hsn HnewE HnewD vs nil_slice ps Hp (He ps Hp))
    as (s & ps' & E & Hp' & Hsh & _ & Hd).
  exists (contents s), ps'. cbn [bc_encode pools_codec]. by rewrite E.
Qed.

Lemma pools_encodable_ne vs : pools_encodable vs -> vs <> [].
Proof.
  intros He. specialize (He (Block.init_pools 1) (Block.init_pools_ok 1)).
  by destruct He as [l [Hne _]|l [Hne _]|l [Hne _]|l [Hne _]|l [Hne _]]; destruct l.
Qed.

Lemma pools_encodable_times vs : pools_encodable vs -> Forall (fun v => is_i64 (UnixNano v)) vs.
Proof.
  intros He. specialize (He (Block.init_pools 1) (Block.init_pools_ok 1)).
  by destruct He as [l (_ & Ht & _)|l (_ & Ht & _)|l (_ & Ht & _)|l (_ & Ht & _)|l (_ & Ht & _)];
    rewrite Forall_fmap in Ht; rewrite Forall_fmap; (eapply Forall_impl; [exact Ht|]); intros [t x].
Qed.

#[local] Instance pools_codec_laws : BlockCodecLaws (Block.pools (FE := FE) (FD := FD)) := {
  bc_ok := Block.pools_ok; bc_encodable := pools_encodable;
  bc_roundtrip := pools_roundtrip; bc_encodable_ne := pools_encodable_ne;
  bc_encodable_times := pools_encodable_times }.
End pools.

Module SSTWriter.

Definition max_key : string := "max key length exceeded".
Definition max_blocks : string := "max blocks exceeded".
Definition no_values : string := "no values written".

(** [written] is what went to the file, through its buffer; [n] is the position the writer
    counts. *)
Record sstWriter := MkWriter { written : list Z; windex : directIndex; n : Z; wlastSync : Z }.

Definition NewSSTWriter : sstWriter := MkWriter [] NewIndexWriter 0 0.

(** The index has a file of its own when the writer writes to a file. *)
Definition NewSSTWriterWithDiskBuffer (is_file : bool) : sstWriter :=
  MkWriter [] (if is_file then NewDiskIndexWriter else NewIndexWriter) 0 0.

Definition header : list Z := be_encode 4 MagicNumber ++ [Version].
Definition writeHeader (t : sstWriter) : sstWriter :=
  MkWriter (written t ++ header) (windex t) (Z.of_nat (length header)) (wlastSync t).

(** [if t.n == 0 { t.writeHeader() }]. *)
Definition start (t : sstWriter) : sstWriter := if n t =? 0 then writeHeader t else t.

Definition record (block : list Z) : list Z := be_encode 4 (Checksum.ChecksumIEEE block) ++ block.

Section ops.
Context {St : Type} `{BlockCodec St} (resort : list IndexEntry -> list IndexEntry).

(** The steps the two ways of writing a block share: checksum and block, the entry of the
    index, the position. *)
Definition add_block (t : sstWriter) (key : list Z) (blockType minTime maxTime : Z) (block : list Z) : outcome sstWriter :=
  let r := record block in
  d ← Add resort (windex t) key blockType minTime maxTime (n t) (u32 (Z.of_nat (length r)));
  Ok (MkWriter (written t ++ r) d (i64 (n t + Z.of_nat (length r))) (wlastSync t)).

(** The key is full: the block was written all the same. *)
Definition full (t : sstWriter) (key : list Z) : option string :=
  if maxIndexEntries <=? Z.of_nat (length (index_Entries (windex t) key)) then Some max_blocks else None.

Definition Write (t : sstWriter) (key : list Z) (values : list Value) (st : St) : outcome (sstWriter * option string * St) :=
  if maxKeyLength <? Z.of_nat (length key) then Ok (t, Some max_key, st) else
  match values with
  | [] => Ok (t, None, st)
  | _ =>
      let t := start t in
      match bc_encode values st with
      | Panic => Panic
      | Err e => Ok (t, Some e, st)
      | Ok (block, st) =>
          match Block.BlockType block with
          | Panic => Panic
          | Err e => Ok (t, Some e, st)
          | Ok blockType =>
              min ← Values.MinTime values;
              max ← Values.MaxTime values;
              t ← add_block t key blockType min max block;
              Ok (t, full t key, st)
          end
      end
  end.

Definition WriteBlock (t : sstWriter) (key : list Z) (minTime maxTime : Z) (block : list Z) : outcome (sstWriter * option string) :=
  if maxKeyLength <? Z.of_nat (length key) then Ok (t, Some max_key) else
  match block with
  | [] => Ok (t, None)
  | _ =>
      match Block.BlockType block with
      | Panic => Panic
      | Err e => Ok (t, Some e)
      | Ok blockType =>
          t ← add_block (start t) key blockType minTime maxTime block;
          let t := if fsyncEvery <? i64 (n t - wlastSync t) then MkWriter (written t) (windex t) (n t) (n t) else t in
          Ok (t, full t key)
      end
  end.

Definition WriteIndex (t : sstWriter) : outcome sstWriter :=
  if KeyCount (windex t) =? 0 then Err no_values else
  '(d, out) ← WriteTo resort (windex t);
  Ok (MkWriter (written t ++ out ++ be_encode 8 (u64 (n t))) d (n t) (wlastSync t)).

Definition writer_Size (t : sstWriter) : Z := u32 (u32 (n t) + size (windex t)).

End ops.

(** ** Runs

    Blocks of a key, then of the next, given to [Write] or to [WriteBlock]: what a
    compaction or a snapshot does. An error ends the run. *)
Section runs.
Context {B S : Type} (step : sstWriter -> list Z -> B -> S -> outcome (sstWriter * option string * S)).

Fixpoint feed_key (t : sstWriter) (key : list Z) (blocks : list B) (st : S) : outcome (sstWriter * S) :=
  match blocks with
  | [] => Ok (t, st)
  | x :: blocks =>
      '(t, err, st) ← step t key x st;
      match err with Some e => Err e | None => feed_key t key blocks st end
  end.
Fixpoint feed (t : sstWriter) (data : list (list Z * list B)) (st : S) : outcome (sstWriter * S) :=
  match data with
  | [] => Ok (t, st)
  | (k, blocks) :: data => '(t, st) ← feed_key t k blocks st; feed t data st
  end.
End runs.

(** An encoded block with its times. *)
Abbreviation block_item := (Z * Z * list Z)%type.
Definition write_item (resort : list IndexEntry -> list IndexEntry) (t : sstWriter) (key : list Z) (x : block_item) (_ : unit)
    : outcome (sstWriter * option string * unit) :=
  let '(minTime, maxTime, block) := x in
  '(t, err) ← WriteBlock resort t key minTime maxTime block;
  Ok (t, err, tt).

End SSTWriter.
