(* ===== verification/SSTWriterLaws.v ===== *)
(** The laws of the writer of data files: whatever it is given, blocks of values or encoded
    ones, comes out as a well-formed file whose index finds it. *)
From stdpp Require Import gmap sorting.
From S2P Require Import Prelude Binary Checksum Values Block Bytes Util SSTIndex IndirectIndex IndexLaws SSTWriter.
Import Values Util IndirectIndex IndexLaws SSTIndex SSTWriter.

Module SSTWriterLaws.

(** * Specification *)

(** The values of a block lie between the times of its entry. *)
Definition spans (vs : list Value) (e : IndexEntry) : Prop :=
  Values.MinTime vs = Ok (MinTime e) /\ Values.MaxTime vs = Ok (MaxTime e).

(** Where block [b] is in the file, by its index entry. *)
Definition stored (bytes : list Z) (e : IndexEntry) (b : list Z) : Prop :=
  exists p r, bytes = p ++ record b ++ r /\ Offset e = Z.of_nat (length p) /\ Size e = Z.of_nat (length (record b)).

(** The entry [te], with its type, stands for a block that means the values [vs]. *)
Definition wrote (means : list Z -> list Value -> Prop) (bytes : list Z) (vs : list Value) (te : Z * IndexEntry) : Prop :=
  exists b, stored bytes (snd te) b /\ Block.BlockType b = Ok (fst te) /\ means b vs /\ spans vs (snd te).

(** The entry [te] stands for the encoded block [x]. *)
Definition wrote_item (bytes : list Z) (x : block_item) (te : Z * IndexEntry) : Prop :=
  let '(minTime, maxTime, b) := x in
  stored bytes (snd te) b /\ Block.BlockType b = Ok (fst te) /\ MinTime (snd te) = minTime /\ MaxTime (snd te) = maxTime.

(** What a writer can be given. *)
Definition key_ok {B} (item_ok : B -> Prop) (kb : list Z * list B) : Prop :=
  fst kb <> [] /\ Z.of_nat (length (fst kb)) <= maxKeyLength /\ snd kb <> [] /\
  Z.of_nat (length (snd kb)) < maxIndexEntries /\ Forall item_ok (snd kb).
Definition data_ok {B} (item_ok : B -> Prop) (data : list (list Z * list B)) : Prop :=
  sorted_keys (fst <$> data) /\ Forall (key_ok item_ok) data.

(** Values with proper times. *)
Definition timed (vs : list Value) : Prop := Forall (fun v => is_i64 (UnixNano v)) vs.
Definition ordered_blocks (kb : list Z * list (list Value)) : Prop := sorted (concat (snd kb)).

(** [bytes] is a data file with sections [ss] that stand for the blocks of [data]. *)
Record sst_file (means : list Z -> list Value -> Prop) (bytes : list Z) (ss : list section)
    (data : list (list Z * list (list Value))) : Prop := {
  file_bytes : exists body, bytes = body ++ index_bytes ss ++ be_encode 8 (Z.of_nat (length body)) /\ header `prefix_of` body;
  file_short : Z.of_nat (length bytes) < 2 ^ 31;
  file_index : index_ok ss;
  file_some : ss <> [];
  file_times : Forall times_ok ss;
  file_data : Forall2 (fun kb s => s_key s = fst kb /\
    Forall2 (fun vs e => exists ty, wrote means bytes vs (ty, e)) (snd kb) (s_entries s)) data ss }.

Definition pos (t : sstWriter) : Prop := n t = Z.of_nat (length (written t)).

Section laws.
Context (resort : list IndexEntry -> list IndexEntry) (Hsort : sorts resort).

(** The index while the blocks of a key are added. *)
Definition adding (d : directIndex) (prev : list section) (g : group) : Prop :=
  match snd g with
  | [] => ready resort d prev (fst g)
  | (ty, _) :: _ => opened d prev (fst g) ty (snd <$> snd g)
  end.

(** * Lemmas *)

Lemma Add_adding d prev k l ty e :
  k <> [] -> adding d prev (k, l) ->
  exists d', Add resort d k ty (MinTime e) (MaxTime e) (Offset e) (Size e) = Ok d' /\ adding d' prev (k, l ++ [(ty, e)]).
Proof.
  intros Hk. unfold adding. cbn [fst snd]. destruct l as [|[ty0 e0] l]; intros H.
  - destruct (Add_first resort Hsort d prev k ty e H) as (d' & -> & H' & _). by exists d'.
  - destruct (Add_more resort d prev k ty0 ty _ e Hk H) as (d' & -> & H' & _). exists d'. split; [done|].
    cbn [app]. by rewrite app_comm_cons, fmap_app.
Qed.

Lemma adding_next d prev k l k2 :
  k <> [] -> l <> [] -> Z.of_nat (length l) <= maxIndexEntries -> before k k2 -> adding d prev (k, l) ->
  adding d (prev ++ [section_of resort (k, l)]) (k2, []).
Proof.
  unfold adding. cbn [fst snd]. intros Hk Hl Hn Hb H. destruct l as [|[ty e] l]; [done|]. right.
  exists prev, k, ty, (snd <$> (ty, e) :: l). split_and!; [done..|by rewrite length_fmap|done].
Qed.

Lemma adding_entries d prev k l : k <> [] -> l <> [] -> adding d prev (k, l) -> index_Entries d k = snd <$> l.
Proof.
  unfold adding. cbn [fst snd]. intros Hk Hl H. destruct l as [|[ty e] l]; [done|]. destruct H as (_ & Hkd & Hi & _).
  unfold index_Entries. rewrite Hkd, Hi. destruct k as [|x k]; [done|]. by rewrite bool_decide_true.
Qed.

(** The sections written so far, the last of them still open. *)
Definition adding_last (d : directIndex) (ss : list section) : Prop :=
  exists prev k l, ss = prev ++ [section_of resort (k, l)] /\ adding d prev (k, l) /\
    k <> [] /\ l <> [] /\ Z.of_nat (length l) <= maxIndexEntries.

Lemma stored_mono bytes bytes' e b : bytes `prefix_of` bytes' -> stored bytes e b -> stored bytes' e b.
Proof. intros [r ->] (p & q & -> & H1 & H2). exists p, (q ++ r). by rewrite <- !app_assoc. Qed.

Lemma start_pos t : pos t -> pos (start t).
Proof.
  unfold pos, start. intros H. destruct (Z.eqb_spec (n t) 0) as [E|E]; [|done]. cbn [n writeHeader written].
  rewrite length_app. rewrite E in H. lia.
Qed.
Lemma start_prefix t : written t `prefix_of` written (start t).
Proof. unfold start. destruct (n t =? 0); [by exists header|done]. Qed.
Lemma start_index t : windex (start t) = windex t.
Proof. unfold start. by destruct (n t =? 0). Qed.

(** ** One block *)


Lemma add_block_ok t prev k l blockType minT maxT block :
  k <> [] -> adding (windex t) prev (k, l) ->
  exists t' e, add_block resort t k blockType minT maxT block = Ok t' /\
    adding (windex t') prev (k, l ++ [(blockType, e)]) /\ written t' = written t ++ record block /\
    MinTime e = minT /\ MaxTime e = maxT /\
    (Z.of_nat (length (written t')) < 2 ^ 31 -> pos t -> pos t' /\ stored (written t') e block).
Proof.
  intros Hk Hadd. unfold add_block. set (sz := u32 _).
  destruct (Add_adding (windex t) prev k l blockType (MkIndexEntry minT maxT (n t) sz) Hk Hadd) as (d & E & Hd).
  cbn [MinTime MaxTime Offset Size] in E. rewrite E. cbn [mbind outcome_bind]. eexists _, (MkIndexEntry minT maxT (n t) sz). split; [done|]. cbn [windex written n]. split_and!; [done..|].
  unfold pos. intros Hlen Hp. cbn [n written] in *. rewrite length_app in *. split.
  - rewrite i64_small by (unfold is_i64; lia). lia.
  - exists (written t), []. rewrite app_nil_r. cbn [Offset Size]. split_and!; [done..|]. apply Z.mod_small. lia.
Qed.

(** What is known once a block was written. *)
Definition stepped (t t' : sstWriter) (prev : list section) (k : list Z) (l : list (Z * IndexEntry)) (te : Z * IndexEntry)
    (item : list Z -> Prop) : Prop :=
  adding (windex t') prev (k, l ++ [te]) /\ written (start t) `prefix_of` written t' /\
  (Z.of_nat (length (written t')) < 2 ^ 31 -> pos t -> pos t' /\ item (written t')).

Lemma not_full t prev k l te :
  k <> [] -> Z.of_nat (length l) + 1 < maxIndexEntries -> adding (windex t) prev (k, l ++ [te]) -> full t k = None.
Proof.
  intros Hk Hl Hadd. unfold full. rewrite (adding_entries _ prev k (l ++ [te]) Hk) by (done || by destruct l).
  rewrite length_fmap, length_app. cbn [length]. by rewrite (proj2 (Z.leb_gt _ _)) by lia.
Qed.

Lemma WriteBlock_stepped t prev k l minT maxT b ty :
  k <> [] -> Z.of_nat (length k) <= maxKeyLength -> Z.of_nat (length l) + 1 < maxIndexEntries ->
  Block.BlockType b = Ok ty -> adding (windex t) prev (k, l) ->
  exists t' te, WriteBlock resort t k minT maxT b = Ok (t', None) /\
    stepped t t' prev k l te (fun bytes => wrote_item bytes (minT, maxT, b) te).
Proof.
  intros Hk Hkl Hl Hb Hadd. unfold WriteBlock. rewrite (proj2 (Z.ltb_ge _ _)) by done.
  destruct b as [|x b0] eqn:Eb; [done|]. rewrite <- Eb in *. clear Eb x b0. rewrite Hb.
  destruct (add_block_ok (start t) prev k l ty minT maxT b Hk) as (t1 & e & -> & Hadd1 & Hw & He1 & He2 & Hp); [by rewrite start_index|].
  cbn [mbind outcome_bind]. set (t' := if fsyncEvery <? _ then _ else t1).
  assert (written t' = written t1 /\ windex t' = windex t1 /\ n t' = n t1) as (E1 & E2 & E3) by (unfold t'; by destruct (fsyncEvery <? _)).
  exists t', (ty, e). rewrite (not_full t' prev k l (ty, e) Hk Hl) by (by rewrite E2). split; [done|]. unfold stepped, pos.
  rewrite E1, E2, E3. split_and!; [done|rewrite Hw; by eexists|]. intros Hlen Hpos.
  destruct (Hp Hlen (start_pos t Hpos)) as [H1 H2]. split; [done|]. unfold wrote_item. cbn [fst snd]. by split_and!.
Qed.

(** ** Runs *)
Section feeding.
Context {B S : Type} (step : sstWriter -> list Z -> B -> S -> outcome (sstWriter * option string * S)).
Context (Sok : S -> Prop) (item_ok : B -> Prop) (item : list Z -> B -> Z * IndexEntry -> Prop).
Context (item_mono : forall bytes bytes' x te, bytes `prefix_of` bytes' -> item bytes x te -> item bytes' x te).
Context (step_ok : forall t prev k l x st,
  k <> [] -> Z.of_nat (length k) <= maxKeyLength -> Z.of_nat (length l) + 1 < maxIndexEntries ->
  Sok st -> item_ok x -> adding (windex t) prev (k, l) ->
  exists t' st' te, step t k x st = Ok (t', None, st') /\ Sok st' /\ stepped t t' prev k l te (fun bytes => item bytes x te)).

Lemma feed_key_adding blocks : forall t prev k l st,
  k <> [] -> Z.of_nat (length k) <= maxKeyLength -> Z.of_nat (length l) + Z.of_nat (length blocks) < maxIndexEntries ->
  Sok st -> Forall item_ok blocks -> adding (windex t) prev (k, l) ->
  exists t' st' l', feed_key step t k blocks st = Ok (t', st') /\ Sok st' /\ adding (windex t') prev (k, l ++ l') /\
    length l' = length blocks /\ written t `prefix_of` written t' /\ (blocks <> [] -> written (start t) `prefix_of` written t') /\
    (Z.of_nat (length (written t')) < 2 ^ 31 -> pos t -> pos t' /\ Forall2 (item (written t')) blocks l').
Proof.
  induction blocks as [|x blocks IH]; intros t prev k l st Hk Hkl Hl Hst Hb Hadd; cbn [feed_key].
  - exists t, st, []. rewrite app_nil_r. by split_and!.
  - inversion_clear Hb as [|? ? Hx Hb']. cbn [length] in Hl.
    destruct (step_ok t prev k l x st Hk Hkl ltac:(lia) Hst Hx Hadd) as (t1 & st1 & te & -> & Hst1 & Hadd1 & Hpre1 & Hw1).
    cbn [mbind outcome_bind].
    destruct (IH t1 prev k (l ++ [te]) st1 Hk Hkl) as (t2 & st2 & l2 & -> & Hst2 & Hadd2 & Hlen2 & Hpre2 & _ & Hw2); [|done..|].
    { rewrite length_app. cbn [length]. lia. }
    exists t2, st2, (te :: l2). rewrite <- app_assoc in Hadd2. split_and!; try done.
    + cbn [length]. by rewrite Hlen2.
    + etrans; [apply start_prefix|]. by etrans.
    + intros _. by etrans.
    + intros Hlen Hp. destruct Hw1 as [Hp1 Hw1]; [apply prefix_length in Hpre2; lia|done|].
      destruct (Hw2 Hlen Hp1) as [Hp2 Hf]. split; [done|]. constructor; [by eapply item_mono|done].
Qed.

Definition items (bytes : list Z) (kb : list Z * list B) (g : group) : Prop := Forall2 (item bytes) (snd kb) (snd g).

Lemma feed_adding data : forall t prev st,
  data_ok item_ok data -> Sok st -> (forall kb, head data = Some kb -> adding (windex t) prev (fst kb, [])) ->
  exists t' st' gs, feed step t data st = Ok (t', st') /\ Sok st' /\
    Forall2 (fun kb g => fst g = fst kb /\ length (snd g) = length (snd kb)) data gs /\
    written t `prefix_of` written t' /\ (data <> [] -> written (start t) `prefix_of` written t') /\
    (data <> [] -> adding_last (windex t') (prev ++ (section_of resort <$> gs))) /\
    (Z.of_nat (length (written t')) < 2 ^ 31 -> pos t -> pos t' /\ Forall2 (items (written t')) data gs).
Proof.
  induction data as [|[k blocks] data IH]; intros t prev st [Hs Hok] Hst Hadd; cbn [feed].
  { exists t, st, []. by split_and!. }
  apply Forall_cons in Hok as [(Hk & Hkl & Hbn & Hbl & Hb) Hok']. cbn [fst snd] in *.
  destruct (feed_key_adding blocks t prev k [] st Hk Hkl) as (t1 & st1 & l & -> & Hst1 & Hadd1 & Hl1 & Hpre1 & Hstart & Hw1);
    [done|done|done|by apply (Hadd (k, blocks))|].
  cbn [mbind outcome_bind app] in *. specialize (Hstart Hbn).
  change (sorted_keys (k :: (fst <$> data))) in Hs. apply sorted_keys_cons in Hs as [Hs Hb1].
  assert (l <> []) as Hl by (intros ->; by destruct blocks).
  destruct (IH t1 (prev ++ [section_of resort (k, l)]) st1) as (t2 & st2 & gs & E & Hst2 & Hgs & Hpre2 & _ & Hlast & Hw2); [done|done| |].
  { intros [k2 b2] Hh. apply adding_next; [done|done|lia| |done]. cbn [fst]. apply Hb1. destruct data; [done|]. injection Hh as ->. set_solver. }
  exists t2, st2, ((k, l) :: gs). rewrite E, fmap_cons. split_and!; try done.
  - by constructor.
  - by etrans.
  - intros _. by etrans.
  - intros _. destruct data as [|kb data].
    + apply Forall2_nil_inv_l in Hgs as ->. injection E as <- <-. exists prev, k, l. split_and!; [done..|lia].
    + specialize (Hlast ltac:(done)). by rewrite <- app_assoc in Hlast.
  - intros Hlen Hp. destruct Hw1 as [Hp1 Hw1]; [apply prefix_length in Hpre2; lia|done|].
    destruct (Hw2 Hlen Hp1) as [Hp2 Hf]. split; [done|]. constructor; [|done]. eapply Forall2_impl; [exact Hw1|]. intros. by eapply item_mono.
Qed.
End feeding.

(** ** Times *)

Lemma spans_elems vs e : spans vs e -> exists x y, x ∈ vs /\ y ∈ vs /\ UnixNano x = MinTime e /\ UnixNano y = MaxTime e.
Proof.
  intros [H1 H2]. destruct (last vs) as [y|] eqn:Hy.
  2: { apply last_None in Hy as ->. done. }
  rewrite (MaxTime_last vs y Hy) in H2. destruct vs as [|x vs]; [done|]. rewrite MinTime_cons in H1.
  exists x, y. split_and!; [by left| |congruence|congruence].
  rewrite last_lookup in Hy. by eapply list_elem_of_lookup_2.
Qed.

Lemma spans_range vs e v : sorted vs -> spans vs e -> v ∈ vs -> MinTime e <= UnixNano v <= MaxTime e.
Proof.
  intros Hs [H1 H2] Hv. destruct (last vs) as [y|] eqn:Hy.
  2: { apply last_None in Hy as ->. done. }
  rewrite (MaxTime_last vs y Hy) in H2. pose proof (weakly_last vs y v (sorted_weakly _ Hs) Hy Hv).
  destruct vs as [|x vs]; [done|]. rewrite MinTime_cons in H1. pose proof (weakly_head x vs v (sorted_weakly _ Hs) Hv).
  assert (UnixNano x = MinTime e) by congruence. assert (UnixNano y = MaxTime e) by congruence. lia.
Qed.

Lemma sorted_app_inv a b : sorted (a ++ b : list Value) -> sorted a /\ sorted b /\ forall x y, x ∈ a -> y ∈ b -> UnixNano x < UnixNano y.
Proof.
  intros H. induction a as [|x a IH]; [split_and!; [constructor|done|intros ? ? Hx; by apply elem_of_nil in Hx]|].
  cbn [app] in H. apply sorted_cons in H as [H Hx]. destruct (IH H) as (Ha & Hb & Hab). split_and!; [|done|].
  - apply sorted_cons. split; [done|]. intros y Hy. apply Hx, elem_of_app. by left.
  - intros u v [->|Hu]%elem_of_cons Hv; [apply Hx, elem_of_app; by right|by apply Hab].
Qed.

(** Blocks one after the other in time. *)
Lemma spans_ordered blocks (es : list IndexEntry) :
  Forall2 spans blocks es -> sorted (concat blocks) ->
  StronglySorted starts_before es /\ Forall in_time es /\ StronglySorted ends_before es.
Proof.
  induction 1 as [|vs e blocks es Hse Hf IH]; intros Hs; [split_and!; constructor|].
  cbn [concat] in Hs. apply sorted_app_inv in Hs as (Hs1 & Hs2 & Hlt). destruct (IH Hs2) as (I1 & I2 & I3).
  destruct (spans_elems vs e Hse) as (x & y & Hx & Hy & Ex & Ey).
  assert (forall e', e' ∈ es -> MinTime e <= MinTime e' /\ MaxTime e <= MaxTime e') as Hrest.
  { intros e' He'. apply list_elem_of_lookup in He' as (i & Hi). destruct (Forall2_lookup_r _ _ _ i e' Hf Hi) as (vs' & Hvs' & Hse').
    destruct (spans_elems vs' e' Hse') as (x' & y' & Hx' & Hy' & Ex' & Ey').
    assert (x' ∈ concat blocks /\ y' ∈ concat blocks) as [].
    { pose proof (list_elem_of_lookup_2 _ _ _ Hvs') as Hin. split; apply list_elem_of_In, in_concat; exists vs'; split; by apply list_elem_of_In. }
    pose proof (Hlt x x' Hx ltac:(done)). pose proof (Hlt y y' Hy ltac:(done)). lia. }
  split_and!; constructor; try done.
  - apply Forall_forall. intros e' He'. by apply Hrest.
  - unfold in_time. pose proof (spans_range vs e y Hs1 Hse Hy). lia.
  - apply Forall_forall. intros e' He'. by apply Hrest.
Qed.

(** ** The file *)

Lemma BlockType_byte b ty : Block.BlockType b = Ok ty -> is_byte ty.
Proof.
  unfold Block.BlockType. destruct (index b 0) as [x| |]; [|done..]. cbn [mbind outcome_bind]. case_bool_decide as H; [|done].
  intros [= <-]. revert H. generalize (Z.ldiff x Block.BlockValuePtrMask). intros y Hy. unfold is_byte.
  repeat (apply elem_of_cons in Hy as [->|Hy]; [unfold Block.BlockFloat64, Block.BlockInteger, Block.BlockBoolean, Block.BlockString, Block.BlockUnsigned; lia|]).
  by apply elem_of_nil in Hy.
Qed.

Section file.
Context (means : list Z -> list Value -> Prop).

Lemma wrote_mono bytes bytes' vs te : bytes `prefix_of` bytes' -> wrote means bytes vs te -> wrote means bytes' vs te.
Proof. intros Hp (b & Hs & H). exists b. split; [by eapply stored_mono|done]. Qed.

Lemma wrote_spans bytes vs te : wrote means bytes vs te -> spans vs (snd te).
Proof. by intros (b & _ & _ & _ & H). Qed.

Lemma wrote_entry_ok bytes vs te :
  Z.of_nat (length bytes) < 2 ^ 31 -> timed vs -> wrote means bytes vs te -> is_byte (fst te) /\ entry_ok (snd te).
Proof.
  intros Hlen Hi Hw. destruct (spans_elems _ _ (wrote_spans _ _ _ Hw)) as (x & y & Hx & Hy & Ex & Ey).
  unfold timed in Hi. rewrite Forall_forall in Hi. destruct Hw as (b & (p & r & -> & Ho & Hz) & Hbt & _).
  rewrite !length_app in Hlen. split; [by apply BlockType_byte in Hbt|].
  unfold entry_ok. rewrite <- Ex, <- Ey, Ho, Hz. unfold is_i64. split_and!; try apply Hi; try done; lia.
Qed.

Lemma wrote_section bytes kb g :
  Z.of_nat (length bytes) < 2 ^ 31 -> key_ok timed kb -> ordered_blocks kb -> fst g = fst kb ->
  Forall2 (wrote means bytes) (snd kb) (snd g) ->
  section_ok (section_of resort g) /\ times_ok (section_of resort g) /\
  Forall2 (fun vs e => exists ty, wrote means bytes vs (ty, e)) (snd kb) (s_entries (section_of resort g)).
Proof.
  destruct kb as [k blocks], g as [k' l]. unfold ordered_blocks. cbn [fst snd].
  intros Hlen (Hk & Hkl & Hb & Hbl & Ht) Hs -> Hw. cbn [fst snd] in *. pose proof (Forall2_length _ _ _ Hw) as Hll.
  assert (Forall2 spans blocks (snd <$> l)) as Hsp.
  { apply Forall2_fmap_r. eapply Forall2_impl; [exact Hw|]. intros vs te. apply wrote_spans. }
  destruct (spans_ordered blocks _ Hsp Hs) as (H1 & H2 & H3).
  assert (in_order resort (snd <$> l) = snd <$> l) as Hio.
  { unfold in_order. by rewrite (proj2 (entries_sorted_true _)). }
  split_and!.
  - apply section_of_ok; [done|]. unfold group_ok. cbn [fst snd]. split_and!; [done..|by destruct l, blocks|lia|].
    apply Forall_forall. intros te (i & Hi)%list_elem_of_lookup. destruct (Forall2_lookup_r _ _ _ _ _ Hw Hi) as (vs & Hvs & Hwi).
    eapply wrote_entry_ok; [exact Hlen| |exact Hwi]. by eapply (Forall_lookup_1 timed).
  - unfold times_ok, section_of. cbn [s_entries fst snd]. by rewrite Hio.
  - unfold section_of. cbn [s_entries fst snd]. rewrite Hio. apply Forall2_fmap_r. eapply Forall2_impl; [exact Hw|].
    intros vs [ty e] Hte. by exists ty.
Qed.

Lemma WriteIndex_ok t ss :
  adding_last (windex t) ss -> exists t', WriteIndex resort t = Ok t' /\
    written t' = written t ++ index_bytes ss ++ be_encode 8 (u64 (n t)).
Proof.
  intros (prev & k & l & -> & Hadd & Hk & Hl & Hn). unfold adding in Hadd. cbn [fst snd] in Hadd.
  destruct l as [|[ty e] l]; [done|]. unfold WriteIndex, KeyCount. pose proof Hadd as (_ & _ & _ & Hc & _).
  rewrite Hc, (proj2 (Z.eqb_neq _ 0)) by lia.
  destruct (flush_opened resort Hsort _ _ _ _ _ Hadd Hk) as (d' & m & E & (Hb & _) & _); [by rewrite length_fmap|].
  unfold WriteTo. rewrite E. cbn [mbind outcome_bind]. rewrite Hb. eexists. split; [done|]. done.
Qed.

(** Closing a file: what was written, with the index, is a data file. *)
Lemma close_file t (data : list (list Z * list (list Value))) gs :
  data_ok timed data -> data <> [] -> Forall ordered_blocks data ->
  adding_last (windex t) (section_of resort <$> gs) -> header `prefix_of` written t ->
  Forall2 (fun kb g => fst g = fst kb) data gs ->
  (Z.of_nat (length (written t)) < 2 ^ 31 -> pos t /\ Forall2 (fun kb g => Forall2 (wrote means (written t)) (snd kb) (snd g)) data gs) ->
  exists t', WriteIndex resort t = Ok t' /\
    (Z.of_nat (length (written t')) < 2 ^ 31 -> sst_file means (written t') (section_of resort <$> gs) data).
Proof.
  intros [Hs Hkeys] Hne Hord Hlast Hpre Hgs Hw. destruct (WriteIndex_ok t _ Hlast) as (t' & E' & Ew).
  exists t'. split; [done|]. intros Hlen. pose proof Hlen as Hlen'. rewrite Ew, !length_app, length_be_encode in Hlen.
  destruct Hw as [Hp Hf]; [lia|].
  assert (fst <$> gs = fst <$> data) as Hkeq.
  { clear -Hgs. induction Hgs as [|kb g data gs H _ IH]; [done|]. by rewrite !fmap_cons, H, IH. }
  assert (forall i kb g, data !! i = Some kb -> gs !! i = Some g ->
    section_ok (section_of resort g) /\ times_ok (section_of resort g) /\
    Forall2 (fun vs e => exists ty, wrote means (written t') vs (ty, e)) (snd kb) (s_entries (section_of resort g))) as Hall.
  { intros i kb g Hkb Hg. apply wrote_section.
    - done.
    - by eapply Forall_lookup_1.
    - by eapply Forall_lookup_1.
    - by apply (Forall2_lookup_lr _ _ _ _ _ _ Hgs Hkb Hg).
    - eapply Forall2_impl; [by apply (Forall2_lookup_lr _ _ _ i _ _ Hf)|]. intros vs te. apply wrote_mono. rewrite Ew. by eexists. }
  assert (forall g, g ∈ gs -> section_ok (section_of resort g) /\ times_ok (section_of resort g)) as Hsec.
  { intros g (i & Hg)%list_elem_of_lookup. destruct (Forall2_lookup_r _ _ _ _ _ Hgs Hg) as (kb & Hkb & _).
    destruct (Hall i kb g Hkb Hg) as (? & ? & _). done. }
  split.
  - exists (written t). split; [|done]. rewrite Ew. do 3 f_equal. rewrite Hp. apply u64_small. unfold is_u64. lia.
  - done.
  - split; [|by rewrite <- list_fmap_compose; change (s_key ∘ section_of resort) with (@fst (list Z) (list (Z * IndexEntry))); rewrite Hkeq].
    apply Forall_fmap, Forall_forall. intros g Hg. by apply Hsec.
  - intros Hnil%fmap_nil_inv. subst gs. by apply Forall2_nil_inv_r in Hgs.
  - apply Forall_fmap, Forall_forall. intros g Hg. by apply Hsec.
  - apply Forall2_fmap_r, Forall2_same_length_lookup. split; [by eapply Forall2_length|]. intros i kb g Hkb Hg. split.
    + by apply (Forall2_lookup_lr _ _ _ _ _ _ Hgs Hkb Hg).
    + by apply (Hall i kb g).
Qed.
End file.

(** ** Blocks of values *)
Section values.
Context {St : Type} {Codec : BlockCodec St} {Laws : BlockCodecLaws St}.

(** A block of values that decodes to [vs]. *)
Definition plain (b : list Z) (vs : list Value) : Prop :=
  Block.shaped b /\ forall st, bc_ok st -> exists st', bc_decode b st = Ok (vs, None, st') /\ bc_ok st'.

Lemma Write_stepped t prev k l vs st :
  k <> [] -> Z.of_nat (length k) <= maxKeyLength -> Z.of_nat (length l) + 1 < maxIndexEntries ->
  bc_ok st -> bc_encodable vs -> adding (windex t) prev (k, l) ->
  exists t' st' te, Write resort t k vs st = Ok (t', None, st') /\ bc_ok st' /\
    stepped t t' prev k l te (fun bytes => wrote plain bytes vs te).
Proof.
  intros Hk Hkl Hl Hst Hvs Hadd. unfold Write. rewrite (proj2 (Z.ltb_ge _ _)) by done.
  pose proof (bc_encodable_ne vs Hvs) as Hne. destruct vs as [|v0 vs0] eqn:Evs; [done|]. rewrite <- Evs in *.
  destruct (bc_roundtrip st vs Hst Hvs) as (b & st' & -> & Hst' & Hsh & Hdec).
  pose proof Hsh as (ty & Hh & Hty & _). pose proof (Block.BlockType_head ty b Hh Hty) as Hbt. rewrite Hbt.
  assert (exists x, last vs = Some x) as [x Hx].
  { apply not_eq_None_Some. by rewrite last_None. }
  assert (Values.MinTime vs = Ok (UnixNano v0)) as Hmin by (by rewrite Evs).
  pose proof (Values.MaxTime_last vs x Hx) as Hmax. rewrite Hmin, Hmax. cbn [mbind outcome_bind].
  destruct (add_block_ok (start t) prev k l ty (UnixNano v0) (UnixNano x) b Hk) as (t' & e & -> & Hadd' & Hw & He1 & He2 & Hp).
  { by rewrite start_index. }
  cbn [mbind outcome_bind]. exists t', st', (ty, e). rewrite (not_full t' prev k l (ty, e) Hk Hl Hadd').
  split; [done|]. split; [done|]. split; [done|]. split; [rewrite Hw; by eexists|].
  intros Hlen Hpos. destruct (Hp Hlen (start_pos t Hpos)) as [H1 H2]. split; [done|]. exists b. unfold spans. cbn [fst snd]. by rewrite He1, He2.
Qed.

Lemma data_ok_timed data : data_ok bc_encodable data -> data_ok timed data.
Proof.
  intros [Hs Hok]. split; [done|]. eapply Forall_impl; [exact Hok|]. intros kb (H1 & H2 & H3 & H4 & H5). split_and!; try done.
  eapply Forall_impl; [exact H5|]. intros vs. apply bc_encodable_times.
Qed.

(** What the writer is given comes out as a data file. *)
Lemma sst_written on_disk data st :
  data_ok bc_encodable data -> data <> [] -> Forall ordered_blocks data -> bc_ok st ->
  exists t st' t' ss, feed (Write resort) (NewSSTWriterWithDiskBuffer on_disk) data st = Ok (t, st') /\ bc_ok st' /\
    WriteIndex resort t = Ok t' /\ (Z.of_nat (length (written t')) < 2 ^ 31 -> sst_file plain (written t') ss data).
Proof.
  intros Hok Hne Hord Hst.
  destruct (feed_adding (Write resort) bc_ok bc_encodable (wrote plain) (wrote_mono plain) Write_stepped
    data (NewSSTWriterWithDiskBuffer on_disk) [] st Hok Hst) as (t & st' & gs & E & Hst' & Hgs & _ & Hpre & Hlast & Hw).
  { intros [k b] _. left. by destruct on_disk. }
  destruct (close_file plain t data gs) as (t' & E' & Hf); [by apply data_ok_timed|done|done|by apply Hlast|by apply Hpre| | |].
  - eapply Forall2_impl; [exact Hgs|]. by intros kb g [? _].
  - intros Hlen. by apply Hw.
  - by exists t, st', t', (section_of resort <$> gs).
Qed.
End values.
End laws.

End SSTWriterLaws.
