(* ===== verification/SSTAccess.v ===== *)
(** Reading the blocks of a data file: src/storage/store/sst_block_accessor.go and
    sst_block_accessor.gen.go.

    The file is mapped into memory; a block in it holds values or pointers to blocks of
    value files.  Of a read that fails only the error is kept: what a caller's buffer
    holds then is not modelled. *)
From stdpp Require Import gmap sorting.
From S2P Require Import Prelude Binary Checksum Float FloatLaws StringCodec Codec Timestamp Integer Boolean Values ArrayValues Block Bytes Util SSTIndex IndirectIndex IndexLaws IndexDelete VFile VFileManager SSTWriter SSTWriterLaws.
Import Values Util SSTIndex IndirectIndex IndexLaws IndexDelete VFile VFileManager SSTWriter SSTWriterLaws.

Module SSTAccess.

Definition closed_file : string := "sst file closed".

(** ** Opening *)

Definition bad_magic : string := "init: error reading magic number of file".
Definition not_sst : string := "can only read from sst file".
Definition no_version : string := "init: error reading version".
Definition bad_version : string := "init: file is of another version".

Definition verifyVersion (f : list Z) : outcome unit :=
  if bool_decide (length f < 4)%nat then Err bad_magic else
  magic ← Uint32 f;
  if negb (magic =? MagicNumber) then Err not_sst else
  if bool_decide (length f < 5)%nat then Err no_version else
  v ← index f 4;
  if negb (v =? Version) then Err bad_version else Ok tt.

(** [m_b] is empty once the file is closed. *)
Record mmapAccessor := MkAccessor {
  accessCount : Z; freeCount : Z; m_b : list Z; m_index : indirectIndex; vr : VFileRegionManager }.

Definition too_small : string := "mmapAccessor: byte slice too small for indirectIndex".
Definition bad_start : string := "mmapAccessor: invalid indexStart".

Definition init (f : list Z) (vr : VFileRegionManager) : outcome mmapAccessor :=
  _ ← verifyVersion f;
  if bool_decide (length f < 8)%nat then Err too_small else
  let indexOfsPos := Z.of_nat (length f) - 8 in
  w ← zslice f indexOfsPos (indexOfsPos + 8);
  indexStart ← Uint64 w;
  if indexOfsPos <=? indexStart then Err bad_start else
  bs ← zslice f indexStart indexOfsPos;
  d ← UnmarshalBinary NewIndirectIndex bs;
  Ok (MkAccessor 1 1 f d vr).

Definition with_index (m : mmapAccessor) (d : indirectIndex) : mmapAccessor :=
  MkAccessor (accessCount m) (freeCount m) (m_b m) d (vr m).

(** Every read counts as an access; [free] gives the pages of the file back to the kernel
    when there was none since it was last asked to. *)
Definition incAccess (m : mmapAccessor) : mmapAccessor :=
  MkAccessor (u64 (accessCount m + 1)) (freeCount m) (m_b m) (m_index m) (vr m).

Definition free (m : mmapAccessor) : mmapAccessor * bool :=
  if (freeCount m =? 0) && (accessCount m =? 0) then (m, false)
  else if negb (accessCount m =? freeCount m) then
    (MkAccessor (accessCount m) (accessCount m) (m_b m) (m_index m) (vr m), false)
  else (MkAccessor 0 0 (m_b m) (m_index m) (vr m), true).

Definition close (m : mmapAccessor) : mmapAccessor :=
  MkAccessor (accessCount m) (freeCount m) [] (m_index m) (vr m).

(** ** Blocks *)

(** [Deduplicate] sorts the array of its argument and shortens the slice it returns; the
    callers below keep the slice they had. *)
Definition deduplicated {V} `{Timestamped V} (a : list V) : outcome (list V) :=
  if bool_decide (length a <= 1)%nat then Ok a
  else if Values.ordered a then Ok a
  else snd <$> Values.dedup_loop (length a - 1) 1 0 (sort_stable a).

Definition in_file (m : mmapAccessor) (e : IndexEntry) : bool :=
  negb (Z.of_nat (length (m_b m)) <? i64 (Offset e + Size e)).

(** [m.b[entry.Offset+4:entry.Offset+int64(entry.Size)]]: the checksum is not looked at. *)
Definition block_bytes (m : mmapAccessor) (e : IndexEntry) : outcome (list Z) :=
  zslice (m_b m) (i64 (Offset e + 4)) (i64 (Offset e + Size e)).

Definition readBytes (m : mmapAccessor) (e : IndexEntry) : outcome (Z * list Z) :=
  if negb (in_file m e) then Err closed_file else
  c ← zslice (m_b m) (Offset e) (i64 (Offset e + 4));
  crc ← Uint32 c;
  b ← block_bytes m e;
  Ok (crc, b).

Section reads.
Context {St : Type} `{BlockCodec St}.

Fixpoint decode_all (blocks : list (list Z)) (st : St) : outcome (list Value * St) :=
  match blocks with
  | [] => Ok ([], st)
  | b :: blocks =>
      '(vs, err, st) ← bc_decode b st;
      match err with
      | Some e => Err e
      | None => '(rest, st) ← decode_all blocks st; Ok (vs ++ rest, st)
      end
  end.

Definition data_blocks (m : mmapAccessor) (e : IndexEntry) : outcome (list (list Z)) :=
  b ← block_bytes m e; ReadDataBlocks (vr m) b.

Definition readBlock (m : mmapAccessor) (e : IndexEntry) (st : St) : outcome (list Value * St) :=
  if negb (in_file m e) then Err closed_file else
  bs ← data_blocks m e;
  '(vs, st) ← decode_all bs st;
  vs ← deduplicated vs;
  Ok (vs, st).

Definition read (m : mmapAccessor) (key : list Z) (timestamp : Z) (st : St) : outcome (list Value * St) :=
  e ← Entry (m_index m) key timestamp;
  match e with
  | None => Ok ([], st)
  | Some e => readBlock m e st
  end.

(** A block is left out when one tombstone covers it. *)
Definition skip (tombstones : list TimeRange) (e : IndexEntry) : bool :=
  existsb (fun t => (Min t <=? MinTime e) && (MaxTime e <=? Max t)) tombstones.

Fixpoint exclude_all (vs : list Value) (tombstones : list TimeRange) : outcome (list Value) :=
  match tombstones with
  | [] => Ok vs
  | t :: tombstones => vs ← Exclude vs (Min t) (Max t); exclude_all vs tombstones
  end.

(** Here the file is not checked to be open: a closed one panics. *)
Fixpoint read_entries (m : mmapAccessor) (tombstones : list TimeRange) (es : list IndexEntry) (st : St)
    : outcome (list Value * St) :=
  match es with
  | [] => Ok ([], st)
  | e :: es =>
      if skip tombstones e then read_entries m tombstones es st else
      bs ← data_blocks m e;
      '(temp, st) ← decode_all bs st;
      temp ← deduplicated temp;
      temp ← exclude_all temp tombstones;
      '(rest, st) ← read_entries m tombstones es st;
      Ok (temp ++ rest, st)
  end.

Definition readAll (m : mmapAccessor) (key : list Z) (st : St) : outcome (list Value * St) :=
  es ← Entries (m_index m) key;
  read_entries m (TombstoneRange (m_index m) key) (default [] es) st.
End reads.

(** ** Blocks of one type *)
Section typed.
Context {V St : Type} `{Timestamped V}.
Context (decode : list Z -> St -> outcome (list V * option string * St)).

Fixpoint decode_typed (blocks : list (list Z)) (st : St) : outcome (list V * St) :=
  match blocks with
  | [] => Ok ([], st)
  | b :: blocks =>
      '(vs, err, st) ← decode b st;
      match err with
      | Some e => Err e
      | None => '(rest, st) ← decode_typed blocks st; Ok (vs ++ rest, st)
      end
  end.

Definition read_typed (m : mmapAccessor) (e : IndexEntry) (st : St) : outcome (list V * St) :=
  if negb (in_file m e) then Err closed_file else
  bs ← data_blocks m e;
  '(a, st) ← decode_typed bs st;
  a ← deduplicated a;
  Ok (a, st).
End typed.

Section typed_array.
Context {A : Type} (zero : A) (decode : list Z -> outcome (list Z * list A)).

Fixpoint merge_blocks (values : ArrayValues.Array A) (blocks : list (list Z)) : outcome (ArrayValues.Array A) :=
  match blocks with
  | [] => Ok values
  | b :: blocks =>
      '(ts, vs) ← decode b;
      values ← ArrayValues.Merge zero values (ArrayValues.MkArray ts vs);
      merge_blocks values blocks
  end.

Definition read_typed_array (m : mmapAccessor) (e : IndexEntry) : outcome (ArrayValues.Array A) :=
  if negb (in_file m e) then Err closed_file else
  bs ← data_blocks m e;
  merge_blocks (ArrayValues.MkArray [] []) bs.
End typed_array.

Section copies.
Context {FE FD : Type} {FloatE : Codec.ValueEncoder FE Z} {FloatD : Codec.ValueDecoder FD Z}.
Context (NewFloatDecoder : FD) (sn : StringCodec.snappy).
Abbreviation pools := (Block.pools (FE := FE) (FD := FD)).

Definition readFloatBlock : mmapAccessor -> IndexEntry -> pools -> outcome (list (Z * Z) * pools) :=
  read_typed (Block.DecodeFloatBlock NewFloatDecoder).
Definition readIntegerBlock : mmapAccessor -> IndexEntry -> pools -> outcome (list (Z * Z) * pools) :=
  read_typed Block.DecodeIntegerBlock.
Definition readUnsignedBlock : mmapAccessor -> IndexEntry -> pools -> outcome (list (Z * Z) * pools) :=
  read_typed Block.DecodeUnsignedBlock.
Definition readStringBlock : mmapAccessor -> IndexEntry -> pools -> outcome (list (Z * list Z) * pools) :=
  read_typed (Block.DecodeStringBlock sn).
Definition readBooleanBlock : mmapAccessor -> IndexEntry -> pools -> outcome (list (Z * bool) * pools) :=
  read_typed Block.DecodeBooleanBlock.

Definition readFloatArrayBlock : mmapAccessor -> IndexEntry -> outcome (ArrayValues.Array Z) :=
  read_typed_array 0 (fun b => Block.DecodeFloatArrayBlock b nil_slice nil_slice).
Definition readIntegerArrayBlock : mmapAccessor -> IndexEntry -> outcome (ArrayValues.Array Z) :=
  read_typed_array 0 (fun b => Block.DecodeIntegerArrayBlock b nil_slice nil_slice).
Definition readUnsignedArrayBlock : mmapAccessor -> IndexEntry -> outcome (ArrayValues.Array Z) :=
  read_typed_array 0 (fun b => Block.DecodeUnsignedArrayBlock b nil_slice nil_slice).
Definition readStringArrayBlock : mmapAccessor -> IndexEntry -> outcome (ArrayValues.Array (list Z)) :=
  read_typed_array [] (fun b => Block.DecodeStringArrayBlock sn b nil_slice nil_slice).
Definition readBooleanArrayBlock : mmapAccessor -> IndexEntry -> outcome (ArrayValues.Array bool) :=
  read_typed_array false (fun b => Block.DecodeBooleanArrayBlock b nil_slice nil_slice).
End copies.

(** * Specification *)
Section laws.
Context {St : Type} {Codec : BlockCodec St} {Laws : BlockCodecLaws St}.

(** A block, of values or of pointers, that is read as [vs]. *)
Definition yields (r : VFileRegionManager) (b : list Z) (vs : list Value) : Prop :=
  exists bs, ReadDataBlocks r b = Ok bs /\
    forall st, bc_ok st -> exists st', decode_all bs st = Ok (vs, st') /\ bc_ok st'.

Definition holds_block (r : VFileRegionManager) (bytes : list Z) (vs : list Value) (e : IndexEntry) : Prop :=
  Z.of_nat (length bytes) < 2 ^ 31 /\ exists ty, wrote (yields r) bytes vs (ty, e).

Definition blocks_of (data : list (list Z * list (list Value))) (key : list Z) : list (list Value) :=
  match List.find (fun kb => bool_decide (fst kb = key)) data with Some kb => snd kb | None => [] end.

(** An open file that holds [data] in the sections [ss], of which the index still knows [live]. *)
Record acc_inv (m : mmapAccessor) (data : list (list Z * list (list Value))) (ss : list section) (live : list (Z * section)) : Prop := {
  acc_index : index_inv (m_index m) ss live;
  acc_blocks : Forall2 (fun kb s => s_key s = fst kb /\ Forall2 (holds_block (vr m) (m_b m)) (snd kb) (s_entries s)) data ss;
  acc_ordered : Forall ordered_blocks data }.

(** The values of a key that were not deleted. *)
Definition visible (m : mmapAccessor) (data : list (list Z * list (list Value))) (live : list (Z * section)) (key : list Z)
    : list Value :=
  filter (fun v => holds (m_index m) live key (UnixNano v) = true) (concat (blocks_of data key)).

(** * Lemmas *)

Lemma filter_ext_in {A} (P Q : A -> Prop) `{forall x, Decision (P x)} `{forall x, Decision (Q x)} (l : list A) :
  (forall x, x ∈ l -> P x <-> Q x) -> filter P l = filter Q l.
Proof.
  intros Hpq. induction l as [|x l IH]; [done|]. rewrite !filter_cons.
  rewrite (decide_ext (P x) (Q x)) by (apply Hpq; by left). rewrite IH by (intros; apply Hpq; by right). done.
Qed.

Lemma deduplicated_sorted {V} `{Timestamped V} (a : list V) : sorted a -> deduplicated a = Ok a.
Proof. intros Hs. unfold deduplicated. case_bool_decide; [done|]. by rewrite (proj2 (ordered_spec a)). Qed.

Lemma zslice_length {A} (l : list A) i j b : zslice l i j = Ok b -> 0 <= i <= j /\ j <= Z.of_nat (length l).
Proof.
  unfold zslice. destruct (0 <=? i) eqn:E1, (i <=? j) eqn:E2, (j <=? _) eqn:E3; try done. rewrite Z.leb_le in *. lia.
Qed.

Lemma exclude_all_ok tombs vs :
  sorted vs -> exclude_all vs tombs = Ok (filter (fun v => covered tombs (UnixNano v) = false) vs).
Proof.
  revert vs. induction tombs as [|t tombs IH]; intros vs Hs; cbn [exclude_all].
  - f_equal. symmetry. apply filter_all. by apply Forall_true.
  - rewrite Exclude_spec by done. cbn [mbind outcome_bind]. rewrite IH.
    + f_equal. rewrite list_filter_filter. apply list_filter_iff. intros v. unfold in_span. cbn [covered existsb].
      fold (covered tombs (UnixNano v)). destruct (covered tombs (UnixNano v)),
        (Z.leb_spec (Min t) (UnixNano v)), (Z.leb_spec (UnixNano v) (Max t)); cbn [andb orb]; intuition (lia || congruence).
    + eapply sublist_sorted; [apply sublist_filter|done].
Qed.

Lemma skip_covers tombs vs e v :
  sorted vs -> spans vs e -> skip tombs e = true -> v ∈ vs -> covered tombs (UnixNano v) = true.
Proof.
  intros Hs Hsp Hskip Hv. pose proof (spans_range vs e v Hs Hsp Hv). unfold skip in Hskip.
  apply existsb_exists in Hskip as (t & Hin & Ht). rewrite andb_true_iff, !Z.leb_le in Ht.
  apply existsb_exists. exists t. rewrite andb_true_iff, !Z.leb_le. split; [done|lia].
Qed.

Section accessor.
Context (m : mmapAccessor).

Lemma stored_bytes e b :
  Z.of_nat (length (m_b m)) < 2 ^ 31 -> stored (m_b m) e b ->
  in_file m e = true /\ block_bytes m e = Ok b /\
  exists crc, readBytes m e = Ok (crc, b) /\ (bytes_ok b -> crc = Checksum.ChecksumIEEE b).
Proof.
  intros Hlen (p & q & Hm & Ho & Hz). unfold readBytes, block_bytes, in_file.
  assert (length (m_b m) = length p + length (record b) + length q)%nat as Hl by (rewrite Hm, !length_app; lia).
  assert (length (record b) = 4 + length b)%nat as Hr by (unfold record; by rewrite length_app, length_be_encode).
  rewrite !i64_small by (unfold is_i64; lia). rewrite (proj2 (Z.ltb_ge _ _)) by lia. cbn [negb].
  assert (zslice (m_b m) (Offset e + 4) (Offset e + Size e) = Ok b) as Hb.
  { rewrite Hm. unfold record. rewrite <- app_assoc, app_assoc. apply zslice_app; rewrite length_app, length_be_encode; lia. }
  assert (zslice (m_b m) (Offset e) (Offset e + 4) = Ok (be_encode 4 (Checksum.ChecksumIEEE b))) as Hc.
  { rewrite Hm. unfold record. rewrite <- app_assoc. apply zslice_app; rewrite ?length_be_encode; lia. }
  rewrite Hb, Hc. split_and!; [done|done|]. cbn [mbind outcome_bind].
  assert (exists crc, Uint32 (be_encode 4 (Checksum.ChecksumIEEE b)) = Ok crc) as [crc Hcrc].
  { unfold be_uint. rewrite length_be_encode, decide_True by lia. eauto. }
  exists crc. rewrite Hcrc. cbn [mbind outcome_bind]. split; [done|]. intros Hbytes.
  rewrite <- (app_nil_r (be_encode 4 _)), be_uint_encode in Hcrc by (by apply Checksum.ChecksumIEEE_u32). congruence.
Qed.

Lemma data_blocks_ok vs e : holds_block (vr m) (m_b m) vs e -> in_file m e = true /\
  exists bs, data_blocks m e = Ok bs /\ forall st, bc_ok st -> exists st', decode_all bs st = Ok (vs, st') /\ bc_ok st'.
Proof.
  intros (Hlen & ty & b & Hst & _ & (bs & Hbs & Hd) & _). destruct (stored_bytes e b Hlen Hst) as (Hin & Hb & _). split; [done|].
  exists bs. unfold data_blocks. rewrite Hb. done.
Qed.

(** [readBlock] gives the values of the block, deleted or not. *)
Lemma readBlock_ok vs e st :
  holds_block (vr m) (m_b m) vs e -> sorted vs -> bc_ok st ->
  exists st', readBlock m e st = Ok (vs, st') /\ bc_ok st'.
Proof.
  intros Hb Hs Hst. destruct (data_blocks_ok vs e Hb) as (Hin & bs & E & Hd). unfold readBlock. rewrite Hin, E. cbn [negb mbind outcome_bind].
  destruct (Hd st Hst) as (st' & -> & Hst'). cbn [mbind outcome_bind]. rewrite deduplicated_sorted by done. by exists st'.
Qed.

Lemma read_entries_ok tombs blocks es :
  Forall2 (holds_block (vr m) (m_b m)) blocks es -> sorted (concat blocks) ->
  forall st, bc_ok st -> exists st',
    read_entries m tombs es st = Ok (filter (fun v => covered tombs (UnixNano v) = false) (concat blocks), st') /\ bc_ok st'.
Proof.
  induction 1 as [|vs e blocks es Hb Hf IH]; intros Hs st Hst; cbn [read_entries concat]; [by exists st|].
  cbn [concat] in Hs. apply sorted_app_inv in Hs as (Hs1 & Hs2 & _). rewrite filter_app.
  destruct (data_blocks_ok vs e Hb) as (_ & bs & E & Hd). destruct Hb as (_ & ty & _ & _ & _ & _ & Hsp). cbn [snd] in Hsp.
  destruct (skip tombs e) eqn:Hskip.
  - destruct (IH Hs2 st Hst) as (st' & -> & Hst'). exists st'. split; [|done]. rewrite (filter_none _ vs); [done|].
    intros v Hv. by rewrite (skip_covers tombs vs e v Hs1 Hsp Hskip Hv).
  - rewrite E. cbn [mbind outcome_bind]. destruct (Hd st Hst) as (st1 & -> & Hst1). cbn [mbind outcome_bind].
    rewrite deduplicated_sorted by done. cbn [mbind outcome_bind]. rewrite exclude_all_ok by done. cbn [mbind outcome_bind].
    destruct (IH Hs2 st1 Hst1) as (st' & -> & Hst'). by exists st'.
Qed.

Lemma holds_some_entry vs blocks s v :
  Forall2 (holds_block (vr m) (m_b m)) blocks (s_entries s) -> sorted (concat blocks) -> vs ∈ blocks -> v ∈ vs ->
  some_entry s (UnixNano v) = true.
Proof.
  intros Hf Hs (i & Hi)%list_elem_of_lookup Hv. destruct (Forall2_lookup_l _ _ _ _ _ Hf Hi) as (e & He & (_ & ty & b & _ & _ & _ & Hsp)). cbn [snd] in Hsp.
  apply existsb_exists. exists e. split; [apply list_elem_of_In; by eapply list_elem_of_lookup_2|].
  assert (sorted vs) as Hsv.
  { clear -Hs Hi. revert i Hi. induction blocks as [|b blocks IH]; intros i Hi; [done|]. cbn [concat] in Hs.
    apply sorted_app_inv in Hs as (Hs1 & Hs2 & _). destruct i as [|i]; [by injection Hi as <-|by eapply IH]. }
  pose proof (spans_range vs e v Hsv Hsp Hv). unfold entry_Contains. rewrite andb_true_iff, !Z.leb_le. lia.
Qed.
End accessor.

(** The blocks of a live section. *)
Lemma live_blocks m data ss live key o s :
  acc_inv m data ss live -> find_key live key = Some (o, s) ->
  s_key s = key /\ Forall2 (holds_block (vr m) (m_b m)) (blocks_of data key) (s_entries s) /\ sorted (concat (blocks_of data key)).
Proof.
  intros [Hinv Hdata Hord] Hf. apply find_key_Some in Hf as (k & Hk & Hkey). cbn [snd] in Hkey. subst key. split; [done|].
  destruct (live_section _ _ _ Hinv k _ Hk) as (_ & _ & Hin). cbn [snd] in Hin.
  pose proof (proj2 (reads_ok _ _ _ (inv_reads _ _ _ Hinv))) as Hsk. unfold blocks_of. clear Hinv Hk.
  induction Hdata as [|kb s' data ss [Hk' Hb'] Hdata IH]; [by apply elem_of_nil in Hin|].
  rewrite fmap_cons in Hsk. apply sorted_keys_cons in Hsk as [Hsk Hbef]. apply Forall_cons in Hord as [Ho Hord]. cbn [List.find].
  case_bool_decide as Hkk.
  - apply elem_of_cons in Hin as [->|Hin]; [done|]. exfalso.
    assert (before (s_key s') (s_key s)) as Hb by (apply Hbef, list_elem_of_fmap; by exists s).
    rewrite Hk', Hkk in Hb. unfold before in Hb. rewrite Compare_refl in Hb. lia.
  - apply elem_of_cons in Hin as [->|Hin]; [congruence|]. by apply IH.
Qed.

Lemma readAll_visible m data ss live key st :
  acc_inv m data ss live -> bc_ok st -> exists st', readAll m key st = Ok (visible m data live key, st') /\ bc_ok st'.
Proof.
  intros Hm Hst. pose proof Hm as [Hinv _ _]. unfold readAll, Entries. rewrite (ReadEntries_live _ _ _ (inv_reads _ _ _ Hinv)).
  cbn [mbind outcome_bind]. unfold visible, holds. destruct (find_key live key) as [[o s]|] eqn:Ef.
  - destruct (live_blocks m data ss live key o s Hm Ef) as (Hk & Hb & Hs). cbn [fmap option_fmap option_map default id compose snd].
    destruct (read_entries_ok m (TombstoneRange (m_index m) key) _ _ Hb Hs st Hst) as (st' & -> & Hst').
    exists st'. split; [|done]. do 2 f_equal. apply filter_ext_in. intros v Hv.
    apply list_elem_of_In, in_concat in Hv as (vs & Hvs & Hv).
    rewrite (holds_some_entry m vs _ s v Hb Hs) by (by apply list_elem_of_In). cbn [andb]. by rewrite negb_true_iff.
  - cbn [fmap option_fmap option_map default]. cbn [id read_entries]. exists st. split; [|done]. do 2 f_equal. symmetry. by apply filter_none.
Qed.

(** ** Opening a written file *)

Lemma plain_yields r b vs : plain b vs -> yields r b vs.
Proof.
  intros [(ty & Hh & Hty & _) Hr]. destruct b as [|x b]; [done|]. injection Hh as ->. exists [ty :: b]. split.
  - unfold ReadDataBlocks, Block.IsPtrBlock. cbn [index lookup list_lookup mbind outcome_bind].
    repeat (apply elem_of_cons in Hty as [->|Hty]; [done|]). by apply elem_of_nil in Hty.
  - intros st Hst. destruct (Hr st Hst) as (st' & E & Hst'). cbn [decode_all]. rewrite E. cbn [mbind outcome_bind].
    rewrite app_nil_r. by exists st'.
Qed.

Lemma wrote_impl (means means' : list Z -> list Value -> Prop) bytes vs te :
  (forall b, means b vs -> means' b vs) -> wrote means bytes vs te -> wrote means' bytes vs te.
Proof. intros H (b & H1 & H2 & H3 & H4). exists b. auto. Qed.

Lemma sst_file_impl (means means' : list Z -> list Value -> Prop) bytes ss data :
  (forall b vs, means b vs -> means' b vs) -> sst_file means bytes ss data -> sst_file means' bytes ss data.
Proof.
  intros H [H1 H2 H3 H4 H5 H6]. split; [done..|]. eapply Forall2_impl; [exact H6|]. intros kb s [Hk Hf]. split; [done|].
  eapply Forall2_impl; [exact Hf|]. intros vs e [ty Hw]. exists ty. eapply wrote_impl; [|exact Hw]. intros b. apply H.
Qed.

Lemma verifyVersion_header r : verifyVersion (header ++ r) = Ok tt.
Proof.
  unfold verifyVersion. rewrite bool_decide_false by (rewrite length_app; cbn; lia).
  assert (Uint32 (header ++ r) = Ok MagicNumber) as ->.
  { unfold header. rewrite <- app_assoc. apply (be_uint_encode 4). unfold MagicNumber. cbn. lia. }
  cbn [mbind outcome_bind]. rewrite Z.eqb_refl. cbn [negb]. by rewrite bool_decide_false by (rewrite length_app; cbn; lia).
Qed.

Lemma index_bytes_pos ss : ss <> [] -> (0 < length (index_bytes ss))%nat.
Proof.
  destruct ss as [|s ss]; [done|]. intros _. unfold index_bytes. rewrite fmap_cons. cbn [concat]. rewrite length_app, length_section_bytes. lia.
Qed.

(** Opening a data file finds its index. *)
Lemma init_index means bytes ss data r :
  sst_file means bytes ss data ->
  exists m, init bytes r = Ok m /\ m_b m = bytes /\ vr m = r /\ index_inv (m_index m) ss (layout 0 ss) /\
    tombstones (m_index m) = ∅ /\ minTime (m_index m) = file_min ss /\ maxTime (m_index m) = file_max ss.
Proof.
  intros [(body & Hb & (q & Hq)) Hlen Hidx Hne Htimes Hdata]. unfold init.
  assert (verifyVersion bytes = Ok tt) as ->.
  { rewrite Hb, Hq, <- app_assoc. apply verifyVersion_header. }
  cbn [mbind outcome_bind]. pose proof (index_bytes_pos ss Hne) as Hpos.
  assert (length bytes = length body + length (index_bytes ss) + 8)%nat as Hl by (rewrite Hb, !length_app, length_be_encode; lia).
  rewrite bool_decide_false by lia.
  assert (zslice bytes (Z.of_nat (length bytes) - 8) (Z.of_nat (length bytes) - 8 + 8) = Ok (be_encode 8 (Z.of_nat (length body)))) as ->.
  { rewrite Hl, Hb. pose proof (zslice_app (body ++ index_bytes ss) (be_encode 8 (Z.of_nat (length body))) []) as Hz.
    rewrite app_nil_r, <- app_assoc in Hz. apply Hz; rewrite length_app, ?length_be_encode; lia. }
  cbn [mbind outcome_bind]. rewrite Uint64_encode_nil by (unfold is_u64; lia). cbn [mbind outcome_bind].
  rewrite (proj2 (Z.leb_gt _ _)) by lia.
  assert (zslice bytes (Z.of_nat (length body)) (Z.of_nat (length bytes) - 8) = Ok (index_bytes ss)) as ->.
  { rewrite Hl, Hb. apply zslice_app; lia. }
  cbn [mbind outcome_bind].
  destruct (UnmarshalBinary_index NewIndirectIndex ss) as (d & -> & Hr & Ht & Hmin & Hmax); [done|done|lia|].
  cbn [mbind outcome_bind]. eexists. split; [done|]. cbn [m_b vr m_index]. split_and!; try done.
  split; [done|done| |intros k l; by rewrite Ht].
  intros s Hs. rewrite Hmin, Hmax. split; [by apply foldl_min|by apply foldl_max].
Qed.

Lemma init_file means bytes ss data r :
  sst_file means bytes ss data -> (forall b vs, means b vs -> yields r b vs) -> Forall ordered_blocks data ->
  exists m, init bytes r = Ok m /\ m_b m = bytes /\ vr m = r /\ acc_inv m data ss (layout 0 ss) /\
    tombstones (m_index m) = ∅ /\ minTime (m_index m) = file_min ss /\ maxTime (m_index m) = file_max ss.
Proof.
  intros Hfile Hmeans Hord. destruct (init_index means bytes ss data r Hfile) as (m & E & Hb & Hv & Hi & Ht & Hmin & Hmax).
  exists m. split_and!; try done. destruct Hfile as [_ Hlen _ _ _ Hdata]. split; [done| |done].
  rewrite Hb, Hv. eapply Forall2_impl; [exact Hdata|]. intros kb s [Hk Hw]. split; [done|]. eapply Forall2_impl; [exact Hw|].
  intros vs e [ty Hte]. split; [done|]. exists ty. eapply wrote_impl; [|exact Hte]. intros b. apply Hmeans.
Qed.
End laws.

End SSTAccess.
