(* ===== verification/SSTReader.v ===== *)
(** The reader of a data file: sst_reader.go and sst_batch_deleter.go of
    src/storage/store.  It puts the mapped file of [SSTAccess], its index and its
    tombstones together. *)
From stdpp Require Import gmap sorting.
From S2P Require Import Prelude Binary Checksum Float FloatLaws StringCodec Codec Values ArrayValues Block Bytes Util SSTIndex IndirectIndex IndexLaws IndexDelete Tombstone VFile VFileManager SSTWriter SSTAccess.
Import Values Util SSTIndex IndirectIndex IndexLaws IndexDelete VFileManager SSTWriter SSTAccess.

Module SSTReader.

(** [refs] counts the users; [has_path] tells that the file has a name, [on_disk] that it is
    still there. *)
Record SSTReader := MkReader {
  accessor : mmapAccessor; tombstoner : Tombstone.Tombstoner; rsize : Z; lastModified : Z; refs : Z; on_disk : bool }.

Definition index_of (t : SSTReader) : indirectIndex := m_index (accessor t).
Definition with_reader_index (t : SSTReader) (d : indirectIndex) : SSTReader :=
  MkReader (with_index (accessor t) d) (tombstoner t) (rsize t) (lastModified t) (refs t) (on_disk t).
Definition with_tombstoner (t : SSTReader) (ts : Tombstone.Tombstoner) : SSTReader :=
  MkReader (accessor t) ts (rsize t) (lastModified t) (refs t) (on_disk t).

(** ** Tombstones *)

(** What the function given to [Walk] keeps from one tombstone to the next. *)
Record apply_state := MkApply { a_index : indirectIndex; batch : list (list Z); prev : Tombstone.Tombstone }.

Definition batch_size : nat := 4096.

Definition apply_one (s : apply_state) (cur : Tombstone.Tombstone) : outcome apply_state :=
  s ← (if bool_decide (0 < length (batch s))%nat &&
          (negb (Tombstone.TMin (prev s) =? Tombstone.TMin cur) || negb (Tombstone.TMax (prev s) =? Tombstone.TMax cur)) then
         d ← DeleteRange (a_index s) (batch s) (Tombstone.TMin (prev s)) (Tombstone.TMax (prev s));
         Ok (MkApply d [] (prev s))
       else Ok s);
  let batch := batch s ++ [Tombstone.Key cur] in
  if bool_decide (batch_size <= length batch)%nat then
    d ← DeleteRange (a_index s) batch (Tombstone.TMin (prev s)) (Tombstone.TMax (prev s));
    Ok (MkApply d [] cur)
  else Ok (MkApply (a_index s) batch cur).

Definition no_tombstone : Tombstone.Tombstone := Tombstone.MkTombstone [] 0 0.

(** At the end [cur] is the last tombstone, as [prev] is. *)
Definition apply_walk (gz : Tombstone.gzip) (ts : Tombstone.Tombstoner) (d : indirectIndex) : outcome indirectIndex :=
  s ← Tombstone.Walk gz ts apply_one (MkApply d [] no_tombstone);
  match batch s with
  | [] => Ok (a_index s)
  | b => DeleteRange (a_index s) b (Tombstone.TMin (prev s)) (Tombstone.TMax (prev s))
  end.

Definition read_tombstones : string := "init: read tombstones".

(** After an error the index keeps what was deleted from it before. *)
Definition applyTombstones (gz : Tombstone.gzip) (t : SSTReader) : outcome (SSTReader * option string) :=
  match apply_walk gz (tombstoner t) (index_of t) with
  | Ok d => Ok (with_reader_index t d, None)
  | Err _ =>
      s ← Tombstone.fold_tombstones apply_one (MkApply (index_of t) [] no_tombstone)
        (Tombstone.visited gz (tombstoner t));
      Ok (with_reader_index t (a_index s), Some read_tombstones)
  | Panic => Panic
  end.

(** [tombs] is the tombstone file beside the file. The filter is the index's [ContainsKey]:
    the key range of an index never changes. *)
Definition NewSSTReader (gz : Tombstone.gzip) (f : list Z) (modTime : Z) (tombs : option (list Z)) (vr : VFileRegionManager)
    : outcome SSTReader :=
  m ← init f vr;
  let t := MkReader m (Tombstone.NewTombstoner true (Some (ContainsKey (m_index m))) tombs) (Z.of_nat (length f)) modTime 0 true in
  '(t, err) ← applyTombstones gz t;
  match err with Some e => Err e | None => Ok t end.

(** ** Deletion *)

(** [fs] is how the file system behaves. *)
Definition batch_DeleteRange (gz : Tombstone.gzip) (fs : Tombstone.io) (t : SSTReader) (keys : list (list Z)) (minT maxT : Z)
    : outcome (SSTReader * option string) :=
  match keys, last keys with
  | minKey :: _, Some maxKey =>
      if negb (OverlapsKeyRange (index_of t) minKey maxKey) then Ok (t, None)
      else if negb (OverlapsTimeRange (index_of t) minT maxT) then Ok (t, None)
      else
        let '(ts, err) := Tombstone.AddRange gz fs (tombstoner t) keys minT maxT in
        Ok (with_tombstoner t ts, err)
  | _, _ => Ok (t, None)
  end.

Definition batch_Commit (gz : Tombstone.gzip) (fs : Tombstone.io) (t : SSTReader) : outcome (SSTReader * option string) :=
  let '(ts, err) := Tombstone.Flush fs (tombstoner t) in
  let t := with_tombstoner t ts in
  match err with Some e => Ok (t, Some e) | None => applyTombstones gz t end.

Definition batch_Rollback (t : SSTReader) : SSTReader := with_tombstoner t (Tombstone.Rollback (tombstoner t)).

(** The deletions of a reader exclude one another: a batch holds [deleteMu]. *)
Definition reader_DeleteRange (gz : Tombstone.gzip) (fs fs2 : Tombstone.io) (t : SSTReader) (keys : list (list Z)) (minT maxT : Z)
    : outcome (SSTReader * option string) :=
  match keys with
  | [] => Ok (t, None)
  | _ =>
      '(t, err) ← batch_DeleteRange gz fs t keys minT maxT;
      match err with
      | Some e => Ok (batch_Rollback t, Some e)
      | None => batch_Commit gz fs2 t
      end
  end.

Definition reader_Delete (gz : Tombstone.gzip) (fs fs2 : Tombstone.io) (t : SSTReader) (keys : list (list Z))
    : outcome (SSTReader * option string) :=
  match Tombstone.Add gz fs (tombstoner t) keys with
  | (ts, Some e) => Ok (with_tombstoner t ts, Some e)
  | (ts, None) =>
      match Tombstone.Flush fs2 ts with
      | (ts, Some e) => Ok (with_tombstoner t ts, Some e)
      | (ts, None) =>
          d ← Delete (index_of t) keys;
          Ok (with_reader_index (with_tombstoner t ts) d, None)
      end
  end.

(** [BatchDeleters]: a goroutine for each, whose answers come in some order; the error that
    comes last counts. *)
Definition last_error (answers : list (option string)) : option string :=
  foldl (fun err a => match a with Some e => Some e | None => err end) None answers.
Definition each_deleter (f : SSTReader -> outcome (SSTReader * option string)) (ts : list SSTReader) (order : list nat)
    : outcome (list SSTReader * option string) :=
  r ← mapM f ts;
  Ok (r.*1, last_error (omap (fun i => r.*2 !! i) order)).
Definition all_DeleteRange (gz : Tombstone.gzip) (fs : Tombstone.io) (ts : list SSTReader) (keys : list (list Z)) (min max : Z)
    : list nat -> outcome (list SSTReader * option string) :=
  each_deleter (fun t => batch_DeleteRange gz fs t keys min max) ts.
Definition all_Commit (gz : Tombstone.gzip) (fs : Tombstone.io) (ts : list SSTReader)
    : list nat -> outcome (list SSTReader * option string) :=
  each_deleter (batch_Commit gz fs) ts.
Definition all_Rollback (ts : list SSTReader) : list nat -> outcome (list SSTReader * option string) :=
  each_deleter (fun t => Ok (batch_Rollback t, None)) ts.

(** ** Use *)

Definition file_in_use : string := "file still in use".

Definition Ref (t : SSTReader) : SSTReader :=
  MkReader (accessor t) (tombstoner t) (rsize t) (lastModified t) (refs t + 1) (on_disk t).
Definition Unref (t : SSTReader) : SSTReader :=
  MkReader (accessor t) (tombstoner t) (rsize t) (lastModified t) (refs t - 1) (on_disk t).
Definition InUse (t : SSTReader) : bool := 0 <? refs t.
Definition Remove (t : SSTReader) : SSTReader * option string :=
  if InUse t then (t, Some file_in_use) else
  (MkReader (accessor t) (Tombstone.Delete (tombstoner t)) (rsize t) (lastModified t) (refs t) false, None).

(** [Close] waits until nobody uses the reader: [None]. *)
Definition Close (t : SSTReader) : option SSTReader :=
  if refs t =? 0 then Some (MkReader (close (accessor t)) (tombstoner t) (rsize t) (lastModified t) (refs t) (on_disk t)) else None.

(** ** Queries *)

Definition reader_Key (t : SSTReader) := IndirectIndex.Key (index_of t).
Definition reader_KeyAt (t : SSTReader) := KeyAt (index_of t).
Definition reader_Seek (t : SSTReader) := Seek (index_of t).
Definition reader_Type (t : SSTReader) := Type_at (index_of t).
Definition reader_Contains (t : SSTReader) := Contains_ (index_of t).
Definition reader_ContainsValue (t : SSTReader) := ContainsValue (index_of t).
Definition reader_OverlapsTimeRange (t : SSTReader) := OverlapsTimeRange (index_of t).
Definition reader_OverlapsKeyRange (t : SSTReader) := OverlapsKeyRange (index_of t).
Definition reader_TimeRange (t : SSTReader) := TimeRange_ (index_of t).
Definition reader_KeyRange (t : SSTReader) := KeyRange (index_of t).
Definition reader_KeyCount (t : SSTReader) := KeyCount (index_of t).
Definition reader_Entries (t : SSTReader) := Entries (index_of t).
Definition reader_ReadEntries (t : SSTReader) := ReadEntries (index_of t).
Definition IndexSize (t : SSTReader) := index_Size (index_of t).
Definition reader_Size (t : SSTReader) : Z := u32 (rsize t).
Definition reader_HasTombstones (t : SSTReader) : bool := Tombstone.HasTombstones (tombstoner t).
Definition reader_TombstoneRange (t : SSTReader) := TombstoneRange (index_of t).
Definition ReadBytes (t : SSTReader) := readBytes (accessor t).

(** [tombTime] is the time of the tombstone file. *)
Definition LastModified (t : SSTReader) (tombTime : Z) : SSTReader * Z :=
  let '(ts, e) := Tombstone.TombstoneStats (tombstoner t) in
  (with_tombstoner t ts, if (e : bool) && (lastModified t <? tombTime) then tombTime else lastModified t).

Record FileStat := MkStat {
  HasTombstone : bool; f_Size : Z; f_LastModified : Z; f_MinTime : Z; f_MaxTime : Z; f_MinKey : list Z; f_MaxKey : list Z }.
Definition Stats (t : SSTReader) (tombTime : Z) : SSTReader * FileStat :=
  let '(minTime, maxTime) := reader_TimeRange t in
  let '(minKey, maxKey) := reader_KeyRange t in
  let '(t, lm) := LastModified t tombTime in
  (t, MkStat (reader_HasTombstones t) (reader_Size t) lm minTime maxTime minKey maxKey).

Section reads.
Context {St : Type} `{BlockCodec St}.
Definition ReadAt (t : SSTReader) : IndexEntry -> St -> outcome (list Value * St) := readBlock (accessor t).
Definition Read (t : SSTReader) : list Z -> Z -> St -> outcome (list Value * St) := read (accessor t).
Definition ReadAll (t : SSTReader) : list Z -> St -> outcome (list Value * St) := readAll (accessor t).
End reads.

(** The reads of blocks of one type. *)
Section copies.
Context {FE FD : Type} {FloatE : Codec.ValueEncoder FE Z} {FloatD : Codec.ValueDecoder FD Z}.
Context (NewFloatDecoder : FD) (sn : StringCodec.snappy) (t : SSTReader).
Abbreviation pools := (Block.pools (FE := FE) (FD := FD)).

Definition ReadFloatBlockAt : IndexEntry -> pools -> outcome (list (Z * Z) * pools) := readFloatBlock NewFloatDecoder (accessor t).
Definition ReadIntegerBlockAt : IndexEntry -> pools -> outcome (list (Z * Z) * pools) := readIntegerBlock (accessor t).
Definition ReadUnsignedBlockAt : IndexEntry -> pools -> outcome (list (Z * Z) * pools) := readUnsignedBlock (accessor t).
Definition ReadStringBlockAt : IndexEntry -> pools -> outcome (list (Z * list Z) * pools) := readStringBlock sn (accessor t).
Definition ReadBooleanBlockAt : IndexEntry -> pools -> outcome (list (Z * bool) * pools) := readBooleanBlock (accessor t).
Definition ReadFloatArrayBlockAt : IndexEntry -> outcome (ArrayValues.Array Z) := readFloatArrayBlock (accessor t).
Definition ReadIntegerArrayBlockAt : IndexEntry -> outcome (ArrayValues.Array Z) := readIntegerArrayBlock (accessor t).
Definition ReadUnsignedArrayBlockAt : IndexEntry -> outcome (ArrayValues.Array Z) := readUnsignedArrayBlock (accessor t).
Definition ReadStringArrayBlockAt : IndexEntry -> outcome (ArrayValues.Array (list Z)) := readStringArrayBlock sn (accessor t).
Definition ReadBooleanArrayBlockAt : IndexEntry -> outcome (ArrayValues.Array bool) := readBooleanArrayBlock (accessor t).
End copies.

(** ** Iteration over blocks *)

Record BlockIterator := MkIter {
  i : Z; n_keys : Z; b_key : list Z; b_entries : list IndexEntry; typ : Z; b_err : option string }.

Definition NewBlockIterator (t : SSTReader) : BlockIterator := MkIter 0 (reader_KeyCount t) [] [] 0 None.

Definition deleted_meanwhile : string := "delete during iteration".

Definition PeekNext (t : SSTReader) (b : BlockIterator) : outcome (list Z) :=
  if bool_decide (1 < length (b_entries b))%nat then Ok (b_key b)
  else if 1 <? n_keys b - i b then
    r ← reader_KeyAt t (i b + 1);
    Ok (match r with Some (key, _) => key | None => [] end)
  else Ok [].

Definition Next (t : SSTReader) (b : BlockIterator) : outcome (BlockIterator * bool) :=
  if bool_decide (b_err b <> None) then Ok (b, false) else
  if (n_keys b - i b =? 0) && bool_decide (b_entries b = []) then Ok (b, false) else
  let b := MkIter (i b) (n_keys b) (b_key b) (drop 1 (b_entries b)) (typ b) (b_err b) in
  if bool_decide (0 < length (b_entries b))%nat then Ok (b, true) else
  if 0 <? n_keys b - i b then
    r ← reader_Key t (i b);
    let '(key, ty, es) := match r with Some x => x | None => ([], 0, []) end in
    let b := MkIter (i b + 1) (n_keys b) key es ty (b_err b) in
    if negb (n_keys b =? reader_KeyCount t) then
      Ok (MkIter (i b) (n_keys b) key es ty (Some deleted_meanwhile), false)
    else Ok (b, bool_decide (0 < length es)%nat)
  else Ok (b, false).

(** Key, times, type, checksum and bytes of the block. *)
Definition iter_Read (t : SSTReader) (b : BlockIterator) : BlockIterator * outcome (list Z * Z * Z * Z * Z * list Z) :=
  match b_err b with
  | Some e => (b, Err e)
  | None =>
      match index (b_entries b) 0 with
      | Ok e =>
          match ReadBytes t e with
          | Ok (crc, buf) => (b, Ok (b_key b, MinTime e, MaxTime e, typ b, crc, buf))
          | Err err => (MkIter (i b) (n_keys b) (b_key b) (b_entries b) (typ b) (Some err), Err err)
          | Panic => (b, Panic)
          end
      | _ => (b, Panic)
      end
  end.

End SSTReader.
