(* ===== verification/SSTReaderLaws.v ===== *)
(** The laws of data files: what was written is read, deletions hide exactly their range,
    and what of them is left after the file is opened again. *)
From stdpp Require Import gmap sorting.
From S2P Require Import Prelude Binary Checksum Float FloatLaws StringCodec Codec Timestamp Integer Boolean Values Block Bytes Util SSTIndex IndirectIndex IndexLaws IndexDelete Tombstone VFile VFileManager SSTWriter SSTWriterLaws SSTAccess SSTReader.
Import Values Util SSTIndex IndirectIndex IndexLaws IndexDelete VFileManager SSTWriter SSTWriterLaws SSTAccess SSTReader.

Module SSTReaderLaws.

(** ** Specification *)

(** Tombstones hide a point of a key. *)
Definition in_tombstone (key : list Z) (t : Z) (x : Tombstone.Tombstone) : bool :=
  bool_decide (Tombstone.Key x = key) && ((Tombstone.TMin x <=? t) && (t <=? Tombstone.TMax x)).
Definition hidden (ts : list Tombstone.Tombstone) (key : list Z) (t : Z) : bool := existsb (in_tombstone key t) ts.

Definition tombstone_valid (x : Tombstone.Tombstone) : Prop :=
  Tombstone.tombstone_ok x /\ Tombstone.TMin x <= Tombstone.TMax x.

(** What the index holds once the tombstones [ts] were applied to it. *)
Definition applied (ss : list section) (d0 : indirectIndex) (live0 : list (Z * section)) (ts : list Tombstone.Tombstone)
    (d : indirectIndex) (live : list (Z * section)) : Prop :=
  index_inv d ss live /\ forall key t, holds d live key t = holds d0 live0 key t && negb (hidden ts key t).

(** * Lemmas *)

Lemma hidden_app ts us key t : hidden (ts ++ us) key t = hidden ts key t || hidden us key t.
Proof. apply existsb_app. Qed.

(** ** Applying tombstones *)

Lemma hidden_batch ts key t min max :
  Forall (fun x => Tombstone.TMin x = min /\ Tombstone.TMax x = max) ts ->
  hidden ts key t = bool_decide (key ∈ (Tombstone.Key <$> ts)) && ((min <=? t) && (t <=? max)).
Proof.
  induction 1 as [|x ts [H1 H2] Hf IH]; [done|]. cbn [hidden existsb]. fold (hidden ts key t). rewrite IH, fmap_cons.
  unfold in_tombstone. rewrite H1, H2. destruct ((min <=? t) && (t <=? max)); [|by rewrite !andb_false_r].
  rewrite !andb_true_r. rewrite (bool_decide_ext (key ∈ _ :: _) (Tombstone.Key x = key \/ key ∈ (Tombstone.Key <$> ts)))
    by (rewrite elem_of_cons; intuition congruence).
  by rewrite bool_decide_or.
Qed.

Section apply.
Context (ss : list section) (d0 : indirectIndex) (live0 : list (Z * section)) (H0 : index_inv d0 ss live0).

(** Between two tombstones: some were applied, the others wait in the batch and share a range. *)
Definition apply_inv (s : apply_state) (ts : list Tombstone.Tombstone) : Prop :=
  exists flushed pending live, ts = flushed ++ pending /\ applied ss d0 live0 flushed (a_index s) live /\
    batch s = Tombstone.Key <$> pending /\
    Forall (fun x => Tombstone.TMin x = Tombstone.TMin (prev s) /\ Tombstone.TMax x = Tombstone.TMax (prev s)) pending /\
    (ts <> [] -> tombstone_valid (prev s)).

Lemma flush_batch d live flushed pending p :
  applied ss d0 live0 flushed d live -> tombstone_valid p ->
  Forall (fun x => Tombstone.TMin x = Tombstone.TMin p /\ Tombstone.TMax x = Tombstone.TMax p) pending ->
  exists d' live', DeleteRange d (Tombstone.Key <$> pending) (Tombstone.TMin p) (Tombstone.TMax p) = Ok d' /\
    applied ss d0 live0 (flushed ++ pending) d' live'.
Proof.
  intros [Hinv Hh] [(_ & H1 & H2) H3] Hp.
  destruct (DeleteRange_live d ss live (Tombstone.Key <$> pending) (Tombstone.TMin p) (Tombstone.TMax p) Hinv) as (d' & live' & E & Hinv' & _ & Hl); [done|].
  exists d', live'. split; [done|]. split; [done|]. intros key t. rewrite Hl. unfold left. rewrite Hh, hidden_app, (hidden_batch pending key t _ _ Hp).
  by destruct (holds d0 live0 key t), (hidden flushed key t).
Qed.

Lemma apply_one_ok s ts x :
  apply_inv s ts -> tombstone_valid x -> exists s', apply_one s x = Ok s' /\ apply_inv s' (ts ++ [x]) /\ prev s' = x.
Proof.
  intros (flushed & pending & live & -> & Hap & Hb & Hp & Hv) Hx. unfold apply_one.
  set (c := bool_decide _ && _).
  assert (exists s1 flushed1 pending1 live1, (if c then d ← DeleteRange (a_index s) (batch s) (Tombstone.TMin (prev s)) (Tombstone.TMax (prev s)); Ok (MkApply d [] (prev s)) else Ok s) = Ok s1 /\
    flushed ++ pending = flushed1 ++ pending1 /\ applied ss d0 live0 flushed1 (a_index s1) live1 /\ batch s1 = Tombstone.Key <$> pending1 /\
    prev s1 = prev s /\
    Forall (fun y => Tombstone.TMin y = Tombstone.TMin (prev s1) /\ Tombstone.TMax y = Tombstone.TMax (prev s1)) pending1 /\
    Forall (fun y => Tombstone.TMin y = Tombstone.TMin x /\ Tombstone.TMax y = Tombstone.TMax x) pending1) as (s1 & fl & pe & live1 & -> & Heq & Hap1 & Hb1 & Hpr1 & Hpp1 & Hp1).
  { destruct c eqn:Ec.
    - apply andb_true_iff in Ec as [Hlen _]. apply bool_decide_eq_true_1 in Hlen. rewrite Hb, length_fmap in Hlen.
      destruct (flush_batch (a_index s) live flushed pending (prev s) Hap) as (d' & live' & E & Hap'); [apply Hv; intros [_ ->]%app_eq_nil; cbn in Hlen; lia|done|].
      rewrite Hb, E. cbn [mbind outcome_bind]. exists (MkApply d' [] (prev s)), (flushed ++ pending), [], live'. by rewrite app_nil_r.
    - exists s, flushed, pending, live. split_and!; try done. destruct pending as [|y pending]; [done|].
      apply andb_false_iff in Ec as [Ec|Ec]; [apply bool_decide_eq_false_1 in Ec; rewrite Hb in Ec; cbn in Ec; lia|].
      rewrite orb_false_iff, !negb_false_iff, !Z.eqb_eq in Ec. destruct Ec as [E1 E2]. rewrite <- E1, <- E2. done. }
  cbn [mbind outcome_bind]. rewrite Hb1. change [Tombstone.Key x] with (Tombstone.Key <$> [x]). rewrite <- fmap_app.
  assert (Forall (fun y => Tombstone.TMin y = Tombstone.TMin x /\ Tombstone.TMax y = Tombstone.TMax x) (pe ++ [x])) as Hp2 by (apply Forall_app; auto).
  case_bool_decide as Hfull.
  - (* a full batch has the range of [prev] *)
    assert (Tombstone.TMin (prev s1) = Tombstone.TMin x /\ Tombstone.TMax (prev s1) = Tombstone.TMax x) as [E1 E2].
    { destruct pe as [|y pe]; [unfold batch_size in Hfull; cbn in Hfull; lia|].
      apply Forall_cons in Hpp1 as [[<- <-] _], Hp1 as [[<- <-] _]. done. }
    destruct (flush_batch (a_index s1) live1 fl (pe ++ [x]) x Hap1 Hx Hp2) as (d' & live' & E & Hap').
    rewrite E1, E2, E. cbn [mbind outcome_bind]. eexists. split; [done|]. split; [|done].
    exists (fl ++ pe ++ [x]), [], live'. rewrite app_nil_r, Heq, <- app_assoc. done.
  - eexists. split; [done|]. split; [|done]. exists fl, (pe ++ [x]), live1. rewrite Heq, <- app_assoc. done.
Qed.

Lemma fold_apply l : forall s ts,
  apply_inv s ts -> Forall tombstone_valid l ->
  exists s', Tombstone.fold_tombstones apply_one s l = Ok s' /\ apply_inv s' (ts ++ l).
Proof.
  induction l as [|x l IH]; intros s ts Hs Hl; cbn [Tombstone.fold_tombstones]; [exists s; by rewrite app_nil_r|].
  apply Forall_cons in Hl as [Hx Hl]. destruct (apply_one_ok s ts x Hs Hx) as (s1 & -> & Hs1 & _). cbn [mbind outcome_bind].
  destruct (IH s1 (ts ++ [x]) Hs1 Hl) as (s2 & -> & Hs2). exists s2. by rewrite <- app_assoc in Hs2.
Qed.
End apply.

(** A tombstoner with nothing pending, whose file says [l]. *)
Record tomb_file (gz : Tombstone.gzip) (ts : Tombstone.Tombstoner) (l : list Tombstone.Tombstone) : Prop := {
  tf_clean : Tombstone.tombstones ts = [] /\ Tombstone.pendingFile ts = None /\ Tombstone.has_path ts = true;
  tf_file : Tombstone.file ts = Some (Tombstone.content gz l) \/ Tombstone.file ts = None /\ l = [];
  tf_valid : Forall tombstone_valid l }.

Section reader.
Context {St : Type} {Codec : BlockCodec St} {Laws : BlockCodecLaws St}.
Context (gz : Tombstone.gzip) (Hgz : Tombstone.gzip_laws gz).

Lemma apply_walk_ok ts l ss d live :
  tomb_file gz ts l -> index_inv d ss live ->
  exists d' live', apply_walk gz ts d = Ok d' /\ applied ss d live l d' live'.
Proof.
  intros [(Ht & _) Hf Hv] Hd. unfold apply_walk.
  assert (apply_inv ss d live (MkApply d [] no_tombstone) []) as H0.
  { exists [], [], live. split_and!; try done. split; [done|]. intros. by rewrite andb_true_r. }
  assert (exists s', Tombstone.Walk gz ts apply_one (MkApply d [] no_tombstone) = Ok s' /\ apply_inv ss d live s' l) as (s' & -> & Hs').
  { destruct Hf as [Hf|[Hf ->]].
    - rewrite (Tombstone.Walk_content gz Hgz ts apply_one _ l) by (done || (eapply Forall_impl; [exact Hv|]; by intros ? [? _])).
      rewrite Ht, app_nil_r. by apply (fold_apply ss d live l _ []).
    - unfold Tombstone.Walk. rewrite Hf. by eexists. }
  cbn [mbind outcome_bind]. destruct Hs' as (fl & pe & live1 & -> & Hap & Hb & Hp & Hpv). rewrite Hb.
  destruct pe as [|y pe]; [exists (a_index s'), live1; by rewrite app_nil_r|].
  destruct (flush_batch ss d live (a_index s') live1 fl (y :: pe) (prev s') Hap) as (d' & live' & E & Hap'); [apply Hpv; by destruct fl|done|].
  rewrite fmap_cons in *. rewrite E. by exists d', live'.
Qed.

(** An open reader: its file holds [data], its tombstone file says [l], and these tombstones
    were applied. *)
Record reader_inv (t : SSTReader) (data : list (list Z * list (list Value))) (ss : list section)
    (live : list (Z * section)) (l : list Tombstone.Tombstone) : Prop := {
  ri_acc : acc_inv (accessor t) data ss live;
  ri_tombs : tomb_file gz (tombstoner t) l;
  ri_filter : exists f, Tombstone.FilterFn (tombstoner t) = Some f /\ forall k, f k = ContainsKey (index_of t) k;
  ri_applied : forall key t0, holds (index_of t) live key t0 = true -> hidden l key t0 = false }.

Lemma ContainsKey_ext d d' ss live live' k : reads d ss live -> reads d' ss live' -> ContainsKey d k = ContainsKey d' k.
Proof.
  intros H H'. unfold ContainsKey. pose proof (reads_min _ _ _ H) as E1. pose proof (reads_max _ _ _ H) as E2.
  rewrite (reads_min _ _ _ H') in E1. rewrite (reads_max _ _ _ H') in E2. by injection E1 as ->; injection E2 as ->.
Qed.

Lemma acc_inv_index m data ss live d live' :
  acc_inv m data ss live -> index_inv d ss live' -> acc_inv (with_index m d) data ss live'.
Proof. intros [H1 H2 H3] H. by split. Qed.

(** Applying the tombstones of the file to an index. *)
Lemma applyTombstones_ok t data ss live l :
  acc_inv (accessor t) data ss live -> tomb_file gz (tombstoner t) l ->
  (exists f, Tombstone.FilterFn (tombstoner t) = Some f /\ forall k, f k = ContainsKey (index_of t) k) ->
  exists t' live', applyTombstones gz t = Ok (t', None) /\ reader_inv t' data ss live' l /\
    tombstoner t' = tombstoner t /\ accessor t' = with_index (accessor t) (index_of t') /\
    forall key t0, holds (index_of t') live' key t0 = holds (index_of t) live key t0 && negb (hidden l key t0).
Proof.
  intros Hacc Htf (f & Hf & Hfk). pose proof (acc_index _ _ _ _ Hacc) as Hidx.
  destruct (apply_walk_ok (tombstoner t) l ss (index_of t) live Htf Hidx) as (d & live' & E & Hinv & Hh).
  unfold applyTombstones. rewrite E. exists (with_reader_index t d), live'. split_and!; [done| |done|done|exact Hh].
  split; [by apply acc_inv_index with live|done| |].
  - exists f. split; [done|]. intros k. rewrite Hfk. apply (ContainsKey_ext _ _ ss live live'); [apply Hidx|apply Hinv].
  - intros key t0. cbn [index_of with_reader_index accessor m_index with_index]. rewrite Hh, andb_true_iff, negb_true_iff. by intros [_ ?].
Qed.

(** A commit with nothing new. *)
Lemma commit_same t data ss live l :
  reader_inv t data ss live l -> exists t' live', batch_Commit gz Tombstone.Works t = Ok (t', None) /\ reader_inv t' data ss live' l /\
    forall key t0, holds (index_of t') live' key t0 = holds (index_of t) live key t0.
Proof.
  intros [Hacc Htf Hf Hap]. unfold batch_Commit, Tombstone.Flush, Tombstone.commit.
  rewrite (proj1 (proj2 (tf_clean _ _ _ Htf))).
  destruct (applyTombstones_ok (with_tombstoner t (tombstoner t)) data ss live l Hacc Htf Hf) as (t' & live' & E & Hr & _ & _ & Hh).
  exists t', live'. split_and!; [done|done|]. intros key t0. rewrite Hh. change (index_of (with_tombstoner t (tombstoner t))) with (index_of t).
  destruct (holds (index_of t) live key t0) eqn:Eh; [|done]. by rewrite (Hap key t0 Eh).
Qed.

(** A point the index holds is of a key of its key range and within its time range. *)
Lemma holds_within d ss live key t :
  index_inv d ss live -> holds d live key t = true -> ContainsKey d key = true /\ minTime d <= t <= maxTime d.
Proof.
  intros H. unfold holds. destruct (find_key live key) as [[o s]|] eqn:E; [|done]. rewrite andb_true_iff. intros [He _].
  apply find_key_Some in E as (k & Hk & <-). cbn [snd] in *.
  pose proof (live_range d ss live (inv_reads _ _ _ H) k (o, s) Hk) as Hc. split; [done|].
  destruct (live_section d ss live H k _ Hk) as (Hok & Ht & Hin). cbn [snd] in *.
  destruct (some_entry_range s Hok Ht t He) as [Hr _]. destruct (inv_bounds _ _ _ H s Hin). lia.
Qed.

Lemma not_after_before a c e : not_after a c -> before c e -> before a e.
Proof. intros [H| ->]%not_after_iff; [|done]. by apply before_trans. Qed.

Lemma sorted_keys_range keys k0 k1 k :
  StronglySorted not_after keys -> head keys = Some k0 -> last keys = Some k1 -> k ∈ keys -> not_after k0 k /\ not_after k k1.
Proof.
  intros Hs H0 H1 (i & Hi)%list_elem_of_lookup. split.
  - destruct keys as [|x keys]; [done|]. injection H0 as ->. destruct i as [|i]; [injection Hi as ->; apply not_after_iff; by right|].
    apply (sorted_lookup not_after (k0 :: keys) 0 (S i)); [done|lia|done|done].
  - rewrite last_lookup in H1. pose proof (lookup_lt_Some _ _ _ Hi).
    destruct (decide (i = pred (length keys))) as [->|]; [assert (k = k1) as -> by congruence; apply not_after_iff; by right|].
    apply (sorted_lookup not_after keys i (pred (length keys))); [done|lia|done|done].
Qed.

(** A key of the index lies in the range of any keys it is one of. *)
Lemma overlaps_key d keys k0 k1 k :
  StronglySorted not_after keys -> head keys = Some k0 -> last keys = Some k1 -> k ∈ keys -> ContainsKey d k = true ->
  OverlapsKeyRange d k0 k1 = true.
Proof.
  intros Hs H0 H1 Hk Hc. destruct (sorted_keys_range keys k0 k1 k Hs H0 H1 Hk) as [C0 C1].
  unfold ContainsKey in Hc. unfold OverlapsKeyRange. rewrite andb_true_iff, !Z.leb_le in *.
  pose proof (Compare_swap k (minKey d)). pose proof (Compare_swap k (maxKey d)).
  assert (not_after (minKey d) k) as D0 by (unfold not_after, before; lia).
  assert (not_after k (maxKey d)) as D1 by (unfold not_after, before; lia).
  split.
  - destruct (Z.le_gt_cases (Compare (minKey d) k1) 0) as [|Hb]; [done|]. exfalso.
    apply D0. eapply not_after_before; [exact C1|]. unfold before. rewrite Compare_swap. lia.
  - destruct (Z.le_gt_cases 0 (Compare (maxKey d) k0)) as [|Hb]; [done|]. exfalso.
    apply C0. eapply not_after_before; [exact D1|]. unfold before. lia.
Qed.

(** ** Deleting a range *)

Lemma batch_DeleteRange_cases t keys k0 k1 minT maxT :
  head keys = Some k0 -> last keys = Some k1 ->
  batch_DeleteRange gz Tombstone.Works t keys minT maxT =
    if negb (OverlapsKeyRange (index_of t) k0 k1) then Ok (t, None)
    else if negb (OverlapsTimeRange (index_of t) minT maxT) then Ok (t, None)
    else let '(ts, err) := Tombstone.AddRange gz Tombstone.Works (tombstoner t) keys minT maxT in Ok (with_tombstoner t ts, err).
Proof. intros H0 H1. unfold batch_DeleteRange. destruct keys as [|x keys]; [done|]. rewrite H1. by injection H0 as ->. Qed.

(** A deletion that concerns the file: one of the keys is in its key range. *)
Definition concerns (t : SSTReader) (keys : list (list Z)) (minT maxT : Z) : Prop :=
  exists k, k ∈ keys /\ ContainsKey (index_of t) k = true /\ reader_OverlapsTimeRange t minT maxT = true.

Lemma DeleteRange_ok t data ss live l keys minT maxT :
  reader_inv t data ss live l -> StronglySorted not_after keys -> Forall (fun k => Z.of_nat (length k) < 2 ^ 32) keys ->
  valid_range (MkRange minT maxT) ->
  exists t' live' l', reader_DeleteRange gz Tombstone.Works Tombstone.Works t keys minT maxT = Ok (t', None) /\
    reader_inv t' data ss live' l' /\
    (l' = l \/ l' = Tombstone.of_keys (tombstoner t) keys minT maxT) /\
    (concerns t keys minT maxT -> l' = Tombstone.of_keys (tombstoner t) keys minT maxT) /\
    forall key t0, holds (index_of t') live' key t0 =
      holds (index_of t) live key t0 && negb (bool_decide (key ∈ keys) && ((minT <=? t0) && (t0 <=? maxT))).
Proof.
  intros Hr Hs Hlen Hv. unfold reader_DeleteRange. pose proof Hr as [Hacc Htf (f & Hf & Hfk) Hap].
  pose proof (acc_index _ _ _ _ Hacc) as Hidx.
  destruct keys as [|k0 keys0] eqn:Ek.
  { exists t, live, l. split_and!; [done..|by left|by intros (k & Hk%elem_of_nil & _)|]. intros key t0. rewrite bool_decide_false by (apply not_elem_of_nil). cbn. by rewrite andb_true_r. }
  rewrite <- Ek in *. assert (head keys = Some k0) as H0 by (by rewrite Ek).
  assert (exists k1, last keys = Some k1) as [k1 H1] by (apply not_eq_None_Some; rewrite last_None; by rewrite Ek).
  clear Ek. rewrite (batch_DeleteRange_cases t keys k0 k1 minT maxT H0 H1).
  (* when the index holds nothing of what is deleted *)
  assert ((forall key t0, holds (index_of t) live key t0 = true -> key ∈ keys -> ~ (minT <= t0 <= maxT)) -> ~ concerns t keys minT maxT ->
    exists t' live' l', batch_Commit gz Tombstone.Works t = Ok (t', None) /\ reader_inv t' data ss live' l' /\
      (l' = l \/ l' = Tombstone.of_keys (tombstoner t) keys minT maxT) /\
      (concerns t keys minT maxT -> l' = Tombstone.of_keys (tombstoner t) keys minT maxT) /\
      forall key t0, holds (index_of t') live' key t0 =
        holds (index_of t) live key t0 && negb (bool_decide (key ∈ keys) && ((minT <=? t0) && (t0 <=? maxT)))) as Hsame.
  { intros Hno Hnc. destruct (commit_same t data ss live l Hr) as (t' & live' & E & Hr' & Hh). exists t', live', l. split_and!; [done..|by left|done|].
    intros key t0. rewrite Hh. destruct (holds (index_of t) live key t0) eqn:Eh; [|done]. case_bool_decide as Hk; [|done].
    specialize (Hno key t0 Eh Hk). destruct (Z.leb_spec minT t0), (Z.leb_spec t0 maxT); cbn; (done || lia). }
  destruct (OverlapsKeyRange (index_of t) k0 k1) eqn:Hko; cbn [negb mbind outcome_bind].
  2: { apply Hsame.
       - intros key t0 Hh Hk _. destruct (holds_within _ _ _ _ _ Hidx Hh) as [Hc _].
         by rewrite (overlaps_key (index_of t) keys k0 k1 key Hs H0 H1 Hk Hc) in Hko.
       - intros (k & Hk & Hc & _). by rewrite (overlaps_key (index_of t) keys k0 k1 k Hs H0 H1 Hk Hc) in Hko. }
  destruct (OverlapsTimeRange (index_of t) minT maxT) eqn:Hto; cbn [negb mbind outcome_bind].
  2: { apply Hsame; [|by intros (k & _ & _ & Ho); unfold reader_OverlapsTimeRange in Ho; rewrite Hto in Ho]. intros key t0 Hh Hk Ht0. destruct (holds_within _ _ _ _ _ Hidx Hh) as [_ Hc].
       unfold OverlapsTimeRange, index_of in Hto. apply andb_false_iff in Hto. rewrite !Z.leb_gt in Hto. lia. }
  destruct (Tombstone.AddRange_works gz (tombstoner t) keys minT maxT) as (ts & E & Hff & Hhp & Hcase); [apply Htf|].
  rewrite E. cbn [mbind outcome_bind]. set (new := Tombstone.of_keys (tombstoner t) keys minT maxT) in *.
  assert (forall k, Tombstone.passes (tombstoner t) k = ContainsKey (index_of t) k) as Hpass by (intros k; unfold Tombstone.passes; by rewrite Hf).
  destruct Hcase as [[Hnil ->]|(Hne & Ht' & Hp' & Hfile)].
  - assert (with_tombstoner t (tombstoner t) = t) as -> by (by destruct t).
    assert (forall k, k ∈ keys -> ContainsKey (index_of t) k = true -> False) as Hnone.
    { intros k Hk Hc. unfold new, Tombstone.of_keys in Hnil. apply fmap_nil_inv in Hnil.
      assert (k ∈ filter (fun k => Tombstone.passes (tombstoner t) k = true) keys) as Hin by (apply list_elem_of_filter; by rewrite Hpass).
      rewrite Hnil in Hin. by apply elem_of_nil in Hin. }
    apply Hsame; [|by intros (k & Hk & Hc & _); apply (Hnone k)]. intros key t0 Hh Hk _.
    destruct (holds_within _ _ _ _ _ Hidx Hh) as [Hc _]. by apply (Hnone key).
  - rewrite (proj1 (tf_clean _ _ _ Htf)) in Hfile. cbn [app] in Hfile.
    unfold batch_Commit, Tombstone.Flush, Tombstone.commit. cbn [with_tombstoner tombstoner]. rewrite Hp'.
    destruct (applyTombstones_ok (with_tombstoner (with_tombstoner t ts) ts) data ss live new) as (t' & live' & E' & Hr' & _ & _ & Hh').
    + done.
    + split; cbn [with_tombstoner tombstoner]; [done|by left|]. unfold new, Tombstone.of_keys. apply Forall_fmap, Forall_forall.
      intros k [_ Hk]%list_elem_of_filter. rewrite Forall_forall in Hlen. destruct Hv as (V1 & V2 & V3). split; [|done]. split_and!; [by apply Hlen|done..].
    + exists f. cbn [with_tombstoner tombstoner]. rewrite Hff. by split.
    + exists t', live', new. split_and!; [done..|by right|done|]. intros key t0. rewrite Hh'. change (index_of (with_tombstoner _ _)) with (index_of t).
      destruct (holds (index_of t) live key t0) eqn:Eh; [|done]. destruct (holds_within _ _ _ _ _ Hidx Eh) as [Hc _]. cbn [andb]. f_equal.
      rewrite (hidden_batch new key t0 minT maxT) by (unfold new, Tombstone.of_keys; apply Forall_fmap, Forall_true; done).
      unfold new, Tombstone.of_keys. rewrite <- list_fmap_compose. change (Tombstone.Key ∘ _) with (fun k : list Z => k). rewrite list_fmap_id.
      f_equal. apply bool_decide_ext. rewrite list_elem_of_filter, Hpass. intuition.
Qed.

(** ** What is visible *)

Lemma visible_filter m m' data live live' key (g : Z -> bool) :
  (forall t, holds (m_index m') live' key t = holds (m_index m) live key t && negb (g t)) ->
  visible m' data live' key = filter (fun v => g (UnixNano v) = false) (visible m data live key).
Proof.
  intros H. unfold visible. rewrite list_filter_filter. apply list_filter_iff. intros v.
  rewrite H, andb_true_iff, negb_true_iff. intuition.
Qed.

Lemma visible_all m data ss key :
  acc_inv m data ss (layout 0 ss) -> tombstones (m_index m) = ∅ -> visible m data (layout 0 ss) key = concat (blocks_of data key).
Proof.
  intros Hm Ht. unfold visible. apply filter_all, Forall_forall. intros v Hv.
  destruct (find_key (layout 0 ss) key) as [[o s]|] eqn:Ef.
  - unfold holds. rewrite Ef. destruct (live_blocks m data ss _ key o s Hm Ef) as (_ & Hb & Hs).
    apply list_elem_of_In, in_concat in Hv as (vs & Hvs & Hv).
    rewrite (holds_some_entry m vs _ s v Hb Hs) by (by apply list_elem_of_In).
    unfold TombstoneRange. by rewrite Ht, lookup_empty.
  - exfalso. unfold blocks_of in Hv. destruct (List.find _ data) as [kb|] eqn:E; [|by apply elem_of_nil in Hv].
    apply find_some in E as [Hin Hk]. apply bool_decide_eq_true in Hk. apply list_elem_of_In, list_elem_of_lookup in Hin as (i & Hi).
    destruct (Forall2_lookup_l _ _ _ _ _ (acc_blocks _ _ _ _ Hm) Hi) as (s & Hs & Hsk & _).
    rewrite <- (layout_snd 0 ss), list_lookup_fmap in Hs. destruct (layout 0 ss !! i) as [os|] eqn:Hos; [|done]. injection Hs as <-.
    assert (find_key (layout 0 ss) (s_key (snd os)) = Some os) as Hfk.
    { eapply find_key_lookup; [apply inv_reads, (acc_index _ _ _ _ Hm)|exact Hos]. }
    rewrite Hsk, Hk, Ef in Hfk. done.
Qed.

Lemma open_file means bytes ss data l tombs modTime r :
  sst_file means bytes ss data -> (forall b vs, means b vs -> yields r b vs) -> Forall ordered_blocks data -> Forall tombstone_valid l ->
  tombs = Some (Tombstone.content gz l) \/ tombs = None /\ l = [] ->
  exists t live, NewSSTReader gz bytes modTime tombs r = Ok t /\ reader_inv t data ss live l /\ m_b (accessor t) = bytes /\
    forall key, visible (accessor t) data live key = filter (fun v => hidden l key (UnixNano v) = false) (concat (blocks_of data key)).
Proof.
  intros Hfile Hmeans Hord Hl Htombs. destruct (init_file means bytes ss data r Hfile Hmeans Hord) as (m & E & Hb & _ & Hacc & Ht & _).
  unfold NewSSTReader. rewrite E. cbn [mbind outcome_bind]. set (t0 := MkReader m _ _ _ _ _).
  destruct (applyTombstones_ok t0 data ss (layout 0 ss) l) as (t & live & -> & Hr & _ & Ha & Hh).
  - exact Hacc.
  - by split.
  - by exists (ContainsKey (m_index m)).
  - cbn [mbind outcome_bind]. exists t, live. split_and!; [done|done| |].
    + by rewrite Ha.
    + intros key. rewrite <- (visible_all m data ss key Hacc Ht). apply (visible_filter m (accessor t) data _ live key). intros u. apply Hh.
Qed.

Lemma ReadAll_ok t data ss live l key st :
  reader_inv t data ss live l -> bc_ok st -> exists st', ReadAll t key st = Ok (visible (accessor t) data live key, st') /\ bc_ok st'.
Proof. intros [Hm _ _ _] Hst. by apply (readAll_visible (accessor t) data ss). Qed.

(** ** Points *)

Lemma find_entry m blocks es i vs v :
  Forall2 (holds_block (vr m) (m_b m)) blocks es -> sorted (concat blocks) -> blocks !! i = Some vs -> v ∈ vs ->
  exists e, es !! i = Some e /\ List.find (fun e => entry_Contains e (UnixNano v)) es = Some e /\ sorted vs.
Proof.
  intros Hf. revert i. induction Hf as [|ws e blocks es (_ & ty & b & _ & _ & _ & Hsp) Hf IH]; intros i Hs Hi Hv; [done|].
  cbn [concat] in Hs. apply sorted_app_inv in Hs as (Hs1 & Hs2 & Hlt). cbn [List.find snd] in *. destruct i as [|i].
  - injection Hi as ->. exists e. pose proof (spans_range vs e v Hs1 Hsp Hv). split_and!; [done| |done].
    unfold entry_Contains. rewrite (proj2 (Z.leb_le _ _)), (proj2 (Z.leb_le (UnixNano v) _)) by lia. done.
  - destruct (IH i Hs2 Hi Hv) as (e' & He' & Hfind & Hsv). exists e'. split_and!; [done| |done].
    destruct (spans_elems ws e Hsp) as (_ & y & _ & Hy & _ & Ey).
    assert (UnixNano y < UnixNano v) as Hyv.
    { apply Hlt; [done|]. apply list_elem_of_In, in_concat. exists vs. split; apply list_elem_of_In; [by eapply list_elem_of_lookup_2|done]. }
    unfold entry_Contains. rewrite (proj2 (Z.leb_gt (UnixNano v) _)) by lia. by rewrite andb_false_r.
Qed.

Lemma Read_ok t data ss live l key vs v st :
  reader_inv t data ss live l -> bc_ok st -> vs ∈ blocks_of data key -> v ∈ vs -> (exists os, find_key live key = Some os) ->
  exists st', Read t key (UnixNano v) st = Ok (vs, st') /\ bc_ok st'.
Proof.
  intros [Hm _ _ _] Hst (i & Hi)%list_elem_of_lookup Hv [[o s] Hf].
  destruct (live_blocks _ data ss live key o s Hm Hf) as (_ & Hb & Hs).
  destruct (find_entry _ _ _ i vs v Hb Hs Hi Hv) as (e & He & Hfind & Hsv).
  unfold Read, read, Entry, Entries. rewrite (ReadEntries_live _ ss live (inv_reads _ _ _ (acc_index _ _ _ _ Hm))), Hf.
  cbn [mbind outcome_bind fmap option_fmap option_map default id compose snd]. rewrite Hfind.
  destruct (Forall2_lookup_l _ _ _ _ _ Hb Hi) as (e' & He' & Hblk). assert (e' = e) as -> by congruence.
  by apply readBlock_ok.
Qed.

(** * Properties *)

(** C3: a data file is read back as it was written.  Blocks of values, key after key in the
    order of the keys and of time, are written and closed with the index without an
    error; if the file is smaller than two gigabytes, a reader opens it, over any value
    files, and then [ReadAll] gives for every key the values of its blocks, nothing for
    a key that was not written, and [Read] at the time of any of the values its block. *)
Theorem sst_write_read resort (to_disk : bool) data st :
  sorts resort -> data_ok bc_encodable data -> data <> [] -> Forall ordered_blocks data -> bc_ok st ->
  exists w st' w', feed (Write resort) (NewSSTWriterWithDiskBuffer to_disk) data st = Ok (w, st') /\ bc_ok st' /\
    WriteIndex resort w = Ok w' /\
    (Z.of_nat (length (written w')) < 2 ^ 31 -> forall modTime r, exists t,
      NewSSTReader gz (written w') modTime None r = Ok t /\
      forall key st2, bc_ok st2 ->
        (exists st3, ReadAll t key st2 = Ok (concat (blocks_of data key), st3) /\ bc_ok st3) /\
        forall vs v, vs ∈ blocks_of data key -> v ∈ vs ->
          exists st3, Read t key (UnixNano v) st2 = Ok (vs, st3) /\ bc_ok st3).
Proof.
  intros Hsort Hok Hne Hord Hst.
  destruct (sst_written resort Hsort to_disk data st Hok Hne Hord Hst) as (w & st' & w' & ss & E & Hst' & E' & Hf).
  exists w, st', w'. split_and!; [done..|]. intros Hlen modTime r.
  destruct (open_file plain (written w') ss data [] None modTime r (Hf Hlen) (plain_yields r) Hord) as (t & live & Et & Hr & _ & Hv); [constructor|by right|].
  exists t. split; [done|]. intros key st2 Hst2.
  assert (visible (accessor t) data live key = concat (blocks_of data key)) as Hall.
  { rewrite Hv. apply filter_all. by apply Forall_true. }
  split.
  - rewrite <- Hall. by apply (ReadAll_ok t data ss live []).
  - intros vs v Hvs Hvv. apply (Read_ok t data ss live [] key vs v); try done.
    assert (v ∈ visible (accessor t) data live key) as Hin.
    { rewrite Hall. apply list_elem_of_In, in_concat. exists vs. split; by apply list_elem_of_In. }
    apply list_elem_of_filter in Hin as [Hh _]. unfold holds in Hh. destruct (find_key live key) as [os|]; [by exists os|done].
Qed.

(** C7: deleting a range hides exactly the range.  When the file system works,
    [DeleteRange] of sorted keys succeeds, and afterwards [ReadAll] gives of every key
    what it gave before but the values of the range, if the key is one of the keys. The
    reader keeps its invariant, so that this holds of any sequence of deletions. *)
Theorem sst_DeleteRange t data ss live l keys minT maxT :
  reader_inv t data ss live l -> StronglySorted not_after keys -> Forall (fun k => Z.of_nat (length k) < 2 ^ 32) keys ->
  valid_range (MkRange minT maxT) ->
  exists t' live' l', reader_DeleteRange gz Tombstone.Works Tombstone.Works t keys minT maxT = Ok (t', None) /\
    reader_inv t' data ss live' l' /\
    forall key st, bc_ok st -> exists vs st1 st2,
      ReadAll t key st = Ok (vs, st1) /\ bc_ok st1 /\
      ReadAll t' key st = Ok (filter (fun v => ~ (key ∈ keys /\ minT <= UnixNano v <= maxT)) vs, st2) /\ bc_ok st2.
Proof.
  intros Hr Hs Hlen Hv. destruct (DeleteRange_ok t data ss live l keys minT maxT Hr Hs Hlen Hv) as (t' & live' & l' & E & Hr' & _ & _ & Hh).
  exists t', live', l'. split_and!; [done..|]. intros key st Hst.
  destruct (ReadAll_ok t data ss live l key st Hr Hst) as (st1 & E1 & Hst1).
  destruct (ReadAll_ok t' data ss live' l' key st Hr' Hst) as (st2 & E2 & Hst2).
  exists (visible (accessor t) data live key), st1, st2. split_and!; [done..| |done]. rewrite E2. do 2 f_equal.
  rewrite (visible_filter (accessor t) (accessor t') data live live' key _ (Hh key)). apply list_filter_iff. intros v.
  case_bool_decide; cbn [andb]; [|intuition].
  destruct (Z.leb_spec minT (UnixNano v)), (Z.leb_spec (UnixNano v) maxT); cbn [andb]; intuition (lia || congruence).
Qed.

(** C22: only the last deletion survives.  After a deletion that concerns the file, a reader
    opened again on the same file and its tombstones hides the range of that deletion and
    nothing else: everything deleted by earlier ones is back. *)
Theorem sst_reopened t data ss live l keys minT maxT modTime r :
  sst_file (yields r) (m_b (accessor t)) ss data -> reader_inv t data ss live l ->
  StronglySorted not_after keys -> Forall (fun k => Z.of_nat (length k) < 2 ^ 32) keys -> valid_range (MkRange minT maxT) ->
  concerns t keys minT maxT ->
  exists t' t2, reader_DeleteRange gz Tombstone.Works Tombstone.Works t keys minT maxT = Ok (t', None) /\
    NewSSTReader gz (m_b (accessor t)) modTime (Tombstone.file (tombstoner t')) r = Ok t2 /\
    forall key st, bc_ok st -> exists st',
      ReadAll t2 key st = Ok (filter (fun v => ~ (key ∈ keys /\ minT <= UnixNano v <= maxT)) (concat (blocks_of data key)), st') /\ bc_ok st'.
Proof.
  intros Hfile Hr Hs Hlen Hv Hc. assert (forall b vs, yields r b vs -> yields r b vs) as Hmeans by done. destruct (DeleteRange_ok t data ss live l keys minT maxT Hr Hs Hlen Hv) as (t' & live' & l' & E & Hr' & _ & Hl' & _).
  specialize (Hl' Hc). pose proof Hr' as [_ Htf' _ _].
  pose proof (acc_ordered _ _ _ _ (ri_acc _ _ _ _ _ Hr)) as Hord.
  destruct (open_file (yields r) (m_b (accessor t)) ss data l' (Tombstone.file (tombstoner t')) modTime r Hfile Hmeans Hord (tf_valid _ _ _ Htf') (tf_file _ _ _ Htf'))
    as (t2 & live2 & E2 & Hr2 & _ & Hv2).
  destruct (init_file (yields r) (m_b (accessor t)) ss data r Hfile Hmeans Hord) as (m & _ & _ & _ & Hm & Ht & _).
  exists t', t2. split_and!; [done..|]. intros key st Hst.
  destruct (ReadAll_ok t2 data ss live2 l' key st Hr2 Hst) as (st' & E3 & Hst'). exists st'. split; [|done]. rewrite E3, Hv2. do 2 f_equal.
  apply filter_ext_in. intros v Hin. rewrite <- (visible_all m data ss key Hm Ht) in Hin. apply list_elem_of_filter in Hin as [Hh _].
  destruct (holds_within _ _ _ _ _ (acc_index _ _ _ _ Hm) Hh) as [Hck _].
  rewrite (ContainsKey_ext _ (index_of t) ss _ live key (inv_reads _ _ _ (acc_index _ _ _ _ Hm)) (inv_reads _ _ _ (acc_index _ _ _ _ (ri_acc _ _ _ _ _ Hr)))) in Hck.
  rewrite Hl', (hidden_batch _ key _ minT maxT) by (apply Forall_fmap, Forall_true; done).
  unfold Tombstone.of_keys. rewrite <- list_fmap_compose. change (Tombstone.Key ∘ _) with (fun k : list Z => k). rewrite list_fmap_id.
  destruct (ri_filter _ _ _ _ _ Hr) as (f & Hf & Hfk).
  rewrite (bool_decide_ext _ (key ∈ keys)).
  - case_bool_decide; cbn [andb]; [|intuition].
    destruct (Z.leb_spec minT (UnixNano v)), (Z.leb_spec (UnixNano v) maxT); cbn [andb]; intuition (lia || congruence).
  - rewrite list_elem_of_filter. unfold Tombstone.passes. rewrite Hf, Hfk. intuition.
Qed.
End reader.

(** ** Witnesses *)

#[local] Instance test_codec : BlockCodec (Block.pools (FE := Block.test_encoder) (FD := Float.FloatDecoder)) :=
  pools_codec (Float.NewFloatEncoder FloatLaws.simple_stream) Float.NewFloatDecoder StringCodec.identity_snappy.
#[local] Instance test_laws : BlockCodecLaws (Block.pools (FE := Block.test_encoder) (FD := Float.FloatDecoder)) :=
  pools_codec_laws (FloatCodec := FloatLaws.Float_codec FloatLaws.simple_stream) (Float.NewFloatEncoder FloatLaws.simple_stream) Float.NewFloatDecoder
    StringCodec.identity_snappy StringCodec.identity_snappy_laws I I.

Lemma test_pools_ok : bc_ok Block.test_pools.
Proof. exact (Block.init_pools_ok (FloatCodec := FloatLaws.Float_codec FloatLaws.simple_stream) 2). Qed.

Definition sample_data : list (list Z * list (list Value)) :=
  [([97], [[BooleanValue 10 true; BooleanValue 20 false]; [BooleanValue 30 true]]); ([98], [[BooleanValue 5 false]])].

Lemma booleans_encodable (l : list (Z * bool)) :
  l <> [] -> Forall is_i64 l.*1 -> Z.of_nat (length l) < 2 ^ 56 -> bc_encodable ((fun '(t, x) => BooleanValue t x) <$> l).
Proof.
  intros H1 H2 H3 ps Hps. apply Block.enc_boolean. split_and!; try done. apply Forall_forall. by intros.
Qed.

Lemma sample_data_ok : data_ok bc_encodable sample_data /\ Forall ordered_blocks sample_data.
Proof.
  assert (bc_encodable [BooleanValue 10 true; BooleanValue 20 false] /\ bc_encodable [BooleanValue 30 true] /\
    bc_encodable [BooleanValue 5 false]) as (H1 & H2 & H3).
  { split_and!; [apply (booleans_encodable [(10, true); (20, false)])|apply (booleans_encodable [(30, true)])|apply (booleans_encodable [(5, false)])];
      try done; apply (bool_decide_unpack _); vm_compute; reflexivity. }
  split; [split|].
  - repeat constructor.
  - repeat constructor; cbn; try done; lia.
  - repeat constructor; apply ordered_spec; reflexivity.
Qed.

Definition sample_written : outcome (sstWriter * Block.pools (FE := Block.test_encoder) (FD := Float.FloatDecoder)) :=
  '(w, st) ← feed (Write (merge_sort starts_before)) (NewSSTWriterWithDiskBuffer true) sample_data Block.test_pools;
  w ← WriteIndex (merge_sort starts_before) w;
  Ok (w, st).

Lemma sample_short w st : sample_written = Ok (w, st) -> Z.of_nat (length (written w)) < 2 ^ 31.
Proof.
  intros E. assert ((match sample_written with Ok (w, _) => Z.of_nat (length (written w)) <? 2 ^ 31 | _ => false end) = true) as H
    by (vm_compute; reflexivity).
  rewrite E in H. by apply Z.ltb_lt.
Qed.

Lemma sst_write_read_witness :
  exists w st t, sample_written = Ok (w, st) /\ NewSSTReader Tombstone.identity_gzip (written w) 0 None ∅ = Ok t /\
    (exists st', ReadAll t [97] Block.test_pools = Ok ([BooleanValue 10 true; BooleanValue 20 false; BooleanValue 30 true], st')) /\
    (exists st', ReadAll t [99] Block.test_pools = Ok ([], st')) /\
    exists st', Read t [97] 20 Block.test_pools = Ok ([BooleanValue 10 true; BooleanValue 20 false], st').
Proof.
  destruct sample_data_ok as [H1 H2]. pose proof test_pools_ok as Hst.
  destruct (sst_write_read Tombstone.identity_gzip Tombstone.identity_gzip_laws (merge_sort starts_before) true sample_data Block.test_pools
    merge_sort_sorts H1 ltac:(discriminate) H2 Hst) as (w & st & w' & E & _ & E' & H).
  assert (sample_written = Ok (w', st)) as Ew by (unfold sample_written; rewrite E; cbn [mbind outcome_bind]; by rewrite E').
  destruct (H (sample_short w' st Ew) 0 ∅) as (t & Et & Hr). exists w', st, t. split; [exact Ew|]. split; [exact Et|]. split_and!.
  - destruct (Hr [97] Block.test_pools Hst) as [(st3 & R & _) _]. exists st3. exact R.
  - destruct (Hr [99] Block.test_pools Hst) as [(st3 & R & _) _]. exists st3. exact R.
  - destruct (Hr [97] Block.test_pools Hst) as [_ R]. destruct (R [BooleanValue 10 true; BooleanValue 20 false] (BooleanValue 20 false)) as (st3 & R' & _);
      [by left|right; by left|]. exists st3. exact R'.
Defined.

(** A reader on the sample. *)
Definition sample_opened : outcome SSTReader :=
  '(w, _) ← sample_written; NewSSTReader Tombstone.identity_gzip (written w) 0 None ∅.

Lemma sample_reader : exists ss t live,
  sample_opened = Ok t /\ sst_file (yields ∅) (m_b (accessor t)) ss sample_data /\ reader_inv Tombstone.identity_gzip t sample_data ss live [] /\
  concerns t [[97]] 15 25.
Proof.
  destruct sample_data_ok as [H1 H2]. pose proof test_pools_ok as Hst.
  destruct (sst_written (merge_sort starts_before) merge_sort_sorts true sample_data Block.test_pools H1 ltac:(discriminate) H2 Hst)
    as (w & st & w' & ss & E & _ & E' & Hf).
  assert (sample_written = Ok (w', st)) as Ew by (unfold sample_written; rewrite E; cbn [mbind outcome_bind]; by rewrite E').
  specialize (Hf (sample_short w' st Ew)).
  destruct (open_file Tombstone.identity_gzip Tombstone.identity_gzip_laws plain (written w') ss sample_data [] None 0 ∅ Hf (plain_yields ∅) H2
    (List.Forall_nil _) (or_intror (conj eq_refl eq_refl))) as (t & live & Et & Hr & Hb & _).
  assert (sample_opened = Ok t) as Eo by (unfold sample_opened; rewrite Ew; exact Et).
  assert ((match sample_opened with Ok t => ContainsKey (index_of t) [97] && reader_OverlapsTimeRange t 15 25 | _ => false end) = true) as Hc
    by (vm_compute; reflexivity).
  rewrite Eo, andb_true_iff in Hc. destruct Hc as [Hc1 Hc2].
  exists ss, t, live. split; [exact Eo|]. split; [|split; [exact Hr|exists [97]; split; [by left|split; [exact Hc1|exact Hc2]]]].
  rewrite Hb. eapply sst_file_impl; [|exact Hf]. apply plain_yields.
Qed.

Lemma sample_keys : StronglySorted not_after [[97]] /\ Forall (fun k : list Z => Z.of_nat (length k) < 2 ^ 32) [[97]] /\
  valid_range (MkRange 15 25).
Proof. split; [repeat constructor|]. split; [repeat constructor|]. unfold valid_range, is_i64. cbn [Min Max]. lia. Qed.

Lemma sst_DeleteRange_witness :
  exists t t' vs st1 st2, reader_DeleteRange Tombstone.identity_gzip Tombstone.Works Tombstone.Works t [[97]] 15 25 = Ok (t', None) /\
    ReadAll t [97] Block.test_pools = Ok (vs, st1) /\
    ReadAll t' [97] Block.test_pools = Ok (filter (fun v => ~ ([97] ∈ [[97]] /\ 15 <= UnixNano v <= 25)) vs, st2).
Proof.
  destruct sample_reader as (ss & t & live & _ & _ & Hr & _). destruct sample_keys as (K1 & K2 & K3).
  destruct (sst_DeleteRange Tombstone.identity_gzip Tombstone.identity_gzip_laws t sample_data ss live [] [[97]] 15 25 Hr K1 K2 K3)
    as (t' & live' & l' & E & _ & H).
  destruct (H [97] Block.test_pools test_pools_ok) as (vs & st1 & st2 & E1 & _ & E2 & _).
  exists t, t', vs, st1, st2. split; [exact E|]. split; [exact E1|exact E2].
Defined.

(** Of two deletions the first is forgotten. *)
Lemma sst_reopened_witness :
  exists t t1 t' t2 st', reader_DeleteRange Tombstone.identity_gzip Tombstone.Works Tombstone.Works t [[98]] 0 10 = Ok (t1, None) /\
    reader_DeleteRange Tombstone.identity_gzip Tombstone.Works Tombstone.Works t1 [[97]] 15 25 = Ok (t', None) /\
    NewSSTReader Tombstone.identity_gzip (m_b (accessor t1)) 0 (Tombstone.file (tombstoner t')) ∅ = Ok t2 /\
    ReadAll t2 [98] Block.test_pools = Ok ([BooleanValue 5 false], st').
Proof.
  destruct sample_reader as (ss & t & live & Eo & Hf & Hr & _). destruct sample_keys as (K1 & K2 & K3).
  destruct (DeleteRange_ok Tombstone.identity_gzip Tombstone.identity_gzip_laws t sample_data ss live [] [[98]] 0 10 Hr)
    as (t1 & live1 & l1 & E1 & Hr1 & _ & _ & _); [repeat constructor|repeat constructor|unfold valid_range, is_i64; cbn [Min Max]; lia|].
  assert ((match sample_opened with
    | Ok t => match reader_DeleteRange Tombstone.identity_gzip Tombstone.Works Tombstone.Works t [[98]] 0 10 with
        | Ok (t1, _) => ContainsKey (index_of t1) [97] && reader_OverlapsTimeRange t1 15 25 && bool_decide (m_b (accessor t1) = m_b (accessor t))
        | _ => false end
    | _ => false end) = true) as Hc by (vm_compute; reflexivity).
  rewrite Eo, E1, !andb_true_iff, bool_decide_eq_true in Hc. destruct Hc as [[Hc1 Hc2] Hb].
  assert (concerns t1 [[97]] 15 25) as Hc3 by (exists [97]; split; [by left|split; [exact Hc1|exact Hc2]]).
  rewrite <- Hb in Hf.
  destruct (sst_reopened Tombstone.identity_gzip Tombstone.identity_gzip_laws t1 sample_data ss live1 l1 [[97]] 15 25 0 ∅ Hf Hr1 K1 K2 K3 Hc3)
    as (t' & t2 & E2 & E3 & H).
  destruct (H [98] Block.test_pools test_pools_ok) as (st' & E4 & _).
  exists t, t1, t', t2, st'. split; [exact E1|]. split; [exact E2|]. split; [exact E3|]. exact E4.
Defined.

End SSTReaderLaws.
