(* ===== verification/SSTIter.v ===== *)
(** Iterating over the blocks of a data file and copying them into another: the
    [BlockIterator] of src/storage/store/sst_reader.go and [WriteBlock]. *)
From stdpp Require Import gmap sorting.
From S2P Require Import Prelude Binary Checksum Float FloatLaws Values Block Bytes Util SSTIndex IndirectIndex IndexLaws IndexDelete Tombstone VFile VFileManager SSTWriter SSTWriterLaws SSTAccess SSTReader SSTReaderLaws.
Import Values Util SSTIndex IndirectIndex IndexLaws IndexDelete VFileManager SSTWriter SSTWriterLaws SSTAccess SSTReader
  SSTReaderLaws.

Module SSTIter.

Abbreviation block_record := (list Z * Z * Z * Z * Z * list Z)%type.

(** [for iter.Next() { iter.Read() }], to the end or the first error. *)
Fixpoint iterate (fuel : nat) (t : SSTReader) (b : BlockIterator) : outcome (list block_record) :=
  match fuel with
  | O => Panic
  | S fuel =>
      '(b, more) ← Next t b;
      if more : bool then
        let '(b, r) := iter_Read t b in
        x ← r; rest ← iterate fuel t b; Ok (x :: rest)
      else match b_err b with Some e => Err e | None => Ok [] end
  end.

(** Copying blocks: what a compaction does with blocks it has no reason to decode. *)
Fixpoint write_records (resort : list IndexEntry -> list IndexEntry) (w : sstWriter) (rs : list block_record) : outcome sstWriter :=
  match rs with
  | [] => Ok w
  | (key, minTime, maxTime, _, _, b) :: rs =>
      '(w, err) ← WriteBlock resort w key minTime maxTime b;
      match err with Some e => Err e | None => write_records resort w rs end
  end.

(** ** Specification *)

(** The blocks of the index, key after key. *)
Definition section_entries (os : Z * section) : list (list Z * Z * IndexEntry) :=
  (fun e => (s_key (snd os), s_type (snd os), e)) <$> s_entries (snd os).
Definition all_entries (live : list (Z * section)) : list (list Z * Z * IndexEntry) := concat (section_entries <$> live).

Definition entry_record (t : SSTReader) (x : list Z * Z * IndexEntry) : outcome block_record :=
  let '(key, ty, e) := x in
  '(crc, b) ← ReadBytes t e;
  Ok (key, MinTime e, MaxTime e, ty, crc, b).

(** * Lemmas *)
Section iterator.
Context (t : SSTReader) (ss : list section) (live : list (Z * section)) (H : reads (index_of t) ss live).

Lemma iter_Read_cases j m key ty e es :
  iter_Read t (MkIter j m key (e :: es) ty None) =
    match entry_record t (key, ty, e) with
    | Ok x => (MkIter j m key (e :: es) ty None, Ok x)
    | Err err => (MkIter j m key (e :: es) ty (Some err), Err err)
    | Panic => (MkIter j m key (e :: es) ty None, Panic)
    end.
Proof. unfold iter_Read, entry_record. cbn. by destruct (ReadBytes t e) as [[crc b]|err|]. Qed.

Lemma Next_more j m key ty e e1 es :
  Next t (MkIter j m key (e :: e1 :: es) ty None) = Ok (MkIter j m key (e1 :: es) ty None, true).
Proof. unfold Next. cbn [b_err b_entries i n_keys b_key typ drop]. by rewrite (bool_decide_false (_ :: _ = [])), andb_false_r. Qed.

(** The next key, when at most the current block is left of this one. *)
Lemma Next_key k key ty es o s :
  (length es <= 1)%nat -> live !! k = Some (o, s) ->
  Next t (MkIter (Z.of_nat k) (KeyCount (index_of t)) key es ty None) =
    Ok (MkIter (Z.of_nat k + 1) (KeyCount (index_of t)) (s_key s) (s_entries s) (s_type s) None, true).
Proof.
  intros Hes Hk. pose proof (lookup_lt_Some _ _ _ Hk) as Hlt. unfold Next. cbn [b_err b_entries i n_keys b_key typ].
  rewrite (KeyCount_live _ _ _ H). rewrite (proj2 (Z.eqb_neq _ 0)) by lia.
  rewrite bool_decide_false by (by intros Hn; apply Hn). cbn [andb].
  assert (drop 1 es = []) as -> by (apply drop_ge; lia). rewrite bool_decide_false by (cbn; lia).
  rewrite (proj2 (Z.ltb_lt 0 _)) by lia. unfold reader_Key. destruct (Key_live _ _ _ H k o s Hk) as [-> _]. cbn [mbind outcome_bind].
  unfold reader_KeyCount. rewrite (KeyCount_live _ _ _ H), Z.eqb_refl. cbn [negb i n_keys b_key typ].
  destruct (live_elem _ _ _ H o s) as (_ & _ & _ & _ & (_ & _ & _ & Hne & _) & _); [by eapply list_elem_of_lookup_2|].
  rewrite bool_decide_true by (destruct (s_entries s); [done|cbn; lia]). done.
Qed.

Lemma iter_end key ty es :
  (length es <= 1)%nat -> exists es',
  Next t (MkIter (KeyCount (index_of t)) (KeyCount (index_of t)) key es ty None) =
    Ok (MkIter (KeyCount (index_of t)) (KeyCount (index_of t)) key es' ty None, false).
Proof.
  intros Hes. unfold Next. cbn [b_err b_entries i n_keys b_key typ].
  rewrite bool_decide_false by (by intros Hn; apply Hn). rewrite Z.sub_diag. cbn [Z.eqb andb].
  destruct es as [|e [|]]; [by eexists|by eexists|cbn in Hes; lia].
Qed.

Lemma iterate_from fuel : forall k key ty es,
  (length (drop 1 es) + length (all_entries (drop k live)) < fuel)%nat -> (k <= length live)%nat ->
  iterate fuel t (MkIter (Z.of_nat k) (KeyCount (index_of t)) key es ty None) =
    mapM (entry_record t) (((fun e => (key, ty, e)) <$> drop 1 es) ++ all_entries (drop k live)).
Proof.
  induction fuel as [|fuel IH]; intros k key ty es Hf Hk; [lia|]. cbn [iterate].
  destruct (decide (length es <= 1)%nat) as [Hes|Hes].
  - assert (drop 1 es = []) as Hd by (apply drop_ge; lia). rewrite Hd in *. cbn [fmap list_fmap app length] in *.
    destruct (decide (k = length live)) as [->|Hne].
    + rewrite drop_ge by done. destruct (iter_end key ty es Hes) as (es' & E). rewrite (KeyCount_live _ _ _ H) in *. rewrite E. done.
    + destruct (lookup_lt_is_Some_2 live k) as [[o s] Hos]; [lia|]. rewrite (Next_key k key ty es o s Hes Hos). cbn [mbind outcome_bind].
      rewrite (drop_S live (o, s) k Hos) in *. unfold all_entries in *. rewrite fmap_cons in *. cbn [concat] in *.
      destruct (live_elem _ _ _ H o s) as (_ & _ & _ & _ & (_ & _ & _ & Hse & _) & _); [by eapply list_elem_of_lookup_2|].
      unfold section_entries at 1 in Hf. unfold section_entries at 1. cbn [snd] in *. destruct (s_entries s) as [|e0 es0]; [done|].
      rewrite fmap_cons in *. cbn [app mapM length] in *. rewrite iter_Read_cases.
      destruct (entry_record t (s_key s, s_type s, e0)) as [x| |]; [|done..]. cbn [mbind outcome_bind].
      change (Z.of_nat k + 1) with (Z.of_nat k + Z.of_nat 1). rewrite <- Nat2Z.inj_add, Nat.add_1_r.
      rewrite (IH (S k)); [done| |lia]. cbn [drop]. unfold all_entries. rewrite length_app, length_fmap in Hf.
      rewrite drop_0. lia.
  - destruct es as [|e [|e1 es]]; [cbn in Hes; lia..|]. rewrite Next_more. cbn [mbind outcome_bind drop] in *.
    rewrite iter_Read_cases, fmap_cons. cbn [app mapM].
    destruct (entry_record t (key, ty, e1)) as [x| |]; [|done..]. cbn [mbind outcome_bind].
    rewrite (IH k); [done| |done]. cbn [length drop] in *. rewrite ?drop_0 in *. lia.
Qed.
End iterator.


(** ** Copies *)
Section copy.
Context {St : Type} {Codec : BlockCodec St} {Laws : BlockCodecLaws St}.
Context (resort : list IndexEntry -> list IndexEntry) (Hsort : sorts resort).

(** The blocks of a section, as they are in the file. *)
Definition item_of (t : SSTReader) (e : IndexEntry) : block_item :=
  (MinTime e, MaxTime e, match ReadBytes t e with Ok (_, b) => b | _ => [] end).
Definition key_items (t : SSTReader) (s : section) : list Z * list block_item := (s_key s, item_of t <$> s_entries s).

Definition item_ok (x : block_item) : Prop := exists ty, Block.BlockType (snd x) = Ok ty.

Lemma holds_block_item t vs e :
  holds_block (vr (accessor t)) (m_b (accessor t)) vs e ->
  exists crc b, ReadBytes t e = Ok (crc, b) /\ item_of t e = (MinTime e, MaxTime e, b) /\ item_ok (item_of t e) /\
    yields (vr (accessor t)) b vs /\ spans vs e.
Proof.
  intros (Hlen & ty & b & Hst & Hty & Hy & Hsp). destruct (stored_bytes (accessor t) e b Hlen Hst) as (_ & _ & crc & Hr & _).
  exists crc, b. unfold item_ok, item_of, ReadBytes. rewrite Hr. split_and!; [done|done|by exists ty|done|done].
Qed.

Lemma write_records_app w rs rs' : write_records resort w (rs ++ rs') = (w ← write_records resort w rs; write_records resort w rs').
Proof.
  revert w. induction rs as [|x rs IH]; intros w; [done|]. destruct x as [[[[[key mn] mx] ty] crc] b]. cbn [app write_records].
  destruct (WriteBlock resort w key mn mx b) as [[w1 [e|]]|e|]; cbn [mbind outcome_bind]; [done|apply IH|done|done].
Qed.

(** Copying the records of a key is giving its blocks to the writer. *)
Lemma write_records_key t w s (vss : list (list Value)) :
  Forall2 (holds_block (vr (accessor t)) (m_b (accessor t))) vss (s_entries s) -> forall o,
  exists rs, mapM (entry_record t) (section_entries (o, s)) = Ok rs /\
    (w ← write_records resort w rs; Ok (w, tt)) = feed_key (write_item resort) w (s_key s) (item_of t <$> s_entries s) tt.
Proof.
  intros Hf o. unfold section_entries. cbn [snd]. revert w. induction Hf as [|vs e vss es Hb Hf IH]; intros w; [by exists []|].
  destruct (holds_block_item t vs e Hb) as (crc & b & Hr & Hi & _). rewrite !fmap_cons. cbn [mapM entry_record]. rewrite Hr, Hi.
  cbn [mbind outcome_bind]. destruct (IH w) as (rs & E & _). rewrite E. cbn [mbind outcome_bind]. eexists. split; [done|].
  cbn [write_records feed_key write_item].
  destruct (WriteBlock resort w (s_key s) (MinTime e) (MaxTime e) b) as [[w1 [err|]]|err|]; cbn [mbind outcome_bind]; try done.
  destruct (IH w1) as (rs1 & E1 & E2). rewrite E in E1. injection E1 as <-. done.
Qed.

Lemma write_records_all t (data : list (list Z * list (list Value))) ss :
  Forall2 (fun kb s => s_key s = fst kb /\ Forall2 (holds_block (vr (accessor t)) (m_b (accessor t))) (snd kb) (s_entries s)) data ss ->
  forall live w, snd <$> live = ss ->
  exists rs, mapM (entry_record t) (all_entries live) = Ok rs /\
    (w ← write_records resort w rs; Ok (w, tt)) = feed (write_item resort) w (key_items t <$> ss) tt.
Proof.
  intros Hf. induction Hf as [|kb s data ss [_ Hb] Hf IH]; intros live w Hl.
  - apply fmap_nil_inv in Hl as ->. by exists [].
  - destruct live as [|[o s'] live]; [done|]. injection Hl as -> Hl. unfold all_entries. rewrite !fmap_cons. cbn [concat].
    destruct (write_records_key t w s (snd kb) Hb o) as (rs1 & E1 & F1). destruct (IH live w Hl) as (rs2 & E2 & _).
    assert (mapM (entry_record t) (section_entries (o, s) ++ concat (section_entries <$> live)) = Ok (rs1 ++ rs2)) as ->.
    { revert E1 E2. unfold all_entries. clear. generalize (section_entries (o, s)) as l. intros l. revert rs1.
      induction l as [|x l IH]; intros rs1; cbn [mapM app]; [by intros [= <-]|].
      destruct (entry_record t x) as [y| |]; [|done..]. cbn [mbind outcome_bind].
      destruct (mapM (entry_record t) l) as [ys| |]; [|done..]. cbn [mbind outcome_bind]. intros [= <-] E2. by rewrite (IH ys eq_refl E2). }
    exists (rs1 ++ rs2). split; [done|]. rewrite write_records_app. cbn [feed key_items]. rewrite <- F1.
    destruct (write_records resort w rs1) as [w1| |]; [|done..]. cbn [mbind outcome_bind].
    destruct (IH live w1 Hl) as (rs3 & E3 & F3). rewrite E2 in E3. injection E3 as <-. exact F3.
Qed.

Lemma write_item_stepped t prev k l x st :
  k <> [] -> Z.of_nat (length k) <= maxKeyLength -> Z.of_nat (length l) + 1 < maxIndexEntries ->
  True -> item_ok x -> adding resort (windex t) prev (k, l) ->
  exists t' st' te, write_item resort t k x st = Ok (t', None, st') /\ True /\
    stepped resort t t' prev k l te (fun bytes => wrote_item bytes x te).
Proof.
  destruct x as [[mn mx] b]. intros Hk Hkl Hl _ [ty Hty] Hadd. cbn [snd] in Hty.
  destruct (WriteBlock_stepped resort Hsort t prev k l mn mx b ty Hk Hkl Hl Hty Hadd) as (t' & te & E & Hst).
  exists t', tt, te. unfold write_item. by rewrite E.
Qed.

Lemma items_data_ok t (data : list (list Z * list (list Value))) ss :
  data_ok timed data ->
  Forall2 (fun kb s => s_key s = fst kb /\ Forall2 (holds_block (vr (accessor t)) (m_b (accessor t))) (snd kb) (s_entries s)) data ss ->
  data_ok item_ok (key_items t <$> ss).
Proof.
  intros [Hs Hok] Hf. split.
  - rewrite <- list_fmap_compose. change (fst ∘ key_items t) with s_key.
    assert (s_key <$> ss = fst <$> data) as ->; [|done].
    clear -Hf. induction Hf as [|kb s data ss [H _] _ IH]; [done|]. by rewrite !fmap_cons, H, IH.
  - apply Forall_fmap, Forall_forall. intros s (i & Hi)%list_elem_of_lookup.
    destruct (Forall2_lookup_r _ _ _ _ _ Hf Hi) as (kb & Hkb & Hk & Hb).
    assert (key_ok timed kb) as (H1 & H2 & H3 & H4 & _) by (by eapply (Forall_lookup_1 (key_ok timed))).
    pose proof (Forall2_length _ _ _ Hb) as Hl. unfold key_ok. cbn [compose key_items fst snd]. rewrite Hk, length_fmap, <- Hl. split_and!; try done.
    + intros E%fmap_nil_inv. rewrite E in Hl. by destruct (snd kb).
    + apply Forall_fmap, Forall_forall. intros e (j & Hj)%list_elem_of_lookup. destruct (Forall2_lookup_r _ _ _ _ _ Hb Hj) as (vs & _ & Hvs).
      destruct (holds_block_item t vs e Hvs) as (crc & b & _ & _ & Hit & _). exact Hit.
Qed.

(** What was copied means the same. *)
Lemma copied_wrote t bytes vss es (g : list (Z * IndexEntry)) :
  Forall2 (holds_block (vr (accessor t)) (m_b (accessor t))) vss es ->
  Forall2 (wrote_item bytes) (item_of t <$> es) g -> Forall2 (wrote (yields (vr (accessor t))) bytes) vss g.
Proof.
  intros Hf. revert g. induction Hf as [|vs e vss es Hb Hf IH]; intros g Hg.
  - by apply Forall2_nil_inv_l in Hg as ->.
  - rewrite fmap_cons in Hg. apply Forall2_cons_inv_l in Hg as (te & g' & Hte & Hg & ->). constructor; [|by apply IH].
    destruct (holds_block_item t vs e Hb) as (crc & b & _ & Hi & _ & Hy & [S1 S2]). rewrite Hi in Hte.
    destruct Hte as (H1 & H2 & H3 & H4). exists b. split_and!; [done..|]. unfold spans. by rewrite H3, H4.
Qed.

(** Copying a file from which nothing was deleted. *)
Lemma copy_written t data ss :
  acc_inv (accessor t) data ss (layout 0 ss) -> data_ok timed data -> data <> [] ->
  exists rs w w' ss', mapM (entry_record t) (all_entries (layout 0 ss)) = Ok rs /\ write_records resort NewSSTWriter rs = Ok w /\
    WriteIndex resort w = Ok w' /\
    (Z.of_nat (length (written w')) < 2 ^ 31 -> sst_file (yields (vr (accessor t))) (written w') ss' data).
Proof.
  intros [Hidx Hb Hord] Hok Hne. pose proof (items_data_ok t data ss Hok Hb) as Hit.
  destruct (feed_adding resort Hsort (write_item resort) (fun _ => True) item_ok wrote_item
    (fun bytes bytes' x te Hp => ltac:(destruct x as [[mn mx] b]; intros (H1 & H2); split; [by eapply stored_mono|done]))
    write_item_stepped (key_items t <$> ss) NewSSTWriter [] tt Hit I) as (w & [] & gs & E & _ & Hgs & _ & Hpre & Hlast & Hw).
  { intros kb _. by left. }
  destruct (write_records_all t data ss Hb (layout 0 ss) NewSSTWriter (layout_snd 0 ss)) as (rs & Ers & Erw). rewrite E in Erw.
  destruct (write_records resort NewSSTWriter rs) as [w0| |] eqn:Ew0; [|done..]. injection Erw as ->.
  assert (key_items t <$> ss <> []) as Hne'.
  { intros Hn%fmap_nil_inv. subst ss. by apply Forall2_nil_inv_r in Hb. }
  rewrite Forall2_fmap_l in Hgs.
  destruct (close_file resort Hsort (yields (vr (accessor t))) w data gs Hok Hne Hord (Hlast Hne')) as (w' & E' & Hf).
  - by apply Hpre.
  - apply Forall2_same_length_lookup. split; [rewrite (Forall2_length _ _ _ Hb); by eapply Forall2_length|]. intros i kb g Hkb Hg.
    destruct (Forall2_lookup_l _ _ _ _ _ Hb Hkb) as (s & Hs & Hk & _). destruct (Forall2_lookup_lr _ _ _ _ _ _ Hgs Hs Hg) as [Hk' _].
    rewrite Hk'. exact Hk.
  - intros Hlen. destruct (Hw Hlen eq_refl) as [Hp Hi]. split; [done|]. rewrite Forall2_fmap_l in Hi.
    apply Forall2_same_length_lookup. split; [rewrite (Forall2_length _ _ _ Hb); by eapply Forall2_length|]. intros i kb g Hkb Hg.
    destruct (Forall2_lookup_l _ _ _ _ _ Hb Hkb) as (s & Hs & _ & Hbk). pose proof (Forall2_lookup_lr _ _ _ _ _ _ Hi Hs Hg) as Hig.
    unfold items in Hig. cbn [compose key_items snd] in Hig. by eapply copied_wrote.
  - by exists rs, w, w', (section_of resort <$> gs).
Qed.
End copy.

(** * Properties *)

(** C18: a block iterator visits every block.  Over an index that is not changed meanwhile,
    [Next] and [Read] give the blocks of all keys that were not deleted, each once, key
    after key and in the order of the index, up to the first that cannot be read, whose
    error ends the iteration. *)
Theorem iterate_visits t ss live :
  reads (index_of t) ss live ->
  iterate (S (length (all_entries live))) t (NewBlockIterator t) = mapM (entry_record t) (all_entries live).
Proof.
  intros H. unfold NewBlockIterator, reader_KeyCount. change 0 with (Z.of_nat 0) at 1.
  rewrite (iterate_from t ss live H _ 0%nat); [by rewrite drop_0|rewrite drop_0; cbn; lia|lia].
Qed.

(** [PeekNext] looks one key too far: after the last block of a key it gives the key after
    the one [Next] moves to. *)
Theorem PeekNext_skips t ss live k o1 s1 o2 s2 key e ty :
  reads (index_of t) ss live -> live !! k = Some (o1, s1) -> live !! S k = Some (o2, s2) ->
  let b := MkIter (Z.of_nat k) (KeyCount (index_of t)) key [e] ty None in
  PeekNext t b = Ok (s_key s2) /\ b_key <$> (fst <$> Next t b) = Ok (s_key s1).
Proof.
  intros H H1 H2 b. unfold b. split.
  - unfold PeekNext. cbn [b_entries length i n_keys]. rewrite bool_decide_false by lia.
    rewrite (KeyCount_live _ _ _ H). pose proof (lookup_lt_Some _ _ _ H2). rewrite (proj2 (Z.ltb_lt 1 _)) by lia.
    unfold reader_KeyAt. change 1 with (Z.of_nat 1) at 1. rewrite <- Nat2Z.inj_add, Nat.add_1_r.
    by destruct (Key_live _ _ _ H (S k) o2 s2 H2) as [_ ->].
  - by rewrite (Next_key t ss live H k key ty [e] o1 s1) by (done || cbn; lia).
Qed.

(** C8: a copy of a file holds the same.  The blocks of a file from which nothing was deleted,
    read one after the other as they are and given to [WriteBlock], make a file that
    reads the same: for every key, in whichever of the two files, [ReadAll] gives the
    same values, also when blocks are pointers into value files. *)
Theorem sst_copy {St} {Codec : BlockCodec St} {Laws : BlockCodecLaws St} resort gz t data ss modTime :
  sorts resort -> Tombstone.gzip_laws gz -> acc_inv (accessor t) data ss (layout 0 ss) -> tombstones (index_of t) = ∅ ->
  data_ok timed data -> data <> [] ->
  exists rs w w', iterate (S (length (all_entries (layout 0 ss)))) t (NewBlockIterator t) = Ok rs /\
    write_records resort NewSSTWriter rs = Ok w /\ WriteIndex resort w = Ok w' /\
    (Z.of_nat (length (written w')) < 2 ^ 31 -> exists t',
      NewSSTReader gz (written w') modTime None (vr (accessor t)) = Ok t' /\
      forall key st, bc_ok st -> exists vs st1 st2, ReadAll t key st = Ok (vs, st1) /\ ReadAll t' key st = Ok (vs, st2)).
Proof.
  intros Hsort Hgz Hm Ht Hok Hne. destruct (copy_written resort Hsort t data ss Hm Hok Hne) as (rs & w & w' & ss' & E1 & E2 & E3 & Hf).
  exists rs, w, w'. rewrite (iterate_visits t ss _ (inv_reads _ _ _ (acc_index _ _ _ _ Hm))). split_and!; [done..|]. intros Hlen.
  destruct (open_file gz Hgz (yields (vr (accessor t))) (written w') ss' data [] None modTime (vr (accessor t)) (Hf Hlen) ltac:(done)
    (acc_ordered _ _ _ _ Hm)) as (t' & live & Et & Hr & _ & Hv); [constructor|by right|].
  exists t'. split; [done|]. intros key st Hst.
  destruct (readAll_visible (accessor t) data ss (layout 0 ss) key st Hm Hst) as (st1 & R1 & _).
  destruct (ReadAll_ok gz t' data ss' live [] key st Hr Hst) as (st2 & R2 & _).
  exists (concat (blocks_of data key)), st1, st2. unfold ReadAll in *. rewrite R1, R2, Hv. split.
  - do 2 f_equal. by apply visible_all.
  - do 2 f_equal. apply filter_all. by apply Forall_true.
Qed.

(** ** Witnesses *)

#[local] Existing Instance test_codec.
#[local] Existing Instance test_laws.

Definition sample_iterated : SSTReader :=
  MkReader (MkAccessor 1 1 (replicate 60 7) sample ∅) (Tombstone.NewTombstoner true None None) 60 0 0 true.

Lemma iterate_visits_witness :
  iterate 2 sample_iterated (NewBlockIterator sample_iterated) = Ok [([99], -30, -5, 4, 0x07070707, [7; 7; 7])].
Proof.
  change 2%nat with (S (length (all_entries [(34, MkSection [99] 4 [MkIndexEntry (-30) (-5) 25 7])]))).
  rewrite (iterate_visits sample_iterated sample_sections _ sample_reads). vm_compute. reflexivity.
Defined.

Lemma length_entries {A} (R : list A -> IndexEntry -> Prop) (data : list (list Z * list (list A))) ss live :
  Forall2 (fun kb s => s_key s = fst kb /\ Forall2 R (snd kb) (s_entries s)) data ss -> snd <$> live = ss ->
  length (all_entries live) = length (concat (snd <$> data)).
Proof.
  intros Hf. revert live. induction Hf as [|kb s data ss [_ Hb] Hf IH]; intros live Hl.
  - by apply fmap_nil_inv in Hl as ->.
  - destruct live as [|[o s'] live]; [done|]. injection Hl as -> Hl. unfold all_entries. rewrite !fmap_cons. cbn [concat].
    rewrite !length_app. unfold section_entries at 1. cbn [snd]. rewrite length_fmap, (Forall2_length _ _ _ Hb). f_equal. by apply IH.
Qed.

Definition sample_copied : outcome sstWriter :=
  t ← sample_opened;
  rs ← iterate 4 t (NewBlockIterator t);
  w ← write_records (merge_sort starts_before) NewSSTWriter rs;
  WriteIndex (merge_sort starts_before) w.

Lemma sample_mapped : exists ss t,
  sample_opened = Ok t /\ acc_inv (accessor t) sample_data ss (layout 0 ss) /\ tombstones (index_of t) = ∅ /\ vr (accessor t) = ∅.
Proof.
  destruct sample_data_ok as [H1 H2]. pose proof test_pools_ok as Hst.
  destruct (sst_written (merge_sort starts_before) merge_sort_sorts true sample_data Block.test_pools H1 ltac:(discriminate) H2 Hst)
    as (w & st & w' & ss & E & _ & E' & Hf).
  assert (sample_written = Ok (w', st)) as Ew by (unfold sample_written; rewrite E; cbn [mbind outcome_bind]; by rewrite E').
  specialize (Hf (sample_short w' st Ew)).
  destruct (init_file plain (written w') ss sample_data ∅ Hf (plain_yields ∅) H2) as (m & Em & _ & Hv & Hm & Ht & _).
  exists ss, (MkReader m (Tombstone.NewTombstoner true (Some (ContainsKey (m_index m))) None) (Z.of_nat (length (written w'))) 0 0 true).
  split; [|split; [exact Hm|split; [exact Ht|exact Hv]]].
  unfold sample_opened. rewrite Ew. cbn [mbind outcome_bind]. unfold NewSSTReader. rewrite Em. cbn [mbind outcome_bind].
  unfold applyTombstones, apply_walk. cbn [tombstoner Tombstone.Walk Tombstone.file Tombstone.NewTombstoner mbind outcome_bind batch a_index].
  unfold with_reader_index, with_index, index_of. cbn [accessor tombstoner]. by destruct m.
Qed.

Lemma sst_copy_witness : exists t rs w w' t' vs st1 st2,
  iterate 4 t (NewBlockIterator t) = Ok rs /\
  write_records (merge_sort starts_before) NewSSTWriter rs = Ok w /\ WriteIndex (merge_sort starts_before) w = Ok w' /\
  NewSSTReader Tombstone.identity_gzip (written w') 0 None ∅ = Ok t' /\
  ReadAll t [97] Block.test_pools = Ok (vs, st1) /\ ReadAll t' [97] Block.test_pools = Ok (vs, st2).
Proof.
  destruct sample_mapped as (ss & t & Eo & Hm & Ht & Hv). destruct sample_data_ok as [H1 _].
  destruct (sst_copy (merge_sort starts_before) Tombstone.identity_gzip t sample_data ss 0 merge_sort_sorts Tombstone.identity_gzip_laws Hm Ht
    (data_ok_timed _ H1) ltac:(discriminate)) as (rs & w & w' & E1 & E2 & E3 & H).
  rewrite (length_entries _ sample_data ss (layout 0 ss) (acc_blocks _ _ _ _ Hm) (layout_snd 0 ss)) in E1.
  assert (sample_copied = Ok w') as Ec.
  { unfold sample_copied. rewrite Eo. cbn [mbind outcome_bind]. change 4%nat with (S (length (concat (snd <$> sample_data)))).
    rewrite E1. cbn [mbind outcome_bind]. rewrite E2. exact E3. }
  assert ((match sample_copied with Ok w => Z.of_nat (length (written w)) <? 2 ^ 31 | _ => false end) = true) as Hl by (vm_compute; reflexivity).
  rewrite Ec, Z.ltb_lt in Hl. destruct (H Hl) as (t' & Et' & Hr).
  destruct (Hr [97] Block.test_pools test_pools_ok) as (vs & st1 & st2 & R1 & R2). rewrite Hv in Et'.
  exists t, rs, w, w', t', vs, st1, st2. split; [exact E1|]. split; [exact E2|]. split; [exact E3|]. split; [exact Et'|]. split; [exact R1|exact R2].
Defined.

End SSTIter.
