(* ===== verification/Planner.v ===== *)
(** The planner of compactions: src/storage/compactor/planner.go and type_generation.go.

    What the planner asks of the store of data files is a record of answers, the same
    during a call. Times are numbers, of which 0 is the zero time. *)
From stdpp Require Import gmap sets sorting.
From S2P Require Import Prelude Bytes Util SSTReader.
Import Util.

Module Planner.

Abbreviation path := (list Z).

(** The name of a file, and what its reader says of it. *)
Record FileStat := MkStat { Path : path; stat : SSTReader.FileStat }.

Definition HasTombstone (f : FileStat) : bool := SSTReader.HasTombstone (stat f).
Definition f_Size (f : FileStat) : Z := SSTReader.f_Size (stat f).

(** The interface [FileStore]; a name that cannot be parsed gives zeros. *)
Record FileStore := MkStore {
  Stats : list FileStat; LastModified : Z; BlockCount : path -> Z -> Z; ParseFileName : path -> Z * Z }.

(** ** Generations *)

Record sstGeneration := MkGen { id : Z; files : list FileStat }.

Definition maxSSTFileSize : Z := 2048 * 1024 * 1024.
Definition DefaultMaxPointsPerBlock : Z := 2000.

Definition size (g : sstGeneration) : Z := foldl (fun n f => u64 (n + f_Size f)) 0 (files g).
Definition count (g : sstGeneration) : nat := length (files g).
Definition has_tombstones (g : sstGeneration) : bool := existsb HasTombstone (files g).
Definition any_tombstones (a : list sstGeneration) : bool := existsb has_tombstones a.

Definition level (st : FileStore) (g : sstGeneration) : outcome Z :=
  f ← index (files g) 0;
  let seq := snd (ParseFileName st (Path f)) in
  Ok (if seq <? 4 then seq else 4).

Fixpoint level_from (st : FileStore) (lv : Z) (a : list sstGeneration) : outcome Z :=
  match a with
  | [] => Ok lv
  | g :: a => l ← level st g; level_from st (if lv <? l then l else lv) a
  end.
Definition levels (st : FileStore) (a : list sstGeneration) : outcome Z := level_from st 0 a.

(** A round takes at least one generation when the chunks have a size. *)
Fixpoint chunk_loop (fuel : nat) (a : list sstGeneration) (sz : nat) : list (list sstGeneration) :=
  match fuel, a with
  | O, _ | _, [] => []
  | S fuel, _ => if bool_decide (sz <= length a)%nat then take sz a :: chunk_loop fuel (drop sz a) sz else [a]
  end.
Definition chunk (a : list sstGeneration) (sz : nat) : list (list sstGeneration) := chunk_loop (length a) a sz.

Definition paths (a : list sstGeneration) : list path := Path <$> concat (files <$> a).

(** ** The planner *)

Record DefaultPlanner := MkPlanner {
  coldDuration : Z; lastPlanCheck : Z; lastFindGenerations : Z; lastGenerations : list sstGeneration;
  forceFull : bool; filesInUse : gset path }.

Definition NewDefaultPlanner (writeColdDuration : Z) : DefaultPlanner := MkPlanner writeColdDuration 0 0 [] false ∅.

Definition with_cache (c : DefaultPlanner) (t : Z) (gens : list sstGeneration) : DefaultPlanner :=
  MkPlanner (coldDuration c) (lastPlanCheck c) t gens (forceFull c) (filesInUse c).
Definition with_force (c : DefaultPlanner) (b : bool) : DefaultPlanner :=
  MkPlanner (coldDuration c) (lastPlanCheck c) (lastFindGenerations c) (lastGenerations c) b (filesInUse c).
Definition with_check (c : DefaultPlanner) (t : Z) : DefaultPlanner :=
  MkPlanner (coldDuration c) t (lastFindGenerations c) (lastGenerations c) (forceFull c) (filesInUse c).
Definition with_use (c : DefaultPlanner) (u : gset path) : DefaultPlanner :=
  MkPlanner (coldDuration c) (lastPlanCheck c) (lastFindGenerations c) (lastGenerations c) (forceFull c) u.

Definition ForceFull (c : DefaultPlanner) : DefaultPlanner := with_force c true.

(** The map of generations; its keys differ, so that any sort by them gives one list,
    whatever the order in which the map is visited. *)
Definition add_file (st : FileStore) (m : gmap Z (list FileStat)) (f : FileStat) : gmap Z (list FileStat) :=
  let gen := fst (ParseFileName st (Path f)) in
  <[gen := default [] (m !! gen) ++ [f]]> m.
Definition by_id (a b : sstGeneration) : Prop := id a <= id b.
#[global] Instance by_id_dec a b : Decision (by_id a b).
Proof. unfold by_id. apply _. Defined.
Definition ordered_generations (m : gmap Z (list FileStat)) : list sstGeneration :=
  merge_sort by_id ((fun '(gen, fs) => MkGen gen fs) <$> map_to_list m).

Definition findGenerations (st : FileStore) (c : DefaultPlanner) (skipInUse : bool) : DefaultPlanner * list sstGeneration :=
  if negb (lastFindGenerations c =? 0) && (LastModified st =? lastFindGenerations c) then (c, lastGenerations c) else
  let fs := filter (fun f => ~ (skipInUse = true /\ Path f ∈ filesInUse c)) (Stats st) in
  let gens := ordered_generations (foldl (add_file st) ∅ fs) in
  (with_cache c (LastModified st) gens, gens).

Definition acquire (c : DefaultPlanner) (groups : list (list path)) : DefaultPlanner * bool :=
  if existsb (fun f => bool_decide (f ∈ filesInUse c)) (concat groups) then (c, false)
  else (with_use c (filesInUse c ∪ list_to_set (concat groups)), true).

Definition Release (c : DefaultPlanner) (groups : list (list path)) : DefaultPlanner :=
  with_use c (filesInUse c ∖ list_to_set (concat groups)).

(** [nil] when the files cannot be acquired, and the number of groups in any case. *)
Definition plan_of (c : DefaultPlanner) (groups : list (list path)) : DefaultPlanner * (list (list path) * Z) :=
  let '(c, ok) := acquire c groups in
  (c, (if ok : bool then groups else [], Z.of_nat (length groups))).

Definition FullyCompacted (st : FileStore) (c : DefaultPlanner) : DefaultPlanner * bool :=
  let '(c, gens) := findGenerations st c false in
  (c, negb (bool_decide (1 < length gens)%nat) && negb (any_tombstones gens)).

(** Adjacent generations of one level; a generation of a lower level than the next joins the
    group at hand. [skip] are the generations left out. *)
Fixpoint group_loop (st : FileStore) (skip : sstGeneration -> outcome bool) (gens cur : list sstGeneration)
    (groups : list (list sstGeneration)) : outcome (list (list sstGeneration)) :=
  match gens with
  | [] => Ok (match cur with [] => groups | _ => groups ++ [cur] end)
  | g :: rest =>
      sk ← skip g;
      if sk : bool then group_loop st skip rest cur groups else
      orphan ← (match rest with
                | next :: _ => l ← level st g; n ← level st next; Ok (l <? n)
                | [] => Ok false
                end);
      if orphan : bool then group_loop st skip rest (cur ++ [g]) groups else
      same ← (match cur with
              | [] => Ok true
              | _ => c ← levels st cur; l ← level st g; Ok (c =? l)
              end);
      if same : bool then group_loop st skip rest (cur ++ [g]) groups
      else group_loop st skip rest [g] (groups ++ [cur])
  end.

(** The groups of a level. *)
Fixpoint of_level (st : FileStore) (lv : Z) (groups : list (list sstGeneration)) : outcome (list (list sstGeneration)) :=
  match groups with
  | [] => Ok []
  | g :: groups =>
      l ← levels st g;
      rest ← of_level st lv groups;
      Ok (if l =? lv then g :: rest else rest)
  end.

Definition nothing (gens : list sstGeneration) : bool := bool_decide (length gens <= 1)%nat && negb (any_tombstones gens).

Definition PlanLevel (st : FileStore) (c : DefaultPlanner) (lv : Z) : outcome (DefaultPlanner * (list (list path) * Z)) :=
  if forceFull c then Ok (c, ([], 0)) else
  let '(c, gens) := findGenerations st c true in
  if nothing gens then Ok (c, ([], 0)) else
  groups ← group_loop st (fun _ => Ok false) gens [] [];
  levelGroups ← of_level st lv groups;
  let minGenerations := if lv =? 1 then 8%nat else 4%nat in
  let chunks := concat ((fun g => chunk g minGenerations) <$> levelGroups) in
  let cGroups := paths <$> filter (fun ch => ~ ((length ch < minGenerations)%nat /\ any_tombstones ch = false)) chunks in
  Ok (plan_of c cGroups).

(** Over the maximal size, with a full block. *)
Definition oversized (st : FileStore) (strict : bool) (g : sstGeneration) : outcome bool :=
  if (if strict then maxSSTFileSize <? size g else maxSSTFileSize <=? size g) then
    f ← index (files g) 0; Ok (BlockCount st (Path f) 1 =? DefaultMaxPointsPerBlock)
  else Ok false.

Definition optimize_skip (st : FileStore) (g : sstGeneration) : outcome bool :=
  if bool_decide (2 < count g)%nat then
    o ← oversized st true g; Ok (o && negb (has_tombstones g))
  else Ok false.

Definition PlanOptimize (st : FileStore) (c : DefaultPlanner) : outcome (DefaultPlanner * (list (list path) * Z)) :=
  if forceFull c then Ok (c, ([], 0)) else
  let '(c, gens) := findGenerations st c true in
  if nothing gens then Ok (c, ([], 0)) else
  groups ← group_loop st (optimize_skip st) gens [] [];
  levelGroups ← of_level st 4 groups;
  Ok (plan_of c (paths <$> filter (fun g => ~ ((length g < 4)%nat /\ any_tombstones g = false)) levelGroups)).

(** ** The full plan and the plan of level 4 *)

(** The generations of a full plan. *)
Fixpoint full_loop (st : FileStore) (many : bool) (gens : list sstGeneration) : outcome (list sstGeneration) :=
  match gens with
  | [] => Ok []
  | g :: rest =>
      skip ← (if many then o ← oversized st true g; Ok (o && negb (has_tombstones g)) else Ok false);
      skip ← (match rest with
              | next :: _ => l ← level st next; Ok (if l <=? 3 then false else skip)
              | [] => Ok skip
              end);
      r ← full_loop st many rest;
      Ok (if skip : bool then r else g :: r)
  end.

Fixpoint end_loop (st : FileStore) (gens : list sstGeneration) : outcome nat :=
  match gens with
  | [] => Ok 0%nat
  | g :: rest => l ← level st g; if l <=? 3 then Ok 0%nat else n ← end_loop st rest; Ok (S n)
  end.

(** Where the examined generations begin; [prev] is the generation before, [i] the position. *)
Fixpoint start_loop (st : FileStore) (gens : list sstGeneration) (prev : option sstGeneration) (i start : nat) (tombs : bool)
    : outcome nat :=
  match gens with
  | [] => Ok start
  | g :: rest =>
      let tombs := tombs || has_tombstones g in
      if tombs then start_loop st rest (Some g) (S i) start tombs else
      o ← oversized st true g;
      let start := if o : bool then S i else start in
      match prev with
      | Some p => if u64 (size g * 2) <? size p then Ok i else start_loop st rest (Some g) (S i) start tombs
      | None => start_loop st rest (Some g) (S i) start tombs
      end
  end.

(** A window of generations: [None] when one of a lower level is in it, otherwise how many are
    skipped. *)
Fixpoint window (st : FileStore) (gens : list sstGeneration) : outcome (option nat) :=
  match gens with
  | [] => Ok (Some 0%nat)
  | g :: rest =>
      l ← level st g;
      if l <=? 3 then Ok None else
      o ← oversized st false g;
      r ← window st rest;
      Ok (match r with Some n => Some (if o && negb (has_tombstones g) then S n else n) | None => None end)
  end.

Fixpoint step_loop (fuel : nat) (st : FileStore) (gens : list sstGeneration) (step : nat) : outcome (list (list sstGeneration)) :=
  match gens with
  | [] => Ok []
  | _ =>
      match fuel with
      | O => Panic
      | S fuel =>
          w ← window st (take step gens);
          rest ← step_loop fuel st (drop step gens) step;
          Ok (match w with
              | Some n => match drop n (take step gens) with [] => rest | g => g :: rest end
              | None => rest
              end)
      end
  end.

(** [now] is the time of the call. *)
Definition Plan (st : FileStore) (c : DefaultPlanner) (now lastWrite : Z) : outcome (DefaultPlanner * (list (list path) * Z)) :=
  let '(c, gens) := findGenerations st c true in
  if forceFull c || ((0 <? coldDuration c) && (coldDuration c <? now - lastWrite) && bool_decide (1 < length gens)%nat) then
    let c := with_force c false in
    gs ← full_loop st (bool_decide (2 < length gens)%nat) gens;
    let sstFiles := Sort (paths gs) in
    if bool_decide (length sstFiles <= 1)%nat || bool_decide (length gs <= 1)%nat then Ok (c, ([], 0))
    else Ok (plan_of c [sstFiles])
  else if (LastModified st <? lastPlanCheck c) && negb (any_tombstones gens) then Ok (c, ([], 0)) else
  let c := with_check c now in
  if nothing gens then Ok (c, ([], 0)) else
  end_ ← end_loop st gens;
  start ← start_loop st (take end_ gens) None 0 0 false;
  let step := Nat.min 4 end_ in
  let gens := drop start (take end_ gens) in
  groups ← step_loop (length gens) st gens step;
  match groups with
  | [] => Ok (c, ([], 0))
  | _ =>
      let compactable := filter (fun g => ~ ((length g < 4)%nat /\ any_tombstones g = false)) groups in
      Ok (plan_of c (Sort ∘ paths <$> compactable))
  end.

End Planner.
