(* ===== verification/PlannerLaws.v ===== *)
(** The laws of the planner: no file is in two plans at a time, and what is planned
    together is contiguous. *)
From stdpp Require Import gmap sets sorting.
From S2P Require Import Prelude Bytes Util SSTReader Planner.
Import Util Planner.

Module PlannerLaws.

(** ** Specification *)

(** Generations as [findGenerations] makes them: none is empty and no file is there twice. *)
Definition gens_ok (a : list sstGeneration) : Prop := Forall (fun g => files g <> []) a /\ NoDup (paths a).

(** Whatever the store says, its files have different names. *)
Definition store_ok (st : FileStore) : Prop := NoDup (Path <$> Stats st).

Definition planner_ok (c : DefaultPlanner) : Prop := gens_ok (lastGenerations c).

(** The pieces of a division of generations, some of which are planned. *)
Definition pieces_of (gens : list sstGeneration) (R : list (list sstGeneration)) : Prop :=
  exists parts, concat parts = gens /\ R `sublist_of` parts.

(** * Lemmas *)

Lemma paths_app a b : paths (a ++ b) = paths a ++ paths b.
Proof. unfold paths. by rewrite fmap_app, concat_app, fmap_app. Qed.

Lemma paths_concat P : concat (paths <$> P) = paths (concat P).
Proof. induction P as [|a P IH]; [done|]. rewrite fmap_cons. cbn [concat]. by rewrite IH, paths_app. Qed.

Lemma paths_sublist a b : a `sublist_of` b -> paths a `sublist_of` paths b.
Proof. intros H. unfold paths. by apply fmap_sublist, concat_sublist, fmap_sublist. Qed.

Lemma gens_ok_sublist a b : a `sublist_of` b -> gens_ok b -> gens_ok a.
Proof.
  intros H [H1 H2]. split; [|by eapply sublist_NoDup; [exact H2|apply paths_sublist]].
  rewrite Forall_forall in *. intros g Hg. apply H1. by eapply elem_of_sublist.
Qed.

Lemma pieces_paths gens R : pieces_of gens R -> NoDup (paths gens) -> NoDup (concat (paths <$> R)).
Proof.
  intros (parts & <- & Hs) Hn. rewrite paths_concat. eapply sublist_NoDup; [exact Hn|]. by apply paths_sublist, concat_sublist.
Qed.

(** ** Levels *)

Lemma level_ok st g : files g <> [] -> exists l, level st g = Ok l /\ l <= 4.
Proof.
  unfold level. destruct (files g) as [|f fs]; [done|]. intros _. eexists. split; [done|]. cbn. destruct (Z.ltb_spec (snd (ParseFileName st (Path f))) 4); lia.
Qed.

Lemma levels_ok st a : Forall (fun g => files g <> []) a -> exists l, levels st a = Ok l.
Proof.
  unfold levels. generalize 0 as lv. induction a as [|g a IH]; intros lv H; cbn [level_from]; [by eexists|].
  apply Forall_cons in H as [Hg Ha]. destruct (level_ok st g Hg) as (l & -> & _). cbn [mbind outcome_bind]. by apply IH.
Qed.

Lemma oversized_ok st b g : files g <> [] -> exists o, oversized st b g = Ok o.
Proof.
  intros H. unfold oversized. destruct (if b then _ else _); [|by eexists]. destruct (files g); [done|]. by eexists.
Qed.

(** ** Grouping *)

Lemma group_loop_ok st skip (sk : sstGeneration -> bool) gens : forall cur groups,
  (forall g, g ∈ gens -> skip g = Ok (sk g)) ->
  Forall (fun g => files g <> []) gens -> Forall (fun g => files g <> []) cur ->
  exists gs, group_loop st skip gens cur groups = Ok gs /\ concat gs = concat groups ++ cur ++ filter (fun g => sk g = false) gens.
Proof.
  induction gens as [|g gens IH]; intros cur groups Hsk Hg Hc; cbn [group_loop].
  - eexists. split; [done|]. rewrite app_nil_r. destruct cur; [by rewrite app_nil_r|]. by rewrite concat_app; cbn; rewrite app_nil_r.
  - apply Forall_cons in Hg as [Hne Hg]. rewrite Hsk by (by left). cbn [mbind outcome_bind].
    assert (forall g', g' ∈ gens -> skip g' = Ok (sk g')) as Hsk' by (intros; apply Hsk; by right).
    rewrite filter_cons. destruct (sk g) eqn:Esk.
    { rewrite decide_False by done. by apply IH. }
    rewrite decide_True by done.
    assert (Forall (fun g => files g <> []) (cur ++ [g])) as Hcg by (apply Forall_app; auto).
    assert (exists o, match gens with next :: _ => l ← level st g; n ← level st next; Ok (l <? n) | [] => Ok false end = Ok o) as (o & ->).
    { destruct gens as [|next rest]; [by eexists|]. apply Forall_cons in Hg as [Hnext _].
      destruct (level_ok st g Hne) as (l & -> & _), (level_ok st next Hnext) as (n & -> & _). by eexists. }
    cbn [mbind outcome_bind]. destruct o.
    { destruct (IH (cur ++ [g]) groups Hsk' Hg Hcg) as (gs & -> & E). exists gs. rewrite E. by rewrite <- app_assoc. }
    assert (exists s, match cur with [] => Ok true | _ => c ← levels st cur; l ← level st g; Ok (c =? l) end = Ok s) as (s & ->).
    { destruct (levels_ok st cur Hc) as (c & Ec), (level_ok st g Hne) as (l & El & _). destruct cur; [by eexists|]. rewrite Ec. cbn [mbind outcome_bind].
      rewrite El. by eexists. }
    cbn [mbind outcome_bind]. destruct s.
    { destruct (IH (cur ++ [g]) groups Hsk' Hg Hcg) as (gs & -> & E). exists gs. rewrite E. by rewrite <- app_assoc. }
    destruct (IH [g] (groups ++ [cur]) Hsk' Hg) as (gs & -> & E); [auto|]. exists gs. rewrite E, concat_app. cbn [concat].
    by rewrite app_nil_r, <- app_assoc.
Qed.

Lemma of_level_ok st lv groups :
  Forall (Forall (fun g => files g <> [])) groups -> exists R, of_level st lv groups = Ok R /\ R `sublist_of` groups.
Proof.
  induction groups as [|g groups IH]; intros H; cbn [of_level]; [by exists []|]. apply Forall_cons in H as [Hg H].
  destruct (levels_ok st g Hg) as (l & ->). destruct (IH H) as (R & -> & Hs). cbn [mbind outcome_bind].
  eexists. split; [done|]. destruct (l =? lv); [by apply sublist_skip|by apply sublist_cons].
Qed.

Lemma chunk_ok a sz : (0 < sz)%nat -> concat (chunk a sz) = a.
Proof.
  intros Hsz. unfold chunk. assert (forall fuel a, (length a <= fuel)%nat -> concat (chunk_loop fuel a sz) = a) as H; [|by apply H].
  clear a. intros fuel.
  induction fuel as [|fuel IH]; intros a Ha; [by destruct a; [|cbn in Ha; lia]|]. cbn [chunk_loop]. destruct a as [|x a]; [done|].
  case_bool_decide as Hle; cbn [concat]; [|by rewrite app_nil_r]. rewrite IH; [apply take_drop|]. rewrite length_drop. cbn [length] in *. lia.
Qed.

Lemma chunks_pieces sz (groups R : list (list sstGeneration)) :
  (0 < sz)%nat -> R `sublist_of` groups -> pieces_of (concat groups) (concat ((fun g => chunk g sz) <$> R)).
Proof.
  intros Hsz. induction 1 as [|g R groups _ (parts & E & Hs)|g R groups _ (parts & E & Hs)].
  - by exists [].
  - exists (chunk g sz ++ parts). rewrite concat_app, E, chunk_ok by done. split; [done|]. rewrite fmap_cons. cbn [concat]. by apply sublist_app.
  - exists (g :: parts). cbn [concat]. rewrite E. split; [done|]. by apply sublist_cons.
Qed.

Lemma pieces_sublist gens R R' : R' `sublist_of` R -> pieces_of gens R -> pieces_of gens R'.
Proof. intros H (parts & E & Hs). exists parts. split; [done|]. by etrans. Qed.

(** ** Finding the generations *)

Definition files_of (m : gmap Z (list FileStat)) : list FileStat := concat (map_to_list m).*2.

Lemma files_of_insert m k x : files_of (<[k:=x]> m) ≡ₚ x ++ files_of (delete k m).
Proof.
  unfold files_of. rewrite <- insert_delete_eq, map_to_list_insert by apply lookup_delete_eq. done.
Qed.

Lemma files_of_delete m k : files_of m ≡ₚ default [] (m !! k) ++ files_of (delete k m).
Proof.
  destruct (m !! k) as [x|] eqn:E; cbn [default].
  - rewrite <- (insert_id m k x E) at 1. apply files_of_insert.
  - by rewrite delete_id.
Qed.

Lemma add_file_perm st m f : files_of (add_file st m f) ≡ₚ files_of m ++ [f].
Proof.
  unfold add_file. rewrite files_of_insert, (files_of_delete m (fst (ParseFileName st (Path f)))).
  rewrite <- !app_assoc. f_equiv. apply Permutation_app_comm.
Qed.

Lemma add_files_perm st fs : forall m, files_of (foldl (add_file st) m fs) ≡ₚ files_of m ++ fs.
Proof.
  induction fs as [|f fs IH]; intros m; cbn [foldl]; [by rewrite app_nil_r|]. by rewrite IH, add_file_perm, <- app_assoc.
Qed.

Lemma add_files_nonempty st fs : forall m,
  map_Forall (fun _ x => x <> []) m -> map_Forall (fun _ x => x <> []) (foldl (add_file st) m fs).
Proof.
  induction fs as [|f fs IH]; intros m H; cbn [foldl]; [done|]. apply IH, map_Forall_insert_2; [|done].
  by destruct (default [] _).
Qed.

Lemma ordered_perm m : ordered_generations m ≡ₚ (fun '(gen, fs) => MkGen gen fs) <$> map_to_list m.
Proof. apply merge_sort_Permutation. Qed.

Lemma ordered_paths m : paths (ordered_generations m) ≡ₚ Path <$> files_of m.
Proof.
  unfold paths, files_of. rewrite ordered_perm. apply fmap_Permutation.
  rewrite <- list_fmap_compose.
  erewrite list_fmap_ext; [done|]. by intros ? [].
Qed.

Lemma ordered_nonempty m : map_Forall (fun _ x => x <> []) m -> Forall (fun g => files g <> []) (ordered_generations m).
Proof.
  intros H%map_Forall_to_list. rewrite ordered_perm. apply Forall_fmap. eapply Forall_impl; [exact H|]. by intros [].
Qed.

Lemma findGenerations_ok st c skip :
  store_ok st -> planner_ok c ->
  let '(c', gens) := findGenerations st c skip in
  planner_ok c' /\ gens_ok gens /\ filesInUse c' = filesInUse c /\ forceFull c' = forceFull c /\
  gens = lastGenerations c'.
Proof.
  intros Hs Hc. unfold findGenerations. destruct (_ && _); [done|]. unfold planner_ok. cbn [with_cache lastGenerations filesInUse forceFull].
  assert (gens_ok (ordered_generations (foldl (add_file st) ∅ (filter (fun f => ~ (skip = true /\ Path f ∈ filesInUse c)) (Stats st))))) as H.
  { split; [by apply ordered_nonempty, add_files_nonempty|]. rewrite ordered_paths, add_files_perm.
    eapply sublist_NoDup; [exact Hs|]. by apply fmap_sublist, sublist_filter. }
  done.
Qed.

Lemma filter_nobody {A} (P : A -> Prop) `{forall x, Decision (P x)} l : (forall x, x ∈ l -> ~ P x) -> filter P l = [].
Proof. intros H'. apply elem_of_nil_inv. intros x [Hx Hin]%list_elem_of_filter. by apply (H' x). Qed.

Lemma empty_generations : ordered_generations ∅ = [].
Proof. apply Permutation_nil_r. by rewrite ordered_perm, map_to_list_empty. Qed.

(** ** Acquiring files *)

(** What a call grants: files that nobody uses, each of them once. *)
Definition granted (c c' : DefaultPlanner) (gs : list (list path)) : Prop :=
  NoDup (concat gs) /\ (forall f, f ∈ concat gs -> f ∉ filesInUse c) /\
  filesInUse c' = filesInUse c ∪ list_to_set (concat gs).

Definition call_ok (c : DefaultPlanner) (r : outcome (DefaultPlanner * (list (list path) * Z))) : Prop :=
  exists c' gs n, r = Ok (c', (gs, n)) /\ planner_ok c' /\ granted c c' gs.

Lemma granted_nothing c c' : filesInUse c' = filesInUse c -> granted c c' [].
Proof. intros E. split; [constructor|]. split; [by intros f Hf%elem_of_nil|]. rewrite E. set_solver. Qed.

Lemma call_nothing c c' : planner_ok c' -> filesInUse c' = filesInUse c -> call_ok c (Ok (c', ([], 0))).
Proof. intros H E. exists c', [], 0. split; [done|]. split; [done|]. by apply granted_nothing. Qed.

Lemma plan_of_ok c c1 groups :
  planner_ok c1 -> filesInUse c1 = filesInUse c -> NoDup (concat groups) -> call_ok c (Ok (plan_of c1 groups)).
Proof.
  intros Hc E Hn. unfold plan_of, acquire. destruct (existsb _ _) eqn:Ex.
  { exists c1, [], (Z.of_nat (length groups)). split; [done|]. split; [done|]. by apply granted_nothing. }
  eexists _, groups, _. split; [done|]. split; [done|]. split; [done|]. rewrite <- E. split; [|done]. intros f Hf Hin.
  assert (existsb (fun f => bool_decide (f ∈ filesInUse c1)) (concat groups) = true); [|congruence].
  apply existsb_exists. exists f. split; [by apply list_elem_of_In|by apply bool_decide_eq_true].
Qed.

Lemma plan_of_pieces c c1 gens R :
  planner_ok c1 -> filesInUse c1 = filesInUse c -> gens_ok gens -> pieces_of gens R -> call_ok c (Ok (plan_of c1 (paths <$> R))).
Proof. intros H E [_ Hg] HR. apply plan_of_ok; [done..|]. by eapply pieces_paths. Qed.

(** ** The calls *)

(** A group that is worth compacting. *)
Definition worth (n : nat) (ch : list sstGeneration) : Prop := (n <= length ch)%nat \/ any_tombstones ch = true.

Lemma worth_filter n (R : list (list sstGeneration)) :
  Forall (worth n) (filter (fun ch => ~ ((length ch < n)%nat /\ any_tombstones ch = false)) R).
Proof.
  apply Forall_forall. intros ch [H _]%list_elem_of_filter. unfold worth. destruct (any_tombstones ch); [by right|]. left.
  destruct (decide (n <= length ch)%nat); [done|]. exfalso. apply H. split; [lia|done].
Qed.

Lemma worth_iff n (R : list (list sstGeneration)) :
  filter (fun ch => ~ ((length ch < n)%nat /\ any_tombstones ch = false)) R =
  filter (fun ch => (n <= length ch)%nat \/ any_tombstones ch = true) R.
Proof.
  apply list_filter_iff. intros ch. destruct (any_tombstones ch) eqn:E.
  - split; [by right|]. by intros _ [_ [=]].
  - destruct (Nat.lt_ge_cases (length ch) n) as [H|H].
    + split; [intros []; by split|]. intros [?|[=]]; lia.
    + split; [by left|]. intros _ [? _]. lia.
Qed.

Lemma level_groups_ok st gens skip sk lv :
  (forall g, g ∈ gens -> skip g = Ok (sk g)) -> gens_ok gens ->
  exists groups R, group_loop st skip gens [] [] = Ok groups /\ concat groups = filter (fun g => sk g = false) gens /\
    of_level st lv groups = Ok R /\ R `sublist_of` groups.
Proof.
  intros Hs [Hg _]. destruct (group_loop_ok st skip sk gens [] [] Hs Hg) as (groups & -> & E); [done|]. cbn in E.
  destruct (of_level_ok st lv groups) as (R & HR & Hsub); [|by exists groups, R].
  apply Forall_concat. rewrite E. rewrite Forall_forall in *. intros g [_ Hin]%list_elem_of_filter. auto.
Qed.

(** ** The groups exactly *)

(** The level of a generation and the highest of some, 0 without any. *)
Definition lvl (st : FileStore) (g : sstGeneration) : Z := match level st g with Ok l => l | _ => 0 end.
Definition top_level (st : FileStore) (a : list sstGeneration) : Z := foldr Z.max 0 (lvl st <$> a).

(** A generation [z], before [next], joins the group [W] at hand: it is of their level,
    or it is orphaned, of a lower level than the next. *)
Definition joins (st : FileStore) (W : list sstGeneration) (z : sstGeneration) (next : option sstGeneration) : Prop :=
  (exists n, next = Some n /\ lvl st z < lvl st n) \/ top_level st W = lvl st z.

(** The division of generations into groups: each goes as far as it can. *)
Record grouped (st : FileStore) (gens : list sstGeneration) (groups : list (list sstGeneration)) : Prop := {
  gr_all : concat groups = gens;
  gr_nonempty : [] ∉ groups;
  gr_inside A B W z R : groups = A ++ (W ++ z :: R) :: B -> W <> [] -> joins st W z (head (R ++ concat B));
  gr_cut A G z R B : groups = A ++ G :: (z :: R) :: B -> ~ joins st G z (head (R ++ concat B))
}.

(** The division into pieces of [n], of which the last may be shorter. *)
Record chunked {A} (n : nat) (a : list A) (P : list (list A)) : Prop := {
  ch_all : concat P = a;
  ch_nonempty : [] ∉ P;
  ch_full p : p ∈ P -> (length p <= n)%nat;
  ch_last P1 p P2 : P = P1 ++ p :: P2 -> P2 <> [] -> length p = n
}.

Lemma level_lvl st g : files g <> [] -> level st g = Ok (lvl st g).
Proof. intros H. unfold lvl. by destruct (level_ok st g H) as (l & -> & _). Qed.

Lemma level_from_top st a : forall lv, Forall (fun g => files g <> []) a ->
  level_from st lv a = Ok (Z.max lv (top_level st a)) \/ lv < 0.
Proof.
  induction a as [|g a IH]; intros lv H; cbn [level_from].
  - destruct (decide (lv < 0)); [by right|left]. unfold top_level. cbn. f_equal. lia.
  - apply Forall_cons in H as [Hg Ha]. rewrite level_lvl by done. cbn [mbind outcome_bind].
    destruct (decide (lv < 0)); [by right|left]. unfold top_level in *. cbn [fmap list_fmap foldr].
    destruct (Z.ltb_spec lv (lvl st g)).
    + destruct (IH (lvl st g) Ha) as [-> |?]; [f_equal; lia|lia].
    + destruct (IH lv Ha) as [-> |?]; [f_equal; lia|lia].
Qed.

Lemma levels_top st a : Forall (fun g => files g <> []) a -> levels st a = Ok (top_level st a).
Proof.
  intros H. unfold levels. destruct (level_from_top st a 0 H) as [-> |?]; [|lia]. f_equal.
  assert (0 <= top_level st a); [|lia]. unfold top_level. induction (lvl st <$> a); cbn; lia.
Qed.

Lemma of_level_filter st lv groups :
  Forall (Forall (fun g => files g <> [])) groups ->
  of_level st lv groups = Ok (filter (fun g => top_level st g = lv) groups).
Proof.
  induction groups as [|g groups IH]; intros H; cbn [of_level]; [done|]. apply Forall_cons in H as [Hg H].
  rewrite levels_top, IH by done. cbn [mbind outcome_bind]. rewrite filter_cons.
  destruct (Z.eqb_spec (top_level st g) lv); [by rewrite decide_True|by rewrite decide_False].
Qed.

Lemma chunk_chunked n a : (0 < n)%nat -> chunked n a (chunk a n).
Proof.
  intros Hn. unfold chunk. assert (forall fuel a, (length a <= fuel)%nat -> chunked n a (chunk_loop fuel a n)) as H; [|by apply H].
  clear a. induction fuel as [|fuel IH]; intros a Ha.
  { destruct a; [|cbn in Ha; lia]. split; [done|by intros ?%elem_of_nil|by intros ? ?%elem_of_nil|by intros []]. }
  cbn [chunk_loop]. destruct a as [|x a].
  { split; [done|by intros ?%elem_of_nil|by intros ? ?%elem_of_nil|by intros []]. }
  case_bool_decide as Hle.
  - destruct (IH (drop n (x :: a))) as [H1 H2 H3 H4]; [rewrite length_drop; cbn [length] in *; lia|]. split.
    + cbn [concat]. by rewrite H1, take_drop.
    + intros [E|?]%elem_of_cons; [|done]. apply (f_equal length) in E. rewrite length_take in E. cbn [length] in *. lia.
    + intros p [->|Hp]%elem_of_cons; [rewrite length_take; lia|auto].
    + intros [|q P1] p P2 E Hne; injection E as E1 E2; [subst p; rewrite length_take; lia|by apply (H4 P1 p P2)].
  - split.
    + cbn [concat]. by rewrite app_nil_r.
    + by intros ?%list_elem_of_singleton.
    + intros p ->%list_elem_of_singleton. lia.
    + intros [|q P1] p P2 E Hne; injection E as E1 E2; [by subst P2|by destruct P1].
Qed.

(** The loop, from a group [cur] at hand: what [grouped] says beyond it. *)
Definition grouped_from (st : FileStore) (cur gens : list sstGeneration) (gs : list (list sstGeneration)) : Prop :=
  concat gs = cur ++ gens /\ ([] ∉ gs) /\ (cur <> [] -> exists x rest, gs = (cur ++ x) :: rest) /\
  (forall A B W z R, gs = A ++ (W ++ z :: R) :: B -> W <> [] -> (A = [] -> length cur <= length W)%nat ->
    joins st W z (head (R ++ concat B))) /\
  (forall A G z R B, gs = A ++ G :: (z :: R) :: B -> ~ joins st G z (head (R ++ concat B))).

(** The group at hand is a prefix of the first one; what comes next. *)
Lemma first_group (cur W R : list sstGeneration) z g B gens :
  concat ((W ++ z :: R) :: B) = cur ++ g :: gens -> length W = length cur -> W = cur /\ z = g /\ R ++ concat B = gens.
Proof.
  cbn [concat]. rewrite <- app_assoc. cbn [app]. intros E Hl. apply app_inj_1 in E as [-> E]; [|done]. by injection E as -> ->.
Qed.

Lemma grouped_join st cur g gens gs :
  (cur <> [] -> joins st cur g (head gens)) -> grouped_from st (cur ++ [g]) gens gs -> grouped_from st cur (g :: gens) gs.
Proof.
  intros Hj (H1 & H2 & H3 & H4 & H5). rewrite <- app_assoc in H1. split; [done|]. split; [done|]. split; [|split; [|done]].
  - intros _. destruct H3 as (x & rest & ->); [by destruct cur|]. rewrite <- app_assoc. by eexists _, _.
  - intros A B W z R E Hne Hlen. destruct (decide (A = [] /\ length W = length cur)) as [[-> Hl]|Hno].
    + rewrite E in H1. cbn [app] in H1. destruct (first_group cur W R z g B gens H1 Hl) as (-> & -> & ->). by apply Hj.
    + apply (H4 A B W z R E Hne). intros ->. specialize (Hlen eq_refl). rewrite length_app. cbn.
      destruct (decide (length W = length cur)); [by destruct Hno|lia].
Qed.

Lemma grouped_break st cur g gens gs :
  cur <> [] -> ~ joins st cur g (head gens) -> grouped_from st [g] gens gs -> grouped_from st cur (g :: gens) (cur :: gs).
Proof.
  intros Hc Hj (H1 & H2 & H3 & H4 & H5). split; [cbn [concat]; by rewrite H1|]. split.
  { intros [E|?]%elem_of_cons; [by subst cur|done]. }
  split; [|split].
  - intros _. exists [], gs. by rewrite app_nil_r.
  - intros [|G A] B W z R E Hne Hlen; injection E as E1 E2.
    + specialize (Hlen eq_refl). rewrite E1, length_app in Hlen. cbn in Hlen. lia.
    + apply (H4 A B W z R E2 Hne). intros _. cbn. destruct W; [done|cbn; lia].
  - intros [|G' A] G z R B E; injection E as E1 E2.
    + subst G gs. cbn [concat app] in H1. injection H1 as -> <-. exact Hj.
    + by apply (H5 A G z R B).
Qed.

Lemma group_loop_grouped st gens : forall cur groups,
  Forall (fun g => files g <> []) gens -> Forall (fun g => files g <> []) cur ->
  exists gs, group_loop st (fun _ => Ok false) gens cur groups = Ok (groups ++ gs) /\ grouped_from st cur gens gs.
Proof.
  induction gens as [|g gens IH]; intros cur groups Hg Hc; cbn [group_loop].
  - destruct cur as [|x cur]; [exists []; rewrite app_nil_r|exists [x :: cur]]; (split; [done|]).
    + split_and!; [done|by intros ?%elem_of_nil|done|by intros []|by intros []].
    + split; [cbn; by rewrite app_nil_r|]. split; [by intros ?%list_elem_of_singleton|].
      split; [intros _; exists [], []; by rewrite app_nil_r|]. split.
      * intros [|G A] B W z R E Hne Hlen; [|by destruct A]. specialize (Hlen eq_refl). cbn [app] in E.
        injection E as E _. rewrite E, length_app in Hlen. cbn in Hlen. lia.
      * intros [|G' A] G z R B E; [done|by destruct A].
  - apply Forall_cons in Hg as [Hne Hg]. cbn [mbind outcome_bind].
    assert (Forall (fun g => files g <> []) (cur ++ [g])) as Hcg by (apply Forall_app; auto).
    assert (match gens with next :: _ => l ← level st g; n ← level st next; Ok (l <? n) | [] => Ok false end =
      Ok (match gens with next :: _ => lvl st g <? lvl st next | [] => false end)) as ->.
    { destruct gens as [|next rest]; [done|]. apply Forall_cons in Hg as [Hnext _]. by rewrite !level_lvl. }
    cbn [mbind outcome_bind].
    destruct (match gens with next :: _ => lvl st g <? lvl st next | [] => false end) eqn:Eo.
    { destruct (IH (cur ++ [g]) groups Hg Hcg) as (gs & -> & E). exists gs. split; [done|]. apply grouped_join; [|done].
      intros _. left. destruct gens as [|next rest]; [done|]. exists next. split; [done|]. by apply Z.ltb_lt. }
    assert (match cur with [] => Ok true | _ => c ← levels st cur; l ← level st g; Ok (c =? l) end =
      Ok (match cur with [] => true | _ => top_level st cur =? lvl st g end)) as ->.
    { destruct cur as [|x cur]; [done|]. by rewrite levels_top, level_lvl by done. }
    cbn [mbind outcome_bind]. destruct (match cur with [] => true | _ => _ end) eqn:Es.
    + destruct (IH (cur ++ [g]) groups Hg Hcg) as (gs & -> & E). exists gs. split; [done|]. apply grouped_join; [|done].
      intros Hcur. right. destruct cur; [done|]. by apply Z.eqb_eq.
    + destruct cur as [|x cur]; [done|]. destruct (IH [g] (groups ++ [x :: cur]) Hg) as (gs & -> & E); [auto|].
      exists ((x :: cur) :: gs). rewrite <- app_assoc. split; [done|]. apply grouped_break; [done| |done].
      intros [(n & En & Hlt)|E']; [|apply Z.eqb_neq in Es; congruence].
      destruct gens as [|next rest]; [done|]. injection En as ->. apply Z.ltb_ge in Eo. lia.
Qed.

Lemma group_loop_all st gens :
  Forall (fun g => files g <> []) gens ->
  exists groups, group_loop st (fun _ => Ok false) gens [] [] = Ok groups /\ grouped st gens groups.
Proof.
  intros Hg. destruct (group_loop_grouped st gens [] [] Hg) as (gs & -> & H1 & H2 & _ & H4 & H5); [constructor|].
  exists gs. split; [done|]. split; [done|done| |done]. intros A B W z R E Hne. apply (H4 A B W z R E Hne). cbn. lia.
Qed.

(** What planning groups of files gives. *)
Lemma plan_of_free c (groups : list (list path)) :
  (forall f, f ∈ concat groups -> f ∉ filesInUse c) ->
  plan_of c groups = (with_use c (filesInUse c ∪ list_to_set (concat groups)), (groups, Z.of_nat (length groups))).
Proof.
  intros H. unfold plan_of, acquire. assert (existsb (fun f => bool_decide (f ∈ filesInUse c)) (concat groups) = false) as ->; [|done].
  apply not_true_iff_false. rewrite existsb_exists. intros (f & Hf & Hin%bool_decide_eq_true). apply (H f); [by apply list_elem_of_In|done].
Qed.

Lemma plan_of_taken c (groups : list (list path)) f :
  f ∈ concat groups -> f ∈ filesInUse c -> plan_of c groups = (c, ([], Z.of_nat (length groups))).
Proof.
  intros Hf Hin. unfold plan_of, acquire. assert (existsb (fun f => bool_decide (f ∈ filesInUse c)) (concat groups) = true) as ->; [|done].
  apply existsb_exists. exists f. split; [by apply list_elem_of_In|]. by apply bool_decide_eq_true.
Qed.

Lemma PlanLevel_pieces st c lv :
  store_ok st -> planner_ok c -> forceFull c = false ->
  let '(c1, gens) := findGenerations st c true in
  nothing gens = false ->
  exists R, pieces_of gens R /\ Forall (worth (if lv =? 1 then 8 else 4)) R /\ PlanLevel st c lv = Ok (plan_of c1 (paths <$> R)).
Proof.
  intros Hs Hc Hf. pose proof (findGenerations_ok st c true Hs Hc) as H. unfold PlanLevel. rewrite Hf.
  destruct (findGenerations st c true) as [c1 gens]. destruct H as (Hc1 & Hg & Hu & _). intros ->.
  destruct (level_groups_ok st gens (fun _ => Ok false) (fun _ => false) lv) as (groups & R & -> & E & HR & Hsub); [done..|].
  cbn [mbind outcome_bind]. rewrite HR. cbn [mbind outcome_bind]. rewrite filter_all in E by by apply Forall_true.
  set (n := if lv =? 1 then 8%nat else 4%nat). eexists. split; [|split; [|reflexivity]].
  - eapply pieces_sublist; [apply sublist_filter|]. rewrite <- E. apply chunks_pieces; [|done]. unfold n. destruct (lv =? 1); lia.
  - apply worth_filter.
Qed.

Lemma PlanLevel_ok st c lv : store_ok st -> planner_ok c -> call_ok c (PlanLevel st c lv).
Proof.
  intros Hs Hc. destruct (forceFull c) eqn:Hf; [unfold PlanLevel; rewrite Hf; by apply call_nothing|].
  pose proof (PlanLevel_pieces st c lv Hs Hc Hf) as HP. pose proof (findGenerations_ok st c true Hs Hc) as H.
  destruct (findGenerations st c true) as [c1 gens] eqn:Ef. destruct H as (Hc1 & Hg & Hu & _).
  destruct (nothing gens) eqn:En; [unfold PlanLevel; rewrite Hf, Ef, En; by apply call_nothing|].
  destruct (HP eq_refl) as (R & HR & _ & ->). by eapply plan_of_pieces.
Qed.

Lemma optimize_skip_ok st g : files g <> [] -> exists b, optimize_skip st g = Ok b.
Proof.
  intros H. unfold optimize_skip. case_bool_decide; [|by eexists]. destruct (oversized_ok st true g H) as (o & ->). by eexists.
Qed.

(** The value of a test that succeeds. *)
Definition value (r : outcome bool) : bool := match r with Ok b => b | _ => false end.

Lemma PlanOptimize_ok st c : store_ok st -> planner_ok c -> call_ok c (PlanOptimize st c).
Proof.
  intros Hs Hc. unfold PlanOptimize. pose proof (findGenerations_ok st c true Hs Hc) as H.
  destruct (forceFull c) eqn:Hf; [by apply call_nothing|].
  destruct (findGenerations st c true) as [c1 gens]. destruct H as (Hc1 & Hg & Hu & _).
  destruct (nothing gens); [by apply call_nothing|].
  destruct (level_groups_ok st gens (optimize_skip st) (fun g => value (optimize_skip st g)) 4) as (groups & R & -> & E & HR & Hsub); [|done|].
  { intros g Hin. destruct Hg as [Hg _]. rewrite Forall_forall in Hg. by destruct (optimize_skip_ok st g (Hg g Hin)) as (b & ->). }
  cbn [mbind outcome_bind]. rewrite HR. cbn [mbind outcome_bind].
  eapply (plan_of_pieces c c1 (concat groups)); [done..| |].
  - rewrite E. eapply gens_ok_sublist; [apply sublist_filter|done].
  - exists groups. split; [done|]. etrans; [apply sublist_filter|done].
Qed.

(** ** The full plan *)

Lemma full_loop_ok st many gens :
  Forall (fun g => files g <> []) gens -> exists gs, full_loop st many gens = Ok gs /\ gs `sublist_of` gens.
Proof.
  induction gens as [|g gens IH]; intros H; cbn [full_loop]; [by exists []|]. apply Forall_cons in H as [Hg H].
  destruct (IH H) as (gs & -> & Hs).
  assert (exists s, (if many then o ← oversized st true g; Ok (o && negb (has_tombstones g)) else Ok false) = Ok s) as (s & ->).
  { destruct many; [|by eexists]. destruct (oversized_ok st true g Hg) as (o & ->). by eexists. }
  cbn [mbind outcome_bind].
  assert (exists b, match gens with next :: _ => l ← level st next; Ok (if l <=? 3 then false else s) | [] => Ok s end = Ok b) as (b & ->).
  { destruct gens as [|next gens]; [by eexists|]. apply Forall_cons in H as [Hn _]. destruct (level_ok st next Hn) as (l & -> & _). by eexists. }
  cbn [mbind outcome_bind]. eexists. split; [done|]. destruct b; [by apply sublist_cons|by apply sublist_skip].
Qed.

Lemma end_loop_ok st gens : Forall (fun g => files g <> []) gens -> exists n, end_loop st gens = Ok n /\ (n <= length gens)%nat.
Proof.
  induction gens as [|g gens IH]; intros H; cbn [end_loop]; [by exists 0%nat|]. apply Forall_cons in H as [Hg H].
  destruct (level_ok st g Hg) as (l & -> & _). cbn [mbind outcome_bind]. destruct (l <=? 3); [exists 0%nat; cbn; split; [done|lia]|].
  destruct (IH H) as (n & -> & Hn). exists (S n). split; [done|]. cbn. lia.
Qed.

Lemma start_loop_ok st gens : forall prev i start tombs,
  Forall (fun g => files g <> []) gens -> exists n, start_loop st gens prev i start tombs = Ok n.
Proof.
  induction gens as [|g gens IH]; intros prev i start tombs H; cbn [start_loop]; [by exists start|]. apply Forall_cons in H as [Hg H].
  destruct (tombs || has_tombstones g); [by apply IH|]. destruct (oversized_ok st true g Hg) as (o & ->). cbn [mbind outcome_bind].
  destruct prev as [p|]; [destruct (_ <? _); [by eexists|]|]; by apply IH.
Qed.

Lemma window_ok st gens : Forall (fun g => files g <> []) gens -> exists w, window st gens = Ok w.
Proof.
  induction gens as [|g gens IH]; intros H; cbn [window]; [by eexists|]. apply Forall_cons in H as [Hg H].
  destruct (level_ok st g Hg) as (l & -> & _). cbn [mbind outcome_bind]. destruct (l <=? 3); [by eexists|].
  destruct (oversized_ok st false g Hg) as (o & ->). cbn [mbind outcome_bind]. destruct (IH H) as (r & ->). by eexists.
Qed.

Lemma step_loop_ok st step : forall fuel gens,
  (length gens <= fuel)%nat -> (gens = [] \/ 0 < step)%nat -> Forall (fun g => files g <> []) gens ->
  exists R, step_loop fuel st gens step = Ok R /\ pieces_of gens R.
Proof.
  intros fuel. induction fuel as [|fuel IH]; intros gens Hl Hstep Hg.
  { destruct gens; [|cbn in Hl; lia]. exists []. split; [done|]. by exists []. }
  cbn [step_loop]. destruct gens as [|g gens]; [exists []; split; [done|]; by exists []|]. set (a := g :: gens) in *.
  destruct (window_ok st (take step a)) as (w & ->); [by apply Forall_take|]. cbn [mbind outcome_bind].
  destruct (IH (drop step a)) as (R & -> & parts & E & Hs); [|right|by apply Forall_drop|].
  { rewrite length_drop. unfold a in *. cbn [length] in *. destruct Hstep; [done|lia]. } { by destruct Hstep. }
  cbn [mbind outcome_bind]. eexists. split; [done|].
  assert (pieces_of a R) as Hskip.
  { exists (take step a :: parts). cbn [concat]. rewrite E, take_drop. split; [done|]. by apply sublist_cons. }
  destruct w as [n|]; [|done]. destruct (drop n (take step a)) as [|g' w] eqn:Ed; [done|]. rewrite <- Ed.
  exists (take n (take step a) :: drop n (take step a) :: parts). cbn [concat].
  rewrite E, (app_assoc (take n _)), take_drop, take_drop. split; [done|]. by apply sublist_cons, sublist_skip.
Qed.

Lemma Sort_paths_perm R : concat (Sort ∘ paths <$> R) ≡ₚ concat (paths <$> R).
Proof. induction R as [|g R IH]; [done|]. rewrite !fmap_cons. cbn [concat compose]. by rewrite IH, Sort_perm. Qed.

Lemma plan_of_Sort c c1 gens R :
  planner_ok c1 -> filesInUse c1 = filesInUse c -> gens_ok gens -> pieces_of gens R -> call_ok c (Ok (plan_of c1 (Sort ∘ paths <$> R))).
Proof. intros H E [_ Hg] HR. apply plan_of_ok; [done..|]. rewrite Sort_paths_perm. by eapply pieces_paths. Qed.

Lemma Plan_ok st c now lastWrite : store_ok st -> planner_ok c -> call_ok c (Plan st c now lastWrite).
Proof.
  intros Hs Hc. unfold Plan. pose proof (findGenerations_ok st c true Hs Hc) as H.
  destruct (findGenerations st c true) as [c1 gens]. destruct H as (Hc1 & [Hg Hn] & Hu & _). destruct (_ || _).
  { destruct (full_loop_ok st (bool_decide (2 < length gens)%nat) gens Hg) as (gs & -> & Hgs). cbn [mbind outcome_bind].
    destruct (_ || _); [by apply call_nothing|]. apply plan_of_ok; [done..|]. cbn [concat]. rewrite app_nil_r, Sort_perm.
    by eapply sublist_NoDup, paths_sublist. }
  destruct (_ && _); [by apply call_nothing|]. destruct (nothing gens); [by apply call_nothing|].
  destruct (end_loop_ok st gens Hg) as (e & -> & He). cbn [mbind outcome_bind].
  destruct (start_loop_ok st (take e gens) None 0 0 false) as (start & ->); [by apply Forall_take|]. cbn [mbind outcome_bind].
  set (ex := drop start (take e gens)). assert (ex `sublist_of` gens) as Hex.
  { unfold ex. etrans; [apply sublist_drop|apply sublist_take]. }
  pose proof (gens_ok_sublist ex gens Hex (conj Hg Hn)) as Hok.
  destruct (step_loop_ok st (Nat.min 4 e) (length ex) ex) as (R & -> & HR); [done| |apply Hok|].
  { destruct e; [left; unfold ex; by rewrite take_0, drop_nil|right; lia]. }
  cbn [mbind outcome_bind]. destruct R as [|r R]; [by apply call_nothing|]. eapply plan_of_Sort; [done|done|exact Hok|].
  eapply pieces_sublist; [apply sublist_filter|exact HR].
Qed.

(** ** Whole histories *)

(** What is done with a planner, each call with what the store answers at its time;
    [outstanding] are the plans granted and not yet released. *)
Inductive call :=
  | CPlan (st : FileStore) (now lastWrite : Z)
  | CPlanLevel (st : FileStore) (lv : Z)
  | CPlanOptimize (st : FileStore)
  | CForceFull
  | CFullyCompacted (st : FileStore)
  | CRelease (k : nat).

Definition call_store_ok (e : call) : Prop :=
  match e with
  | CPlan st _ _ | CPlanLevel st _ | CPlanOptimize st | CFullyCompacted st => store_ok st
  | CForceFull | CRelease _ => True
  end.

Definition state : Type := DefaultPlanner * list (list (list path)).

Definition keep (r : outcome (DefaultPlanner * (list (list path) * Z))) (outstanding : list (list (list path))) : outcome state :=
  '(c, (gs, _)) ← r; Ok (c, outstanding ++ [gs]).

Definition step (e : call) (s : state) : outcome state :=
  let '(c, out) := s in
  match e with
  | CPlan st now lastWrite => keep (Plan st c now lastWrite) out
  | CPlanLevel st lv => keep (PlanLevel st c lv) out
  | CPlanOptimize st => keep (PlanOptimize st c) out
  | CForceFull => Ok (ForceFull c, out)
  | CFullyCompacted st => Ok (fst (FullyCompacted st c), out)
  | CRelease k => match out !! k with Some gs => Ok (Release c gs, delete k out) | None => Ok s end
  end.

Fixpoint run (es : list call) (s : state) : outcome state :=
  match es with [] => Ok s | e :: es => s ← step e s; run es s end.

(** The files of the plans that are outstanding. *)
Definition planned (out : list (list (list path))) : list path := concat (concat out).

Definition state_ok (s : state) : Prop :=
  planner_ok (fst s) /\ NoDup (planned (snd s)) /\ filesInUse (fst s) = list_to_set (planned (snd s)).

Lemma planned_delete out k gs : out !! k = Some gs -> planned out ≡ₚ concat gs ++ planned (delete k out).
Proof.
  intros H. unfold planned. rewrite <- concat_app. change (gs ++ concat (delete k out)) with (concat (gs :: delete k out)).
  by rewrite <- (delete_Permutation out k gs H).
Qed.

Lemma planned_snoc out gs : planned (out ++ [gs]) = planned out ++ concat gs.
Proof. unfold planned. rewrite !concat_app. cbn [concat]. by rewrite app_nil_r. Qed.

Lemma keep_ok c out r : state_ok (c, out) -> call_ok c r -> exists s, keep r out = Ok s /\ state_ok s.
Proof.
  intros (Hc & Hn & Hu) (c' & gs & n & -> & Hc' & Hg & Hf & Hu'). eexists. split; [done|]. split; [done|]. cbn [fst snd] in *.
  rewrite planned_snoc. split.
  - apply NoDup_app. split; [done|]. split; [|done]. intros f H1 H2. apply (Hf f H2). rewrite Hu. by apply elem_of_list_to_set.
  - rewrite Hu', Hu. by rewrite list_to_set_app_L.
Qed.

Lemma planner_step_ok e s : call_store_ok e -> state_ok s -> exists s', step e s = Ok s' /\ state_ok s'.
Proof.
  destruct s as [c out]. intros He Hs. destruct e as [st now lw|st lv|st| |st|k]; cbn [step call_store_ok] in *.
  - apply (keep_ok c); [done|]. apply Plan_ok; [done|apply Hs].
  - apply (keep_ok c); [done|]. apply PlanLevel_ok; [done|apply Hs].
  - apply (keep_ok c); [done|]. apply PlanOptimize_ok; [done|apply Hs].
  - by eexists.
  - eexists. split; [done|]. destruct Hs as (Hc & Hs). pose proof (findGenerations_ok st c false He Hc) as H.
    unfold FullyCompacted. destruct (findGenerations st c false) as [c1 gens]. destruct H as (H1 & _ & H2 & _).
    split; [done|]. cbn [fst snd] in *. by rewrite H2.
  - destruct (out !! k) as [gs|] eqn:E; [|by eexists]. eexists. split; [done|]. destruct Hs as (Hc & Hn & Hu). split; [done|].
    cbn [fst snd] in *. pose proof (planned_delete out k gs E) as HP. rewrite HP in Hn. apply NoDup_app in Hn as (_ & Hd & Hn).
    split; [done|]. unfold Release. cbn [with_use filesInUse]. rewrite Hu, (list_to_set_perm_L _ _ HP), list_to_set_app_L.
    apply set_eq. intros f. specialize (Hd f). rewrite elem_of_difference, elem_of_union, !elem_of_list_to_set. naive_solver.
Qed.

(** C12: Whatever is asked of a planner, in whatever order, whatever the store holds at each call (its files having different names): no call panics, no file is at a time in two plans or twice in one, and the files the planner says are in use are those of the plans not yet released. *)
Theorem plans_are_disjoint d es :
  Forall call_store_ok es ->
  exists c out, run es (NewDefaultPlanner d, []) = Ok (c, out) /\ NoDup (planned out) /\ filesInUse c = list_to_set (planned out).
Proof.
  intros H. assert (forall s, state_ok s -> exists s', run es s = Ok s' /\ state_ok s') as Hrun.
  { induction es as [|e es IH]; intros s Hs; cbn [run]; [by exists s|]. apply Forall_cons in H as [He H].
    destruct (planner_step_ok e s He Hs) as (s1 & -> & Hs1). by apply IH. }
  destruct (Hrun (NewDefaultPlanner d, [])) as ([c out] & -> & _ & Hn & Hu); [|by exists c, out].
  split; [split; constructor|]. split; [constructor|done].
Qed.

(** C13: what [PlanLevel] plans, exactly. Nothing is asked for while a full plan was
    requested, or when there is one generation at most and no tombstone. Otherwise the
    generations found are divided into groups that each go as far as they can: a
    generation joins the group before it when it is of its level or of a lower level
    than the next generation. The groups of the level asked for, and no others, are
    cut into pieces of 8 generations at level 1 and 4 above, the last of which may be
    shorter; the plan is the files of the pieces that are not short or that have a
    tombstone, all of them in order, and they are marked as in use, unless one of
    their files is in use already: then nothing is planned and only the number of
    pieces is told. *)
Theorem PlanLevel_groups st c lv :
  store_ok st -> planner_ok c ->
  let '(c1, gens) := findGenerations st c true in
  let n := if lv =? 1 then 8%nat else 4%nat in
  (forceFull c = true -> PlanLevel st c lv = Ok (c, ([], 0))) /\
  (forceFull c = false -> (length gens <= 1)%nat -> any_tombstones gens = false -> PlanLevel st c lv = Ok (c1, ([], 0))) /\
  (forceFull c = false -> (1 < length gens)%nat \/ any_tombstones gens = true ->
    exists groups pieces, grouped st gens groups /\
      Forall2 (chunked n) (filter (fun g => top_level st g = lv) groups) pieces /\
      let plan := paths <$> filter (fun ch => (n <= length ch)%nat \/ any_tombstones ch = true) (concat pieces) in
      ((forall f, f ∈ concat plan -> f ∉ filesInUse c) ->
        PlanLevel st c lv = Ok (with_use c1 (filesInUse c ∪ list_to_set (concat plan)), (plan, Z.of_nat (length plan)))) /\
      ((exists f, f ∈ concat plan /\ f ∈ filesInUse c) -> PlanLevel st c lv = Ok (c1, ([], Z.of_nat (length plan))))).
Proof.
  intros Hs Hc. pose proof (findGenerations_ok st c true Hs Hc) as H. unfold PlanLevel.
  destruct (findGenerations st c true) as [c1 gens]. destruct H as (Hc1 & [Hg _] & Hu & _).
  set (n := if lv =? 1 then 8%nat else 4%nat). split_and!.
  - by intros ->.
  - intros -> Hl Ht. unfold nothing. by rewrite bool_decide_true, Ht.
  - intros -> Hn. assert (nothing gens = false) as ->.
    { unfold nothing. destruct Hn as [Hn|Hn]; [by rewrite bool_decide_false by lia|rewrite Hn; apply andb_false_r]. }
    destruct (group_loop_all st gens Hg) as (groups & -> & Hgr). cbn [mbind outcome_bind].
    rewrite of_level_filter by (apply Forall_concat; by rewrite (gr_all _ _ _ Hgr)). cbn [mbind outcome_bind].
    set (L := filter _ groups). exists groups, ((fun g => chunk g n) <$> L). split; [done|]. split.
    { apply Forall2_fmap_r, Forall_Forall2_diag, Forall_true. intros g. apply chunk_chunked. unfold n. destruct (lv =? 1); lia. }
    rewrite (worth_iff n). cbn zeta. rewrite <- Hu. split.
    + intros Hfree. by rewrite plan_of_free.
    + intros (f & Hf & Hin). by rewrite (plan_of_taken _ _ f).
Qed.

(** What is found is remembered by the time the store changed, without whether the files in use were left out: when all files were in use at a call, and are released without the store changing, the planner reports that everything is compacted and no longer plans anything at any level, whatever files there are. *)
Theorem cache_ignores_release st c groups lv :
  LastModified st <> 0 -> lastFindGenerations c <> LastModified st -> forceFull c = false ->
  (forall f, f ∈ Stats st -> Path f ∈ filesInUse c) ->
  let c1 := Release (fst (findGenerations st c true)) groups in
  FullyCompacted st c1 = (c1, true) /\ PlanLevel st c1 lv = Ok (c1, ([], 0)) /\ PlanOptimize st c1 = Ok (c1, ([], 0)).
Proof.
  intros Ht Hl Hf Hin. assert (findGenerations st c true = (with_cache c (LastModified st) [], [])) as E.
  { unfold findGenerations. rewrite (proj2 (Z.eqb_neq (LastModified st) (lastFindGenerations c))), andb_false_r by congruence.
    rewrite (filter_nobody _ (Stats st)); [exact (f_equal (fun g => (with_cache c (LastModified st) g, g)) empty_generations)|]. intros f Hfs H. apply H. auto. }
  rewrite E. cbn [fst]. set (c1 := Release _ groups).
  assert (forall skip, findGenerations st c1 skip = (c1, [])) as Ec.
  { intros skip. unfold findGenerations. cbn [c1 Release with_use with_cache lastFindGenerations lastGenerations].
    by rewrite Z.eqb_refl, (proj2 (Z.eqb_neq _ _) Ht). }
  unfold FullyCompacted, PlanLevel, PlanOptimize. rewrite !Ec. assert (forceFull c1 = false) as -> by done. done.
Qed.

(** A group of old generations leaves out as many of its generations as are too large to be compacted again, but the first ones, whichever they are: one that is small may be left out, and one that is too large planned. *)
Theorem window_drops_the_first st w fuel :
  (0 < fuel)%nat -> Forall (fun g => level st g = Ok 4) w ->
  let large g := value (oversized st false g) && negb (has_tombstones g) in
  w <> [] ->
  step_loop fuel st w (length w) =
    Ok (let kept := drop (length (filter (fun g => large g = true) w)) w in if decide (kept = []) then [] else [kept]).
Proof.
  intros Hfuel Hlv large Hw. destruct fuel as [|fuel]; [lia|]. cbn [step_loop]. destruct w as [|g w]; [done|]. set (a := g :: w) in *.
  assert (forall a, Forall (fun g => level st g = Ok 4) a -> window st a = Ok (Some (length (filter (fun g => large g = true) a)))) as Hwin.
  { clear a w g Hlv Hw. induction a as [|g a IH]; intros H; [done|]. apply Forall_cons in H as [Hg H]. cbn [window]. rewrite Hg. cbn [mbind outcome_bind].
    destruct (oversized_ok st false g) as (o & Ho); [by destruct (files g) eqn:E; [unfold level in Hg; rewrite E in Hg|]|].
    rewrite Ho. cbn [mbind outcome_bind Z.leb]. rewrite (IH H). cbn [mbind outcome_bind]. rewrite filter_cons.
    assert (large g = o && negb (has_tombstones g)) as -> by (unfold large; by rewrite Ho).
    destruct (o && _); [rewrite decide_True by done|rewrite decide_False by done]; done. }
  rewrite firstn_all, Hwin, drop_all by done. cbn [mbind outcome_bind]. destruct fuel; cbn [step_loop]; cbn [mbind outcome_bind]; by destruct (drop _ a).
Qed.

(** * Witnesses *)

(** Names are a generation and a sequence. *)
Definition file (gen seq sz : Z) (tomb : bool) : FileStat := MkStat [gen; seq] (SSTReader.MkStat tomb sz 0 0 0 [] []).
Definition name_of (p : path) : Z * Z := (nth 0 p 0, nth 1 p 0).
Definition store (t : Z) (fs : list FileStat) : FileStore := MkStore fs t (fun _ _ => 2000) name_of.

Definition large_file : Z := 3000 * 1024 * 1024.

Definition store1 : FileStore := store 5 [file 2 4 10 false; file 1 4 large_file false; file 3 4 10 false; file 1 5 10 true; file 5 1 10 false; file 4 4 10 false].
Definition calls1 : list call :=
  [CPlan store1 100 90; CPlanLevel store1 1; CPlanOptimize store1; CRelease 0; CFullyCompacted store1; CForceFull; CPlan store1 100 90].

Lemma store1_ok : store_ok store1.
Proof. apply (bool_decide_unpack _). by vm_compute. Qed.

Lemma plans_are_disjoint_witness :
  Forall call_store_ok calls1 /\
  (snd <$> match run (take 3 calls1) (NewDefaultPlanner 0, []) with Ok s => Some s | _ => None end) =
    Some [[[[1; 4]; [1; 5]; [2; 4]; [3; 4]; [4; 4]]]; []; []] /\
  exists c out, run calls1 (NewDefaultPlanner 0, []) = Ok (c, out) /\ NoDup (planned out) /\ filesInUse c = list_to_set (planned out).
Proof.
  assert (Forall call_store_ok calls1) as H by (unfold calls1; repeat apply Forall_cons_2; (apply store1_ok || apply Forall_nil_2 || exact I)).
  split; [exact H|]. split; [by vm_compute|]. exact (plans_are_disjoint 0 calls1 H).
Defined.

(** Nine generations of level 1, of which eight are planned. *)
Definition store2 : FileStore := store 5 ((fun g => file g 1 10 false) <$> [1; 2; 3; 4; 5; 6; 7; 8; 9]).

Lemma store2_ok : store_ok store2.
Proof. apply (bool_decide_unpack _). by vm_compute. Qed.

Lemma new_ok d : planner_ok (NewDefaultPlanner d).
Proof. split; constructor. Qed.

Lemma PlanLevel_groups_witness :
  let c := NewDefaultPlanner 0 in
  (fst ∘ snd <$> match PlanLevel store2 c 1 with Ok s => Some s | _ => None end) = Some [[[1; 1]; [2; 1]; [3; 1]; [4; 1]; [5; 1]; [6; 1]; [7; 1]; [8; 1]]] /\
  let '(c1, gens) := findGenerations store2 c true in
  let n := 8%nat in
  (forceFull c = true -> PlanLevel store2 c 1 = Ok (c, ([], 0))) /\
  (forceFull c = false -> (length gens <= 1)%nat -> any_tombstones gens = false -> PlanLevel store2 c 1 = Ok (c1, ([], 0))) /\
  (forceFull c = false -> (1 < length gens)%nat \/ any_tombstones gens = true ->
    exists groups pieces, grouped store2 gens groups /\
      Forall2 (chunked n) (filter (fun g => top_level store2 g = 1) groups) pieces /\
      let plan := paths <$> filter (fun ch => (n <= length ch)%nat \/ any_tombstones ch = true) (concat pieces) in
      ((forall f, f ∈ concat plan -> f ∉ filesInUse c) ->
        PlanLevel store2 c 1 = Ok (with_use c1 (filesInUse c ∪ list_to_set (concat plan)), (plan, Z.of_nat (length plan)))) /\
      ((exists f, f ∈ concat plan /\ f ∈ filesInUse c) -> PlanLevel store2 c 1 = Ok (c1, ([], Z.of_nat (length plan))))).
Proof. split; [by vm_compute|]. apply (PlanLevel_groups store2 (NewDefaultPlanner 0) 1 store2_ok (new_ok 0)). Defined.

(** All files of [store1] are in use. *)
Definition busy : DefaultPlanner := with_use (NewDefaultPlanner 0) (list_to_set (Path <$> Stats store1)).

Lemma cache_ignores_release_witness :
  let c1 := Release (fst (findGenerations store1 busy true)) [Path <$> Stats store1] in
  bool_decide (filesInUse c1 = ∅) = true /\ length (Stats store1) = 6%nat /\
  FullyCompacted store1 c1 = (c1, true) /\ PlanLevel store1 c1 4 = Ok (c1, ([], 0)) /\ PlanOptimize store1 c1 = Ok (c1, ([], 0)).
Proof.
  split; [by vm_compute|]. split; [done|]. apply (cache_ignores_release store1 busy); [done..|].
  intros f Hf. unfold busy, with_use. cbn [filesInUse]. apply elem_of_list_to_set. by apply list_elem_of_fmap_2.
Defined.

(** The second of four generations is too large; the first, with a tombstone, is left out instead. *)
Definition window1 : list sstGeneration :=
  [MkGen 1 [file 1 4 10 true]; MkGen 2 [file 2 4 large_file false]; MkGen 3 [file 3 4 10 false]; MkGen 4 [file 4 4 10 false]].

Lemma window_drops_the_first_witness : step_loop 1 store1 window1 4 = Ok [drop 1 window1].
Proof.
  assert (Forall (fun g => level store1 g = Ok 4) window1) as H by by repeat constructor.
  etrans; [exact (window_drops_the_first store1 window1 1 Nat.lt_0_1 H ltac:(done))|]. by vm_compute.
Defined.

End PlannerLaws.
