(* ===== verification/GoSort.v ===== *)
(** Go's [sort.Stable] on a list: insertion sort of runs of twenty elements, then merges in
    place of neighbouring runs by [symMerge], which halves by binary search; and what it
    gives when [Less] is not a strict weak order. *)
From stdpp Require Import list sorting relations.
From Stdlib Require Import Lia.
From S2P Require Import Prelude.

Module GoSort.

Section sort.
Context {A : Type} (Less : A -> A -> bool).

(** [insertionSort]: the sorted part before the element is held backwards, so that the
    element sinks by exchanges with its neighbours. *)
Fixpoint sink (x : A) (before : list A) : list A :=
  match before with
  | y :: r => if Less x y then y :: sink x r else x :: before
  | [] => [x]
  end.
Definition insertionSort (l : list A) : list A := rev (foldl (fun acc x => sink x acc) [] l).

(** [rotate]: of x u v y, with u from [a] to [m] and v from [m] to [b], it makes x v u y. *)
Definition rotate (l : list A) (a m b : nat) : list A :=
  take a l ++ drop m (take b l) ++ drop a (take m l) ++ drop b l.

(** [data.Less(i, j)]. *)
Definition less_at (l : list A) (i j : nat) : bool :=
  match l !! i, l !! j with Some x, Some y => Less x y | _, _ => false end.

(** [for i < j { h := int(uint(i+j) >> 1); if up(h) { i = h + 1 } else { j = h } }]. *)
Fixpoint search (up : nat -> bool) (fuel i j : nat) : nat :=
  match fuel with
  | O => i
  | S fuel => if (i <? j)%nat then let h := ((i + j) / 2)%nat in if up h then search up fuel (h + 1) j else search up fuel i h else i
  end.

(** [symMerge(data, a, m, b)], the list being that from [a] to [b] and [m] counted from [a]. *)
Fixpoint symMerge (fuel : nat) (l : list A) (m : nat) : list A :=
  match fuel with
  | O => l
  | S fuel =>
    let b := length l in
    if (m =? 1)%nat then rotate l 0 1 (search (fun h => less_at l h 0) b 1 b)
    else if (b - m =? 1)%nat then rotate l (search (fun h => negb (less_at l m h)) b 0 m) m b
    else
      let mid := (b / 2)%nat in
      let n := (mid + m)%nat in
      let lo := if (mid <? m)%nat then (n - b)%nat else 0%nat in
      let hi := if (mid <? m)%nat then mid else m in
      let start := search (fun c => negb (less_at l (n - 1 - c) c)) b lo hi in
      let stop := (n - start)%nat in
      let l := if (start <? m)%nat && (m <? stop)%nat then rotate l start m stop else l in
      (if (0 <? start)%nat && (start <? mid)%nat then symMerge fuel (take mid l) start else take mid l) ++
      (if (mid <? stop)%nat && (stop <? b)%nat then symMerge fuel (drop mid l) (stop - mid) else drop mid l)
  end.

(** [stable]: the runs, then the merges of runs of [size], [2 * size] and so on. *)
Fixpoint sort_runs (fuel size : nat) (l : list A) : list A :=
  match fuel with
  | O => l
  | S fuel => if (size <=? length l)%nat then insertionSort (take size l) ++ sort_runs fuel size (drop size l) else insertionSort l
  end.
Fixpoint merge_runs (fuel size : nat) (l : list A) : list A :=
  match fuel with
  | O => l
  | S fuel =>
    if (2 * size <=? length l)%nat then symMerge (length l) (take (2 * size) l) size ++ merge_runs fuel size (drop (2 * size) l)
    else if (size <? length l)%nat then symMerge (length l) l size else l
  end.
Fixpoint merge_all (fuel size : nat) (l : list A) : list A :=
  match fuel with
  | O => l
  | S fuel => if (size <? length l)%nat then merge_all fuel (2 * size) (merge_runs (length l) size l) else l
  end.
Definition blockSize : nat := 20.
Definition Stable (l : list A) : list A := merge_all (length l) blockSize (sort_runs (S (length l)) blockSize l).

(** ** Exchanges *)

(** Neighbours are exchanged when the later is less. *)
Definition swap_step (a b : list A) : Prop :=
  exists l1 u w l2, a = l1 ++ u :: w :: l2 /\ b = l1 ++ w :: u :: l2 /\ Less w u = true.
Abbreviation swaps := (rtc swap_step).

Lemma swaps_in p q a b : swaps a b -> swaps (p ++ a ++ q) (p ++ b ++ q).
Proof.
  induction 1 as [|a c b (l1 & u & w & l2 & -> & -> & H) _ IH]; [apply rtc_refl|]. eapply rtc_l; [|exact IH].
  exists (p ++ l1), u, w, (l2 ++ q). by rewrite <- !app_assoc.
Qed.

Lemma swaps_left a b q : swaps a b -> swaps (a ++ q) (b ++ q).
Proof. apply (swaps_in []). Qed.
Lemma swaps_right p a b : swaps a b -> swaps (p ++ a) (p ++ b).
Proof. intros H. apply (swaps_in p []) in H. by rewrite !app_nil_r in H. Qed.
Lemma swaps_app a b c d : swaps a b -> swaps c d -> swaps (a ++ c) (b ++ d).
Proof. intros H1 H2. etrans; [by apply swaps_left|by apply swaps_right]. Qed.

Lemma swaps_perm a b : swaps a b -> a ≡ₚ b.
Proof. induction 1 as [|a c b (l1 & u & w & l2 & -> & -> & _) _ <-]; [done|]. by rewrite (perm_swap u w). Qed.

Lemma swaps_past x v : Forall (fun w => Less w x = true) v -> swaps (x :: v) (v ++ [x]).
Proof.
  induction 1 as [|w v Hw _ IH]; [apply rtc_refl|]. eapply rtc_l; [by exists [], x, w, v|]. by apply (swaps_right [w]).
Qed.

Lemma swaps_blocks u v : (forall x y, x ∈ u -> y ∈ v -> Less y x = true) -> swaps (u ++ v) (v ++ u).
Proof.
  induction u as [|x u IH]; intros H; [cbn [app]; rewrite app_nil_r; apply rtc_refl|].
  etrans; [apply (swaps_right [x]), IH; intros; apply H; [by right|done]|].
  replace (v ++ x :: u) with ((v ++ [x]) ++ u) by by rewrite <- app_assoc. rewrite app_assoc. cbn [app]. apply (swaps_left (x :: v)).
  apply swaps_past, Forall_forall. intros y Hy. apply H; [left|done].
Qed.

(** No element less than the one before it. *)
Definition ascending (l : list A) : Prop := Sorted (fun a b => Less b a = false) l.

Lemma ascending_stays a b : ascending a -> swaps a b -> b = a.
Proof.
  intros Ha [->|(c & (l1 & u & w & l2 & -> & _ & H) & _)]%rtc_inv; [done|]. exfalso. unfold ascending in Ha.
  induction l1 as [|e l1 IH]; cbn [app] in Ha; apply Sorted_inv in Ha as [Ha Hd]; [|by apply IH]. apply HdRel_inv in Hd. congruence.
Qed.

(** ** Insertion *)
Section insertion.
Context (Hasym : forall a b, Less a b = true -> Less b a = false).

Definition descending (l : list A) : Prop := Sorted (fun a b => Less a b = false) l.

Lemma sink_descending x acc : descending acc -> descending (sink x acc).
Proof using Hasym.
  unfold descending. induction acc as [|y acc IH]; intros Ha; cbn [sink]; [by repeat constructor|].
  destruct (Less x y) eqn:E; [|constructor; [done|by constructor]]. apply Sorted_inv in Ha as [Ha Hd]. constructor; [by apply IH|].
  destruct acc as [|z acc]; cbn [sink]; [constructor; by apply Hasym|]. apply HdRel_inv in Hd.
  destruct (Less x z); constructor; [done|by apply Hasym].
Qed.

Lemma descending_rev l : descending l -> ascending (rev l).
Proof.
  unfold descending, ascending. induction l as [|x l IH]; intros Hs; [constructor|]. apply Sorted_inv in Hs as [Hs Hd].
  specialize (IH Hs). cbn [rev]. destruct l as [|y l]; [repeat constructor|]. apply HdRel_inv in Hd. cbn [rev] in *.
  revert IH. generalize (rev l) as k. intros k. induction k as [|z k IHk]; intros H; [repeat constructor; done|].
  cbn [app] in *. apply Sorted_inv in H as [H Hz]. constructor; [by apply IHk|]. destruct k; cbn [app] in *; constructor; by apply HdRel_inv in Hz.
Qed.

Lemma sink_swaps x acc : swaps (rev acc ++ [x]) (rev (sink x acc)).
Proof.
  induction acc as [|y acc IH]; cbn [sink rev app]; [apply rtc_refl|]. destruct (Less x y) eqn:E; [|apply rtc_refl].
  eapply rtc_l; [exists (rev acc), y, x, []; split_and!; [by rewrite <- app_assoc|done|done]|]. cbn [rev].
  assert (rev acc ++ [x; y] = (rev acc ++ [x]) ++ [y]) as -> by by rewrite <- app_assoc. by apply swaps_left.
Qed.

Lemma insertionSort_swaps l : swaps l (insertionSort l).
Proof.
  enough (forall acc, swaps (rev acc ++ l) (rev (foldl (fun acc x => sink x acc) acc l))) as H by apply (H []).
  induction l as [|x l IH]; intros acc; [rewrite app_nil_r; apply rtc_refl|]. cbn [foldl]. etrans; [|apply IH].
  assert (rev acc ++ x :: l = (rev acc ++ [x]) ++ l) as -> by by rewrite <- app_assoc. apply swaps_left, sink_swaps.
Qed.

Lemma insertionSort_ascending l : ascending (insertionSort l).
Proof using Hasym.
  apply descending_rev. assert (descending []) as H0 by constructor. revert H0. generalize (@nil A) as acc.
  induction l as [|x l IH]; intros acc Ha; [done|]. cbn [foldl]. by apply IH, sink_descending.
Qed.

(** Twenty elements are sorted by insertion alone. *)
Lemma Stable_short l : (length l <= blockSize)%nat -> Stable l = insertionSort l.
Proof.
  intros Hl. unfold Stable. cbn [sort_runs]. pose proof (Permutation_length (swaps_perm _ _ (insertionSort_swaps l))) as Hi.
  assert ((if (blockSize <=? length l)%nat then insertionSort (take blockSize l) ++ sort_runs (length l) blockSize (drop blockSize l) else insertionSort l)
    = insertionSort l) as ->.
  { destruct (Nat.leb_spec blockSize (length l)) as [H|H]; [|done]. rewrite take_ge, drop_ge by lia.
    destruct l as [|x l]; [done|]. cbn [length sort_runs]. cbn. by rewrite app_nil_r. }
  destruct (length l) as [|n]; [done|]. cbn [merge_all]. rewrite <- Hi. by rewrite (proj2 (Nat.ltb_ge _ _)) by lia.
Qed.
End insertion.
(** ** Merging in place *)

Lemma halving_spec up fuel : forall i j, (i <= j)%nat -> (j - i <= fuel)%nat ->
  (i <= search up fuel i j <= j)%nat /\ ((i < search up fuel i j)%nat -> up (search up fuel i j - 1)%nat = true) /\
  ((search up fuel i j < j)%nat -> up (search up fuel i j) = false).
Proof.
  induction fuel as [|fuel IH]; intros i j Hij Hf; cbn [search]; [split_and!; lia|].
  destruct (Nat.ltb_spec i j) as [Hlt|Hge]; [|split_and!; lia]. set (h := ((i + j) / 2)%nat).
  assert (i <= h < j)%nat as Hh by (unfold h; split; [apply Nat.div_le_lower_bound|apply Nat.Div0.div_lt_upper_bound]; lia).
  destruct (up h) eqn:Eh.
  - destruct (IH (h + 1)%nat j) as (H1 & H2 & H3); [lia|lia|]. set (r := search up fuel (h + 1)%nat j) in *. split_and!; [lia..| |done].
    intros _. destruct (decide (r = h + 1)%nat) as [->|]; [by replace (h + 1 - 1)%nat with h by lia|apply H2; lia].
  - destruct (IH i h) as (H1 & H2 & H3); [lia|lia|]. set (r := search up fuel i h) in *. split_and!; [lia..|done|].
    intros _. destruct (decide (r = h)) as [->|]; [done|apply H3; lia].
Qed.

(** On the elements of a list, [Less] is a strict weak order. *)
Definition weak (l : list A) : Prop :=
  forall a b c, a ∈ l -> b ∈ l -> c ∈ l -> Less b a = false -> Less c b = false -> Less c a = false.

Lemma weak_sub k l : (forall x, x ∈ k -> x ∈ l) -> weak l -> weak k.
Proof. intros H Hw a b c ?%H ?%H ?%H. by apply Hw. Qed.

Lemma weak_perm l k : l ≡ₚ k -> weak l -> weak k.
Proof. intros Hp. apply weak_sub. intros x. by rewrite Hp. Qed.

Section merging.
Context (Hasym : forall a b, Less a b = true -> Less b a = false).
Abbreviation le := (fun a b => Less b a = false).

Lemma Less_irrefl a : Less a a = false.
Proof using Hasym. destruct (Less a a) eqn:E; [by rewrite (Hasym _ _ E) in E|done]. Qed.

Lemma ascending_strong l : weak l -> ascending l -> StronglySorted le l.
Proof.
  intros Hw Ha. induction Ha as [|x l Ha IH Hd]; [constructor|].
  assert (StronglySorted le l) as Hs by (apply IH, (weak_sub _ (x :: l)); [by right|done]). constructor; [done|].
  destruct l as [|y l]; [constructor|]. apply HdRel_inv in Hd. apply StronglySorted_inv in Hs as [_ Hy]. constructor; [done|].
  rewrite Forall_forall in Hy |- *. intros z Hz. apply (Hw x y z); [left|by right; left|by right; right|done|by apply Hy].
Qed.

Lemma strong_lookup l i j x y : StronglySorted le l -> (i <= j)%nat -> l !! i = Some x -> l !! j = Some y -> Less y x = false.
Proof using Hasym.
  intros Hs. revert i j. induction Hs as [|z l Hs IH Hz]; intros i j Hij Hi Hj; [done|]. destruct j as [|j].
  - assert (i = 0)%nat as -> by lia. cbn in Hi, Hj. injection Hi as ->. injection Hj as ->. apply Less_irrefl.
  - destruct i as [|i]; [|apply (IH i j); [lia|done|done]]. cbn in Hi, Hj. injection Hi as ->. rewrite Forall_forall in Hz.
    apply Hz. by eapply list_elem_of_lookup_2.
Qed.

(** The parts before, of and after the two that are exchanged. *)
Section split.
Context (l : list A) (m start stop : nat) (Hb : (start <= m <= stop)%nat /\ (stop <= length l)%nat) (Hw : weak l).
Context (HL : StronglySorted le (take m l)) (HR : StronglySorted le (drop m l)).
Definition L1 := take start l.
Definition L2 := drop start (take m l).
Definition R1 := drop m (take stop l).
Definition R2 := drop stop l.

Lemma take_split : take m l = L1 ++ L2.
Proof using Hb. unfold L1, L2. rewrite <- (take_drop start (take m l)) at 1. rewrite take_take. by replace (start `min` m)%nat with start by lia. Qed.
Lemma drop_split : drop m l = R1 ++ R2.
Proof using Hb.
  unfold R1, R2. rewrite <- (take_drop (stop - m) (drop m l)). rewrite drop_drop, take_drop_commute.
  by replace (m + (stop - m))%nat with stop by lia.
Qed.
Lemma rotate_split : l = L1 ++ (L2 ++ R1) ++ R2 /\ rotate l start m stop = (L1 ++ R1) ++ (L2 ++ R2).
Proof using Hb.
  split; [rewrite <- (take_drop m l) at 1; rewrite take_split, drop_split, <- !app_assoc; done|].
  unfold rotate. fold L1 R1 L2 R2. by rewrite <- app_assoc.
Qed.
Lemma strong_parts : StronglySorted le L1 /\ StronglySorted le L2 /\ StronglySorted le R1 /\ StronglySorted le R2.
Proof using Hb HL HR.
  pose proof HL as HL'. pose proof HR as HR'. rewrite take_split in HL'. rewrite drop_split in HR'.
  apply StronglySorted_app in HL' as (_ & ? & ?), HR' as (_ & ? & ?). done.
Qed.

Context (H1 : (0 < start)%nat -> (stop < length l)%nat -> less_at l stop (start - 1) = false).
Context (H2 : (start < m)%nat -> (m < stop)%nat -> less_at l (stop - 1) start = true).

Lemma split_before x y : x ∈ L1 -> y ∈ R2 -> Less y x = false.
Proof using Hasym Hb Hw HL HR H1.
  clear H2. intros [i Hi]%list_elem_of_lookup [j Hj]%list_elem_of_lookup. unfold L1, R2 in *. apply lookup_take_Some in Hi as [Hi Hlt]. rewrite lookup_drop in Hj.
  assert (stop < length l)%nat as Hs by (apply lookup_lt_Some in Hj; lia).
  destruct (lookup_lt_is_Some_2 l (start - 1)) as [u Hu]; [lia|]. destruct (lookup_lt_is_Some_2 l stop) as [w Hw']; [done|].
  specialize (H1 ltac:(lia) Hs). unfold less_at in H1. rewrite Hw', Hu in H1.
  assert (Less u x = false) as Hux. { apply (strong_lookup (take m l) i (start - 1)); [done|lia|rewrite lookup_take_lt by lia; done..]. }
  assert (Less y w = false) as Hyw.
  { apply (strong_lookup (drop m l) (stop - m) (stop + j - m)); [done|lia|rewrite lookup_drop..].
    - by replace (m + (stop - m))%nat with stop by lia.
    - by replace (m + (stop + j - m))%nat with (stop + j)%nat by lia. }
  apply (Hw x w y); [by eapply list_elem_of_lookup_2..| |done]. by apply (Hw x u w); [by eapply list_elem_of_lookup_2..|done|].
Qed.

Lemma split_after x y : x ∈ L2 -> y ∈ R1 -> Less y x = true.
Proof using Hasym Hb Hw HL HR H2.
  clear H1. intros [i Hi]%list_elem_of_lookup [j Hj]%list_elem_of_lookup. unfold L2, R1 in *. rewrite lookup_drop in Hi, Hj.
  apply lookup_take_Some in Hi as [Hi Hlt], Hj as [Hj Hlt'].
  destruct (lookup_lt_is_Some_2 l start) as [u Hu]; [lia|]. destruct (lookup_lt_is_Some_2 l (stop - 1)) as [w Hw']; [lia|].
  specialize (H2 ltac:(lia) ltac:(lia)). unfold less_at in H2. rewrite Hw', Hu in H2.
  assert (Less x u = false) as Hxu. { apply (strong_lookup (take m l) start (start + i)); [done|lia|rewrite lookup_take_lt by lia; done..]. }
  assert (Less w y = false) as Hwy.
  { apply (strong_lookup (drop m l) j (stop - 1 - m)); [done|lia|rewrite lookup_drop..]; [done|].
    by replace (m + (stop - 1 - m))%nat with (stop - 1)%nat by lia. }
  destruct (Less y x) eqn:E; [done|]. rewrite <- H2. symmetry.
  apply (Hw u y w); [by eapply list_elem_of_lookup_2..| |done]. by apply (Hw u x y); [by eapply list_elem_of_lookup_2..|done|].
Qed.

Lemma split_cross x y : x ∈ L1 ++ R1 -> y ∈ L2 ++ R2 -> Less y x = false.
Proof using Hasym Hb Hw HL HR H1 H2.
  pose proof HL as HL'. pose proof HR as HR'. rewrite take_split in HL'. rewrite drop_split in HR'.
  rewrite !elem_of_app. intros [Hx|Hx] [Hy|Hy].
  - apply StronglySorted_app in HL' as (H & _ & _). by apply H.
  - by apply split_before.
  - by apply Hasym, split_after.
  - apply StronglySorted_app in HR' as (H & _ & _). by apply H.
Qed.

Lemma split_swaps : swaps l (rotate l start m stop).
Proof using Hasym Hb Hw HL HR H2.
  destruct rotate_split as [E ->]. rewrite E at 1. replace ((L1 ++ R1) ++ L2 ++ R2) with (L1 ++ (R1 ++ L2) ++ R2) by by rewrite <- !app_assoc.
  apply swaps_in, swaps_blocks. intros x y. apply split_after.
Qed.
End split.

Lemma merge_or_keep merged l1 l2 (c : bool) : (c = true -> swaps (l1 ++ l2) merged /\ StronglySorted le merged) ->
  (c = false -> l1 = [] \/ l2 = []) -> StronglySorted le l1 -> StronglySorted le l2 ->
  swaps (l1 ++ l2) (if c then merged else l1 ++ l2) /\ StronglySorted le (if c then merged else l1 ++ l2).
Proof.
  intros Hm Hk S1 S2. destruct c; [by apply Hm|]. split; [apply rtc_refl|]. destruct (Hk eq_refl) as [-> | ->]; [done|by rewrite app_nil_r].
Qed.

Lemma symMerge_ok fuel : forall l m, (length l <= fuel)%nat -> (0 < m < length l)%nat -> weak l ->
  StronglySorted le (take m l) -> StronglySorted le (drop m l) -> swaps l (symMerge fuel l m) /\ StronglySorted le (symMerge fuel l m).
Proof using Hasym.
  induction fuel as [|fuel IH]; intros l m Hf Hm Hw HL HR; [lia|]. cbn [symMerge].
  destruct (Nat.eqb_spec m 1) as [->|Hm1]; [|destruct (Nat.eqb_spec (length l - m) 1) as [Hb1|Hb1]].
  - set (up := fun h => less_at l h 0). destruct (halving_spec up (length l) 1 (length l)) as (Hi & Hup & Hdn); [lia..|].
    set (i := search up (length l) 1 (length l)) in *.
    destruct (rotate_split l 1 0 i) as [_ E]; [lia|]. split; [apply split_swaps; auto with lia|]. rewrite E.
    destruct (strong_parts l 1 0 i) as (_ & S2 & S3 & S4); [lia|done..|]. apply StronglySorted_app_2; [|done|].
    + intros x y. apply (split_cross l 1 0 i); auto with lia.
    + apply StronglySorted_app_2; [|done|done]. intros x y Hx Hy. apply (split_cross l 1 1 i); [lia|done|done|done| | | |].
      * intros _ Hl. by apply Hdn.
      * lia.
      * apply elem_of_app. by left.
      * apply elem_of_app. by right.
  - set (up := fun h => negb (less_at l m h)). destruct (halving_spec up (length l) 0 m) as (Hi & Hup & Hdn); [lia..|].
    set (i := search up (length l) 0 m) in *. assert (length l = m + 1)%nat as El by lia.
    destruct (rotate_split l m i (length l)) as [_ E]; [lia|].
    assert (forall k, (k < m)%nat -> up k = false -> less_at l m k = true) as Hf1 by (unfold up; intros k _ ?%negb_false_iff; done).
    assert (forall k, up k = true -> less_at l m k = false) as Ht1 by (unfold up; intros k ?%negb_true_iff; done).
    destruct (strong_parts l m i (length l)) as (S1 & S2 & S3 & S4); [lia|done..|].
    split; [apply split_swaps; try done; [lia|]|]; [intros ? _; rewrite El, Nat.add_sub; auto|]. rewrite E. apply StronglySorted_app_2; [| |].
    + intros x y. apply (split_cross l m i (length l)); try done; [lia|intros; lia|]. intros ? _. rewrite El, Nat.add_sub. auto.
    + apply StronglySorted_app_2; [|done|done]. intros x y Hx Hy. apply (split_cross l m i m); try done; [lia|intros; apply Ht1, Hup; lia|intros; lia|by apply elem_of_app; left|].
      apply elem_of_app; right. unfold R1 in Hy. by rewrite take_ge in Hy by lia.
    + unfold R2 in *. rewrite drop_ge in * by lia. by rewrite app_nil_r.
  - set (b := length l) in *. set (mid := (b / 2)%nat). set (n := (mid + m)%nat).
    assert (2 <= mid < b /\ 2 * mid <= b < 2 * mid + 2)%nat as Hmid.
    { pose proof (Nat.div_mod_eq b 2). pose proof (Nat.mod_upper_bound b 2). fold mid in H. lia. }
    set (lo := if (mid <? m)%nat then _ else _). set (hi := if (mid <? m)%nat then _ else _).
    assert (lo <= hi /\ n <= hi + b /\ n - b <= lo /\ hi <= m /\ hi <= mid /\ (mid < m -> lo = n - b) /\ (m <= mid -> lo = 0))%nat as Hlo.
    { unfold lo, hi, n. destruct (Nat.ltb_spec mid m); lia. }
    set (up := fun c => negb (less_at l (n - 1 - c) c)). destruct (halving_spec up b lo hi) as (Hi & Hup & Hdn); [lia|lia|].
    set (start := search up b lo hi) in *. set (stop := (n - start)%nat).
    assert (start <= m <= stop /\ stop <= length l)%nat as Hb by (unfold stop, n in *; fold b; lia).
    assert ((0 < start)%nat -> (stop < b)%nat -> less_at l stop (start - 1) = false) as H1.
    { intros Hs1 Hs2. assert (lo < start)%nat as Hlt by (unfold stop, n in *; lia). specialize (Hup Hlt). unfold up in Hup. apply negb_true_iff in Hup.
      by replace stop with (n - 1 - (start - 1))%nat by (unfold stop, n in *; lia). }
    assert ((start < m)%nat -> (m < stop)%nat -> less_at l (stop - 1) start = true) as H2.
    { intros Hs1 Hs2. assert (start < hi)%nat as Hlt by (unfold stop, n, hi in *; destruct (Nat.ltb_spec mid m); lia). specialize (Hdn Hlt). unfold up in Hdn.
      apply negb_false_iff in Hdn. by replace (stop - 1)%nat with (n - 1 - start)%nat by (unfold stop; lia). }
    destruct (rotate_split l m start stop Hb) as [E1 E2]. destruct (strong_parts l m start stop Hb HL HR) as (S1 & S2 & S3 & S4).
    assert ((if (start <? m)%nat && (m <? stop)%nat then rotate l start m stop else l) = rotate l start m stop) as ->.
    { destruct (Nat.ltb_spec start m) as [|Hge]; [destruct (Nat.ltb_spec m stop) as [|Hge]|]; [done| |]; cbn [andb]; rewrite E2; rewrite E1 at 1; unfold L2, R1.
      - rewrite (drop_ge (take stop l)) by (rewrite length_take; lia). by rewrite !app_nil_r.
      - rewrite (drop_ge (take m l)) by (rewrite length_take; lia). cbn [app]. by rewrite <- app_assoc. }
    rewrite E2. assert (length (L1 l start ++ R1 l m stop) = mid) as Elen.
    { unfold L1, R1. rewrite length_app, length_drop, !length_take. unfold stop, n in *. fold b. lia. }
    rewrite take_app_length', drop_app_length' by done.
    pose proof (split_cross l m start stop Hb Hw HL HR H1 H2) as Hcross.
    assert (length (L1 l start) = start) as El1 by (unfold L1; rewrite length_take; fold b; lia).
    assert (length (L2 l m start) = m - start)%nat as El2 by (unfold L2; rewrite length_drop, length_take; fold b; lia).
    assert (length (R2 l stop) = b - stop)%nat as Er2 by (unfold R2; rewrite length_drop; done).
    assert (forall x, x ∈ l <-> x ∈ (L1 l start ++ R1 l m stop) ++ L2 l m start ++ R2 l stop) as Hin by (intros x; rewrite E1 at 1; rewrite !elem_of_app; tauto).
    destruct (merge_or_keep (symMerge fuel (L1 l start ++ R1 l m stop) start) (L1 l start) (R1 l m stop) ((0 <? start)%nat && (start <? mid)%nat)) as [Sw1 Ss1]; [| |done|done|].
    { intros [Hp%Nat.ltb_lt Hq%Nat.ltb_lt]%andb_true_iff.
      apply IH; [lia|lia|apply (weak_sub _ l); [intros; apply Hin, elem_of_app; by left|done]|by rewrite take_app_length'|by rewrite drop_app_length']. }
    { rewrite length_app in Elen. intros [Hz%Nat.ltb_ge|Hz%Nat.ltb_ge]%andb_false_iff; [left|right]; apply nil_length_inv; lia. }
    assert (stop - mid = m - start)%nat as Esm by (unfold stop, n in *; lia). rewrite Esm.
    destruct (merge_or_keep (symMerge fuel (L2 l m start ++ R2 l stop) (m - start)) (L2 l m start) (R2 l stop) ((mid <? stop)%nat && (stop <? b)%nat)) as [Sw2 Ss2]; [| |done|done|].
    { intros [Hp%Nat.ltb_lt Hq%Nat.ltb_lt]%andb_true_iff.
      apply IH; [rewrite length_app; lia|rewrite length_app; lia|apply (weak_sub _ l); [intros; apply Hin, elem_of_app; by right|done]|by rewrite take_app_length'|by rewrite drop_app_length']. }
    { intros [Hz%Nat.ltb_ge|Hz%Nat.ltb_ge]%andb_false_iff; [left|right]; apply nil_length_inv; lia. }
    split.
    + etrans; [apply (split_swaps l m start stop Hb Hw HL HR H2)|]. rewrite E2. by apply swaps_app.
    + apply StronglySorted_app_2; [|done|done]. intros x y Hx Hy. apply Hcross; [by rewrite (swaps_perm _ _ Sw1)|by rewrite (swaps_perm _ _ Sw2)].
Qed.

(** ** Runs *)

(** The elements in runs of [size], each in order. *)
Definition in_runs (size : nat) (l : list A) : Prop := forall k, StronglySorted le (take size (drop (k * size) l)).

Lemma in_runs_cons size a l : length a = size -> StronglySorted le a -> in_runs size l -> in_runs size (a ++ l).
Proof.
  intros Hl Ha Hr [|k]; [by rewrite drop_0, take_app_length'|].
  replace (S k * size)%nat with (length a + k * size)%nat by lia. rewrite <- drop_drop, drop_app_length. apply Hr.
Qed.

Lemma in_runs_one size l : (length l <= size)%nat -> StronglySorted le l -> in_runs size l.
Proof.
  intros Hl Hs [|k]; [by rewrite drop_0, take_ge|]. rewrite drop_ge by lia. rewrite take_nil. constructor.
Qed.

Lemma in_runs_sorted size l : (length l <= size)%nat -> in_runs size l -> StronglySorted le l.
Proof. intros Hl Hr. specialize (Hr 0%nat). by rewrite drop_0, take_ge in Hr by lia. Qed.

Lemma in_runs_drop size n l : in_runs size l -> in_runs size (drop (n * size) l).
Proof. intros Hr k. rewrite drop_drop. replace (n * size + k * size)%nat with ((n + k) * size)%nat by lia. apply Hr. Qed.

Lemma weak_part a b l : l = a ++ b -> weak l -> weak a /\ weak b.
Proof. intros -> Hw. split; (eapply weak_sub; [|exact Hw]); intros x Hx; apply elem_of_app; auto. Qed.

Lemma insertionSort_strong l : weak l -> StronglySorted le (insertionSort l).
Proof using Hasym.
  intros Hw. apply ascending_strong; [|by apply insertionSort_ascending].
  apply (weak_perm l); [|done]. apply swaps_perm, insertionSort_swaps.
Qed.

Lemma sort_runs_ok size fuel : (0 < size)%nat -> forall l, (length l < fuel)%nat -> weak l ->
  swaps l (sort_runs fuel size l) /\ in_runs size (sort_runs fuel size l).
Proof using Hasym.
  intros Hs. induction fuel as [|fuel IH]; intros l Hf Hw; [lia|]. cbn [sort_runs]. destruct (Nat.leb_spec size (length l)) as [Hle|Hlt].
  - pose proof (take_drop size l) as E. destruct (weak_part _ _ l (eq_sym E) Hw) as [Hw1 Hw2].
    destruct (IH (drop size l)) as [Sw Hr]; [rewrite length_drop; lia|done|]. split.
    + rewrite <- E at 1. by apply swaps_app; [apply insertionSort_swaps|].
    + apply in_runs_cons; [|by apply insertionSort_strong|done]. rewrite <- (swaps_perm _ _ (insertionSort_swaps _)), length_take. lia.
  - split; [apply insertionSort_swaps|]. apply in_runs_one; [rewrite <- (swaps_perm _ _ (insertionSort_swaps _)); lia|by apply insertionSort_strong].
Qed.

Lemma merge_runs_ok size fuel : (0 < size)%nat -> forall l, (length l <= fuel)%nat -> weak l -> in_runs size l ->
  swaps l (merge_runs fuel size l) /\ in_runs (2 * size) (merge_runs fuel size l).
Proof using Hasym.
  intros Hs. induction fuel as [|fuel IH]; intros l Hf Hw Hr.
  { destruct l; [|cbn in Hf; lia]. split; [apply rtc_refl|]. apply in_runs_one; [cbn; lia|constructor]. }
  cbn [merge_runs]. destruct (Nat.leb_spec (2 * size) (length l)) as [Hle|Hlt]; [|destruct (Nat.ltb_spec size (length l)) as [Hlt'|Hge]].
  - pose proof (take_drop (2 * size) l) as E. destruct (weak_part _ _ l (eq_sym E) Hw) as [Hw1 Hw2].
    destruct (IH (drop (2 * size) l)) as [Sw2 Hr2]; [rewrite length_drop; lia|done|by apply in_runs_drop|].
    destruct (symMerge_ok (length l) (take (2 * size) l) size) as [Sw1 S1]; [rewrite length_take; lia..|done| | |].
    + rewrite take_take. replace (size `min` (2 * size))%nat with size by lia. apply (Hr 0%nat).
    + replace (2 * size)%nat with (size + size)%nat by lia. rewrite <- take_drop_commute. specialize (Hr 1%nat). by rewrite Nat.mul_1_l in Hr.
    + split; [rewrite <- E at 1; by apply swaps_app|]. apply in_runs_cons; [|done|done]. rewrite <- (swaps_perm _ _ Sw1), length_take. lia.
  - destruct (symMerge_ok (length l) l size) as [Sw S]; [lia..|done|apply (Hr 0%nat)| |].
    + specialize (Hr 1%nat). rewrite Nat.mul_1_l in Hr. by rewrite take_ge in Hr by (rewrite length_drop; lia).
    + split; [done|]. apply in_runs_one; [rewrite <- (swaps_perm _ _ Sw); lia|done].
  - split; [apply rtc_refl|]. apply in_runs_one; [lia|]. by apply (in_runs_sorted size); [lia|].
Qed.

Lemma merge_all_ok fuel : forall size l, (0 < size)%nat -> (length l <= size + fuel)%nat -> weak l -> in_runs size l ->
  swaps l (merge_all fuel size l) /\ StronglySorted le (merge_all fuel size l).
Proof using Hasym.
  induction fuel as [|fuel IH]; intros size l Hs Hf Hw Hr; cbn [merge_all]; [split; [apply rtc_refl|apply (in_runs_sorted size); [lia|done]]|].
  destruct (Nat.ltb_spec size (length l)) as [Hlt|Hge]; [|split; [apply rtc_refl|by apply (in_runs_sorted size)]].
  destruct (merge_runs_ok size (length l) Hs l (le_n _) Hw Hr) as [Sw Hr']. pose proof (swaps_perm _ _ Sw) as Hp.
  destruct (IH (2 * size)%nat (merge_runs (length l) size l)) as [Sw' S]; [lia|rewrite <- Hp; lia| |done|split; [by etrans|done]].
  by apply (weak_perm l).
Qed.

(** Where the sort can be relied on: up to twenty elements, or [Less] a strict weak order. *)
Definition sortable (l : list A) : Prop := (length l <= blockSize)%nat \/ weak l.

Lemma Stable_ok l : sortable l -> swaps l (Stable l) /\ ascending (Stable l).
Proof using Hasym.
  intros [Hl|Hw].
  - rewrite Stable_short by done. split; [apply insertionSort_swaps|by apply insertionSort_ascending].
  - unfold Stable. destruct (sort_runs_ok blockSize (S (length l))) with l as [Sw Hr]; [unfold blockSize; lia|lia|done|].
    set (l1 := sort_runs (S (length l)) blockSize l) in *. pose proof (swaps_perm _ _ Sw) as Hp.
    destruct (merge_all_ok (length l) blockSize l1) as [Sw' S]; [unfold blockSize; lia|rewrite <- Hp; lia| |done|].
    + by apply (weak_perm l).
    + split; [by etrans|]. by apply StronglySorted_Sorted.
Qed.

Lemma sortable_perm l k : l ≡ₚ k -> sortable l -> sortable k.
Proof. intros Hp [Hl|Hw]; [left; by rewrite <- Hp|right]. by apply (weak_perm l). Qed.

Lemma sortable_suffix p q : sortable (p ++ q) -> sortable q.
Proof.
  intros [Hl|Hw]; [left; rewrite length_app in Hl; lia|right]. eapply weak_sub; [|exact Hw]. intros x Hx. apply elem_of_app. by right.
Qed.

End merging.
End sort.
End GoSort.
