(* ===== verification/MergeBlocks.v ===== *)
(** Merging the blocks of one key: [block] and [blocks] of
    src/storage/compactor/compactor.go and the five copies of merge, combine and chunk of
    src/storage/compactor/compact.gen.go.

    The copies are instances of one set of definitions over [ops], the array type with its
    block codec.  A [run] is what those functions change of the iterator. *)
From stdpp Require Import gmap sorting relations.
From S2P Require Import Prelude StringCodec Values ArrayValues Block Bytes Util VFile VFileManager.
Import ArrayValues Util.

Module MergeBlocks.

Definition MaxInt64 : Z := 2 ^ 63 - 1.
Definition MinInt64 : Z := - 2 ^ 63.

(** ** Blocks *)

Record block := MkBlock {
  key : list Z; minTime : Z; maxTime : Z; typ : Z; data : list Z; tombstones : list TimeRange;
  readMin : Z; readMax : Z }.

Definition with_maxTime (b : block) (t : Z) : block :=
  MkBlock (key b) (minTime b) t (typ b) (data b) (tombstones b) (readMin b) (readMax b).

Definition overlapsTimeRange (b : block) (min max : Z) : bool := (minTime b <=? max) && (min <=? maxTime b).
Definition read (b : block) : bool := (readMin b <=? minTime b) && (maxTime b <=? readMax b).
Definition markRead (b : block) (min max : Z) : block :=
  MkBlock (key b) (minTime b) (maxTime b) (typ b) (data b) (tombstones b)
    (if min <? readMin b then min else readMin b) (if readMax b <? max then max else readMax b).
Definition partiallyRead (b : block) : bool :=
  if (readMin b =? MaxInt64) && (readMax b =? MinInt64) then false
  else negb (readMin b =? minTime b) || negb (readMax b =? maxTime b).

(** [blocks.Less]: not a total order, blocks that overlap are incomparable. *)
Definition Less (a b : block) : bool :=
  let cmp := Compare (key a) (key b) in
  if cmp =? 0 then (minTime a <? minTime b) && (maxTime a <? minTime b) else cmp <? 0.

(** ** Errors and settings *)

Inductive cause :=
| Plain (e : string)
| DecodeError (typ : string) (k : list Z) (e : string)
| EncodeError (typ : string) (k : list Z) (e : string)
| UnknownType (t : Z).
Inductive iter_error :=
| Bare (e : string)
| ErrBlockRead (file : list Z) (c : cause).

(** The loops are given fuel; running out of it is no error of the code. *)
Definition no_fuel : string := "the model ran out of fuel".

Definition columns {A} (r : outcome (list Z * list A)) : outcome (Array A) := '(ts, vs) ← r; Ok (MkArray ts vs).

(** What stays as it is while the blocks of a key are merged. *)
Record settings := MkSettings {
  size : nat; separateThreshold : Z; fast : bool; maxErrors : nat; vr : VFileManager.VFileRegionManager;
  cur_key : list Z; currentSst : list Z }.

(** An array type: what [new] elements are, its name in messages, its block codec. *)
Record ops (A : Type) := MkOps {
  zero : A; label : string; decode : list Z -> outcome (Array A); encode : Array A -> outcome (list Z) }.
Arguments MkOps {A} zero label decode encode.
Arguments zero {A} o.
Arguments label {A} o.
Arguments decode {A} o.
Arguments encode {A} o.

(** What [AppendError] keeps: the errors, at most [maxErrors] of them, and how many were
    dropped. *)
Record errors := MkErrors { saved : list iter_error; overflow : Z }.
Definition add_error (max : nat) (es : errors) (e : iter_error) : errors :=
  if bool_decide (length (saved es) < max)%nat then MkErrors (saved es ++ [e]) (overflow es)
  else MkErrors (saved es) (overflow es + 1).

(** [r_floats] is the [mergedFloatValues] of the iterator, which every copy has to do with. *)
Record run (A : Type) := MkRun {
  r_blocks : list block; r_merged : list block; r_values : Array A; r_floats : Array Z; r_errs : errors }.
Arguments MkRun {A} r_blocks r_merged r_values r_floats r_errs.
Arguments r_blocks {A} r.
Arguments r_merged {A} r.
Arguments r_values {A} r.
Arguments r_floats {A} r.
Arguments r_errs {A} r.

Section Chunk.
Context {A : Type} (T : ops A) (s : settings).
Abbreviation run := (run A).

Definition with_blocks (r : run) (bs : list block) : run := MkRun bs (r_merged r) (r_values r) (r_floats r) (r_errs r).
Definition with_merged (r : run) (m : list block) : run := MkRun (r_blocks r) m (r_values r) (r_floats r) (r_errs r).
Definition with_values (r : run) (v : Array A) : run := MkRun (r_blocks r) (r_merged r) v (r_floats r) (r_errs r).

Definition AppendError (r : run) (e : iter_error) : run :=
  MkRun (r_blocks r) (r_merged r) (r_values r) (r_floats r) (add_error (maxErrors s) (r_errs r) e).
Definition handleEncodeError (r : run) (e : string) : run :=
  AppendError r (ErrBlockRead (currentSst s) (EncodeError (label T) (cur_key s) e)).
Definition handleDecodeError (r : run) (e : string) : run :=
  AppendError r (ErrBlockRead (currentSst s) (DecodeError (label T) (cur_key s) e)).

Definition empty : Array A := MkArray [] [].

(** ** [chunk]: one block of the merged values, at most [size] of them *)
Definition chunk (r : run) (dst : list block) : outcome (run * list block) :=
  let v := r_values r in
  let new mn mx cb := MkBlock (cur_key s) mn mx 0 cb [] 0 0 in
  if bool_decide (size s < Len v)%nat then
    ts ← subslice (Timestamps v) 0 (size s);
    mn ← index ts 0;
    mx ← index ts (length ts - 1);
    vs ← subslice (Values v) 0 (size s);
    match encode T (MkArray ts vs) with
    | Ok cb =>
        ts' ← tail_from (Timestamps v) (size s);
        vs' ← tail_from (Values v) (size s);
        Ok (with_values r (MkArray ts' vs'), dst ++ [new mn mx cb])
    | Err e => Ok (handleEncodeError r e, [])
    | Panic => Panic
    end
  else if bool_decide (0 < Len v)%nat then
    mn ← index (Timestamps v) 0;
    mx ← index (Timestamps v) (length (Timestamps v) - 1);
    match encode T v with
    | Ok cb => Ok (with_values r empty, dst ++ [new mn mx cb])
    | Err e => Ok (handleEncodeError r e, [])
    | Panic => Panic
    end
  else Ok (r, dst).

End Chunk.

(** [chunkFloat], as the other copies call it. *)
Definition float_ops : ops Z := MkOps 0 "float"%string
  (fun b => columns (Block.DecodeFloatArrayBlock b nil_slice nil_slice))
  (fun a => contents <$> Block.EncodeFloatArrayBlock (Timestamps a) (Values a) nil_slice).
Definition chunkFloat := chunk float_ops.
Definition chunk_floats {A} (s : settings) (r : run A) (dst : list block) : outcome (run A * list block) :=
  '(f, m) ← chunkFloat s (MkRun (r_blocks r) (r_merged r) (r_floats r) empty (r_errs r)) dst;
  Ok (MkRun (r_blocks r) (r_merged r) (r_values r) (r_values f) (r_errs f), m).

(** [ptr_chunk] is the chunk function called before a block of pointers: of floats in every
    copy. *)
Section Merge.
Context (stable : list block -> list block).
Context {A : Type} (T : ops A) (ptr_chunk : settings -> run A -> list block -> outcome (run A * list block)).
Context (s : settings).
Abbreviation run := (run A).

(** ** [combine] with duplicates to remove *)

(** The values of a block, those of its pointers merged; a block collected is skipped. *)
Fixpoint merge_data (v : Array A) (ds : list (list Z)) : outcome (Array A) :=
  match ds with
  | [] => Ok v
  | d :: ds =>
      if bool_decide (length d = 0)%nat then merge_data v ds
      else v2 ← decode T d; v ← Merge (zero T) v v2; merge_data v ds
  end.
Definition load (b : list Z) : outcome (Array A) := ds ← VFileManager.ReadDataBlocks (vr s) b; merge_data empty ds.

Fixpoint exclude_all (v : Array A) (ts : list TimeRange) : outcome (Array A) :=
  match ts with
  | [] => Ok v
  | t :: ts => v ← Exclude v (Min t) (Max t); exclude_all v ts
  end.

Fixpoint drop_read (bs : list block) : list block :=
  match bs with
  | b :: bs' => if read b then drop_read bs' else bs
  | [] => []
  end.

(** The window: from the start of any block that overlaps to the first end of one. *)
Definition adjust1 (w : Z * Z) (b : block) : Z * Z :=
  let '(mn, mx) := w in
  if overlapsTimeRange b mn mx && negb (read b) then
    let mn := if minTime b <? mn then minTime b else mn in
    (mn, if (mn <? maxTime b) && (maxTime b <? mx) then maxTime b else mx)
  else w.
Definition adjust (w : Z * Z) (bs : list block) : Z * Z := foldl adjust1 w bs.

(** The values of the window of every block, merged; the blocks with what was read of
    them, and the error a block could not be decoded with. *)
Fixpoint window_loop (mn mx : Z) (bs : list block) (v : Array A) : outcome (list block * Array A * option string) :=
  match bs with
  | [] => Ok ([], v, None)
  | b :: bs =>
      if negb (overlapsTimeRange b mn mx) || read b then
        '(bs, v, e) ← window_loop mn mx bs v; Ok (b :: bs, v, e)
      else
        match load (data b) with
        | Err e => Ok (b :: bs, v, Some e)
        | Panic => Panic
        | Ok x =>
            last ← MaxTime x;
            let '(mx, b) := if maxTime b =? last then (mx, b)
                            else (if mx =? maxTime b then last else mx, with_maxTime b last) in
            x ← Exclude x (readMin b) (readMax b);
            x ← Include x mn mx;
            b ← (if bool_decide (0 < Len x)%nat then lo ← MinTime x; hi ← MaxTime x; Ok (markRead b lo hi) else Ok b);
            x ← exclude_all x (tombstones b);
            v ← Merge (zero T) v x;
            '(bs, v, e) ← window_loop mn mx bs v;
            Ok (b :: bs, v, e)
        end
  end.

Fixpoint dedup_loop (fuel : nat) (r : run) : outcome (run * option string) :=
  match fuel with
  | O => Err no_fuel
  | S fuel =>
      if bool_decide (Len (r_values r) < size s)%nat && bool_decide (0 < length (r_blocks r))%nat then
        match drop_read (r_blocks r) with
        | [] => Ok (with_blocks r [], None)
        | (first :: _) as bs =>
            let '(mn, mx) := adjust (minTime first, maxTime first) bs in
            '(bs, v, e) ← window_loop mn mx bs (r_values r);
            let r := with_values (with_blocks r bs) v in
            match e with
            | Some e => Ok (r, Some e)
            | None => dedup_loop fuel r
            end
        end
      else Ok (r, None)
  end.

(** ** [combine] without duplicates *)

(** Full blocks and blocks of pointers are taken as they are, up to the first that is
    neither, at position [i]. *)
Fixpoint as_is (i : nat) (bs : list block) (r : run) : outcome (nat * run) :=
  match bs with
  | [] => Ok (i, r)
  | b :: bs =>
      if read b then as_is (S i) bs r
      else
        is_ptr ← Block.IsPtrBlock (data b);
        if is_ptr : bool then as_is (S i) bs (with_merged r (r_merged r ++ [b]))
        else match Block.BlockCount (data b) with
             | Err e => as_is (S i) bs (AppendError s r (Bare e))
             | Panic => Panic
             | Ok count =>
                 if count <? Z.of_nat (size s) then Ok (i, r)
                 else as_is (S i) bs (with_merged r (r_merged r ++ [b]))
             end
  end.

Definition unread (bs : list block) : list block := List.filter (fun b => negb (read b)) bs.

(** The blocks from [i] on are decoded up to [size] values; of a pointer block the
    position is not advanced. A round goes on at a position, or ends with an error or
    without. *)
Definition small_step (i : nat) (r : run) : outcome (nat * run + option string) :=
  match r_blocks r !! i with
  | None => Ok (inr None)
  | Some b =>
      if negb (bool_decide (Len (r_values r) < size s)%nat) then Ok (inr None)
      else if read b then Ok (inl (S i, r))
      else
        is_ptr ← Block.IsPtrBlock (data b);
        if is_ptr : bool then
          '(r, m) ← ptr_chunk s r (r_merged r);
          Ok (inl (i, with_merged r (m ++ [b])))
        else
          match decode T (data b) with
          | Err e => Ok (inr (Some e))
          | Panic => Panic
          | Ok x =>
              last ← MaxTime x;
              let b := if maxTime b =? last then b else with_maxTime b last in
              x ← exclude_all x (tombstones b);
              let b := markRead b (minTime b) (maxTime b) in
              v ← Merge (zero T) (r_values r) x;
              Ok (inl (S i, with_values (with_blocks r (<[i := b]> (r_blocks r))) v))
          end
  end.
Fixpoint small_loop (fuel : nat) (i : nat) (r : run) : outcome (nat * run * option string) :=
  match fuel with
  | O => Err no_fuel
  | S fuel =>
      next ← small_step i r;
      match next with
      | inl (i, r) => small_loop fuel i r
      | inr e => Ok (i, r, e)
      end
  end.

Definition combine (fuel : nat) (dedup : bool) (r : run) : outcome (run * list block) :=
  if dedup then
    '(r, e) ← dedup_loop fuel r;
    match e with
    | Some e => Ok (handleDecodeError T s r e, [])
    | None => chunk T s r []
    end
  else
    '(i, r) ← as_is 0 (r_blocks r) r;
    let '(i, r) := if fast s
                   then (length (r_blocks r), with_merged r (r_merged r ++ unread (drop i (r_blocks r))))
                   else (i, r) in
    let '(i, r) := match drop i (r_blocks r) with
                   | [b] => (S i, if read b then r else with_merged r (r_merged r ++ [b]))
                   | _ => (i, r)
                   end in
    '(i, r, e) ← small_loop fuel i r;
    match e with
    | Some e => Ok (handleDecodeError T s r e, [])
    | None => let r := with_blocks r (drop i (r_blocks r)) in chunk T s r (r_merged r)
    end.

(** ** [merge] *)

(** Whether a block after the first forces the blocks to be decoded. *)
Fixpoint must_dedup (prev : block) (bs : list block) : outcome bool :=
  match bs with
  | [] => Ok false
  | b :: bs =>
      if partiallyRead b || overlapsTimeRange b (minTime prev) (maxTime prev) || bool_decide (0 < length (tombstones b))%nat
      then Ok true
      else
        is_ptr ← Block.IsPtrBlock (data b);
        big ← (if is_ptr : bool then c ← Block.PtrBlockCount (data b); Ok (separateThreshold s <? c) else Ok false);
        if big : bool then Ok true else must_dedup b bs
  end.

Definition merge (fuel : nat) (r : run) : outcome run :=
  if bool_decide (length (r_blocks r) = 0)%nat && bool_decide (length (r_merged r) = 0)%nat &&
     bool_decide (Len (r_values r) = 0)%nat
  then Ok r
  else
    let r := with_blocks r (stable (r_blocks r)) in
    dedup ← (if bool_decide (Len (r_values r) = 0)%nat then
               match r_blocks r with
               | [] => Ok false
               | b :: bs => if bool_decide (0 < length (tombstones b))%nat || partiallyRead b then Ok true else must_dedup b bs
               end
             else Ok true);
    '(r, m) ← combine fuel dedup r;
    Ok (with_merged r m).
End Merge.

(** ** The five copies *)
Definition integer_ops : ops Z := MkOps 0 "integer"%string
  (fun b => columns (Block.DecodeIntegerArrayBlock b nil_slice nil_slice))
  (fun a => contents <$> Block.EncodeIntegerArrayBlock (Timestamps a) (Values a) nil_slice).
Definition unsigned_ops : ops Z := MkOps 0 "unsigned"%string
  (fun b => columns (Block.DecodeUnsignedArrayBlock b nil_slice nil_slice))
  (fun a => contents <$> Block.EncodeUnsignedArrayBlock (Timestamps a) (Values a) nil_slice).
Definition boolean_ops : ops bool := MkOps false "boolean"%string
  (fun b => columns (Block.DecodeBooleanArrayBlock b nil_slice nil_slice))
  (fun a => contents <$> Block.EncodeBooleanArrayBlock (Timestamps a) (Values a) nil_slice).
Definition string_ops (sn : StringCodec.snappy) : ops (list Z) := MkOps [] "string"%string
  (fun b => columns (Block.DecodeStringArrayBlock sn b nil_slice nil_slice))
  (fun a => contents <$> Block.EncodeStringArrayBlock sn (Timestamps a) (Values a) nil_slice).

Definition chunkInteger := chunk integer_ops.
Definition chunkUnsigned := chunk unsigned_ops.
Definition chunkString sn := chunk (string_ops sn).
Definition chunkBoolean := chunk boolean_ops.
Definition combineFloat := combine float_ops chunkFloat.
Definition combineInteger := combine integer_ops chunk_floats.
Definition combineUnsigned := combine unsigned_ops chunk_floats.
Definition combineString sn := combine (string_ops sn) chunk_floats.
Definition combineBoolean := combine boolean_ops chunk_floats.
Definition mergeFloat stable := merge stable float_ops chunkFloat.
Definition mergeInteger stable := merge stable integer_ops chunk_floats.
Definition mergeUnsigned stable := merge stable unsigned_ops chunk_floats.
Definition mergeString stable sn := merge stable (string_ops sn) chunk_floats.
Definition mergeBoolean stable := merge stable boolean_ops chunk_floats.

End MergeBlocks.
