(* ===== verification/MergeLaws.v ===== *)
(** What merging the blocks of a key gives: the laws of MergeBlocks.v. *)
From stdpp Require Import gmap sorting relations.
From S2P Require Import Prelude Values ArrayValues Block Bytes Util VFile VFileManager GoSort MergeBlocks.
Import Values ArrayValues Util MergeBlocks.

Module MergeLaws.

#[local] Existing Instance row_value.

Abbreviation cols := NewArrayFromValues.
Abbreviation ascending := (GoSort.ascending Less).
Abbreviation sortable := (GoSort.sortable Less).

(** ** Rows *)
Section rows.
Context {A : Type}.
Implicit Types (r s : list (Z * A)) (t c : Z).

Definition upto t (v : Z * A) : Prop := fst v <= t.
Definition beyond t (v : Z * A) : Prop := t < fst v.
#[global] Instance upto_dec t v : Decision (upto t v).
Proof. unfold upto. apply _. Defined.
#[global] Instance beyond_dec t v : Decision (beyond t v).
Proof. unfold beyond. apply _. Defined.

Lemma merged_Forall (P : Z * A -> Prop) r s : Forall P r -> Forall P s -> Forall P (merged r s).
Proof.
  revert s. induction r as [|x r IH]; intros s Hr Hs; [done|]. apply Forall_cons in Hr as [Hx Hr].
  induction s as [|y s IHs]; [by constructor|]. apply Forall_cons in Hs as [Hy Hs]. rewrite merged_cons.
  case_match; [|case_match]; constructor; auto.
Qed.

Lemma merged_split c r1 r2 s1 s2 :
  Forall (upto c) r1 -> Forall (upto c) s1 -> Forall (beyond c) r2 -> Forall (beyond c) s2 ->
  merged (r1 ++ r2) (s1 ++ s2) = merged r1 s1 ++ merged r2 s2.
Proof.
  unfold upto, beyond. revert s1. induction r1 as [|x r1 IH]; intros s1 Hr1 Hs1 Hr2 Hs2.
  - induction Hs1 as [|y s1 Hy Hs1 IHs]; [done|]. cbn [app merged] in *. destruct r2 as [|z r2]; [done|].
    apply Forall_cons in Hr2 as [Hz Hr2]. rewrite merged_cons, (proj2 (Z.ltb_ge _ _)), (proj2 (Z.eqb_neq _ _)) by lia.
    f_equal. apply IHs.
  - apply Forall_cons in Hr1 as [Hx Hr1]. induction Hs1 as [|y s1 Hy Hs1 IHs].
    + rewrite merged_nil_r. destruct s2 as [|y s2]; [by rewrite !app_nil_l, !merged_nil_r|].
      cbn [app]. rewrite merged_cons. apply Forall_cons in Hs2 as [Hy Hs2]. rewrite (proj2 (Z.ltb_lt _ _)) by lia.
      f_equal. rewrite <- (merged_nil_r r1) at 2. apply (IH []); [done..|]. by constructor.
    + cbn [app]. rewrite !merged_cons. destruct (x.1 <? y.1); [|destruct (x.1 =? y.1)]; cbn [app]; f_equal.
      * apply (IH (y :: s1)); [done| |done..]. by constructor.
      * by apply IH.
      * apply IHs.
Qed.

Lemma fold_split {X} c (f g : X -> list (Z * A)) (l : list X) : forall r1 r2,
  Forall (upto c) r1 -> Forall (beyond c) r2 -> (forall x, x ∈ l -> Forall (upto c) (f x) /\ Forall (beyond c) (g x)) ->
  foldl merged (r1 ++ r2) ((fun x => f x ++ g x) <$> l) = foldl merged r1 (f <$> l) ++ foldl merged r2 (g <$> l).
Proof.
  induction l as [|x l IH]; intros r1 r2 H1 H2 Hl; [done|]. cbn [fmap list_fmap foldl].
  destruct (Hl x) as [Hf Hg]; [left|]. rewrite (merged_split c) by done. apply IH; [by apply merged_Forall..|].
  intros y Hy. apply Hl. by right.
Qed.

Lemma fold_from {X} c (g : X -> list (Z * A)) (l : list X) r :
  Forall (upto c) r -> (forall x, x ∈ l -> Forall (beyond c) (g x)) ->
  foldl merged r (g <$> l) = r ++ foldl merged [] (g <$> l).
Proof.
  intros Hr Hl. pose proof (fold_split c (fun _ => []) g l r []) as E. rewrite app_nil_r in E.
  etrans; [apply E; [done..|]; intros x Hx; split; [done|auto]|].
  f_equal. clear. induction l as [|x l IH]; [done|]. cbn [fmap list_fmap foldl]. by rewrite merged_nil_r.
Qed.

Lemma filter_same (P Q : Z * A -> Prop) `{forall x, Decision (P x)} `{forall x, Decision (Q x)} r :
  (forall v, v ∈ r -> P v <-> Q v) -> filter P r = filter Q r.
Proof.
  intros Hpq. induction r as [|v r IH]; [done|]. rewrite !filter_cons, IH by (intros; apply Hpq; by right).
  rewrite (decide_ext (P v) (Q v)) by (apply Hpq; left). done.
Qed.

Lemma sorted_filter (P : Z * A -> Prop) `{forall x, Decision (P x)} r : sorted r -> sorted (filter P r).
Proof. apply StronglySorted_filter. Qed.

Lemma upto_split t c r : sorted r -> t <= c -> filter (upto c) r = filter (upto t) r ++ filter (fun v => beyond t v /\ upto c v) r.
Proof.
  unfold upto, beyond. intros Hs Htc. induction r as [|x r IH]; [done|]. apply sorted_cons in Hs as [Hs Hx]. cbn [UnixNano row_value] in Hx.
  specialize (IH Hs). destruct (decide (fst x <= t)).
  - rewrite !filter_cons. rewrite !decide_True by lia. rewrite decide_False by lia. cbn [app]. by f_equal.
  - assert (filter (fun v => fst v <= t) r = []) as Hn.
    { apply filter_none. intros y Hy. specialize (Hx y Hy). lia. }
    rewrite Hn in IH. rewrite !filter_cons, Hn, IH. rewrite (decide_False (P := x.1 <= t)) by lia. cbn [app].
    destruct (decide (x.1 <= c)); [rewrite decide_True by lia|rewrite decide_False by lia]; done.
Qed.

Lemma beyond_split t c r : sorted r -> t <= c ->
  filter (beyond t) r = filter (fun v => beyond t v /\ upto c v) r ++ filter (beyond c) r.
Proof.
  unfold upto, beyond. intros Hs Htc. induction r as [|x r IH]; [done|]. apply sorted_cons in Hs as [Hs Hx]. cbn [UnixNano row_value] in Hx.
  specialize (IH Hs). destruct (decide (c < fst x)).
  - assert (filter (fun v => t < fst v /\ fst v <= c) r = []) as Hn.
    { apply filter_none. intros y Hy. specialize (Hx y Hy). lia. }
    rewrite Hn in IH. rewrite !filter_cons, Hn, IH. rewrite (decide_True (P := t < x.1)), decide_False, (decide_True (P := c < x.1)) by lia. done.
  - rewrite !filter_cons, IH. rewrite (decide_False (P := c < x.1)) by lia.
    destruct (decide (t < x.1)); [rewrite decide_True by lia|rewrite decide_False by lia]; done.
Qed.

Lemma sorted_bounds r mn mx v : sorted r -> Values.MinTime r = Ok mn -> Values.MaxTime r = Ok mx -> v ∈ r -> mn <= fst v <= mx.
Proof.
  intros Hs Hmn Hmx Hv. destruct r as [|x r]; [by apply elem_of_nil in Hv|]. rewrite MinTime_cons in Hmn. injection Hmn as <-.
  destruct (last (x :: r)) as [y|] eqn:Hy; [|by apply last_None in Hy]. rewrite (MaxTime_last _ y Hy) in Hmx. injection Hmx as <-.
  apply sorted_weakly in Hs. split; [exact (weakly_head _ _ _ Hs Hv)|exact (weakly_last _ _ _ Hs Hy Hv)].
Qed.

Lemma MinTime_in r mn : Values.MinTime r = Ok mn -> exists v, v ∈ r /\ fst v = mn.
Proof. destruct r as [|x r]; [done|]. rewrite MinTime_cons. intros [= <-]. exists x. split; [left|done]. Qed.

Lemma MaxTime_in r mx : Values.MaxTime r = Ok mx -> exists v, last r = Some v /\ v ∈ r /\ fst v = mx.
Proof.
  intros Hm. destruct (last r) as [v|] eqn:Hv.
  - rewrite (MaxTime_last r v Hv) in Hm. injection Hm as <-. exists v. split_and!; [done| |done]. by apply last_Some_elem_of.
  - apply last_None in Hv as ->. done.
Qed.

(** ** Arrays of rows *)
Context (zero : A).

Lemma merge_cols r s : sorted r -> sorted s -> Merge zero (cols r) (cols s) = Ok (cols (merged r s)).
Proof.
  intros Hr Hs. rewrite Merge_rows by done. destruct (Values.Merge_spec r s) as (M & -> & HM & Ho).
  destruct (merged_spec r s Hr Hs) as (Hg & _ & Hgs). cbn [fmap outcome_fmap]. do 2 f_equal. apply sorted_ext; [auto|done|congruence].
Qed.

Lemma include_cols r mn mx : sorted r -> Include (cols r) mn mx = Ok (cols (filter (fun v => mn <= fst v <= mx) r)).
Proof. intros Hs. rewrite Include_rows, Values.Include_spec by done. done. Qed.

Lemma exclude_cols r mn mx : sorted r -> Exclude (cols r) mn mx = Ok (cols (filter (fun v => ~ (mn <= fst v <= mx)) r)).
Proof. intros Hs. rewrite Exclude_rows, Values.Exclude_spec by done. done. Qed.

Lemma MinTime_cols r : MinTime (cols r) = Values.MinTime r.
Proof. apply MinTime_columns. Qed.
Lemma MaxTime_cols r : MaxTime (cols r) = Values.MaxTime r.
Proof. apply MaxTime_columns. Qed.

Lemma Len_cols r : Len (cols r) = length r.
Proof. unfold Len. cbn. by rewrite length_fmap. Qed.

(** [t] is in a range of time that was deleted. *)
Definition covered (ts : list TimeRange) (t : Z) : bool := existsb (fun x => (Min x <=? t) && (t <=? Max x)) ts.

Lemma exclude_all_cols ts : forall r, sorted r ->
  exclude_all (cols r) ts = Ok (cols (filter (fun v => covered ts (fst v) = false) r)).
Proof.
  induction ts as [|x ts IH]; intros r Hs; cbn [exclude_all].
  - by rewrite filter_all by by apply Forall_true.
  - rewrite exclude_cols by done. cbn [mbind outcome_bind]. rewrite IH by by apply sorted_filter. do 2 f_equal.
    rewrite list_filter_filter. apply list_filter_iff. intros v. cbn [covered existsb]. fold (covered ts (fst v)).
    destruct (covered ts (fst v)), (Z.leb_spec (Min x) (fst v)), (Z.leb_spec (fst v) (Max x)); cbn [andb orb]; intuition (lia || congruence).
Qed.
End rows.

(** ** Pending blocks

    A pending block is a block nothing was read of, with its rows.  When the rows up to the
    time [t] of all blocks are read, it is in the iterator as [mark t] of it. *)
Section sources.
Context {A : Type} (T : ops A) (s : settings).
Abbreviation source := (block * list (Z * A))%type.
Implicit Types (x y : source) (t : Z).

Record source_ok (x : source) : Prop := {
  so_load : load T s (data (fst x)) = Ok (cols (snd x));
  so_sorted : sorted (snd x);
  so_min : Values.MinTime (snd x) = Ok (minTime (fst x));
  so_max : Values.MaxTime (snd x) = Ok (maxTime (fst x));
  so_i64 : is_i64 (minTime (fst x)) /\ is_i64 (maxTime (fst x));
  so_key : key (fst x) = cur_key s;
  so_new : readMin (fst x) = MaxInt64 /\ readMax (fst x) = MinInt64 }.

Definition mark t x : block :=
  match last (filter (upto t) (snd x)) with
  | None => fst x
  | Some v => MkBlock (key (fst x)) (minTime (fst x)) (maxTime (fst x)) (typ (fst x)) (data (fst x)) (tombstones (fst x))
                (minTime (fst x)) (fst v)
  end.

Definition live x : list (Z * A) := filter (fun v => covered (tombstones (fst x)) (fst v) = false) (snd x).
(** What the blocks still have to give: their rows after [t] that are not deleted, the
    later block over the earlier. *)
Definition pend t (l : list source) : list (Z * A) := foldl merged [] ((fun x => filter (beyond t) (live x)) <$> l).
Definition slice_of t c x : list (Z * A) := filter (fun v => beyond t v /\ upto c v) (live x).

Lemma mark_fields t x :
  key (mark t x) = key (fst x) /\ minTime (mark t x) = minTime (fst x) /\ maxTime (mark t x) = maxTime (fst x) /\
  data (mark t x) = data (fst x) /\ tombstones (mark t x) = tombstones (fst x).
Proof. unfold mark. by destruct (last _). Qed.

Section one.
Context x (Hx : source_ok x).

Lemma source_bounds v : v ∈ snd x -> minTime (fst x) <= fst v <= maxTime (fst x).
Proof. eapply sorted_bounds; apply Hx. Qed.

Lemma source_le : minTime (fst x) <= maxTime (fst x).
Proof. destruct (MinTime_in _ _ (so_min _ Hx)) as (v & Hv & <-). pose proof (source_bounds v Hv). lia. Qed.

Lemma upto_none t : t < minTime (fst x) -> filter (upto t) (snd x) = [].
Proof. intros Ht. apply filter_none. intros v Hv. pose proof (source_bounds v Hv). unfold upto. lia. Qed.

Lemma upto_all t : maxTime (fst x) <= t -> filter (upto t) (snd x) = snd x.
Proof. intros Ht. apply filter_in. intros v Hv. pose proof (source_bounds v Hv). unfold upto. lia. Qed.

Lemma upto_some t : minTime (fst x) <= t -> exists v, last (filter (upto t) (snd x)) = Some v /\ v ∈ snd x /\ fst v <= t.
Proof.
  intros Ht. destruct (last (filter (upto t) (snd x))) as [v|] eqn:Hv.
  - exists v. split; [done|]. apply last_Some_elem_of, list_elem_of_filter in Hv as [Hu Hv]. done.
  - exfalso. apply last_None in Hv. destruct (MinTime_in _ _ (so_min _ Hx)) as (v & Hin & Hm).
    assert (v ∈ filter (upto t) (snd x)) as H by (apply list_elem_of_filter; unfold upto; split; [lia|done]).
    rewrite Hv in H. by apply elem_of_nil in H.
Qed.

Lemma mark_fresh t : t < minTime (fst x) -> mark t x = fst x.
Proof. intros Ht. unfold mark. by rewrite upto_none. Qed.

Lemma read_mark t : read (mark t x) = (maxTime (fst x) <=? t).
Proof.
  destruct (so_i64 _ Hx) as [H1 H2]. unfold is_i64 in *. pose proof source_le as Hle.
  destruct (Z.lt_ge_cases t (minTime (fst x))) as [Ht|Ht].
  - rewrite mark_fresh by done. unfold read. destruct (so_new _ Hx) as [-> ->]. unfold MaxInt64, MinInt64.
    rewrite (proj2 (Z.leb_gt (maxTime _) t)) by lia. apply andb_false_iff. rewrite !Z.leb_gt. lia.
  - destruct (upto_some t Ht) as (v & Hv & Hin & Hvt). unfold read, mark. rewrite Hv. cbn [readMin readMax minTime maxTime].
    rewrite Z.leb_refl. cbn [andb]. pose proof (source_bounds v Hin) as Hb.
    destruct (Z.leb_spec (maxTime (fst x)) t) as [Hm|Hm].
    + apply Z.leb_le. rewrite upto_all in Hv by done. destruct (MaxTime_in _ _ (so_max _ Hx)) as (w & Hw & _ & E).
      rewrite Hv in Hw. injection Hw as ->. lia.
    + apply Z.leb_gt. lia.
Qed.

Lemma partially_mark t : partiallyRead (mark t x) = bool_decide (minTime (fst x) <= t /\ t < maxTime (fst x)).
Proof.
  destruct (so_i64 _ Hx) as [H1 H2]. unfold is_i64 in *. pose proof source_le as Hle.
  destruct (Z.lt_ge_cases t (minTime (fst x))) as [Ht|Ht].
  - rewrite mark_fresh by done. unfold partiallyRead. destruct (so_new _ Hx) as [-> ->]. rewrite !Z.eqb_refl. cbn [andb].
    by rewrite bool_decide_false by lia.
  - pose proof (read_mark t) as Hr. unfold read in Hr. destruct (upto_some t Ht) as (v & Hv & Hin & Hvt).
    unfold mark in *. rewrite Hv in *. unfold partiallyRead. cbn [readMin readMax minTime maxTime] in *.
    pose proof (source_bounds v Hin) as Hb. rewrite !Z.leb_refl in Hr. rewrite Z.eqb_refl. cbn [andb negb orb] in *.
    assert ((minTime (fst x) =? MaxInt64) && (fst v =? MinInt64) = false) as ->.
    { apply andb_false_iff. rewrite !Z.eqb_neq. unfold MaxInt64, MinInt64. lia. }
    destruct (Z.leb_spec (maxTime (fst x)) t), (Z.leb_spec (maxTime (fst x)) (fst v)); try done.
    + rewrite (proj2 (Z.eqb_eq _ _)) by lia. by rewrite bool_decide_false by lia.
    + rewrite (proj2 (Z.eqb_neq _ _)) by lia. by rewrite bool_decide_true by lia.
Qed.

Lemma overlaps_mark t a b : overlapsTimeRange (mark t x) a b = (minTime (fst x) <=? b) && (a <=? maxTime (fst x)).
Proof. unfold overlapsTimeRange. by destruct (mark_fields t x) as (_ & -> & -> & _). Qed.

Lemma live_rows_sorted : sorted (live x).
Proof. apply sorted_filter, Hx. Qed.

Lemma live_bounds v : v ∈ live x -> minTime (fst x) <= fst v <= maxTime (fst x).
Proof. intros [_ Hv]%list_elem_of_filter. by apply source_bounds. Qed.

Lemma slice_none t c : maxTime (fst x) <= t \/ c < minTime (fst x) -> slice_of t c x = [].
Proof. intros H. apply filter_none. intros v Hv. pose proof (live_bounds v Hv). unfold upto, beyond. lia. Qed.

Lemma mark_same t c : t <= c -> maxTime (fst x) <= t \/ c < minTime (fst x) -> mark c x = mark t x.
Proof. intros Htc [H|H]; unfold mark; [by rewrite !upto_all by lia|by rewrite !upto_none by lia]. Qed.

(** Reading what is between [t] and [c] marks the block as read up to [c]. *)
Lemma mark_step t c : t <= c -> minTime (fst x) <= c ->
  let w := filter (fun v => beyond t v /\ upto c v) (snd x) in
  (w = [] -> mark c x = mark t x) /\
  (forall lo hi, Values.MinTime w = Ok lo -> Values.MaxTime w = Ok hi -> markRead (mark t x) lo hi = mark c x).
Proof.
  intros Htc Hc w. pose proof (upto_split t c (snd x) (so_sorted _ Hx) Htc) as Hsp. fold w in Hsp. unfold mark. rewrite Hsp. split.
  - intros ->. by rewrite app_nil_r.
  - intros lo hi Hlo Hhi. destruct (MinTime_in _ _ Hlo) as (a & Ha & <-). destruct (MaxTime_in _ _ Hhi) as (b & Hb & Hbw & <-).
    rewrite last_app, Hb. apply list_elem_of_filter in Ha as [[Ha1 Ha2] Ha], Hbw as [[Hb1 Hb2] Hbw]. unfold upto, beyond in Ha1, Ha2, Hb1, Hb2.
    pose proof (source_bounds a Ha) as Ba. pose proof (source_bounds b Hbw) as Bb. destruct (so_i64 _ Hx) as [H1 H2]. unfold is_i64 in *.
    destruct (last (filter (upto t) (snd x))) as [v|] eqn:Hv.
    + apply last_Some_elem_of, list_elem_of_filter in Hv as [Hv Hin]. unfold upto in Hv. pose proof (source_bounds v Hin) as Bv. unfold markRead.
      cbn [key minTime maxTime typ data tombstones readMin readMax]. rewrite (proj2 (Z.ltb_ge _ _)), (proj2 (Z.ltb_lt _ _)) by lia. done.
    + apply last_None in Hv.  rewrite Hv, app_nil_l in Hsp.
      assert (fst a = minTime (fst x)) as Ea.
      { destruct (MinTime_in _ _ (so_min _ Hx)) as (z & Hz & Ez).
        assert (z ∈ w) as Hzw by (rewrite <- Hsp; apply list_elem_of_filter; unfold upto; split; [lia|done]).
        destruct w as [|a' w'] eqn:Ew; [done|]. rewrite MinTime_cons in Hlo. injection Hlo as Hlo. cbn [UnixNano row_value] in Hlo.
        assert (sorted (a' :: w')) as Hs by (rewrite <- Ew; apply sorted_filter, Hx).
        pose proof (weakly_head _ _ _ (sorted_weakly _ Hs) Hzw) as Hh. cbn [UnixNano row_value] in Hh. lia. }
      unfold markRead. destruct (so_new _ Hx) as [-> ->]. unfold MaxInt64, MinInt64. rewrite Ea.
      destruct (Z.ltb_spec (minTime (fst x)) (2 ^ 63 - 1)), (Z.ltb_spec (- 2 ^ 63) (fst b)); f_equal; lia.
Qed.

(** What is excluded as read leaves the rows after [t]. *)
Lemma exclude_read t : filter (fun v => ~ (readMin (mark t x) <= fst v <= readMax (mark t x))) (snd x) = filter (beyond t) (snd x).
Proof.
  unfold mark. destruct (last (filter (upto t) (snd x))) as [v|] eqn:Hv; cbn [readMin readMax].
  - assert (forall u, u ∈ snd x -> (fst u <= fst v <-> fst u <= t)) as Hu.
    { intros u Hu. split; intros Hle.
      - apply last_Some_elem_of, list_elem_of_filter in Hv as [Hv _]. unfold upto in Hv. lia.
      - assert (sorted (filter (upto t) (snd x))) as Hs by apply sorted_filter, Hx.
        apply (weakly_last _ _ u (sorted_weakly _ Hs) Hv). apply list_elem_of_filter. done. }
    revert Hu. pose proof source_bounds as Hb. revert Hb. generalize (snd x) as l. induction l as [|u l IH]; intros Hb Hu; [done|].
    rewrite !filter_cons, IH; [|intros; apply Hb; by right|intros; apply Hu; by right].
    specialize (Hb u ltac:(left)). specialize (Hu u ltac:(left)). unfold beyond.
    destruct (decide (t < fst u)); [rewrite decide_True by lia|rewrite decide_False by lia]; done.
  - apply last_None in Hv. destruct (so_new _ Hx) as [-> ->]. rewrite !filter_in; [done| |].
    + intros u Hu. unfold beyond. destruct (Z.lt_ge_cases t (fst u)) as [|Hle]; [done|]. exfalso.
      assert (u ∈ filter (upto t) (snd x)) as Hin by (apply list_elem_of_filter; done). rewrite Hv in Hin. by apply elem_of_nil in Hin.
    + intros u _. unfold MaxInt64, MinInt64. lia.
Qed.
End one.

(** ** The window *)

Abbreviation marked t l := (mark t <$> l).
Definition done_at t x : Prop := maxTime (fst x) <= t.
#[local] Instance done_at_dec t x : Decision (done_at t x).
Proof. unfold done_at. apply _. Defined.

Lemma window_loop_spec t c mn l : forall m,
  t <= c -> Forall source_ok l -> (forall x, x ∈ l -> t < maxTime (fst x) -> mn <= minTime (fst x)) -> sorted m ->
  window_loop T s mn c (marked t l) (cols m) =
    Ok (marked c l, cols (foldl merged m (slice_of t c <$> l)), None).
Proof.
  intros m Htc Hok Hmn. revert m Hmn. induction Hok as [|x l Hx Hok IH]; intros m Hmn Hs; [done|].
  cbn [fmap list_fmap window_loop foldl].
  specialize (IH (merged m (slice_of t c x)) ltac:(intros; apply Hmn; [by right|done])
                 ltac:(apply (merged_spec m _ Hs); apply sorted_filter, live_rows_sorted, Hx)).
  rewrite overlaps_mark, read_mark by done.
  destruct (decide (maxTime (fst x) <= t \/ c < minTime (fst x))) as [Hno|Hyes].
  - assert (negb ((minTime (fst x) <=? c) && (mn <=? maxTime (fst x))) || (maxTime (fst x) <=? t) = true) as ->.
    { destruct (Z.leb_spec (minTime (fst x)) c), (Z.leb_spec (maxTime (fst x)) t), (mn <=? _); try done; lia. }
    rewrite (slice_none x Hx), merged_nil_r in IH |- * by done. rewrite IH. cbn [mbind outcome_bind]. by rewrite (mark_same x Hx t c).
  - assert (t < maxTime (fst x) /\ minTime (fst x) <= c) as [Hmax Hmin] by lia. pose proof (source_le x Hx) as Hle.
    pose proof (Hmn x ltac:(left) Hmax) as Hlo.
    rewrite (proj2 (Z.leb_le (minTime _) c)), (proj2 (Z.leb_le mn _)), (proj2 (Z.leb_gt _ t)) by lia. cbn [negb andb orb].
    destruct (mark_fields t x) as (_ & _ & Emax & -> & Et). rewrite (so_load _ Hx). rewrite MaxTime_cols, (so_max _ Hx). cbn [mbind outcome_bind].
    rewrite Emax, Z.eqb_refl, exclude_cols by apply Hx. cbn [mbind outcome_bind]. rewrite exclude_read by done.
    rewrite include_cols by (apply sorted_filter, Hx). cbn [mbind outcome_bind]. rewrite list_filter_filter.
    set (w := filter (fun v => beyond t v /\ upto c v) (snd x)).
    assert (filter (fun v => mn <= fst v <= c /\ beyond t v) (snd x) = w) as ->.
    { apply filter_same. intros v Hv. pose proof (source_bounds x Hx v Hv). unfold upto, beyond. lia. }
    destruct (mark_step x Hx t c Htc Hmin) as [Hm0 Hm1]. fold w in Hm0, Hm1.
    assert ((b ← (if bool_decide (0 < Len (cols w))%nat then lo ← MinTime (cols w); hi ← MaxTime (cols w); Ok (markRead (mark t x) lo hi)
                  else Ok (mark t x)); Ok b) = Ok (mark c x)) as Hb.
    { rewrite Len_cols. case_bool_decide as Hl.
      - assert (exists lo, Values.MinTime w = Ok lo) as [lo Hlw] by (destruct w; [cbn in Hl; lia|eauto]).
        assert (exists hi, Values.MaxTime w = Ok hi) as [hi Hhw].
        { destruct (last w) eqn:El; [|apply last_None in El; rewrite El in Hl; cbn in Hl; lia]. exists (fst p). exact (MaxTime_last w p El). }
        rewrite MinTime_cols, MaxTime_cols, Hlw, Hhw.
        cbn [mbind outcome_bind]. by rewrite (Hm1 lo hi).
      - rewrite Hm0; [done|]. destruct w; [done|cbn in Hl; lia]. }
    apply bind_Ok in Hb as (b & Hb & [= ->]). rewrite Hb. cbn [mbind outcome_bind].
    destruct (mark_fields c x) as (_ & _ & _ & _ & ->). rewrite exclude_all_cols by (apply sorted_filter, Hx). cbn [mbind outcome_bind].
    assert (filter (fun v => covered (tombstones (fst x)) (fst v) = false) w = slice_of t c x) as ->.
    { unfold w, slice_of, live. rewrite !list_filter_filter. apply list_filter_iff. intros; tauto. }
    rewrite merge_cols; [|done|apply sorted_filter, live_rows_sorted, Hx]. cbn [mbind outcome_bind]. by rewrite IH.
Qed.

(** The end of a block is never before the start of the one before it, among those after [t]. *)
Fixpoint chained t (lo : Z) (l : list source) : Prop :=
  match l with
  | [] => True
  | x :: l => if decide (done_at t x) then chained t lo l else lo <= maxTime (fst x) /\ chained t (minTime (fst x)) l
  end.

Lemma chained_later t t' l : t <= t' -> forall lo lo', lo' <= Z.max lo t' -> chained t lo l -> chained t' lo' l.
Proof.
  intros Ht. induction l as [|x l IH]; intros lo lo' Hlo; cbn [chained]; [done|]. unfold done_at.
  destruct (decide (maxTime (fst x) <= t)).
  - rewrite decide_True by lia. by apply IH.
  - intros [H1 H2]. destruct (decide (maxTime (fst x) <= t')).
    + apply (IH (minTime (fst x))); [lia|done].
    + split; [lia|]. apply (IH (minTime (fst x))); [lia|done].
Qed.

Lemma adjust_spec t l : Forall source_ok l -> forall mn mx lo,
  mn <= lo -> mn <= mx -> chained t lo l ->
  exists mn' mx', adjust (mn, mx) (marked t l) = (mn', mx') /\ mn' <= mn /\ mn' <= mx' /\ mx' <= mx /\
    (forall x, x ∈ l -> t < maxTime (fst x) -> mn' <= minTime (fst x)) /\
    (mx' = mx \/ exists x, x ∈ l /\ t < maxTime (fst x) /\ maxTime (fst x) = mx').
Proof.
  induction 1 as [|x l Hx Hok IH]; intros mn mx lo Hlo Hle Hch.
  { exists mn, mx. split_and!; [done|lia..| |by left]. intros x Hx. by apply elem_of_nil in Hx. }
  cbn [chained fmap list_fmap] in *. unfold adjust. cbn [foldl adjust1]. fold (adjust (adjust1 (mn, mx) (mark t x)) (marked t l)).
  unfold adjust1. rewrite overlaps_mark, read_mark by done. destruct (mark_fields t x) as (_ & -> & -> & _).
  pose proof (source_le x Hx) as Hxle. unfold done_at in Hch. destruct (decide (maxTime (fst x) <= t)) as [Hd|Hd].
  - rewrite (proj2 (Z.leb_le _ t)) by lia. rewrite andb_false_r.
    destruct (IH mn mx lo Hlo Hle Hch) as (mn' & mx' & E & H1 & H2 & H3 & H4 & H5). exists mn', mx'. split_and!; try done.
    + intros y [->|Hy]%elem_of_cons Hyt; [lia|auto].
    + destruct H5 as [|(y & Hy & Hyt)]; [by left|right]. exists y. split; [by right|done].
  - rewrite (proj2 (Z.leb_gt _ t)) by lia. rewrite andb_true_r. destruct Hch as [Hc1 Hch].
    destruct ((minTime (fst x) <=? mx) && (mn <=? maxTime (fst x))) eqn:Eo.
    + rewrite andb_true_iff, !Z.leb_le in Eo. set (mn1 := if minTime (fst x) <? mn then minTime (fst x) else mn).
      assert (mn1 <= mn /\ mn1 <= minTime (fst x)) as [Hm1 Hm2] by (unfold mn1; destruct (Z.ltb_spec (minTime (fst x)) mn); lia).
      set (mx1 := if (mn1 <? maxTime (fst x)) && (maxTime (fst x) <? mx) then maxTime (fst x) else mx).
      assert (mn1 <= mx1 /\ mx1 <= mx /\ (mx1 = mx \/ mx1 = maxTime (fst x))) as (Hx1 & Hx2 & Hx3).
      { unfold mx1. destruct (Z.ltb_spec mn1 (maxTime (fst x))), (Z.ltb_spec (maxTime (fst x)) mx); cbn [andb]; lia. }
      destruct (IH mn1 mx1 (minTime (fst x)) Hm2 Hx1 Hch) as (mn' & mx' & E & H1 & H2 & H3 & H4 & H5). exists mn', mx'. split_and!; [done|lia..| |].
      * intros y [->|Hy]%elem_of_cons Hyt; [lia|auto].
      * destruct H5 as [->|(y & Hy & Hyt)]; [|right; exists y; split; [by right|done]].
        destruct Hx3 as [->| ->]; [by left|right]. exists x. split_and!; [left|lia|done].
    + rewrite andb_false_iff, !Z.leb_gt in Eo. assert (mn <= minTime (fst x)) as Hmx by lia.
      destruct (IH mn mx (minTime (fst x)) Hmx Hle Hch) as (mn' & mx' & E & H1 & H2 & H3 & H4 & H5). exists mn', mx'. split_and!; try done.
      * intros y [->|Hy]%elem_of_cons Hyt; [lia|auto].
      * destruct H5 as [|(y & Hy & Hyt)]; [by left|right]. exists y. split; [by right|done].
Qed.

(** ** The loop over windows *)

(** [sort.IsSorted]: no block is less than the one before it. *)

Lemma ascending_suffix p q : ascending (p ++ q) -> ascending q.
Proof. induction p as [|b p IH]; [done|]. intros [H _]%Sorted_inv. by apply IH. Qed.

Lemma Less_sources x y : source_ok x -> source_ok y -> Less (fst y) (fst x) = false -> minTime (fst x) <= maxTime (fst y).
Proof.
  intros Hx Hy. unfold Less. rewrite (so_key _ Hx), (so_key _ Hy), Compare_refl. cbn [Z.eqb]. pose proof (source_le x Hx).
  pose proof (source_le y Hy). rewrite andb_false_iff, !Z.ltb_ge. lia.
Qed.

Lemma chained_ascending t l : Forall source_ok l -> ascending (fst <$> l) -> forall lo lo0,
  match l with [] => True | x :: _ => lo0 <= maxTime (fst x) end -> lo <= Z.max lo0 t -> chained t lo l.
Proof.
  induction 1 as [|x l Hx Hok IH]; intros Ha lo lo0 H0 Hlo; [done|]. cbn [fmap list_fmap] in Ha. apply Sorted_inv in Ha as [Ha Hd].
  assert (match l with [] => True | y :: _ => minTime (fst x) <= maxTime (fst y) end) as Hnext.
  { destruct l as [|y l]; [done|]. cbn [fmap list_fmap] in Hd. apply HdRel_inv in Hd. apply Forall_inv in Hok. by apply Less_sources. }
  cbn [chained]. unfold done_at. pose proof (source_le x Hx). destruct (decide (maxTime (fst x) <= t)).
  - apply (IH Ha lo (minTime (fst x)) Hnext). lia.
  - split; [lia|]. apply (IH Ha _ (minTime (fst x)) Hnext). lia.
Qed.

Fixpoint skip_done t l : list source :=
  match l with
  | [] => []
  | x :: l' => if decide (done_at t x) then skip_done t l' else l
  end.

Lemma drop_read_marked t l : Forall source_ok l -> drop_read (marked t l) = marked t (skip_done t l).
Proof.
  induction 1 as [|x l Hx Hok IH]; [done|]. cbn [fmap list_fmap drop_read skip_done]. rewrite read_mark by done. unfold done_at.
  case_decide; [by rewrite (proj2 (Z.leb_le _ _))|by rewrite (proj2 (Z.leb_gt _ _)) by lia].
Qed.

Lemma skip_done_split t l : exists p, l = p ++ skip_done t l /\ Forall (done_at t) p.
Proof.
  induction l as [|x l (p & E & Hp)]; [by exists []|]. cbn [skip_done]. case_decide.
  - exists (x :: p). cbn [app]. split; [by f_equal|by constructor].
  - by exists [].
Qed.

Lemma skip_done_head t l x q : skip_done t l = x :: q -> ~ done_at t x.
Proof. induction l as [|y l IH]; [done|]. cbn [skip_done]. case_decide; [done|]. by intros [= <- <-]. Qed.

Lemma pend_done t p q : Forall source_ok p -> Forall (done_at t) p -> pend t (p ++ q) = pend t q.
Proof.
  intros Hp Hd. unfold pend. rewrite fmap_app, foldl_app. f_equal. induction Hp as [|x p Hx Hp IH]; [done|].
  apply Forall_cons in Hd as [Hd Hd']. cbn [fmap list_fmap foldl].
  assert (filter (beyond t) (live x) = []) as ->; [|by apply IH].
  apply filter_none. intros v Hv. pose proof (live_bounds x Hx v Hv). unfold beyond, done_at in *. lia.
Qed.

Lemma pend_window t c l m : t <= c -> Forall source_ok l -> Forall (upto t) m ->
  foldl merged m (slice_of t c <$> l) ++ pend c l = m ++ pend t l.
Proof.
  intros Htc Hl Hm. rewrite (fold_from t) by (try done; intros x _; apply Forall_forall; by intros v [[Hv _] _]%list_elem_of_filter).
  rewrite <- app_assoc. f_equal. unfold pend at 2.
  assert (((fun x => filter (beyond t) (live x)) <$> l) = ((fun x => slice_of t c x ++ filter (beyond c) (live x)) <$> l)) as ->.
  { induction Hl as [|x l Hx Hl IH]; [done|]. cbn [fmap list_fmap]. f_equal; [|done]. apply beyond_split; [by apply live_rows_sorted|done]. }
  symmetry. apply (fold_split c (slice_of t c) _ l [] []); [constructor..|]. intros x _. split; apply Forall_forall.
  - by intros v [[_ Hv] _]%list_elem_of_filter.
  - by intros v [Hv _]%list_elem_of_filter.
Qed.

Lemma fold_sorted {X} (g : X -> list (Z * A)) (l : list X) : (forall z, z ∈ l -> sorted (g z)) ->
  forall m, sorted m -> sorted (foldl merged m (g <$> l)).
Proof.
  induction l as [|x l IH]; intros Hg m Hm; [done|]. cbn [fmap list_fmap foldl]. apply IH; [intros; apply Hg; by right|].
  apply (merged_spec m); [done|]. apply Hg. left.
Qed.

Lemma fold_Forall {X} (P : Z * A -> Prop) (g : X -> list (Z * A)) (l : list X) : (forall z, z ∈ l -> Forall P (g z)) ->
  forall m, Forall P m -> Forall P (foldl merged m (g <$> l)).
Proof.
  induction l as [|x l IH]; intros Hg m Hm; [done|]. cbn [fmap list_fmap foldl]. apply IH; [intros; apply Hg; by right|].
  apply merged_Forall; [done|]. apply Hg. left.
Qed.

Definition left_at t l : nat := length (filter (fun x => ~ done_at t x) l).

Lemma left_less t c l x : t <= c -> x ∈ l -> t < maxTime (fst x) -> maxTime (fst x) <= c -> (left_at c l < left_at t l)%nat.
Proof.
  intros Htc Hx H1 H2. unfold left_at. induction l as [|y l IH]; [by apply elem_of_nil in Hx|]. unfold done_at in *.
  assert (length (filter (fun x => ~ (maxTime (fst x) <= c)%Z) l) <= length (filter (fun x => ~ (maxTime (fst x) <= t)%Z) l))%nat as Hle.
  { clear -Htc. induction l as [|y l IH]; [done|]. rewrite !filter_cons. repeat case_decide; cbn [length]; lia. }
  rewrite !filter_cons. apply elem_of_cons in Hx as [<-|Hx].
  - rewrite (decide_False (P := ~ maxTime (fst x) <= c)), decide_True by lia. cbn [length]. lia.
  - specialize (IH Hx). repeat case_decide; cbn [length]; lia.
Qed.

Lemma run_eta (r : run A) bs v : r_blocks r = bs -> r_values r = v -> with_values (with_blocks r bs) v = r.
Proof. intros <- <-. by destruct r. Qed.

(** The rows up to the time where the loop stops, and nothing else, are merged. *)
Lemma dedup_rounds fuel : forall t l m r,
  (left_at t l < fuel)%nat -> Forall source_ok l -> ascending (fst <$> l) -> sorted m -> Forall (upto t) m ->
  r_blocks r = marked t l -> r_values r = cols m ->
  exists c p q m', l = p ++ q /\ Forall (done_at c) p /\
    dedup_loop T s fuel r = Ok (with_values (with_blocks r (marked c q)) (cols m'), None) /\
    t <= c /\ sorted m' /\ Forall (upto c) m' /\ m' ++ pend c q = m ++ pend t l /\ (size s <= length m' \/ q = [])%nat.
Proof.
  induction fuel as [|fuel IH]; intros t l m r Hf Hl Ha Hm Hmt Hb Hv; [lia|]. cbn [dedup_loop]. rewrite Hb, Hv, Len_cols, length_fmap.
  destruct (bool_decide_reflect (length m < size s)%nat) as [Hsz|Hsz]; cbn [andb].
  2: { exists t, [], l, m. split_and!; [done|constructor| |lia|done|done|done|by left; apply Nat.nlt_ge]. by rewrite run_eta. }
  case_bool_decide as Hne.
  2: { destruct l; [|cbn in Hne; lia]. exists t, [], [], m. split_and!; [done|constructor| |lia|done|done|done|by right]. by rewrite run_eta. }
  rewrite drop_read_marked by done. destruct (skip_done_split t l) as (p & El & Hp). pose proof (skip_done_head t l) as Hh.
  set (q := skip_done t l) in *. rewrite El in Hl, Ha. apply Forall_app in Hl as [Hlp Hlq]. rewrite fmap_app in Ha. apply ascending_suffix in Ha.
  assert (pend t l = pend t q) as Ep by (rewrite El; by apply pend_done).
  destruct q as [|x q0] eqn:Eq; cbn [fmap list_fmap].
  { exists t, l, [], m. rewrite app_nil_r in El. subst p. split_and!; [by rewrite app_nil_r|done| |lia|done|done|by rewrite Ep|by right].
    rewrite <- Hv. by destruct r. }
  change (mark t x :: marked t q0) with (marked t (x :: q0)). rewrite <- Eq in *.
  specialize (Hh x q0 ltac:(done)). unfold done_at in Hh. assert (source_ok x) as Hx by (rewrite Eq in Hlq; by apply Forall_inv in Hlq).
  pose proof (source_le x Hx) as Hxle. destruct (mark_fields t x) as (_ & -> & -> & _).
  destruct (adjust_spec t q Hlq (minTime (fst x)) (maxTime (fst x)) (minTime (fst x))) as (mn & c & -> & Hmn & Hmc & Hcx & Hall & Hend); [lia..| |].
  { apply (chained_ascending t q Hlq Ha _ (minTime (fst x))); [|lia]. rewrite Eq. lia. }
  assert (exists y, y ∈ q /\ t < maxTime (fst y) /\ maxTime (fst y) = c) as (y & Hy & Hyt & Hyc).
  { destruct Hend as [->|]; [|done]. exists x. rewrite Eq. split_and!; [left|lia|done]. }
  rewrite (window_loop_spec t c mn q m) by (done || lia). cbn [mbind outcome_bind].
  set (m1 := foldl merged m (slice_of t c <$> q)).
  destruct (IH c q m1 (with_values (with_blocks r (marked c q)) (cols m1))) as (c' & p' & q' & m' & Eq' & Hp' & E & Hcc & Hs' & Hu' & Ec & Hex);
    [|done|done| | |done|done|].
  - assert (left_at c q < left_at t q)%nat by (eapply left_less; [|exact Hy|exact Hyt|]; lia).
    assert (left_at t q <= left_at t l)%nat; [|lia]. rewrite El. unfold left_at. rewrite filter_app, length_app. lia.
  - apply fold_sorted; [|done]. intros z Hz. apply sorted_filter, live_rows_sorted. by eapply Forall_forall.
  - apply fold_Forall.
    + intros z _. apply Forall_forall. by intros v [[_ Hv'] _]%list_elem_of_filter.
    + eapply Forall_impl; [exact Hmt|]. unfold upto. intros; lia.
  - exists c', (p ++ p'), q', m'. split_and!; [by rewrite El, Eq', app_assoc| | |lia|done|done| |done].
    + apply Forall_app. split; [|done]. eapply Forall_impl; [exact Hp|]. unfold done_at. intros; lia.
    + rewrite E. by destruct r.
    + rewrite Ec, Ep. apply pend_window; [lia|done|done].
Qed.

(** ** Blocks apart from each other *)

Definition todo t l : list source := filter (fun x => ~ done_at t x) l.
Definition fresh t x : Prop := done_at t x \/ t < minTime (fst x).
Definition apart (l : list source) : Prop := StronglySorted (fun x y => maxTime (fst x) < minTime (fst y)) l.
(** Bytes that [IsPtrBlock] and [BlockCount] can look at. *)
Definition block_wf x : Prop :=
  exists is_ptr, Block.IsPtrBlock (data (fst x)) = Ok is_ptr /\ (is_ptr = false -> exists n, Block.BlockCount (data (fst x)) = Ok n).

Lemma rows_of_blocks v l : v ∈ concat (snd <$> l) -> exists x, x ∈ l /\ v ∈ snd x.
Proof.
  induction l as [|x l IH]; [by intros ?%elem_of_nil|]. cbn [fmap list_fmap concat]. intros [Hv|Hv]%elem_of_app.
  - exists x. split; [left|done].
  - destruct (IH Hv) as (y & Hy & Hvy). exists y. split; [by right|done].
Qed.

Lemma todo_done t x l : maxTime (fst x) <= t -> todo t (x :: l) = todo t l.
Proof. intros H. unfold todo. rewrite filter_cons_False; [done|]. unfold done_at. lia. Qed.

Lemma todo_new t x l : t < maxTime (fst x) -> todo t (x :: l) = x :: todo t l.
Proof. intros H. unfold todo. rewrite filter_cons_True; [done|]. unfold done_at. lia. Qed.

Lemma todo_app t p q : todo t (p ++ q) = todo t p ++ todo t q.
Proof. apply filter_app. Qed.

Lemma mark_todo t l : Forall source_ok l -> Forall (fresh t) l -> marked t (todo t l) = fst <$> todo t l.
Proof.
  intros Hl Hf. apply list_fmap_ext. intros i x Hx. apply list_elem_of_lookup_2, list_elem_of_filter in Hx as [Hd Hx].
  rewrite Forall_forall in Hl, Hf. apply mark_fresh; [auto|]. destruct (Hf x Hx); [done|done].
Qed.

Lemma unread_marked t l : Forall source_ok l -> Forall (fresh t) l -> unread (marked t l) = fst <$> todo t l.
Proof.
  intros Hl Hf. rewrite <- mark_todo by done. clear Hf. induction Hl as [|x l Hx Hl IH]; [done|]. cbn [fmap list_fmap unread List.filter].
  rewrite read_mark by done. unfold todo. rewrite filter_cons. unfold done_at at 1. fold (todo t l).
  destruct (Z.leb_spec (maxTime (fst x)) t); cbn [negb]; case_decide; try (exfalso; lia); [done|].
  cbn [fmap list_fmap]. by rewrite <- IH.
Qed.

Lemma merged_append (r1 r2 : list (Z * A)) : (forall v w, v ∈ r1 -> w ∈ r2 -> fst v < fst w) -> merged r1 r2 = r1 ++ r2.
Proof.
  induction r1 as [|v r1 IH]; intros H; [done|]. destruct r2 as [|w r2]; [by rewrite app_nil_r, merged_nil_r|].
  rewrite merged_cons, (proj2 (Z.ltb_lt _ _)) by (apply H; left). cbn [app]. f_equal. apply IH. intros; apply H; [by right|done].
Qed.

Lemma live_whole x : tombstones (fst x) = [] -> live x = snd x.
Proof. intros E. unfold live. rewrite E. apply filter_all. by apply Forall_true. Qed.

Lemma pending_whole t x : source_ok x -> fresh t x -> tombstones (fst x) = [] ->
  filter (beyond t) (live x) = if decide (done_at t x) then [] else snd x.
Proof.
  intros Hx Hf Ht. rewrite live_whole by done. unfold fresh, done_at in *. case_decide.
  - apply filter_none. intros v Hv. pose proof (source_bounds x Hx v Hv). unfold beyond. lia.
  - apply filter_in. intros v Hv. pose proof (source_bounds x Hx v Hv). unfold beyond. lia.
Qed.

Lemma fold_apart t l : Forall source_ok l -> Forall (fresh t) l -> Forall (fun x => tombstones (fst x) = []) l -> apart l -> forall m,
  (forall v x, v ∈ m -> x ∈ todo t l -> fst v < minTime (fst x)) ->
  foldl merged m ((fun x => filter (beyond t) (live x)) <$> l) = m ++ concat (snd <$> todo t l).
Proof.
  induction 1 as [|x l Hx Hl IH]; intros Hf Ht Ha m Hm; [by rewrite app_nil_r|].
  apply Forall_cons in Hf as [Hf1 Hf], Ht as [Ht1 Ht]. apply StronglySorted_inv in Ha as [Ha Hax]. cbn [fmap list_fmap foldl].
  rewrite pending_whole by done. unfold todo in *. rewrite filter_cons in *. destruct (decide (done_at t x)) as [Hd|Hd].
  - rewrite decide_False in * by (intros H; by apply H). rewrite merged_nil_r. by apply IH.
  - rewrite decide_True in * by done. rewrite merged_append.
    + rewrite IH; [by rewrite <- app_assoc|done|done|done|]. intros v y [Hv|Hv]%elem_of_app Hy; [apply Hm; [done|by right]|].
      pose proof (source_bounds x Hx v Hv). apply list_elem_of_filter in Hy as [_ Hy]. rewrite Forall_forall in Hax. specialize (Hax y Hy); cbv beta in Hax; lia.
    + intros v w Hv Hw. pose proof (source_bounds x Hx w Hw). specialize (Hm v x Hv ltac:(left)). lia.
Qed.

(** What the test of [merge] says when it finds no reason to decode. *)
Lemma must_dedup_spec t l : Forall source_ok l -> Forall block_wf l -> forall x,
  source_ok x -> ascending (fst <$> x :: l) ->
  exists d, must_dedup s (mark t x) (marked t l) = Ok d /\
    (d = false -> Forall (fresh t) l /\ Forall (fun y => tombstones (fst y) = []) l /\ apart (x :: l)).
Proof.
  induction 1 as [|y l Hy Hl IH]; intros Hw x Hx Ha.
  { exists false. split; [done|]. intros _. split_and!; [constructor..|]. repeat constructor. }
  apply Forall_cons in Hw as [(p & Hp & _) Hw]. cbn [fmap list_fmap must_dedup].
  rewrite partially_mark, overlaps_mark by done. destruct (mark_fields t x) as (_ & -> & -> & _), (mark_fields t y) as (_ & _ & _ & -> & ->).
  assert (minTime (fst x) <= maxTime (fst y)) as Hxy.
  { cbn [fmap list_fmap] in Ha. apply Sorted_inv in Ha as [_ Ha]. apply HdRel_inv in Ha. by apply Less_sources. }
  pose proof (source_le x Hx) as Hxle. pose proof (source_le y Hy) as Hyle.
  match goal with |- context [if ?c then Ok true else _] => destruct c eqn:Ec end; [by exists true|].
  apply orb_false_iff in Ec as [[Ec1 Ec2]%orb_false_iff Ec3]. apply bool_decide_eq_false in Ec1, Ec3.
  rewrite andb_false_iff, !Z.leb_gt in Ec2. rewrite Hp. cbn [mbind outcome_bind].
  assert (exists big, (if p then c ← Block.PtrBlockCount (data (fst y)); Ok (separateThreshold s <? c) else Ok false) = Ok big) as [big ->].
  { destruct p; [|by exists false]. unfold Block.IsPtrBlock, Block.PtrBlockCount in *. destruct (index _ 0); [|done..]. cbn. eauto. }
  cbn [mbind outcome_bind]. destruct big; [by exists true|].
  destruct (IH Hw y Hy) as (d & E & Hd). { cbn [fmap list_fmap] in Ha. by apply Sorted_inv in Ha as [Ha _]. }
  exists d. split; [done|]. intros Hdf. destruct (Hd Hdf) as (H1 & H2 & H3). split_and!.
  - constructor; [|done]. unfold fresh, done_at. lia.
  - constructor; [|done]. destruct (tombstones (fst y)); [done|cbn in Ec3; lia].
  - constructor; [done|]. apply StronglySorted_inv in H3 as [_ H3]. constructor; [lia|]. eapply Forall_impl; [exact H3|]. cbn. intros; lia.
Qed.

Lemma as_is_spec t l : Forall source_ok l -> Forall block_wf l -> Forall (fresh t) l -> forall i (r : run A),
  exists p q, l = p ++ q /\
    as_is s i (marked t l) r = Ok ((i + length p)%nat, with_merged r (r_merged r ++ (fst <$> todo t p))).
Proof.
  induction 1 as [|x l Hx Hl IH]; intros Hw Hf i r.
  { exists [], []. split; [done|]. cbn. rewrite Nat.add_0_r, app_nil_r. by destruct r. }
  apply Forall_cons in Hw as [(ptr & Hp & Hn) Hw], Hf as [Hf1 Hf]. cbn [fmap list_fmap as_is]. rewrite read_mark by done.
  destruct (mark_fields t x) as (_ & _ & _ & -> & _). destruct (Z.leb_spec (maxTime (fst x)) t) as [Hd|Hd].
  - destruct (IH Hw Hf (S i) r) as (p & q & E & ->). exists (x :: p), q. split; [cbn; by f_equal|]. rewrite todo_done by done. do 2 f_equal. cbn [length]. lia.
  - rewrite (mark_fresh x Hx) by (unfold fresh, done_at in Hf1; lia). rewrite Hp. cbn [mbind outcome_bind].
    assert (exists p q, x :: l = p ++ q /\ as_is s (S i) (marked t l) (with_merged r (r_merged r ++ [fst x])) =
      Ok ((i + length p)%nat, with_merged r (r_merged r ++ (fst <$> todo t p)))) as Htake.
    { destruct (IH Hw Hf (S i) (with_merged r (r_merged r ++ [fst x]))) as (p & q & E & ->). exists (x :: p), q.
      split; [cbn; by f_equal|]. rewrite todo_new by done. cbn [fmap list_fmap r_merged with_merged].
      unfold with_merged. cbn. rewrite <- app_assoc. do 2 f_equal. lia. }
    destruct ptr; [done|]. destruct (Hn eq_refl) as [n ->]. destruct (n <? Z.of_nat (size s)); [|done].
    exists [], (x :: l). split; [done|]. cbn. rewrite Nat.add_0_r, app_nil_r. by destruct r.
Qed.

Lemma decode_plain x : source_ok x -> Block.IsPtrBlock (data (fst x)) = Ok false -> decode T (data (fst x)) = Ok (cols (snd x)).
Proof.
  intros Hx Hp. pose proof (so_load _ Hx) as Hl. unfold load, VFileManager.ReadDataBlocks in Hl. rewrite Hp in Hl.
  cbn [mbind outcome_bind merge_data] in Hl. rewrite bool_decide_false in Hl.
  - apply bind_Ok in Hl as (v & E & Hl). cbv beta in Hl. unfold Merge in Hl. cbn in Hl. by injection Hl as ->.
  - destruct (data (fst x)); [done|cbn; lia].
Qed.

Lemma small_loop_spec pc t l : Forall source_ok l -> Forall (fun x => Block.IsPtrBlock (data (fst x)) = Ok false) l ->
  Forall (fresh t) l -> Forall (fun x => tombstones (fst x) = []) l -> apart l -> forall fuel i r pre m,
  (length l < fuel)%nat -> i = length pre -> r_blocks r = pre ++ marked t l -> r_values r = cols m -> sorted m ->
  (forall v x, v ∈ m -> x ∈ todo t l -> fst v < minTime (fst x)) ->
  exists q1 q2 pre', l = q1 ++ q2 /\ length pre' = (i + length q1)%nat /\ (size s <= length (m ++ concat (snd <$> todo t q1)) \/ q2 = [])%nat /\
    sorted (m ++ concat (snd <$> todo t q1)) /\
    small_loop T pc s fuel i r =
      Ok ((i + length q1)%nat, with_values (with_blocks r (pre' ++ marked t q2)) (cols (m ++ concat (snd <$> todo t q1))), None).
Proof.
  induction 1 as [|x l Hx Hl IH]; intros Hp Hf Ht Ha fuel i r pre m Hfuel Hi Hb Hv Hm Hlt; (destruct fuel as [|fuel]; [cbn in Hfuel; lia|]).
  { exists [], [], pre. cbn [small_loop]. unfold small_step. rewrite Hb. cbn [fmap list_fmap]. rewrite lookup_ge_None_2 by (rewrite app_nil_r; lia). cbn. rewrite !app_nil_r in *.
    split_and!; [done|lia|by right|done|]. rewrite Nat.add_0_r. by rewrite run_eta. }
  apply Forall_cons in Hp as [Hp1 Hp], Hf as [Hf1 Hf], Ht as [Ht1 Ht]. apply StronglySorted_inv in Ha as [Ha Hax].
  cbn [small_loop]. unfold small_step. rewrite Hb. cbn [fmap list_fmap]. rewrite (list_lookup_middle pre _ (mark t x) i Hi).
  rewrite Hv, Len_cols. case_bool_decide as Hsz; cbn [negb].
  2: { exists [], (x :: l), pre. cbn. rewrite !app_nil_r, Nat.add_0_r. split_and!; [done|lia|left; lia|done|]. by rewrite run_eta. }
  rewrite read_mark by done. destruct (mark_fields t x) as (_ & _ & Emax & -> & Et).
  assert (r_blocks r = (pre ++ [mark t x]) ++ marked t l) as Hb' by by rewrite Hb, <- app_assoc.
  destruct (Z.leb_spec (maxTime (fst x)) t) as [Hd|Hd].
  - rewrite todo_done in Hlt by done.
    destruct (IH Hp Hf Ht Ha fuel (S i) r (pre ++ [mark t x]) m) as (q1 & q2 & pre' & E & H1 & H2 & H3 & H4); try done; [cbn in Hfuel; lia|rewrite length_app; cbn; lia|].
    exists (x :: q1), q2, pre'. rewrite todo_done by done. cbn [length]. rewrite <- Nat.add_succ_comm.
    split_and!; [cbn; by f_equal|done..].
  - rewrite todo_new in Hlt by done. rewrite Hp1. cbn [mbind outcome_bind].
    rewrite (decode_plain x Hx Hp1), MaxTime_cols, (so_max _ Hx), (mark_fresh x Hx) by (unfold fresh, done_at in Hf1; lia). cbn [mbind outcome_bind].
    rewrite Z.eqb_refl, Ht1. cbn [exclude_all mbind outcome_bind]. rewrite merge_cols; [|done|apply Hx]. cbn [mbind outcome_bind].
    assert (merged m (snd x) = m ++ snd x) as ->.
    { apply merged_append. intros v w Hv' Hw. pose proof (source_bounds x Hx w Hw). specialize (Hlt v x Hv' ltac:(left)). lia. }
    set (b' := markRead (fst x) (minTime (fst x)) (maxTime (fst x))).
    destruct (IH Hp Hf Ht Ha fuel (S i) (with_values (with_blocks r (<[i := b']> (r_blocks r))) (cols (m ++ snd x))) (pre ++ [b']) (m ++ snd x))
      as (q1 & q2 & pre' & E & H1 & H2 & H3 & H4); [cbn in Hfuel; lia|rewrite length_app; cbn; lia| |done| | |].
    + cbn [with_values with_blocks r_blocks]. rewrite Hb, Hi. cbn [fmap list_fmap]. rewrite insert_app_r_alt, Nat.sub_diag by lia. cbn.
      by rewrite <- app_assoc.
    + apply sorted_app; [done|apply Hx|]. intros v w Hv' Hw. pose proof (source_bounds x Hx w Hw). specialize (Hlt v x Hv' ltac:(left)). cbn. lia.
    + intros v y [Hv'|Hv']%elem_of_app Hy; [apply Hlt; [done|by right]|]. pose proof (source_bounds x Hx v Hv').
      apply list_elem_of_filter in Hy as [_ Hy]. rewrite Forall_forall in Hax. specialize (Hax y Hy); cbv beta in Hax; lia.
    + exists (x :: q1), q2, pre'. rewrite todo_new by done. cbn [length fmap list_fmap concat].
      rewrite <- Nat.add_succ_comm, app_assoc. split_and!; [cbn; by f_equal|done..|]. rewrite Hb in H4. cbn [fmap list_fmap] in H4.
      rewrite (mark_fresh x Hx) in H4 by (unfold fresh, done_at in Hf1; lia). exact H4.
Qed.

(** ** What is emitted *)

Section emit.
Context (codable : list (Z * A) -> Prop).
Context (Hcod : forall rs, codable rs -> rs <> [] -> exists cb, encode T (cols rs) = Ok cb /\ load T s cb = Ok (cols rs) /\ Block.IsPtrBlock cb = Ok false).
Context (Hcut : forall r1 r2, codable (r1 ++ r2) -> codable r1 /\ codable r2).
Context (Hsize : (0 < size s)%nat).

(** A block that is given out, with its rows: one of the blocks as it was, or a new one. *)
Record given (l : list source) (x : source) : Prop := {
  g_load : load T s (data (fst x)) = Ok (cols (snd x));
  g_sorted : sorted (snd x);
  g_min : Values.MinTime (snd x) = Ok (minTime (fst x));
  g_max : Values.MaxTime (snd x) = Ok (maxTime (fst x));
  g_key : key (fst x) = cur_key s;
  g_size : (length (snd x) <= size s)%nat /\ Block.IsPtrBlock (data (fst x)) = Ok false \/ x ∈ l }.

Lemma given_source l x : source_ok x -> x ∈ l -> given l x.
Proof. intros [] Hin. by constructor; [..|right]. Qed.

Lemma given_nonempty l x : given l x -> snd x <> [].
Proof. intros Hg E. pose proof (g_min _ _ Hg) as Hm. rewrite E in Hm. done. Qed.

Lemma given_more l l' x : (forall y, y ∈ l -> y ∈ l') -> given l x -> given l' x.
Proof. intros Hl []. constructor; try done. destruct g_size0; [by left|right; auto]. Qed.

Lemma index_first (r : list (Z * A)) : r <> [] -> exists mn, index (fst <$> r) 0 = Ok mn /\ Values.MinTime r = Ok mn.
Proof. destruct r as [|v r]; [done|]. intros _. by exists (fst v). Qed.

Lemma index_last (r : list (Z * A)) : r <> [] -> exists mx, index (fst <$> r) (length (fst <$> r) - 1) = Ok mx /\ Values.MaxTime r = Ok mx.
Proof.
  intros Hr. destruct (last r) as [v|] eqn:Hv; [|by apply last_None in Hv]. exists (fst v). split; [|exact (MaxTime_last r v Hv)].
  rewrite length_fmap. apply index_lookup. rewrite list_lookup_fmap.
  rewrite last_lookup in Hv. replace (length r - 1)%nat with (pred (length r)) by lia. by rewrite Hv.
Qed.

Lemma chunk_spec (r : run A) dst m : r_values r = cols m -> sorted m -> codable m ->
  exists outs m', chunk T s r dst = Ok (with_values r (cols m'), dst ++ (fst <$> outs)) /\
    m = concat (snd <$> outs) ++ m' /\ Forall (given []) outs /\ (outs = [] -> m = []).
Proof.
  intros Hv Hm Hc. unfold chunk. rewrite Hv, Len_cols. cbn [Timestamps Values NewArrayFromValues]. case_bool_decide as Hb.
  - set (a := take (size s) m). assert (a <> []) as Ha by (unfold a; destruct m, (size s); cbn in *; try lia; done).
    assert (m = a ++ drop (size s) m) as Em by (unfold a; by rewrite take_drop).
    destruct (Hcod a) as (cb & E & L & P); [rewrite Em in Hc; by apply Hcut in Hc as [Hc _]|done|].
    assert (subslice (fst <$> m) 0 (size s) = Ok (fst <$> a)) as ->.
    { unfold subslice. rewrite decide_True by (rewrite length_fmap; lia). by rewrite drop_0, <- fmap_take. }
    assert (subslice (snd <$> m) 0 (size s) = Ok (snd <$> a)) as ->.
    { unfold subslice. rewrite decide_True by (rewrite length_fmap; lia). by rewrite drop_0, <- fmap_take. }
    cbn [mbind outcome_bind]. destruct (index_first a Ha) as (mn & -> & Hmn), (index_last a Ha) as (mx & -> & Hmx). cbn [mbind outcome_bind].
    change (MkArray (fst <$> a) (snd <$> a)) with (cols a). rewrite E. rewrite !tail_from_Ok by (rewrite length_fmap; lia).
    cbn [mbind outcome_bind]. rewrite <- !fmap_drop. exists [(MkBlock (cur_key s) mn mx 0 cb [] 0 0, a)], (drop (size s) m).
    split_and!; [done|cbn; by rewrite app_nil_r| |done]. constructor; [|constructor]. constructor; cbn; try done.
    + rewrite Em in Hm. by apply StronglySorted_app_1_l in Hm.
    + left. split; [|done]. unfold a. rewrite length_take. lia.
  - case_bool_decide as Hz.
    + assert (m <> []) as Hne by (intros ->; cbn in Hz; lia). destruct (Hcod m Hc Hne) as (cb & E & L & P).
      destruct (index_first m Hne) as (mn & -> & Hmn), (index_last m Hne) as (mx & -> & Hmx). cbn [mbind outcome_bind].
      change (MkArray (fst <$> m) (snd <$> m)) with (cols m). rewrite E. exists [(MkBlock (cur_key s) mn mx 0 cb [] 0 0, m)], [].
      split_and!; [done|cbn; by rewrite !app_nil_r| |done]. constructor; [|constructor]. constructor; cbn; try done. left. split; [lia|done].
    + assert (m = []) as -> by (destruct m; [done|cbn in Hz; lia]). exists [], []. cbn. rewrite app_nil_r. split_and!; [|done|constructor|done].
      rewrite <- Hv. by destruct r.
Qed.

Definition is_plain (x : source) : Prop := Block.IsPtrBlock (data (fst x)) = Ok false.

(** The blocks taken as they are: those of [p]. *)
Lemma taken_as_is t l (r : run A) : Forall source_ok l -> Forall block_wf l -> Forall (fresh t) l ->
  (fast s = true \/ Forall is_plain l) -> r_blocks r = marked t l -> r_merged r = [] ->
  exists p q, l = p ++ q /\ Forall is_plain q /\
    ('(i, r) ← as_is s 0 (r_blocks r) r;
     let '(i, r) := if fast s then (length (r_blocks r), with_merged r (r_merged r ++ unread (drop i (r_blocks r)))) else (i, r) in
     Ok (match drop i (r_blocks r) with
         | [b] => (S i, if read b then r else with_merged r (r_merged r ++ [b]))
         | _ => (i, r)
         end)) = Ok (length p, with_merged r (fst <$> todo t p)).
Proof.
  intros Hl Hw Hf Hfast Hb Hm. destruct (as_is_spec t l Hl Hw Hf 0 r) as (p & q & E & Ea). rewrite Hb, Ea, Hm. cbn [mbind outcome_bind Nat.add app].
  assert (Forall source_ok q /\ Forall (fresh t) q) as [Hlq Hfq] by (rewrite E in Hl, Hf; apply Forall_app in Hl as [_ ?], Hf as [_ ?]; done).
  assert (forall z, drop (length p) (marked t (p ++ z)) = marked t z) as Hdrop.
  { intros z. rewrite fmap_app. by rewrite drop_app_length' by by rewrite length_fmap. }
  destruct (fast s).
  - exists l, []. rewrite app_nil_r. split_and!; [done|constructor|]. cbn [r_blocks with_merged r_merged]. rewrite Hb, E, Hdrop, unread_marked by done.
    rewrite drop_all, length_fmap, todo_app, fmap_app. done.
  - destruct Hfast as [|Hp]; [done|]. cbn [r_blocks with_merged]. rewrite Hb, E, Hdrop. rewrite E in Hp. apply Forall_app in Hp as [_ Hp].
    destruct q as [|x [|y q]]; [exists p, []; by rewrite ?app_nil_r|exists (p ++ [x]), []|by exists p, (x :: y :: q)].
    rewrite app_nil_r. split_and!; [done|constructor|]. apply Forall_inv in Hlq as Hx. apply Forall_inv in Hfq as Hfx.
    cbn [fmap list_fmap]. rewrite todo_app, length_app, Nat.add_1_r, read_mark by done. destruct (Z.leb_spec (maxTime (fst x)) t).
    + rewrite todo_done by done. by rewrite app_nil_r.
    + rewrite todo_new, fmap_app, (mark_fresh x Hx) by (done || (unfold fresh, done_at in Hfx; lia)). done.
Qed.

Lemma combine_plain pc t l (r : run A) fuel : (length l < fuel)%nat -> Forall source_ok l -> Forall block_wf l -> Forall (fresh t) l ->
  Forall (fun x => tombstones (fst x) = []) l -> apart l -> (fast s = true \/ Forall is_plain l) ->
  r_blocks r = marked t l -> r_merged r = [] -> r_values r = cols [] ->
  exists p q1 q2, l = p ++ q1 ++ q2 /\ (size s <= length (concat (snd <$> todo t q1)) \/ q2 = [])%nat /\ sorted (concat (snd <$> todo t q1)) /\
    combine T pc s fuel false r =
      chunk T s (with_values (with_blocks (with_merged r (fst <$> todo t p)) (marked t q2)) (cols (concat (snd <$> todo t q1)))) (fst <$> todo t p).
Proof.
  intros Hfuel Hl Hw Hf Ht Ha Hfast Hb Hm Hv. destruct (taken_as_is t l r Hl Hw Hf Hfast Hb Hm) as (p & q & E & Hp & Et).
  unfold combine. destruct (as_is s 0 (r_blocks r) r) as [[i0 r0]|e|]; [|done..]. cbn [mbind outcome_bind] in *.
  destruct (if fast s then _ else _) as [i1 r1]. injection Et as Et. rewrite Et. cbn [mbind outcome_bind].
  rewrite E in Hl, Hf, Ht, Ha. apply Forall_app in Hl as [Hlp Hlq], Hf as [_ Hf], Ht as [_ Ht]. apply StronglySorted_app_1_r in Ha.
  destruct (small_loop_spec pc t q Hlq Hp Hf Ht Ha fuel (length p) (with_merged r (fst <$> todo t p)) (marked t p) [])
    as (q1 & q2 & pre & Eq & Hpre & Hex & Hs & ->); [rewrite E, length_app in Hfuel; lia|by rewrite length_fmap| |done|constructor| |].
  { cbn [r_blocks with_merged]. by rewrite Hb, E, fmap_app. }
  { intros v x Hv'. by apply elem_of_nil in Hv'. }
  exists p, q1, q2. cbn [app] in *. split_and!; [by rewrite E, Eq|done|done|]. cbn [mbind outcome_bind].
  f_equal. cbn [r_blocks with_values with_blocks]. by rewrite drop_app_length' by done.
Qed.

Lemma Less_mark t x y : Less (mark t x) (mark t y) = Less (fst x) (fst y).
Proof. unfold Less. destruct (mark_fields t x) as (-> & -> & -> & _), (mark_fields t y) as (-> & -> & _). done. Qed.

Lemma ascending_marked t l : ascending (marked t l) <-> ascending (fst <$> l).
Proof.
  unfold GoSort.ascending. induction l as [|x l IH]; [done|]. cbn [fmap list_fmap].
  split; intros [H1 H2]%Sorted_inv; (constructor; [by apply IH|]); (destruct l as [|y l]; [constructor|]);
    cbn [fmap list_fmap] in *; apply HdRel_inv in H2; constructor; by rewrite Less_mark in *.
Qed.

Lemma sortable_marked t l : sortable (fst <$> l) -> sortable (marked t l).
Proof.
  intros [Hl|Hw]; [left; by rewrite !length_fmap in *|right].
  intros a b c (x & -> & Hx)%list_elem_of_fmap (y & -> & Hy)%list_elem_of_fmap (z & -> & Hz)%list_elem_of_fmap. rewrite !Less_mark.
  by apply Hw; apply list_elem_of_fmap_2.
Qed.

Lemma pend_later t c l : Forall source_ok l -> t <= c -> (forall x, x ∈ l -> done_at t x \/ c < minTime (fst x)) ->
  pend c l = pend t l /\ marked c l = marked t l.
Proof.
  intros Hl Htc Hc. unfold pend. induction Hl as [|x l Hx Hl IH]; [done|]. destruct IH as [IH1 IH2]; [intros; apply Hc; by right|].
  assert (filter (beyond c) (live x) = filter (beyond t) (live x)) as Ex.
  { apply filter_same. intros v Hv. pose proof (live_bounds x Hx v Hv). destruct (Hc x ltac:(left)) as [Hd|Hd]; unfold beyond, done_at in *; lia. }
  split; [|cbn [fmap list_fmap]; f_equal; [apply mark_same; [done..|]; apply Hc; left|done]].
  assert (((fun x => filter (beyond c) (live x)) <$> l) = ((fun x => filter (beyond t) (live x)) <$> l)) as El.
  { apply list_fmap_ext. intros i y Hy%list_elem_of_lookup_2. apply filter_same. intros v Hv. rewrite Forall_forall in Hl.
    pose proof (live_bounds y (Hl y Hy) v Hv). destruct (Hc y ltac:(by right)) as [Hd|Hd]; unfold beyond, done_at in *; lia. }
  cbn [fmap list_fmap]. by rewrite Ex, El.
Qed.

(** ** One call of [merge] *)
Context (stable : list block -> list block) (Hkeep : forall bs, sortable bs -> ascending bs -> stable bs = bs).
Context (pc : settings -> run A -> list block -> outcome (run A * list block)).

(** The state of the iterator between two calls: the rows of the blocks [l] up to [t] are
    read, and those of [m] of them are not yet given out. *)
Record between (t : Z) (l : list source) (m : list (Z * A)) (r : run A) : Prop := {
  bt_sources : Forall source_ok l;
  bt_wf : Forall block_wf l;
  bt_plain : fast s = true \/ Forall is_plain l;
  bt_ascending : ascending (fst <$> l);
  bt_sortable : sortable (fst <$> l);
  bt_sorted : sorted m;
  bt_read : Forall (upto t) m;
  bt_codable : codable (m ++ pend t l);
  bt_blocks : r_blocks r = marked t l;
  bt_values : r_values r = cols m;
  bt_merged : r_merged r = [] }.

Lemma between_suffix c p q m m' r r' t : between t (p ++ q) m r -> sorted m' -> Forall (upto c) m' ->
  (exists outs : list source, m ++ pend t (p ++ q) = concat (snd <$> outs) ++ m' ++ pend c q) ->
  r_blocks r' = marked c q -> r_values r' = cols m' -> r_merged r' = [] -> between c q m' r'.
Proof.
  intros [] Hs Hu [outs E] Hb Hv Hm. apply Forall_app in bt_sources0 as [_ ?], bt_wf0 as [_ ?].
  constructor; try done.
  - destruct bt_plain0 as [|Hp]; [by left|right]. by apply Forall_app in Hp as [_ ?].
  - rewrite fmap_app in bt_ascending0. by apply ascending_suffix in bt_ascending0.
  - rewrite fmap_app in bt_sortable0. by apply GoSort.sortable_suffix in bt_sortable0.
  - rewrite E in bt_codable0. by apply Hcut in bt_codable0 as [_ ?].
Qed.

Lemma merge_dedup fuel t l m r : (length l < fuel)%nat -> between t l m r ->
  exists (outs : list source) c p q m' r', combine T pc s fuel true r = Ok (r', fst <$> outs) /\ l = p ++ q /\
    r_blocks r' = marked c q /\ r_values r' = cols m' /\ r_floats r' = r_floats r /\ r_errs r' = r_errs r /\ t <= c /\ sorted m' /\
    Forall (upto c) m' /\ m ++ pend t l = concat (snd <$> outs) ++ m' ++ pend c q /\ Forall (given l) outs /\
    (outs = [] -> m' = [] /\ q = []).
Proof.
  intros Hfuel []. unfold combine.
  destruct (dedup_rounds fuel t l m r) as (c & p & q & m1 & E & Hp & -> & Htc & Hs1 & Hu1 & Ec & Hex); try done.
  { assert (left_at t l <= length l)%nat; [|lia]. apply length_filter. }
  cbn [mbind outcome_bind]. rewrite <- Ec in bt_codable0. apply Hcut in bt_codable0 as [Hc1 _].
  destruct (chunk_spec (with_values (with_blocks r (marked c q)) (cols m1)) [] m1) as (outs & m' & -> & Em & Hg & Hnil); [done..|].
  exists outs, c, p, q, m'. eexists. split_and!; try done.
  - rewrite Em in Hs1. by apply StronglySorted_app_1_r in Hs1.
  - rewrite Em in Hu1. by apply Forall_app in Hu1 as [_ ?].
  - rewrite <- Ec, Em at 1. by rewrite <- app_assoc.
  - eapply Forall_impl; [exact Hg|]. intros x. apply given_more. intros y Hy. by apply elem_of_nil in Hy.
  - intros Ho. specialize (Hnil Ho). rewrite Hnil in Em, Hex. symmetry in Em. apply app_nil in Em as [_ ->]. split; [done|].
    destruct Hex as [Hex|]; [cbn in Hex; lia|done].
Qed.

Lemma merge_plain fuel t l r : (length l < fuel)%nat -> between t l [] r ->
  Forall (fresh t) l -> Forall (fun x => tombstones (fst x) = []) l -> apart l ->
  exists (outs : list source) c p q m' r', combine T pc s fuel false r = Ok (r', fst <$> outs) /\ l = p ++ q /\
    r_blocks r' = marked c q /\ r_values r' = cols m' /\ r_floats r' = r_floats r /\ r_errs r' = r_errs r /\ t <= c /\ sorted m' /\
    Forall (upto c) m' /\ pend t l = concat (snd <$> outs) ++ m' ++ pend c q /\ Forall (given l) outs /\
    (outs = [] -> m' = [] /\ q = []).
Proof.
  intros Hfuel [] Hf Ht Ha. cbn [app] in bt_codable0.
  destruct (combine_plain pc t l r fuel) as (p & q1 & q2 & E & Hex & Hs1 & ->); try done.
  set (m1 := concat (snd <$> todo t q1)) in *.
  assert (forall k, Forall (fresh t) k -> Forall source_ok k -> Forall (fun x => tombstones (fst x) = []) k -> apart k ->
    pend t k = concat (snd <$> todo t k)) as Hpend.
  { intros k ????. unfold pend. rewrite (fold_apart t) by (done || (intros v x Hv; by apply elem_of_nil in Hv)). done. }
  assert (pend t l = concat (snd <$> todo t p) ++ m1 ++ pend t q2) as Ep.
  { assert (Forall (fresh t) q2 /\ Forall source_ok q2 /\ Forall (fun x => tombstones (fst x) = []) q2 /\ apart q2) as (H1 & H2 & H3 & H4).
    { rewrite E in Hf, Ht, Ha, bt_sources0. apply Forall_app in Hf as [_ [_ ?]%Forall_app], Ht as [_ [_ ?]%Forall_app],
        bt_sources0 as [_ [_ ?]%Forall_app]. split_and!; try done. by do 2 apply StronglySorted_app_1_r in Ha. }
    rewrite (Hpend l), (Hpend q2) by done.
    rewrite E, !todo_app, !fmap_app, !concat_app. done. }
  rewrite Ep in bt_codable0. apply Hcut in bt_codable0 as [_ [Hc1 _]%Hcut].
  set (r1 := with_values _ _). destruct (chunk_spec r1 (fst <$> todo t p) m1) as (outs & m' & -> & Em & Hg & Hnil); [done..|].
  set (c := foldr (fun x c => Z.max (maxTime (fst x)) c) t q1).
  assert (t <= c /\ forall x, x ∈ q1 -> maxTime (fst x) <= c) as [Htc Hcx].
  { unfold c. clear. induction q1 as [|x q1 [IH1 IH2]]; cbn [foldr]; (split; [lia|]); intros y Hy; [by apply elem_of_nil in Hy|].
    apply elem_of_cons in Hy as [->|Hy]; [lia|]. specialize (IH2 y Hy). lia. }
  assert (Forall source_ok p /\ Forall source_ok q1 /\ Forall source_ok q2) as (Hlp & Hl1 & Hl2) by (rewrite E in bt_sources0; by decompose_Forall).
  destruct (pend_later t c q2 Hl2 Htc) as [Epc Emc].
  { intros y Hy. rewrite E in Hf, Ha. rewrite Forall_forall in Hf. destruct (Hf y) as [Hd|Hd]; [rewrite !elem_of_app; auto|by left|right].
    assert (forall k, (forall x, x ∈ k -> maxTime (fst x) < minTime (fst y)) -> foldr (fun x c => Z.max (maxTime (fst x)) c) t k < minTime (fst y)) as Hk.
    { clear -Hd. induction k as [|x k IH]; intros Hx; cbn [foldr]; [done|]. specialize (Hx x ltac:(left)) as Hx1.
      specialize (IH ltac:(intros; apply Hx; by right)). lia. }
    apply Hk. intros x Hx. apply StronglySorted_app_1_r in Ha. by apply (StronglySorted_app_1_elem_of _ _ _ x y Ha). }
  exists (todo t p ++ outs), c, (p ++ q1), q2, m', (with_values r1 (cols m')). split_and!; try done.
  - by rewrite fmap_app.
  - by rewrite <- app_assoc.
  - rewrite Em in Hs1. by apply StronglySorted_app_1_r in Hs1.
  - assert (Forall (upto c) m1) as Hu1; [|rewrite Em in Hu1; by apply Forall_app in Hu1 as [_ ?]]. apply Forall_forall. intros v Hv.
    unfold m1 in Hv. apply rows_of_blocks in Hv as (x & Hx & Hv). apply list_elem_of_filter in Hx as [_ Hx].
    rewrite Forall_forall in Hl1. pose proof (source_bounds x (Hl1 x Hx) v Hv). specialize (Hcx x Hx). unfold upto. lia.
  - by rewrite Ep, Em, Epc, fmap_app, concat_app, <- !app_assoc.
  - apply Forall_app. split.
    + apply Forall_forall. intros x [_ Hx]%list_elem_of_filter. rewrite Forall_forall in Hlp. apply given_source; [auto|]. rewrite E, !elem_of_app. auto.
    + eapply Forall_impl; [exact Hg|]. intros x. apply given_more. intros y Hy. by apply elem_of_nil in Hy.
  - intros [_ Ho]%app_nil. specialize (Hnil Ho). rewrite Hnil in Em, Hex. symmetry in Em. apply app_nil in Em as [_ ->]. split; [done|].
    destruct Hex as [Hex|]; [cbn in Hex; lia|done].
Qed.

(** One call gives out rows in order, in blocks that can be read, and keeps the rest; when
    it gives nothing there is nothing left. *)
Lemma merge_once fuel t l m r : (length l < fuel)%nat -> between t l m r -> (l <> [] \/ m <> []) ->
  exists (outs : list source) c p q m' r', merge stable T pc s fuel r = Ok r' /\ l = p ++ q /\ between c q m' (with_merged r' []) /\
    r_merged r' = fst <$> outs /\ r_floats r' = r_floats r /\ r_errs r' = r_errs r /\ 
    m ++ pend t l = concat (snd <$> outs) ++ m' ++ pend c q /\ Forall (given l) outs /\ (outs = [] -> m' = [] /\ q = []).
Proof.
  intros Hfuel Hbt Hne.
  assert (exists d (outs : list source) c p q m' r',
    (if bool_decide (Len (r_values r) = 0)%nat then
       match r_blocks r with
       | [] => Ok false
       | b :: bs => if bool_decide (0 < length (tombstones b))%nat || partiallyRead b then Ok true else must_dedup s b bs
       end else Ok true) = Ok d /\
    combine T pc s fuel d r = Ok (r', fst <$> outs) /\ l = p ++ q /\
    r_blocks r' = marked c q /\ r_values r' = cols m' /\ r_floats r' = r_floats r /\ r_errs r' = r_errs r /\ t <= c /\ sorted m' /\
    Forall (upto c) m' /\ m ++ pend t l = concat (snd <$> outs) ++ m' ++ pend c q /\ Forall (given l) outs /\
    (outs = [] -> m' = [] /\ q = [])) as (d & outs & c & p & q & m' & r' & Ed & E & El & H1 & H2 & H3 & H4 & H5 & H6 & H7 & H8 & H9 & H10).
  { destruct (bt_sources _ _ _ _ Hbt) as [|x l0 Hx Hl0] eqn:El.
    { exists true. destruct (merge_dedup fuel t [] m r Hfuel Hbt) as (outs & c & p & q & m' & r' & H). exists outs, c, p, q, m', r'. split; [|done].
      rewrite (bt_values _ _ _ _ Hbt), Len_cols. rewrite bool_decide_false; [done|]. destruct m; [naive_solver|cbn; lia]. }
    clear El. set (l := x :: l0) in *. pose proof (merge_dedup fuel t l m r Hfuel Hbt) as (outs & c & p & q & m' & r' & Hd).
    rewrite (bt_values _ _ _ _ Hbt), Len_cols, (bt_blocks _ _ _ _ Hbt). case_bool_decide as Hm; [|by exists true, outs, c, p, q, m', r'].
    unfold l. cbn [fmap list_fmap]. destruct (bool_decide _ || _) eqn:Eh; [by exists true, outs, c, p, q, m', r'|].
    apply orb_false_iff in Eh as [Ht0%bool_decide_eq_false Hp0]. rewrite partially_mark in Hp0 by done. apply bool_decide_eq_false in Hp0.
    destruct (mark_fields t x) as (_ & _ & _ & _ & Et). rewrite Et in Ht0.
    pose proof (bt_wf _ _ _ _ Hbt) as Hw. apply Forall_cons in Hw as [_ Hw].
    destruct (must_dedup_spec t l0 Hl0 Hw x Hx (bt_ascending _ _ _ _ Hbt)) as (d & -> & Hdf).
    destruct d; [by exists true, outs, c, p, q, m', r'|]. clear outs c p q m' r' Hd. exists false. destruct (Hdf eq_refl) as (Hf & Ht & Ha).
    assert (m = []) as -> by by destruct m.
    destruct (merge_plain fuel t l r Hfuel Hbt) as (outs & c & p & q & m' & r' & H).
    - constructor; [|done]. pose proof (source_le x Hx). unfold fresh, done_at. lia.
    - constructor; [|done]. destruct (tombstones (fst x)); [done|cbn in Ht0; lia].
    - done.
    - exists outs, c, p, q, m', r'. split; [done|]. exact H. }
  unfold merge. destruct (bool_decide (length (r_blocks r) = 0)%nat && _ && _) eqn:Enot.
  { exfalso. rewrite (bt_blocks _ _ _ _ Hbt), (bt_values _ _ _ _ Hbt), Len_cols, length_fmap in Enot.
    rewrite !andb_true_iff, !bool_decide_eq_true in Enot. destruct Enot as [[E1 _] E2]. destruct l, m; naive_solver. }
  rewrite Hkeep by (rewrite (bt_blocks _ _ _ _ Hbt); apply sortable_marked || apply ascending_marked; apply Hbt).
  assert (with_blocks r (r_blocks r) = r) as -> by by destruct r. rewrite Ed. cbn [mbind outcome_bind]. rewrite E. cbn [mbind outcome_bind].
  exists outs, c, p, q, m', (with_merged r' (fst <$> outs)). split_and!; try done.
  rewrite El in Hbt, H8. eapply (between_suffix c p q m m' r); [done..| |done|done|done]. by exists outs.
Qed.

End emit.

(** ** The sort before a merge *)

Definition overlay (l : list source) : list (Z * A) := foldl merged [] (live <$> l).

Lemma overlay_pend t l : Forall source_ok l -> (forall x, x ∈ l -> t < minTime (fst x)) -> pend t l = overlay l.
Proof.
  intros Hl Ht. unfold pend, overlay. f_equal. apply list_fmap_ext. intros i x Hx%list_elem_of_lookup_2. apply filter_in.
  intros v Hv. rewrite Forall_forall in Hl. pose proof (live_bounds x (Hl x Hx) v Hv). specialize (Ht x Hx). unfold beyond. lia.
Qed.

Lemma merged_swap (m r1 r2 : list (Z * A)) : sorted m -> sorted r1 -> sorted r2 -> (forall v w, v ∈ r1 -> w ∈ r2 -> fst w < fst v) ->
  merged (merged m r1) r2 = merged (merged m r2) r1.
Proof.
  intros Hm H1 H2 Hlt. pose proof (merged_spec m r1 Hm H1) as (Hs1 & _ & E1). pose proof (merged_spec m r2 Hm H2) as (Hs2 & _ & E2).
  apply sorted_ext; [by apply merged_spec..|]. rewrite (proj2 (proj2 (merged_spec _ r2 Hs1 H2))), (proj2 (proj2 (merged_spec _ r1 Hs2 H1))), E1, E2.
  rewrite !map_union_assoc. f_equal. apply map_union_comm. apply series_disjoint. intros v w Hv Hw. by apply (Hlt w v).
Qed.

Lemma overlay_swaps l bs : Forall source_ok l -> rtc (GoSort.swap_step Less) (fst <$> l) bs ->
  exists l', bs = fst <$> l' /\ l' ≡ₚ l /\ overlay l' = overlay l.
Proof.
  intros Hl Hr. remember (fst <$> l) as bs0 eqn:E. revert l Hl E.
  induction Hr as [bs|bs b1 b2 (k1 & x & y & k2 & E1 & E2 & Hless) _ IH]; intros l Hl E; [by exists l|].
  rewrite E1 in E. symmetry in E. apply fmap_app_inv in E as (l1 & l2 & -> & E3 & ->).
  symmetry in E3. apply fmap_cons_inv in E3 as (u & l3 & -> & E4 & ->). symmetry in E4. apply fmap_cons_inv in E4 as (w & l4 & -> & -> & ->).
  destruct (IH (l1 ++ w :: u :: l4)) as (l' & -> & Hp & Ho).
  - by rewrite (perm_swap u w).
  - by rewrite E2, fmap_app.
  - exists l'. split_and!; [done|by rewrite Hp, (perm_swap u w)|]. rewrite Ho. unfold overlay. rewrite !fmap_app, !fmap_cons, !foldl_app.
    cbn [foldl]. f_equal. apply Forall_app in Hl as [Hl1 [Hu [Hw _]%Forall_cons]%Forall_cons]. rewrite Forall_forall in Hl1.
    symmetry. apply merged_swap; [|by apply live_rows_sorted..|].
    + apply fold_sorted; [|constructor]. intros z Hz. by apply live_rows_sorted, Hl1.
    + intros v z Hv Hz. pose proof (live_bounds u Hu v Hv). pose proof (live_bounds w Hw z Hz). unfold Less in Hless.
      rewrite (so_key _ Hu), (so_key _ Hw), Compare_refl in Hless. cbn [Z.eqb] in Hless. apply andb_true_iff in Hless as [_ Hless%Z.ltb_lt]. lia.
Qed.

Lemma source_late x : source_ok x -> MinInt64 - 1 < minTime (fst x).
Proof. intros Hx. destruct (so_i64 _ Hx) as [H _]. unfold is_i64, MinInt64 in *. lia. Qed.
End sources.

Lemma Less_asym a b : Less a b = true -> Less b a = false.
Proof.
  unfold Less. rewrite (Compare_swap (key a) (key b)). destruct (Z.eqb_spec (Compare (key a) (key b)) 0) as [E|E].
  - rewrite E. cbn [Z.opp Z.eqb]. rewrite !andb_true_iff, !Z.ltb_lt. intros [H1 H2]. apply andb_false_iff. rewrite !Z.ltb_ge. lia.
  - rewrite (proj2 (Z.eqb_neq (- _) 0)) by lia. rewrite Z.ltb_lt, Z.ltb_ge. lia.
Qed.

(** What the merge needs of the sort: on the lists where [sort.Stable] can be relied on with
    this [Less], neighbours are exchanged only when the later is less, and the result is in
    order. *)
Definition stable_sort (stable : list block -> list block) : Prop :=
  forall bs, sortable bs -> rtc (GoSort.swap_step Less) bs (stable bs) /\ ascending (stable bs).

Lemma Stable_sort : stable_sort (GoSort.Stable Less).
Proof. intros bs. apply GoSort.Stable_ok, Less_asym. Qed.

Lemma stable_keeps stable bs : stable_sort stable -> sortable bs -> ascending bs -> stable bs = bs.
Proof. intros Hs Hb Ha. by apply (GoSort.ascending_stays Less), Hs. Qed.

Lemma sortable_one b : sortable [b].
Proof. left. cbn. unfold GoSort.blockSize. lia. Qed.

Lemma sortable_two b1 b2 : sortable [b1; b2].
Proof. left. cbn. unfold GoSort.blockSize. lia. Qed.

(** Blocks of a key of which those that overlap the same block overlap each other, as they
    do when the files they are from hold times apart: [Less] is a strict weak order. *)
Definition overlap (a b : block) : Prop := minTime a <= maxTime b /\ minTime b <= maxTime a.
Definition clustered (bs : list block) : Prop :=
  forall a b c, a ∈ bs -> b ∈ bs -> c ∈ bs -> overlap a b -> overlap b c -> overlap a c.

Lemma clustered_sortable k bs : Forall (fun b => key b = k /\ minTime b <= maxTime b) bs -> clustered bs -> sortable bs.
Proof.
  intros Hk Hc. rewrite Forall_forall in Hk. right. intros a b c Ha Hb Hx. destruct (Hk a Ha) as [Ka Ta], (Hk b Hb) as [Kb Tb], (Hk c Hx) as [Kc Tc].
  specialize (Hc a b c Ha Hb Hx). unfold overlap, Less in *. rewrite Ka, Kb, Kc, Compare_refl. cbn [Z.eqb]. rewrite !andb_false_iff, !Z.ltb_ge. lia.
Qed.

End MergeLaws.
