(* ===== verification/BatchIter.v ===== *)
(** The iterator of a compaction over several data files:
    src/storage/compactor/iterator_batch_key.go, over the merging of MergeBlocks.v.

    What it needs of the iterator over one file is the class [BlockSource], which the
    [BlockIterator] of SSTReader.v implements. *)
From stdpp Require Import gmap sorting.
From S2P Require Import Prelude StringCodec ArrayValues Block Bytes Util IndirectIndex VFile VFileManager SSTReader MergeBlocks.
Import ArrayValues Util MergeBlocks.

Module BatchIter.

(** ** The iterator over the blocks of one file *)
Class BlockSource (S : Type) := {
  src_Next : S -> outcome (S * bool);
  src_Read : S -> S * outcome (list Z * Z * Z * Z * Z * list Z);
  src_PeekNext : S -> outcome (list Z);
  src_Err : S -> option string;
  src_TombstoneRange : S -> list Z -> list TimeRange;
  src_IndexSize : S -> Z }.

#[global] Instance file_source : BlockSource (SSTReader.SSTReader * SSTReader.BlockIterator) := {
  src_Next '(t, b) := '(b, more) ← SSTReader.Next t b; Ok ((t, b), more);
  src_Read '(t, b) := let '(b, r) := SSTReader.iter_Read t b in ((t, b), r);
  src_PeekNext '(t, b) := SSTReader.PeekNext t b;
  src_Err '(t, b) := SSTReader.b_err b;
  src_TombstoneRange '(t, b) k := SSTReader.reader_TombstoneRange t k;
  src_IndexSize '(t, b) := SSTReader.IndexSize t }.

Section Iterator.
Context (stable : list block -> list block) (sn : StringCodec.snappy).
Context {S : Type} {Src : BlockSource S}.

(** What stays as it is during an iteration. *)
Record config := MkConfig {
  c_size : nat; c_fast : bool; c_maxErrors : nat; c_vr : VFileManager.VFileRegionManager; c_threshold : Z; sstFiles : list (list Z) }.
Context (cf : config).

Record sstBatchKeyIterator := MkIt {
  iterators : list S; buf : list (list block); blocks : list block; merged : list block;
  mergedFloatValues : Array Z; mergedIntegerValues : Array Z; mergedUnsignedValues : Array Z;
  mergedBooleanValues : Array bool; mergedStringValues : Array (list Z);
  it_key : list Z; it_typ : Z; currentSst : list Z; errs : errors }.

Definition NewSSTBatchKeyIterator (readers : list S) : sstBatchKeyIterator :=
  MkIt readers (replicate (length readers) []) [] [] empty empty empty empty empty [] 0 [] (MkErrors [] 0).

Definition hasMergedValues (it : sstBatchKeyIterator) : bool :=
  bool_decide (0 < Len (mergedFloatValues it))%nat || bool_decide (0 < Len (mergedIntegerValues it))%nat ||
  bool_decide (0 < Len (mergedUnsignedValues it))%nat || bool_decide (0 < Len (mergedStringValues it))%nat ||
  bool_decide (0 < Len (mergedBooleanValues it))%nat.

(** The sum is of [uint32]s; without readers the division panics. *)
Definition EstimatedIndexSize (it : sstBatchKeyIterator) : outcome Z :=
  let sum := foldl (fun n r => (n + src_IndexSize r) mod 2 ^ 32) 0 (iterators it) in
  if bool_decide (iterators it = []) then Panic else Ok (sum / Z.of_nat (length (iterators it))).

Definition with_it_merged (it : sstBatchKeyIterator) (m : list block) : sstBatchKeyIterator :=
  MkIt (iterators it) (buf it) (blocks it) m (mergedFloatValues it) (mergedIntegerValues it) (mergedUnsignedValues it)
    (mergedBooleanValues it) (mergedStringValues it) (it_key it) (it_typ it) (currentSst it) (errs it).

Definition settings_of (it : sstBatchKeyIterator) : settings :=
  MkSettings (c_size cf) (c_threshold cf) (c_fast cf) (c_maxErrors cf) (c_vr cf) (it_key it) (currentSst it).

(** ** [merge]: by the type of the key *)
Definition run_of {A} (it : sstBatchKeyIterator) (v : Array A) : run A :=
  MkRun (blocks it) (merged it) v (mergedFloatValues it) (errs it).

Definition merge_it (fuel : nat) (it : sstBatchKeyIterator) : outcome sstBatchKeyIterator :=
  let st := settings_of it in
  let ty := Block.GetBaseType (it_typ it) in
  if ty =? Block.BlockFloat64 then
    r ← mergeFloat stable st fuel (run_of it (mergedFloatValues it));
    Ok (MkIt (iterators it) (buf it) (r_blocks r) (r_merged r) (r_values r) (mergedIntegerValues it) (mergedUnsignedValues it)
      (mergedBooleanValues it) (mergedStringValues it) (it_key it) (it_typ it) (currentSst it) (r_errs r))
  else if ty =? Block.BlockInteger then
    r ← mergeInteger stable st fuel (run_of it (mergedIntegerValues it));
    Ok (MkIt (iterators it) (buf it) (r_blocks r) (r_merged r) (r_floats r) (r_values r) (mergedUnsignedValues it)
      (mergedBooleanValues it) (mergedStringValues it) (it_key it) (it_typ it) (currentSst it) (r_errs r))
  else if ty =? Block.BlockUnsigned then
    r ← mergeUnsigned stable st fuel (run_of it (mergedUnsignedValues it));
    Ok (MkIt (iterators it) (buf it) (r_blocks r) (r_merged r) (r_floats r) (mergedIntegerValues it) (r_values r)
      (mergedBooleanValues it) (mergedStringValues it) (it_key it) (it_typ it) (currentSst it) (r_errs r))
  else if ty =? Block.BlockBoolean then
    r ← mergeBoolean stable st fuel (run_of it (mergedBooleanValues it));
    Ok (MkIt (iterators it) (buf it) (r_blocks r) (r_merged r) (r_floats r) (mergedIntegerValues it) (mergedUnsignedValues it)
      (r_values r) (mergedStringValues it) (it_key it) (it_typ it) (currentSst it) (r_errs r))
  else if ty =? Block.BlockString then
    r ← mergeString stable sn st fuel (run_of it (mergedStringValues it));
    Ok (MkIt (iterators it) (buf it) (r_blocks r) (r_merged r) (r_floats r) (mergedIntegerValues it) (mergedUnsignedValues it)
      (mergedBooleanValues it) (r_values r) (it_key it) (it_typ it) (currentSst it) (r_errs r))
  else
    Ok (MkIt (iterators it) (buf it) (blocks it) (merged it) (mergedFloatValues it) (mergedIntegerValues it) (mergedUnsignedValues it)
      (mergedBooleanValues it) (mergedStringValues it) (it_key it) (it_typ it) (currentSst it)
      (add_error (c_maxErrors cf) (errs it) (ErrBlockRead (currentSst it) (UnknownType (it_typ it))))).

(** ** Filling the buffers *)

(** The block [Read] gives, and its error; a failed read gives a block of zero values. *)
Definition next_block (s : S) : outcome (S * block * option string) :=
  let '(s, r) := src_Read s in
  match r with
  | Ok (key, minT, maxT, ty, _, b) => Ok (s, MkBlock key minT maxT ty b (src_TombstoneRange s key) MaxInt64 MinInt64, None)
  | Err e => Ok (s, MkBlock [] 0 0 0 [] (src_TombstoneRange s []) MaxInt64 MinInt64, Some e)
  | Panic => Panic
  end.

Definition error_of (e : option string) : list string := match e with Some e => [e] | None => [] end.

(** The other blocks of the key that was read. *)
Fixpoint same_key (fuel : nat) (k : list Z) (s : S) : outcome (S * list block * list string) :=
  match fuel with
  | O => Err no_fuel
  | Datatypes.S fuel =>
      next ← src_PeekNext s;
      if bool_decide (next = k) then
        '(s, _) ← src_Next s;
        '(s, b, e) ← next_block s;
        '(s, bs, es) ← same_key fuel k s;
        Ok (s, b :: bs, error_of e ++ es)
      else Ok (s, [], [])
  end.

(** The blocks of the next key of a file. *)
Definition fill (fuel : nat) (s : S) : outcome (S * list block * list string) :=
  '(s, more) ← src_Next s;
  '(s, bs, es) ← (if more : bool then
                    '(s, b, e) ← next_block s;
                    '(s, bs, es) ← same_key fuel (key b) s;
                    Ok (s, b :: bs, error_of e ++ es)
                  else Ok (s, [], []));
  Ok (s, bs, es ++ error_of (src_Err s)).

(** Every empty buffer is filled; [currentSst] is the file last looked at. *)
Fixpoint fill_all (fuel : nat) (ss : list S) (bufs : list (list block)) (files : list (list Z)) (cur : list Z) (es : errors) :
    outcome (list S * list (list block) * list Z * errors) :=
  match ss, bufs, files with
  | s :: ss, b :: bufs, f :: files =>
      '(s, b, cur, es) ← (if bool_decide (length b = 0)%nat then
                            '(s, b, new) ← fill fuel s;
                            Ok (s, b, f, foldl (fun es e => add_error (c_maxErrors cf) es (ErrBlockRead f (Plain e))) es new)
                          else Ok (s, b, cur, es));
      '(ss, bufs, cur, es) ← fill_all fuel ss bufs files cur es;
      Ok (s :: ss, b :: bufs, cur, es)
  | [], [], _ => Ok ([], [], cur, es)
  | _, _, _ => Panic
  end.

(** The smallest key at hand, and its type. *)
Definition min_step (k : list Z * Z) (b : list block) : list Z * Z :=
  match b with
  | [] => k
  | b0 :: _ => if bool_decide (length (fst k) = 0)%nat || (Compare (key b0) (fst k) <? 0) then (key b0, typ b0) else k
  end.
Definition min_key (bufs : list (list block)) : list Z * Z := foldl min_step ([], 0) bufs.

Definition has_key (k : list Z) (b : list block) : bool :=
  match b with [] => false | b0 :: _ => bool_decide (key b0 = k) end.
Definition taken (k : list Z) (bufs : list (list block)) : list block := concat (List.filter (has_key k) bufs).
Definition kept (k : list Z) (bufs : list (list block)) : list (list block) := (fun b => if has_key k b then [] else b) <$> bufs.

(** ** [Next] *)
Definition some_left (it : sstBatchKeyIterator) : bool := bool_decide (0 < length (merged it))%nat || hasMergedValues it.

(** Reading on: the blocks of the smallest key at hand.

    Blocks that are still there were left by an error.  The buffers use their objects again
    for the blocks they are filled with, so what is left is overwritten: the model ends there,
    and goes on only where no buffer was filled. *)
Definition left_over : string := "blocks left by an error are overwritten".
Definition refilled (old new : list (list block)) : bool :=
  existsb (fun p => bool_decide (fst p = []) && bool_decide (0 < length (snd p))%nat) (zip old new).
Definition read_on (fuel : nat) (it : sstBatchKeyIterator) : outcome sstBatchKeyIterator :=
  '(ss, bufs, cur, es) ← fill_all fuel (iterators it) (buf it) (sstFiles cf) (currentSst it) (errs it);
  if bool_decide (0 < length (blocks it))%nat && refilled (buf it) bufs then Err left_over else
  let '(k, ty) := min_key bufs in
  Ok (MkIt ss (kept k bufs) (blocks it ++ taken k bufs) (merged it) (mergedFloatValues it) (mergedIntegerValues it)
    (mergedUnsignedValues it) (mergedBooleanValues it) (mergedStringValues it) k ty cur es).

(** [merge], where there is something to merge; whether [Next] is done. *)
Definition try_merge (fuel : nat) (cond : bool) (it : sstBatchKeyIterator) : outcome (sstBatchKeyIterator * bool) :=
  if cond then it ← merge_it fuel it; Ok (it, some_left it) else Ok (it, false).

(** A round of [RETRY] for every key of which all values are deleted. *)
Fixpoint Next (fuel : nat) (it : sstBatchKeyIterator) : outcome (sstBatchKeyIterator * bool) :=
  match fuel with
  | O => Err no_fuel
  | Datatypes.S fuel' =>
      let it := with_it_merged it (drop 1 (merged it)) in
      if bool_decide (0 < length (merged it))%nat then Ok (it, true) else
      '(it, found) ← try_merge fuel' (hasMergedValues it) it;
      if found : bool then Ok (it, true) else
      '(it, found) ← try_merge fuel' (bool_decide (0 < length (blocks it))%nat) it;
      if found : bool then Ok (it, true) else
      it ← read_on fuel' it;
      if bool_decide (length (blocks it) = 0)%nat then Ok (it, false) else
      it ← merge_it fuel' it;
      if bool_decide (length (merged it) = 0)%nat then Next fuel' it else Ok (it, true)
  end.

(** ** [Read] and [Err] *)

(** The errors kept, and how many more there were. *)
Definition it_Err (it : sstBatchKeyIterator) : option (list iter_error * Z) :=
  match saved (errs it) with [] => None | es => Some (es, overflow (errs it)) end.

Inductive read_error := ErrCompactionAborted | IterErrors (es : list iter_error) (dropped : Z).
Definition it_Read (interrupted : bool) (it : sstBatchKeyIterator) : list Z * Z * Z * list Z * option read_error :=
  if interrupted then ([], 0, 0, [], Some ErrCompactionAborted) else
  let e := (fun p => IterErrors (fst p) (snd p)) <$> it_Err it in
  match merged it with
  | [] => ([], 0, 0, [], e)
  | b :: _ => (key b, minTime b, maxTime b, data b, e)
  end.
End Iterator.
Arguments MkIt {S}.
Arguments sstBatchKeyIterator : clear implicits.

End BatchIter.
