(* ===== verification/BatchLaws.v ===== *)
(** What a compaction reads: the laws of BatchIter.v. *)
From stdpp Require Import gmap sorting relations.
From S2P Require Import Prelude StringCodec Values ArrayValues Block Bytes Util VFile VFileManager GoSort MergeBlocks MergeLaws BatchIter.
Import Values ArrayValues Util MergeBlocks MergeLaws BatchIter.

Module BatchLaws.

#[local] Existing Instance row_value.

(** ** The five types, each with its array of the iterator *)
Inductive channel := CFloat | CInteger | CUnsigned | CBoolean | CString.

Definition value_of (c : channel) : Type :=
  match c with CBoolean => bool | CString => list Z | _ => Z end.

Section channels.
Context (stable : list block -> list block) (sn : StringCodec.snappy).
Context {S : Type} {Src : BlockSource S} (cf : config).
Abbreviation iter := (sstBatchKeyIterator S).

Definition ops_of (c : channel) : ops (value_of c) :=
  match c with
  | CFloat => float_ops | CInteger => integer_ops | CUnsigned => unsigned_ops | CBoolean => boolean_ops | CString => string_ops sn
  end.
Definition ptr_chunk_of (c : channel) : settings -> run (value_of c) -> list block -> outcome (run (value_of c) * list block) :=
  match c with CFloat => chunkFloat | _ => chunk_floats end.
Definition type_of (c : channel) : Z :=
  match c with
  | CFloat => Block.BlockFloat64 | CInteger => Block.BlockInteger | CUnsigned => Block.BlockUnsigned
  | CBoolean => Block.BlockBoolean | CString => Block.BlockString
  end.

Abbreviation arrays := (Array Z * Array Z * Array Z * Array bool * Array (list Z))%type.
Definition arrays_of (it : iter) : arrays :=
  (mergedFloatValues it, mergedIntegerValues it, mergedUnsignedValues it, mergedBooleanValues it, mergedStringValues it).
Definition only (c : channel) : Array (value_of c) -> arrays :=
  match c with
  | CFloat => fun v => (v, empty, empty, empty, empty)
  | CInteger => fun v => (empty, v, empty, empty, empty)
  | CUnsigned => fun v => (empty, empty, v, empty, empty)
  | CBoolean => fun v => (empty, empty, empty, v, empty)
  | CString => fun v => (empty, empty, empty, empty, v)
  end.
Definition set_it (it : iter) (bs ms : list block) (a : arrays) (es : errors) : iter :=
  let '(f, i, u, b, s) := a in
  MkIt (iterators it) (buf it) bs ms f i u b s (it_key it) (it_typ it) (currentSst it) es.

Lemma has_values it c v : arrays_of it = only c v -> hasMergedValues it = bool_decide (0 < Len v)%nat.
Proof.
  assert (forall A, bool_decide (0 < Len (@empty A))%nat = false) as He by done.
  destruct c; intros [= H1 H2 H3 H4 H5]; unfold hasMergedValues; rewrite H1, H2, H3, H4, H5, !He, ?orb_false_r; done.
Qed.

(** [merge] of the iterator is the one of the channel. *)
Lemma merge_channel fuel it c (v : Array (value_of c)) r :
  arrays_of it = only c v -> Block.GetBaseType (it_typ it) = type_of c ->
  merge stable (ops_of c) (ptr_chunk_of c) (settings_of cf it) fuel (run_of it v) = Ok r -> r_floats r = mergedFloatValues it ->
  merge_it stable sn cf fuel it = Ok (set_it it (r_blocks r) (r_merged r) (only c (r_values r)) (r_errs r)).
Proof.
  intros Ha Ht Hm Hf. unfold merge_it. rewrite Ht.
  destruct c; injection Ha as H1 H2 H3 H4 H5;
    cbn [type_of Block.BlockFloat64 Block.BlockInteger Block.BlockUnsigned Block.BlockBoolean Block.BlockString Z.eqb Pos.eqb ops_of ptr_chunk_of value_of] in *;
    unfold mergeFloat, mergeInteger, mergeUnsigned, mergeBoolean, mergeString;
    rewrite ?H1, ?H2, ?H3, ?H4, ?H5 in *; rewrite Hm; cbn [mbind outcome_bind]; rewrite ?Hf; done.
Qed.

(** ** Giving out blocks

    [for iter.Next() { iter.Read() }]: the blocks given from a state on, without an error. *)
Section giving.
Context (F : nat).

Definition Next_ := Next stable sn cf F.

Inductive gives : iter -> list block -> Prop :=
| gives_end it it' : Next_ it = Ok (it', false) -> it_Err it' = None -> gives it []
| gives_block it it' b bs : Next_ it = Ok (it', true) -> it_Read false it' = (key b, minTime b, maxTime b, data b, None) ->
    gives it' bs -> gives it (b :: bs).

Lemma gives_same it it' bs : Next_ it = Next_ it' -> gives it' bs -> gives it bs.
Proof. intros E H. inversion H; subst; econstructor; (done || by rewrite E). Qed.

Definition no_errors (it : iter) : Prop := saved (errs it) = [].

Lemma Read_first (it : iter) b ms : no_errors it -> merged it = b :: ms -> it_Read false it = (key b, minTime b, maxTime b, data b, None).
Proof. intros He Hm. unfold it_Read, it_Err. by rewrite He, Hm. Qed.

Lemma with_merged_same (it : iter) : with_it_merged it (merged it) = it.
Proof. by destruct it. Qed.

Lemma Next_last it b : Next_ (with_it_merged it [b]) = Next_ (with_it_merged it []).
Proof. unfold Next_. by destruct F. Qed.

(** The blocks merged are given one after another. *)
Lemma gives_merged ms : forall (it : iter) b bs, (0 < F)%nat -> no_errors it -> merged it = b :: ms ->
  gives (with_it_merged it []) bs -> gives it (ms ++ bs).
Proof.
  induction ms as [|b1 ms IH]; intros it b bs HF He Hm Hg.
  - apply (gives_same _ (with_it_merged it [])); [|done]. rewrite <- (Next_last it b), <- Hm. by destruct it.
  - cbn [app]. apply (gives_block _ (with_it_merged it (b1 :: ms))).
    + unfold Next_. destruct F as [|f]; [lia|]. cbn [Next]. rewrite Hm. done.
    + by apply (Read_first _ _ ms).
    + by apply (IH _ b1).
Qed.

(** ** The blocks of one key *)
Section keys.
Context (Hstable : stable_sort stable) (codable : forall c, list (Z * value_of c) -> Prop).
Context (Hcod : forall c (it : iter) rs, codable c rs -> rs <> [] ->
  exists cb, encode (ops_of c) (cols rs) = Ok cb /\ load (ops_of c) (settings_of cf it) cb = Ok (cols rs) /\ Block.IsPtrBlock cb = Ok false).
Context (Hcut : forall c r1 r2, codable c (r1 ++ r2) -> codable c r1 /\ codable c r2).
Context (Hsize : (0 < c_size cf)%nat).

Definition nothing : arrays := only CFloat empty.
Definition rest_of (it : iter) : iter := set_it it [] [] nothing (errs it).

Lemma only_empty c : only c (cols []) = nothing.
Proof. by destruct c. Qed.

Lemma set_it_fields it bs ms a es :
  let it' := set_it it bs ms a es in
  iterators it' = iterators it /\ buf it' = buf it /\ blocks it' = bs /\ merged it' = ms /\ arrays_of it' = a /\ errs it' = es /\
  it_typ it' = it_typ it /\ settings_of cf it' = settings_of cf it /\ with_it_merged it' [] = set_it it bs [] a es /\
  (es = errs it -> rest_of it' = rest_of it).
Proof. destruct a as [[[[f i] u] b] s]. cbn. split_and!; try done. by intros ->. Qed.

Lemma set_it_self it : set_it it (blocks it) (merged it) (arrays_of it) (errs it) = it.
Proof. by destruct it. Qed.

(** Between two merges of the blocks of a key. *)
Abbreviation marked t l := (mark t <$> l).
Record busy (it : iter) (c : channel) (t : Z) (l : list (block * list (Z * value_of c))) (m : list (Z * value_of c)) : Prop := {
  b_arrays : arrays_of it = only c (cols m);
  b_type : Block.GetBaseType (it_typ it) = type_of c;
  b_between : between (ops_of c) (settings_of cf it) (codable c) t l m (run_of (with_it_merged it []) (cols m)) }.

Lemma merge_busy fuel it c t l m : (length l < fuel)%nat -> merged it = [] -> busy it c t l m -> (l <> [] \/ m <> []) ->
  exists (outs : list (block * list (Z * value_of c))) t' p q m',
    let it' := set_it it (marked t' q) (fst <$> outs) (only c (cols m')) (errs it) in
    merge_it stable sn cf fuel it = Ok it' /\ l = p ++ q /\ busy (with_it_merged it' []) c t' q m' /\
    m ++ pend t l = concat (snd <$> outs) ++ m' ++ pend t' q /\
    Forall (given (ops_of c) (settings_of cf it) l) outs /\ (outs = [] -> m' = [] /\ q = []).
Proof.
  intros Hf Hm [Ha Ht Hb] Hne. assert (with_it_merged it [] = it) as Hit by (rewrite <- Hm; apply with_merged_same). rewrite Hit in Hb.
  destruct (merge_once (ops_of c) (settings_of cf it) (codable c) (Hcod c it) (Hcut c) Hsize stable (fun bs => stable_keeps _ bs Hstable) (ptr_chunk_of c)
    fuel t l m _ Hf Hb Hne) as (outs & t' & p & q & m' & r' & E & El & Hb' & Hm' & Hfl & He & Hc & Hg & Hnil).
  exists outs, t', p, q, m'. intros it'.
  assert (r_blocks r' = marked t' q /\ r_values r' = cols m') as [Hbl Hv].
  { destruct Hb'. cbn in *. done. }
  split_and!; [|done| |done|done|done].
  - unfold it'. rewrite <- Hbl, <- Hm', <- Hv. rewrite (merge_channel fuel it c _ r' Ha Ht E Hfl). by rewrite He.
  - pose proof (set_it_fields it (marked t' q) (fst <$> outs) (only c (cols m')) (errs it)) as (H1 & H2 & H3 & H4 & H5 & H6 & H7 & H8 & H9 & _).
    fold it' in H1, H2, H3, H4, H5, H6, H7, H8, H9. rewrite H9.
    pose proof (set_it_fields it (marked t' q) [] (only c (cols m')) (errs it)) as (G1 & G2 & G3 & G4 & G5 & G6 & G7 & G8 & G9 & _).
    constructor; [done|by rewrite G7|]. rewrite G8, G9. destruct Hb'. by constructor.
Qed.

(** [Next] when the blocks given are done: values first, then blocks, then reading on. *)
Lemma Next_idle f it : merged it = [] ->
  Next stable sn cf (Datatypes.S f) it =
    ('(it, found) ← try_merge stable sn cf f (hasMergedValues it) it;
     if found : bool then Ok (it, true) else
     '(it, found) ← try_merge stable sn cf f (bool_decide (0 < length (blocks it))%nat) it;
     if found : bool then Ok (it, true) else
     it ← read_on cf f it;
     if bool_decide (length (blocks it) = 0)%nat then Ok (it, false) else
     it ← merge_it stable sn cf f it;
     if bool_decide (length (merged it) = 0)%nat then Next stable sn cf f it else Ok (it, true)).
Proof. intros Hm. cbn [Next]. rewrite Hm. cbn [drop]. assert (with_it_merged it [] = it) as -> by (rewrite <- Hm; apply with_merged_same). by rewrite Hm. Qed.

Lemma some_left_merged (it : iter) : merged it <> [] -> some_left it = true.
Proof. intros Hm. unfold some_left. rewrite bool_decide_true; [done|]. destruct (merged it); [done|cbn; lia]. Qed.

Lemma Next_busy f it c t l m : F = Datatypes.S f -> (length l < f)%nat -> merged it = [] -> busy it c t l m -> (l <> [] \/ m <> []) ->
  exists (outs : list (block * list (Z * value_of c))) t' p q m',
    let it' := set_it it (marked t' q) (fst <$> outs) (only c (cols m')) (errs it) in
    Next_ it = (match outs with [] => Next_ (rest_of it) | _ => Ok (it', true) end) /\
    l = p ++ q /\ busy (with_it_merged it' []) c t' q m' /\
    m ++ pend t l = concat (snd <$> outs) ++ m' ++ pend t' q /\
    Forall (given (ops_of c) (settings_of cf it) l) outs /\ (outs = [] -> m' = [] /\ q = []).
Proof.
  intros HF Hf Hm Hb Hne. destruct (merge_busy f it c t l m Hf Hm Hb Hne) as (outs & t' & p & q & m' & E & El & Hb' & Hc & Hg & Hnil).
  exists outs, t', p, q, m'. split; [|done]. clear Hb'.
  set (it' := set_it it (marked t' q) (fst <$> outs) (only c (cols m')) (errs it)) in *.
  pose proof (set_it_fields it (marked t' q) (fst <$> outs) (only c (cols m')) (errs it)) as (_ & _ & _ & Hm' & _ & _).
  fold it' in Hm'. unfold Next_. rewrite HF, Next_idle by done. rewrite (has_values it c _ (b_arrays _ _ _ _ _ Hb)), Len_cols.
  assert (try_merge stable sn cf f true it = Ok (it', some_left it')) as Etry by (unfold try_merge; by rewrite E).
  assert (try_merge stable sn cf f false it = Ok (it, false)) as Hno by done.
  assert (blocks it = marked t l) as Hbl by by destruct (b_between _ _ _ _ _ Hb).
  destruct outs as [|x outs].
  - destruct (Hnil eq_refl) as [-> ->].
    assert (m = []) as ->. { cbn in Hc. apply app_nil in Hc as [-> _]. done. }
    assert (it' = rest_of it) as Er by (unfold it', rest_of; by rewrite only_empty).
    change (bool_decide (0 < length [])%nat) with false. rewrite Hno. cbn [mbind outcome_bind]. rewrite Hbl, length_fmap.
    rewrite bool_decide_true by (destruct Hne; [destruct l; [done|cbn; lia]|done]). rewrite Etry, Er. cbn [mbind outcome_bind].
    assert (some_left (rest_of it) = false) as -> by done. rewrite Next_idle by done. done.
  - assert (some_left it' = true) as Hsome by (apply some_left_merged; rewrite Hm'; done).
    destruct (bool_decide (0 < length m)%nat) eqn:Em.
    + rewrite Etry, Hsome. done.
    + rewrite Hno. cbn [mbind outcome_bind]. rewrite Hbl, length_fmap. apply bool_decide_eq_false in Em.
      assert (m = []) as -> by (destruct m; [done|cbn in Em; lia]).
      rewrite bool_decide_true by (destruct Hne; [destruct l; [done|cbn; lia]|done]). rewrite Etry, Hsome. done.
Qed.

(** What is left of a key is given in order, in blocks that can be read. *)
Lemma gives_key bs : forall n it c t l m, (length (m ++ pend t l) <= n)%nat -> (Datatypes.S (length l) < F)%nat -> no_errors it ->
  merged it = [] -> busy it c t l m -> gives (rest_of it) bs ->
  exists gs : list (block * list (Z * value_of c)), Forall (given (ops_of c) (settings_of cf it) l) gs /\
    concat (snd <$> gs) = m ++ pend t l /\ gives it ((fst <$> gs) ++ bs).
Proof.
  induction n as [n IH] using lt_wf_ind. intros it c t l m Hn HF He Hm Hb Hrest.
  destruct (decide (l = [] /\ m = [])) as [[-> ->]|Hne].
  { exists []. split_and!; [constructor|done|]. cbn [fmap list_fmap app].
    assert (it = rest_of it) as ->; [|done]. destruct Hb as [Ha _ Hbt]. destruct Hbt. unfold rest_of. rewrite <- (set_it_self it) at 1.
    rewrite Ha, Hm, only_empty. f_equal. done. }
  destruct F as [|f] eqn:EF; [lia|]. rewrite <- EF in *.
  destruct (Next_busy f it c t l m EF) as (outs & t' & p & q & m' & E & El & Hb' & Hc & Hg & Hnil); [lia|done|done| |].
  { destruct l; [right; intros ->; by apply Hne|by left]. }
  set (it' := set_it it (marked t' q) (fst <$> outs) (only c (cols m')) (errs it)) in *.
  destruct outs as [|x outs].
  - destruct (Hnil eq_refl) as [-> ->]. exists []. rewrite Hc. split_and!; [constructor|done|]. by apply (gives_same _ (rest_of it)).
  - pose proof (set_it_fields it (marked t' q) (fst <$> x :: outs) (only c (cols m')) (errs it)) as (_ & _ & _ & Hm' & _ & He' & _ & Hs' & _ & Hr').
    fold it' in Hm', He', Hs', Hr'. specialize (Hr' eq_refl).
    destruct (IH (length (m' ++ pend t' q)) ltac:(rewrite Hc, length_app in Hn; cbn [fmap list_fmap concat] in Hn;
        apply Forall_inv, given_nonempty in Hg; destruct (snd x); [done|cbn in Hn; lia]) (with_it_merged it' []) c t' q m') as (gs & Hgs & Ec & Hgive).
    + done.
    + rewrite El, length_app in HF. lia.
    + unfold no_errors in *. cbn. by rewrite He'.
    + done.
    + done.
    + assert (rest_of (with_it_merged it' []) = rest_of it') as -> by done. by rewrite Hr'.
    + assert (settings_of cf (with_it_merged it' []) = settings_of cf it) as Hset by by rewrite <- Hs'. rewrite Hset in Hgs.
      exists ((x :: outs) ++ gs). split_and!.
      * apply Forall_app. split; [done|]. eapply Forall_impl; [exact Hgs|]. intros y. apply given_more. intros z Hz. rewrite El. by apply elem_of_app; right.
      * by rewrite fmap_app, concat_app, Ec, Hc.
      * rewrite fmap_app, <- app_assoc. cbn [fmap list_fmap app]. apply (gives_block _ it'); [done| |].
        -- apply (Read_first _ _ (fst <$> outs)); [|by rewrite Hm']. unfold no_errors in *. by rewrite He'.
        -- apply (gives_merged _ _ (fst x)); [lia| |by rewrite Hm'|done]. unfold no_errors in *. by rewrite He'.
Qed.


(** ** The first merge of a key *)

Definition key_settings (k : list Z) : settings :=
  MkSettings (c_size cf) (c_threshold cf) (c_fast cf) (c_maxErrors cf) (c_vr cf) k [].

(** The blocks of a key, in the order of the files: all of one type, each with the rows it
    is read as and its span; no blocks of pointers, which make the merge loop for ever,
    unless merging is fast; and no more blocks than [sort.Stable] sorts by insertion, or
    blocks of which those that overlap the same block overlap each other. *)
Definition key_sources (c : channel) (k : list Z) (L : list (block * list (Z * value_of c))) : Prop :=
  Forall (source_ok (ops_of c) (key_settings k)) L /\ Forall block_wf L /\ (c_fast cf = true \/ Forall is_plain L) /\
  codable c (overlay L) /\ Forall (fun x => Block.GetBaseType (typ (fst x)) = type_of c) L /\
  ((length L <= GoSort.blockSize)%nat \/ clustered (fst <$> L)).
Definition key_ok (k : list Z) (bs : list block) : Prop := exists c L, bs = fst <$> L /\ key_sources c k L.

(** What is given of a key: the overlay of the files. *)
Definition key_out (k : list Z) (bs out : list block) : Prop :=
  exists c (L gs : list (block * list (Z * value_of c))), bs = fst <$> L /\ key_sources c k L /\ out = fst <$> gs /\
    Forall (given (ops_of c) (key_settings k) L) gs /\ concat (snd <$> gs) = overlay L.

Lemma key_sources_sortable c k L : key_sources c k L -> sortable (fst <$> L).
Proof.
  intros (Hok & _ & _ & _ & _ & [Hl|Hc]); [left; by rewrite length_fmap|]. apply (clustered_sortable k); [|done].
  apply Forall_fmap. eapply Forall_impl; [exact Hok|]. intros x Hx. split; [apply Hx|]. by eapply source_le.
Qed.

Lemma merge_sorted {A} (T : ops A) pc s fuel (r : run A) : r_blocks r <> [] -> sortable (r_blocks r) ->
  merge stable T pc s fuel r = merge stable T pc s fuel (with_blocks r (stable (r_blocks r))).
Proof.
  intros Hne Hs. destruct (Hstable _ Hs) as [Hp%GoSort.swaps_perm Ha].
  assert (stable (r_blocks r) <> []) as Hne' by (intros E; rewrite E in Hp; by apply Permutation_nil_r in Hp).
  unfold merge. cbn [r_blocks with_blocks].
  rewrite (bool_decide_false (length (r_blocks r) = 0)%nat), (bool_decide_false (length (stable (r_blocks r)) = 0)%nat)
    by (by intros ?%nil_length_inv). cbn [andb].
  rewrite (stable_keeps _ (stable (r_blocks r)) Hstable); [done| |done]. by eapply GoSort.sortable_perm.
Qed.

Lemma merge_it_sorted fuel (it : iter) c : Block.GetBaseType (it_typ it) = type_of c -> blocks it <> [] -> sortable (blocks it) ->
  merge_it stable sn cf fuel it = merge_it stable sn cf fuel (set_it it (stable (blocks it)) (merged it) (arrays_of it) (errs it)).
Proof.
  intros Ht Hne Hs. unfold merge_it, arrays_of, set_it. cbn [it_typ]. rewrite Ht.
  destruct c; cbn [type_of Block.BlockFloat64 Block.BlockInteger Block.BlockUnsigned Block.BlockBoolean Block.BlockString Z.eqb Pos.eqb];
    unfold mergeFloat, mergeInteger, mergeUnsigned, mergeBoolean, mergeString; rewrite merge_sorted by done; reflexivity.
Qed.

Lemma settings_sources (it : iter) c k L : it_key it = k -> Forall (source_ok (ops_of c) (key_settings k)) L ->
  Forall (source_ok (ops_of c) (settings_of cf it)) L.
Proof. intros Hk HL. eapply Forall_impl; [exact HL|]. intros x []. constructor; try done. cbn. by rewrite Hk. Qed.

Lemma first_merge fuel (it : iter) c L : (length L < fuel)%nat -> L <> [] -> blocks it = fst <$> L -> merged it = [] -> arrays_of it = nothing ->
  key_sources c (it_key it) L -> Block.GetBaseType (it_typ it) = type_of c ->
  exists (L' outs : list (block * list (Z * value_of c))) t q m',
    let it' := set_it it (marked t q) (fst <$> outs) (only c (cols m')) (errs it) in
    L' ≡ₚ L /\ merge_it stable sn cf fuel it = Ok it' /\ busy (with_it_merged it' []) c t q m' /\ (length q <= length L)%nat /\
    overlay L = concat (snd <$> outs) ++ m' ++ pend t q /\ (forall x, x ∈ q -> x ∈ L) /\
    Forall (given (ops_of c) (settings_of cf it) L) outs /\ (outs = [] -> m' = [] /\ q = []).
Proof.
  intros Hf HL Hbl Hm Ha Hks Ht. pose proof (key_sources_sortable _ _ _ Hks) as Hsort. destruct Hks as (Hok & Hw & Hp & Hcd & _). apply (settings_sources it) in Hok; [|done].
  destruct (overlay_swaps (ops_of c) (settings_of cf it) L (stable (fst <$> L)) Hok) as (L' & EL & Hperm & Ho).
  { by apply Hstable. }
  set (its := set_it it (stable (blocks it)) (merged it) (arrays_of it) (errs it)).
  assert (busy its c (MinInt64 - 1) L' []) as Hbusy.
  { pose proof (set_it_fields it (stable (blocks it)) (merged it) (arrays_of it) (errs it)) as (_ & _ & Hb' & _ & Ha' & _ & Ht' & Hs' & Hw' & _).
    fold its in Hb', Ha', Ht', Hs', Hw'. assert (Forall (source_ok (ops_of c) (settings_of cf it)) L') as Hok' by by rewrite Hperm.
    constructor; [by rewrite Ha', Ha, only_empty|by rewrite Ht'|]. rewrite Hs', Hw'. constructor; try done.
    - by rewrite Hperm.
    - destruct Hp as [|Hp]; [by left|right; by rewrite Hperm].
    - rewrite <- EL. by apply Hstable.
    - rewrite <- EL. eapply GoSort.sortable_perm; [|exact Hsort]. by apply (GoSort.swaps_perm Less), Hstable.
    - constructor.
    - cbn [app]. rewrite (overlay_pend (ops_of c) (settings_of cf it) _ _ Hok'); [by rewrite Ho|]. intros x Hx. rewrite Forall_forall in Hok'. by eapply source_late, Hok'.
    - cbn. rewrite Hbl, EL. symmetry. apply list_fmap_ext. intros i x Hx%list_elem_of_lookup_2. rewrite Forall_forall in Hok'.
      apply (mark_fresh (ops_of c) (settings_of cf it)); [by apply Hok'|]. by eapply source_late, Hok'. }
  destruct (merge_busy fuel its c _ L' [] ltac:(by rewrite Hperm) ltac:(by rewrite <- Hm) Hbusy) as (outs & t & p & q & m' & E & El & Hb2 & Hc & Hg & Hnil).
  { left. intros ->. symmetry in Hperm. apply Permutation_nil_r in Hperm. done. }
  exists L', outs, t, q, m'. intros it'. assert (set_it its (marked t q) (fst <$> outs) (only c (cols m')) (errs its) = it') as Eit by by destruct c.
  rewrite Eit in E, Hb2. split_and!; try done.
  - rewrite (merge_it_sorted fuel it c Ht); [done| |by rewrite Hbl]. rewrite Hbl. by intros ?%fmap_nil_inv.
  - rewrite <- Hperm, El, length_app. lia.
  - rewrite <- Hc. cbn [app]. rewrite <- Ho. symmetry. apply (overlay_pend (ops_of c) (settings_of cf it)); [by rewrite Hperm|].
    intros x Hx. rewrite Hperm in Hx. rewrite Forall_forall in Hok. by eapply source_late, Hok.
  - intros x Hx. rewrite <- Hperm, El. apply elem_of_app. by right.
  - eapply Forall_impl; [exact Hg|]. intros x. apply given_more. intros y. by rewrite Hperm.
Qed.

(** ** The files *)

(** What a file still gives: its keys with their blocks. *)
Abbreviation keyed := (list Z * list block)%type.
Definition keyed_ok (kb : keyed) : Prop := fst kb <> [] /\ snd kb <> [] /\ Forall (fun b => key b = fst kb) (snd kb).
Fixpoint streams (st : S) (w : list keyed) : Prop :=
  match w with
  | [] => exists st', (forall f, fill f st = Ok (st', [], [])) /\ (forall f, fill f st' = Ok (st', [], []))
  | kb :: w => exists st', (forall f, (length (snd kb) < f)%nat -> fill f st = Ok (st', snd kb, [])) /\ streams st' w
  end.

(** A file with its buffer, before and after it is filled. *)
Definition ready (st : S) (b : list block) (w : list keyed) : Prop :=
  (b = [] /\ streams st w) \/ (exists kb w', w = kb :: w' /\ b = snd kb /\ streams st w').
Definition loaded (st : S) (b : list block) (w : list keyed) : Prop :=
  match w with [] => b = [] /\ streams st [] | kb :: w' => b = snd kb /\ streams st w' end.

Definition file_ok (w : list keyed) : Prop := Forall keyed_ok w /\ StronglySorted before (fst <$> w).
Definition count (w : list keyed) : nat := length (concat (snd <$> w)).
Definition total (ws : list (list keyed)) : nat := sum_list (count <$> ws).

Lemma total_cons w ws : total (w :: ws) = (count w + total ws)%nat.
Proof. done. Qed.

Lemma fill_all_ok f : forall ss bufs ws, Forall3 ready ss bufs ws -> Forall file_ok ws -> forall files cur es,
  (total ws < f)%nat -> (length ss <= length files)%nat ->
  exists ss' bufs' cur', fill_all cf f ss bufs files cur es = Ok (ss', bufs', cur', es) /\ Forall3 loaded ss' bufs' ws /\ length ss' = length ss.
Proof.
  induction 1 as [|st b w ss bufs ws Hr _ IH]; intros Hok files cur es Hf Hl.
  { exists [], [], cur. split_and!; [by destruct files|constructor|done]. }
  apply Forall_cons in Hok as [[Hw _] Hok]. rewrite total_cons in Hf. destruct files as [|file files]; [cbn in Hl; lia|]. cbn [fill_all length] in *.
  assert (exists st' b' cur', (if bool_decide (length b = 0)%nat
      then '(s, b, new) ← fill f st; Ok (s, b, file, foldl (fun es e => add_error (c_maxErrors cf) es (ErrBlockRead file (Plain e))) es new)
      else Ok (st, b, cur, es)) = Ok (st', b', cur', es) /\ loaded st' b' w) as (st' & b' & cur1 & -> & Hld).
  { destruct Hr as [[-> Hs]|(kb & w' & -> & -> & Hs)].
    - cbn [length]. destruct w as [|kb w']; cbn [streams] in Hs.
      + destruct Hs as (st' & E1 & E2). rewrite (bool_decide_true (0 = 0)%nat), E1 by done. cbn [mbind outcome_bind foldl].
        exists st', [], file. split; [done|]. split; [done|]. by exists st'.
      + destruct Hs as (st' & E1 & Hs). rewrite (bool_decide_true (0 = 0)%nat), E1 by (done || (unfold count in Hf; cbn in Hf; rewrite length_app in Hf; lia)).
        cbn [mbind outcome_bind foldl]. by exists st', (snd kb), file.
    - apply Forall_cons in Hw as [(_ & Hne & _) _]. rewrite bool_decide_false by (by intros ?%nil_length_inv). by exists st, (snd kb), cur. }
  cbn [mbind outcome_bind]. destruct (IH Hok files cur1 es) as (ss' & bufs' & cur2 & -> & Hld' & Hlen); [lia|lia|]. cbn [mbind outcome_bind].
  exists (st' :: ss'), (b' :: bufs'), cur2. split_and!; [done|by constructor|cbn; lia].
Qed.

(** The values of [k] in the files, and what is left without it. *)
Definition of_key (k : list Z) (w : list keyed) : list block := concat (snd <$> filter (fun kb => fst kb = k) w).
Definition gather (k : list Z) (ws : list (list keyed)) : list block := concat (of_key k <$> ws).
Definition without (k : list Z) (ws : list (list keyed)) : list (list keyed) := (fun w => filter (fun kb => fst kb <> k) w) <$> ws.
Definition least (k : list Z) (ws : list (list keyed)) : Prop :=
  (exists w, w ∈ ws /\ k ∈ fst <$> w) /\ forall w k', w ∈ ws -> k' ∈ fst <$> w -> k' = k \/ before k k'.

Lemma least_file k kb w : file_ok (kb :: w) -> (forall k', k' ∈ fst <$> kb :: w -> k' = k \/ before k k') ->
  if decide (fst kb = k) then of_key k (kb :: w) = snd kb /\ filter (fun kb => fst kb <> k) (kb :: w) = w
  else of_key k (kb :: w) = [] /\ filter (fun kb => fst kb <> k) (kb :: w) = kb :: w.
Proof.
  intros [_ Hs] Hleast. cbn [fmap list_fmap] in Hs. apply StronglySorted_inv in Hs as [_ Hs]. rewrite Forall_fmap, Forall_forall in Hs.
  assert (forall kb', kb' ∈ w -> fst kb' <> k) as Hne.
  { intros kb' Hin Ek. specialize (Hs kb' Hin). cbn in Hs. destruct (Hleast (fst kb)) as [Hk|Hk]; [left| |].
    - rewrite Hk, Ek in Hs. by apply before_irrefl in Hs.
    - rewrite <- Ek in Hk. by apply (before_irrefl (fst kb)), (before_trans _ (fst kb')). }
  unfold of_key. case_decide as Hd.
  - rewrite filter_cons_True by done. rewrite (filter_none _ w) by done. cbn [fmap list_fmap concat]. rewrite app_nil_r. split; [done|].
    rewrite filter_cons_False by tauto. by apply filter_in.
  - rewrite (filter_none _ (kb :: w)); [split; [done|]|].
    + apply filter_in. intros x [->|Hx]%elem_of_cons; auto.
    + intros x [->|Hx]%elem_of_cons; auto.
Qed.

Lemma take_key k : forall ss bufs ws, Forall3 loaded ss bufs ws -> Forall file_ok ws ->
  (forall w k', w ∈ ws -> k' ∈ fst <$> w -> k' = k \/ before k k') ->
  taken k bufs = gather k ws /\ Forall3 ready ss (kept k bufs) (without k ws).
Proof.
  intros ss bufs ws Hld. induction Hld as [|st b w ss bufs ws Hl _ IH]; intros Hok Hleast; [split; [done|constructor]|].
  apply Forall_cons in Hok as [Hw Hok]. destruct (IH Hok) as [E1 E2]; [intros; eapply Hleast; [by right|done]|].
  unfold taken, gather, kept, without in *. cbn [List.filter fmap list_fmap concat].
  destruct w as [|kb w]; cbn [loaded] in Hl; destruct Hl as [-> Hs].
  - cbn [has_key]. split; [done|]. constructor; [left; done|done].
  - pose proof (least_file k kb w Hw ltac:(intros; eapply Hleast; [left|done])) as Hlf.
    destruct Hw as [[(_ & Hne & Hkb) _]%Forall_cons _]. destruct (snd kb) as [|b0 bs] eqn:Eb; [done|]. apply Forall_cons in Hkb as [Hk0 _].
    cbn [has_key]. rewrite Hk0. case_bool_decide as Hd; [rewrite decide_True in Hlf by done|rewrite decide_False in Hlf by done];
      destruct Hlf as [Ho Hf]; rewrite Ho, Hf.
    + cbn [concat]. rewrite E1. split; [done|]. constructor; [left; done|done].
    + cbn [app]. split; [done|]. constructor; [|done]. right. by exists kb, w.
Qed.

Lemma min_key_ok : forall ss bufs ws, Forall3 loaded ss bufs ws -> Forall file_ok ws ->
  (Forall (fun w => w = []) ws /\ min_key bufs = ([], 0)) \/
  (exists k b0, least k ws /\ b0 ∈ gather k ws /\ min_key bufs = (k, typ b0)).
Proof.
  intros ss bufs ws Hld Hok. unfold min_key.
  enough (forall acc : list Z * Z, exists k ty, foldl min_step acc bufs = (k, ty) /\
    ((k, ty) = acc \/ exists w b0, w ∈ ws /\ k ∈ fst <$> w /\ b0 ∈ of_key k w /\ typ b0 = ty) /\
    (fst acc = [] \/ fst acc = k \/ before k (fst acc)) /\ (k = [] -> acc = (k, ty) /\ Forall (fun w => w = []) ws) /\
    (forall w k', w ∈ ws -> k' ∈ fst <$> w -> k' = k \/ before k k')) as H.
  { destruct (H ([], 0)) as (k & ty & E & Hsrc & _ & Hemp & Hl). rewrite E. destruct (decide (k = [])) as [->|Hk].
    - left. destruct (Hemp eq_refl) as [Ea Hn]. by rewrite Ea.
    - right. destruct Hsrc as [[= -> ->]|(w & b0 & Hw & Hkw & Hb & <-)]; [done|]. exists k, b0. split_and!; [split; [by exists w|done]| |done].
      unfold gather. apply list_elem_of_In, in_concat. exists (of_key k w). split; [|by apply list_elem_of_In]. apply list_elem_of_In, list_elem_of_fmap. by exists w. }
  induction Hld as [|st b w ss bufs ws Hl _ IH]; intros acc.
  { exists (fst acc), (snd acc). cbn. destruct acc as [ka ta]. split_and!; [done|by left|auto|auto|]. intros w k' Hw. by apply elem_of_nil in Hw. }
  apply Forall_cons in Hok as [Hw Hok]. specialize (IH Hok). cbn [foldl].
  destruct w as [|kb w]; cbn [loaded] in Hl; destruct Hl as [-> _].
  - cbn [min_step]. destruct (IH acc) as (k & ty & E & Hsrc & Hacc & Hemp & Hleast). exists k, ty. split_and!; try done.
    + destruct Hsrc as [|(w & b0 & Hin & H)]; [by left|right]. exists w, b0. split; [by right|done].
    + intros Hk. destruct (Hemp Hk). split; [done|]. by constructor.
    + intros w k' [->|Hin]%elem_of_cons Hk'; [by apply elem_of_nil in Hk'|by eapply Hleast].
  - destruct Hw as [Hkw Hs]. apply Forall_cons in Hkw as [(Hk0 & Hne & Hkb) _]. destruct (snd kb) as [|b0 bs] eqn:Eb; [done|].
    apply Forall_cons in Hkb as [Hkey _]. cbn [min_step]. rewrite Hkey.
    assert (forall k', k' ∈ fst <$> kb :: w -> k' = fst kb \/ before (fst kb) k') as Hfirst.
    { intros k' Hk'. cbn [fmap list_fmap] in Hk', Hs. apply StronglySorted_inv in Hs as [_ Hs]. apply elem_of_cons in Hk' as [->|Hk']; [by left|right].
      by eapply Forall_forall in Hs. }
    assert (b0 ∈ of_key (fst kb) (kb :: w)) as Hin0.
    { unfold of_key. rewrite filter_cons_True by done. cbn. rewrite Eb. left. }
    set (acc1 := if bool_decide (length (fst acc) = 0)%nat || (Compare (fst kb) (fst acc) <? 0) then (fst kb, typ b0) else acc).
    destruct (IH acc1) as (k & ty & E & Hsrc & Hacc & Hemp & Hleast). exists k, ty.
    assert ((acc1 = (fst kb, typ b0) /\ (fst acc = [] \/ before (fst kb) (fst acc))) \/ (acc1 = acc /\ fst acc <> [] /\ (fst acc = fst kb \/ before (fst acc) (fst kb)))) as Hc.
    { unfold acc1. case_bool_decide as Hz; cbn [orb]; [left; split; [done|left; by apply nil_length_inv]|].
      assert (fst acc <> []) by (intros E0; rewrite E0 in Hz; done). destruct (Z.ltb_spec (Compare (fst kb) (fst acc)) 0).
      - left. split; [done|by right].
      - right. split_and!; [done|done|]. destruct (before_total (fst acc) (fst kb)) as [|[|Hb]]; [by right|by left|unfold before in Hb; lia]. }
    assert (k = fst kb \/ before k (fst kb)) as Hkk.
    { destruct Hc as [[-> _]|(-> & Hna & Hc)]; cbn [fst] in Hacc; [destruct Hacc as [|[|]]; [done|by left|by right]|].
      destruct Hacc as [|[<-|Hb]]; [done|done|right]. destruct Hc as [<-|Hc]; [done|by eapply before_trans]. }
    split_and!; try done.
    + destruct Hsrc as [Hsrc|(w1 & b1 & Hin & H)]; [|right; exists w1, b1; split; [by right|done]].
      destruct Hc as [[Hc _]|[Hc _]]; [|left; by rewrite Hsrc]. right. rewrite Hc in Hsrc. injection Hsrc as -> ->. exists (kb :: w), b0.
      split_and!; [left|left|done|done].
    + destruct Hc as [[Hc [Hna|Hb]]|(Hc & _)]; [by left| |by rewrite Hc in Hacc]. right. right.
      destruct Hkk as [->|Hkk]; [done|by eapply before_trans].
    + intros Ek. destruct (Hemp Ek) as [Ea _]. destruct Hc as [[Hc _]|(Hc & Hna & _)]; rewrite Ea in Hc; [injection Hc as Hc _; congruence|].
      rewrite <- Hc, Ek in Hna. done.
    + intros w1 k' [->|Hin]%elem_of_cons Hk'; [|by eapply Hleast]. destruct (Hfirst k' Hk') as [->|Hb]; [destruct Hkk; auto|].
      right. destruct Hkk as [->|Hkk]; [done|by eapply before_trans].
Qed.


(** ** From key to key *)

Record resting (it : iter) (ws : list (list keyed)) : Prop := {
  rs_arrays : arrays_of it = nothing;
  rs_blocks : blocks it = [];
  rs_merged : merged it = [];
  rs_errors : no_errors it;
  rs_ready : Forall3 ready (iterators it) (buf it) ws;
  rs_files : (length (iterators it) <= length (sstFiles cf))%nat;
  rs_ok : Forall file_ok ws }.

Definition keys_ok (ws : list (list keyed)) : Prop := forall k w, w ∈ ws -> k ∈ fst <$> w -> key_ok k (gather k ws).

(** The keys of the files in order, each with what is given of it. *)
Inductive compacted : list (list keyed) -> list (list Z * list block) -> Prop :=
| compacted_nil ws : Forall (fun w => w = []) ws -> compacted ws []
| compacted_key ws k out res : least k ws -> key_out k (gather k ws) out -> compacted (without k ws) res -> compacted ws ((k, out) :: res).

Lemma read_on_ok f it ws : resting it ws -> (total ws < f)%nat ->
  exists it1, read_on cf f it = Ok it1 /\ arrays_of it1 = nothing /\ merged it1 = [] /\ no_errors it1 /\
    ((Forall (fun w => w = []) ws /\ blocks it1 = []) \/
     (exists b0, least (it_key it1) ws /\ blocks it1 = gather (it_key it1) ws /\ b0 ∈ gather (it_key it1) ws /\ it_typ it1 = typ b0 /\
        resting (rest_of it1) (without (it_key it1) ws))).
Proof.
  intros [Ha Hb Hm He Hr Hf Hok] Htot. unfold read_on.
  destruct (fill_all_ok f _ _ _ Hr Hok (sstFiles cf) (currentSst it) (errs it) Htot Hf) as (ss & bufs & cur & -> & Hld & Hlen).
  cbn [mbind outcome_bind]. rewrite (bool_decide_false (0 < length (blocks it))%nat) by (rewrite Hb; cbn; lia). cbn [andb]. destruct (min_key_ok _ _ _ Hld Hok) as [[Hnil E]|(k & b0 & Hl & Hb0 & E)]; rewrite E.
  - eexists. split; [done|]. cbn [arrays_of merged blocks errs]. split_and!; [done|done|done|left]. split; [done|]. rewrite Hb. cbn [app].
    clear -Hld Hnil. induction Hld as [|st b w ss bufs ws H _ IH]; [done|]. apply Forall_cons in Hnil as [-> Hnil].
    destruct H as [-> _]. unfold taken in *. cbn [List.filter has_key]. by apply IH.
  - eexists. split; [done|]. cbn [arrays_of merged blocks errs it_key it_typ]. split_and!; [done|done|done|right]. exists b0.
    destruct (take_key k _ _ _ Hld Hok (proj2 Hl)) as [E1 E2]. rewrite Hb. cbn [app]. split_and!; try done.
    constructor; try done; cbn; [by rewrite Hlen|].
    apply Forall_fmap, Forall_forall. intros w Hw. rewrite Forall_forall in Hok. destruct (Hok w Hw) as [H1 H2]. split.
    + apply Forall_forall. intros x [_ Hx]%list_elem_of_filter. rewrite Forall_forall in H1. auto.
    + clear -H2. induction w as [|kb w IH]; [constructor|]. cbn [fmap list_fmap] in H2. apply StronglySorted_inv in H2 as [H2 Hx].
      rewrite filter_cons. case_decide; [|by apply IH]. cbn [fmap list_fmap]. constructor; [by apply IH|].
      rewrite Forall_fmap in Hx |- *. apply Forall_forall. intros y [_ Hy]%list_elem_of_filter. by eapply (Forall_forall _ w) in Hx.
Qed.

Lemma total_without k ws : (length (gather k ws) + total (without k ws))%nat = total ws.
Proof.
  induction ws as [|w ws IH]; [done|]. unfold gather, without in *. cbn [fmap list_fmap concat]. rewrite !total_cons, length_app, <- IH.
  assert (length (of_key k w) + count (filter (fun kb => fst kb <> k) w) = count w)%nat; [|lia].
  clear. unfold of_key, count. induction w as [|kb w IH]; [done|]. rewrite !filter_cons.
  destruct (decide (fst kb = k)); [rewrite decide_False by tauto|rewrite decide_True by done]; cbn [fmap list_fmap concat]; rewrite !length_app; lia.
Qed.

Lemma gather_without k k' ws : k' <> k -> gather k' (without k ws) = gather k' ws.
Proof.
  intros Hne. unfold gather, without. f_equal. rewrite <- list_fmap_compose. apply list_fmap_ext. intros i w _. cbn [compose]. unfold of_key.
  do 2 f_equal. rewrite list_filter_filter_l; [done|]. intros x ->. done.
Qed.

Lemma keys_ok_without k ws : keys_ok ws -> keys_ok (without k ws).
Proof.
  intros H k' w (w0 & -> & Hw)%list_elem_of_fmap (kb & -> & [Hne Hin]%list_elem_of_filter)%list_elem_of_fmap.
  rewrite gather_without by done. eapply H; [done|]. by apply list_elem_of_fmap_2.
Qed.

Lemma given_settings (it : iter) c k L x : it_key it = k -> given (ops_of c) (settings_of cf it) L x <-> given (ops_of c) (key_settings k) L x.
Proof. intros Hk. split; intros []; constructor; try done; cbn in *; congruence. Qed.

(** What [Next] does between keys: keys of which all is deleted are passed over. *)
Lemma Next_rest f : forall (it : iter) ws, (Datatypes.S (total ws) < f)%nat -> resting it ws -> keys_ok ws ->
  (exists it' res, Next stable sn cf f it = Ok (it', false) /\ no_errors it' /\ compacted ws res /\ concat (snd <$> res) = []) \/
  (exists it0 c (q outs : list (block * list (Z * value_of c))) t m' ws1,
     let it' := set_it it0 (marked t q) (fst <$> outs) (only c (cols m')) (errs it0) in
     Next stable sn cf f it = Ok (it', true) /\ outs <> [] /\ no_errors it0 /\ busy (with_it_merged it' []) c t q m' /\
     resting (rest_of it0) ws1 /\ (total ws1 < total ws)%nat /\ (length q <= total ws)%nat /\ keys_ok ws1 /\
     (forall gs res, Forall (given (ops_of c) (settings_of cf it0) q) gs -> concat (snd <$> gs) = m' ++ pend t q -> compacted ws1 res ->
        exists res0, compacted ws res0 /\ concat (snd <$> res0) = (fst <$> outs) ++ (fst <$> gs) ++ concat (snd <$> res))).
Proof.
  induction f as [|f IH]; intros it ws Hf Hr Hk; [lia|].
  destruct (read_on_ok f it ws Hr ltac:(lia)) as (it1 & E & Ha & Hm & He & Hcase).
  rewrite Next_idle by apply Hr. assert (hasMergedValues it = false) as -> by (rewrite (has_values it CFloat empty); [done|apply Hr]).
  assert (forall i : iter, try_merge stable sn cf f false i = Ok (i, false)) as Hno by done.
  rewrite Hno. cbn [mbind outcome_bind]. rewrite (rs_blocks _ _ Hr). change (bool_decide (0 < length [])%nat) with false.
  rewrite Hno. cbn [mbind outcome_bind]. rewrite E. cbn [mbind outcome_bind]. clear E.
  destruct Hcase as [[Hnil Hb]|(b0 & Hl & Hb & Hb0 & Ht & Hr1)].
  { left. rewrite Hb. exists it1, []. split_and!; [done|done|by constructor|done]. }
  set (k := it_key it1) in *. pose proof (total_without k ws) as Htot. assert (0 < length (gather k ws))%nat as Hpos by (destruct (gather k ws); [by apply elem_of_nil in Hb0|cbn; lia]).
  rewrite Hb. rewrite bool_decide_false by lia.
  destruct Hl as [(w & Hw & Hkw) Hleast]. destruct (Hk k w Hw Hkw) as (c & L & EL & Hsrc).
  assert (length L = length (gather k ws)) as HlenL by by rewrite EL, length_fmap.
  destruct (first_merge f it1 c L) as (L' & outs & t & q & m' & Hp & E & Hbusy & Hq & Hc & Hin & Hg & Hn); [lia|intros ->; cbn in HlenL; lia|by rewrite Hb|done|done|done| |].
  { rewrite Ht. rewrite EL in Hb0. apply list_elem_of_fmap in Hb0 as (x & -> & Hx). destruct Hsrc as (_ & _ & _ & _ & Hty & _). by eapply Forall_forall in Hty. }
  rewrite E. cbn [mbind outcome_bind]. set (it' := set_it it1 (marked t q) (fst <$> outs) (only c (cols m')) (errs it1)) in *.
  pose proof (set_it_fields it1 (marked t q) (fst <$> outs) (only c (cols m')) (errs it1)) as (_ & _ & _ & Hm' & _).
  fold it' in Hm'. rewrite Hm', length_fmap.
  assert (forall gs res, Forall (given (ops_of c) (settings_of cf it1) q) gs -> concat (snd <$> gs) = m' ++ pend t q -> compacted (without k ws) res ->
    exists res0, compacted ws res0 /\ concat (snd <$> res0) = (fst <$> outs) ++ (fst <$> gs) ++ concat (snd <$> res)) as Hcomb.
  { intros gs res Hgs Egs Hres. exists ((k, fst <$> (outs ++ gs)) :: res). split.
    - apply compacted_key; [split; [by exists w|done]| |done]. exists c, L, (outs ++ gs). split_and!; [done|done|done| |by rewrite fmap_app, concat_app, Egs, Hc].
      apply Forall_app. split; (eapply Forall_impl; [eassumption|]); intros x Hx; apply (given_settings it1 c k); try done. by eapply given_more.
    - cbn [fmap list_fmap concat]. by rewrite fmap_app, app_assoc. }
  destruct outs as [|x outs].
  - rewrite bool_decide_true by done. destruct (Hn eq_refl) as [-> ->]. assert (it' = rest_of it1) as -> by (unfold it', rest_of; by rewrite only_empty).
    destruct (IH (rest_of it1) (without k ws)) as [(it2 & res & E2 & He2 & Hres & Enil)|(it0 & c2 & q2 & outs2 & t2 & m2 & ws1 & E2 & H1 & H2 & H3 & H4 & H5 & H6 & H7 & H8)];
      [lia|done|by apply keys_ok_without| |].
    + left. destruct (Hcomb [] res) as (res0 & Hr0 & E0); [constructor|done|done|]. exists it2, res0. split_and!; [done|done|done|]. by rewrite E0, Enil.
    + right. exists it0, c2, q2, outs2, t2, m2, ws1. split_and!; try done; [lia|lia|]. intros gs res Hgs Egs Hres.
      destruct (H8 gs res Hgs Egs Hres) as (res0 & Hres0 & E0). destruct (Hcomb [] res0) as (res1 & Hr1' & E1'); [constructor|done|done|].
      exists res1. split; [done|]. by rewrite E1', E0.
  - right. rewrite bool_decide_false by done. exists it1, c, q, (x :: outs), t, m', (without k ws). split_and!; try done; [lia|lia|by apply keys_ok_without].
Qed.

Lemma gives_all : forall n (it : iter) ws, (total ws <= n)%nat -> (Datatypes.S (total ws) < F)%nat -> resting it ws -> keys_ok ws ->
  exists res, compacted ws res /\ gives it (concat (snd <$> res)).
Proof.
  induction n as [n IH] using lt_wf_ind. intros it ws Hn HF Hr Hk.
  destruct (Next_rest F it ws HF Hr Hk) as [(it' & res & E & He & Hc & Enil)|(it0 & c & q & outs & t & m' & ws1 & E & Hne & He & Hb & Hr1 & Hlt & Hq & Hk1 & Hcomb)].
  - exists res. split; [done|]. rewrite Enil. apply (gives_end _ it'); [done|]. unfold it_Err. by rewrite He.
  - set (it' := set_it it0 (marked t q) (fst <$> outs) (only c (cols m')) (errs it0)) in *.
    pose proof (set_it_fields it0 (marked t q) (fst <$> outs) (only c (cols m')) (errs it0)) as (_ & _ & _ & Hm' & _ & He' & _ & Hs' & _ & Hr').
    fold it' in Hm', He', Hs', Hr'. specialize (Hr' eq_refl).
    destruct (IH (total ws1) ltac:(lia) (rest_of it0) ws1) as (res & Hres & Hgive); [lia|lia|done|done|].
    assert (no_errors it') as Hne' by (unfold no_errors in *; by rewrite He').
    destruct (gives_key (concat (snd <$> res)) _ (with_it_merged it' []) c t q m' (le_n _)) as (gs & Hgs & Egs & Hg); [lia|done|done|done| |].
    { assert (rest_of (with_it_merged it' []) = rest_of it') as -> by done. by rewrite Hr'. }
    assert (settings_of cf (with_it_merged it' []) = settings_of cf it0) as Hset by by rewrite <- Hs'. rewrite Hset in Hgs.
    destruct (Hcomb gs res Hgs Egs Hres) as (res0 & Hres0 & E0). exists res0. split; [done|]. rewrite E0.
    destruct outs as [|x outs]; [done|]. cbn [fmap list_fmap app] in *. apply (gives_block _ it'); [done|by eapply Read_first|].
    by apply (gives_merged _ _ (fst x)); [lia|done|done|].
Qed.

End keys.
End giving.
End channels.

End BatchLaws.
