(* ===== verification/Samples.v ===== *)
(** Small data files, on which theorems about the reading of several files are tried. *)
From stdpp Require Import gmap.
From S2P Require Import Prelude StringCodec ArrayValues Block Bytes Util SSTIndex IndirectIndex IndexLaws Tombstone VFile VFileManager SSTAccess SSTReader MergeBlocks.
Import ArrayValues Util SSTIndex IndirectIndex IndexLaws SSTAccess MergeBlocks.

Module Samples.

(** Two files: the second has a later value at time 3, a deleted one at time 5, and a key of
    which everything is deleted. *)
Definition int_block (rs : list (Z * Z)) : list Z := match encode integer_ops (NewArrayFromValues rs) with Ok b => b | _ => [] end.
Definition stored_block (b : list Z) : list Z := [0; 0; 0; 0] ++ b.
Definition b1 := int_block [(1, 10); (3, 30)].
Definition b2 := int_block [(3, 31); (5, 50)].
Definition b3 := int_block [(2, 20)].
Definition len (b : list Z) : Z := Z.of_nat (length (stored_block b)).
Definition sections1 : list section := [MkSection [97] 1 [MkIndexEntry 1 3 5 (len b1)]].
Definition sections2 : list section :=
  [MkSection [97] 1 [MkIndexEntry 3 5 5 (len b2)]; MkSection [98] 1 [MkIndexEntry 2 2 (5 + len b2) (len b3)]].
Definition sample_reader (bs : list Z) (ss : list section) (lo hi : list Z) (mn mx : Z) (tombs : gmap (list Z) (list TimeRange)) : SSTReader.SSTReader :=
  SSTReader.MkReader (MkAccessor 1 1 ([0; 0; 0; 0; 0] ++ bs)
    (MkIndirect (index_bytes ss) (offset_bytes (layout 0 ss)) lo hi mn mx tombs) ∅) (Tombstone.NewTombstoner true None None) 60 0 0 true.
Definition reader1 := sample_reader (stored_block b1) sections1 [97] [97] 1 3 ∅.
Definition reader2 := sample_reader (stored_block b2 ++ stored_block b3) sections2 [97] [98] 2 5
  {[ [97] := [MkRange 5 5]; [98] := [MkRange 0 9] ]}.

End Samples.
