(* ===== verification/Compaction.v ===== *)
(** A compaction over data files: the iterator of BatchIter.v over the readers of
    SSTReader.v, with the block codecs of Block.v, what it gives, and the inputs on which
    it does not end. *)
From stdpp Require Import gmap sorting relations.
From S2P Require Import Prelude Simple8b Timestamp StringCodec FloatArray FloatLaws FloatArrayLaws Values ArrayValues Block Bytes Util SSTIndex IndirectIndex IndexLaws IndexDelete Tombstone VFile VFileManager SSTAccess SSTReader SSTIter GoSort MergeBlocks MergeLaws BatchIter BatchLaws Samples.
Import Values ArrayValues Util SSTIndex IndirectIndex IndexLaws SSTAccess MergeBlocks MergeLaws BatchIter BatchLaws Samples.

Module Compaction.

#[local] Existing Instance row_value.

(** ** The iterator over one file delivers its keys *)
Section reader.
Context (t : SSTReader.SSTReader) (ss : list section) (live : list (Z * section)).
Context (H : reads (SSTReader.index_of t) ss live).

(** The block of an index entry, as the compaction sees it. *)
Definition entry_block (s : section) (e : IndexEntry) : block :=
  MkBlock (s_key s) (SSTIndex.MinTime e) (SSTIndex.MaxTime e) (s_type s)
    (match SSTReader.ReadBytes t e with Ok (_, b) => b | _ => [] end)
    (SSTReader.reader_TombstoneRange t (s_key s)) MaxInt64 MinInt64.
Definition file_keys (l : list (Z * section)) : list (list Z * list block) :=
  (fun os => (s_key (snd os), entry_block (snd os) <$> s_entries (snd os))) <$> l.

Definition readable (os : Z * section) : Prop :=
  Forall (fun e => exists crc b, SSTReader.ReadBytes t e = Ok (crc, b)) (s_entries (snd os)).

Abbreviation at_ k key es ty := (t, SSTReader.MkIter k (KeyCount (SSTReader.index_of t)) key es ty None).

Lemma next_block_ok k key e es ty : (exists crc b, SSTReader.ReadBytes t e = Ok (crc, b)) ->
  next_block (at_ k key (e :: es) ty) =
    Ok (at_ k key (e :: es) ty,
        MkBlock key (SSTIndex.MinTime e) (SSTIndex.MaxTime e) ty (match SSTReader.ReadBytes t e with Ok (_, b) => b | _ => [] end)
          (SSTReader.reader_TombstoneRange t key) MaxInt64 MinInt64, None).
Proof.
  intros (crc & b & E). unfold next_block, src_Read, file_source. rewrite SSTIter.iter_Read_cases. unfold SSTIter.entry_record. rewrite E. done.
Qed.

Lemma live_nonempty k o s : live !! k = Some (o, s) -> section_ok s /\ s_key s <> [] /\ exists e es, s_entries s = e :: es.
Proof.
  intros Hk. destruct (live_elem _ _ _ H o s) as (_ & _ & _ & _ & Hs & _); [by eapply list_elem_of_lookup_2|].
  pose proof Hs as (Hne & _ & _ & He & _). split_and!; [done|done|]. destruct (s_entries s); [done|eauto].
Qed.

(** At the last block of a key another key is next. *)
Lemma PeekNext_other k o s e ty : live !! k = Some (o, s) ->
  exists next, SSTReader.PeekNext t (SSTReader.MkIter (Z.of_nat k + 1) (KeyCount (SSTReader.index_of t)) (s_key s) [e] ty None) = Ok next /\ next <> s_key s.
Proof.
  intros Hk. destruct (live_nonempty k o s Hk) as (_ & Hne & _). unfold SSTReader.PeekNext. cbn [SSTReader.b_entries SSTReader.n_keys SSTReader.i SSTReader.b_key].
  change (bool_decide (1 < length [e])%nat) with false. rewrite (KeyCount_live _ _ _ H).
  destruct (Z.ltb_spec 1 (Z.of_nat (length live) - (Z.of_nat k + 1))) as [Hlt|Hge]; [|by exists []].
  destruct (lookup_lt_is_Some_2 live (k + 2)) as [[o2 s2] Hk2]; [lia|]. unfold SSTReader.reader_KeyAt.
  replace (Z.of_nat k + 1 + 1) with (Z.of_nat (k + 2)) by lia. destruct (Key_live _ _ _ H _ _ _ Hk2) as [_ ->]. cbn [mbind outcome_bind].
  exists (s_key s2). split; [done|]. intros E. apply (before_irrefl (s_key s)).
  rewrite <- E at 2. apply (live_before _ _ _ H k (k + 2) (o, s) (o2, s2)); [lia|done|done].
Qed.

Lemma Next_file b : src_Next (t, b) = ('(b, more) ← SSTReader.Next t b; Ok ((t, b), more)).
Proof. done. Qed.

Lemma PeekNext_file b : src_PeekNext (t, b) = SSTReader.PeekNext t b.
Proof. done. Qed.

Definition final (e : IndexEntry) (es : list IndexEntry) : IndexEntry := foldl (fun _ y => y) e es.

Lemma same_key_ok k o s ty : live !! k = Some (o, s) -> forall es e f, (length es < f)%nat ->
  Forall (fun e => exists crc b, SSTReader.ReadBytes t e = Ok (crc, b)) es -> ty = s_type s ->
  same_key f (s_key s) (at_ (Z.of_nat k + 1) (s_key s) (e :: es) ty) =
    Ok (at_ (Z.of_nat k + 1) (s_key s) [final e es] ty, entry_block s <$> es, []).
Proof.
  intros Hk. induction es as [|e1 es IH]; intros e f Hf Hr ->; (destruct f as [|f]; [cbn in Hf; lia|]); cbn [same_key];
    rewrite PeekNext_file.
  - destruct (PeekNext_other k o s e (s_type s) Hk) as (next & -> & Hne). cbn [mbind outcome_bind]. rewrite bool_decide_false by done. done.
  - apply Forall_cons in Hr as [Hr1 Hr]. unfold SSTReader.PeekNext. cbn [SSTReader.b_entries SSTReader.b_key].
    rewrite bool_decide_true by (cbn; lia). cbn [mbind outcome_bind]. rewrite bool_decide_true by done.
    rewrite ?Next_file, SSTIter.Next_more. cbn [mbind outcome_bind]. rewrite next_block_ok by done. cbn [mbind outcome_bind].
    rewrite (IH e1 f); [done|cbn in Hf; lia|done|done].
Qed.

Lemma iterator_ended key ty es : (length es <= 1)%nat ->
  SSTReader.Next t (SSTReader.MkIter (KeyCount (SSTReader.index_of t)) (KeyCount (SSTReader.index_of t)) key es ty None) =
    Ok (SSTReader.MkIter (KeyCount (SSTReader.index_of t)) (KeyCount (SSTReader.index_of t)) key [] ty None, false).
Proof.
  intros Hes. unfold SSTReader.Next. cbn [SSTReader.b_err SSTReader.b_entries SSTReader.i SSTReader.n_keys SSTReader.b_key SSTReader.typ].
  rewrite bool_decide_false by (by intros Hn; apply Hn). rewrite Z.sub_diag. cbn [Z.eqb andb].
  destruct es as [|e [|]]; [done|done|cbn in Hes; lia].
Qed.

Lemma streams_from n : forall k key ty es, (length live - k = n)%nat -> (k <= length live)%nat -> (length es <= 1)%nat -> Forall readable live ->
  streams (at_ (Z.of_nat k) key es ty) (file_keys (drop k live)).
Proof.
  induction n as [|n IH]; intros k key ty es Hn Hk Hes Hr.
  - rewrite drop_ge by lia. cbn [file_keys fmap list_fmap streams]. replace (Z.of_nat k) with (KeyCount (SSTReader.index_of t)) by (rewrite (KeyCount_live _ _ _ H); lia).
    exists (at_ (KeyCount (SSTReader.index_of t)) key [] ty). split; intros f; unfold fill.
    + rewrite ?Next_file, iterator_ended by done. done.
    + rewrite ?Next_file, iterator_ended by (cbn; lia). done.
  - destruct (lookup_lt_is_Some_2 live k) as [[o s] Hks]; [lia|]. rewrite (drop_S live (o, s) k Hks). cbn [file_keys fmap list_fmap streams snd fst].
    destruct (live_nonempty k o s Hks) as (_ & _ & e & es1 & Ees). pose proof (Forall_lookup_1 _ _ _ _ Hr Hks) as Hrs. unfold readable in Hrs.
    cbn [snd] in Hrs. rewrite Ees in Hrs. apply Forall_cons in Hrs as [Hr1 Hr2].
    exists (at_ (Z.of_nat k + 1) (s_key s) [final e es1] (s_type s)). split.
    + intros f Hf. rewrite Ees in Hf |- *. cbn [fmap list_fmap length] in Hf. rewrite length_fmap in Hf. unfold fill.
      rewrite ?Next_file, (SSTIter.Next_key t ss live H k key ty es o s Hes Hks), Ees. cbn [mbind outcome_bind]. rewrite next_block_ok by done.
      cbn [mbind outcome_bind MergeBlocks.key]. rewrite (same_key_ok k o s (s_type s) Hks) by (done || lia). done.
    + replace (Z.of_nat k + 1) with (Z.of_nat (S k)) by lia. apply IH; [lia|lia|cbn; lia|done].
Qed.

Lemma reader_streams : Forall readable live -> streams (t, SSTReader.NewBlockIterator t) (file_keys live).
Proof. intros Hr. apply (streams_from (length live) 0 [] 0 []); [lia|lia|cbn; lia|done]. Qed.

Lemma file_keys_ok : file_ok (file_keys live).
Proof.
  split.
  - apply Forall_fmap, Forall_forall. intros [o s] (k & Hk)%list_elem_of_lookup. destruct (live_nonempty k o s Hk) as (_ & Hne & e & es & E).
    split_and!; cbn [fst snd compose]; [done|by rewrite E|]. apply Forall_fmap, Forall_true. done.
  - unfold file_keys. rewrite <- list_fmap_compose. pose proof (IndexLaws.live_sorted _ _ _ H) as Hs. clear H. induction Hs as [|x l Hs IH Hx]; [constructor|].
    cbn [fmap list_fmap]. constructor; [done|]. apply Forall_fmap. eapply Forall_impl; [exact Hx|]. done.
Qed.
End reader.

(** ** Rows that fit a block *)
Section codecs.
Context (sn : StringCodec.snappy) (Hsn : StringCodec.snappy_laws sn).

Definition block_fits (c : channel) (rs : list (Z * value_of c)) : Prop :=
  Block.array_times_ok (fst <$> rs) /\
  match c return list (value_of c) -> Prop with
  | CFloat => fun vs => Forall FloatLaws.number_ok vs /\ FloatArray.is_nan (FloatArrayLaws.sum_from FloatArray.float_zero (tail vs)) = false
  | CInteger => Forall is_i64
  | CUnsigned => Forall is_u64
  | CBoolean => fun _ => True
  | CString => fun vs => StringCodec.source_size vs <= StringCodec.MaxUint32 /\ StringCodec.fits sn (StringCodec.source_size vs)
  end (snd <$> rs).

(** Rows of which any piece fits a block. *)
Definition codable (c : channel) (rs : list (Z * value_of c)) : Prop :=
  forall p q r, rs = p ++ q ++ r -> q <> [] -> block_fits c q.

Lemma codable_cut c r1 r2 : codable c (r1 ++ r2) -> codable c r1 /\ codable c r2.
Proof.
  intros H. split; intros p q r E Hq.
  - apply (H p q (r ++ r2)); [|done]. by rewrite E, <- !app_assoc.
  - apply (H (r1 ++ p) q r); [|done]. by rewrite E, <- !app_assoc.
Qed.

Lemma load_plain {A} (T : ops A) s cb v : Block.IsPtrBlock cb = Ok false -> decode T cb = Ok v -> load T s cb = Ok v.
Proof.
  intros Hp Hd. unfold load, VFileManager.ReadDataBlocks. rewrite Hp. cbn [mbind outcome_bind merge_data].
  rewrite bool_decide_false by (destruct cb; [done|cbn; lia]). rewrite Hd. done.
Qed.

Lemma codable_codec {S} (cf : config) c (it : sstBatchKeyIterator S) rs : codable c rs -> rs <> [] ->
  exists cb, encode (ops_of sn c) (cols rs) = Ok cb /\ load (ops_of sn c) (settings_of cf it) cb = Ok (cols rs) /\ Block.IsPtrBlock cb = Ok false.
Proof.
  intros Hc Hne. destruct (Hc [] rs []) as [Ht Hv]; [by rewrite app_nil_r|done|].
  assert (length (snd <$> rs) = length (fst <$> rs)) as Hl by by rewrite !length_fmap.
  pose proof (Block.array_blocks sn Hsn (fst <$> rs) nil_slice nil_slice Ht) as (HF & HI & HU & HB & HS).
  destruct c; cbn [value_of] in *;
    [destruct Hv as [Hv1 Hv2]; destruct (HF _ nil_slice Hl Hv1 Hv2) as (cb & E & D & _ & P)|destruct (HI _ nil_slice Hl Hv) as (cb & E & D & _ & P)
    |destruct (HU _ nil_slice Hl Hv) as (cb & E & D & _ & P)|destruct (HB _ nil_slice Hl) as (cb & E & D & _ & P)
    |destruct Hv as [Hv1 Hv2]; destruct (HS _ nil_slice Hl Hv1 Hv2) as (cb & E & D & _ & P)];
    exists (contents cb); (split; [cbn; by rewrite E|split; [apply load_plain; [done|cbn; by rewrite D]|done]]).
Qed.

Lemma diffs_increasing t r : (forall v, v ∈ t :: r -> 0 <= v < 2 ^ 60) -> StronglySorted Z.lt (t :: r) ->
  Forall Simple8b.in_range (Timestamp.diffs (u64 t) (u64 <$> r)).
Proof.
  revert t. induction r as [|x r IH]; intros t Hb Hs; [constructor|]. apply StronglySorted_inv in Hs as [Hs Hx]. apply Forall_cons in Hx as [Hx _].
  pose proof (Hb t ltac:(left)). pose proof (Hb x ltac:(right; left)). cbn [fmap list_fmap Timestamp.diffs]. constructor.
  - unfold Simple8b.in_range. rewrite Simple8b.MaxValue_pow, (u64_small x), (u64_small t), u64_small by (unfold is_u64; lia). lia.
  - apply IH; [|done]. intros v Hv. apply Hb. by right.
Qed.

(** Integers whose times are not negative and below 2^60. *)
Lemma integers_codable (rs : list (Z * Z)) : sorted rs -> Forall (fun v => 0 <= fst v < 2 ^ 60 /\ is_i64 (snd v)) rs ->
  Z.of_nat (length rs) < 2 ^ 56 -> codable CInteger rs.
Proof.
  intros Hs Hr Hl p q r -> Hq. apply Forall_app in Hr as [_ [Hr _]%Forall_app]. apply StronglySorted_app_1_r, StronglySorted_app_1_l in Hs.
  rewrite !length_app in Hl. split; [|apply Forall_fmap; eapply Forall_impl; [exact Hr|]; by intros ? []].
  destruct q as [|[t v] q]; [done|]. cbn [fmap list_fmap]. unfold Block.array_times_ok. cbn [fst].
  assert (forall x, x ∈ t :: (fst <$> q) -> 0 <= x < 2 ^ 60) as Hb.
  { intros x Hx. change (t :: (fst <$> q)) with (fst <$> (t, v) :: q) in Hx. apply list_elem_of_fmap in Hx as (y & -> & Hy). rewrite Forall_forall in Hr. by apply Hr. }
  split_and!.
  - apply Forall_forall. intros x Hx. specialize (Hb x Hx). unfold is_i64. lia.
  - cbn [length] in Hl |- *. rewrite length_fmap. lia.
  - left. apply diffs_increasing; [done|]. clear -Hs. change (StronglySorted Z.lt (fst <$> (t, v) :: q)). induction Hs as [|x l Hs IH Hx]; [constructor|].
    cbn [fmap list_fmap]. constructor; [done|]. apply Forall_fmap. eapply Forall_impl; [exact Hx|]. done.
Qed.
End codecs.

(** ** Keys *)
Lemma compacted_keys {S} `{BlockSource S} sn cf co ws res : compacted sn cf co ws res -> Forall file_ok ws ->
  StronglySorted before (fst <$> res) /\
  (forall k, k ∈ fst <$> res <-> exists w, w ∈ ws /\ k ∈ fst <$> w) /\
  Forall (fun x => key_out sn cf co (fst x) (gather (fst x) ws) (snd x)) res.
Proof.
  induction 1 as [ws Hn|ws k out res [[w [Hw Hkw]] Hl] Ho _ IH]; intros Hok.
  - split_and!; [constructor| |constructor]. intros k. split; [by intros ?%elem_of_nil|]. intros (w & Hw & Hk). rewrite Forall_forall in Hn.
    rewrite (Hn w Hw) in Hk. by apply elem_of_nil in Hk.
  - destruct IH as (H1 & H2 & H3).
    { apply Forall_fmap, Forall_forall. intros w0 Hw0. rewrite Forall_forall in Hok. destruct (Hok w0 Hw0) as [G1 G2]. split.
      - apply Forall_forall. intros x [_ Hx]%list_elem_of_filter. rewrite Forall_forall in G1. auto.
      - eapply sublist_sorted; [|exact G2]. apply fmap_sublist, sublist_filter. }
    assert (forall k', k' ∈ fst <$> res -> k' <> k /\ exists w, w ∈ ws /\ k' ∈ fst <$> w) as Hres.
    { intros k' (w1 & (w0 & -> & Hw0)%list_elem_of_fmap & (kb & -> & [Hne Hin]%list_elem_of_filter)%list_elem_of_fmap)%H2. split; [done|].
      exists w0. split; [done|]. by apply list_elem_of_fmap_2. }
    cbn [fmap list_fmap fst snd]. split_and!.
    + constructor; [done|]. apply Forall_forall. intros k' Hk'. destruct (Hres k' Hk') as (Hne & w0 & Hw0 & Hin). by destruct (Hl w0 k' Hw0 Hin).
    + intros k'. rewrite elem_of_cons. split; [intros [->|Hk']; [by exists w|by apply Hres]|]. intros (w0 & Hw0 & Hin).
      destruct (decide (k' = k)) as [|Hne]; [by left|right]. apply H2. exists (filter (fun kb => fst kb <> k) w0). split.
      * by apply (list_elem_of_fmap_2 (fun w => filter (fun kb => fst kb <> k) w)).
      * apply list_elem_of_fmap in Hin as (kb & -> & Hkb). apply list_elem_of_fmap_2, list_elem_of_filter. done.
    + constructor; [done|]. apply Forall_forall. intros x Hx. pose proof (list_elem_of_fmap_2 fst _ _ Hx) as Hxk. destruct (Hres _ Hxk) as [Hne _].
      rewrite Forall_forall in H3. specialize (H3 x Hx). cbv beta in H3. by rewrite gather_without in H3.
Qed.

(** * Theorems *)

(** The keys of an open file with their blocks. *)
Definition opened (t : SSTReader.SSTReader) (w : list (list Z * list block)) : Prop :=
  exists ss live, reads (SSTReader.index_of t) ss live /\ Forall (readable t) live /\ w = file_keys t live.

Abbreviation start ts := (NewSSTBatchKeyIterator ((fun t => (t, SSTReader.NewBlockIterator t)) <$> ts)).

(** C5: a compaction gives every key of its files once, in order, and of each key the
    overlay of the rows of its blocks without the deleted ones, later files over earlier, in
    blocks in order of time that can be read, of at most [size] values unless they are
    blocks of a file as they were. Of each key ([keys_ok]): the blocks are of one type and
    can be decoded; the rows fit blocks however they are cut ([codable]); there are no blocks
    of pointers unless merging is fast; and the files together have at most twenty blocks
    of it, or blocks of which those that overlap the same block overlap each other, since
    of others [sort.Stable] may put an older one last. *)
Theorem compaction_overlays sn cf (ts : list SSTReader.SSTReader) ws F :
  StringCodec.snappy_laws sn -> (0 < c_size cf)%nat ->
  Forall2 opened ts ws -> (length ts <= length (sstFiles cf))%nat -> keys_ok sn cf (codable sn) ws -> (S (total ws) < F)%nat ->
  exists res, gives (GoSort.Stable Less) sn cf F (start ts) (concat (snd <$> res)) /\
    StronglySorted before (fst <$> res) /\
    (forall k, k ∈ fst <$> res <-> exists w, w ∈ ws /\ k ∈ fst <$> w) /\
    Forall (fun x => key_out sn cf (codable sn) (fst x) (gather (fst x) ws) (snd x)) res.
Proof.
  intros Hsn Hsz Hop Hlen Hk HF.
  assert (Forall file_ok ws) as Hok.
  { apply Forall_forall. intros w (i & Hi)%list_elem_of_lookup. destruct (Forall2_lookup_r _ _ _ _ _ Hop Hi) as (t & _ & ss & live & Hr & _ & ->).
    by eapply file_keys_ok. }
  destruct (gives_all (GoSort.Stable Less) sn cf F Stable_sort (codable sn) (codable_codec sn Hsn cf) (codable_cut sn) Hsz (total ws) (start ts) ws (le_n _) HF) as (res & Hc & Hg); [|done|].
  - constructor; try done; [|cbn; by rewrite length_fmap]. cbn. rewrite length_fmap. clear -Hop.
    induction Hop as [|t w ts ws (ss & live & Hr & Hrd & ->) _ IH]; [constructor|]. cbn. constructor; [|done]. left. split; [done|]. by eapply reader_streams.
  - exists res. split; [done|]. by apply compacted_keys.
Qed.

Definition sample_ws := [file_keys reader1 (layout 0 sections1); file_keys reader2 (layout 0 sections2)].
Definition sample_config : config := MkConfig 2 false 100 ∅ 20 [[1]; [2]].

Lemma sample_opened : Forall2 opened [reader1; reader2] sample_ws.
Proof.
  repeat constructor; [exists sections1, (layout 0 sections1)|exists sections2, (layout 0 sections2)]; (split_and!; [|repeat constructor|done]).
  2, 4, 5: do 2 eexists; vm_compute; reflexivity.
  all: (split; [|vm_compute; reflexivity..]); (split; [repeat constructor; vm_compute; (done || (intros; discriminate))|repeat constructor; vm_compute; reflexivity]).
Qed.

(** The blocks of a key with their rows. *)
Definition sample_rows (k : list Z) (rows : list (list (Z * Z))) : list (block * list (Z * Z)) := zip (gather k sample_ws) rows.

Lemma sample_key k rows rs : gather k sample_ws = fst <$> sample_rows k rows ->
  Forall (source_ok (ops_of StringCodec.identity_snappy CInteger) (key_settings sample_config k)) (sample_rows k rows) ->
  Forall block_wf (sample_rows k rows) -> Forall is_plain (sample_rows k rows) ->
  Forall (fun x => Block.GetBaseType (typ (fst x)) = type_of CInteger) (sample_rows k rows) ->
  (length (sample_rows k rows) <= GoSort.blockSize)%nat -> overlay (sample_rows k rows) = rs -> codable StringCodec.identity_snappy CInteger rs ->
  key_ok StringCodec.identity_snappy sample_config (codable StringCodec.identity_snappy) k (gather k sample_ws).
Proof.
  intros E Hs Hw Hp Ht Hl <- Hc. exists CInteger, (sample_rows k rows). split; [done|]. by split_and!; [..|right| | |left].
Qed.

Lemma sample_keys_ok : keys_ok StringCodec.identity_snappy sample_config (codable StringCodec.identity_snappy) sample_ws.
Proof.
  intros k w Hw Hk. assert (k = [97] \/ k = [98]) as [-> | ->].
  { repeat (apply elem_of_cons in Hw as [-> | Hw]); [..|by apply elem_of_nil in Hw]; cbn in Hk; set_solver. }
  - apply (sample_key [97] [[(1, 10); (3, 30)]; [(3, 31); (5, 50)]] [(1, 10); (3, 31)]); [vm_compute; reflexivity| | | | |vm_compute; lia|vm_compute; reflexivity|].
    + repeat constructor; vm_compute; (done || (intros; discriminate)).
    + repeat constructor; exists false; (split; [vm_compute; reflexivity|intros _; eexists; vm_compute; reflexivity]).
    + repeat constructor; vm_compute; reflexivity.
    + repeat constructor; vm_compute; reflexivity.
    + apply integers_codable; [repeat constructor|repeat constructor; cbn; (lia || unfold is_i64; lia)|cbn; lia].
  - apply (sample_key [98] [[(2, 20)]] []); [vm_compute; reflexivity| | | | |vm_compute; lia|vm_compute; reflexivity|].
    + repeat constructor; vm_compute; (done || (intros; discriminate)).
    + repeat constructor; exists false; (split; [vm_compute; reflexivity|intros _; eexists; vm_compute; reflexivity]).
    + repeat constructor; vm_compute; reflexivity.
    + repeat constructor; vm_compute; reflexivity.
    + intros p q r E Hq. symmetry in E. apply app_nil in E as [_ E]. apply app_nil in E as [E _]. done.
Qed.

Lemma compaction_overlays_witness : StringCodec.snappy_laws StringCodec.identity_snappy /\
  Forall2 opened [reader1; reader2] sample_ws /\ keys_ok StringCodec.identity_snappy sample_config (codable StringCodec.identity_snappy) sample_ws /\
  exists res, gives (GoSort.Stable Less) StringCodec.identity_snappy sample_config 10 (start [reader1; reader2]) (concat (snd <$> res)) /\
    StronglySorted before (fst <$> res) /\
    (forall k, k ∈ fst <$> res <-> exists w, w ∈ sample_ws /\ k ∈ fst <$> w) /\
    Forall (fun x => key_out StringCodec.identity_snappy sample_config (codable StringCodec.identity_snappy) (fst x) (gather (fst x) sample_ws) (snd x)) res.
Proof.
  split_and!; [apply StringCodec.identity_snappy_laws|apply sample_opened|apply sample_keys_ok|].
  apply (compaction_overlays StringCodec.identity_snappy sample_config [reader1; reader2] sample_ws 10).
  - apply StringCodec.identity_snappy_laws.
  - cbn; lia.
  - apply sample_opened.
  - cbn; lia.
  - apply sample_keys_ok.
  - vm_compute. lia.
Defined.

(** ** More blocks than the sort can be relied on *)

(** Three files of one key: the first with values at times 0 to 9 and at 100 and 101, the
    second with values at 40, 50 and 1000 and from 1001 on, the third with another value at
    time 50. The sort puts the block of the third file before that of the second. *)
Definition int_rows (rs : list (Z * Z)) : block * list (Z * Z) :=
  (MkBlock [97] (default 0 (fst <$> head rs)) (default 0 (fst <$> last rs)) 1 (int_block rs) [] MaxInt64 MinInt64, rs).
Definition many_sources : list (block * list (Z * Z)) := int_rows <$>
  ((fun t => [(t, 0)]) <$> [0; 1; 2; 3; 4; 5; 6; 7; 8; 9]) ++ [[(100, 0); (101, 0)]] ++
  [[(40, 0); (50, 1); (1000, 0)]] ++ ((fun t => [(t, 0)]) <$> [1001; 1002; 1003; 1004; 1005; 1006; 1007; 1008]) ++ [[(50, 2); (60, 0)]].
Definition many_settings : settings := MkSettings 100 20 false 100 ∅ [97] [].
Definition given_rows (r : outcome (run Z)) : list (Z * Z) :=
  match r with
  | Ok r => concat ((fun b => match decode integer_ops (data b) with Ok a => zip (Timestamps a) (ArrayValues.Values a) | _ => [] end) <$> r_merged r)
  | _ => []
  end.

Theorem older_block_wins : length many_sources = 21%nat /\
  (50, 1) ∈ given_rows (merge (GoSort.Stable Less) integer_ops chunk_floats many_settings 40 (MkRun (fst <$> many_sources) [] empty empty (MkErrors [] 0))) /\
  (50, 2) ∈ overlay many_sources /\ (50, 1) ∉ (overlay many_sources).
Proof. split_and!; [done|apply (bool_decide_unpack _); vm_compute; exact I..]. Qed.

(** ** Inputs on which a compaction does not end *)

(** The rounds of the loop over small blocks, and what is done when it ends. *)
Definition loop_step {A} (T : ops A) pc s (a b : nat * run A) : Prop := small_step T pc s (fst a) (snd a) = Ok (inl b).
Definition after_loop {A} (T : ops A) s (e : nat * run A * option string) : outcome (run A) :=
  match e with
  | (i, r, Some e) => Ok (with_merged (handleDecodeError T s r e) [])
  | (i, r, None) =>
      let r := with_blocks r (drop i (r_blocks r)) in
      '(r, m) ← chunk T s r (r_merged r); Ok (with_merged r m)
  end.

Lemma loop_steps {A} (T : ops A) pc s n a b fuel : nsteps (loop_step T pc s) n a b ->
  small_loop T pc s (n + fuel) (fst a) (snd a) = small_loop T pc s fuel (fst b) (snd b).
Proof. induction 1 as [|n a c b Hs _ IH]; [done|]. cbn [Nat.add small_loop]. unfold loop_step in Hs. rewrite Hs. by destruct c. Qed.

(** A block that waits for a merge, nothing of it read or deleted. *)
Definition waiting (b : block) : Prop := read b = false /\ partiallyRead b = false /\ tombstones b = [].

(** A block of the values [x], fewer than a block holds, and after it a block of pointers of
    the same key to values enough few not to be decoded. *)
Record small_before_pointers {A} (T : ops A) (s : settings) (b1 b2 : block) (x : Array A) : Prop := {
  sp_waiting : waiting b1 /\ waiting b2;
  sp_key : key b1 = key b2;
  sp_times : minTime b1 <= maxTime b1 < minTime b2 /\ minTime b2 <= maxTime b2;
  sp_plain : Block.IsPtrBlock (data b1) = Ok false;
  sp_count : exists n, Block.BlockCount (data b1) = Ok n /\ n < Z.of_nat (size s);
  sp_values : decode T (data b1) = Ok x /\ (exists last, ArrayValues.MaxTime x = Ok last) /\ (Len x < size s)%nat;
  sp_pointers : Block.IsPtrBlock (data b2) = Ok true;
  sp_few : exists c, Block.PtrBlockCount (data b2) = Ok c /\ c <= separateThreshold s }.

(** The merge does not end: it reaches the loop, and after [n] rounds more than two the
    blocks given out are [out] and [n + 1] times the block [b]. *)
Definition goes_round {A} stable (T : ops A) pc s (r : run A) (out : list block) (b : block) : Prop :=
  (forall fuel, merge stable T pc s fuel r = Err no_fuel) /\
  exists r0, (forall fuel, merge stable T pc s fuel r = (small_loop T pc s fuel 0 r0 ≫= after_loop T s)) /\
    forall n, exists rn, nsteps (loop_step T pc s) (2 + n) (0%nat, r0) (1%nat, rn) /\ r_merged rn = out ++ replicate (S n) b.

Section rounds.
Context {A : Type} (stable : list block -> list block) (Hst : stable_sort stable) (T : ops A).
Context (pc : settings -> run A -> list block -> outcome (run A * list block)) (s : settings) (Hfast : fast s = false).
Context (b1 b2 : block) (x : Array A) (Hb : small_before_pointers T s b1 b2 x) (es : errors).
Abbreviation two := (MkRun (A := A) [b1; b2] [] empty empty es).

Lemma merge_reaches_loop fuel : merge stable T pc s fuel two = (small_loop T pc s fuel 0 two ≫= after_loop T s).
Proof using Hst Hfast Hb.
  destruct Hb as [[(R1 & P1 & T1) (R2 & P2 & T2)] Hkey [Hle1 Hle2] I1 (n & N1 & Hn) _ I2 (c & C2 & Hc)].
  assert (Less b2 b1 = false) as HL.
  { unfold Less. rewrite Hkey, Compare_refl. cbn [Z.eqb]. apply andb_false_iff. left. lia. }
  unfold merge. cbn [r_blocks r_merged r_values length]. rewrite bool_decide_false by done. cbn [andb].
  rewrite (stable_keeps _ [b1; b2] Hst) by (apply sortable_two || (repeat constructor; done)). cbn [with_blocks r_blocks r_values].
  rewrite bool_decide_true by done. rewrite T1, P1. cbn [length]. rewrite bool_decide_false by lia. cbn [orb must_dedup].
  rewrite P2, T2, I2, C2. cbn [length]. rewrite bool_decide_false by lia.
  assert (overlapsTimeRange b2 (minTime b1) (maxTime b1) = false) as -> by (unfold overlapsTimeRange; lia).
  cbn [orb mbind outcome_bind]. rewrite (proj2 (Z.ltb_ge _ _) Hc). cbn [mbind outcome_bind]. unfold combine. cbn [with_blocks r_blocks as_is].
  rewrite R1, I1, N1. cbn [mbind outcome_bind]. rewrite (proj2 (Z.ltb_lt _ _) Hn), Hfast. cbn [mbind outcome_bind r_blocks with_blocks].
  change (drop 0 [b1; b2]) with [b1; b2]. cbv beta iota zeta.
  change (with_blocks two [b1; b2]) with two. by destruct (small_loop T pc s fuel 0 two) as [[[i r] [e|]]|e|].
Qed.

(** The first round reads the first block. *)
Lemma first_round : exists b1', loop_step T pc s (0%nat, two) (1%nat, MkRun [b1'; b2] [] x empty es).
Proof using Hb.
  destruct Hb as [[(R1 & P1 & T1) _] _ _ I1 _ (D1 & (last & M1) & Hx) _ _]. unfold loop_step, small_step. cbn [fst snd r_blocks lookup list_lookup r_values].
  rewrite (bool_decide_true (Len empty < size s)%nat) by (cbn in *; lia). rewrite R1, I1, D1. cbn [negb mbind outcome_bind]. rewrite M1. cbn [mbind outcome_bind].
  destruct (maxTime b1 =? last); cbn [tombstones with_maxTime]; rewrite T1; cbn [mbind outcome_bind exclude_all];
    change (Merge (zero T) empty x) with (Ok x); cbn [mbind outcome_bind]; by eexists.
Qed.

(** A round at the pointers gives them out after what the chunk function adds. *)
Lemma pointer_round r r' m : r_blocks r !! 1%nat = Some b2 -> (Len (r_values r) < size s)%nat -> pc s r (r_merged r) = Ok (r', m) ->
  loop_step T pc s (1%nat, r) (1%nat, with_merged r' (m ++ [b2])).
Proof using Hb.
  destruct Hb as [[_ (R2 & _)] _ _ _ _ _ I2 _]. intros Hr Hl Hp. unfold loop_step, small_step. cbn [fst snd]. by rewrite Hr, (bool_decide_true _ Hl), R2, I2; cbn; rewrite Hp.
Qed.

Lemma later_rounds r n : r_blocks r !! 1%nat = Some b2 -> (Len (r_values r) < size s)%nat ->
  (forall m, pc s (with_merged r m) m = Ok (with_merged r m, m)) ->
  forall m, nsteps (loop_step T pc s) n (1%nat, with_merged r m) (1%nat, with_merged r (m ++ replicate n b2)).
Proof using Hb.
  intros Hr Hl Hp. induction n as [|n IH]; intros m; [cbn; rewrite app_nil_r; apply nsteps_O|].
  eapply nsteps_l; [apply (pointer_round _ (with_merged r m) m); [done|done|apply Hp]|].
  cbn [replicate]. replace (m ++ b2 :: replicate n b2) with ((m ++ [b2]) ++ replicate n b2) by by rewrite <- app_assoc. apply IH.
Qed.

(** When the chunk function has nothing more to add, the rounds go on for ever. *)
Lemma rounds_go_on b1' r m : loop_step T pc s (0%nat, two) (1%nat, MkRun [b1'; b2] [] x empty es) ->
  pc s (MkRun [b1'; b2] [] x empty es) [] = Ok (r, m) -> r_blocks r !! 1%nat = Some b2 -> (Len (r_values r) < size s)%nat ->
  (forall m, pc s (with_merged r m) m = Ok (with_merged r m, m)) -> goes_round stable T pc s two m b2.
Proof using Hst Hfast Hb.
  intros H0 Hp Hr Hl Hk. pose proof Hb as [_ _ _ _ _ (_ & _ & Hx) _ _].
  assert (forall n, nsteps (loop_step T pc s) (2 + n) (0%nat, two) (1%nat, with_merged r (m ++ replicate (S n) b2))) as Hn.
  { intros n. eapply nsteps_l; [exact H0|]. eapply nsteps_l; [by apply (pointer_round _ r m)|]. cbn [replicate].
    replace (m ++ b2 :: replicate n b2) with ((m ++ [b2]) ++ replicate n b2) by by rewrite <- app_assoc. by apply later_rounds. }
  split; [|exists two; split; [apply merge_reaches_loop|intros n; eexists; split; [apply Hn|done]]].
  intros fuel. rewrite merge_reaches_loop. destruct (decide (fuel < 2)%nat) as [Hf|Hf].
  - destruct fuel as [|[|fuel]]; [done| |lia]. cbn [small_loop]. unfold loop_step in H0. cbn [fst snd] in H0. by rewrite H0.
  - replace fuel with ((2 + (fuel - 2)) + 0)%nat by lia. pose proof (loop_steps T pc s _ _ _ 0 (Hn (fuel - 2)%nat)) as Hs. cbn [fst snd] in Hs. by rewrite Hs.
Qed.
End rounds.

(** C36: a small block before a block of pointers of the same key, as they are written by
    flushes on either side of the separation of values: where merging is not fast, the
    blocks do not overlap, nothing of them is read or deleted and the pointers are not more
    than the threshold, the merge of any of the five copies goes round for ever, and gives
    the block of pointers out again in each round, after the values of the first block in
    the copy for floats. *)
Theorem pointer_block_hangs stable s (b1 b2 : block) es :
  stable_sort stable -> fast s = false ->
  (forall A (T : ops A) x, small_before_pointers T s b1 b2 x -> goes_round stable T chunk_floats s (MkRun [b1; b2] [] empty empty es) [] b2) /\
  (forall x cb, small_before_pointers float_ops s b1 b2 x -> encode float_ops x = Ok cb ->
    exists mn mx, head (Timestamps x) = Some mn /\ ArrayValues.MaxTime x = Ok mx /\
      goes_round stable float_ops chunkFloat s (MkRun [b1; b2] [] empty empty es) [MkBlock (cur_key s) mn mx 0 cb [] 0 0] b2).
Proof.
  intros Hst Hfast. split.
  - intros A T x Hb. destruct (first_round T chunk_floats s b1 b2 x Hb es) as [b1' H0]. pose proof Hb as [_ _ _ _ _ (_ & _ & Hx) _ _].
    by eapply (rounds_go_on stable Hst T chunk_floats s Hfast b1 b2 x Hb es b1').
  - intros x cb Hb He. destruct (first_round float_ops chunkFloat s b1 b2 x Hb es) as [b1' H0]. pose proof Hb as [_ _ _ _ _ (_ & [last M1] & Hx) _ _].
    destruct (Timestamps x) as [|mn ts] eqn:Et; [by unfold ArrayValues.MaxTime in M1; rewrite Et in M1|]. exists mn, last. split_and!; [done|done|].
    apply (rounds_go_on stable Hst float_ops chunkFloat s Hfast b1 b2 x Hb es b1' (with_values (MkRun [b1'; b2] [] x empty es) empty)); [done| |done| |done].
    + unfold chunkFloat, chunk. cbn [r_values]. rewrite (bool_decide_false (size s < Len x)%nat) by (cbn in *; lia).
      rewrite (bool_decide_true (0 < Len x)%nat) by (unfold Len; rewrite Et; cbn; lia).
      unfold ArrayValues.MaxTime in M1. rewrite Et in *. cbn [Values.MaxTime] in M1.
      destruct (index (mn :: ts) (length (mn :: ts) - 1)) as [mx|e|]; [|done..]. cbn in M1. injection M1 as <-.
      cbn [index lookup list_lookup mbind outcome_bind]. unfold index. cbn [lookup list_lookup mbind outcome_bind]. by rewrite He.
    + cbn in *; lia.
Qed.

(** The value files of the region: file 1 alone. A block of one integer and one of one
    float, and the blocks of pointers after them. *)
Definition hang_settings : settings := MkSettings 2 20 false 100 {[0 := VFileManager.NewVFileManager 100 10 0]} [97] [].
Definition pointer_bytes (no : Z) : list Z := Block.WithPtrFlag 1 :: VFile.ptr_bytes (VFile.MkPtr 2 3 0 no 10 0).
Definition plain1 : block := MkBlock [97] 1 1 1 (int_block [(1, 10)]) [] MaxInt64 MinInt64.
Definition pointers2 : block := MkBlock [97] 2 3 1 (pointer_bytes 1) [] MaxInt64 MinInt64.
Definition one_float : Array Z := NewArrayFromValues [(1, 4607182418800017408)].
Definition float_bytes : list Z := match encode float_ops one_float with Ok b => b | _ => [] end.
Definition plain_float : block := MkBlock [97] 1 1 0 float_bytes [] MaxInt64 MinInt64.

Lemma sample_pointers {A} (T : ops A) b x n last : decode T (data b) = Ok x -> key b = [97] -> minTime b = 1 -> maxTime b = 1 -> waiting b ->
  Block.IsPtrBlock (data b) = Ok false -> Block.BlockCount (data b) = Ok n -> n < 2 -> ArrayValues.MaxTime x = Ok last -> (Len x < 2)%nat ->
  small_before_pointers T hang_settings b pointers2 x.
Proof.
  intros Hd Hk H1 H2 Hw Hp Hn Hlt Hm Hl. constructor; [done|by rewrite Hk|rewrite H1, H2; cbn; lia|done|by exists n|by eauto|vm_compute; reflexivity|].
  eexists. split; [vm_compute; reflexivity|cbn; lia].
Qed.

Lemma pointer_block_hangs_witness : exists x cb,
  goes_round (GoSort.Stable Less) integer_ops chunk_floats hang_settings (MkRun [plain1; pointers2] [] empty empty (MkErrors [] 0)) [] pointers2 /\
  small_before_pointers integer_ops hang_settings plain1 pointers2 x /\ encode float_ops one_float = Ok cb /\
  exists mn mx, head (Timestamps one_float) = Some mn /\ ArrayValues.MaxTime one_float = Ok mx /\
    goes_round (GoSort.Stable Less) float_ops chunkFloat hang_settings (MkRun [plain_float; pointers2] [] empty empty (MkErrors [] 0))
      [MkBlock [97] mn mx 0 cb [] 0 0] pointers2.
Proof.
  assert (small_before_pointers integer_ops hang_settings plain1 pointers2 (NewArrayFromValues [(1, 10)])) as Hi.
  { eapply sample_pointers; try done; vm_compute; done. }
  assert (small_before_pointers float_ops hang_settings plain_float pointers2 one_float) as Hf.
  { eapply sample_pointers; try done; vm_compute; done. }
  exists (NewArrayFromValues [(1, 10)]), float_bytes. split; [|split; [done|split; [vm_compute; reflexivity|]]].
  - by apply (proj1 (pointer_block_hangs (GoSort.Stable Less) hang_settings plain1 pointers2 (MkErrors [] 0) Stable_sort eq_refl) _ _ _ Hi).
  - apply (proj2 (pointer_block_hangs (GoSort.Stable Less) hang_settings plain_float pointers2 (MkErrors [] 0) Stable_sort eq_refl) _ float_bytes Hf). vm_compute; reflexivity.
Defined.

(** A block with deletions is decoded. *)
Lemma merge_deleted {A} stable (T : ops A) pc s fuel (b : block) es : stable_sort stable -> tombstones b <> [] ->
  merge stable T pc s fuel (MkRun [b] [] empty empty es) =
    ('(r, m) ← combine T pc s fuel true (MkRun [b] [] empty empty es); Ok (with_merged r m)).
Proof.
  intros Hst Ht. unfold merge. cbn [r_blocks r_merged r_values length]. rewrite bool_decide_false by done. cbn [andb].
  rewrite (stable_keeps _ [b] Hst) by (apply sortable_one || (repeat constructor)). cbn [with_blocks r_blocks r_values]. rewrite bool_decide_true by done.
  rewrite bool_decide_true by (destruct (tombstones b); [done|cbn; lia]). done.
Qed.

(** What its window is loaded with. *)
Lemma dedup_single {A} (T : ops A) s fuel (b : block) es : (0 < size s)%nat -> read b = false -> minTime b <= maxTime b ->
  dedup_loop T s (S fuel) (MkRun [b] [] empty empty es) =
    ('(bs, v, e) ← window_loop T s (minTime b) (maxTime b) [b] empty;
     let r := MkRun bs [] v empty es in match e with Some e => Ok (r, Some e) | None => dedup_loop T s fuel r end).
Proof.
  intros Hs Hr Hle. cbn [dedup_loop r_blocks r_values]. rewrite !bool_decide_true by (cbn; lia). cbn [andb drop_read]. rewrite Hr. unfold adjust. cbn [foldl adjust1].
  assert (overlapsTimeRange b (minTime b) (maxTime b) = true) as -> by (unfold overlapsTimeRange; lia).
  rewrite Hr. cbn [negb andb]. by rewrite !Z.ltb_irrefl, andb_false_r.
Qed.

(** The blocks of a pointer block whose value files were collected have no bytes; where
    such a block has to be decoded, as it does with a deletion, the merge panics. *)
Theorem collected_block_panics {A} stable (T : ops A) pc s fuel (b : block) es :
  stable_sort stable -> read b = false -> tombstones b <> [] -> minTime b <= maxTime b -> (0 < size s)%nat ->
  load T s (data b) = Ok empty -> merge stable T pc s (S fuel) (MkRun [b] [] empty empty es) = Panic.
Proof.
  intros Hst Hr Ht Hle Hs Hl. rewrite merge_deleted by done. unfold combine. rewrite dedup_single by done. cbn [window_loop].
  assert (overlapsTimeRange b (minTime b) (maxTime b) = true) as -> by (unfold overlapsTimeRange; lia). by rewrite Hr, Hl.
Qed.

Definition collected : block := MkBlock [97] 2 3 1 (pointer_bytes 7) [MkRange 0 9] MaxInt64 MinInt64.
Lemma collected_block_panics_witness : load integer_ops hang_settings (data collected) = Ok empty /\
  merge (GoSort.Stable Less) integer_ops chunk_floats hang_settings 5 (MkRun [collected] [] empty empty (MkErrors [] 0)) = Panic.
Proof.
  split; [vm_compute; reflexivity|]. apply (collected_block_panics (GoSort.Stable Less) integer_ops chunk_floats hang_settings 4 collected).
  - apply Stable_sort.
  - done.
  - done.
  - cbn; lia.
  - cbn; lia.
  - vm_compute; reflexivity.
Defined.

(** At the end of all files. *)
Record ended {S} {Src : BlockSource S} (cf : config) (b : block) (it : sstBatchKeyIterator S) : Prop := {
  en_blocks : blocks it = [b];
  en_merged : merged it = [];
  en_values : hasMergedValues it = false /\ mergedFloatValues it = empty;
  en_type : Block.GetBaseType (it_typ it) = Block.BlockFloat64;
  en_sources : Forall (fun s => src_Next s = Ok (s, false) /\ src_Err s = None) (iterators it);
  en_buf : buf it = replicate (length (iterators it)) [];
  en_files : (length (iterators it) <= length (sstFiles cf))%nat }.

Lemma fill_all_ended {S} {Src : BlockSource S} (cf : config) fuel es (ss : list S) :
  Forall (fun s => src_Next s = Ok (s, false) /\ src_Err s = None) ss -> forall files cur, (length ss <= length files)%nat ->
  exists cur', fill_all cf fuel ss (replicate (length ss) []) files cur es = Ok (ss, replicate (length ss) [], cur', es).
Proof.
  induction 1 as [|s ss [Hs He] _ IH]; intros files cur Hl; [by exists cur|]. destruct files as [|f files]; [cbn in Hl; lia|].
  cbn [length replicate fill_all]. rewrite bool_decide_true by done. unfold fill. rewrite Hs. cbn [mbind outcome_bind]. rewrite He. cbn [mbind outcome_bind error_of app foldl].
  destruct (IH files f) as [cur' E]; [cbn in Hl; lia|]. exists cur'. by rewrite E.
Qed.

Lemma min_key_none n : min_key (replicate n []) = ([], 0).
Proof. unfold min_key. by induction n. Qed.

Lemma taken_none k n : taken k (replicate n []) = [].
Proof. unfold taken. by induction n. Qed.

Lemma kept_none k n : kept k (replicate n []) = replicate n [].
Proof. unfold kept. induction n as [|n IH]; [done|]. cbn [replicate fmap list_fmap has_key]. f_equal. done. Qed.

Lemma undecodable_merge stable T s fuel (b : block) err es :
  stable_sort stable -> read b = false -> tombstones b <> [] -> minTime b <= maxTime b -> (0 < size s)%nat -> load T s (data b) = Err err ->
  exists es', merge stable T (chunk T) s (S fuel) (MkRun [b] [] (empty : Array Z) empty es) = Ok (MkRun [b] [] empty empty es').
Proof.
  intros Hst Hr Ht Hle Hs Hl. rewrite merge_deleted by done. unfold combine. rewrite dedup_single by done. cbn [window_loop].
  assert (overlapsTimeRange b (minTime b) (maxTime b) = true) as -> by (unfold overlapsTimeRange; lia). rewrite Hr, Hl. by eexists.
Qed.

Section undecodable.
Context {S : Type} {Src : BlockSource S} (stable : list block -> list block) (sn : StringCodec.snappy) (cf : config) (b : block) (err : string).
Context (Hst : stable_sort stable) (Hsz : (0 < c_size cf)%nat) (Hr : read b = false) (Ht : tombstones b <> []) (Hle : minTime b <= maxTime b).
Context (Hload : load float_ops (MkSettings (c_size cf) (c_threshold cf) (c_fast cf) (c_maxErrors cf) (c_vr cf) [] []) (data b) = Err err).

Lemma merge_it_ended fuel (it : sstBatchKeyIterator S) : ended cf b it ->
  exists it', merge_it stable sn cf (Datatypes.S fuel) it = Ok it' /\ ended cf b it'.
Proof.
  intros Hen. pose proof Hen as [Hb Hm [Hv Hf] Hty _ _ _]. unfold merge_it. rewrite Hty. cbn [Block.BlockFloat64 Z.eqb]. unfold mergeFloat, run_of. rewrite Hb, Hm, Hf.
  destruct (undecodable_merge stable float_ops (settings_of cf it) fuel b err (errs it) Hst Hr Ht Hle Hsz Hload) as [es' E].
  change chunkFloat with (chunk float_ops). rewrite E. cbn [mbind outcome_bind r_blocks r_merged r_values r_errs]. eexists. split; [done|].
  destruct Hen, it. unfold hasMergedValues in *. cbn in *. subst. constructor; done.
Qed.

Lemma merge_it_no_fuel (it : sstBatchKeyIterator S) : ended cf b it -> merge_it stable sn cf 0 it = Err no_fuel.
Proof.
  intros [Hb Hm [Hv Hf] Hty _ _ _]. unfold merge_it. rewrite Hty. cbn [Block.BlockFloat64 Z.eqb]. unfold mergeFloat, run_of. rewrite Hb, Hm, Hf.
  by rewrite merge_deleted by done.
Qed.

Lemma read_on_ended fuel (it : sstBatchKeyIterator S) : ended cf b it -> exists it', read_on cf fuel it = Ok it' /\ ended cf b it'.
Proof.
  intros [Hb Hm Hv Hty Hs Hbuf Hlen]. unfold read_on. rewrite Hbuf.
  destruct (fill_all_ended cf fuel (errs it) (iterators it) Hs (sstFiles cf) (currentSst it) Hlen) as [cur ->]. cbn [mbind outcome_bind].
  assert (refilled (replicate (length (iterators it)) []) (replicate (length (iterators it)) []) = false) as ->.
  { unfold refilled. generalize (length (iterators it)). intros n. by induction n. }
  rewrite andb_false_r, min_key_none, taken_none, kept_none, app_nil_r. eexists. split; [done|]. constructor; done.
Qed.
End undecodable.

(** C35: a block of floats with deletions that cannot be decoded is kept by the iterator, whose
    next round meets it again: at the end of the files [Next] goes round for ever. *)
Theorem undecodable_block_hangs {S} {Src : BlockSource S} stable sn (cf : config) (it : sstBatchKeyIterator S) b err :
  stable_sort stable -> (0 < c_size cf)%nat -> ended cf b it -> read b = false -> tombstones b <> [] -> minTime b <= maxTime b ->
  load float_ops (settings_of cf it) (data b) = Err err -> forall fuel, Next stable sn cf fuel it = Err no_fuel.
Proof.
  intros Hst Hsz Hen Hr Ht Hle Hl fuel.
  change (load float_ops (MkSettings (c_size cf) (c_threshold cf) (c_fast cf) (c_maxErrors cf) (c_vr cf) [] []) (data b) = Err err) in Hl.
  revert it Hen. induction fuel as [|fuel IH]; intros it Hen; [done|]. pose proof Hen as [Hb Hm [Hv _] _ _ _ _].
  cbn [Next]. replace (with_it_merged it (drop 1 (merged it))) with it by (destruct it; cbn in Hm |- *; by subst).
  rewrite Hm, Hv. rewrite (bool_decide_false (0 < length [])%nat) by (cbn; lia). cbn [try_merge mbind outcome_bind].
  rewrite Hb, (bool_decide_true (0 < length [b])%nat) by (cbn; lia).
  unfold try_merge. destruct fuel as [|fuel]; [by rewrite (merge_it_no_fuel stable sn cf b Hst Ht)|].
  destruct (merge_it_ended stable sn cf b err Hst Hsz Hr Ht Hle Hl fuel it Hen) as (it1 & -> & Hen1). cbn [mbind outcome_bind].
  assert (some_left it1 = false) as -> by (destruct Hen1 as [_ Hm1 [Hv1 _] _ _ _ _]; unfold some_left; by rewrite Hm1, Hv1).
  destruct (read_on_ended cf b (Datatypes.S fuel) it1 Hen1) as (it2 & -> & Hen2). cbn [mbind outcome_bind]. rewrite (en_blocks _ _ _ Hen2).
  rewrite bool_decide_false by done.
  destruct (merge_it_ended stable sn cf b err Hst Hsz Hr Ht Hle Hl fuel it2 Hen2) as (it3 & -> & Hen3). cbn [mbind outcome_bind].
  rewrite (en_merged _ _ _ Hen3), bool_decide_true by done. by apply IH.
Qed.

(** A block of no bytes but its type, after the last key of a file. *)
Definition damaged : block := MkBlock [97] 2 3 0 [0] [MkRange 0 9] MaxInt64 MinInt64.
Definition after_reader1 := (reader1, SSTReader.MkIter 1 1 [97] [] 1 None).
Definition at_the_end : sstBatchKeyIterator (SSTReader.SSTReader * SSTReader.BlockIterator) :=
  MkIt [after_reader1] [[]] [damaged] [] empty empty empty empty empty [97] 0 [1] (MkErrors [] 0).
Lemma undecodable_block_hangs_witness : ended sample_config damaged at_the_end /\
  forall fuel, Next (GoSort.Stable Less) StringCodec.identity_snappy sample_config fuel at_the_end = Err no_fuel.
Proof.
  assert (ended sample_config damaged at_the_end) as Hen by (constructor; try done; [repeat constructor|cbn; lia]).
  split; [done|]. eapply (undecodable_block_hangs (GoSort.Stable Less) StringCodec.identity_snappy sample_config at_the_end damaged).
  - apply Stable_sort.
  - cbn; lia.
  - done.
  - done.
  - done.
  - cbn; lia.
  - vm_compute; reflexivity.
Defined.

(** C37: when the block of the last key cannot be read, its key is taken for the empty one,
    which is also what comes next: the iterator over the file asks for ever. *)
Theorem unreadable_block_hangs t b b1 e err :
  SSTReader.Next t b = Ok (b1, true) -> SSTReader.b_entries b1 = [e] -> SSTReader.n_keys b1 - SSTReader.i b1 <= 1 -> SSTReader.b_err b1 = None ->
  SSTReader.ReadBytes t e = Err err -> forall fuel, fill fuel (t, b) = Err no_fuel.
Proof.
  intros Hn He Hk Hno Hr fuel. unfold fill. rewrite Next_file, Hn. cbn [mbind outcome_bind]. unfold next_block, src_Read, file_source, SSTReader.iter_Read.
  rewrite Hno, He. cbn [index lookup list_lookup]. change (index [e] 0) with (Ok e). cbv iota. rewrite Hr. cbn [mbind outcome_bind MergeBlocks.key].
  set (b2 := SSTReader.MkIter _ _ _ _ _ _).
  assert (forall fuel, same_key fuel [] (t, b2) = Err no_fuel) as Hsame; [|by rewrite Hsame].
  clear fuel. induction fuel as [|fuel IH]; [done|]. cbn [same_key]. rewrite PeekNext_file. unfold SSTReader.PeekNext. cbn [b2 SSTReader.b_entries SSTReader.n_keys SSTReader.i].
  rewrite (bool_decide_false (1 < length [e])%nat) by (cbn; lia). rewrite (proj2 (Z.ltb_ge _ _) Hk). cbn [mbind outcome_bind]. rewrite bool_decide_true by done.
  rewrite Next_file. assert (SSTReader.Next t b2 = Ok (b2, false)) as -> by done. cbn [mbind outcome_bind].
  assert (next_block (t, b2) = Ok ((t, b2), MkBlock [] 0 0 0 [] (SSTReader.reader_TombstoneRange t []) MaxInt64 MinInt64, Some err)) as -> by done.
  cbn [mbind outcome_bind]. by rewrite IH.
Qed.

(** The index announces more bytes than the file has. *)
Definition cut_reader := sample_reader (stored_block b1) [MkSection [97] 1 [MkIndexEntry 1 3 5 1000]] [97] [97] 1 3 ∅.
Lemma unreadable_block_hangs_witness : SSTReader.ReadBytes cut_reader (MkIndexEntry 1 3 5 1000) = Err closed_file /\
  forall fuel, fill fuel (cut_reader, SSTReader.NewBlockIterator cut_reader) = Err no_fuel.
Proof.
  split; [vm_compute; reflexivity|].
  eapply (unreadable_block_hangs cut_reader (SSTReader.NewBlockIterator cut_reader)); [vm_compute; reflexivity|reflexivity|vm_compute; discriminate|reflexivity|vm_compute; reflexivity].
Defined.

End Compaction.
