(* ===== verification/KeyCursor.v ===== *)
(** Cursors over the blocks of a key in several data files:
    src/storage/store/sst_file_key_cursor.go, the ten copies of ReadBlock in
    sst_file_key_cursor_value.gen.go and sst_file_key_cursor_array.gen.go, and
    [locations] of sst_file.go.

    A cursor shares its locations between [seeks] and [current]: [current] holds positions in
    [seeks].  The files are in a heap of open files, which a location names.  An error ends a
    cursor: what the code leaves of it is not kept. *)
From stdpp Require Import gmap sorting.
From S2P Require Import Prelude StringCodec Values ArrayValues Codec Block Bytes Util SSTIndex IndirectIndex SSTAccess SSTReader.
Import Util.

Module KeyCursor.

(** ** Files *)
Class SSTFile (F : Type) := {
  f_Path : F -> list Z;
  f_TimeRange : F -> Z * Z;
  f_TombstoneRange : F -> list Z -> list TimeRange;
  f_ReadEntries : F -> list Z -> outcome (list SSTIndex.IndexEntry);
  f_Ref : F -> F;
  f_Unref : F -> F }.

(** A reader with the path of its file. *)
#[global] Instance reader_file : SSTFile (list Z * SSTReader.SSTReader) := {
  f_Path f := fst f;
  f_TimeRange f := SSTReader.reader_TimeRange (snd f);
  f_TombstoneRange f k := SSTReader.reader_TombstoneRange (snd f) k;
  f_ReadEntries f k := es ← SSTReader.reader_ReadEntries (snd f) k; Ok (default [] es);
  f_Ref f := (fst f, SSTReader.Ref (snd f));
  f_Unref f := (fst f, SSTReader.Unref (snd f)) }.

(** ** Locations *)
Record location := MkLoc { file : nat; entry : SSTIndex.IndexEntry; readMin : Z; readMax : Z }.

Abbreviation entryMin l := (SSTIndex.MinTime (entry l)).
Abbreviation entryMax l := (SSTIndex.MaxTime (entry l)).
Definition overlaps (l : location) (min max : Z) : bool := SSTIndex.entry_OverlapsTimeRange (entry l) min max.

Definition read (l : location) : bool := (readMin l <=? entryMin l) && (entryMax l <=? readMax l).
Definition markRead (l : location) (min max : Z) : location :=
  MkLoc (file l) (entry l) (if min <? readMin l then min else readMin l) (if readMax l <? max then max else readMax l).

Record KeyCursor := MkCursor { key : list Z; seeks : list location; current : list nat; pos : Z; ascending : bool }.

Definition with_seeks (c : KeyCursor) (s : list location) : KeyCursor := MkCursor (key c) s (current c) (pos c) (ascending c).
Definition with_current (c : KeyCursor) (l : list nat) : KeyCursor := MkCursor (key c) (seeks c) l (pos c) (ascending c).
Definition with_pos (c : KeyCursor) (p : Z) : KeyCursor := MkCursor (key c) (seeks c) (current c) p (ascending c).

Definition MaxInt64 : Z := 2 ^ 63 - 1.
Definition MinInt64 : Z := - 2 ^ 63.

Section Files.
Context {F : Type} `{SSTFile F}.

Definition path_of (fs : list F) (l : location) : list Z := match fs !! file l with Some f => f_Path f | None => [] end.

(** Blocks that overlap are in the order of their files. *)
Definition ascLess (fs : list F) (a b : location) : bool :=
  if overlaps a (entryMin b) (entryMax b) then Compare (path_of fs a) (path_of fs b) <? 0 else entryMin a <? entryMin b.
Definition descLess (fs : list F) (a b : location) : bool :=
  if overlaps a (entryMin b) (entryMax b) then Compare (path_of fs a) (path_of fs b) <? 0 else entryMax a <? entryMax b.

(** ** [FileStore.locations] *)
Definition all_deleted (ts : list TimeRange) (e : SSTIndex.IndexEntry) : bool :=
  existsb (fun t => (Min t <=? SSTIndex.MinTime e) && (SSTIndex.MaxTime e <=? Max t)) ts.

(** What is on the other side of [t] is marked as read; [t - 1] and [t + 1] wrap. *)
Definition entry_locations (i : nat) (ts : list TimeRange) (t : Z) (ascending : bool) (es : list SSTIndex.IndexEntry) : list location :=
  omap (fun e =>
    if all_deleted ts e then None
    else if ascending && (SSTIndex.MaxTime e <? t) then None
    else if negb ascending && (t <? SSTIndex.MinTime e) then None
    else Some (if ascending then MkLoc i e MinInt64 (i64 (t - 1)) else MkLoc i e (i64 (t + 1)) MaxInt64)) es.

Fixpoint locations_from (i : nat) (fs : list F) (key : list Z) (t : Z) (ascending : bool) : outcome (list location) :=
  match fs with
  | [] => Ok []
  | f :: fs =>
      let '(minTime, maxTime) := f_TimeRange f in
      if (ascending && (maxTime <? t)) || (negb ascending && (t <? minTime)) then locations_from (S i) fs key t ascending
      else
        es ← f_ReadEntries f key;
        ls ← locations_from (S i) fs key t ascending;
        Ok (entry_locations i (f_TombstoneRange f key) t ascending es ++ ls)
  end.
Definition locations (fs : list F) := locations_from 0 fs.

(** ** Making a cursor *)

(** [sort.Sort] is a parameter. *)
Context (sort : (location -> location -> bool) -> list location -> list location).

Definition holds (p : location -> bool) (s : list location) (i : nat) : bool := match s !! i with Some l => p l | None => false end.
Definition seekAscending (c : KeyCursor) (t : Z) : KeyCursor :=
  let found := List.filter (holds (fun l => (t <? entryMin l) || SSTIndex.entry_Contains (entry l) t) (seeks c)) (seq 0 (length (seeks c))) in
  MkCursor (key c) (seeks c) found (match found with i :: _ => Z.of_nat i | [] => pos c end) (ascending c).
Definition seekDescending (c : KeyCursor) (t : Z) : KeyCursor :=
  let found := List.filter (holds (fun l => (entryMax l <? t) || SSTIndex.entry_Contains (entry l) t) (seeks c)) (rev (seq 0 (length (seeks c)))) in
  MkCursor (key c) (seeks c) found (match found with i :: _ => Z.of_nat i | [] => pos c end) (ascending c).
Definition seek (c : KeyCursor) (t : Z) : KeyCursor :=
  if bool_decide (length (seeks c) = 0)%nat then c
  else if ascending c then seekAscending c t else seekDescending c t.

(** Every location counts as a use of its file. *)
Definition ref_all (use : F -> F) (fs : list F) (ls : list location) : list F := foldl (fun fs l => alter use (file l) fs) fs ls.

Definition newKeyCursor (fs : list F) (key : list Z) (t : Z) (ascending : bool) : outcome (list F * KeyCursor) :=
  ls ← locations fs key t ascending;
  let ls := sort (if ascending then ascLess fs else descLess fs) ls in
  Ok (ref_all f_Ref fs ls, seek (MkCursor key ls [] 0 ascending) t).

Definition Close (fs : list F) (c : KeyCursor) : list F * KeyCursor :=
  (ref_all f_Unref fs (seeks c), MkCursor (key c) [] [] (pos c) (ascending c)).

(** ** [Next] *)
Definition is_read (c : KeyCursor) : nat -> bool := holds read (seeks c).

Fixpoint skip_read (c : KeyCursor) (candidates : list nat) : list nat :=
  match candidates with
  | i :: is' => if is_read c i then skip_read c is' else candidates
  | [] => []
  end.

(** The positions after [pos], and those before it from the last. *)
Definition after (c : KeyCursor) : list nat := filter (fun i => pos c < Z.of_nat i) (seq 0 (length (seeks c))).
Definition before_pos (c : KeyCursor) : list nat := rev (filter (fun i => Z.of_nat i < pos c) (seq 0 (length (seeks c)))).

Definition nextAscending (c : KeyCursor) : KeyCursor :=
  match skip_read c (after c) with
  | [] => with_pos c (Z.max (pos c + 1) (Z.of_nat (length (seeks c))))
  | (i :: is') => MkCursor (key c) (seeks c) (i :: List.filter (fun j => negb (is_read c j)) is') (Z.of_nat i) (ascending c)
  end.
(** The position itself is taken twice. *)
Definition nextDescending (c : KeyCursor) : KeyCursor :=
  match skip_read c (before_pos c) with
  | [] => with_pos c (Z.min (pos c - 1) (-1))
  | (i :: is') => MkCursor (key c) (seeks c) (i :: List.filter (fun j => negb (is_read c j)) (i :: is')) (Z.of_nat i) (ascending c)
  end.

Definition Next (c : KeyCursor) : KeyCursor :=
  match current c with
  | [] => c
  | i :: _ =>
      if negb (is_read c i) then c
      else let c := with_current c [] in if ascending c then nextAscending c else nextDescending c
  end.
End Files.

(** ** [ReadBlock] *)

(** The values of a block, as a list or as an array. *)
Class Columns (C : Type) := {
  c_empty : C;
  c_Len : C -> nat;
  c_MinTime : C -> outcome Z;
  c_MaxTime : C -> outcome Z;
  c_Exclude : C -> Z -> Z -> outcome C;
  c_Include : C -> Z -> Z -> outcome C;
  c_Merge : C -> C -> outcome C }.

Definition values_columns {V} `{Values.Timestamped V} : Columns (list V) := {|
  c_empty := []; c_Len := length; c_MinTime := Values.MinTime; c_MaxTime := Values.MaxTime;
  c_Exclude := Values.Exclude; c_Include := Values.Include; c_Merge := Values.Merge |}.
Definition array_columns {A} (zero : A) : Columns (ArrayValues.Array A) := {|
  c_empty := ArrayValues.MkArray [] []; c_Len := ArrayValues.Len; c_MinTime := ArrayValues.MinTime; c_MaxTime := ArrayValues.MaxTime;
  c_Exclude := ArrayValues.Exclude; c_Include := ArrayValues.Include; c_Merge := ArrayValues.Merge zero |}.

Section Read.
Context {F : Type} `{SSTFile F} {C St : Type} `{Columns C}.
(** Reading a block at an entry of a file; the values come with the decoders used. *)
Context (ReadBlockAt : F -> SSTIndex.IndexEntry -> St -> outcome (C * St)) (fs : list F).

Fixpoint excludeTombstones (ts : list TimeRange) (values : C) : outcome C :=
  match ts with
  | [] => Ok values
  | t :: ts => values ← c_Exclude values (Min t) (Max t); excludeTombstones ts values
  end.

Definition location_at (s : list location) (i : nat) : outcome (location * F) :=
  match s !! i with
  | Some l => match fs !! file l with Some f => Ok (l, f) | None => Panic end
  | None => Panic
  end.

Definition mark_at (s : list location) (i : nat) (min max : Z) : list location := alter (fun l => markRead l min max) i s.

(** The window of time grows to the start, or the end, of the other blocks... *)
Definition window_asc (s : list location) (minT : Z) (others : list nat) : Z :=
  foldl (fun minT i => match s !! i with
                       | Some l => if (entryMin l <? minT) && negb (read l) then entryMin l else minT
                       | None => minT end) minT others.
Definition window_desc (s : list location) (maxT : Z) (others : list nat) : Z :=
  foldl (fun maxT i => match s !! i with
                       | Some l => if (maxT <? entryMax l) && negb (read l) then entryMax l else maxT
                       | None => maxT end) maxT others.

(** ...and to the other end of the first one that overlaps. *)
Fixpoint first_overlap (s : list location) (minT maxT : Z) (others : list nat) : option location :=
  match others with
  | [] => None
  | i :: is' => match s !! i with
              | Some l => if overlaps l minT maxT && negb (read l) then Some l else first_overlap s minT maxT is'
              | None => first_overlap s minT maxT is'
              end
  end.

(** What the others have in the window is merged; all of them are marked. *)
Fixpoint merge_others (asc : bool) (k : list Z) (minT maxT : Z) (s : list location) (others : list nat) (values : C) (st : St)
    : outcome (list location * C * St) :=
  match others with
  | [] => Ok (s, values, st)
  | i :: is' =>
      '(cur, f) ← location_at s i;
      if negb (overlaps cur minT maxT) || read cur then merge_others asc k minT maxT (mark_at s i minT maxT) is' values st
      else
        '(v, st) ← ReadBlockAt f (entry cur) st;
        v ← excludeTombstones (f_TombstoneRange f k) v;
        v ← c_Exclude v (readMin cur) (readMax cur);
        values ← (if bool_decide (0 < c_Len v)%nat then
                    v ← c_Include v minT maxT;
                    if asc then c_Merge values v else c_Merge v values
                  else Ok values);
        merge_others asc k minT maxT (mark_at s i minT maxT) is' values st
  end.

(** A round of [LOOP] for every block of which nothing is left. *)
Fixpoint read_loop (c : KeyCursor) (blocks : list nat) (st : St) : outcome (KeyCursor * C * St) :=
  match blocks with
  | [] => Ok (with_current c [], c_empty, st)
  | i :: others =>
      '(first, f) ← location_at (seeks c) i;
      '(values, st) ← ReadBlockAt f (entry first) st;
      values ← c_Exclude values (readMin first) (readMax first);
      values ← excludeTombstones (f_TombstoneRange f (key c)) values;
      if bool_decide (c_Len values = 0)%nat then read_loop c others st
      else
        minT ← c_MinTime values;
        maxT ← c_MaxTime values;
        let c := with_current c blocks in
        if bool_decide (others = []) then Ok (with_seeks c (mark_at (seeks c) i minT maxT), values, st)
        else
          let minT := if ascending c then window_asc (seeks c) minT others else minT in
          let maxT := if ascending c then maxT else window_desc (seeks c) maxT others in
          '(minT, maxT, values) ← (match first_overlap (seeks c) minT maxT others with
            | Some l =>
                let maxT := if ascending c && (maxT <? entryMax l) then entryMax l else maxT in
                let minT := if negb (ascending c) && (entryMin l <? minT) then entryMin l else minT in
                values ← c_Include values minT maxT;
                Ok (minT, maxT, values)
            | None => Ok (minT, maxT, values) end);
          '(s, values, st) ← merge_others (ascending c) (key c) minT maxT (seeks c) others values st;
          Ok (with_seeks c (mark_at s i minT maxT), values, st)
  end.
Definition ReadBlock (c : KeyCursor) (st : St) : outcome (KeyCursor * C * St) := read_loop c (current c) st.
End Read.

(** ** The copies *)
Section copies.
Abbreviation file := (list Z * SSTReader.SSTReader)%type.
Abbreviation arrays f := (fun (x : file) e (_ : unit) => a ← f (snd x) e; Ok (a, tt)).
Context {FE FD : Type} {FloatE : Codec.ValueEncoder FE Z} {FloatD : Codec.ValueDecoder FD Z}.
Context (NewFloatDecoder : FD) (sn : StringCodec.snappy).
Abbreviation pools := (Block.pools (FE := FE) (FD := FD)).

Definition ReadFloatBlock := ReadBlock (H0 := values_columns (V := Z * Z)) (St := pools) (fun x : file => SSTReader.ReadFloatBlockAt NewFloatDecoder (snd x)).
Definition ReadIntegerBlock := ReadBlock (H0 := values_columns (V := Z * Z)) (St := pools) (fun x : file => SSTReader.ReadIntegerBlockAt (snd x)).
Definition ReadUnsignedBlock := ReadBlock (H0 := values_columns (V := Z * Z)) (St := pools) (fun x : file => SSTReader.ReadUnsignedBlockAt (snd x)).
Definition ReadStringBlock := ReadBlock (H0 := values_columns (V := Z * list Z)) (St := pools) (fun x : file => SSTReader.ReadStringBlockAt sn (snd x)).
Definition ReadBooleanBlock := ReadBlock (H0 := values_columns (V := Z * bool)) (St := pools) (fun x : file => SSTReader.ReadBooleanBlockAt (snd x)).
Definition ReadFloatArrayBlock := ReadBlock (H0 := array_columns 0) (arrays SSTReader.ReadFloatArrayBlockAt).
Definition ReadIntegerArrayBlock := ReadBlock (H0 := array_columns 0) (arrays SSTReader.ReadIntegerArrayBlockAt).
Definition ReadUnsignedArrayBlock := ReadBlock (H0 := array_columns 0) (arrays SSTReader.ReadUnsignedArrayBlockAt).
Definition ReadStringArrayBlock := ReadBlock (H0 := array_columns []) (arrays (SSTReader.ReadStringArrayBlockAt sn)).
Definition ReadBooleanArrayBlock := ReadBlock (H0 := array_columns false) (arrays SSTReader.ReadBooleanArrayBlockAt).

Definition excludeTombstonesFloatValues := excludeTombstones (H0 := values_columns (V := Z * Z)).
Definition excludeTombstonesIntegerValues := excludeTombstones (H0 := values_columns (V := Z * Z)).
Definition excludeTombstonesUnsignedValues := excludeTombstones (H0 := values_columns (V := Z * Z)).
Definition excludeTombstonesStringValues := excludeTombstones (H0 := values_columns (V := Z * list Z)).
Definition excludeTombstonesBooleanValues := excludeTombstones (H0 := values_columns (V := Z * bool)).
Definition excludeTombstonesFloatArray := excludeTombstones (H0 := array_columns (A := Z) 0).
Definition excludeTombstonesIntegerArray := excludeTombstones (H0 := array_columns (A := Z) 0).
Definition excludeTombstonesUnsignedArray := excludeTombstones (H0 := array_columns (A := Z) 0).
Definition excludeTombstonesStringArray := excludeTombstones (H0 := array_columns (A := list Z) []).
Definition excludeTombstonesBooleanArray := excludeTombstones (H0 := array_columns (A := bool) false).
End copies.

End KeyCursor.
