(* ===== verification/KeyCursorLaws.v ===== *)
(** What a cursor over the blocks of a key gives: the laws of KeyCursor.v. *)
From stdpp Require Import gmap sorting.
From S2P Require Import Prelude Values ArrayValues Bytes Util SSTIndex IndirectIndex KeyCursor MergeLaws.
Import Values ArrayValues Util MergeLaws KeyCursor.

Module KeyCursorLaws.

#[local] Existing Instance row_value.

(** ** Rows laid over each other *)
Section stack.
Context {A : Type}.
Implicit Types (r : list (Z * A)) (ls : list (list (Z * A))).

Lemma series_snoc r x : series (r ++ [x]) = <[fst x := x]> (series r).
Proof. rewrite series_app, series_cons, series_nil, (left_id_L ∅ (∪)). symmetry. apply insert_union_singleton_l. Qed.

Lemma series_key r t v : series r !! t = Some v -> fst v = t.
Proof. by intros [? _]%series_lookup_Some. Qed.

(** A filter that looks at the time. *)
Section filtered.
Context (P : Z -> Prop) (Q : Z * A -> Prop) `{HQ : forall v, Decision (Q v)} (HP : forall v, Q v <-> P (fst v)).

Lemma series_filter r t v : series (filter Q r) !! t = Some v <-> P t /\ series r !! t = Some v.
Proof.
  induction r as [|x r IH] using rev_ind; [split; [done|by intros []]|]. rewrite filter_app, series_snoc.
  destruct (decide (Q x)) as [Hx|Hx].
  - rewrite filter_cons_True by done. change (filter _ []) with (@nil (Z * A)). rewrite series_snoc. destruct (decide (t = fst x)) as [->|Hne].
    + rewrite !lookup_insert_eq, <- HP. tauto.
    + by rewrite !lookup_insert_ne by done.
  - rewrite filter_cons_False by done. change (filter _ []) with (@nil (Z * A)). rewrite app_nil_r, IH. rewrite HP in Hx.
    destruct (decide (t = fst x)) as [->|Hne]; [tauto|]. by rewrite lookup_insert_ne by done.
Qed.
End filtered.

(** The later list covers the earlier. *)
Definition stack ls : gmap Z (Z * A) := foldl (fun m r => series r ∪ m) ∅ ls.

Lemma stack_snoc ls r : stack (ls ++ [r]) = series r ∪ stack ls.
Proof. unfold stack. by rewrite foldl_app. Qed.

Lemma stack_cons r ls : stack (r :: ls) = stack ls ∪ series r.
Proof.
  induction ls as [|s ls IH] using rev_ind; [unfold stack; cbn; by rewrite (left_id_L ∅ (∪)), (right_id_L ∅ (∪))|].
  change (r :: ls ++ [s]) with ((r :: ls) ++ [s]). by rewrite !stack_snoc, IH, (assoc_L (∪)).
Qed.

Lemma stack_filter (P : Z -> Prop) (Q : Z * A -> Prop) `{HQ : forall v, Decision (Q v)} (HP : forall v, Q v <-> P (fst v)) ls t v :
  stack (filter Q <$> ls) !! t = Some v <-> P t /\ stack ls !! t = Some v.
Proof.
  induction ls as [|r ls IH] using rev_ind; [split; [done|by intros []]|]. rewrite fmap_app. cbn [fmap list_fmap].
  rewrite !stack_snoc, !lookup_union_Some_raw, IH, (series_filter P Q HP), !eq_None_not_Some. split.
  - intros [Hr|[Hn [Ht Hv]]]; [tauto|]. split; [done|]. right. split; [|done]. intros [w Hw]. apply Hn. exists w. by apply (series_filter P Q HP).
  - intros [Ht [Hr|[Hn Hv]]]; [tauto|]. right. split; [|done]. intros [w Hw]. apply Hn. exists w. by apply (series_filter P Q HP) in Hw as [_ ?].
Qed.

Lemma stack_sublist {X} (f : X -> list (Z * A)) (us js : list X) : sublist us js -> NoDup js -> (forall j, j ∈ js -> j ∉ us -> f j = []) ->
  stack (f <$> us) = stack (f <$> js).
Proof.
  induction 1 as [|x us js Hs IH|x us js Hs IH]; intros Hnd He; [done|..]; apply NoDup_cons in Hnd as [Hx Hnd]; cbn [fmap list_fmap]; rewrite ?stack_cons.
  - f_equal. apply IH; [done|]. intros j Hj Hn. apply He; [by right|]. rewrite not_elem_of_cons. split; [by intros ->|done].
  - rewrite (He x); [|left|intros Hin; apply Hx; by eapply elem_of_sublist]. rewrite series_nil, (right_id_L ∅ (∪)).
    apply IH; [done|]. intros j Hj Hn. apply He; [by right|done].
Qed.

Lemma fold_over (slices : list (list (Z * A))) r : sorted r -> Forall sorted slices ->
  sorted (foldl merged r slices) /\ series (foldl merged r slices) = stack (r :: slices).
Proof.
  intros Hr Hs. revert r Hr. induction Hs as [|s slices Hs _ IH]; intros r Hr.
  - split; [done|]. unfold stack. cbn. by rewrite (right_id_L ∅ (∪)).
  - cbn [foldl]. destruct (merged_spec r s Hr Hs) as (Hm & _ & E). destruct (IH _ Hm) as [H1 H2]. split; [done|].
    rewrite H2, !stack_cons, E. by rewrite (assoc_L (∪)).
Qed.

Lemma fold_under (slices : list (list (Z * A))) r : sorted r -> Forall sorted slices ->
  sorted (foldl (fun acc s => merged s acc) r slices) /\ series (foldl (fun acc s => merged s acc) r slices) = stack (reverse (r :: slices)).
Proof.
  intros Hr Hs. revert r Hr. induction Hs as [|s slices Hs _ IH]; intros r Hr.
  - split; [done|]. unfold stack. cbn. by rewrite (right_id_L ∅ (∪)).
  - cbn [foldl]. destruct (merged_spec s r Hs Hr) as (Hm & _ & E). destruct (IH _ Hm) as [H1 H2]. split; [done|].
    rewrite H2, !reverse_cons, !stack_snoc, E. by rewrite (assoc_L (∪)).
Qed.
End stack.

(** ** Columns of rows *)
Class ColumnsLaws {C} (Cl : Columns C) {A} (rep : list (Z * A) -> C) : Prop := {
  cl_empty : c_empty = rep [];
  cl_Len r : c_Len (rep r) = length r;
  cl_MinTime r : c_MinTime (rep r) = Values.MinTime r;
  cl_MaxTime r : c_MaxTime (rep r) = Values.MaxTime r;
  cl_Exclude r mn mx : sorted r -> c_Exclude (rep r) mn mx = Ok (rep (filter (fun v => ~ (mn <= fst v <= mx)) r));
  cl_Include r mn mx : sorted r -> c_Include (rep r) mn mx = Ok (rep (filter (fun v => mn <= fst v <= mx) r));
  cl_Merge r s : sorted r -> sorted s -> c_Merge (rep r) (rep s) = Ok (rep (merged r s)) }.

Lemma array_columns_laws {A} (zero : A) : ColumnsLaws (array_columns zero) cols.
Proof.
  constructor; intros; cbn [array_columns c_empty c_Len c_MinTime c_MaxTime c_Exclude c_Include c_Merge].
  - done.
  - apply Len_cols.
  - apply MinTime_cols.
  - apply MaxTime_cols.
  - by apply exclude_cols.
  - by apply include_cols.
  - by apply merge_cols.
Qed.

Lemma values_columns_laws {A} : ColumnsLaws (values_columns (V := Z * A)) id.
Proof.
  constructor; intros; cbn [values_columns c_empty c_Len c_MinTime c_MaxTime c_Exclude c_Include c_Merge id]; try done.
  - rewrite Values.Exclude_spec by done. done.
  - rewrite Values.Include_spec by done. done.
  - destruct (Values.Merge_spec r s) as (M & -> & HM & Ho). destruct (merged_spec r s) as (Hg & _ & Hgs); [done..|]. unfold id. f_equal.
    apply sorted_ext; [auto|done|congruence].
Qed.

(** ** Blocks with their rows *)
Section cursor.
Context {F : Type} `{SSTFile F} {C St A : Type} {Cl : Columns C} (rep : list (Z * A) -> C) {Laws : ColumnsLaws Cl rep}.
Context (ReadBlockAt : F -> SSTIndex.IndexEntry -> St -> outcome (C * St)) (fs : list F) (k : list Z) (Good : St -> Prop).
Implicit Types (l : location) (r m : list (Z * A)) (s : list location) (L : list (list (Z * A))) (us : list nat).

Definition tombs l : list TimeRange := match fs !! file l with Some f => f_TombstoneRange f k | None => [] end.
Definition live l r : list (Z * A) := filter (fun v => covered (tombs l) (fst v) = false) r.

(** The rows of the block of a location. *)
Record block_rows l r : Prop := {
  br_file : exists f, fs !! file l = Some f /\ forall st, Good st -> exists st', ReadBlockAt f (entry l) st = Ok (rep r, st') /\ Good st';
  br_sorted : sorted r;
  br_min : Values.MinTime r = Ok (entryMin l);
  br_max : Values.MaxTime r = Ok (entryMax l);
  br_i64 : is_i64 (entryMin l) /\ is_i64 (entryMax l) }.

Definition unread_rows l r : list (Z * A) := filter (fun v => ~ (readMin l <= fst v <= readMax l)) (live l r).

Lemma exclude_rep ts : forall r, sorted r -> excludeTombstones ts (rep r) = Ok (rep (filter (fun v => covered ts (fst v) = false) r)).
Proof.
  induction ts as [|x ts IH]; intros r Hs; cbn [excludeTombstones].
  - by rewrite filter_all by by apply Forall_true.
  - rewrite cl_Exclude by done. cbn [mbind outcome_bind]. rewrite IH by by apply sorted_filter. do 2 f_equal.
    rewrite list_filter_filter. apply list_filter_iff. intros v. cbn [covered existsb]. fold (covered ts (fst v)).
    destruct (covered ts (fst v)), (Z.leb_spec (Min x) (fst v)), (Z.leb_spec (fst v) (Max x)); cbn [andb orb]; intuition (lia || congruence).
Qed.

Lemma unread_sorted l r : block_rows l r -> sorted (unread_rows l r).
Proof. intros Hb. apply sorted_filter, sorted_filter, Hb. Qed.

Lemma block_bounds l r v : block_rows l r -> v ∈ r -> entryMin l <= fst v <= entryMax l.
Proof. intros Hb. eapply sorted_bounds; apply Hb. Qed.

Lemma unread_in l r v : v ∈ unread_rows l r -> v ∈ r /\ ~ (readMin l <= fst v <= readMax l).
Proof. by intros [Hr [_ Hv]%list_elem_of_filter]%list_elem_of_filter. Qed.

Lemma read_none l r : block_rows l r -> read l = true -> unread_rows l r = [].
Proof.
  intros Hb Hr. unfold read in Hr. apply filter_none. intros v [_ Hv]%list_elem_of_filter. pose proof (block_bounds l r v Hb Hv). lia.
Qed.

Lemma filter_comm (P Q : Z * A -> Prop) `{forall x, Decision (P x)} `{forall x, Decision (Q x)} r : filter P (filter Q r) = filter Q (filter P r).
Proof. rewrite !list_filter_filter. apply list_filter_iff. tauto. Qed.

(** ** Marks *)
Lemma markRead_twice l a b : markRead (markRead l a b) a b = markRead l a b.
Proof.
  unfold markRead. cbn. f_equal; [destruct (a <? readMin l) eqn:E|destruct (readMax l <? b) eqn:E]; rewrite ?E, ?Z.ltb_irrefl; done.
Qed.

Definition mark_all s us (a b : Z) : list location := foldl (fun s i => mark_at s i a b) s us.

Lemma mark_all_lookup us a b : forall s j, mark_all s us a b !! j = (if decide (j ∈ us) then fun l => markRead l a b else id) <$> s !! j.
Proof.
  induction us as [|i us IH] using rev_ind; intros s j; [by rewrite option_fmap_id|]. unfold mark_all in *. rewrite foldl_app. cbn [foldl]. unfold mark_at.
  destruct (decide (j = i)) as [->|Hne].
  - rewrite list_lookup_alter_eq, IH. rewrite (decide_True (P := i ∈ us ++ [i])) by (apply elem_of_app; right; left).
    destruct (s !! i) as [l|]; [|done]. cbn. f_equal. case_decide; [apply markRead_twice|done].
  - rewrite list_lookup_alter_ne, IH by done. destruct (decide (j ∈ us)); [rewrite decide_True by set_solver|rewrite decide_False by set_solver]; done.
Qed.

Definition fits s L : Prop := Forall2 block_rows s L.

Lemma fits_mark s L us a b : fits s L -> fits (mark_all s us a b) L.
Proof.
  intros Hf. apply Forall2_same_length_lookup. split.
  - rewrite <- (Forall2_length _ _ _ Hf). revert s Hf. induction us as [|i us IH] using rev_ind; intros s Hf; [done|].
    unfold mark_all in *. rewrite foldl_app. cbn [foldl]. unfold mark_at. rewrite length_alter. by apply IH.
  - intros i l r Hl Hr. rewrite mark_all_lookup in Hl. destruct (s !! i) as [l0|] eqn:E; [|done]. injection Hl as <-.
    pose proof (Forall2_lookup_lr _ _ _ _ _ _ Hf E Hr) as []. by case_decide; constructor.
Qed.

Definition unread_at s L i : list (Z * A) := match s !! i, L !! i with Some l, Some r => unread_rows l r | _, _ => [] end.

Lemma unread_at_sorted s L i : fits s L -> sorted (unread_at s L i).
Proof.
  intros Hf. unfold unread_at. destruct (s !! i) as [l|] eqn:E, (L !! i) as [r|] eqn:E2; try apply SSorted_nil.
  apply unread_sorted. by eapply Forall2_lookup_lr.
Qed.

Lemma unread_at_mark s L us a b i : i ∉ us -> unread_at (mark_all s us a b) L i = unread_at s L i.
Proof. intros Hi. unfold unread_at. rewrite mark_all_lookup, decide_False by done. by destruct (s !! i). Qed.

(** ** Merging the other blocks *)
Definition over (asc : bool) r m : list (Z * A) := if asc then merged m r else merged r m.
Definition slice s L (a b : Z) i : list (Z * A) := filter (fun v => a <= fst v <= b) (unread_at s L i).

Lemma over_sorted asc r m : sorted r -> sorted m -> sorted (over asc r m).
Proof. intros Hr Hm. unfold over. destruct asc; by apply merged_spec. Qed.

Lemma over_nil asc m : over asc [] m = m.
Proof. destruct asc; [apply merged_nil_r|done]. Qed.

Lemma slice_sorted s L a b i : fits s L -> sorted (slice s L a b i).
Proof. intros Hf. by apply sorted_filter, unread_at_sorted. Qed.

Lemma merge_others_spec asc a b others L : forall s m st, NoDup others -> fits s L -> Forall (fun i => (i < length s)%nat) others -> sorted m -> Good st ->
  exists st', merge_others ReadBlockAt fs asc k a b s others (rep m) st =
    Ok (mark_all s others a b, rep (foldl (fun m r => over asc r m) m (slice s L a b <$> others)), st') /\ Good st'.
Proof.
  induction others as [|i others IH]; intros s m st Hnd Hf Hlt Hm Hg; [by exists st|].
  apply NoDup_cons in Hnd as [Hi Hnd]. apply Forall_cons in Hlt as [Hilt Hlt]. destruct (lookup_lt_is_Some_2 s i Hilt) as [l Hl].
  destruct (Forall2_lookup_l _ _ _ _ _ Hf Hl) as (r & Hr & Hb). destruct (br_file _ _ Hb) as (f & Hfile & Hread).
  cbn [merge_others]. unfold location_at. rewrite Hl, Hfile. cbn [mbind outcome_bind].
  assert (mark_at s i a b = mark_all s [i] a b) as Hmark by done. rewrite Hmark.
  assert (forall m1 st1, sorted m1 -> Good st1 -> exists st', merge_others ReadBlockAt fs asc k a b (mark_all s [i] a b) others (rep m1) st1 =
    Ok (mark_all s (i :: others) a b, rep (foldl (fun m r => over asc r m) m1 (slice s L a b <$> others)), st') /\ Good st') as Hrest.
  { intros m1 st1 Hm1 Hg1. destruct (IH (mark_all s [i] a b) m1 st1) as (st' & E & Hg'); try done; [by apply fits_mark|..].
    - rewrite (Forall2_length _ _ _ (fits_mark _ _ [i] a b Hf)), <- (Forall2_length _ _ _ Hf). done.
    - exists st'. split; [|done]. rewrite E. assert (slice (mark_all s [i] a b) L a b <$> others = slice s L a b <$> others) as ->; [|done].
      apply list_fmap_ext. intros j x Hx%list_elem_of_lookup_2. unfold slice. rewrite unread_at_mark; [done|]. rewrite list_elem_of_singleton. by intros ->. }
  cbn [fmap list_fmap foldl]. assert (slice s L a b i = filter (fun v => a <= fst v <= b) (unread_rows l r)) as Hsl by (unfold slice, unread_at; by rewrite Hl, Hr).
  destruct (negb (overlaps l a b) || KeyCursor.read l) eqn:Hskip.
  - assert (slice s L a b i = []) as ->; [|rewrite over_nil; by apply Hrest].
    rewrite Hsl. apply orb_true_iff in Hskip as [Hno|Hread1]; [|by rewrite (read_none l r)]. apply filter_none.
    intros v [Hv _]%unread_in. pose proof (block_bounds l r v Hb Hv). unfold overlaps, SSTIndex.entry_OverlapsTimeRange in Hno. lia.
  - destruct (Hread st Hg) as (st1 & -> & Hg1). cbn [mbind outcome_bind]. rewrite exclude_rep by apply Hb. cbn [mbind outcome_bind].
    rewrite cl_Exclude by apply sorted_filter, Hb. cbn [mbind outcome_bind].
    assert (filter (fun v => ~ (readMin l <= fst v <= readMax l)) (filter (fun v => covered (f_TombstoneRange f k) (fst v) = false) r) = unread_rows l r) as ->
      by (unfold unread_rows, live, tombs; by rewrite Hfile).
    rewrite cl_Len. pose proof (unread_sorted l r Hb) as Hs. case_bool_decide as Hlen.
    + rewrite cl_Include by done. cbn [mbind outcome_bind]. rewrite <- Hsl. pose proof (slice_sorted s L a b i Hf) as Hss.
      destruct asc; rewrite cl_Merge by done; cbn [mbind outcome_bind]; apply Hrest; try done; by apply merged_spec.
    + assert (slice s L a b i = []) as ->; [|rewrite over_nil; by apply Hrest]. rewrite Hsl. destruct (unread_rows l r); [done|cbn in Hlen; lia].
Qed.
(** ** The window *)
Definition window s (asc : bool) (mn mx : Z) others : Z * Z :=
  let mn := if asc then window_asc s mn others else mn in
  let mx := if asc then mx else window_desc s mx others in
  match first_overlap s mn mx others with
  | Some l => (if negb asc && (entryMin l <? mn) then entryMin l else mn, if asc && (mx <? entryMax l) then entryMax l else mx)
  | None => (mn, mx)
  end.

Lemma window_asc_spec s others : forall mn, window_asc s mn others <= mn /\
  (forall j l, j ∈ others -> s !! j = Some l -> KeyCursor.read l = false -> window_asc s mn others <= entryMin l) /\
  (window_asc s mn others = mn \/ exists j l, s !! j = Some l /\ window_asc s mn others = entryMin l).
Proof.
  induction others as [|i others IH]; intros mn; [split_and!; [done|by intros ? ? ?%elem_of_nil|by left]|]. unfold window_asc in *. cbn [foldl].
  set (mn1 := match s !! i with Some l => _ | None => _ end). destruct (IH mn1) as (H1 & H2 & H3).
  assert (mn1 <= mn /\ (forall l, s !! i = Some l -> KeyCursor.read l = false -> mn1 <= entryMin l) /\ (mn1 = mn \/ exists j l, s !! j = Some l /\ mn1 = entryMin l)) as (G1 & G2 & G3).
  { unfold mn1. destruct (s !! i) as [l|] eqn:E; [|split; [lia|]; split; [done|by left]]. destruct (Z.ltb_spec (entryMin l) mn); cbn [andb].
    - destruct (KeyCursor.read l) eqn:Hr; cbn [negb].
      + split; [lia|]. split; [intros ? [= <-]; congruence|by left].
      + split; [lia|]. split; [intros ? [= <-] _; lia|right; eauto].
    - split; [lia|]. split; [intros ? [= <-] _; lia|by left]. }
  split_and!; [lia| |].
  - intros j l [->|Hj]%elem_of_cons Hl Hr; [specialize (G2 l Hl Hr); lia|by apply (H2 j)].
  - destruct H3 as [->|H3]; [exact G3|by right].
Qed.

Lemma window_desc_spec s others : forall mx, mx <= window_desc s mx others /\
  (forall j l, j ∈ others -> s !! j = Some l -> KeyCursor.read l = false -> entryMax l <= window_desc s mx others) /\
  (window_desc s mx others = mx \/ exists j l, s !! j = Some l /\ window_desc s mx others = entryMax l).
Proof.
  induction others as [|i others IH]; intros mx; [split_and!; [done|by intros ? ? ?%elem_of_nil|by left]|]. unfold window_desc in *. cbn [foldl].
  set (mx1 := match s !! i with Some l => _ | None => _ end). destruct (IH mx1) as (H1 & H2 & H3).
  assert (mx <= mx1 /\ (forall l, s !! i = Some l -> KeyCursor.read l = false -> entryMax l <= mx1) /\ (mx1 = mx \/ exists j l, s !! j = Some l /\ mx1 = entryMax l)) as (G1 & G2 & G3).
  { unfold mx1. destruct (s !! i) as [l|] eqn:E; [|split; [lia|]; split; [done|by left]]. destruct (Z.ltb_spec mx (entryMax l)); cbn [andb].
    - destruct (KeyCursor.read l) eqn:Hr; cbn [negb].
      + split; [lia|]. split; [intros ? [= <-]; congruence|by left].
      + split; [lia|]. split; [intros ? [= <-] _; lia|right; eauto].
    - split; [lia|]. split; [intros ? [= <-] _; lia|by left]. }
  split_and!; [lia| |].
  - intros j l [->|Hj]%elem_of_cons Hl Hr; [specialize (G2 l Hl Hr); lia|by apply (H2 j)].
  - destruct H3 as [->|H3]; [exact G3|by right].
Qed.

Lemma first_overlap_in s a b others l : first_overlap s a b others = Some l -> exists j, s !! j = Some l.
Proof.
  induction others as [|i others IH]; [done|]. cbn [first_overlap]. destruct (s !! i) as [l0|] eqn:E; [|done].
  case_match; [|done]. intros [= <-]. eauto.
Qed.

Lemma window_wide s asc mn mx others : (window s asc mn mx others).1 <= mn /\ mx <= (window s asc mn mx others).2.
Proof.
  unfold window. destruct (window_asc_spec s others mn) as (H1 & _), (window_desc_spec s others mx) as (H2 & _).
  destruct asc; cbn [negb andb]; destruct (first_overlap s _ _ others) as [l|]; cbn [fst snd]; try (split; lia);
    destruct (Z.ltb_spec (entryMin l) mn), (Z.ltb_spec mx (entryMax l)); lia.
Qed.

(** ** A round of [ReadBlock] *)
Definition cursor_over c s us : KeyCursor.KeyCursor := with_seeks (with_current c us) s.

Lemma read_loop_spec L us : forall c st, key c = k -> fits (seeks c) L -> Good st -> Forall (fun i => (i < length (seeks c))%nat) us ->
  (forall i others, suffix (i :: others) us -> NoDup others) ->
  (Forall (fun i => unread_at (seeks c) L i = []) us /\
   exists st', read_loop ReadBlockAt fs c us st = Ok (with_current c [], c_empty, st') /\ Good st') \/
  (exists dropped i others mn mx st', us = dropped ++ i :: others /\ Forall (fun i => unread_at (seeks c) L i = []) dropped /\
     Values.MinTime (unread_at (seeks c) L i) = Ok mn /\ Values.MaxTime (unread_at (seeks c) L i) = Ok mx /\
     let '(a, b) := window (seeks c) (ascending c) mn mx others in
     read_loop ReadBlockAt fs c us st =
       Ok (cursor_over c (mark_all (seeks c) (others ++ [i]) a b) (i :: others),
           rep (foldl (fun m r => over (ascending c) r m) (unread_at (seeks c) L i) (slice (seeks c) L a b <$> others)), st') /\ Good st').
Proof.
  induction us as [|i others IH]; intros c st Hk Hf Hg Hlt Hnd.
  - left. split; [done|]. exists st. done.
  - apply Forall_cons in Hlt as [Hilt Hlt]. destruct (lookup_lt_is_Some_2 _ _ Hilt) as [l Hl].
    destruct (Forall2_lookup_l _ _ _ _ _ Hf Hl) as (r & Hr & Hb). destruct (br_file _ _ Hb) as (f & Hfile & Hread).
    cbn [read_loop]. unfold location_at. rewrite Hl, Hfile. cbn [mbind outcome_bind]. destruct (Hread st Hg) as (st1 & -> & Hg1). cbn [mbind outcome_bind].
    rewrite cl_Exclude by apply Hb. cbn [mbind outcome_bind]. rewrite exclude_rep by apply sorted_filter, Hb. cbn [mbind outcome_bind].
    rewrite filter_comm. assert (filter (fun v => ~ (readMin l <= fst v <= readMax l)) (filter (fun v => covered (f_TombstoneRange f (key c)) (fst v) = false) r) = unread_at (seeks c) L i) as ->.
    { unfold unread_at. rewrite Hl, Hr. unfold unread_rows, live, tombs. by rewrite Hfile, Hk. }
    rewrite cl_Len. case_bool_decide as Hlen.
    + assert (unread_at (seeks c) L i = []) as Hnone by by destruct (unread_at _ _ _).
      destruct (IH c st1 Hk) as [[Hall He]|(dropped & j & oth & mn & mx & st' & -> & Hd & Hmn & Hmx & Hres)]; [done|done|done| |left|right].
      * intros j oth Hs. apply (Hnd j oth). by apply suffix_cons_r.
      * split; [by constructor|done].
      * exists (i :: dropped), j, oth, mn, mx, st'. split_and!; [done|by constructor|done|done|done].
    + right. pose proof (unread_at_sorted (seeks c) L i Hf) as Hs. remember (unread_at (seeks c) L i) as m eqn:Em. destruct m as [|x m']; [done|].
      destruct (last (x :: m')) as [y|] eqn:Hy; [|by apply last_None in Hy].
      rewrite cl_MinTime, cl_MaxTime, MinTime_cons, (MaxTime_last _ y Hy). cbn [mbind outcome_bind UnixNano row_value].
      pose proof (window_wide (seeks c) (ascending c) (fst x) (fst y) others) as [Hw1 Hw2].
      destruct (window (seeks c) (ascending c) (fst x) (fst y) others) as [a b] eqn:Ew. cbn [fst snd] in Hw1, Hw2.
      assert (filter (fun v => a <= fst v <= b) (x :: m') = x :: m') as Hin.
      { apply filter_in. intros v Hv. assert (fst x <= fst v <= fst y); [|lia]. eapply sorted_bounds; [exact Hs|reflexivity|exact (MaxTime_last _ y Hy)|done]. }
      destruct (merge_others_spec (ascending c) a b others L (seeks c) (x :: m') st1) as (st2 & Em2 & Hg2); [by eapply (Hnd i)|done|done|done|done|].
      exists [], i, others, (fst x), (fst y), st2. rewrite <- Em, Ew. split_and!; [done|done|reflexivity|exact (MaxTime_last _ y Hy)| |done].
      case_bool_decide as Hoth.
      * subst others. cbn [window] in Ew. unfold window in Ew. cbn in Ew. assert ((fst x, fst y) = (a, b)) as [= -> ->] by by destruct (ascending c). cbn in Em2. injection Em2 as <-. done.
      * unfold window in Ew. destruct (first_overlap _ _ _ _) as [l1|]; injection Ew as Ea Eb; cbn [KeyCursor.ascending with_current seeks KeyCursor.key].
        -- rewrite Ea, Eb, cl_Include by done. cbn [mbind outcome_bind]. rewrite Hin, Hk, Em2. cbn [mbind outcome_bind].
           unfold mark_all. by rewrite foldl_app.
        -- cbn [mbind outcome_bind]. rewrite Ea, Eb, Hk, Em2. cbn [mbind outcome_bind]. unfold mark_all. by rewrite foldl_app.
Qed.

(** ** What is left *)
Definition indices s : list nat := seq 0 (length s).
Definition content s L : gmap Z (Z * A) := stack (unread_at s L <$> indices s).

Lemma content_none s L : (forall i, unread_at s L i = []) -> content s L = ∅.
Proof.
  intros Hn. unfold content. induction (indices s) as [|i us IH]; [done|]. cbn [fmap list_fmap]. rewrite stack_cons, IH, Hn, series_nil. by rewrite (left_id_L ∅ (∪)).
Qed.

Lemma unread_at_out s L i : (length s <= i)%nat -> unread_at s L i = [].
Proof. intros Hi. unfold unread_at. by rewrite lookup_ge_None_2. Qed.

(** Marking cuts off a range of time. *)
Lemma content_marked (P : Z -> Prop) (Q : Z * A -> Prop) `{HQ : forall v, Decision (Q v)} (HP : forall v, Q v <-> P (fst v)) s s' L : length s' = length s ->
  (forall i, unread_at s' L i = filter Q (unread_at s L i)) ->
  forall t v, content s' L !! t = Some v <-> P t /\ content s L !! t = Some v.
Proof.
  intros Hlen Hm t v. assert (content s' L = stack (filter Q <$> (unread_at s L <$> indices s))) as ->.
  { unfold content, indices. rewrite Hlen, <- list_fmap_compose. f_equal. apply list_fmap_ext. intros i j _. apply Hm. }
  by apply stack_filter.
Qed.

Lemma length_marked s L us a b : fits s L -> length (mark_all s us a b) = length s.
Proof. intros Hf. by rewrite (Forall2_length _ _ _ (fits_mark s L us a b Hf)), (Forall2_length _ _ _ Hf). Qed.

Lemma unread_at_bounds s L i v : fits s L -> v ∈ unread_at s L i ->
  exists l r, s !! i = Some l /\ L !! i = Some r /\ block_rows l r /\ KeyCursor.read l = false /\ entryMin l <= fst v <= entryMax l /\ ~ (readMin l <= fst v <= readMax l).
Proof.
  intros Hf Hv. unfold unread_at in Hv. destruct (s !! i) as [l|] eqn:Hl; [|by apply elem_of_nil in Hv]. destruct (L !! i) as [r|] eqn:Hr; [|by apply elem_of_nil in Hv].
  pose proof (Forall2_lookup_lr _ _ _ _ _ _ Hf Hl Hr) as Hb. exists l, r. split_and!; try done; [|by apply (block_bounds l r), (unread_in _ _ _ Hv)..|by apply (unread_in _ _ _ Hv)].
  destruct (KeyCursor.read l) eqn:E; [|done]. rewrite (read_none l r) in Hv by done. by apply elem_of_nil in Hv.
Qed.

Lemma unread_at_marked s L us a b i : i ∈ us -> unread_at (mark_all s us a b) L i =
  match s !! i, L !! i with
  | Some l, Some r => filter (fun v => ~ ((if a <? readMin l then a else readMin l) <= fst v <= (if readMax l <? b then b else readMax l))) (live l r)
  | _, _ => []
  end.
Proof. intros Hi. unfold unread_at. rewrite mark_all_lookup, decide_True by done. by destruct (s !! i), (L !! i). Qed.

Lemma live_i64 l r v : block_rows l r -> v ∈ live l r -> is_i64 (fst v).
Proof. intros Hb [_ Hv]%list_elem_of_filter. pose proof (block_bounds l r v Hb Hv). pose proof (br_i64 _ _ Hb). unfold is_i64 in *. lia. Qed.

(** ** Ascending *)
Record rising (c : KeyCursor.KeyCursor) L (T : Z) : Prop := {
  ri_key : key c = k;
  ri_dir : KeyCursor.ascending c = true;
  ri_fits : fits (seeks c) L;
  ri_current : sublist (current c) (indices (seeks c));
  ri_all : forall i, i ∉ current c -> unread_at (seeks c) L i = [];
  ri_passed : forall i, Z.of_nat i < pos c -> unread_at (seeks c) L i = [];
  ri_ahead : forall i, i ∈ current c -> pos c <= Z.of_nat i;
  ri_marks : forall i l, seeks c !! i = Some l -> readMin l = MinInt64 /\ (unread_at (seeks c) L i = [] \/ readMax l = T) }.

Section asc_window.
Context c L T (Hc : rising c L T) dropped i others (mn mx : Z) (Ecur : current c = dropped ++ i :: others)
  (Hdrop : Forall (fun i => unread_at (seeks c) L i = []) dropped).
Context (Hmn : Values.MinTime (unread_at (seeks c) L i) = Ok mn) (Hmx : Values.MaxTime (unread_at (seeks c) L i) = Ok mx).
Context (a b : Z) (Ew : window (seeks c) true mn mx others = (a, b)).

Lemma asc_ab : a <= mn /\ mx <= b /\ MinInt64 <= a /\ T < b.
Proof.
  pose proof (window_wide (seeks c) true mn mx others) as [H1 H2]. rewrite Ew in H1, H2. cbn [fst snd] in H1, H2.
  destruct (MinTime_in _ _ Hmn) as (v & Hv & Ev). destruct (MaxTime_in _ _ Hmx) as (w & _ & Hw & Ew2).
  destruct (unread_at_bounds _ _ _ _ (ri_fits _ _ _ Hc) Hv) as (l & r & Hl & Hr & Hb & _ & Hbv & _).
  destruct (unread_at_bounds _ _ _ _ (ri_fits _ _ _ Hc) Hw) as (l' & r' & Hl' & Hr' & Hb' & _ & Hbw & Hnw).
  split_and!; [done|done| |].
  - assert (a = window_asc (seeks c) mn others) as ->.
    { unfold window in Ew. by destruct (first_overlap _ _ _ _); injection Ew as <- _. }
    destruct (window_asc_spec (seeks c) others mn) as (_ & _ & [->|(j & l2 & Hl2 & ->)]).
    + pose proof (br_i64 _ _ Hb). unfold is_i64, MinInt64 in *. lia.
    + destruct (Forall2_lookup_l _ _ _ _ _ (ri_fits _ _ _ Hc) Hl2) as (r2 & _ & Hb2). pose proof (br_i64 _ _ Hb2). unfold is_i64, MinInt64 in *. lia.
  - destruct (ri_marks _ _ _ Hc i l' Hl') as [Hmin [Hn|HT]]; [rewrite Hn in Hw; by apply elem_of_nil in Hw|].
    rewrite Hmin, HT in Hnw. pose proof (br_i64 _ _ Hb'). unfold is_i64, MinInt64 in *. lia.
Qed.

Lemma asc_lower j v : j ∈ i :: others -> v ∈ unread_at (seeks c) L j -> a <= fst v.
Proof.
  intros Hj Hv. destruct asc_ab as (Ha & _). apply elem_of_cons in Hj as [->|Hj].
  - assert (mn <= fst v <= mx); [|lia]. eapply sorted_bounds; [apply unread_at_sorted, Hc|done..].
  - destruct (unread_at_bounds _ _ _ _ (ri_fits _ _ _ Hc) Hv) as (l & r & Hl & Hr & Hb & Hread & Hbv & _).
    assert (a = window_asc (seeks c) mn others) as ->.
    { unfold window in Ew. by destruct (first_overlap _ _ _ _); injection Ew as <- _. }
    destruct (window_asc_spec (seeks c) others mn) as (_ & H2 & _). specialize (H2 j l Hj Hl Hread). lia.
Qed.

Lemma asc_slice j : j ∈ i :: others -> slice (seeks c) L a b j = filter (fun v => fst v <= b) (unread_at (seeks c) L j).
Proof. intros Hj. apply filter_same. intros v Hv. pose proof (asc_lower j v Hj Hv). lia. Qed.

Lemma asc_rest j : j ∉ i :: others -> unread_at (seeks c) L j = [].
Proof.
  intros Hj. destruct (decide (j ∈ current c)) as [Hin|Hin]; [|by apply Hc]. rewrite Ecur in Hin. apply elem_of_app in Hin as [Hin|Hin]; [|done].
  by eapply (Forall_forall _ dropped) in Hdrop.
Qed.

Lemma asc_marked j : unread_at (mark_all (seeks c) (others ++ [i]) a b) L j = filter (fun v => ~ fst v <= b) (unread_at (seeks c) L j).
Proof.
  destruct (decide (j ∈ others ++ [i])) as [Hj|Hj].
  - rewrite unread_at_marked by done. unfold unread_at. destruct (seeks c !! j) as [l|] eqn:Hl, (L !! j) as [r|] eqn:Hr; try done.
    pose proof (Forall2_lookup_lr _ _ _ _ _ _ (ri_fits _ _ _ Hc) Hl Hr) as Hb. destruct (ri_marks _ _ _ Hc j l Hl) as [Hmin _]. destruct asc_ab as (_ & _ & Ha & _).
    unfold unread_rows. rewrite list_filter_filter. apply filter_same. intros v Hv. pose proof (live_i64 l r v Hb Hv) as Hi. rewrite Hmin.
    rewrite (proj2 (Z.ltb_ge _ _) Ha). unfold is_i64, MinInt64 in *. destruct (Z.ltb_spec (readMax l) b); lia.
  - rewrite unread_at_mark by done. rewrite (asc_rest j) by set_solver. done.
Qed.
End asc_window.

(** What a read takes is the earliest of what is left. *)
Definition takes (P : Z -> Prop) (before after : gmap Z (Z * A)) (out : list (Z * A)) : Prop :=
  out <> [] /\ sorted out /\
  (forall t v, series out !! t = Some v <-> P t /\ before !! t = Some v) /\
  (forall t v, after !! t = Some v <-> ~ P t /\ before !! t = Some v).

Lemma sublist_lt us n : sublist us (seq 0 n) -> Forall (fun i => (i < n)%nat) us.
Proof. intros Hs. apply Forall_forall. intros i Hi. pose proof (elem_of_sublist _ _ _ Hi Hs) as Hin%elem_of_seq. lia. Qed.

Lemma ReadBlock_rising c L T st : rising c L T -> Good st ->
  (exists c' st', ReadBlock ReadBlockAt fs c st = Ok (c', rep [], st') /\ content (seeks c) L = ∅) \/
  (exists c' out st' b, ReadBlock ReadBlockAt fs c st = Ok (c', rep out, st') /\ Good st' /\ rising c' L b /\
     takes (fun t => t <= b) (content (seeks c) L) (content (seeks c') L) out).
Proof.
  intros Hc Hg. unfold ReadBlock.
  destruct (read_loop_spec L (current c) c st) as [[Hall (st' & E & Hg')]|(dropped & i & others & mn & mx & st' & Ecur & Hdrop & Hmn & Hmx & Hres)]; [apply Hc|apply Hc|done| | | |].
  - apply sublist_lt, Hc.
  - intros i others [pre Hpre]. pose proof (ri_current _ _ _ Hc) as Hsub. rewrite Hpre in Hsub.
    assert (NoDup (pre ++ i :: others)) as Hnd by (eapply sublist_NoDup; [apply NoDup_seq|exact Hsub]). apply NoDup_app in Hnd as (_ & _ & Hnd). by apply NoDup_cons in Hnd as [_ Hnd].
  - left. exists (with_current c []), st'. rewrite E, cl_empty. split; [done|]. apply content_none. intros i. destruct (decide (i ∈ current c)) as [Hi|Hi].
    + by eapply (Forall_forall _ (current c)) in Hall.
    + by apply Hc.
  - right. rewrite (ri_dir _ _ _ Hc) in Hres. destruct (window (seeks c) true mn mx others) as [a b] eqn:Ew. destruct Hres as [Hres Hg'].
    pose proof (asc_ab c L T Hc i others mn mx Hmn Hmx a b Ew) as (Ha & Hb & Hlo & HT).
    pose proof (asc_marked c L T Hc dropped i others mn mx Ecur Hdrop Hmn Hmx a b Ew) as Hmark.
    set (s' := mark_all (seeks c) (others ++ [i]) a b) in *.
    assert (length s' = length (seeks c)) as Hlen by apply (length_marked _ L), Hc.
    eexists _, _, st', b. split; [exact Hres|]. split; [done|]. split.
    + constructor; cbn [cursor_over with_seeks with_current key KeyCursor.ascending seeks current pos].
      * apply Hc.
      * apply Hc.
      * apply fits_mark, Hc.
      * unfold indices. rewrite Hlen. etrans; [|apply Hc]. rewrite Ecur. by apply sublist_inserts_l.
      * intros j Hj. rewrite Hmark, (asc_rest c L T Hc dropped i others Ecur Hdrop j Hj). done.
      * intros j Hj. by rewrite Hmark, (ri_passed _ _ _ Hc j Hj).
      * intros j Hj. apply Hc. rewrite Ecur. apply elem_of_app. by right.
      * intros j l Hl. unfold s' in Hl. rewrite mark_all_lookup in Hl. destruct (seeks c !! j) as [l0|] eqn:Hl0; [|done]. injection Hl as <-.
        destruct (ri_marks _ _ _ Hc j l0 Hl0) as [Hmin Hor]. case_decide as Hj; cbn [readMin readMax id markRead].
        -- rewrite Hmin, (proj2 (Z.ltb_ge _ _) Hlo). split; [done|]. destruct Hor as [Hn|Hmax]; [left; by rewrite Hmark, Hn|right].
           rewrite Hmax. by rewrite (proj2 (Z.ltb_lt _ _)) by lia.
        -- split; [done|]. left. rewrite Hmark, (asc_rest c L T Hc dropped i others Ecur Hdrop j); [done|]. set_solver.
    + destruct (fold_over (slice (seeks c) L a b <$> others) (unread_at (seeks c) L i)) as [Hs1 Hs2]; [apply unread_at_sorted, Hc|apply Forall_fmap, Forall_true; intros; apply slice_sorted, Hc|].
      cbn [over] in *. set (out := foldl _ _ _) in *.
      assert (series out = stack (filter (fun v => fst v <= b) <$> (unread_at (seeks c) L <$> indices (seeks c)))) as Hout.
      { rewrite Hs2, <- list_fmap_compose.
        rewrite <- (stack_sublist (filter (fun v => fst v <= b) ∘ unread_at (seeks c) L) (i :: others) (indices (seeks c))).
        - f_equal. f_equal. cbn [fmap list_fmap compose]. f_equal.
          + rewrite <- (asc_slice c L T Hc i others mn mx Hmn Hmx a b Ew i) by left. symmetry. apply filter_in. intros v Hv.
            assert (mn <= fst v <= mx); [|lia]. eapply sorted_bounds; [apply unread_at_sorted, Hc|done..].
          + apply list_fmap_ext. intros ? j Hj%list_elem_of_lookup_2. apply (asc_slice c L T Hc i others mn mx Hmn Hmx a b Ew). by right.
        - etrans; [|apply Hc]. rewrite Ecur. by apply sublist_inserts_l.
        - apply NoDup_seq.
        - intros j _ Hj. cbn [compose]. by rewrite (asc_rest c L T Hc dropped i others Ecur Hdrop j Hj). }
      split_and!; [|done| |].
      * intros Hn. rewrite Hn in Hs2. destruct (MinTime_in _ _ Hmn) as (v & Hv & _).
        assert (stack (unread_at (seeks c) L i :: (slice (seeks c) L a b <$> others)) !! fst v <> None) as Hne; [|by rewrite <- Hs2 in Hne].
        rewrite stack_cons, lookup_union. destruct (stack _ !! fst v); [by destruct (series _ !! _)|].
        destruct (series (unread_at (seeks c) L i) !! fst v) eqn:E; [done|]. rewrite series_lookup_None in E. by specialize (E v Hv).
      * intros t v. rewrite Hout. by apply (stack_filter (fun t => t <= b)).
      * by apply (content_marked (fun t => ~ t <= b) (fun v => ~ fst v <= b)).
Qed.

(** ** [Next] *)
Lemma is_read_none c L j : fits (seeks c) L -> is_read c j = true -> unread_at (seeks c) L j = [].
Proof.
  intros Hf Hr. unfold is_read, holds in Hr. unfold unread_at. destruct (seeks c !! j) as [l|] eqn:Hl; [|done]. destruct (L !! j) as [r|] eqn:Hr2; [|done].
  apply read_none; [by eapply Forall2_lookup_lr|done].
Qed.

Lemma skip_read_spec c us : exists pre, us = pre ++ skip_read c us /\ Forall (fun i => is_read c i = true) pre.
Proof.
  induction us as [|i us (pre & E & Hp)]; [by exists []|]. cbn [skip_read]. destruct (is_read c i) eqn:Hi; [|by exists []].
  exists (i :: pre). split; [cbn; by f_equal|by constructor].
Qed.

Lemma increasing us n : sublist us (seq 0 n) -> StronglySorted lt us.
Proof.
  intros Hs. eapply IndirectIndex.sublist_sorted; [exact Hs|]. generalize 0%nat as a. clear. induction n as [|n IH]; intros a; [constructor|].
  cbn [seq]. constructor; [apply IH|]. apply Forall_forall. intros i Hi%elem_of_seq. lia.
Qed.

Lemma elem_after c j : j ∈ after c <-> pos c < Z.of_nat j /\ (j < length (seeks c))%nat.
Proof. unfold after. rewrite list_elem_of_filter, elem_of_seq. lia. Qed.

Lemma kept_sublist (p : nat -> bool) us : sublist (List.filter p us) us.
Proof. induction us as [|x us IH]; [constructor|]. cbn [List.filter]. destruct (p x); by constructor. Qed.

Lemma elem_kept (p : nat -> bool) us j : j ∈ List.filter p us <-> j ∈ us /\ p j = true.
Proof. rewrite !list_elem_of_In, filter_In. done. Qed.

Lemma Next_rising c L T : rising c L T -> rising (Next c) L T /\ seeks (Next c) = seeks c.
Proof.
  intros Hc. unfold Next. destruct (current c) as [|i us] eqn:Ecur; [done|]. destruct (is_read c i) eqn:Hi; [|done]. cbn [negb].
  cbn [KeyCursor.ascending with_current]. rewrite (ri_dir _ _ _ Hc). unfold nextAscending. cbn [seeks with_current].
  assert (forall j, Z.of_nat j <= pos c -> unread_at (seeks c) L j = []) as Hpast.
  { intros j Hj. destruct (decide (j ∈ current c)) as [Hin|Hin]; [|by apply Hc]. pose proof (ri_ahead _ _ _ Hc j Hin) as Hp.
    pose proof (increasing _ _ (ri_current _ _ _ Hc)) as Hs. pose proof (ri_ahead _ _ _ Hc i ltac:(rewrite Ecur; left)) as Hpi.
    rewrite Ecur in Hin, Hs. apply elem_of_cons in Hin as [->|Hin]; [by apply is_read_none; [apply Hc|]|].
    apply StronglySorted_inv in Hs as [_ Hs]. eapply (Forall_forall _ us) in Hs; [|done]. lia. }
  assert (after (with_current c []) = after c) as -> by done.
  destruct (skip_read_spec (with_current c []) (after c)) as (pre & Epre & Hpre). change (is_read (with_current c [])) with (is_read c) in *.
  assert (forall j, j ∈ pre -> unread_at (seeks c) L j = []) as Hread.
  { intros j Hj. apply is_read_none; [apply Hc|]. by eapply (Forall_forall _ pre) in Hpre. }
  assert (forall j, (length (seeks c) <= j)%nat \/ Z.of_nat j <= pos c \/ j ∈ after c) as Hall.
  { intros j. rewrite elem_after. lia. }
  destruct (skip_read (with_current c []) (after c)) as [|i' us'] eqn:Esk.
  - rewrite app_nil_r in Epre. assert (forall j, unread_at (seeks c) L j = []) as Hnone.
    { intros j. destruct (Hall j) as [Hj|[Hj|Hj]]; [by apply unread_at_out|by apply Hpast|]. apply Hread. by rewrite <- Epre. }
    split; [|done]. destruct Hc. constructor; cbn [with_pos with_current key KeyCursor.ascending seeks current pos]; [done|done|done|apply sublist_nil_l|done|done|by intros ? ?%elem_of_nil|].
    intros j l Hl. split; [by eapply ri_marks0|by left].
  - split; [|done]. assert (sublist (i' :: us') (indices (seeks c))) as Hsub.
    { etrans; [|apply (sublist_filter (fun i => pos c < Z.of_nat i) (indices (seeks c)))]. change (filter _ (indices (seeks c))) with (after c). rewrite Epre. by apply sublist_inserts_l. }
    pose proof (increasing _ _ Hsub) as Hs. apply StronglySorted_inv in Hs as [_ Hs].
    assert (forall j, j ∉ i' :: List.filter (fun j => negb (is_read c j)) us' -> unread_at (seeks c) L j = []) as Hrest.
    { intros j Hj. destruct (Hall j) as [Hj1|[Hj1|Hj1]]; [by apply unread_at_out|by apply Hpast|]. rewrite Epre in Hj1. apply elem_of_app in Hj1 as [Hj1|Hj1]; [by apply Hread|].
      apply not_elem_of_cons in Hj as [Hne Hj]. apply elem_of_cons in Hj1 as [->|Hj1]; [done|]. apply is_read_none; [apply Hc|].
      destruct (is_read c j) eqn:E; [done|]. exfalso. apply Hj. apply elem_kept. by rewrite E. }
    destruct Hc. constructor; cbn [with_current key KeyCursor.ascending seeks current pos]; try done.
    + etrans; [|exact Hsub]. constructor. apply kept_sublist.
    + intros j Hj. apply Hrest. rewrite not_elem_of_cons, elem_kept. split; [lia|]. intros [Hin _]. eapply (Forall_forall _ us') in Hs; [|done]. lia.
    + intros j [->|[Hj _]%elem_kept]%elem_of_cons; [lia|]. eapply (Forall_forall _ us') in Hs; [|done]. lia.
Qed.

(** ** Reading to the end *)
Inductive delivers : KeyCursor.KeyCursor -> St -> list (list (Z * A)) -> Prop :=
| delivers_end c st c' st' : ReadBlock ReadBlockAt fs c st = Ok (c', rep [], st') -> delivers c st []
| delivers_block c st c' st' b bs : ReadBlock ReadBlockAt fs c st = Ok (c', rep b, st') -> b <> [] -> delivers (Next c') st' bs -> delivers c st (b :: bs).

Lemma takes_smaller (P : Z -> Prop) (m m' : gmap Z (Z * A)) out : takes P m m' out -> (size m' < size m)%nat.
Proof.
  intros (Hne & _ & Hout & Hrest). destruct out as [|x out]; [done|].
  destruct (series (x :: out) !! fst x) as [v|] eqn:E; [|rewrite series_lookup_None in E; by destruct (E x ltac:(left))].
  apply Hout in E as [HP E]. apply map_subset_size, map_subset_alt. split.
  - apply map_subseteq_spec. intros t w Hw. by apply Hrest in Hw as [_ ?].
  - exists (fst x). split; [|by eexists]. apply eq_None_not_Some. intros [w Hw]. by apply Hrest in Hw as [Hn _].
Qed.

Lemma sorted_series_in r v : sorted r -> v ∈ r <-> series r !! fst v = Some v.
Proof. intros Hs. rewrite series_sorted by done. tauto. Qed.

Lemma delivers_rising n : forall c L T st, (size (content (seeks c) L) <= n)%nat -> rising c L T -> Good st ->
  exists bs, delivers c st bs /\ Forall (fun b => b <> []) bs /\ sorted (concat bs) /\ series (concat bs) = content (seeks c) L.
Proof.
  induction n as [n IH] using lt_wf_ind. intros c L T st Hn Hc Hg.
  destruct (ReadBlock_rising c L T st Hc Hg) as [(c' & st' & E & Hnone)|(c' & out & st' & b & E & Hg' & Hc' & Ht)].
  - exists []. split_and!; [by econstructor|done|constructor|]. by rewrite Hnone.
  - pose proof (takes_smaller _ _ _ _ Ht) as Hlt. destruct (Next_rising c' L b Hc') as [Hc2 Es]. rewrite <- Es in Hlt, Ht.
    destruct (IH (size (content (seeks (Next c')) L)) ltac:(lia) (Next c') L b st') as (bs & Hd & Hne & Hs & Hser); [done|done|done|].
    destruct Ht as (Hout & Hso & H1 & H2). exists (out :: bs). split_and!; [by econstructor|by constructor| |].
    + cbn [concat]. apply sorted_app; [done|done|]. intros v w Hv Hw. apply (sorted_series_in out v Hso) in Hv. apply H1 in Hv as [Hv _].
      apply (sorted_series_in _ w Hs) in Hw. rewrite Hser in Hw. apply H2 in Hw as [Hw _]. cbn. lia.
    + cbn [concat]. apply map_eq. intros t. rewrite series_app, Hser. apply option_eq. intros v. rewrite lookup_union_Some_raw, H2, H1, eq_None_not_Some. split.
      * intros [[_ ?]|[_ [_ ?]]]; done.
      * intros Hv. destruct (decide (t <= b)) as [Hb|Hb]; [right|by left]. split; [|done]. intros [w Hw]. by apply H2 in Hw as [? _].
Qed.

(** ** Descending *)

(** From the last position on; the first may come twice. *)
Definition falls us s : Prop := sublist us (reverse (indices s)) \/ exists i vs, us = i :: i :: vs /\ sublist (i :: vs) (reverse (indices s)).

Lemma sublist_suffix {X} (p q l : list X) : sublist (p ++ q) l -> sublist q l.
Proof. intros Hs. etrans; [|exact Hs]. by apply sublist_inserts_l. Qed.

Lemma falls_suffix p i us s : falls (p ++ i :: us) s -> falls (i :: us) s.
Proof.
  intros [Hs|(j & vs & E & Hs)]; [left; by eapply sublist_suffix|]. destruct p as [|x p]; [right; by exists j, vs|].
  left. destruct p as [|y p]; cbn in E; [by injection E as -> -> ->|]. injection E as -> -> E.
    apply (sublist_suffix (j :: p)). by rewrite <- E in Hs.
Qed.

Lemma decreasing us s : sublist us (reverse (indices s)) -> StronglySorted (fun i j => (j < i)%nat) us.
Proof.
  intros Hs. eapply IndirectIndex.sublist_sorted; [exact Hs|]. clear. unfold indices. generalize (length s) as n. intros n.
  induction n as [|n IH]; [constructor|]. rewrite seq_S, reverse_app. constructor; [exact IH|]. apply Forall_forall. intros i Hi%elem_of_reverse%elem_of_seq. lia.
Qed.

Lemma falls_first i us s j : falls (i :: us) s -> j ∈ us -> (j <= i)%nat.
Proof.
  intros [Hs|(k0 & vs & [= -> ->] & Hs)] Hj; apply decreasing in Hs; apply StronglySorted_inv in Hs as [_ Hs].
  - eapply (Forall_forall _ us) in Hs; [|done]. lia.
  - apply elem_of_cons in Hj as [->|Hj]; [done|]. eapply (Forall_forall _ vs) in Hs; [|done]. lia.
Qed.

Lemma falls_nodup i us s : falls (i :: us) s -> NoDup us.
Proof.
  assert (NoDup (reverse (indices s))) as Hnd by (rewrite reverse_Permutation; apply NoDup_seq).
  intros [Hs|(j & vs & [= -> ->] & Hs)]; pose proof (sublist_NoDup _ _ Hnd Hs) as Hd; [by apply NoDup_cons in Hd as [_ ?]|done].
Qed.

Lemma falls_lt us s : falls us s -> Forall (fun i => (i < length s)%nat) us.
Proof.
  assert (forall vs, sublist vs (reverse (indices s)) -> Forall (fun i => (i < length s)%nat) vs) as Hlt.
  { intros vs Hs. apply Forall_forall. intros i Hi. pose proof (elem_of_sublist _ _ _ Hi Hs) as Hin%elem_of_reverse%elem_of_seq. lia. }
  intros [Hs|(j & vs & -> & Hs)]; [by apply Hlt|]. specialize (Hlt _ Hs). apply Forall_cons in Hlt as [? ?]. by repeat constructor.
Qed.

Lemma sublist_reversed {X} (l m : list X) : sublist l m -> sublist (reverse l) (reverse m).
Proof.
  induction 1 as [|x l m _ IH|x l m _ IH]; [done|..]; rewrite !reverse_cons; [by apply sublist_app|].
  by apply sublist_inserts_r.
Qed.

Lemma stack_falls (f : nat -> list (Z * A)) us s : falls us s -> (forall j, j ∉ us -> f j = []) -> stack (reverse (f <$> us)) = stack (f <$> indices s).
Proof.
  assert (forall vs, sublist vs (reverse (indices s)) -> (forall j, j ∉ vs -> f j = []) -> stack (reverse (f <$> vs)) = stack (f <$> indices s)) as Hstack.
  { intros vs Hs Hn. rewrite <- fmap_reverse. apply stack_sublist; [|apply NoDup_seq|].
    - rewrite <- (reverse_involutive (indices s)). by apply sublist_reversed.
    - intros j _ Hj. apply Hn. by rewrite <- elem_of_reverse. }
  intros [Hs|(i & vs & -> & Hs)] Hn; [by apply Hstack|]. rewrite <- (Hstack (i :: vs)); [|done|].
  - cbn [fmap list_fmap]. rewrite !reverse_cons, !stack_snoc. by rewrite (assoc_L (∪)), (idemp_L (∪)).
  - intros j Hj. apply Hn. set_solver.
Qed.

Record falling (c : KeyCursor.KeyCursor) L (T : Z) : Prop := {
  fa_key : key c = k;
  fa_dir : KeyCursor.ascending c = false;
  fa_fits : fits (seeks c) L;
  fa_current : falls (current c) (seeks c);
  fa_all : forall i, i ∉ current c -> unread_at (seeks c) L i = [];
  fa_passed : forall i, pos c < Z.of_nat i -> unread_at (seeks c) L i = [];
  fa_ahead : forall i, i ∈ current c -> Z.of_nat i <= pos c;
  fa_marks : forall i l, seeks c !! i = Some l -> readMax l = MaxInt64 /\ (unread_at (seeks c) L i = [] \/ readMin l = T) }.

Section desc_window.
Context c L T (Hc : falling c L T) dropped i others (mn mx : Z) (Ecur : current c = dropped ++ i :: others)
  (Hdrop : Forall (fun i => unread_at (seeks c) L i = []) dropped).
Context (Hmn : Values.MinTime (unread_at (seeks c) L i) = Ok mn) (Hmx : Values.MaxTime (unread_at (seeks c) L i) = Ok mx).
Context (a b : Z) (Ew : window (seeks c) false mn mx others = (a, b)).

Lemma desc_b : b = window_desc (seeks c) mx others.
Proof. unfold window in Ew. by destruct (first_overlap _ _ _ _); injection Ew as _ <-. Qed.

Lemma desc_ab : a <= mn /\ mx <= b /\ b <= MaxInt64 /\ a < T.
Proof.
  pose proof (window_wide (seeks c) false mn mx others) as [H1 H2]. rewrite Ew in H1, H2. cbn [fst snd] in H1, H2.
  destruct (MinTime_in _ _ Hmn) as (v & Hv & Ev). destruct (MaxTime_in _ _ Hmx) as (w & _ & Hw & Ew2).
  destruct (unread_at_bounds _ _ _ _ (fa_fits _ _ _ Hc) Hv) as (l & r & Hl & Hr & Hb & _ & Hbv & Hnv).
  destruct (unread_at_bounds _ _ _ _ (fa_fits _ _ _ Hc) Hw) as (l' & r' & Hl' & Hr' & Hb' & _ & Hbw & _).
  split_and!; [done|done| |].
  - rewrite desc_b. destruct (window_desc_spec (seeks c) others mx) as (_ & _ & [->|(j & l2 & Hl2 & ->)]).
    + pose proof (br_i64 _ _ Hb'). unfold is_i64, MaxInt64 in *. lia.
    + destruct (Forall2_lookup_l _ _ _ _ _ (fa_fits _ _ _ Hc) Hl2) as (r2 & _ & Hb2). pose proof (br_i64 _ _ Hb2). unfold is_i64, MaxInt64 in *. lia.
  - destruct (fa_marks _ _ _ Hc i l Hl) as [Hmax [Hn|HT]]; [rewrite Hn in Hv; by apply elem_of_nil in Hv|].
    rewrite Hmax, HT in Hnv. pose proof (br_i64 _ _ Hb). unfold is_i64, MaxInt64 in *. lia.
Qed.

Lemma desc_upper j v : j ∈ i :: others -> v ∈ unread_at (seeks c) L j -> fst v <= b.
Proof.
  intros Hj Hv. destruct desc_ab as (_ & Hb1 & _). apply elem_of_cons in Hj as [->|Hj].
  - assert (mn <= fst v <= mx); [|lia]. eapply sorted_bounds; [apply unread_at_sorted, Hc|done..].
  - destruct (unread_at_bounds _ _ _ _ (fa_fits _ _ _ Hc) Hv) as (l & r & Hl & Hr & Hb & Hread & Hbv & _). rewrite desc_b.
    destruct (window_desc_spec (seeks c) others mx) as (_ & H2 & _). specialize (H2 j l Hj Hl Hread). lia.
Qed.

Lemma desc_slice j : j ∈ i :: others -> slice (seeks c) L a b j = filter (fun v => a <= fst v) (unread_at (seeks c) L j).
Proof. intros Hj. apply filter_same. intros v Hv. pose proof (desc_upper j v Hj Hv). lia. Qed.

Lemma desc_rest j : j ∉ i :: others -> unread_at (seeks c) L j = [].
Proof.
  intros Hj. destruct (decide (j ∈ current c)) as [Hin|Hin]; [|by apply Hc]. rewrite Ecur in Hin. apply elem_of_app in Hin as [Hin|Hin]; [|done].
  by eapply (Forall_forall _ dropped) in Hdrop.
Qed.

Lemma desc_marked j : unread_at (mark_all (seeks c) (others ++ [i]) a b) L j = filter (fun v => ~ a <= fst v) (unread_at (seeks c) L j).
Proof.
  destruct (decide (j ∈ others ++ [i])) as [Hj|Hj].
  - rewrite unread_at_marked by done. unfold unread_at. destruct (seeks c !! j) as [l|] eqn:Hl, (L !! j) as [r|] eqn:Hr; try done.
    pose proof (Forall2_lookup_lr _ _ _ _ _ _ (fa_fits _ _ _ Hc) Hl Hr) as Hb. destruct (fa_marks _ _ _ Hc j l Hl) as [Hmax _]. destruct desc_ab as (_ & _ & Ha & _).
    unfold unread_rows. rewrite list_filter_filter. apply filter_same. intros v Hv. pose proof (live_i64 l r v Hb Hv) as Hi. rewrite Hmax.
    rewrite (proj2 (Z.ltb_ge MaxInt64 b) Ha). unfold is_i64, MaxInt64 in *. destruct (Z.ltb_spec a (readMin l)); lia.
  - rewrite unread_at_mark by done. rewrite (desc_rest j) by set_solver. done.
Qed.
End desc_window.

Lemma ReadBlock_falling c L T st : falling c L T -> Good st ->
  (exists c' st', ReadBlock ReadBlockAt fs c st = Ok (c', rep [], st') /\ content (seeks c) L = ∅) \/
  (exists c' out st' a, ReadBlock ReadBlockAt fs c st = Ok (c', rep out, st') /\ Good st' /\ falling c' L a /\
     takes (fun t => a <= t) (content (seeks c) L) (content (seeks c') L) out).
Proof.
  intros Hc Hg. unfold ReadBlock.
  destruct (read_loop_spec L (current c) c st) as [[Hall (st' & E & Hg')]|(dropped & i & others & mn & mx & st' & Ecur & Hdrop & Hmn & Hmx & Hres)]; [apply Hc|apply Hc|done| | | |].
  - apply falls_lt, Hc.
  - intros i others [pre Hpre]. pose proof (fa_current _ _ _ Hc) as Hsub. rewrite Hpre in Hsub. by eapply falls_nodup, falls_suffix.
  - left. exists (with_current c []), st'. rewrite E, cl_empty. split; [done|]. apply content_none. intros i. destruct (decide (i ∈ current c)) as [Hi|Hi].
    + by eapply (Forall_forall _ (current c)) in Hall.
    + by apply Hc.
  - right. rewrite (fa_dir _ _ _ Hc) in Hres. destruct (window (seeks c) false mn mx others) as [a b] eqn:Ew. destruct Hres as [Hres Hg'].
    pose proof (desc_ab c L T Hc i others mn mx Hmn Hmx a b Ew) as (Ha & Hb & Hlo & HT).
    pose proof (desc_marked c L T Hc dropped i others mn mx Ecur Hdrop Hmn Hmx a b Ew) as Hmark.
    assert (falls (i :: others) (seeks c)) as Hfalls by (eapply falls_suffix; rewrite <- Ecur; apply Hc).
    set (s' := mark_all (seeks c) (others ++ [i]) a b) in *.
    assert (length s' = length (seeks c)) as Hlen by apply (length_marked _ L), Hc.
    eexists _, _, st', a. split; [exact Hres|]. split; [done|]. split.
    + constructor; cbn [cursor_over with_seeks with_current key KeyCursor.ascending seeks current pos].
      * apply Hc.
      * apply Hc.
      * apply fits_mark, Hc.
      * unfold falls, indices. by rewrite Hlen.
      * intros j Hj. rewrite Hmark, (desc_rest c L T Hc dropped i others Ecur Hdrop j Hj). done.
      * intros j Hj. by rewrite Hmark, (fa_passed _ _ _ Hc j Hj).
      * intros j Hj. apply Hc. rewrite Ecur. apply elem_of_app. by right.
      * intros j l Hl. unfold s' in Hl. rewrite mark_all_lookup in Hl. destruct (seeks c !! j) as [l0|] eqn:Hl0; [|done]. injection Hl as <-.
        destruct (fa_marks _ _ _ Hc j l0 Hl0) as [Hmin Hor]. case_decide as Hj; cbn [readMin readMax id markRead].
        -- rewrite Hmin, (proj2 (Z.ltb_ge MaxInt64 b) Hlo). split; [done|]. destruct Hor as [Hn|Hmax]; [left; by rewrite Hmark, Hn|right].
           rewrite Hmax. by rewrite (proj2 (Z.ltb_lt _ _)) by lia.
        -- split; [done|]. left. rewrite Hmark, (desc_rest c L T Hc dropped i others Ecur Hdrop j); [done|]. set_solver.
    + destruct (fold_under (slice (seeks c) L a b <$> others) (unread_at (seeks c) L i)) as [Hs1 Hs2]; [apply unread_at_sorted, Hc|apply Forall_fmap, Forall_true; intros; apply slice_sorted, Hc|].
      cbn [over] in *. set (out := foldl _ _ _) in *.
      assert (series out = stack (filter (fun v => a <= fst v) <$> (unread_at (seeks c) L <$> indices (seeks c)))) as Hout.
      { rewrite Hs2, <- list_fmap_compose.
        rewrite <- (stack_falls (filter (fun v => a <= fst v) ∘ unread_at (seeks c) L) (i :: others) (seeks c)).
        - f_equal. f_equal. cbn [fmap list_fmap compose]. f_equal.
          + rewrite <- (desc_slice c L T Hc i others mn mx Hmn Hmx a b Ew i) by left. symmetry. apply filter_in. intros v Hv.
            assert (mn <= fst v <= mx); [|lia]. eapply sorted_bounds; [apply unread_at_sorted, Hc|done..].
          + apply list_fmap_ext. intros ? j Hj%list_elem_of_lookup_2. apply (desc_slice c L T Hc i others mn mx Hmn Hmx a b Ew). by right.
        - done.
        - intros j Hj. cbn [compose]. by rewrite (desc_rest c L T Hc dropped i others Ecur Hdrop j Hj). }
      split_and!; [|done| |].
      * intros Hn. rewrite Hn in Hs2. destruct (MinTime_in _ _ Hmn) as (v & Hv & _).
        assert (stack (reverse (unread_at (seeks c) L i :: (slice (seeks c) L a b <$> others))) !! fst v <> None) as Hne; [|by rewrite <- Hs2 in Hne].
        rewrite reverse_cons, stack_snoc, lookup_union.
        destruct (series (unread_at (seeks c) L i) !! fst v) eqn:E; [by destruct (stack _ !! _)|]. rewrite series_lookup_None in E. by specialize (E v Hv).
      * intros t v. rewrite Hout. by apply (stack_filter (fun t => a <= t)).
      * by apply (content_marked (fun t => ~ a <= t) (fun v => ~ a <= fst v)).
Qed.

Lemma before_pos_sublist c : sublist (before_pos c) (reverse (indices (seeks c))).
Proof. unfold before_pos. rewrite rev_alt. change (rev_append ?l []) with (reverse l). apply sublist_reversed, sublist_filter. Qed.

Lemma elem_before_pos c j : j ∈ before_pos c <-> Z.of_nat j < pos c /\ (j < length (seeks c))%nat.
Proof. unfold before_pos. rewrite rev_alt. change (rev_append ?l []) with (reverse l). rewrite elem_of_reverse, list_elem_of_filter, elem_of_seq. lia. Qed.

Lemma skip_read_head c us i vs : skip_read c us = i :: vs -> is_read c i = false.
Proof. induction us as [|x us IH]; [done|]. cbn [skip_read]. destruct (is_read c x) eqn:E; [done|]. by intros [= <- <-]. Qed.

Lemma Next_falling c L T : falling c L T -> falling (Next c) L T /\ seeks (Next c) = seeks c.
Proof.
  intros Hc. unfold Next. destruct (current c) as [|i us] eqn:Ecur; [done|]. destruct (is_read c i) eqn:Hi; [|done]. cbn [negb].
  cbn [KeyCursor.ascending with_current]. rewrite (fa_dir _ _ _ Hc). unfold nextDescending. cbn [seeks with_current].
  assert (forall j, pos c <= Z.of_nat j -> unread_at (seeks c) L j = []) as Hpast.
  { intros j Hj. destruct (decide (j ∈ current c)) as [Hin|Hin]; [|by apply Hc]. pose proof (fa_ahead _ _ _ Hc j Hin) as Hp.
    pose proof (fa_current _ _ _ Hc) as Hs. pose proof (fa_ahead _ _ _ Hc i ltac:(rewrite Ecur; left)) as Hpi.
    rewrite Ecur in Hin, Hs. apply elem_of_cons in Hin as [->|Hin]; [by apply is_read_none; [apply Hc|]|].
    pose proof (falls_first _ _ _ _ Hs Hin) as Hle. assert (j = i) as -> by lia. by apply is_read_none; [apply Hc|]. }
  pose proof (before_pos_sublist c) as Hbs. pose proof (elem_before_pos c) as Heb.
  assert (before_pos (with_current c []) = before_pos c) as -> by done.
  destruct (skip_read_spec (with_current c []) (before_pos c)) as (pre & Epre & Hpre). change (is_read (with_current c [])) with (is_read c) in *.
  assert (forall j, j ∈ pre -> unread_at (seeks c) L j = []) as Hread.
  { intros j Hj. apply is_read_none; [apply Hc|]. by eapply (Forall_forall _ pre) in Hpre. }
  assert (forall j, (length (seeks c) <= j)%nat \/ pos c <= Z.of_nat j \/ j ∈ before_pos c) as Hall.
  { intros j. rewrite Heb. lia. }
  destruct (skip_read (with_current c []) (before_pos c)) as [|i' us'] eqn:Esk.
  - rewrite app_nil_r in Epre. assert (forall j, unread_at (seeks c) L j = []) as Hnone.
    { intros j. destruct (Hall j) as [Hj|[Hj|Hj]]; [by apply unread_at_out|by apply Hpast|]. apply Hread. by rewrite <- Epre. }
    split; [|done]. destruct Hc. constructor; cbn [with_pos with_current key KeyCursor.ascending seeks current pos]; [done|done|done|left; apply sublist_nil_l|done|done|by intros ? ?%elem_of_nil|].
    intros j l Hl. split; [by eapply fa_marks0|by left].
  - split; [|done]. pose proof (skip_read_head _ _ _ _ Esk) as Hhead. change (is_read (with_current c [])) with (is_read c) in Hhead. cbn [List.filter]. rewrite Hhead. cbn [negb].
    assert (sublist (i' :: us') (reverse (indices (seeks c)))) as Hsub by (etrans; [|exact Hbs]; rewrite Epre; by apply sublist_inserts_l).
    pose proof (decreasing _ _ Hsub) as Hs. apply StronglySorted_inv in Hs as [_ Hs].
    assert (forall j, j ∉ i' :: i' :: List.filter (fun j => negb (is_read c j)) us' -> unread_at (seeks c) L j = []) as Hrest.
    { intros j Hj. destruct (Hall j) as [Hj1|[Hj1|Hj1]]; [by apply unread_at_out|by apply Hpast|]. rewrite Epre in Hj1. apply elem_of_app in Hj1 as [Hj1|Hj1]; [by apply Hread|].
      apply not_elem_of_cons in Hj as [Hne Hj]. apply not_elem_of_cons in Hj as [_ Hj]. apply elem_of_cons in Hj1 as [->|Hj1]; [done|]. apply is_read_none; [apply Hc|].
      destruct (is_read c j) eqn:E; [done|]. exfalso. apply Hj. apply elem_kept. by rewrite E. }
    assert (forall j, j ∈ i' :: i' :: List.filter (fun j => negb (is_read c j)) us' -> (j <= i')%nat) as Hle.
    { intros j [->|[->|[Hj _]%elem_kept]%elem_of_cons]%elem_of_cons; [done|done|]. eapply (Forall_forall _ us') in Hs; [|done]. lia. }
    destruct Hc. constructor; cbn [with_current key KeyCursor.ascending seeks current pos]; try done.
    + right. eexists i', _. split; [done|]. etrans; [|exact Hsub]. constructor. apply kept_sublist.
    + intros j Hj. apply Hrest. intros Hin%Hle. lia.
    + intros j Hj%Hle. lia.
Qed.

Lemma delivers_falling n : forall c L T st, (size (content (seeks c) L) <= n)%nat -> falling c L T -> Good st ->
  exists bs, delivers c st bs /\ Forall (fun b => b <> []) bs /\ sorted (concat (reverse bs)) /\ series (concat (reverse bs)) = content (seeks c) L.
Proof.
  induction n as [n IH] using lt_wf_ind. intros c L T st Hn Hc Hg.
  destruct (ReadBlock_falling c L T st Hc Hg) as [(c' & st' & E & Hnone)|(c' & out & st' & b & E & Hg' & Hc' & Ht)].
  - exists []. split_and!; [by econstructor|done|constructor|]. by rewrite Hnone.
  - pose proof (takes_smaller _ _ _ _ Ht) as Hlt. destruct (Next_falling c' L b Hc') as [Hc2 Es]. rewrite <- Es in Hlt, Ht.
    destruct (IH (size (content (seeks (Next c')) L)) ltac:(lia) (Next c') L b st') as (bs & Hd & Hne & Hs & Hser); [done|done|done|].
    destruct Ht as (Hout & Hso & H1 & H2). exists (out :: bs). rewrite reverse_cons, concat_app. cbn [concat]. rewrite app_nil_r.
    split_and!; [by econstructor|by constructor| |].
    + apply sorted_app; [done|done|]. intros v w Hv Hw. apply (sorted_series_in out w Hso) in Hw. apply H1 in Hw as [Hw _].
      apply (sorted_series_in _ v Hs) in Hv. rewrite Hser in Hv. apply H2 in Hv as [Hv _]. cbn. lia.
    + apply map_eq. intros t. rewrite series_app, Hser. apply option_eq. intros v. rewrite lookup_union_Some_raw, H2, H1, eq_None_not_Some. split.
      * intros [[_ ?]|[_ [_ ?]]]; done.
      * intros Hv. destruct (decide (b <= t)) as [Hb|Hb]; [by left|right]. split; [|done]. intros [w Hw]. by apply H1 in Hw as [? _].
Qed.
End cursor.

End KeyCursorLaws.
