(* ===== verification/KeyCursorRuns.v ===== *)
(** What a cursor over the blocks of a key reads of the files of a store: the laws of
    KeyCursorLaws.v from the making of the cursor on. *)
From stdpp Require Import gmap sorting.
From S2P Require Import Prelude StringCodec Values ArrayValues Codec Block Bytes Util SSTIndex IndirectIndex SSTAccess SSTReader KeyCursor MergeLaws KeyCursorLaws Samples.
Import Values ArrayValues Util MergeLaws KeyCursor KeyCursorLaws.

Module KeyCursorRuns.

#[local] Existing Instance row_value.

(** ** [sort.Sort]

    The result is a permutation, and in order where the comparison is a strict weak order. *)
Definition weak_order {X} (less : X -> X -> bool) (l : list X) : Prop :=
  (forall a, a ∈ l -> less a a = false) /\
  (forall a b c, a ∈ l -> b ∈ l -> c ∈ l -> less a b = true -> less b c = true -> less a c = true) /\
  (forall a b c, a ∈ l -> b ∈ l -> c ∈ l -> less a c = true -> less a b = true \/ less b c = true).
Definition in_order {X} (less : X -> X -> bool) (l : list X) : Prop := StronglySorted (fun a b => less b a = false) l.
Record sorts {X} (sort : (X -> X -> bool) -> list X -> list X) : Prop := {
  sort_perm : forall less l, sort less l ≡ₚ l;
  sort_order : forall less l, weak_order less l -> in_order less (sort less l) }.

Fixpoint insert {X} (less : X -> X -> bool) (x : X) (l : list X) : list X :=
  match l with
  | [] => [x]
  | y :: l' => if less y x then y :: insert less x l' else x :: l
  end.
Definition insertion {X} (less : X -> X -> bool) (l : list X) : list X := foldr (insert less) [] l.

Lemma insert_perm {X} less (x : X) l : insert less x l ≡ₚ x :: l.
Proof. induction l as [|y l IH]; [done|]. cbn [insert]. destruct (less y x); [|done]. rewrite IH. apply Permutation_swap. Qed.

Lemma insertion_sorts X : sorts (X := X) insertion.
Proof.
  assert (forall less (l : list X), insertion less l ≡ₚ l) as Hperm.
  { intros less l. induction l as [|x l IH]; [done|]. cbn [insertion foldr]. rewrite insert_perm. by f_equiv. }
  constructor; [done|]. intros less l (Hirr & Htr & Hneg).
  assert (forall k, (forall x, x ∈ k -> x ∈ l) -> in_order less (insertion less k)) as Hall; [|by apply Hall].
  induction k as [|x k IH]; intros Hin; [constructor|]. cbn [insertion foldr]. fold (insertion less k).
  assert (forall y, y ∈ insertion less k -> y ∈ l) as Hk by (intros y Hy; apply Hin; right; by rewrite Hperm in Hy).
  specialize (IH ltac:(intros; apply Hin; by right)). pose proof (Hin x ltac:(left)) as Hx. revert IH Hk. generalize (insertion less k) as s.
  induction s as [|y s IHs]; intros Hs Hk; [repeat constructor|]. apply StronglySorted_inv in Hs as [Hs Hy]. cbn [insert].
  pose proof (Hk y ltac:(left)) as Hyl. destruct (less y x) eqn:E.
  - constructor; [apply IHs; [done|]; intros; apply Hk; by right|]. rewrite insert_perm. constructor; [|done].
    destruct (less x y) eqn:E2; [|done]. pose proof (Htr x y x Hx Hyl Hx E2 E). pose proof (Hirr x Hx). congruence.
  - constructor; [by constructor|]. constructor; [done|]. apply Forall_forall. intros z Hz. eapply (Forall_forall _ s) in Hy; [|done].
    destruct (less z x) eqn:E2; [|done]. destruct (Hneg z y x (Hk z ltac:(by right)) Hyl Hx E2); congruence.
Qed.

(** ** The order of the locations

    [ascLess] and [descLess] put blocks that overlap in the order of their files and others
    in the order of time, which is no order when a block overlaps one of an earlier file and
    one of a later file that is wholly before that. *)
Section order.
Context {F : Type} `{SSTFile F} (fs : list F).
Definition overlap (a b : location) : Prop := entryMin a <= entryMax b /\ entryMin b <= entryMax a.
Definition untangled (ls : list location) : Prop :=
  forall a b c, a ∈ ls -> b ∈ ls -> c ∈ ls -> before (path_of fs a) (path_of fs b) -> before (path_of fs b) (path_of fs c) ->
    overlap a b -> overlap b c -> entryMin a <= entryMax c.

Context (asc : bool) (ls : list location).
Context (Hspan : forall a, a ∈ ls -> entryMin a <= entryMax a).
Context (Hfile : forall a b, a ∈ ls -> b ∈ ls -> path_of fs a = path_of fs b -> overlap a b -> a = b).
Abbreviation less := (if asc then ascLess fs else descLess fs).

Lemma less_iff a b : a ∈ ls -> b ∈ ls ->
  less a b = true <-> overlap a b /\ before (path_of fs a) (path_of fs b) \/ entryMax a < entryMin b.
Proof using Hspan.
  intros Ha%Hspan Hb%Hspan. unfold overlap, before.
  destruct asc; unfold ascLess, descLess, overlaps, SSTIndex.entry_OverlapsTimeRange;
    destruct ((entryMin a <=? entryMax b) && (entryMin b <=? entryMax a)) eqn:E; rewrite Z.ltb_lt; lia.
Qed.

Lemma less_total a b : a ∈ ls -> b ∈ ls -> a = b \/ less a b = true \/ less b a = true.
Proof using Hspan Hfile.
  intros Ha Hb. rewrite (less_iff a b), (less_iff b a) by done. pose proof (Hspan a Ha). pose proof (Hspan b Hb). pose proof (Hfile a b Ha Hb) as Hf.
  unfold overlap, before in *. rewrite <- Compare_eq in Hf. pose proof (Compare_swap (path_of fs a) (path_of fs b)).
  destruct (decide (entryMin a <= entryMax b /\ entryMin b <= entryMax a)); [|lia].
  destruct (decide (Compare (path_of fs a) (path_of fs b) = 0)); [tauto|lia].
Qed.

Lemma less_overlap a b c : untangled ls -> a ∈ ls -> b ∈ ls -> c ∈ ls -> overlap a c -> ~ overlap a b \/ ~ overlap b c ->
  less a b = true -> less b c = true -> before (path_of fs a) (path_of fs c).
Proof using Hspan Hfile.
  intros Hu Ha Hb Hc Hac Hno. rewrite (less_iff a b), (less_iff b c) by done.
  pose proof (Hspan a Ha). pose proof (Hspan b Hb). pose proof (Hspan c Hc). pose proof (Hfile a c Ha Hc) as Hf.
  pose proof (Hu c a b Hc Ha Hb) as U1. pose proof (Hu b c a Hb Hc Ha) as U2.
  assert (before (path_of fs a) (path_of fs c) \/ path_of fs a = path_of fs c \/ before (path_of fs c) (path_of fs a)) as [|[E|Hca]]; [|done| |].
  { rewrite <- Compare_eq. unfold before. pose proof (Compare_swap (path_of fs a) (path_of fs c)). lia. }
  - specialize (Hf E Hac). subst c. unfold overlap, before in *. pose proof (Compare_swap (path_of fs a) (path_of fs b)). lia.
  - intros L1 L2. exfalso. unfold overlap in *.
    destruct L1 as [[L1 P1]|L1], L2 as [[L2 P2]|L2]; [lia|specialize (U1 Hca P1); lia|specialize (U2 P2 Hca); lia|lia].
Qed.

(** The comparison is a strict weak order exactly where the locations are not so tangled. *)
Lemma untangled_iff : untangled ls <-> weak_order less ls.
Proof using Hspan Hfile.
  split; [|intros (_ & Htr & _) a b c Ha Hb Hc P1 P2 O1 O2; specialize (Htr a b c Ha Hb Hc);
    rewrite !less_iff in Htr by done; unfold overlap, before in *; destruct Htr as [[? _]|]; [tauto..| |]; pose proof (Hspan a Ha); pose proof (Hspan c Hc); lia].
  intros Hu.
  assert (forall a, a ∈ ls -> less a a = false) as Hirr.
  { intros a Ha. apply not_true_iff_false. rewrite less_iff by done. intros [[_ Hb]|Hb]; [by apply before_irrefl in Hb|]. pose proof (Hspan a Ha). lia. }
  assert (forall a b c, a ∈ ls -> b ∈ ls -> c ∈ ls -> less a b = true -> less b c = true -> less a c = true) as Htr.
  { intros a b c Ha Hb Hc L1 L2. pose proof (Hspan a Ha). pose proof (Hspan b Hb). pose proof (Hspan c Hc). apply less_iff; [done..|].
    destruct (decide (entryMin a <= entryMax c /\ entryMin c <= entryMax a)) as [Ho|Ho].
    - left. split; [done|]. destruct (decide (entryMin a <= entryMax b /\ entryMin b <= entryMax a)) as [O1|O1];
        [destruct (decide (entryMin b <= entryMax c /\ entryMin c <= entryMax b)) as [O2|O2]|].
      + apply less_iff in L1, L2; [|done..]. unfold overlap in *. transitivity (path_of fs b); [destruct L1 as [[_ ?]|]|destruct L2 as [[_ ?]|]]; (done || lia).
      + apply (less_overlap a b c); try done. by right.
      + apply (less_overlap a b c); try done. by left.
    - right. apply less_iff in L1, L2; [|done..]. pose proof (Hu a b c Ha Hb Hc) as U. unfold overlap in *.
      destruct L1 as [[L1 P1]|L1], L2 as [[L2 P2]|L2]; [specialize (U P1 P2); lia|lia..]. }
  split_and!; [done|done|]. intros a b c Ha Hb Hc Hac. destruct (less_total a b Ha Hb) as [->|[|Hba]]; [by right|by left|right]. by apply (Htr b a c).
Qed.
End order.

(** The last of a stack that has the time. *)
Lemma stack_last {A} (ls : list (list (Z * A))) t v :
  stack ls !! t = Some v <-> exists p r q, ls = p ++ r :: q /\ series r !! t = Some v /\ forall r', r' ∈ q -> series r' !! t = None.
Proof.
  induction ls as [|s ls IH] using rev_ind.
  - split; [done|]. by intros (p & r & q & E & _); destruct p.
  - rewrite stack_snoc, lookup_union_Some_raw, IH. split.
    + intros [Hs|[Hn (p & r & q & -> & Hr & Hq)]].
      * exists ls, s, []. split_and!; [done|done|]. by intros ? ?%elem_of_nil.
      * exists p, r, (q ++ [s]). split_and!; [by rewrite <- app_assoc|done|]. intros r' [Hr'|Hr']%elem_of_app; [by apply Hq|]. apply list_elem_of_singleton in Hr' as ->. done.
    + intros (p & r & q & E & Hr & Hq). destruct q as [|s' q _] using rev_ind.
      * apply app_inj_tail in E as [-> ->]. by left.
      * rewrite app_comm_cons, app_assoc in E. apply app_inj_tail in E as [-> ->]. right. split; [apply Hq; set_solver|].
        exists p, r, q. split_and!; [done|done|]. intros r' Hr'. apply Hq. set_solver.
Qed.

Lemma series_key_stack {A} (ls : list (list (Z * A))) t v : stack ls !! t = Some v -> fst v = t.
Proof. intros (p & r & q & _ & Hr & _)%stack_last. by eapply series_key. Qed.

(** ** The files *)
Section files.
Context {F : Type} `{SSTFile F} {C St A : Type} {Cl : Columns C} (rep : list (Z * A) -> C) {Laws : ColumnsLaws Cl rep}.
Context (ReadBlockAt : F -> SSTIndex.IndexEntry -> St -> outcome (C * St)) (k : list Z) (Good : St -> Prop).
(** Who else uses a file does not show. *)
Context (Href : forall f, f_Path (f_Ref f) = f_Path f /\ f_TombstoneRange (f_Ref f) k = f_TombstoneRange f k /\
  forall e st, ReadBlockAt (f_Ref f) e st = ReadBlockAt f e st).
Context (rows_of : nat -> SSTIndex.IndexEntry -> list (Z * A)).

(** The entries of the key in a file: blocks in the order of time that can be read, within
    the range of time of the file. *)
Definition file_ok (i : nat) (f : F) (es : list SSTIndex.IndexEntry) : Prop :=
  f_ReadEntries f k = Ok es /\
  Forall (fun e => block_rows rep ReadBlockAt [f] Good (MkLoc 0 e 0 0) (rows_of i e) /\
                   fst (f_TimeRange f) <= SSTIndex.MinTime e /\ SSTIndex.MaxTime e <= snd (f_TimeRange f)) es /\
  (forall e e', e ∈ es -> e' ∈ es -> SSTIndex.MinTime e <= SSTIndex.MaxTime e' -> SSTIndex.MinTime e' <= SSTIndex.MaxTime e -> e = e').

Context (fs : list F) (entries : list (list SSTIndex.IndexEntry)) (Hlen : length entries = length fs).
Context (Hfiles : forall i f es, fs !! i = Some f -> entries !! i = Some es -> file_ok i f es).
Context (Hpaths : forall i j f f', fs !! i = Some f -> fs !! j = Some f' -> f_Path f = f_Path f' -> i = j).

(** [v] is a value of the [i]-th file that was not deleted. *)
Definition in_file (i : nat) (f : F) (v : Z * A) : Prop :=
  fs !! i = Some f /\ covered (f_TombstoneRange f k) (fst v) = false /\ exists es e, entries !! i = Some es /\ e ∈ es /\ v ∈ rows_of i e.
(** No later file has a value of its time. *)
Definition newest (v : Z * A) : Prop :=
  exists i f, in_file i f v /\ forall j f' v', in_file j f' v' -> fst v' = fst v -> Compare (f_Path f') (f_Path f) <= 0.

Lemma block_at i f e a b : fs !! i = Some f -> block_rows rep ReadBlockAt [f] Good (MkLoc 0 e 0 0) (rows_of i e) ->
  block_rows rep ReadBlockAt fs Good (MkLoc i e a b) (rows_of i e).
Proof. intros Hf [(f' & [= <-] & Hr)]. constructor; [|done..]. by exists f. Qed.

Lemma in_file_unique i f v v' : in_file i f v -> in_file i f v' -> fst v = fst v' -> v = v'.
Proof.
  intros (Hf & _ & es & e & He & Hin & Hv) (_ & _ & es' & e' & He' & Hin' & Hv') Et. assert (es' = es) as -> by congruence.
  destruct (Hfiles i f es Hf He) as (_ & Hb & Hd). rewrite Forall_forall in Hb. destruct (Hb e Hin) as [Hb1 _], (Hb e' Hin') as [Hb2 _].
  pose proof (block_bounds _ _ _ _ _ _ _ Hb1 Hv) as B1. pose proof (block_bounds _ _ _ _ _ _ _ Hb2 Hv') as B2. cbn [entry] in B1, B2.
  assert (e' = e) as -> by (symmetry; apply Hd; done || lia).
  apply (sorted_series_in _ _ (br_sorted _ _ _ _ _ _ Hb1)) in Hv, Hv'. rewrite Et in Hv. congruence.
Qed.

(** ** The locations *)
Section at_time.
Context (t : Z) (asc : bool).

Definition fresh (i : nat) (e : SSTIndex.IndexEntry) : location :=
  if asc then MkLoc i e MinInt64 (i64 (t - 1)) else MkLoc i e (i64 (t + 1)) MaxInt64.
Definition on_side (u : Z) : Prop := if asc then t <= u else u <= t.
(** What of a file is looked at. *)
Definition wanted (f : F) (e : SSTIndex.IndexEntry) : bool :=
  (if asc then t <=? snd (f_TimeRange f) else fst (f_TimeRange f) <=? t) && negb (all_deleted (f_TombstoneRange f k) e) &&
  (if asc then t <=? SSTIndex.MaxTime e else SSTIndex.MinTime e <=? t).

Lemma entry_locations_spec i f es l :
  (if asc then t <=? snd (f_TimeRange f) else fst (f_TimeRange f) <=? t) = true ->
  l ∈ entry_locations i (f_TombstoneRange f k) t asc es <-> exists e, e ∈ es /\ wanted f e = true /\ l = fresh i e.
Proof.
  intros Hr. unfold entry_locations, wanted. rewrite Hr, list_elem_of_omap. cbn [andb]. unfold fresh.
  split.
  - intros (e & He & E). exists e. split; [done|]. destruct (all_deleted _ _); [done|]. cbn [negb andb].
    destruct asc; cbn [andb negb] in *.
    + destruct (Z.ltb_spec (SSTIndex.MaxTime e) t); [done|]. injection E as <-. split; [lia|done].
    + destruct (Z.ltb_spec t (SSTIndex.MinTime e)); [done|]. injection E as <-. split; [lia|done].
  - intros (e & He & Hw & ->). exists e. split; [done|]. destruct (all_deleted _ _); [done|]. cbn [negb andb] in Hw.
    destruct asc; cbn [andb negb] in *.
    + by rewrite (proj2 (Z.ltb_ge _ _)) by lia.
    + by rewrite (proj2 (Z.ltb_ge t _)) by lia.
Qed.

Lemma locations_from_spec : forall gs ess i, length ess = length gs -> (forall j f es, gs !! j = Some f -> ess !! j = Some es -> f_ReadEntries f k = Ok es) ->
  exists ls, locations_from i gs k t asc = Ok ls /\
    forall l, l ∈ ls <-> exists j f es e, gs !! j = Some f /\ ess !! j = Some es /\ e ∈ es /\ wanted f e = true /\ l = fresh (i + j) e.
Proof.
  induction gs as [|f gs IH]; intros [|es ess] i Hl He; try done.
  - exists []. split; [done|]. intros l. split; [by intros ?%elem_of_nil|]. by intros (j & f & es & e & Hj & _).
  - destruct (IH ess (S i)) as (ls & E & Hls); [by injection Hl|by intros j f0 es0 H1 H2; apply (He (S j) f0 es0)|].
    pose proof (He 0%nat f es eq_refl eq_refl) as Hf. cbn [locations_from]. rewrite (surjective_pairing (f_TimeRange f)).
    set (keep := if asc then t <=? snd (f_TimeRange f) else fst (f_TimeRange f) <=? t).
    assert ((asc && (snd (f_TimeRange f) <? t)) || (negb asc && (t <? fst (f_TimeRange f))) = negb keep) as ->.
    { unfold keep. destruct asc; cbn [andb orb negb]; [rewrite orb_false_r|]; by rewrite Z.leb_antisym, negb_involutive. }
    assert (forall l, (exists j f0 es0 e, (f :: gs) !! j = Some f0 /\ (es :: ess) !! j = Some es0 /\ e ∈ es0 /\ wanted f0 e = true /\ l = fresh (i + j) e) <->
      (exists e, e ∈ es /\ wanted f e = true /\ l = fresh i e) \/ l ∈ ls) as Hsplit.
    { intros l. rewrite Hls. split.
      - intros ([|j] & f0 & es0 & e & H1 & H2 & H3 & H4 & H5); [injection H1 as <-; injection H2 as <-; left; exists e; by rewrite Nat.add_0_r in H5|].
        right. exists j, f0, es0, e. by rewrite Nat.add_succ_r in H5.
      - intros [(e & H3 & H4 & H5)|(j & f0 & es0 & e & H1 & H2 & H3 & H4 & H5)].
        + exists 0%nat, f, es, e. by rewrite Nat.add_0_r.
        + exists (S j), f0, es0, e. by rewrite Nat.add_succ_r. }
    destruct keep eqn:Hk; cbn [negb].
    + rewrite Hf. cbn [mbind outcome_bind]. rewrite E. cbn [mbind outcome_bind]. eexists. split; [done|]. intros l. rewrite Hsplit, elem_of_app.
      by rewrite (entry_locations_spec i f es l Hk).
    + exists ls. split; [done|]. intros l. rewrite Hsplit. split; [by right|]. intros [(e & _ & Hw & _)|]; [|done]. unfold wanted in Hw. fold keep in Hw. by rewrite Hk in Hw.
Qed.

Lemma found_weak ls : locations fs k t asc = Ok ls -> untangled fs ls -> weak_order (if asc then ascLess fs else descLess fs) ls.
Proof using Hfiles Hlen Hpaths.
  intros E. destruct (locations_from_spec fs entries 0 Hlen) as (ls' & E' & Hls); [by intros j f es Hf He; apply (Hfiles j f es)|].
  unfold locations in E. rewrite E in E'. injection E' as <-.
  assert (forall l, l ∈ ls -> exists j f es e, fs !! j = Some f /\ file_ok j f es /\ e ∈ es /\ l = fresh j e /\ file l = j /\ entry l = e) as Hin.
  { intros l (j & f & es & e & Hf & He & Hin & _ & ->)%Hls. exists j, f, es, e. split_and!; [done|by apply Hfiles|done|done|by unfold fresh; destruct asc..]. }
  apply untangled_iff.
  - intros l (j & f & es & e & _ & (_ & Hb & _) & He & _ & _ & ->)%Hin. rewrite Forall_forall in Hb. destruct (Hb e He) as [Hr _].
    destruct (rows_of j e) as [|v r] eqn:Er; [by pose proof (br_min _ _ _ _ _ _ Hr)|]. pose proof (block_bounds _ _ _ _ _ _ v Hr ltac:(left)) as B. cbn in B. lia.
  - intros a b (j & f & es & e & Hf & (R1 & _ & Hd) & He & Ea & Fa & Na)%Hin (j' & f' & es' & e' & Hf' & (R2 & _) & He' & Eb & Fb & Nb)%Hin Hp [O1 O2].
    unfold path_of in Hp. rewrite Fa, Fb, Hf, Hf' in Hp. pose proof (Hpaths _ _ _ _ Hf Hf' Hp) as <-. rewrite Na, Nb in *.
    assert (f' = f) as -> by congruence. assert (es' = es) as -> by congruence. rewrite Ea, Eb. f_equal. by apply Hd.
Qed.

(** ** The cursor made *)
Lemma in_rev_iff {X} (x : X) l : x ∈ l <-> x ∈ rev l.
Proof. rewrite rev_alt. change (rev_append ?l []) with (reverse l). by rewrite elem_of_reverse. Qed.

Definition same (f f' : F) : Prop :=
  f_Path f' = f_Path f /\ f_TombstoneRange f' k = f_TombstoneRange f k /\ forall e st, ReadBlockAt f' e st = ReadBlockAt f e st.

Lemma ref_all_same ls : forall gs, Forall2 same fs gs -> Forall2 same fs (ref_all f_Ref gs ls).
Proof.
  induction ls as [|l ls IH]; intros gs Hg; [done|]. apply IH. apply Forall2_same_length_lookup. split; [by rewrite length_alter, (Forall2_length _ _ _ Hg)|].
  intros i f f' Hf Hf'. destruct (decide (i = file l)) as [->|Hne].
  - rewrite list_lookup_alter_eq in Hf'. destruct (gs !! file l) as [g|] eqn:Hgl; [|done]. injection Hf' as <-.
    destruct (Forall2_lookup_lr _ _ _ _ _ _ Hg Hf Hgl) as (H1 & H2 & H3). destruct (Href g) as (G1 & G2 & G3). split_and!; [congruence|congruence|].
    intros e st. by rewrite G3.
  - rewrite list_lookup_alter_ne in Hf' by done. by eapply Forall2_lookup_lr.
Qed.

Lemma same_refl : Forall2 same fs fs.
Proof. apply Forall_Forall2_diag, Forall_true. done. Qed.

Definition rows (l : location) : list (Z * A) := rows_of (file l) (entry l).
Section made.
Context (gs : list F) (Hgs : Forall2 same fs gs) (s : list location).
Context (Hs : forall l, l ∈ s <-> exists j f es e, fs !! j = Some f /\ entries !! j = Some es /\ e ∈ es /\ wanted f e = true /\ l = fresh j e).

Lemma made_block l : l ∈ s -> exists f, fs !! file l = Some f /\ block_rows rep ReadBlockAt gs Good l (rows l) /\ tombs gs k l = f_TombstoneRange f k.
Proof.
  intros (j & f & es & e & Hf & He & Hin & Hw & ->)%Hs. destruct (Hfiles j f es Hf He) as (_ & Hb & _). rewrite Forall_forall in Hb.
  destruct (Hb e Hin) as [Hbe _]. destruct (Forall2_lookup_l _ _ _ _ _ Hgs Hf) as (g & Hg & Hp & Htomb & Hread).
  assert (file (fresh j e) = j /\ entry (fresh j e) = e) as [E1 E2] by (unfold fresh; by destruct asc). unfold rows. rewrite E1, E2. exists f. split; [done|].
  assert (tombs gs k (fresh j e) = f_TombstoneRange f k) as Et by (unfold tombs; by rewrite E1, Hg). split; [|done].
  destruct Hbe as [(f0 & Ef & Hr) H2 H3 H4 H5]. injection Ef as Ef. rewrite <- Ef in Hr. constructor; rewrite ?E1, ?E2; [|done..]. exists g. split; [done|].
  intros st Hst. rewrite Hread. by apply Hr.
Qed.

Lemma made_fits : fits rep ReadBlockAt gs Good s (rows <$> s).
Proof. unfold fits. apply Forall2_fmap_r, Forall_Forall2_diag, Forall_forall. intros l Hl. by destruct (made_block l Hl) as (f & _ & Hb & _). Qed.

Lemma made_marks l : l ∈ s -> l = fresh (file l) (entry l) /\ (if asc then t <= entryMax l else entryMin l <= t).
Proof.
  intros (j & f & es & e & _ & _ & _ & Hw & ->)%Hs. assert (file (fresh j e) = j /\ entry (fresh j e) = e) as [-> ->] by (unfold fresh; by destruct asc).
  split; [done|]. unfold wanted in Hw. destruct asc; lia.
Qed.

(** The cursor starts with all its locations. *)
Definition started : KeyCursor.KeyCursor := seek (MkCursor k s [] 0 asc) t.

Lemma holds_all (p : location -> bool) us : (forall i, i ∈ us -> (i < length s)%nat) -> (forall l, l ∈ s -> p l = true) -> List.filter (holds p s) us = us.
Proof.
  intros Hlt Hp. induction us as [|i us IH]; [done|]. cbn [List.filter]. destruct (lookup_lt_is_Some_2 s i (Hlt i ltac:(left))) as [l Hl].
  assert (holds p s i = true) as -> by (unfold holds; rewrite Hl; by eapply Hp, list_elem_of_lookup_2). f_equal. apply IH. intros j Hj. apply Hlt. by right.
Qed.

Lemma started_cursor :
  started = MkCursor k s (if asc then indices s else reverse (indices s)) (if asc then 0 else Z.of_nat (length s - 1)) asc.
Proof.
  unfold started, seek. cbn [seeks KeyCursor.ascending]. case_bool_decide as Hn; [apply nil_length_inv in Hn as ->; by destruct asc|]. destruct asc eqn:Ha.
  - unfold seekAscending. cbn [seeks]. rewrite holds_all.
    + cbn. f_equal. destruct s; [done|]. done.
    + intros i Hi%elem_of_seq. lia.
    + intros l Hl. destruct (made_marks l Hl) as [_ Hm]. rewrite Ha in Hm. unfold SSTIndex.entry_Contains. lia.
  - unfold seekDescending. cbn [seeks]. rewrite holds_all.
    + cbn [KeyCursor.key KeyCursor.pos KeyCursor.ascending]. rewrite rev_alt. change (rev_append ?l []) with (reverse l). f_equal.
      destruct (length s) as [|n]; [done|]. rewrite seq_S, reverse_app. cbn. lia.
    + intros i. rewrite <- in_rev_iff. intros Hi%elem_of_seq. lia.
    + intros l Hl. destruct (made_marks l Hl) as [_ Hm]. rewrite Ha in Hm. unfold SSTIndex.entry_Contains. lia.
Qed.

(** ** A start that is not at the end of time *)
Section inside.
Context (Ht : if asc then MinInt64 < t <= MaxInt64 else MinInt64 <= t < MaxInt64).

Lemma made_rows l : l ∈ s -> exists f, fs !! file l = Some f /\ block_rows rep ReadBlockAt gs Good l (rows l) /\ tombs gs k l = f_TombstoneRange f k /\
  (forall v, v ∈ unread_rows gs k l (rows l) <-> v ∈ rows l /\ covered (f_TombstoneRange f k) (fst v) = false /\ on_side (fst v)).
Proof.
  intros Hl. destruct (made_block l Hl) as (f & Hf & Hb & Et). exists f. split_and!; [done|done|done|].
  destruct (made_marks l Hl) as [El _]. intros v. unfold unread_rows, live. rewrite !list_elem_of_filter, Et.
  assert (v ∈ rows l -> is_i64 (fst v)) as Hi.
  { intros Hv. pose proof (block_bounds _ _ _ _ _ _ _ Hb Hv) as B. pose proof (br_i64 _ _ _ _ _ _ Hb). unfold is_i64 in *. lia. }
  assert (if asc then i64 (t - 1) = t - 1 else i64 (t + 1) = t + 1) as Hnext.
  { unfold i64, MinInt64, MaxInt64 in *. destruct asc; rewrite Z.mod_small; lia. }
  assert (v ∈ rows l -> (~ (readMin l <= fst v <= readMax l) <-> on_side (fst v))) as Hs0; [|tauto].
  intros Hv. specialize (Hi Hv). rewrite El. unfold is_i64, fresh, on_side, MinInt64, MaxInt64 in *.
  destruct asc; cbn [readMin readMax]; rewrite Hnext; lia.
Qed.

Lemma made_content : content gs k s (rows <$> s) = stack ((fun l => unread_rows gs k l (rows l)) <$> s).
Proof.
  unfold content. f_equal. apply list_eq. intros i. rewrite !list_lookup_fmap. unfold indices.
  destruct (s !! i) as [l|] eqn:Hl.
  - rewrite lookup_seq_lt by by eapply lookup_lt_Some. cbn. unfold unread_at. by rewrite Hl, list_lookup_fmap, Hl.
  - rewrite lookup_seq_ge; [done|]. by apply lookup_ge_None.
Qed.

(** A value of a file on the side of [t] is in one of the locations. *)
Lemma made_has i f v : in_file i f v -> on_side (fst v) -> exists l, l ∈ s /\ file l = i /\ v ∈ unread_rows gs k l (rows l).
Proof.
  intros (Hf & Hc & es & e & He & Hin & Hv) Hside. exists (fresh i e).
  assert (file (fresh i e) = i /\ entry (fresh i e) = e) as [E1 E2] by (unfold fresh; by destruct asc).
  destruct (Hfiles i f es Hf He) as (_ & Hb & _). rewrite Forall_forall in Hb. destruct (Hb e Hin) as (Hbe & Hlo & Hhi).
  pose proof (block_bounds _ _ _ _ _ _ _ Hbe Hv) as B. cbn [entry] in B.
  assert (fresh i e ∈ s) as Hl.
  { apply Hs. exists i, f, es, e. split_and!; try done. unfold wanted. unfold on_side in Hside.
    assert (all_deleted (f_TombstoneRange f k) e = false) as ->.
    { unfold all_deleted, covered in *. induction (f_TombstoneRange f k) as [|x ts IH]; [done|]. cbn [existsb] in *. apply orb_false_iff in Hc as [Hx Hc].
      apply orb_false_iff. split; [lia|by apply IH]. }
    destruct asc; cbn [negb andb]; lia. }
  split_and!; [done|done|]. destruct (made_rows _ Hl) as (f0 & Hf0 & _ & _ & Hu). apply Hu. rewrite E1 in Hf0. assert (f0 = f) as -> by congruence.
  unfold rows. rewrite E1, E2. done.
Qed.

Lemma made_in l v : l ∈ s -> v ∈ unread_rows gs k l (rows l) -> on_side (fst v) /\ exists f, fs !! file l = Some f /\ in_file (file l) f v.
Proof.
  intros Hl Hv. destruct (made_rows l Hl) as (f & Hf & _ & _ & Hu). apply Hu in Hv. destruct Hv as (Hr & Hc & Hside). split; [done|]. exists f. split; [done|].
  apply Hs in Hl as (j & f' & es & e & Hf' & He & Hin & _ & ->). unfold rows in Hr.
  assert (file (fresh j e) = j /\ entry (fresh j e) = e) as [E1 E2] by (unfold fresh; by destruct asc). rewrite E1, E2 in Hr. rewrite E1 in *.
  split_and!; [done|done|]. by exists es, e.
Qed.

Lemma started_rising : asc = true -> rising rep ReadBlockAt gs k Good started (rows <$> s) (t - 1) /\ seeks started = s.
Proof.
  intros Ha. rewrite started_cursor, Ha. split; [|done]. constructor; cbn [key KeyCursor.ascending seeks current pos]; [done|done|apply made_fits|done| |lia|intros; lia|].
  - intros i Hi. apply unread_at_out. unfold indices in Hi. rewrite elem_of_seq in Hi. lia.
  - intros i l Hl. apply list_elem_of_lookup_2 in Hl. destruct (made_marks l Hl) as [-> _]. unfold fresh. rewrite Ha in *. split; [done|right].
    cbn. unfold i64, MinInt64, MaxInt64 in *. rewrite Z.mod_small; lia.
Qed.

Lemma started_falling : asc = false -> falling rep ReadBlockAt gs k Good started (rows <$> s) (t + 1) /\ seeks started = s.
Proof.
  intros Ha. rewrite started_cursor, Ha. split; [|done]. constructor; cbn [key KeyCursor.ascending seeks current pos]; [done|done|apply made_fits|by left| | | |].
  - intros i Hi. apply unread_at_out. unfold indices in Hi. rewrite elem_of_reverse, elem_of_seq in Hi. lia.
  - intros i Hi. apply unread_at_out. lia.
  - intros i Hi. unfold indices in Hi. rewrite elem_of_reverse, elem_of_seq in Hi. lia.
  - intros i l Hl. apply list_elem_of_lookup_2 in Hl. destruct (made_marks l Hl) as [-> _]. unfold fresh. rewrite Ha in *. split; [done|right].
    cbn. unfold i64, MinInt64, MaxInt64 in *. rewrite Z.mod_small; lia.
Qed.

Context (less : location -> location -> bool) (Hless : less = if asc then ascLess fs else descLess fs) (Hord : in_order less s).

Lemma path_gs l f : fs !! file l = Some f -> path_of fs l = f_Path f.
Proof. intros Hf. unfold path_of. by rewrite Hf. Qed.

(** Two locations with a value of the same time are in the order of their files. *)
Lemma made_order a b f f' v w : in_file (file a) f v -> in_file (file b) f' w -> fst v = fst w -> a ∈ s -> b ∈ s ->
  v ∈ unread_rows gs k a (rows a) -> w ∈ unread_rows gs k b (rows b) -> less b a = false -> Compare (f_Path f) (f_Path f') <= 0.
Proof.
  intros (Hf & _) (Hf' & _) Et Ha Hb Hv Hw Hlt.
  destruct (made_rows a Ha) as (fa & Hfa & Hba & _ & Hua), (made_rows b Hb) as (fb & Hfb & Hbb & _ & Hub).
  apply Hua in Hv. apply Hub in Hw. destruct Hv as [Hv _], Hw as [Hw _].
  pose proof (block_bounds _ _ _ _ _ _ _ Hba Hv) as B1. pose proof (block_bounds _ _ _ _ _ _ _ Hbb Hw) as B2.
  assert (overlaps b (entryMin a) (entryMax a) = true) as Ho by (unfold overlaps, SSTIndex.entry_OverlapsTimeRange; lia).
  assert ((Compare (path_of fs b) (path_of fs a) <? 0) = false) as Hc by (subst less; unfold ascLess, descLess in Hlt; destruct asc; by rewrite Ho in Hlt).
  rewrite (path_gs a f Hf), (path_gs b f' Hf') in Hc. pose proof (Compare_swap (f_Path f) (f_Path f')). lia.
Qed.

Lemma made_newest v : content gs k s (rows <$> s) !! fst v = Some v <-> on_side (fst v) /\ newest v.
Proof.
  rewrite made_content.
  assert (forall w, stack ((fun l => unread_rows gs k l (rows l)) <$> s) !! fst w = Some w -> on_side (fst w) /\ newest w) as Hto.
  { intros w (p & r & q & E & Hr & Hq)%stack_last. apply fmap_app_inv in E as (p' & q0 & -> & E & Es).
    symmetry in E. apply fmap_cons_inv in E as (l & q' & -> & -> & ->).
    assert (l ∈ s) as Hl by (rewrite Es; set_solver). apply series_lookup_Some in Hr as [_ Hr].
    destruct (made_in l w Hl Hr) as (Hside & f & Hf & Hin). split; [done|]. exists (file l), f. split; [done|].
    intros j f' w' Hw' Et. destruct (made_has j f' w' Hw') as (l' & Hl' & <- & Hu'); [by rewrite Et|].
    rewrite Es in Hl'. apply elem_of_app in Hl' as [Hl'|[->|Hl']%elem_of_cons].
    - apply (made_order l' l f' f w' w); try done; [rewrite Es; set_solver|]. rewrite Es in Hord. clear -Hord Hl'.
      induction p' as [|x p IH]; [by apply elem_of_nil in Hl'|]. cbn in Hord. apply StronglySorted_inv in Hord as [Hord Hx].
      apply elem_of_cons in Hl' as [->|Hl']; [|by apply IH]. rewrite Forall_forall in Hx. apply Hx. set_solver.
    - assert (f' = f) as -> by (destruct Hw' as [Hw' _]; congruence). rewrite Compare_refl. lia.
    - exfalso. assert (series (unread_rows gs k l' (rows l')) !! fst w = None) as Hn by (apply Hq; by apply (list_elem_of_fmap_2 (fun l => unread_rows gs k l (rows l)))).
      rewrite series_lookup_None in Hn. by apply (Hn w' Hu'). }
  split; [apply Hto|]. intros [Hside (i & f & Hin & Hnew)]. destruct (made_has i f v Hin Hside) as (l & Hl & <- & Hu).
  destruct (stack ((fun l => unread_rows gs k l (rows l)) <$> s) !! fst v) as [w|] eqn:E.
  - f_equal. pose proof (series_key_stack _ _ _ E) as Et. rewrite <- Et in E. destruct (Hto w E) as [_ (j & f' & Hin' & Hnew')].
    pose proof (Hnew j f' w Hin' Et) as C1. pose proof (Hnew' (file l) f v Hin ltac:(done)) as C2.
    assert (f_Path f' = f_Path f) as Ep by (apply Compare_eq; pose proof (Compare_swap (f_Path f) (f_Path f')); lia).
    destruct Hin as [Hf Hin0], Hin' as [Hf' Hin0']. pose proof (Hpaths j (file l) f' f Hf' Hf Ep) as ->. assert (f' = f) as -> by congruence.
    by apply (in_file_unique (file l) f).
  - exfalso. assert (is_Some (stack ((fun l => unread_rows gs k l (rows l)) <$> s) !! fst v)) as [w Hw]; [|congruence].
    clear -Hl Hu. induction s as [|x s' IH] using rev_ind; [by apply elem_of_nil in Hl|]. rewrite fmap_app. cbn [fmap list_fmap]. rewrite stack_snoc, lookup_union.
    apply elem_of_app in Hl as [Hl|Hl]; [|apply list_elem_of_singleton in Hl as ->].
    + destruct (IH Hl) as [w ->]. by destruct (series _ !! _); eexists.
    + destruct (series (unread_rows gs k x (rows x)) !! fst v) eqn:E; [by destruct (stack _ !! _); eexists|]. rewrite series_lookup_None in E. by destruct (E v Hu).
Qed.

End inside.
End made.
End at_time.

(** The blocks that are given hold the newest values on the side of the start. *)
Lemma cursor_content sort t (asc : bool) st : sorts sort -> Good st ->
  (if asc then MinInt64 < t <= MaxInt64 else MinInt64 <= t < MaxInt64) ->
  (forall ls, locations fs k t asc = Ok ls -> untangled fs ls) ->
  exists gs c bs, newKeyCursor sort fs k t asc = Ok (gs, c) /\ delivers rep ReadBlockAt gs c st bs /\
    Forall (fun b => b <> []) bs /\ sorted (concat (if asc then bs else reverse bs)) /\
    forall v, series (concat (if asc then bs else reverse bs)) !! fst v = Some v <-> (if asc then t <= fst v else fst v <= t) /\ newest v.
Proof.
  intros Hsort Hg Ht Hw.
  destruct (locations_from_spec t asc fs entries 0 Hlen) as (ls & E & Hls); [by intros j f es Hf He; apply (Hfiles j f es)|].
  unfold newKeyCursor. unfold locations at 1. rewrite E. cbn [mbind outcome_bind]. set (less := if asc then ascLess fs else descLess fs).
  set (s := sort less ls). pose proof (ref_all_same s fs same_refl) as Hgs.
  assert (forall l, l ∈ s <-> exists j f es e, fs !! j = Some f /\ entries !! j = Some es /\ e ∈ es /\ wanted t asc f e = true /\ l = fresh t asc j e) as Hs.
  { intros l. unfold s. rewrite (sort_perm _ Hsort less ls). apply Hls. }
  assert (in_order less s) as Hord by apply Hsort, (found_weak t asc ls E), (Hw ls E). eexists _, _. set (gs := ref_all f_Ref fs s) in *.
  pose proof (made_newest t asc gs Hgs s Hs Ht less eq_refl Hord) as Hnew.
  destruct asc.
  - destruct (started_rising t true gs Hgs s Hs Ht eq_refl) as [Hri Es].
    destruct (delivers_rising rep ReadBlockAt gs k Good _ (started t true s) _ _ st (le_n _) Hri Hg) as (bs & Hd & Hne & Hsd & Hser).
    rewrite Es in Hser. exists bs. split_and!; [done|exact Hd|done|done|]. by rewrite Hser.
  - destruct (started_falling t false gs Hgs s Hs Ht eq_refl) as [Hfa Es].
    destruct (delivers_falling rep ReadBlockAt gs k Good _ (started t false s) _ _ st (le_n _) Hfa Hg) as (bs & Hd & Hne & Hsd & Hser).
    rewrite Es in Hser. exists bs. split_and!; [done|exact Hd|done|done|]. by rewrite Hser.
Qed.

(** C6: A cursor on a key of some files gives, block after block in the order of time or
    against it, exactly the values on its side of the time it starts at that were not deleted
    and that no later file covers. The start is not the last time there is in its direction,
    from which nothing is given; and no block found overlaps one of an earlier file and one
    of a later file that is wholly before that ([untangled]): where one does, the order of
    the blocks goes round in a circle. *)
Theorem cursor_reads sort t (asc : bool) st : sorts sort -> Good st ->
  (if asc then MinInt64 < t <= MaxInt64 else MinInt64 <= t < MaxInt64) ->
  (forall ls, locations fs k t asc = Ok ls -> untangled fs ls) ->
  exists gs c bs, newKeyCursor sort fs k t asc = Ok (gs, c) /\ delivers rep ReadBlockAt gs c st bs /\
    Forall (fun b => b <> []) bs /\ sorted (concat (if asc then bs else reverse bs)) /\
    forall v, v ∈ concat bs <-> (if asc then t <= fst v else fst v <= t) /\ newest v.
Proof.
  intros Hsort Hg Ht Hw. destruct (cursor_content sort t asc st Hsort Hg Ht Hw) as (gs & c & bs & H1 & H2 & H3 & H4 & H5).
  exists gs, c, bs. split_and!; [done..|]. intros v. rewrite <- H5, <- (sorted_series_in _ v H4). destruct asc; [done|]. by rewrite (reverse_Permutation bs).
Qed.

(** C34: At the end of time the mark of what is on the other side wraps: an ascending cursor
    from the least time and a descending one from the greatest give nothing at all. *)
Theorem cursor_wraps sort (asc : bool) st : sorts sort -> Good st ->
  exists gs c, newKeyCursor sort fs k (if asc then MinInt64 else MaxInt64) asc = Ok (gs, c) /\ delivers rep ReadBlockAt gs c st [].
Proof.
  intros Hsort Hg. set (t := if asc then MinInt64 else MaxInt64).
  destruct (locations_from_spec t asc fs entries 0 Hlen) as (ls & E & Hls); [by intros j f es Hf He; apply (Hfiles j f es)|].
  unfold newKeyCursor. unfold locations at 1. rewrite E. cbn [mbind outcome_bind]. set (less := if asc then ascLess fs else descLess fs).
  set (s := sort less ls). pose proof (ref_all_same s fs same_refl) as Hgs.
  assert (forall l, l ∈ s <-> exists j f es e, fs !! j = Some f /\ entries !! j = Some es /\ e ∈ es /\ wanted t asc f e = true /\ l = fresh t asc j e) as Hs.
  { intros l. unfold s. rewrite (sort_perm _ Hsort less ls). apply Hls. }
  eexists _, _. split; [done|]. fold (started t asc s). rewrite (started_cursor t asc s Hs). set (c := MkCursor _ _ _ _ _).
  pose proof (made_fits t asc _ Hgs s Hs) as Hfits.
  assert (forall i, unread_at (ref_all f_Ref fs s) k s (rows <$> s) i = []) as Hnone.
  { intros i. destruct (unread_at _ k s (rows <$> s) i) as [|v r] eqn:Eu; [done|]. exfalso.
    destruct (unread_at_bounds rep ReadBlockAt _ k Good s _ i v Hfits) as (l & r' & Hl & _ & Hb & _ & Hbv & Hn); [rewrite Eu; left|].
    apply list_elem_of_lookup_2 in Hl. destruct (made_marks t asc s Hs l Hl) as [El _]. pose proof (br_i64 _ _ _ _ _ _ Hb). unfold is_i64 in *.
    apply Hn. rewrite El. unfold fresh, t. destruct asc; cbn [readMin readMax];
      [change (i64 (MinInt64 - 1)) with MaxInt64|change (i64 (MaxInt64 + 1)) with MinInt64]; unfold MinInt64, MaxInt64; lia. }
  assert (Forall (fun i => (i < length s)%nat) (current c) /\ (forall i us, suffix (i :: us) (current c) -> NoDup us)) as [Hlt Hnd].
  { assert (NoDup (indices s)) as Hnd by apply NoDup_seq. split.
    - apply Forall_forall. intros i. unfold c, indices. cbn [current]. destruct asc; rewrite ?elem_of_reverse, elem_of_seq; lia.
    - intros i us [pre Hpre]. assert (NoDup (pre ++ i :: us)) as Hp by (rewrite <- Hpre; unfold c; cbn [current]; destruct asc; rewrite ?reverse_Permutation; done).
      apply NoDup_app in Hp as (_ & _ & Hp). by apply NoDup_cons in Hp as [_ ?]. }
  destruct (read_loop_spec rep ReadBlockAt (ref_all f_Ref fs s) k Good (rows <$> s) (current c) c st eq_refl Hfits Hg Hlt Hnd) as
    [[_ (st' & Er & _)]|(dr & i & others & mn & mx & st' & _ & _ & Hmn & _)].
  - apply (delivers_end rep ReadBlockAt _ c st (with_current c []) st'). unfold ReadBlock. by rewrite Er, cl_empty.
  - cbn [seeks c] in Hmn. by rewrite Hnone in Hmn.
Qed.
End files.

(** ** Two files *)
Definition sample_files : list (list Z * SSTReader.SSTReader) := [([1], Samples.reader1); ([2], Samples.reader2)].
Definition sample_read (x : list Z * SSTReader.SSTReader) (e : SSTIndex.IndexEntry) (_ : unit) : outcome (Array Z * unit) :=
  a ← SSTReader.ReadIntegerArrayBlockAt (snd x) e; Ok (a, tt).
Definition sample_rows (i : nat) (_ : SSTIndex.IndexEntry) : list (Z * Z) := if bool_decide (i = 0)%nat then [(1, 10); (3, 30)] else [(3, 31); (5, 50)].
Definition sample_entries : list (list SSTIndex.IndexEntry) :=
  [[SSTIndex.MkIndexEntry 1 3 5 (Samples.len Samples.b1)]; [SSTIndex.MkIndexEntry 3 5 5 (Samples.len Samples.b2)]].

Lemma sample_files_ok i f es : sample_files !! i = Some f -> sample_entries !! i = Some es ->
  file_ok (H := reader_file) cols sample_read [97] (fun _ => True) sample_rows i f es.
Proof.
  assert (forall r e, sorted r -> Values.MinTime r = Ok (SSTIndex.MinTime e) -> Values.MaxTime r = Ok (SSTIndex.MaxTime e) ->
    is_i64 (SSTIndex.MinTime e) -> is_i64 (SSTIndex.MaxTime e) -> sample_read f e tt = Ok (cols r, tt) ->
    block_rows cols sample_read [f] (fun _ => True) (MkLoc 0 e 0 0) r) as Hb.
  { intros r e H1 H2 H3 H4 H5 H6. constructor; [|done..]. exists f. split; [done|]. intros [] _. by exists tt. }
  destruct i as [|[|i]]; [..|done]; intros [= <-] [= <-]; (split; [vm_compute; reflexivity|]); (split; [|by intros e e' ->%list_elem_of_singleton ->%list_elem_of_singleton]);
    apply Forall_singleton; (split; [apply Hb; try (vm_compute; reflexivity)|vm_compute; split; discriminate]).
  all: (by repeat constructor) || (vm_compute; split; discriminate).
Qed.

Lemma cursor_reads_witness : sorts (X := location) insertion /\
  exists gs c bs, newKeyCursor (H := reader_file) insertion sample_files [97] 2 true = Ok (gs, c) /\
    delivers (Cl := array_columns 0) cols sample_read gs c tt bs /\ Forall (fun b => b <> []) bs /\ sorted (concat bs) /\
    forall v, v ∈ concat bs <-> 2 <= fst v /\ newest [97] sample_rows sample_files sample_entries v.
Proof.
  split; [apply insertion_sorts|].
  apply (cursor_reads (H := reader_file) (Cl := array_columns 0) cols (Laws := array_columns_laws 0) sample_read [97] (fun _ => True)
    (fun f => conj eq_refl (conj eq_refl (fun e st => eq_refl))) sample_rows sample_files sample_entries eq_refl sample_files_ok).
  - intros [|[|i]] [|[|j]] f f' Hf Hf' Hp; try done; cbn in Hf, Hf'; injection Hf as <-; injection Hf' as <-; done.
  - apply insertion_sorts.
  - done.
  - done.
  - intros ls E. vm_compute in E. injection E as <-. intros a b c. rewrite !elem_of_cons, !elem_of_nil.
    intros [->|[->|[]]] [->|[->|[]]] [->|[->|[]]]; by vm_compute.
Defined.

Lemma cursor_wraps_witness : sorts (X := location) insertion /\
  exists gs c, newKeyCursor (H := reader_file) insertion sample_files [97] MinInt64 true = Ok (gs, c) /\ delivers (Cl := array_columns 0) cols sample_read gs c tt [].
Proof.
  split; [apply insertion_sorts|].
  apply (cursor_wraps (H := reader_file) (Cl := array_columns 0) cols (Laws := array_columns_laws 0) sample_read [97] (fun _ => True)
    (fun f => conj eq_refl (conj eq_refl (fun e st => eq_refl))) sample_rows sample_files sample_entries eq_refl sample_files_ok insertion true tt).
  - apply insertion_sorts.
  - done.
Defined.

(** The values 1 and 2 apart: [3] is in both files, [5] is deleted. *)
Example sample_cursor : exists gs c c', newKeyCursor (H := reader_file) insertion sample_files [97] 2 true = Ok (gs, c) /\
  ReadIntegerArrayBlock gs c tt = Ok (c', cols [(3, 31)], tt).
Proof. do 3 eexists. split; [vm_compute; reflexivity|]. vm_compute. reflexivity. Qed.

(** The order of locations is no order for three files: each of these is before the next. *)
Example ascLess_cycle : let e mn mx := SSTIndex.MkIndexEntry mn mx 5 0 in let l i mn mx := MkLoc i (e mn mx) MinInt64 0 in
  let fs := [([1], Samples.reader1); ([2], Samples.reader1); ([3], Samples.reader1)] in
  ascLess (H := reader_file) fs (l 2%nat 0 10) (l 0%nat 20 30) = true /\ ascLess (H := reader_file) fs (l 0%nat 20 30) (l 1%nat 5 25) = true /\
  ascLess (H := reader_file) fs (l 1%nat 5 25) (l 2%nat 0 10) = true.
Proof. by vm_compute. Qed.

End KeyCursorRuns.
