(* ===== verification/ArrayCursor.v ===== *)
(** Cursors over the values of a key in memory and in data files:
    src/storage/cursor/array_cursor.gen.go, ascending and descending.

    The five copies are one set of definitions over [raw], the assertion that a cached value
    has the type of the cursor.  The cursor over the files is a [BlockCursor], which the key
    cursor of KeyCursor.v implements.  The values returned are written to a buffer that the
    next call uses again. *)
From stdpp Require Import list.
From S2P Require Import Prelude StringCodec Values ArrayValues SSTIndex SSTReader Planner KeyCursor.
Import Values ArrayValues.

Module ArrayCursor.

(** A cursor over blocks; an error gives no array. *)
Class BlockCursor (K A : Type) := {
  kc_Next : K -> K;
  kc_Read : K -> outcome (K * option (Array A));
  kc_Close : K -> K }.

(** [sort.Search] *)
Fixpoint search_from (fuel : nat) (f : nat -> bool) (i j : nat) : nat :=
  match fuel with
  | O => i
  | S fuel =>
      if bool_decide (i < j)%nat then
        let h := ((i + j) / 2)%nat in
        if f h then search_from fuel f i h else search_from fuel f (S h) j
      else i
  end.
Definition Search (n : nat) (f : nat -> bool) : nat := search_from (S n) f 0 n.

(** Indexing by an [int]: a negative index panics. *)
Definition zindex {X} (l : list X) (i : Z) : outcome X := if i <? 0 then Panic else index l (Z.to_nat i).

Section Cursor.
Context {K A : Type} `{BlockCursor K A} (raw : Value -> option A).

(** [cap] is the size of the buffer of results; [sst_values] and [keyCursor] can be nil. *)
Record cursor := MkArrayCursor {
  cache_values : list Value; cache_pos : Z; sst_values : option (Array A); sst_pos : Z; keyCursor : option K; end_ : Z; cap : nat }.

Definition NewArrayCursor : cursor := MkArrayCursor [] 0 None 0 None 0 (Z.to_nat Planner.DefaultMaxPointsPerBlock).

Definition with_cache_pos (c : cursor) (p : Z) : cursor := MkArrayCursor (cache_values c) p (sst_values c) (sst_pos c) (keyCursor c) (end_ c) (cap c).
Definition with_sst_pos (c : cursor) (p : Z) : cursor := MkArrayCursor (cache_values c) (cache_pos c) (sst_values c) p (keyCursor c) (end_ c) (cap c).
Definition with_sst (c : cursor) (k : K) (v : option (Array A)) (p : Z) : cursor :=
  MkArrayCursor (cache_values c) (cache_pos c) v p (Some k) (end_ c) (cap c).

Definition deref {B} (p : option B) : outcome B := match p with Some x => Ok x | None => Panic end.

(** A value of the cache or of the block at hand. *)
Definition cache_row (c : cursor) (i : Z) : outcome (Z * A) :=
  v ← zindex (cache_values c) i;
  match raw v with Some a => Ok (UnixNano v, a) | None => Panic end.
Definition cache_time (c : cursor) (i : Z) : outcome Z := v ← zindex (cache_values c) i; Ok (UnixNano v).
Definition sst_time (t : Array A) (i : Z) : outcome Z := zindex (Timestamps t) i.
Definition sst_row (t : Array A) (i : Z) : outcome (Z * A) := ts ← zindex (Timestamps t) i; v ← zindex (Values t) i; Ok (ts, v).

Definition time_at (l : list Value) (i : nat) : Z := match l !! i with Some v => UnixNano v | None => 0 end.

(** ** Ascending *)
Definition Reset_asc (c : cursor) (seek last : Z) (cacheValues : list Value) (k : K) : outcome cursor :=
  let cpos := Search (length cacheValues) (fun i => seek <=? time_at cacheValues i) in
  '(k, v) ← kc_Read k;
  t ← deref v;
  let spos := Search (Len t) (fun i => seek <=? (Timestamps t !!! i)) in
  Ok (MkArrayCursor cacheValues (Z.of_nat cpos) v (Z.of_nat spos) (Some k) last (cap c)).

Definition nextSST_asc (c : cursor) : outcome cursor :=
  k ← deref (keyCursor c);
  '(k, v) ← kc_Read (kc_Next k);
  Ok (with_sst c k v 0).

(** While both have values; [room] is what is left of the buffer. *)
Fixpoint asc_loop (room : nat) (c : cursor) (out : list (Z * A)) : outcome (cursor * list (Z * A)) :=
  match room with
  | O => Ok (c, out)
  | S room =>
      t ← deref (sst_values c);
      if (sst_pos c <? Z.of_nat (Len t)) && (cache_pos c <? Z.of_nat (length (cache_values c))) then
        ckey ← cache_time c (cache_pos c);
        tkey ← sst_time t (sst_pos c);
        '(c, row) ← (if ckey =? tkey then
                       row ← cache_row c (cache_pos c);
                       Ok (with_sst_pos (with_cache_pos c (cache_pos c + 1)) (sst_pos c + 1), row)
                     else if ckey <? tkey then
                       row ← cache_row c (cache_pos c);
                       Ok (with_cache_pos c (cache_pos c + 1), row)
                     else
                       row ← sst_row t (sst_pos c);
                       Ok (with_sst_pos c (sst_pos c + 1), row));
        c ← (if Z.of_nat (Len t) <=? sst_pos c then nextSST_asc c else Ok c);
        asc_loop room c (out ++ [row])
      else Ok (c, out)
  end.

(** The rest of a block: all of it, or as much as fits. *)
Definition asc_block (c : cursor) (out : list (Z * A)) : outcome (cursor * list (Z * A)) :=
  t ← deref (sst_values c);
  if sst_pos c <? Z.of_nat (Len t) then
    if bool_decide (length out = 0)%nat && bool_decide (Len t <= cap c)%nat then
      c ← nextSST_asc c; Ok (c, rows t)
    else
      p ← (if 0 <=? sst_pos c then Ok (Z.to_nat (sst_pos c)) else Panic);
      let n := Nat.min (cap c - length out) (Len t - p) in
      let c := with_sst_pos c (sst_pos c + Z.of_nat n) in
      let out := out ++ take n (drop p (rows t)) in
      c ← (if Z.of_nat (Len t) <=? sst_pos c then nextSST_asc c else Ok c);
      Ok (c, out)
  else Ok (c, out).

(** The rest of the cache. *)
Fixpoint asc_cache (room : nat) (c : cursor) (out : list (Z * A)) : outcome (cursor * list (Z * A)) :=
  match room with
  | O => Ok (c, out)
  | S room =>
      if cache_pos c <? Z.of_nat (length (cache_values c)) then
        row ← cache_row c (cache_pos c);
        asc_cache room (with_cache_pos c (cache_pos c + 1)) (out ++ [row])
      else Ok (c, out)
  end.

(** What is past the end is stripped off. *)
Fixpoint drop_while (p : Z * A -> bool) (l : list (Z * A)) : list (Z * A) :=
  match l with
  | x :: l' => if p x then drop_while p l' else l
  | [] => []
  end.
Definition strip (p : Z * A -> bool) (out : list (Z * A)) : list (Z * A) := reverse (drop_while p (reverse out)).

Definition Next_asc (c : cursor) : outcome (cursor * Array A) :=
  '(c, out) ← asc_loop (cap c) c [];
  '(c, out) ← (if bool_decide (length out < cap c)%nat then
                 '(c, out) ← asc_block c out;
                 asc_cache (cap c - length out) c out
               else Ok (c, out));
  Ok (c, NewArrayFromValues (strip (fun v => end_ c <? fst v) out)).

(** ** Descending *)
Definition Reset_desc (c : cursor) (seek last : Z) (cacheValues : list Value) (k : K) : outcome cursor :=
  let cpos := Search (length cacheValues) (fun i => seek <? time_at cacheValues i) in
  '(k, v) ← kc_Read k;
  t ← deref v;
  let spos := Search (Len t) (fun i => seek <? (Timestamps t !!! i)) in
  Ok (MkArrayCursor cacheValues (Z.of_nat cpos - 1) v (Z.of_nat spos - 1) (Some k) last (cap c)).

Definition nextSST_desc (c : cursor) : outcome cursor :=
  k ← deref (keyCursor c);
  '(k, v) ← kc_Read (kc_Next k);
  t ← deref v;
  Ok (with_sst c k v (Z.of_nat (Len t) - 1)).

Fixpoint desc_loop (room : nat) (c : cursor) (out : list (Z * A)) : outcome (cursor * list (Z * A)) :=
  match room with
  | O => Ok (c, out)
  | S room =>
      if (0 <=? sst_pos c) && (0 <=? cache_pos c) then
        t ← deref (sst_values c);
        ckey ← cache_time c (cache_pos c);
        tkey ← sst_time t (sst_pos c);
        '(c, row) ← (if ckey =? tkey then
                       row ← cache_row c (cache_pos c);
                       Ok (with_sst_pos (with_cache_pos c (cache_pos c - 1)) (sst_pos c - 1), row)
                     else if tkey <? ckey then
                       row ← cache_row c (cache_pos c);
                       Ok (with_cache_pos c (cache_pos c - 1), row)
                     else
                       row ← sst_row t (sst_pos c);
                       Ok (with_sst_pos c (sst_pos c - 1), row));
        c ← (if sst_pos c <? 0 then nextSST_desc c else Ok c);
        desc_loop room c (out ++ [row])
      else Ok (c, out)
  end.

(** The rest of the blocks, as many as fit. *)
Fixpoint desc_blocks (room : nat) (c : cursor) (out : list (Z * A)) : outcome (cursor * list (Z * A)) :=
  match room with
  | O => Ok (c, out)
  | S room =>
      if 0 <=? sst_pos c then
        t ← deref (sst_values c);
        row ← sst_row t (sst_pos c);
        let c := with_sst_pos c (sst_pos c - 1) in
        c ← (if sst_pos c <? 0 then nextSST_desc c else Ok c);
        desc_blocks room c (out ++ [row])
      else Ok (c, out)
  end.

Fixpoint desc_cache (room : nat) (c : cursor) (out : list (Z * A)) : outcome (cursor * list (Z * A)) :=
  match room with
  | O => Ok (c, out)
  | S room =>
      if 0 <=? cache_pos c then
        row ← cache_row c (cache_pos c);
        desc_cache room (with_cache_pos c (cache_pos c - 1)) (out ++ [row])
      else Ok (c, out)
  end.

Definition Next_desc (c : cursor) : outcome (cursor * Array A) :=
  '(c, out) ← desc_loop (cap c) c [];
  '(c, out) ← desc_blocks (cap c - length out) c out;
  '(c, out) ← desc_cache (cap c - length out) c out;
  Ok (c, NewArrayFromValues (strip (fun v => fst v <? end_ c) out)).

(** ** Both *)
Definition cursor_Err (_ : cursor) : option string := None.
Definition Close (c : cursor) : cursor * option K :=
  (MkArrayCursor [] (cache_pos c) None (sst_pos c) None (end_ c) (cap c), kc_Close <$> keyCursor c).
End Cursor.
Arguments cursor : clear implicits.

(** ** The copies *)
Definition float_raw (v : Value) : option Z := match v with FloatValue _ x => Some x | _ => None end.
Definition integer_raw (v : Value) : option Z := match v with IntegerValue _ x => Some x | _ => None end.
Definition unsigned_raw (v : Value) : option Z := match v with UnsignedValue _ x => Some x | _ => None end.
Definition string_raw (v : Value) : option (list Z) := match v with StringValue _ x => Some x | _ => None end.
Definition boolean_raw (v : Value) : option bool := match v with BooleanValue _ x => Some x | _ => None end.

(** The cursor over the blocks of files, with the files it has in use. *)
Definition key_cursor {F A} `{KeyCursor.SSTFile F} (read : list F -> KeyCursor.KeyCursor -> unit -> outcome (KeyCursor.KeyCursor * Array A * unit)) :
    BlockCursor (list F * KeyCursor.KeyCursor) A := {|
  kc_Next k := (fst k, KeyCursor.Next (snd k));
  kc_Read k := match read (fst k) (snd k) tt with
               | Ok (c, a, _) => Ok ((fst k, c), Some a)
               | Err _ => Ok (k, None)
               | Panic => Panic
               end;
  kc_Close k := KeyCursor.Close (fst k) (snd k) |}.

Section copies.
Abbreviation files := (list (list Z * SSTReader.SSTReader) * KeyCursor.KeyCursor)%type.
Context (sn : StringCodec.snappy).

Definition float_blocks : BlockCursor files Z := key_cursor KeyCursor.ReadFloatArrayBlock.
Definition NewFloatArrayAscendingCursor : cursor files Z := NewArrayCursor.
Definition FloatArrayAscendingCursor_Reset := Reset_asc (H := float_blocks).
Definition FloatArrayAscendingCursor_nextSST := nextSST_asc (H := float_blocks).
Definition FloatArrayAscendingCursor_Next := Next_asc (H := float_blocks) float_raw.
Definition FloatArrayAscendingCursor_Close := Close (H := float_blocks).
Definition NewFloatArrayDescendingCursor : cursor files Z := NewArrayCursor.
Definition FloatArrayDescendingCursor_Reset := Reset_desc (H := float_blocks).
Definition FloatArrayDescendingCursor_nextSST := nextSST_desc (H := float_blocks).
Definition FloatArrayDescendingCursor_Next := Next_desc (H := float_blocks) float_raw.
Definition FloatArrayDescendingCursor_Close := Close (H := float_blocks).

Definition integer_blocks : BlockCursor files Z := key_cursor KeyCursor.ReadIntegerArrayBlock.
Definition NewIntegerArrayAscendingCursor : cursor files Z := NewArrayCursor.
Definition IntegerArrayAscendingCursor_Reset := Reset_asc (H := integer_blocks).
Definition IntegerArrayAscendingCursor_nextSST := nextSST_asc (H := integer_blocks).
Definition IntegerArrayAscendingCursor_Next := Next_asc (H := integer_blocks) integer_raw.
Definition IntegerArrayAscendingCursor_Close := Close (H := integer_blocks).
Definition NewIntegerArrayDescendingCursor : cursor files Z := NewArrayCursor.
Definition IntegerArrayDescendingCursor_Reset := Reset_desc (H := integer_blocks).
Definition IntegerArrayDescendingCursor_nextSST := nextSST_desc (H := integer_blocks).
Definition IntegerArrayDescendingCursor_Next := Next_desc (H := integer_blocks) integer_raw.
Definition IntegerArrayDescendingCursor_Close := Close (H := integer_blocks).

Definition unsigned_blocks : BlockCursor files Z := key_cursor KeyCursor.ReadUnsignedArrayBlock.
Definition NewUnsignedArrayAscendingCursor : cursor files Z := NewArrayCursor.
Definition UnsignedArrayAscendingCursor_Reset := Reset_asc (H := unsigned_blocks).
Definition UnsignedArrayAscendingCursor_nextSST := nextSST_asc (H := unsigned_blocks).
Definition UnsignedArrayAscendingCursor_Next := Next_asc (H := unsigned_blocks) unsigned_raw.
Definition UnsignedArrayAscendingCursor_Close := Close (H := unsigned_blocks).
Definition NewUnsignedArrayDescendingCursor : cursor files Z := NewArrayCursor.
Definition UnsignedArrayDescendingCursor_Reset := Reset_desc (H := unsigned_blocks).
Definition UnsignedArrayDescendingCursor_nextSST := nextSST_desc (H := unsigned_blocks).
Definition UnsignedArrayDescendingCursor_Next := Next_desc (H := unsigned_blocks) unsigned_raw.
Definition UnsignedArrayDescendingCursor_Close := Close (H := unsigned_blocks).

Definition string_blocks : BlockCursor files (list Z) := key_cursor (KeyCursor.ReadStringArrayBlock sn).
Definition NewStringArrayAscendingCursor : cursor files (list Z) := NewArrayCursor.
Definition StringArrayAscendingCursor_Reset := Reset_asc (H := string_blocks).
Definition StringArrayAscendingCursor_nextSST := nextSST_asc (H := string_blocks).
Definition StringArrayAscendingCursor_Next := Next_asc (H := string_blocks) string_raw.
Definition StringArrayAscendingCursor_Close := Close (H := string_blocks).
Definition NewStringArrayDescendingCursor : cursor files (list Z) := NewArrayCursor.
Definition StringArrayDescendingCursor_Reset := Reset_desc (H := string_blocks).
Definition StringArrayDescendingCursor_nextSST := nextSST_desc (H := string_blocks).
Definition StringArrayDescendingCursor_Next := Next_desc (H := string_blocks) string_raw.
Definition StringArrayDescendingCursor_Close := Close (H := string_blocks).

Definition boolean_blocks : BlockCursor files bool := key_cursor KeyCursor.ReadBooleanArrayBlock.
Definition NewBooleanArrayAscendingCursor : cursor files bool := NewArrayCursor.
Definition BooleanArrayAscendingCursor_Reset := Reset_asc (H := boolean_blocks).
Definition BooleanArrayAscendingCursor_nextSST := nextSST_asc (H := boolean_blocks).
Definition BooleanArrayAscendingCursor_Next := Next_asc (H := boolean_blocks) boolean_raw.
Definition BooleanArrayAscendingCursor_Close := Close (H := boolean_blocks).
Definition NewBooleanArrayDescendingCursor : cursor files bool := NewArrayCursor.
Definition BooleanArrayDescendingCursor_Reset := Reset_desc (H := boolean_blocks).
Definition BooleanArrayDescendingCursor_nextSST := nextSST_desc (H := boolean_blocks).
Definition BooleanArrayDescendingCursor_Next := Next_desc (H := boolean_blocks) boolean_raw.
Definition BooleanArrayDescendingCursor_Close := Close (H := boolean_blocks).
End copies.

End ArrayCursor.
