(* ===== verification/ArrayCursorLaws.v ===== *)
(** What the cursors of ArrayCursor.v give: the values of the blocks of a key, covered by
    those in memory. *)
From stdpp Require Import gmap sorting.
From S2P Require Import Prelude Values ArrayValues MergeLaws KeyCursorLaws ArrayCursor.
Import Values ArrayValues MergeLaws KeyCursorLaws ArrayCursor.

Module ArrayCursorLaws.

#[local] Existing Instance row_value.

(** ** [sort.Search] *)
Lemma search_from_spec f n fuel : forall i j, (i <= j <= n)%nat -> (j - i < fuel)%nat ->
  (forall a b, (a <= b < n)%nat -> f a = true -> f b = true) ->
  (forall a, (a < i)%nat -> f a = false) -> (forall a, (j <= a < n)%nat -> f a = true) ->
  let r := search_from fuel f i j in (r <= n)%nat /\ (forall a, (a < r)%nat -> f a = false) /\ (forall a, (r <= a < n)%nat -> f a = true).
Proof.
  induction fuel as [|fuel IH]; intros i j Hij Hf Hm Hlo Hhi; [lia|]. cbn [search_from]. case_bool_decide as Hlt.
  - pose proof (Nat.div_lt (i + j) 2 ltac:(lia) ltac:(lia)). assert (i <= (i + j) / 2 < j)%nat as Hh.
    { split; [apply Nat.div_le_lower_bound; lia|apply Nat.Div0.div_lt_upper_bound; lia]. }
    destruct (f ((i + j) / 2)%nat) eqn:E; apply IH; try done; try lia.
    + intros a Ha. apply (Hm ((i + j) / 2)%nat); [lia|done].
    + intros a Ha. destruct (f a) eqn:Ea; [|done]. rewrite (Hm a ((i + j) / 2)%nat) in E; [done|lia|done].
  - split_and!; [lia|done|]. intros a Ha. apply Hhi. lia.
Qed.

Lemma Search_spec f n : (forall a b, (a <= b < n)%nat -> f a = true -> f b = true) ->
  (Search n f <= n)%nat /\ (forall a, (a < Search n f)%nat -> f a = false) /\ (forall a, (Search n f <= a < n)%nat -> f a = true).
Proof. intros Hm. apply search_from_spec; [lia|lia|done|lia|lia]. Qed.

Section laws.
Context {K A : Type} {B : BlockCursor K A} (raw : Value -> option A).
Implicit Types (c : cursor K A) (r s b : list (Z * A)) (bs : list (list (Z * A))) (x : Z * A) (k : K).

(** ** What the cursor over the files gives *)
Inductive serves : K -> list (list (Z * A)) -> Prop :=
| serves_end k k' : kc_Read k = Ok (k', Some (cols [])) -> serves k []
| serves_block k k' b bs : kc_Read k = Ok (k', Some (cols b)) -> b <> [] -> serves (kc_Next k') bs -> serves k (b :: bs).

(** The cache, as rows. *)
Definition cached (l : list Value) r : Prop := Forall2 (fun v x => raw v = Some (snd x) /\ UnixNano v = fst x) l r.

Lemma cached_lookup l r i x : cached l r -> r !! i = Some x -> exists v, l !! i = Some v /\ raw v = Some (snd x) /\ UnixNano v = fst x.
Proof. intros Hc Hx. destruct (Forall2_lookup_r _ _ _ _ _ Hc Hx) as (v & Hv & H1 & H2). eauto. Qed.

Lemma zindex_nat {X} (l : list X) (i : nat) (x : X) : l !! i = Some x -> zindex l (Z.of_nat i) = Ok x.
Proof. intros Hx. unfold zindex, index. rewrite (proj2 (Z.ltb_ge _ _)) by lia. by rewrite Nat2Z.id, Hx. Qed.

Lemma cache_at c r i x : cached (cache_values c) r -> r !! i = Some x ->
  cache_row raw c (Z.of_nat i) = Ok x /\ cache_time c (Z.of_nat i) = Ok (fst x).
Proof.
  intros Hc Hx. destruct (cached_lookup _ _ _ _ Hc Hx) as (v & Hv & Hr & Ht). unfold cache_row, cache_time.
  rewrite (zindex_nat _ _ _ Hv). cbn [mbind outcome_bind]. rewrite Hr, Ht. by destruct x.
Qed.

Lemma sst_at b i x : b !! i = Some x -> sst_row (cols b) (Z.of_nat i) = Ok x /\ sst_time (cols b) (Z.of_nat i) = Ok (fst x).
Proof.
  intros Hx. unfold sst_row, sst_time, cols. cbn [Timestamps Values NewArrayFromValues].
  rewrite (zindex_nat _ i (fst x)) by by rewrite list_lookup_fmap, Hx. cbn [mbind outcome_bind].
  rewrite (zindex_nat _ i (snd x)) by by rewrite list_lookup_fmap, Hx. by destruct x.
Qed.

Lemma rows_cols b : rows (cols b) = b.
Proof. unfold rows. cbn. induction b as [|[t a] b IH]; [done|]. cbn. by f_equal. Qed.

(** ** Ascending *)

(** The rows that are left of the cache, and of the blocks. *)
Record asc_at c r s : Prop := {
  aa_cache : exists R i, cached (cache_values c) R /\ cache_pos c = Z.of_nat i /\ r = drop i R;
  aa_sst : exists b bs i k, sst_values c = Some (cols b) /\ keyCursor c = Some k /\ sst_pos c = Z.of_nat i /\ s = drop i b ++ concat bs /\
    ((i < length b)%nat /\ serves (kc_Next k) bs \/ (length b <= i)%nat /\ bs = []) }.

(** What stays as it is. *)
Definition same_ends c c' : Prop := cap c' = cap c /\ end_ c' = end_ c.

Lemma same_trans c1 c2 c3 : same_ends c1 c2 -> same_ends c2 c3 -> same_ends c1 c3.
Proof. intros [H1 H2] [H3 H4]. split; congruence. Qed.

Lemma drop_cons {X} (l : list X) i (x : X) l' : drop i l = x :: l' -> l !! i = Some x /\ drop (S i) l = l' /\ (i < length l)%nat.
Proof.
  intros E. assert (l !! i = Some x) as Hx by (rewrite <- (Nat.add_0_r i), <- lookup_drop, E; done).
  split_and!; [done| |by eapply lookup_lt_Some]. rewrite (drop_S l x i Hx) in E. by injection E.
Qed.

Lemma asc_cache_none c s : asc_at c [] s -> (cache_pos c <? Z.of_nat (length (cache_values c))) = false.
Proof.
  intros [(R & i & Hc & -> & E) _]. rewrite (Forall2_length _ _ _ Hc). apply Z.ltb_ge.
  assert (length (drop i R) = 0)%nat as Hl by by rewrite <- E. rewrite length_drop in Hl. lia.
Qed.

Lemma asc_cache_some c x r s : asc_at c (x :: r) s ->
  (cache_pos c <? Z.of_nat (length (cache_values c))) = true /\ cache_row raw c (cache_pos c) = Ok x /\ cache_time c (cache_pos c) = Ok (fst x) /\
  asc_at (with_cache_pos c (cache_pos c + 1)) r s.
Proof.
  intros [(R & i & Hc & Ep & E) Hs]. symmetry in E. apply drop_cons in E as (Hx & E & Hlt). rewrite Ep. destruct (cache_at c R i x Hc Hx) as [H1 H2].
  split_and!; [rewrite (Forall2_length _ _ _ Hc); lia|done|done|]. constructor; [|exact Hs]. exists R, (S i). split_and!; [done|cbn; lia|done].
Qed.

Lemma asc_sst_none c r : asc_at c r [] -> exists t, sst_values c = Some t /\ (sst_pos c <? Z.of_nat (Len t)) = false.
Proof.
  intros [_ (b & bs & i & k & Hv & _ & Ep & E & Hor)]. exists (cols b). split; [done|]. rewrite Len_cols, Ep. apply Z.ltb_ge.
  destruct Hor as [[Hlt _]|[Hge _]]; [|lia]. symmetry in E. apply app_nil in E as [E _]. assert (length (drop i b) = 0)%nat as Hl by by rewrite E. rewrite length_drop in Hl. lia.
Qed.

Lemma next_block c k bs r i : serves (kc_Next k) bs -> keyCursor c = Some k ->
  (exists R j, cached (cache_values c) R /\ cache_pos c = Z.of_nat j /\ r = drop j R) ->
  exists c', nextSST_asc (with_sst_pos c i) = Ok c' /\ same_ends c c' /\ sst_pos c' = 0 /\ asc_at c' r (concat bs).
Proof.
  intros Hs Hk Hc. unfold nextSST_asc. cbn [keyCursor with_sst_pos]. rewrite Hk. cbn [deref mbind outcome_bind].
  inversion Hs as [? k' E|? k' b' bs' E Hne Hs']; subst; rewrite E; cbn [mbind outcome_bind]; eexists; (split; [done|]); (split; [done|]); (split; [done|]); (constructor; [exact Hc|]).
  - exists [], [], 0%nat, k'. split_and!; try done. right. split; [cbn; lia|done].
  - exists b', bs', 0%nat, k'. split_and!; try done. left. split; [|done]. destruct b'; [done|cbn; lia].
Qed.

Lemma asc_sst_some c r x s : asc_at c r (x :: s) -> exists t, sst_values c = Some t /\ (sst_pos c <? Z.of_nat (Len t)) = true /\
  sst_row t (sst_pos c) = Ok x /\ sst_time t (sst_pos c) = Ok (fst x) /\
  exists c', (if Z.of_nat (Len t) <=? sst_pos c + 1 then nextSST_asc (with_sst_pos c (sst_pos c + 1)) else Ok (with_sst_pos c (sst_pos c + 1))) = Ok c' /\
    same_ends c c' /\ asc_at c' r s.
Proof.
  intros [Hc (b & bs & i & k & Hv & Hk & Ep & E & Hor)]. exists (cols b). split; [done|]. rewrite Len_cols, Ep.
  destruct Hor as [[Hlt Hs]|[Hge ->]]; [|by rewrite drop_ge in E]. destruct (drop i b) as [|y b'] eqn:Ed; [apply (f_equal length) in Ed; rewrite length_drop in Ed; cbn in Ed; lia|].
  injection E as -> Es. apply drop_cons in Ed as (Hx & Ed & _). destruct (sst_at b i y Hx) as [H1 H2]. split_and!; [lia|done|done|].
  destruct (Z.leb_spec (Z.of_nat (length b)) (Z.of_nat i + 1)) as [Hle|Hgt].
  - destruct (next_block c k bs r (Z.of_nat i + 1) Hs Hk Hc) as (c' & E' & H3 & _ & H4). exists c'. split_and!; [done|done|].
    rewrite drop_ge in Ed by lia. subst b'. by rewrite Es.
  - eexists. split_and!; [done|done|]. constructor; [exact Hc|]. exists b, bs, (S i), k. split_and!; [done|done|cbn; lia|by rewrite Ed|left; by split; [lia|]].
Qed.

Lemma asc_loop_spec room : forall c out r s, asc_at c r s -> sorted r -> sorted s ->
  exists c' o r' s', asc_loop raw room c out = Ok (c', out ++ o) /\ asc_at c' r' s' /\ same_ends c c' /\ sorted r' /\ sorted s' /\
    merged s r = o ++ merged s' r' /\ (length r' + length s' + length o <= length r + length s)%nat /\ (length o <= room)%nat /\
    (length o = room \/ r' = [] \/ s' = []) /\ (o = [] -> room = 0%nat \/ c' = c /\ (r = [] \/ s = []) /\ r' = r /\ s' = s).
Proof.
  induction room as [|room IH]; intros c out r s Ha Hr Hs.
  - exists c, [], r, s. rewrite app_nil_r. split_and!; try done; try (cbn; lia); by left.
  - destruct s as [|x s].
    { destruct (asc_sst_none c r Ha) as (t & Ev & Et). exists c, [], r, []. rewrite app_nil_r. cbn [asc_loop]. rewrite Ev. cbn [deref mbind outcome_bind]. rewrite Et.
      split_and!; try done; try (cbn; lia); [by right; right|right; tauto]. }
    destruct (asc_sst_some c r x s Ha) as (t & Ev & Et & Erow & Etime & c1 & E1 & Hse & Ha1).
    destruct r as [|y r].
    { pose proof (asc_cache_none c _ Ha) as En. exists c, [], [], (x :: s). rewrite app_nil_r. cbn [asc_loop]. rewrite Ev. cbn [deref mbind outcome_bind].
      rewrite Et, En. cbn [andb]. split_and!; try done; try (cbn; lia); [by right; left|right; tauto]. }
    destruct (asc_cache_some c y r _ Ha) as (En & Eyrow & Eytime & Ha2). cbn [asc_loop]. rewrite Ev. cbn [deref mbind outcome_bind]. rewrite Et, En, Eytime. cbn [andb mbind outcome_bind].
    rewrite Etime. cbn [mbind outcome_bind]. apply sorted_cons in Hr as [Hr Hry], Hs as [Hs Hsx].
    assert (sorted (y :: r)) as Hyr by by apply sorted_cons. assert (sorted (x :: s)) as Hxs by by apply sorted_cons.
    rewrite merged_cons. destruct (Z.eqb_spec (fst y) (fst x)) as [Heq|Hne].
    + rewrite Eyrow. cbn [mbind outcome_bind]. destruct (asc_sst_some (with_cache_pos c (cache_pos c + 1)) r x s Ha2) as (t' & Ev' & _ & _ & _ & c2 & E2 & Hse2 & Ha3).
      cbn [sst_values with_cache_pos] in Ev'. assert (t' = t) as -> by congruence. cbn [sst_pos with_sst_pos with_cache_pos] in E2 |- *. rewrite E2. cbn [mbind outcome_bind].
      destruct (IH c2 (out ++ [y]) r s Ha3 Hr Hs) as (c' & o & r' & s' & Eo & H1 & H2 & H3 & H4 & H5 & H6 & H7 & H8 & H9).
      exists c', (y :: o), r', s'. rewrite Eo, <- app_assoc, Heq, Z.ltb_irrefl, Z.eqb_refl, H5. split_and!; try done; try (cbn in *; lia); [by apply (same_trans c c2)|].
      destruct H8 as [H8|H8]; [left; cbn; lia|by right].
    + destruct (Z.ltb_spec (fst y) (fst x)) as [Hlt|Hge].
      * rewrite Eyrow. cbn [mbind outcome_bind sst_pos with_cache_pos]. rewrite (proj2 (Z.leb_gt _ _)) by lia. cbn [mbind outcome_bind].
        destruct (IH (with_cache_pos c (cache_pos c + 1)) (out ++ [y]) r (x :: s) Ha2 Hr Hxs) as (c' & o & r' & s' & Eo & H1 & H2 & H3 & H4 & H5 & H6 & H7 & H8 & H9).
        exists c', (y :: o), r', s'. rewrite Eo, <- app_assoc, (proj2 (Z.ltb_ge _ _)), (proj2 (Z.eqb_neq _ _)), H5 by lia.
        split_and!; try done; try (cbn in *; lia). destruct H8 as [H8|H8]; [left; cbn; lia|by right].
      * rewrite Erow. cbn [mbind outcome_bind sst_pos with_sst_pos]. rewrite E1. cbn [mbind outcome_bind].
        destruct (IH c1 (out ++ [x]) (y :: r) s Ha1 Hyr Hs) as (c' & o & r' & s' & Eo & H1 & H2 & H3 & H4 & H5 & H6 & H7 & H8 & H9).
        exists c', (x :: o), r', s'. rewrite Eo, <- app_assoc, (proj2 (Z.ltb_lt _ _)), H5 by lia.
        split_and!; try done; try (cbn in *; lia); [by apply (same_trans c c1)|]. destruct H8 as [H8|H8]; [left; cbn; lia|by right].
Qed.

(** A block is copied from its start if it fits the buffer. *)
Definition whole c s : Prop := s = [] \/ sst_pos c = 0 \/ exists t, sst_values c = Some t /\ (cap c < Len t)%nat.

Lemma asc_block_none c r out : asc_at c r [] -> asc_block c out = Ok (c, out).
Proof. intros Ha. destruct (asc_sst_none c r Ha) as (t & Ev & Et). unfold asc_block. rewrite Ev. cbn [deref mbind outcome_bind]. by rewrite Et. Qed.

Lemma nonempty {X} (l : list X) : (0 < length l)%nat -> l <> [].
Proof. intros Hl ->. cbn in Hl. lia. Qed.

Lemma asc_block_spec c r s out : asc_at c r s -> s <> [] -> (length out < cap c)%nat -> (out = [] -> whole c s) ->
  exists c' o s', asc_block c out = Ok (c', out ++ o) /\ asc_at c' r s' /\ same_ends c c' /\ s = o ++ s' /\ o <> [] /\
    (out = [] \/ (length out + length s <= cap c)%nat -> whole c' s').
Proof.
  intros [Hc (b & bs & i & k & Hv & Hk & Ep & E & Hor)] Hne Hlen Hw.
  destruct Hor as [[Hlt Hs]|[Hge ->]]; [|by rewrite drop_ge in E]. unfold asc_block. rewrite Hv. cbn [deref mbind outcome_bind]. rewrite Len_cols, rows_cols, Ep.
  rewrite (proj2 (Z.ltb_lt _ _)) by lia.
  destruct (bool_decide (length out = 0)%nat && bool_decide (length b <= cap c)%nat) eqn:Hall.
  - apply andb_true_iff in Hall as [Ho%bool_decide_eq_true Hcap%bool_decide_eq_true]. apply nil_length_inv in Ho as ->.
    assert (i = 0%nat) as ->.
    { destruct (Hw eq_refl) as [->|[H0|(t & Et & Ht)]]; [done|lia|]. rewrite Hv in Et. injection Et as <-. rewrite Len_cols in Ht. lia. }
    destruct (next_block c k bs r (sst_pos c) Hs Hk Hc) as (c' & En & Hse & Hp & Ha). rewrite E in *. rewrite drop_0 in *.
    assert (with_sst_pos c (sst_pos c) = c) as Hself by by destruct c. rewrite Hself in En. rewrite En. cbn [mbind outcome_bind].
    exists c', b, (concat bs). split_and!; [done|done|done|done|by apply nonempty|]. intros _. by right; left.
  - rewrite (proj2 (Z.leb_le 0 _)) by lia. cbn [mbind outcome_bind]. rewrite Nat2Z.id. set (n := Nat.min (cap c - length out) (length b - i)).
    assert (0 < n <= length b - i)%nat as Hn by lia. cbn [sst_pos with_sst_pos].
    assert (drop i b = take n (drop i b) ++ drop (i + n) b) as Hsplit by (rewrite <- drop_drop; by rewrite take_drop).
    assert (take n (drop i b) <> []) as Hno by (apply nonempty; rewrite length_take, length_drop; lia).
    destruct (Z.leb_spec (Z.of_nat (length b)) (Z.of_nat i + Z.of_nat n)) as [Hle|Hgt].
    + destruct (next_block c k bs r (Z.of_nat i + Z.of_nat n) Hs Hk Hc) as (c' & En & Hse & Hp & Ha).
      rewrite (drop_ge b (i + n)), app_nil_r in Hsplit by lia. exists c', (take n (drop i b)), (concat bs).
      change (with_sst_pos c (Z.of_nat i + Z.of_nat n)) with (with_sst_pos c (Z.of_nat i + Z.of_nat n)) in En.
      rewrite En. cbn [mbind outcome_bind]. split_and!; [done|done|done|by rewrite <- Hsplit|done|]. intros _. by right; left.
    + cbn [mbind outcome_bind]. eexists _, (take n (drop i b)), (drop (i + n) b ++ concat bs). split_and!; [done| |done| |done|].
      * constructor; [exact Hc|]. exists b, bs, (i + n)%nat, k. split_and!; [done|done|cbn; lia|done|]. left. split; [lia|done].
      * by rewrite app_assoc, <- Hsplit.
      * intros Hfit. right; right. exists (cols b). rewrite Len_cols. cbn [cap with_sst_pos sst_values]. split; [done|].
        apply andb_false_iff in Hall as [Ho|Hcap]; [apply bool_decide_eq_false in Ho|by apply bool_decide_eq_false in Hcap; lia].
        destruct Hfit as [->|Hfit]; [done|]. rewrite E, length_app, length_drop in Hfit. lia.
Qed.

Lemma asc_cache_spec room : forall c out r s, asc_at c r s ->
  exists c', asc_cache raw room c out = Ok (c', out ++ take room r) /\ asc_at c' (drop room r) s /\ same_ends c c' /\ sst_pos c' = sst_pos c /\ sst_values c' = sst_values c.
Proof.
  induction room as [|room IH]; intros c out r s Ha; [exists c; by rewrite app_nil_r|]. cbn [asc_cache]. destruct r as [|x r].
  - rewrite (asc_cache_none c s Ha). exists c. by rewrite app_nil_r.
  - destruct (asc_cache_some c x r s Ha) as (-> & -> & _ & Ha'). cbn [mbind outcome_bind].
    destruct (IH _ (out ++ [x]) r s Ha') as (c' & E & H1 & H2 & H3 & H4). exists c'. rewrite E, <- app_assoc. done.
Qed.
Lemma asc_loop_none room c out s : asc_at c [] s -> asc_loop raw room c out = Ok (c, out).
Proof.
  intros Ha. destruct room as [|room]; [done|]. pose proof (asc_cache_none c s Ha) as En. destruct Ha as [_ (b & bs & i & k & Hv & _)].
  cbn [asc_loop]. rewrite Hv. cbn [deref mbind outcome_bind]. by rewrite En, andb_false_r.
Qed.

(** No values in memory are left, or the buffer holds all that is left. *)
Definition calm c r s : Prop := whole c s /\ (r = [] \/ (length r + length s <= cap c)%nat).

Lemma Next_asc_files c s : (0 < cap c)%nat -> asc_at c [] s -> whole c s ->
  exists c' o s', Next_asc raw c = Ok (c', cols (strip (fun v => end_ c <? fst v) o)) /\ asc_at c' [] s' /\ same_ends c c' /\
    s = o ++ s' /\ (o = [] -> s = []) /\ whole c' s'.
Proof.
  intros Hcap Ha Hw. unfold Next_asc. rewrite (asc_loop_none _ _ _ s Ha). cbn [mbind outcome_bind length]. rewrite bool_decide_true by done.
  destruct (decide (s = [])) as [->|Hne].
  - rewrite (asc_block_none _ _ _ Ha). cbn [mbind outcome_bind]. destruct (asc_cache_spec (cap c - 0) c [] [] [] Ha) as (c' & E & H1 & H2 & _).
    exists c', [], []. cbn [length]. rewrite E. cbn [mbind outcome_bind]. rewrite take_nil. rewrite drop_nil in H1. destruct H2 as [E1 E2]. split_and!; try done. by left.
  - destruct (asc_block_spec c [] s [] Ha Hne Hcap (fun _ => Hw)) as (c1 & o & s' & E & H1 & [E1 E2] & H3 & H4 & H5). rewrite E. cbn [mbind outcome_bind app].
    destruct (asc_cache_spec (cap c - length o) c1 o [] s' H1) as (c' & E' & H6 & [E3 E4] & H8 & H9). rewrite E1, E'. cbn [mbind outcome_bind].
    rewrite take_nil, app_nil_r. rewrite drop_nil in H6. exists c', o, s'. rewrite E4, E2. split_and!; try done; [by split; congruence|].
    destruct (H5 (or_introl eq_refl)) as [->|[H0|(t & Et & Ht)]]; [by left|by right; left; rewrite H8|]. right; right. exists t. rewrite H9, E3. done.
Qed.

Lemma Next_asc_fits c r s : asc_at c r s -> sorted r -> sorted s -> r <> [] -> (length r + length s <= cap c)%nat ->
  exists c' o s', Next_asc raw c = Ok (c', cols (strip (fun v => end_ c <? fst v) o)) /\ asc_at c' [] s' /\ same_ends c c' /\
    merged s r = o ++ s' /\ o <> [] /\ whole c' s'.
Proof.
  intros Ha Hr Hs Hne Hfit. unfold Next_asc.
  destruct (asc_loop_spec (cap c) c [] r s Ha Hr Hs) as (c1 & o & r1 & s1 & -> & Ha1 & H1 & _ & _ & Em & Hle & _ & Hor & Hnone).
  cbn [mbind outcome_bind app]. assert (0 < length r)%nat as Hr0 by (destruct r; [done|cbn; lia]).
  assert (merged s r <> []) as Hm by (apply nonempty; rewrite Em; destruct o; [destruct (Hnone eq_refl) as [H0|(_ & [->| ->] & -> & ->)]; [lia|done|exact Hr0]|cbn; lia]).
  assert (forall c2 o2 s2, asc_at c2 [] s2 -> same_ends c c2 -> merged s r = o2 ++ s2 -> o2 <> [] -> whole c2 s2 ->
    exists c' o' s', Ok (c2, NewArrayFromValues (strip (fun v => end_ c2 <? fst v) o2)) = Ok (c', cols (strip (fun v => end_ c <? fst v) o')) /\
      asc_at c' [] s' /\ same_ends c c' /\ merged s r = o' ++ s' /\ o' <> [] /\ whole c' s') as Hend.
  { intros c2 o2 s2 H2 [E1 E2] H3 H4 H5. exists c2, o2, s2. rewrite E2. split_and!; try done; by split. }
  destruct H1 as [E1 E2]. rewrite E1. case_bool_decide as Hlt; cbn [mbind outcome_bind].
  - destruct (decide (s1 = [])) as [->|Hs1].
    + rewrite (asc_block_none _ _ _ Ha1). cbn [mbind outcome_bind]. rewrite E1.
      destruct (asc_cache_spec (cap c - length o) c1 o r1 [] Ha1) as (c' & -> & H2 & H3 & _). cbn [mbind outcome_bind]. cbn [length] in *.
      rewrite drop_ge in H2 by lia. rewrite take_ge by lia. change (merged [] r1) with r1 in Em.
      apply (Hend c' _ []); [done|by apply (same_trans c c1)|by rewrite app_nil_r|by rewrite <- Em|by left].
    + assert (r1 = []) as -> by (destruct Hor as [|[|]]; [lia|done|done]). rewrite merged_nil_r in Em.
      destruct (asc_block_spec c1 [] s1 o Ha1 Hs1) as (c2 & o2 & s2 & -> & H2 & H3 & H4 & H5 & H6); [lia|intros ->; destruct (Hnone eq_refl) as [H0|(_ & _ & <- & _)]; [lia|done]|].
      cbn [mbind outcome_bind]. destruct (asc_cache_spec (cap c2 - length (o ++ o2)) c2 (o ++ o2) [] s2 H2) as (c' & -> & H7 & H8 & H9 & H10).
      cbn [mbind outcome_bind]. rewrite take_nil, app_nil_r. rewrite drop_nil in H7.
      apply (Hend c' _ s2); [done|apply (same_trans c c1); [done|by apply (same_trans c1 c2)]|by rewrite Em, H4, app_assoc| |].
      * intros Hnil. apply app_nil in Hnil as [_ Hnil]. done.
      * cbn [length] in *. destruct H6 as [->|[H0|(t & Et & Ht)]]; [right; lia|by left|right; left; by rewrite H9|right; right]. exists t. rewrite H10. destruct H8 as [-> _]. done.
  - assert (length o = cap c /\ length r1 = 0 /\ length s1 = 0)%nat as (_ & Hr1%nil_length_inv & Hs1%nil_length_inv) by lia. subst r1 s1.
    apply (Hend c1 o []); [done|done|done| |by left]. intros ->. cbn in *. lia.
Qed.

Lemma Next_asc_spec c r s : (0 < cap c)%nat -> asc_at c r s -> sorted r -> sorted s -> calm c r s ->
  exists c' o s', Next_asc raw c = Ok (c', cols (strip (fun v => end_ c <? fst v) o)) /\ asc_at c' [] s' /\ same_ends c c' /\
    merged s r = o ++ s' /\ (o = [] -> s' = []) /\ whole c' s'.
Proof.
  intros Hcap Ha Hr Hs [Hw Hor]. destruct (decide (r = [])) as [->|Hne].
  - destruct (Next_asc_files c s Hcap Ha Hw) as (c' & o & s' & H1 & H2 & H3 & H4 & H5 & H6). exists c', o, s'. rewrite merged_nil_r.
    split_and!; try done. intros ->. by rewrite (H5 eq_refl) in H4.
  - destruct Hor as [|Hfit]; [done|]. destruct (Next_asc_fits c r s Ha Hr Hs Hne Hfit) as (c' & o & s' & H1 & H2 & H3 & H4 & H5 & H6).
    exists c', o, s'. split_and!; [done..|by intros ->|done].
Qed.
(** ** Descending: the rows that are left, the last one first *)
Definition down s r : list (Z * A) := reverse (merged (reverse s) (reverse r)).

Lemma down_nil_l r : down [] r = r.
Proof. unfold down. rewrite reverse_nil. change (reverse (reverse r) = r). by rewrite reverse_involutive. Qed.

Lemma down_nil_r s : down s [] = s.
Proof. unfold down. by rewrite reverse_nil, merged_nil_r, reverse_involutive. Qed.

Lemma reversed_cons x r : sorted (reverse (x :: r)) <-> sorted (reverse r) /\ forall y, y ∈ r -> fst y < fst x.
Proof.
  rewrite reverse_cons. split.
  - unfold sorted. intros H. apply StronglySorted_app in H as (H3 & H1 & _). split; [done|]. intros y Hy. apply H3; [by apply elem_of_reverse|by left].
  - intros [H1 H2]. apply sorted_app; [done|by repeat constructor|]. intros v w Hv ->%list_elem_of_singleton. apply H2. by apply elem_of_reverse.
Qed.

Lemma down_cons x s y r : sorted (reverse (x :: s)) -> sorted (reverse (y :: r)) ->
  down (x :: s) (y :: r) = if fst y =? fst x then y :: down s r else if fst x <? fst y then y :: down (x :: s) r else x :: down s (y :: r).
Proof.
  intros Hs Hr. apply reversed_cons in Hs as Hs', Hr as Hr'. destruct Hs' as [Hs1 Hx], Hr' as [Hr1 Hy]. unfold down.
  assert (forall u v z, sorted (reverse u) -> sorted (reverse v) -> (forall w, w ∈ u \/ w ∈ v -> fst w < fst z) ->
    series (merged (reverse (x :: s)) (reverse (y :: r))) = <[fst z := z]> (series (merged (reverse u) (reverse v))) ->
    reverse (merged (reverse (x :: s)) (reverse (y :: r))) = z :: reverse (merged (reverse u) (reverse v))) as Hstep.
  { intros u v z Hu Hv Hz Hse. rewrite <- reverse_snoc. f_equal. destruct (merged_spec _ _ Hu Hv) as (Hm & Hin & _). apply sorted_ext.
    - by apply merged_spec.
    - apply sorted_app; [done|by repeat constructor|]. intros w w' Hw ->%list_elem_of_singleton. apply Hz. apply Hin in Hw. by rewrite !elem_of_reverse in Hw.
    - by rewrite series_snoc. }
  destruct (merged_spec _ _ Hs Hr) as (_ & _ & E). rewrite !reverse_cons, !series_snoc in E.
  assert (forall u : list (Z * A), (forall v, v ∈ u -> fst v < fst x) -> series (reverse u) !! fst x = None) as Hnone.
  { intros u Hu. apply series_lookup_None. intros v Hv Et. rewrite elem_of_reverse in Hv. specialize (Hu v Hv). cbn in Et. lia. }
  destruct (Z.eqb_spec (fst y) (fst x)) as [Heq|Hne]; [|destruct (Z.ltb_spec (fst x) (fst y)) as [Hlt|Hge]].
  - apply (Hstep s r y); [done|done|intros w [Hw|Hw]; [rewrite Heq; by apply Hx|by apply Hy]|]. destruct (merged_spec _ _ Hs1 Hr1) as (_ & _ & ->). rewrite !reverse_cons, E, <- Heq.
    apply map_eq. intros t. destruct (decide (t = fst y)) as [->|Ht]; [rewrite lookup_insert_eq; apply lookup_union_Some_raw; left; by rewrite lookup_insert_eq|].
    by rewrite lookup_insert_ne, !lookup_union, !lookup_insert_ne by done.
  - apply (Hstep (x :: s) r y); [done|done|intros w [[->|Hw]%elem_of_cons|Hw]; [done|specialize (Hx w Hw); lia|by apply Hy]|].
    destruct (merged_spec _ _ Hs Hr1) as (_ & _ & ->). rewrite !reverse_cons, E, series_snoc. by rewrite insert_union_l.
  - apply (Hstep s (y :: r) x); [done|done|intros w [Hw|[->|Hw]%elem_of_cons]; [by apply Hx|lia|specialize (Hy w Hw); lia]|].
    destruct (merged_spec _ _ Hs1 Hr) as (_ & _ & ->). rewrite !reverse_cons, E, series_snoc.
    rewrite insert_union_r; [done|]. rewrite lookup_insert_ne by lia. apply Hnone. intros v Hv. specialize (Hy v Hv). lia.
Qed.
(** The rows that are left of the cache, and of the blocks, the last one first. *)
Record desc_at c r s : Prop := {
  da_cache : exists R i, cached (cache_values c) R /\ cache_pos c = Z.of_nat i - 1 /\ r = reverse (take i R) /\ (i <= length R)%nat;
  da_sst : exists b bs i k, sst_values c = Some (cols b) /\ keyCursor c = Some k /\ sst_pos c = Z.of_nat i - 1 /\ (i <= length b)%nat /\
    s = reverse (take i b) ++ concat (reverse <$> bs) /\ ((0 < i)%nat /\ serves (kc_Next k) bs \/ i = 0%nat /\ bs = []) }.

Lemma last_row {X} (l : list X) i : (0 < i <= length l)%nat -> exists (x : X), l !! (i - 1)%nat = Some x /\ reverse (take i l) = x :: reverse (take (i - 1) l).
Proof.
  intros Hi. destruct i as [|i]; [lia|]. destruct (lookup_lt_is_Some_2 l i) as [x Hx]; [lia|]. exists x. cbn [Nat.sub]. rewrite Nat.sub_0_r. split; [done|].
  by rewrite (take_S_r _ _ _ Hx), reverse_snoc.
Qed.

Lemma reverse_take_length {X} (l : list X) i : (i <= length l)%nat -> length (reverse (take i l)) = i.
Proof. intros Hi. rewrite length_reverse, length_take. lia. Qed.

Lemma desc_cache_none c s : desc_at c [] s -> (0 <=? cache_pos c) = false.
Proof. intros [(R & i & Hc & -> & E & Hi) _]. apply (f_equal length) in E. rewrite reverse_take_length in E by done. cbn in E. apply Z.leb_gt. lia. Qed.

Lemma desc_cache_some c x r s : desc_at c (x :: r) s ->
  (0 <=? cache_pos c) = true /\ cache_row raw c (cache_pos c) = Ok x /\ cache_time c (cache_pos c) = Ok (fst x) /\
  desc_at (with_cache_pos c (cache_pos c - 1)) r s.
Proof.
  intros [(R & i & Hc & Ep & E & Hi) Hs]. pose proof (f_equal length E) as El. rewrite reverse_take_length in El by done. cbn in El.
  destruct (last_row R i) as (y & Hy & Ey); [lia|]. rewrite Ey in E. injection E as -> ->.
  assert (cache_pos c = Z.of_nat (i - 1)) as Ep' by lia. destruct (cache_at c R (i - 1) y Hc Hy) as [H1 H2]. rewrite <- Ep' in H1, H2.
  split_and!; [apply Z.leb_le; lia|done|done|]. constructor; [|exact Hs]. exists R, (i - 1)%nat. split_and!; [done|cbn; lia|done|lia].
Qed.

Lemma desc_sst_none c r : desc_at c r [] -> (0 <=? sst_pos c) = false.
Proof.
  intros [_ (b & bs & i & k & _ & _ & -> & Hi & E & _)]. symmetry in E. apply app_nil in E as [E _]. apply (f_equal length) in E.
  rewrite reverse_take_length in E by done. cbn in E. apply Z.leb_gt. lia.
Qed.

Lemma next_desc_block c k bs r i : serves (kc_Next k) bs -> keyCursor c = Some k ->
  (exists R j, cached (cache_values c) R /\ cache_pos c = Z.of_nat j - 1 /\ r = reverse (take j R) /\ (j <= length R)%nat) ->
  exists c', nextSST_desc (with_sst_pos c i) = Ok c' /\ same_ends c c' /\ desc_at c' r (concat (reverse <$> bs)).
Proof.
  intros Hs Hk Hc. unfold nextSST_desc. cbn [keyCursor with_sst_pos]. rewrite Hk. cbn [deref mbind outcome_bind].
  inversion Hs as [? k' E|? k' b' bs' E Hne Hs']; subst; rewrite E; cbn [mbind outcome_bind deref]; rewrite Len_cols; eexists; (split; [done|]); (split; [done|]); (constructor; [exact Hc|]).
  - exists [], [], 0%nat, k'. by split_and!; try right.
  - exists b', bs', (length b'), k'. split_and!; try done. { by rewrite firstn_all. } left. split; [|done]. destruct b'; [done|cbn; lia].
Qed.

Lemma desc_sst_some c r x s : desc_at c r (x :: s) -> exists t, sst_values c = Some t /\ (0 <=? sst_pos c) = true /\
  sst_row t (sst_pos c) = Ok x /\ sst_time t (sst_pos c) = Ok (fst x) /\
  exists c', (if sst_pos c - 1 <? 0 then nextSST_desc (with_sst_pos c (sst_pos c - 1)) else Ok (with_sst_pos c (sst_pos c - 1))) = Ok c' /\
    same_ends c c' /\ desc_at c' r s.
Proof.
  intros [Hc (b & bs & i & k & Hv & Hk & Ep & Hi & E & Hor)]. exists (cols b). split; [done|].
  destruct Hor as [[Hi0 Hs]|[-> ->]]; [|done]. destruct (last_row b i) as (y & Hy & Ey); [lia|]. rewrite Ey in E. injection E as -> Es.
  assert (sst_pos c = Z.of_nat (i - 1)) as Ep' by lia. destruct (sst_at b (i - 1) y Hy) as [H1 H2]. rewrite <- Ep' in H1, H2. split_and!; [apply Z.leb_le; lia|done|done|].
  destruct (Z.ltb_spec (sst_pos c - 1) 0) as [Hlt|Hge].
  - destruct (next_desc_block c k bs r (sst_pos c - 1) Hs Hk Hc) as (c' & E' & H3 & H4). exists c'. split_and!; [done|done|].
    replace (i - 1)%nat with 0%nat in Es by lia. by rewrite Es.
  - eexists. split_and!; [done|done|]. constructor; [exact Hc|]. exists b, bs, (i - 1)%nat, k. split_and!; [done|done|cbn; lia|lia|done|]. left. split; [lia|done].
Qed.

Lemma desc_loop_spec room : forall c out r s, desc_at c r s -> sorted (reverse r) -> sorted (reverse s) ->
  exists c' o r' s', desc_loop raw room c out = Ok (c', out ++ o) /\ desc_at c' r' s' /\ same_ends c c' /\ sorted (reverse r') /\ sorted (reverse s') /\
    down s r = o ++ down s' r' /\ (length o <= room)%nat /\ (length o = room \/ r' = [] \/ s' = []).
Proof.
  induction room as [|room IH]; intros c out r s Ha Hr Hs.
  - exists c, [], r, s. rewrite app_nil_r. by split_and!; try left.
  - destruct s as [|x s].
    { exists c, [], r, []. rewrite app_nil_r. cbn [desc_loop]. rewrite (desc_sst_none c r Ha). split_and!; try done; [cbn; lia|by right; right]. }
    destruct (desc_sst_some c r x s Ha) as (t & Ev & Et & Erow & Etime & c1 & E1 & Hse & Ha1).
    destruct r as [|y r].
    { exists c, [], [], (x :: s). rewrite app_nil_r. cbn [desc_loop]. rewrite Et, (desc_cache_none c _ Ha). split_and!; try done; [cbn; lia|by right; left]. }
    destruct (desc_cache_some c y r _ Ha) as (En & Eyrow & Eytime & Ha2). cbn [desc_loop]. rewrite Et, En, Ev, Eytime. cbn [andb deref mbind outcome_bind].
    rewrite Etime. cbn [mbind outcome_bind]. rewrite down_cons by done. apply reversed_cons in Hr as Hr', Hs as Hs'. destruct Hr' as [Hr1 _], Hs' as [Hs1 _].
    destruct (Z.eqb_spec (fst y) (fst x)) as [Heq|Hne]; [|destruct (Z.ltb_spec (fst x) (fst y)) as [Hlt|Hge]].
    + rewrite Eyrow. cbn [mbind outcome_bind]. destruct (desc_sst_some (with_cache_pos c (cache_pos c - 1)) r x s Ha2) as (t' & Ev' & _ & _ & _ & c2 & E2 & Hse2 & Ha3).
      cbn [sst_pos with_sst_pos with_cache_pos] in E2 |- *. rewrite E2. cbn [mbind outcome_bind].
      destruct (IH c2 (out ++ [y]) r s Ha3 Hr1 Hs1) as (c' & o & r' & s' & Eo & H1 & H2 & H3 & H4 & H5 & H6 & H7).
      exists c', (y :: o), r', s'. rewrite Eo, <- app_assoc, H5. split_and!; try done; [by apply (same_trans c c2)|cbn; lia|]. destruct H7 as [H7|H7]; [left; cbn; lia|by right].
    + rewrite Eyrow. cbn [mbind outcome_bind sst_pos with_cache_pos]. rewrite (proj2 (Z.ltb_ge _ _)) by (apply Z.leb_le in Et; lia). cbn [mbind outcome_bind].
      destruct (IH _ (out ++ [y]) r (x :: s) Ha2 Hr1 Hs) as (c' & o & r' & s' & Eo & H1 & H2 & H3 & H4 & H5 & H6 & H7).
      exists c', (y :: o), r', s'. rewrite Eo, <- app_assoc, H5. split_and!; try done; [cbn; lia|]. destruct H7 as [H7|H7]; [left; cbn; lia|by right].
    + rewrite Erow. cbn [mbind outcome_bind sst_pos with_sst_pos]. rewrite E1. cbn [mbind outcome_bind].
      destruct (IH c1 (out ++ [x]) (y :: r) s Ha1 Hr Hs1) as (c' & o & r' & s' & Eo & H1 & H2 & H3 & H4 & H5 & H6 & H7).
      exists c', (x :: o), r', s'. rewrite Eo, <- app_assoc, H5. split_and!; try done; [by apply (same_trans c c1)|cbn; lia|]. destruct H7 as [H7|H7]; [left; cbn; lia|by right].
Qed.

Lemma desc_blocks_spec room : forall c out r s, desc_at c r s ->
  exists c', desc_blocks room c out = Ok (c', out ++ take room s) /\ desc_at c' r (drop room s) /\ same_ends c c'.
Proof.
  induction room as [|room IH]; intros c out r s Ha; [exists c; by rewrite app_nil_r|]. cbn [desc_blocks]. destruct s as [|x s].
  - rewrite (desc_sst_none c r Ha). exists c. by rewrite app_nil_r.
  - destruct (desc_sst_some c r x s Ha) as (t & -> & -> & Erow & _ & c1 & E1 & Hse & Ha1). cbn [deref mbind outcome_bind]. rewrite Erow. cbn [mbind outcome_bind sst_pos with_sst_pos].
    rewrite E1. cbn [mbind outcome_bind]. destruct (IH c1 (out ++ [x]) r s Ha1) as (c' & -> & H1 & H2). exists c'. rewrite <- app_assoc. split_and!; [done|done|by apply (same_trans c c1)].
Qed.

Lemma desc_cache_spec room : forall c out r s, desc_at c r s ->
  exists c', desc_cache raw room c out = Ok (c', out ++ take room r) /\ desc_at c' (drop room r) s /\ same_ends c c'.
Proof.
  induction room as [|room IH]; intros c out r s Ha; [exists c; by rewrite app_nil_r|]. cbn [desc_cache]. destruct r as [|x r].
  - rewrite (desc_cache_none c s Ha). exists c. by rewrite app_nil_r.
  - destruct (desc_cache_some c x r s Ha) as (-> & -> & _ & Ha'). cbn [mbind outcome_bind].
    destruct (IH _ (out ++ [x]) r s Ha') as (c' & -> & H1 & H2). exists c'. by rewrite <- app_assoc.
Qed.

Lemma sorted_reverse_drop n s : sorted (reverse s) -> sorted (reverse (drop n s)).
Proof. rewrite <- (take_drop n s) at 1. rewrite reverse_app. unfold sorted. by intros H%StronglySorted_app_1_l. Qed.

Lemma Next_desc_spec c r s : (0 < cap c)%nat -> desc_at c r s -> sorted (reverse r) -> sorted (reverse s) ->
  exists c' o r' s', Next_desc raw c = Ok (c', cols (strip (fun v => fst v <? end_ c) o)) /\ desc_at c' r' s' /\ same_ends c c' /\
    sorted (reverse r') /\ sorted (reverse s') /\ down s r = o ++ down s' r' /\ (o = [] -> down s' r' = []).
Proof.
  intros Hcap Ha Hr Hs. unfold Next_desc.
  destruct (desc_loop_spec (cap c) c [] r s Ha Hr Hs) as (c1 & o & r1 & s1 & -> & Ha1 & [E1 E2] & Hr1 & Hs1 & Em & Hle & Hor). cbn [mbind outcome_bind app].
  destruct (desc_blocks_spec (cap c1 - length o) c1 o r1 s1 Ha1) as (c2 & -> & Ha2 & [E3 E4]). cbn [mbind outcome_bind].
  destruct (desc_cache_spec (cap c2 - length (o ++ take (cap c1 - length o) s1)) c2 (o ++ take (cap c1 - length o) s1) r1 _ Ha2) as (c3 & -> & Ha3 & [E5 E6]).
  cbn [mbind outcome_bind]. rewrite length_app, length_take, E3, E1 in *. assert (end_ c3 = end_ c) as -> by congruence.
  eexists c3, _, _, _. split; [reflexivity|]. split; [exact Ha3|]. split; [split; congruence|]. split; [by apply sorted_reverse_drop|]. split; [by apply sorted_reverse_drop|].
  rewrite Em, <- !app_assoc. destruct (decide (length o = cap c)) as [Hfull|Hfull].
  - replace (cap c - length o)%nat with 0%nat by lia. replace (cap c - (length o + Nat.min 0 (length s1)))%nat with 0%nat by lia. cbn [take drop app].
    split; [done|]. rewrite app_nil_r. intros ->. cbn in Hfull. lia.
  - destruct Hor as [|[->| ->]]; [done| |].
    + rewrite take_nil, drop_nil, !down_nil_r. cbn [app]. rewrite take_drop. split; [done|]. rewrite app_nil_r. intros [-> Hn]%app_nil. cbn [length] in *.
      destruct s1; [by rewrite drop_nil|]. rewrite Nat.sub_0_r in Hn. destruct (cap c); [lia|done].
    + cbn [length]. rewrite Nat.min_0_r, take_nil, drop_nil, Nat.add_0_r, !down_nil_l. cbn [app]. rewrite take_drop. split; [done|]. intros [-> Hn]%app_nil. cbn [length] in *.
      destruct r1; [by rewrite drop_nil|]. rewrite Nat.sub_0_r in Hn. destruct (cap c); [lia|done].
Qed.
(** ** Stripping what is past the end *)
Definition stays (p : Z * A -> bool) x y : Prop := p x = true -> p y = true.

Lemma strip_filter p l : StronglySorted (stays p) l -> strip p l = filter (fun v => p v = false) l.
Proof.
  induction l as [|x l IH] using rev_ind; intros Hl; [done|]. apply StronglySorted_app in Hl as (Hlx & Hl & _). specialize (IH Hl). unfold strip in *.
  rewrite reverse_snoc, filter_app. cbn [drop_while]. destruct (p x) eqn:E.
  - rewrite IH, filter_cons_False by congruence. by rewrite app_nil_r.
  - rewrite filter_cons_True by done. rewrite reverse_cons, reverse_involutive. f_equal. symmetry. apply filter_all, Forall_forall. intros y Hy.
    destruct (p y) eqn:Ey; [|done]. specialize (Hlx y x Hy ltac:(by left) Ey). congruence.
Qed.

Lemma filter_none_app p l1 l2 : StronglySorted (stays p) (l1 ++ l2) -> l1 <> [] -> filter (fun v => p v = false) l1 = [] -> filter (fun v => p v = false) l2 = [].
Proof.
  intros H Hne E. apply StronglySorted_app in H as (H & _ & _). destruct l1 as [|x l1]; [done|]. apply filter_none. intros y Hy.
  destruct (p x) eqn:Ex; [|by rewrite filter_cons_True in E]. rewrite (H x y ltac:(by left) Hy Ex). done.
Qed.

(** ** Reading to the end *)
Inductive outputs (next : cursor K A -> outcome (cursor K A * Array A)) : cursor K A -> list (list (Z * A)) -> Prop :=
| outputs_end c c' : next c = Ok (c', cols []) -> outputs next c []
| outputs_more c c' o os : next c = Ok (c', cols o) -> o <> [] -> outputs next c' os -> outputs next c (o :: os).

Lemma outputs_spec next (inv : cursor K A -> list (Z * A) -> Prop) p :
  (forall c l, inv c l -> exists c' o l', next c = Ok (c', cols (strip p o)) /\ l = o ++ l' /\ (o = [] -> l' = []) /\ inv c' l') ->
  forall n c l, (length l <= n)%nat -> inv c l -> StronglySorted (stays p) l ->
  exists os, outputs next c os /\ Forall (fun o => o <> []) os /\ concat os = filter (fun v => p v = false) l.
Proof.
  intros Hstep n. induction n as [|n IH]; intros c l Hn Hi Hl; destruct (Hstep c l Hi) as (c' & o & l' & E & -> & Ho & Hi').
  all: pose proof (StronglySorted_app_1_l _ _ _ Hl) as Hol; pose proof (StronglySorted_app_1_r _ _ _ Hl) as Hl'; rewrite strip_filter in E by done; rewrite filter_app.
  all: destruct (filter (fun v => p v = false) o) as [|x f] eqn:Ef; [exists []; split_and!; [by eapply outputs_end|done|]|].
  all: try (destruct (decide (o = [])) as [->|Hne]; [by rewrite Ho|symmetry; by apply (filter_none_app p o l')]).
  all: assert (o <> []) as Hne by (by intros ->); rewrite length_app in Hn; destruct o as [|y o]; [done|]; cbn [length] in Hn.
  { lia. }
  destruct (IH c' l' ltac:(lia) Hi' Hl') as (os & H1 & H2 & H3). exists ((x :: f) :: os). split_and!; [by eapply outputs_more|by constructor|cbn; by rewrite H3].
Qed.
(** ** Where a cursor starts *)
Lemma search_rows (f : Z -> bool) (times : nat -> Z) r : sorted r -> (forall m n : Z, m <= n -> f m = true -> f n = true) ->
  (forall i x, r !! i = Some x -> times i = fst x) ->
  let p := Search (length r) (fun i => f (times i)) in
  (p <= length r)%nat /\ drop p r = filter (fun v => f (fst v) = true) r /\ take p r = filter (fun v => f (fst v) = false) r.
Proof.
  intros Hr Hf Ht p. destruct (Search_spec (fun i => f (times i)) (length r)) as (Hp & Hlo & Hhi).
  { intros i j Hij. destruct (lookup_lt_is_Some_2 r i) as [x Hx]; [lia|]. destruct (lookup_lt_is_Some_2 r j) as [y Hy]; [lia|].
    rewrite (Ht i x Hx), (Ht j y Hy). apply Hf. destruct (decide (i = j)) as [->|Hne]; [simplify_eq; lia|].
    rewrite <- (take_drop_middle r j y Hy) in Hr. assert (x ∈ take j r) as Hin by (apply list_elem_of_lookup; exists i; apply lookup_take_Some; split; [done|lia]).
    pose proof (StronglySorted_app_1_elem_of _ _ _ _ _ Hr Hin ltac:(by left)) as Hlt. cbn in Hlt. lia. }
  fold p in Hp, Hlo, Hhi. assert (forall v, v ∈ take p r -> f (fst v) = false) as Htake.
  { intros v [i [Hi Hl]%lookup_take_Some]%list_elem_of_lookup. rewrite <- (Ht i v Hi). by apply Hlo. }
  assert (forall v, v ∈ drop p r -> f (fst v) = true) as Hdrop.
  { intros v [i Hi]%list_elem_of_lookup. rewrite lookup_drop in Hi. rewrite <- (Ht _ v Hi). apply Hhi. apply lookup_lt_Some in Hi. lia. }
  split; [done|]. rewrite <- (take_drop p r) at 2 4. rewrite !filter_app. split.
  - rewrite (filter_none _ (take p r)), (filter_in _ (drop p r)); [done|done|]. intros v Hv. by rewrite (Htake v Hv).
  - rewrite (filter_in _ (take p r)), (filter_none _ (drop p r)); [by rewrite app_nil_r| |done]. intros v Hv. by rewrite (Hdrop v Hv).
Qed.
Lemma cached_time l r i x : cached l r -> r !! i = Some x -> time_at l i = fst x.
Proof. intros Hc Hx. destruct (cached_lookup _ _ _ _ Hc Hx) as (v & Hv & _ & Ht). unfold time_at. by rewrite Hv. Qed.

Lemma block_time b i x : b !! i = Some x -> Timestamps (cols b) !!! i = fst x.
Proof. intros Hx. apply list_lookup_total_correct. unfold cols. cbn. by rewrite list_lookup_fmap, Hx. Qed.

Lemma Reset_asc_spec c seek last l r k bs : cached l r -> sorted r -> serves k bs -> sorted (concat bs) -> Forall (fun v => seek <= fst v) (concat bs) ->
  exists c', Reset_asc c seek last l k = Ok c' /\ asc_at c' (filter (fun v => seek <= fst v) r) (concat bs) /\ cap c' = cap c /\ end_ c' = last /\ sst_pos c' = 0.
Proof.
  intros Hc Hr Hs Hsd Hall. unfold Reset_asc.
  destruct (search_rows (fun t => seek <=? t) (time_at l) r Hr ltac:(intros m n; cbn beta; lia) (fun i x => cached_time l r i x Hc)) as (Hp & Hd & _).
  rewrite <- (Forall2_length _ _ _ Hc) in Hd, Hp. set (p := Search _ _) in *.
  assert (drop p r = filter (fun v => seek <= fst v) r) as Hd' by (rewrite Hd; apply list_filter_iff; intros v; cbn beta; lia).
  assert (forall b k', sorted b -> Forall (fun v => seek <= fst v) b -> Search (Len (cols b)) (fun i => seek <=? Timestamps (cols b) !!! i) = 0%nat) as H0.
  { intros b _ Hb Hge. destruct (search_rows (fun t => seek <=? t) (fun i => Timestamps (cols b) !!! i) b Hb ltac:(intros m n; cbn beta; lia) (block_time b)) as (Hq & _ & Ht).
    rewrite Len_cols. rewrite Forall_forall in Hge. rewrite (filter_none _ b) in Ht by (intros v Hv; specialize (Hge v Hv); cbn; lia).
    set (q := Search _ _) in *. apply (f_equal length) in Ht. rewrite length_take in Ht. cbn [length] in Ht. lia. }
  inversion Hs as [? k' E|? k' b bs' E Hne Hs']; subst; rewrite E; cbn [mbind outcome_bind deref].
  - rewrite (H0 [] k') by constructor. eexists. split; [done|]. split_and!; try done. constructor.
    + exists r, p. by split_and!.
    + exists [], [], 0%nat, k'. split_and!; try done. right. split; [cbn; lia|done].
  - cbn [concat] in Hsd, Hall. apply Forall_app in Hall as [Hb _]. unfold sorted in Hsd. apply StronglySorted_app_1_l in Hsd.
    rewrite (H0 b k') by done. eexists. split; [done|]. split_and!; try done. constructor.
    + exists r, p. by split_and!.
    + exists b, bs', 0%nat, k'. split_and!; try done. left. split; [|done]. destruct b; [done|cbn; lia].
Qed.

Lemma StronglySorted_weaken {X} (P Q : X -> X -> Prop) (l : list X) : (forall v w, P v w -> Q v w) -> StronglySorted P l -> StronglySorted Q l.
Proof. intros HPQ. induction 1 as [|v l Hl IH Hv]; constructor; [done|]. eapply Forall_impl; [exact Hv|]. intros w. apply HPQ. Qed.

(** After [Reset], an ascending cursor gives the values of the blocks and of the cache
    that are not before [seek] nor after the end, in the order of time and the cache over the
    blocks, if the cache has no value from [seek] on or the buffer holds all there is. *)
Theorem ascending_reads c seek last l r k bs : (0 < cap c)%nat -> cached l r -> sorted r -> serves k bs -> sorted (concat bs) ->
  Forall (fun v => seek <= fst v) (concat bs) -> let r' := filter (fun v => seek <= fst v) r in
  r' = [] \/ (length r' + length (concat bs) <= cap c)%nat ->
  exists c' os, Reset_asc c seek last l k = Ok c' /\ outputs (Next_asc raw) c' os /\ Forall (fun o => o <> []) os /\
    concat os = filter (fun v => fst v <= last) (merged (concat bs) r').
Proof.
  intros Hcap Hc Hr Hs Hsd Hge r' Hor. destruct (Reset_asc_spec c seek last l r k bs Hc Hr Hs Hsd Hge) as (c' & E & Ha & E1 & E2 & E3). fold r' in Ha.
  assert (sorted r') as Hr' by by apply sorted_filter. destruct (merged_spec _ _ Hsd Hr') as (Hm & _).
  destruct (outputs_spec (Next_asc raw) (fun c l => exists r s, end_ c = last /\ (0 < cap c)%nat /\ asc_at c r s /\ sorted r /\ sorted s /\ calm c r s /\ l = merged s r)
    (fun v => last <? fst v)) with (n := length (merged (concat bs) r')) (c := c') (l := merged (concat bs) r') as (os & H1 & H2 & H3).
  - intros c1 m (r1 & s1 & <- & H2 & H3 & H4 & H5 & H6 & ->). destruct (Next_asc_spec c1 r1 s1 H2 H3 H4 H5 H6) as (c2 & o & s2 & En & H7 & [H8 H9] & H10 & H11 & H12).
    exists c2, o, s2. split_and!; [done|done|done|]. exists [], s2. destruct (merged_spec _ _ H5 H4) as (Hs2 & _). rewrite H10 in Hs2. rewrite merged_nil_r.
    split_and!; [done|lia|done|constructor|by apply StronglySorted_app_1_r in Hs2|split; [done|by left]|done].
  - done.
  - exists r', (concat bs). split_and!; try done; [by rewrite E1|]. split; [right; by left|by rewrite E1].
  - eapply StronglySorted_weaken; [|exact Hm]. intros x y Hxy. unfold stays. cbn in Hxy. lia.
  - exists c', os. split_and!; [done..|]. rewrite H3. apply list_filter_iff. intros v. cbn beta. lia.
Qed.

Lemma concat_reverse bs : concat (reverse <$> bs) = reverse (concat (reverse bs)).
Proof.
  induction bs as [|b bs IH]; [done|]. cbn [fmap list_fmap concat]. rewrite IH, (reverse_cons bs b), concat_app. cbn [concat].
  by rewrite app_nil_r, reverse_app.
Qed.

Lemma Reset_desc_spec c seek last l r k bs : cached l r -> sorted r -> serves k bs -> sorted (concat (reverse bs)) -> Forall (fun v => fst v <= seek) (concat bs) ->
  exists c', Reset_desc c seek last l k = Ok c' /\ desc_at c' (reverse (filter (fun v => fst v <= seek) r)) (reverse (concat (reverse bs))) /\ cap c' = cap c /\ end_ c' = last.
Proof.
  intros Hc Hr Hs Hsd Hall. unfold Reset_desc.
  destruct (search_rows (fun t => seek <? t) (time_at l) r Hr ltac:(intros m n; cbn beta; lia) (fun i x => cached_time l r i x Hc)) as (Hp & _ & Ht).
  rewrite <- (Forall2_length _ _ _ Hc) in Ht, Hp. set (p := Search _ _) in *.
  assert (take p r = filter (fun v => fst v <= seek) r) as Ht' by (rewrite Ht; apply list_filter_iff; intros v; cbn beta; lia).
  rewrite <- concat_reverse in *. rewrite (Forall2_length _ _ _ Hc) in Hp.
  inversion Hs as [? k' E|? k' b bs' E Hne Hs']; subst; rewrite E; cbn [mbind outcome_bind deref]; (eexists; split; [done|]); (split_and!; try done); constructor;
    [exists r, p; by rewrite Ht'|exists [], [], 0%nat, k'; split_and!; try done; by right|exists r, p; by rewrite Ht'|].
  rewrite (reverse_cons bs' b), concat_app in Hsd. cbn [concat] in Hsd, Hall. rewrite app_nil_r in Hsd. apply Forall_app in Hall as [Hb _]. unfold sorted in Hsd. apply StronglySorted_app_1_r in Hsd.
  destruct (search_rows (fun t => seek <? t) (fun i => Timestamps (cols b) !!! i) b Hsd ltac:(intros m n; cbn beta; lia) (block_time b)) as (Hq & Hd & _).
  rewrite Len_cols. rewrite Forall_forall in Hb. rewrite (filter_none _ b) in Hd by (intros v Hv; specialize (Hb v Hv); cbn; lia).
  set (q := Search _ _) in Hq, Hd. change (Search _ _) with q. assert (q = length b) as -> by (apply (f_equal length) in Hd; rewrite length_drop in Hd; cbn [length] in Hd; lia).
  exists b, bs', (length b), k'. split_and!; try done. { by rewrite firstn_all. } left. split; [destruct b; [done|cbn; lia]|done].
Qed.

(** After [Reset], a descending cursor gives the values of the blocks and of the cache
    that are not after [seek] nor before the end, against the order of time and the cache over
    the blocks. *)
Theorem descending_reads c seek last l r k bs : (0 < cap c)%nat -> cached l r -> sorted r -> serves k bs -> sorted (concat (reverse bs)) ->
  Forall (fun v => fst v <= seek) (concat bs) ->
  exists c' os, Reset_desc c seek last l k = Ok c' /\ outputs (Next_desc raw) c' os /\ Forall (fun o => o <> []) os /\
    concat os = reverse (filter (fun v => last <= fst v) (merged (concat (reverse bs)) (filter (fun v => fst v <= seek) r))).
Proof.
  intros Hcap Hc Hr Hs Hsd Hle. destruct (Reset_desc_spec c seek last l r k bs Hc Hr Hs Hsd Hle) as (c' & E & Ha & E1 & E2).
  set (r' := filter _ r) in *. assert (sorted r') as Hr' by by apply sorted_filter. destruct (merged_spec _ _ Hsd Hr') as (Hm & _).
  assert (down (reverse (concat (reverse bs))) (reverse r') = reverse (merged (concat (reverse bs)) r')) as Hd by (unfold down; by rewrite !reverse_involutive).
  destruct (outputs_spec (Next_desc raw) (fun c l => exists r s, end_ c = last /\ (0 < cap c)%nat /\ desc_at c r s /\ sorted (reverse r) /\ sorted (reverse s) /\ l = down s r)
    (fun v => fst v <? last)) with (n := length (merged (concat (reverse bs)) r')) (c := c') (l := reverse (merged (concat (reverse bs)) r')) as (os & H1 & H2 & H3).
  - intros c1 m (r1 & s1 & <- & H2 & H3 & H4 & H5 & ->). destruct (Next_desc_spec c1 r1 s1 H2 H3 H4 H5) as (c2 & o & r2 & s2 & En & H7 & [H8 H9] & H10 & H11 & H12 & H13).
    exists c2, o, (down s2 r2). split_and!; [done|done|done|]. exists r2, s2. split_and!; [done|lia|done..].
  - by rewrite length_reverse.
  - exists (reverse r'), (reverse (concat (reverse bs))). rewrite !reverse_involutive. split_and!; try done; by rewrite E1.
  - generalize (merged (concat (reverse bs)) r') Hm. intros m. induction m as [|x m IH] using rev_ind; intros Hx; [constructor|]. unfold sorted in Hx. apply StronglySorted_app in Hx as (Hlt & Hm1 & _).
    rewrite reverse_snoc. constructor; [by apply IH|]. apply Forall_forall. intros y Hy. rewrite elem_of_reverse in Hy. specialize (Hlt y x Hy ltac:(by left)). unfold stays. cbn in Hlt. lia.
  - exists c', os. split_and!; [done..|]. rewrite H3, filter_reverse. f_equal. apply list_filter_iff. intros v. cbn beta. lia.
Qed.
(** A block that cannot be read gives no array, and its error is dropped. *)
Lemma unreadable_block_panics c seek last l k k' : kc_Read k = Ok (k', None) ->
  Reset_asc c seek last l k = Panic /\ Reset_desc c seek last l k = Panic.
Proof. intros E. unfold Reset_asc, Reset_desc. by rewrite E. Qed.

(** ** A block that is copied twice *)
Lemma asc_loop_cache room : forall c out r x s, (length r <= room)%nat -> asc_at c r (x :: s) -> (forall v, v ∈ r -> fst v < fst x) ->
  exists c', asc_loop raw room c out = Ok (c', out ++ r) /\ asc_at c' [] (x :: s) /\ same_ends c c' /\ sst_pos c' = sst_pos c /\ sst_values c' = sst_values c /\ keyCursor c' = keyCursor c.
Proof.
  induction room as [|room IH]; intros c out r x s Hroom Ha Hlt.
  { destruct r; [|cbn in Hroom; lia]. exists c. by rewrite app_nil_r. }
  destruct r as [|y r]; [exists c; rewrite (asc_loop_none _ _ _ _ Ha), app_nil_r; by split_and!|].
  destruct (asc_sst_some c _ x s Ha) as (t & Ev & Et & _ & Etime & _). destruct (asc_cache_some c y r _ Ha) as (En & Erow & Eytime & Ha').
  specialize (Hlt y ltac:(by left)) as Hy. cbn [asc_loop]. rewrite Ev. cbn [deref mbind outcome_bind]. rewrite Et, En, Eytime. cbn [andb mbind outcome_bind].
  rewrite Etime. cbn [mbind outcome_bind]. rewrite (proj2 (Z.eqb_neq _ _)), (proj2 (Z.ltb_lt _ _)) by lia. rewrite Erow. cbn [mbind outcome_bind sst_pos with_cache_pos].
  rewrite (proj2 (Z.leb_gt _ _)) by lia. cbn [mbind outcome_bind]. cbn [length] in Hroom.
  destruct (IH _ (out ++ [y]) r x s ltac:(lia) Ha') as (c' & -> & H1 & H2 & H3 & H4 & H5); [intros v Hv; apply Hlt; by right|].
  exists c'. rewrite <- app_assoc. split_and!; try done. by rewrite H4.
Qed.

Lemma strip_none last (l : list (Z * A)) : Forall (fun v => fst v <= last) l -> strip (fun v => last <? fst v) l = l.
Proof.
  intros Hl. unfold strip. assert (drop_while (fun v => last <? fst v) (reverse l) = reverse l) as ->; [|by rewrite reverse_involutive].
  rewrite Forall_forall in Hl. destruct (reverse l) as [|x l'] eqn:E; [done|]. cbn [drop_while]. rewrite (proj2 (Z.ltb_ge _ _)); [done|].
  apply Hl. apply elem_of_reverse. rewrite E. by left.
Qed.

(** At a row of the last block. *)
Definition at_row c r b (i : nat) : Prop :=
  (exists R j, cached (cache_values c) R /\ cache_pos c = Z.of_nat j /\ r = drop j R) /\ sst_values c = Some (cols b) /\ sst_pos c = Z.of_nat i /\ (i < length b)%nat /\
  exists k, keyCursor c = Some k /\ serves (kc_Next k) [].

Lemma at_row_asc c r b i : at_row c r b i -> asc_at c r (drop i b).
Proof. intros (Hc & Hv & Hp & Hi & k & Hk & Hs). constructor; [exact Hc|]. exists b, [], i, k. cbn. rewrite app_nil_r. split_and!; try done. by left. Qed.

Lemma loop_to_row room c r b : (length r <= room)%nat -> at_row c r b 0 -> (forall v w, v ∈ r -> w ∈ b -> fst v < fst w) ->
  exists c', asc_loop raw room c [] = Ok (c', r) /\ at_row c' [] b 0 /\ same_ends c c'.
Proof.
  intros Hroom Hat Hlt. pose proof (at_row_asc _ _ _ _ Hat) as Ha. rewrite drop_0 in Ha. destruct Hat as (_ & Hv & Hp & Hi & Hk). destruct b as [|x b]; [cbn in Hi; lia|].
  destruct (asc_loop_cache room c [] r x b Hroom Ha) as (c' & E & [Hc' _] & H2 & H3 & H4 & H5); [intros v Hv'; apply Hlt; [done|by left]|].
  exists c'. split; [exact E|]. split; [|done]. split; [exact Hc'|]. rewrite H3, H4, H5. done.
Qed.

Lemma Forall_take (P : Z * A -> Prop) n (l : list (Z * A)) : Forall P l -> Forall P (take n l).
Proof. rewrite <- (take_drop n l) at 1. by intros [? _]%Forall_app. Qed.

Lemma Next_begins c r b : at_row c r b 0 -> (forall v w, v ∈ r -> w ∈ b -> fst v < fst w) -> Forall (fun v => fst v <= end_ c) (r ++ b) ->
  (0 < length r < cap c)%nat -> (cap c < length r + length b)%nat ->
  exists c', Next_asc raw c = Ok (c', cols (r ++ take (cap c - length r) b)) /\ at_row c' [] b (cap c - length r) /\ same_ends c c'.
Proof.
  intros Hat Hlt Hall Hr Hcap. destruct (loop_to_row (cap c) c r b ltac:(lia) Hat Hlt) as (c1 & El & (Hc1 & Hv & Hp & Hi & Hk) & [E1 E2]).
  set (n := (cap c - length r)%nat) in *. assert (0 < n < length b)%nat as Hn by lia. set (c2 := with_sst_pos c1 (Z.of_nat n)).
  assert (at_row c2 [] b n) as Hat2 by (split; [exact Hc1|]; split_and!; [done|done|lia|exact Hk]). exists c2. split_and!; [|done|done].
  unfold Next_asc. rewrite El. cbn [mbind outcome_bind]. rewrite E1, bool_decide_true by lia. unfold asc_block. rewrite Hv. cbn [deref mbind outcome_bind].
  rewrite Len_cols, Hp, rows_cols, (proj2 (Z.ltb_lt _ _)), (bool_decide_false (length r = 0)%nat) by lia. cbn [andb]. change (0 <=? Z.of_nat 0) with true. cbn [mbind outcome_bind].
  change (Z.to_nat (Z.of_nat 0)) with 0%nat. rewrite E1, drop_0, Nat.sub_0_r. fold n. rewrite (Nat.min_l n) by lia. change (Z.of_nat 0 + Z.of_nat n) with (Z.of_nat n).
  fold c2. cbn [sst_pos with_sst_pos c2]. rewrite (proj2 (Z.leb_gt _ _)) by lia. cbn [mbind outcome_bind]. rewrite length_app, length_take.
  replace (cap c2 - (length r + n `min` length b))%nat with 0%nat by (cbn [cap with_sst_pos c2]; lia). cbn [asc_cache mbind outcome_bind].
  cbn [end_ with_sst_pos c2]. rewrite E2, strip_none; [done|]. apply Forall_app in Hall as [Hrr Hbb]. apply Forall_app. split; [done|by apply Forall_take].
Qed.

Lemma Next_again c b i : at_row c [] b i -> Forall (fun v => fst v <= end_ c) b -> (length b <= cap c)%nat ->
  exists c', Next_asc raw c = Ok (c', cols b) /\ asc_at c' [] [] /\ same_ends c c'.
Proof.
  intros Hat Hall Hcap. pose proof (at_row_asc _ _ _ _ Hat) as Ha. destruct Hat as (Hc & Hv & Hp & Hi & k & Hk & Hs).
  destruct (next_block c k [] [] (sst_pos c) Hs Hk Hc) as (c3 & N & H1 & _ & Ha3). assert (with_sst_pos c (sst_pos c) = c) as Hself by by destruct c. rewrite Hself in N.
  unfold Next_asc. rewrite (asc_loop_none _ _ _ _ Ha). cbn [mbind outcome_bind length]. rewrite bool_decide_true by lia. unfold asc_block. rewrite Hv. cbn [deref mbind outcome_bind].
  rewrite Len_cols, rows_cols, Hp, (proj2 (Z.ltb_lt _ _)), (bool_decide_true (length b <= cap c)%nat) by lia. change (bool_decide (length [] = 0)%nat && true) with true. cbn iota. rewrite N.
  cbn [mbind outcome_bind]. destruct (asc_cache_spec (cap c3 - length b) c3 b [] _ Ha3) as (c4 & -> & H2 & H3 & _). cbn [mbind outcome_bind]. rewrite drop_nil in H2.
  destruct (same_trans c c3 c4 H1 H3) as [E1 E2]. exists c4. rewrite take_nil, app_nil_r, E2, strip_none by done. by split_and!.
Qed.

(** C33: Values of the cache before the last block, which fits the buffer but not what is left
    of it: the block is begun, and then copied once more from its start. *)
Theorem ascending_repeats c seek last l r k b : cached l r -> sorted r -> serves k [b] -> sorted b -> Forall (fun v => seek <= fst v <= last) (r ++ b) ->
  (forall v w, v ∈ r -> w ∈ b -> fst v < fst w) -> (0 < length r < cap c)%nat -> (length b <= cap c < length r + length b)%nat ->
  exists c', Reset_asc c seek last l k = Ok c' /\ outputs (Next_asc raw) c' [r ++ take (cap c - length r) b; b].
Proof.
  intros Hc Hr Hs Hb Hall Hlt Hr0 Hcap. destruct (Reset_asc_spec c seek last l r k [b] Hc Hr Hs) as (c0 & E & [Ha _] & E1 & E2 & E3).
  { cbn. by rewrite app_nil_r. } { cbn. rewrite app_nil_r. apply Forall_app in Hall as [_ Hall]. eapply Forall_impl; [exact Hall|]. cbn. lia. }
  exists c0. split; [done|]. rewrite filter_all in Ha by (apply Forall_app in Hall as [Hall _]; eapply Forall_impl; [exact Hall|cbn; lia]).
  assert (at_row c0 r b 0) as Hat.
  { split; [exact Ha|]. inversion Hs as [|? k' b0 bs0 Er Hne Hs']; subst b0 bs0. unfold Reset_asc in E. rewrite Er in E. cbn [mbind outcome_bind deref] in E. injection E as <-.
    split_and!; [done|exact E3|destruct b; [done|cbn; lia]|by exists k']. }
  destruct (Next_begins c0 r b Hat Hlt) as (c1 & N1 & Hat1 & [E4 E5]); [rewrite E2; eapply Forall_impl; [exact Hall|cbn; lia]|lia|lia|]. rewrite E1 in N1, E4.
  destruct (Next_again c1 b _ Hat1) as (c2 & N2 & Ha2 & [E6 E7]); [rewrite E5, E2; apply Forall_app in Hall as [_ Hall]; eapply Forall_impl; [exact Hall|cbn; lia]|lia|].
  destruct (Next_asc_files c2 [] ltac:(lia) Ha2 ltac:(by left)) as (c3 & o & s3 & N3 & _ & _ & Eo & _). symmetry in Eo. apply app_nil in Eo as [-> _].
  eapply outputs_more; [exact N1| |]. { destruct r; [cbn in Hr0; lia|done]. }
  eapply outputs_more; [exact N2| |]. { apply nonempty. lia. } by eapply outputs_end.
Qed.
End laws.

(** ** Blocks of a list *)
Definition list_blocks : BlockCursor (list (list (Z * Z))) Z := {|
  kc_Next := tail;
  kc_Read k := Ok (k, Some (cols (default [] (head k))));
  kc_Close := fun k => k |}.

Lemma list_serves bs : Forall (fun b => b <> []) bs -> serves (B := list_blocks) bs bs.
Proof. induction 1 as [|b bs Hb Hbs IH]; [by eapply serves_end|]. by eapply (serves_block (B := list_blocks)). Qed.

Definition sample_cache : list Value := [IntegerValue 1 10; IntegerValue 2 20; IntegerValue 4 40].
Definition sample_cached : list (Z * Z) := [(1, 10); (2, 20); (4, 40)].
Definition small : cursor (list (list (Z * Z))) Z := MkArrayCursor [] 0 None 0 None 0 4.

Lemma sample_cached_ok : cached integer_raw sample_cache sample_cached.
Proof. by repeat constructor. Qed.

Lemma ascending_reads_witness : sorted (V := Z * Z) sample_cached /\
  exists c os, Reset_asc (H := list_blocks) small 4 9 sample_cache [[(4, 41)]; [(5, 51); (7, 71)]] = Ok c /\ outputs (Next_asc (H := list_blocks) integer_raw) c os /\
    Forall (fun o => o <> []) os /\ concat os = [(4, 40); (5, 51); (7, 71)].
Proof.
  split; [by repeat constructor|]. apply (ascending_reads (B := list_blocks) integer_raw small 4 9 sample_cache sample_cached _ [[(4, 41)]; [(5, 51); (7, 71)]]).
  - vm_compute. lia.
  - apply sample_cached_ok.
  - by repeat constructor.
  - by apply list_serves; repeat constructor.
  - by repeat constructor.
  - repeat constructor; by vm_compute.
  - right. vm_compute. lia.
Defined.

Lemma descending_reads_witness : sorted (V := Z * Z) sample_cached /\
  exists c os, Reset_desc (H := list_blocks) small 6 2 sample_cache [[(4, 41); (5, 51)]; [(0, 1); (3, 31)]] = Ok c /\ outputs (Next_desc (H := list_blocks) integer_raw) c os /\
    Forall (fun o => o <> []) os /\ concat os = [(5, 51); (4, 40); (3, 31); (2, 20)].
Proof.
  split; [by repeat constructor|]. apply (descending_reads (B := list_blocks) integer_raw small 6 2 sample_cache sample_cached _ [[(4, 41); (5, 51)]; [(0, 1); (3, 31)]]).
  - vm_compute. lia.
  - apply sample_cached_ok.
  - by repeat constructor.
  - by apply list_serves; repeat constructor.
  - by repeat constructor.
  - repeat constructor; by vm_compute.
Defined.

Lemma ascending_repeats_witness : sorted (V := Z * Z) sample_cached /\
  exists c, Reset_asc (H := list_blocks) small 1 9 sample_cache [[(5, 51); (7, 71)]] = Ok c /\
    outputs (Next_asc (H := list_blocks) integer_raw) c [[(1, 10); (2, 20); (4, 40); (5, 51)]; [(5, 51); (7, 71)]].
Proof.
  split; [by repeat constructor|]. apply (ascending_repeats (B := list_blocks) integer_raw small 1 9 sample_cache sample_cached _ [(5, 51); (7, 71)]).
  - apply sample_cached_ok.
  - by repeat constructor.
  - by apply list_serves; repeat constructor.
  - by repeat constructor.
  - repeat constructor; by vm_compute.
  - intros v w Hv Hw. unfold sample_cached in Hv. repeat (apply elem_of_cons in Hv as [->|Hv]; [repeat (apply elem_of_cons in Hw as [->|Hw]; [by vm_compute|]); by apply elem_of_nil in Hw|]). by apply elem_of_nil in Hv.
  - vm_compute. lia.
  - vm_compute. lia.
Defined.

End ArrayCursorLaws.
