(* ===== verification/CursorRuns.v ===== *)
(** Cursors over the values of a key in memory and in the files of a store, from the making of
    the cursor over the files on: KeyCursorRuns.v and ArrayCursorLaws.v put together. *)
From stdpp Require Import gmap sorting.
From S2P Require Import Prelude Values ArrayValues SSTIndex SSTReader KeyCursor MergeLaws KeyCursorLaws KeyCursorRuns ArrayCursor ArrayCursorLaws Samples.
Import Values ArrayValues MergeLaws KeyCursor KeyCursorLaws KeyCursorRuns ArrayCursor ArrayCursorLaws.

Module CursorRuns.

#[local] Existing Instance row_value.

Section reads.
Context {F : Type} `{SSTFile F} {A : Type} (zero : A) (raw : Value -> option A).
Context (ReadBlockAt : F -> SSTIndex.IndexEntry -> unit -> outcome (Array A * unit)) (k : list Z).
#[local] Existing Instance array_columns.
Abbreviation read := (ReadBlock (H0 := array_columns zero) ReadBlockAt).
Abbreviation blocks := (key_cursor read).

Lemma delivers_serves gs c st bs : delivers (Cl := array_columns zero) cols ReadBlockAt gs c st bs -> serves (B := blocks) (gs, c) bs.
Proof.
  induction 1 as [c st c' st' E|c st c' st' b bs E Hne Hd IH]; destruct st, st'.
  - eapply serves_end. cbn [kc_Read key_cursor fst snd]. by rewrite E.
  - eapply (serves_block (B := blocks) _ (gs, c')); [|done|exact IH]. cbn [kc_Read key_cursor fst snd]. by rewrite E.
Qed.

Context (Href : forall f, f_Path (f_Ref f) = f_Path f /\ f_TombstoneRange (f_Ref f) k = f_TombstoneRange f k /\
  forall e st, ReadBlockAt (f_Ref f) e st = ReadBlockAt f e st).
Context (rows_of : nat -> SSTIndex.IndexEntry -> list (Z * A)) (fs : list F) (entries : list (list SSTIndex.IndexEntry)) (Hlen : length entries = length fs).
Context (Hfiles : forall i f es, fs !! i = Some f -> entries !! i = Some es ->
  file_ok cols ReadBlockAt k (fun _ => True) rows_of i f es).
Context (Hpaths : forall i j f f', fs !! i = Some f -> fs !! j = Some f' -> f_Path f = f_Path f' -> i = j).

Definition Reset (asc : bool) := if asc then Reset_asc (H := blocks) else Reset_desc (H := blocks).
Definition Next_ (asc : bool) := if asc then Next_asc (H := blocks) raw else Next_desc (H := blocks) raw.

(** C4: A cursor on a key from [seek] to [last], either way, gives in its order exactly the
    values of the cache, and where the cache has none those of the files that were not deleted
    and that no later file covers; ascending, the cache has no value from [seek] on. [seek] is
    not the last time there is in its direction, from which the files give nothing; and no
    block found overlaps one of an earlier file and one of a later file that is wholly before
    that ([untangled]), where the order of the blocks goes round in a circle. *)
Theorem cursor_values sort (asc : bool) (c : cursor (list F * KeyCursor) A) seek last l r : sorts sort -> (0 < cap c)%nat -> cached raw l r -> sorted r ->
  (if asc then MinInt64 < seek <= MaxInt64 /\ Forall (fun v => fst v < seek) r else MinInt64 <= seek < MaxInt64) ->
  (forall ls, locations fs k seek asc = Ok ls -> untangled fs ls) ->
  exists gs kc c' os, newKeyCursor sort fs k seek asc = Ok (gs, kc) /\ Reset asc c seek last l (gs, kc) = Ok c' /\ outputs (Next_ asc) c' os /\
    sorted (if asc then concat os else reverse (concat os)) /\
    forall v, v ∈ concat os <-> (if asc then seek <= fst v <= last else last <= fst v <= seek) /\
      (v ∈ r \/ newest k rows_of fs entries v /\ forall w, w ∈ r -> fst w <> fst v).
Proof.
  intros Hsort Hcap Hc Hr Ht Hw.
  assert (if asc then MinInt64 < seek <= MaxInt64 else MinInt64 <= seek < MaxInt64) as Ht' by (destruct asc; tauto).
  destruct (cursor_content cols (Cl := array_columns zero) (Laws := array_columns_laws zero) ReadBlockAt k (fun _ => True) Href rows_of fs entries Hlen Hfiles Hpaths sort seek asc tt Hsort I Ht' Hw) as (gs & kc & bs & E & Hd & Hne & Hsd & Hcont).
  apply delivers_serves in Hd. destruct asc.
  - destruct Ht as [Ht Hbefore]. rewrite Forall_forall in Hbefore.
    assert (filter (fun v => seek <= fst v) r = []) as Ef by (apply filter_none; intros v Hv; specialize (Hbefore v Hv); cbn; lia).
    destruct (ascending_reads (B := blocks) raw c seek last l r (gs, kc) bs Hcap Hc Hr Hd Hsd) as (c' & os & E' & Ho & _ & Eo).
    { apply Forall_forall. intros v Hv. apply (sorted_series_in _ v Hsd) in Hv. by apply Hcont in Hv as [? _]. } { by left. }
    exists gs, kc, c', os. rewrite Ef, merged_nil_r in Eo. split_and!; [done|done|done|rewrite Eo; by apply sorted_filter|].
    intros v. rewrite Eo, list_elem_of_filter, (sorted_series_in _ v Hsd), Hcont. split.
    + intros (H1 & H2 & H3). split; [lia|]. right. split; [done|]. intros w Hw'. specialize (Hbefore w Hw'). lia.
    + intros [H1 [H2|[H2 _]]]; [specialize (Hbefore v H2); lia|]. split_and!; [lia|lia|done].
  - destruct (descending_reads (B := blocks) raw c seek last l r (gs, kc) bs Hcap Hc Hr Hd Hsd) as (c' & os & E' & Ho & _ & Eo).
    { apply Forall_forall. intros v Hv. rewrite <- (reverse_Permutation bs) in Hv. apply (sorted_series_in _ v Hsd) in Hv. by apply Hcont in Hv as [? _]. }
    set (r' := filter (fun v => fst v <= seek) r) in *. assert (sorted r') as Hr' by by apply sorted_filter. destruct (merged_spec _ _ Hsd Hr') as (Hm & _ & Hser).
    exists gs, kc, c', os. split_and!; [done|done|done|rewrite Eo, reverse_involutive; by apply sorted_filter|].
    intros v. rewrite Eo, elem_of_reverse, list_elem_of_filter, (sorted_series_in _ v Hm), Hser, lookup_union_Some_raw, Hcont, <- (sorted_series_in _ v Hr'). unfold r'. rewrite list_elem_of_filter.
    rewrite series_lookup_None. setoid_rewrite list_elem_of_filter. change (UnixNano ?w) with (fst w). split.
    + intros (H1 & [[H2 H3]|(H2 & H3 & H4)]); [split; [lia|by left]|]. split; [lia|]. right. split; [done|]. intros w Hw' Et. apply (H2 w); [split; [lia|done]|done].
    + intros [H1 [H2|[H2 H3]]]; (split; [lia|]); [left; split; [lia|done]|]. right. split_and!; [|lia|done]. intros w [_ Hw'] Et. by apply (H3 w).
Qed.
End reads.

(** The value 3 of the cache is in both files, 5 is deleted. *)
Lemma cursor_values_witness : sorts (X := location) insertion /\
  exists gs kc c os, newKeyCursor (H := reader_file) insertion sample_files [97] 4 false = Ok (gs, kc) /\
    Reset 0 sample_read false ArrayCursor.NewArrayCursor 4 0 [IntegerValue 2 20; IntegerValue 3 33] (gs, kc) = Ok c /\
    outputs (Next_ 0 integer_raw sample_read false) c os /\ sorted (reverse (concat os)) /\
    forall v, v ∈ concat os <-> 0 <= fst v <= 4 /\ (v ∈ [(2, 20); (3, 33)] \/ newest [97] sample_rows sample_files sample_entries v /\ forall w, w ∈ [(2, 20); (3, 33)] -> fst w <> fst v).
Proof.
  split; [apply insertion_sorts|].
  apply (cursor_values (H := reader_file) 0 integer_raw sample_read [97] (fun f => conj eq_refl (conj eq_refl (fun e st => eq_refl))) sample_rows sample_files sample_entries eq_refl sample_files_ok).
  - intros [|[|i]] [|[|j]] f f' Hf Hf' Hp; try done; cbn in Hf, Hf'; injection Hf as <-; injection Hf' as <-; done.
  - apply insertion_sorts.
  - vm_compute. lia.
  - by repeat constructor.
  - by repeat constructor.
  - done.
  - intros ls E. vm_compute in E. injection E as <-. intros a b c. rewrite !elem_of_cons, !elem_of_nil.
    intros [->|[->|[]]] [->|[->|[]]] [->|[->|[]]]; by vm_compute.
Defined.

End CursorRuns.
